(* ===== verification/_CoqProject ===== *)
-Q . S2P
Prelude.v
BTree.v
Platform.v
Net.v
F32.v
Json.v
CoreTypes.v
Scoring.v
Masking.v
CorePolicy.v
Detectors.v
Normalize.v
Firewall.v
Adapter.v
ToolCall.v
Runner.v
Event.v
Authority.v
Fingerprint.v
Fifo.v
Taint.v
Action.v
Egress.v
AgentPolicy.v
Engine.v
Spans.v
Judge.v
Grant.v
Manifest.v
PinStore.v
HookMap.v
Config.v
Resources.v
Daemon.v
Native.v
NativeProps.v
McpInput.v
McpClassify.v
McpAdmission.v
McpRelay.v
McpDaemon.v
RateLimit.v
Spend.v
ProxyEvents.v
ProxyInput.v
AgentScan.v
Sse.v
Sandbox.v
Capability.v
ProxyStream.v
TenantDb.v
TenantDirectory.v
TenantScim.v
TenantSession.v
TenantPolicy.v
TenantUsage.v
TenantAccess.v
TenantScene.v
TenantGuards.v
TenantOnce.v
TenantHistory.v
TenantLedger.v
Oidc.v
PortalTypes.v
Portal.v
PortalProps.v
LoginProps.v
PortalScene.v
RedisLimits.v
RedisProps.v
Gateway.v
GatewayProps.v
GatewayClaims.v
GatewayScene.v
Steps.v
Scim.v
Admin.v
AdminProps.v
Saml.v
Startup.v
