(* ===== verification/Prelude.v ===== *)
(** * soup-wall: a verification development

    The program is a firewall for language-model applications and agents, written in
    Rust (the crates under [crates/]).  This development models its decision-making core
    as executable Rocq functions and proves what makes each part correct.

    ** The program's parts and how they interact

    - [crates/core] inspects one text: detectors produce findings, findings are scored,
      a policy decides (allow, flag, mask or block), and spans may be masked.  A normalizer undoes
      obfuscation before a second pass of the detectors.
    - [crates/agent] inspects the events of an agent: tool calls, tool results, subagent
      spawns and reports, MCP manifests.  It keeps per-session taint (which content came
      from untrusted sources), per-session authority (which tools an agent holds), and
      evaluates a first-match policy over the signals of an event.
    - [crates/agentfw] is the local daemon around it: hook payloads become events
      ([map.rs], [provenance.rs]), escalations go to a local judge ([judge.rs]), human
      approvals are single-use signed grants ([grant.rs]), MCP manifests are pinned
      ([mcp/manifest.rs], [mcp/store.rs]) and [handlers.rs] ties these together.  A trusted
      collector can have the daemon admit a runtime's own tools ([native.rs]); the collector
      shipped with it is a relay in front of an MCP server ([mcp/admission.rs], with the
      input profile [mcp/input.rs] and the resources of a call, [mcp/resources.rs]).  Tools can
      run their shell, file and network operations through it ([sandbox.rs]), which executes
      only what the firewall allowed.
    - [crates/adapter] is the contract with remote policy services and the tool-call
      runner that validates, classifies, decides and executes.
    - [crates/proxy] is an HTTP proxy in front of model providers.  It scans the text of a
      request with the core firewall ([pipeline.rs]), projects requests and responses of
      three providers into common events ([events.rs]), shows the tool calls of a response
      to the agent firewall ([agent_scan.rs]) and to explicit grants ([capability.rs]),
      inspects streamed responses chunk by chunk before forwarding them ([responses.rs],
      [handlers.rs]), and meters traffic: request windows, spend reservations, usage events.
      Its control plane ([tenant_store.rs]) keeps customers in an SQL database: organizations,
      tenants, workspaces and their members, directory users and groups an identity provider
      pushes, federated logins and browser sessions, versioned policies with their deployments
      and webhooks, usage evidence with reconciliation, retention and quotas.  Customers reach it
      through a portal ([oidc_auth.rs]): they log in at their organization's OpenID provider
      ([oidc.rs], [oidc_token.rs]) and then use the endpoints of their workspace with a session
      cookie.  [main.rs] checks the configuration ([config.rs]) and the environment, opens the
      backends and listens.

    ** Files

    Shared: [Prelude] (results, machine integers, UTF-8 strings as byte strings, sorting,
    tactics and hint databases), [BTree] ([BTreeMap] and [BTreeSet] as sorted lists with
    their laws), [Platform] (Unicode case tables and the regex crate as type classes of
    operations with documented laws), [F32] (binary32 arithmetic on the Standard
    Library's [SpecFloat]), [Json] ([serde_json::Value], objects as [BTreeMap]s),
    [Net] (integers, IP addresses and character classes as the standard library reads them),
    [Fifo] (the bounded table with a queue that the taint tracker and the span cache
    both use).

    - core: [CoreTypes] ([severity], [finding], [taxonomy], [context], [util]), [Scoring],
      [Masking], [CorePolicy], [Detectors] (injection heuristics and signatures, PII,
      secrets, output rules), [Normalize], [Firewall] (the end-to-end [run]).
    - adapter: [Adapter] (envelopes and their validation, verdict lattice), [ToolCall]
      (classification scores, the bounded JSON-schema validator), [Runner].
    - agent: [Event] (events, provenance, facets), [Authority], [Fingerprint] (winnowed
      Rabin-Karp), [Taint], [Action], [Egress], [AgentPolicy] (rules and the shipped
      policy file), [Engine] ([inspect], the MCP handshake, the native two-step release).
    - agentfw: [Spans], [Judge] (with [decision.rs]), [Grant], [Manifest], [PinStore],
      [HookMap] (hook payloads, provenance, bearer check), [Config], [Daemon] (the [hook] and
      [mcp] endpoints on one [AppState], and the MCP relay's decision), [Resources] (what a
      call's arguments name), [Native] (the native admission endpoint, one request a step)
      with [NativeProps], [McpInput] (schemas and arguments), [McpClassify] (classifiers and
      the production policy, strict JSON), [McpAdmission] (the admission relay: one step per
      line, in a monad of effects and errors) with [McpRelay], [McpDaemon] (the relay
      against the endpoint), and [Sandbox] (the guarded operations: each returns its result, the
      firewall and the effects it had outside).
    - proxy: [RateLimit], [Spend] (the spend ledger and usage events), [ProxyEvents] (wire
      models and common events), [ProxyInput] (the text pipeline), [AgentScan] (extraction,
      one cycle through the agent firewall, reassembly of streamed calls), [Sse] (the
      event-stream decoder), [Capability], [ProxyStream] (refusals, the checks of a buffered
      response, and one step per chunk of the two streaming loops; the agent firewall shared
      by all requests is threaded through every step), [RedisLimits] (the Lua scripts that
      share limits between proxies) with [RedisProps], and [Gateway] (a model request as a
      whole: the middleware of [auth.rs], the three handlers of [handlers.rs], moderation and the
      audit queue, as steps in a monad that keeps what is done to the outside as a list of
      effects) with [GatewayProps] (the effects of each part), [GatewayClaims] (the theorems)
      and [GatewayScene] (requests evaluated).
    - control plane: [TenantDb] (the tables of the schema as finite maps and append-only logs,
      in one [Db]; tokens, validation, and the transaction [atomically], which keeps the old
      database when the body fails), [TenantDirectory] (organizations, tenants, principals,
      memberships, invitations, service accounts, administrators, tokens, limits, audit),
      [TenantScim] (directory users, groups and their mappings), [TenantSession] (connections,
      login states, verified logins, permission checks, browser sessions), [TenantPolicy]
      (versions, approvals, deployments, simulation, security events and webhooks),
      [TenantUsage] (events, reports, statements, retention, quotas, the calendar).
      [TenantAccess] makes them one transition system: a [Request] per mutating operation, [exec],
      [run], and the [reachable] databases, with the invariant [wf] that joins the directory to the
      members.  [TenantScene] is a concrete deployment the theorems are applied to;
      [TenantGuards], [TenantOnce], [TenantHistory] and [TenantLedger] hold
      the theorems.
    - customer portal: [Oidc] (sealed login states, proofs against cross-site requests, provider
      metadata, token exchange, ID tokens), [PortalTypes] (cookies, what customers see, the usage
      export, responses), [Portal] (the endpoints: each a sequence of steps, where other requests
      commit and the clock moves between two steps, in a monad with early return; [route] is the
      router's table).  [PortalProps] and [LoginProps] hold the theorems and
      [PortalScene] evaluates a login and a request.  [Saml] is login through SAML, with the
      protocol crate as a class of functions and its replay cache as a state, and its theorems.
    - administration and provisioning: [Steps] (an endpoint as store calls with other requests in
      between, and the rules for what it asks of the store), [Scim] (the SCIM endpoints and
      their PatchOp parser, with their theorems), [Admin] (the administration endpoints, the router's
      table with each path, the role a method and a path require) with [AdminProps].
    - startup: [Startup] (configuration, its defaults and overrides, the checks, [migrate],
      [preflight] and the service, with what is asked of the outside in order).

    State is a record per component, with one function per operation that returns the new
    state; [Result] is [result], [Option] is [option], a panic of [mask] is [None].  The
    definitions keep the source's names, qualified by the file where two components use
    one name ([Taint.record] and [PinStore.record]), or with a short prefix where Rust
    relies on the type ([hook_decide], [span_put]).  Each file's opening comment names its
    sources.

    ** Parameters

    Code that is not part of the repository is an argument: the regex engine, Unicode case
    tables, NFKC and base64, SHA-256 and HMAC, [serde_json] and [serde_yaml], the judge's
    HTTP exchange, the clock, what the file system answers, AES-GCM, the [url],
    [jsonwebtoken] and [saml_rs] crates and the identity provider's HTTP answers.  Hypotheses about them
    state documented behaviour only (regex matches lie in the text, ASCII case mapping,
    escaped control characters in JSON, the digest's length, decryption undoing encryption,
    claims decoded only from a token signed by the key) or the absence of a digest
    collision between two given inputs; concrete instances show they can hold.

    ** What the theorems show

    - End to end: a literal that entered a session with untrusted content cannot drive a
      destructive or privilege-changing call past the shipped policy, through the engine and
      through the daemon's hook, until the session ends or its literal table overflows; only a verified approval of exactly this call waives a prompt, and
      an approval is used once, also across restarts; without enforcement the daemon never
      speaks.
    - Taint: reports are sound and earliest, memory is bounded; winnowing finds every shared
      run of sufficient length and the rolling hash is the hash of each window.
    - Policy and authority: the shipped rules never let a weaker verdict pre-empt a stronger
      one, authority only flows down from root grants, an escalating spawn is denied, the
      judge can only tighten.
    - Core: invisible-character evasion does not hide findings, masking replaces what was
      detected, scores are bounded.
    - MCP: pins are exact up to digest collisions, drift is detected and shown, shadowed
      names are flagged across a run, the relay withholds exactly on an enforced prompt or denial.
    - Guarded execution ([Sandbox]): at most one effect outside, allowed by the inspection of
      that operation (its paths as text) and confined to the workspace, the sandbox or the allowlisted host; so
      the kill chain is cut at the executor too.
    - Native admission and its relay: results are released exactly when the firewall allows
      every text, a call identity is spent by its completion, sessions and calls are bounded,
      resource grants are checked against the arguments themselves; the relay forwards no
      call and shows no result without a matching receipt, writes nothing for a line it
      refuses (a pipe that breaks may have taken some first bytes of a line), uses no request
      identifier twice, and accepts the receipts the endpoint issues when their reason codes are
      within its limits, so that an admitted call comes back to the host.
    - Contracts: remote answers are accepted exactly under the documented conditions, the
      runner executes exactly what the baseline policy allows, schema validation terminates
      within its fuel and closed schemas are closed.
    - Proxy: a request is blocked exactly when the firewall refuses a segment and is otherwise
      forwarded with every segment masked and nothing else changed, and the segments hold the
      texts of all messages and the tool results of the Chat wire (not of the Anthropic one); a
      tool cycle reads the same on the three wires; chunk boundaries do not change what is decoded
      as long as it decodes, and a streamed call with arguments is judged as the buffered one; no
      chunk that decodes is forwarded before the calls it completes were judged, so the kill chain
      is cut on streams too; capability grants are complete and
      matched by path component.
    - Control plane, over every reachable database and any sequence of requests: who may act
      ([TenantGuards]: a user the directory made inactive stays out of every check, session and
      login; sessions never permit more than the permission check; customer requests change
      nothing without the role they require and always leave audit entries in the actor's name; the
      last owner stays); what happens once ([TenantOnce]: invitations, login states, rotated
      sessions); what is enforced ([TenantHistory]: deployments refine an append-only log, the
      data plane reads exactly the active approved version, a simulation predicts its
      deployment); and what is counted ([TenantLedger]: the calendar is the
      Gregorian one, retention spares the current month and reconciled events so no quota
      status changes, importing a statement is idempotent up to digest collisions).
    - Portal, with other requests interleaved between the steps of a request: a request that is
      not refused acts for the live session of its cookie, with its permission: it answers with
      what is the session's, or has a proof against cross-site requests and writes through one
      governed store operation ([PortalProps]); the callback sets a cookie only for an identity in a
      token that the organization's provider gave for the code and signed with a key it publishes, for
      the organization the login was started for, once per login, and what login sends comes back as it was
      sent ([LoginProps]); the same for the consumer of SAML answers
      ([Saml]), whose replay cache is bounded and refuses what it holds.
    - Administration and provisioning, with other requests interleaved: an administrator's request is
      refused or made with a live credential of the role its method and path require, an operator
      never decides on administrators, policies in force, logins or deletion ([AdminProps]); a SCIM
      request changes only the directory of its credential's organization and lets nobody
      into a workspace ([Scim]).
    - Metering: at most twice the limit passes in a window's length, budgets hold for every
      reachable ledger, costs are exact; over all proxies that share a Redis the limit of a
      window and the budget hold too, with commands and answers lost, as long as clocks keep their
      distance to within a second ([RedisProps]).
    - Gateway, with other requests interleaved, commands lost and clients disconnecting at any
      step ([GatewayClaims]): nothing is sent upstream but the masked request of an
      caller known as the deployment is configured, within its limits and model policy, and to its own
      provider; a reservation is ended exactly once, with what the ledger confirmed of it; an answered
      request of a tenant issues exactly one audit event, whose fate is recorded; the client sees
      only what was inspected.
    - Startup: a proxy that listens on the network is closed to callers without a token and has no
      key of its own to spend, which is carried through to every model request it sends on; the
      dry run predicts the start, with its two exceptions stated.

    Theorems that show a limit of the code (a pin or a diff that can be fooled, a ledger
    that forgets under a clock rollback or a torn write, a reservation that outlives its
    window, an undecodable frame that hides the calls before it, tool results one wire does
    not scan, an assignment that unseats the last owner, and others) stand beside the properties they bound.

    ** Bounds and fuel

    The schema validator recurses on fuel [MAX_SCHEMA_DEPTH + 2]; the source stops at
    [MAX_SCHEMA_DEPTH], and [schema_fuel_enough] shows more fuel changes nothing.  The
    event-stream decoder loops on the length of what is pending; every frame takes at least
    its separator, and [drain_fuel] and [drain_done] show that this is enough.  Every
    other definition is structurally recursive or total.  Integers are [Z] with the
    source's saturation, checks and wrap-around written out; binary32 arithmetic is exact.
    Times are [u64] milliseconds, or nanoseconds for [Instant].  Numbers of the Lua scripts are
    exact, as they are in Lua below 2^53.

    ** Not modelled

    Transport and storage engines (HTTP servers and clients, Redis and SQL itself: a Lua
    script is one step on a key-value store with expiry, and the control
    plane's statements are translated to operations on tables, with the constraints of the
    schema that a statement can violate as its errors), opening and migrating database files,
    the PostgreSQL twin of the tenant store ([postgres.rs]), the XML of SAML messages, what
    bubblewrap and the kernel do with a command line, Windows file security, the daemon's
    installation and its preflight report, the machine-learning detectors, benchmarks and the
    vendored code.  Mutexes serialize each component; interleaving between the component calls of one
    request is modelled in the portal, the gateway, the administration and the SCIM endpoints, elsewhere a request is one atomic step.
    The moderation model and the text of library errors are parameters or left out, as are
    log records and the metrics page.  The classifier's and the
    server's processes, the native registry file and Windows paths are I/O. *)
From stdpp Require Export base gmap strings list fin_maps sorting relations.
From Stdlib Require Export ZArith Lia.
From Stdlib Require Import Ascii String.

(** ** Results: Rust's [Result<A, E>] *)

Inductive result (A E : Type) : Type :=
| Ok (a : A)
| Err (e : E).
Arguments Ok {A E} a.
Arguments Err {A E} e.

Declare Scope soup_scope.
Delimit Scope soup_scope with soup.

(** The [?] operator: bind a success, return the first error. *)
Notation "'let?' x ':=' m 'in' k" :=
  (match m with Ok x => k | Err e => Err e end)
  (at level 10, x name, m at level 100, k at level 200) : soup_scope.
(** An early return [if c { return Err(e) }]. *)
Notation "'bail_if' c 'with' e 'in' k" :=
  (if c then Err e else k)
  (at level 10, c at level 100, e at level 100, k at level 200) : soup_scope.
Open Scope soup_scope.

Definition is_ok {A E} (r : result A E) : bool :=
  match r with Ok _ => true | Err _ => false end.

(** [o.ok_or(e)]. *)
Definition ok_or {A E} (o : option A) (e : E) : result A E :=
  match o with Some x => Ok x | None => Err e end.

Definition unwrap_or {A} (d : A) (o : option A) : A := default d o.

#[export] Instance result_eq_dec {A E} `{EqDecision A, EqDecision E} :
  EqDecision (result A E).
Proof. solve_decision. Defined.

(** ** Machine integers: unsigned integers as [Z] with their width written out *)

Definition u8_max : Z := 2 ^ 8 - 1.
Definition u32_max : Z := 2 ^ 32 - 1.
Definition u64_max : Z := 2 ^ 64 - 1.
Definition u128_max : Z := 2 ^ 128 - 1.
Definition i64_max : Z := 2 ^ 63 - 1.

Definition in_u64 (n : Z) : Prop := (0 <= n <= u64_max)%Z.

Definition sat_add64 (a b : Z) : Z := Z.min (a + b) u64_max.
Definition sat_mul64 (a b : Z) : Z := Z.min (a * b) u64_max.
Definition sat_sub (a b : Z) : Z := Z.max 0 (a - b).
Definition checked_add128 (a b : Z) : option Z :=
  if (a + b <=? u128_max)%Z then Some (a + b)%Z else None.
Definition checked_mul128 (a b : Z) : option Z :=
  if (a * b <=? u128_max)%Z then Some (a * b)%Z else None.
Definition try_u64 (n : Z) : option Z :=
  if (n <=? u64_max)%Z then Some n else None.

(** ** Tactics *)

(** Case analysis on every [if] and [match] that is stuck, in goal and hypotheses. *)
Ltac cases :=
  repeat first
    [ case_decide | case_bool_decide | case_match ]; simplify_eq/=.

(** Turn boolean tests on integers and connectives into propositions. *)
Ltac boolp :=
  repeat match goal with
  | H : (_ && _) = true |- _ => apply andb_prop in H; destruct H
  | H : (_ || _) = true |- _ => apply orb_prop in H
  | H : (_ || _) = false |- _ => apply orb_false_elim in H; destruct H
  | H : negb _ = true |- _ => apply negb_true_iff in H
  | H : negb _ = false |- _ => apply negb_false_iff in H
  | H : bool_decide _ = true |- _ => apply bool_decide_eq_true_1 in H
  | H : bool_decide _ = false |- _ => apply bool_decide_eq_false_1 in H
  | H : (_ <=? _)%Z = true |- _ => apply Z.leb_le in H
  | H : (_ <=? _)%Z = false |- _ => apply Z.leb_gt in H
  | H : (_ <? _)%Z = true |- _ => apply Z.ltb_lt in H
  | H : (_ <? _)%Z = false |- _ => apply Z.ltb_ge in H
  | H : (_ =? _)%Z = true |- _ => apply Z.eqb_eq in H
  | H : (_ =? _)%Z = false |- _ => apply Z.eqb_neq in H
  | H : (_ <=? _) = true |- _ => apply Nat.leb_le in H
  | H : (_ <=? _) = false |- _ => apply Nat.leb_gt in H
  | H : (_ <? _) = true |- _ => apply Nat.ltb_lt in H
  | H : (_ <? _) = false |- _ => apply Nat.ltb_ge in H
  end.

(** Invert a computation of a [result] that succeeded: every guard passed, every
    [let?] bound a success. *)
Ltac ok_inv H :=
  repeat match type of H with
  | (if ?c then Err _ else _) = Ok _ => let E := fresh "G" in destruct c eqn:E; [discriminate H|]
  | (match ?m with Ok _ => _ | Err _ => _ end) = Ok _ =>
      let E := fresh "R" in destruct m eqn:E; [|discriminate H]
  | (match ?m with Some _ => _ | None => Err _ end) = Ok _ =>
      let E := fresh "S" in destruct m eqn:E; [|discriminate H]
  | Ok _ = Ok _ => injection H as H
  end.

(** A condition on the value of an option, when it has one. *)
Lemma forall_Some {A} (o : option A) (P : A -> Prop) :
  (forall x, o = Some x -> P x) <-> match o with Some x => P x | None => True end.
Proof. destruct o; naive_solver. Qed.

Create HintDb soup.
Create Rewrite HintDb str.

(** ** Strings: a Rust [str] is its UTF-8 bytes *)

Module Str.

Definition len (s : string) : nat := String.length s.
Definition is_empty (s : string) : bool :=
  match s with EmptyString => true | String _ _ => false end.

Definition starts_with (p s : string) : bool := String.prefix p s.

(** [strip_prefix p s]: the rest of [s] after the prefix [p]. *)
Fixpoint strip_prefix (p s : string) : option string :=
  match p, s with
  | EmptyString, _ => Some s
  | String a p', String b s' => if decide (a = b) then strip_prefix p' s' else None
  | String _ _, EmptyString => None
  end.

(** [ends_with suf s]: some tail of [s] is [suf]. *)
Fixpoint ends_with (suf s : string) : bool :=
  bool_decide (s = suf) ||
  match s with EmptyString => false | String _ s' => ends_with suf s' end.

(** [contains needle s]: some tail of [s] starts with [needle]. *)
Fixpoint contains (needle s : string) : bool :=
  starts_with needle s ||
  match s with EmptyString => false | String _ s' => contains needle s' end.

Definition contains_char (c : ascii) (s : string) : bool :=
  contains (String c EmptyString) s.

(** [s.split(c)] for a one-byte separator: never the empty list. *)
Fixpoint split (sep : ascii -> bool) (s : string) : list string :=
  match s with
  | EmptyString => [EmptyString]
  | String a s' =>
      if sep a then EmptyString :: split sep s'
      else match split sep s' with
           | [] => [String a EmptyString]
           | w :: ws => String a w :: ws
           end
  end.

Definition split_char (c : ascii) : string -> list string :=
  split (fun a => bool_decide (a = c)).

(** [trim_end_matches]: drop the longest tail whose bytes all satisfy [p]. *)
Fixpoint trim_end_matches (p : ascii -> bool) (s : string) : string :=
  match s with
  | EmptyString => EmptyString
  | String a s' =>
      match trim_end_matches p s' with
      | EmptyString => if p a then EmptyString else String a EmptyString
      | t => String a t
      end
  end.

Fixpoint trim_start_matches (p : ascii -> bool) (s : string) : string :=
  match s with
  | EmptyString => EmptyString
  | String a s' => if p a then trim_start_matches p s' else s
  end.

Fixpoint map_bytes (f : ascii -> ascii) (s : string) : string :=
  match s with
  | EmptyString => EmptyString
  | String a s' => String (f a) (map_bytes f s')
  end.

Fixpoint forallb (p : ascii -> bool) (s : string) : bool :=
  match s with EmptyString => true | String a s' => p a && forallb p s' end.

Fixpoint existsb (p : ascii -> bool) (s : string) : bool :=
  match s with EmptyString => false | String a s' => p a || existsb p s' end.

(** [s.replace(pat, rep)] for a non-empty pattern: leftmost, non-overlapping. *)
Fixpoint replace_go (pat rep : string) (skip : nat) (s : string) : string :=
  match s with
  | EmptyString => EmptyString
  | String a s' =>
      match skip with
      | S k => replace_go pat rep k s'
      | O => if starts_with pat s
             then rep +:+ replace_go pat rep (len pat - 1) s'
             else String a (replace_go pat rep 0 s')
      end
  end.
Definition replace (pat rep s : string) : string := replace_go pat rep 0 s.

Fixpoint take (n : nat) (s : string) : string :=
  match n, s with
  | S n', String a s' => String a (take n' s')
  | _, _ => EmptyString
  end.

Fixpoint drop (n : nat) (s : string) : string :=
  match n, s with
  | S n', String _ s' => drop n' s'
  | _, _ => s
  end.

Fixpoint get (n : nat) (s : string) : option ascii :=
  match s, n with
  | EmptyString, _ => None
  | String a _, O => Some a
  | String _ s', S n' => get n' s'
  end.

(** [s.join(sep)]. *)
Definition join (sep : string) (l : list string) : string := String.concat sep l.

(** *** UTF-8 structure *)

(** A byte that continues a character: [0b10xxxxxx]. *)
Definition is_continuation (a : ascii) : bool :=
  let n := N_of_ascii a in (128 <=? n)%N && (n <? 192)%N.

(** [s.is_char_boundary(i)]: 0, the length, or the index of a leading byte. *)
Definition is_char_boundary (s : string) (i : nat) : bool :=
  match i with
  | O => true
  | S _ => if bool_decide (i = len s) then true
           else match get i s with
                | Some a => negb (is_continuation a)
                | None => false
                end
  end.

(** *** Unicode white space, on its UTF-8 encodings *)

Definition byte_is (a : ascii) (n : N) : bool := (N_of_ascii a =? n)%N.
Definition byte_in (a : ascii) (lo hi : N) : bool :=
  (lo <=? N_of_ascii a)%N && (N_of_ascii a <=? hi)%N.

Definition ws1 (a : ascii) : bool := byte_in a 9 13 || byte_is a 32.
(** U+0085, U+00A0 *)
Definition ws2 (a b : ascii) : bool :=
  byte_is a 194 && (byte_is b 133 || byte_is b 160).
(** U+1680, U+2000-U+200A, U+2028, U+2029, U+202F, U+205F, U+3000 *)
Definition ws3 (a b c : ascii) : bool :=
  (byte_is a 225 && byte_is b 154 && byte_is c 128)
  || (byte_is a 226 && byte_is b 128 &&
        (byte_in c 128 138 || byte_is c 168 || byte_is c 169 || byte_is c 175))
  || (byte_is a 226 && byte_is b 129 && byte_is c 159)
  || (byte_is a 227 && byte_is b 128 && byte_is c 128).

Definition nonempty (cur : string) : list string :=
  if is_empty cur then [] else [cur].

(** [s.split_whitespace()]; [cur] is the word read so far. *)
Fixpoint split_ws_go (cur : string) (s : string) : list string :=
  match s with
  | EmptyString => nonempty cur
  | String a s1 =>
      if ws1 a then nonempty cur ++ split_ws_go EmptyString s1
      else match s1 with
           | String b s2 =>
               if ws2 a b then nonempty cur ++ split_ws_go EmptyString s2
               else match s2 with
                    | String c s3 =>
                        if ws3 a b c then nonempty cur ++ split_ws_go EmptyString s3
                        else split_ws_go (cur +:+ String a EmptyString) s1
                    | EmptyString => split_ws_go (cur +:+ String a EmptyString) s1
                    end
           | EmptyString => split_ws_go (cur +:+ String a EmptyString) s1
           end
  end.
Definition split_whitespace (s : string) : list string := split_ws_go EmptyString s.

Fixpoint trim_start (s : string) : string :=
  match s with
  | EmptyString => EmptyString
  | String a s1 =>
      if ws1 a then trim_start s1
      else match s1 with
           | String b s2 =>
               if ws2 a b then trim_start s2
               else match s2 with
                    | String c s3 => if ws3 a b c then trim_start s3 else s
                    | EmptyString => s
                    end
           | EmptyString => s
           end
  end.

(** The tail of [s] from here on is white space only. *)
Definition all_ws (s : string) : bool := is_empty (trim_start s).

(** Stop at the first place where only white space remains; continuation bytes
    never start a white-space encoding, so the cut falls on a boundary. *)
Fixpoint trim_end (s : string) : string :=
  if all_ws s then EmptyString
  else match s with
       | EmptyString => EmptyString
       | String a s' => String a (trim_end s')
       end.

Definition trim (s : string) : string := trim_end (trim_start s).

(** *** ASCII case *)

Definition is_ascii_char (a : ascii) : bool := (N_of_ascii a <? 128)%N.
Definition is_ascii (s : string) : bool := forallb is_ascii_char s.
Definition is_upper (a : ascii) : bool := byte_in a 65 90.
Definition is_lower (a : ascii) : bool := byte_in a 97 122.
Definition is_digit (a : ascii) : bool := byte_in a 48 57.
Definition is_alnum (a : ascii) : bool := is_upper a || is_lower a || is_digit a.
Definition lower_char (a : ascii) : ascii :=
  if is_upper a then ascii_of_N (N_of_ascii a + 32) else a.
Definition upper_char (a : ascii) : ascii :=
  if is_lower a then ascii_of_N (N_of_ascii a - 32) else a.
Definition to_ascii_lowercase (s : string) : string := map_bytes lower_char s.
Definition to_ascii_uppercase (s : string) : string := map_bytes upper_char s.
Definition eq_ignore_ascii_case (s t : string) : bool :=
  bool_decide (to_ascii_lowercase s = to_ascii_lowercase t).

(** *** Lemmas on concatenation and length *)

Lemma app_nil_l (s : string) : EmptyString +:+ s = s.
Proof. reflexivity. Qed.

Lemma app_cons (a : ascii) (s t : string) : String a s +:+ t = String a (s +:+ t).
Proof. reflexivity. Qed.

Lemma app_nil_r (s : string) : s +:+ EmptyString = s.
Proof. induction s as [|a s IH]; [done|]. by rewrite app_cons, IH. Qed.

Lemma app_assoc (s t u : string) : (s +:+ t) +:+ u = s +:+ (t +:+ u).
Proof. induction s as [|a s IH]; [done|]. by rewrite !app_cons, IH. Qed.

Lemma len_app (s t : string) : len (s +:+ t) = len s + len t.
Proof. induction s as [|a s IH]; [done|]. rewrite app_cons. unfold len in *. simpl. lia. Qed.

Lemma len_cons (a : ascii) (s : string) : len (String a s) = S (len s).
Proof. reflexivity. Qed.

Lemma app_inj_len (s s' t t' : string) :
  len s = len s' -> s +:+ t = s' +:+ t' -> s = s' /\ t = t'.
Proof.
  revert s'. induction s as [|a s IH]; intros [|b s'] Hl Heq; try discriminate; [done|].
  rewrite !app_cons in Heq. injection Heq as -> Heq. injection Hl as Hl.
  by destruct (IH s' Hl Heq) as [-> ->].
Qed.

Lemma app_inv_head (p s t : string) : p +:+ s = p +:+ t -> s = t.
Proof. intros H. by destruct (app_inj_len p p s t eq_refl H). Qed.

(** *** Specifications of the searches *)

Lemma starts_with_app (p r : string) : starts_with p (p +:+ r) = true.
Proof.
  unfold starts_with. induction p as [|a p IH]; [by destruct r|].
  rewrite app_cons. simpl. by destruct (ascii_dec a a).
Qed.

Lemma starts_with_spec (p s : string) :
  starts_with p s = true <-> exists r, s = p +:+ r.
Proof.
  split; [|intros [r ->]; apply starts_with_app].
  unfold starts_with. revert s. induction p as [|a p IH]; intros [|b s] H; try done; eauto.
  simpl in H. destruct (ascii_dec a b) as [->|]; [|done].
  destruct (IH s H) as [r ->]. exists r. by rewrite app_cons.
Qed.

Lemma strip_prefix_spec (p s r : string) :
  strip_prefix p s = Some r <-> s = p +:+ r.
Proof.
  revert s. induction p as [|a p IH]; intros s; simpl.
  - rewrite app_nil_l. split; congruence.
  - destruct s as [|b s]; [by split|]. rewrite app_cons. case_decide.
    + subst. rewrite IH. split; congruence.
    + split; congruence.
Qed.

Lemma ends_with_spec (suf s : string) :
  ends_with suf s = true <-> exists p, s = p +:+ suf.
Proof.
  induction s as [|a s IH]; simpl.
  - rewrite orb_false_r, bool_decide_eq_true. split.
    + intros <-. by exists EmptyString.
    + intros [[|] H]; [by rewrite H | discriminate].
  - rewrite orb_true_iff, bool_decide_eq_true, IH. split.
    + intros [<- | [p ->]]; [by exists EmptyString | by exists (String a p)].
    + intros [[|b p] H]; [by left |]. rewrite app_cons in H. right.
      exists p. congruence.
Qed.

Lemma contains_spec (n s : string) :
  contains n s = true <-> exists p r, s = p +:+ n +:+ r.
Proof.
  induction s as [|a s IH]; cbn [contains].
  - rewrite orb_false_r, starts_with_spec. split.
    + intros [r Hr]. by exists EmptyString, r.
    + intros ([|] & r & H); [eauto | discriminate].
  - rewrite orb_true_iff, starts_with_spec, IH. split.
    + intros [[r Hr] | (p & r & ->)]; [by exists EmptyString, r |].
      by exists (String a p), r.
    + intros ([|b p] & r & H); [left; eauto |]. right.
      rewrite app_cons in H. exists p, r. congruence.
Qed.

Lemma contains_app (p n r : string) : contains n (p +:+ n +:+ r) = true.
Proof. apply contains_spec. eauto. Qed.

Lemma contains_cons (n : string) (a : ascii) (s : string) :
  contains n (String a s) = starts_with n (String a s) || contains n s.
Proof. reflexivity. Qed.

Lemma contains_tail (n p s : string) : contains n s = true -> contains n (p +:+ s) = true.
Proof.
  rewrite !contains_spec. intros (q & r & ->). exists (p +:+ q), r. by rewrite !app_assoc.
Qed.

(** *** Cutting a string *)

Lemma take_drop (n : nat) (s : string) : take n s +:+ drop n s = s.
Proof.
  revert s. induction n as [|n IH]; intros [|a s]; try done.
  simpl. by rewrite app_cons, IH.
Qed.

Lemma len_take (n : nat) (s : string) : len (take n s) = min n (len s).
Proof.
  revert s. induction n as [|n IH]; intros [|a s]; try done.
  simpl take. rewrite !len_cons, IH. lia.
Qed.

Lemma len_drop (n : nat) (s : string) : len (drop n s) = len s - n.
Proof.
  revert s. induction n as [|n IH]; intros [|a s]; try done.
  simpl drop. by rewrite len_cons, IH.
Qed.

Lemma take_app (s t : string) : take (len s) (s +:+ t) = s.
Proof. induction s as [|a s IH]; [by destruct t|]. rewrite app_cons, len_cons. simpl. by rewrite IH. Qed.

Lemma drop_app (s t : string) : drop (len s) (s +:+ t) = t.
Proof. induction s as [|a s IH]; [by destruct t|]. rewrite app_cons, len_cons. simpl. by rewrite IH. Qed.

Lemma drop_drop (m n : nat) (s : string) : drop m (drop n s) = drop (n + m) s.
Proof. revert s. induction n as [|n IH]; intros [|a s]; simpl; try done. by destruct m. Qed.

Lemma take_all (s : string) : take (len s) s = s.
Proof. rewrite <- (app_nil_r s) at 2. apply take_app. Qed.

Lemma forallb_app (p : ascii -> bool) (s t : string) :
  forallb p (s +:+ t) = forallb p s && forallb p t.
Proof.
  induction s as [|a s IH]; [done|]. rewrite app_cons. simpl. by rewrite IH, andb_assoc.
Qed.

End Str.

#[export] Hint Rewrite Str.app_nil_l Str.app_nil_r Str.app_cons Str.app_assoc
  Str.len_app Str.len_cons Str.len_take Str.len_drop : str.
#[export] Hint Resolve Str.starts_with_app Str.contains_app Str.contains_tail : soup.

(** ** Sorting: Rust's stable [slice::sort_by] *)

(** [le x y]: the comparator does not order [x] after [y]. *)
Fixpoint sort_insert {A} (le : A -> A -> bool) (x : A) (l : list A) : list A :=
  match l with
  | [] => [x]
  | y :: l' => if le x y then x :: l else y :: sort_insert le x l'
  end.

Fixpoint sort_by {A} (le : A -> A -> bool) (l : list A) : list A :=
  match l with
  | [] => []
  | x :: l' => sort_insert le x (sort_by le l')
  end.

Section sorting.
Context {A : Type} (le : A -> A -> bool).

Lemma sort_insert_perm (x : A) (l : list A) : sort_insert le x l ≡ₚ x :: l.
Proof.
  induction l as [|y l IH]; simpl; [done|]. destruct (le x y); [done|].
  rewrite IH. constructor.
Qed.

Lemma sort_by_perm (l : list A) : sort_by le l ≡ₚ l.
Proof. induction l as [|x l IH]; simpl; [done|]. by rewrite sort_insert_perm, IH. Qed.

Lemma sort_by_elem (x : A) (l : list A) : x ∈ sort_by le l <-> x ∈ l.
Proof. by rewrite sort_by_perm. Qed.

Hypothesis le_total : forall x y, le x y = true \/ le y x = true.
Hypothesis le_trans : forall x y z, le x y = true -> le y z = true -> le x z = true.

Lemma sort_insert_sorted (x : A) (l : list A) :
  StronglySorted (fun a b => le a b = true) l ->
  StronglySorted (fun a b => le a b = true) (sort_insert le x l).
Proof.
  induction 1 as [|y l Hl IH Hall]; simpl; [by repeat constructor|].
  destruct (le x y) eqn:E.
  - constructor; [by constructor|]. constructor; [done|].
    eapply Forall_impl; [exact Hall|]. simpl. eauto.
  - constructor; [done|]. rewrite sort_insert_perm. constructor; [|done].
    by destruct (le_total x y) as [|]; [congruence|].
Qed.

Lemma sort_by_sorted (l : list A) : StronglySorted (fun a b => le a b = true) (sort_by le l).
Proof. induction l as [|x l IH]; simpl; [constructor|]. by apply sort_insert_sorted. Qed.

End sorting.
