(* ===== verification/BTree.v ===== *)
(** Ordered containers of the Rust standard library: [BTreeMap] and [BTreeSet]
    as association lists and lists in strictly increasing key order, over a
    typeclass of total orders ([Ord]).  Iteration order is list order, which is
    what the sources rely on when they iterate a [BTreeMap]. *)
From S2P Require Import Prelude.
From Stdlib Require Import String Ascii.

(** ** Total orders: Rust's [Ord] *)

Class Ord (K : Type) := cmp : K -> K -> comparison.

Class OrdLaws (K : Type) `{Ord K} := {
  cmp_eq : forall a b : K, cmp a b = Eq <-> a = b;
  cmp_opp : forall a b : K, cmp b a = CompOpp (cmp a b);
  cmp_trans : forall a b c : K, cmp a b = Lt -> cmp b c = Lt -> cmp a c = Lt
}.

#[export] Instance Z_ord : Ord Z := Z.compare.
#[export] Instance Z_ord_laws : OrdLaws Z.
Proof.
  split; unfold cmp, Z_ord.
  - apply Z.compare_eq_iff.
  - apply Z.compare_antisym.
  - intros a b c. rewrite !Z.compare_lt_iff. lia.
Qed.

#[export] Instance string_ord : Ord string := String.compare.

Lemma ascii_compare_lt (a b : ascii) :
  Ascii.compare a b = Lt <-> (N_of_ascii a < N_of_ascii b)%N.
Proof. unfold Ascii.compare. apply N.compare_lt_iff. Qed.

Lemma string_compare_trans (a b c : string) :
  String.compare a b = Lt -> String.compare b c = Lt -> String.compare a c = Lt.
Proof.
  revert b c. induction a as [|x a IH]; intros [|y b] [|z c]; simpl; try done.
  destruct (Ascii.compare x y) eqn:Hxy; [| |done].
  - apply Ascii.compare_eq_iff in Hxy as ->. intros Hab.
    destruct (Ascii.compare y z); [eauto|done..].
  - intros _. destruct (Ascii.compare y z) eqn:Hyz; [| |done].
    + apply Ascii.compare_eq_iff in Hyz as ->. by rewrite Hxy.
    + intros _. rewrite ascii_compare_lt in Hxy, Hyz.
      assert (Ascii.compare x z = Lt) as -> by (apply ascii_compare_lt; lia). done.
Qed.

#[export] Instance string_ord_laws : OrdLaws string.
Proof.
  split; unfold cmp, string_ord.
  - intros a b. split; [apply String.compare_eq_iff|]. intros ->.
    induction b as [|x b IH]; simpl; [done|]. unfold Ascii.compare. by rewrite N.compare_refl.
  - intros a b. apply String.compare_antisym.
  - apply string_compare_trans.
Qed.

(** Tuples compare lexicographically. *)
#[export] Instance prod_ord {A B} `{Ord A, Ord B} : Ord (A * B) := fun p q =>
  match cmp p.1 q.1 with Eq => cmp p.2 q.2 | c => c end.

Lemma prod_cmp {A B} `{Ord A, Ord B} (a a' : A) (b b' : B) :
  cmp (a, b) (a', b') = match cmp a a' with Eq => cmp b b' | c => c end.
Proof. reflexivity. Qed.

#[export] Instance prod_ord_laws {A B} `{OrdLaws A, OrdLaws B} : OrdLaws (A * B).
Proof.
  split.
  - intros [a b] [a' b']. rewrite prod_cmp. destruct (cmp a a') eqn:E.
    + apply cmp_eq in E as ->. rewrite cmp_eq. split; congruence.
    + split; [done|]. intros [= -> ->]. assert (cmp a' a' = Eq) by by apply cmp_eq. congruence.
    + split; [done|]. intros [= -> ->]. assert (cmp a' a' = Eq) by by apply cmp_eq. congruence.
  - intros [a b] [a' b']. rewrite !prod_cmp, (cmp_opp a a').
    destruct (cmp a a'); simpl; [apply cmp_opp | done..].
  - intros [a b] [a' b'] [a'' b'']. rewrite !prod_cmp.
    destruct (cmp a a') eqn:E1; [| |done].
    + apply cmp_eq in E1 as ->. destruct (cmp a' a''); [apply cmp_trans|done..].
    + destruct (cmp a' a'') eqn:E2; [| |done].
      * apply cmp_eq in E2 as ->. by rewrite E1.
      * by rewrite (cmp_trans _ _ _ E1 E2).
Qed.

Section order_facts.
Context {K : Type} `{OrdLaws K}.

Lemma cmp_refl (a : K) : cmp a a = Eq.
Proof. by apply cmp_eq. Qed.

Lemma cmp_gt_lt (a b : K) : cmp a b = Gt <-> cmp b a = Lt.
Proof. rewrite (cmp_opp a b). by destruct (cmp a b). Qed.

Lemma cmp_lt_ne (a b : K) : cmp a b = Lt -> a <> b.
Proof. intros Hl ->. rewrite cmp_refl in Hl. done. Qed.
End order_facts.

(** ** [BTreeMap] *)

Module BMap.

Definition t (K V : Type) := list (K * V).

Fixpoint insert {K V} `{Ord K} (k : K) (v : V) (m : t K V) : t K V :=
  match m with
  | [] => [(k, v)]
  | (k', v') :: m' =>
      match cmp k k' with
      | Lt => (k, v) :: m
      | Eq => (k, v) :: m'
      | Gt => (k', v') :: insert k v m'
      end
  end.

Fixpoint get {K V} `{Ord K} (k : K) (m : t K V) : option V :=
  match m with
  | [] => None
  | (k', v') :: m' => match cmp k k' with Eq => Some v' | _ => get k m' end
  end.

Definition contains_key {K V} `{Ord K} (k : K) (m : t K V) : bool :=
  bool_decide (is_Some (get k m)).

Fixpoint remove {K V} `{Ord K} (k : K) (m : t K V) : t K V :=
  match m with
  | [] => []
  | (k', v') :: m' =>
      match cmp k k' with Eq => m' | _ => (k', v') :: remove k m' end
  end.

(** [iter.collect()]: later entries overwrite earlier ones. *)
Definition of_list {K V} `{Ord K} (l : list (K * V)) : t K V :=
  fold_left (fun m kv => insert kv.1 kv.2 m) l [].

Definition retain {K V} (p : K -> V -> bool) (m : t K V) : t K V :=
  List.filter (fun kv => p kv.1 kv.2) m.

(** The representation invariant: strictly increasing keys. *)
Definition wf {K V} `{Ord K} (m : t K V) : Prop :=
  StronglySorted (fun x y => cmp x.1 y.1 = Lt) m.

Section facts.
Context {K V : Type} `{OrdLaws K}.
Implicit Types (m : t K V) (k : K) (v : V).

Lemma bmap_get_insert k k' v m :
  get k' (insert k v m) = if decide (cmp k' k = Eq) then Some v else get k' m.
Proof.
  induction m as [|[k0 v0] m IH]; simpl.
  - case_decide as Hd; [by rewrite Hd | by destruct (cmp k' k)].
  - destruct (cmp k k0) eqn:E; simpl.
    + apply cmp_eq in E as ->. case_decide as Hd; [by rewrite Hd | by destruct (cmp k' k0)].
    + case_decide as Hd; [by rewrite Hd | by destruct (cmp k' k)].
    + rewrite IH. case_decide as Hd; [|done].
      apply cmp_eq in Hd as ->. by rewrite E.
Qed.

Lemma bmap_get_insert_eq k v m : get k (insert k v m) = Some v.
Proof. rewrite bmap_get_insert, decide_True; [done|]. apply cmp_refl. Qed.

Lemma bmap_get_insert_ne k k' v m : k <> k' -> get k' (insert k v m) = get k' m.
Proof. intros Hne. rewrite bmap_get_insert, decide_False; [done|]. rewrite cmp_eq. congruence. Qed.

Lemma bmap_Forall_insert (P : K * V -> Prop) k v m :
  P (k, v) -> Forall P m -> Forall P (insert k v m).
Proof.
  intros Hp Hm. induction Hm as [|[k0 v0] m Hx Hm IH]; simpl; [by constructor|].
  destruct (cmp k k0); by repeat constructor.
Qed.

Lemma bmap_insert_wf k v m : wf m -> wf (insert k v m).
Proof.
  induction m as [|[k0 v0] m IH]; simpl; intros Hwf; [by repeat constructor|].
  apply StronglySorted_inv in Hwf as [Hwf Hall].
  destruct (cmp k k0) eqn:E.
  - apply cmp_eq in E as ->. by constructor.
  - constructor; [by constructor|]. constructor; [done|].
    eapply Forall_impl; [exact Hall|]. intros [k1 v1]; simpl. eauto using cmp_trans.
  - constructor; [by apply IH|]. apply bmap_Forall_insert; [by apply cmp_gt_lt|done].
Qed.

Lemma bmap_of_list_wf (l : list (K * V)) : wf (of_list l).
Proof.
  unfold of_list. assert (wf (V:=V) []) as Hnil by constructor. revert Hnil.
  generalize ([] : t K V). induction l as [|[k v] l IH]; intros m Hm; simpl; [done|].
  by apply IH, bmap_insert_wf.
Qed.

Lemma bmap_get_lt_None k m : Forall (fun kv => cmp k kv.1 = Lt) m -> get k m = None.
Proof.
  induction 1 as [|[k0 v0] m Hx Hm IH]; simpl in *; [done|]. by rewrite Hx.
Qed.

Lemma bmap_get_Some_elem k v m : get k m = Some v -> (k, v) ∈ m.
Proof.
  induction m as [|[k0 v0] m IH]; simpl; [done|].
  destruct (cmp k k0) eqn:E; intros Hg; [|right; auto..].
  apply cmp_eq in E as ->. injection Hg as ->. left.
Qed.

Lemma bmap_wf_elem_get k v m : wf m -> (k, v) ∈ m -> get k m = Some v.
Proof.
  induction m as [|[k0 v0] m IH]; simpl; intros Hwf Hin; [by inversion Hin|].
  apply StronglySorted_inv in Hwf as [Hwf Hall].
  apply elem_of_cons in Hin as [[= -> ->] | Hin]; [by rewrite cmp_refl|].
  rewrite Forall_forall in Hall. specialize (Hall _ Hin) as Hlt; simpl in Hlt.
  rewrite (cmp_opp k0 k), Hlt. simpl. auto.
Qed.

(** A [BTreeMap] is determined by its lookups. *)
Lemma bmap_wf_ext m1 m2 : wf m1 -> wf m2 -> (forall k, get k m1 = get k m2) -> m1 = m2.
Proof.
  revert m2. induction m1 as [|[k v] m1 IH]; intros [|[k' v'] m2] H1 H2 Hext; try done.
  - specialize (Hext k'). simpl in Hext. by rewrite cmp_refl in Hext.
  - specialize (Hext k). simpl in Hext. by rewrite cmp_refl in Hext.
  - apply StronglySorted_inv in H1 as [Hw1 Ha1]. apply StronglySorted_inv in H2 as [Hw2 Ha2].
    assert (k = k') as <-.
    { pose proof (Hext k) as Hk. pose proof (Hext k') as Hk'. simpl in Hk, Hk'.
      rewrite cmp_refl in Hk, Hk'.
      destruct (cmp k k') eqn:E; [by apply cmp_eq in E | |].
      - symmetry in Hk. apply bmap_get_Some_elem in Hk. rewrite Forall_forall in Ha2.
        specialize (Ha2 _ Hk); simpl in Ha2. rewrite (cmp_opp k k'), E in Ha2. done.
      - rewrite (cmp_opp k k'), E in Hk'. simpl in Hk'. apply bmap_get_Some_elem in Hk'.
        rewrite Forall_forall in Ha1. specialize (Ha1 _ Hk'); simpl in Ha1. congruence. }
    pose proof (Hext k) as Hk. simpl in Hk. rewrite cmp_refl in Hk. injection Hk as <-.
    f_equal. apply IH; [done..|]. intros j. specialize (Hext j). simpl in Hext.
    destruct (cmp j k) eqn:E; [|done..]. apply cmp_eq in E as ->.
    rewrite !bmap_get_lt_None; done.
Qed.

Lemma bmap_get_fold_insert (l : list (K * V)) m k :
  k ∉ l.*1 -> get k (fold_left (fun m kv => insert kv.1 kv.2 m) l m) = get k m.
Proof.
  revert m. induction l as [|[k0 v0] l IH]; intros m Hk; simpl; [done|].
  apply not_elem_of_cons in Hk as [Hne Hk]. rewrite IH by done.
  rewrite bmap_get_insert_ne; [done|]. simpl in *. congruence.
Qed.

Lemma bmap_get_of_list_elem (l : list (K * V)) k v :
  NoDup l.*1 -> (k, v) ∈ l -> get k (of_list l) = Some v.
Proof.
  unfold of_list. generalize ([] : t K V). induction l as [|[k0 v0] l IH]; simpl;
    intros m Hnd Hin; [by inversion Hin|].
  apply NoDup_cons in Hnd as [Hni Hnd].
  apply elem_of_cons in Hin as [[= <- <-]|Hin]; [|by apply IH].
  rewrite bmap_get_fold_insert by done. apply bmap_get_insert_eq.
Qed.

Lemma bmap_get_of_list_inv (l : list (K * V)) k v :
  get k (of_list l) = Some v -> (k, v) ∈ l.
Proof.
  unfold of_list.
  enough (forall m, get k (fold_left (fun m kv => insert kv.1 kv.2 m) l m) = Some v ->
            get k m = Some v \/ (k, v) ∈ l) as Hgen.
  { intros Hg. by destruct (Hgen [] Hg). }
  induction l as [|[k0 v0] l IH]; simpl; intros m Hg; [by left|].
  apply IH in Hg as [Hg|Hg]; [|by right; right].
  rewrite bmap_get_insert in Hg. case_decide as Hd; [|by left].
  apply cmp_eq in Hd as ->. injection Hg as ->. right; left.
Qed.

(** Collecting permuted entries with distinct keys gives the same map. *)
Lemma bmap_of_list_perm (l1 l2 : list (K * V)) :
  l1 ≡ₚ l2 -> NoDup l1.*1 -> of_list l1 = of_list l2.
Proof.
  intros Hp Hnd. assert (NoDup l2.*1) as Hnd2 by by rewrite <- Hp.
  apply bmap_wf_ext; [apply bmap_of_list_wf..|]. intros k.
  destruct (get k (of_list l1)) as [v|] eqn:E1.
  - apply bmap_get_of_list_inv in E1. symmetry. apply bmap_get_of_list_elem; [done|]. by rewrite <- Hp.
  - destruct (get k (of_list l2)) as [v|] eqn:E2; [|done].
    apply bmap_get_of_list_inv in E2. rewrite <- Hp in E2.
    rewrite (bmap_get_of_list_elem l1 k v) in E1; done.
Qed.

Lemma bmap_wf_NoDup m : wf m -> NoDup m.*1.
Proof.
  induction m as [|[k v] m IH]; intros Hwf; simpl; [constructor|].
  apply StronglySorted_inv in Hwf as [Hwf Hall]. constructor; [|by apply IH].
  intros ([k' v'] & -> & Hin)%list_elem_of_fmap. rewrite Forall_forall in Hall.
  specialize (Hall _ Hin). simpl in *. by rewrite cmp_refl in Hall.
Qed.

Lemma bmap_of_list_id m : wf m -> of_list m = m.
Proof.
  intros Hwf. pose proof (bmap_wf_NoDup m Hwf) as Hnd.
  apply bmap_wf_ext; [apply bmap_of_list_wf|done|]. intros k.
  destruct (get k m) as [v|] eqn:E.
  - apply bmap_get_of_list_elem; [done|]. by apply bmap_get_Some_elem.
  - destruct (get k (of_list m)) as [v|] eqn:E2; [|done].
    apply bmap_get_of_list_inv in E2. rewrite (bmap_wf_elem_get k v m) in E; done.
Qed.

Lemma bmap_retain_wf (p : K -> V -> bool) m : wf m -> wf (retain p m).
Proof.
  unfold retain, wf. induction m as [|x m IH]; simpl; [done|].
  intros [Hwf Hall]%StronglySorted_inv. destruct (p x.1 x.2); [|by apply IH].
  constructor; [by apply IH|]. apply Forall_forall. intros y Hy.
  apply list_elem_of_In, filter_In in Hy as [Hy _]. rewrite Forall_forall in Hall.
  by apply Hall, list_elem_of_In.
Qed.

Lemma bmap_get_retain (p : K -> V -> bool) k v m :
  wf m -> get k (retain p m) = Some v <-> get k m = Some v /\ p k v = true.
Proof.
  intros Hwf. split.
  - intros Hg%bmap_get_Some_elem%list_elem_of_In. apply filter_In in Hg as [Hg Hp].
    split; [|done]. by apply bmap_wf_elem_get, list_elem_of_In.
  - intros [Hg Hp]. apply bmap_wf_elem_get; [by apply bmap_retain_wf|].
    apply list_elem_of_In, filter_In. split; [|done]. by apply list_elem_of_In, bmap_get_Some_elem.
Qed.

Lemma bmap_get_fmap {W} (f : V -> W) k m :
  get k ((fun kv => (kv.1, f kv.2)) <$> m) = f <$> get k m.
Proof. induction m as [|[k0 v0] m IH]; simpl; [done|]. by destruct (cmp k k0). Qed.

Lemma bmap_fmap_wf {W} (f : V -> W) m : wf m -> wf ((fun kv => (kv.1, f kv.2)) <$> m).
Proof.
  intros Hm. induction Hm as [|x m Hm IH Hall]; [constructor|]. constructor; [done|].
  by apply Forall_fmap.
Qed.

Lemma bmap_contains_key k m : contains_key k m = true <-> k ∈ m.*1.
Proof.
  unfold contains_key. rewrite bool_decide_eq_true. split.
  - intros [v Hv%bmap_get_Some_elem]. apply list_elem_of_fmap. by exists (k, v).
  - intros ([k' v] & -> & Hin)%list_elem_of_fmap. induction m as [|[k0 v0] m IH]; simpl.
    { by apply not_elem_of_nil in Hin. }
    destruct (cmp k' k0) eqn:E; [eauto|..]; (apply IH; apply elem_of_cons in Hin as [[= -> ->]|];
      [by rewrite cmp_refl in E|done]).
Qed.

Lemma bmap_get_remove_ne k k' m : k <> k' -> get k' (remove k m) = get k' m.
Proof.
  intros Hne. induction m as [|[k0 v0] m IH]; simpl; [done|].
  destruct (cmp k k0) eqn:E; simpl; [|by rewrite IH..].
  apply cmp_eq in E as <-. destruct (cmp k' k) eqn:E'; try done.
  apply cmp_eq in E'. congruence.
Qed.

Lemma bmap_remove_sub k m x : x ∈ remove k m -> x ∈ m.
Proof.
  induction m as [|[k0 v0] m IH]; simpl; [done|]. destruct (cmp k k0); [by right|..];
    (intros [->|Hx]%elem_of_cons; [by left|right; auto]).
Qed.

Lemma bmap_get_remove_eq k m : wf m -> get k (remove k m) = None.
Proof.
  induction m as [|[k0 v0] m IH]; simpl; [done|]. intros [Hwf Hall]%StronglySorted_inv.
  destruct (cmp k k0) eqn:E; simpl; [|by rewrite E; apply IH..].
  apply cmp_eq in E as <-. by apply bmap_get_lt_None.
Qed.

(** A sum over the entries, when one of them is written or taken out. *)
Lemma bmap_sum_insert (f : K * V -> nat) k v m :
  wf m ->
  sum_list (f <$> insert k v m) + match get k m with Some v0 => f (k, v0) | None => 0 end
  = f (k, v) + sum_list (f <$> m).
Proof.
  induction m as [|[k0 v0] m IH]; csimpl; [lia|]. intros [Hwf Hall]%StronglySorted_inv.
  destruct (cmp k k0) eqn:E; csimpl.
  - apply cmp_eq in E as ->. lia.
  - rewrite bmap_get_lt_None; [lia|]. eapply Forall_impl; [exact Hall|]. intros [k1 v1]. csimpl.
    intros Hlt. by eapply cmp_trans.
  - specialize (IH Hwf). lia.
Qed.

Lemma bmap_sum_remove (f : K * V -> nat) k m :
  sum_list (f <$> remove k m) + match get k m with Some v0 => f (k, v0) | None => 0 end
  = sum_list (f <$> m).
Proof.
  induction m as [|[k0 v0] m IH]; csimpl; [lia|].
  destruct (cmp k k0) eqn:E; csimpl; [|lia..]. apply cmp_eq in E as ->. lia.
Qed.

Lemma bmap_length_sum m : List.length m = sum_list ((fun _ : K * V => 1) <$> m).
Proof. induction m; csimpl; lia. Qed.

Lemma bmap_length_insert k v m :
  wf m -> List.length (insert k v m) = if contains_key k m then List.length m else S (List.length m).
Proof.
  intros Hwf. pose proof (bmap_sum_insert (fun _ : K * V => 1) k v m Hwf) as Hs.
  rewrite <- !bmap_length_sum in Hs. unfold contains_key.
  destruct (get k m); [rewrite bool_decide_true by eauto|rewrite bool_decide_false by (by intros [])]; lia.
Qed.

Lemma bmap_length_remove k m : List.length (remove k m) <= List.length m.
Proof. induction m as [|[k0 v0] m IH]; simpl; [lia|]. destruct (cmp k k0); simpl; lia. Qed.

Lemma bmap_remove_wf k m : wf m -> wf (remove k m).
Proof.
  induction m as [|[k0 v0] m IH]; simpl; [done|]. intros [Hwf Hall]%StronglySorted_inv.
  destruct (cmp k k0); [done|..]; (constructor; [by apply IH|]); rewrite Forall_forall in Hall;
    apply Forall_forall; intros x Hx%bmap_remove_sub; auto.
Qed.

End facts.
End BMap.

(** ** [BTreeSet] *)

Module BSet.

Definition t (K : Type) := list K.

Fixpoint insert {K} `{Ord K} (k : K) (s : t K) : t K :=
  match s with
  | [] => [k]
  | k' :: s' =>
      match cmp k k' with
      | Lt => k :: s
      | Eq => s
      | Gt => k' :: insert k s'
      end
  end.

Definition of_list {K} `{Ord K} (l : list K) : t K :=
  fold_left (fun s k => insert k s) l [].

Definition contains {K} `{EqDecision K} (k : K) (s : t K) : bool := bool_decide (k ∈ s).

Definition difference {K} `{EqDecision K} (s1 s2 : t K) : t K :=
  List.filter (fun k => negb (contains k s2)) s1.

Definition intersection {K} `{EqDecision K} (s1 s2 : t K) : t K :=
  List.filter (fun k => contains k s2) s1.

Definition wf {K} `{Ord K} (s : t K) : Prop := StronglySorted (fun x y => cmp x y = Lt) s.

Section facts.
Context {K : Type} `{OrdLaws K}.
Implicit Types (s : t K) (k : K).

Lemma bset_elem_of_insert k k' s : k' ∈ insert k s <-> k' = k \/ k' ∈ s.
Proof.
  induction s as [|k0 s IH]; simpl.
  - rewrite list_elem_of_singleton. split; [by left|].
    intros [->|Hn]; [done|by inversion Hn].
  - destruct (cmp k k0) eqn:E; rewrite ?elem_of_cons, ?IH; [|tauto|tauto].
    apply cmp_eq in E as ->. tauto.
Qed.

Lemma bset_insert_wf k s : wf s -> wf (insert k s).
Proof.
  induction s as [|k0 s IH]; simpl; intros Hwf; [by repeat constructor|].
  apply StronglySorted_inv in Hwf as [Hwf Hall].
  destruct (cmp k k0) eqn:E.
  - by constructor.
  - constructor; [by constructor|]. constructor; [done|].
    eapply Forall_impl; [exact Hall|]. simpl. eauto using cmp_trans.
  - constructor; [by apply IH|]. apply Forall_forall. intros x [->|Hx]%bset_elem_of_insert.
    + by apply cmp_gt_lt.
    + rewrite Forall_forall in Hall. auto.
Qed.

Lemma bset_elem_of_of_list k (l : list K) : k ∈ of_list l <-> k ∈ l.
Proof.
  unfold of_list. rewrite <- (app_nil_r l) at 2. generalize ([] : t K).
  induction l as [|k0 l IH]; intros s; simpl; [done|].
  rewrite IH, elem_of_cons, !elem_of_app, bset_elem_of_insert. tauto.
Qed.

Lemma bset_of_list_wf (l : list K) : wf (of_list l).
Proof.
  unfold of_list. assert (wf (K:=K) []) as Hnil by constructor. revert Hnil.
  generalize ([] : t K). induction l as [|k l IH]; intros s Hs; simpl; [done|].
  by apply IH, bset_insert_wf.
Qed.

Lemma bset_wf_NoDup s : wf s -> NoDup s.
Proof.
  induction s as [|k s IH]; intros Hwf; [constructor|].
  apply StronglySorted_inv in Hwf as [Hwf Hall]. constructor; [|by apply IH].
  rewrite Forall_forall in Hall. intros Hin. specialize (Hall _ Hin).
  by rewrite cmp_refl in Hall.
Qed.

Lemma bset_wf_ext s1 s2 : wf s1 -> wf s2 -> (forall k, k ∈ s1 <-> k ∈ s2) -> s1 = s2.
Proof.
  revert s2. induction s1 as [|k s1 IH]; intros [|k' s2] H1 H2 Hext; try done.
  - exfalso. apply (not_elem_of_nil k'), Hext. left.
  - exfalso. apply (not_elem_of_nil k), Hext. left.
  - apply StronglySorted_inv in H1 as [Hw1 Ha1]. apply StronglySorted_inv in H2 as [Hw2 Ha2].
    rewrite Forall_forall in Ha1, Ha2.
    assert (k = k') as <-.
    { destruct (cmp k k') eqn:E; [by apply cmp_eq in E | |].
      - assert (k ∈ k' :: s2) as [->|Hin]%elem_of_cons by (apply Hext; left); [done|].
        specialize (Ha2 _ Hin). rewrite (cmp_opp k k'), E in Ha2. done.
      - assert (k' ∈ k :: s1) as [->|Hin]%elem_of_cons by (apply Hext; left); [done|].
        specialize (Ha1 _ Hin). congruence. }
    f_equal. apply IH; [done..|]. intros j. specialize (Hext j).
    rewrite !elem_of_cons in Hext. split; intros Hj.
    + assert (j <> k) by (intros ->; specialize (Ha1 _ Hj); by rewrite cmp_refl in Ha1). tauto.
    + assert (j <> k) by (intros ->; specialize (Ha2 _ Hj); by rewrite cmp_refl in Ha2). tauto.
Qed.

Lemma bset_wf_filter (p : K -> bool) s : wf s -> wf (List.filter p s).
Proof.
  induction s as [|k s IH]; simpl; intros Hwf; [done|].
  apply StronglySorted_inv in Hwf as [Hwf Hall]. destruct (p k); [|by apply IH].
  constructor; [by apply IH|]. apply Forall_forall. intros x Hx.
  apply list_elem_of_In, filter_In in Hx as [Hx _]. rewrite Forall_forall in Hall.
  apply Hall, list_elem_of_In, Hx.
Qed.

Lemma bset_elem_of_difference `{EqDecision K} k (s1 s2 : t K) :
  k ∈ difference s1 s2 <-> k ∈ s1 /\ k ∉ s2.
Proof.
  unfold difference, contains. rewrite list_elem_of_In, filter_In, <- list_elem_of_In.
  rewrite negb_true_iff, bool_decide_eq_false. done.
Qed.

Lemma bset_elem_of_intersection `{EqDecision K} k (s1 s2 : t K) :
  k ∈ intersection s1 s2 <-> k ∈ s1 /\ k ∈ s2.
Proof.
  unfold intersection, contains. rewrite list_elem_of_In, filter_In, <- list_elem_of_In.
  by rewrite bool_decide_eq_true.
Qed.

End facts.
End BSet.
