(* ===== verification/Platform.v ===== *)
(** What the program takes from outside the repository: the Unicode case tables
    behind [str::to_lowercase] and [str::to_uppercase], and the [regex] crate.
    Each is a typeclass of operations with a class of documented laws, so the
    components are written and verified against the interface; the instances at
    the end show the laws can hold together. *)
From S2P Require Import Prelude.
From Stdlib Require Import String Ascii.

(** ** Unicode case tables *)

Class UnicodeTables := {
  to_lowercase : string -> string;
  to_uppercase : string -> string
}.

(** On ASCII text the tables are the ASCII case maps. *)
Class UnicodeLaws `{UnicodeTables} := {
  lowercase_ascii : forall s, Str.is_ascii s = true ->
    to_lowercase s = Str.to_ascii_lowercase s;
  uppercase_ascii : forall s, Str.is_ascii s = true ->
    to_uppercase s = Str.to_ascii_uppercase s
}.

(** ** The [regex] crate *)

(** A match is a byte range [start..end] of the searched text. *)
Definition span : Type := nat * nat.

(** The slice [&text[start..end]]. *)
Definition slice (text : string) (m : span) : string :=
  Str.take (m.2 - m.1) (Str.drop m.1 text).

Class RegexEngine := {
  (** [Regex::captures_iter]: per match, the span of every group; group 0 first. *)
  captures_iter : string -> string -> list (list (option span))
}.

Section regex_ops.
Context `{RegexEngine}.

(** Group [i] of a match, when it took part in it. *)
Definition group (i : nat) (c : list (option span)) : option span := mjoin (c !! i).

(** [Regex::find_iter]: the whole matches. *)
Definition find_iter (re text : string) : list span :=
  omap (group 0) (captures_iter re text).

Definition find (re text : string) : option span := head (find_iter re text).

Definition is_match (re text : string) : bool :=
  match find_iter re text with [] => false | _ :: _ => true end.

End regex_ops.

(** Matches lie in the text on character boundaries, in order, without overlap. *)
Fixpoint spans_ok (text : string) (from : nat) (ms : list span) : Prop :=
  match ms with
  | [] => True
  | (a, b) :: ms' =>
      from <= a /\ a <= b /\ b <= Str.len text /\
      Str.is_char_boundary text a = true /\ Str.is_char_boundary text b = true /\
      spans_ok text b ms'
  end.

Class RegexLaws `{RegexEngine} := {
  find_iter_ok : forall re text, spans_ok text 0 (find_iter re text)
}.

(** ** Instances *)

(** The tables restricted to ASCII. *)
Definition ascii_tables : UnicodeTables := {|
  to_lowercase := Str.to_ascii_lowercase;
  to_uppercase := Str.to_ascii_uppercase
|}.

Lemma ascii_tables_laws : @UnicodeLaws ascii_tables.
Proof. by split. Qed.

(** An engine that reads every pattern as a literal to be found once, at the
    start of the text. *)
Definition prefix_engine : RegexEngine := {|
  captures_iter re text :=
    if Str.starts_with re text && Str.is_char_boundary text (Str.len re)
    then [[Some (0, Str.len re)]] else []
|}.

Lemma prefix_engine_laws : @RegexLaws prefix_engine.
Proof.
  split. intros re text. unfold find_iter, captures_iter, prefix_engine.
  destruct (Str.starts_with re text && _) eqn:E; simpl; [|done].
  apply andb_prop in E as [E Hb]. apply Str.starts_with_spec in E as [r ->].
  rewrite Str.len_app. repeat split; [lia..|done].
Qed.
