(* ===== verification/Net.v ===== *)
(** What the program uses of the standard library's text conversions: whether a
    text parses as an IP address ([str::parse::<IpAddr>]), decimal integers
    ([str::parse::<usize>] and [to_string]), and searches for control characters and
    white space in UTF-8 text. *)
From S2P Require Import Prelude.
From Stdlib Require Import String Ascii.
From stdpp Require Import pretty.

(** ** Characters of a UTF-8 text *)

(** [s.chars().any(char::is_control)]: U+0000-U+001F, U+007F and U+0080-U+009F, the
    last encoded as a byte 194 and a continuation byte below 160. *)
Fixpoint has_control (s : string) : bool :=
  match s with
  | EmptyString => false
  | String a s' =>
      Str.byte_in a 0 31 || Str.byte_is a 127
      || match s' with String b _ => Str.byte_is a 194 && Str.byte_in b 128 159 | EmptyString => false end
      || has_control s'
  end.

(** [s.chars().any(char::is_whitespace)]. *)
Fixpoint has_whitespace (s : string) : bool :=
  match s with
  | EmptyString => false
  | String a s' =>
      Str.ws1 a
      || match s' with
         | String b s'' => Str.ws2 a b || match s'' with String c _ => Str.ws3 a b c | EmptyString => false end
         | EmptyString => false
         end
      || has_whitespace s'
  end.

(** ** Decimal integers *)

Definition digit_value (a : ascii) : Z := Z.of_N (N_of_ascii a) - 48.

Fixpoint decimal_value (acc : Z) (s : string) : Z :=
  match s with
  | EmptyString => acc
  | String a s' => decimal_value (acc * 10 + digit_value a)%Z s'
  end.

(** [s.parse::<usize>()]: an optional plus sign and decimal digits, at most [u64::MAX]. *)
Definition parse_usize (s : string) : option Z :=
  let s := default s (Str.strip_prefix "+" s) in
  if Str.is_empty s || negb (Str.forallb Str.is_digit s) then None
  else let n := decimal_value 0 s in if (n <=? u64_max)%Z then Some n else None.

(** [n.to_string()]. *)
Definition show_usize (n : Z) : string := pretty n.

(** ** IP addresses *)

(** A digit in the given radix. *)
Definition to_digit (radix : Z) (a : ascii) : option Z :=
  let d := (if Str.is_digit a then Z.of_N (N_of_ascii a) - 48
            else if Str.is_lower a then Z.of_N (N_of_ascii a) - 87
            else if Str.is_upper a then Z.of_N (N_of_ascii a) - 55 else radix)%Z in
  if (d <? radix)%Z then Some d else None.

(** The leading digits of the input: their value, how many there are, and the rest. *)
Fixpoint read_digits (radix acc : Z) (n : nat) (s : string) : Z * nat * string :=
  match s with
  | String a s' =>
      match to_digit radix a with
      | Some d => read_digits radix (acc * radix + d) (S n) s'
      | None => (acc, n, s)
      end
  | EmptyString => (acc, n, s)
  end.

(** [Parser::read_number]: the rest of the input after a number that fits. *)
Definition read_number (radix limit : Z) (max_digits : nat) (allow_zero_prefix : bool) (s : string) :
    option string :=
  let '(v, n, rest) := read_digits radix 0 0 s in
  if bool_decide (n = O) || (max_digits <? n) || (limit <? v)%Z
     || (negb allow_zero_prefix && Str.starts_with "0" s && (1 <? n))
  then None else Some rest.

(** [Parser::read_separator]. *)
Definition read_separator (sep : string) (index : nat) (inner : string -> option string) (s : string) :
    option string :=
  match index with O => inner s | S _ => Str.strip_prefix sep s ≫= inner end.

Definition read_octet (index : nat) : string -> option string :=
  read_separator "." index (read_number 10 255 3 false).

Definition read_ipv4_addr (s : string) : option string :=
  r1 ← read_octet 0 s; r2 ← read_octet 1 r1; r3 ← read_octet 2 r2; read_octet 3 r3.

(** [read_groups]: groups [i ..] of [limit], the number read, whether an IPv4 tail
    was read, and the rest. *)
Fixpoint read_groups (left i : nat) (s : string) : nat * bool * string :=
  match left with
  | O => (i, false, s)
  | S left' =>
      match (if bool_decide (left' = 0) then None else read_separator ":" i read_ipv4_addr s) with
      | Some rest => (i + 2, true, rest)
      | None =>
          match read_separator ":" i (read_number 16 65535 4 true) s with
          | Some rest => read_groups left' (S i) rest
          | None => (i, false, s)
          end
      end
  end.

Definition read_ipv6_addr (s : string) : option string :=
  let '(head_size, head_ipv4, rest) := read_groups 8 0 s in
  if bool_decide (head_size = 8) then Some rest
  else if head_ipv4 then None
  else rest ← Str.strip_prefix "::" rest;
       let '(_, _, rest) := read_groups (8 - (head_size + 1)) 0 rest in Some rest.

(** [s.parse::<IpAddr>().is_ok()]. *)
Definition is_ip_addr (s : string) : bool :=
  bool_decide (match read_ipv4_addr s with Some r => Some r | None => read_ipv6_addr s end
               = Some EmptyString).

Example ip_addresses :
  (is_ip_addr "127.0.0.1", is_ip_addr "::1", is_ip_addr "fe80::1:2", is_ip_addr "::ffff:1.2.3.4",
   is_ip_addr "1.2.3", is_ip_addr "01.2.3.4", is_ip_addr "1:2:3:4:5:6:7:8", is_ip_addr "256.1.1.1",
   is_ip_addr "1::2::3", is_ip_addr "a.b")
  = (true, true, true, true, false, false, true, false, false, false).
Proof. vm_compute. reflexivity. Qed.

(** *** The address a text stands for *)

Inductive IpAddr := V4 (octets : list Z) | V6 (groups : list Z).

(** [Parser::read_number] with its value; without a limit on the digits for [None]. *)
Definition number_value (radix limit : Z) (max_digits : option nat) (allow_zero_prefix : bool) (s : string) :
    option (Z * string) :=
  let '(v, n, rest) := read_digits radix 0 0 s in
  if bool_decide (n = O) || match max_digits with Some m => m <? n | None => false end || (limit <? v)%Z
     || (negb allow_zero_prefix && Str.starts_with "0" s && (1 <? n))
  then None else Some (v, rest).

Definition separated {A} (sep : string) (index : nat) (inner : string -> option A) (s : string) : option A :=
  match index with O => inner s | S _ => Str.strip_prefix sep s ≫= inner end.

Definition octet_value (index : nat) : string -> option (Z * string) :=
  separated "." index (number_value 10 255 (Some 3) false).

Definition ipv4_value (s : string) : option (list Z * string) :=
  a ← octet_value 0 s; b ← octet_value 1 a.2; c ← octet_value 2 b.2; d ← octet_value 3 c.2;
  Some ([a.1; b.1; c.1; d.1], d.2).

Fixpoint group_values (left i : nat) (s : string) : list Z * bool * string :=
  match left with
  | O => ([], false, s)
  | S left' =>
      match (if bool_decide (left' = 0) then None else separated ":" i ipv4_value s) with
      | Some (octets, rest) =>
          match octets with
          | [a; b; c; d] => ([(a * 256 + b)%Z; (c * 256 + d)%Z], true, rest)
          | _ => ([], true, rest)
          end
      | None =>
          match separated ":" i (number_value 16 65535 (Some 4) true) s with
          | Some (v, rest) => let '(vs, v4, rest) := group_values left' (S i) rest in (v :: vs, v4, rest)
          | None => ([], false, s)
          end
      end
  end.

Definition ipv6_value (s : string) : option (list Z * string) :=
  let '(head, head_ipv4, rest) := group_values 8 0 s in
  if bool_decide (List.length head = 8) then Some (head, rest)
  else if head_ipv4 then None
  else rest ← Str.strip_prefix "::" rest;
       let '(tail, _, rest) := group_values (8 - (List.length head + 1)) 0 rest in
       Some (head ++ replicate (8 - List.length head - List.length tail) 0%Z ++ tail, rest).

(** [s.parse::<IpAddr>()]. *)
Definition parse_ip (s : string) : option IpAddr :=
  match ipv4_value s with
  | Some (octets, rest) => if Str.is_empty rest then Some (V4 octets) else None
  | None => '(groups, rest) ← ipv6_value s; if Str.is_empty rest then Some (V6 groups) else None
  end.

(** [IpAddr::is_loopback]. *)
Definition is_loopback (a : IpAddr) : bool :=
  match a with
  | V4 octets => bool_decide (head octets = Some 127%Z)
  | V6 groups => bool_decide (groups = [0; 0; 0; 0; 0; 0; 0; 1]%Z)
  end.

(** The end of a socket address: a colon and a port. *)
Definition ends_in_port (s : string) : bool :=
  match Str.strip_prefix ":" s ≫= number_value 10 65535 None true with
  | Some (_, rest) => Str.is_empty rest
  | None => false
  end.

(** [s.parse::<SocketAddr>()], the address: [1.2.3.4:80], or [[::1]:80] with an optional scope. *)
Definition socket_ip (s : string) : option IpAddr :=
  match ipv4_value s with
  | Some (octets, rest) => if ends_in_port rest then Some (V4 octets) else None
  | None =>
      s ← Str.strip_prefix "[" s;
      '(groups, rest) ← ipv6_value s;
      let rest := match Str.strip_prefix "%" rest with
                  | Some scope => '(_, rest) ← number_value 10 4294967295 None true scope; Some rest
                  | None => Some rest
                  end in
      rest ← rest;
      rest ← Str.strip_prefix "]" rest;
      if ends_in_port rest then Some (V6 groups) else None
  end.

Example socket_addresses :
  (is_loopback <$> parse_ip "127.8.0.1", is_loopback <$> parse_ip "::1", is_loopback <$> parse_ip "::ffff:127.0.0.1",
   is_loopback <$> socket_ip "127.0.0.1:8080", is_loopback <$> socket_ip "[::1]:8080", is_loopback <$> socket_ip "0.0.0.0:80",
   is_loopback <$> socket_ip "localhost:80", is_loopback <$> socket_ip "127.0.0.1")
  = (Some true, Some true, Some false, Some true, Some true, Some false, None, None).
Proof. vm_compute. reflexivity. Qed.

(** ** Properties of texts of printable ASCII *)

(** A statement about one byte, by inspection of all of them. *)
Ltac by_byte a :=
  destruct a as [[] [] [] [] [] [] [] []]; vm_compute; first [reflexivity | intros; congruence | tauto].

(** Printable ASCII other than the space. *)
Definition graphic (a : ascii) : bool := Str.byte_in a 33 126.

Lemma forallb_impl (p q : ascii -> bool) (s : string) :
  (forall a, p a = true -> q a = true) -> Str.forallb p s = true -> Str.forallb q s = true.
Proof.
  intros Hpq. induction s as [|a s IH]; cbn; [done|].
  rewrite !andb_true_iff. intros [Ha Hs]. auto.
Qed.

Lemma graphic_no_control (s : string) : Str.forallb graphic s = true -> has_control s = false.
Proof.
  induction s as [|a s IH]; [done|]. cbn [Str.forallb has_control].
  rewrite andb_true_iff. intros [Ha Hs]. rewrite (IH Hs), orb_false_r.
  assert (Str.byte_in a 0 31 || Str.byte_is a 127 = false /\ Str.byte_is a 194 = false) as [-> Hb]
    by (revert Ha; by_byte a).
  destruct s; [done|]. by rewrite Hb.
Qed.

Lemma len_map_bytes (f : ascii -> ascii) (s : string) : Str.len (Str.map_bytes f s) = Str.len s.
Proof. induction s as [|a s IH]; [done|]. cbn. unfold Str.len in IH. by rewrite IH. Qed.

Lemma forallb_map_bytes (p : ascii -> bool) (f : ascii -> ascii) (s : string) :
  Str.forallb p (Str.map_bytes f s) = Str.forallb (fun a => p (f a)) s.
Proof. induction s as [|a s IH]; [done|]. cbn. by rewrite IH. Qed.

Lemma split_map_bytes (sep : ascii -> bool) (f : ascii -> ascii) (s : string) :
  (forall a, sep (f a) = sep a) -> Str.split sep (Str.map_bytes f s) = Str.map_bytes f <$> Str.split sep s.
Proof.
  intros Hf. induction s as [|a s IH]; [done|]. cbn [Str.map_bytes Str.split]. rewrite Hf, IH.
  destruct (sep a); [done|]. by destruct (Str.split sep s).
Qed.

Lemma split_forallb (sep p : ascii -> bool) (s : string) :
  Str.forallb p s = true -> Forall (fun w => Str.forallb p w = true) (Str.split sep s).
Proof.
  induction s as [|a s IH]; cbn; [intros _; by repeat constructor|].
  rewrite andb_true_iff. intros [Ha Hs]. specialize (IH Hs).
  destruct (sep a); [by constructor|].
  destruct (Str.split sep s) as [|w ws]; [repeat constructor; cbn; by rewrite Ha|].
  apply Forall_cons in IH as [Hw Hws]. constructor; [cbn; by rewrite Ha|done].
Qed.

(** The bytes of a text are those of its pieces and the separators. *)
Lemma forallb_of_split (sep p : ascii -> bool) (s : string) :
  (forall a, sep a = true -> p a = true) ->
  Forall (fun w => Str.forallb p w = true) (Str.split sep s) -> Str.forallb p s = true.
Proof.
  intros Hsep. induction s as [|a s IH]; cbn; [done|].
  destruct (sep a) eqn:E.
  - intros [_ HF]%Forall_cons. by rewrite (Hsep a E), IH.
  - destruct (Str.split sep s) as [|w ws].
    + intros [Ha _]%Forall_cons. cbn in Ha. rewrite andb_true_r in Ha. rewrite Ha, IH; done.
    + intros [Ha HF]%Forall_cons. cbn in Ha. apply andb_prop in Ha as [-> Hw]. by rewrite IH; [|constructor].
Qed.
