(* ===== verification/F32.v ===== *)
(** Rust's [f32]: IEEE-754 binary32 with round to nearest even, executable on the
    Standard Library's [SpecFloat].  Literals are correctly rounded quotients of
    small integers; [clamp], [min], [round] and the saturating cast [as u8] follow
    the documentation of the Rust primitives. *)
From S2P Require Import Prelude.
From Stdlib Require Import String Ascii SpecFloat.

Definition f32 : Type := spec_float.

#[export] Instance spec_float_eq_dec : EqDecision spec_float.
Proof. solve_decision. Defined.
#[export] Instance f32_eq_dec : EqDecision f32 := spec_float_eq_dec.

Definition f32_prec : Z := 24.
Definition f32_emax : Z := 128.

Definition f32_of_Z (n : Z) : f32 := binary_normalize f32_prec f32_emax n 0 false.
Definition f32_mul (a b : f32) : f32 := SFmul f32_prec f32_emax a b.
Definition f32_add (a b : f32) : f32 := SFadd f32_prec f32_emax a b.
Definition f32_sub (a b : f32) : f32 := SFsub f32_prec f32_emax a b.
Definition f32_div (a b : f32) : f32 := SFdiv f32_prec f32_emax a b.

(** The literal [n / d], for integers below 2^24. *)
Definition f32_lit (n d : Z) : f32 := f32_div (f32_of_Z n) (f32_of_Z d).

Definition f32_0 : f32 := S754_zero false.
Definition f32_1 : f32 := f32_of_Z 1.

Definition f32_lt (a b : f32) : bool := SFltb a b.
Definition f32_le (a b : f32) : bool := SFleb a b.
Definition f32_gt (a b : f32) : bool := SFltb b a.
Definition f32_ge (a b : f32) : bool := SFleb b a.

Definition is_nan (a : f32) : bool := match a with S754_nan => true | _ => false end.
Definition is_finite (a : f32) : bool :=
  match a with S754_nan | S754_infinity _ => false | _ => true end.

(** [x.clamp(lo, hi)]: NaN stays NaN. *)
Definition f32_clamp (x lo hi : f32) : f32 :=
  let x := if f32_lt x lo then lo else x in
  if f32_gt x hi then hi else x.

(** [x.min(y)]: the other operand when one is NaN. *)
Definition f32_min (x y : f32) : f32 :=
  if is_nan x then y else if is_nan y then x else if f32_lt y x then y else x.

(** The integer nearest to [m * 2^e], ties away from zero, for [m > 0]. *)
Definition round_away (m : positive) (e : Z) : Z :=
  if (0 <=? e)%Z then (Zpos m * 2 ^ e)%Z
  else ((Zpos m + 2 ^ (- e - 1)) / 2 ^ (- e))%Z.

(** [x.round()]. *)
Definition f32_round (x : f32) : f32 :=
  match x with
  | S754_finite s m e =>
      let n := round_away m e in
      if (n =? 0)%Z then S754_zero s else f32_of_Z (if s then - n else n)
  | _ => x
  end.

(** [x as u8]: truncation towards zero, saturating, NaN to 0. *)
Definition f32_as_u8 (x : f32) : Z :=
  match x with
  | S754_nan | S754_zero _ | S754_infinity true => 0
  | S754_infinity false => u8_max
  | S754_finite true _ _ => 0
  | S754_finite false m e =>
      Z.min u8_max (if (0 <=? e)%Z then (Zpos m * 2 ^ e)%Z else (Zpos m / 2 ^ (- e))%Z)
  end.

(** [x.partial_cmp(&y)]. *)
Definition f32_partial_cmp (x y : f32) : option comparison := SFcompare x y.

(** ** [f64] values, as far as JSON numbers need them *)

(** [x.fract() == 0.0] for a finite double. *)
Definition f64_integral (x : spec_float) : bool :=
  match x with
  | S754_zero _ => true
  | S754_finite _ m e => (0 <=? e)%Z || (Zpos m mod 2 ^ (- e) =? 0)%Z
  | _ => false
  end.
Definition f64_is_finite (x : spec_float) : bool := is_finite x.

(** ** Facts used by the components *)

(** In the unit interval: not NaN and between 0 and 1. *)
Definition f32_unit (x : f32) : Prop := f32_le f32_0 x = true /\ f32_le x f32_1 = true.

Lemma SFcompare_opp (x y : spec_float) :
  SFcompare y x = option_map CompOpp (SFcompare x y).
Proof.
  destruct x as [s|s| |s m e], y as [s'|s'| |s' m' e']; simpl; try done;
    try (by destruct s); try (by destruct s'); try (by destruct s, s').
  destruct s, s'; simpl; try done; f_equal.
  - rewrite (Z.compare_antisym e e'). destruct (e ?= e')%Z; simpl; try done.
    change (Pos.compare_cont Eq m m') with (m ?= m')%positive.
    change (Pos.compare_cont Eq m' m) with (m' ?= m)%positive.
    rewrite (Pos.compare_antisym m m'). by destruct (m ?= m')%positive.
  - rewrite (Z.compare_antisym e e'). destruct (e ?= e')%Z; simpl; try done.
    change (Pos.compare_cont Eq m m') with (m ?= m')%positive.
    change (Pos.compare_cont Eq m' m) with (m' ?= m)%positive.
    by rewrite (Pos.compare_antisym m m').
Qed.

(** Without NaN the comparison is total. *)
Lemma f32_not_lt_le (x y : f32) :
  is_nan x = false -> is_nan y = false -> f32_lt x y = false -> f32_le y x = true.
Proof.
  unfold f32_lt, f32_le, SFltb, SFleb. intros Hx Hy. rewrite (SFcompare_opp x y).
  destruct (SFcompare x y) as [[]|] eqn:E; simpl; try done.
  destruct x as [[]|[]| |[]], y as [[]|[]| |[]]; done.
Qed.

Lemma f32_clamp_unit (x : f32) : is_nan x = false -> f32_unit (f32_clamp x f32_0 f32_1).
Proof.
  intros Hx. unfold f32_clamp.
  assert (f32_unit f32_0 /\ f32_unit f32_1) as [H0 H1] by (split; split; reflexivity).
  destruct (f32_lt x f32_0) eqn:E0.
  - by vm_compute.
  - unfold f32_gt. change (SFltb f32_1 x) with (f32_lt f32_1 x).
    destruct (f32_lt f32_1 x) eqn:E1; [done|].
    split; apply f32_not_lt_le; done.
Qed.

Lemma f32_unit_not_nan (x : f32) : f32_unit x -> is_nan x = false.
Proof. intros [H _]. by destruct x. Qed.

(** *** Rounded results have a 24-bit significand *)

Lemma iter_pos_nat {A} (f : A -> A) (p : positive) (x : A) :
  iter_pos f p x = Nat.iter (Pos.to_nat p) f x.
Proof.
  revert x. induction p as [p IH|p IH|]; intros x; simpl iter_pos.
  - rewrite !IH, Pos2Nat.inj_xI, Nat.iter_succ_r.
    replace (2 * Pos.to_nat p) with (Pos.to_nat p + Pos.to_nat p) by lia.
    by rewrite Nat.iter_add.
  - rewrite !IH, Pos2Nat.inj_xO.
    replace (2 * Pos.to_nat p) with (Pos.to_nat p + Pos.to_nat p) by lia.
    by rewrite Nat.iter_add.
  - done.
Qed.

Lemma shr_1_div (r : shr_record) : (0 <= shr_m r)%Z -> shr_m (shr_1 r) = (shr_m r / 2)%Z.
Proof.
  destruct r as [m r s]. simpl. intros Hm. destruct m as [|[p|p|]|p]; simpl; try done; try lia.
  - apply (Z.div_unique _ _ _ 1); lia.
  - apply (Z.div_unique _ _ _ 0); lia.
Qed.

Lemma shr_iter_div (n : nat) (r : shr_record) : (0 <= shr_m r)%Z ->
  shr_m (Nat.iter n shr_1 r) = (shr_m r / 2 ^ Z.of_nat n)%Z.
Proof.
  intros Hm. induction n as [|n IH]; simpl Nat.iter; [by rewrite Z.div_1_r|].
  assert (0 <= shr_m r / 2 ^ Z.of_nat n)%Z by (apply Z.div_pos; lia).
  rewrite shr_1_div by lia. rewrite IH, Z.div_div by lia.
  f_equal. rewrite Nat2Z.inj_succ, Z.pow_succ_r by lia. lia.
Qed.

Lemma digits2_pos_bound (p : positive) : (Zpos p < 2 ^ Zpos (digits2_pos p))%Z.
Proof.
  induction p as [p IH|p IH|]; simpl digits2_pos; [| |done];
    rewrite Pos2Z.inj_succ, Z.pow_succ_r by lia; lia.
Qed.

Lemma shr_fexp_bound (m e : Z) : (0 <= m)%Z ->
  (0 <= shr_m (shr_fexp f32_prec f32_emax m e loc_Exact).1 < 2 ^ 24)%Z.
Proof.
  intros Hm. unfold shr_fexp, shr_record_of_loc. unfold shr.
  set (n := (fexp _ _ _ - e)%Z).
  assert (Zdigits2 m - 24 <= n)%Z as Hn.
  { subst n. unfold fexp, f32_prec. lia. }
  assert (m < 2 ^ Zdigits2 m)%Z as Hd.
  { destruct m as [|p|p]; simpl Zdigits2; [done|apply digits2_pos_bound|lia]. }
  assert (forall z, z <= 24 -> m < 2 ^ z -> m < 2 ^ 24)%Z as Hsm.
  { intros z Hz Hlt. destruct (Z.le_gt_cases 0 z).
    - assert (2 ^ z <= 2 ^ 24)%Z by (apply Z.pow_le_mono_r; lia). lia.
    - rewrite Z.pow_neg_r in Hlt by lia. lia. }
  destruct n as [|p|p]; simpl fst.
  - simpl shr_m. split; [done|]. apply (Hsm (Zdigits2 m)); lia.
  - rewrite iter_pos_nat, shr_iter_div by done. simpl shr_m.
    rewrite positive_nat_Z. split; [apply Z.div_pos; lia|].
    apply Z.div_lt_upper_bound; [lia|]. rewrite <- Z.pow_add_r by lia.
    eapply Z.lt_le_trans; [exact Hd|]. apply Z.pow_le_mono_r; lia.
  - simpl shr_m. split; [done|]. apply (Hsm (Zdigits2 m)); lia.
Qed.

Lemma shr_fexp_nonneg (m e : Z) (l : location) : (0 <= m)%Z ->
  (0 <= shr_m (shr_fexp f32_prec f32_emax m e l).1)%Z.
Proof.
  intros Hm. unfold shr_fexp, shr. assert (shr_m (shr_record_of_loc m l) = m) as Hr.
  { by destruct l as [|[]]. }
  case_match; simpl; rewrite ?Hr; try done.
  rewrite iter_pos_nat, shr_iter_div; rewrite Hr; [|done]. apply Z.div_pos; lia.
Qed.

Lemma f32_of_Z_bound (n : Z) (s : bool) (m : positive) (e : Z) :
  f32_of_Z n = S754_finite s m e -> (Zpos m < 2 ^ 24)%Z.
Proof.
  unfold f32_of_Z, binary_normalize, binary_round. intros H.
  assert (exists mx ex, binary_round_aux f32_prec f32_emax (Z.ltb n 0) (Zpos mx) ex loc_Exact
    = S754_finite s m e) as (mx & ex & Haux).
  { destruct n as [|p|p]; [done| |]; destruct (shl_align _ _ _) as [mz ez]; eauto. }
  clear H. revert Haux. unfold binary_round_aux.
  destruct (shr_fexp f32_prec f32_emax (Zpos mx) ex loc_Exact) as [r1 e1] eqn:E1.
  pose proof (shr_fexp_nonneg (Zpos mx) ex loc_Exact ltac:(lia)) as H1. rewrite E1 in H1.
  set (k := round_nearest_even _ _).
  assert (0 <= k)%Z as Hk.
  { simpl in H1. subst k. unfold round_nearest_even. repeat case_match; lia. }
  pose proof (shr_fexp_bound k e1 Hk) as H2.
  destruct (shr_fexp f32_prec f32_emax k e1 loc_Exact) as [r2 e2]. simpl in H2.
  destruct (shr_m r2) as [|p|p]; [done| |done]. case_match; [|done]. intros [= _ <- _]. lia.
Qed.

Lemma f32_as_u8_frac (m : positive) (e : Z) :
  (e < 0)%Z -> (Zpos m < 101 * 2 ^ (- e))%Z -> (0 <= f32_as_u8 (S754_finite false m e) <= 100)%Z.
Proof.
  intros He Hm. unfold f32_as_u8. rewrite (proj2 (Z.leb_gt 0 e) He).
  assert (0 < 2 ^ (- e))%Z as Hp by (apply Z.pow_pos_nonneg; lia).
  revert Hm Hp. generalize (2 ^ (- e))%Z. intros p Hm Hp. change u8_max with 255%Z.
  assert (0 <= Zpos m / p)%Z by (apply Z.div_pos; lia).
  assert (Zpos m / p < 101)%Z by (apply Z.div_lt_upper_bound; lia).
  revert H H0. generalize (Zpos m / p)%Z. lia.
Qed.

(** [x.round().clamp(0.0, 100.0) as u8] is a percentage. *)
Lemma f32_percent_bound (x : f32) :
  (0 <= f32_as_u8 (f32_clamp (f32_round x) f32_0 (f32_of_Z 100)) <= 100)%Z.
Proof.
  unfold f32_clamp. destruct (f32_lt (f32_round x) f32_0) eqn:E0; [by vm_compute|].
  destruct (f32_gt (f32_round x) (f32_of_Z 100)) eqn:E1; [by vm_compute|].
  unfold f32_gt in E1. change (f32_of_Z 100) with (S754_finite false 13107200 (-17)) in E1.
  destruct (f32_round x) as [s|[]| |[] m e] eqn:Er; try (vm_compute; done); try done.
  assert (Zpos m < 2 ^ 24)%Z as Hm.
  { destruct x as [| | |s' m' e']; simpl in Er; [congruence..|].
    case_match; [done|]. eapply f32_of_Z_bound. exact Er. }
  unfold SFltb in E1. cbn [SFcompare] in E1.
  destruct (Z.compare_spec (-17) e) as [<-|Hlt|Hgt]; [|done|]; apply f32_as_u8_frac; try lia.
  - change (Pos.compare_cont Eq 13107200 m) with (13107200 ?= m)%positive in E1.
    change (101 * 2 ^ (- -17))%Z with 13238272%Z.
    assert ((13107200 ?= m)%positive <> Lt) as Hc.
    { intros Hc. rewrite Hc in E1. discriminate E1. }
    apply Pos.compare_ge_iff, Pos2Z.pos_le_pos in Hc.
    eapply Z.le_lt_trans; [exact Hc|reflexivity].
  - assert (2 ^ 18 <= 2 ^ (- e))%Z by (apply Z.pow_le_mono_r; lia). lia.
Qed.

(** The strict order is transitive, infinities and signs included. *)
Lemma SFcompare_finite_neg (m m' : positive) (e e' : Z) :
  SFcompare (S754_finite true m e) (S754_finite true m' e') =
  SFcompare (S754_finite false m' e') (S754_finite false m e).
Proof.
  cbn [SFcompare]. rewrite (Z.compare_antisym e e'). destruct (e ?= e')%Z; simpl; try done.
  change (Pos.compare_cont Eq m m') with (m ?= m')%positive.
  change (Pos.compare_cont Eq m' m) with (m' ?= m)%positive.
  by rewrite (Pos.compare_antisym m m').
Qed.

Lemma f32_lt_finite (m m' : positive) (e e' : Z) :
  f32_lt (S754_finite false m e) (S754_finite false m' e') = true <->
  (e < e' \/ e = e' /\ Zpos m < Zpos m')%Z.
Proof.
  unfold f32_lt, SFltb. cbn [SFcompare].
  change (Pos.compare_cont Eq m m') with (m ?= m')%positive.
  destruct (Z.compare_spec e e'), (Pos.compare_spec m m'); split; (done || lia).
Qed.

Lemma f32_lt_finite_neg (m m' : positive) (e e' : Z) :
  f32_lt (S754_finite true m e) (S754_finite true m' e') =
  f32_lt (S754_finite false m' e') (S754_finite false m e).
Proof. unfold f32_lt, SFltb. by rewrite SFcompare_finite_neg. Qed.

Lemma f32_lt_trans (x y z : f32) : f32_lt x y = true -> f32_lt y z = true -> f32_lt x z = true.
Proof.
  destruct x as [[]|[]| |[] m e], y as [[]|[]| |[] m' e'], z as [[]|[]| |[] m'' e'']; try done;
    rewrite ?f32_lt_finite_neg, ?f32_lt_finite; lia.
Qed.

Lemma f32_gt_irrefl (x : f32) : f32_gt x x = false.
Proof.
  unfold f32_gt, SFltb. destruct x as [[]|[]| |[] m e]; try done; cbn [SFcompare];
    rewrite Z.compare_refl; change (Pos.compare_cont Eq m m) with (m ?= m)%positive;
    by rewrite Pos.compare_refl.
Qed.
