(* ===== verification/Json.v ===== *)
(** [serde_json::Value]: JSON values with their accessors.  Objects are
    [BTreeMap]s (the crate is built without [preserve_order]), so an object is an
    association list that the program reads in increasing key order. *)
From S2P Require Import Prelude BTree F32.
From Stdlib Require Import String Ascii SpecFloat.

(** [serde_json::Number]: a non-negative integer ([u64]), a negative one ([i64])
    or a finite double. *)
Inductive Number :=
| PosInt (n : Z)
| NegInt (n : Z)
| Float (f : spec_float).

Unset Elimination Schemes.
Inductive Value :=
| JNull
| JBool (b : bool)
| JNumber (n : Number)
| JString (s : string)
| JArray (l : list Value)
| JObject (m : list (string * Value)).
Set Elimination Schemes.

(** ** Induction through arrays and objects *)

Section Value_induction.
Variable P : Value -> Prop.
Hypothesis Hnull : P JNull.
Hypothesis Hbool : forall b, P (JBool b).
Hypothesis Hnum : forall n, P (JNumber n).
Hypothesis Hstr : forall s, P (JString s).
Hypothesis Harr : forall l, Forall P l -> P (JArray l).
Hypothesis Hobj : forall m, Forall (fun kv => P kv.2) m -> P (JObject m).

Fixpoint Value_ind' (v : Value) : P v :=
  match v with
  | JNull => Hnull
  | JBool b => Hbool b
  | JNumber n => Hnum n
  | JString s => Hstr s
  | JArray l =>
      Harr l ((fix go (l : list Value) : Forall P l :=
        match l with
        | [] => @List.Forall_nil _ P
        | x :: l' => @List.Forall_cons _ P x l' (Value_ind' x) (go l')
        end) l)
  | JObject m =>
      Hobj m ((fix go (m : list (string * Value)) : Forall (fun kv => P kv.2) m :=
        match m with
        | [] => @List.Forall_nil _ _
        | kv :: m' => @List.Forall_cons _ _ kv m' (Value_ind' kv.2) (go m')
        end) m)
  end.
End Value_induction.

#[export] Instance Number_eq_dec : EqDecision Number.
Proof. solve_decision. Defined.

Fixpoint value_eqb (v w : Value) : bool :=
  match v, w with
  | JNull, JNull => true
  | JBool b, JBool c => Bool.eqb b c
  | JNumber n, JNumber m => bool_decide (n = m)
  | JString s, JString t => bool_decide (s = t)
  | JArray l, JArray k =>
      (fix go (l k : list Value) : bool :=
        match l, k with
        | [], [] => true
        | x :: l', y :: k' => value_eqb x y && go l' k'
        | _, _ => false
        end) l k
  | JObject l, JObject k =>
      (fix go (l k : list (string * Value)) : bool :=
        match l, k with
        | [], [] => true
        | (a, x) :: l', (b, y) :: k' => bool_decide (a = b) && value_eqb x y && go l' k'
        | _, _ => false
        end) l k
  | _, _ => false
  end.

Lemma value_eqb_eq (v w : Value) : value_eqb v w = true <-> v = w.
Proof.
  revert w. induction v as [|b|n|s|l IH|m IH] using Value_ind'; intros w;
    destruct w as [|b'|n'|s'|l'|m']; simpl; try (split; congruence).
  - rewrite Bool.eqb_true_iff. split; congruence.
  - rewrite bool_decide_eq_true. split; congruence.
  - rewrite bool_decide_eq_true. split; congruence.
  - trans (l = l'); [|split; congruence]. revert l'.
    induction IH as [|x l Hx _ IH]; intros [|y l']; try (split; congruence).
    rewrite andb_true_iff, Hx, IH. split; [intros [-> ->]|intros [= -> ->]]; done.
  - trans (m = m'); [|split; congruence]. revert m'.
    induction IH as [|[a x] m Hx _ IH]; intros [|[b y] m']; try (split; congruence).
    simpl in Hx. rewrite !andb_true_iff, bool_decide_eq_true, Hx, IH.
    split; [intros [[-> ->] ->]|intros [= -> -> ->]]; done.
Qed.

#[export] Instance Value_eq_dec : EqDecision Value.
Proof.
  intros v w. destruct (value_eqb v w) eqn:E.
  - left. by apply value_eqb_eq.
  - right. intros Heq. apply value_eqb_eq in Heq. congruence.
Defined.

(** ** Accessors *)

Definition is_null (v : Value) : bool := match v with JNull => true | _ => false end.
Definition is_boolean (v : Value) : bool := match v with JBool _ => true | _ => false end.
Definition is_number (v : Value) : bool := match v with JNumber _ => true | _ => false end.
Definition is_string (v : Value) : bool := match v with JString _ => true | _ => false end.
Definition is_array (v : Value) : bool := match v with JArray _ => true | _ => false end.
Definition is_object (v : Value) : bool := match v with JObject _ => true | _ => false end.

Definition as_bool (v : Value) : option bool := match v with JBool b => Some b | _ => None end.
Definition as_str (v : Value) : option string := match v with JString s => Some s | _ => None end.
Definition as_array (v : Value) : option (list Value) :=
  match v with JArray l => Some l | _ => None end.
Definition as_object (v : Value) : option (list (string * Value)) :=
  match v with JObject m => Some m | _ => None end.

(** [is_u64]: a non-negative integer; [is_i64]: an integer in the [i64] range. *)
Definition is_u64 (v : Value) : bool :=
  match v with JNumber (PosInt _) => true | _ => false end.
Definition is_i64 (v : Value) : bool :=
  match v with
  | JNumber (PosInt n) => (n <=? i64_max)%Z
  | JNumber (NegInt _) => true
  | _ => false
  end.
Definition as_u64 (v : Value) : option Z :=
  match v with JNumber (PosInt n) => Some n | _ => None end.

(** [value.get(key)]: a member of an object. *)
Definition value_get (key : string) (v : Value) : option Value :=
  match v with JObject m => BMap.get key m | _ => None end.

(** Well-formed values: every object is a [BTreeMap]. *)
Fixpoint value_wf (v : Value) : Prop :=
  match v with
  | JArray l => (fix go l := match l with [] => True | x :: l' => value_wf x /\ go l' end) l
  | JObject m =>
      BMap.wf m /\
      (fix go (m : list (string * Value)) :=
         match m with [] => True | kv :: m' => value_wf kv.2 /\ go m' end) m
  | _ => True
  end.

Lemma wf_array (l : list Value) : value_wf (JArray l) <-> Forall value_wf l.
Proof.
  simpl. induction l as [|x l IH]; [by split|].
  rewrite Forall_cons, IH. done.
Qed.

Lemma wf_object (m : list (string * Value)) :
  value_wf (JObject m) <-> BMap.wf m /\ Forall (fun kv => value_wf kv.2) m.
Proof.
  simpl. apply and_iff_compat_l. induction m as [|x m IH]; [by split|].
  rewrite Forall_cons, IH. done.
Qed.

(** ** Canonical form: objects rebuilt through a [BTreeMap], recursively *)

Fixpoint canonical (value : Value) : Value :=
  match value with
  | JObject m =>
      JObject (BMap.of_list ((fix go (m : list (string * Value)) :=
        match m with [] => [] | kv :: m' => (kv.1, canonical kv.2) :: go m' end) m))
  | JArray items =>
      JArray ((fix go (l : list Value) := match l with [] => [] | x :: l' => canonical x :: go l' end) items)
  | other => other
  end.

Lemma canonical_object (m : list (string * Value)) :
  canonical (JObject m) = JObject (BMap.of_list ((fun kv => (kv.1, canonical kv.2)) <$> m)).
Proof. done. Qed.

Lemma canonical_array (l : list Value) : canonical (JArray l) = JArray (canonical <$> l).
Proof. done. Qed.

(** The canonical form does not depend on the order of an object's members. *)
Lemma canonical_perm (m m' : list (string * Value)) :
  m ≡ₚ m' -> NoDup m.*1 -> canonical (JObject m) = canonical (JObject m').
Proof.
  intros Hp Hnd. rewrite !canonical_object. f_equal. apply BMap.bmap_of_list_perm.
  - by rewrite Hp.
  - rewrite <- list_fmap_compose. exact Hnd.
Qed.

(** On values whose objects are already [BTreeMap]s it is the identity. *)
Lemma canonical_id (v : Value) : value_wf v -> canonical v = v.
Proof.
  induction v as [| | | |l IH|m IH] using Value_ind'; intros Hwf; try done.
  - rewrite canonical_array. f_equal. apply wf_array in Hwf.
    induction IH as [|x l Hx _ IHl]; [done|]. apply Forall_cons in Hwf as [H1 H2].
    rewrite fmap_cons, Hx, IHl; done.
  - rewrite canonical_object. f_equal. apply wf_object in Hwf as [Hm Hall].
    assert ((fun kv => (kv.1, canonical kv.2)) <$> m = m) as ->; [|by apply BMap.bmap_of_list_id].
    clear Hm. induction IH as [|[k x] m Hx _ IHm]; [done|]. apply Forall_cons in Hall as [H1 H2].
    rewrite fmap_cons, IHm by done. simpl in Hx |- *. by rewrite (Hx H1).
Qed.
