(* ===== verification/CoreTypes.v ===== *)
(** The data of the detection engine ([crates/core]): severities, directions,
    findings with their taxonomy tags, and the pure helpers shared by detectors. *)
From S2P Require Import Prelude BTree Platform F32.
From Stdlib Require Import String Ascii.
#[local] Abbreviation length := List.length.

(** ** [severity.rs] *)

Inductive Severity := Info | Low | Medium | High | Critical.

#[export] Instance Severity_eq_dec : EqDecision Severity.
Proof. solve_decision. Defined.

(** Declaration order, from which [Ord] derives. *)
Definition sev_index (s : Severity) : Z :=
  match s with Info => 0 | Low => 1 | Medium => 2 | High => 3 | Critical => 4 end.

#[export] Instance Severity_ord : Ord Severity := fun a b => Z.compare (sev_index a) (sev_index b).
#[export] Instance Severity_ord_laws : OrdLaws Severity.
Proof.
  split; unfold cmp, Severity_ord.
  - by intros [] [].
  - by intros [] [].
  - by intros [] [] [].
Qed.

Definition sev_ge (a b : Severity) : bool := (sev_index b <=? sev_index a)%Z.
Definition sev_lt (a b : Severity) : bool := (sev_index a <? sev_index b)%Z.

Definition weight (s : Severity) : f32 :=
  match s with
  | Info => f32_lit 10 100
  | Low => f32_lit 30 100
  | Medium => f32_lit 60 100
  | High => f32_lit 85 100
  | Critical => f32_lit 98 100
  end.

(** ** [context.rs] *)

Inductive Direction := Input | Output.

#[export] Instance Direction_eq_dec : EqDecision Direction.
Proof. solve_decision. Defined.

Record Context := mkContext { ctx_text : string; ctx_direction : Direction }.

Definition context_input (text : string) : Context := mkContext text Input.
Definition context_output (text : string) : Context := mkContext text Output.

(** ** [taxonomy.rs] *)

(** The detector root before any [.] sub-id. *)
Definition root (detector : string) : string :=
  default detector (head (Str.split_char "." detector)).

Definition owasp (detector : string) : option string :=
  let r := root detector in
  if bool_decide (r = "injection") then Some "LLM01:2025 Prompt Injection"
  else if bool_decide (r = "secret") || bool_decide (r = "pii")
       then Some "LLM02:2025 Sensitive Information Disclosure"
  else if bool_decide (r = "output") then Some "LLM05:2025 Improper Output Handling"
  else None.

Definition atlas (detector : string) : option string :=
  let r := root detector in
  if bool_decide (r = "injection") then Some "AML.T0051"
  else if bool_decide (r = "secret") || bool_decide (r = "pii") then Some "AML.T0057"
  else None.

(** ** [finding.rs] *)

Record Finding := mkFinding {
  f_detector : string;
  f_severity : Severity;
  f_confidence : f32;
  f_span : option span;
  f_label : string;
  f_direction : Direction;
  f_owasp : option string;
  f_atlas : option string
}.

#[export] Instance Finding_eq_dec : EqDecision Finding.
Proof.
  intros [a b c d e f g h] [a' b' c' d' e' f' g' h'].
  destruct (decide ((a, b, c, d, e, f, g, h) = (a', b', c', d', e', f', g', h'))) as [E|E].
  - left. congruence.
  - right. congruence.
Defined.

Definition finding_new (detector : string) (severity : Severity) (confidence : f32)
    (label : string) : Finding := {|
  f_detector := detector;
  f_severity := severity;
  f_confidence := f32_clamp confidence f32_0 f32_1;
  f_span := None;
  f_label := label;
  f_direction := Input;
  f_owasp := owasp detector;
  f_atlas := atlas detector
|}.

Definition with_span (s : span) (f : Finding) : Finding := {|
  f_detector := f_detector f; f_severity := f_severity f;
  f_confidence := f_confidence f; f_span := Some s; f_label := f_label f;
  f_direction := f_direction f; f_owasp := f_owasp f; f_atlas := f_atlas f
|}.

Definition with_direction (d : Direction) (f : Finding) : Finding := {|
  f_detector := f_detector f; f_severity := f_severity f;
  f_confidence := f_confidence f; f_span := f_span f; f_label := f_label f;
  f_direction := d; f_owasp := f_owasp f; f_atlas := f_atlas f
|}.

(** [f.span = None] on a mutable finding. *)
Definition drop_span (f : Finding) : Finding := {|
  f_detector := f_detector f; f_severity := f_severity f;
  f_confidence := f_confidence f; f_span := None; f_label := f_label f;
  f_direction := f_direction f; f_owasp := f_owasp f; f_atlas := f_atlas f
|}.

(** ** The segment-bounded prefix test both policy engines use *)

(** ["pii"] matches ["pii"] and ["pii.email"] but not ["piixyz"]. *)
Definition detector_matches (d detector : string) : bool :=
  bool_decide (detector = d) || Str.starts_with (d +:+ ".") detector.

(** ** [util.rs]: the Luhn checksum *)

(** [c.to_digit(10)] on a byte: non-ASCII bytes are no digits. *)
Definition to_digit (a : ascii) : option Z :=
  if Str.is_digit a then Some (Z.of_N (N_of_ascii a) - 48)%Z else None.

Definition digits (s : string) : list Z := omap to_digit (String.list_ascii_of_string s).

(** One step of the loop over the reversed digits; [alt] doubles. *)
Definition luhn_digit (alt : bool) (d : Z) : Z :=
  if alt then (let x := 2 * d in if 9 <? x then x - 9 else x)%Z else d.

Fixpoint luhn_sum (alt : bool) (ds : list Z) : Z :=
  match ds with
  | [] => 0
  | d :: ds' => (luhn_digit alt d + luhn_sum (negb alt) ds')%Z
  end.

Definition luhn_valid (s : string) : bool :=
  let ds := digits s in
  if negb ((13 <=? length ds) && (length ds <=? 19)) then false
  else (luhn_sum false (rev ds) mod 10 =? 0)%Z.

(** *** Luhn catches every single-digit error *)

Lemma to_digit_range (a : ascii) (d : Z) : to_digit a = Some d -> (0 <= d <= 9)%Z.
Proof.
  unfold to_digit, Str.is_digit, Str.byte_in. intros H. case_match eqn:E; [|done].
  apply andb_prop in E as [E1 E2]. apply N.leb_le in E1, E2. injection H as <-. lia.
Qed.

Lemma to_digit_inj (a b : ascii) (d : Z) : to_digit a = Some d -> to_digit b = Some d -> a = b.
Proof.
  unfold to_digit. intros Ha Hb. repeat case_match; simplify_eq.
  rewrite <- (ascii_N_embedding a), <- (ascii_N_embedding b). f_equal.
  unfold Str.is_digit, Str.byte_in in *.
  repeat match goal with H : (_ && _)%bool = true |- _ => apply andb_prop in H as [?%N.leb_le ?%N.leb_le] end.
  lia.
Qed.

Lemma list_ascii_of_string_app (s t : string) :
  String.list_ascii_of_string (s +:+ t) =
  String.list_ascii_of_string s ++ String.list_ascii_of_string t.
Proof. induction s as [|a s IH]; [done|]. rewrite Str.app_cons. simpl. by rewrite IH. Qed.

Lemma digits_app (s t : string) : digits (s +:+ t) = digits s ++ digits t.
Proof. unfold digits. by rewrite list_ascii_of_string_app, omap_app. Qed.

Lemma luhn_sum_app (alt : bool) (ds es : list Z) :
  luhn_sum alt (ds ++ es) =
  (luhn_sum alt ds + luhn_sum (if Nat.even (length ds) then alt else negb alt) es)%Z.
Proof.
  revert alt. induction ds as [|d ds IH]; intros alt; [done|].
  change (luhn_digit alt d + luhn_sum (negb alt) (ds ++ es) =
    luhn_digit alt d + luhn_sum (negb alt) ds +
    luhn_sum (if Nat.even (S (length ds)) then alt else negb alt) es)%Z.
  rewrite IH, Nat.even_succ, <- Nat.negb_even, Z.add_assoc. do 2 f_equal.
  by destruct (Nat.even (length ds)), alt.
Qed.

Lemma luhn_digit_mod (alt : bool) (x y : Z) :
  (0 <= x <= 9)%Z -> (0 <= y <= 9)%Z ->
  (luhn_digit alt x mod 10 = luhn_digit alt y mod 10)%Z -> x = y.
Proof.
  intros Hx Hy. unfold luhn_digit. destruct alt; [|rewrite !Z.mod_small by lia; done].
  destruct (9 <? 2 * x)%Z eqn:Ex, (9 <? 2 * y)%Z eqn:Ey;
    rewrite ?Z.ltb_lt, ?Z.ltb_ge in *; rewrite !Z.mod_small by lia; lia.
Qed.

Lemma luhn_sum_change (ds es : list Z) (x y : Z) :
  (0 <= x <= 9)%Z -> (0 <= y <= 9)%Z -> x <> y ->
  (luhn_sum false (ds ++ x :: es) mod 10 = 0)%Z ->
  (luhn_sum false (ds ++ y :: es) mod 10 <> 0)%Z.
Proof.
  intros Hx Hy Hne. rewrite !luhn_sum_app. cbn [luhn_sum].
  set (alt := if Nat.even (length ds) then _ else _).
  set (A := luhn_sum false ds). set (B := luhn_sum (negb alt) es). intros H1 H2.
  apply Hne, (luhn_digit_mod alt); [done..|].
  rewrite <- (Z.add_0_r (luhn_digit alt x)), <- (Z.add_0_r (luhn_digit alt y)).
  apply Z.mod_divide in H1 as [k1 H1], H2 as [k2 H2]; [|done..].
  replace (luhn_digit alt x + 0)%Z with (luhn_digit alt y + 0 + (k1 - k2) * 10)%Z by lia.
  by rewrite Z.mod_add by done.
Qed.

(** Two digit strings that differ in one digit are never both valid. *)
Lemma luhn_detects_single_digit (p r : string) (a b : ascii) (x y : Z) :
  to_digit a = Some x -> to_digit b = Some y -> a <> b ->
  luhn_valid (p +:+ String a r) = true -> luhn_valid (p +:+ String b r) = false.
Proof.
  intros Ha Hb Hne. unfold luhn_valid.
  assert (forall c z, to_digit c = Some z ->
    digits (p +:+ String c r) = digits p ++ z :: digits r) as Hd.
  { intros c z Hc. rewrite digits_app. f_equal. unfold digits. simpl. by rewrite Hc. }
  rewrite (Hd a x), (Hd b y) by done. rewrite !length_app. simpl length.
  case_match; [done|]. intros H1%Z.eqb_eq. apply Z.eqb_neq. revert H1.
  rewrite !rev_app_distr. simpl rev. rewrite <- !app_assoc. simpl app.
  apply luhn_sum_change; [by eapply to_digit_range..|].
  intros ->. eauto using to_digit_inj.
Qed.

(** ** [util.rs]: Shannon entropy *)

(** [f32::log2], and the order in which a [HashMap] yields its values. *)
Class EntropyPlatform := {
  f32_log2 : f32 -> f32;
  hash_values : list (ascii * Z) -> list Z
}.

(** [*counts.entry(b).or_insert(0) += 1]. *)
Fixpoint count_byte (b : ascii) (counts : list (ascii * Z)) : list (ascii * Z) :=
  match counts with
  | [] => [(b, 1%Z)]
  | (c, n) :: rest =>
      if decide (b = c) then (c, (n + 1)%Z) :: rest else (c, n) :: count_byte b rest
  end.

Definition byte_counts (s : string) : list (ascii * Z) :=
  fold_left (fun m b => count_byte b m) (String.list_ascii_of_string s) [].

Definition shannon_entropy `{EntropyPlatform} (s : string) : f32 :=
  if Str.is_empty s then f32_0
  else
    let len := f32_of_Z (Z.of_nat (Str.len s)) in
    fold_left (fun h c =>
        let p := f32_div (f32_of_Z c) len in
        f32_sub h (f32_mul p (f32_log2 p)))
      (hash_values (byte_counts s)) f32_0.
