(* ===== verification/Scoring.v ===== *)
(** Risk scoring ([crates/core/src/scoring.rs]): noisy-OR over the findings'
    contributions, as a percentage with the labels of the top three. *)
From S2P Require Import Prelude BTree Platform F32 CoreTypes.
From Stdlib Require Import String Ascii.
#[local] Abbreviation length := List.length.

Record RiskScore := mkRiskScore { rs_score : Z; rs_reasons : list string }.

Definition contribution (f : Finding) : f32 :=
  let c := f32_mul (weight (f_severity f)) (f_confidence f) in
  if negb (is_finite c) then f32_0 else f32_clamp c f32_0 f32_1.

(** [product *= 1.0 - contribution(f)] over the findings. *)
Definition noisy_or (findings : list Finding) : f32 :=
  fold_left (fun product f => f32_mul product (f32_sub f32_1 (contribution f))) findings f32_1.

(** The comparator ranks [a] no later than [b] (an incomparable pair is equal). *)
Definition rank_le (a b : Finding) : bool :=
  match f32_partial_cmp (contribution b) (contribution a) with
  | Some Gt => false
  | _ => true
  end.

Definition score_findings (findings : list Finding) : RiskScore :=
  let product := noisy_or findings in
  let combined := f32_sub f32_1 product in
  let score := f32_as_u8 (f32_clamp (f32_round (f32_mul combined (f32_of_Z 100)))
                                    f32_0 (f32_of_Z 100)) in
  let ranked := sort_by rank_le findings in
  {| rs_score := score; rs_reasons := f_label <$> take 3 ranked |}.

(** ** Properties *)

Lemma contribution_unit (f : Finding) : f32_unit (contribution f).
Proof.
  unfold contribution. destruct (is_finite _) eqn:E; simpl; [|by split].
  apply f32_clamp_unit. by destruct (f32_mul _ _).
Qed.

Lemma rank_le_spec (a b : Finding) :
  rank_le a b = true <-> f32_le (contribution b) (contribution a) = true.
Proof.
  unfold rank_le, f32_partial_cmp, f32_le, SpecFloat.SFleb.
  pose proof (f32_unit_not_nan _ (contribution_unit a)) as Ha.
  pose proof (f32_unit_not_nan _ (contribution_unit b)) as Hb.
  destruct (SpecFloat.SFcompare _ _) as [[]|] eqn:E; try done.
  split; [|done]. intros _. destruct (contribution a) as [[]|[]| |[]], (contribution b) as [[]|[]| |[]]; done.
Qed.

Lemma f32_unit_cases (x : f32) : f32_unit x ->
  (exists s, x = SpecFloat.S754_zero s) \/ (exists m e, x = SpecFloat.S754_finite false m e).
Proof. intros [H0 H1]. destruct x as [s|[]| |[] m e]; eauto; done. Qed.

Lemma f32_le_finite (m m' : positive) (e e' : Z) :
  f32_le (SpecFloat.S754_finite false m e) (SpecFloat.S754_finite false m' e') = true <->
  (e < e' \/ e = e' /\ Zpos m <= Zpos m')%Z.
Proof.
  unfold f32_le, SpecFloat.SFleb. cbn [SpecFloat.SFcompare].
  change (Pos.compare_cont Eq m m') with (m ?= m')%positive.
  destruct (Z.compare_spec e e'), (Pos.compare_spec m m'); split; (done || lia).
Qed.

Lemma f32_le_unit_trans (x y z : f32) :
  f32_unit x -> f32_unit y -> f32_unit z ->
  f32_le x y = true -> f32_le y z = true -> f32_le x z = true.
Proof.
  intros [[s ->]|(m & e & ->)]%f32_unit_cases [[s' ->]|(m' & e' & ->)]%f32_unit_cases
    [[s'' ->]|(m'' & e'' & ->)]%f32_unit_cases; try done.
  rewrite !f32_le_finite. lia.
Qed.

Lemma rank_le_total (a b : Finding) : rank_le a b = true \/ rank_le b a = true.
Proof.
  rewrite !rank_le_spec.
  destruct (f32_le (contribution b) (contribution a)) eqn:E; [by left|right].
  destruct (f32_unit_cases _ (contribution_unit a)) as [[s Ha]|(m & e & Ha)],
    (f32_unit_cases _ (contribution_unit b)) as [[s' Hb]|(m' & e' & Hb)];
    rewrite Ha, Hb in *; try done.
  apply f32_le_finite. apply not_true_iff_false in E. rewrite f32_le_finite in E. lia.
Qed.

Lemma rank_le_trans (a b c : Finding) :
  rank_le a b = true -> rank_le b c = true -> rank_le a c = true.
Proof. rewrite !rank_le_spec. intros. eapply f32_le_unit_trans; eauto using contribution_unit. Qed.

Lemma StronglySorted_take_drop {A} (R : A -> A -> Prop) (l : list A) (n : nat) (x y : A) :
  StronglySorted R l -> x ∈ take n l -> y ∈ drop n l -> R x y.
Proof.
  intros H. revert n. induction H as [|z l Hl IH Hall]; intros [|n]; simpl;
    rewrite ?elem_of_nil; try done.
  intros [->|Hx]%elem_of_cons Hy; [|eauto].
  rewrite Forall_forall in Hall. apply Hall. rewrite <- (take_drop n l), elem_of_app. by right.
Qed.

(** The score is a percentage whatever the findings hold, NaN and infinite
    confidences included. *)
Theorem score_bounded (findings : list Finding) :
  (0 <= rs_score (score_findings findings) <= 100)%Z.
Proof. apply f32_percent_bound. Qed.

Theorem score_empty : score_findings [] = mkRiskScore 0 [].
Proof. reflexivity. Qed.

(** The reasons are the labels of the (at most three) findings with the largest
    contributions: no unreported finding contributes more than a reported one. *)
Theorem reasons_top (findings : list Finding) :
  exists top rest, top ++ rest ≡ₚ findings /\
    rs_reasons (score_findings findings) = f_label <$> top /\
    length top = min 3 (length findings) /\
    forall f g, f ∈ top -> g ∈ rest -> f32_le (contribution g) (contribution f) = true.
Proof.
  exists (take 3 (sort_by rank_le findings)), (drop 3 (sort_by rank_le findings)).
  rewrite take_drop, length_take, (Permutation_length (sort_by_perm rank_le findings)).
  split_and!; [apply sort_by_perm|done|done|].
  intros f g Hf Hg. apply rank_le_spec.
  apply (StronglySorted_take_drop (fun a b => rank_le a b = true) (sort_by rank_le findings) 3);
    [|done..].
  apply sort_by_sorted; eauto using rank_le_total, rank_le_trans.
Qed.

(** A pile of twelve [Low] findings outranks a single [Critical] one, contrary to
    the module's description of noisy-OR. *)
Theorem lows_outrank_critical :
  (rs_score (score_findings [finding_new "injection" Critical f32_1 "critical"]) = 98 /\
   rs_score (score_findings (replicate 12 (finding_new "pii" Low f32_1 "low"))) = 99)%Z.
Proof. vm_compute. done. Qed.
