(* ===== verification/Masking.v ===== *)
(** Masking ([crates/core/src/masking.rs]): the spans of findings are replaced by
    typed tokens, the earliest-starting, longest span winning an overlap. *)
From S2P Require Import Prelude BTree Platform F32 CoreTypes.
From Stdlib Require Import String Ascii.
#[local] Abbreviation length := List.length.

(** The quotation marks U+2039 and U+203A, in UTF-8. *)
Definition lquote : string := String "226" (String "128" (String "185" EmptyString)).
Definition rquote : string := String "226" (String "128" (String "186" EmptyString)).

(** The slice [&text[a..b]]; [None] is a panic: the range is reversed, out of
    bounds or off a character boundary. *)
Definition checked_slice (text : string) (a b : nat) : option string :=
  if (a <=? b) && (b <=? Str.len text)
     && Str.is_char_boundary text a && Str.is_char_boundary text b
  then Some (slice text (a, b)) else None.

Section masking.
Context `{UnicodeTables}.

Definition token_for (detector : string) : string :=
  let suffix := default detector (last (Str.split_char "." detector)) in
  lquote +:+ to_uppercase suffix +:+ rquote.

(** Start ascending, then end descending. *)
Definition span_le (a b : span * string) : bool :=
  (a.1.1 <? b.1.1) || ((a.1.1 =? b.1.1) && (b.1.2 <=? a.1.2)).

Definition mask_spans (findings : list Finding) : list (span * string) :=
  sort_by span_le (omap (fun f => (fun s => (s, token_for (f_detector f))) <$> f_span f) findings).

(** The tests that skip a span: overlap, out of bounds, off a boundary. *)
Definition skip_span (text : string) (cursor : nat) (s : span) : bool :=
  (s.1 <? cursor)
  || (Str.len text <? s.1) || (Str.len text <? s.2)
  || negb (Str.is_char_boundary text s.1) || negb (Str.is_char_boundary text s.2).

(** The loop over the sorted spans, [out] and [cursor] as in the source. *)
Fixpoint mask_loop (text out : string) (cursor : nat) (spans : list (span * string)) :
    option string :=
  match spans with
  | [] => rest ← checked_slice text cursor (Str.len text); Some (out +:+ rest)
  | (s, token) :: spans' =>
      if skip_span text cursor s then mask_loop text out cursor spans'
      else pre ← checked_slice text cursor s.1;
           mask_loop text (out +:+ pre +:+ token) s.2 spans'
  end.

Definition mask (text : string) (findings : list Finding) : option string :=
  mask_loop text EmptyString 0 (mask_spans findings).

(** ** The specification: pieces of text kept, ranges replaced *)

(** The spans that are replaced, in order. *)
Fixpoint kept (text : string) (cursor : nat) (spans : list (span * string)) :
    list (span * string) :=
  match spans with
  | [] => []
  | (s, token) :: spans' =>
      if skip_span text cursor s then kept text cursor spans'
      else (s, token) :: kept text s.2 spans'
  end.

(** The text from [cursor] on with the given disjoint ranges replaced. *)
Fixpoint render (text : string) (cursor : nat) (ks : list (span * string)) : string :=
  match ks with
  | [] => slice text (cursor, Str.len text)
  | (s, token) :: ks' => slice text (cursor, s.1) +:+ token +:+ render text s.2 ks'
  end.

(** ** Lemmas *)

Lemma boundary_0 (text : string) : Str.is_char_boundary text 0 = true.
Proof. done. Qed.

Lemma boundary_len (text : string) : Str.is_char_boundary text (Str.len text) = true.
Proof.
  unfold Str.is_char_boundary. destruct (Str.len text) eqn:E; [done|].
  by rewrite bool_decide_true by lia.
Qed.

Lemma checked_slice_Some (text : string) (a b : nat) :
  a <= b -> b <= Str.len text ->
  Str.is_char_boundary text a = true -> Str.is_char_boundary text b = true ->
  checked_slice text a b = Some (slice text (a, b)).
Proof.
  intros Ha Hb Ba Bb. unfold checked_slice. rewrite Ba, Bb.
  by rewrite (proj2 (Nat.leb_le a b)), (proj2 (Nat.leb_le b (Str.len text))).
Qed.

Lemma skip_span_false (text : string) (cursor : nat) (s : span) :
  skip_span text cursor s = false <->
  cursor <= s.1 /\ s.1 <= Str.len text /\ s.2 <= Str.len text /\
  Str.is_char_boundary text s.1 = true /\ Str.is_char_boundary text s.2 = true.
Proof.
  unfold skip_span. rewrite !orb_false_iff, !Nat.ltb_ge, !negb_false_iff. tauto.
Qed.

(** Every cursor the loop reaches is a boundary inside the text. *)
Lemma mask_loop_render (text out : string) (cursor : nat) (spans : list (span * string)) :
  cursor <= Str.len text -> Str.is_char_boundary text cursor = true ->
  mask_loop text out cursor spans = Some (out +:+ render text cursor (kept text cursor spans)).
Proof.
  revert out cursor. induction spans as [|[s token] spans IH]; intros out cursor Hc Hb; simpl.
  - rewrite checked_slice_Some; auto using boundary_len.
  - destruct (skip_span text cursor s) eqn:E; [by apply IH|].
    apply skip_span_false in E as (? & ? & ? & ? & ?).
    rewrite checked_slice_Some by done. simpl.
    rewrite IH by done. by rewrite !Str.app_assoc.
Qed.

(** Masking never panics, on any list of findings (stale, reversed, overlapping or
    off-boundary spans included), and returns the text with exactly the kept spans
    replaced by their tokens. *)
Theorem mask_total (text : string) (findings : list Finding) :
  mask text findings = Some (render text 0 (kept text 0 (mask_spans findings))).
Proof. unfold mask. rewrite mask_loop_render; auto with lia. Qed.

Lemma slice_full (text : string) : slice text (0, Str.len text) = text.
Proof. unfold slice. simpl. by rewrite Nat.sub_0_r, Str.take_all. Qed.

Lemma mask_spans_nil (findings : list Finding) :
  Forall (fun f => f_span f = None) findings -> mask_spans findings = [].
Proof.
  intros Hf. unfold mask_spans.
  enough (omap (fun f => (fun s => (s, token_for (f_detector f))) <$> f_span f) findings = []) as ->
    by done.
  induction Hf as [|f fs Hf Hfs IH]; [done|]. simpl. rewrite Hf. done.
Qed.

(** Without a span there is nothing to mask. *)
Theorem mask_no_spans (text : string) (findings : list Finding) :
  Forall (fun f => f_span f = None) findings -> mask text findings = Some text.
Proof.
  intros Hf. rewrite mask_total, mask_spans_nil by done. simpl. by rewrite slice_full.
Qed.

(** *** Which bytes are replaced *)

(** A span that lies in the text, on character boundaries. *)
Definition span_valid (text : string) (s : span) : bool :=
  (s.1 <=? s.2) && (s.2 <=? Str.len text)
  && Str.is_char_boundary text s.1 && Str.is_char_boundary text s.2.

Lemma span_le_total (a b : span * string) : span_le a b = true \/ span_le b a = true.
Proof.
  unfold span_le. rewrite !orb_true_iff, !andb_true_iff, !Nat.ltb_lt, !Nat.eqb_eq, !Nat.leb_le. lia.
Qed.

Lemma span_le_trans (a b c : span * string) :
  span_le a b = true -> span_le b c = true -> span_le a c = true.
Proof.
  unfold span_le. rewrite !orb_true_iff, !andb_true_iff, !Nat.ltb_lt, !Nat.eqb_eq, !Nat.leb_le. lia.
Qed.

Lemma span_le_start (a b : span * string) : span_le a b = true -> a.1.1 <= b.1.1.
Proof.
  unfold span_le. rewrite orb_true_iff, andb_true_iff, Nat.ltb_lt, Nat.eqb_eq. lia.
Qed.

Lemma mask_spans_elem (findings : list Finding) (f : Finding) (s : span) :
  f ∈ findings -> f_span f = Some s -> (s, token_for (f_detector f)) ∈ mask_spans findings.
Proof.
  intros Hf Hs. apply sort_by_elem, list_elem_of_omap. exists f. by rewrite Hs.
Qed.

(** [k] hides the first byte of [s]: it is [s] or [s] starts inside it. *)
Definition hides_start (k s : span) : Prop := k = s \/ k.1 <= s.1 < k.2.

Lemma kept_hides (text : string) (cursor : nat) (spans : list (span * string)) (s : span * string) :
  StronglySorted (fun a b => span_le a b = true) spans ->
  s ∈ spans -> span_valid text s.1 = true ->
  (exists k, k ∈ kept text cursor spans /\ hides_start k.1 s.1) \/ s.1.1 < cursor.
Proof.
  intros Hs. revert cursor. induction Hs as [|[p t] spans Hs IH Hall]; intros cursor Hin Hv;
    [by apply elem_of_nil in Hin|].
  simpl kept. apply elem_of_cons in Hin as [->|Hin].
  - destruct (skip_span text cursor p) eqn:E.
    + right. simpl in *. unfold span_valid in Hv. boolp.
      destruct (Nat.lt_ge_cases p.1 cursor); [done|].
      exfalso. apply not_false_iff_true in E. apply E, skip_span_false.
      split_and!; try done; lia.
    + left. exists (p, t). split; [by left|by left].
  - destruct (skip_span text cursor p) eqn:E; [by apply IH|]. left.
    destruct (IH p.2 Hin Hv) as [(k & Hk & Hh)|Hlt].
    + exists k. split; [by right|done].
    + exists (p, t). split; [by left|]. right. rewrite Forall_forall in Hall.
      specialize (Hall _ Hin) as Hle%span_le_start. simpl in *. lia.
Qed.

(** The first byte of every finding with a valid span is replaced: some kept span
    is that span or contains its start. *)
Theorem mask_hides_start (text : string) (findings : list Finding) (f : Finding) (s : span) :
  f ∈ findings -> f_span f = Some s -> span_valid text s = true ->
  exists k, k ∈ kept text 0 (mask_spans findings) /\ hides_start k.1 s.
Proof.
  intros Hf Hs Hv.
  destruct (kept_hides text 0 (mask_spans findings) (s, token_for (f_detector f)))
    as [Hk|Hlt]; simpl in *; [|by eauto using mask_spans_elem| |done|lia].
  - apply sort_by_sorted; eauto using span_le_total, span_le_trans.
  - done.
Qed.

End masking.

(** A span that starts inside a kept one and ends after it is dropped whole: its
    tail stays in the masked text. *)
Theorem mask_leaks_tail :
  @mask ascii_tables "abcdef"
    [with_span (0, 3) (finding_new "pii.x" Low f32_1 "x");
     with_span (2, 5) (finding_new "secret.y" High f32_1 "y")]
  = Some (lquote +:+ "X" +:+ rquote +:+ "def").
Proof. reflexivity. Qed.
