(* ===== verification/CorePolicy.v ===== *)
(** The flat first-match policy engine of the detection core
    ([crates/core/src/policy.rs]). *)
From S2P Require Import Prelude BTree Platform F32 CoreTypes.
From Stdlib Require Import String Ascii.

Inductive Action := ActAllow | ActMask | ActBlock | ActFlag.

#[export] Instance Action_eq_dec : EqDecision Action.
Proof. solve_decision. Defined.

Record Condition := mkCondition {
  c_detector : option string;
  c_min_severity : option Severity;
  c_risk_score_gte : option Z;
  c_direction : option Direction
}.

Record Rule := mkRule {
  r_name : string;
  r_when : Condition;
  r_action : Action;
  r_message : option string
}.

Record PolicySet := mkPolicySet { ps_policies : list Rule; ps_default : Action }.

Record Decision := mkDecision {
  d_action : Action;
  d_rule : option string;
  d_message : option string
}.

(** The closure over one finding. *)
Definition finding_matches (c : Condition) (f : Finding) : bool :=
  let det_ok := match c_detector c with
                | Some d => detector_matches d (f_detector f) | None => true end in
  let sev_ok := match c_min_severity c with
                | Some m => sev_ge (f_severity f) m | None => true end in
  det_ok && sev_ok.

Definition cond_matches (c : Condition) (findings : list Finding) (score : Z)
    (direction : Direction) : bool :=
  if match c_direction c with Some d => negb (bool_decide (d = direction)) | None => false end
  then false
  else if match c_risk_score_gte c with Some m => (score <? m)%Z | None => false end
  then false
  else if bool_decide (is_Some (c_detector c)) || bool_decide (is_Some (c_min_severity c))
  then existsb (finding_matches c) findings
  else true.

Fixpoint evaluate_rules (rules : list Rule) (deflt : Action) (findings : list Finding)
    (score : Z) (direction : Direction) : Decision :=
  match rules with
  | [] => mkDecision deflt None None
  | r :: rules' =>
      if cond_matches (r_when r) findings score direction
      then mkDecision (r_action r) (Some (r_name r)) (r_message r)
      else evaluate_rules rules' deflt findings score direction
  end.

Definition evaluate (p : PolicySet) (findings : list Finding) (score : Z)
    (direction : Direction) : Decision :=
  evaluate_rules (ps_policies p) (ps_default p) findings score direction.

(** ** Properties *)

(** What a condition requires, as a proposition: every present part holds, and one
    finding satisfies the detector and severity parts together. *)
Definition cond_holds (c : Condition) (findings : list Finding) (score : Z)
    (direction : Direction) : Prop :=
  (forall d, c_direction c = Some d -> direction = d) /\
  (forall m, c_risk_score_gte c = Some m -> (m <= score)%Z) /\
  (c_detector c = None /\ c_min_severity c = None \/
   exists f, f ∈ findings /\
     (forall d, c_detector c = Some d ->
        f_detector f = d \/ exists sub, f_detector f = d +:+ "." +:+ sub) /\
     (forall m, c_min_severity c = Some m -> (sev_index m <= sev_index (f_severity f))%Z)).

Lemma detector_matches_spec (d detector : string) :
  detector_matches d detector = true <->
  detector = d \/ exists sub, detector = d +:+ "." +:+ sub.
Proof.
  unfold detector_matches. rewrite orb_true_iff, bool_decide_eq_true, Str.starts_with_spec.
  by setoid_rewrite Str.app_assoc.
Qed.

Lemma finding_matches_spec (c : Condition) (f : Finding) :
  finding_matches c f = true <->
  (forall d, c_detector c = Some d ->
     f_detector f = d \/ exists sub, f_detector f = d +:+ "." +:+ sub) /\
  (forall m, c_min_severity c = Some m -> (sev_index m <= sev_index (f_severity f))%Z).
Proof.
  unfold finding_matches. rewrite andb_true_iff, !forall_Some.
  destruct (c_detector c), (c_min_severity c); unfold sev_ge;
    rewrite ?detector_matches_spec, ?Z.leb_le; tauto.
Qed.

Lemma any_finding_spec (c : Condition) (findings : list Finding) :
  existsb (finding_matches c) findings = true <->
  exists f, f ∈ findings /\
     (forall d, c_detector c = Some d ->
        f_detector f = d \/ exists sub, f_detector f = d +:+ "." +:+ sub) /\
     (forall m, c_min_severity c = Some m -> (sev_index m <= sev_index (f_severity f))%Z).
Proof.
  rewrite existsb_exists. setoid_rewrite <- list_elem_of_In.
  by setoid_rewrite finding_matches_spec.
Qed.

Lemma cond_matches_spec (c : Condition) (findings : list Finding) (score : Z)
    (direction : Direction) :
  cond_matches c findings score direction = true <-> cond_holds c findings score direction.
Proof.
  unfold cond_matches, cond_holds. rewrite <- any_finding_spec, !forall_Some.
  destruct (c_direction c) as [d|]; [case_bool_decide|]; simpl; [|naive_solver|];
    (destruct (c_risk_score_gte c) as [m|];
      [destruct (Z.ltb_spec score m); [naive_solver lia|]|]);
    destruct (c_detector c), (c_min_severity c); simpl; naive_solver.
Qed.

Lemma evaluate_rules_spec (rules : list Rule) (deflt : Action) (findings : list Finding)
    (score : Z) (direction : Direction) :
  let ok r := cond_holds (r_when r) findings score direction in
  (exists pre r post, rules = pre ++ r :: post /\ Forall (fun r' => ~ ok r') pre /\ ok r /\
     evaluate_rules rules deflt findings score direction
       = mkDecision (r_action r) (Some (r_name r)) (r_message r)) \/
  (Forall (fun r => ~ ok r) rules /\
     evaluate_rules rules deflt findings score direction = mkDecision deflt None None).
Proof.
  intros ok. induction rules as [|r rules IH]; [by right|]. simpl.
  destruct (cond_matches _ _ _ _) eqn:E.
  - left. exists [], r, rules. split_and!; [done|constructor|by apply cond_matches_spec|done].
  - assert (~ ok r) as Hr by (unfold ok; rewrite <- cond_matches_spec; congruence).
    destruct IH as [(pre & r' & post & -> & Hpre & Hok & Heq)|[Hall Heq]].
    + left. exists (r :: pre), r', post. split_and!; [done|by constructor|done|done].
    + right. split; [by constructor|done].
Qed.

(** The decision is that of the first rule whose condition holds, with its name and
    message; the default without a rule when none holds. *)
Theorem evaluate_first_match (p : PolicySet) (findings : list Finding) (score : Z)
    (direction : Direction) :
  let ok r := cond_holds (r_when r) findings score direction in
  (exists pre r post, ps_policies p = pre ++ r :: post /\
     Forall (fun r' => ~ ok r') pre /\ ok r /\
     evaluate p findings score direction
       = mkDecision (r_action r) (Some (r_name r)) (r_message r)) \/
  (Forall (fun r => ~ ok r) (ps_policies p) /\
     evaluate p findings score direction = mkDecision (ps_default p) None None).
Proof. apply evaluate_rules_spec. Qed.
