(* ===== verification/Detectors.v ===== *)
(** The built-in detectors of the core ([crates/core/src/detectors]): prompt
    injection (signatures and heuristics, the build without the [ml] feature),
    PII, secrets and dangerous output.  Patterns are the source's, run by the
    regex interface. *)
From S2P Require Import Prelude BTree Platform F32 CoreTypes Masking.
From Stdlib Require Import String Ascii.
#[local] Abbreviation length := List.length.

(** ** [detector.rs] *)

(** A detection stage: the [Detector] trait object. *)
Record Detector := mkDetector { det_name : string; det_inspect : Context -> list Finding }.

(** [for f in &mut findings { f.direction = ctx.direction; }] *)
Definition stamp (d : Direction) (fs : list Finding) : list Finding := with_direction d <$> fs.

(** ** Formatting [{:.2}] *)

(** The digit character of [0 <= d <= 9]. *)
Definition digit_char (d : Z) : ascii := ascii_of_N (Z.to_N (48 + d)).

(** [m * 2^e] in hundredths, to the nearest integer, ties to even. *)
Definition hundredths (m : positive) (e : Z) : Z :=
  if (0 <=? e)%Z then (100 * Zpos m * 2 ^ e)%Z
  else
    let d := (2 ^ (- e))%Z in
    let q := (100 * Zpos m / d)%Z in
    let r := (100 * Zpos m mod d)%Z in
    (if (2 * r <? d) then q else if (d <? 2 * r) then q + 1
     else if Z.even q then q else q + 1)%Z.

(** [format!("{x:.2}")] for [0 <= x < 10], the scores that are printed. *)
Definition fmt_2 (x : f32) : string :=
  let h := match x with SpecFloat.S754_finite _ m e => hundredths m e | _ => 0%Z end in
  String (digit_char (h / 100)) (String "." (String (digit_char (h / 10 mod 10))
    (String (digit_char (h mod 10)) EmptyString))).

(** ** [injection/heuristics.rs] *)

Definition IMPERATIVE : string :=
  "(?i)\b(ignore|disregard|override|bypass|forget|reveal|pretend|act\s+as)\b".
Definition LONG_B64 : string := "[A-Za-z0-9+/]{40,}={0,2}".

(** [text.matches(pat).count()]: non-overlapping, from the left. *)
Fixpoint count_go (pat : string) (skip : nat) (s : string) : nat :=
  match s with
  | EmptyString => 0
  | String _ s' =>
      match skip with
      | S k => count_go pat k s'
      | O => if Str.starts_with pat s then S (count_go pat (Str.len pat - 1) s')
             else count_go pat 0 s'
      end
  end.
Definition count_matches (pat text : string) : nat := count_go pat 0 text.

Definition delimiter_hits (text : string) : nat :=
  count_matches "```" text + count_matches "###" text
  + count_matches "---" text + count_matches "<|" text.

Section detectors.
Context `{RegexEngine}.

Definition score_text (text : string) : f32 :=
  let score := f32_0 in
  let score := f32_add score
    (f32_mul (f32_lit 30 100) (f32_of_Z (Z.of_nat (min (length (find_iter IMPERATIVE text)) 3)))) in
  let score := if is_match LONG_B64 text then f32_add score (f32_lit 30 100) else score in
  let score := f32_add score
    (f32_mul (f32_lit 10 100) (f32_of_Z (Z.of_nat (min (delimiter_hits text) 3)))) in
  f32_min score f32_1.

Definition heuristics_scan (text : string) : list Finding :=
  let score := score_text text in
  if f32_lt score (f32_lit 30 100) then []
  else
    let severity := if f32_ge score (f32_lit 75 100) then High
                    else if f32_ge score (f32_lit 5 10) then Medium
                    else Low in
    [finding_new "injection" severity score
       ("heuristic injection signals (score " +:+ fmt_2 score +:+ ")")].

(** ** [injection/signatures.rs] *)

Record Signature := mkSignature { sig_re : string; sig_severity : Severity; sig_label : string }.

Definition SIGNATURES : list Signature := [
    mkSignature "(?i)ignore\s+(all\s+|any\s+|the\s+)?(previous|prior|above)\s+instructions" High "instruction-override phrase";
    mkSignature "(?i)disregard\s+(all\s+|any\s+|the\s+)?(previous|prior|above)" High "instruction-disregard phrase";
    mkSignature "(?i)you\s+are\s+now\s+(in\s+)?(\bdan\b|developer\s+mode|do\s+anything\s+now)" High "jailbreak persona";
    mkSignature "(?i)\b(?:system|developer)\s*:\s*you\s+are\s+now\b" High "privileged-role impersonation";
    mkSignature "(?i)(reveal|print|show|repeat)\s+(the\s+)?(your\s+)?(system\s+)?(prompt|instructions)" Medium "system-prompt exfiltration";
    mkSignature "<\|im_(start|end)\|>" Medium "chat-template delimiter injection"
  ].

Definition signatures_scan (text : string) : list Finding :=
  sig ← SIGNATURES;
  m ← find_iter (sig_re sig) text;
  [with_span m (finding_new "injection" (sig_severity sig) (f32_lit 9 10) (sig_label sig))].

(** ** [injection/mod.rs] *)

Definition injection_inspect (ctx : Context) : list Finding :=
  let findings := signatures_scan (ctx_text ctx) ++ heuristics_scan (ctx_text ctx) in
  stamp (ctx_direction ctx) findings.

Definition InjectionDetector : Detector := mkDetector "injection" injection_inspect.

(** ** [pii.rs] *)

Record PiiRule := mkPiiRule {
  pii_id : string; pii_re : string; pii_severity : Severity; pii_label : string;
  pii_validate : string -> bool
}.

Definition always (_ : string) : bool := true.

Definition PII_RULES : list PiiRule := [
    mkPiiRule "pii.email" "[A-Za-z0-9._%+-]+@[A-Za-z0-9.-]+\.[A-Za-z]{2,}" Medium "email address" always;
    mkPiiRule "pii.ssn" "\b\d{3}-\d{2}-\d{4}\b" High "US SSN" always;
    mkPiiRule "pii.ipv4" "\b(?:\d{1,3}\.){3}\d{1,3}\b" Low "IPv4 address" always;
    mkPiiRule "pii.credit_card" "\b(?:\d[ -]?){13,19}\b" High "credit card number" luhn_valid
  ].

Definition pii_inspect (ctx : Context) : list Finding :=
  stamp (ctx_direction ctx)
    (rule ← PII_RULES;
     m ← find_iter (pii_re rule) (ctx_text ctx);
     if negb (pii_validate rule (slice (ctx_text ctx) m)) then []
     else [with_span m (finding_new (pii_id rule) (pii_severity rule) (f32_lit 9 10)
                          (pii_label rule))]).

Definition PiiDetector : Detector := mkDetector "pii" pii_inspect.

(** ** [secret.rs] *)

Record SecretRule := mkSecretRule {
  sec_id : string; sec_re : string; sec_severity : Severity; sec_label : string
}.

Definition SECRET_RULES : list SecretRule := [
    mkSecretRule "secret.aws_key" "AKIA[0-9A-Z]{16}" Critical "AWS access key id";
    mkSecretRule "secret.github_pat" "ghp_[A-Za-z0-9]{36}" Critical "GitHub personal access token";
    mkSecretRule "secret.slack" "xox[baprs]-[0-9A-Za-z-]{10,48}" High "Slack token";
    mkSecretRule "secret.jwt" "eyJ[A-Za-z0-9_-]{5,}\.[A-Za-z0-9_-]{5,}\.[A-Za-z0-9_-]{5,}" High "JWT";
    mkSecretRule "secret.private_key" "-----BEGIN (?:RSA |EC |OPENSSH )?PRIVATE KEY-----" Critical "private key material"
  ].

Definition GENERIC_TOKEN : string := "[A-Za-z0-9+/_-]{24,}".
Definition ENTROPY_THRESHOLD : f32 := f32_lit 4 1.

(** The findings of the provider patterns. *)
Definition secret_rule_findings (text : string) : list Finding :=
  rule ← SECRET_RULES;
  m ← find_iter (sec_re rule) text;
  [with_span m (finding_new (sec_id rule) (sec_severity rule) (f32_lit 95 100) (sec_label rule))].

(** Some finding's span covers the match. *)
Definition covered (out : list Finding) (m : span) : bool :=
  existsb (fun f => match f_span f with
                    | Some s => (s.1 <=? m.1) && (m.2 <=? s.2) | None => false end) out.

Definition generic_finding (m : span) : Finding :=
  with_span m (finding_new "secret.generic" Low (f32_lit 5 10) "high-entropy token").

(** One iteration of the generic gate over the findings so far. *)
Definition generic_step `{EntropyPlatform} (text : string) (out : list Finding) (m : span) :
    list Finding :=
  if f32_lt (shannon_entropy (slice text m)) ENTROPY_THRESHOLD then out
  else if covered out m then out
  else out ++ [generic_finding m].

Definition secret_inspect `{EntropyPlatform} (ctx : Context) : list Finding :=
  let text := ctx_text ctx in
  let out := secret_rule_findings text in
  let out := fold_left (generic_step text) (find_iter GENERIC_TOKEN text) out in
  stamp (ctx_direction ctx) out.

Definition SecretDetector `{EntropyPlatform} : Detector := mkDetector "secret" secret_inspect.

(** ** [output.rs] *)

Record OutRule := mkOutRule {
  out_id : string; out_re : string; out_severity : Severity; out_confidence : f32;
  out_label : string
}.

Definition OUT_RULES : list OutRule := [
    mkOutRule "output.shell.rm_rf" "(?i)\brm\s+-\w*[rf]\w*[rf]\w*" Critical (f32_lit 90 100)
      "destructive shell command (rm -rf)";
    mkOutRule "output.shell.fork_bomb" ":\(\)\s*\{\s*:\s*\|\s*:\s*&\s*\}\s*;\s*:" Critical (f32_lit 95 100)
      "fork bomb";
    mkOutRule "output.shell.pipe_exec" "(?i)\b(?:curl|wget)\b[^\n|]*\|\s*(?:sudo\s+)?(?:ba)?sh\b" Critical (f32_lit 90 100)
      "pipe-to-shell execution (curl | sh)";
    mkOutRule "output.shell.disk" "(?i)(?:\bdd\s+if=|\bmkfs(?:\.\w+)?\b|>\s*/dev/sd[a-z])" Critical (f32_lit 85 100)
      "raw disk / filesystem-destroying command";
    mkOutRule "output.shell.power" "(?i)\b(?:shutdown|reboot|halt|poweroff)\b" High (f32_lit 70 100)
      "system power command";
    mkOutRule "output.html.script" "(?i)<\s*script\b" High (f32_lit 85 100)
      "inline <script> in output";
    mkOutRule "output.html.iframe" "(?i)<\s*iframe\b" Medium (f32_lit 75 100)
      "inline <iframe> in output";
    mkOutRule "output.html.js_uri" "(?i)javascript:" Medium (f32_lit 70 100)
      "javascript: URI in output";
    mkOutRule "output.html.event_handler" "(?i)\bon(?:error|load|click|mouseover)\s*=" Medium (f32_lit 70 100)
      "HTML event-handler attribute in output";
    mkOutRule "output.exfil.markdown_image" "(?i)!\[[^\]]*\]\(\s*https?://[^)\s]+\?[^)\s]*=[^)\s]*\)" High (f32_lit 85 100)
      "markdown image to external URL with query data (auto-loading exfil)"
  ].

Definition output_inspect (ctx : Context) : list Finding :=
  if negb (bool_decide (ctx_direction ctx = Output)) then []
  else
    rule ← OUT_RULES;
    match find (out_re rule) (ctx_text ctx) with
    | Some m => [with_span m (finding_new (out_id rule) (out_severity rule)
                                (out_confidence rule) (out_label rule))]
    | None => []
    end.

Definition OutputDetector : Detector := mkDetector "output" output_inspect.

(** The built-in set, in the order the agent firewall builds it. *)
Definition builtin_detectors `{EntropyPlatform} : list Detector :=
  [InjectionDetector; SecretDetector; PiiDetector; OutputDetector].

(** ** Properties *)

(** *** The heuristic bands *)

(** The heuristic score in tenths: what the source intends, before rounding. *)
Definition tenths (text : string) : nat :=
  3 * min (length (find_iter IMPERATIVE text)) 3
  + (if is_match LONG_B64 text then 3 else 0) + min (delimiter_hits text) 3.

Definition band (t : nat) : option Severity :=
  if t <? 3 then None else if t <? 5 then Some Low else if t <? 8 then Some Medium else Some High.

(** Single-precision rounding never moves a heuristic score across a band: the
    scan emits at most one finding, and its severity is the band of the exact
    score in tenths. *)
Theorem heuristics_bands (text : string) :
  f_severity <$> heuristics_scan text = option_list (band (tenths text)).
Proof.
  unfold heuristics_scan, tenths, score_text.
  assert (min (length (find_iter IMPERATIVE text)) 3 <= 3) as H1 by lia.
  assert (min (delimiter_hits text) 3 <= 3) as H2 by lia.
  revert H1 H2.
  generalize (min (length (find_iter IMPERATIVE text)) 3). intros i Hi.
  generalize (min (delimiter_hits text) 3). intros d Hd.
  destruct (is_match LONG_B64 text);
    do 4 (destruct i as [|i]; [do 4 (destruct d as [|d]; [by vm_compute|]); lia|]); lia.
Qed.

(** *** Directions *)

Lemma stamp_direction (d : Direction) (fs : list Finding) :
  Forall (fun f => f_direction f = d) (stamp d fs).
Proof. apply Forall_fmap, Forall_true. done. Qed.

Lemma Forall_list_bind {A B} (P : B -> Prop) (g : A -> list B) (l : list A) :
  (forall a, a ∈ l -> Forall P (g a)) -> Forall P (l ≫= g).
Proof.
  intros Hg. apply Forall_forall. intros b (a & Hb & Ha)%list_elem_of_bind.
  specialize (Hg a Ha). rewrite Forall_forall in Hg. eauto.
Qed.

(** Every finding of the output detector carries the direction [Input], although
    the detector only ever runs on [Output]: it does not stamp the direction the
    way its siblings do. *)
Theorem output_direction_unstamped (text : string) :
  Forall (fun f => f_direction f = Input) (output_inspect (context_output text)) /\
  Forall (fun f => f_direction f = Output) (injection_inspect (context_output text)) /\
  Forall (fun f => f_direction f = Output) (pii_inspect (context_output text)).
Proof.
  split_and!; [|apply stamp_direction|apply stamp_direction].
  unfold output_inspect. case_match; [constructor|]. apply Forall_list_bind. intros r _.
  destruct (find _ _); by repeat constructor.
Qed.

(** *** Spans *)

Lemma spans_ok_valid (text : string) (from : nat) (ms : list span) (m : span) :
  spans_ok text from ms -> m ∈ ms -> span_valid text m = true.
Proof.
  revert from. induction ms as [|[a b] ms IH]; intros from Hok Hm; [by apply elem_of_nil in Hm|].
  destruct Hok as (? & ? & ? & Ha & Hb & Hok). apply elem_of_cons in Hm as [->|Hm]; [|eauto].
  unfold span_valid. simpl. rewrite Ha, Hb.
  by rewrite (proj2 (Nat.leb_le a b)), (proj2 (Nat.leb_le b (Str.len text))).
Qed.

(** A finding whose span, if any, is valid in [text]. *)
Definition span_fits (text : string) (f : Finding) : Prop :=
  forall s, f_span f = Some s -> span_valid text s = true.

Lemma stamp_fits (text : string) (d : Direction) (fs : list Finding) :
  Forall (span_fits text) fs -> Forall (span_fits text) (stamp d fs).
Proof. intros Hf. apply Forall_fmap. eapply Forall_impl; [exact Hf|]. done. Qed.

Context `{EntropyPlatform}.
Context (Hlaws : RegexLaws).

Lemma find_iter_valid (re text : string) (m : span) :
  m ∈ find_iter re text -> span_valid text m = true.
Proof. apply (spans_ok_valid text 0). apply find_iter_ok. Qed.

Lemma with_span_fits (text re : string) (m : span) (f : Finding) :
  m ∈ find_iter re text -> Forall (span_fits text) [with_span m f].
Proof.
  intros Hm. constructor; [|constructor]. intros s [= <-]. by eapply find_iter_valid.
Qed.

Lemma generic_fits (text : string) (ms : list span) (out : list Finding) :
  (forall m, m ∈ ms -> m ∈ find_iter GENERIC_TOKEN text) ->
  Forall (span_fits text) out -> Forall (span_fits text) (fold_left (generic_step text) ms out).
Proof.
  revert out. induction ms as [|m ms IH]; intros out Hms Hout; simpl; [done|].
  apply IH; [intros; apply Hms; by right|]. unfold generic_step.
  case_match; [done|]. case_match; [done|]. apply Forall_app. split; [done|].
  eapply with_span_fits, Hms. left.
Qed.

(** Every span a built-in detector reports lies in the inspected text on character
    boundaries, so masking never has to drop one as malformed. *)
Theorem builtin_spans_fit (ctx : Context) (d : Detector) :
  d ∈ builtin_detectors -> Forall (span_fits (ctx_text ctx)) (det_inspect d ctx).
Proof.
  unfold builtin_detectors. rewrite !elem_of_cons, elem_of_nil.
  intros [->|[->|[->|[->|[]]]]]; cbn [det_inspect InjectionDetector PiiDetector SecretDetector OutputDetector].
  - apply stamp_fits, Forall_app. split.
    + apply Forall_list_bind. intros r _. apply Forall_list_bind. intros m Hm.
      by eapply with_span_fits.
    + unfold heuristics_scan. case_match; by repeat constructor.
  - apply stamp_fits, generic_fits; [done|]. apply Forall_list_bind. intros r _.
    apply Forall_list_bind. intros m Hm. by eapply with_span_fits.
  - apply stamp_fits, Forall_list_bind. intros r _. apply Forall_list_bind. intros m Hm.
    case_match; [constructor|by eapply with_span_fits].
  - unfold output_inspect. case_match; [constructor|]. apply Forall_list_bind. intros r _.
    destruct (find _ _) as [m|] eqn:Hf; [|constructor].
    eapply with_span_fits. unfold find in Hf. by apply head_Some_elem_of in Hf.
Qed.

(** A credit-card finding is always a Luhn-valid slice of the text. *)
Theorem card_findings_luhn (ctx : Context) (f : Finding) :
  f ∈ pii_inspect ctx -> f_detector f = "pii.credit_card" ->
  exists m, f_span f = Some m /\ luhn_valid (slice (ctx_text ctx) m) = true.
Proof.
  unfold pii_inspect, stamp. intros (g & -> & Hg)%list_elem_of_fmap Hd.
  apply list_elem_of_bind in Hg as (r & Hg & Hr).
  apply list_elem_of_bind in Hg as (m & Hg & Hm).
  destruct (pii_validate r _) eqn:E; simpl in Hg; [|by apply elem_of_nil in Hg].
  apply list_elem_of_singleton in Hg as ->. exists m. split; [done|].
  unfold PII_RULES in Hr. rewrite !elem_of_cons, elem_of_nil in Hr.
  destruct Hr as [->|[->|[->|[->|[]]]]]; done.
Qed.

(** *** The generic gate *)

Lemma generic_step_spec (text : string) (ms : list span) (out : list Finding) :
  exists extra, fold_left (generic_step text) ms out = out ++ (generic_finding <$> extra) /\
    Forall (fun m => m ∈ ms /\
      f32_lt (shannon_entropy (slice text m)) ENTROPY_THRESHOLD = false /\
      covered out m = false) extra.
Proof.
  revert out. induction ms as [|m ms IH]; intros out; simpl.
  - exists []. by rewrite app_nil_r.
  - destruct (IH (generic_step text out m)) as (extra & -> & Hex). unfold generic_step in *.
    assert (forall out', Forall (fun x => x ∈ ms /\
      f32_lt (shannon_entropy (slice text x)) ENTROPY_THRESHOLD = false /\
      covered (out ++ out') x = false) extra ->
      Forall (fun x => x ∈ m :: ms /\
      f32_lt (shannon_entropy (slice text x)) ENTROPY_THRESHOLD = false /\
      covered out x = false) extra) as Hweak.
    { intros out' Hf. eapply Forall_impl; [exact Hf|]. intros x (? & ? & Hc).
      unfold covered in *. rewrite existsb_app, orb_false_iff in Hc.
      split_and!; [by right|done|tauto]. }
    destruct (f32_lt _ _) eqn:E1; [|destruct (covered out m) eqn:E2].
    + exists extra. split; [done|]. apply (Hweak []). by rewrite app_nil_r.
    + exists extra. split; [done|]. apply (Hweak []). by rewrite app_nil_r.
    + exists (m :: extra). split; [by rewrite <- app_assoc|].
      constructor; [split_and!; [by left|done..]|]. by eapply Hweak.
Qed.

(** Generic secrets are reported only for high-entropy tokens that no provider
    pattern covers. *)
Theorem generic_secret_uncovered (ctx : Context) (f : Finding) :
  f ∈ secret_inspect ctx -> f_detector f = "secret.generic" ->
  exists m, f_span f = Some m /\ m ∈ find_iter GENERIC_TOKEN (ctx_text ctx) /\
    f32_lt (shannon_entropy (slice (ctx_text ctx) m)) ENTROPY_THRESHOLD = false /\
    covered (secret_rule_findings (ctx_text ctx)) m = false.
Proof.
  unfold secret_inspect, stamp. intros (g & -> & Hg)%list_elem_of_fmap Hd.
  destruct (generic_step_spec (ctx_text ctx) (find_iter GENERIC_TOKEN (ctx_text ctx))
    (secret_rule_findings (ctx_text ctx))) as (extra & Heq & Hex).
  rewrite Heq in Hg. apply elem_of_app in Hg as [Hg|Hg].
  - exfalso. apply list_elem_of_bind in Hg as (r & Hg & Hr).
    apply list_elem_of_bind in Hg as (m & Hg & Hm).
    apply list_elem_of_singleton in Hg as ->. unfold SECRET_RULES in Hr.
    rewrite !elem_of_cons, elem_of_nil in Hr.
    destruct Hr as [->|[->|[->|[->|[->|[]]]]]]; done.
  - apply list_elem_of_fmap in Hg as (m & -> & Hm). exists m. split; [done|].
    rewrite Forall_forall in Hex. by apply Hex.
Qed.

End detectors.
