(* ===== verification/Normalize.v ===== *)
(** Obfuscation normalization ([crates/core/src/normalize.rs]): stripping
    invisible characters, folding confusables, decoding base64 segments.  NFKC
    and the base64 decoder are the crates [unicode-normalization] and [base64],
    taken as an interface; characters are code points, decoded from UTF-8. *)
From S2P Require Import Prelude BTree Platform.
From Stdlib Require Import String Ascii.
#[local] Abbreviation length := List.length.
#[local] Open Scope N_scope.

(** ** UTF-8 *)

(** A code point that no encoding denotes. *)
Definition bad_char : N := 1114112.

Definition cont (a : ascii) : N := N_of_ascii a mod 64.

(** [s.chars()]. *)
Fixpoint chars (s : string) : list N :=
  match s with
  | EmptyString => []
  | String a s1 =>
      let n := N_of_ascii a in
      if n <? 128 then n :: chars s1
      else match s1 with
      | EmptyString => [bad_char]
      | String b s2 =>
          if n <? 224 then (n mod 32) * 64 + cont b :: chars s2
          else match s2 with
          | EmptyString => [bad_char]
          | String c s3 =>
              if n <? 240 then (n mod 16) * 4096 + cont b * 64 + cont c :: chars s3
              else match s3 with
              | EmptyString => [bad_char]
              | String d s4 =>
                  (n mod 8) * 262144 + cont b * 4096 + cont c * 64 + cont d :: chars s4
              end
          end
      end
  end.

Definition byte (n : N) : ascii := ascii_of_N n.

(** [c.encode_utf8()]. *)
Definition encode (c : N) : string :=
  if c <? 128 then String (byte c) EmptyString
  else if c <? 2048 then
    String (byte (192 + c / 64)) (String (byte (128 + c mod 64)) EmptyString)
  else if c <? 65536 then
    String (byte (224 + c / 4096)) (String (byte (128 + c / 64 mod 64))
      (String (byte (128 + c mod 64)) EmptyString))
  else
    String (byte (240 + c / 262144)) (String (byte (128 + c / 4096 mod 64))
      (String (byte (128 + c / 64 mod 64)) (String (byte (128 + c mod 64)) EmptyString))).

(** [iter.collect::<String>()]. *)
Definition of_chars (l : list N) : string := Str.join EmptyString (encode <$> l).

Definition is_scalar (c : N) : bool := (c <? 55296) || ((57344 <=? c) && (c <? 1114112)).

(** [String::from_utf8]. *)
Definition from_utf8 (s : string) : option string :=
  if forallb is_scalar (chars s) && bool_decide (of_chars (chars s) = s) then Some s else None.

Definition is_control (c : N) : bool := (c <? 32) || ((127 <=? c) && (c <? 160)).

(** ** The crates the normalizer calls *)

Class TextCrates := {
  nfkc : list N -> list N;
  base64_decode : string -> option string
}.
(** NFKC leaves ASCII text alone (Unicode stability of the ASCII range). *)
Class TextLaws `{TextCrates} := {
  nfkc_ascii : forall l, Forall (fun c => c < 128) l -> nfkc l = l
}.

(** ** The normalizer *)

Record Normalized := mkNormalized { n_text : string; n_changed : bool }.

Definition is_invisible (c : N) : bool :=
  (c =? 8203) || (c =? 8204) || (c =? 8205) || (c =? 8288)
  || (c =? 65279) || (c =? 173) || (c =? 6158)
  || (c =? 8206) || (c =? 8207)
  || ((8234 <=? c) && (c <=? 8238))
  || ((8294 <=? c) && (c <=? 8297)).

Definition strip_invisible (text : string) : string :=
  of_chars (List.filter (fun c => negb (is_invisible c)) (chars text)).

(** The match of [confusable_to_ascii]: Cyrillic, then Greek. *)
Definition confusables : list (N * N) := [
    (1072, 97); (1077, 101); (1086, 111); (1088, 112); (1089, 99); (1091, 121);
    (1093, 120); (1082, 107); (1084, 109); (1090, 116); (1074, 98); (1085, 104);
    (1110, 105); (1109, 115); (1281, 100); (1112, 106); (1307, 113); (1121, 119);
    (1040, 65); (1045, 69); (1054, 79); (1056, 80); (1057, 67); (1058, 84);
    (1042, 66); (1053, 72); (1050, 75); (1052, 77); (1061, 88); (959, 111);
    (945, 97); (957, 118); (961, 112); (964, 116); (965, 117); (913, 65);
    (914, 66); (917, 69); (918, 90); (919, 72); (921, 73); (922, 75);
    (924, 77); (925, 78); (927, 79); (929, 80); (932, 84)
  ].

Definition confusable_to_ascii (c : N) : option N :=
  snd <$> List.find (fun p => p.1 =? c) confusables.

Section normalizer.
Context `{RegexEngine} `{TextCrates}.

Definition fold_confusables (text : string) : string :=
  of_chars ((fun c => default c (confusable_to_ascii c)) <$> nfkc (chars text)).

Definition B64_SEG : string := "[A-Za-z0-9+/]{20,}={0,2}".

Definition printable (s : string) : bool :=
  forallb (fun c => negb (is_control c) || (c =? 10) || (c =? 9)) (chars s).

Definition decode_encoded_segments (text : string) : option string :=
  let decoded := omap (fun m =>
      bytes ← base64_decode (slice text m);
      s ← from_utf8 bytes;
      if (8 <=? N.of_nat (Str.len s)) && printable s then Some s else None)
    (find_iter B64_SEG text) in
  match decoded with [] => None | _ => Some (Str.join " " decoded) end.

Record Normalizer := mkNormalizer {
  strip_zero_width : bool;
  fold_homoglyphs : bool;
  decode_encoded : bool
}.

Definition normalizer_default : Normalizer := mkNormalizer true true false.

Definition normalize (n : Normalizer) (input : string) : Normalized :=
  let text := input in
  let text := if strip_zero_width n
    then let s := strip_invisible text in if decide (s <> text) then s else text
    else text in
  let text := if fold_homoglyphs n
    then let s := fold_confusables text in if decide (s <> text) then s else text
    else text in
  let text := if decode_encoded n
    then match decode_encoded_segments text with
         | Some extra => text +:+ " " +:+ extra
         | None => text
         end
    else text in
  mkNormalized text (bool_decide (text <> input)).
End normalizer.

(** ** UTF-8 round trip *)

Lemma N_byte (n : N) : n < 256 -> N_of_ascii (byte n) = n.
Proof. apply N_ascii_embedding. Qed.

Lemma cont_byte (n : N) : n < 64 -> cont (byte (128 + n)) = n.
Proof.
  intros Hn. unfold cont. rewrite N_byte by lia. change 128 with (2 * 64).
  rewrite (N.add_comm (2 * 64)), N.Div0.mod_add, N.mod_small; lia.
Qed.

Lemma mod_add_small (a b n : N) : n < b -> (a * b + n) mod b = n.
Proof. intros Hn. rewrite N.add_comm, N.Div0.mod_add. by apply N.mod_small. Qed.

Lemma chars_encode (c : N) (s : string) :
  c < bad_char -> chars (encode c +:+ s) = c :: chars s.
Proof.
  unfold encode, bad_char. intros Hc.
  assert (c = 64 * (c / 64) + c mod 64 /\ c mod 64 < 64) as [E0 ?]
    by (split; [apply N.div_mod | apply N.mod_lt]; lia).
  assert (c / 64 = 64 * (c / 4096) + c / 64 mod 64 /\ c / 64 mod 64 < 64) as [E1 ?].
  { replace (c / 4096) with (c / 64 / 64) by (rewrite N.Div0.div_div; f_equal; lia).
    split; [apply N.div_mod | apply N.mod_lt]; lia. }
  assert (c / 4096 = 64 * (c / 262144) + c / 4096 mod 64 /\ c / 4096 mod 64 < 64) as [E2 ?].
  { replace (c / 262144) with (c / 4096 / 64) by (rewrite N.Div0.div_div; f_equal; lia).
    split; [apply N.div_mod | apply N.mod_lt]; lia. }
  revert E0 E1 E2. generalize dependent (c mod 64). generalize dependent (c / 64 mod 64).
  generalize dependent (c / 4096 mod 64).
  generalize (c / 262144). generalize (c / 4096). generalize (c / 64).
  intros q1 q2 q3 r2 Hr2 r1 Hr1 r0 Hr0 E0 E1 E2.
  destruct (N.ltb_spec c 128).
  { rewrite Str.app_cons. simpl chars. rewrite N_byte by lia.
    by rewrite (proj2 (N.ltb_lt c 128)). }
  destruct (N.ltb_spec c 2048).
  { rewrite !Str.app_cons. simpl chars. rewrite N_byte, cont_byte by lia.
    rewrite (proj2 (N.ltb_ge _ 128)), (proj2 (N.ltb_lt _ 224)) by lia. f_equal.
    replace (192 + q1) with (6 * 32 + q1) by lia. rewrite mod_add_small; lia. }
  destruct (N.ltb_spec c 65536).
  { rewrite !Str.app_cons. simpl chars. rewrite N_byte, !cont_byte by lia.
    rewrite (proj2 (N.ltb_ge _ 128)), (proj2 (N.ltb_ge _ 224)), (proj2 (N.ltb_lt _ 240)) by lia.
    f_equal. replace (224 + q2) with (14 * 16 + q2) by lia. rewrite mod_add_small; lia. }
  rewrite !Str.app_cons. simpl chars. rewrite N_byte, !cont_byte by lia.
  rewrite (proj2 (N.ltb_ge _ 128)), (proj2 (N.ltb_ge _ 224)), (proj2 (N.ltb_ge _ 240)) by lia.
  f_equal. replace (240 + q3) with (30 * 8 + q3) by lia. rewrite mod_add_small; lia.
Qed.

Lemma of_chars_cons (c : N) (l : list N) : of_chars (c :: l) = encode c +:+ of_chars l.
Proof.
  unfold of_chars, Str.join. rewrite fmap_cons. destruct l as [|c' l]; simpl.
  - by rewrite Str.app_nil_r.
  - done.
Qed.

(** Decoding what was encoded gives the code points back. *)
Lemma chars_of_chars (l : list N) : Forall (fun c => c < bad_char) l -> chars (of_chars l) = l.
Proof.
  induction 1 as [|c l Hc Hl IH]; [done|]. by rewrite of_chars_cons, chars_encode, IH.
Qed.

Lemma of_chars_ascii (s : string) :
  Str.is_ascii s = true -> of_chars (chars s) = s /\ Forall (fun c => c < 128) (chars s).
Proof.
  induction s as [|a s IH]; [done|]. unfold Str.is_ascii, Str.is_ascii_char. simpl.
  intros [Ha Hs]%andb_prop. rewrite Ha, of_chars_cons. apply N.ltb_lt in Ha as Ha'.
  destruct (IH Hs) as [-> ?]. split; [|by constructor]. unfold encode. rewrite Ha.
  rewrite Str.app_cons. f_equal. apply ascii_N_embedding.
Qed.

(** ** Properties *)

Lemma filter_none {A} (p : A -> bool) (l : list A) :
  Forall (fun x => p x = true) l -> List.filter p l = l.
Proof. induction 1 as [|x l Hx Hl IH]; simpl; [done|]. by rewrite Hx, IH. Qed.

Lemma ascii_visible (c : N) : c < 128 -> negb (is_invisible c) = true.
Proof.
  intros Hc. unfold is_invisible.
  repeat match goal with |- context [N.eqb c ?k] => rewrite (proj2 (N.eqb_neq c k)) by lia end.
  repeat match goal with |- context [N.leb ?k c] => rewrite (proj2 (N.leb_gt k c)) by lia end.
  done.
Qed.

(** Invisible characters inserted anywhere in a text do not change what is left
    after stripping. *)
Theorem strip_insertion (l clean : list N) :
  Forall (fun c => c < bad_char) l ->
  List.filter (fun c => negb (is_invisible c)) l = clean ->
  strip_invisible (of_chars l) = of_chars clean.
Proof. intros Hl <-. unfold strip_invisible. by rewrite chars_of_chars. Qed.

Lemma confusable_ascii (c : N) : c < 128 -> confusable_to_ascii c = None.
Proof.
  intros Hc. unfold confusable_to_ascii.
  assert (Forall (fun p => 128 <= p.1) confusables) as Hall
    by (repeat constructor; discriminate).
  induction Hall as [|[k v] l Hk Hl IH]; [done|]. cbn [List.find fst] in *.
  by rewrite (proj2 (N.eqb_neq k c)) by lia.
Qed.

Section normalizer_facts.
Context `{RegexEngine} `{TextCrates} (Hlaws : TextLaws).

Lemma fold_ascii (s : string) : Str.is_ascii s = true -> fold_confusables s = s.
Proof.
  intros Hs. destruct (of_chars_ascii s Hs) as [Heq Hall]. unfold fold_confusables.
  rewrite nfkc_ascii by done. rewrite <- Heq at 2. f_equal.
  rewrite <- (list_fmap_id (chars s)) at 2. apply list_fmap_ext. intros i c Hc.
  rewrite Forall_lookup in Hall. specialize (Hall i c Hc). simpl in Hall.
  by rewrite confusable_ascii.
Qed.

Lemma normalize_changed (n : Normalizer) (input : string) :
  n_changed (normalize n input) = bool_decide (n_text (normalize n input) <> input).
Proof. done. Qed.

(** The default normalizer undoes every insertion of invisible characters into an
    ASCII text. *)
Theorem normalize_deobfuscates (l : list N) (clean : string) :
  Forall (fun c => c < bad_char) l -> Str.is_ascii clean = true ->
  List.filter (fun c => negb (is_invisible c)) l = chars clean ->
  n_text (normalize normalizer_default (of_chars l)) = clean.
Proof.
  intros Hl Hc Hf. destruct (of_chars_ascii clean Hc) as [Heq _].
  unfold normalize, normalizer_default. simpl.
  rewrite (strip_insertion l (chars clean)) by done. rewrite Heq.
  assert ((if decide (clean <> of_chars l) then clean else of_chars l) = clean) as ->.
  { case_decide as Hd; [done|]. symmetry. destruct (decide (clean = of_chars l)); tauto. }
  rewrite fold_ascii by done. by case_decide.
Qed.
End normalizer_facts.
