(* ===== verification/Firewall.v ===== *)
(** The end-to-end engine of the core ([crates/core/src/firewall.rs]): detect on
    the original text, detect again on its normalized copy, score, decide, mask. *)
From S2P Require Import Prelude BTree Platform F32 CoreTypes Scoring Masking CorePolicy.
From S2P Require Import Detectors Normalize.
From Stdlib Require Import String Ascii.

Record Outcome := mkOutcome {
  o_decision : Decision;
  o_score : RiskScore;
  o_findings : list Finding;
  o_transformed_text : option string
}.

Record Firewall := mkFirewall {
  fw_detectors : list Detector;
  fw_policy : PolicySet;
  fw_normalizer : option Normalizer
}.

Definition firewall_new (detectors : list Detector) (policy : PolicySet) : Firewall :=
  mkFirewall detectors policy None.

Definition with_normalizer (n : Normalizer) (fw : Firewall) : Firewall :=
  mkFirewall (fw_detectors fw) (fw_policy fw) (Some n).

Definition detector_names (fw : Firewall) : list string := det_name <$> fw_detectors fw.

Definition detect (fw : Firewall) (text : string) (direction : Direction) : list Finding :=
  let ctx := mkContext text direction in
  let findings := fw_detectors fw ≫= (fun d => det_inspect d ctx) in
  with_direction direction <$> findings.

(** Same detector id and label. *)
Definition same_finding (b e : Finding) : bool :=
  bool_decide (f_detector b = f_detector e) && bool_decide (f_label b = f_label e).

Definition merge_dedup (base extra : list Finding) : list Finding :=
  fold_left (fun base e =>
    if negb (existsb (fun b => same_finding b e) base) then base ++ [e] else base) extra base.

Section firewall.
Context `{RegexEngine} `{TextCrates} `{UnicodeTables}.

(** [run] returns the outcome, or [None] if [mask] panicked. *)
Definition run (fw : Firewall) (text : string) (direction : Direction) : option Outcome :=
  let findings := detect fw text direction in
  let mask_findings := findings in
  let findings :=
    match fw_normalizer fw with
    | Some n =>
        let nz := normalize n text in
        if n_changed nz then
          let evasion := drop_span <$> detect fw (n_text nz) direction in
          merge_dedup findings evasion
        else findings
    | None => findings
    end in
  let score := score_findings findings in
  let decision := evaluate (fw_policy fw) findings (rs_score score) direction in
  if decide (d_action decision = ActMask) then
    t ← mask text mask_findings;
    Some (mkOutcome decision score findings (Some t))
  else Some (mkOutcome decision score findings None).

(** ** Properties *)

Lemma detect_direction (fw : Firewall) (text : string) (d : Direction) :
  Forall (fun f => f_direction f = d) (detect fw text d).
Proof. apply stamp_direction. Qed.

Lemma merge_dedup_spec (base extra : list Finding) :
  exists added, merge_dedup base extra = base ++ added /\ (forall f, f ∈ added -> f ∈ extra) /\
    forall e, e ∈ extra -> exists f, f ∈ base ++ added /\ same_finding f e = true.
Proof.
  unfold merge_dedup. revert base. induction extra as [|e extra IH]; intros base; simpl.
  - exists []. rewrite app_nil_r. split_and!; [done|done|]. intros e He. by apply elem_of_nil in He.
  - destruct (existsb (fun b => same_finding b e) base) eqn:E; simpl.
    + destruct (IH base) as (added & Heq & Hin & Hcov). exists added.
      split_and!; [done|by intros f Hf; right; auto|]. intros x [->|Hx]%elem_of_cons; [|eauto].
      apply existsb_exists in E as (b & Hb%list_elem_of_In & Hs). exists b.
      split; [apply elem_of_app; by left|done].
    + destruct (IH (base ++ [e])) as (added & Heq & Hin & Hcov). exists (e :: added).
      rewrite Heq, <- app_assoc. split_and!; [done| |].
      * intros f [->|Hf]%elem_of_cons; [by left|right; auto].
      * intros x [->|Hx]%elem_of_cons; [|by rewrite <- app_assoc in Hcov; eauto].
        exists e. split; [set_solver|]. unfold same_finding. by rewrite !bool_decide_true.
Qed.

(** What [run] returns: the masked text exactly when the decision is to mask, from
    the spans of the original pass; the findings of the original pass first. *)
Lemma run_spec (fw : Firewall) (text : string) (d : Direction) :
  exists added o, run fw text d = Some o /\
    o_findings o = detect fw text d ++ added /\
    Forall (fun f => f_span f = None /\ f_direction f = d) added /\
    o_score o = score_findings (o_findings o) /\
    o_decision o = evaluate (fw_policy fw) (o_findings o) (rs_score (o_score o)) d /\
    o_transformed_text o =
      if decide (d_action (o_decision o) = ActMask)
      then Some (render text 0 (kept text 0 (mask_spans (detect fw text d)))) else None.
Proof.
  unfold run. rewrite mask_total.
  set (fs := match fw_normalizer fw with Some _ => _ | None => _ end).
  assert (exists added, fs = detect fw text d ++ added /\
    Forall (fun f => f_span f = None /\ f_direction f = d) added) as (added & Hfs & Hadd).
  { subst fs. destruct (fw_normalizer fw) as [n|]; [|exists []; by rewrite app_nil_r].
    destruct (n_changed _); [|exists []; by rewrite app_nil_r].
    destruct (merge_dedup_spec (detect fw text d)
      (drop_span <$> detect fw (n_text (normalize n text)) d)) as (added & Heq & Hin & _).
    exists added. split; [done|]. apply Forall_forall. intros f Hf%Hin.
    apply list_elem_of_fmap in Hf as (g & -> & Hg). split; [done|].
    pose proof (detect_direction fw (n_text (normalize n text)) d) as Hd.
    rewrite Forall_forall in Hd. exact (Hd g Hg). }
  exists added. clearbody fs. subst fs.
  case_decide as Hd; simpl; eexists; (split; [reflexivity|]); simpl;
    (split_and!; [done|done|done|done|by case_decide]).
Qed.

(** Inspection never panics, and every finding it reports carries the direction of
    the run. *)
Theorem run_total_direction (fw : Firewall) (text : string) (d : Direction) :
  exists o, run fw text d = Some o /\ Forall (fun f => f_direction f = d) (o_findings o).
Proof.
  destruct (run_spec fw text d) as (added & o & Hrun & Hf & Hadd & _). exists o.
  split; [done|]. rewrite Hf, Forall_app. split; [apply detect_direction|].
  eapply Forall_impl; [exact Hadd|]. by intros f [_ ?].
Qed.

(** A rewritten text is returned exactly when the decision is to mask. *)
Theorem run_transformed_iff_mask (fw : Firewall) (text : string) (d : Direction) (o : Outcome) :
  run fw text d = Some o ->
  is_Some (o_transformed_text o) <-> d_action (o_decision o) = ActMask.
Proof.
  intros Hrun. destruct (run_spec fw text d) as (added & o' & Hrun' & _ & _ & _ & _ & Ht).
  rewrite Hrun in Hrun'. injection Hrun' as <-. rewrite Ht.
  case_decide; by split.
Qed.

(** With the built-in detectors, when the decision is to mask, the first byte of
    every span detected in the original text is replaced. *)
Theorem run_masks_builtin `{EntropyPlatform} (Hlaws : RegexLaws) (policy : PolicySet)
    (n : option Normalizer) (text : string) (d : Direction) (o : Outcome) (f : Finding) (s : span) :
  run (mkFirewall builtin_detectors policy n) text d = Some o ->
  d_action (o_decision o) = ActMask ->
  f ∈ o_findings o -> f_span f = Some s ->
  exists ks, o_transformed_text o = Some (render text 0 ks) /\
    exists k, k ∈ ks /\ hides_start k.1 s.
Proof.
  intros Hrun Hact Hf Hs. set (fw := mkFirewall _ _ _) in *.
  destruct (run_spec fw text d) as (added & o' & Hrun' & Hfs & Hadd & _ & _ & Ht).
  rewrite Hrun in Hrun'. injection Hrun' as <-. rewrite decide_True in Ht by done.
  eexists. split; [exact Ht|]. rewrite Hfs in Hf. apply elem_of_app in Hf as [Hf|Hf].
  2:{ rewrite Forall_forall in Hadd. destruct (Hadd f Hf) as [Hn _]. congruence. }
  apply (mask_hides_start text _ f s); [done..|].
  apply list_elem_of_fmap in Hf as (g & -> & Hg).
  apply list_elem_of_bind in Hg as (dt & Hg & Hdt).
  pose proof (builtin_spans_fit Hlaws (mkContext text d) dt Hdt) as Hfit.
  rewrite Forall_forall in Hfit. by apply (Hfit g Hg).
Qed.

(** Evasion by invisible characters does not help: on an ASCII text with invisible
    characters inserted anywhere, a firewall with the default normalizer reports
    every finding (by detector and label) that it reports on the clean text. *)
Theorem run_resists_insertion (Hlaws : TextLaws) (fw : Firewall) (l : list N) (clean : string)
    (d : Direction) (o : Outcome) (f : Finding) :
  fw_normalizer fw = Some normalizer_default ->
  Forall (fun c => c < bad_char)%N l -> Str.is_ascii clean = true ->
  List.filter (fun c => negb (is_invisible c)) l = chars clean ->
  run fw (of_chars l) d = Some o ->
  f ∈ detect fw clean d ->
  exists g, g ∈ o_findings o /\ same_finding g f = true.
Proof.
  intros Hn Hl Hc Hf Hrun Hin.
  pose proof (normalize_deobfuscates Hlaws l clean Hl Hc Hf) as Hnorm.
  revert Hrun. unfold run. rewrite mask_total, Hn, normalize_changed, Hnorm.
  set (fs := if bool_decide _ then _ else _).
  assert (exists g, g ∈ fs /\ same_finding g f = true) as Hg.
  { subst fs. case_bool_decide as Hne.
    - destruct (merge_dedup_spec (detect fw (of_chars l) d) (drop_span <$> detect fw clean d))
        as (added & -> & _ & Hcov).
      destruct (Hcov (drop_span f)) as (g & Hg & Hs); [by apply list_elem_of_fmap; eauto|].
      by exists g.
    - assert (clean = of_chars l) as <- by (destruct (decide (clean = of_chars l)); tauto).
      exists f. split; [done|]. unfold same_finding. by rewrite !bool_decide_true. }
  case_decide; simpl; by intros [= <-].
Qed.
End firewall.

(** ** Witnesses *)

Definition demo_text_crates : TextCrates := {| nfkc l := l; base64_decode _ := None |}.
Lemma demo_text_laws : @TextLaws demo_text_crates.
Proof. by split. Qed.

Definition demo_platform : EntropyPlatform := {| f32_log2 x := f32_0; hash_values := fmap snd |}.

(** A text that [prefix_engine] takes for an e-mail address. *)
Definition demo_email : string := "[A-Za-z0-9._%+-]+@[A-Za-z0-9.-]+\.[A-Za-z]{2,}".

Definition demo_firewall (n : option Normalizer) : Firewall :=
  mkFirewall (@builtin_detectors prefix_engine demo_platform) (mkPolicySet [] ActMask) n.

Definition demo_outcome (n : option Normalizer) (text : string) : Outcome :=
  default (mkOutcome (mkDecision ActMask None None) (score_findings []) [] None)
    (@run prefix_engine demo_text_crates ascii_tables (demo_firewall n) text Input).

Definition demo_finding : Finding :=
  default (finding_new "" Info f32_0 "") (head (o_findings (demo_outcome None demo_email))).

Lemma run_masks_builtin_witness :
  exists ks, o_transformed_text (demo_outcome None demo_email) = Some (render demo_email 0 ks) /\
    exists k, k ∈ ks /\ hides_start k.1 (0, 46).
Proof.
  apply (@run_masks_builtin prefix_engine demo_text_crates ascii_tables demo_platform prefix_engine_laws
    (mkPolicySet [] ActMask) None demo_email Input (demo_outcome None demo_email) demo_finding (0, 46)).
  - vm_compute. reflexivity.
  - vm_compute. reflexivity.
  - vm_compute. left.
  - vm_compute. reflexivity.
Defined.

(** The address with a zero-width space inside. *)
Definition demo_hidden : list N := take 5 (chars demo_email) ++ [8203%N] ++ drop 5 (chars demo_email).

Lemma run_resists_insertion_witness :
  exists g, g ∈ o_findings (demo_outcome (Some normalizer_default) (of_chars demo_hidden)) /\
    same_finding g demo_finding = true.
Proof.
  apply (@run_resists_insertion prefix_engine demo_text_crates ascii_tables demo_text_laws
    (demo_firewall (Some normalizer_default)) demo_hidden demo_email Input
    (demo_outcome (Some normalizer_default) (of_chars demo_hidden)) demo_finding).
  - reflexivity.
  - apply (bool_decide_unpack _). vm_compute. exact I.
  - vm_compute. reflexivity.
  - vm_compute. reflexivity.
  - vm_compute. reflexivity.
  - vm_compute. left.
Defined.
