(* ===== verification/Adapter.v ===== *)
(** The adapter contract ([crates/adapter/src/lib.rs]): wire types of the optional
    control plane, their envelope validation, and the combination of a remote
    answer with the local verdict. *)
From S2P Require Import Prelude.
From Stdlib Require Import String Ascii.

Definition CONTRACT_VERSION : string := "sw-adapter/0.1".

Definition supports_contract_version (version : string) : bool :=
  bool_decide (version = CONTRACT_VERSION).

Inductive AdapterVerdict := AAllow | AAsk | ADeny.

#[export] Instance AdapterVerdict_eq_dec : EqDecision AdapterVerdict.
Proof. solve_decision. Defined.

Definition rank (v : AdapterVerdict) : nat :=
  match v with AAllow => 0 | AAsk => 1 | ADeny => 2 end.

Definition strictest (v other : AdapterVerdict) : AdapterVerdict :=
  if rank other <=? rank v then v else other.

Record TaintSummary := mkTaintSummary {
  ts_tainted : bool;
  ts_source_kinds : list string;
  ts_earliest_sequence : list Z
}.

Record DestinationSummary := mkDestinationSummary {
  ds_network : bool;
  ds_allowlisted : bool;
  ds_private_address : bool;
  ds_host_classes : list string
}.

Inductive ValidationError :=
| UnsupportedContract (version : string)
| EmptyField (field : string)
| MissingExpiry
| Expired
| ReplayMismatch
| MissingSignature.

Definition validation_display (e : ValidationError) : string :=
  match e with
  | UnsupportedContract version => "unsupported adapter contract version: " +:+ version
  | EmptyField field => "adapter field is empty: " +:+ field
  | MissingExpiry => "allow/ask response must expire"
  | Expired => "adapter response or bundle is expired"
  | ReplayMismatch => "adapter replay nonce or sequence mismatched"
  | MissingSignature => "remote adapter response is unsigned"
  end.

Record DecisionRequest := mkRequest {
  dr_contract_version : string;
  dr_request_id : string;
  dr_agent_id : string;
  dr_session_id : string;
  dr_action_class : string;
  dr_taint : TaintSummary;
  dr_destination : DestinationSummary;
  dr_core_policy_version : string;
  dr_detector_tags : list string;
  dr_risk_score : Z;
  dr_severity : option string;
  dr_nonce : string;
  dr_sequence : Z
}.

Definition request_validate (r : DecisionRequest) : result unit ValidationError :=
  bail_if (negb (supports_contract_version (dr_contract_version r)))
    with (UnsupportedContract (dr_contract_version r)) in
  bail_if (Str.is_empty (dr_request_id r)) with (EmptyField "request_id") in
  bail_if (Str.is_empty (dr_agent_id r)) with (EmptyField "agent_id") in
  bail_if (Str.is_empty (dr_session_id r)) with (EmptyField "session_id") in
  bail_if (Str.is_empty (dr_nonce r)) with (EmptyField "nonce") in
  Ok tt.

Record SignatureEnvelope := mkSignatureEnvelope {
  se_algorithm : string;
  se_key_id : string;
  se_value : string
}.

Definition signature_validate (s : SignatureEnvelope) : result unit ValidationError :=
  bail_if (Str.is_empty (se_algorithm s)) with (EmptyField "signature.algorithm") in
  bail_if (Str.is_empty (se_key_id s)) with (EmptyField "signature.key_id") in
  bail_if (Str.is_empty (se_value s)) with (EmptyField "signature.value") in
  Ok tt.

Record ReplayEnvelope := mkReplay { re_nonce : string; re_sequence : Z }.

Record DecisionResponse := mkResponse {
  rp_contract_version : string;
  rp_verdict : AdapterVerdict;
  rp_policy_version : string;
  rp_policy_bundle_id : option string;
  rp_reason_codes : list string;
  rp_remediation_hint : option string;
  rp_expires_at : option Z;
  rp_signature : option SignatureEnvelope;
  rp_replay : option ReplayEnvelope
}.

(** [replay.nonce != request.nonce || replay.sequence != request.sequence]. *)
Definition replay_differs (replay : ReplayEnvelope) (request : DecisionRequest) : bool :=
  negb (bool_decide (re_nonce replay = dr_nonce request))
  || negb (re_sequence replay =? dr_sequence request)%Z.

Definition validate_for (r : DecisionResponse) (request : DecisionRequest) (now : Z) :
    result unit ValidationError :=
  let? _ := request_validate request in
  bail_if (negb (supports_contract_version (rp_contract_version r))
           || negb (bool_decide (rp_contract_version r = dr_contract_version request)))
    with (UnsupportedContract (rp_contract_version r)) in
  bail_if (Str.is_empty (rp_policy_version r)) with (EmptyField "policy_version") in
  bail_if (match rp_expires_at r with Some e => (e <=? now)%Z | None => false end) with Expired in
  match rp_replay r with
  | Some replay => bail_if (replay_differs replay request) with ReplayMismatch in Ok tt
  | None => Ok tt
  end.

Definition validate_remote_for (r : DecisionResponse) (request : DecisionRequest) (now : Z) :
    result unit ValidationError :=
  let? _ := validate_for r request now in
  bail_if (match rp_verdict r with AAllow | AAsk => true | ADeny => false end
           && bool_decide (rp_expires_at r = None)) with MissingExpiry in
  match rp_signature r with
  | None => Err MissingSignature
  | Some signature =>
      let? _ := signature_validate signature in
      match rp_replay r with
      | None => Err ReplayMismatch
      | Some replay => bail_if (replay_differs replay request) with ReplayMismatch in Ok tt
      end
  end.

Definition combine_with_local (r : DecisionResponse) (local : AdapterVerdict) : AdapterVerdict :=
  strictest local (rp_verdict r).

Record PolicyBundle := mkBundle {
  pb_contract_version : string;
  pb_bundle_id : string;
  pb_revision : Z;
  pb_valid_from : Z;
  pb_expires_at : Z;
  pb_policy_yaml : string;
  pb_issuer_key_id : string;
  pb_signature : SignatureEnvelope
}.

Definition validate_at (b : PolicyBundle) (now : Z) : result unit ValidationError :=
  bail_if (negb (supports_contract_version (pb_contract_version b)))
    with (UnsupportedContract (pb_contract_version b)) in
  bail_if (Str.is_empty (pb_bundle_id b)) with (EmptyField "bundle_id") in
  bail_if (Str.is_empty (pb_policy_yaml b)) with (EmptyField "policy_yaml") in
  bail_if (Str.is_empty (pb_issuer_key_id b)) with (EmptyField "issuer_key_id") in
  let? _ := signature_validate (pb_signature b) in
  bail_if ((pb_expires_at b <=? pb_valid_from b) || (now <? pb_valid_from b)
           || (pb_expires_at b <=? now))%Z with Expired in
  Ok tt.

Record AuditEvent := mkAuditEvent {
  ae_contract_version : string;
  ae_event_id : string;
  ae_sequence : Z;
  ae_occurred_at : Z;
  ae_agent_id : string;
  ae_session_id : string;
  ae_action_class : string;
  ae_verdict : AdapterVerdict;
  ae_policy_version : string;
  ae_policy_bundle_id : option string;
  ae_detector_tags : list string;
  ae_reason_codes : list string;
  ae_taint : TaintSummary;
  ae_destination : DestinationSummary;
  ae_previous_event_hash : option string;
  ae_core_build : string
}.

Record EnrollmentState := mkEnrollment {
  en_agent_id : string;
  en_capability_ceiling : list string;
  en_policy_bundle_id : option string;
  en_enrolled : bool
}.

(** ** Properties *)

(** [strictest] is the join of the strictness order: a commutative, associative,
    idempotent operation with [Allow] neutral and [Deny] absorbing. *)
Theorem strictest_lattice (a b c : AdapterVerdict) :
  rank (strictest a b) = max (rank a) (rank b) /\
  strictest a b = strictest b a /\
  strictest a (strictest b c) = strictest (strictest a b) c /\
  strictest a a = a /\ strictest AAllow a = a /\ strictest a ADeny = ADeny.
Proof. by destruct a, b, c. Qed.

(** A remote answer never weakens the local verdict: the combination is at least as
    strict as both and equal to one of them. *)
Theorem combine_never_weakens (r : DecisionResponse) (local : AdapterVerdict) :
  rank local <= rank (combine_with_local r local) /\
  rank (rp_verdict r) <= rank (combine_with_local r local) /\
  (combine_with_local r local = local \/ combine_with_local r local = rp_verdict r).
Proof. unfold combine_with_local. destruct local, (rp_verdict r); simpl; eauto with lia. Qed.

Definition present (s : string) : Prop := s <> EmptyString.

Lemma is_empty_spec (s : string) : Str.is_empty s = true <-> s = EmptyString.
Proof. by destruct s. Qed.

(** One early return of a validator. *)
Lemma bail_ok {E} (c : bool) (e : E) (k : result unit E) (u : unit) :
  (bail_if c with e in k) = Ok u <-> c = false /\ k = Ok u.
Proof. destruct c; naive_solver. Qed.

(** One [?] of a validator. *)
Lemma try_ok {A E} (m : result A E) (k : result unit E) (u : unit) :
  (let? _ := m in k) = Ok u <-> (exists a, m = Ok a) /\ k = Ok u.
Proof. destruct m; naive_solver. Qed.

Lemma is_empty_false (s : string) : Str.is_empty s = false <-> present s.
Proof. by destruct s. Qed.

Lemma signature_ok (s : SignatureEnvelope) (u : unit) :
  signature_validate s = Ok u <-> present (se_algorithm s) /\ present (se_key_id s) /\ present (se_value s).
Proof.
  unfold signature_validate. rewrite !bail_ok, !is_empty_false. destruct u. tauto.
Qed.

Lemma request_ok (r : DecisionRequest) (u : unit) :
  request_validate r = Ok u <->
  dr_contract_version r = CONTRACT_VERSION /\ present (dr_request_id r) /\
  present (dr_agent_id r) /\ present (dr_session_id r) /\ present (dr_nonce r).
Proof.
  unfold request_validate, supports_contract_version.
  rewrite !bail_ok, !is_empty_false, negb_false_iff, bool_decide_eq_true. destruct u. tauto.
Qed.

Lemma replay_ok (replay : ReplayEnvelope) (r : DecisionRequest) :
  replay_differs replay r = false <-> re_nonce replay = dr_nonce r /\ re_sequence replay = dr_sequence r.
Proof.
  unfold replay_differs. rewrite orb_false_iff, !negb_false_iff, bool_decide_eq_true, Z.eqb_eq. done.
Qed.

(** A remote response is accepted exactly when its request is complete, both speak
    this contract, the response names its policy, it is signed with complete
    metadata, echoes the request's nonce and sequence, has not expired, and, unless
    it denies, carries an expiry at all. *)
Theorem validate_remote_iff (r : DecisionResponse) (request : DecisionRequest) (now : Z) :
  validate_remote_for r request now = Ok tt <->
  request_validate request = Ok tt /\
  rp_contract_version r = CONTRACT_VERSION /\ present (rp_policy_version r) /\
  (rp_verdict r <> ADeny -> is_Some (rp_expires_at r)) /\
  (forall e, rp_expires_at r = Some e -> (now < e)%Z) /\
  (exists s, rp_signature r = Some s /\ signature_validate s = Ok tt) /\
  rp_replay r = Some (mkReplay (dr_nonce request) (dr_sequence request)).
Proof.
  unfold validate_remote_for, validate_for. rewrite try_ok, bail_ok, forall_Some.
  destruct (rp_replay r) as [[n q]|].
  2:{ split.
      - intros (_ & _ & Hs). destruct (rp_signature r) as [s|]; [|done].
        apply try_ok in Hs as [_ Hs]. done.
      - naive_solver. }
  assert (forall u, (let? _ := request_validate request in
    bail_if (negb (supports_contract_version (rp_contract_version r))
           || negb (bool_decide (rp_contract_version r = dr_contract_version request)))
    with (UnsupportedContract (rp_contract_version r)) in
    bail_if (Str.is_empty (rp_policy_version r)) with (EmptyField "policy_version") in
    bail_if (match rp_expires_at r with Some e => (e <=? now)%Z | None => false end) with Expired in
    bail_if (replay_differs (mkReplay n q) request) with ReplayMismatch in Ok tt) = Ok u <->
    request_validate request = Ok tt /\ rp_contract_version r = CONTRACT_VERSION /\
    present (rp_policy_version r) /\
    match rp_expires_at r with Some e => (now < e)%Z | None => True end /\
    n = dr_nonce request /\ q = dr_sequence request) as Hfor.
  { intros []. rewrite try_ok, !bail_ok, is_empty_false, replay_ok, orb_false_iff, !negb_false_iff.
    unfold supports_contract_version. rewrite !bool_decide_eq_true.
    assert ((exists a, request_validate request = Ok a) <-> request_validate request = Ok tt) as ->
      by (split; [intros [[] ?]; done|eauto]).
    destruct (rp_expires_at r); [rewrite Z.leb_gt|]; rewrite request_ok; simpl;
      split; intros; destruct_and!; split_and!; (done || congruence). }
  setoid_rewrite Hfor. clear Hfor.
  destruct (rp_signature r) as [s|]; [rewrite try_ok, bail_ok, replay_ok|naive_solver].
  assert ((exists a, signature_validate s = Ok a) <-> signature_validate s = Ok tt) as ->
    by (split; [intros [[] ?]; done|eauto]).
  destruct (rp_verdict r), (rp_expires_at r); simpl; naive_solver.
Qed.

(** A policy bundle is active exactly within its validity window. *)
Theorem bundle_valid_iff (b : PolicyBundle) (now : Z) :
  validate_at b now = Ok tt <->
  pb_contract_version b = CONTRACT_VERSION /\ present (pb_bundle_id b) /\
  present (pb_policy_yaml b) /\ present (pb_issuer_key_id b) /\
  signature_validate (pb_signature b) = Ok tt /\
  (pb_valid_from b <= now < pb_expires_at b)%Z.
Proof.
  unfold validate_at, supports_contract_version. rewrite !bail_ok, try_ok, bail_ok.
  rewrite negb_false_iff, bool_decide_eq_true, !is_empty_false, !orb_false_iff, !Z.leb_gt, Z.ltb_ge.
  assert ((exists a, signature_validate (pb_signature b) = Ok a) <->
    signature_validate (pb_signature b) = Ok tt) as -> by (split; [intros [[] ?]; done|eauto]).
  split; [intros (? & ? & ? & ? & ? & ? & _)|intros (? & ? & ? & ? & ? & ?)]; split_and!; try done; lia.
Qed.
