(* ===== verification/ToolCall.v ===== *)
(** The tool-call event contract ([crates/adapter/src/tool_call.rs]): events,
    classifications, and the bounded JSON Schema subset arguments are checked
    against before classification. *)
From S2P Require Import Prelude BTree F32 Json Adapter.
From Stdlib Require Import String Ascii.
#[local] Abbreviation length := List.length.

Definition TOOL_CONTRACT_VERSION : string := "sw-tool-event/0.1".

Inductive ToolActionCategory :=
| CatRead | CatWrite | CatDelete | CatSendData | CatChangePermissions | CatUnknown.

#[export] Instance ToolActionCategory_eq_dec : EqDecision ToolActionCategory.
Proof. solve_decision. Defined.

Record ToolClassification := mkClassification {
  tc_categories : list ToolActionCategory;
  tc_confidence : f32;
  tc_uncertainty : f32;
  tc_reason : option string
}.

Definition classification_unknown (reason : option string) : ToolClassification :=
  mkClassification [CatUnknown] f32_0 f32_1 reason.

Definition is_high_risk (c : ToolClassification) : bool :=
  existsb (fun c => match c with CatDelete | CatChangePermissions | CatSendData => true
                            | _ => false end) (tc_categories c).

Definition score_invalid (x : f32) : bool := f32_lt x f32_0 || f32_gt x f32_1 || is_nan x.

Definition classification_validate (c : ToolClassification) : result unit string :=
  bail_if (score_invalid (tc_confidence c)) with "invalid_confidence" in
  bail_if (score_invalid (tc_uncertainty c)) with "invalid_uncertainty" in
  Ok tt.

Record ToolCallEvent := mkToolCallEvent {
  te_contract_version : string;
  te_call_id : string;
  te_session_id : string;
  te_tool_name : string;
  te_raw_arguments : Value;
  te_tool_description : option string;
  te_tool_schema : option Value;
  te_classification : option ToolClassification
}.

Definition event_new (call_id session_id tool_name : string) (raw_arguments : Value) : ToolCallEvent :=
  mkToolCallEvent TOOL_CONTRACT_VERSION call_id session_id tool_name raw_arguments None None None.

(** ** The schema subset *)

Definition MAX_SCHEMA_DEPTH : nat := 64.

Definition schema_keywords : list string :=
  ["type"; "properties"; "required"; "additionalProperties"; "items"; "$schema"; "$id";
   "$comment"; "title"; "description"; "default"; "examples"; "readOnly"; "writeOnly"; "deprecated"].

Definition schema_types : list string :=
  ["object"; "array"; "string"; "number"; "integer"; "boolean"; "null"].

Definition validate_schema_type_name (name : string) : result unit string :=
  if bool_decide (name ∈ schema_types) then Ok tt else Err "schema_unsupported_type".

(** The loop over a [type] array; [before] holds the names already seen. *)
Fixpoint validate_type_names (before names : list Value) : result unit string :=
  match names with
  | [] => Ok tt
  | name :: names' =>
      match as_str name with
      | None => Err "schema_invalid_type"
      | Some s =>
          let? _ := validate_schema_type_name s in
          bail_if (bool_decide (name ∈ before)) with "schema_invalid_type" in
          validate_type_names (before ++ [name]) names'
      end
  end.

(** The loop over [required]. *)
Fixpoint validate_required_names (before fields : list Value) : result unit string :=
  match fields with
  | [] => Ok tt
  | field :: fields' =>
      bail_if (negb (is_string field) || bool_decide (field ∈ before))
        with "schema_invalid_required" in
      validate_required_names (before ++ [field]) fields'
  end.

(** [for x in l { f(x)?; }] *)
Fixpoint try_each {A} (f : A -> result unit string) (l : list A) : result unit string :=
  match l with
  | [] => Ok tt
  | x :: l' => let? _ := f x in try_each f l'
  end.

(** The member [key] fails the test [ok]. *)
Definition member_bad (object : list (string * Value)) (ok : Value -> bool) (key : string) : bool :=
  match BMap.get key object with Some v => negb (ok v) | None => false end.

(** Everything [validate_schema_definition] checks at one level, with the recursive
    call as [rec]. *)
Definition definition_step (rec : Value -> result unit string) (schema : Value) :
    result unit string :=
  if is_boolean schema then Ok tt
  else match as_object schema with
  | None => Err "schema_invalid_definition"
  | Some object =>
      bail_if (negb (forallb (fun kv => bool_decide (kv.1 ∈ schema_keywords)) object))
        with "schema_unsupported_keyword" in
      bail_if (member_bad object
        (fun d => bool_decide (as_str d = Some "https://json-schema.org/draft/2020-12/schema")) "$schema")
        with "schema_unsupported_dialect" in
      bail_if (existsb (member_bad object is_string) ["$id"; "$comment"; "title"; "description"])
        with "schema_invalid_annotation" in
      bail_if (existsb (member_bad object is_boolean) ["readOnly"; "writeOnly"; "deprecated"])
        with "schema_invalid_annotation" in
      bail_if (member_bad object is_array "examples") with "schema_invalid_annotation" in
      let? _ := match BMap.get "type" object with
        | None => Ok tt
        | Some types =>
            match as_str types with
            | Some name => validate_schema_type_name name
            | None =>
                match as_array types with
                | None => Err "schema_invalid_type"
                | Some names =>
                    bail_if (bool_decide (names = [])) with "schema_invalid_type" in
                    validate_type_names [] names
                end
            end
        end in
      let? _ := match BMap.get "required" object with
        | None => Ok tt
        | Some required =>
            match as_array required with
            | None => Err "schema_invalid_required"
            | Some fields => validate_required_names [] fields
            end
        end in
      let? _ := match BMap.get "properties" object with
        | None => Ok tt
        | Some properties =>
            match as_object properties with
            | None => Err "schema_invalid_properties"
            | Some ps => try_each rec ps.*2
            end
        end in
      try_each (fun keyword => match BMap.get keyword object with
                               | Some sub => rec sub | None => Ok tt end)
        ["additionalProperties"; "items"]
  end.

(** The recursion stops at the depth limit, so [MAX_SCHEMA_DEPTH + 2 - depth] calls
    are enough fuel. *)
Fixpoint validate_schema_definition (fuel : nat) (schema : Value) (depth : nat) :
    result unit string :=
  match fuel with
  | O => Err "out_of_fuel"
  | S fuel' =>
      bail_if (MAX_SCHEMA_DEPTH <? depth) with "schema_depth_limit_exceeded" in
      definition_step (fun s => validate_schema_definition fuel' s (depth + 1)) schema
  end.

Definition validate_schema_type (val : Value) (name : string) : result unit string :=
  if bool_decide (name = "object") && negb (is_object val)
    then Err "schema_type_mismatch_expected_object"
  else if bool_decide (name = "array") && negb (is_array val)
    then Err "schema_type_mismatch_expected_array"
  else if bool_decide (name = "string") && negb (is_string val)
    then Err "schema_type_mismatch_expected_string"
  else if bool_decide (name = "number") && negb (is_number val)
    then Err "schema_type_mismatch_expected_number"
  else if bool_decide (name = "integer") &&
          negb (is_i64 val || is_u64 val ||
                match val with
                | JNumber (Float x) => f64_is_finite x && f64_integral x
                | _ => false
                end)
    then Err "schema_type_mismatch_expected_integer"
  else if bool_decide (name = "boolean") && negb (is_boolean val)
    then Err "schema_type_mismatch_expected_boolean"
  else if bool_decide (name = "null") && negb (is_null val)
    then Err "schema_type_mismatch_expected_null"
  else Ok tt.

(** The [type] keyword. *)
Definition check_type (val : Value) (object : list (string * Value)) : result unit string :=
  match BMap.get "type" object with
  | None => Ok tt
  | Some types =>
      match as_str types with
      | Some name => validate_schema_type val name
      | None =>
          match as_array types with
          | None => Err "schema_invalid_type"
          | Some names =>
              bail_if (negb (existsb (fun name => match as_str name with
                  | Some n => is_ok (validate_schema_type val n) | None => false end) names))
                with "schema_type_mismatch" in Ok tt
          end
      end
  end.

(** The [required] keyword, on an object value. *)
Definition check_required (values object : list (string * Value)) : result unit string :=
  match BMap.get "required" object ≫= as_array with
  | None => Ok tt
  | Some required =>
      try_each (fun field => match as_str field with
        | None => Err "schema_invalid_required"
        | Some f => bail_if (negb (BMap.contains_key f values))
                      with "schema_missing_required_property" in Ok tt
        end) required
  end.

(** The schema a member is checked against, if any. *)
Definition member_schema (object : list (string * Value)) (name : string) : option Value :=
  match (BMap.get "properties" object ≫= as_object) ≫= BMap.get name with
  | Some property => Some property
  | None => BMap.get "additionalProperties" object
  end.

Fixpoint validate_schema_value (val schema : Value) : result unit string :=
  match as_bool schema with
  | Some true => Ok tt
  | Some false => Err "schema_false"
  | None =>
      match as_object schema with
      | None => Err "schema_invalid_definition"
      | Some object =>
          let? _ := check_type val object in
          match val with
          | JObject values =>
              let? _ := check_required values object in
              (fix go (values : list (string * Value)) : result unit string :=
                match values with
                | [] => Ok tt
                | (name, value) :: values' =>
                    let? _ := match member_schema object name with
                              | Some s => validate_schema_value value s | None => Ok tt end in
                    go values'
                end) values
          | JArray values =>
              match BMap.get "items" object with
              | None => Ok tt
              | Some items =>
                  (fix go (values : list Value) : result unit string :=
                    match values with
                    | [] => Ok tt
                    | value :: values' =>
                        let? _ := validate_schema_value value items in go values'
                    end) values
              end
          | _ => Ok tt
          end
      end
  end.

Definition validate_json_schema (val schema : Value) : result unit string :=
  let? _ := validate_schema_definition (MAX_SCHEMA_DEPTH + 2) schema 0 in
  validate_schema_value val schema.

Definition event_validate (e : ToolCallEvent) : result unit string :=
  bail_if (negb (bool_decide (te_contract_version e = TOOL_CONTRACT_VERSION)))
    with "unsupported_contract_version" in
  bail_if (Str.is_empty (te_call_id e)) with "empty_call_id" in
  bail_if (Str.is_empty (te_session_id e)) with "empty_session_id" in
  bail_if (Str.is_empty (te_tool_name e)) with "empty_tool_name" in
  bail_if (is_null (te_raw_arguments e)) with "null_arguments" in
  match te_tool_schema e with
  | Some schema => let? _ := validate_json_schema (te_raw_arguments e) schema in Ok tt
  | None => Ok tt
  end.

Record VerificationReceipt := mkReceipt {
  vr_call_id : string;
  vr_session_id : string;
  vr_verdict : AdapterVerdict;
  vr_executed : bool;
  vr_refusal_message : option string;
  vr_latency_ms : SpecFloat.spec_float
}.

(** ** Properties *)

(** *** The fuel is enough *)

Lemma try_each_ext {A} (f g : A -> result unit string) (l : list A) :
  (forall x, f x = g x) -> try_each f l = try_each g l.
Proof. intros Hfg. induction l as [|x l IH]; simpl; [done|]. by rewrite Hfg, IH. Qed.

Lemma definition_step_ext (f g : Value -> result unit string) (schema : Value) :
  (forall s, f s = g s) -> definition_step f schema = definition_step g schema.
Proof.
  intros Hfg. unfold definition_step. destruct (is_boolean schema); [done|].
  destruct (as_object schema) as [o|]; [|done].
  assert (forall ps, try_each f ps = try_each g ps) as Hp by (intros; by apply try_each_ext).
  assert (try_each (fun k => match BMap.get k o with Some s => f s | None => Ok tt end)
      ["additionalProperties"; "items"] =
    try_each (fun k => match BMap.get k o with Some s => g s | None => Ok tt end)
      ["additionalProperties"; "items"]) as ->.
  { apply try_each_ext. intros k. destruct (BMap.get k o); [apply Hfg|done]. }
  destruct (BMap.get "properties" o) as [p|]; [destruct (as_object p) as [ps|]|]; [by rewrite Hp|done..].
Qed.

(** Beyond the depth limit more fuel changes nothing: the validator is total. *)
Lemma schema_fuel_enough (fuel fuel' : nat) (schema : Value) (depth : nat) :
  MAX_SCHEMA_DEPTH + 2 <= fuel + depth -> MAX_SCHEMA_DEPTH + 2 <= fuel' + depth ->
  depth <= MAX_SCHEMA_DEPTH + 1 ->
  validate_schema_definition fuel schema depth = validate_schema_definition fuel' schema depth.
Proof.
  revert fuel' schema depth. induction fuel as [|n IH]; intros [|n'] schema depth H1 H2 Hd;
    unfold MAX_SCHEMA_DEPTH in *; try lia.
  cbn [validate_schema_definition]. unfold MAX_SCHEMA_DEPTH.
  destruct (Nat.ltb_spec 64 depth); [done|].
  apply definition_step_ext. intros s. apply IH; lia.
Qed.

(** *** A valid definition only yields mismatches *)

(** The errors that report a value that does not fit its schema. *)
Definition mismatch_errors : list string :=
  ["schema_false"; "schema_type_mismatch"; "schema_missing_required_property";
   "schema_type_mismatch_expected_object"; "schema_type_mismatch_expected_array";
   "schema_type_mismatch_expected_string"; "schema_type_mismatch_expected_number";
   "schema_type_mismatch_expected_integer"; "schema_type_mismatch_expected_boolean";
   "schema_type_mismatch_expected_null"].

Definition only_mismatch (r : result unit string) : Prop :=
  match r with Ok _ => True | Err e => e ∈ mismatch_errors end.

Lemma only_mismatch_try (m k : result unit string) :
  only_mismatch m -> only_mismatch k -> only_mismatch (let? _ := m in k).
Proof. by destruct m. Qed.

Lemma only_mismatch_each {A} (f : A -> result unit string) (l : list A) :
  (forall x, x ∈ l -> only_mismatch (f x)) -> only_mismatch (try_each f l).
Proof.
  induction l as [|x l IH]; intros Hf; simpl; [done|].
  apply only_mismatch_try; [apply Hf; left|apply IH; intros; apply Hf; by right].
Qed.

Lemma validate_type_mismatch (val : Value) (name : string) :
  only_mismatch (validate_schema_type val name).
Proof.
  unfold validate_schema_type, only_mismatch, mismatch_errors.
  repeat (destruct (_ && _); [by apply (bool_decide_unpack _)|]). done.
Qed.

Lemma try_each_ok {A} (f : A -> result unit string) (l : list A) (u : unit) :
  try_each f l = Ok u -> forall x, x ∈ l -> f x = Ok tt.
Proof.
  induction l as [|y l IH]; simpl; [by intros _ x Hx%elem_of_nil|].
  destruct (f y) as [[]|] eqn:E; [|done]. intros H x [->|Hx]%elem_of_cons; auto.
Qed.

Lemma required_names_strings (before fields : list Value) (u : unit) :
  validate_required_names before fields = Ok u -> Forall (fun f => is_string f = true) fields.
Proof.
  revert before. induction fields as [|f fields IH]; intros before; simpl; [constructor|].
  destruct (is_string f) eqn:E; simpl; [|done]. destruct (bool_decide _); [done|].
  intros H. constructor; [done|by eapply IH].
Qed.

(** What a successful definition check says about an object schema. *)
Lemma definition_step_object (rec : Value -> result unit string) (object : list (string * Value)) :
  definition_step rec (JObject object) = Ok tt ->
  (forall types, BMap.get "type" object = Some types ->
     is_Some (as_str types) \/ is_Some (as_array types)) /\
  (forall r fs, BMap.get "required" object = Some r -> as_array r = Some fs ->
     Forall (fun f => is_string f = true) fs) /\
  (forall p ps s, BMap.get "properties" object = Some p -> as_object p = Some ps ->
     s ∈ ps.*2 -> rec s = Ok tt) /\
  (forall k s, k ∈ ["additionalProperties"; "items"] -> BMap.get k object = Some s -> rec s = Ok tt).
Proof.
  unfold definition_step. cbn [is_boolean as_object].
  rewrite !bail_ok, !try_ok. intros (_ & _ & _ & _ & _ & [[] Ht] & [[] Hr] & [[] Hp] & Hk).
  split_and!.
  - intros types Hty. rewrite Hty in Ht. destruct (as_str types); [eauto|].
    destruct (as_array types); [eauto|done].
  - intros r fs Hreq Hfs. rewrite Hreq, Hfs in Hr. by eapply required_names_strings.
  - intros p ps s Hpr Hps Hs. rewrite Hpr, Hps in Hp. exact (try_each_ok _ _ _ Hp s Hs).
  - intros k s Hin Hs. pose proof (try_each_ok _ _ _ Hk k Hin) as Hx. simpl in Hx.
    by rewrite Hs in Hx.
Qed.

(** A schema that passed its definition check at some depth. *)
Definition well_defined (schema : Value) : Prop :=
  exists fuel depth, validate_schema_definition fuel schema depth = Ok tt.

Lemma well_defined_object (object : list (string * Value)) :
  well_defined (JObject object) -> exists rec : Value -> result unit string,
    (forall s, rec s = Ok tt -> well_defined s) /\ definition_step rec (JObject object) = Ok tt.
Proof.
  intros (fuel & depth & Hv). destruct fuel as [|n]; [done|]. cbn [validate_schema_definition] in Hv.
  apply bail_ok in Hv as [_ Hv]. eexists. split; [|exact Hv]. intros s Hs. exists n, (depth + 1). exact Hs.
Qed.

Lemma member_schema_defined (object : list (string * Value)) (name : string) (s : Value) :
  well_defined (JObject object) -> member_schema object name = Some s -> well_defined s.
Proof.
  intros (rec & Hrec & Hstep)%well_defined_object. unfold member_schema.
  destruct (definition_step_object rec object Hstep) as (_ & _ & Hp & Hk). intros Hm.
  destruct (BMap.get "properties" object) as [p|] eqn:Ep; simpl in Hm.
  2:{ apply Hrec, (Hk "additionalProperties"); [set_solver|done]. }
  destruct (as_object p) as [ps|] eqn:Eps; simpl in Hm.
  2:{ apply Hrec, (Hk "additionalProperties"); [set_solver|done]. }
  destruct (BMap.get name ps) as [x|] eqn:Ex.
  - injection Hm as ->. apply Hrec, (Hp p ps); [done..|].
    apply BMap.bmap_get_Some_elem in Ex. apply list_elem_of_fmap. by exists (name, s).
  - apply Hrec, (Hk "additionalProperties"); [set_solver|done].
Qed.

Lemma check_type_mismatch (val : Value) (object : list (string * Value)) :
  well_defined (JObject object) -> only_mismatch (check_type val object).
Proof.
  intros (rec & Hrec & Hstep)%well_defined_object.
  destruct (definition_step_object rec object Hstep) as (Ht & _). unfold check_type.
  destruct (BMap.get "type" object) as [types|]; [|done].
  destruct (as_str types) eqn:Es; [apply validate_type_mismatch|].
  destruct (Ht types eq_refl) as [[x Hx]|[names Hx]]; [congruence|]. rewrite Hx.
  destruct (negb _); simpl; [set_solver|done].
Qed.

Lemma check_required_mismatch (values object : list (string * Value)) :
  well_defined (JObject object) -> only_mismatch (check_required values object).
Proof.
  intros (rec & Hrec & Hstep)%well_defined_object.
  destruct (definition_step_object rec object Hstep) as (_ & Hr & _). unfold check_required.
  destruct (BMap.get "required" object) as [r|] eqn:Er; simpl; [|done].
  destruct (as_array r) as [fs|] eqn:Efs; [|done].
  specialize (Hr r fs eq_refl Efs). rewrite Forall_forall in Hr.
  apply only_mismatch_each. intros f Hf. specialize (Hr f Hf).
  destruct f; try done. simpl. destruct (negb _); simpl; [set_solver|done].
Qed.

Lemma well_defined_cases (schema : Value) :
  well_defined schema -> (exists b, schema = JBool b) \/ (exists o, schema = JObject o).
Proof.
  intros ([|n] & d & Hv); [done|]. cbn [validate_schema_definition] in Hv.
  apply bail_ok in Hv as [_ Hv]. destruct schema; eauto; done.
Qed.

(** Once a schema passed the definition check, validating a value against it either
    succeeds or reports a mismatch: no schema error surfaces halfway through. *)
Theorem schema_errors_are_mismatches (val schema : Value) :
  well_defined schema -> only_mismatch (validate_schema_value val schema).
Proof.
  revert schema. induction val as [| | | |l IH|m IH] using Value_ind'; intros schema Hd;
    (destruct (well_defined_cases schema Hd) as [[[] ->]|[object ->]];
      [done|by apply (bool_decide_unpack _)|]);
    cbn [validate_schema_value as_bool as_object];
    (apply only_mismatch_try; [by apply check_type_mismatch|]); try done.
  - destruct (BMap.get "items" object) as [items|] eqn:Ei; [|done].
    assert (well_defined items) as Hi.
    { apply well_defined_object in Hd as (rec & Hrec & Hstep).
      destruct (definition_step_object rec object Hstep) as (_ & _ & _ & Hk).
      apply Hrec, (Hk "items"); [set_solver|done]. }
    induction IH as [|x l Hx _ IHl]; [done|]. apply only_mismatch_try; [by apply Hx|done].
  - apply only_mismatch_try; [by apply check_required_mismatch|].
    induction IH as [|[k x] m Hx _ IHm]; [done|].
    apply only_mismatch_try; [|done].
    destruct (member_schema object k) as [s|] eqn:Es; [|done].
    apply Hx. by eapply member_schema_defined.
Qed.

(** The members of an accepted object. *)
Lemma validate_value_object (vs object : list (string * Value)) :
  validate_schema_value (JObject vs) (JObject object) = Ok tt ->
  check_required vs object = Ok tt /\
  forall k v, (k, v) ∈ vs -> forall s, member_schema object k = Some s ->
    validate_schema_value v s = Ok tt.
Proof.
  cbn [validate_schema_value as_bool as_object]. rewrite !try_ok.
  intros (_ & [[] Hr] & Hm). split; [done|]. clear Hr. revert Hm.
  induction vs as [|[k v] vs IH]; [by intros _ ? ? ?%elem_of_nil|].
  rewrite try_ok. intros [[[] Hv] Hrest] k' v' [[= -> ->]|Hin]%elem_of_cons s Hs; [|by eapply IH].
  by rewrite Hs in Hv.
Qed.

(** Accepted arguments are closed under a closed schema: with
    [additionalProperties: false] every argument is a declared property that fits
    its own schema, and every required argument is present. *)
Theorem schema_closed_object (vs object : list (string * Value)) :
  validate_json_schema (JObject vs) (JObject object) = Ok tt ->
  BMap.get "additionalProperties" object = Some (JBool false) ->
  (forall k v, (k, v) ∈ vs -> exists ps s,
     BMap.get "properties" object = Some (JObject ps) /\ BMap.get k ps = Some s /\
     validate_schema_value v s = Ok tt) /\
  (forall fs f, BMap.get "required" object = Some (JArray fs) -> JString f ∈ fs ->
     BMap.contains_key f vs = true).
Proof.
  unfold validate_json_schema. rewrite try_ok. intros [_ Hv] Hadd.
  apply validate_value_object in Hv as [Hr Hm]. split.
  - intros k v Hin. specialize (Hm k v Hin). unfold member_schema in Hm. rewrite Hadd in Hm.
    assert (validate_schema_value v (JBool false) <> Ok tt) as Hf by (by destruct v).
    destruct (BMap.get "properties" object) as [p|] eqn:Ep; simpl in Hm; [|by specialize (Hm _ eq_refl)].
    destruct p as [| | | | |ps]; simpl in Hm; try by specialize (Hm _ eq_refl).
    destruct (BMap.get k ps) as [s|] eqn:Es; [|by specialize (Hm _ eq_refl)].
    exists ps, s. auto.
  - intros fs f Hreq Hf. unfold check_required in Hr. rewrite Hreq in Hr. simpl in Hr.
    pose proof (try_each_ok _ _ _ Hr (JString f) Hf) as Hx. simpl in Hx.
    by destruct (BMap.contains_key f vs).
Qed.

(** ** Witnesses *)

Definition demo_schema : list (string * Value) :=
  [("additionalProperties", JBool false);
   ("properties", JObject [("path", JObject [("type", JString "string")])]);
   ("required", JArray [JString "path"]); ("type", JString "object")].

Lemma schema_fuel_enough_witness :
  validate_schema_definition 66 (JObject demo_schema) 0 = validate_schema_definition 100 (JObject demo_schema) 0.
Proof. apply (schema_fuel_enough 66 100 (JObject demo_schema) 0); unfold MAX_SCHEMA_DEPTH; lia. Defined.

Lemma schema_closed_object_witness :
  BMap.contains_key "path" [("path", JString "/tmp/x")] = true.
Proof.
  destruct (schema_closed_object [("path", JString "/tmp/x")] demo_schema) as [_ Hr].
  - reflexivity.
  - reflexivity.
  - apply (Hr [JString "path"] "path"); [reflexivity|left].
Defined.
