(* ===== verification/Runner.v ===== *)
(** The enforcement pipeline of the adapter ([crates/adapter/src/runner.rs]):
    validate, classify, decide, and execute only what is allowed. *)
From S2P Require Import Prelude BTree Platform F32 Json Adapter ToolCall.
From Stdlib Require Import String Ascii.
#[local] Abbreviation length := List.length.

Definition evaluate_baseline_policy (c : ToolClassification) : AdapterVerdict * option string :=
  if negb (is_ok (classification_validate c)) then
    (ADeny, Some "Invalid classification scores (out of bounds or NaN): fail-closed")
  else if bool_decide (CatDelete ∈ tc_categories c) then
    (ADeny, Some "Destructive delete is forbidden by security policy")
  else if bool_decide (CatSendData ∈ tc_categories c) then
    (ADeny, Some "Unapproved data exfiltration / egress is blocked")
  else if bool_decide (CatChangePermissions ∈ tc_categories c) then
    (ADeny, Some "Unauthorized permission modification is forbidden")
  else if bool_decide (CatUnknown ∈ tc_categories c) || f32_ge (tc_uncertainty c) (f32_lit 8 10) then
    (AAsk, Some "Unfamiliar tool action requires explicit operator approval")
  else if bool_decide (CatWrite ∈ tc_categories c) then
    (AAsk, Some "State modification / write action requires explicit operator approval")
  else if bool_decide (CatRead ∈ tc_categories c) then (AAllow, None)
  else (AAsk, Some "Unfamiliar tool action requires explicit operator approval").

Section classify.
Context `{UnicodeTables}.
(** [serde_json::Value::to_string]. *)
Variable json_to_string : Value -> string.

Definition any_of (p : string -> bool) (l : list string) : bool := existsb p l.

Definition baseline_classify (event : ToolCallEvent) : ToolClassification :=
  let name := to_lowercase (te_tool_name event) in
  let args_str := to_lowercase (json_to_string (te_raw_arguments event)) in
  if bool_decide (name = "rm") || Str.starts_with "rm " name || Str.starts_with "rm_" name
     || bool_decide (name = "rmdir") || Str.contains "delete" name || Str.contains "remove" name
  then mkClassification [CatDelete] (f32_lit 99 100) (f32_lit 1 100)
         (Some "Destructive delete detected")
  else if bool_decide (name = "curl") || Str.starts_with "curl " name || Str.contains "send" name
     || any_of (fun n => Str.contains n args_str) ["https://"; "http://"; "leak"; "attacker"]
  then mkClassification [CatSendData] (f32_lit 98 100) (f32_lit 2 100)
         (Some "Network egress detected in arguments or tool name")
  else if any_of (fun n => Str.contains n name)
            ["write"; "modify"; "update"; "patch"; "edit"; "create"; "append"]
  then mkClassification [CatWrite] (f32_lit 90 100) (f32_lit 10 100)
         (Some "State modification / write action detected")
  else if bool_decide (name ∈ ["read"; "cat"; "read_file"; "read_document"])
     && negb (Str.contains "write" args_str) && negb (Str.contains "output" args_str)
     && negb (Str.contains "destination" args_str)
  then mkClassification [CatRead] (f32_lit 95 100) (f32_lit 5 100)
         (Some "File read operation detected")
  else classification_unknown
         (Some "Unfamiliar tool action with unresolved side-effects: abstaining").

(** ** The pipeline over an executor with its own state *)

(** A [ToolExecutor]: the effect of [execute] on the host state and its result. *)
Definition ToolExecutor (St : Type) : Type := ToolCallEvent -> St -> St * result Value string.

Definition set_classification (e : ToolCallEvent) (c : ToolClassification) : ToolCallEvent :=
  mkToolCallEvent (te_contract_version e) (te_call_id e) (te_session_id e) (te_tool_name e)
    (te_raw_arguments e) (te_tool_description e) (te_tool_schema e) (Some c).

(** [event] is mutated, [st] is the host; the elapsed time of each return is
    [latency]. *)
Definition run_enforcement_pipeline {St} (latency : SpecFloat.spec_float) (event : ToolCallEvent)
    (executor : ToolExecutor St) (st : St) : VerificationReceipt * ToolCallEvent * St :=
  match event_validate event with
  | Err validation_err =>
      (mkReceipt (te_call_id event) (te_session_id event) ADeny false
         (Some ("Event validation failed: " +:+ validation_err)) latency, event, st)
  | Ok _ =>
      let '(classification, event) :=
        match te_classification event with
        | Some c => (c, event)
        | None => let c := baseline_classify event in (c, set_classification event c)
        end in
      let '(verdict, refusal_message) := evaluate_baseline_policy classification in
      let '(executed, refusal_message, st) :=
        if bool_decide (verdict = AAllow) then
          match executor event st with
          | (st', Ok _) => (true, refusal_message, st')
          | (st', Err err) =>
              (true, match refusal_message with
                     | None => Some ("Runtime execution error: " +:+ err)
                     | m => m end, st')
          end
        else (false, refusal_message, st) in
      (mkReceipt (te_call_id event) (te_session_id event) verdict executed refusal_message latency,
       event, st)
  end.

(** [serde_json::from_str::<ToolCallEvent>]. *)
Variable event_from_str : string -> result ToolCallEvent string.

Definition execute_raw_json {St} (latency : SpecFloat.spec_float) (raw_json : string)
    (executor : ToolExecutor St) (st : St) : VerificationReceipt * St :=
  match event_from_str raw_json with
  | Ok event => let '(r, _, st') := run_enforcement_pipeline latency event executor st in (r, st')
  | Err err =>
      (mkReceipt "unknown" "unknown" ADeny false
         (Some ("Malformed JSON payload rejected (fail-closed): " +:+ err)) latency, st)
  end.

(** The mock executor: its state is the call counter. *)
Definition mock_execute : ToolExecutor nat := fun _ n =>
  (S n, Ok (JObject [("status", JString "mock_executed")])).

(** ** Properties *)

(** The categories that are never allowed. *)
Definition forbidden (c : ToolActionCategory) : Prop :=
  c = CatDelete \/ c = CatSendData \/ c = CatChangePermissions.

Lemma baseline_allow_iff (c : ToolClassification) :
  (evaluate_baseline_policy c).1 = AAllow <->
  is_ok (classification_validate c) = true /\
  f32_ge (tc_uncertainty c) (f32_lit 8 10) = false /\
  CatRead ∈ tc_categories c /\ Forall (fun x => x = CatRead) (tc_categories c).
Proof.
  unfold evaluate_baseline_policy. destruct (is_ok _); simpl; [|naive_solver].
  repeat case_bool_decide; simpl; destruct (f32_ge _ _); simpl;
    try (split; [done|]; rewrite Forall_forall; intros (_ & Hge & Hr & Hall);
         solve [ discriminate Hge | contradiction
               | match goal with Hc : _ ∈ tc_categories c |- _ => discriminate (Hall _ Hc) end ]).
  split; [|done]. intros _. split_and!; try done. apply Forall_forall. intros [] Hx; done.
Qed.

(** The baseline policy allows exactly the classifications with valid scores, low
    uncertainty, and reading as their only category; anything with a forbidden
    category or invalid scores is denied, whatever else it claims. *)
Theorem baseline_policy_spec (c : ToolClassification) :
  ((evaluate_baseline_policy c).1 = AAllow <->
     is_ok (classification_validate c) = true /\
     f32_ge (tc_uncertainty c) (f32_lit 8 10) = false /\
     CatRead ∈ tc_categories c /\ Forall (fun x => x = CatRead) (tc_categories c)) /\
  ((evaluate_baseline_policy c).1 = ADeny <->
     is_ok (classification_validate c) = false \/ exists x, x ∈ tc_categories c /\ forbidden x).
Proof.
  split; [apply baseline_allow_iff|]. unfold evaluate_baseline_policy, forbidden.
  destruct (is_ok _); simpl; [|naive_solver].
  repeat case_bool_decide; simpl;
    try destruct (f32_ge (tc_uncertainty c) (f32_lit 8 10)); simpl; naive_solver.
Qed.

Lemma pipeline_ok {St} latency (event : ToolCallEvent) (executor : ToolExecutor St) (st : St) u :
  event_validate event = Ok u ->
  let c := default (baseline_classify event) (te_classification event) in
  let '(r, ev', st') := run_enforcement_pipeline latency event executor st in
  vr_verdict r = (evaluate_baseline_policy c).1 /\ te_classification ev' = Some c /\
  vr_executed r = bool_decide (vr_verdict r = AAllow) /\
  st' = (if bool_decide (vr_verdict r = AAllow) then (executor ev' st).1 else st).
Proof.
  intros Hv. unfold run_enforcement_pipeline. rewrite Hv.
  destruct (te_classification event) as [c|] eqn:Ec; simpl;
    destruct (evaluate_baseline_policy _) as [v m]; simpl;
    (case_bool_decide; [destruct (executor _ st) as [st' [x|err]] eqn:Ex|]; simpl;
      rewrite ?Ex; by rewrite ?bool_decide_true, ?bool_decide_false by done).
Qed.

(** Enforcement: the executor runs (at most once, on the classified event) exactly
    when the receipt says so, which is exactly when the verdict is [Allow]; an event
    that fails validation is denied and never reaches the executor. *)
Lemma pipeline_facts {St} latency (event : ToolCallEvent) (executor : ToolExecutor St) (st : St) :
  let '(r, ev', st') := run_enforcement_pipeline latency event executor st in
  vr_executed r = bool_decide (vr_verdict r = AAllow) /\
  (vr_executed r = true -> st' = (executor ev' st).1 /\ event_validate event = Ok tt /\
     exists c, te_classification ev' = Some c /\ (evaluate_baseline_policy c).1 = AAllow) /\
  (vr_executed r = false -> st' = st) /\
  (event_validate event <> Ok tt -> vr_verdict r = ADeny).
Proof.
  destruct (event_validate event) as [[]|e] eqn:Hv.
  - pose proof (pipeline_ok latency event executor st tt Hv) as H'.
    destruct (run_enforcement_pipeline latency event executor st) as [[r ev'] st'].
    destruct H' as (Hverd & Hc & Hex & Hst). rewrite Hex. case_bool_decide; split_and!; try done.
    intros _. split_and!; [done|done|]. eexists. split; [exact Hc|congruence].
  - unfold run_enforcement_pipeline. rewrite Hv. simpl. done.
Qed.

(** Enforcement from raw text to the tool: whatever the payload and the executor, the
    executor runs exactly when the receipt says so, which is exactly when the verdict is
    [Allow]; it then ran on a parsed and validated event whose classification has valid
    scores and low uncertainty and is read-only; otherwise the host's state is untouched,
    and malformed or invalid payloads are denied. *)
Theorem raw_json_enforced {St} (latency : SpecFloat.spec_float) (raw : string)
    (executor : ToolExecutor St) (st : St) :
  let '(r, st') := execute_raw_json latency raw executor st in
  vr_executed r = bool_decide (vr_verdict r = AAllow) /\
  (vr_executed r = true -> exists event ev' c, event_from_str raw = Ok event /\
     event_validate event = Ok tt /\ te_classification ev' = Some c /\
     st' = (executor ev' st).1 /\ is_ok (classification_validate c) = true /\
     f32_ge (tc_uncertainty c) (f32_lit 8 10) = false /\ Forall (fun x => x = CatRead) (tc_categories c)) /\
  (vr_executed r = false -> st' = st) /\
  ((forall event, event_from_str raw = Ok event -> event_validate event <> Ok tt) -> vr_verdict r = ADeny).
Proof.
  unfold execute_raw_json. destruct (event_from_str raw) as [event|err]; [|done].
  pose proof (pipeline_facts latency event executor st) as H'.
  destruct (run_enforcement_pipeline latency event executor st) as [[r ev'] st'].
  destruct H' as (Hx & Hrun & Hno & Hbad). split_and!; [done| |done|].
  - intros He. destruct (Hrun He) as (Hst & Hv & c & Hc & Hallow).
    apply baseline_allow_iff in Hallow as (Hok & Hu & _ & Hall). by exists event, ev', c.
  - intros Hall. by apply Hbad, Hall.
Qed.

(** The pipeline trusts a classification the event already carries: a raw payload
    that calls itself a read executes a tool whose own name is a deletion. *)
Theorem self_classified_delete_executes (latency : SpecFloat.spec_float) :
  let event := set_classification
    (event_new "c1" "s1" "delete_all" (JObject [("path", JString "/")]))
    (mkClassification [CatRead] f32_1 f32_0 None) in
  let '(r, _, n) := run_enforcement_pipeline latency event mock_execute 0 in
  vr_verdict r = AAllow /\ vr_executed r = true /\ n = 1.
Proof. by vm_compute. Qed.
End classify.
