(* ===== verification/Event.v ===== *)
(** The wire schema of the agent firewall ([crates/agent/src/event.rs]) and the
    projection of an event into inspectable texts ([facet.rs]). *)
From S2P Require Import Prelude BTree F32 Json CoreTypes.
From Stdlib Require Import String Ascii.

Definition SessionId : Type := string.
Definition AgentId : Type := string.

Inductive Trust := Untrusted | Semi | Trusted.

Inductive Provenance :=
| UserPrompt
| LocalProject
| LocalSystem
| Network (host : string)
| McpServer (name : string)
| Subagent (name : string)
| Native (registry tool : string).

#[export] Instance Trust_eq_dec : EqDecision Trust.
Proof. solve_decision. Defined.
#[export] Instance Provenance_eq_dec : EqDecision Provenance.
Proof. solve_decision. Defined.

Definition trust (p : Provenance) : Trust :=
  match p with
  | UserPrompt => Trusted
  | LocalProject | LocalSystem => Semi
  | Network _ | McpServer _ | Subagent _ | Native _ _ => Untrusted
  end.

Definition prov_kind (p : Provenance) : string :=
  match p with
  | UserPrompt => "user"
  | LocalProject => "project"
  | LocalSystem => "system"
  | Network _ => "network"
  | McpServer _ => "mcp"
  | Subagent _ => "subagent"
  | Native _ _ => "native"
  end.

Definition source_name (p : Provenance) : option string :=
  match p with
  | UserPrompt | LocalProject | LocalSystem => None
  | Network host => Some host
  | McpServer name | Subagent name => Some name
  | Native registry _ => Some registry
  end.

Definition label (p : Provenance) : string :=
  match p with
  | UserPrompt => "user"
  | LocalProject => "project"
  | LocalSystem => "system"
  | Network host => "network:" +:+ host
  | McpServer name => "mcp:" +:+ name
  | Subagent name => "subagent:" +:+ name
  | Native registry tool => "native:" +:+ registry +:+ ":" +:+ tool
  end.

Record ToolDecl := mkToolDecl { td_name : string; td_description : string; td_schema : Value }.

Inductive EventKind :=
| ToolCall (tool : string) (args : Value)
| ToolResult (tool content : string) (source : Provenance)
| SubagentSpawn (name instructions : string) (granted_tools : list string)
| SubagentReport (name content : string)
| ManifestSeen (server : string) (tools : list ToolDecl)
| SessionStart
| SessionEnd
| Unknown.

Record AgentEvent := mkEvent {
  ev_session : SessionId;
  ev_agent : AgentId;
  ev_parent : option AgentId;
  ev_seq : Z;
  ev_at_ms : Z;
  ev_kind : EventKind
}.

(** ** [facet.rs] *)

Inductive Facet :=
| FToolArgs | FToolResult | FSubagentInstructions | FSubagentReport | FToolDescription.

#[export] Instance Facet_eq_dec : EqDecision Facet.
Proof. solve_decision. Defined.

Definition facet_direction (f : Facet) : Direction :=
  match f with FToolArgs => Output | _ => Input end.

(** Every non-empty string leaf, in the order of the traversal. *)
Fixpoint string_leaves (v : Value) : list string :=
  match v with
  | JString s => if Str.is_empty s then [] else [s]
  | JArray a => (fix go (a : list Value) :=
      match a with [] => [] | x :: a' => string_leaves x ++ go a' end) a
  | JObject o => (fix go (o : list (string * Value)) :=
      match o with [] => [] | kv :: o' => string_leaves kv.2 ++ go o' end) o
  | _ => []
  end.

Definition facets (ev : AgentEvent) : list (Facet * string) :=
  match ev_kind ev with
  | ToolCall _ args => (fun t => (FToolArgs, t)) <$> string_leaves args
  | ToolResult _ content _ => [(FToolResult, content)]
  | SubagentSpawn _ instructions _ => [(FSubagentInstructions, instructions)]
  | SubagentReport _ content => [(FSubagentReport, content)]
  | ManifestSeen _ tools =>
      (fun t => (FToolDescription, td_name t +:+ ": " +:+ td_description t)) <$> tools
  | SessionStart | SessionEnd | Unknown => []
  end.

(** ** Properties *)

(** [s] is the value at some path of [v]. *)
Inductive leaf : string -> Value -> Prop :=
| leaf_here s : leaf s (JString s)
| leaf_array s x l : x ∈ l -> leaf s x -> leaf s (JArray l)
| leaf_object s k x m : (k, x) ∈ m -> leaf s x -> leaf s (JObject m).

(** The walk finds exactly the non-empty strings of the value, at any depth. *)
Lemma string_leaves_spec (v : Value) (s : string) :
  s ∈ string_leaves v <-> leaf s v /\ s <> EmptyString.
Proof.
  induction v as [| | |t|l IH|m IH] using Value_ind'; simpl;
    try (rewrite elem_of_nil; split; [done|]; by intros [H _]; inversion H).
  - destruct t as [|a t]; simpl.
    + rewrite elem_of_nil. split; [done|]. intros [H Hne]. by inversion H; subst.
    + rewrite list_elem_of_singleton. split; [intros ->; by repeat constructor|].
      intros [H _]. by inversion H.
  - trans (exists x, x ∈ l /\ leaf s x /\ s <> EmptyString).
    + induction IH as [|x l Hx Hl IHl]; [rewrite elem_of_nil; set_solver|].
      rewrite elem_of_app, Hx, IHl. set_solver.
    + split; [intros (x & Hx & Hl & Hs)|intros [Hl Hs]].
      * split; [by eapply leaf_array|done].
      * inversion Hl; subst. eauto.
  - trans (exists k x, (k, x) ∈ m /\ leaf s x /\ s <> EmptyString).
    + induction IH as [|[k x] m Hx Hm IHm]; [rewrite elem_of_nil; set_solver|].
      rewrite elem_of_app, Hx, IHm. simpl. set_solver.
    + split; [intros (k & x & Hx & Hl & Hs)|intros [Hl Hs]].
      * split; [by eapply leaf_object|done].
      * inversion Hl; subst. eauto.
Qed.

(** Every string argument of a tool call is inspected, in the exfiltration
    direction, and nothing else is. *)
Theorem facets_tool_call (ev : AgentEvent) (tool : string) (args : Value) (f : Facet) (t : string) :
  ev_kind ev = ToolCall tool args ->
  (f, t) ∈ facets ev <-> f = FToolArgs /\ leaf t args /\ t <> EmptyString.
Proof.
  intros Hk. unfold facets. rewrite Hk, list_elem_of_fmap.
  setoid_rewrite string_leaves_spec. naive_solver.
Qed.
