(* ===== verification/Authority.v ===== *)
(** Subagent authority ([crates/agent/src/authority.rs]): a spawned agent never
    holds a tool its parent does not hold. *)
From S2P Require Import Prelude BTree Event.
From Stdlib Require Import String Ascii.

Record Escalation := mkEscalation {
  esc_agent : AgentId;
  esc_parent : AgentId;
  esc_extra : list string
}.

Abbreviation Grants := (gmap string (BSet.t string)).
Abbreviation Authority := (gmap string Grants).

Definition set_root (a : Authority) (session agent : string) (tools : list string) : Authority :=
  let s := default ∅ (a !! session) in
  <[session := <[agent := BSet.of_list tools]> s]> a.

(** The new table and the escalation, if the child asked for too much; the
    session's entry exists afterwards either way ([entry().or_default()]). *)
Definition spawn (a : Authority) (session parent child : string) (requested : list string) :
    Authority * option Escalation :=
  let s := default ∅ (a !! session) in
  let a := <[session := s]> a in
  let parent_tools := default [] (s !! parent) in
  let requested := BSet.of_list requested in
  let extra := BSet.difference requested parent_tools in
  match extra with
  | _ :: _ => (a, Some (mkEscalation child parent extra))
  | [] => (<[session := <[child := requested]> s]> a, None)
  end.

Definition holds (a : Authority) (session agent tool : string) : bool :=
  match a !! session with
  | Some s => match s !! agent with Some t => BSet.contains tool t | None => false end
  | None => false
  end.

Definition end_session (a : Authority) (session : string) : Authority := delete session a.

(** ** The state machine *)

Inductive auth_op :=
| OpSetRoot (session agent : string) (tools : list string)
| OpSpawn (session parent child : string) (requested : list string)
| OpEnd (session : string).

Definition auth_step (a : Authority) (op : auth_op) : Authority :=
  match op with
  | OpSetRoot s ag ts => set_root a s ag ts
  | OpSpawn s p c ts => (spawn a s p c ts).1
  | OpEnd s => end_session a s
  end.

Definition auth_run (ops : list auth_op) : Authority := fold_left auth_step ops ∅.

(** ** Properties *)

Lemma holds_set_root (a : Authority) (s ag s' ag' t : string) (tools : list string) :
  holds (set_root a s ag tools) s' ag' t =
  if decide (s = s' /\ ag = ag') then bool_decide (t ∈ tools) else holds a s' ag' t.
Proof.
  unfold holds, set_root. destruct (decide (s = s')) as [<-|Hs].
  - rewrite lookup_insert_eq. destruct (decide (ag = ag')) as [<-|Ha].
    + rewrite lookup_insert_eq, decide_True by done. unfold BSet.contains.
      apply bool_decide_ext, BSet.bset_elem_of_of_list.
    + rewrite lookup_insert_ne, decide_False by naive_solver.
      destruct (a !! s); [done|]. simpl. by rewrite lookup_empty.
  - by rewrite lookup_insert_ne, decide_False by naive_solver.
Qed.

Lemma spawn_extra (a : Authority) (s p : string) (req : list string) (t : string) :
  t ∈ BSet.difference (BSet.of_list req) (default [] (default ∅ (a !! s) !! p)) <->
  t ∈ req /\ holds a s p t = false.
Proof.
  rewrite BSet.bset_elem_of_difference, BSet.bset_elem_of_of_list. apply and_iff_compat_l.
  unfold holds. destruct (a !! s) as [g|]; simpl.
  - destruct (g !! p) as [ts|]; simpl; unfold BSet.contains.
    + by rewrite bool_decide_eq_false.
    + split; [done|]. intros _. apply not_elem_of_nil.
  - rewrite lookup_empty. simpl. split; [done|]. intros _. apply not_elem_of_nil.
Qed.

Lemma spawn_spec (a : Authority) (s p c : string) (req : list string) :
  match (spawn a s p c req).2 with
  | Some e => e = mkEscalation c p (esc_extra e) /\ esc_extra e <> [] /\
              BSet.wf (esc_extra e) /\
              forall t, t ∈ esc_extra e <-> t ∈ req /\ holds a s p t = false
  | None => forall t, t ∈ req -> holds a s p t = true
  end.
Proof.
  unfold spawn. pose proof (spawn_extra a s p req) as Hex.
  assert (BSet.wf (BSet.difference (BSet.of_list req) (default [] (default ∅ (a !! s) !! p)))) as Hwf
    by apply BSet.bset_wf_filter, BSet.bset_of_list_wf.
  destruct (BSet.difference _ _) as [|x l]; simpl.
  - intros t Ht. apply not_false_iff_true. intros Hh.
    apply (not_elem_of_nil t). by apply Hex.
  - split_and!; done.
Qed.

Lemma holds_spawn (a : Authority) (s p c s' ag' t : string) (req : list string) :
  holds (spawn a s p c req).1 s' ag' t =
  if decide (s = s' /\ c = ag' /\ (spawn a s p c req).2 = None)
  then bool_decide (t ∈ req) else holds a s' ag' t.
Proof.
  unfold spawn. destruct (BSet.difference _ _) as [|x l]; simpl.
  - destruct (decide (s = s' /\ c = ag')) as [[<- <-]|Hne].
    + rewrite decide_True by done. unfold holds. rewrite !lookup_insert_eq.
      apply bool_decide_ext, BSet.bset_elem_of_of_list.
    + rewrite decide_False by tauto. unfold holds.
      destruct (decide (s = s')) as [<-|Hs].
      * rewrite lookup_insert_eq. rewrite lookup_insert_ne by tauto.
        destruct (a !! s); [done|]. simpl. by rewrite lookup_empty.
      * by rewrite !lookup_insert_ne by done.
  - rewrite decide_False by naive_solver. unfold holds.
    destruct (decide (s = s')) as [<-|Hs].
    + rewrite lookup_insert_eq. destruct (a !! s); [done|]. simpl. by rewrite lookup_empty.
    + by rewrite lookup_insert_ne by done.
Qed.

(** A spawn escalates exactly when some requested tool is not held by the parent,
    and the escalation lists exactly those tools in sorted order; otherwise the
    child is registered and holds exactly the tools it asked for. *)
Theorem spawn_escalates_iff (a : Authority) (s p c : string) (req : list string) :
  match spawn a s p c req with
  | (a', Some e) =>
      e = mkEscalation c p (esc_extra e) /\ esc_extra e <> [] /\ BSet.wf (esc_extra e) /\
      (forall t, t ∈ esc_extra e <-> t ∈ req /\ holds a s p t = false) /\
      (forall s' ag t, holds a' s' ag t = holds a s' ag t)
  | (a', None) =>
      (forall t, t ∈ req -> holds a s p t = true) /\
      (forall t, holds a' s c t = bool_decide (t ∈ req))
  end.
Proof.
  pose proof (spawn_spec a s p c req) as Hs.
  pose proof (fun s' ag t => holds_spawn a s p c s' ag t req) as Hh.
  destruct (spawn a s p c req) as [a' [e|]]; simpl in *.
  - destruct Hs as (? & ? & ? & ?). split_and!; try done.
    intros s' ag t. by rewrite Hh, decide_False by naive_solver.
  - split; [done|]. intros t. by rewrite Hh, decide_True by naive_solver.
Qed.

(** The tool was granted to some root agent of the session by an operation. *)
Definition root_granted (ops : list auth_op) (s t : string) : Prop :=
  exists ag ts, OpSetRoot s ag ts ∈ ops /\ t ∈ ts.

Lemma auth_run_snoc (ops : list auth_op) (op : auth_op) :
  auth_run (ops ++ [op]) = auth_step (auth_run ops) op.
Proof. unfold auth_run. by rewrite fold_left_app. Qed.

(** No sequence of roots, spawns and session ends lets any agent, however deep in
    the spawn tree, hold a tool that no root agent of its session was granted. *)
Theorem authority_from_roots (ops : list auth_op) (s ag t : string) :
  holds (auth_run ops) s ag t = true -> root_granted ops s t.
Proof.
  revert s ag t. induction ops as [|op ops IH] using rev_ind; intros s ag t Hh.
  - unfold holds, auth_run in Hh. simpl in Hh. by rewrite lookup_empty in Hh.
  - assert (root_granted ops s t -> root_granted (ops ++ [op]) s t) as Hmono.
    { intros (r & ts & Hin & Ht). exists r, ts. split; [set_solver|done]. }
    rewrite auth_run_snoc in Hh. destruct op as [s0 ag0 ts|s0 p c req|s0]; simpl in Hh.
    + rewrite holds_set_root in Hh. case_decide as Hd; [|eauto].
      destruct Hd as [-> ->]. apply bool_decide_eq_true in Hh. exists ag, ts. set_solver.
    + rewrite holds_spawn in Hh. case_decide as Hd; [|eauto].
      destruct Hd as (-> & -> & Hnone). apply bool_decide_eq_true in Hh. apply Hmono, (IH s p t).
      pose proof (spawn_spec (auth_run ops) s p ag req) as Hs.
      rewrite Hnone in Hs. auto.
    + unfold end_session, holds in Hh. destruct (decide (s0 = s)) as [->|Hs].
      * by rewrite lookup_delete_eq in Hh.
      * rewrite lookup_delete_ne in Hh by done. eauto.
Qed.

Lemma authority_from_roots_witness : root_granted [OpSetRoot "s" "main" ["Bash"; "Read"]] "s" "Bash".
Proof. apply (authority_from_roots [OpSetRoot "s" "main" ["Bash"; "Read"]] "s" "main" "Bash"). reflexivity. Defined.
