(* ===== verification/Fifo.v ===== *)
(** Bounded first-in first-out tables: a [HashMap] with the [VecDeque] of its
    insertion order, evicted from the front beyond a capacity.  The taint tracker
    ([crates/agent/src/taint.rs]) keeps two of them per session and the span cache
    ([crates/agentfw/src/spans.rs]) one. *)
From S2P Require Import Prelude.
#[local] Abbreviation length := List.length.

Record Fifo (A V : Type) `{Countable A} := mkFifo {
  fi_marks : gmap A V;
  fi_order : list A
}.
Arguments mkFifo {A V _ _} _ _.
Arguments fi_marks {A V _ _} _.
Arguments fi_order {A V _ _} _.

Definition fifo_empty {A V} `{Countable A} : Fifo A V := mkFifo ∅ [].

(** [while order.len() > cap { pop_front, remove }]: the queue only shrinks, so
    its length is enough fuel. *)
Fixpoint fifo_evict {A V} `{Countable A} (fuel cap : nat) (t : Fifo A V) : Fifo A V :=
  match fuel with
  | O => t
  | S fuel' =>
      if cap <? length (fi_order t) then
        match fi_order t with
        | [] => t
        | old :: rest => fifo_evict fuel' cap (mkFifo (delete old (fi_marks t)) rest)
        end
      else t
  end.

(** Insert a new key at the back and evict beyond the capacity. *)
Definition fifo_push {A V} `{Countable A} (cap : nat) (k : A) (v : V) (t : Fifo A V) : Fifo A V :=
  let t := mkFifo (<[k := v]> (fi_marks t)) (fi_order t ++ [k]) in
  fifo_evict (length (fi_order t)) cap t.

(** Overwrite the value of a key, leaving its place in the queue. *)
Definition fifo_update {A V} `{Countable A} (k : A) (v : V) (t : Fifo A V) : Fifo A V :=
  mkFifo (<[k := v]> (fi_marks t)) (fi_order t).

Section fifo_facts.
Context {A V : Type} `{Countable A}.
Implicit Types (t : Fifo A V) (k : A) (v : V).

(** The queue lists the keys of the table once each. *)
Definition fifo_wf (t : Fifo A V) : Prop :=
  NoDup (fi_order t) /\ forall k, k ∈ fi_order t <-> is_Some (fi_marks t !! k).

Lemma fifo_empty_wf : fifo_wf fifo_empty.
Proof.
  split; [constructor|]. intros k. simpl. rewrite lookup_empty, elem_of_nil.
  split; [done|]. by intros [? [=]].
Qed.

Lemma fifo_pop_wf t old rest :
  fifo_wf t -> fi_order t = old :: rest -> fifo_wf (mkFifo (delete old (fi_marks t)) rest).
Proof.
  intros [Hnd Hdom] Ho. rewrite Ho in Hnd. apply NoDup_cons in Hnd as [Hni Hnd].
  split; [done|]. intros k. simpl. rewrite lookup_delete_is_Some, <- Hdom, Ho, elem_of_cons.
  split; [intros Hk; split; [by intros <-|by right]|]. intros [Hne [->|Hk]]; done.
Qed.

Lemma fifo_evict_wf fuel cap t : fifo_wf t -> fifo_wf (fifo_evict fuel cap t).
Proof.
  revert t. induction fuel as [|n IH]; intros t Hwf; simpl; [done|].
  destruct (cap <? length (fi_order t)); [|done].
  destruct (fi_order t) as [|old rest] eqn:Ho; [done|]. apply IH. by eapply fifo_pop_wf.
Qed.

Lemma fifo_evict_length fuel cap t :
  length (fi_order t) <= cap + fuel -> length (fi_order (fifo_evict fuel cap t)) <= cap.
Proof.
  revert t. induction fuel as [|n IH]; intros t Hl; simpl; [lia|].
  destruct (Nat.ltb_spec cap (length (fi_order t))); [|done].
  destruct (fi_order t) as [|old rest]; [simpl in *; lia|]. apply IH. simpl in *. lia.
Qed.

Lemma fifo_evict_noop fuel cap t : length (fi_order t) <= cap -> fifo_evict fuel cap t = t.
Proof.
  intros Hl. destruct fuel; simpl; [done|]. by destruct (Nat.ltb_spec cap (length (fi_order t))); [lia|].
Qed.

(** Eviction only removes entries. *)
Lemma fifo_evict_sub fuel cap t k m :
  fi_marks (fifo_evict fuel cap t) !! k = Some m -> fi_marks t !! k = Some m.
Proof.
  revert t. induction fuel as [|n IH]; intros t; simpl; [done|].
  destruct (cap <? length (fi_order t)); [|done].
  destruct (fi_order t) as [|old rest]; [done|]. intros Hm%IH. simpl in Hm.
  by apply lookup_delete_Some in Hm as [_ Hm].
Qed.

Lemma fifo_update_wf k v t : fifo_wf t -> is_Some (fi_marks t !! k) -> fifo_wf (fifo_update k v t).
Proof.
  intros [Hnd Hdom] Hk. split; [done|]. intros j. simpl.
  rewrite lookup_insert_is_Some, <- Hdom. split; [|intros [<-|[_ Hj]]; [by apply Hdom|done]].
  intros Hj. destruct (decide (k = j)); [by left|by right].
Qed.

Lemma fifo_push_wf cap k v t : fifo_wf t -> fi_marks t !! k = None -> fifo_wf (fifo_push cap k v t).
Proof.
  intros [Hnd Hdom] E. apply fifo_evict_wf. split; simpl.
  - apply NoDup_app. split_and!; [done| |apply NoDup_singleton].
    intros j Hj ->%list_elem_of_singleton. apply Hdom in Hj. rewrite E in Hj. by destruct Hj.
  - intros j. rewrite elem_of_app, list_elem_of_singleton, lookup_insert_is_Some', Hdom.
    naive_solver.
Qed.

Lemma fifo_push_bound cap k v t :
  length (fi_order t) <= cap -> length (fi_order (fifo_push cap k v t)) <= cap.
Proof. intros Hl. apply fifo_evict_length. simpl. lia. Qed.

Lemma fifo_push_sub cap k v t j m :
  fi_marks (fifo_push cap k v t) !! j = Some m ->
  fi_marks t !! j = Some m \/ (j = k /\ m = v).
Proof.
  intros Hm. apply fifo_evict_sub in Hm. simpl in Hm.
  apply lookup_insert_Some in Hm as [[<- <-]|[_ Hm]]; [by right|by left].
Qed.

(** Below the capacity nothing is evicted. *)
Lemma fifo_push_room cap k v t :
  length (fi_order t) < cap ->
  fifo_push cap k v t = mkFifo (<[k := v]> (fi_marks t)) (fi_order t ++ [k]).
Proof. intros Hl. apply fifo_evict_noop. simpl. rewrite length_app. simpl. lia. Qed.

Lemma fifo_size t : fifo_wf t -> size (fi_marks t) = length (fi_order t).
Proof.
  intros [Hnd Hdom]. rewrite <- size_dom.
  assert (dom (fi_marks t) = list_to_set (C:=gset A) (fi_order t)) as ->.
  { apply set_eq. intros k. by rewrite elem_of_dom, elem_of_list_to_set, Hdom. }
  by apply size_list_to_set.
Qed.

End fifo_facts.
