(* ===== verification/Taint.v ===== *)
(** The taint tracker ([crates/agent/src/taint.rs]): which untrusted content
    entered a session, and whether a later text is derived from it. *)
From S2P Require Import Prelude BTree Platform Event Fingerprint Fifo.
From Stdlib Require Import String Ascii.
#[local] Abbreviation length := List.length.

Definition MIN_MATCHES : nat := 3.
Definition MIN_LITERAL_LEN : nat := 12.

Record TaintMark := mkMark { tm_source : Provenance; tm_seq : Z }.

#[export] Instance TaintMark_eq_dec : EqDecision TaintMark.
Proof. solve_decision. Defined.

Definition SENSITIVE_PATH_MARKERS : list string := [
  "/etc/passwd"; "/etc/shadow"; "/etc/sudoers"; "/etc/hosts"; "/.ssh"; "/.aws"; "/.gnupg"; "/.config/gcloud"; "/.netrc"; "/.npmrc"; "/.docker"; "id_rsa"; "id_ed25519"; "credentials"; "authorized_keys"; ".env"].

Definition LITERAL_RE : string := "(?ix)
              \b[a-z][a-z0-9+.-]*://[^\s'\x22)>\]]+     # URLs
            | (?:^|[\s'\x22(<\[])(~?/[A-Za-z0-9._/-]{6,})  # absolute or ~ paths
            ".

(** The characters [. , ; ) ] double quote and single quote. *)
Definition is_trailing (a : ascii) : bool :=
  bool_decide (a ∈ ["."%char; ","%char; ";"%char; ")"%char; "034"%char; "'"%char]).

(** An 8-byte segment with a digit and a separator. *)
Definition generated_segment (seg : string) : bool :=
  (8 <=? Str.len seg) && Str.existsb Str.is_digit seg
  && Str.existsb (fun c => bool_decide (c = "_"%char) || bool_decide (c = "-"%char)) seg.

Section literals.
Context `{UnicodeTables} `{RegexEngine}.

(** The literal, if any, that one match of the pattern contributes. *)
Definition literal_of (text : string) (c : list (option span)) : option string :=
  let is_path := bool_decide (is_Some (group 1 c)) in
  match (match group 1 c with Some m => Some m | None => group 0 c end) with
  | None => None
  | Some m =>
      let s := Str.trim_end_matches is_trailing (slice text m) in
      let lower := to_lowercase s in
      if negb is_path then
        if MIN_LITERAL_LEN <=? Str.len s then Some lower else None
      else
        let sensitive := existsb (fun m => Str.contains m lower) SENSITIVE_PATH_MARKERS in
        let is_home := Str.starts_with "~" s in
        let has_extension_segment := existsb (Str.contains ".") (Str.split_char "/" s) in
        let has_generated_segment := existsb generated_segment (Str.split_char "/" s) in
        if negb (sensitive || is_home || has_extension_segment || has_generated_segment)
        then None
        else if (MIN_LITERAL_LEN <=? Str.len s) || sensitive then Some lower else None
  end.

Definition literals (text : string) : list string :=
  omap (literal_of text) (captures_iter LITERAL_RE text).
End literals.

(** ** The mark tables *)

(** The body of both loops of [record]. *)
Definition fifo_record {A} `{Countable A} (cap : nat) (mark : TaintMark) (t : Fifo A TaintMark)
    (k : A) : Fifo A TaintMark :=
  match fi_marks t !! k with
  | Some existing => if (tm_seq mark <? tm_seq existing)%Z then fifo_update k mark t else t
  | None => fifo_push cap k mark t
  end.

(** ** The tracker *)

Record SessionTaint := mkSessionTaint { st_fps : Fifo Z TaintMark; st_lits : Fifo string TaintMark }.

Definition session_default : SessionTaint := mkSessionTaint fifo_empty fifo_empty.

Record TaintTracker := mkTracker { tt_cap : nat; tt_sessions : gmap string SessionTaint }.

Definition tracker_new (cap : nat) : TaintTracker := mkTracker cap ∅.

(** The order in which a [HashMap] of literals is iterated. *)
Class LiteralIter := literal_iter : gmap string TaintMark -> list (string * TaintMark).
Class LiteralIterLaws `{LiteralIter} :=
  literal_iter_perm : forall m, literal_iter m ≡ₚ map_to_list m.

Section tracker.
Context `{UnicodeTables} `{RegexEngine} `{LiteralIter}.

Definition record (t : TaintTracker) (session : string) (seq : Z) (source : Provenance)
    (text : string) : TaintTracker :=
  if negb (bool_decide (trust source = Untrusted)) then t
  else
    let entry := default session_default (tt_sessions t !! session) in
    let mark := mkMark source seq in
    let fps := fold_left (fifo_record (tt_cap t) mark) (fingerprints text) (st_fps entry) in
    let lits := fold_left (fifo_record (tt_cap t) mark) (literals text) (st_lits entry) in
    mkTracker (tt_cap t) (<[session := mkSessionTaint fps lits]> (tt_sessions t)).

(** The marks that contribute to a text, before sorting. *)
Definition hits (entry : SessionTaint) (text : string) : list TaintMark :=
  let fp_hits := omap (fun fp => fi_marks (st_fps entry) !! fp) (fingerprints text) in
  let fp_hits := if length fp_hits <? MIN_MATCHES then [] else fp_hits in
  let text_lc := to_lowercase text in
  fp_hits ++ (snd <$> List.filter (fun lm => Str.contains lm.1 text_lc)
                        (literal_iter (fi_marks (st_lits entry)))).

Definition mark_le (a b : TaintMark) : bool := (tm_seq a <=? tm_seq b)%Z.

Definition check (t : TaintTracker) (session text : string) : option TaintMark :=
  match tt_sessions t !! session with
  | None => None
  | Some entry => head (sort_by mark_le (hits entry text))
  end.

Definition end_session (t : TaintTracker) (session : string) : TaintTracker :=
  mkTracker (tt_cap t) (delete session (tt_sessions t)).

Definition len (t : TaintTracker) (session : string) : nat :=
  match tt_sessions t !! session with Some s => size (fi_marks (st_fps s)) | None => 0 end.

Definition literal_len (t : TaintTracker) (session : string) : nat :=
  match tt_sessions t !! session with Some s => size (fi_marks (st_lits s)) | None => 0 end.

Definition is_empty (t : TaintTracker) (session : string) : bool :=
  match tt_sessions t !! session with
  | Some s => bool_decide (fi_marks (st_fps s) = ∅) && bool_decide (fi_marks (st_lits s) = ∅)
  | None => true
  end.

(** ** The state machine of a tracker *)

Inductive taint_op :=
| TRecord (session : string) (seq : Z) (source : Provenance) (text : string)
| TEnd (session : string).

Definition taint_step (t : TaintTracker) (op : taint_op) : TaintTracker :=
  match op with
  | TRecord s q p x => record t s q p x
  | TEnd s => end_session t s
  end.

Definition taint_run (cap : nat) (ops : list taint_op) : TaintTracker :=
  fold_left taint_step ops (tracker_new cap).
End tracker.

(** ** The mark tables keep their invariant *)

Section mark_facts.
Context {A : Type} `{Countable A}.
Implicit Types (t : Fifo A TaintMark) (k : A) (mark : TaintMark).

Lemma fifo_record_wf cap mark t k : fifo_wf t -> fifo_wf (fifo_record cap mark t k).
Proof.
  intros Hwf. unfold fifo_record. destruct (fi_marks t !! k) as [e|] eqn:E.
  - destruct (_ <? _)%Z; [|done]. apply fifo_update_wf; eauto.
  - by apply fifo_push_wf.
Qed.

Lemma fifo_record_bound cap mark t k :
  length (fi_order t) <= cap -> length (fi_order (fifo_record cap mark t k)) <= cap.
Proof.
  intros Hl. unfold fifo_record. destruct (fi_marks t !! k); [by case_match|].
  by apply fifo_push_bound.
Qed.

Lemma fifo_fold_inv cap mark (ks : list A) t :
  fifo_wf t -> length (fi_order t) <= cap ->
  fifo_wf (fold_left (fifo_record cap mark) ks t) /\
  length (fi_order (fold_left (fifo_record cap mark) ks t)) <= cap.
Proof.
  revert t. induction ks as [|k ks IH]; intros t Hwf Hl; simpl; [done|].
  apply IH; [by apply fifo_record_wf|by apply fifo_record_bound].
Qed.

(** Every mark of the new table was there or is the new one. *)
Lemma fifo_record_origin cap mark t k j m :
  fi_marks (fifo_record cap mark t k) !! j = Some m ->
  fi_marks t !! j = Some m \/ (j = k /\ m = mark).
Proof.
  unfold fifo_record. intros Hm. destruct (fi_marks t !! k) as [e|] eqn:E.
  - destruct (_ <? _)%Z; [|by left]. simpl in Hm.
    apply lookup_insert_Some in Hm as [[<- <-]|[_ Hm]]; [by right|by left].
  - by apply fifo_push_sub in Hm.
Qed.

Lemma fifo_fold_origin cap mark (ks : list A) t j m :
  fi_marks (fold_left (fifo_record cap mark) ks t) !! j = Some m ->
  fi_marks t !! j = Some m \/ (j ∈ ks /\ m = mark).
Proof.
  revert t. induction ks as [|k ks IH]; intros t Hm; simpl in *; [by left|].
  apply IH in Hm as [Hm|[Hj ->]]; [|right; split; [by right|done]].
  apply fifo_record_origin in Hm as [Hm|[-> ->]]; [by left|right; split; [by left|done]].
Qed.

(** Within the bound nothing is evicted: an entry stays, under a mark no later. *)
Lemma fifo_record_keeps cap mark t k j m :
  length (fi_order t) < cap -> fi_marks t !! j = Some m ->
  exists m', fi_marks (fifo_record cap mark t k) !! j = Some m' /\ (tm_seq m' <= tm_seq m)%Z.
Proof.
  intros Hl Hj. unfold fifo_record. destruct (fi_marks t !! k) as [e|] eqn:E.
  - destruct (Z.ltb_spec (tm_seq mark) (tm_seq e)); [|eauto with lia]. simpl.
    destruct (decide (k = j)) as [->|Hne].
    + rewrite lookup_insert_eq. exists mark. split; [done|]. simplify_eq. lia.
    + rewrite lookup_insert_ne by done. eauto with lia.
  - rewrite fifo_push_room by done. simpl.
    destruct (decide (k = j)) as [->|Hne]; [congruence|].
    rewrite lookup_insert_ne by done. eauto with lia.
Qed.

Lemma fifo_record_adds cap mark t k :
  length (fi_order t) < cap ->
  exists m', fi_marks (fifo_record cap mark t k) !! k = Some m' /\ (tm_seq m' <= tm_seq mark)%Z.
Proof.
  intros Hl. unfold fifo_record. destruct (fi_marks t !! k) as [e|] eqn:E.
  - destruct (Z.ltb_spec (tm_seq mark) (tm_seq e)); simpl.
    + rewrite lookup_insert_eq. eauto with lia.
    + eauto with lia.
  - rewrite fifo_push_room by done. simpl.
    rewrite lookup_insert_eq. eauto with lia.
Qed.

Lemma fifo_record_grow cap mark t k :
  length (fi_order t) < cap ->
  length (fi_order (fifo_record cap mark t k)) <= S (length (fi_order t)).
Proof.
  intros Hl. unfold fifo_record. destruct (fi_marks t !! k); [by case_match; simpl; lia|].
  rewrite fifo_push_room by done.
  simpl. rewrite length_app. simpl. lia.
Qed.

Lemma fifo_fold_keeps cap mark (ks : list A) t j m :
  length (fi_order t) + length ks <= cap -> fi_marks t !! j = Some m ->
  exists m', fi_marks (fold_left (fifo_record cap mark) ks t) !! j = Some m' /\
    (tm_seq m' <= tm_seq m)%Z.
Proof.
  revert t m. induction ks as [|k ks IH]; intros t m Hl Hj; simpl in *; [eauto with lia|].
  destruct (fifo_record_keeps cap mark t k j m) as (m1 & Hm1 & Hle1); [lia|done|].
  destruct (IH (fifo_record cap mark t k) m1) as (m2 & Hm2 & Hle2); [|done|].
  - pose proof (fifo_record_grow cap mark t k). lia.
  - exists m2. split; [done|lia].
Qed.

Lemma fifo_fold_adds cap mark (ks : list A) t k :
  length (fi_order t) + length ks <= cap -> k ∈ ks ->
  exists m', fi_marks (fold_left (fifo_record cap mark) ks t) !! k = Some m' /\
    (tm_seq m' <= tm_seq mark)%Z.
Proof.
  revert t. induction ks as [|x ks IH]; intros t Hl Hk; simpl in *; [by apply elem_of_nil in Hk|].
  pose proof (fifo_record_grow cap mark t x) as Hg.
  apply elem_of_cons in Hk as [->|Hk]; [|apply IH; [lia|done]].
  destruct (fifo_record_adds cap mark t x) as (m1 & Hm1 & Hle1); [lia|].
  destruct (fifo_fold_keeps cap mark ks (fifo_record cap mark t x) x m1) as (m2 & Hm2 & Hle2);
    [lia|done|]. exists m2. split; [done|lia].
Qed.

Lemma fifo_fold_grow cap mark (ks : list A) t :
  length (fi_order t) + length ks <= cap ->
  length (fi_order (fold_left (fifo_record cap mark) ks t)) <= length (fi_order t) + length ks.
Proof.
  revert t. induction ks as [|x ks IH]; intros t Hl; simpl in *; [lia|].
  pose proof (fifo_record_grow cap mark t x). etrans; [apply IH; lia|lia].
Qed.
End mark_facts.

(** ** Properties of the tracker *)

Section tracker_facts.
Context `{UnicodeTables} `{RegexEngine} `{LiteralIter}.
Implicit Types (t : TaintTracker) (s : string).

Definition session_inv (cap : nat) (e : SessionTaint) : Prop :=
  (fifo_wf (st_fps e) /\ length (fi_order (st_fps e)) <= cap) /\
  (fifo_wf (st_lits e) /\ length (fi_order (st_lits e)) <= cap).

Definition tracker_inv (t : TaintTracker) : Prop :=
  forall s e, tt_sessions t !! s = Some e -> session_inv (tt_cap t) e.

Lemma session_default_inv cap : session_inv cap session_default.
Proof. split; (split; [apply fifo_empty_wf|simpl; lia]). Qed.

Lemma session_entry_inv t s :
  tracker_inv t -> session_inv (tt_cap t) (default session_default (tt_sessions t !! s)).
Proof.
  intros Hinv. destruct (tt_sessions t !! s) as [e|] eqn:E; simpl; [eauto|].
  apply session_default_inv.
Qed.

Lemma record_inv t s seq src text : tracker_inv t -> tracker_inv (record t s seq src text).
Proof.
  intros Hinv. unfold record. case_match; [done|]. intros s' e He. simpl in *.
  destruct (session_entry_inv t s Hinv) as [[Hf Hlf] [Hl Hll]].
  apply lookup_insert_Some in He as [[<- <-]|[_ He]]; [|eauto].
  split; apply fifo_fold_inv; done.
Qed.

Lemma end_session_inv t s : tracker_inv t -> tracker_inv (end_session t s).
Proof. intros Hinv s' e He. simpl in He. apply lookup_delete_Some in He as [_ He]. eauto. Qed.

Lemma taint_run_snoc cap ops op : taint_run cap (ops ++ [op]) = taint_step (taint_run cap ops) op.
Proof. unfold taint_run. by rewrite fold_left_app. Qed.

Lemma taint_run_cap cap ops : tt_cap (taint_run cap ops) = cap.
Proof.
  induction ops as [|op ops IH] using rev_ind; [done|]. rewrite taint_run_snoc.
  destruct op as [s q src text|s]; simpl; [|done]. unfold record. by case_match.
Qed.

Lemma taint_run_inv cap ops : tracker_inv (taint_run cap ops).
Proof.
  induction ops as [|op ops IH] using rev_ind; [intros s e He; unfold taint_run in He; simpl in He; by rewrite lookup_empty in He|].
  rewrite taint_run_snoc. destruct op; [by apply record_inv|by apply end_session_inv].
Qed.

(** Memory bound: after any sequence of operations, a session retains at most
    [cap] fingerprints and [cap] literals. *)
Theorem taint_bounded (cap : nat) (ops : list taint_op) (s : string) :
  len (taint_run cap ops) s <= cap /\ literal_len (taint_run cap ops) s <= cap.
Proof.
  pose proof (taint_run_inv cap ops s) as Hinv. rewrite taint_run_cap in Hinv.
  unfold len, literal_len. destruct (tt_sessions (taint_run cap ops) !! s) as [e|]; [|lia].
  destruct (Hinv e eq_refl) as [[Hf Hlf] [Hl Hll]]. by rewrite !fifo_size.
Qed.

Lemma mark_le_total (a b : TaintMark) : mark_le a b = true \/ mark_le b a = true.
Proof. unfold mark_le. rewrite !Z.leb_le. lia. Qed.

Lemma mark_le_trans (a b c : TaintMark) :
  mark_le a b = true -> mark_le b c = true -> mark_le a c = true.
Proof. unfold mark_le. rewrite !Z.leb_le. lia. Qed.

Lemma head_sorted_min (l : list TaintMark) (m : TaintMark) :
  head (sort_by mark_le l) = Some m <->
  exists rest, sort_by mark_le l = m :: rest /\ m ∈ l /\ forall x, x ∈ l -> (tm_seq m <= tm_seq x)%Z.
Proof.
  split; [|by intros (rest & -> & _)].
  pose proof (sort_by_sorted mark_le mark_le_total mark_le_trans l) as Hs.
  destruct (sort_by mark_le l) as [|y rest] eqn:E; [done|]. intros [= ->]. exists rest.
  assert (forall x, x ∈ m :: rest <-> x ∈ l) as Hel
    by (intros x; rewrite <- E; apply sort_by_elem).
  split; [done|]. split; [apply Hel; left|]. intros x Hx%Hel.
  apply StronglySorted_inv in Hs as [_ Hall]. apply elem_of_cons in Hx as [->|Hx]; [done|].
  rewrite Forall_forall in Hall. apply Z.leb_le, (Hall x Hx).
Qed.

Lemma check_None t s text e :
  tt_sessions t !! s = Some e -> hits e text <> [] -> exists m, check t s text = Some m.
Proof.
  intros He Hh. unfold check. rewrite He.
  destruct (sort_by mark_le (hits e text)) as [|m rest] eqn:E; [|by exists m].
  pose proof (sort_by_perm mark_le (hits e text)) as Hp. rewrite E in Hp.
  by apply Permutation_nil in Hp.
Qed.

(** What makes a mark evidence for a text: it belongs to a retained literal the
    lowercased text contains, or to one of at least [MIN_MATCHES] retained
    fingerprints the text shares. *)
Definition evidence (e : SessionTaint) (text : string) (m : TaintMark) : Prop :=
  (exists lit, fi_marks (st_lits e) !! lit = Some m /\
     Str.contains lit (to_lowercase text) = true) \/
  (exists fp, fp ∈ fingerprints text /\ fi_marks (st_fps e) !! fp = Some m /\
     MIN_MATCHES <= length (omap (fun fp => fi_marks (st_fps e) !! fp) (fingerprints text))).

Lemma hits_evidence `{!LiteralIterLaws} (e : SessionTaint) (text : string) (m : TaintMark) :
  m ∈ hits e text <-> evidence e text m.
Proof.
  unfold hits, evidence. rewrite elem_of_app, list_elem_of_fmap.
  assert (forall lm, lm ∈ List.filter (fun lm => Str.contains lm.1 (to_lowercase text))
      (literal_iter (fi_marks (st_lits e))) <->
    fi_marks (st_lits e) !! lm.1 = Some lm.2 /\ Str.contains lm.1 (to_lowercase text) = true) as Hl.
  { intros [lit m']. rewrite list_elem_of_In, filter_In, <- list_elem_of_In, literal_iter_perm.
    by rewrite elem_of_map_to_list. }
  split.
  - intros [Hm|(lm & -> & Hlm%Hl)]; [right|left; exists lm.1; tauto].
    destruct (Nat.ltb_spec (length (omap (fun fp => fi_marks (st_fps e) !! fp) (fingerprints text)))
      MIN_MATCHES); [by apply elem_of_nil in Hm|].
    apply list_elem_of_omap in Hm as (fp & Hfp & Hm). exists fp. done.
  - intros [(lit & Hm & Hc)|(fp & Hfp & Hm & Hn)].
    + right. exists (lit, m). split; [done|]. by apply Hl.
    + left. destruct (Nat.ltb_spec (length (omap (fun fp => fi_marks (st_fps e) !! fp) (fingerprints text)))
        MIN_MATCHES); [lia|]. apply list_elem_of_omap. eauto.
Qed.

Lemma check_spec `{!LiteralIterLaws} t s text m :
  check t s text = Some m ->
  exists e, tt_sessions t !! s = Some e /\ evidence e text m /\
    forall m', evidence e text m' -> (tm_seq m <= tm_seq m')%Z.
Proof.
  unfold check. destruct (tt_sessions t !! s) as [e|]; [|done].
  intros (rest & _ & Hm & Hmin)%head_sorted_min. exists e.
  split; [done|]. split; [by apply hits_evidence|]. intros m' Hm'%hits_evidence. auto.
Qed.

Lemma check_complete `{!LiteralIterLaws} t s text e m :
  tt_sessions t !! s = Some e -> evidence e text m ->
  exists m', check t s text = Some m' /\ (tm_seq m' <= tm_seq m)%Z.
Proof.
  intros He Hm. destruct (check_None t s text e He) as [m' Hc].
  - apply hits_evidence in Hm. intros Hn. rewrite Hn in Hm. by apply elem_of_nil in Hm.
  - exists m'. split; [done|]. destruct (check_spec t s text m' Hc) as (e' & He' & _ & Hmin).
    simplify_eq. auto.
Qed.

(** The operations of a session since its last end. *)
Fixpoint live_records (s : string) (ops : list taint_op) (acc : list (Z * Provenance * string)) :
    list (Z * Provenance * string) :=
  match ops with
  | [] => acc
  | TRecord s' q src text :: ops' =>
      live_records s ops' (if decide (s = s') then acc ++ [(q, src, text)] else acc)
  | TEnd s' :: ops' => live_records s ops' (if decide (s = s') then [] else acc)
  end.

Lemma live_records_snoc s ops acc op :
  live_records s (ops ++ [op]) acc =
  match op with
  | TRecord s' q src text =>
      if decide (s = s') then live_records s ops acc ++ [(q, src, text)] else live_records s ops acc
  | TEnd s' => if decide (s = s') then [] else live_records s ops acc
  end.
Proof.
  revert acc. induction ops as [|o ops IH]; intros acc; [by destruct op|].
  destruct o; simpl; apply IH.
Qed.

(** Where a mark stored for a key comes from. *)
Definition introduced (s : string) (ops : list taint_op) (m : TaintMark)
    (occurs : string -> Prop) : Prop :=
  exists text, (tm_seq m, tm_source m, text) ∈ live_records s ops [] /\
    trust (tm_source m) = Untrusted /\ occurs text.

Lemma introduced_snoc s ops op m occ :
  (forall s', op = TEnd s' -> s <> s') -> introduced s ops m occ -> introduced s (ops ++ [op]) m occ.
Proof.
  intros Hop (text & Hin & Ht & Ho). exists text. split; [|done].
  rewrite live_records_snoc. destruct op as [s' q src x|s'].
  - case_decide; [|done]. apply elem_of_app. by left.
  - case_decide as Hd; [|done]. by destruct (Hop s' eq_refl).
Qed.

(** Every stored mark names an untrusted source that introduced its fingerprint or
    literal in this session, since the session last ended. *)
Lemma marks_introduced cap ops s e :
  tt_sessions (taint_run cap ops) !! s = Some e ->
  (forall fp m, fi_marks (st_fps e) !! fp = Some m ->
     introduced s ops m (fun text => fp ∈ fingerprints text)) /\
  (forall lit m, fi_marks (st_lits e) !! lit = Some m ->
     introduced s ops m (fun text => lit ∈ literals text)).
Proof.
  revert e. induction ops as [|op ops IH] using rev_ind; intros e He.
  { unfold taint_run in He. simpl in He. by rewrite lookup_empty in He. }
  rewrite taint_run_snoc in He. destruct op as [s' q src text|s']; simpl in He.
  - unfold record in He. destruct (decide (trust src = Untrusted)) as [Ht|Ht].
    2:{ rewrite bool_decide_false in He by done. simpl in He. destruct (IH e He) as [Hf Hl].
        split; intros; apply introduced_snoc; eauto; done. }
    rewrite bool_decide_true in He by done. simpl in He.
    apply lookup_insert_Some in He as [[<- <-]|[Hne He]].
    2:{ destruct (IH e He) as [Hf Hl]. split; intros; apply introduced_snoc; eauto; done. }
    set (old := default session_default (tt_sessions (taint_run cap ops) !! s')) in *.
    assert ((forall fp m, fi_marks (st_fps old) !! fp = Some m ->
       introduced s' ops m (fun text => fp ∈ fingerprints text)) /\
     (forall lit m, fi_marks (st_lits old) !! lit = Some m ->
       introduced s' ops m (fun text => lit ∈ literals text))) as [Hf Hl].
    { subst old. destruct (tt_sessions (taint_run cap ops) !! s') as [e|] eqn:E; [by apply IH|].
      simpl. split; intros k m Hm; by rewrite lookup_empty in Hm. }
    assert (forall occ : string -> Prop, occ text ->
      introduced s' (ops ++ [TRecord s' q src text]) (mkMark src q) occ) as Hnew.
    { intros occ Ho. exists text. rewrite live_records_snoc, decide_True by done.
      split; [apply elem_of_app; right; by left|done]. }
    split; intros k m Hm; simpl in Hm; apply fifo_fold_origin in Hm as [Hm|[Hk ->]]; auto;
      apply introduced_snoc; auto; done.
  - apply lookup_delete_Some in He as [Hne He]. destruct (IH e He) as [Hf Hl].
    split; intros; (apply introduced_snoc; [intros ? [= ->]; congruence|eauto]).
Qed.

(** Soundness of a taint report: [check] only ever names an untrusted source that
    entered the same session since it last ended, whose recorded text shares a
    literal contained in the checked text or a fingerprint with it (with at least
    [MIN_MATCHES] fingerprint hits), and no other evidence is earlier. *)
Theorem check_sound `{!LiteralIterLaws} (cap : nat) (ops : list taint_op) (s text : string)
    (m : TaintMark) :
  check (taint_run cap ops) s text = Some m ->
  introduced s ops m (fun seen =>
    (exists lit, lit ∈ literals seen /\ Str.contains lit (to_lowercase text) = true) \/
    (exists fp, fp ∈ fingerprints seen /\ fp ∈ fingerprints text)) /\
  exists e, tt_sessions (taint_run cap ops) !! s = Some e /\ evidence e text m /\
    forall m', evidence e text m' -> (tm_seq m <= tm_seq m')%Z.
Proof.
  intros Hc. destruct (check_spec _ _ _ _ Hc) as (e & He & Hev & Hmin). split; [|eauto].
  destruct (marks_introduced cap ops s e He) as [Hf Hl].
  destruct Hev as [(lit & Hm & Hct)|(fp & Hfp & Hm & Hn)].
  - destruct (Hl lit m Hm) as (seen & ? & ? & ?). exists seen. eauto 6.
  - destruct (Hf fp m Hm) as (seen & ? & ? & ?). exists seen. eauto 6.
Qed.

(** The literals a list of later operations adds to a session. *)
Fixpoint literal_budget (s : string) (ops : list taint_op) : nat :=
  match ops with
  | [] => 0
  | TRecord s' _ _ text :: ops' =>
      (if decide (s = s') then length (literals text) else 0) + literal_budget s ops'
  | TEnd _ :: ops' => literal_budget s ops'
  end.

Definition lit_order (t : TaintTracker) (s : string) : nat :=
  length (fi_order (st_lits (default session_default (tt_sessions t !! s)))).

Definition holds_literal (t : TaintTracker) (s lit : string) (q : Z) : Prop :=
  exists e m, tt_sessions t !! s = Some e /\ fi_marks (st_lits e) !! lit = Some m /\
    (tm_seq m <= q)%Z.

Lemma record_keeps_literal t s s' q' src text lit q :
  lit_order t s + (if decide (s = s') then length (literals text) else 0) <= tt_cap t ->
  holds_literal t s lit q ->
  holds_literal (record t s' q' src text) s lit q /\
  lit_order (record t s' q' src text) s <=
    lit_order t s + (if decide (s = s') then length (literals text) else 0).
Proof.
  intros Hb (e & m & He & Hm & Hq). unfold record, lit_order in *.
  rewrite He in Hb |- *. simpl in Hb |- *.
  destruct (bool_decide (trust src = Untrusted)); simpl;
    [|split; [by exists e, m|rewrite He; simpl; lia]].
  destruct (decide (s = s')) as [<-|Hne].
  - rewrite ?He, lookup_insert_eq. simpl. split; [|by apply fifo_fold_grow].
    destruct (fifo_fold_keeps (tt_cap t) (mkMark src q') (literals text) (st_lits e) lit m)
      as (m' & Hm' & Hle); [done|done|].
    unfold holds_literal. simpl. rewrite lookup_insert_eq.
    eexists _, m'. split; [done|]. split; [done|lia].
  - rewrite lookup_insert_ne by done. rewrite He. simpl. split; [|lia].
    exists e, m. simpl. by rewrite lookup_insert_ne by done.
Qed.

Lemma steps_keep_literal t s lit q (ops : list taint_op) :
  lit_order t s + literal_budget s ops <= tt_cap t ->
  (forall s', TEnd s' ∈ ops -> s' <> s) ->
  holds_literal t s lit q ->
  holds_literal (fold_left taint_step ops t) s lit q.
Proof.
  revert t. induction ops as [|[s' q' src text|s'] ops IH]; intros t Hb Hend Hh; simpl in *; [done| |].
  - destruct (record_keeps_literal t s s' q' src text lit q) as [Hh' Hl]; [lia|done|].
    assert (tt_cap (record t s' q' src text) = tt_cap t) as Hcap
      by (unfold record; by destruct (bool_decide _)).
    apply IH; [rewrite Hcap; lia|set_solver|done].
  - assert (s' <> s) as Hne by (apply Hend; left).
    apply IH; [|set_solver|].
    + unfold lit_order, end_session in *. simpl. by rewrite lookup_delete_ne.
    + destruct Hh as (e & m & He & Hrest). exists e, m. simpl. by rewrite lookup_delete_ne.
Qed.

(** Completeness for literals: once untrusted content with a distinctive literal
    was recorded, any later text whose lowercase form contains the literal is
    reported tainted by a source at least as early, as long as the session did not
    end and the literals recorded fit in [cap]. *)
Lemma recorded_literal_caught `{!LiteralIterLaws} (t : TaintTracker) (s : string) (q : Z)
    (src : Provenance) (page : string) (later : list taint_op) (lit text : string) :
  trust src = Untrusted -> lit ∈ literals page ->
  lit_order t s + length (literals page) + literal_budget s later <= tt_cap t ->
  (forall s', TEnd s' ∈ later -> s' <> s) ->
  Str.contains lit (to_lowercase text) = true ->
  exists m, check (fold_left taint_step later (record t s q src page)) s text = Some m /\
    (tm_seq m <= q)%Z.
Proof.
  intros Ht Hlit Hb Hend Hc.
  assert (holds_literal (record t s q src page) s lit q /\
    lit_order (record t s q src page) s <= lit_order t s + length (literals page) /\
    tt_cap (record t s q src page) = tt_cap t) as (Hh & Hl & Hcap).
  { unfold record, lit_order in *. rewrite bool_decide_true by done. simpl.
    rewrite lookup_insert_eq. simpl. set (old := default _ _) in *.
    destruct (fifo_fold_adds (tt_cap t) (mkMark src q) (literals page) (st_lits old) lit)
      as (m & Hm & Hle); [lia|done|].
    split; [|split; [|done]].
    - unfold holds_literal. simpl. rewrite lookup_insert_eq. eexists _, m. done.
    - apply fifo_fold_grow. lia. }
  destruct (steps_keep_literal (record t s q src page) s lit q later)
    as (e & m & He & Hm & Hq); [lia|done|done|].
  destruct (check_complete _ s text e m He) as (m' & Hc' & Hle); [left; eauto|].
  exists m'. split; [done|lia].
Qed.

(** Sessions do not see each other, and an ended session reports nothing. *)
Theorem check_isolated t (s s' text page : string) (q : Z) (src : Provenance) :
  s <> s' ->
  check (record t s' q src page) s text = check t s text /\
  check (end_session t s') s text = check t s text /\
  check (end_session t s) s text = None.
Proof.
  intros Hne. unfold check, record, end_session. split_and!; simpl.
  - destruct (bool_decide (trust src = Untrusted)); [|done]. simpl.
    by rewrite lookup_insert_ne by done.
  - by rewrite lookup_delete_ne.
  - by rewrite lookup_delete_eq.
Qed.

(** What the human or the local machine said never taints. *)
Theorem trusted_not_recorded t (s text : string) (q : Z) (src : Provenance) :
  trust src <> Untrusted -> record t s q src text = t.
Proof. intros Ht. unfold record. by rewrite bool_decide_false. Qed.

(** [is_empty] is exactly "nothing can be reported". *)
Theorem is_empty_check_none `{!LiteralIterLaws} t (s text : string) :
  is_empty t s = true -> check t s text = None.
Proof.
  intros He. destruct (check t s text) as [m|] eqn:Hc; [|done].
  destruct (check_spec t s text m Hc) as (e & Hs & Hev & _). unfold is_empty in He.
  rewrite Hs in He. apply andb_prop in He as [Hf%bool_decide_eq_true Hl%bool_decide_eq_true].
  destruct Hev as [(lit & Hm & _)|(fp & _ & Hm & _)].
  - by rewrite Hl, lookup_empty in Hm.
  - by rewrite Hf, lookup_empty in Hm.
Qed.
End tracker_facts.
