(* ===== verification/Action.v ===== *)
(** How dangerous a tool call is ([crates/agent/src/action.rs]): the most severe
    class whose pattern matches, above a baseline by tool name. *)
From S2P Require Import Prelude BTree Platform F32 Json CoreTypes Event.
From Stdlib Require Import String Ascii.

Inductive ActionClass := ReadOnly | SideEffecting | NetworkAction | PrivilegeChanging | Destructive.

#[export] Instance ActionClass_eq_dec : EqDecision ActionClass.
Proof. solve_decision. Defined.

(** Declaration order, from which [Ord] derives. *)
Definition class_rank (c : ActionClass) : nat :=
  match c with
  | ReadOnly => 0 | SideEffecting => 1 | NetworkAction => 2
  | PrivilegeChanging => 3 | Destructive => 4
  end.

Definition class_ge (a b : ActionClass) : bool := class_rank b <=? class_rank a.

Definition READ_ONLY_TOOLS : list string := ["Read"; "Grep"; "Glob"; "NotebookRead"; "TodoRead"].
Definition RETRIEVAL_TOOLS : list string := ["WebFetch"; "WebSearch"].

Record Patterns := mkPatterns {
  destructive : string;
  privilege : string;
  network : string;
  write : string;
  priv_paths : string
}.

Definition patterns : Patterns := {|
  destructive := "(?ix)
              \brm\s+(-[a-z]*\s+)*-[a-z]*[rf]  # rm -rf / rm -fr
            | \bgit\s+push\b[^|;&\n]*--force
            | \bgit\s+reset\s+--hard
            | \bdrop\s+(table|database)\b
            | \btruncate\s+table\b
            | \bmkfs(\.[a-z0-9]+)?\b
            | \bdd\s+if=.*\bof=/dev/
            | \|\s*(sudo\s+)?(ba)?sh\b                # curl ... | sh
            | \bshutdown\b | \breboot\b
            ";
  privilege := "(?ix)
              \bsudo\b | \bsu\s+-\b
            | \bchmod\b | \bchown\b
            | \bsetcap\b | \bvisudo\b
            ";
  network := "(?ix)
              \bcurl\b[^|;&\n]*(?:--data|--data-\w+|--form|--upload-file
                                |-X\s*(?:POST|PUT|PATCH|DELETE)
                                |(?-i:-d\b|-F\b|-T\b))
            | \bwget\b[^|;&\n]*(--post-data|--post-file|--method\s*=\s*(POST|PUT))
            # nc/ncat only count as egress in command position (start of the joined
            # text, or right after a pipe, semicolon, &&, or newline). A bare
            # \bnc\b matched the substring nc anywhere -- inside grep -rn 'nc' src/,
            # cat nc.md, ls nc, prose containing the word nc -- none of which
            # invoke the netcat binary.
            | (?:^|[|;\n]|&&)\s*(?:sudo\s+)?(?:nc|ncat)\b
            | \bscp\b | \brsync\b            # both copy data to a destination
            | \bgit\s+push\b
            | \b(npm|pip|pip3|cargo|gem|go)\s+publish\b
            | \bcargo\s+publish\b
            | \baws\s+s3\s+(cp|sync|mv)\b
            # Cheap, well-known egress channels beyond curl/wget/scp/rsync. Not
            # exhaustive by design -- closing every possible exfil tool is a losing
            # game; these are the ones common enough in agent environments to be
            # worth the fixed cost. gh in particular ships in essentially every
            # coding-agent sandbox, and gh gist create is a one-line public write.
            | \bgh\s+(gist\s+create|issue\s+comment|pr\s+create|release\s+upload
                     |api\b[^|;&\n]*-(f|-field|-input))
            | \baws\s+s3api\s+put-object\b
            | \b(xh|https?ie|http)\s+(POST|PUT|PATCH)\b
            | >\s*/dev/tcp/
            | \bssh\b[^|;&\n]*<
            ";
  write := "(?ix)
              \bmkdir\b | \btouch\b | \bmv\b | \bcp\b | \btee\b | \bsed\s+-i\b
            | >{1,2}\s*\S
            | \brm\b
            | \bgit\s+(commit|add|checkout|merge|rebase)\b
            ";
  priv_paths := "(?ix)
              /\.ssh/ | /\.aws/ | /\.gnupg/
            | /\.config/gcloud(?:/|$|[^a-z0-9_])
            | /etc/(passwd|shadow|sudoers)
            | \.env(?:\.|$|[^a-z0-9_]) | /\.npmrc | /\.netrc
            | authorized_keys | id_rsa | credentials
            "
|}.

Definition args_text (args : Value) : string := Str.join " " (string_leaves args).

Definition bump (class c : ActionClass) : ActionClass :=
  if class_rank class <? class_rank c then c else class.

Section action.
Context `{RegexEngine}.

Definition touches_sensitive_path (args : Value) : bool :=
  is_match (priv_paths patterns) (args_text args).

Definition classify_with_baseline (args : Value) (baseline : ActionClass) : ActionClass :=
  let p := patterns in
  let text := args_text args in
  let class := baseline in
  let class := if is_match (write p) text then bump class SideEffecting else class in
  let class := if is_match (network p) text then bump class NetworkAction else class in
  let already_acting := class_ge class SideEffecting in
  let class := if is_match (privilege p) text || (already_acting && is_match (priv_paths p) text)
               then bump class PrivilegeChanging else class in
  if is_match (destructive p) text then bump class Destructive else class.

Definition classify (tool : string) (args : Value) : ActionClass :=
  let baseline :=
    if bool_decide (tool ∈ READ_ONLY_TOOLS) || bool_decide (tool ∈ RETRIEVAL_TOOLS) then ReadOnly
    else if bool_decide (tool = "Bash") then ReadOnly
    else SideEffecting in
  classify_with_baseline args baseline.

(** ** Properties *)

(** The class [c] applies to the arguments, given the baseline. *)
Definition applies (args : Value) (baseline c : ActionClass) : Prop :=
  let text := args_text args in
  let on re := is_match re text = true in
  match c with
  | ReadOnly => True
  | SideEffecting => on (write patterns)
  | NetworkAction => on (network patterns)
  | PrivilegeChanging =>
      on (privilege patterns) \/
      (touches_sensitive_path args = true /\
       (baseline <> ReadOnly \/ on (write patterns) \/ on (network patterns)))
  | Destructive => on (destructive patterns)
  end.

Lemma class_rank_inj (a b : ActionClass) : class_rank a = class_rank b -> a = b.
Proof. by destruct a, b. Qed.

(** The class is the maximum of the baseline and of every class that applies: it
    is one of them and none of them is more severe.  A sensitive path raises the
    class only of calls that act. *)
Theorem classify_is_max (args : Value) (baseline : ActionClass) :
  let r := classify_with_baseline args baseline in
  (r = baseline \/ applies args baseline r) /\
  class_rank baseline <= class_rank r /\
  forall c, applies args baseline c -> class_rank c <= class_rank r.
Proof.
  unfold classify_with_baseline, applies, touches_sensitive_path, class_ge, bump.
  destruct (is_match (write patterns) _), (is_match (network patterns) _),
    (is_match (privilege patterns) _), (is_match (priv_paths patterns) _),
    (is_match (destructive patterns) _), baseline; simpl;
    (split_and!; [naive_solver|lia|intros []; simpl; intros; (lia || naive_solver)]).
Qed.

(** A read-only tool whose arguments match no acting pattern stays read-only, even
    on a credential path. *)
Theorem reading_is_not_acting (tool : string) (args : Value) :
  tool ∈ READ_ONLY_TOOLS ++ RETRIEVAL_TOOLS ->
  is_match (write patterns) (args_text args) = false ->
  is_match (network patterns) (args_text args) = false ->
  is_match (privilege patterns) (args_text args) = false ->
  is_match (destructive patterns) (args_text args) = false ->
  classify tool args = ReadOnly.
Proof.
  intros Ht Hw Hn Hp Hd. unfold classify, classify_with_baseline. rewrite Hw, Hn, Hp, Hd.
  apply elem_of_app in Ht as [Ht|Ht].
  - by rewrite (bool_decide_true _ Ht).
  - rewrite (bool_decide_true (tool ∈ RETRIEVAL_TOOLS) Ht), orb_true_r. done.
Qed.
End action.
