(* ===== verification/Egress.v ===== *)
(** Network destinations of a tool call ([crates/agent/src/egress.rs]) and the
    allowlist test. *)
From S2P Require Import Prelude BTree Platform F32 Json Event Action.
From Stdlib Require Import String Ascii.

Definition URL_RE : string :=
  "(?i)\b[a-z][a-z0-9+.-]*://([a-z0-9._~%-]+(?::[a-z0-9._~%-]+)?@)?(\[[0-9a-f:]+\]|[a-z0-9.-]+)".
Definition SCP_RE : string := "(?i)\b[a-z0-9._-]+@([a-z0-9-]+(?:\.[a-z0-9-]+)+):".

Definition is_dot (a : ascii) : bool := bool_decide (a = "."%char).

(** [s.strip_suffix(']')]. *)
Fixpoint strip_suffix_char (c : ascii) (s : string) : option string :=
  match s with
  | EmptyString => None
  | String a EmptyString => if bool_decide (a = c) then Some EmptyString else None
  | String a s' => String a <$> strip_suffix_char c s'
  end.

Section egress.
Context `{UnicodeTables} `{RegexEngine}.

Definition normalize_url_host (host : string) : option string :=
  let h := Str.trim host in
  match (r ← Str.strip_prefix "[" h; strip_suffix_char "]" r) with
  | Some addr => if Str.is_empty addr then None else Some (to_lowercase addr)
  | None =>
      let h := to_lowercase (Str.trim_end_matches is_dot h) in
      let h := default h (head (Str.split_char ":" h)) in
      if Str.is_empty h then None else Some h
  end.

Definition normalize_bare_host (host : string) : option string :=
  let h := to_lowercase (Str.trim_end_matches is_dot (Str.trim host)) in
  let h := default h (head (Str.split_char ":" h)) in
  if Str.is_empty h || negb (Str.contains "." h) then None else Some h.

Definition hosts (args : Value) : list string :=
  let text := Str.join " " (string_leaves args) in
  let url_hosts := omap (fun c => m ← group 2 c; normalize_url_host (slice text m))
                        (captures_iter URL_RE text) in
  let scp_hosts := omap (fun c => m ← group 1 c; normalize_bare_host (slice text m))
                        (captures_iter SCP_RE text) in
  BSet.of_list (url_hosts ++ scp_hosts).

(** Both sides of the allowlist comparison. *)
Definition canonical_host (h : string) : string :=
  to_lowercase (Str.trim_end_matches is_dot (Str.trim h)).

Definition is_allowed (host : string) (allowlist : list string) : bool :=
  let host := canonical_host host in
  existsb (fun a =>
    let a := canonical_host a in
    bool_decide (host = a) || Str.ends_with ("." +:+ a) host) allowlist.

(** ** Properties *)

(** The allowlist admits a host exactly when it is an entry or a proper subdomain
    of one, on a dot boundary. *)
Theorem is_allowed_spec (host : string) (allowlist : list string) :
  is_allowed host allowlist = true <->
  exists a, a ∈ allowlist /\
    (canonical_host host = canonical_host a \/
     exists sub, canonical_host host = sub +:+ "." +:+ canonical_host a).
Proof.
  unfold is_allowed. rewrite existsb_exists. setoid_rewrite <- list_elem_of_In.
  setoid_rewrite orb_true_iff. setoid_rewrite bool_decide_eq_true.
  by setoid_rewrite Str.ends_with_spec.
Qed.

(** Destinations are reported once each, in order, and every one comes from a
    captured URL or scp target. *)
Theorem hosts_spec (args : Value) :
  BSet.wf (hosts args) /\ NoDup (hosts args) /\
  forall h, h ∈ hosts args <->
    (exists c m, c ∈ captures_iter URL_RE (args_text args) /\ group 2 c = Some m /\
       normalize_url_host (slice (args_text args) m) = Some h) \/
    (exists c m, c ∈ captures_iter SCP_RE (args_text args) /\ group 1 c = Some m /\
       normalize_bare_host (slice (args_text args) m) = Some h).
Proof.
  assert (BSet.wf (hosts args)) as Hwf by apply BSet.bset_of_list_wf.
  split_and!; [done|by apply BSet.bset_wf_NoDup|]. intros h. unfold hosts.
  rewrite BSet.bset_elem_of_of_list, elem_of_app, !list_elem_of_omap.
  fold (args_text args). split.
  - intros [(c & Hc & (m & Hm & Hn)%bind_Some)|(c & Hc & (m & Hm & Hn)%bind_Some)];
      [left|right]; by exists c, m.
  - intros [(c & m & Hc & Hm & Hn)|(c & m & Hc & Hm & Hn)]; [left|right];
      (exists c; split; [done|by rewrite Hm]).
Qed.

(** A bare host always has a dot; a normalized host is never empty. *)
Lemma normalize_bare_host_dot (h r : string) :
  normalize_bare_host h = Some r -> r <> EmptyString /\ Str.contains "." r = true.
Proof.
  unfold normalize_bare_host. set (x := default _ _). clearbody x.
  destruct (Str.is_empty x) eqn:E1; [done|]. destruct (Str.contains "." x) eqn:E2; [|done].
  simpl. intros [= <-]. split; [|done]. by intros ->.
Qed.
End egress.

(** A look-alike domain is not a subdomain. *)
Theorem is_allowed_boundary :
  @is_allowed ascii_tables "github.com.evil.com" ["github.com"] = false /\
  @is_allowed ascii_tables "evilgithub.com" ["github.com"] = false /\
  @is_allowed ascii_tables "API.GitHub.com." ["github.com"] = true.
Proof. by vm_compute. Qed.
