(* ===== verification/AgentPolicy.v ===== *)
(** The agent policy engine ([crates/agent/src/policy.rs]) and the policy shipped
    with the crate ([crates/agent/policies/agent-default.yaml]).  The YAML reader
    is [serde_yaml]: a parameter that yields the raw rules. *)
From S2P Require Import Prelude BTree Platform F32 Json CoreTypes CorePolicy.
From S2P Require Import Event Action Egress Taint.
From Stdlib Require Import String Ascii.

Inductive Verdict := Allow | Ask | Deny | Escalate.

#[export] Instance Verdict_eq_dec : EqDecision Verdict.
Proof. solve_decision. Defined.

Inductive TaintSource := TSNetwork | TSMcp | TSSubagent | TSNative.

Definition source_matches (t : TaintSource) (p : Provenance) : bool :=
  match t, p with
  | TSNetwork, Network _ | TSMcp, McpServer _ | TSSubagent, Subagent _ | TSNative, Native _ _ => true
  | _, _ => false
  end.

Record Signals := mkSignals {
  s_action_class : option ActionClass;
  s_taint : option TaintMark;
  s_findings : list (Facet * Finding);
  s_risk_score : Z;
  s_egress_hosts : list string;
  s_subagent_escalation : bool;
  s_touches_sensitive_path : bool;
  s_mcp_manifest_changed : bool;
  s_mcp_tool_shadow : bool
}.

(** [Signals { findings, risk_score, ..Default::default() }]. *)
Definition signals_base (findings : list (Facet * Finding)) (risk_score : Z) : Signals :=
  mkSignals None None findings risk_score [] false false false false.

Record AgentCondition := mkCond {
  a_taint : option (list TaintSource);
  a_action_class : option ActionClass;
  a_min_action_class : option ActionClass;
  a_detector : option string;
  a_facet : option Facet;
  a_min_severity : option Severity;
  a_risk_score_gte : option Z;
  a_egress_not_allowlisted : option bool;
  a_subagent_escalation : option bool;
  a_touches_sensitive_path : option bool;
  a_mcp_manifest_changed : option bool;
  a_mcp_tool_shadow : option bool
}.

(** [AgentCondition::default()]: no sub-condition. *)
Definition cond_any : AgentCondition :=
  mkCond None None None None None None None None None None None None.

Record RawAgentRule := mkRawRule {
  rr_name : string;
  rr_when : AgentCondition;
  rr_action : Verdict;
  rr_message : option string;
  rr_fallback : option Verdict
}.

Record AgentRule := mkAgentRule {
  ar_name : string;
  ar_when : AgentCondition;
  ar_action : Verdict;
  ar_message : option string;
  ar_fallback : option Verdict
}.

(** Why a policy is rejected; the source formats each as a message. *)
Inductive PolicyError :=
| FallbackRequired (rule : string)
| FallbackEscalate (rule : string)
| FallbackDeny (rule : string)
| FallbackWithoutEscalate (rule : string)
| DefaultEscalate
| YamlError (message : string).

Definition try_from (r : RawAgentRule) : result AgentRule PolicyError :=
  let ok := Ok (mkAgentRule (rr_name r) (rr_when r) (rr_action r) (rr_message r) (rr_fallback r)) in
  match rr_action r, rr_fallback r with
  | Escalate, None => Err (FallbackRequired (rr_name r))
  | Escalate, Some Escalate => Err (FallbackEscalate (rr_name r))
  | Escalate, Some Deny => Err (FallbackDeny (rr_name r))
  | Escalate, Some (Allow | Ask) => ok
  | _, Some _ => Err (FallbackWithoutEscalate (rr_name r))
  | _, None => ok
  end.

Record AgentPolicySet := mkAgentPolicySet {
  agent_policies : list AgentRule;
  egress_allowlist : list string;
  ap_default : Verdict
}.

Record AgentDecision := mkAgentDecision {
  ad_verdict : Verdict;
  ad_rule : option string;
  ad_message : option string;
  ad_fallback : option Verdict
}.

(** The document as the YAML reader yields it, with [serde]'s defaults applied. *)
Record RawPolicySet := mkRawSet {
  rs_policies : list RawAgentRule;
  rs_allowlist : list string;
  rs_default : Verdict
}.

Fixpoint try_rules (rs : list RawAgentRule) : result (list AgentRule) PolicyError :=
  match rs with
  | [] => Ok []
  | r :: rs' => let? a := try_from r in let? l := try_rules rs' in Ok (a :: l)
  end.

Definition from_yaml (serde_yaml : string -> result RawPolicySet string) (s : string) :
    result AgentPolicySet PolicyError :=
  match serde_yaml s with
  | Err e => Err (YamlError e)
  | Ok raw =>
      let? rules := try_rules (rs_policies raw) in
      let p := mkAgentPolicySet rules (rs_allowlist raw) (rs_default raw) in
      bail_if (bool_decide (ap_default p = Escalate)) with DefaultEscalate in Ok p
  end.

(** A boolean condition: absent, or equal to the signal. *)
Definition flag_ok (want : option bool) (have : bool) : bool :=
  match want with Some w => Bool.eqb have w | None => true end.

(** The closure over one [(facet, finding)] pair. *)
Definition agent_finding_matches (c : AgentCondition) (ff : Facet * Finding) : bool :=
  let facet_ok := match a_facet c with Some w => bool_decide (w = ff.1) | None => true end in
  let det_ok := match a_detector c with
                | Some d => detector_matches d (f_detector ff.2) | None => true end in
  let sev_ok := match a_min_severity c with
                | Some m => sev_ge (f_severity ff.2) m | None => true end in
  facet_ok && det_ok && sev_ok.

Section policy.
Context `{UnicodeTables}.

(** The early returns of the source, in order, as a conjunction. *)
Definition matches (p : AgentPolicySet) (c : AgentCondition) (s : Signals) : bool :=
  match a_taint c with
  | Some sources =>
      match s_taint s with
      | None => false
      | Some mark => existsb (fun t => source_matches t (tm_source mark)) sources
      end
  | None => true
  end
  && match a_action_class c with
     | Some exact => bool_decide (s_action_class s = Some exact) | None => true end
  && match a_min_action_class c with
     | Some m => match s_action_class s with Some a => class_ge a m | None => false end
     | None => true
     end
  && match a_risk_score_gte c with Some m => negb (s_risk_score s <? m)%Z | None => true end
  && (if bool_decide (is_Some (a_detector c)) || bool_decide (is_Some (a_min_severity c))
         || bool_decide (is_Some (a_facet c))
      then existsb (agent_finding_matches c) (s_findings s) else true)
  && (if bool_decide (a_egress_not_allowlisted c = Some true)
      then existsb (fun h => negb (is_allowed h (egress_allowlist p))) (s_egress_hosts s) else true)
  && flag_ok (a_subagent_escalation c) (s_subagent_escalation s)
  && flag_ok (a_touches_sensitive_path c) (s_touches_sensitive_path s)
  && flag_ok (a_mcp_manifest_changed c) (s_mcp_manifest_changed s)
  && flag_ok (a_mcp_tool_shadow c) (s_mcp_tool_shadow s).

Fixpoint evaluate_agent_rules (p : AgentPolicySet) (rules : list AgentRule) (s : Signals) :
    AgentDecision :=
  match rules with
  | [] => mkAgentDecision (ap_default p) None None None
  | r :: rules' =>
      if matches p (ar_when r) s
      then mkAgentDecision (ar_action r) (Some (ar_name r)) (ar_message r) (ar_fallback r)
      else evaluate_agent_rules p rules' s
  end.

Definition agent_evaluate (p : AgentPolicySet) (s : Signals) : AgentDecision :=
  evaluate_agent_rules p (agent_policies p) s.
End policy.

(** ** The shipped policy *)

Definition any_untrusted : option (list TaintSource) := Some [TSNetwork; TSMcp; TSSubagent; TSNative].

(** Setters for the conditions of the file, over [cond_any]. *)
Definition when_taint_class (c : ActionClass) : AgentCondition :=
  mkCond any_untrusted (Some c) None None None None None None None None None None.
Definition when_taint_min (c : ActionClass) : AgentCondition :=
  mkCond any_untrusted None (Some c) None None None None None None None None None.
Definition when_egress (detector : string) : AgentCondition :=
  mkCond None None (Some NetworkAction) (Some detector) (Some FToolArgs) None None None None None None None.
Definition when_injection (f : Facet) (sev : Severity) : AgentCondition :=
  mkCond None None None (Some "injection") (Some f) (Some sev) None None None None None None.

Definition default_rules : list AgentRule := [
  mkAgentRule "deny-tainted-destructive" (when_taint_class Destructive) Deny
    (Some "Blocked: destructive action derived from untrusted content") None;
  mkAgentRule "deny-tainted-privilege" (when_taint_class PrivilegeChanging) Deny
    (Some "Blocked: privilege change derived from untrusted content") None;
  mkAgentRule "deny-subagent-escalation"
    (mkCond None None None None None None None None (Some true) None None None) Deny
    (Some "Blocked: subagent requested tools beyond its parent's grant") None;
  mkAgentRule "deny-secret-egress" (when_egress "secret") Deny
    (Some "Blocked: secret in the arguments of a network call") None;
  mkAgentRule "ask-sensitive-path-egress"
    (mkCond None None (Some NetworkAction) None None None None None None (Some true) None None) Ask
    (Some "This call sends data and references a credential path. Allow?") None;
  mkAgentRule "ask-pii-egress" (when_egress "pii") Ask
    (Some "This call sends personal data to an external host. Allow?") None;
  mkAgentRule "ask-injection-in-result" (when_injection FToolResult High) Ask
    (Some "The content this tool returned contains instructions aimed at the agent. Continue?") None;
  mkAgentRule "ask-injection-in-tool-description" (when_injection FToolDescription Medium) Ask
    (Some "An MCP tool description contains instructions aimed at the agent. Trust this server?") None;
  mkAgentRule "ask-manifest-drift"
    (mkCond None None None None None None None None None None (Some true) None) Ask
    (Some "An MCP server's tool manifest changed since it was pinned. Review the diff before trusting it.")
    None;
  mkAgentRule "ask-tool-shadow"
    (mkCond None None None None None None None None None None None (Some true)) Ask
    (Some "This MCP server declares a tool name that collides with another tool. Allow?") None;
  mkAgentRule "ask-unknown-host"
    (mkCond None None None None None None None (Some true) None None None None) Ask
    (Some "This call reaches a host that is not on the allowlist. Allow?") None;
  mkAgentRule "escalate-tainted-side-effect" (when_taint_min SideEffecting) Escalate
    (Some "This action uses content fetched earlier from an untrusted source.") (Some Allow)
].

Definition default_policy : AgentPolicySet := mkAgentPolicySet default_rules
  ["api.anthropic.com"; "github.com"; "raw.githubusercontent.com"; "registry.npmjs.org";
   "crates.io"; "static.crates.io"; "pypi.org"; "localhost"; "127.0.0.1"; "::1"]
  Allow.

(** ** Properties *)

(** A rule that [try_from] accepted: a fallback exactly for [Escalate], and then
    [Allow] or [Ask]. *)
Definition rule_ok (r : AgentRule) : Prop :=
  match ar_fallback r with
  | Some f => ar_action r = Escalate /\ (f = Allow \/ f = Ask)
  | None => ar_action r <> Escalate
  end.

Definition policy_ok (p : AgentPolicySet) : Prop :=
  Forall rule_ok (agent_policies p) /\ ap_default p <> Escalate.

Lemma try_from_ok (r : RawAgentRule) (a : AgentRule) : try_from r = Ok a -> rule_ok a.
Proof.
  unfold try_from, rule_ok. destruct (rr_action r) eqn:Ea, (rr_fallback r) as [[]|] eqn:Ef;
    try done; intros [= <-]; simpl; rewrite ?Ef, ?Ea; eauto.
Qed.

Lemma try_rules_ok (rs : list RawAgentRule) (l : list AgentRule) :
  try_rules rs = Ok l -> Forall rule_ok l.
Proof.
  revert l. induction rs as [|r rs IH]; intros l; simpl; [by intros [= <-]|].
  destruct (try_from r) as [a|] eqn:Ea; [|done]. destruct (try_rules rs) as [l'|]; [|done].
  intros [= <-]. constructor; [by eapply try_from_ok|by apply IH].
Qed.

Lemma from_yaml_ok serde_yaml s p : from_yaml serde_yaml s = Ok p -> policy_ok p.
Proof.
  unfold from_yaml. destruct (serde_yaml s) as [raw|]; [|done].
  destruct (try_rules _) as [rules|] eqn:Er; [|done]. simpl.
  case_bool_decide; [done|]. intros [= <-]. split; [by eapply try_rules_ok|done].
Qed.

Section policy_facts.
Context `{UnicodeTables}.

Lemma evaluate_agent_rules_spec (p : AgentPolicySet) (rules : list AgentRule) (s : Signals) :
  (exists pre r post, rules = pre ++ r :: post /\
     Forall (fun r' => matches p (ar_when r') s = false) pre /\
     matches p (ar_when r) s = true /\
     evaluate_agent_rules p rules s
       = mkAgentDecision (ar_action r) (Some (ar_name r)) (ar_message r) (ar_fallback r)) \/
  (Forall (fun r => matches p (ar_when r) s = false) rules /\
     evaluate_agent_rules p rules s = mkAgentDecision (ap_default p) None None None).
Proof.
  induction rules as [|r rules IH]; [by right|]. simpl.
  destruct (matches p (ar_when r) s) eqn:E.
  - left. exists [], r, rules. done.
  - destruct IH as [(pre & r' & post & -> & Hpre & Hok & Heq)|[Hall Heq]].
    + left. exists (r :: pre), r', post. split_and!; [done|by constructor|done|done].
    + right. split; [by constructor|done].
Qed.

Lemma evaluate_fallback (p : AgentPolicySet) (s : Signals) :
  policy_ok p ->
  let d := agent_evaluate p s in
  match ad_fallback d with
  | Some f => ad_verdict d = Escalate /\ (f = Allow \/ f = Ask) /\ is_Some (ad_rule d)
  | None => ad_verdict d <> Escalate
  end.
Proof.
  intros [Hrules Hdef]. unfold agent_evaluate.
  destruct (evaluate_agent_rules_spec p (agent_policies p) s)
    as [(pre & r & post & Heq & _ & _ & ->)|[_ ->]]; simpl; [|done].
  rewrite Forall_forall in Hrules. specialize (Hrules r). rewrite Heq in Hrules.
  assert (rule_ok r) as Hr by (apply Hrules; set_solver). unfold rule_ok in Hr.
  destruct (ar_fallback r); naive_solver.
Qed.

(** Every policy that loads keeps the escalation contract: a decision carries a
    fallback exactly when its verdict is [Escalate], and the fallback is [Allow] or
    [Ask]; a decision with no rule never escalates. *)
Theorem escalate_has_fallback (serde_yaml : string -> result RawPolicySet string) (doc : string)
    (p : AgentPolicySet) (s : Signals) :
  from_yaml serde_yaml doc = Ok p ->
  let d := agent_evaluate p s in
  match ad_fallback d with
  | Some f => ad_verdict d = Escalate /\ (f = Allow \/ f = Ask) /\ is_Some (ad_rule d)
  | None => ad_verdict d <> Escalate
  end.
Proof.
  intros Hy. apply evaluate_fallback. by eapply from_yaml_ok.
Qed.

(** Strictness of a verdict, for ordering rules. *)
Definition verdict_strictness (v : Verdict) : nat :=
  match v with Deny => 3 | Ask => 2 | Escalate => 1 | Allow => 0 end.

Lemma evaluate_strictest_rules (p : AgentPolicySet) (rules : list AgentRule) (s : Signals) (r : AgentRule) :
  StronglySorted (fun a b => verdict_strictness (ar_action b) <= verdict_strictness (ar_action a)) rules ->
  r ∈ rules -> matches p (ar_when r) s = true ->
  verdict_strictness (ar_action r) <= verdict_strictness (ad_verdict (evaluate_agent_rules p rules s)).
Proof.
  intros Hs. induction Hs as [|x rules Hs IH Hall]; [by intros []%elem_of_nil|].
  intros [->|Hin]%elem_of_cons Hm; simpl.
  - by rewrite Hm.
  - destruct (matches p (ar_when x) s); [|by apply IH].
    rewrite Forall_forall in Hall. by apply Hall.
Qed.

Lemma default_rules_sorted :
  StronglySorted (fun a b => verdict_strictness (ar_action b) <= verdict_strictness (ar_action a))
    default_rules.
Proof. unfold default_rules. repeat constructor; simpl; lia. Qed.

(** The shipped policy never lets a weaker verdict pre-empt a stronger one: the
    decision is at least as strict as every rule that matches. *)
Theorem default_policy_strictest (s : Signals) (r : AgentRule) :
  r ∈ default_rules -> matches default_policy (ar_when r) s = true ->
  verdict_strictness (ar_action r) <= verdict_strictness (ad_verdict (agent_evaluate default_policy s)).
Proof.
  apply evaluate_strictest_rules, default_rules_sorted.
Qed.

Lemma any_untrusted_spec (mark : TaintMark) :
  trust (tm_source mark) = Untrusted ->
  existsb (fun t => source_matches t (tm_source mark)) [TSNetwork; TSMcp; TSSubagent; TSNative] = true.
Proof. by destruct mark as [[] ?]. Qed.

Lemma default_denies_tainted (s : Signals) (mark : TaintMark) (c : ActionClass) :
  s_taint s = Some mark -> trust (tm_source mark) = Untrusted ->
  s_action_class s = Some c -> c = Destructive \/ c = PrivilegeChanging ->
  ad_verdict (agent_evaluate default_policy s) = Deny.
Proof.
  intros Ht Hu Hc Hd. unfold agent_evaluate, default_policy. cbn [agent_policies default_rules evaluate_agent_rules].
  cbn [ar_when]. unfold matches at 1 2.
  cbn [when_taint_class a_taint a_action_class a_min_action_class a_risk_score_gte a_detector
       a_min_severity a_facet a_egress_not_allowlisted a_subagent_escalation
       a_touches_sensitive_path a_mcp_manifest_changed a_mcp_tool_shadow flag_ok any_untrusted].
  rewrite Ht, Hc, any_untrusted_spec by done.
  by destruct Hd as [-> | ->].
Qed.

Lemma default_denies_escalation (s : Signals) :
  s_subagent_escalation s = true -> ad_verdict (agent_evaluate default_policy s) = Deny.
Proof.
  intros He.
  set (r := mkAgentRule "deny-subagent-escalation"
    (mkCond None None None None None None None None (Some true) None None None) Deny
    (Some "Blocked: subagent requested tools beyond its parent's grant") None).
  assert (r ∈ default_rules) as Hr by (do 2 right; left).
  assert (verdict_strictness (ar_action r) <=
    verdict_strictness (ad_verdict (agent_evaluate default_policy s))) as Hle.
  { apply evaluate_strictest_rules; [apply default_rules_sorted|done|].
    unfold matches. simpl. by rewrite He. }
  simpl in Hle. destruct (ad_verdict _); simpl in Hle; try lia. done.
Qed.
End policy_facts.

(** ** Witness *)

Definition demo_signals : Signals :=
  mkSignals (Some Destructive) (Some (mkMark (Network "evil.example") 1)) [] 0 [] false false false false.

Lemma default_policy_strictest_witness :
  verdict_strictness Deny
  <= verdict_strictness (ad_verdict (@agent_evaluate ascii_tables default_policy demo_signals)).
Proof.
  apply (@default_policy_strictest ascii_tables demo_signals
    (mkAgentRule "deny-tainted-destructive" (when_taint_class Destructive) Deny
      (Some "Blocked: destructive action derived from untrusted content") None)).
  - left.
  - reflexivity.
Defined.
