(* ===== verification/Engine.v ===== *)
(** The agent firewall ([crates/agent/src/engine.rs]): facets, detectors, taint,
    action class, egress and authority wired into one [inspect]. *)
From S2P Require Import Prelude BTree Platform F32 Json CoreTypes Scoring Detectors.
From S2P Require Import Adapter Event Authority Fingerprint Taint Action Egress AgentPolicy.
From Stdlib Require Import String Ascii.

Definition DEFAULT_TAINT_CAP : nat := Z.to_nat 10000.

(** The record the source calls [Outcome]. *)
Record AgentOutcome := mkAgentOutcome {
  ao_verdict : Verdict;
  ao_rule : option string;
  ao_message : option string;
  ao_findings : list (Facet * Finding);
  ao_taint : option TaintMark;
  ao_risk_score : Z;
  ao_egress_hosts : list string;
  ao_fallback : option Verdict
}.

Definition adapter_response (o : AgentOutcome) (policy_version : string) : DecisionResponse :=
  let verdict := match ao_verdict o with
    | Allow => AAllow
    | Ask => AAsk
    | Deny => ADeny
    | Escalate =>
        match default Ask (ao_fallback o) with
        | Allow => AAllow
        | Ask | Escalate => AAsk
        | Deny => ADeny
        end
    end in
  {| rp_contract_version := CONTRACT_VERSION;
     rp_verdict := verdict;
     rp_policy_version := policy_version;
     rp_policy_bundle_id := None;
     rp_reason_codes := option_list (ao_rule o);
     rp_remediation_hint := None;
     rp_expires_at := None;
     rp_signature := None;
     rp_replay := None |}.

Record AgentFirewall := mkAgentFirewall {
  af_policy : AgentPolicySet;
  af_detectors : list Detector;
  af_taint : TaintTracker;
  af_authority : Authority
}.

Definition set_taint (t : TaintTracker) (fw : AgentFirewall) : AgentFirewall :=
  mkAgentFirewall (af_policy fw) (af_detectors fw) t (af_authority fw).
Definition set_authority (a : Authority) (fw : AgentFirewall) : AgentFirewall :=
  mkAgentFirewall (af_policy fw) (af_detectors fw) (af_taint fw) a.

(** [best.entry(key).and_modify(..).or_insert_with(..)] for one finding. *)
Definition dedupe_step (best : BMap.t (string * Severity) Finding) (ff : Facet * Finding) :
    BMap.t (string * Severity) Finding :=
  let f := ff.2 in
  let key := (f_detector f, f_severity f) in
  match BMap.get key best with
  | Some kept => if f32_gt (f_confidence f) (f_confidence kept) then BMap.insert key f best else best
  | None => BMap.insert key f best
  end.

Definition dedupe_for_scoring (findings : list (Facet * Finding)) : list Finding :=
  (fold_left dedupe_step findings []).*2.

Definition outcome_allow : AgentOutcome := mkAgentOutcome Allow None None [] None 0 [] None.

Section engine.
Context `{UnicodeTables} `{RegexEngine} `{EntropyPlatform} `{LiteralIter}.

Definition agent_firewall_new (policy : AgentPolicySet) (taint_cap : nat) : AgentFirewall :=
  mkAgentFirewall policy builtin_detectors (tracker_new taint_cap) ∅.

Definition with_default_policy : AgentFirewall :=
  agent_firewall_new default_policy DEFAULT_TAINT_CAP.

Definition fw_set_root (fw : AgentFirewall) (session agent : string) (tools : list string) :
    AgentFirewall :=
  set_authority (set_root (af_authority fw) session agent tools) fw.

Definition taint_len (fw : AgentFirewall) (session : string) : nat := len (af_taint fw) session.

Definition egress_hosts_allowlisted (fw : AgentFirewall) (hosts : list string) : bool :=
  negb (bool_decide (hosts = []))
  && forallb (fun host => is_allowed host (egress_allowlist (af_policy fw))) hosts.

(** The detectors over every projected facet. *)
Definition detect_facets (fw : AgentFirewall) (projected : list (Facet * string)) :
    list (Facet * Finding) :=
  ft ← projected;
  let ctx := match facet_direction ft.1 with
             | Input => context_input ft.2 | Output => context_output ft.2 end in
  det ← af_detectors fw;
  f ← det_inspect det ctx;
  [(ft.1, f)].

(** The loop that stops at the first tainted text. *)
Fixpoint first_taint (t : TaintTracker) (session : string) (projected : list (Facet * string)) :
    option TaintMark :=
  match projected with
  | [] => None
  | (_, text) :: rest =>
      match check t session text with Some m => Some m | None => first_taint t session rest end
  end.

(** [extend_from_slice], [sort], [dedup] over an already sorted set of hosts. *)
Definition merge_hosts (hs declared : list string) : list string := BSet.of_list (hs ++ declared).

Definition inspect_inner (fw : AgentFirewall) (ev : AgentEvent)
    (native : option (ActionClass * list string)) (record_results : bool) :
    AgentOutcome * AgentFirewall :=
  match ev_kind ev with
  | SessionEnd =>
      (outcome_allow,
       set_authority (Authority.end_session (af_authority fw) (ev_session ev))
         (set_taint (Taint.end_session (af_taint fw) (ev_session ev)) fw))
  | SessionStart => (outcome_allow, fw)
  | kind =>
      let projected := facets ev in
      let findings := detect_facets fw projected in
      let risk_score := rs_score (score_findings (dedupe_for_scoring findings)) in
      let s0 := signals_base findings risk_score in
      let '(signals, fw) :=
        match kind with
        | ToolResult _ content source =>
            (s0, if record_results && bool_decide (trust source = Untrusted)
                 then set_taint (record (af_taint fw) (ev_session ev) (ev_seq ev) source content) fw
                 else fw)
        | SubagentReport name content =>
            (s0, set_taint (record (af_taint fw) (ev_session ev) (ev_seq ev) (Subagent name) content) fw)
        | ToolCall tool args =>
            let action_class := match native with
              | None => classify tool args
              | Some (baseline, _) => classify_with_baseline args baseline end in
            let egress := match native with
              | None => hosts args
              | Some (_, declared) => merge_hosts (hosts args) declared end in
            (mkSignals (Some action_class) (first_taint (af_taint fw) (ev_session ev) projected)
               findings risk_score egress false (touches_sensitive_path args) false false, fw)
        | SubagentSpawn name _ granted_tools =>
            let parent := default (ev_agent ev) (ev_parent ev) in
            let '(a, esc) := spawn (af_authority fw) (ev_session ev) parent name granted_tools in
            (mkSignals None None findings risk_score [] (bool_decide (is_Some esc)) false false false,
             set_authority a fw)
        | _ => (s0, fw)
        end in
      let d := agent_evaluate (af_policy fw) signals in
      (mkAgentOutcome (ad_verdict d) (ad_rule d) (ad_message d) findings (s_taint signals)
         risk_score (s_egress_hosts signals) (ad_fallback d), fw)
  end.

Definition inspect (fw : AgentFirewall) (ev : AgentEvent) : AgentOutcome * AgentFirewall :=
  inspect_inner fw ev None true.

Definition inspect_native_call (fw : AgentFirewall) (ev : AgentEvent) (baseline : ActionClass)
    (egress : list string) : AgentOutcome * AgentFirewall :=
  inspect_inner fw ev (Some (baseline, egress)) false.

Definition preview_native_result (fw : AgentFirewall) (ev : AgentEvent) :
    AgentOutcome * AgentFirewall := inspect_inner fw ev None false.

Definition admit_native_result (fw : AgentFirewall) (ev : AgentEvent) : AgentFirewall :=
  match ev_kind ev with
  | ToolResult _ content source =>
      if bool_decide (trust source = Untrusted)
      then set_taint (record (af_taint fw) (ev_session ev) (ev_seq ev) source content) fw
      else fw
  | _ => fw
  end.

Definition inspect_mcp_handshake (fw : AgentFirewall) (server : string) (tools : list ToolDecl)
    (manifest_changed tool_shadow : bool) : AgentOutcome * AgentFirewall :=
  let ev := mkEvent server "mcp" None 0 0 (ManifestSeen server tools) in
  let findings := detect_facets fw (facets ev) in
  let risk_score := rs_score (score_findings (dedupe_for_scoring findings)) in
  let signals := mkSignals None None findings risk_score [] false false manifest_changed tool_shadow in
  let d := agent_evaluate (af_policy fw) signals in
  (mkAgentOutcome (ad_verdict d) (ad_rule d) (ad_message d) findings None risk_score []
     (ad_fallback d), fw).

(** ** Properties *)

(** *** Deduplication before scoring *)

(** The map holds, for every finding seen, an entry of its key that no finding seen
    beats, and only findings seen. *)
Definition dedupe_inv (seen : list (Facet * Finding)) (best : BMap.t (string * Severity) Finding) : Prop :=
  BMap.wf best /\
  (forall k f, BMap.get k best = Some f -> k = (f_detector f, f_severity f) /\ f ∈ seen.*2) /\
  (forall f, f ∈ seen.*2 -> exists kept, BMap.get (f_detector f, f_severity f) best = Some kept /\
     f32_gt (f_confidence f) (f_confidence kept) = false).

Lemma dedupe_elem (seen : list (Facet * Finding)) (fa : Facet) (f g : Finding) :
  g ∈ (seen ++ [(fa, f)]).*2 <-> g ∈ seen.*2 \/ g = f.
Proof. rewrite fmap_app, elem_of_app. simpl. by rewrite list_elem_of_singleton. Qed.

Lemma dedupe_keep seen best fa f kept :
  dedupe_inv seen best -> BMap.get (f_detector f, f_severity f) best = Some kept ->
  f32_gt (f_confidence f) (f_confidence kept) = false -> dedupe_inv (seen ++ [(fa, f)]) best.
Proof.
  intros (Hwf & Hsrc & Hbest) Hk Hg. split; [done|]. split.
  - intros k g Hget. destruct (Hsrc k g Hget). split; [done|]. apply dedupe_elem. by left.
  - intros g [Hin | ->]%dedupe_elem; eauto.
Qed.

Lemma dedupe_insert seen best fa f :
  dedupe_inv seen best ->
  (forall kept, BMap.get (f_detector f, f_severity f) best = Some kept ->
     f32_gt (f_confidence f) (f_confidence kept) = true) ->
  dedupe_inv (seen ++ [(fa, f)]) (BMap.insert (f_detector f, f_severity f) f best).
Proof.
  intros (Hwf & Hsrc & Hbest) Hgt. split; [by apply BMap.bmap_insert_wf|]. split.
  - intros k g. rewrite BMap.bmap_get_insert. case_decide as Hd.
    + apply cmp_eq in Hd as ->. intros [= <-]. split; [done|]. apply dedupe_elem. by right.
    + intros Hg. destruct (Hsrc k g Hg). split; [done|]. apply dedupe_elem. by left.
  - intros g Hin. rewrite BMap.bmap_get_insert. case_decide as Hd.
    + exists f. split; [done|]. apply cmp_eq in Hd.
      apply dedupe_elem in Hin as [Hin | ->]; [|apply f32_gt_irrefl].
      destruct (Hbest g Hin) as (kept & Hk & Hg). rewrite Hd in Hk. specialize (Hgt kept Hk).
      apply not_true_iff_false. intros Hfg. unfold f32_gt in *.
      change (f32_lt (f_confidence kept) (f_confidence g) = false) in Hg.
      by rewrite (f32_lt_trans _ _ _ Hgt Hfg) in Hg.
    + apply dedupe_elem in Hin as [Hin | ->]; [by apply Hbest|]. by rewrite cmp_refl in Hd.
Qed.

Lemma dedupe_step_inv seen best ff :
  dedupe_inv seen best -> dedupe_inv (seen ++ [ff]) (dedupe_step best ff).
Proof.
  intros Hinv. destruct ff as [fa f]. unfold dedupe_step. simpl.
  destruct (BMap.get _ best) as [kept|] eqn:Ek; [destruct (f32_gt _ _) eqn:Eg|].
  - apply dedupe_insert; [done|]. intros k Hk. rewrite Ek in Hk. by injection Hk as <-.
  - by eapply dedupe_keep.
  - apply dedupe_insert; [done|]. intros k Hk. congruence.
Qed.

Lemma dedupe_fold_inv (fs seen : list (Facet * Finding)) best :
  dedupe_inv seen best -> dedupe_inv (seen ++ fs) (fold_left dedupe_step fs best).
Proof.
  revert seen best. induction fs as [|ff fs IH]; intros seen best Hinv; simpl.
  - by rewrite app_nil_r.
  - replace (seen ++ ff :: fs) with ((seen ++ [ff]) ++ fs) by by rewrite <- app_assoc.
    by apply IH, dedupe_step_inv.
Qed.

Lemma dedupe_nil_inv : dedupe_inv [] [].
Proof. split; [constructor|]. split; [done|]. by intros f []%elem_of_nil. Qed.

Lemma dedupe_step_seen seen best ff : dedupe_inv seen best -> ff ∈ seen -> dedupe_step best ff = best.
Proof.
  intros (_ & _ & Hbest) Hin. unfold dedupe_step.
  destruct (Hbest ff.2) as (kept & -> & ->); [|done]. apply list_elem_of_fmap. eauto.
Qed.

(** Repetition does not inflate the risk score: findings that repeat ones already
    seen leave the scored list, hence the score, unchanged. *)
Theorem dedupe_repetition (fs extra : list (Facet * Finding)) :
  (forall ff, ff ∈ extra -> ff ∈ fs) ->
  dedupe_for_scoring (fs ++ extra) = dedupe_for_scoring fs.
Proof.
  intros Hsub. unfold dedupe_for_scoring. f_equal. rewrite fold_left_app.
  pose proof (dedupe_fold_inv fs [] [] dedupe_nil_inv) as Hinv. simpl in Hinv.
  generalize dependent (fold_left dedupe_step fs []). intros best Hinv.
  induction extra as [|ff extra IH]; simpl; [done|].
  rewrite (dedupe_step_seen fs) by (try done; apply Hsub; left).
  apply IH. intros x Hx. apply Hsub. by right.
Qed.

(** One representative per [(detector, severity)]: the scored list holds only
    findings of the event, at most one per pair, and for every finding one of the
    same pair whose confidence it does not exceed. *)
Theorem dedupe_representative (fs : list (Facet * Finding)) :
  let out := dedupe_for_scoring fs in
  NoDup ((fun f => (f_detector f, f_severity f)) <$> out) /\
  (forall f, f ∈ out -> f ∈ fs.*2) /\
  (forall f, f ∈ fs.*2 -> exists g, g ∈ out /\ f_detector g = f_detector f /\
     f_severity g = f_severity f /\ f32_gt (f_confidence f) (f_confidence g) = false).
Proof.
  unfold dedupe_for_scoring. destruct (dedupe_fold_inv fs [] [] dedupe_nil_inv) as (Hwf & Hsrc & Hbest).
  simpl in *. set (best := fold_left dedupe_step fs []) in *. split_and!.
  - assert ((fun f => (f_detector f, f_severity f)) <$> best.*2 = best.*1) as ->.
    { rewrite <- list_fmap_compose. apply list_fmap_ext. intros i [k f] Hi. simpl.
      symmetry. apply Hsrc, BMap.bmap_wf_elem_get; [done|]. by apply list_elem_of_lookup_2 in Hi. }
    by apply BMap.bmap_wf_NoDup.
  - intros f ([k g] & -> & Hin)%list_elem_of_fmap. simpl.
    apply BMap.bmap_wf_elem_get in Hin; [|done]. by apply Hsrc in Hin as [_ ?].
  - intros f Hf. destruct (Hbest f Hf) as (kept & Hk & Hg). exists kept.
    destruct (Hsrc _ _ Hk) as [[= -> ->] _]. split_and!; try done.
    apply list_elem_of_fmap. exists (f_detector f, f_severity f, kept). split; [done|].
    by apply BMap.bmap_get_Some_elem.
Qed.

(** *** The taint tracker under events *)

(** What an inspected event does to the tracker. *)
Definition taint_ops (ev : AgentEvent) : list taint_op :=
  match ev_kind ev with
  | ToolResult _ content source => [TRecord (ev_session ev) (ev_seq ev) source content]
  | SubagentReport name content => [TRecord (ev_session ev) (ev_seq ev) (Subagent name) content]
  | SessionEnd => [TEnd (ev_session ev)]
  | _ => []
  end.

Lemma inspect_taint (fw : AgentFirewall) (ev : AgentEvent) :
  af_taint (inspect fw ev).2 = fold_left taint_step (taint_ops ev) (af_taint fw) /\
  af_policy (inspect fw ev).2 = af_policy fw.
Proof.
  unfold inspect, inspect_inner, taint_ops. destruct (ev_kind ev) as [| | | | | | |]; try done.
  - simpl. destruct (decide (trust source = Untrusted)) as [Ht|Ht].
    + by rewrite bool_decide_true.
    + rewrite bool_decide_false by done. split; [|done]. simpl. unfold record.
      by rewrite bool_decide_false.
  - destruct (spawn _ _ _ _ _) as [a esc]. done.
Qed.

(** A run of the daemon: the state after inspecting events in order. *)
Definition inspect_all (fw : AgentFirewall) (evs : list AgentEvent) : AgentFirewall :=
  fold_left (fun fw ev => (inspect fw ev).2) evs fw.

Lemma inspect_all_taint (fw : AgentFirewall) (evs : list AgentEvent) :
  af_taint (inspect_all fw evs) = fold_left taint_step (evs ≫= taint_ops) (af_taint fw) /\
  af_policy (inspect_all fw evs) = af_policy fw.
Proof.
  unfold inspect_all. revert fw. induction evs as [|ev evs IH]; intros fw; [done|].
  rewrite bind_cons, fold_left_app. simpl fold_left at 1 3. destruct (inspect_taint fw ev) as [<- <-].
  apply IH.
Qed.

Lemma first_taint_hit (t : TaintTracker) (s : string) (projected : list (Facet * string))
    (fa : Facet) (text : string) (m : TaintMark) :
  (fa, text) ∈ projected -> check t s text = Some m ->
  exists m' fa' text', first_taint t s projected = Some m' /\ (fa', text') ∈ projected /\
    check t s text' = Some m'.
Proof.
  induction projected as [|[fa0 x] rest IH]; intros Hin Hc; [by apply elem_of_nil in Hin|].
  simpl. destruct (check t s x) as [m0|] eqn:E; [exists m0, fa0, x; split_and!; [done|left|done]|].
  apply elem_of_cons in Hin as [[= -> ->]|Hin]; [congruence|].
  destruct (IH Hin Hc) as (m' & fa' & x' & ? & ? & ?). exists m', fa', x'.
  split_and!; [done|by right|done].
Qed.

Lemma first_taint_check (t : TaintTracker) (s : string) (projected : list (Facet * string)) m :
  first_taint t s projected = Some m -> exists text, check t s text = Some m.
Proof.
  induction projected as [|[fa x] rest IH]; simpl; [done|].
  destruct (check t s x) eqn:E; [|done]. intros [= <-]. eauto.
Qed.

(** The mark of a check in a reachable tracker names an untrusted source. *)
Lemma check_untrusted `{!LiteralIterLaws} (cap : nat) (ops : list taint_op) (s text : string) m :
  check (taint_run cap ops) s text = Some m -> trust (tm_source m) = Untrusted.
Proof.
  intros (e & He & Hev & _)%check_spec.
  destruct (marks_introduced cap ops s e He) as [Hf Hl].
  destruct Hev as [(lit & Hm & _)|(fp & _ & Hm & _)].
  - by destruct (Hl lit m Hm) as (? & _ & ? & _).
  - by destruct (Hf fp m Hm) as (? & _ & ? & _).
Qed.

(** The outcome of a tool call under the shipped policy, once one of its argument
    strings is tainted. *)
Lemma tainted_call_denied `{!LiteralIterLaws} (cap : nat) (evs : list AgentEvent) (ev : AgentEvent)
    (tool : string) (args : Value) (text : string) (m : TaintMark) :
  let fw := inspect_all (agent_firewall_new default_policy cap) evs in
  ev_kind ev = ToolCall tool args -> leaf text args -> text <> EmptyString ->
  check (af_taint fw) (ev_session ev) text = Some m ->
  (classify tool args = Destructive \/ classify tool args = PrivilegeChanging) ->
  ao_verdict (inspect fw ev).1 = Deny.
Proof.
  intros fw Hk Hleaf Hne Hc Hclass. subst fw.
  destruct (inspect_all_taint (agent_firewall_new default_policy cap) evs) as [Ht Hp].
  set (fw := inspect_all _ evs) in *. clearbody fw.
  assert ((FToolArgs, text) ∈ facets ev) as Hin.
  { unfold facets. rewrite Hk. apply list_elem_of_fmap. exists text. split; [done|].
    by apply string_leaves_spec. }
  destruct (first_taint_hit _ _ _ _ _ _ Hin Hc) as (m' & fa' & x' & Hft & _ & Hc').
  assert (trust (tm_source m') = Untrusted) as Hu.
  { rewrite Ht in Hc'. by apply (check_untrusted cap (evs ≫= taint_ops) _ _ _ Hc'). }
  unfold inspect, inspect_inner. rewrite Hk. simpl. rewrite Hp. simpl.
  eapply (default_denies_tainted _ m'); simpl; eauto.
Qed.

(** A literal an untrusted result brought into a session keeps tainting the texts that
    contain it, whatever is inspected afterwards, short of ending the session or
    overflowing its literal table. *)
Lemma literal_stays_tainted `{!LiteralIterLaws} (fw : AgentFirewall) (page : AgentEvent)
    (later : list AgentEvent) (s t content : string) (src : Provenance) (lit text : string) :
  ev_kind page = ToolResult t content src -> trust src = Untrusted -> lit ∈ literals content ->
  ev_session page = s ->
  (forall e, e ∈ later -> ev_session e = s -> ev_kind e <> SessionEnd) ->
  lit_order (af_taint fw) s + List.length (literals content)
    + literal_budget s (later ≫= taint_ops) <= tt_cap (af_taint fw) ->
  Str.contains lit (to_lowercase text) = true ->
  exists m, check (af_taint (inspect_all fw (page :: later))) s text = Some m.
Proof.
  intros Hpage Hu Hlit Hsess Hend Hbudget Hct.
  destruct (recorded_literal_caught (af_taint fw) s (ev_seq page) src content
    (later ≫= taint_ops) lit text) as (m & Hm & _); [done..| |done|].
  { intros s' (e & He & Hin)%list_elem_of_bind ->. apply (Hend e Hin).
    - unfold taint_ops in He. destruct (ev_kind e); set_solver.
    - unfold taint_ops in He. destruct (ev_kind e); set_solver. }
  destruct (inspect_all_taint fw (page :: later)) as [Ht _].
  rewrite bind_cons, fold_left_app in Ht. unfold taint_ops at 2 in Ht. rewrite Hpage, Hsess in Ht.
  cbn [fold_left taint_step] in Ht. rewrite <- Ht in Hm. eauto.
Qed.

(** The indirect-injection kill chain is cut.  Under the shipped policy: an
    untrusted tool result that carried a distinctive literal entered a session;
    whatever was inspected in between (in any session, short of ending this one or
    overflowing its literal table); then a tool call with an argument whose
    lowercase form contains the literal, classified destructive or
    privilege-changing, is denied. *)
Theorem kill_chain_denied `{!LiteralIterLaws} (cap : nat) (before : list AgentEvent)
    (page : AgentEvent) (later : list AgentEvent) (ev : AgentEvent)
    (t content : string) (src : Provenance) (tool : string) (args : Value) (lit text : string) :
  let fw := inspect_all (agent_firewall_new default_policy cap) before in
  ev_kind page = ToolResult t content src -> trust src = Untrusted -> lit ∈ literals content ->
  ev_session page = ev_session ev ->
  (forall e, e ∈ later -> ev_session e = ev_session ev -> ev_kind e <> SessionEnd) ->
  lit_order (af_taint fw) (ev_session ev) + List.length (literals content)
    + literal_budget (ev_session ev) (later ≫= taint_ops) <= tt_cap (af_taint fw) ->
  ev_kind ev = ToolCall tool args -> leaf text args -> text <> EmptyString ->
  Str.contains lit (to_lowercase text) = true ->
  (classify tool args = Destructive \/ classify tool args = PrivilegeChanging) ->
  ao_verdict (inspect (inspect_all fw (page :: later)) ev).1 = Deny.
Proof.
  intros fw Hpage Hu Hlit Hsess Hend Hbudget Hk Hleaf Hne Hct Hclass.
  destruct (literal_stays_tainted fw page later (ev_session ev) t content src lit text) as [m Hm]; [done..|].
  assert (inspect_all fw (page :: later) =
    inspect_all (agent_firewall_new default_policy cap) (before ++ page :: later)) as Heq.
  { unfold fw, inspect_all. by rewrite fold_left_app. }
  rewrite Heq in *. by eapply tainted_call_denied.
Qed.

(** Releasing a native result in two steps is the same as inspecting it: the
    preview gives the outcome of an inspection and leaves the state alone, and
    admitting afterwards gives the state of the inspection. *)
Theorem preview_then_admit (fw : AgentFirewall) (ev : AgentEvent) (t content : string)
    (src : Provenance) :
  ev_kind ev = ToolResult t content src ->
  (preview_native_result fw ev).2 = fw /\
  (preview_native_result fw ev).1 = (inspect fw ev).1 /\
  admit_native_result (preview_native_result fw ev).2 ev = (inspect fw ev).2.
Proof.
  intros Hk. unfold preview_native_result, admit_native_result, inspect, inspect_inner.
  rewrite Hk. simpl. by destruct (bool_decide _).
Qed.

(** A subagent that asks for a tool its parent does not hold is denied under the
    shipped policy, and is not registered: nobody's holdings change. *)
Theorem escalating_spawn_denied (fw : AgentFirewall) (ev : AgentEvent)
    (name instructions tool : string) (granted : list string) :
  af_policy fw = default_policy ->
  ev_kind ev = SubagentSpawn name instructions granted -> tool ∈ granted ->
  holds (af_authority fw) (ev_session ev) (default (ev_agent ev) (ev_parent ev)) tool = false ->
  ao_verdict (inspect fw ev).1 = Deny /\
  forall s ag x, holds (af_authority (inspect fw ev).2) s ag x = holds (af_authority fw) s ag x.
Proof.
  intros Hp Hk Hin Hh. set (parent := default (ev_agent ev) (ev_parent ev)) in *.
  pose proof (spawn_spec (af_authority fw) (ev_session ev) parent name granted) as Hsp.
  pose proof (fun s ag x => holds_spawn (af_authority fw) (ev_session ev) parent name s ag x granted) as Hhs.
  unfold inspect, inspect_inner. rewrite Hk. fold parent.
  destruct (spawn (af_authority fw) (ev_session ev) parent name granted) as [a [e|]]; simpl in *;
    [|by rewrite (Hsp tool Hin) in Hh].
  split.
  - rewrite Hp. apply default_denies_escalation. done.
  - intros s ag x. by rewrite Hhs, decide_False by naive_solver.
Qed.

(** The outcome of an inspection is [allow] or the policy's decision on some
    signals. *)
Lemma inspect_decision (fw : AgentFirewall) (ev : AgentEvent) :
  (inspect fw ev).1 = outcome_allow \/
  exists s, ao_verdict (inspect fw ev).1 = ad_verdict (agent_evaluate (af_policy fw) s) /\
    ao_fallback (inspect fw ev).1 = ad_fallback (agent_evaluate (af_policy fw) s).
Proof.
  unfold inspect, inspect_inner.
  destruct (ev_kind ev) as [| |name i tools| | | | |]; try (by left); right; simpl; eauto.
  - destruct (bool_decide _); eauto.
  - destruct (spawn _ _ _ _ _) as [a esc]. simpl. eauto.
Qed.

(** The adapter contract has no escalation: an outcome of a loaded policy projects
    to its own verdict, an escalation to its fallback. *)
Theorem adapter_response_spec serde_yaml doc (fw : AgentFirewall) (ev : AgentEvent) (v : string) :
  from_yaml serde_yaml doc = Ok (af_policy fw) ->
  let o := (inspect fw ev).1 in
  rp_verdict (adapter_response o v) =
    match (match ao_verdict o with Escalate => ao_fallback o | v => Some v end) with
    | Some Allow => AAllow | Some Deny => ADeny | _ => AAsk end /\
  (ao_verdict o = Escalate -> ao_fallback o = Some Allow \/ ao_fallback o = Some Ask).
Proof.
  intros Hy o. split.
  { unfold adapter_response. destruct (ao_verdict o), (ao_fallback o) as [[]|]; done. }
  subst o. pose proof (from_yaml_ok _ _ _ Hy) as Hok.
  destruct (inspect_decision fw ev) as [->|(sg & -> & ->)]; [done|]. intros He.
  pose proof (evaluate_fallback (af_policy fw) sg Hok) as Hf. cbv zeta in Hf.
  destruct (ad_fallback _) as [f|]; [|done]. destruct Hf as (_ & [-> | ->] & _); auto.
Qed.
End engine.

(** ** A concrete platform *)

(** ASCII case tables; an engine that reads a text starting with [http] as one URL
    literal and finds [rm -rf] anywhere as destructive; no other pattern matches. *)
Definition demo_engine : RegexEngine := {|
  captures_iter re text :=
    if bool_decide (re = LITERAL_RE) then
      if Str.starts_with "http" text then [[Some (0, Str.len text)]] else []
    else if bool_decide (re = destructive patterns) then
      if Str.contains "rm -rf" text then [[Some (0, Str.len text)]] else []
    else []
|}.

Definition demo_entropy : EntropyPlatform := {| f32_log2 x := f32_0; hash_values := fmap snd |}.

Definition demo_iter : LiteralIter := map_to_list.
#[export] Instance demo_iter_laws : @LiteralIterLaws demo_iter.
Proof. intros m. unfold literal_iter, demo_iter. done. Qed.

Definition demo_new : nat -> AgentFirewall :=
  @agent_firewall_new demo_engine demo_entropy default_policy.
Definition demo_inspect : AgentFirewall -> AgentEvent -> AgentOutcome * AgentFirewall :=
  @inspect ascii_tables demo_engine demo_iter.
Definition demo_run : AgentFirewall -> list AgentEvent -> AgentFirewall :=
  @inspect_all ascii_tables demo_engine demo_iter.

Definition demo_page (seq : Z) (host url : string) : AgentEvent :=
  mkEvent "s" "main" None seq 0 (ToolResult "WebFetch" url (Network host)).
Definition demo_call (args : list Value) : AgentEvent :=
  mkEvent "s" "main" None 9 0 (ToolCall "Bash" (JArray args)).

(** The reported source is that of the first tainted argument, not the earliest
    one: with two tainted arguments the call is attributed to event 5 although
    another argument was contributed by event 1. *)
Theorem taint_not_earliest_across_leaves :
  let fw := demo_run (demo_new 10)
    [demo_page 1 "a.example" "http://a.example/x"; demo_page 5 "b.example" "http://b.example/y"] in
  let texts := [JString "get http://b.example/y"; JString "get http://a.example/x"] in
  ao_taint (demo_inspect fw (demo_call texts)).1 = Some (mkMark (Network "b.example") 5) /\
  @check ascii_tables demo_iter (af_taint fw) "s" "get http://a.example/x"
    = Some (mkMark (Network "a.example") 1).
Proof. by vm_compute. Qed.

Lemma kill_chain_denied_witness :
  ao_verdict (@inspect ascii_tables demo_engine demo_iter
    (@inspect_all ascii_tables demo_engine demo_iter
      (@inspect_all ascii_tables demo_engine demo_iter
        (@agent_firewall_new demo_engine demo_entropy default_policy 10) [])
      [demo_page 1 "a.example" "http://a.example/x"; demo_page 5 "b.example" "http://b.example/y"])
    (demo_call [JString "rm -rf ~ # http://A.example/x"])).1 = Deny.
Proof.
  apply (@kill_chain_denied ascii_tables demo_engine demo_entropy demo_iter demo_iter_laws 10 []
    (demo_page 1 "a.example" "http://a.example/x")
    [demo_page 5 "b.example" "http://b.example/y"]
    (demo_call [JString "rm -rf ~ # http://A.example/x"])
    "WebFetch" "http://a.example/x" (Network "a.example") "Bash"
    (JArray [JString "rm -rf ~ # http://A.example/x"]) "http://a.example/x"
    "rm -rf ~ # http://A.example/x").
  - reflexivity.
  - reflexivity.
  - vm_compute. left.
  - reflexivity.
  - intros e ->%list_elem_of_singleton _. discriminate.
  - vm_compute. lia.
  - reflexivity.
  - apply (leaf_array _ (JString "rm -rf ~ # http://A.example/x")); [left|constructor].
  - discriminate.
  - reflexivity.
  - left. reflexivity.
Defined.

Definition demo_taint_ops : list taint_op := [TRecord "s" 1 (Network "a.example") "http://a.example/x"].

Lemma check_sound_witness :
  @introduced "s" demo_taint_ops (mkMark (Network "a.example") 1) (fun seen =>
    (exists lit, lit ∈ @literals ascii_tables demo_engine seen /\
       Str.contains lit (@to_lowercase ascii_tables "get http://A.example/x") = true) \/
    (exists fp, fp ∈ @fingerprints ascii_tables seen /\
       fp ∈ @fingerprints ascii_tables "get http://A.example/x")).
Proof.
  apply (@check_sound ascii_tables demo_engine demo_iter demo_iter_laws 10 demo_taint_ops "s"
    "get http://A.example/x" (mkMark (Network "a.example") 1)).
  vm_compute. reflexivity.
Defined.

Lemma escalating_spawn_denied_witness :
  ao_verdict (@inspect ascii_tables demo_engine demo_iter (demo_new 10)
    (mkEvent "s" "main" None 1 0 (SubagentSpawn "helper" "do it" ["Bash"]))).1 = Deny.
Proof.
  apply (@escalating_spawn_denied ascii_tables demo_engine demo_iter (demo_new 10)
    (mkEvent "s" "main" None 1 0 (SubagentSpawn "helper" "do it" ["Bash"])) "helper" "do it" "Bash" ["Bash"]).
  - reflexivity.
  - reflexivity.
  - left.
  - reflexivity.
Defined.

Definition demo_hit (n : Z) : Facet * Finding :=
  (FToolArgs, finding_new "injection.signature" High (f32_lit n 10) "override").

Lemma dedupe_repetition_witness :
  dedupe_for_scoring ([demo_hit 5; demo_hit 9] ++ [demo_hit 9; demo_hit 5])
  = dedupe_for_scoring [demo_hit 5; demo_hit 9].
Proof.
  apply (dedupe_repetition [demo_hit 5; demo_hit 9] [demo_hit 9; demo_hit 5]).
  intros ff. rewrite !elem_of_cons. tauto.
Defined.

Lemma preview_then_admit_witness :
  (@preview_native_result ascii_tables demo_engine demo_iter (demo_new 10)
     (demo_page 1 "a.example" "http://a.example/x")).2 = demo_new 10.
Proof.
  apply (@preview_then_admit ascii_tables demo_engine demo_iter (demo_new 10)
    (demo_page 1 "a.example" "http://a.example/x") "WebFetch" "http://a.example/x" (Network "a.example")).
  reflexivity.
Defined.
