(* ===== verification/Spans.v ===== *)
(** The span cache of the daemon ([crates/agentfw/src/spans.rs]): a bounded
    per-session store of untrusted content, keyed by sequence number.  The mutex
    serializes the operations, so each is one atomic step. *)
From S2P Require Import Prelude Masking Fifo.
From Stdlib Require Import String Ascii.
#[local] Abbreviation length := List.length.

(** [while end > 0 && !s.is_char_boundary(end) { end -= 1; }] *)
Fixpoint boundary_below (s : string) (e : nat) : nat :=
  match e with
  | O => 0
  | S e' => if Str.is_char_boundary s e then e else boundary_below s e'
  end.

(** Truncate on a UTF-8 boundary at or below [max] bytes. *)
Definition clamp (s : string) (max : nat) : string :=
  if Str.len s <=? max then s else Str.take (boundary_below s max) s.

Record SpanCache := mkSpanCache {
  sc_cap : nat;
  sc_max_bytes : nat;
  sc_sessions : gmap string (Fifo Z string)
}.

Definition span_cache_new (cap max_bytes : nat) : SpanCache := mkSpanCache cap max_bytes ∅.

Definition span_put (c : SpanCache) (session : string) (seq : Z) (content : string) : SpanCache :=
  let e := default fifo_empty (sc_sessions c !! session) in
  let value := clamp content (sc_max_bytes c) in
  let e := match fi_marks e !! seq with
           | Some _ => fifo_update seq value e
           | None => fifo_push (sc_cap c) seq value e
           end in
  mkSpanCache (sc_cap c) (sc_max_bytes c) (<[session := e]> (sc_sessions c)).

Definition span_get (c : SpanCache) (session : string) (seq : Z) : option string :=
  e ← sc_sessions c !! session; fi_marks e !! seq.

Definition span_end_session (c : SpanCache) (session : string) : SpanCache :=
  mkSpanCache (sc_cap c) (sc_max_bytes c) (delete session (sc_sessions c)).

(** ** Properties *)

Lemma boundary_below_spec (s : string) (e : nat) :
  boundary_below s e <= e /\ Str.is_char_boundary s (boundary_below s e) = true.
Proof.
  induction e as [|e [IH1 IH2]]; [done|]. cbn [boundary_below].
  destruct (Str.is_char_boundary s (S e)) eqn:E; [done|]. split; [lia|done].
Qed.

(** Clamping keeps a prefix that fits and ends on a character boundary. *)
Lemma clamp_spec (s : string) (max : nat) :
  Str.len (clamp s max) <= max /\ (exists rest, s = clamp s max +:+ rest) /\
  Str.is_char_boundary s (Str.len (clamp s max)) = true.
Proof.
  unfold clamp. destruct (Nat.leb_spec (Str.len s) max).
  - split_and!; [done| |apply boundary_len]. exists EmptyString. by rewrite Str.app_nil_r.
  - destruct (boundary_below_spec s max) as [Hle Hb].
    rewrite Str.len_take, Nat.min_l by lia. split_and!; [lia| |done].
    exists (Str.drop (boundary_below s max) s). by rewrite Str.take_drop.
Qed.

Definition span_inv (c : SpanCache) : Prop :=
  forall s e, sc_sessions c !! s = Some e ->
    fifo_wf e /\ length (fi_order e) <= sc_cap c /\
    forall q x, fi_marks e !! q = Some x -> Str.len x <= sc_max_bytes c.

Lemma span_put_inv (c : SpanCache) (s : string) (q : Z) (x : string) :
  span_inv c -> span_inv (span_put c s q x).
Proof.
  intros Hinv s' e He. unfold span_put in *. simpl in *.
  apply lookup_insert_Some in He as [[<- <-]|[_ He]]; [|by apply (Hinv s')].
  assert (fifo_wf (default fifo_empty (sc_sessions c !! s)) /\
    length (fi_order (default fifo_empty (sc_sessions c !! s))) <= sc_cap c /\
    forall q x, fi_marks (default fifo_empty (sc_sessions c !! s)) !! q = Some x ->
      Str.len x <= sc_max_bytes c) as (Hwf & Hl & Hx).
  { destruct (sc_sessions c !! s) as [e|] eqn:E; simpl; [by apply (Hinv s)|].
    split_and!; [apply fifo_empty_wf|lia|]. intros ? ? H'. by rewrite lookup_empty in H'. }
  set (e := default fifo_empty (sc_sessions c !! s)) in *. clearbody e.
  destruct (clamp_spec x (sc_max_bytes c)) as [Hc _].
  destruct (fi_marks e !! q) eqn:Eq.
  - split_and!; [apply fifo_update_wf; eauto|done|]. intros j y. simpl.
    intros [[<- <-]|[_ Hy]]%lookup_insert_Some; [done|eauto].
  - split_and!; [by apply fifo_push_wf|by apply fifo_push_bound|].
    intros j y [Hy|[-> ->]]%fifo_push_sub; eauto.
Qed.

(** The operations as a state machine. *)
Inductive span_op :=
| SpPut (session : string) (seq : Z) (content : string)
| SpEnd (session : string).

Definition span_step (c : SpanCache) (op : span_op) : SpanCache :=
  match op with SpPut s q x => span_put c s q x | SpEnd s => span_end_session c s end.

Definition span_run (cap max_bytes : nat) (ops : list span_op) : SpanCache :=
  fold_left span_step ops (span_cache_new cap max_bytes).

Lemma span_run_inv (cap max_bytes : nat) (ops : list span_op) :
  span_inv (span_run cap max_bytes ops) /\ sc_cap (span_run cap max_bytes ops) = cap /\
  sc_max_bytes (span_run cap max_bytes ops) = max_bytes.
Proof.
  unfold span_run. induction ops as [|op ops (IH & Hc & Hm)] using rev_ind.
  - split; [|done]. intros s e He. simpl in He. by rewrite lookup_empty in He.
  - rewrite fold_left_app. simpl. destruct op as [s q x|s]; simpl.
    + split; [by apply span_put_inv|done].
    + split; [|done]. intros s' e He. simpl in He. apply lookup_delete_Some in He as [_ He].
      by apply (IH s').
Qed.

(** Memory bound: after any operations a session retains at most [cap] spans of at
    most [max_bytes] bytes each, however often a sequence number is written. *)
Theorem spans_bounded (cap max_bytes : nat) (ops : list span_op) (s : string) (e : Fifo Z string) :
  sc_sessions (span_run cap max_bytes ops) !! s = Some e ->
  size (fi_marks e) <= cap /\ length (fi_order e) = size (fi_marks e) /\
  forall q x, fi_marks e !! q = Some x -> Str.len x <= max_bytes.
Proof.
  destruct (span_run_inv cap max_bytes ops) as (Hinv & Hc & Hm). intros He.
  destruct (Hinv s e He) as (Hwf & Hl & Hx). rewrite Hc in Hl. rewrite Hm in Hx.
  by rewrite fifo_size.
Qed.

(** Reading back what was written: the content clamped to the limit, as long as
    there is room for it. *)
Theorem span_put_get (c : SpanCache) (s : string) (q : Z) (x : string) :
  length (fi_order (default fifo_empty (sc_sessions c !! s))) < sc_cap c ->
  span_get (span_put c s q x) s q = Some (clamp x (sc_max_bytes c)) /\
  (Str.len x <= sc_max_bytes c -> span_get (span_put c s q x) s q = Some x).
Proof.
  intros Hroom. assert (span_get (span_put c s q x) s q = Some (clamp x (sc_max_bytes c))) as ->.
  { unfold span_get, span_put. simpl. rewrite lookup_insert_eq. simpl.
    destruct (fi_marks (default fifo_empty (sc_sessions c !! s)) !! q);
      [simpl; by rewrite lookup_insert_eq|].
    rewrite fifo_push_room by done. simpl. by rewrite lookup_insert_eq. }
  split; [done|]. intros Hl. unfold clamp. by rewrite (proj2 (Nat.leb_le _ _) Hl).
Qed.

Definition demo_spans : list span_op := [SpPut "s" 1 "abcdef"; SpPut "s" 2 "x"; SpPut "s" 3 "y"].

Lemma spans_bounded_witness :
  size (fi_marks (default fifo_empty (sc_sessions (span_run 2 4 demo_spans) !! "s"))) <= 2.
Proof.
  apply (spans_bounded 2 4 demo_spans "s" (default fifo_empty (sc_sessions (span_run 2 4 demo_spans) !! "s"))).
  vm_compute. reflexivity.
Defined.
