(* ===== verification/Grant.v ===== *)
(** Human approvals ([crates/agentfw/src/grant.rs]): single-use, expiring grants
    bound to one exact action.  SHA-256 and HMAC are the crates [sha2] and [hmac],
    and JSON rendering is [serde_json]; all are parameters. *)
From S2P Require Import Prelude BTree Platform F32 Json CoreTypes Normalize.
From Stdlib Require Import String Ascii.
#[local] Abbreviation length := List.length.

Definition DEFAULT_TTL_MS : Z := 5 * 60 * 1000.
Definition FUTURE_SKEW_MS : Z := 5000.

Record ActionRef := mkActionRef {
  act_session : string;
  act_tool : string;
  act_args_fingerprint : string
}.

Record Grant := mkGrant {
  g_session : string;
  g_tool : string;
  g_args_fingerprint : string;
  g_issued_at_ms : Z;
  g_expires_at_ms : Z;
  g_nonce : string;
  g_signature : string
}.

#[export] Instance ActionRef_eq_dec : EqDecision ActionRef.
Proof. solve_decision. Defined.
#[export] Instance Grant_eq_dec : EqDecision Grant.
Proof. solve_decision. Defined.

Inductive GrantError := BadSignature | GrantExpired | NotYetValid | ActionMismatch | AlreadyUsed.

#[export] Instance GrantError_eq_dec : EqDecision GrantError.
Proof. solve_decision. Defined.

Definition reason (e : GrantError) : string :=
  match e with
  | BadSignature => "approval signature does not verify"
  | GrantExpired => "approval has expired"
  | NotYetValid => "approval is dated in the future"
  | ActionMismatch => "approval was issued for a different action"
  | AlreadyUsed => "approval was already used"
  end.

(** [n.to_be_bytes()] of an integer of [k] bytes. *)
Fixpoint be_bytes (k : nat) (n : Z) : string :=
  match k with
  | O => EmptyString
  | S k' => String (ascii_of_N (Z.to_N (n / 2 ^ (8 * Z.of_nat k') mod 256))) (be_bytes k' n)
  end.
Definition be64 (n : Z) : string := be_bytes 8 n.

(** A field with its length before it. *)
Definition prefixed (field : string) : string := be64 (Z.of_nat (Str.len field)) +:+ field.

Definition signing_input (g : Grant) : string :=
  prefixed (g_session g) +:+ prefixed (g_tool g) +:+ prefixed (g_args_fingerprint g) +:+
  prefixed (g_nonce g) +:+ be64 (g_issued_at_ms g) +:+ be64 (g_expires_at_ms g).

(** [c.is_ascii_alphanumeric() || c == '-' || c == '_'] *)
Definition is_file_char (c : N) : bool :=
  ((48 <=? c) && (c <=? 57) || (65 <=? c) && (c <=? 90) || (97 <=? c) && (c <=? 122)
   || (c =? 45) || (c =? 95))%N.

Definition safe_chars (cs : list N) : list N := (fun c => if is_file_char c then c else 95%N) <$> cs.

(** The store's map from a nonce to its file name. *)
Definition file_name (nonce : string) : string := of_chars (safe_chars (chars nonce)) +:+ ".json".

(** A function (here, a digest) does not confuse two given inputs. *)
Definition no_collision (digest : string -> string) (a b : string) : Prop := digest a = digest b -> a = b.

Definition NUL : string := String "000" EmptyString.

Section grants.
Variable sha256 : string -> string.
Variable hex : string -> string.
Variable hmac_sha256 : string -> string -> string.
Variable json_to_string : Value -> string.

(** What [action_fingerprint] feeds the hash. *)
Definition fingerprint_input (tool : string) (args : Value) : string :=
  "agentfw/approval/v1" +:+ NUL +:+ tool +:+ NUL +:+ json_to_string (canonical args).

Definition action_fingerprint (tool : string) (args : Value) : string :=
  hex (sha256 (fingerprint_input tool args)).

Definition sign (key : string) (g : Grant) : string := hex (hmac_sha256 key (signing_input g)).

Definition derive_key (token : string) : string :=
  sha256 ("agentfw/approval-key/v1" +:+ NUL +:+ token).

Definition set_signature (g : Grant) (s : string) : Grant :=
  mkGrant (g_session g) (g_tool g) (g_args_fingerprint g) (g_issued_at_ms g) (g_expires_at_ms g)
    (g_nonce g) s.

Definition mint (key : string) (action : ActionRef) (issued_at_ms ttl_ms : Z) (nonce : string) : Grant :=
  let g := mkGrant (act_session action) (act_tool action) (act_args_fingerprint action)
             issued_at_ms (sat_add64 issued_at_ms ttl_ms) nonce EmptyString in
  set_signature g (sign key g).

Definition verify (key : string) (g : Grant) (action : ActionRef) (now_ms : Z) :
    result unit GrantError :=
  bail_if (negb (bool_decide (sign key g = g_signature g))) with BadSignature in
  bail_if (sat_add64 now_ms FUTURE_SKEW_MS <? g_issued_at_ms g)%Z with NotYetValid in
  bail_if (g_expires_at_ms g <=? now_ms)%Z with GrantExpired in
  bail_if (negb (bool_decide (g_session g = act_session action))
           || negb (bool_decide (g_tool g = act_tool action))
           || negb (bool_decide (g_args_fingerprint g = act_args_fingerprint action)))
    with ActionMismatch in
  Ok tt.

(** ** The ledger *)

Definition Ledger : Type := BMap.t string Z.

(** [write_ok]: whether the ledger file could be written. *)
Definition claim (l : Ledger) (g : Grant) (now_ms : Z) (write_ok : bool) :
    result unit GrantError * Ledger :=
  let spent := BMap.retain (fun _ expires_at => now_ms <? expires_at)%Z l in
  if BMap.contains_key (g_nonce g) spent then (Err AlreadyUsed, spent)
  else
    let spent' := BMap.insert (g_nonce g) (g_expires_at_ms g) spent in
    if negb write_ok then (Err AlreadyUsed, BMap.remove (g_nonce g) spent')
    else (Ok tt, spent').

(** [GrantLedger::open]: an unreadable or malformed file opens as an empty ledger;
    [parse] is [serde_json::from_str] at the map type. *)
Definition ledger_open (parse : string -> option Ledger) (file : option string) : Ledger :=
  default [] (file ≫= parse).

Definition redeem (key : string) (g : Grant) (action : ActionRef) (now_ms : Z) (l : Ledger)
    (write_ok : bool) : result unit GrantError * Ledger :=
  match verify key g action now_ms with
  | Err e => (Err e, l)
  | Ok _ => claim l g now_ms write_ok
  end.

(** The pending directory: the readable grant files by name, in directory order. *)
Definition GrantStore : Type := list (string * Grant).

Definition pending (store : GrantStore) : list Grant := store.*2.

(** [write]: a file of the same name is replaced. *)
Definition store_write (store : GrantStore) (g : Grant) : GrantStore :=
  List.filter (fun e => negb (bool_decide (e.1 = file_name (g_nonce g)))) store
  ++ [(file_name (g_nonce g), g)].

(** [discard]; [remove_ok]: whether the file could be removed. *)
Definition discard (store : GrantStore) (g : Grant) (remove_ok : bool) : GrantStore :=
  if remove_ok
  then List.filter (fun e => negb (bool_decide (e.1 = file_name (g_nonce g)))) store
  else store.

(** The loop over the pending grants: the redeemed grant, the ledger and the
    refusals reported on the way. *)
Fixpoint redeem_each (key : string) (pending : list Grant) (l : Ledger) (action : ActionRef)
    (now_ms : Z) (write_ok : bool) : option Grant * Ledger * list (Grant * GrantError) :=
  match pending with
  | [] => (None, l, [])
  | g :: rest =>
      match redeem key g action now_ms l write_ok with
      | (Ok _, l') => (Some g, l', [])
      | (Err ActionMismatch, l') => redeem_each key rest l' action now_ms write_ok
      | (Err e, l') =>
          let '(r, l'', refused) := redeem_each key rest l' action now_ms write_ok in
          (r, l'', (g, e) :: refused)
      end
  end.

Definition redeem_pending (key : string) (store : GrantStore) (l : Ledger) (action : ActionRef)
    (now_ms : Z) (write_ok remove_ok : bool) :
    option Grant * Ledger * GrantStore * list (Grant * GrantError) :=
  let '(r, l', refused) := redeem_each key (pending store) l action now_ms write_ok in
  (r, l', match r with Some g => discard store g remove_ok | None => store end, refused).

(** ** Properties *)

Lemma len_be_bytes (k : nat) (n : Z) : Str.len (be_bytes k n) = k.
Proof. induction k as [|k IH]; [done|]. cbn [be_bytes]. by rewrite Str.len_cons, IH. Qed.

Lemma be_bytes_mod (k : nat) (n m : Z) :
  be_bytes k n = be_bytes k m -> (n mod 2 ^ (8 * Z.of_nat k) = m mod 2 ^ (8 * Z.of_nat k))%Z.
Proof.
  induction k as [|k IH]; [by rewrite !Z.mod_1_r|]. cbn [be_bytes]. intros [= Hb Hr].
  specialize (IH Hr). set (p := (2 ^ (8 * Z.of_nat k))%Z) in *.
  assert (0 < p)%Z as Hp by (apply Z.pow_pos_nonneg; lia).
  replace (2 ^ (8 * Z.of_nat (S k)))%Z with (p * 256)%Z
    by (subst p; change 256%Z with (2 ^ 8)%Z; rewrite <- Z.pow_add_r by lia; f_equal; lia).
  rewrite !Z.rem_mul_r by lia. f_equal; [done|]. f_equal.
  assert (forall x, 0 <= x mod 256 < 256)%Z as Hm by (intros; apply Z.mod_pos_bound; lia).
  pose proof (Hm (n / p)%Z). pose proof (Hm (m / p)%Z).
  apply (f_equal N_of_ascii) in Hb. rewrite !N_ascii_embedding in Hb by lia. lia.
Qed.

Lemma be64_inj (n m : Z) : in_u64 n -> in_u64 m -> be64 n = be64 m -> n = m.
Proof.
  unfold in_u64, u64_max. intros Hn Hm H%be_bytes_mod. simpl in H.
  rewrite !Z.mod_small in H by lia. done.
Qed.

Lemma prefixed_inj (f f' r r' : string) :
  in_u64 (Z.of_nat (Str.len f)) -> in_u64 (Z.of_nat (Str.len f')) ->
  prefixed f +:+ r = prefixed f' +:+ r' -> f = f' /\ r = r'.
Proof.
  intros Hf Hf'. unfold prefixed. rewrite !Str.app_assoc. intros H.
  apply Str.app_inj_len in H as [Hl H]; [|unfold be64; by rewrite !len_be_bytes].
  apply be64_inj in Hl; [|done..]. apply Str.app_inj_len in H; [done|lia].
Qed.

(** A grant as the source can build one: lengths and times are [u64]s. *)
Definition grant_sized (g : Grant) : Prop :=
  Forall (fun f => in_u64 (Z.of_nat (Str.len f)))
    [g_session g; g_tool g; g_args_fingerprint g; g_nonce g] /\
  in_u64 (g_issued_at_ms g) /\ in_u64 (g_expires_at_ms g).

(** No field can impersonate part of another: two grants with the same signing
    input agree on every signed field. *)
Theorem signing_input_injective (g g' : Grant) :
  grant_sized g -> grant_sized g' -> signing_input g = signing_input g' ->
  g' = set_signature g (g_signature g').
Proof.
  intros [Hf [Hi He]] [Hf' [Hi' He']] H. unfold signing_input in H.
  rewrite !Forall_cons in Hf, Hf'. destruct_and!.
  apply prefixed_inj in H as [E1 H]; [|done..].
  apply prefixed_inj in H as [E2 H]; [|done..].
  apply prefixed_inj in H as [E3 H]; [|done..].
  apply prefixed_inj in H as [E4 H]; [|done..].
  apply Str.app_inj_len in H as [Hb5 Hb6]; [|unfold be64; by rewrite !len_be_bytes].
  apply be64_inj in Hb5, Hb6; [|done..]. destruct g, g'; unfold set_signature; simpl in *. congruence.
Qed.

Lemma verify_ok (key : string) (g : Grant) (action : ActionRef) (now : Z) (u : unit) :
  verify key g action now = Ok u <->
  sign key g = g_signature g /\ (g_issued_at_ms g <= sat_add64 now FUTURE_SKEW_MS)%Z /\
  (now < g_expires_at_ms g)%Z /\
  g_session g = act_session action /\ g_tool g = act_tool action /\
  g_args_fingerprint g = act_args_fingerprint action.
Proof.
  clear sha256 json_to_string. unfold verify. destruct u.
  destruct (decide (sign key g = g_signature g)) as [Hs|Hs];
    [rewrite bool_decide_true by done|rewrite bool_decide_false by done]; simpl; [|naive_solver].
  destruct (Z.ltb_spec (sat_add64 now FUTURE_SKEW_MS) (g_issued_at_ms g)); [naive_solver lia|].
  destruct (Z.leb_spec (g_expires_at_ms g) now); [naive_solver lia|].
  repeat case_bool_decide; simpl; naive_solver.
Qed.

(** Mint then verify: within its lifetime a fresh grant authorizes exactly the
    action it was minted for, and any other action is a mismatch. *)
Theorem mint_verify (key : string) (action other : ActionRef) (issued ttl now : Z) (nonce : string) :
  in_u64 issued -> in_u64 ttl -> (issued <= now < sat_add64 issued ttl)%Z ->
  verify key (mint key action issued ttl nonce) action now = Ok tt /\
  (other <> action -> verify key (mint key action issued ttl nonce) other now = Err ActionMismatch).
Proof.
  intros Hi Ht Hn. unfold in_u64, sat_add64, FUTURE_SKEW_MS, u64_max in *.
  assert (forall a, verify key (mint key action issued ttl nonce) a now =
    if decide (a = action) then Ok tt else Err ActionMismatch) as Hv.
  { intros a. unfold verify.
    assert (sign key (mint key action issued ttl nonce) = g_signature (mint key action issued ttl nonce))
      as Hs by done.
    rewrite (bool_decide_true _ Hs). simpl negb. cbv iota.
    unfold mint, set_signature. cbn [g_issued_at_ms g_expires_at_ms g_session g_tool g_args_fingerprint].
    unfold sat_add64, FUTURE_SKEW_MS, u64_max.
    rewrite (proj2 (Z.ltb_ge _ _)) by lia. rewrite (proj2 (Z.leb_gt _ _)) by lia.
    destruct a, action; simpl. repeat case_bool_decide; subst; simpl;
      try (rewrite decide_True by done; done); rewrite decide_False by congruence; done. }
  rewrite !Hv, decide_True by done. split; [done|]. intros Hne. by rewrite decide_False.
Qed.

(** The identity of an action does not depend on the order in which its arguments
    were serialized. *)
Theorem fingerprint_key_order (tool : string) (m m' : list (string * Value)) :
  m ≡ₚ m' -> NoDup m.*1 ->
  action_fingerprint tool (JObject m) = action_fingerprint tool (JObject m').
Proof.
  intros Hp Hnd. unfold action_fingerprint, fingerprint_input. by rewrite (canonical_perm m m').
Qed.

(** A grant that the scan over the pending files redeems verified for this very
    action at this time. *)
Lemma redeem_each_sound (key : string) (ps : list Grant) (l l' : Ledger) (action : ActionRef)
    (now : Z) (w : bool) (g : Grant) (refused : list (Grant * GrantError)) :
  redeem_each key ps l action now w = (Some g, l', refused) ->
  g ∈ ps /\ verify key g action now = Ok tt.
Proof.
  revert l refused. induction ps as [|g0 ps IH]; intros l refused; simpl; [done|].
  unfold redeem. destruct (verify key g0 action now) as [[]|e0] eqn:Ev; simpl.
  - destruct (claim l g0 now w) as [[[]|e] l1].
    + intros. simplify_eq. split; [left|done].
    + destruct (redeem_each key ps l1 action now w) as [[r l2] rf] eqn:Er.
      destruct e; intros; simplify_eq; destruct (IH _ _ Er); split; try (by right); done.
  - destruct (redeem_each key ps l action now w) as [[r l2] rf] eqn:Er.
    destruct e0; intros; simplify_eq; destruct (IH _ _ Er); split; try (by right); done.
Qed.

(** *** Single use *)

Lemma contains_key_get {V} (k : string) (m : BMap.t string V) :
  BMap.contains_key k m = true <-> is_Some (BMap.get k m).
Proof. unfold BMap.contains_key. apply bool_decide_eq_true. Qed.

(** One attempt to redeem: the grant presented, the action, the time, the disk. *)
Record attempt := mkAttempt {
  at_grant : Grant; at_action : ActionRef; at_now : Z; at_write_ok : bool
}.

(** The results of a sequence of attempts against one ledger. *)
Fixpoint redeem_all (key : string) (l : Ledger) (ats : list attempt) :
    list (Grant * result unit GrantError) :=
  match ats with
  | [] => []
  | a :: ats' =>
      let '(r, l') := redeem key (at_grant a) (at_action a) (at_now a) l (at_write_ok a) in
      (at_grant a, r) :: redeem_all key l' ats'
  end.

(** The successful redemptions of [g]. *)
Definition uses (g : Grant) (rs : list (Grant * result unit GrantError)) : nat :=
  length (List.filter (fun x => bool_decide (x.1 = g) && is_ok x.2) rs).

(** From [now] on, [g] cannot be redeemed: it is spent or it has expired. *)
Definition blocked (l : Ledger) (g : Grant) (now : Z) : Prop :=
  BMap.wf l /\ (BMap.get (g_nonce g) l = Some (g_expires_at_ms g) \/ (g_expires_at_ms g <= now)%Z).

Lemma claim_wf (l : Ledger) (g : Grant) (now : Z) (w : bool) : BMap.wf l -> BMap.wf (claim l g now w).2.
Proof.
  intros Hwf. unfold claim. apply (BMap.bmap_retain_wf (fun _ e => now <? e)%Z) in Hwf.
  destruct (BMap.contains_key _ _); [done|]. destruct w; simpl.
  - by apply BMap.bmap_insert_wf.
  - by apply BMap.bmap_remove_wf, BMap.bmap_insert_wf.
Qed.

Lemma redeem_wf (key : string) (g : Grant) (a : ActionRef) (now : Z) (l : Ledger) (w : bool) :
  BMap.wf l -> BMap.wf (redeem key g a now l w).2.
Proof. intros Hwf. unfold redeem. destruct (verify _ _ _ _); [by apply claim_wf|done]. Qed.

(** A live entry survives a claim of any grant. *)
Lemma claim_keeps (l : Ledger) (g : Grant) (now : Z) (w : bool) (k : string) (e : Z) :
  BMap.wf l -> BMap.get k l = Some e -> (now < e)%Z -> BMap.get k (claim l g now w).2 = Some e.
Proof.
  intros Hwf Hk He. unfold claim. set (spent := BMap.retain _ l).
  assert (BMap.get k spent = Some e) as Hs.
  { apply BMap.bmap_get_retain; [done|]. split; [done|]. by apply Z.ltb_lt. }
  destruct (BMap.contains_key (g_nonce g) spent) eqn:Ec; [done|].
  assert (g_nonce g <> k) as Hne.
  { intros <-. apply not_true_iff_false in Ec. apply Ec, contains_key_get. eauto. }
  destruct w; simpl; [|rewrite BMap.bmap_get_remove_ne by done]; by rewrite BMap.bmap_get_insert_ne.
Qed.

Lemma redeem_blocked_step (key : string) (g g' : Grant) (a : ActionRef) (now now' : Z) (l : Ledger) (w : bool) :
  blocked l g now -> (now <= now')%Z -> blocked (redeem key g' a now' l w).2 g now'.
Proof.
  intros [Hwf Hb] Hle. split; [by apply redeem_wf|].
  destruct (Z.le_gt_cases (g_expires_at_ms g) now') as [?|Hlive]; [by right|].
  destruct Hb as [Hb|Hb]; [|lia]. left. unfold redeem.
  destruct (verify _ _ _ _); [|done]. by apply claim_keeps.
Qed.

Lemma redeem_blocked (key : string) (g : Grant) (a : ActionRef) (now now' : Z) (l : Ledger) (w : bool) :
  blocked l g now -> (now <= now')%Z -> is_ok (redeem key g a now' l w).1 = false.
Proof.
  intros [Hwf Hb] Hle. unfold redeem. destruct (verify key g a now') as [u|] eqn:Ev; [|done].
  apply verify_ok in Ev as (_ & _ & Hlive & _). destruct Hb as [Hb|Hb]; [|lia]. unfold claim.
  assert (BMap.contains_key (g_nonce g) (BMap.retain (fun _ e => now' <? e)%Z l) = true) as ->; [|done].
  apply contains_key_get. exists (g_expires_at_ms g). apply BMap.bmap_get_retain; [done|].
  split; [done|]. by apply Z.ltb_lt.
Qed.

Lemma redeem_ok_blocks (key : string) (g : Grant) (a : ActionRef) (now : Z) (l : Ledger) (w : bool) :
  BMap.wf l -> is_ok (redeem key g a now l w).1 = true -> blocked (redeem key g a now l w).2 g now.
Proof.
  intros Hwf Hok. split; [by apply redeem_wf|]. left. unfold redeem in *.
  destruct (verify key g a now); [|done]. unfold claim in *.
  destruct (BMap.contains_key _ _); [done|]. destruct w; [|done]. simpl.
  apply BMap.bmap_get_insert_eq.
Qed.

(** The clock does not run backwards over the attempts. *)
Definition clock_monotone (now : Z) (ats : list attempt) : Prop :=
  StronglySorted Z.le (now :: (at_now <$> ats)).

Lemma blocked_no_uses (key : string) (g : Grant) (ats : list attempt) (l : Ledger) (now : Z) :
  blocked l g now -> clock_monotone now ats -> uses g (redeem_all key l ats) = 0.
Proof.
  revert l now. induction ats as [|a ats IH]; intros l now Hb Hm; [done|].
  unfold clock_monotone in Hm. simpl in Hm. apply StronglySorted_inv in Hm as [Hm Hall].
  assert (now <= at_now a)%Z as Hle by (by apply Forall_cons in Hall as [? _]).
  pose proof (redeem_blocked_step key g (at_grant a) (at_action a) now (at_now a) l (at_write_ok a) Hb Hle) as Hb'.
  cbn [redeem_all]. destruct (redeem key (at_grant a) (at_action a) (at_now a) l (at_write_ok a))
    as [r l'] eqn:Er. simpl in Hb'. unfold uses. simpl.
  fold (uses g (redeem_all key l' ats)). specialize (IH l' (at_now a) Hb' Hm).
  case_bool_decide as Hg; simpl; [|exact IH].
  pose proof (redeem_blocked key g (at_action a) now (at_now a) l (at_write_ok a) Hb Hle) as Hno.
  rewrite <- Hg, Er in Hno. simpl in Hno. rewrite Hno. exact IH.
Qed.

(** C3. One "yes" authorizes one action: against any ledger, under a clock that does
    not run backwards, and whatever other grants are presented in between, a grant
    is redeemed at most once. *)
Theorem grant_single_use (key : string) (l : Ledger) (ats : list attempt) (now : Z) (g : Grant) :
  BMap.wf l -> clock_monotone now ats -> uses g (redeem_all key l ats) <= 1.
Proof.
  revert l now. induction ats as [|a ats IH]; intros l now Hwf Hm; [unfold uses; simpl; lia|].
  unfold clock_monotone in Hm. simpl in Hm. apply StronglySorted_inv in Hm as [Hm _].
  cbn [redeem_all]. pose proof (redeem_wf key (at_grant a) (at_action a) (at_now a) l (at_write_ok a) Hwf) as Hwf'.
  pose proof (redeem_ok_blocks key (at_grant a) (at_action a) (at_now a) l (at_write_ok a) Hwf) as Hblk.
  destruct (redeem key (at_grant a) (at_action a) (at_now a) l (at_write_ok a)) as [r l'] eqn:Er.
  simpl in *. unfold uses. simpl. fold (uses g (redeem_all key l' ats)).
  case_bool_decide as Hg; simpl; [|by eapply IH].
  destruct (is_ok r) eqn:Eok; [|by eapply IH]. simpl.
  change (length (List.filter _ _)) with (uses g (redeem_all key l' ats)).
  rewrite (blocked_no_uses key g ats l' (at_now a)); [lia| |done]. rewrite <- Hg. by apply Hblk.
Qed.

(** *** Across restarts *)

Section restart.
(** [serde_json] on the ledger's map: what is written reads back. *)
Variable print : Ledger -> string.
Variable parse : string -> option Ledger.
Hypothesis parse_print : forall l, BMap.wf l -> parse (print l) = Some l.

(** A daemon's history: attempts whose ledger writes succeed, and restarts. *)
Inductive life := LAttempt (g : Grant) (action : ActionRef) (now : Z) | LRestart.

(** The ledger in memory and the file. *)
Definition durable : Type := Ledger * option string.

Definition live_step (key : string) (st : durable) (op : life) : durable * list (Grant * result unit GrantError) :=
  match op with
  | LRestart => ((ledger_open parse st.2, st.2), [])
  | LAttempt g action now =>
      let '(r, l) := redeem key g action now st.1 true in
      ((l, if is_ok r then Some (print l) else st.2), [(g, r)])
  end.

Fixpoint live_run (key : string) (st : durable) (ops : list life) : list (Grant * result unit GrantError) :=
  match ops with
  | [] => []
  | op :: ops => let '(st, rs) := live_step key st op in rs ++ live_run key st ops
  end.

Fixpoint life_clock (now : Z) (ops : list life) : Prop :=
  match ops with
  | [] => True
  | LAttempt _ _ t :: ops => (now <= t)%Z /\ life_clock t ops
  | LRestart :: ops => life_clock now ops
  end.

(** Both the memory and the file block the grant. *)
Definition durably_blocked (st : durable) (g : Grant) (now : Z) : Prop :=
  blocked st.1 g now /\ blocked (ledger_open parse st.2) g now.

Lemma blocked_later l g now now' : (now <= now')%Z -> blocked l g now -> blocked l g now'.
Proof. intros Hle [Hwf [Hb|Hb]]; (split; [done|]); [by left|right; lia]. Qed.

Lemma durably_blocked_step key g st g' a now now' :
  durably_blocked st g now -> (now <= now')%Z ->
  durably_blocked (live_step key st (LAttempt g' a now')).1 g now'.
Proof.
  intros [Hm Hf] Hle. cbn [live_step].
  pose proof (redeem_blocked_step key g g' a now now' st.1 true Hm Hle) as Hb.
  destruct (redeem key g' a now' st.1 true) as [r l]. cbn [fst snd] in *. split; [done|]. cbn [fst snd].
  destruct (is_ok r); [|by eapply blocked_later]. unfold ledger_open. cbn.
  rewrite parse_print by apply Hb. done.
Qed.

Lemma durably_blocked_no_uses key g ops st now :
  durably_blocked st g now -> life_clock now ops -> uses g (live_run key st ops) = 0.
Proof.
  revert st now. induction ops as [|[g' a t|] ops IH]; intros st now Hb Hc; [done| |].
  - destruct Hc as [Hle Hc]. pose proof (durably_blocked_step key g st g' a now t Hb Hle) as Hb'.
    pose proof (redeem_blocked key g a now t st.1 true (proj1 Hb) Hle) as Hno.
    cbn [live_run live_step] in *. destruct (redeem key g' a t st.1 true) as [r l] eqn:Er.
    cbn [app]. specialize (IH _ t Hb' Hc). cbn [fst] in IH. unfold uses in *. cbn [List.filter fst snd].
    case_bool_decide as Hg; [|exact IH]. subst g'. rewrite Er in Hno. cbn [fst] in Hno. rewrite Hno in *. exact IH.
  - cbn [live_run live_step app]. apply (IH _ now); [|done]. by split; apply Hb.
Qed.

Lemma live_uses key g ops l0 f0 now :
  BMap.wf l0 -> BMap.wf (ledger_open parse f0) -> life_clock now ops ->
  uses g (live_run key (l0, f0) ops) <= 1.
Proof.
  revert l0 f0 now. induction ops as [|[g' a t|] ops IH]; intros l0 f0 now Hwf Hwf' Hc; [unfold uses; cbn; lia| |].
  - destruct Hc as [_ Hc]. pose proof (redeem_wf key g' a t l0 true Hwf) as Hwf1.
    pose proof (redeem_ok_blocks key g' a t l0 true Hwf) as Hblk.
    cbn [live_run live_step fst snd]. destruct (redeem key g' a t l0 true) as [r l]. cbn [fst snd app] in *.
    assert (ledger_open parse (Some (print l)) = l) as Hopen by (unfold ledger_open; cbn; by rewrite parse_print).
    unfold uses. cbn [List.filter fst snd]. destruct (is_ok r); [|rewrite andb_false_r; by apply (IH l f0 t)].
    rewrite andb_true_r. case_bool_decide; [subst g'|apply (IH l (Some (print l)) t); [done|by rewrite Hopen|done]].
    cbn [length]. fold (uses g (live_run key (l, Some (print l)) ops)).
    rewrite (durably_blocked_no_uses key g ops (l, Some (print l)) t); [lia| |done].
    split; [by apply Hblk|]. cbn [snd]. rewrite Hopen. by apply Hblk.
  - cbn [live_run live_step app]. by apply (IH _ _ now).
Qed.

(** The ledger's file carries single use over restarts: starting from nothing on disk,
    under a clock that does not run backwards, a grant is redeemed at most once
    however often the daemon is restarted in between. *)
Theorem single_use_across_restarts (key : string) (ops : list life) (now : Z) (g : Grant) :
  life_clock now ops -> uses g (live_run key ([], None) ops) <= 1.
Proof. intros Hc. apply (live_uses key g ops [] None now); [constructor|constructor|done]. Qed.
End restart.
End grants.

(** If the clock is set back, the ledger forgets: entries pruned as expired let the
    same grant be redeemed again. *)
Theorem grant_reused_after_clock_rollback :
  let hmac := fun _ m => m in
  let id := fun s : string => s in
  let act := mkActionRef "s" "Bash" "f" in
  let g := mint id hmac "k" act 1000 100 "n" in
  let other := mint id hmac "k" act 2000 100 "m" in
  redeem_all id hmac "k" []
    [mkAttempt g act 1000 true; mkAttempt other act 2000 true; mkAttempt g act 1000 true]
  = [(g, Ok tt); (other, Ok tt); (g, Ok tt)].
Proof. by vm_compute. Qed.

(** The ledger file is rewritten in place.  A write that fails after truncating the
    file loses the nonces it held: after a restart, a grant already redeemed is
    redeemed again. *)
Theorem grant_reused_after_torn_write :
  let hmac := fun _ m => m in
  let id := fun s : string => s in
  let act := mkActionRef "s" "Bash" "f" in
  let g := mint id hmac "k" act 1000 100 "n" in
  let other := mint id hmac "k" act 1000 100 "m" in
  let parse := fun text : string => if Str.is_empty text then None else Some [("n", 1100%Z)] in
  let '(r1, l1) := redeem id hmac "k" g act 1000 [] true in
  let '(r2, l2) := redeem id hmac "k" other act 1001 l1 false in
  r1 = Ok tt /\ r2 = Err AlreadyUsed /\
  (redeem id hmac "k" g act 1002 l2 true).1 = Err AlreadyUsed /\
  (redeem id hmac "k" g act 1002 (ledger_open parse (Some EmptyString)) true).1 = Ok tt.
Proof. by vm_compute. Qed.

(** ** Witnesses *)

(** A toy key schedule on which the operations compute. *)
Definition demo_hmac (_ m : string) : string := m.
Definition demo_id (s : string) : string := s.
Definition demo_action : ActionRef := mkActionRef "s" "Bash" "f".
Definition demo_grant : Grant := mint demo_id demo_hmac "k" demo_action 1000 100 "n".

Lemma grant_single_use_witness :
  uses demo_grant (redeem_all demo_id demo_hmac "k" []
    [mkAttempt demo_grant demo_action 1000 true; mkAttempt demo_grant demo_action 1001 true]) <= 1.
Proof.
  apply (grant_single_use demo_id demo_hmac "k" []
    [mkAttempt demo_grant demo_action 1000 true; mkAttempt demo_grant demo_action 1001 true] 999 demo_grant).
  - constructor.
  - unfold clock_monotone. simpl. repeat constructor; lia.
Defined.

Lemma signing_input_injective_witness :
  set_signature demo_grant "other" = set_signature demo_grant (g_signature (set_signature demo_grant "other")).
Proof.
  apply (signing_input_injective demo_grant (set_signature demo_grant "other")).
  - split; [repeat constructor; vm_compute; intuition discriminate|split; vm_compute; intuition discriminate].
  - split; [repeat constructor; vm_compute; intuition discriminate|split; vm_compute; intuition discriminate].
  - reflexivity.
Defined.

Lemma mint_verify_witness :
  verify demo_id demo_hmac "k" demo_grant demo_action 1050 = Ok tt /\
  verify demo_id demo_hmac "k" demo_grant (mkActionRef "s" "Bash" "g") 1050 = Err ActionMismatch.
Proof.
  destruct (mint_verify demo_id demo_hmac "k" demo_action (mkActionRef "s" "Bash" "g") 1000 100 1050 "n")
    as [H1 H2].
  - unfold in_u64, u64_max. lia.
  - unfold in_u64, u64_max. lia.
  - unfold sat_add64, u64_max. lia.
  - split; [exact H1|]. apply H2. discriminate.
Defined.

(** A ledger text: as many marks as the number that encodes the map. *)
Definition demo_print (l : Ledger) : string :=
  String.concat EmptyString (repeat "x" (Pos.to_nat (countable.encode (l : list (string * Z))))).
Definition demo_parse (text : string) : option Ledger := countable.decode (Pos.of_nat (Str.len text)).

Lemma demo_parse_print (l : Ledger) : BMap.wf l -> demo_parse (demo_print l) = Some l.
Proof.
  intros _. unfold demo_parse, demo_print.
  assert (forall n, Str.len (String.concat EmptyString (repeat "x" n)) = n) as Hlen.
  { induction n as [|[|n] IH]; [done|done|]. cbn [repeat String.concat] in *.
    rewrite Str.len_app, Str.app_nil_l. cbn [repeat] in IH. rewrite IH. done. }
  rewrite Hlen, Pos2Nat.id. apply decode_encode.
Qed.

Lemma single_use_across_restarts_witness :
  exists (print : Ledger -> string) (parse : string -> option Ledger),
    (forall l, BMap.wf l -> parse (print l) = Some l) /\
    uses demo_grant (live_run demo_id demo_hmac print parse "k" ([], None)
      [LAttempt demo_grant demo_action 1000; LRestart; LAttempt demo_grant demo_action 1001]) <= 1.
Proof.
  exists demo_print, demo_parse. split; [exact demo_parse_print|].
  apply (single_use_across_restarts demo_id demo_hmac demo_print demo_parse demo_parse_print "k"
    [LAttempt demo_grant demo_action 1000; LRestart; LAttempt demo_grant demo_action 1001] 999 demo_grant).
  repeat split; lia.
Defined.
