(* ===== verification/PinStore.v ===== *)
(** The manifest pin store and the tool-name registry
    ([crates/agentfw/src/mcp/store.rs]).  The pin directory is a map from file names
    to file contents; serde's record format and SHA-256 are parameters. *)
From S2P Require Import Prelude BTree F32 Json Event Normalize Grant Manifest.
From Stdlib Require Import String Ascii.
From stdpp Require Import gmap strings.
#[local] Abbreviation length := List.length.

Definition MAX_HISTORY : nat := 10.
Definition MAX_STEM : nat := 64.
Definition STEM_DIGEST_HEX : nat := 8.

Record PinnedManifest := mkPinned {
  pin_hash : string;
  pin_tools : list ToolDecl;
  pin_recorded_at_ms : Z
}.

Record ServerRecord := mkServerRecord {
  rec_current : option PinnedManifest;
  rec_history : list PinnedManifest
}.
Definition ServerRecord_default : ServerRecord := mkServerRecord None [].

#[export] Instance PinnedManifest_eq_dec : EqDecision PinnedManifest.
Proof. solve_decision. Defined.
#[export] Instance ServerRecord_eq_dec : EqDecision ServerRecord.
Proof. solve_decision. Defined.

(** The files of the pin directory, by name. *)
Abbreviation Disk := (gmap string string).

(** What the file system does with one [put_manifest]: how far [fs::write] gets, and
    whether [set_permissions] succeeds. *)
Inductive WriteOutcome := Written | NotOpened | Partial (bytes : nat).
Record IoOutcome := mkIo { io_write : WriteOutcome; io_chmod_ok : bool }.

Definition stem (server : string) : string :=
  of_chars (take MAX_STEM (safe_chars (chars server))).

Section store.
Variable sha256_hex : string -> string.
Variable parse_record : string -> option ServerRecord.
Variable show_record : ServerRecord -> string.

Definition safe_name (server : string) : string :=
  stem server +:+ "-" +:+ Str.take STEM_DIGEST_HEX (sha256_hex server).

Definition path (server : string) : string := safe_name server +:+ ".json".
Definition pre_unique_path (server : string) : string := stem server +:+ ".json".
Definition legacy_path (server : string) : string := stem server +:+ ".pin".

Definition legacy_record (d : Disk) (server : string) : option ServerRecord :=
  hash ← d !! legacy_path server;
  let hash := Str.trim hash in
  if Str.is_empty hash then None else Some (mkServerRecord (Some (mkPinned hash [] 0)) []).

Definition read_record (d : Disk) (server : string) : ServerRecord :=
  match d !! path server ≫= parse_record with
  | Some record => record
  | None =>
      match d !! pre_unique_path server ≫= parse_record with
      | Some record => record
      | None => default ServerRecord_default (legacy_record d server)
      end
  end.

Definition get_pinned (d : Disk) (server : string) : option PinnedManifest :=
  rec_current (read_record d server).
Definition get (d : Disk) (server : string) : option string := pin_hash <$> get_pinned d server.
Definition history (d : Disk) (server : string) : list PinnedManifest :=
  rec_history (read_record d server).

(** The record [put_manifest] writes. *)
Definition next_record (record : ServerRecord) (hash : string) (tools : list ToolDecl)
    (recorded_at_ms : Z) : ServerRecord :=
  let history := match rec_current record with
    | Some previous =>
        if decide (pin_hash previous = hash) then rec_history record
        else take MAX_HISTORY (previous :: rec_history record)
    | None => rec_history record
    end in
  mkServerRecord (Some (mkPinned hash tools recorded_at_ms)) history.

Definition put_manifest (d : Disk) (server hash : string) (tools : list ToolDecl)
    (recorded_at_ms : Z) (io : IoOutcome) : bool * Disk :=
  let body := show_record (next_record (read_record d server) hash tools recorded_at_ms) in
  match io_write io with
  | NotOpened => (false, d)
  | Partial n => (false, <[path server := Str.take n body]> d)
  | Written =>
      let d' := <[path server := body]> d in
      if negb (io_chmod_ok io) then (false, d')
      else (true, delete (pre_unique_path server) (delete (legacy_path server) d'))
  end.

(** ** File names *)

Hypothesis digest_len : forall s, Str.len (sha256_hex s) = 64.

Lemma path_ne_pre_unique (s : string) : path s <> pre_unique_path s.
Proof.
  unfold path, pre_unique_path, safe_name. intros Heq%(f_equal Str.len).
  rewrite !Str.len_app, Str.len_take, digest_len in Heq. simpl in Heq. unfold STEM_DIGEST_HEX in Heq. lia.
Qed.

Lemma app_inj_tail_len (s s' t t' : string) :
  Str.len t = Str.len t' -> s +:+ t = s' +:+ t' -> s = s' /\ t = t'.
Proof.
  intros Hlen Heq. apply Str.app_inj_len; [|done].
  apply (f_equal Str.len) in Heq. rewrite !Str.len_app in Heq. lia.
Qed.

Lemma json_ne_pin (a b : string) : a +:+ ".json" <> b +:+ ".pin".
Proof.
  intros Heq. destruct (app_inj_tail_len (a +:+ ".") b "json" ".pin"); [done| |done].
  by rewrite Str.app_assoc.
Qed.

(** The name is injective up to the digest prefix. *)
Lemma path_inj (s s' : string) :
  path s = path s' ->
  stem s = stem s' /\ Str.take STEM_DIGEST_HEX (sha256_hex s) = Str.take STEM_DIGEST_HEX (sha256_hex s').
Proof.
  unfold path, safe_name. intros [Heq _]%app_inj_tail_len; [|done].
  apply app_inj_tail_len in Heq as [Hs Hd]; [|by rewrite !Str.len_app, !Str.len_take, !digest_len].
  split; [done|]. by apply Str.app_inv_head in Hd.
Qed.

Lemma put_path (d : Disk) (server hash : string) (tools : list ToolDecl) (at_ms : Z) :
  (put_manifest d server hash tools at_ms (mkIo Written true)).2 !! path server =
  Some (show_record (next_record (read_record d server) hash tools at_ms)).
Proof.
  simpl. rewrite lookup_delete_ne by (intros Heq; symmetry in Heq; by apply path_ne_pre_unique in Heq).
  rewrite lookup_delete_ne by (intros Heq; symmetry in Heq; by apply json_ne_pin in Heq).
  apply lookup_insert_eq.
Qed.

(** Reading back what was written. *)
Lemma put_read (d : Disk) (server hash : string) (tools : list ToolDecl) (at_ms : Z) :
  let r' := next_record (read_record d server) hash tools at_ms in
  parse_record (show_record r') = Some r' ->
  read_record (put_manifest d server hash tools at_ms (mkIo Written true)).2 server = r'.
Proof.
  intros r' Hrt. unfold read_record at 1. rewrite put_path. fold r'. cbn [mbind option_bind]. by rewrite Hrt.
Qed.

Lemma next_record_history (r : ServerRecord) (hash : string) (tools : list ToolDecl) (at_ms : Z) :
  length (rec_history (next_record r hash tools at_ms)) <= max MAX_HISTORY (length (rec_history r)).
Proof.
  unfold next_record. cbn [rec_history]. destruct (rec_current r) as [p|]; [|lia].
  case_decide; [lia|]. rewrite length_take. lia.
Qed.

(** A pin that was stored is the pin that is read back, the manifest it replaced heads
    the history exactly when its hash differs, and the history stays bounded by what it
    was or by [MAX_HISTORY]. *)
Theorem put_then_get (d : Disk) (server hash : string) (tools : list ToolDecl) (at_ms : Z) :
  let r := read_record d server in
  let r' := next_record r hash tools at_ms in
  let d' := (put_manifest d server hash tools at_ms (mkIo Written true)).2 in
  parse_record (show_record r') = Some r' ->
  get_pinned d' server = Some (mkPinned hash tools at_ms) /\
  history d' server =
    match get_pinned d server with
    | Some previous => if decide (pin_hash previous = hash) then history d server
                       else take MAX_HISTORY (previous :: history d server)
    | None => history d server
    end /\
  length (history d' server) <= max MAX_HISTORY (length (history d server)).
Proof.
  intros r r' d' Hrt.
  pose proof (put_read d server hash tools at_ms Hrt) as Hr. fold d' in Hr.
  unfold get_pinned, history. rewrite Hr. split_and!; [done|done|]. apply next_record_history.
Qed.

(** A record under its unique name is not disturbed by another server's write, whatever
    the file system does, unless the names clash. *)
Theorem put_isolated (d : Disk) (server other hash : string) (tools : list ToolDecl) (at_ms : Z)
    (io : IoOutcome) :
  path other <> path server -> path other <> pre_unique_path server ->
  is_Some (d !! path other ≫= parse_record) ->
  read_record (put_manifest d server hash tools at_ms io).2 other = read_record d other.
Proof.
  intros Hp Hu [r Hr]. set (d' := (put_manifest d server hash tools at_ms io).2).
  assert (d' !! path other = d !! path other) as Heq; [|unfold read_record; by rewrite Heq, Hr].
  subst d'.
  unfold put_manifest. destruct (io_write io); cbn [snd]; [|done|by rewrite lookup_insert_ne].
  assert (legacy_path server <> path other) as Hl
    by (intros Heq; symmetry in Heq; by apply json_ne_pin in Heq).
  destruct (io_chmod_ok io); simpl; by rewrite ?lookup_delete_ne, ?lookup_insert_ne.
Qed.

(** A server id that reads like another server's file name takes that server's record
    for its own old one, and its first write deletes it: here the id
    [foo-2c26b46b] and the digest that [foo] has under SHA-256. *)
Theorem lookalike_id_deletes_pin (d : Disk) (text hash : string) (r : ServerRecord)
    (tools : list ToolDecl) (at_ms : Z) :
  Str.take STEM_DIGEST_HEX (sha256_hex "foo") = "2c26b46b" ->
  d !! path "foo" = Some text -> parse_record text = Some r ->
  d !! path "foo-2c26b46b" = None -> d !! "foo.json" = None -> d !! "foo.pin" = None ->
  let d' := (put_manifest d "foo-2c26b46b" hash tools at_ms (mkIo Written true)).2 in
  read_record d "foo" = r /\ read_record d "foo-2c26b46b" = r /\
  get d' "foo" = None.
Proof.
  intros Hdig Htext Hparse Hno Hpre Hleg d'.
  assert (path "foo" = "foo-2c26b46b.json") as Hpath by (unfold path, safe_name; by rewrite Hdig).
  assert (pre_unique_path "foo-2c26b46b" = path "foo") as Hpu by by rewrite Hpath.
  assert (read_record d "foo" = r) as Hfoo by (unfold read_record; by rewrite Htext; simpl; rewrite Hparse).
  assert (path "foo-2c26b46b" <> "foo.json" /\ path "foo-2c26b46b" <> "foo.pin") as [Hn1 Hn2].
  { split; [|apply json_ne_pin with (b:="foo")]. intros Heq%(f_equal Str.len). unfold path, safe_name in Heq.
    rewrite !Str.len_app, Str.len_take, digest_len in Heq. done. }
  split; [done|]. split.
  { unfold read_record. rewrite Hno. simpl. rewrite Hpu, Htext. simpl. by rewrite Hparse. }
  unfold get, get_pinned, read_record, legacy_record.
  change (pre_unique_path "foo") with "foo.json". change (legacy_path "foo") with "foo.pin".
  assert (d' !! path "foo" = None) as -> by (unfold d'; simpl; rewrite Hpu; apply lookup_delete_eq).
  assert (forall k, d !! k = None -> path "foo-2c26b46b" <> k -> d' !! k = None) as Hnone.
  { intros k Hk Hne. unfold d'. simpl. rewrite !lookup_delete_None, lookup_insert_ne by done. auto. }
  by rewrite (Hnone "foo.json"), (Hnone "foo.pin").
Qed.
End store.

(** ** The tool-name registry *)

Definition BUILTINS : list string :=
  ["Read"; "Write"; "Edit"; "Bash"; "Glob"; "Grep"; "WebFetch"; "WebSearch"; "Task"].

Abbreviation ToolRegistry := (gmap string string).

Definition with_builtins : ToolRegistry :=
  fold_left (fun m b => <[b := "<builtin>"]> m) BUILTINS ∅.

Definition owned_by_other (m : ToolRegistry) (server name : string) : bool :=
  match m !! name with Some o => negb (bool_decide (o = server)) | None => false end.

Definition shadows (m : ToolRegistry) (server : string) (names : list string) : option string :=
  List.find (owned_by_other m server) names.

Definition record_one (server : string) (m : ToolRegistry) (n : string) : ToolRegistry :=
  match m !! n with Some _ => m | None => <[n := server]> m end.

Definition record (m : ToolRegistry) (server : string) (names : list string) : ToolRegistry :=
  fold_left (record_one server) names m.

Definition seed_registry (d : Disk) : ToolRegistry := with_builtins.

(** A daemon run: the handshakes it records, in order. *)
Definition record_all (m : ToolRegistry) (hs : list (string * list string)) : ToolRegistry :=
  fold_left (fun m h => record m h.1 h.2) hs m.

Lemma record_one_spec (server n k : string) (m : ToolRegistry) :
  record_one server m n !! k = match m !! k with Some o => Some o | None =>
    if decide (k = n) then Some server else None end.
Proof.
  unfold record_one. destruct (m !! n) eqn:E.
  - destruct (m !! k) eqn:Ek; [done|]. case_decide; [by subst; rewrite E in Ek|done].
  - destruct (decide (k = n)) as [->|Hne]; [by rewrite lookup_insert_eq, E|].
    rewrite lookup_insert_ne by done. by destruct (m !! k).
Qed.

(** First owner wins: recording never moves an owned name, and gives a free name to
    the server exactly when it declares it. *)
Lemma record_spec (server k : string) (names : list string) (m : ToolRegistry) :
  record m server names !! k = match m !! k with Some o => Some o | None =>
    if decide (k ∈ names) then Some server else None end.
Proof.
  unfold record. revert m. induction names as [|n names IH]; intros m; simpl.
  { by destruct (m !! k). }
  rewrite IH, record_one_spec. destruct (m !! k) eqn:E; [done|].
  repeat case_decide; set_solver.
Qed.

Lemma record_all_keeps (hs : list (string * list string)) (m : ToolRegistry) (k o : string) :
  m !! k = Some o -> record_all m hs !! k = Some o.
Proof.
  unfold record_all. revert m. induction hs as [|h hs IH]; intros m Hk; [done|]. simpl.
  apply IH. by rewrite record_spec, Hk.
Qed.

Lemma shadows_some (m : ToolRegistry) (server name o : string) (names : list string) :
  name ∈ names -> m !! name = Some o -> o <> server -> is_Some (shadows m server names).
Proof.
  intros Hin Hk Hne. unfold shadows. destruct (List.find _ names) eqn:E; [eauto|].
  apply find_none with (x:=name) in E; [|by apply list_elem_of_In].
  unfold owned_by_other in E. rewrite Hk in E. case_bool_decide; done.
Qed.

Lemma builtin_owner (b : string) : b ∈ BUILTINS -> with_builtins !! b = Some "<builtin>".
Proof. rewrite list_elem_of_In. simpl. intuition (subst; reflexivity). Qed.

(** Shadowing is caught across a whole run: once a server [s1] has declared a tool name
    nobody owned, or the name is a builtin, every later handshake of another server that
    declares it is flagged, whatever was recorded in between; and what is flagged is a
    declared name with another owner. *)
Theorem shadowing_detected (before after : list (string * list string)) (s1 s2 name : string)
    (names1 names2 : list string) :
  name ∈ names1 -> record_all with_builtins before !! name = None -> s1 <> s2 -> name ∈ names2 ->
  let m := record_all with_builtins (before ++ (s1, names1) :: after) in
  is_Some (shadows m s2 names2) /\
  (forall flagged, shadows m s2 names2 = Some flagged ->
     flagged ∈ names2 /\ exists o, m !! flagged = Some o /\ o <> s2).
Proof.
  intros Hin1 Hfree Hne Hin2 m. split.
  - apply (shadows_some _ _ name s1); [done| |done]. unfold m, record_all. rewrite fold_left_app. simpl.
    apply (record_all_keeps after). rewrite record_spec. unfold record_all in Hfree. rewrite Hfree.
    by rewrite decide_True.
  - intros fl [Hfl Hown]%find_some. split; [by apply list_elem_of_In|].
    unfold owned_by_other in Hown. destruct (m !! fl) as [o|]; [|done].
    exists o. split; [done|]. by apply negb_true_iff, bool_decide_eq_false in Hown.
Qed.

(** A builtin name declared by any server is flagged at every point of a run. *)
Theorem builtins_shadowed (d : Disk) (hs : list (string * list string)) (server b : string)
    (names : list string) :
  b ∈ BUILTINS -> b ∈ names -> server <> "<builtin>" ->
  is_Some (shadows (record_all (seed_registry d) hs) server names).
Proof.
  intros Hb Hin Hne. apply (shadows_some _ _ b "<builtin>"); [done| |congruence].
  by apply record_all_keeps, builtin_owner.
Qed.

(** ** Witnesses *)

(** A digest of the right length, and record files that hold one given record. *)
Definition demo_zeros : string := "0000000000000000000000000000000000000000000000000000000000000000".
Definition demo_digest (s : string) : string := Str.take 64 (s +:+ demo_zeros).
Lemma demo_digest_len (s : string) : Str.len (demo_digest s) = 64.
Proof. unfold demo_digest. rewrite Str.len_take, Str.len_app. change (Str.len demo_zeros) with 64. lia. Qed.

Definition demo_pin : ServerRecord := mkServerRecord (Some (mkPinned "h1" [] 7)) [].

Lemma put_then_get_witness :
  get_pinned demo_digest (fun _ => Some demo_pin)
    (put_manifest demo_digest (fun _ => Some demo_pin) (fun _ => "{}") ∅ "github" "h1" [] 7 (mkIo Written true)).2
    "github" = Some (mkPinned "h1" [] 7).
Proof.
  apply (put_then_get demo_digest (fun _ => Some demo_pin) (fun _ => "{}") demo_digest_len ∅ "github" "h1" [] 7).
  reflexivity.
Defined.

Lemma shadowing_detected_witness :
  is_Some (shadows (record_all with_builtins [("a", ["list"]); ("b", ["search"])]) "c" ["list"]).
Proof.
  apply (shadowing_detected [] [("b", ["search"])] "a" "c" "list" ["list"] ["list"]).
  - left.
  - reflexivity.
  - discriminate.
  - left.
Defined.
