(* ===== verification/HookMap.v ===== *)
(** From a hook payload to an agent event ([crates/agentfw/src/hook.rs], [map.rs],
    [provenance.rs]) and the bearer check ([token.rs]).  Paths are those of a Unix
    host; [serde_json]'s rendering is a parameter. *)
From S2P Require Import Prelude BTree Platform F32 Json Masking Event Spans.
From Stdlib Require Import String Ascii.
#[local] Abbreviation length := List.length.

(** ** [token.rs] *)

Definition token_verify (token header : string) : bool :=
  match Str.strip_prefix "Bearer " header with
  | None => false
  | Some presented => if Str.is_empty presented then false else bool_decide (presented = token)
  end.

(** ** [hook.rs] *)

Inductive HookEvent := PreToolUse | PostToolUse | SubagentStop | HSessionStart | HSessionEnd | Other.

#[export] Instance HookEvent_eq_dec : EqDecision HookEvent.
Proof. solve_decision. Defined.

Definition hook_event_as_str (e : HookEvent) : string :=
  match e with
  | PreToolUse => "pre_tool_use"
  | PostToolUse => "post_tool_use"
  | SubagentStop => "subagent_stop"
  | HSessionStart => "session_start"
  | HSessionEnd => "session_end"
  | Other => "unknown"
  end.

Record HookPayload := mkHookPayload {
  hp_session_id : string;
  hp_event : HookEvent;
  hp_cwd : option string;
  hp_tool_name : option string;
  hp_tool_input : Value;
  hp_tool_use_id : option string;
  hp_tool_response : Value;
  hp_agent_id : option string;
  hp_agent_type : option string;
  hp_last_assistant_message : option string
}.

(** ** [provenance.rs] *)

Definition NETWORK_TOOLS : list string := ["WebFetch"; "WebSearch"].
Definition PATH_TOOLS : list string := ["Read"; "Grep"; "Glob"; "NotebookRead"].

(** [s.split_once(pat)]. *)
Fixpoint split_once (pat s : string) : option (string * string) :=
  match Str.strip_prefix pat s with
  | Some rest => Some (EmptyString, rest)
  | None =>
      match s with
      | EmptyString => None
      | String a s' => match split_once pat s' with Some (l, r) => Some (String a l, r) | None => None end
      end
  end.

(** [s.split(pat).next()] for a string pattern. *)
Definition before (pat s : string) : string :=
  match split_once pat s with Some (l, _) => l | None => s end.

(** A component of [Path::components]. *)
Inductive Component := RootDir | CurDir | ParentDir | Normal (name : string).

(** A segment between separators; [first] at the start of a relative path. *)
Definition segment (first : bool) (s : string) : list Component :=
  if Str.is_empty s then []
  else if bool_decide (s = ".") then (if first then [CurDir] else [])
  else if bool_decide (s = "..") then [ParentDir]
  else [Normal s].

Definition is_slash (a : ascii) : bool := bool_decide (a = "/"%char).
Definition is_absolute (p : string) : bool := Str.starts_with "/" p.

Definition components (p : string) : list Component :=
  let segs := Str.split is_slash p in
  if is_absolute p then RootDir :: mjoin (segment false <$> segs)
  else match segs with
       | [] => []
       | s :: segs' => segment true s ++ mjoin (segment false <$> segs')
       end.

(** A [PathBuf] built from root and normal components only. *)
Record PathBuf := mkPathBuf { pb_root : bool; pb_names : list string }.

#[export] Instance PathBuf_eq_dec : EqDecision PathBuf.
Proof. solve_decision. Defined.

Definition norm_step (out : PathBuf) (c : Component) : PathBuf :=
  match c with
  | ParentDir => mkPathBuf (pb_root out) (removelast (pb_names out))
  | CurDir => out
  | RootDir => mkPathBuf true []
  | Normal s => mkPathBuf (pb_root out) (pb_names out ++ [s])
  end.

Definition norm (p : string) : PathBuf := fold_left norm_step (components p) (mkPathBuf false []).

Fixpoint is_prefix (l l' : list string) : bool :=
  match l, l' with
  | [], _ => true
  | x :: l, y :: l' => bool_decide (x = y) && is_prefix l l'
  | _ :: _, [] => false
  end.

(** [Path::starts_with] on the components; the empty path is a prefix of every path. *)
Definition path_starts_with (p base : PathBuf) : bool :=
  if pb_root base then pb_root p && is_prefix (pb_names base) (pb_names p)
  else match pb_names base with
       | [] => true
       | _ => negb (pb_root p) && is_prefix (pb_names base) (pb_names p)
       end.

Definition is_inside (path root : string) : bool := path_starts_with (norm path) (norm root).

(** [Path::new(root).join(p)]. *)
Definition path_join (root p : string) : string :=
  if is_absolute p then p
  else if Str.is_empty root || Str.ends_with "/" root then root +:+ p
  else root +:+ "/" +:+ p.

Section map.
Context `{UnicodeTables}.
Variable json_to_string : Value -> string.

Definition host_of (url : string) : option string :=
  '(_, rest) ← split_once "://" url;
  let authority := default EmptyString (head (Str.split (fun a => bool_decide (a ∈ ["/"%char; "?"%char; "#"%char])) rest)) in
  let hostport := default EmptyString (last (Str.split_char "@" authority)) in
  let host := default EmptyString (head (Str.split_char ":" hostport)) in
  if Str.is_empty host then None else Some (to_lowercase host).

(** The path argument of a path tool. *)
Definition path_arg (args : Value) : option string :=
  v ← match value_get "file_path" args with
      | Some v => Some v
      | None => match value_get "path" args with
                | Some v => Some v
                | None => value_get "notebook_path" args
                end
      end;
  as_str v.

Definition decide_rest (tool : string) (args : Value) (cwd : option string) : Provenance :=
  if bool_decide (tool ∈ NETWORK_TOOLS) then
    Network (default "unknown" (v ← value_get "url" args; s ← as_str v; host_of s))
  else if bool_decide (tool ∈ PATH_TOOLS) then
    match path_arg args, cwd with
    | Some p, Some root =>
        let joined := if is_absolute p then p else path_join root p in
        if is_inside joined root then LocalProject else LocalSystem
    | _, _ => LocalSystem
    end
  else LocalSystem.

(** Where did this tool's output come from? *)
Definition decide_provenance (tool : string) (args : Value) (cwd : option string) : Provenance :=
  match before "__" <$> Str.strip_prefix "mcp__" tool with
  | Some server => if Str.is_empty server then decide_rest tool args cwd else McpServer server
  | None => decide_rest tool args cwd
  end.

Definition response_text (p : HookPayload) : string :=
  match hp_tool_response p with
  | JNull => EmptyString
  | JString s => s
  | JObject o => match BMap.get "text" o with
                 | Some (JString s) => s
                 | _ => json_to_string (hp_tool_response p)
                 end
  | other => json_to_string other
  end.

(** ** [map.rs] *)

Definition truncate (s : string) (max : nat) : string * bool :=
  if Str.len s <=? max then (s, false) else (Str.take (boundary_below s max) s, true).

Record Mapped := mkMapped { mp_event : AgentEvent; mp_truncated : bool }.

Definition to_event (p : HookPayload) (seq at_ms : Z) (max_bytes : nat) : option Mapped :=
  if Str.is_empty (hp_session_id p) then None
  else
    '(kind, truncated) ← match hp_event p with
      | PreToolUse => Some (ToolCall (default EmptyString (hp_tool_name p)) (hp_tool_input p), false)
      | PostToolUse =>
          let tool := default EmptyString (hp_tool_name p) in
          let source := decide_provenance tool (hp_tool_input p) (hp_cwd p) in
          let '(content, cut) := truncate (response_text p) max_bytes in
          Some (ToolResult tool content source, cut)
      | SubagentStop =>
          let '(content, cut) := truncate (default EmptyString (hp_last_assistant_message p)) max_bytes in
          Some (SubagentReport (default "subagent" (hp_agent_type p)) content, cut)
      | HSessionStart => Some (SessionStart, false)
      | HSessionEnd => Some (SessionEnd, false)
      | Other => None
      end;
    Some (mkMapped (mkEvent (hp_session_id p) "main" None seq at_ms kind) truncated).
End map.

(** ** Properties *)

Lemma split_app (sep : ascii -> bool) (c : ascii) (s t : string) :
  sep c = true -> Str.split sep (s +:+ String c t) = Str.split sep s ++ Str.split sep t.
Proof.
  intros Hc. induction s as [|a s IH].
  - rewrite Str.app_nil_l. simpl. by rewrite Hc.
  - rewrite Str.app_cons. simpl. destruct (sep a); [by rewrite IH|].
    rewrite IH. destruct (Str.split sep s) eqn:E; [|done]. destruct s; simpl in E; [done|].
    repeat case_match; done.
Qed.

(** A leading [.] makes no difference, so a path normalizes segment by segment. *)
Lemma fold_components (p : string) (out : PathBuf) :
  is_absolute p = false ->
  fold_left norm_step (components p) out =
  fold_left norm_step (mjoin (segment false <$> Str.split is_slash p)) out.
Proof.
  intros Hp. unfold components. rewrite Hp. destruct (Str.split is_slash p) as [|s segs]; [done|].
  rewrite fmap_cons. simpl. rewrite !fold_left_app. f_equal.
  unfold segment. repeat case_match; done.
Qed.

Lemma norm_absolute (p : string) :
  is_absolute p = true ->
  norm p = fold_left norm_step (mjoin (segment false <$> Str.split is_slash p)) (mkPathBuf true []).
Proof. intros Hp. unfold norm, components. by rewrite Hp. Qed.

Lemma starts_with_slash (s t : string) : is_absolute s = true -> is_absolute (s +:+ t) = true.
Proof.
  unfold is_absolute. intros [r ->]%Str.starts_with_spec. rewrite Str.app_assoc.
  apply Str.starts_with_app.
Qed.

(** Joining a relative path walks its components from the normalized root. *)
Lemma norm_join (root p : string) :
  is_absolute root = true -> is_absolute p = false ->
  norm (path_join root p) = fold_left norm_step (components p) (norm root).
Proof.
  intros Hr Hp. rewrite fold_components by done. unfold path_join. rewrite Hp.
  assert (Str.is_empty root = false) as -> by by destruct root.
  assert (forall r0, root = r0 +:+ "/" \/ root = r0 ->
    is_absolute (r0 +:+ "/" +:+ p) = true ->
    norm (r0 +:+ "/" +:+ p) =
    fold_left norm_step (mjoin (segment false <$> Str.split is_slash p)) (norm root)) as Hmain.
  { intros r0 Hr0 Habs. rewrite !norm_absolute by done.
    change ("/" +:+ p) with (String "/" p). rewrite split_app by done.
    rewrite fmap_app, join_app, fold_left_app. f_equal. destruct Hr0 as [->| ->]; [|done].
    change "/" with (String "/" EmptyString). rewrite split_app by done.
    by rewrite fmap_app, join_app, fold_left_app. }
  destruct (Str.ends_with "/" root) eqn:E; simpl.
  - apply Str.ends_with_spec in E as [r0 Hr0]. rewrite Hr0, Str.app_assoc, <- Hr0. apply Hmain; [by left|].
    rewrite <- Str.app_assoc, <- Hr0. by apply starts_with_slash.
  - apply Hmain; [by right|]. by apply starts_with_slash.
Qed.

Lemma is_prefix_spec (l l' : list string) : is_prefix l l' = true <-> exists rest, l' = l ++ rest.
Proof.
  revert l'. induction l as [|x l IH]; intros l'; simpl; [naive_solver|].
  destruct l' as [|y l']; [naive_solver|]. rewrite andb_true_iff, bool_decide_eq_true, IH. naive_solver.
Qed.

Lemma is_prefix_app (l l1 l2 : list string) : is_prefix (l ++ l1) (l ++ l2) = is_prefix l1 l2.
Proof. induction l as [|x l IH]; [done|]. simpl. by rewrite bool_decide_eq_true_2. Qed.

Lemma norm_parents (k : nat) (out : PathBuf) :
  fold_left norm_step (repeat ParentDir k) out =
  mkPathBuf (pb_root out) (take (length (pb_names out) - k) (pb_names out)).
Proof.
  revert out. induction k as [|k IH]; intros out; simpl.
  { rewrite Nat.sub_0_r, firstn_all. by destruct out. }
  rewrite IH. simpl. f_equal. rewrite removelast_firstn_len, length_take, take_take. f_equal. lia.
Qed.

Lemma norm_normals (ns : list string) (out : PathBuf) :
  fold_left norm_step (Normal <$> ns) out = mkPathBuf (pb_root out) (pb_names out ++ ns).
Proof.
  revert out. induction ns as [|n ns IH]; intros out; simpl.
  { rewrite app_nil_r. by destruct out. }
  rewrite IH. simpl. by rewrite <- app_assoc.
Qed.

Lemma segments_root (segs : list string) (out : PathBuf) :
  pb_root (fold_left norm_step (mjoin (segment false <$> segs)) out) = pb_root out.
Proof.
  revert out. induction segs as [|s segs IH]; intros out; [done|].
  rewrite fmap_cons. simpl. rewrite fold_left_app, IH. unfold segment. repeat case_match; done.
Qed.

Lemma norm_rooted (p : string) : is_absolute p = true -> pb_root (norm p) = true.
Proof. intros Hp. rewrite norm_absolute by done. by rewrite segments_root. Qed.

(** Traversals do not masquerade: a path that climbs [k] directories from an absolute
    project root and then descends along [ns] is inside the project exactly when [ns]
    spells out again the last [k] directories of the root (all of them when it climbs
    past [/]), compared name by name. *)
Theorem traversal_spec (root p : string) (k : nat) (ns : list string) :
  is_absolute root = true -> is_absolute p = false ->
  components p = repeat ParentDir k ++ (Normal <$> ns) ->
  let dirs := pb_names (norm root) in
  is_inside (path_join root p) root = true <->
  exists rest, ns = drop (length dirs - k) dirs ++ rest.
Proof.
  intros Hr Hp Hc dirs. unfold is_inside. rewrite norm_join, Hc, fold_left_app by done.
  rewrite norm_parents, norm_normals. unfold path_starts_with. cbn [pb_root pb_names].
  rewrite norm_rooted by done. simpl. fold dirs.
  rewrite <- (take_drop (length dirs - k) dirs) at 1. by rewrite is_prefix_app, is_prefix_spec.
Qed.

Section provenance_facts.
Context `{UnicodeTables}.

Lemma decide_rest_trust (tool : string) (args : Value) (cwd : option string) :
  trust (decide_rest tool args cwd) = Untrusted <-> tool ∈ NETWORK_TOOLS.
Proof.
  unfold decide_rest. case_bool_decide; [done|].
  repeat case_match; simpl; done.
Qed.

(** What counts as untrusted: exactly the tools of a named MCP server and the network
    tools, whatever the arguments and the working directory are. *)
Theorem untrusted_tools_iff (tool : string) (args : Value) (cwd : option string) :
  trust (decide_provenance tool args cwd) = Untrusted <->
  (exists rest, tool = "mcp__" +:+ rest /\ before "__" rest <> EmptyString) \/ tool ∈ NETWORK_TOOLS.
Proof.
  unfold decide_provenance. destruct (Str.strip_prefix "mcp__" tool) as [rest|] eqn:E;
    cbn [fmap option_fmap option_map].
  - apply Str.strip_prefix_spec in E as ->.
    destruct (before "__" rest) as [|a s] eqn:Eb; cbn [Str.is_empty].
    + rewrite decide_rest_trust. split; [by right|]. intros [(r & Hr%Str.app_inv_head & Hne)|]; [|done].
      by subst.
    + split; [|done]. intros _. left. exists rest. by rewrite Eb.
  - rewrite decide_rest_trust. split; [by right|]. intros [(r & -> & _)|]; [|done].
    exfalso. assert (Str.strip_prefix "mcp__" ("mcp__" +:+ r) = Some r) as Hs
      by by apply Str.strip_prefix_spec. congruence.
Qed.
End provenance_facts.

(** An IPv6 host is cut at its first colon. *)
Theorem host_of_ipv6_cut :
  host_of (H:=ascii_tables) "http://[2001:db8::1]/x" = Some "[2001".
Proof. reflexivity. Qed.

(** The bearer check accepts one header only, and none for an empty token. *)
Theorem token_verify_iff (token header : string) :
  token_verify token header = true <-> header = "Bearer " +:+ token /\ token <> EmptyString.
Proof.
  unfold token_verify. destruct (Str.strip_prefix "Bearer " header) as [pr|] eqn:E.
  - apply Str.strip_prefix_spec in E as ->. destruct pr as [|a pr]; simpl.
    + split; [done|]. intros [Heq Hne]. by apply Str.app_inv_head in Heq; subst.
    + rewrite bool_decide_eq_true. split; [by intros <-|]. by intros [Heq%(Str.app_inv_head "Bearer ") _].
  - split; [done|]. intros [-> _].
    assert (Str.strip_prefix "Bearer " ("Bearer " +:+ token) = Some token) as Hs
      by by apply Str.strip_prefix_spec. congruence.
Qed.

(** ** Witness *)

Lemma traversal_spec_witness : is_inside (path_join "/home/u/proj" "../proj-secrets/key") "/home/u/proj" = false.
Proof.
  destruct (traversal_spec "/home/u/proj" "../proj-secrets/key" 1 ["proj-secrets"; "key"]) as [Hl _].
  - reflexivity.
  - reflexivity.
  - reflexivity.
  - apply not_true_iff_false. intros Hin. destruct (Hl Hin) as [rest Hr]. discriminate Hr.
Defined.
