(* ===== verification/Config.v ===== *)
(** The daemon's configuration and what it refuses ([crates/agentfw/src/config.rs]). *)
From S2P Require Import Prelude Spans Judge HookMap.
From Stdlib Require Import String Ascii.
#[local] Abbreviation length := List.length.

Record NativeCfg := mkNativeCfg { nc_registry_path : string; nc_registry_sha256 : string }.

Record Config := mkConfig {
  cf_bind : string;
  cf_port : Z;
  cf_enforce : bool;
  cf_policy : option string;
  cf_audit : option string;
  cf_capture_unknown_raw : bool;
  cf_max_record_bytes : nat;
  cf_deterministic_timeout_ms : Z;
  cf_max_body_bytes : Z;
  cf_judge : JudgeCfg;
  cf_native : option NativeCfg
}.

Definition default_judge : JudgeCfg :=
  mkJudgeCfg false "http://localhost:1234/v1/chat/completions" "local-model" 3000 (Z.to_nat 4096).

Definition config_default : Config :=
  mkConfig "127.0.0.1" 8787 false None None false (Z.to_nat 262144) 100 (8 * 1024 * 1024) default_judge None.

Definition is_authority_end (a : ascii) : bool := bool_decide (a ∈ ["/"%char; "?"%char; "#"%char]).

(** [authority.rfind(':')] and the two sides of it. *)
Fixpoint rsplit_once (c : ascii) (s : string) : option (string * string) :=
  match s with
  | EmptyString => None
  | String a s' =>
      match rsplit_once c s' with
      | Some (l, r) => Some (String a l, r)
      | None => if bool_decide (a = c) then Some (EmptyString, s') else None
      end
  end.

Definition strip_port (authority : string) : string :=
  match rsplit_once ":" authority with
  | Some (host, port) =>
      if negb (Str.is_empty port) && Str.forallb Str.is_digit port then host else authority
  | None => authority
  end.

Definition url_host (url : string) : option string :=
  '(_, after_scheme) ← split_once "://" url;
  let authority := default EmptyString (head (Str.split is_authority_end after_scheme)) in
  let authority := match rsplit_once "@" authority with Some (_, h) => h | None => authority end in
  match Str.strip_prefix "[" authority with
  | Some rest => head (Str.split_char "]" rest)
  | None => Some (strip_port authority)
  end.

Definition LOOPBACK : list string := ["localhost"; "127.0.0.1"; "::1"].

Definition is_loopback_url (url : string) : bool :=
  match url_host url with
  | Some host => bool_decide (Str.to_ascii_lowercase host ∈ LOOPBACK)
  | None => false
  end.

(** [native::is_digest]: 64 lowercase hexadecimal digits. *)
Definition is_digest (value : string) : bool :=
  bool_decide (Str.len value = 64)
  && Str.forallb (fun b => Str.is_digit b || Str.byte_in b 97 102) value.

Inductive ConfigError := NativeNeedsEnforce | BadNativeRegistry | BindNotLoopback | JudgeTimeout | JudgeNotLoopback.

Definition validate (c : Config) : result unit ConfigError :=
  let? _ := match cf_native c with
            | None => Ok tt
            | Some native =>
                bail_if (negb (cf_enforce c && negb (jc_enabled (cf_judge c)))) with NativeNeedsEnforce in
                bail_if (negb (is_absolute (nc_registry_path native) && is_digest (nc_registry_sha256 native)))
                  with BadNativeRegistry in
                Ok tt
            end in
  bail_if (negb (bool_decide (cf_bind c ∈ ["127.0.0.1"; "::1"; "localhost"]))) with BindNotLoopback in
  if jc_enabled (cf_judge c) then
    bail_if (4000 <? jc_timeout_ms (cf_judge c))%Z with JudgeTimeout in
    bail_if (negb (is_loopback_url (jc_url (cf_judge c)))) with JudgeNotLoopback in
    Ok tt
  else Ok tt.

Section address.
(** Decimal rendering of the port. *)
Variable show_port : Z -> string.

Definition socket_address (c : Config) : string :=
  if bool_decide (cf_bind c = "::1") then "[" +:+ cf_bind c +:+ "]:" +:+ show_port (cf_port c)
  else cf_bind c +:+ ":" +:+ show_port (cf_port c).

Definition endpoint_url (c : Config) (path : string) : string :=
  "http://" +:+ socket_address c +:+ path.
End address.

(** ** Properties *)

(** Bytes a plain host name may not have. *)
Definition host_char (a : ascii) : bool :=
  negb (bool_decide (a ∈ ["/"%char; "?"%char; "#"%char; "@"%char; ":"%char; "["%char])).

Lemma split_once_colon (scheme rest : string) :
  Str.forallb host_char scheme = true -> split_once "://" (scheme +:+ "://" +:+ rest) = Some (scheme, rest).
Proof.
  induction scheme as [|a scheme IH]; simpl; [done|]. rewrite andb_true_iff. intros [Ha Hs].
  rewrite IH by done. case_decide as Hd; [|done]. subst a. done.
Qed.

Lemma split_head_app (sep : ascii -> bool) (s t : string) :
  Str.forallb (fun a => negb (sep a)) s = true -> (t = EmptyString \/ exists a t', t = String a t' /\ sep a = true) ->
  head (Str.split sep (s +:+ t)) = Some s.
Proof.
  intros Hs Ht. induction s as [|a s IH]; simpl in *.
  - rewrite Str.app_nil_l. destruct Ht as [->|(a & t' & -> & Ha)]; simpl; [done|]. by rewrite Ha.
  - apply andb_true_iff in Hs as [Ha%negb_true_iff Hs]. rewrite Ha. specialize (IH Hs).
    destruct (Str.split sep (s +:+ t)); [done|]. simpl in *. congruence.
Qed.

Lemma rsplit_once_none (c : ascii) (s : string) :
  Str.forallb (fun a => negb (bool_decide (a = c))) s = true -> rsplit_once c s = None.
Proof.
  induction s as [|a s IH]; simpl; [done|]. rewrite andb_true_iff, negb_true_iff. intros [Ha Hs].
  by rewrite IH, Ha.
Qed.

Lemma rsplit_once_app (c : ascii) (s t : string) :
  Str.forallb (fun a => negb (bool_decide (a = c))) t = true ->
  rsplit_once c (s +:+ String c t) = Some (s, t).
Proof.
  intros Ht. induction s as [|a s IH]; simpl.
  - rewrite rsplit_once_none by done. by rewrite bool_decide_true.
  - by rewrite IH.
Qed.

Lemma forallb_weaken (p q : ascii -> bool) (s : string) :
  (forall a, p a = true -> q a = true) -> Str.forallb p s = true -> Str.forallb q s = true.
Proof.
  intros Hpq. induction s as [|a s IH]; simpl; [done|]. rewrite !andb_true_iff. naive_solver.
Qed.

Lemma forallb_app_2 (p : ascii -> bool) (s t : string) :
  Str.forallb p s = true -> Str.forallb p t = true -> Str.forallb p (s +:+ t) = true.
Proof. intros. rewrite Str.forallb_app. by apply andb_true_iff. Qed.

Lemma host_char_not (a c : ascii) :
  c ∈ ["/"%char; "?"%char; "#"%char; "@"%char; ":"%char; "["%char] ->
  host_char a = true -> bool_decide (a = c) = false.
Proof.
  unfold host_char. intros Hc Ha. apply bool_decide_eq_false. intros ->.
  by rewrite bool_decide_true in Ha.
Qed.

Lemma host_not_ends (s : string) : Str.forallb host_char s = true ->
  Str.forallb (fun a => negb (is_authority_end a)) s = true.
Proof.
  apply forallb_weaken. intros a Ha. unfold is_authority_end. rewrite negb_true_iff.
  apply bool_decide_eq_false. unfold host_char in Ha.
  apply negb_true_iff, bool_decide_eq_false in Ha. set_solver.
Qed.

Lemma host_not_char (c : ascii) (s : string) :
  c ∈ ["/"%char; "?"%char; "#"%char; "@"%char; ":"%char; "["%char] -> Str.forallb host_char s = true ->
  Str.forallb (fun a => negb (bool_decide (a = c))) s = true.
Proof. intros Hc. apply forallb_weaken. intros a Ha. by rewrite (host_char_not a c). Qed.

Definition port_text (port : option string) : string :=
  match port with Some d => ":" +:+ d | None => EmptyString end.
Definition user_text (user : option string) : string :=
  match user with Some u => u +:+ "@" | None => EmptyString end.

Definition valid_port (port : option string) : Prop :=
  forall d, port = Some d -> d <> EmptyString /\ Str.forallb Str.is_digit d = true.
Definition valid_user (user : option string) : Prop :=
  forall u, user = Some u -> Str.forallb (fun a => negb (is_authority_end a)) u = true.

Lemma digits_not (c : ascii) (d : string) :
  Str.is_digit c = false -> Str.forallb Str.is_digit d = true ->
  Str.forallb (fun a => negb (bool_decide (a = c))) d = true.
Proof.
  intros Hc. apply forallb_weaken. intros a Ha. apply negb_true_iff, bool_decide_eq_false. congruence.
Qed.

Lemma digits_not_ends (d : string) :
  Str.forallb Str.is_digit d = true -> Str.forallb (fun a => negb (is_authority_end a)) d = true.
Proof.
  apply forallb_weaken. intros a Ha. apply negb_true_iff, bool_decide_eq_false.
  intros Hin. repeat (apply elem_of_cons in Hin as [->|Hin]; [done|]). by apply not_elem_of_nil in Hin.
Qed.

Lemma strip_port_host (host : string) (port : option string) :
  Str.forallb host_char host = true -> valid_port port -> strip_port (host +:+ port_text port) = host.
Proof.
  intros Hh Hp. unfold strip_port. destruct port as [d|]; cbn [port_text].
  - destruct (Hp d eq_refl) as [Hne Hd]. change (":" +:+ d) with (String ":" d).
    rewrite rsplit_once_app by by apply digits_not.
    rewrite Hd. by destruct d.
  - rewrite Str.app_nil_r, rsplit_once_none; [done|]. apply host_not_char; set_solver.
Qed.

(** The host the check reads from a URL with a plain host name is that host name:
    credentials, a port and everything after the authority are ignored. *)
Lemma url_host_plain (scheme host tail : string) (user port : option string) :
  Str.forallb host_char scheme = true -> Str.forallb host_char host = true ->
  valid_user user -> valid_port port ->
  (tail = EmptyString \/ exists a t, tail = String a t /\ is_authority_end a = true) ->
  host <> EmptyString ->
  url_host (scheme +:+ "://" +:+ user_text user +:+ host +:+ port_text port +:+ tail) = Some host.
Proof.
  intros Hs Hh Hu Hp Ht Hne. unfold url_host. rewrite split_once_colon by done. cbn [mbind option_bind].
  assert (Str.forallb (fun a => negb (is_authority_end a)) (port_text port) = true) as Hpe.
  { destruct port as [d|]; [|done]. destruct (Hp d eq_refl) as [_ Hd]. cbn [port_text].
    by apply forallb_app_2, digits_not_ends. }
  assert (Str.forallb (fun a => negb (bool_decide (a = "@"%char))) (host +:+ port_text port) = true) as Hat.
  { apply forallb_app_2; [apply host_not_char; set_solver|]. destruct port as [d|]; [|done].
    destruct (Hp d eq_refl) as [_ Hd]. cbn [port_text]. by apply forallb_app_2, digits_not. }
  assert (Str.forallb (fun a => negb (is_authority_end a)) (user_text user) = true) as Hue.
  { destruct user as [u|]; [|done]. cbn [user_text]. by apply forallb_app_2; [apply Hu|]. }
  replace (user_text user +:+ host +:+ port_text port +:+ tail)
    with ((user_text user +:+ host +:+ port_text port) +:+ tail) by by rewrite !Str.app_assoc.
  rewrite split_head_app; [|apply forallb_app_2; [done|]; apply forallb_app_2; [by apply host_not_ends|done]|done]. cbn [from_option id].
  assert (match rsplit_once "@" (user_text user +:+ host +:+ port_text port) with
          | Some (_, h) => h | None => user_text user +:+ host +:+ port_text port end
          = host +:+ port_text port) as ->.
  { destruct user as [u|]; cbn [user_text].
    - rewrite Str.app_assoc. change ("@" +:+ ?x) with (String "@" x). by rewrite rsplit_once_app.
    - by rewrite Str.app_nil_l, rsplit_once_none. }
  destruct (Str.strip_prefix "[" (host +:+ port_text port)) eqn:E.
  - exfalso. destruct host as [|a host]; [done|]. simpl in Hh, E. apply andb_true_iff in Hh as [Ha _].
    case_decide; [|done]. by subst a.
  - by rewrite strip_port_host.
Qed.

(** Lookalike host names do not pass: a URL with a plain host name is accepted
    exactly when that whole name is a loopback name, whatever its credentials, port
    and path are. *)
Theorem loopback_exact (scheme host tail : string) (user port : option string) :
  Str.forallb host_char scheme = true -> Str.forallb host_char host = true ->
  valid_user user -> valid_port port ->
  (tail = EmptyString \/ exists a t, tail = String a t /\ is_authority_end a = true) ->
  host <> EmptyString ->
  is_loopback_url (scheme +:+ "://" +:+ user_text user +:+ host +:+ port_text port +:+ tail) = true <->
  Str.to_ascii_lowercase host ∈ LOOPBACK.
Proof.
  intros. unfold is_loopback_url. rewrite url_host_plain by done. by rewrite bool_decide_eq_true.
Qed.

(** A backslash does not end the authority here, although URL parsers of web schemes
    treat it as a slash: the check reads the host after the [@]. *)
Theorem backslash_passes_loopback_check :
  url_host ("http://evil.com" +:+ String "092" "@localhost/") = Some "localhost" /\
  is_loopback_url ("http://evil.com" +:+ String "092" "@localhost/") = true.
Proof. by vm_compute. Qed.

(** What a configuration that is accepted guarantees: the daemon binds to loopback, an
    enabled judge is on loopback and answers before the hook times out, and native
    admission enforces without a judge. *)
Theorem validate_guarantees (c : Config) (u : unit) :
  validate c = Ok u ->
  cf_bind c ∈ ["127.0.0.1"; "::1"; "localhost"] /\
  (jc_enabled (cf_judge c) = true ->
     is_loopback_url (jc_url (cf_judge c)) = true /\ (jc_timeout_ms (cf_judge c) <= 4000)%Z /\
     cf_native c = None) /\
  (forall n, cf_native c = Some n -> cf_enforce c = true /\ is_digest (nc_registry_sha256 n) = true).
Proof.
  unfold validate. intros Hv.
  destruct (cf_native c) as [n|] eqn:En; simpl in Hv.
  - destruct (cf_enforce c); [|done]. destruct (jc_enabled (cf_judge c)); [done|]. simpl in Hv.
    destruct (is_absolute _ && is_digest _) eqn:Ed; [|done]. simpl in Hv.
    apply andb_true_iff in Ed as [_ Ed].
    case_bool_decide; [|done]. split_and!; [done|done|]. by intros ? [= <-].
  - case_bool_decide; [|done]. simpl in Hv. split_and!; [done| |done].
    intros Hj. rewrite Hj in Hv. destruct (Z.ltb_spec 4000 (jc_timeout_ms (cf_judge c))); [done|].
    destruct (is_loopback_url _); done.
Qed.

(** ** Witness *)

Lemma loopback_exact_witness :
  is_loopback_url "http://user@localhost.evil.com:1234/v1" = false /\
  is_loopback_url "http://LOCALHOST:1234/v1" = true.
Proof.
  assert (forall u, valid_user (Some u) <-> Str.forallb (fun a => negb (is_authority_end a)) u = true) as Hu.
  { intros u. split; [intros Hv; by apply Hv|by intros ? ? [= <-]]. }
  assert (valid_port (Some "1234")) as Hp by (intros d [= <-]; split; [discriminate|reflexivity]).
  split.
  - apply not_true_iff_false. intros Hl.
    apply (loopback_exact "http" "localhost.evil.com" "/v1" (Some "user") (Some "1234")) in Hl.
    + apply (bool_decide_eq_true_2 _) in Hl. vm_compute in Hl. discriminate.
    + reflexivity.
    + reflexivity.
    + by apply Hu.
    + exact Hp.
    + right. by exists "/"%char, "v1".
    + discriminate.
  - apply (loopback_exact "http" "LOCALHOST" "/v1" None (Some "1234")).
    + reflexivity.
    + reflexivity.
    + intros u [=].
    + exact Hp.
    + right. by exists "/"%char, "v1".
    + discriminate.
    + change ("localhost" ∈ LOOPBACK). left.
Defined.
