(* ===== verification/Resources.v ===== *)
(** Resource extraction from tool arguments ([crates/agentfw/src/mcp/resources.rs]):
    reviewed selectors read destinations out of the arguments of a call and turn each
    into a canonical path, URL, domain or recipient.  The URL parser of [reqwest], the
    file system, the digest and the JSON printer are parameters. *)
From S2P Require Import Prelude BTree Platform F32 Json Net Event Action Egress HookMap Config.
From Stdlib Require Import String Ascii.
#[local] Abbreviation length := List.length.

Definition MAX_CONTENT : nat := Z.to_nat 262144.

(** ** Data *)

Inductive ResourceKind := KPath | KUrl | KDomain | KRecipient.
#[export] Instance ResourceKind_eq_dec : EqDecision ResourceKind.
Proof. solve_decision. Defined.

Record Selector := mkSelector {
  sl_pointer : string;
  sl_kind : ResourceKind;
  sl_aliases : list string;
  sl_optional : bool;
  sl_default : option Value;
  sl_allow_missing_leaf : bool
}.

Record ResourceProfile := mkProfile {
  rp_server_id : string;
  rp_tool_name : string;
  rp_schema_sha256 : string;
  rp_selectors : list Selector
}.

Record ExecutorContext := mkExecutor {
  ex_os : string;
  ex_workspace : string;
  ex_cwd : string;
  ex_fixed_destinations : bool
}.

Inductive Resource :=
| RPath (canonical : string)
| RUrl (canonical host : string) (port : Z)
| RDomain (host : string)
| RRecipient (address domain : string).
#[export] Instance Resource_eq_dec : EqDecision Resource.
Proof. solve_decision. Defined.

Inductive EvidenceSource := Argument | ReviewedDefault.
#[export] Instance EvidenceSource_eq_dec : EqDecision EvidenceSource.
Proof. solve_decision. Defined.

Record ResourceEvidence := mkEvidence {
  re_pointer : string;
  re_source : EvidenceSource;
  re_resource : Resource
}.
#[export] Instance ResourceEvidence_eq_dec : EqDecision ResourceEvidence.
Proof. solve_decision. Defined.

Record ExtractionIssue := mkIssue { is_pointer : string; is_reason : string }.

Record Extraction := mkExtraction {
  xt_server_id : string;
  xt_tool_name : string;
  xt_schema_sha256 : string;
  xt_args_sha256 : string;
  xt_profile_sha256 : string;
  xt_snapshot_sha256 : string;
  xt_executor_sha256 : string;
  xt_resources : list ResourceEvidence;
  xt_issues : list ExtractionIssue;
  xt_omitted_optional : list string
}.

(** [admission.rs]: a call as the collector describes it. *)
Record Invocation := mkInvocation {
  iv_server_id : string;
  iv_host_call_id : Value;
  iv_registry_sha256 : string;
  iv_snapshot_sha256 : string;
  iv_schema_sha256 : string;
  iv_tool : string;
  iv_description : string;
  iv_schema : Value;
  iv_definition : Value;
  iv_server_info : Value;
  iv_definition_sha256 : string;
  iv_input_sha256 : string;
  iv_classifier_revision : option string;
  iv_args : Value;
  iv_baseline : ActionClass
}.

(** *** Their [Serialize] implementations *)

Definition obj (l : list (string * Value)) : Value := JObject (BMap.of_list l).
Definition opt_value (o : option Value) : Value := default JNull o.

Definition kind_str (k : ResourceKind) : string :=
  match k with KPath => "path" | KUrl => "url" | KDomain => "domain" | KRecipient => "recipient" end.

Definition selector_value (s : Selector) : Value :=
  obj [("pointer", JString (sl_pointer s)); ("kind", JString (kind_str (sl_kind s)));
       ("aliases", JArray (JString <$> sl_aliases s)); ("optional", JBool (sl_optional s));
       ("default", opt_value (sl_default s)); ("allow_missing_leaf", JBool (sl_allow_missing_leaf s))].

Definition profile_value (p : ResourceProfile) : Value :=
  obj [("server_id", JString (rp_server_id p)); ("tool_name", JString (rp_tool_name p));
       ("schema_sha256", JString (rp_schema_sha256 p));
       ("selectors", JArray (selector_value <$> rp_selectors p))].

Definition resource_value (r : Resource) : Value :=
  match r with
  | RPath c => obj [("kind", JString "path"); ("canonical", JString c)]
  | RUrl c h p => obj [("kind", JString "url"); ("canonical", JString c); ("host", JString h);
                       ("port", JNumber (PosInt p))]
  | RDomain h => obj [("kind", JString "domain"); ("host", JString h)]
  | RRecipient a d => obj [("kind", JString "recipient"); ("address", JString a); ("domain", JString d)]
  end.

Definition evidence_value (e : ResourceEvidence) : Value :=
  obj [("pointer", JString (re_pointer e));
       ("source", JString (match re_source e with Argument => "argument" | ReviewedDefault => "reviewed_default" end));
       ("resource", resource_value (re_resource e))].

(** ** Completeness and the host projection *)

Definition complete (x : Extraction) : bool :=
  bool_decide (xt_issues x = []) && negb (bool_decide (xt_resources x = [])).

Fixpoint project_hosts (rs : list ResourceEvidence) (hosts : BSet.t string) :
    result (BSet.t string) string :=
  match rs with
  | [] => Ok hosts
  | e :: rs' =>
      match re_resource e with
      | RUrl _ host _ | RDomain host => project_hosts rs' (BSet.insert host hosts)
      | RRecipient _ domain => project_hosts rs' (BSet.insert domain hosts)
      | RPath _ => Err "resource_path_policy_binding_unsupported"
      end
  end.

Definition hosts_for_policy (x : Extraction) : result (list string) string :=
  if negb (complete x) then Err "resource_extraction_incomplete"
  else project_hosts (xt_resources x) [].

(** ** Pointers *)

(** Every [~] is followed by [0] or [1]; the byte after it is consumed with it. *)
Fixpoint tildes_ok (s : string) : bool :=
  match s with
  | EmptyString => true
  | String a s' =>
      if bool_decide (a = "~"%char)
      then match s' with
           | String b s'' => (bool_decide (b = "0"%char) || bool_decide (b = "1"%char)) && tildes_ok s''
           | EmptyString => false
           end
      else tildes_ok s'
  end.

Definition valid_pointer (value : string) : bool :=
  if negb (Str.starts_with "/" value) || (256 <? Str.len value) || has_control value then false
  else tildes_ok value.

Definition bounded_text (text : string) : bool :=
  negb (Str.is_empty text) && (Str.len text <=? 4096) && negb (has_control text).

(** The key a reference token stands for. *)
Definition unescape (part : string) : string := Str.replace "~0" "~" (Str.replace "~1" "/" part).

(** One step into a container: the member, nothing there, or an error. *)
Definition descend (current : Value) (key : string) : result (option Value) string :=
  match current with
  | JObject m => Ok (BMap.get key m)
  | JArray items =>
      match parse_usize key with
      | None => Err "resource_pointer_ambiguous"
      | Some index =>
          if negb (bool_decide (show_usize index = key)) then Err "resource_pointer_ambiguous"
          else Ok (items !! Z.to_nat index)
      end
  | _ => Err "resource_container_type"
  end.

Fixpoint select_go (current : Value) (parts : list string) : result (option Value) string :=
  match parts with
  | [] => Ok (Some current)
  | part :: parts' =>
      match descend current (unescape part) with
      | Err e => Err e
      | Ok None => Ok None
      | Ok (Some value) => select_go value parts'
      end
  end.

(** [pointer[1..].split('/')] *)
Definition selected (args : Value) (pointer : string) : result (option Value) string :=
  select_go args (Str.split_char "/" (Str.drop 1 pointer)).

(** ** Domains, recipients and URLs *)

Definition label_ok (part : string) : bool :=
  negb (Str.is_empty part) && (Str.len part <=? 63) && negb (Str.starts_with "-" part)
  && negb (Str.ends_with "-" part)
  && Str.forallb (fun c => Str.is_alnum c || bool_decide (c = "-"%char)) part.

Definition canonical_domain (text : string) : result string string :=
  let domain := default text (strip_suffix_char "." text) in
  if negb (bounded_text domain) || (253 <? Str.len domain)
     || Str.forallb (fun c => Str.is_digit c || bool_decide (c = "."%char)) domain
     || negb (forallb label_ok (Str.split_char "." domain))
  then Err "resource_domain_invalid"
  else Ok (Str.to_ascii_lowercase domain).

(** The bytes of [".!#$%&'*+-/=?^_`{|}~"]. *)
Definition local_punct : list N := [46;33;35;36;37;38;39;42;43;45;47;61;63;94;95;96;123;124;125;126]%N.
Definition local_byte (c : ascii) : bool := Str.is_alnum c || bool_decide (N_of_ascii c ∈ local_punct).

Definition canonical_recipient (text : string) : result (string * string) string :=
  if negb (bounded_text text) || Str.ends_with "." text then Err "resource_recipient_invalid"
  else
    match rsplit_once "@" text with
    | None => Err "resource_recipient_invalid"
    | Some (local, domain) =>
        if Str.is_empty local || (64 <? Str.len local) || Str.starts_with "." local
           || Str.ends_with "." local || Str.contains ".." local || negb (Str.forallb local_byte local)
        then Err "resource_recipient_unsupported"
        else let? domain := canonical_domain domain in Ok (local +:+ "@" +:+ domain, domain)
    end.

(** What the program reads of a [reqwest::Url]. *)
Record Url := mkUrl {
  url_text : string;
  url_username : string;
  url_password : option string;
  url_host_str : option string;
  url_port_or_known_default : option Z
}.

Definition is_bracket (a : ascii) : bool := bool_decide (a = "["%char) || bool_decide (a = "]"%char).
(** [s.trim_matches(['[', ']'])] *)
Definition trim_brackets (s : string) : string :=
  Str.trim_end_matches is_bracket (Str.trim_start_matches is_bracket s).

Section url.
(** [reqwest::Url::parse]. *)
Variable url_parse : string -> option Url.

Definition canonical_url (text : string) : result (string * string * Z) string :=
  match split_once "://" text with
  | None => Err "resource_url_unsupported"
  | Some (scheme, rest) =>
      if negb (bounded_text text) || has_whitespace text || Str.contains_char "092" text
         || negb (Str.eq_ignore_ascii_case scheme "http" || Str.eq_ignore_ascii_case scheme "https")
         || (Str.starts_with "/" rest || Str.starts_with "?" rest || Str.starts_with "#" rest)
      then Err "resource_url_unsupported"
      else
        match url_parse text with
        | None => Err "resource_url_invalid"
        | Some url =>
            if negb (Str.is_empty (url_username url)) || bool_decide (is_Some (url_password url))
            then Err "resource_url_credentials"
            else
              match url_host_str url with
              | None => Err "resource_url_host_missing"
              | Some host =>
                  let host := Str.to_ascii_lowercase (trim_brackets host) in
                  let? host := (if is_ip_addr host then Ok host else canonical_domain host) in
                  match url_port_or_known_default url with
                  | None => Err "resource_url_port_missing"
                  | Some port => Ok (url_text url, host, port)
                  end
              end
        end
  end.
End url.

(** ** Paths (on Unix) *)

Inductive FileKind := FkFile | FkDir | FkSymlink | FkSpecial.
#[export] Instance FileKind_eq_dec : EqDecision FileKind.
Proof. solve_decision. Defined.
Inductive IoError := NotFound | OtherIo.
#[export] Instance IoError_eq_dec : EqDecision IoError.
Proof. solve_decision. Defined.

(** The file system's answers; [fs_metadata] follows links, [fs_symlink_metadata]
    reports one at the end of the path. *)
Class FileSystem := {
  fs_symlink_metadata : string -> result FileKind IoError;
  fs_metadata : string -> result FileKind IoError;
  fs_canonicalize : string -> option string
}.

(** [std::fs::canonicalize] documents its result as absolute, with the intermediate
    components normalized and the links resolved. *)
Class FileSystemLaws `{FileSystem} := {
  canonicalize_normal : forall p q, fs_canonicalize p = Some q ->
    is_absolute q = true /\ ParentDir ∉ components q
}.

#[export] Instance Component_eq_dec : EqDecision Component.
Proof. solve_decision. Defined.

(** Drop the segments at the end that are no components: the empty ones, and the dots
    that do not start a relative path. *)
Fixpoint trim_segments (absolute : bool) (segs : list string) : list string :=
  match segs with
  | [] => []
  | s :: segs' =>
      match trim_segments true segs' with
      | [] => if Str.is_empty s || (absolute && bool_decide (s = ".")) then [] else [s]
      | rest => s :: rest
      end
  end.

(** [Path::parent]: the path without its last component, with no trailing separator. *)
Definition path_parent (p : string) : option string :=
  if is_absolute p then
    match trim_segments true (Str.split is_slash (Str.drop 1 p)) with
    | [] => None
    | segs => Some ("/" +:+ Str.join "/" (trim_segments true (removelast segs)))
    end
  else
    match trim_segments false (Str.split is_slash p) with
    | [] => None
    | segs => Some (Str.join "/" (trim_segments false (removelast segs)))
    end.

(** [Path::file_name]: the last component, when it is a name. *)
Definition path_file_name (p : string) : option string :=
  match last (components p) with Some (Normal s) => Some s | _ => None end.

(** [Path::ancestors]: the path and its parents. *)
Fixpoint ancestors_go (fuel : nat) (p : string) : list string :=
  p :: match fuel with
       | O => []
       | S fuel' => match path_parent p with Some q => ancestors_go fuel' q | None => [] end
       end.
Definition ancestors (p : string) : list string := ancestors_go (Str.len p) p.

(** [Path::starts_with] *)
Definition starts_with_path (p base : string) : bool :=
  bool_decide (components base `prefix_of` components p).

Section paths.
Context `{FileSystem}.
(** [std::env::consts::OS]: the host the daemon runs on. *)
Variable host_os : string.

Definition fs_exists (p : string) : bool := is_ok (fs_metadata p).
Definition fs_is_dir (p : string) : bool := bool_decide (fs_metadata p = Ok FkDir).

Fixpoint no_links_go (index : nat) (paths : list string) (missing_leaf : bool) : result unit string :=
  match paths with
  | [] => Ok tt
  | p :: paths' =>
      match fs_symlink_metadata p with
      | Ok k => if bool_decide (k = FkSymlink) then Err "resource_path_link"
                else no_links_go (S index) paths' missing_leaf
      | Err e =>
          if bool_decide (index = 0) && missing_leaf && bool_decide (e = NotFound)
          then no_links_go (S index) paths' missing_leaf
          else Err "resource_path_unavailable"
      end
  end.
Definition no_links (path : string) (missing_leaf : bool) : result unit string :=
  no_links_go 0 (ancestors path) missing_leaf.

(** The file the candidate path denotes, or would denote when its last name is missing. *)
Definition resolve_candidate (candidate : string) : result string string :=
  if fs_exists candidate then
    match fs_metadata candidate with
    | Err _ => Err "resource_path_unavailable"
    | Ok k =>
        bail_if (negb (bool_decide (k = FkFile)) && negb (bool_decide (k = FkDir)))
          with "resource_path_special_file" in
        ok_or (fs_canonicalize candidate) "resource_path_unavailable"
    end
  else
    let? parent := ok_or (path_parent candidate) "resource_path_unavailable" in
    let? parent := ok_or (fs_canonicalize parent) "resource_path_unavailable" in
    let? name := ok_or (path_file_name candidate) "resource_path_unavailable" in
    Ok (path_join parent name).

Definition canonical_path (text : string) (allow_missing : bool) (executor : ExecutorContext) :
    result string string :=
  bail_if (negb (bool_decide (ex_os executor = host_os))) with "resource_executor_os_unsupported" in
  bail_if (negb (bounded_text text) || Str.contains_char "*" text || Str.contains_char "?" text)
    with "resource_path_unsupported" in
  bail_if (Str.contains_char "092" text || Str.contains_char ":" text)
    with "resource_path_syntax_unsupported" in
  bail_if (bool_decide (ParentDir ∈ components text)) with "resource_path_traversal" in
  bail_if (negb (is_absolute (ex_workspace executor)) || negb (is_absolute (ex_cwd executor)))
    with "resource_executor_context_invalid" in
  let? _u := no_links (ex_workspace executor) false in
  let? _u := no_links (ex_cwd executor) false in
  let? root := ok_or (fs_canonicalize (ex_workspace executor)) "resource_workspace_unavailable" in
  let? cwd := ok_or (fs_canonicalize (ex_cwd executor)) "resource_cwd_unavailable" in
  bail_if (negb (fs_is_dir root) || bool_decide (path_parent root = None) || negb (fs_is_dir cwd)
           || negb (starts_with_path cwd root))
    with "resource_executor_context_invalid" in
  let candidate := if is_absolute text then text else path_join cwd text in
  let? _u := no_links candidate allow_missing in
  let? resolved := resolve_candidate candidate in
  bail_if (negb (starts_with_path resolved root)) with "resource_path_outside_workspace" in
  Ok resolved.
End paths.

(** ** Extraction *)

(** [iter.map(f).collect::<Result<Vec<_>, _>>()]: the first error, or every value. *)
Fixpoint try_map {A B E} (f : A -> result B E) (l : list A) : result (list B) E :=
  match l with
  | [] => Ok []
  | x :: l' => let? y := f x in let? ys := try_map f l' in Ok (y :: ys)
  end.

Section extraction.
Context `{FileSystem}.
Variable host_os : string.
Variable url_parse : string -> option Url.
Variable sha256_hex : string -> string.
Variable json_to_string : Value -> string.

(** The resource one text of a selector's value denotes. *)
Definition one_resource (selector : Selector) (executor : ExecutorContext) (value : Value) :
    result Resource string :=
  let? text := ok_or (as_str value) "resource_value_type" in
  match sl_kind selector with
  | KPath => let? c := canonical_path host_os text (sl_allow_missing_leaf selector) executor in Ok (RPath c)
  | KUrl => let? r := canonical_url url_parse text in Ok (RUrl r.1.1 r.1.2 r.2)
  | KDomain => let? host := canonical_domain text in Ok (RDomain host)
  | KRecipient => let? r := canonical_recipient text in Ok (RRecipient r.1 r.2)
  end.

Definition resources (value : Value) (selector : Selector) (executor : ExecutorContext) :
    result (list Resource) string :=
  let? values := (match value with
    | JString _ => Ok [value]
    | JArray items => if negb (bool_decide (items = [])) && (length items <=? 256) then Ok items
                      else Err "resource_value_missing_or_unsupported"
    | _ => Err "resource_value_missing_or_unsupported"
    end) in
  bail_if (negb (bool_decide (sl_kind selector = KPath)) && negb (ex_fixed_destinations executor))
    with "resource_destination_control_unsupported" in
  try_map (one_resource selector executor) values.

(** The parts of an [Extraction] that the loop over the selectors changes, and the
    pointers seen so far. *)
Record Progress := mkProgress {
  pg_resources : list ResourceEvidence;
  pg_issues : list ExtractionIssue;
  pg_omitted : list string;
  pg_seen : BSet.t string
}.

Definition add_issue (pointer reason : string) (g : Progress) : Progress :=
  mkProgress (pg_resources g) (pg_issues g ++ [mkIssue pointer reason]) (pg_omitted g) (pg_seen g).

(** [pointers.iter().any(|p| !valid_pointer(p) || !seen.insert(p))]: stops at the first
    pointer that is malformed or repeated. *)
Fixpoint any_unusable (pointers : list string) (seen : BSet.t string) : bool * BSet.t string :=
  match pointers with
  | [] => (false, seen)
  | p :: pointers' =>
      if negb (valid_pointer p) then (true, seen)
      else if BSet.contains p seen then (true, seen)
      else any_unusable pointers' (BSet.insert p seen)
  end.

Definition selector_pointers (s : Selector) : list string := sl_pointer s :: sl_aliases s.

Definition selector_invalid (s : Selector) (seen : BSet.t string) : bool * BSet.t string :=
  if 8 <? length (selector_pointers s) then (true, seen)
  else let '(bad, seen) := any_unusable (selector_pointers s) seen in
       if bad then (true, seen)
       else (sl_allow_missing_leaf s && negb (bool_decide (sl_kind s = KPath)), seen).

(** Look every pointer up: the values supplied, the issues, and whether one was malformed. *)
Fixpoint lookup_pointers (args : Value) (pointers : list string) :
    list (string * Value * EvidenceSource) * list ExtractionIssue :=
  match pointers with
  | [] => ([], [])
  | p :: pointers' =>
      let '(supplied, issues) := lookup_pointers args pointers' in
      match selected args p with
      | Ok (Some v) => ((p, v, Argument) :: supplied, issues)
      | Ok None => (supplied, issues)
      | Err reason => (supplied, mkIssue p reason :: issues)
      end
  end.

(** Canonicalize every supplied value; [prev] is the value of the last one that succeeded. *)
Fixpoint settle_supplied (s : Selector) (executor : ExecutorContext)
    (supplied : list (string * Value * EvidenceSource)) (prev : option (list Resource)) :
    list ResourceEvidence * list ExtractionIssue :=
  match supplied with
  | [] => ([], [])
  | (pointer, value, source) :: supplied' =>
      match resources value s executor with
      | Err reason =>
          let '(pending, issues) := settle_supplied s executor supplied' prev in
          (pending, mkIssue pointer reason :: issues)
      | Ok values =>
          let conflict := match prev with
            | Some previous => negb (bool_decide (previous = values)) | None => false end in
          let '(pending, issues) := settle_supplied s executor supplied' (Some values) in
          ((mkEvidence pointer source <$> values) ++ pending,
           (if conflict then [mkIssue pointer "resource_conflicting_fields"] else []) ++ issues)
      end
  end.

Definition extract_selector (args : Value) (executor : ExecutorContext) (g : Progress) (s : Selector) :
    Progress :=
  let '(invalid, seen) := selector_invalid s (pg_seen g) in
  let g := mkProgress (pg_resources g) (pg_issues g) (pg_omitted g) seen in
  if invalid then add_issue (sl_pointer s) "resource_selector_invalid" g
  else
    let '(supplied, malformed) := lookup_pointers args (selector_pointers s) in
    let g := mkProgress (pg_resources g) (pg_issues g ++ malformed) (pg_omitted g) (pg_seen g) in
    if negb (bool_decide (malformed = [])) then g
    else
      let go supplied :=
        let '(pending, issues) := settle_supplied s executor supplied None in
        mkProgress (pg_resources g ++ pending) (pg_issues g ++ issues) (pg_omitted g) (pg_seen g) in
      match supplied with
      | [] =>
          match sl_default s with
          | Some default => go [(sl_pointer s, default, ReviewedDefault)]
          | None =>
              if sl_optional s
              then mkProgress (pg_resources g) (pg_issues g) (pg_omitted g ++ [sl_pointer s]) (pg_seen g)
              else add_issue (sl_pointer s) "resource_missing" g
          end
      | _ => go supplied
      end.

(** A byte string as the JSON array of its bytes. *)
Definition bytes_value (s : string) : Value :=
  JArray ((fun a => JNumber (PosInt (Z.of_N (N_of_ascii a)))) <$> list_ascii_of_string s).

Definition executor_value (executor : ExecutorContext) : Value :=
  obj [("profile", JString "sou12-local-v1"); ("os", JString (ex_os executor));
       ("workspace", bytes_value (ex_workspace executor)); ("cwd", bytes_value (ex_cwd executor));
       ("fixed_destinations", JBool (ex_fixed_destinations executor))].

Definition output_of (inv : Invocation) (profile : ResourceProfile) (executor : ExecutorContext)
    (resources : list ResourceEvidence) (issues : list ExtractionIssue) (omitted : list string) : Extraction :=
  mkExtraction (iv_server_id inv) (iv_tool inv) (iv_schema_sha256 inv)
    (sha256_hex (json_to_string (iv_args inv))) (sha256_hex (json_to_string (profile_value profile)))
    (iv_snapshot_sha256 inv) (sha256_hex (json_to_string (executor_value executor)))
    resources issues omitted.

(** The profile was written for this server, tool and schema. *)
Definition profile_mismatch (inv : Invocation) (profile : ResourceProfile) : bool :=
  Str.is_empty (rp_server_id profile) || Str.is_empty (rp_tool_name profile)
  || negb (is_digest (rp_schema_sha256 profile))
  || negb (bool_decide (rp_server_id profile = iv_server_id inv))
  || negb (bool_decide (rp_tool_name profile = iv_tool inv))
  || negb (bool_decide (rp_schema_sha256 profile = iv_schema_sha256 inv)).

Definition extract (inv : Invocation) (profile : ResourceProfile) (executor : ExecutorContext) : Extraction :=
  if profile_mismatch inv profile
  then output_of inv profile executor [] [mkIssue EmptyString "resource_profile_identity_mismatch"] []
  else if negb (is_object (iv_args inv)) || (MAX_CONTENT <? Str.len (json_to_string (iv_args inv)))
          || (Z.to_nat 65536 <? Str.len (json_to_string (profile_value profile)))
          || bool_decide (rp_selectors profile = []) || (32 <? length (rp_selectors profile))
  then output_of inv profile executor [] [mkIssue EmptyString "resource_profile_or_arguments_unsupported"] []
  else
    let g := fold_left (extract_selector (iv_args inv) executor) (rp_selectors profile)
               (mkProgress [] [] [] []) in
    let issues := if bool_decide (pg_resources g = []) && bool_decide (pg_issues g = [])
                  then [mkIssue EmptyString "resource_no_destinations"] else pg_issues g in
    output_of inv profile executor (pg_resources g) issues (pg_omitted g).
End extraction.

(** ** Properties *)

Lemma lower_char_sep (c a : ascii) :
  Str.is_upper c = false -> Str.is_lower c = false ->
  bool_decide (Str.lower_char a = c) = bool_decide (a = c).
Proof.
  intros Hu Hl. apply bool_decide_ext. unfold Str.lower_char.
  destruct (Str.is_upper a) eqn:Ha; [|done].
  split; intros <-; [|congruence]. exfalso. revert Ha Hl. clear. by_byte a.
Qed.

Lemma lower_char_idem (a : ascii) : Str.lower_char (Str.lower_char a) = Str.lower_char a.
Proof. by_byte a. Qed.

Lemma lowercase_idem (s : string) :
  Str.to_ascii_lowercase (Str.to_ascii_lowercase s) = Str.to_ascii_lowercase s.
Proof.
  induction s as [|a s IH]; [done|]. unfold Str.to_ascii_lowercase in *. cbn.
  by rewrite lower_char_idem, IH.
Qed.

Lemma bounded_graphic (s : string) :
  s <> "" -> Str.len s <= 4096 -> Str.forallb graphic s = true -> bounded_text s = true.
Proof.
  intros Hne Hlen Hg. unfold bounded_text. rewrite (graphic_no_control _ Hg), (proj2 (Nat.leb_le _ _) Hlen).
  by destruct s.
Qed.

(** The bytes of a domain: letters, digits, hyphens and dots. *)
Definition domain_byte (c : ascii) : bool :=
  Str.is_alnum c || bool_decide (c = "-"%char) || bool_decide (c = "."%char).

Lemma domain_byte_graphic (c : ascii) : domain_byte c = true -> graphic c = true.
Proof. by_byte c. Qed.

Lemma starts_with_char (c : ascii) (s : string) :
  Str.starts_with (String c "") s = match s with String a _ => bool_decide (a = c) | EmptyString => false end.
Proof.
  destruct s as [|a s]; [done|]. unfold Str.starts_with. cbn.
  destruct (ascii_dec c a) as [->|Hne].
  - rewrite bool_decide_eq_true_2 by done. by destruct s.
  - by rewrite bool_decide_eq_false_2 by congruence.
Qed.

Lemma ends_with_char_lower (c : ascii) (s : string) :
  Str.is_upper c = false -> Str.is_lower c = false ->
  Str.ends_with (String c "") (Str.to_ascii_lowercase s) = Str.ends_with (String c "") s.
Proof.
  intros Hu Hl. induction s as [|a s IH]; [done|]. unfold Str.to_ascii_lowercase in *. cbn.
  rewrite IH. f_equal. apply bool_decide_ext.
  assert (Str.lower_char a = c <-> a = c) as Hs.
  { pose proof (lower_char_sep c a Hu Hl) as Hs. by repeat case_bool_decide. }
  destruct s; cbn; split; intros [= E]; f_equal; by apply Hs.
Qed.

Lemma label_ok_lower (w : string) : label_ok w = true -> label_ok (Str.to_ascii_lowercase w) = true.
Proof.
  unfold label_ok. rewrite (ends_with_char_lower "-" w), !starts_with_char by done.
  unfold Str.to_ascii_lowercase. rewrite len_map_bytes, forallb_map_bytes.
  destruct w as [|a w]; [done|]. cbn [Str.map_bytes Str.is_empty]. rewrite (lower_char_sep "-" a) by done.
  rewrite !andb_true_iff. intros [H Hb]. split; [done|].
  revert Hb. apply forallb_impl. intros b. clear. by_byte b.
Qed.

Lemma strip_suffix_spec (c : ascii) (s t : string) : strip_suffix_char c s = Some t -> s = t +:+ String c "".
Proof.
  revert t. induction s as [|a s IH]; [done|]. intros t. cbn. destruct s as [|b s].
  - case_bool_decide; [|done]. intros [= <-]. by subst.
  - intros (u & Hu & ->)%fmap_Some. by rewrite (IH u Hu).
Qed.

(** A text whose dot-separated parts are all non-empty does not end in a dot. *)
Lemma split_nonempty_no_dot (s : string) :
  Forall (fun w => Str.is_empty w = false) (Str.split_char "." s) -> strip_suffix_char "." s = None.
Proof.
  intros HF. destruct (strip_suffix_char "." s) as [t|] eqn:E; [exfalso|done].
  apply strip_suffix_spec in E as ->. unfold Str.split_char in HF.
  rewrite split_app in HF by done. apply Forall_app in HF as [_ HF].
  by apply Forall_cons in HF as [? _].
Qed.

Lemma forallb_Forall {A} (p : A -> bool) (l : list A) : forallb p l = true <-> Forall (fun x => p x = true) l.
Proof. rewrite forallb_forall, Forall_forall. by setoid_rewrite list_elem_of_In. Qed.

Lemma label_ok_parts (s : string) :
  forallb label_ok (Str.split_char "." s) = true ->
  strip_suffix_char "." s = None /\ Str.forallb domain_byte s = true.
Proof.
  rewrite forallb_Forall. intros HF. split.
  - apply split_nonempty_no_dot. eapply Forall_impl; [exact HF|]. intros w. cbn.
    unfold label_ok. destruct (Str.is_empty w); done.
  - eapply forallb_of_split; [|eapply Forall_impl; [exact HF|]].
    + intros a. clear. by_byte a.
    + intros w. cbn. unfold label_ok. rewrite !andb_true_iff. intros [_ Hw]. revert Hw.
      apply forallb_impl. intros a. clear. by_byte a.
Qed.

Lemma labels_lower (s : string) :
  forallb label_ok (Str.split_char "." s) = true ->
  forallb label_ok (Str.split_char "." (Str.to_ascii_lowercase s)) = true.
Proof.
  unfold Str.split_char, Str.to_ascii_lowercase.
  rewrite split_map_bytes by (intros; by apply lower_char_sep).
  rewrite !forallb_Forall, Forall_fmap. intros HF. eapply Forall_impl; [exact HF|].
  intros w. apply label_ok_lower.
Qed.

(** The checks of a domain without its final dot. *)
Lemma canonical_domain_inv (text d : string) :
  canonical_domain text = Ok d ->
  exists domain, d = Str.to_ascii_lowercase domain /\ bounded_text domain = true /\ Str.len domain <= 253 /\
    Str.forallb (fun c => Str.is_digit c || bool_decide (c = "."%char)) domain = false /\
    forallb label_ok (Str.split_char "." domain) = true.
Proof.
  unfold canonical_domain. set (domain := default text _). intros Hd. exists domain.
  destruct (_ || _) eqn:E in Hd; [done|]. injection Hd as <-. boolp. done.
Qed.

Lemma canonical_domain_bytes (text d : string) :
  canonical_domain text = Ok d ->
  Str.forallb domain_byte d = true /\ strip_suffix_char "." d = None /\ d <> "" /\ Str.len d <= 253.
Proof.
  intros (domain & -> & Hb & Hlen & _ & Hl)%canonical_domain_inv.
  destruct (label_ok_parts _ (labels_lower _ Hl)) as [Hs Hd].
  split_and!; [done..| |by unfold Str.to_ascii_lowercase; rewrite len_map_bytes].
  by destruct domain.
Qed.

(** A canonical domain is its own canonical form. *)
Lemma canonical_domain_stable (text d : string) :
  canonical_domain text = Ok d -> canonical_domain d = Ok d.
Proof.
  intros Hd. destruct (canonical_domain_bytes _ _ Hd) as (Hbytes & Hs & Hne & Hlen).
  destruct (canonical_domain_inv _ _ Hd) as (domain & -> & Hb & _ & Hdig & Hl).
  unfold canonical_domain. rewrite Hs. cbn [default].
  assert (bounded_text (Str.to_ascii_lowercase domain) = true) as ->.
  { apply bounded_graphic; [done|lia|]. by eapply forallb_impl; [apply domain_byte_graphic|]. }
  assert ((253 <? Str.len (Str.to_ascii_lowercase domain)) = false) as -> by (by apply Nat.ltb_ge).
  assert (Str.forallb (fun c => Str.is_digit c || bool_decide (c = "."%char)) (Str.to_ascii_lowercase domain) = false) as ->.
  { unfold Str.to_ascii_lowercase. rewrite forallb_map_bytes. refine (eq_trans _ Hdig). clear.
    induction domain as [|a s IH]; [done|]. cbn [Str.forallb]. rewrite IH. f_equal. by_byte a. }
  rewrite (labels_lower _ Hl).
  cbn. by rewrite lowercase_idem.
Qed.

Lemma ends_with_dot (s : string) : strip_suffix_char "." s = None -> Str.ends_with "." s = false.
Proof.
  induction s as [|a s IH]; [done|].
  change (Str.ends_with "." (String a s)) with (bool_decide (String a s = ".") || Str.ends_with "." s).
  cbn [strip_suffix_char]. destruct s as [|b s].
  - case_bool_decide as E; [done|]. intros _. rewrite bool_decide_eq_false_2 by congruence. done.
  - intros Hn%fmap_None. rewrite (IH Hn), bool_decide_eq_false_2 by congruence. done.
Qed.

Lemma ends_with_app_ne (c : ascii) (s t : string) :
  t <> "" -> Str.ends_with (String c "") (s +:+ t) = Str.ends_with (String c "") t.
Proof.
  intros Ht. induction s as [|a s IH]; [by rewrite Str.app_nil_l|].
  rewrite Str.app_cons. cbn [Str.ends_with]. rewrite IH, bool_decide_eq_false_2; [done|].
  destruct s, t; done.
Qed.

Lemma local_byte_graphic (c : ascii) : local_byte c = true -> graphic c = true.
Proof. by_byte c. Qed.

(** The canonical form of a mail recipient is its own canonical form: an address
    that has been canonicalized is accepted again and comes out unchanged, so comparing
    canonical forms is comparing recipients. *)
Theorem canonical_recipient_stable (text address domain : string) :
  canonical_recipient text = Ok (address, domain) ->
  canonical_recipient address = Ok (address, domain) /\ canonical_domain domain = Ok domain /\
  exists local, address = local +:+ "@" +:+ domain.
Proof.
  unfold canonical_recipient at 1. destruct (negb (bounded_text text) || _); [done|].
  destruct (rsplit_once "@" text) as [[local d]|]; [|done].
  destruct (_ || _) eqn:Hl; [done|]. destruct (canonical_domain d) as [dom|] eqn:Hd; [|done].
  intros [= <- <-]. destruct (canonical_domain_bytes _ _ Hd) as (Hbytes & Hs & Hne & Hlen).
  split_and!; [|by eapply canonical_domain_stable|by eexists].
  unfold canonical_recipient.
  assert (Str.forallb graphic dom = true) as Hg by (by eapply forallb_impl; [apply domain_byte_graphic|]).
  assert (Str.len local <= 64 /\ local <> "" /\ Str.forallb graphic local = true) as (Hll & Hlne & Hlg).
  { clear -Hl. boolp. split_and!; [done|by destruct local|].
    by eapply forallb_impl; [apply local_byte_graphic|]. }
  assert (bounded_text (local +:+ "@" +:+ dom) = true) as ->.
  { apply bounded_graphic.
    - by destruct local.
    - rewrite !Str.len_app. change (Str.len "@") with 1. lia.
    - rewrite !Str.forallb_app, Hg, Hlg. done. }
  assert (Str.ends_with "." (local +:+ "@" +:+ dom) = false) as ->.
  { rewrite <- Str.app_assoc, ends_with_app_ne by done. by apply ends_with_dot. }
  cbn [orb negb]. change ("@" +:+ dom) with (String "@" dom).
  rewrite rsplit_once_app.
  - by rewrite Hl, (canonical_domain_stable _ _ Hd).
  - revert Hbytes. apply forallb_impl. intros a. clear. by_byte a.
Qed.

(** *** Paths *)

Lemma trim_segments_prefix (b : bool) (segs : list string) : trim_segments b segs `prefix_of` segs.
Proof.
  revert b. induction segs as [|s segs IH]; intros b; cbn; [done|].
  specialize (IH true). destruct (trim_segments true segs) as [|x l]; [|by apply prefix_cons].
  destruct (_ || _); [apply prefix_nil|]. by apply prefix_cons, prefix_nil.
Qed.

(** What is left ends in a component. *)
Lemma trim_segments_last (b : bool) (segs : list string) (x : string) :
  last (trim_segments b segs) = Some x -> x <> "".
Proof.
  revert b. induction segs as [|s segs IH]; intros b; cbn; [done|].
  specialize (IH true). destruct (trim_segments true segs) as [|y l].
  - destruct (_ || _) eqn:E; [done|]. cbn. intros [= <-]. boolp. by destruct s.
  - by rewrite last_cons_cons.
Qed.

Lemma join_len_cons (s : string) (l : list string) :
  Str.len (Str.join "/" (s :: l)) =
  Str.len s + match l with [] => 0 | _ => 1 + Str.len (Str.join "/" l) end.
Proof.
  destruct l as [|t l]; [cbn; unfold Str.len; lia|].
  change (Str.join "/" (s :: t :: l)) with (s +:+ "/" +:+ Str.join "/" (t :: l)).
  by rewrite !Str.len_app.
Qed.

Lemma join_len_prefix (l k : list string) :
  l `prefix_of` k -> Str.len (Str.join "/" l) <= Str.len (Str.join "/" k).
Proof.
  revert k. induction l as [|s l IH]; intros k Hp; [cbn; lia|].
  destruct k as [|t k]; [by apply prefix_nil_not in Hp|].
  apply prefix_cons_inv_1 in Hp as Hst. apply prefix_cons_inv_2 in Hp as Hp. subst t.
  rewrite !join_len_cons. specialize (IH k Hp). destruct l, k; try lia. by apply prefix_nil_not in Hp.
Qed.

Lemma join_len_removelast (l : list string) (x : string) :
  last l = Some x -> x <> "" -> Str.len (Str.join "/" (removelast l)) < Str.len (Str.join "/" l).
Proof.
  induction l as [|s l IH]; [done|]. destruct l as [|t l].
  - intros [= ->] Hx. destruct x; [done|]. cbn. lia.
  - rewrite last_cons_cons. intros Hx Hne. specialize (IH Hx Hne).
    change (removelast (s :: t :: l)) with (s :: removelast (t :: l)).
    rewrite (join_len_cons s (t :: l)), join_len_cons. cbv iota.
    destruct (removelast (t :: l)); lia.
Qed.

Lemma removelast_prefix {A} (l : list A) : removelast l `prefix_of` l.
Proof.
  induction l as [|x [|y l] IH]; [done|apply prefix_nil|]. by apply prefix_cons.
Qed.

Lemma join_split (s : string) : Str.join "/" (Str.split is_slash s) = s.
Proof.
  induction s as [|a s IH]; [done|]. cbn [Str.split]. unfold is_slash at 1. case_bool_decide as E.
  - subst a. destruct (Str.split is_slash s) as [|w ws] eqn:Hs; [by destruct s; cbn in Hs; repeat case_match|].
    change (Str.join "/" ("" :: w :: ws)) with (String "/" (Str.join "/" (w :: ws))). by rewrite IH.
  - destruct (Str.split is_slash s) as [|w ws] eqn:Hs; [by destruct s; cbn in Hs; repeat case_match|].
    rewrite <- IH. by destruct ws.
Qed.

(** A parent is shorter. *)
Lemma path_parent_shorter (p q : string) : path_parent p = Some q -> Str.len q < Str.len p.
Proof.
  unfold path_parent. assert (forall b s segs, trim_segments b (Str.split is_slash s) = segs -> segs <> [] ->
    Str.len (Str.join "/" (trim_segments b (removelast segs))) < Str.len s) as Hlt.
  { intros b s segs Hs Hne. destruct (last segs) as [x|] eqn:Hx; [|by apply last_None in Hx].
    pose proof (join_len_removelast _ _ Hx (trim_segments_last b _ x ltac:(by rewrite Hs))) as H1.
    pose proof (join_len_prefix _ _ (trim_segments_prefix b (removelast segs))) as H2.
    pose proof (trim_segments_prefix b (Str.split is_slash s)) as H3%join_len_prefix.
    rewrite Hs in H3. rewrite join_split in H3. lia. }
  intros Hp. destruct (is_absolute p) eqn:Ha.
  - destruct (trim_segments true _) as [|s segs] eqn:E in Hp; [done|]. injection Hp as <-.
    specialize (Hlt _ _ _ E ltac:(done)). destruct p as [|a p]; [done|].
    cbn [Str.drop removelast] in Hlt. rewrite Str.len_app, (Str.len_cons a p). change (Str.len "/") with 1. lia.
  - destruct (trim_segments false _) as [|s segs] eqn:E in Hp; [done|]. injection Hp as <-.
    exact (Hlt _ _ _ E ltac:(done)).
Qed.

(** The walk over the ancestors reaches the path that has no parent. *)
Lemma ancestors_reach_root (p q : string) : last (ancestors p) = Some q -> path_parent q = None.
Proof.
  unfold ancestors. assert (forall n p, Str.len p <= n -> last (ancestors_go n p) = Some q -> path_parent q = None)
    as Hgo; [|by apply Hgo].
  clear p. induction n as [|n IH]; intros p Hn; cbn [ancestors_go].
  - intros [= <-]. destruct (path_parent p) as [r|] eqn:E; [|done]. apply path_parent_shorter in E. lia.
  - destruct (path_parent p) as [r|] eqn:E; [|cbn; by intros [= <-]].
    apply path_parent_shorter in E as Hlt. intros Hl. apply (IH r); [lia|].
    destruct n; cbn [ancestors_go] in *; by rewrite last_cons_cons in Hl.
Qed.

Lemma parent_in_split (p : string) : ParentDir ∈ components p <-> ".." ∈ Str.split is_slash p.
Proof.
  assert (forall first s, ParentDir ∈ segment first s <-> s = "..") as Hseg.
  { intros first s. unfold segment. destruct s as [|a s]; [set_solver|].
    cbn [Str.is_empty]. repeat case_bool_decide; destruct first; set_solver. }
  assert (forall segs, ParentDir ∈ mjoin (segment false <$> segs) <-> ".." ∈ segs) as Hsegs.
  { induction segs as [|s segs IH]; [cbn; set_solver|]. cbn. rewrite elem_of_app, Hseg, IH. set_solver. }
  unfold components. destruct (is_absolute p).
  - rewrite elem_of_cons, Hsegs. naive_solver.
  - destruct (Str.split is_slash p) as [|s segs]; [set_solver|].
    rewrite elem_of_app, Hseg, Hsegs. set_solver.
Qed.

Lemma split_no_slash (sep : ascii -> bool) (s w : string) :
  w ∈ Str.split sep s -> Str.forallb (fun a => negb (sep a)) w = true.
Proof.
  revert w. induction s as [|a s IH]; intros w; cbn; [set_solver|].
  destruct (sep a) eqn:E; [set_solver|]. destruct (Str.split sep s) as [|v vs].
  - intros ->%list_elem_of_singleton. cbn. by rewrite E.
  - intros [->|Hw]%elem_of_cons; [|set_solver]. cbn. rewrite E. apply IH. set_solver.
Qed.

Lemma split_whole (sep : ascii -> bool) (s : string) :
  Str.forallb (fun a => negb (sep a)) s = true -> Str.split sep s = [s].
Proof.
  induction s as [|a s IH]; [done|]. cbn. intros [Ha%negb_true_iff Hs]%andb_prop. by rewrite Ha, IH.
Qed.

Lemma name_in_split (p s : string) : Normal s ∈ components p -> s ∈ Str.split is_slash p /\ s <> "..".
Proof.
  assert (forall first s s', Normal s ∈ segment first s' -> s = s' /\ s <> "..") as Hseg.
  { intros first t s'. unfold segment. destruct (Str.is_empty s'); [set_solver|].
    repeat case_bool_decide; destruct first; set_solver. }
  assert (forall segs, Normal s ∈ mjoin (segment false <$> segs) -> s ∈ segs /\ s <> "..") as Hsegs.
  { induction segs as [|s' segs IH]; [set_solver|]. cbn. rewrite elem_of_app, elem_of_cons.
    intros [?%Hseg|?%IH]; naive_solver. }
  unfold components. destruct (is_absolute p).
  - rewrite elem_of_cons. intros [?|?%Hsegs]; [done|naive_solver].
  - destruct (Str.split is_slash p) as [|s' segs]; [set_solver|].
    rewrite elem_of_app, elem_of_cons. intros [?%Hseg|?%Hsegs]; naive_solver.
Qed.

Section confinement.
Context `{FileSystemLaws}.
Variable host_os : string.

(** A name joined to a path adds no parent component. *)
Lemma join_no_parent (p name : string) :
  ParentDir ∉ components p -> Str.forallb (fun a => negb (is_slash a)) name = true -> name <> ".." ->
  ParentDir ∉ components (path_join p name).
Proof.
  rewrite !parent_in_split. intros Hp Hs Hn. unfold path_join.
  assert (is_absolute name = false) as ->.
  { unfold is_absolute. rewrite starts_with_char. destruct name; [done|]. cbn in Hs.
    by apply andb_prop in Hs as [?%negb_true_iff _]. }
  destruct (Str.is_empty p || Str.ends_with "/" p) eqn:E.
  - apply orb_prop in E as [E|E].
    + destruct p; [|done]. rewrite Str.app_nil_l, (split_whole _ _ Hs). set_solver.
    + apply Str.ends_with_spec in E as [q ->]. rewrite Str.app_assoc.
      change ("/" +:+ name) with (String "/" name). rewrite split_app by done.
      rewrite (split_whole _ _ Hs). rewrite split_app in Hp by done. set_solver.
  - change ("/" +:+ name) with (String "/" name). rewrite split_app by done. rewrite (split_whole _ _ Hs). set_solver.
Qed.

Lemma resolve_candidate_normal (candidate p : string) :
  resolve_candidate candidate = Ok p -> ParentDir ∉ components p.
Proof.
  unfold resolve_candidate. destruct (fs_exists candidate).
  - intros Hr. ok_inv Hr. unfold ok_or in Hr. ok_inv Hr. subst. by eapply canonicalize_normal.
  - destruct (path_file_name candidate) as [name|] eqn:Hn; unfold ok_or; intros Hr; ok_inv Hr; [|done].
    simplify_eq. unfold path_file_name in Hn.
    destruct (last (components candidate)) as [[]|] eqn:Hl; simplify_eq.
    apply last_Some_elem_of, name_in_split in Hl as [Hin Hne].
    repeat match goal with R : match ?m with _ => _ end = Ok _ |- _ => destruct m eqn:?; simplify_eq end.
    apply join_no_parent; [by eapply canonicalize_normal|by eapply split_no_slash|done].
Qed.

Lemma no_links_spec (p q : string) (missing : bool) :
  no_links p missing = Ok tt -> q ∈ ancestors p -> fs_symlink_metadata q <> Ok FkSymlink.
Proof.
  unfold no_links. generalize 0 as i. generalize (ancestors p) as l.
  induction l as [|x l IH]; intros i Hl Hq; [by apply elem_of_nil in Hq|]. cbn in Hl.
  destruct (fs_symlink_metadata x) as [k|e] eqn:Hx.
  - case_bool_decide; [done|]. apply elem_of_cons in Hq as [->|Hq]; [congruence|by eapply IH].
  - destruct (_ && _); [|done]. apply elem_of_cons in Hq as [->|Hq]; [congruence|by eapply IH].
Qed.

(** A path resource lies in the executor's workspace: the path it stands for has
    the canonical workspace, which is not the root directory, as a proper beginning and no
    parent component to leave it with; the text that named it had none either, and no
    directory on the way to the file was reported as a link. *)
Theorem canonical_path_confined (text p : string) (allow_missing : bool) (ex : ExecutorContext) :
  canonical_path host_os text allow_missing ex = Ok p ->
  exists root cwd, fs_canonicalize (ex_workspace ex) = Some root /\ fs_canonicalize (ex_cwd ex) = Some cwd /\
    path_parent root <> None /\ components root `prefix_of` components cwd /\
    components root `prefix_of` components p /\ (ParentDir ∉ components p) /\ (ParentDir ∉ components text) /\
    forall q, q ∈ ancestors (if is_absolute text then text else path_join cwd text) ->
      fs_symlink_metadata q <> Ok FkSymlink.
Proof.
  unfold canonical_path. intros Hp. ok_inv Hp. unfold ok_or in *. simplify_eq.
  destruct (fs_canonicalize (ex_workspace ex)) as [root|] eqn:Hroot; simplify_eq.
  destruct (fs_canonicalize (ex_cwd ex)) as [cwd|] eqn:Hcwd; simplify_eq.
  boolp. unfold starts_with_path in *. boolp.
  eexists _, _. split_and!; [done|done|done|done|done|by eapply resolve_candidate_normal|done|].
  intros q. apply no_links_spec with (missing := allow_missing). by destruct a3.
Qed.
End confinement.

(** *** Extraction *)

Section exactness.
Context `{FileSystem}.
Variable host_os : string.
Variable url_parse : string -> option Url.
Variable sha256_hex : string -> string.
Variable json_to_string : Value -> string.
Variable args : Value.
Variable ex : ExecutorContext.
Abbreviation resources_of := (resources host_os url_parse).
Abbreviation step := (extract_selector host_os url_parse args ex).

(** The value a selector reads at a pointer: an argument at one of its pointers, or its
    reviewed default when none of them is supplied. *)
Inductive denotes (s : Selector) : string -> Value -> EvidenceSource -> Prop :=
| denotes_argument p v :
    p ∈ selector_pointers s -> selected args p = Ok (Some v) -> denotes s p v Argument
| denotes_default v :
    (forall p, p ∈ selector_pointers s -> selected args p = Ok None) -> sl_default s = Some v ->
    denotes s (sl_pointer s) v ReviewedDefault.

(** The values a selector supplies, in the order of its pointers. *)
Definition supplied_by (s : Selector) : list (string * Value * EvidenceSource) :=
  match (lookup_pointers args (selector_pointers s)).1 with
  | [] => match sl_default s with Some d => [(sl_pointer s, d, ReviewedDefault)] | None => [] end
  | l => l
  end.

Lemma lookup_supplied (ps : list string) (p : string) (v : Value) (src : EvidenceSource) :
  (p, v, src) ∈ (lookup_pointers args ps).1 <-> p ∈ ps /\ selected args p = Ok (Some v) /\ src = Argument.
Proof.
  induction ps as [|q ps IH]; cbn [lookup_pointers]; [set_solver|].
  destruct (lookup_pointers args ps) as [supplied issues]. cbn [fst] in IH.
  destruct (selected args q) as [[w|]|e] eqn:E; cbn [fst]; rewrite ?elem_of_cons, IH.
  all: split; [naive_solver|]; intros ([->|?] & ? & ->); [|naive_solver]; first [left; congruence|congruence].
Qed.

Lemma lookup_malformed (ps : list string) :
  (lookup_pointers args ps).2 = [] -> forall p, p ∈ ps -> exists o, selected args p = Ok o.
Proof.
  induction ps as [|q ps IH]; cbn [lookup_pointers]; [set_solver|].
  destruct (lookup_pointers args ps) as [supplied issues]. cbn [snd] in IH.
  destruct (selected args q) as [[w|]|e] eqn:E; cbn [snd]; [..|done].
  all: intros ->; intros p [->|Hp]%elem_of_cons; eauto.
Qed.

Lemma supplied_denotes (s : Selector) (p : string) (v : Value) (src : EvidenceSource) :
  (lookup_pointers args (selector_pointers s)).2 = [] ->
  (p, v, src) ∈ supplied_by s <-> denotes s p v src.
Proof.
  intros Hm. pose proof (lookup_malformed _ Hm) as Hok. unfold supplied_by.
  pose proof (lookup_supplied (selector_pointers s)) as Hl.
  destruct (lookup_pointers args (selector_pointers s)).1 as [|x l].
  - assert (forall p, p ∈ selector_pointers s -> selected args p = Ok None) as Hnone.
    { intros q Hq. destruct (Hok q Hq) as [[w|] E]; [|done].
      exfalso. by apply (elem_of_nil (q, w, Argument)), Hl. }
    split.
    + destruct (sl_default s) as [d|] eqn:Hd; [|by intros ?%elem_of_nil].
      intros [= -> -> ->]%list_elem_of_singleton. by constructor.
    + intros [q w Hq Hw|w _ Hd]; [rewrite Hnone in Hw; done|]. rewrite Hd. set_solver.
  - rewrite Hl. split.
    + intros (Hp & Hs & ->). by constructor.
    + intros [q w Hq Hw|w Hn Hd]; [done|].
      destruct x as [[p0 v0] s0]. destruct (proj1 (Hl p0 v0 s0) ltac:(set_solver)) as (Hp & Hs & _).
      by rewrite Hn in Hs.
Qed.

(** When canonicalization raises no issue, every supplied value denotes the same
    resources and the evidence lists them for every pointer. *)
Lemma settle_exact (s : Selector) (l : list (string * Value * EvidenceSource)) (prev : option (list Resource)) :
  (settle_supplied host_os url_parse s ex l prev).2 = [] ->
  exists rs, (forall q, prev = Some q -> l <> [] -> rs = q) /\
    (forall p v src, (p, v, src) ∈ l -> resources_of v s ex = Ok rs) /\
    (forall e, e ∈ (settle_supplied host_os url_parse s ex l prev).1 <->
       (exists v, (re_pointer e, v, re_source e) ∈ l) /\ re_resource e ∈ rs).
Proof.
  revert prev. induction l as [|[[p v] src] l IH]; intros prev; cbn.
  - intros _. exists []. split_and!; [done|set_solver|set_solver].
  - destruct (resources_of v s ex) as [values|e] eqn:Hv.
    + specialize (IH (Some values)). destruct (settle_supplied _ _ s ex l (Some values)) as [pending issues].
      cbn in IH |- *. intros [Hc ->]%app_eq_nil. destruct (IH eq_refl) as (rs & Hprev & Hall & He).
      assert (l <> [] -> rs = values) as Hrs by auto. exists values. split_and!.
      * intros q -> _. destruct (bool_decide (q = values)) eqn:E; [by boolp|done].
      * intros p' v' src' [[= -> -> ->]|Hin]%elem_of_cons; [done|].
        rewrite <- (Hrs (elem_of_not_nil _ _ Hin)). by eapply Hall.
      * intros e. rewrite elem_of_app, He, list_elem_of_fmap. split.
        -- intros [(r & -> & Hr)|[(w & Hw) Hr]]; [split; [eexists; by left|done]|].
           rewrite <- (Hrs (elem_of_not_nil _ _ Hw)). split; [eexists; by right|done].
        -- intros [(w & [[= Hp -> Hsrc]|Hw]%elem_of_cons) Hr].
           ++ left. exists (re_resource e). split; [|done]. destruct e; cbn in *; by subst.
           ++ right. split; [by eexists|]. by rewrite (Hrs (elem_of_not_nil _ _ Hw)).
    + by destruct (settle_supplied _ _ s ex l prev).
Qed.

(** Issues are never taken back. *)
Lemma step_issues (g : Progress) (s : Selector) : exists l, pg_issues (step g s) = pg_issues g ++ l.
Proof.
  unfold extract_selector, add_issue. repeat case_match; cbn; eauto using app_nil_r.
  all: try by (eexists; rewrite <- ?app_assoc).
Qed.

(** What a selector that raised no issue contributes. *)
Definition selector_exact (s : Selector) (added : list ResourceEvidence) : Prop :=
  (forall p, p ∈ selector_pointers s -> exists o, selected args p = Ok o) /\
  exists rs, (forall p v src, denotes s p v src -> resources_of v s ex = Ok rs) /\
    (forall e, e ∈ added <-> (exists v, denotes s (re_pointer e) v (re_source e)) /\ re_resource e ∈ rs) /\
    (sl_optional s = false -> exists p v src, denotes s p v src).

Lemma step_exact (g : Progress) (s : Selector) :
  pg_issues g = [] -> pg_issues (step g s) = [] ->
  exists added, pg_resources (step g s) = pg_resources g ++ added /\ selector_exact s added.
Proof.
  intros Hg. unfold extract_selector, add_issue.
  destruct (selector_invalid s (pg_seen g)) as [[] seen]; cbn [pg_issues];
    [rewrite Hg; cbn; intros [=]|].
  destruct (lookup_pointers args (selector_pointers s)) as [supplied malformed] eqn:Hl. rewrite Hg.
  case_bool_decide as Hm; [|done]. cbn [negb]. subst malformed.
  pose proof (lookup_malformed (selector_pointers s) ltac:(by rewrite Hl)) as Hok.
  pose proof (fun p v src => supplied_denotes s p v src ltac:(by rewrite Hl)) as Hden.
  unfold supplied_by in Hden. rewrite Hl in Hden. cbn [fst] in Hden.
  assert (forall l, l <> [] -> (forall p v src, (p, v, src) ∈ l <-> denotes s p v src) ->
    (settle_supplied host_os url_parse s ex l None).2 = [] ->
    selector_exact s (settle_supplied host_os url_parse s ex l None).1) as Hgo.
  { intros l Hne Hd (rs & _ & Hall & He)%settle_exact. split; [done|]. exists rs. split_and!.
    - intros p v src Hp. eapply Hall. by apply Hd.
    - intros e. rewrite He. by setoid_rewrite Hd.
    - intros _. destruct l as [|[[p v] src] l]; [done|]. exists p, v, src. apply Hd. by left. }
  destruct supplied as [|x supplied].
  - destruct (sl_default s) as [d|] eqn:Hdef.
    + specialize (Hgo [(sl_pointer s, d, ReviewedDefault)] ltac:(done) Hden). destruct (settle_supplied _ _ s ex _ None) as [pending issues].
      cbn [pg_issues pg_resources]. rewrite app_nil_l. intros ->. eauto.
    + destruct (sl_optional s) eqn:Hopt; [|done]. intros _. exists []. split; [cbn; by rewrite app_nil_r|].
      split; [done|]. exists []. split_and!; [|set_solver|congruence].
      intros p v src Hp. apply Hden in Hp. by apply elem_of_nil in Hp.
  - specialize (Hgo (x :: supplied) ltac:(done) Hden). destruct (settle_supplied _ _ s ex _ None) as [pending issues].
    cbn [pg_issues pg_resources]. rewrite app_nil_l. intros ->. eauto.
Qed.

Lemma fold_issues (ss : list Selector) (g : Progress) :
  pg_issues (fold_left step ss g) = [] -> pg_issues g = [].
Proof.
  revert g. induction ss as [|s ss IH]; intros g; cbn; [done|].
  intros Hs%IH. destruct (step_issues g s) as [l Hl]. rewrite Hl in Hs. by apply app_eq_nil in Hs as [? _].
Qed.

Lemma fold_exact (ss : list Selector) (g : Progress) :
  pg_issues g = [] -> pg_issues (fold_left step ss g) = [] ->
  exists adds, pg_resources (fold_left step ss g) = pg_resources g ++ mjoin adds /\
    Forall2 selector_exact ss adds.
Proof.
  revert g. induction ss as [|s ss IH]; intros g Hg; cbn.
  - intros _. exists []. rewrite app_nil_r. by split; [|constructor].
  - intros Hend. pose proof (fold_issues _ _ Hend) as Hs.
    destruct (step_exact g s Hg Hs) as (added & Ha & Hex).
    destruct (IH _ Hs Hend) as (adds & Hr & HF).
    exists (added :: adds). rewrite Hr, Ha. cbn. rewrite app_assoc. by split; [|constructor].
Qed.

(** Extraction is exact: when it is complete, the evidence is neither more nor less
    than what the operator's selectors denote in the arguments.  Every piece of evidence is
    a resource of a value that a selector reads at one of its pointers (or of its reviewed
    default when none is supplied), every such resource is in the evidence, all the pointers
    of a selector agree on the resources, and a selector that is not optional denotes some
    value. *)
Theorem extract_exact (inv : Invocation) (profile : ResourceProfile) :
  iv_args inv = args ->
  let x := extract host_os url_parse sha256_hex json_to_string inv profile ex in
  complete x = true ->
  (forall e, e ∈ xt_resources x <->
     exists s v rs, s ∈ rp_selectors profile /\ denotes s (re_pointer e) v (re_source e) /\
       resources_of v s ex = Ok rs /\ re_resource e ∈ rs) /\
  (forall s p v src p' v' src', s ∈ rp_selectors profile -> denotes s p v src -> denotes s p' v' src' ->
     exists rs, resources_of v s ex = Ok rs /\ resources_of v' s ex = Ok rs) /\
  (forall s, s ∈ rp_selectors profile -> sl_optional s = false -> exists p v src, denotes s p v src).
Proof.
  intros Hargs. cbn zeta. unfold extract. rewrite Hargs.
  destruct (profile_mismatch inv profile); [done|]. destruct (_ || _) in |- *; [done|].
  set (g := fold_left _ _ _). unfold complete, output_of. cbn [xt_issues xt_resources].
  intros [Hi Hr]%andb_prop. boolp.
  assert (pg_issues g = []) as Hg by (revert Hi; repeat case_match; naive_solver).
  destruct (fold_exact (rp_selectors profile) (mkProgress [] [] [] []) eq_refl Hg) as (adds & Hres & HF).
  fold g in Hres. rewrite Hres. cbn [pg_resources]. rewrite app_nil_l. split_and!.
  - intros e. rewrite list_elem_of_join. split.
    + intros (l & He & Hl). apply list_elem_of_lookup in Hl as [i Hi'].
      destruct (Forall2_lookup_r _ _ _ _ _ HF Hi') as (s & Hs & _ & rs & Hden & Hadd & _).
      apply Hadd in He as [[v Hv] Hrs]. exists s, v, rs. split_and!; eauto using list_elem_of_lookup_2.
    + intros (s & v & rs & Hs & Hd & Hrs & Hin). apply list_elem_of_lookup in Hs as [i Hi'].
      destruct (Forall2_lookup_l _ _ _ _ _ HF Hi') as (l & Hl & _ & rs' & Hden & Hadd & _).
      exists l. split; [|by eapply list_elem_of_lookup_2]. apply Hadd.
      split; [by eexists|]. specialize (Hden _ _ _ Hd). congruence.
  - intros s p v src p' v' src' Hs Hd Hd'. apply list_elem_of_lookup in Hs as [i Hi'].
    destruct (Forall2_lookup_l _ _ _ _ _ HF Hi') as (l & _ & _ & rs & Hden & _). eauto.
  - intros s Hs. apply list_elem_of_lookup in Hs as [i Hi'].
    by destruct (Forall2_lookup_l _ _ _ _ _ HF Hi') as (l & _ & _ & rs & _ & _ & Hopt).
Qed.
End exactness.

(** ** Witnesses *)

(** A disk with a workspace [/ws], a file [/ws/a.txt] in it, a directory [/ws/real] and
    a link [/ws/link] to it.  As POSIX has it, a trailing slash makes [lstat] follow. *)
Definition demo_fs : FileSystem := {|
  fs_symlink_metadata p :=
    if bool_decide (p ∈ ["/"; "/ws"; "/ws/real"; "/ws/real/"; "/ws/link/"]) then Ok FkDir
    else if bool_decide (p = "/ws/a.txt") then Ok FkFile
    else if bool_decide (p = "/ws/link") then Ok FkSymlink else Err NotFound;
  fs_metadata p :=
    if bool_decide (p ∈ ["/"; "/ws"; "/ws/real"; "/ws/real/"; "/ws/link/"; "/ws/link"]) then Ok FkDir
    else if bool_decide (p = "/ws/a.txt") then Ok FkFile else Err NotFound;
  fs_canonicalize p :=
    if bool_decide (p ∈ ["/ws/link"; "/ws/link/"; "/ws/real"; "/ws/real/"]) then Some "/ws/real"
    else if bool_decide (p ∈ ["/"; "/ws"; "/ws/a.txt"]) then Some p else None
|}.

Lemma demo_fs_laws : @FileSystemLaws demo_fs.
Proof.
  split. intros p q. cbn. repeat case_bool_decide; intros [= <-]; [by split; [|vm_compute; set_solver]|].
  repeat match goal with H : p ∈ _ :: _ |- _ => apply elem_of_cons in H as [->|H]
    | H : p ∈ [] |- _ => by apply elem_of_nil in H end; (split; [done|]); vm_compute; set_solver.
Qed.

Definition demo_executor : ExecutorContext := mkExecutor "linux" "/ws" "/ws" true.
Definition demo_path (text : string) : result string string :=
  @canonical_path demo_fs "linux" text false demo_executor.

Example demo_paths :
  (demo_path "a.txt", demo_path "/ws/a.txt", demo_path "../x", demo_path "link", demo_path "b.txt")
  = (Ok "/ws/a.txt", Ok "/ws/a.txt", Err "resource_path_traversal", Err "resource_path_link",
     Err "resource_path_unavailable").
Proof. vm_compute. reflexivity. Qed.

(** The link check asks for the path as it was written: with a slash after its name a link
    is followed and goes undetected. *)
Lemma trailing_slash_hides_link :
  demo_path "link" = Err "resource_path_link" /\ demo_path "link/" = Ok "/ws/real".
Proof. split; vm_compute; reflexivity. Qed.

Lemma canonical_path_confined_witness :
  demo_path "a.txt" = Ok "/ws/a.txt" /\
  exists root, @fs_canonicalize demo_fs "/ws" = Some root /\ components root `prefix_of` components "/ws/a.txt".
Proof.
  assert (demo_path "a.txt" = Ok "/ws/a.txt") as Hp by (vm_compute; reflexivity). split; [done|].
  destruct (@canonical_path_confined demo_fs demo_fs_laws "linux" "a.txt" "/ws/a.txt" false demo_executor Hp)
    as (root & _ & Hr & _ & _ & _ & Hpre & _).
  by exists root.
Defined.

Lemma canonical_recipient_stable_witness :
  canonical_recipient "Ann@Mail.Example." = Err "resource_recipient_invalid" /\
  canonical_recipient "Ann@Mail.Example" = Ok ("Ann@mail.example", "mail.example") /\
  canonical_recipient "Ann@mail.example" = Ok ("Ann@mail.example", "mail.example").
Proof.
  split; [vm_compute; reflexivity|].
  assert (canonical_recipient "Ann@Mail.Example" = Ok ("Ann@mail.example", "mail.example")) as Hr
    by (vm_compute; reflexivity).
  split; [done|]. exact (proj1 (canonical_recipient_stable _ _ _ Hr)).
Defined.

(** A tool that sends a file to recipients, the reply-to being optional. *)
Definition demo_selectors : list Selector :=
  [mkSelector "/file" KPath [] false None false;
   mkSelector "/to" KRecipient ["/recipients"] false None false;
   mkSelector "/cc" KRecipient [] true None false].
Definition demo_digest : string := "aaaaaaaaaaaaaaaaaaaaaaaaaaaaaaaaaaaaaaaaaaaaaaaaaaaaaaaaaaaaaaaa".
Definition demo_profile : ResourceProfile := mkProfile "srv" "send" demo_digest demo_selectors.
Definition demo_args : Value :=
  obj [("file", JString "a.txt"); ("to", JArray [JString "a@B.example"; JString "c@d.example"])].
Definition demo_invocation (args : Value) : Invocation :=
  mkInvocation "srv" (JString "1") "" demo_digest demo_digest "send" "" JNull JNull JNull "" "" None args
    SideEffecting.
Definition demo_extract (args : Value) : Extraction :=
  @extract demo_fs "linux" (fun _ => None) (fun s => s) (fun _ => "{}") (demo_invocation args) demo_profile
    demo_executor.

Example demo_extraction :
  (xt_resources (demo_extract demo_args), is_reason <$> xt_issues (demo_extract (obj [("file", JString "a.txt")])),
   xt_omitted_optional (demo_extract demo_args))
  = ([mkEvidence "/file" Argument (RPath "/ws/a.txt");
      mkEvidence "/to" Argument (RRecipient "a@b.example" "b.example");
      mkEvidence "/to" Argument (RRecipient "c@d.example" "d.example")], ["resource_missing"], ["/cc"]).
Proof. vm_compute. reflexivity. Qed.

Lemma extract_exact_witness :
  exists s v rs, s ∈ demo_selectors /\ denotes demo_args s "/file" v Argument /\
    @resources demo_fs "linux" (fun _ => None) v s demo_executor = Ok rs /\ RPath "/ws/a.txt" ∈ rs.
Proof.
  assert (complete (demo_extract demo_args) = true) as Hc by (vm_compute; reflexivity).
  destruct (@extract_exact demo_fs "linux" (fun _ => None) (fun s => s) (fun _ => "{}") demo_args demo_executor
              (demo_invocation demo_args) demo_profile eq_refl Hc) as (He & _ & _).
  apply (He (mkEvidence "/file" Argument (RPath "/ws/a.txt"))).
  vm_compute. constructor.
Defined.
