(* ===== verification/Daemon.v ===== *)
(** The daemon's two endpoints ([hook] and [mcp] of
    [crates/agentfw/src/handlers.rs]) and the MCP relay's use of the second
    ([mcp/jsonrpc.rs], [mcp/proxy.rs]).  Each request is one atomic step on the shared
    state: every component is behind its own mutex and requests are taken one at a
    time.  The clock, the file system's answers and the request parsers are inputs. *)
From S2P Require Import Prelude BTree Platform F32 Json CoreTypes Scoring Detectors Normalize.
From S2P Require Import Adapter Event Authority Fingerprint Fifo Taint Action Egress AgentPolicy Engine.
From S2P Require Import Spans Judge Grant Manifest PinStore HookMap Config.
From Stdlib Require Import String Ascii.
From stdpp Require Import gmap strings.
#[local] Abbreviation length := List.length.

(** ** Audit lines ([audit.rs]) *)

Record AuditFinding := mkAuditFinding {
  afd_detector : string;
  afd_severity : string;
  afd_owasp : option string;
  afd_atlas : option string
}.

Record AuditTaint := mkAuditTaint {
  atn_source : string;
  atn_origin : string;
  atn_source_name : option string;
  atn_trust : string;
  atn_seq : Z
}.

Record AuditLine := mkAuditLine {
  al_at_ms : Z;
  al_session : string;
  al_seq : Z;
  al_event : string;
  al_tool : option string;
  al_verdict : string;
  al_shadow : bool;
  al_rule : option string;
  al_risk_score : Z;
  al_findings : list AuditFinding;
  al_taint : option AuditTaint;
  al_judge : option string;
  al_approval : option string;
  al_egress_hosts : list string;
  al_latency_us : Z;
  al_truncated : bool;
  al_raw : option string
}.

(** [format!("{:?}", severity).to_lowercase()] *)
Definition severity_str (s : Severity) : string :=
  match s with Info => "info" | Low => "low" | Medium => "medium" | High => "high" | Critical => "critical" end.
Definition trust_str (t : Trust) : string :=
  match t with Trusted => "trusted" | Semi => "semi" | Untrusted => "untrusted" end.

Definition audit_finding (ff : Facet * Finding) : AuditFinding :=
  mkAuditFinding (f_detector ff.2) (severity_str (f_severity ff.2)) (f_owasp ff.2) (f_atlas ff.2).

Definition audit_taint (t : TaintMark) : AuditTaint :=
  mkAuditTaint (label (tm_source t)) (prov_kind (tm_source t)) (source_name (tm_source t))
    (trust_str (trust (tm_source t))) (tm_seq t).

(** ** The shared state *)

Record AppState := mkAppState {
  as_firewall : AgentFirewall;
  as_sessions : gmap string Z;
  as_audit : list AuditLine;
  as_config : Config;
  as_token : string;
  as_spans : SpanCache;
  as_judge : Judge;
  as_manifests : Disk;
  as_tools : ToolRegistry;
  as_grants : GrantStore;
  as_grant_ledger : Ledger;
  as_grant_key : string
}.

Definition set_firewall (x : AgentFirewall) (st : AppState) : AppState :=
  mkAppState x (as_sessions st) (as_audit st) (as_config st) (as_token st) (as_spans st) (as_judge st)
    (as_manifests st) (as_tools st) (as_grants st) (as_grant_ledger st) (as_grant_key st).
Definition set_sessions (x : gmap string Z) (st : AppState) : AppState :=
  mkAppState (as_firewall st) x (as_audit st) (as_config st) (as_token st) (as_spans st) (as_judge st)
    (as_manifests st) (as_tools st) (as_grants st) (as_grant_ledger st) (as_grant_key st).
Definition set_spans (x : SpanCache) (st : AppState) : AppState :=
  mkAppState (as_firewall st) (as_sessions st) (as_audit st) (as_config st) (as_token st) x (as_judge st)
    (as_manifests st) (as_tools st) (as_grants st) (as_grant_ledger st) (as_grant_key st).
Definition set_grants (g : GrantStore) (l : Ledger) (st : AppState) : AppState :=
  mkAppState (as_firewall st) (as_sessions st) (as_audit st) (as_config st) (as_token st) (as_spans st)
    (as_judge st) (as_manifests st) (as_tools st) g l (as_grant_key st).
Definition set_pins (d : Disk) (t : ToolRegistry) (st : AppState) : AppState :=
  mkAppState (as_firewall st) (as_sessions st) (as_audit st) (as_config st) (as_token st) (as_spans st)
    (as_judge st) d t (as_grants st) (as_grant_ledger st) (as_grant_key st).

(** [let _ = st.audit.write(..)]: a line that cannot be written is dropped. *)
Definition audit_write (ok : bool) (line : AuditLine) (st : AppState) : AppState :=
  if ok then
    mkAppState (as_firewall st) (as_sessions st) (as_audit st ++ [line]) (as_config st) (as_token st)
      (as_spans st) (as_judge st) (as_manifests st) (as_tools st) (as_grants st) (as_grant_ledger st)
      (as_grant_key st)
  else st.

(** [Sessions::next] and [Sessions::end]. *)
Definition sessions_next (m : gmap string Z) (session : string) : Z * gmap string Z :=
  let c := (default 0 (m !! session) + 1)%Z in (c, <[session := c]> m).
Definition sessions_end (m : gmap string Z) (session : string) : gmap string Z := delete session m.

(** ** Requests and replies *)

Inductive Status := OK_200 | UNAUTHORIZED_401.
#[export] Instance Status_eq_dec : EqDecision Status.
Proof. solve_decision. Defined.

Inductive HookReply := NoOpinion | Opinion (out : HookOutput).

(** What the outside world answers during one hook request. *)
Record HookEnv := mkHookEnv {
  he_now_event : Z;
  he_now_redeem : Z;
  he_now_audit : Z;
  he_latency_us : Z;
  he_ledger_write_ok : bool;
  he_grant_remove_ok : bool;
  he_audit_ok : bool
}.

Record McpHandshakeReq := mkMcpReq { mr_server : string; mr_tools : list ToolDecl }.

Record McpEnv := mkMcpEnv {
  me_now_pin : Z;
  me_now_audit : Z;
  me_io : IoOutcome;
  me_audit_ok : bool
}.

Section daemon.
Context `{UnicodeTables} `{RegexEngine} `{EntropyPlatform} `{LiteralIter}.
Variable sha256 : string -> string.
Variable hex : string -> string.
Variable hmac_sha256 : string -> string -> string.
Variable json_to_string : Value -> string.
Variable debug_str : string -> string.
Variable show_nat : nat -> string.
Variable parse_record : string -> option ServerRecord.
Variable show_record : ServerRecord -> string.
(** [serde_json::from_str] at the two request types. *)
Variable parse_payload : string -> option HookPayload.
Variable parse_mcp : string -> option McpHandshakeReq.

Definition sha256_hex (s : string) : string := hex (sha256 s).

(** [format!("{j:?}")] *)
Definition judgement_debug (j : Judgement) : string :=
  match j with
  | Injection => "Injection"
  | Documentation => "Documentation"
  | Unavailable why => "Unavailable(" +:+ debug_str why +:+ ")"
  end.

(** Untrusted content is retained under the sequence number of its event. *)
Definition retain_span (spans : SpanCache) (session : string) (seq : Z) (kind : EventKind) : SpanCache :=
  match kind with
  | ToolResult _ content source =>
      if bool_decide (trust source = Untrusted) then span_put spans session seq content else spans
  | SubagentReport _ content => span_put spans session seq content
  | _ => spans
  end.

Definition quote : string := String "034" EmptyString.

(** Resolve [Escalate] into a concrete verdict: the verdict and what the judge said. *)
Definition resolve (st : AppState) (session : string) (o : AgentOutcome) : Verdict * option string :=
  if negb (bool_decide (ao_verdict o = Escalate)) then (ao_verdict o, None)
  else
    let '(span, source) := match ao_taint o with
      | Some t => (default EmptyString (span_get (as_spans st) session (tm_seq t)), label (tm_source t))
      | None => (EmptyString, "unknown")
      end in
    if Str.is_empty (Str.trim span)
    then (default Allow (ao_fallback o),
          Some ("Unavailable(" +:+ quote +:+ "no retained span" +:+ quote +:+ ")"))
    else
      let j := judge debug_str (as_judge st) span source in
      (resolve_escalation j (ao_fallback o), Some (judgement_debug j)).

(** The action a grant must name. *)
Definition action_ref (p : HookPayload) (tool : string) : ActionRef :=
  mkActionRef (hp_session_id p) tool
    (action_fingerprint sha256 hex json_to_string tool (hp_tool_input p)).

(** A human approval for exactly this call; only [Ask] is redeemable. *)
Definition approve (st : AppState) (p : HookPayload) (verdict : Verdict) (env : HookEnv) :
    Verdict * option string * AppState :=
  match hp_tool_name p with
  | Some tool =>
      if bool_decide (hp_event p = PreToolUse) && bool_decide (verdict = Ask) then
        let '(redeemed, l, store, _) :=
          redeem_pending hex hmac_sha256 (as_grant_key st) (as_grants st) (as_grant_ledger st)
            (action_ref p tool) (he_now_redeem env) (he_ledger_write_ok env) (he_grant_remove_ok env) in
        let st := set_grants store l st in
        match redeemed with
        | Some g => (Allow, Some (g_nonce g), st)
        | None => (verdict, None, st)
        end
      else (verdict, None, st)
  | None => (verdict, None, st)
  end.

(** The audit line of an event this build does not handle. *)
Definition unknown_line (st : AppState) (p : HookPayload) (seq : Z) (body : string) (env : HookEnv) :
    AuditLine :=
  mkAuditLine (he_now_audit env) (hp_session_id p) seq "unknown" (hp_tool_name p) "allow"
    (negb (cf_enforce (as_config st))) None 0 [] None None None [] (he_latency_us env) false
    (if cf_capture_unknown_raw (as_config st) then Some body else None).

(** The audit line of an inspected event. *)
Definition decision_line (p : HookPayload) (event : AgentEvent) (o : AgentOutcome) (d : HookDecision)
    (judged approval : option string) (truncated : bool) (env : HookEnv) : AuditLine :=
  mkAuditLine (ev_at_ms event) (hp_session_id p) (ev_seq event) (hook_event_as_str (hp_event p))
    (hp_tool_name p) (verdict_str (hd_would_have_been d)) (hd_shadow d) (ao_rule o) (ao_risk_score o)
    (audit_finding <$> ao_findings o) (audit_taint <$> ao_taint o) judged approval
    (ao_egress_hosts o) (he_latency_us env) truncated None.

(** What [hook] settles for an event that was mapped: the firewall's outcome, the final
    verdict, what the judge said and the approval that was spent. *)
Record Settled := mkSettled {
  se_outcome : AgentOutcome;
  se_verdict : Verdict;
  se_judged : option string;
  se_approval : option string
}.

(** The state the firewall's verdict is resolved in. *)
Definition before_inspect (st : AppState) (p : HookPayload) (event : AgentEvent) : AppState :=
  let session := hp_session_id p in
  let st := if bool_decide (hp_event p = HSessionEnd)
            then set_spans (span_end_session (as_spans st) session)
                   (set_sessions (sessions_end (as_sessions st) session) st)
            else st in
  set_spans (retain_span (as_spans st) session (ev_seq event) (ev_kind event)) st.

Definition settle (st : AppState) (p : HookPayload) (event : AgentEvent) (env : HookEnv) :
    Settled * AppState :=
  let st := before_inspect st p event in
  let '(o, fw) := inspect (as_firewall st) event in
  let st := set_firewall fw st in
  let '(verdict, judged) := resolve st (hp_session_id p) o in
  let '(verdict, approval, st) := approve st p verdict env in
  (mkSettled o verdict judged approval, st).

(** Decide, audit and reply. *)
Definition hook_event (st : AppState) (p : HookPayload) (mapped : Mapped) (env : HookEnv) :
    HookReply * AppState :=
  let event := mp_event mapped in
  let '(s, st) := settle st p event env in
  let o := se_outcome s in
  let d := hook_decide (se_verdict s) (ao_rule o) (ao_message o) (cf_enforce (as_config st)) in
  let st := audit_write (he_audit_ok env)
              (decision_line p event o d (se_judged s) (se_approval s) (mp_truncated mapped) env) st in
  (if bool_decide (hp_event p = PreToolUse) && negb (bool_decide (hd_permission_decision d = "defer"))
   then Opinion (to_hook_output d) else NoOpinion, st).

(** Every hook event lands here. *)
Definition hook (st : AppState) (authorization : option string) (body : string) (env : HookEnv) :
    Status * HookReply * AppState :=
  if negb (token_verify (as_token st) (default EmptyString authorization))
  then (UNAUTHORIZED_401, NoOpinion, st)
  else if (cf_max_body_bytes (as_config st) <? Z.of_nat (Str.len body))%Z then (OK_200, NoOpinion, st)
  else
    match parse_payload body with
    | None => (OK_200, NoOpinion, st)
    | Some p =>
        let '(seq, sessions) := sessions_next (as_sessions st) (hp_session_id p) in
        let st := set_sessions sessions st in
        match to_event json_to_string p seq (he_now_event env) (cf_max_record_bytes (as_config st)) with
        | None => (OK_200, NoOpinion, audit_write (he_audit_ok env) (unknown_line st p seq body env) st)
        | Some mapped =>
            let '(reply, st) := hook_event st p mapped env in (OK_200, reply, st)
        end
    end.

(** ** The MCP handshake *)

Definition drift_reason (server : string) (detail : option string) : string :=
  match detail with
  | Some detail => "manifest drift on " +:+ server +:+ ": " +:+ detail
  | None => "manifest drift on " +:+ server +:+
      ": the pinned tool manifest changed. The previous                  manifest predates manifest retention, so it cannot be diffed; the next                  change will be shown in full."
  end.

Definition mcp_line (req : McpHandshakeReq) (o : AgentOutcome) (d : HookDecision) (env : McpEnv) : AuditLine :=
  mkAuditLine (me_now_audit env) (mr_server req) 0 "mcp_handshake" None
    (verdict_str (hd_would_have_been d)) (hd_shadow d) (ao_rule o) (ao_risk_score o)
    (audit_finding <$> ao_findings o) None None None [] 0 false None.

(** The pinned manifest differs from the presented one. *)
Definition manifest_changed (st : AppState) (req : McpHandshakeReq) : bool :=
  match get_pinned sha256_hex parse_record (as_manifests st) (mr_server req) with
  | Some previous => negb (bool_decide (pin_hash previous = manifest_hash sha256_hex json_to_string (mr_tools req)))
  | None => false
  end.

(** The reply object. *)
Definition mcp_reply (verdict : string) (enforce : bool) (reason : option string) : Value :=
  JObject (BMap.of_list [("verdict", JString verdict); ("enforce", JBool enforce);
    ("reason", match reason with Some r => JString r | None => JNull end)]).

Definition mcp_handshake (st : AppState) (req : McpHandshakeReq) (env : McpEnv) : Value * AppState :=
  let hash := manifest_hash sha256_hex json_to_string (mr_tools req) in
  let pinned := get_pinned sha256_hex parse_record (as_manifests st) (mr_server req) in
  let changed := manifest_changed st req in
  let names := td_name <$> mr_tools req in
  let shadowed := shadows (as_tools st) (mr_server req) names in
  let '(o, fw) := inspect_mcp_handshake (as_firewall st) (mr_server req) (mr_tools req) changed
                    (bool_decide (is_Some shadowed)) in
  let drift_detail := previous ← (if changed then pinned else None);
    (if bool_decide (pin_tools previous = []) then None
     else Some (render_diff debug_str show_nat (detailed_diff (pin_tools previous) (mr_tools req)))) in
  let st := set_firewall fw st in
  let '(_, disk) := put_manifest sha256_hex parse_record show_record (as_manifests st) (mr_server req)
                      hash (mr_tools req) (me_now_pin env) (me_io env) in
  let st := set_pins disk (PinStore.record (as_tools st) (mr_server req) names) st in
  let reason :=
    if changed then Some (drift_reason (mr_server req) drift_detail)
    else match shadowed with
         | Some name => Some ("tool name '" +:+ name +:+ "' collides with an existing tool")
         | None => ao_message o
         end in
  let d := hook_decide (ao_verdict o) (ao_rule o) reason (cf_enforce (as_config st)) in
  let st := audit_write (me_audit_ok env) (mcp_line req o d env) st in
  (mcp_reply (verdict_str (hd_would_have_been d)) (cf_enforce (as_config st)) reason, st).

Definition mcp (st : AppState) (authorization : option string) (body : string) (env : McpEnv) :
    Status * Value * AppState :=
  if negb (token_verify (as_token st) (default EmptyString authorization))
  then (UNAUTHORIZED_401, JObject [], st)
  else match parse_mcp body with
       | None => (OK_200, JObject [("verdict", JString "allow")], st)
       | Some req => let '(v, st) := mcp_handshake st req env in (OK_200, v, st)
       end.
End daemon.

(** ** The relay ([mcp/proxy.rs], [mcp/jsonrpc.rs]) *)

Inductive RelayVerdict := RAllow | RAsk | RDeny | RUnavailable.

Definition should_withhold (verdict : RelayVerdict) (enforce : bool) : bool :=
  enforce && match verdict with RAsk | RDeny => true | _ => false end.

(** What [ask_daemon] reads from the reply body; [None]: no usable reply. *)
Definition ask_daemon (reply : option Value) : RelayVerdict * bool :=
  match reply with
  | None => (RUnavailable, false)
  | Some j =>
      let enforce := default false (v ← value_get "enforce" j; as_bool v) in
      let verdict := match (v ← value_get "verdict" j; as_str v) with
        | Some s => if bool_decide (s = "allow") then RAllow
                    else if bool_decide (s = "ask") then RAsk
                    else if bool_decide (s = "deny") then RDeny
                    else RUnavailable
        | None => RUnavailable
        end in
      (verdict, enforce)
  end.

(** One declared tool of a [tools/list] result. *)
Definition tool_from_json (t : Value) : option ToolDecl :=
  n ← value_get "name" t;
  name ← as_str n;
  Some (mkToolDecl name (default EmptyString (d ← value_get "description" t; as_str d))
          (default JNull (value_get "inputSchema" t))).

Definition manifest_from_value (v : Value) : option (list ToolDecl) :=
  r ← value_get "result" v;
  t ← value_get "tools" r;
  arr ← as_array t;
  mapM tool_from_json arr.

Definition manifest_from_line (parse_json : string -> option Value) (line : string) : option (list ToolDecl) :=
  v ← parse_json (Str.trim line);
  manifest_from_value v.

(** ** Properties of the hook endpoint *)

Section hook_facts.
Context `{UnicodeTables} `{RegexEngine} `{EntropyPlatform} `{LiteralIter}.
Variable sha256 : string -> string.
Variable hex : string -> string.
Variable hmac_sha256 : string -> string -> string.
Variable json_to_string : Value -> string.
Variable debug_str : string -> string.
Variable parse_payload : string -> option HookPayload.

Abbreviation hook' := (hook sha256 hex hmac_sha256 json_to_string debug_str parse_payload).
Abbreviation hook_event' := (hook_event sha256 hex hmac_sha256 json_to_string debug_str).
Abbreviation approve' := (approve sha256 hex hmac_sha256 json_to_string).
Abbreviation settle' := (settle sha256 hex hmac_sha256 json_to_string debug_str).

(** One request. *)
Record HookReq := mkHookReq { hr_auth : option string; hr_body : string; hr_env : HookEnv }.

Definition hook_step (st : AppState) (r : HookReq) : AppState :=
  (hook' st (hr_auth r) (hr_body r) (hr_env r)).2.
Definition hook_run (st : AppState) (rs : list HookReq) : AppState := fold_left hook_step rs st.

(** The payload of a request that passes the bearer check, the size limit and the parser. *)
Definition accepted (st : AppState) (r : HookReq) : option HookPayload :=
  if negb (token_verify (as_token st) (default EmptyString (hr_auth r))) then None
  else if (cf_max_body_bytes (as_config st) <? Z.of_nat (Str.len (hr_body r)))%Z then None
  else parse_payload (hr_body r).

(** The event a request puts before the firewall. *)
Definition request_event (st : AppState) (r : HookReq) : option Mapped :=
  p ← accepted st r;
  to_event json_to_string p (default 0 (as_sessions st !! hp_session_id p) + 1)%Z
    (he_now_event (hr_env r)) (cf_max_record_bytes (as_config st)).

(** A request is either ignored by the firewall or handled by [hook_event]. *)
Lemma hook_cases (st : AppState) (r : HookReq) :
  match accepted st r, request_event st r with
  | Some p, Some m =>
      hook' st (hr_auth r) (hr_body r) (hr_env r) =
      (let '(reply, st') := hook_event' (set_sessions (sessions_next (as_sessions st) (hp_session_id p)).2 st) p m (hr_env r) in
       (OK_200, reply, st'))
  | _, _ => (hook' st (hr_auth r) (hr_body r) (hr_env r)).1.2 = NoOpinion /\
            as_firewall (hook_step st r) = as_firewall st
  end.
Proof.
  unfold request_event, hook_step, accepted, hook.
  destruct (token_verify _ _); [|done]. cbn [negb].
  destruct (_ <? _)%Z; [done|]. destruct (parse_payload (hr_body r)) as [p|]; [|done].
  cbn [mbind option_bind sessions_next]. cbn [as_config set_sessions].
  destruct (to_event _ _ _ _ _) as [m|]; [done|].
  split; [done|]. unfold audit_write. by destruct (he_audit_ok _).
Qed.

(** *** What handling an event does *)

Lemma approve_facts (st : AppState) (p : HookPayload) (v : Verdict) (env : HookEnv) :
  as_firewall (approve' st p v env).2 = as_firewall st /\
  as_config (approve' st p v env).2 = as_config st /\
  as_sessions (approve' st p v env).2 = as_sessions st /\
  as_spans (approve' st p v env).2 = as_spans st /\
  as_token (approve' st p v env).2 = as_token st /\
  (v <> Ask -> approve' st p v env = (v, None, st)).
Proof.
  unfold approve. destruct (hp_tool_name p) as [tool|]; [|done].
  destruct (bool_decide (hp_event p = PreToolUse) && bool_decide (v = Ask)) eqn:E; [|done].
  destruct (redeem_pending _ _ _ _ _ _ _ _ _) as [[[[g|] l] store] rf]; simpl; split_and!; try done;
    intros Hv; apply andb_true_iff in E as [_ E%bool_decide_eq_true]; done.
Qed.

(** An [Ask] is lifted only by a pending grant that verifies for this very action. *)
Lemma approve_lifts (st : AppState) (p : HookPayload) (env : HookEnv) :
  (approve' st p Ask env).1.1 <> Ask ->
  exists tool g, hp_event p = PreToolUse /\ hp_tool_name p = Some tool /\ g ∈ pending (as_grants st) /\
    (approve' st p Ask env).1 = (Allow, Some (g_nonce g)) /\
    verify hex hmac_sha256 (as_grant_key st) g (action_ref sha256 hex json_to_string p tool)
      (he_now_redeem env) = Ok tt.
Proof.
  unfold approve. destruct (hp_tool_name p) as [tool|]; [|done].
  destruct (decide (hp_event p = PreToolUse)) as [Hp|Hp];
    [rewrite (bool_decide_true _ Hp)|by rewrite (bool_decide_false _ Hp)].
  cbn [andb]. rewrite bool_decide_true by done. unfold redeem_pending.
  destruct (redeem_each _ _ _ _ _ _ _ _) as [[[g|] l] rf] eqn:Er; [|done].
  apply redeem_each_sound in Er as [Hin Hv]. intros _. by exists tool, g.
Qed.

Lemma before_inspect_facts (st : AppState) (p : HookPayload) (ev : AgentEvent) :
  as_firewall (before_inspect st p ev) = as_firewall st /\
  as_config (before_inspect st p ev) = as_config st /\
  as_grants (before_inspect st p ev) = as_grants st /\
  as_grant_key (before_inspect st p ev) = as_grant_key st.
Proof. unfold before_inspect. by case_bool_decide. Qed.

(** Settling an event leaves the configuration alone and advances the firewall by one
    [inspect], whose outcome it reports. *)
Lemma settle_facts (st : AppState) (p : HookPayload) (ev : AgentEvent) (env : HookEnv) :
  se_outcome (settle' st p ev env).1 = (inspect (as_firewall st) ev).1 /\
  as_firewall (settle' st p ev env).2 = (inspect (as_firewall st) ev).2 /\
  as_config (settle' st p ev env).2 = as_config st.
Proof.
  unfold settle. destruct (before_inspect_facts st p ev) as (Hf & Hc & _). rewrite Hf.
  destruct (inspect (as_firewall st) ev) as [o fw]. destruct (resolve _ _ _ _) as [v j].
  pose proof (approve_facts (set_firewall fw (before_inspect st p ev)) p v env) as (Hf' & Hc' & _).
  destruct (approve' _ p v env) as [[v' ap] st2]. cbn in *. by rewrite Hf', Hc'.
Qed.

(** Only an escalation is resolved, and only [Ask] is redeemable. *)
Lemma settle_plain (st : AppState) (p : HookPayload) (ev : AgentEvent) (env : HookEnv) :
  (ao_verdict (inspect (as_firewall st) ev).1 = Deny \/ ao_verdict (inspect (as_firewall st) ev).1 = Allow) ->
  se_verdict (settle' st p ev env).1 = ao_verdict (inspect (as_firewall st) ev).1 /\
  se_approval (settle' st p ev env).1 = None.
Proof.
  intros Hv. unfold settle. destruct (before_inspect_facts st p ev) as (Hf & _). rewrite Hf.
  destruct (inspect (as_firewall st) ev) as [o fw]. simpl in Hv. unfold resolve.
  rewrite bool_decide_false by (destruct Hv as [-> | ->]; done). cbn [negb].
  pose proof (approve_facts (set_firewall fw (before_inspect st p ev)) p (ao_verdict o) env)
    as (_ & _ & _ & _ & _ & Ha). rewrite Ha by (destruct Hv as [-> | ->]; done). done.
Qed.

(** The reply to an event: an opinion exactly for an enforced [Ask] or [Deny] on a tool
    call. *)
Lemma hook_event_reply (st : AppState) (p : HookPayload) (m : Mapped) (env : HookEnv) :
  (hook_event' st p m env).1 =
  let s := (settle' st p (mp_event m) env).1 in
  let d := hook_decide (se_verdict s) (ao_rule (se_outcome s)) (ao_message (se_outcome s)) (cf_enforce (as_config st)) in
  if bool_decide (hp_event p = PreToolUse) && cf_enforce (as_config st) then
    match se_verdict s with
    | Ask | Deny => Opinion (to_hook_output d)
    | _ => NoOpinion
    end
  else NoOpinion.
Proof.
  unfold hook_event. destruct (settle_facts st p (mp_event m) env) as (_ & _ & Hc).
  destruct (settle' st p (mp_event m) env) as [s st']. cbn in Hc |- *. rewrite Hc.
  destruct (bool_decide (hp_event p = PreToolUse)); [|done]. unfold hook_decide.
  destruct (cf_enforce (as_config st)); cbn [negb andb]; [|done]. by destruct (se_verdict s).
Qed.

Lemma hook_event_firewall (st : AppState) (p : HookPayload) (m : Mapped) (env : HookEnv) :
  as_firewall (hook_event' st p m env).2 = (inspect (as_firewall st) (mp_event m)).2.
Proof.
  unfold hook_event. destruct (settle_facts st p (mp_event m) env) as (_ & <- & _).
  destruct (settle' st p (mp_event m) env) as [s st']. cbn. unfold audit_write. by destruct (he_audit_ok env).
Qed.

(** The daemon adds nothing to the firewall: along any run of requests its firewall is
    the one that inspected, in order, the events the requests were mapped to. *)
Fixpoint run_events (st : AppState) (rs : list HookReq) : list AgentEvent :=
  match rs with
  | [] => []
  | r :: rs' =>
      match request_event st r with Some m => [mp_event m] | None => [] end ++ run_events (hook_step st r) rs'
  end.

Lemma hook_step_firewall (st : AppState) (r : HookReq) :
  as_firewall (hook_step st r) =
  match request_event st r with
  | Some m => (inspect (as_firewall st) (mp_event m)).2
  | None => as_firewall st
  end.
Proof.
  pose proof (hook_cases st r) as Hc. unfold request_event in *.
  destruct (accepted st r) as [p|]; cbn [mbind option_bind] in *; [|apply Hc].
  destruct (to_event _ _ _ _ _) as [m|]; [|apply Hc]. unfold hook_step. rewrite Hc.
  pose proof (hook_event_firewall (set_sessions (sessions_next (as_sessions st) (hp_session_id p)).2 st) p m (hr_env r)) as Hf.
  destruct (hook_event' _ p m _) as [reply st']. exact Hf.
Qed.

Lemma run_refines_engine (st : AppState) (rs : list HookReq) :
  as_firewall (hook_run st rs) = inspect_all (as_firewall st) (run_events st rs).
Proof.
  revert st. induction rs as [|r rs IH]; intros st; [done|].
  change (hook_run st (r :: rs)) with (hook_run (hook_step st r) rs). rewrite IH. cbn [run_events].
  unfold inspect_all. rewrite fold_left_app. f_equal. rewrite hook_step_firewall.
  by destruct (request_event st r).
Qed.

(** The reply to a request that reaches the firewall. *)
Lemma hook_reply (st : AppState) (r : HookReq) (p : HookPayload) (m : Mapped) :
  accepted st r = Some p -> request_event st r = Some m ->
  (hook' st (hr_auth r) (hr_body r) (hr_env r)).1 =
  (OK_200, (hook_event' (set_sessions (sessions_next (as_sessions st) (hp_session_id p)).2 st) p m (hr_env r)).1).
Proof.
  intros Ha Hm. pose proof (hook_cases st r) as Hc. rewrite Ha, Hm in Hc. rewrite Hc.
  by destruct (hook_event' _ p m _).
Qed.

(** A denial is final: when the firewall denies a tool call, an enforcing daemon
    answers [deny], whatever grants are pending and whatever the judge would say. *)
Lemma denied_call_reply (st : AppState) (r : HookReq) (p : HookPayload) (m : Mapped) :
  accepted st r = Some p -> request_event st r = Some m -> hp_event p = PreToolUse ->
  cf_enforce (as_config st) = true ->
  ao_verdict (inspect (as_firewall st) (mp_event m)).1 = Deny ->
  exists reason, (hook' st (hr_auth r) (hr_body r) (hr_env r)).1 =
    (OK_200, Opinion (mkHookOutput "PreToolUse" "deny" reason)).
Proof.
  intros Ha Hm Hp He Hd. rewrite (hook_reply st r p m) by done.
  set (st1 := set_sessions _ st).
  destruct (settle_plain st1 p (mp_event m) (hr_env r)) as [Hv _]; [by left|].
  rewrite hook_event_reply. cbv zeta. rewrite Hv.
  change (as_config st1) with (as_config st). change (as_firewall st1) with (as_firewall st).
  rewrite Hd, He, bool_decide_true by done. simpl. eauto.
Qed.

Lemma to_event_call (p : HookPayload) (seq at_ms : Z) (max : nat) (m : Mapped) :
  to_event json_to_string p seq at_ms max = Some m -> hp_event p = PreToolUse ->
  ev_session (mp_event m) = hp_session_id p /\
  ev_kind (mp_event m) = ToolCall (default EmptyString (hp_tool_name p)) (hp_tool_input p).
Proof. unfold to_event. destruct (Str.is_empty _); [done|]. intros Hm Hp. rewrite Hp in Hm. by injection Hm as <-. Qed.

Lemma call_event (st : AppState) (r : HookReq) (p : HookPayload) :
  accepted st r = Some p -> hp_event p = PreToolUse -> hp_session_id p <> EmptyString ->
  exists m, request_event st r = Some m /\ ev_session (mp_event m) = hp_session_id p /\
    ev_kind (mp_event m) = ToolCall (default EmptyString (hp_tool_name p)) (hp_tool_input p).
Proof.
  intros Ha Hp Hs. unfold request_event. rewrite Ha. cbn [mbind option_bind].
  destruct (to_event _ _ _ _ _) as [m|] eqn:Em; [exists m; split; [done|by eapply to_event_call]|].
  exfalso. unfold to_event in Em. rewrite Hp in Em. by destruct (hp_session_id p).
Qed.

Lemma hook_step_config (st : AppState) (r : HookReq) : as_config (hook_step st r) = as_config st.
Proof.
  unfold hook_step, hook. destruct (negb _); [done|]. destruct (_ <? _)%Z; [done|].
  destruct (parse_payload _) as [p|]; [|done]. cbn [sessions_next].
  set (st1 := set_sessions _ st). change (as_config st1) with (as_config st).
  destruct (to_event _ _ _ _ _) as [m|]; [|unfold audit_write; by destruct (he_audit_ok _)].
  unfold hook_event. destruct (settle_facts st1 p (mp_event m) (hr_env r)) as (_ & _ & Hc).
  destruct (settle' st1 p (mp_event m) (hr_env r)) as [s st2]. cbn in Hc |- *.
  unfold audit_write. by destruct (he_audit_ok _).
Qed.

Lemma hook_run_config (st : AppState) (rs : list HookReq) : as_config (hook_run st rs) = as_config st.
Proof.
  revert st. induction rs as [|r rs IH]; intros st; [done|].
  change (hook_run st (r :: rs)) with (hook_run (hook_step st r) rs). by rewrite IH, hook_step_config.
Qed.

(** C1. From the network to the refusal, end to end.  An enforcing daemon starts with the
    shipped policy and serves any hook requests; one of them reports a tool result of
    untrusted provenance that carries a distinctive literal; further hook requests follow
    that do not end the session and whose literals, with those before, stay within the
    session's literal table, so that the oldest are not evicted; then a hook request to
    run a destructive or privilege-changing tool call of that session that repeats the
    literal in one of its arguments is answered with [deny], whatever approvals are
    pending and whatever the judge would say. *)
Theorem hook_kill_chain_denied `{!LiteralIterLaws} (st : AppState) (cap : nat)
    (before : list HookReq) (page : HookReq) (later : list HookReq) (r : HookReq)
    (mp : Mapped) (p : HookPayload) (t content : string) (src : Provenance) (lit text : string) :
  let s1 := hook_run st before in
  let s2 := hook_run st (before ++ page :: later) in
  let session := hp_session_id p in
  let between := run_events (hook_step s1 page) later in
  as_firewall st = agent_firewall_new default_policy cap -> cf_enforce (as_config st) = true ->
  request_event s1 page = Some mp -> ev_kind (mp_event mp) = ToolResult t content src ->
  trust src = Untrusted -> lit ∈ literals content -> ev_session (mp_event mp) = session ->
  (forall e, e ∈ between -> ev_session e = session -> ev_kind e <> SessionEnd) ->
  lit_order (af_taint (as_firewall s1)) session + length (literals content)
    + literal_budget session (between ≫= taint_ops) <= tt_cap (af_taint (as_firewall s1)) ->
  accepted s2 r = Some p -> hp_event p = PreToolUse -> session <> EmptyString ->
  leaf text (hp_tool_input p) -> text <> EmptyString -> Str.contains lit (to_lowercase text) = true ->
  (classify (default EmptyString (hp_tool_name p)) (hp_tool_input p) = Destructive \/
   classify (default EmptyString (hp_tool_name p)) (hp_tool_input p) = PrivilegeChanging) ->
  exists reason, (hook' s2 (hr_auth r) (hr_body r) (hr_env r)).1 =
    (OK_200, Opinion (mkHookOutput "PreToolUse" "deny" reason)).
Proof.
  intros s1 s2 session between Hfw He Hpage Hk Hu Hlit Hsess Hend Hbudget Hacc Hpre Hs Hleaf Hne Hct Hcl.
  destruct (call_event s2 r p Hacc Hpre Hs) as (m & Hm & Hms & Hmk).
  apply (denied_call_reply s2 r p m); [done..| |].
  { unfold s2. by rewrite hook_run_config. }
  assert (as_firewall s2 = inspect_all (as_firewall s1) (mp_event mp :: between)) as Hs2.
  { unfold s2, hook_run. rewrite fold_left_app. fold (hook_run st before). fold s1.
    change (fold_left hook_step (page :: later) s1) with (hook_run s1 (page :: later)).
    rewrite run_refines_engine. cbn [run_events]. by rewrite Hpage. }
  destruct (literal_stays_tainted (as_firewall s1) (mp_event mp) between session t content src lit text)
    as [mk Hmk']; [done..|]. rewrite <- Hs2 in Hmk'. unfold session in Hmk'. rewrite <- Hms in Hmk'.
  unfold s2 in Hmk' |- *. rewrite run_refines_engine, Hfw in Hmk' |- *. by eapply tainted_call_denied.
Qed.

(** C4. A prompt to the user is waived only by a human approval of exactly this call: when
    an enforcing daemon has no opinion on a call the policy wanted confirmed, a pending
    grant signed with the daemon's key names this session, this tool and these
    arguments, has not expired and is not from the future. *)
Theorem ask_waived_only_by_grant (st : AppState) (r : HookReq) (p : HookPayload) (m : Mapped) :
  let ask := ao_verdict (inspect (as_firewall st) (mp_event m)).1 in
  accepted st r = Some p -> request_event st r = Some m -> hp_event p = PreToolUse ->
  cf_enforce (as_config st) = true -> ask = Ask ->
  (hook' st (hr_auth r) (hr_body r) (hr_env r)).1.2 = NoOpinion ->
  exists tool g, hp_tool_name p = Some tool /\ g ∈ pending (as_grants st) /\
    sign hex hmac_sha256 (as_grant_key st) g = g_signature g /\
    g_session g = hp_session_id p /\ g_tool g = tool /\
    g_args_fingerprint g = action_fingerprint sha256 hex json_to_string tool (hp_tool_input p) /\
    (he_now_redeem (hr_env r) < g_expires_at_ms g)%Z /\
    (g_issued_at_ms g <= sat_add64 (he_now_redeem (hr_env r)) FUTURE_SKEW_MS)%Z.
Proof.
  intros ask Ha Hm Hp He Hask Hno. rewrite (hook_reply st r p m) in Hno by done. cbn [snd] in Hno.
  set (st1 := set_sessions _ st) in Hno. rewrite hook_event_reply in Hno. cbv zeta in Hno.
  change (as_config st1) with (as_config st) in Hno. rewrite He, bool_decide_true in Hno by done.
  unfold settle in Hno. destruct (before_inspect_facts st1 p (mp_event m)) as (Hf & _ & Hg & Hk).
  rewrite Hf in Hno. change (as_firewall st1) with (as_firewall st) in Hno. subst ask.
  destruct (inspect (as_firewall st) (mp_event m)) as [o fw]. cbn [fst] in Hask.
  unfold resolve in Hno. rewrite Hask in Hno. cbn [negb] in Hno.
  rewrite bool_decide_false in Hno by done. cbn [negb] in Hno.
  set (st2 := set_firewall fw (before_inspect st1 p (mp_event m))) in Hno.
  destruct (approve_lifts st2 p (hr_env r)) as (tool & g & _ & Htool & Hin & _ & Hv).
  { destruct (approve' st2 p Ask (hr_env r)) as [[v ap] st3]. cbn in Hno |- *. by destruct v. }
  apply verify_ok in Hv as (Hsig & Hi & Hx & Hgs & Hgt & Hgf).
  exists tool, g. subst st2. cbn [as_grants as_grant_key set_firewall] in *. rewrite Hg in Hin. rewrite Hk in Hsig.
  split_and!; done.
Qed.

(** Shadow mode never speaks: without enforcement every hook request is answered with
    no opinion, whatever the state and the request are. *)
Theorem shadow_mode_silent (st : AppState) (r : HookReq) :
  cf_enforce (as_config st) = false ->
  (hook' st (hr_auth r) (hr_body r) (hr_env r)).1.2 = NoOpinion.
Proof.
  intros He. pose proof (hook_cases st r) as Hc.
  destruct (accepted st r) as [p|] eqn:Ha; [|apply Hc].
  destruct (request_event st r) as [m|] eqn:Hm; [|apply Hc].
  rewrite (hook_reply st r p m) by done. cbn [snd]. rewrite hook_event_reply. cbv zeta.
  cbn [as_config set_sessions]. by rewrite He, andb_false_r.
Qed.
End hook_facts.

(** ** Properties of the handshake *)

Section mcp_facts.
Context `{UnicodeTables} `{RegexEngine} `{EntropyPlatform} `{LiteralIter}.
Variable sha256 : string -> string.
Variable hex : string -> string.
Variable json_to_string : Value -> string.
Variable debug_str : string -> string.
Variable show_nat : nat -> string.
Variable parse_record : string -> option ServerRecord.
Variable show_record : ServerRecord -> string.

Abbreviation digest := (sha256_hex sha256 hex).
Abbreviation changed' := (manifest_changed sha256 hex json_to_string parse_record).
Abbreviation handshake := (mcp_handshake sha256 hex json_to_string debug_str show_nat parse_record show_record).

(** The firewall's verdict on a handshake in a given state. *)
Definition handshake_outcome (st : AppState) (req : McpHandshakeReq) : AgentOutcome :=
  (inspect_mcp_handshake (as_firewall st) (mr_server req) (mr_tools req) (changed' st req)
     (bool_decide (is_Some (shadows (as_tools st) (mr_server req) (td_name <$> mr_tools req))))).1.

Lemma ask_daemon_reply (v : string) (enforce : bool) (reason : option string) :
  ask_daemon (Some (mcp_reply v enforce reason)) =
  (if bool_decide (v = "allow") then RAllow else if bool_decide (v = "ask") then RAsk
   else if bool_decide (v = "deny") then RDeny else RUnavailable, enforce).
Proof. by destruct reason. Qed.

Lemma handshake_reply (st : AppState) (req : McpHandshakeReq) (env : McpEnv) :
  exists reason, (handshake st req env).1 =
    mcp_reply (verdict_str (ao_verdict (handshake_outcome st req))) (cf_enforce (as_config st)) reason.
Proof.
  unfold mcp_handshake, handshake_outcome.
  destruct (inspect_mcp_handshake _ _ _ _ _) as [o fw].
  destruct (put_manifest _ _ _ _ _ _ _ _ _) as [ok disk]. cbn [fst].
  unfold hook_decide, audit_write. destruct (me_audit_ok env), (cf_enforce (as_config st)) eqn:E;
    cbn [as_config set_pins set_firewall negb]; rewrite ?E; cbn [negb]; destruct (ao_verdict o); by eexists.
Qed.

(** The relay withholds a manifest exactly when the daemon enforces and its verdict on
    the handshake is [Ask] or [Deny]; in particular a verdict left as an escalation,
    which this endpoint does not resolve, lets the manifest through. *)
Theorem relay_withholds_iff (st : AppState) (req : McpHandshakeReq) (env : McpEnv) :
  let reply := ask_daemon (Some (handshake st req env).1) in
  let v := ao_verdict (handshake_outcome st req) in
  should_withhold reply.1 reply.2 = true <->
  cf_enforce (as_config st) = true /\ (v = Ask \/ v = Deny).
Proof.
  intros reply v. subst reply. destruct (handshake_reply st req env) as [reason ->].
  rewrite ask_daemon_reply. fold v. destruct (cf_enforce (as_config st)), v; cbn; naive_solver.
Qed.

Lemma handshake_disk (st : AppState) (req : McpHandshakeReq) (env : McpEnv) :
  as_manifests (handshake st req env).2 =
    (put_manifest digest parse_record show_record (as_manifests st) (mr_server req)
       (manifest_hash digest json_to_string (mr_tools req)) (mr_tools req) (me_now_pin env) (me_io env)).2 /\
  as_tools (handshake st req env).2 = PinStore.record (as_tools st) (mr_server req) (td_name <$> mr_tools req).
Proof.
  unfold mcp_handshake. destruct (inspect_mcp_handshake _ _ _ _ _) as [o fw].
  cbn [as_manifests set_firewall as_tools].
  destruct (put_manifest _ _ _ _ _ _ _ _ _) as [ok disk]. cbn [snd].
  unfold audit_write. by destruct (me_audit_ok env).
Qed.

(** A rug pull is seen: after a handshake whose pin was stored, a handshake of the same
    server is reported as drifted exactly when its manifest hashes differently, and the
    pin it is compared with holds the tools the server declared before. *)
Theorem rug_pull_detected (st : AppState) (req req' : McpHandshakeReq) (env : McpEnv) :
  let st' := (handshake st req env).2 in
  let hash := fun q => manifest_hash digest json_to_string (mr_tools q) in
  let stored := next_record (read_record digest parse_record (as_manifests st) (mr_server req)) (hash req)
                  (mr_tools req) (me_now_pin env) in
  (forall s, Str.len (digest s) = 64) -> parse_record (show_record stored) = Some stored ->
  me_io env = mkIo Written true -> mr_server req' = mr_server req ->
  changed' st' req' = negb (bool_decide (hash req = hash req')) /\
  get_pinned digest parse_record (as_manifests st') (mr_server req) =
    Some (mkPinned (hash req) (mr_tools req) (me_now_pin env)).
Proof.
  intros st' hash stored Hlen Hrt Hio Hs. destruct (handshake_disk st req env) as [Hd _].
  assert (get_pinned digest parse_record (as_manifests st') (mr_server req) =
    Some (mkPinned (hash req) (mr_tools req) (me_now_pin env))) as Hpin.
  { unfold st'. rewrite Hd, Hio. unfold get_pinned. by rewrite put_read. }
  split; [|done]. unfold manifest_changed. rewrite Hs, Hpin. done.
Qed.
End mcp_facts.

(** ** Witnesses *)

Definition demo_env : HookEnv := mkHookEnv 0 1050 0 0 true true true.
Definition demo_req (body : string) : HookReq := mkHookReq (Some "Bearer tok") body demo_env.

(** Two requests: a page fetched over the network, and a shell command. *)
Definition demo_payload (event : HookEvent) (tool : string) (input response : Value) : HookPayload :=
  mkHookPayload "s" event None (Some tool) input None response None None None.
Definition demo_command : Value := JArray [JString "rm -rf ~ # http://A.example/x"].
Definition demo_parse (body : string) : option HookPayload :=
  if bool_decide (body = "page")
  then Some (demo_payload PostToolUse "WebFetch" (JObject [("url", JString "http://a.example/x")])
               (JString "http://a.example/x"))
  else if bool_decide (body = "call")
  then Some (demo_payload PreToolUse "Bash" demo_command JNull)
  else None.

Definition demo_config (enforce : bool) : Config :=
  mkConfig "127.0.0.1" 8787 enforce None None false 4096 100 4096 default_judge None.

Definition demo_state (fw : AgentFirewall) (enforce : bool) (grants : GrantStore) : AppState :=
  mkAppState fw ∅ [] (demo_config enforce) "tok" (span_cache_new 8 4096) (mkJudge default_judge None)
    ∅ with_builtins grants [] "k".

Definition demo_hook (st : AppState) (r : HookReq) : Status * HookReply * AppState :=
  @hook ascii_tables demo_engine demo_iter demo_id demo_id demo_hmac demo_json demo_id demo_parse
    st (hr_auth r) (hr_body r) (hr_env r).
Definition demo_hook_run : AppState -> list HookReq -> AppState :=
  @hook_run ascii_tables demo_engine demo_iter demo_id demo_id demo_hmac demo_json demo_id demo_parse.

Definition demo_mapped_page : Mapped :=
  mkMapped (mkEvent "s" "main" None 1 0 (ToolResult "WebFetch" "http://a.example/x" (Network "a.example"))) false.

Lemma hook_kill_chain_denied_witness :
  exists reason,
    (demo_hook (demo_hook_run (demo_state (demo_new 10) true []) [demo_req "page"]) (demo_req "call")).1 =
    (OK_200, Opinion (mkHookOutput "PreToolUse" "deny" reason)).
Proof.
  apply (@hook_kill_chain_denied ascii_tables demo_engine demo_entropy demo_iter
    demo_id demo_id demo_hmac demo_json demo_id demo_parse demo_iter_laws
    (demo_state (demo_new 10) true []) 10 [] (demo_req "page") [] (demo_req "call") demo_mapped_page
    (demo_payload PreToolUse "Bash" demo_command JNull) "WebFetch" "http://a.example/x"
    (Network "a.example") "http://a.example/x" "rm -rf ~ # http://A.example/x").
  - reflexivity.
  - reflexivity.
  - vm_compute. reflexivity.
  - reflexivity.
  - reflexivity.
  - vm_compute. left.
  - reflexivity.
  - intros e []%elem_of_nil.
  - vm_compute. lia.
  - vm_compute. reflexivity.
  - reflexivity.
  - discriminate.
  - apply (leaf_array _ (JString "rm -rf ~ # http://A.example/x")); [left|constructor].
  - discriminate.
  - reflexivity.
  - left. reflexivity.
Defined.

(** A policy that asks about everything, and an approval of the demo command. *)
Definition demo_asking : AgentFirewall :=
  @agent_firewall_new demo_engine demo_entropy (mkAgentPolicySet [] [] Ask) 10.
Definition demo_approval : Grant :=
  mint demo_id demo_hmac "k"
    (mkActionRef "s" "Bash" (action_fingerprint demo_id demo_id demo_json "Bash" demo_command)) 1000 100 "n".

Lemma ask_waived_only_by_grant_witness :
  exists tool g, Some "Bash" = Some tool /\ g ∈ pending [("n.json", demo_approval)] /\ g_tool g = tool.
Proof.
  destruct (@ask_waived_only_by_grant ascii_tables demo_engine demo_iter
    demo_id demo_id demo_hmac demo_json demo_id demo_parse
    (demo_state demo_asking true [("n.json", demo_approval)]) (demo_req "call")
    (demo_payload PreToolUse "Bash" demo_command JNull)
    (mkMapped (mkEvent "s" "main" None 1 0 (ToolCall "Bash" demo_command)) false))
    as (tool & g & Ht & Hg & _ & _ & Hgt & _).
  - vm_compute. reflexivity.
  - vm_compute. reflexivity.
  - reflexivity.
  - reflexivity.
  - vm_compute. reflexivity.
  - vm_compute. reflexivity.
  - exists tool, g. split; [exact Ht|]. split; [exact Hg|exact Hgt].
Defined.

Lemma shadow_mode_silent_witness :
  (demo_hook (demo_state (demo_new 10) false []) (demo_req "call")).1.2 = NoOpinion.
Proof.
  apply (@shadow_mode_silent ascii_tables demo_engine demo_iter
    demo_id demo_id demo_hmac demo_json demo_id demo_parse (demo_state (demo_new 10) false []) (demo_req "call")).
  reflexivity.
Defined.

Definition demo_handshake (description : string) : McpHandshakeReq :=
  mkMcpReq "github" [mkToolDecl "search" description (JObject [])].
Definition demo_stored : ServerRecord :=
  mkServerRecord (Some (mkPinned (manifest_hash (sha256_hex demo_digest demo_id) demo_json (mr_tools (demo_handshake "a")))
    (mr_tools (demo_handshake "a")) 5)) [].

Lemma rug_pull_detected_witness :
  let st' := (@mcp_handshake ascii_tables demo_digest demo_id demo_json demo_id (fun _ => "1")
    (fun _ => Some demo_stored) (fun _ => "{}") (demo_state (demo_new 10) true []) (demo_handshake "a")
    (mkMcpEnv 5 6 (mkIo Written true) true)).2 in
  manifest_changed demo_digest demo_id demo_json (fun _ => Some demo_stored) st' (demo_handshake "evil") = true.
Proof.
  intros st'.
  destruct (@rug_pull_detected ascii_tables demo_digest demo_id demo_json demo_id (fun _ => "1")
    (fun _ => Some demo_stored) (fun _ => "{}") (demo_state (demo_new 10) true []) (demo_handshake "a")
    (demo_handshake "evil") (mkMcpEnv 5 6 (mkIo Written true) true)) as [Hc _].
  - exact demo_digest_len.
  - vm_compute. reflexivity.
  - reflexivity.
  - reflexivity.
  - unfold st'. rewrite Hc. vm_compute. reflexivity.
Defined.

(** An escalation reaches the relay unresolved: under an enforcing daemon whose policy
    escalates the handshake with the fallback [Ask], the manifest is not withheld. *)
Theorem mcp_escalation_not_withheld :
  let policy := mkAgentPolicySet [mkAgentRule "judge-manifests" cond_any Escalate None (Some Ask)] [] Allow in
  let st := demo_state (@agent_firewall_new demo_engine demo_entropy policy 10) true [] in
  let o := @handshake_outcome ascii_tables demo_digest demo_id demo_json (fun _ => None) st (demo_handshake "a") in
  let reply := (@mcp_handshake ascii_tables demo_digest demo_id demo_json demo_id (fun _ => "1")
    (fun _ => None) (fun _ => "{}") st (demo_handshake "a") (mkMcpEnv 5 6 (mkIo Written true) true)).1 in
  ao_verdict o = Escalate /\ ao_fallback o = Some Ask /\
  should_withhold (ask_daemon (Some reply)).1 (ask_daemon (Some reply)).2 = false.
Proof. by vm_compute. Qed.
