(* ===== verification/Native.v ===== *)
(** Native admission ([crates/agentfw/src/native.rs], [native/resource.rs]): a trusted
    collector announces sessions, calls, results and context of a runtime's own tools; each
    is admitted against an immutable registry, the agent firewall and, where the operator
    asks for it, a resource policy.  A request is one atomic step: one lock covers
    sequencing, inspection, admission and audit.  The JSON parsers, the digest, the random
    identifiers and the clocks are inputs. *)
From S2P Require Import Prelude BTree Platform F32 Json Net CoreTypes Scoring Detectors Adapter.
From S2P Require Import Event Authority Fingerprint Fifo Taint Action Egress AgentPolicy Engine.
From S2P Require Import Spans Judge Grant Manifest PinStore HookMap Config Resources Daemon.
From Stdlib Require Import String Ascii.
#[local] Abbreviation length := List.length.

Definition CONTRACT : string := "sw-native/1".
Definition RESOURCE_CONTRACT : string := "sw-native/resources/1".
Definition MAX_BODY : nat := Z.to_nat (1024 * 1024).
Definition MAX_SESSIONS : nat := 64.
Definition MAX_CALLS : nat := 256.
Definition MAX_SESSION_CALLS : nat := 64.
(** 300 seconds; instants are nanoseconds. *)
Definition TTL : Z := 300 * 1000000000.

(** ** The registry *)

Inductive ResultProvenance := RpUntrusted | RpLocalSystem | RpLocalProject.
Inductive EgressKind := UrlHost | EmailDomain.
Record NativeEgress := mkNativeEgress { eg_pointer : string; eg_kind : EgressKind; eg_optional : bool }.

(** [resource::Policy] *)
Record Policy := mkPolicy {
  po_profile : ResourceProfile;
  po_workspace : string;
  po_cwd : string;
  po_executor_sha256 : string;
  po_classifier_sha256 : string;
  po_allowed_resources : list Resource
}.

Record Tool := mkTool {
  tl_name : string;
  tl_schema_sha256 : string;
  tl_action_class : ActionClass;
  tl_result_provenance : ResultProvenance;
  tl_egress : list NativeEgress;
  tl_resource_policy : option Policy
}.

Record Registry := mkRegistry {
  rg_contract_version : string;
  rg_registry_id : string;
  rg_tools : list Tool
}.

(** [resource::Admission] *)
Record Admission := mkAdmission {
  ad_server_id : string;
  ad_host_call_id : Value;
  ad_profile_sha256 : string;
  ad_executor_sha256 : string;
  ad_classifier_sha256 : string;
  ad_snapshot_sha256 : string;
  ad_definition_sha256 : string;
  ad_input_sha256 : string;
  ad_resources : list ResourceEvidence
}.

Definition admission_value (a : Admission) : Value :=
  obj [("server_id", JString (ad_server_id a)); ("host_call_id", ad_host_call_id a);
       ("profile_sha256", JString (ad_profile_sha256 a)); ("executor_sha256", JString (ad_executor_sha256 a));
       ("classifier_sha256", JString (ad_classifier_sha256 a));
       ("snapshot_sha256", JString (ad_snapshot_sha256 a));
       ("definition_sha256", JString (ad_definition_sha256 a)); ("input_sha256", JString (ad_input_sha256 a));
       ("resources", JArray (evidence_value <$> ad_resources a))].

(** [b"_-.:/"] *)
Definition identifier_byte (c : ascii) : bool :=
  Str.is_alnum c || bool_decide (N_of_ascii c ∈ [95; 45; 46; 58; 47]%N).
Definition identifier (value : string) : bool :=
  negb (Str.is_empty value) && (Str.len value <=? 128) && Str.forallb identifier_byte value.

(** A JSON-RPC identifier: an integer, or a short text without control characters. *)
Definition host_id_ok (id : Value) : bool :=
  is_i64 id || is_u64 id
  || match as_str id with
     | Some s => negb (Str.is_empty s) && (Str.len s <=? 128) && negb (has_control s)
     | None => false
     end.

(** Where a tool's results come from. *)
Definition native_source (registry : Registry) (tool : Tool) : Provenance :=
  match tl_result_provenance tool with
  | RpUntrusted => Native (rg_registry_id registry) (tl_name tool)
  | RpLocalSystem => LocalSystem
  | RpLocalProject => LocalProject
  end.

(** ** Sessions and calls *)

Inductive Stage := StResult | StContext.
#[export] Instance Stage_eq_dec : EqDecision Stage.
Proof. solve_decision. Defined.

Record Call := mkCall {
  cl_host_call_id : option Value;
  cl_contract_version : string;
  cl_tool : string;
  cl_args_sha256 : string;
  cl_binding_sha256 : string;
  cl_stage : Stage;
  cl_expires : Z;
  cl_result_kind : option string
}.

Record Session := mkSession {
  ss_epoch : string;
  ss_seq : Z;
  ss_touched : Z;
  ss_calls : BMap.t string Call
}.

(** [NativeState]: the registry is fixed at startup. *)
Record NativeConfig := mkNativeConfig {
  nt_registry : Registry;
  nt_registry_sha256 : string;
  nt_token : string
}.

(** ** Requests and responses *)

Record Request := mkRequest {
  rq_contract_version : string;
  rq_registry_sha256 : string;
  rq_session_id : string;
  rq_event : string;
  rq_tool : option string;
  rq_args : option Value;
  rq_schema_sha256 : option string;
  rq_call_id : option string;
  rq_content : option string;
  rq_result_kind : option string;
  rq_delivery : option string;
  rq_resource_admission : option Admission
}.

Record Response := mkResponse {
  rs_contract_version : string;
  rs_registry_sha256 : string;
  rs_session_id : string;
  rs_event : string;
  rs_verdict : string;
  rs_enforced : bool;
  rs_release : bool;
  rs_call_id : option string;
  rs_binding_sha256 : option string;
  rs_content_sha256 : option string;
  rs_resources_sha256 : option string;
  rs_reason_codes : list string
}.

(** The audit record of one native request. *)
Record NativeLine := mkNativeLine {
  nl_at_ms : Z;
  nl_session : string;
  nl_seq : Z;
  nl_event : string;
  nl_tool : option string;
  nl_verdict : string;
  nl_released : bool;
  nl_rule : option string;
  nl_risk_score : Z;
  nl_findings : list (string * string);
  nl_egress_hosts : list string;
  nl_taint : option AuditTaint;
  nl_latency_us : Z;
  nl_registry_sha256 : string;
  nl_delivery : option string;
  nl_call_id : option string;
  nl_binding_sha256 : option string;
  nl_content_sha256 : option string;
  nl_reason_codes : list string
}.

(** The state a request changes: the sessions, and what it shares with the rest of the
    daemon. *)
Record World := mkWorld {
  w_sessions : BMap.t string Session;
  w_firewall : AgentFirewall;
  w_spans : SpanCache;
  w_audit : list NativeLine
}.

(** What the outside world answers during one request. *)
Record NativeEnv := mkNativeEnv {
  ne_now : Z;                  (* the monotonic clock, once the lock is held *)
  ne_at_ms : Z -> Z;           (* the wall clock when the event with this number is built *)
  ne_latency_us : Z;
  ne_epoch : string;           (* [token::generate()] for a session *)
  ne_call_id : string;         (* [token::generate()] for a call *)
  ne_audit_ok : bool
}.

Definition set_sessions (s : BMap.t string Session) (w : World) : World :=
  mkWorld s (w_firewall w) (w_spans w) (w_audit w).
Definition set_inspection (fw : AgentFirewall) (sp : SpanCache) (w : World) : World :=
  mkWorld (w_sessions w) fw sp (w_audit w).
Definition put_session (id : string) (s : Session) (w : World) : World :=
  set_sessions (BMap.insert id s (w_sessions w)) w.
Definition set_calls (c : BMap.t string Call) (s : Session) : Session :=
  mkSession (ss_epoch s) (ss_seq s) (ss_touched s) c.
Definition set_seq (n : Z) (s : Session) : Session :=
  mkSession (ss_epoch s) n (ss_touched s) (ss_calls s).

(** ** Verdicts *)

Definition resolved (o : AgentOutcome) : Verdict :=
  match ao_verdict o with
  | Escalate => default Ask (ao_fallback o)
  | verdict => verdict
  end.

Definition verdict_label (v : Verdict) : string :=
  match v with Allow => "allow" | Deny => "deny" | _ => "ask" end.

(** ** JSON helpers *)

(** [value[key]]: null when the member is missing. *)
Definition index (v : Value) (key : string) : Value := default JNull (value_get key v).
Definition key_set (m : list (string * Value)) : BSet.t string := BSet.of_list m.*1.
Definition keys_are (m : list (string * Value)) (ks : list string) : bool :=
  bool_decide (key_set m = BSet.of_list ks).

(** [McpEnvelope] and its parts: a JSON-RPC response, read strictly. *)
Record McpTextBlock := mkTextBlock { tb_kind : string; tb_text : string }.
Record McpTextResult := mkTextResult { tr_content : list McpTextBlock; tr_is_error : option bool }.
Record McpError := mkMcpError { mer_code : Z; mer_message : string }.
Record McpEnvelope := mkEnvelope {
  en_jsonrpc : string;
  en_id : Value;
  en_result : option McpTextResult;
  en_error : option McpError
}.

Section native.
Context `{UnicodeTables} `{RegexEngine} `{EntropyPlatform} `{LiteralIter} `{FileSystem}.
Variable host_os : string.
Variable url_parse : string -> option Url.
(** [format!("{:x}", Sha256::digest(bytes))]. *)
Variable sha256_hex : string -> string.
Variable json_to_string : Value -> string.
(** [serde_json::from_str] at the types the requests are read at. *)
Variable from_str_value : string -> option Value.
Variable from_str_request : string -> option Request.
Variable from_str_envelope : string -> option McpEnvelope.

Definition canonical_digest (value : Value) : string := sha256_hex (json_to_string (canonical value)).

(** The fields a call's binding covers, each with its length before it. *)
Definition binding_input (registry epoch tool schema : string) (args : Value) (admission : option Admission) :
    string :=
  "sw-native/call/1" +:+ NUL
  +:+ prefixed registry +:+ prefixed epoch +:+ prefixed tool +:+ prefixed schema
  +:+ prefixed (json_to_string (canonical args))
  +:+ match admission with
      | Some a => "sw-native/resources/1" +:+ NUL
                  +:+ prefixed (json_to_string (canonical (admission_value a)))
      | None => EmptyString
      end.
Definition binding (registry epoch tool schema : string) (args : Value) (admission : option Admission) :
    string := sha256_hex (binding_input registry epoch tool schema args admission).

(** ** Declared egress *)

(** The host one text of an egress argument names. *)
Definition egress_host (kind : EgressKind) (value : Value) : result string string :=
  match as_str value with
  | Some text =>
      if negb (Str.is_empty text) && (Str.len text <=? 4096) && negb (has_control text) then
        match kind with
        | UrlHost => match canonical_url url_parse text with
                     | Ok r => Ok r.1.2 | Err _ => Err "native_egress_url" end
        | EmailDomain => match canonical_recipient text with
                         | Ok r => Ok r.2 | Err _ => Err "native_egress_email" end
        end
      else Err "native_egress_type"
  | None => Err "native_egress_type"
  end.

Fixpoint egress_hosts_of (kind : EgressKind) (values : list Value) (hosts : BSet.t string) :
    result (BSet.t string) string :=
  match values with
  | [] => Ok hosts
  | v :: values' => let? host := egress_host kind v in egress_hosts_of kind values' (BSet.insert host hosts)
  end.

(** One selector: skip it, or add the hosts of its values. *)
Definition egress_selector (args : Value) (selector : NativeEgress) (hosts : BSet.t string) :
    result (BSet.t string) string :=
  match selected args (eg_pointer selector) with
  | Err _ => Err "native_egress_type"
  | Ok found =>
      if eg_optional selector && match found with None | Some JNull => true | _ => false end then Ok hosts
      else match found with
           | None => Err "native_egress_missing"
           | Some value =>
               let? values := (match value with
                 | JArray items => if length items <=? 256 then Ok items else Err "native_egress_type"
                 | JString _ => Ok [value]
                 | _ => Err "native_egress_type"
                 end) in
               bail_if (bool_decide (values = []) && negb (eg_optional selector))
                 with "native_egress_missing" in
               egress_hosts_of (eg_kind selector) values hosts
           end
  end.

Fixpoint egress_selectors (args : Value) (selectors : list NativeEgress) (hosts : BSet.t string) :
    result (BSet.t string) string :=
  match selectors with
  | [] => Ok hosts
  | s :: selectors' => let? hosts := egress_selector args s hosts in egress_selectors args selectors' hosts
  end.

Definition declared_hosts (tool : Tool) (args : Value) : result (list string) string :=
  let? hosts := egress_selectors args (tl_egress tool) [] in
  bail_if (bool_decide (hosts = [])
           && (bool_decide (tl_action_class tool = NetworkAction) || negb (bool_decide (length (tl_egress tool) = 0))))
    with "native_egress_missing" in
  Ok hosts.

(** ** Resource authorization ([native/resource.rs]) *)

Definition validate_shape (a : Admission) : result unit string :=
  if negb (identifier (ad_server_id a)) || negb (host_id_ok (ad_host_call_id a))
     || bool_decide (ad_resources a = []) || (256 <? length (ad_resources a))
     || (MAX_CONTENT <? Str.len (json_to_string (admission_value a)))
     || existsb (fun d => negb (is_digest d))
          [ad_profile_sha256 a; ad_executor_sha256 a; ad_classifier_sha256 a; ad_snapshot_sha256 a;
           ad_definition_sha256 a; ad_input_sha256 a]
  then Err "native_resource_invalid" else Ok tt.

Definition resources_sha256 (a : Admission) : string :=
  canonical_digest (JArray (evidence_value <$> ad_resources a)).

Definition policy_valid (p : Policy) (tool : Tool) : bool :=
  identifier (rp_server_id (po_profile p))
  && bool_decide (rp_tool_name (po_profile p) = tl_name tool)
  && bool_decide (rp_schema_sha256 (po_profile p) = tl_schema_sha256 tool)
  && negb (bool_decide (length (rp_selectors (po_profile p)) = 0))
  && (length (rp_selectors (po_profile p)) <=? 32)
  && is_absolute (po_workspace p) && is_absolute (po_cwd p)
  && fs_is_dir (po_workspace p) && fs_is_dir (po_cwd p)
  && match fs_canonicalize (po_cwd p), fs_canonicalize (po_workspace p) with
     | Some cwd, Some root => starts_with_path cwd root | _, _ => false end
  && is_digest (po_executor_sha256 p) && is_digest (po_classifier_sha256 p)
  && negb (bool_decide (po_allowed_resources p = [])) && (length (po_allowed_resources p) <=? 256).

Definition authorize_invocation (tool : Tool) (registry_sha256 : string) (args : Value) (a : Admission) :
    Invocation :=
  mkInvocation (ad_server_id a) (ad_host_call_id a) registry_sha256 (ad_snapshot_sha256 a)
    (tl_schema_sha256 tool) (tl_name tool) EmptyString (JObject []) JNull JNull (ad_definition_sha256 a)
    (ad_input_sha256 a) (Some (ad_classifier_sha256 a)) args (tl_action_class tool).

Definition authorize (policy : Policy) (tool : Tool) (registry_sha256 : string) (args : Value)
    (a : Admission) : result unit string :=
  let? _u := validate_shape a in
  bail_if (negb (bool_decide (ad_server_id a = rp_server_id (po_profile policy)))
           || negb (bool_decide (ad_profile_sha256 a = canonical_digest (profile_value (po_profile policy))))
           || negb (bool_decide (ad_executor_sha256 a = po_executor_sha256 policy))
           || negb (bool_decide (ad_classifier_sha256 a = po_classifier_sha256 policy)))
    with "native_resource_revision_mismatch" in
  let derived := extract host_os url_parse sha256_hex json_to_string
    (authorize_invocation tool registry_sha256 args a) (po_profile policy)
    (mkExecutor host_os (po_workspace policy) (po_cwd policy) true) in
  bail_if (negb (complete derived) || negb (bool_decide (xt_resources derived = ad_resources a)))
    with "native_resource_argument_mismatch" in
  bail_if (existsb (fun e => negb (bool_decide (re_resource e ∈ po_allowed_resources policy)))
             (xt_resources derived))
    with "native_resource_not_allowed" in
  Ok tt.

(** ** Loading the registry *)

Fixpoint tools_valid (tools : list Tool) (names : BSet.t string) : bool :=
  match tools with
  | [] => true
  | t :: tools' =>
      identifier (tl_name t) && negb (BSet.contains (tl_name t) names)
      && is_digest (tl_schema_sha256 t) && (length (tl_egress t) <=? 32)
      && match tl_resource_policy t with Some p => policy_valid p t | None => true end
      && forallb (fun s => valid_pointer (eg_pointer s)) (tl_egress t)
      && tools_valid tools' (BSet.insert (tl_name t) names)
  end.

(** [NativeState::from_bytes]; [parse_registry] is [serde_json::from_slice]. *)
Definition from_bytes (parse_registry : string -> option Registry) (bytes expected token : string) :
    option NativeConfig :=
  if negb ((Str.len bytes <=? MAX_BODY) && is_digest expected && bool_decide (sha256_hex bytes = expected))
  then None
  else
    registry ← parse_registry bytes;
    if negb (bool_decide (rg_contract_version registry = CONTRACT) && identifier (rg_registry_id registry)
             && negb (bool_decide (length (rg_tools registry) = 0)) && (length (rg_tools registry) <=? 256))
    then None
    else if negb (tools_valid (rg_tools registry) []) then None
    else if Str.is_empty token then None
    else Some (mkNativeConfig registry expected token).

(** ** Parsing a request *)

(** The members an event's request has, all of them and no other. *)
Definition event_keys (event contract_version : string) : option (list string) :=
  let base := ["contract_version"; "registry_sha256"; "session_id"; "event"] in
  if bool_decide (event = "session_start") || bool_decide (event = "session_end") then Some base
  else if bool_decide (event = "call") then
    Some (base ++ ["tool"; "args"; "schema_sha256"]
          ++ if bool_decide (contract_version = RESOURCE_CONTRACT) then ["resource_admission"] else [])
  else if bool_decide (event = "result") then
    Some (base ++ ["call_id"; "tool"; "args"; "content"; "result_kind"; "delivery"])
  else if bool_decide (event = "context") then Some (base ++ ["call_id"; "tool"; "args"; "content"])
  else None.

Definition parse (body : string) : result Request string :=
  bail_if (MAX_BODY <? Str.len body) with "native_body_over_cap" in
  let? request := ok_or (from_str_request body) "native_invalid_fields" in
  let? value := ok_or (from_str_value body) "native_invalid_json" in
  let? event := ok_or (value_get "event" value ≫= as_str) "native_invalid_event" in
  let? object := ok_or (as_object value) "native_invalid_json" in
  let? keys := ok_or (event_keys event (rq_contract_version request)) "native_invalid_event" in
  bail_if (negb (keys_are object keys)) with "native_invalid_fields" in
  bail_if (negb (identifier (rq_session_id request))
           || negb (bool_decide (rq_contract_version request ∈ [CONTRACT; RESOURCE_CONTRACT]))
           || (bool_decide (event ∈ ["session_start"; "session_end"])
               && negb (bool_decide (rq_contract_version request = CONTRACT))))
    with "native_invalid_identity" in
  let? _u := (if bool_decide (event = "call") && bool_decide (rq_contract_version request = RESOURCE_CONTRACT)
              then let? a := ok_or (rq_resource_admission request) "native_resource_context_missing" in
                   validate_shape a
              else match rq_resource_admission request with
                   | Some _ => Err "native_invalid_fields" | None => Ok tt end) in
  bail_if (match rq_args request with
           | Some args => negb (is_object args) || (MAX_CONTENT <? Str.len (json_to_string args))
           | None => false end) with "native_args_over_cap" in
  bail_if (match rq_content request with
           | Some content => MAX_CONTENT <? Str.len content | None => false end)
    with "native_content_over_cap" in
  Ok request.

(** ** The texts of a completion *)

Fixpoint block_texts (blocks : list Value) : result (list string) string :=
  match blocks with
  | [] => Ok []
  | block :: blocks' =>
      let? object := ok_or (as_object block) "native_context_shape" in
      bail_if (negb (keys_are object ["type"; "content"]) || negb (bool_decide (index block "type" = JString "text")))
        with "native_context_shape" in
      let? text := ok_or (as_str (index block "content")) "native_context_shape" in
      let? rest := block_texts blocks' in
      Ok (text :: rest)
  end.

Definition context_text (content tool : string) : result (list string) string :=
  let? value := ok_or (from_str_value content) "native_context_json" in
  let? message := ok_or (as_object value) "native_context_shape" in
  let call := index value "tool_call" in
  let? tool_call := ok_or (as_object call) "native_context_shape" in
  bail_if (negb (keys_are message ["role"; "content"; "error"; "tool_call"; "tool_call_id"])
           || negb (keys_are tool_call ["id"; "function"; "args"; "placeholder_args"])
           || negb (is_object (index call "args"))
           || negb (is_null (index call "placeholder_args") || is_object (index call "placeholder_args"))
           || negb (bool_decide (index value "role" = JString "tool"))
           || negb (bool_decide (index call "function" = JString tool))
           || negb (match as_str (index value "tool_call_id") with Some s => identifier s | None => false end)
           || negb (bool_decide (index call "id" = index value "tool_call_id")))
    with "native_context_shape" in
  let? blocks := ok_or (as_array (index value "content")) "native_context_shape" in
  bail_if (256 <? length blocks) with "native_context_shape" in
  let? text := block_texts blocks in
  if is_null (index value "error") then Ok text
  else
    let? error := ok_or (as_str (index value "error")) "native_context_shape" in
    if Str.is_empty error then Ok text else Ok [error].

Definition mcp_host_text (content result_kind : string) : result (list string) string :=
  let? envelope := ok_or (from_str_envelope content) "native_mcp_result_shape" in
  let? value := ok_or (from_str_value content) "native_mcp_result_shape" in
  let? object := ok_or (as_object value) "native_mcp_result_shape" in
  bail_if (negb (bool_decide (en_jsonrpc envelope = "2.0")) || negb (host_id_ok (en_id envelope)))
    with "native_mcp_result_shape" in
  match en_result envelope, en_error envelope with
  | Some result, None =>
      bail_if (negb (keys_are object ["jsonrpc"; "id"; "result"]) || (256 <? length (tr_content result))
               || match value_get "isError" (index value "result") with
                  | Some v => negb (is_boolean v) | None => false end
               || existsb (fun b => negb (bool_decide (tb_kind b = "text"))) (tr_content result))
        with "native_mcp_result_shape" in
      bail_if (negb (Bool.eqb (default false (tr_is_error result)) (bool_decide (result_kind = "error"))))
        with "native_mcp_result_kind" in
      Ok (tb_text <$> tr_content result)
  | None, Some error =>
      bail_if (negb (keys_are object ["jsonrpc"; "id"; "error"])) with "native_mcp_result_shape" in
      bail_if (negb (bool_decide (result_kind = "error"))) with "native_mcp_result_kind" in
      Ok [mer_message error]
  | _, _ => Err "native_mcp_result_shape"
  end.

(** ** One request *)

Definition native_event (env : NativeEnv) (session : string) (seq : Z) (kind : EventKind) : AgentEvent :=
  mkEvent session "native-runtime" None seq (ne_at_ms env seq) kind.

(** The audit record of a request. *)
Definition native_line (env : NativeEnv) (request : Request) (epoch : string) (seq : Z) (response : Response)
    (outcome : option AgentOutcome) : NativeLine :=
  mkNativeLine (ne_at_ms env seq) epoch seq ("native_" +:+ rq_event request) (rq_tool request)
    (rs_verdict response) (rs_release response) (outcome ≫= ao_rule)
    (match outcome with Some o => ao_risk_score o | None => 0 end)
    (match outcome with
     | Some o => (fun ff => (f_detector ff.2, severity_str (f_severity ff.2))) <$> ao_findings o
     | None => [] end)
    (match outcome with Some o => ao_egress_hosts o | None => [] end)
    (audit_taint <$> (outcome ≫= ao_taint)) (ne_latency_us env) (rs_registry_sha256 response)
    (rq_delivery request) (rs_call_id response) (rs_binding_sha256 response) (rs_content_sha256 response)
    (rs_reason_codes response).

(** [audit(..)?]: a record that cannot be written is an error. *)
Definition native_audit (env : NativeEnv) (request : Request) (epoch : string) (seq : Z)
    (response : Response) (outcome : option AgentOutcome) (w : World) : result World string :=
  if ne_audit_ok env
  then Ok (mkWorld (w_sessions w) (w_firewall w) (w_spans w)
             (w_audit w ++ [native_line env request epoch seq response outcome]))
  else Err "native_audit_unavailable".

(** End a session in the firewall and drop its spans. *)
Definition end_native_session (env : NativeEnv) (s : Session) (w : World) : World :=
  set_inspection
    (inspect (w_firewall w) (native_event env (ss_epoch s) (ss_seq s + 1) SessionEnd)).2
    (span_end_session (w_spans w) (ss_epoch s)) w.

Definition session_expired (now : Z) (s : Session) : bool := (TTL <=? sat_sub now (ss_touched s))%Z.

(** Idle sessions are removed and ended, calls past their expiry dropped. *)
Definition expire (env : NativeEnv) (w : World) : World :=
  let expired := List.filter (fun kv => session_expired (ne_now env) kv.2) (w_sessions w) in
  let w := fold_left (fun w kv =>
    end_native_session env kv.2 (set_sessions (BMap.remove kv.1 (w_sessions w)) w)) expired w in
  set_sessions ((fun kv => (kv.1, set_calls (BMap.retain (fun _ c => (ne_now env <? cl_expires c)%Z)
                                               (ss_calls kv.2)) kv.2)) <$> w_sessions w) w.

Definition base_response (native : NativeConfig) (request : Request) : Response :=
  mkResponse (if bool_decide (rq_contract_version request = RESOURCE_CONTRACT) then RESOURCE_CONTRACT else CONTRACT)
    (nt_registry_sha256 native) (rq_session_id request) (rq_event request) "allow" true true None None
    (sha256_hex <$> rq_content request) None [].

Definition outcome_response (r : Response) (verdict : Verdict) (reasons : list string)
    (call_id binding resources : option string) : Response :=
  mkResponse (rs_contract_version r) (rs_registry_sha256 r) (rs_session_id r) (rs_event r)
    (verdict_label verdict) (rs_enforced r) (bool_decide (verdict = Allow)) call_id binding
    (rs_content_sha256 r) resources reasons.

Definition session_start (env : NativeEnv) (request : Request) (r : Response) (w : World) :
    result Response string * World :=
  if BMap.contains_key (rq_session_id request) (w_sessions w) then (Err "native_session_exists", w)
  else if MAX_SESSIONS <=? length (w_sessions w) then (Err "native_session_cap", w)
  else
    let epoch := "native:" +:+ ne_epoch env in
    match native_audit env request epoch 1 r None w with
    | Err e => (Err e, w)
    | Ok w => (Ok r, put_session (rq_session_id request) (mkSession epoch 1 (ne_now env) []) w)
    end.

Definition session_end (env : NativeEnv) (request : Request) (r : Response) (w : World) :
    result Response string * World :=
  match BMap.get (rq_session_id request) (w_sessions w) with
  | None => (Err "native_session_unknown", w)
  | Some s =>
      let w := end_native_session env s (set_sessions (BMap.remove (rq_session_id request) (w_sessions w)) w) in
      match native_audit env request (ss_epoch s) (ss_seq s + 1) r None w with
      | Err e => (Err e, w)
      | Ok w => (Ok r, w)
      end
  end.

(** The resource check of a call: pass, an error, or a refusal with its reason. *)
Inductive ResourceCheck := RcPass | RcError (e : string) | RcRefuse (reason : string).
Definition check_resources (native : NativeConfig) (tool : Tool) (args : Value) (request : Request) :
    ResourceCheck :=
  match tl_resource_policy tool, rq_resource_admission request with
  | Some policy, Some a =>
      match authorize policy tool (nt_registry_sha256 native) args a with
      | Ok _ => RcPass | Err reason => RcRefuse reason end
  | Some _, None => RcError "native_resource_contract_required"
  | None, Some _ => RcError "native_resource_policy_missing"
  | None, None => RcPass
  end.

Definition total_calls (w : World) : nat := sum_list ((fun kv => length (ss_calls kv.2)) <$> w_sessions w).

(** A call of tool [tool]; [s] is its session, already touched and numbered. *)
Definition on_call (native : NativeConfig) (env : NativeEnv) (request : Request) (r : Response) (total : nat)
    (s : Session) (tool : Tool) (args : Value) (w : World) : result Response string * World :=
  if negb (bool_decide (rq_schema_sha256 request = Some (tl_schema_sha256 tool)))
  then (Err "native_schema_mismatch", w)
  else
    match check_resources native tool args request with
    | RcError e => (Err e, w)
    | RcRefuse reason =>
        let r := outcome_response r Deny [reason] (rs_call_id r) (rs_binding_sha256 r) (rs_resources_sha256 r) in
        match native_audit env request (ss_epoch s) (ss_seq s) r None w with
        | Err e => (Err e, w)
        | Ok w => (Ok r, w)
        end
    | RcPass =>
        if (MAX_CALLS <=? total) || (MAX_SESSION_CALLS <=? length (ss_calls s)) then (Err "native_call_cap", w)
        else
          match declared_hosts tool args with
          | Err e => (Err e, w)
          | Ok hosts =>
              let ev := native_event env (ss_epoch s) (ss_seq s) (ToolCall (tl_name tool) args) in
              let '(o, fw) := inspect_native_call (w_firewall w) ev (tl_action_class tool) hosts in
              let w := set_inspection fw (w_spans w) w in
              let verdict := resolved o in
              let release := bool_decide (verdict = Allow) in
              let bound := binding (nt_registry_sha256 native) (ss_epoch s) (tl_name tool)
                             (tl_schema_sha256 tool) args (rq_resource_admission request) in
              let r := outcome_response r verdict (option_list (ao_rule o))
                         (if release then Some (ne_call_id env) else None)
                         (if release then Some bound else None)
                         (if release then resources_sha256 <$> rq_resource_admission request else None) in
              match native_audit env request (ss_epoch s) (ss_seq s) r (Some o) w with
              | Err e => (Err e, w)
              | Ok w =>
                  (Ok r,
                   if release then
                     put_session (rq_session_id request)
                       (set_calls (BMap.insert (ne_call_id env)
                          (mkCall (ad_host_call_id <$> rq_resource_admission request) (rs_contract_version r)
                             (tl_name tool) (canonical_digest args) bound StResult (ne_now env + TTL) None)
                          (ss_calls s)) s) w
                   else w)
              end
          end
    end.

(** The texts a completion asks to release, checked against its call. *)
Definition completion_texts (request : Request) (call : Call) (tool : string) (args : Value) :
    result (list string) string :=
  let? _u := (if bool_decide (rq_event request = "result") && bool_decide (rq_delivery request = Some "mcp_host")
              then match cl_host_call_id call with
                   | Some host_id =>
                       let? content := ok_or (rq_content request) "native_content_missing" in
                       let? envelope := ok_or (from_str_value content) "native_mcp_result_shape" in
                       if bool_decide (value_get "id" envelope = Some host_id) then Ok tt
                       else Err "native_host_call_mismatch"
                   | None => Ok tt
                   end
              else Ok tt) in
  bail_if (negb (bool_decide (cl_contract_version call = rq_contract_version request))
           || negb (bool_decide (cl_tool call = tool))
           || negb (bool_decide (cl_args_sha256 call = canonical_digest args)))
    with "native_call_binding_mismatch" in
  let? content := ok_or (rq_content request) "native_content_missing" in
  if bool_decide (rq_event request = "result") then
    bail_if (negb (bool_decide (cl_stage call = StResult))) with "native_stage_mismatch" in
    bail_if (negb (bool_decide (rq_result_kind request ∈ [Some "value"; Some "error"])))
      with "native_result_kind" in
    bail_if (negb (bool_decide (rq_delivery request ∈ [Some "parent"; Some "model"; Some "mcp_host"])))
      with "native_delivery" in
    if bool_decide (rq_delivery request = Some "mcp_host")
    then mcp_host_text content (default EmptyString (rq_result_kind request))
    else Ok [content]
  else
    bail_if (negb (bool_decide (cl_stage call = StContext))) with "native_stage_mismatch" in
    let? envelope := ok_or (from_str_value content) "native_context_json" in
    let error := match value_get "error" envelope ≫= as_str with
                 | Some s => negb (Str.is_empty s) | None => false end in
    bail_if (negb (Bool.eqb error (bool_decide (cl_result_kind call = Some "error"))))
      with "native_result_kind_mismatch" in
    context_text content tool.

(** The loop over the texts: each is previewed as one result event. *)
Record Preview := mkPreview {
  pv_seq : Z;
  pv_events : list AgentEvent;
  pv_strongest : Verdict;
  pv_representative : option AgentOutcome;
  pv_findings : BMap.t (string * Severity) (Facet * Finding);
  pv_max_risk : Z
}.

Definition observe_finding (m : BMap.t (string * Severity) (Facet * Finding)) (ff : Facet * Finding) :
    BMap.t (string * Severity) (Facet * Finding) :=
  let key := (f_detector ff.2, f_severity ff.2) in
  match BMap.get key m with
  | Some kept => if f32_gt (f_confidence ff.2) (f_confidence kept.2) then BMap.insert key ff m else m
  | None => BMap.insert key ff m
  end.

Definition preview_text (env : NativeEnv) (epoch tool : string) (source : Provenance) (fw : AgentFirewall)
    (p : Preview) (text : string) : Preview :=
  let seq := (pv_seq p + 1)%Z in
  let ev := native_event env epoch seq (ToolResult tool text source) in
  let o := (preview_native_result fw ev).1 in
  let verdict := resolved o in
  let take := bool_decide (pv_representative p = None) || bool_decide (verdict = Deny)
              || (bool_decide (verdict = Ask) && bool_decide (pv_strongest p = Allow)) in
  mkPreview seq (pv_events p ++ [ev]) (if take then verdict else pv_strongest p)
    (if take then Some o else pv_representative p)
    (fold_left observe_finding (ao_findings o) (pv_findings p)) (Z.max (pv_max_risk p) (ao_risk_score o)).

Definition preview_texts (env : NativeEnv) (epoch tool : string) (source : Provenance) (fw : AgentFirewall)
    (seq : Z) (texts : list string) : Preview :=
  fold_left (preview_text env epoch tool source fw) texts (mkPreview seq [] Allow None [] 0).

(** The outcome that is audited: the representative one, with every finding observed and
    the largest score. *)
Definition audited_outcome (p : Preview) : option AgentOutcome :=
  (fun o => mkAgentOutcome (ao_verdict o) (ao_rule o) (ao_message o) (pv_findings p).*2 (ao_taint o)
              (pv_max_risk p) (ao_egress_hosts o) (ao_fallback o)) <$> pv_representative p.

(** Record released results. *)
Definition admit_event (epoch : string) (w : World) (ev : AgentEvent) : World :=
  set_inspection (admit_native_result (w_firewall w) ev)
    (match ev_kind ev with
     | ToolResult _ content source =>
         if bool_decide (trust source = Untrusted) then span_put (w_spans w) epoch (ev_seq ev) content
         else w_spans w
     | _ => w_spans w
     end) w.

(** A result or context of call [id], whose record [call] has been taken out of [s]. *)
Definition on_completion (native : NativeConfig) (env : NativeEnv) (request : Request) (r : Response)
    (s : Session) (tool : Tool) (args : Value) (id : string) (call : Call) (w : World) :
    result Response string * World :=
  match completion_texts request call (tl_name tool) args with
  | Err e => (Err e, w)
  | Ok texts =>
      let p := preview_texts env (ss_epoch s) (tl_name tool) (native_source (nt_registry native) tool)
                 (w_firewall w) (ss_seq s) texts in
      let s := set_seq (pv_seq p) s in
      let w := put_session (rq_session_id request) s w in
      let r := outcome_response r (pv_strongest p) (option_list (audited_outcome p ≫= ao_rule))
                 (Some id) (Some (cl_binding_sha256 call)) (rs_resources_sha256 r) in
      match native_audit env request (ss_epoch s) (ss_seq s) r (audited_outcome p) w with
      | Err e => (Err e, w)
      | Ok w =>
          if rs_release r then
            let w := if bool_decide (rq_event request = "context")
                        || bool_decide (rq_delivery request ∈ [Some "parent"; Some "mcp_host"])
                     then fold_left (admit_event (ss_epoch s)) (pv_events p) w else w in
            let w := if bool_decide (rq_event request = "result") && bool_decide (rq_delivery request = Some "model")
                     then put_session (rq_session_id request)
                            (set_calls (BMap.insert id
                               (mkCall (cl_host_call_id call) (cl_contract_version call) (cl_tool call)
                                  (cl_args_sha256 call) (cl_binding_sha256 call) StContext (cl_expires call)
                                  (rq_result_kind request)) (ss_calls s)) s) w
                     else w in
            (Ok r, w)
          else (Ok r, w)
      end
  end.

Definition native_inspect (native : NativeConfig) (env : NativeEnv) (request : Request) (w : World) :
    result Response string * World :=
  let w := expire env w in
  let r := base_response native request in
  if bool_decide (rq_event request = "session_start") then session_start env request r w
  else if bool_decide (rq_event request = "session_end") then session_end env request r w
  else
    let total := total_calls w in
    match BMap.get (rq_session_id request) (w_sessions w) with
    | None => (Err "native_session_unknown", w)
    | Some s =>
        let s := mkSession (ss_epoch s) (ss_seq s + 1) (ne_now env) (ss_calls s) in
        let w := put_session (rq_session_id request) s w in
        match rq_tool request with
        | None => (Err "native_tool_missing", w)
        | Some name =>
            match List.find (fun t => bool_decide (tl_name t = name)) (rg_tools (nt_registry native)) with
            | None => (Err "native_tool_unknown", w)
            | Some tool =>
                match rq_args request with
                | None => (Err "native_args_missing", w)
                | Some args =>
                    if bool_decide (rq_event request = "call")
                    then on_call native env request r total s tool args w
                    else
                      match rq_call_id request with
                      | None => (Err "native_call_missing", w)
                      | Some id =>
                          match BMap.get id (ss_calls s) with
                          | None => (Err "native_call_unknown_or_spent", w)
                          | Some call =>
                              let s := set_calls (BMap.remove id (ss_calls s)) s in
                              on_completion native env request r s tool args id call
                                (put_session (rq_session_id request) s w)
                          end
                      end
                end
            end
        end
    end.

(** ** The endpoint *)

Inductive NativeStatus := NOk | NUnauthorized | NBadRequest | NConflict | NPayloadTooLarge | NServiceUnavailable.
Inductive NativeReply := Failure (code : string) | Answer (r : Response).

(** Some part of the request is longer than one record may be. *)
Definition over_record_cap (cap : nat) (request : Request) : bool :=
  match rq_content request with Some c => cap <? Str.len c | None => false end
  || match rq_args request with Some a => cap <? Str.len (json_to_string a) | None => false end
  || match rq_resource_admission request with
     | Some a => cap <? Str.len (json_to_string (admission_value a)) | None => false end.

Definition native_handler (config : Config) (native : option NativeConfig) (authorization : option string)
    (body : string) (env : NativeEnv) (w : World) : NativeStatus * NativeReply * World :=
  match native with
  | None => (NServiceUnavailable, Failure "native_disabled", w)
  | Some native =>
      if negb (token_verify (nt_token native) (default EmptyString authorization))
      then (NUnauthorized, Failure "native_unauthorized", w)
      else if negb (cf_enforce config) || jc_enabled (cf_judge config)
      then (NServiceUnavailable, Failure "native_enforcement_required", w)
      else if (cf_max_body_bytes config <? Z.of_nat (Str.len body))%Z
      then (NPayloadTooLarge, Failure "native_body_over_cap", w)
      else
        match parse body with
        | Err code => (NBadRequest, Failure code, w)
        | Ok request =>
            if negb (bool_decide (rq_registry_sha256 request = nt_registry_sha256 native))
            then (NConflict, Failure "native_registry_mismatch", w)
            else if over_record_cap (cf_max_record_bytes config) request
            then (NPayloadTooLarge, Failure "native_record_over_cap", w)
            else
              match native_inspect native env request w with
              | (Ok r, w) => (NOk, Answer r, w)
              | (Err code, w) => (NConflict, Failure code, w)
              end
        end
  end.
End native.
