(* ===== verification/NativeProps.v ===== *)
(** Properties of native admission: the caps on sessions and calls, the life cycle of a
    call, what a release requires, and that the shared firewall sees exactly what was
    released. *)
From S2P Require Import Prelude BTree Platform F32 Json Net CoreTypes Scoring Detectors Adapter.
From S2P Require Import Event Authority Fingerprint Fifo Taint Action Egress AgentPolicy Engine.
From S2P Require Import Spans Judge Grant Manifest PinStore HookMap Config Resources Daemon Native.
From Stdlib Require Import String Ascii.
#[local] Abbreviation length := List.length.

(** ** The caps *)

Definition calls_in (m : BMap.t string Session) : nat :=
  sum_list ((fun kv : string * Session => length (ss_calls kv.2)) <$> m).

Record sessions_ok (m : BMap.t string Session) : Prop := mkSessionsOk {
  so_wf : BMap.wf m;
  so_sessions : length m <= MAX_SESSIONS;
  so_total : calls_in m <= MAX_CALLS;
  so_calls : Forall (fun kv => BMap.wf (ss_calls kv.2) /\ length (ss_calls kv.2) <= MAX_SESSION_CALLS) m
}.

Lemma sessions_ok_nil : sessions_ok [].
Proof. split; [constructor|cbn; unfold MAX_SESSIONS; lia|cbn; unfold MAX_CALLS; lia|constructor]. Qed.

Lemma sessions_ok_get (m : BMap.t string Session) (id : string) (s : Session) :
  sessions_ok m -> BMap.get id m = Some s ->
  BMap.wf (ss_calls s) /\ length (ss_calls s) <= MAX_SESSION_CALLS /\ length (ss_calls s) <= calls_in m.
Proof.
  intros Hok Hg. pose proof (so_calls _ Hok) as HF. rewrite Forall_forall in HF.
  pose proof (BMap.bmap_get_Some_elem _ _ _ Hg) as Hin. destruct (HF _ Hin) as [Hw Hl]. cbn in *.
  split_and!; [done..|]. pose proof (BMap.bmap_sum_remove (fun kv => length (ss_calls kv.2)) id m) as Hs.
  rewrite Hg in Hs. cbn in Hs. unfold calls_in. lia.
Qed.

(** Writing a session keeps the caps when the session is new and there is room, or when it
    has no more calls than it had, or one more and there is room. *)
Lemma sessions_ok_insert (m : BMap.t string Session) (id : string) (s : Session) :
  sessions_ok m -> BMap.wf (ss_calls s) -> length (ss_calls s) <= MAX_SESSION_CALLS ->
  match BMap.get id m with
  | Some s0 => calls_in m + length (ss_calls s) <= MAX_CALLS + length (ss_calls s0)
  | None => length m < MAX_SESSIONS /\ ss_calls s = []
  end ->
  sessions_ok (BMap.insert id s m).
Proof.
  intros Hok Hw Hl Hroom. split.
  - apply BMap.bmap_insert_wf, Hok.
  - rewrite BMap.bmap_length_insert by apply Hok. pose proof (so_sessions _ Hok).
    unfold BMap.contains_key. destruct (BMap.get id m); [by rewrite bool_decide_true by eauto|].
    rewrite bool_decide_false by (by intros []). destruct Hroom. lia.
  - pose proof (BMap.bmap_sum_insert (fun kv => length (ss_calls kv.2)) id s m (so_wf _ Hok)) as Hs.
    pose proof (so_total _ Hok). unfold calls_in in *.
    destruct (BMap.get id m); cbn [snd] in Hs; [lia|]. destruct Hroom as [_ He]. rewrite He in Hs.
    cbn in Hs. lia.
  - apply BMap.bmap_Forall_insert; [done|apply Hok].
Qed.

Lemma sessions_ok_remove (m : BMap.t string Session) (id : string) :
  sessions_ok m -> sessions_ok (BMap.remove id m).
Proof.
  intros Hok. split.
  - apply BMap.bmap_remove_wf, Hok.
  - pose proof (BMap.bmap_length_remove id m). pose proof (so_sessions _ Hok). lia.
  - pose proof (BMap.bmap_sum_remove (fun kv => length (ss_calls kv.2)) id m).
    pose proof (so_total _ Hok). unfold calls_in in *. lia.
  - pose proof (so_calls _ Hok) as HF. rewrite Forall_forall in HF |- *.
    intros x Hx%BMap.bmap_remove_sub. auto.
Qed.

Lemma sessions_ok_retain (p : Call -> bool) (m : BMap.t string Session) :
  sessions_ok m ->
  sessions_ok ((fun kv => (kv.1, set_calls (BMap.retain (fun _ c => p c) (ss_calls kv.2)) kv.2)) <$> m).
Proof.
  intros Hok. set (f := fun s => set_calls (BMap.retain (fun _ c => p c) (ss_calls s)) s).
  assert (forall s, length (ss_calls (f s)) <= length (ss_calls s)) as Hle
    by (intros s; apply filter_length_le).
  split.
  - apply (BMap.bmap_fmap_wf f), Hok.
  - rewrite length_fmap. apply Hok.
  - etrans; [|apply (so_total _ Hok)]. unfold calls_in. clear Hok.
    induction m as [|[k s] m IH]; [done|]. specialize (Hle s). unfold f in Hle. cbn in Hle.
    csimpl. cbn in IH. lia.
  - pose proof (so_calls _ Hok) as HF. apply Forall_fmap. eapply Forall_impl; [exact HF|].
    intros [k s] [Hw Hl]. cbn in *. split; [by apply BMap.bmap_retain_wf|].
    etrans; [apply filter_length_le|done].
Qed.

Section native_facts.
Context `{UnicodeTables} `{RegexEngine} `{EntropyPlatform} `{LiteralIter} `{FileSystem}.
Variable host_os : string.
Variable url_parse : string -> option Url.
Variable sha256_hex : string -> string.
Variable json_to_string : Value -> string.
Variable from_str_value : string -> option Value.
Variable from_str_envelope : string -> option McpEnvelope.
Variable native : NativeConfig.

Abbreviation step := (native_inspect host_os url_parse sha256_hex json_to_string from_str_value
                        from_str_envelope native).
Abbreviation call_step := (on_call host_os url_parse sha256_hex json_to_string native).
Abbreviation completion_step := (on_completion sha256_hex json_to_string from_str_value from_str_envelope native).

(** *** What the parts of a step leave alone *)

Lemma audit_keeps (env : NativeEnv) (rq : Request) (ep : string) (seq : Z) (r : Response)
    (o : option AgentOutcome) (w w' : World) :
  native_audit env rq ep seq r o w = Ok w' ->
  w_sessions w' = w_sessions w /\ w_firewall w' = w_firewall w /\ w_spans w' = w_spans w.
Proof. unfold native_audit. destruct (ne_audit_ok env); [|done]. by intros [= <-]. Qed.

Lemma admit_keeps_sessions (ep : string) (evs : list AgentEvent) (w : World) :
  w_sessions (fold_left (admit_event ep) evs w) = w_sessions w.
Proof. revert w. induction evs as [|ev evs IH]; intros w; [done|]. cbn. by rewrite IH. Qed.

(** The sessions left by [expire], before their calls are pruned. *)
Definition unexpired (env : NativeEnv) (w : World) : BMap.t string Session :=
  fold_left (fun m kv => BMap.remove kv.1 m)
    (List.filter (fun kv => session_expired (ne_now env) kv.2) (w_sessions w)) (w_sessions w).

Definition prune (env : NativeEnv) (s : Session) : Session :=
  set_calls (BMap.retain (fun _ c => (ne_now env <? cl_expires c)%Z) (ss_calls s)) s.

Lemma expire_sessions (env : NativeEnv) (w : World) :
  w_sessions (expire env w) = (fun kv => (kv.1, prune env kv.2)) <$> unexpired env w.
Proof.
  unfold expire, unexpired. cbn [w_sessions set_sessions]. f_equal.
  generalize (List.filter (fun kv => session_expired (ne_now env) kv.2) (w_sessions w)) as l.
  intros l. revert w. induction l as [|kv l IH]; intros w; [done|]. cbn [fold_left]. by rewrite IH.
Qed.

Lemma expire_ok (env : NativeEnv) (w : World) :
  sessions_ok (w_sessions w) -> sessions_ok (w_sessions (expire env w)).
Proof.
  intros Hok. rewrite expire_sessions. apply sessions_ok_retain. unfold unexpired.
  generalize (List.filter (fun kv => session_expired (ne_now env) kv.2) (w_sessions w)) as l. intros l.
  revert Hok. generalize (w_sessions w). induction l as [|kv l IH]; intros m Hok; [done|].
  cbn [fold_left]. by apply IH, sessions_ok_remove.
Qed.

(** Rewriting a present session without adding calls. *)
Lemma put_same_ok (id : string) (s s0 : Session) (w : World) :
  sessions_ok (w_sessions w) -> BMap.get id (w_sessions w) = Some s0 ->
  BMap.wf (ss_calls s) -> length (ss_calls s) <= length (ss_calls s0) ->
  sessions_ok (w_sessions (put_session id s w)).
Proof.
  intros Hok Hg Hw Hl. destruct (sessions_ok_get _ _ _ Hok Hg) as (_ & Hl0 & _).
  apply sessions_ok_insert; [done..|lia|]. rewrite Hg. pose proof (so_total _ Hok). lia.
Qed.

Lemma on_call_ok (env : NativeEnv) (rq : Request) (r : Response) (s : Session) (tool : Tool) (args : Value)
    (w : World) :
  sessions_ok (w_sessions w) -> BMap.get (rq_session_id rq) (w_sessions w) = Some s ->
  sessions_ok (w_sessions (call_step env rq r (calls_in (w_sessions w)) s tool args w).2).
Proof.
  intros Hok Hg. unfold on_call. destruct (negb _); [done|].
  destruct (check_resources _ _ _ _ native tool args rq); [|done|].
  - destruct (_ || _) eqn:Hcap; [done|]. destruct (declared_hosts _ tool args) as [hosts|]; [|done].
    destruct (inspect_native_call _ _ _ _) as [o fw]. destruct (native_audit _ _ _ _ _ _ _) as [w'|] eqn:Ha; [|done].
    apply audit_keeps in Ha as (Hs & _). cbn [snd w_sessions set_inspection] in *. cbn in Hs.
    destruct (bool_decide _); cbn [snd]; [|by rewrite Hs]. unfold put_session. cbn [w_sessions set_sessions].
    rewrite Hs. destruct (sessions_ok_get _ _ _ Hok Hg) as (Hw & Hl & _). boolp.
    assert (length (ss_calls s) < MAX_SESSION_CALLS /\ calls_in (w_sessions w) < MAX_CALLS) as [Hl1 Hl2] by lia.
    pose proof (fun v => BMap.bmap_length_insert (ne_call_id env) v (ss_calls s) Hw) as Hlen.
    apply sessions_ok_insert; [done|by apply BMap.bmap_insert_wf| |].
    + cbn [ss_calls set_calls]. rewrite Hlen. destruct (BMap.contains_key _ _); lia.
    + rewrite Hg. cbn [ss_calls set_calls]. rewrite Hlen. destruct (BMap.contains_key _ _); lia.
  - destruct (native_audit _ _ _ _ _ _ _) as [w'|] eqn:Ha; [|done].
    apply audit_keeps in Ha as (Hs & _). cbn. by rewrite Hs.
Qed.

Lemma calls_in_put (id : string) (s s0 : Session) (w : World) :
  BMap.wf (w_sessions w) -> BMap.get id (w_sessions w) = Some s0 ->
  calls_in (w_sessions (put_session id s w)) + length (ss_calls s0) = length (ss_calls s) + calls_in (w_sessions w).
Proof.
  intros Hw Hg. pose proof (BMap.bmap_sum_insert (fun kv => length (ss_calls kv.2)) id s (w_sessions w) Hw) as Hs.
  rewrite Hg in Hs. exact Hs.
Qed.

Lemma put_get (id : string) (s : Session) (w : World) :
  BMap.get id (w_sessions (put_session id s w)) = Some s.
Proof. apply BMap.bmap_get_insert_eq. Qed.

Lemma on_completion_ok (env : NativeEnv) (rq : Request) (r : Response) (s : Session) (tool : Tool) (args : Value)
    (id : string) (call : Call) (w : World) :
  sessions_ok (w_sessions w) -> BMap.get (rq_session_id rq) (w_sessions w) = Some s ->
  length (ss_calls s) < MAX_SESSION_CALLS -> calls_in (w_sessions w) < MAX_CALLS ->
  sessions_ok (w_sessions (completion_step env rq r s tool args id call w).2).
Proof.
  intros Hok Hg Hl Ht. destruct (sessions_ok_get _ _ _ Hok Hg) as (Hw & _).
  unfold on_completion. destruct (completion_texts _ _ _ _ rq call (tl_name tool) args) as [texts|]; [|done].
  set (p := preview_texts _ _ _ _ _ _ _). set (s' := set_seq (pv_seq p) s).
  assert (sessions_ok (w_sessions (put_session (rq_session_id rq) s' w))) as Hok' by (by eapply put_same_ok).
  pose proof (put_get (rq_session_id rq) s' w) as Hg'.
  pose proof (calls_in_put (rq_session_id rq) s' s w (so_wf _ Hok) Hg) as Ht'. cbn [ss_calls s' set_seq] in Ht'.
  set (w' := put_session (rq_session_id rq) s' w) in *. clearbody w'.
  destruct (native_audit _ _ _ _ _ _ _) as [wa|] eqn:Ha; [|done].
  apply audit_keeps in Ha as (Hs & _). destruct (rs_release _); [|cbn; by rewrite Hs]. cbn [snd].
  assert (forall wx, w_sessions wx = w_sessions w' ->
    sessions_ok (w_sessions (if bool_decide (rq_event rq = "result") && bool_decide (rq_delivery rq = Some "model")
      then put_session (rq_session_id rq)
             (set_calls (BMap.insert id
                (mkCall (cl_host_call_id call) (cl_contract_version call) (cl_tool call)
                   (cl_args_sha256 call) (cl_binding_sha256 call) StContext (cl_expires call)
                   (rq_result_kind rq)) (ss_calls s')) s') wx else wx))) as Hfin.
  { intros wx Hx. destruct (_ && _); [|by rewrite Hx]. unfold put_session. cbn [w_sessions set_sessions].
    rewrite Hx. pose proof (fun v => BMap.bmap_length_insert id v (ss_calls s) Hw) as Hlen.
    apply sessions_ok_insert; [done|by apply BMap.bmap_insert_wf|..]; [|rewrite Hg'].
    all: cbn [ss_calls set_calls s' set_seq]; rewrite Hlen; destruct (BMap.contains_key _ _); lia. }
  apply Hfin. destruct (_ || _); [by rewrite admit_keeps_sessions|done].
Qed.

(** A request keeps the caps. *)
Lemma step_ok (env : NativeEnv) (rq : Request) (w : World) :
  sessions_ok (w_sessions w) -> sessions_ok (w_sessions (step env rq w).2).
Proof.
  intros Hok%(expire_ok env). unfold native_inspect. set (w0 := expire env w) in *. clearbody w0.
  destruct (bool_decide (rq_event rq = "session_start")).
  { unfold session_start, BMap.contains_key. case_bool_decide as Hc; [done|].
    destruct (_ <=? _) eqn:Hm; [done|]. destruct (native_audit _ _ _ _ _ _ _) as [w'|] eqn:Ha; [|done].
    apply audit_keeps in Ha as (Hs & _). unfold put_session. cbn [snd w_sessions set_sessions]. rewrite Hs.
    boolp. apply sessions_ok_insert; [done|constructor|cbn; unfold MAX_SESSION_CALLS; lia|].
    destruct (BMap.get _ _); [by destruct Hc; eauto|done]. }
  destruct (bool_decide (rq_event rq = "session_end")).
  { unfold session_end. destruct (BMap.get _ _) as [s|]; [|done].
    destruct (native_audit _ _ _ _ _ _ _) as [w'|] eqn:Ha; [apply audit_keeps in Ha as (Hs & _)|];
      cbn [snd]; [rewrite Hs|]; by apply sessions_ok_remove. }
  destruct (BMap.get (rq_session_id rq) (w_sessions w0)) as [s0|] eqn:Hg; [|done].
  set (s := mkSession (ss_epoch s0) (ss_seq s0 + 1) (ne_now env) (ss_calls s0)).
  destruct (sessions_ok_get _ _ _ Hok Hg) as (Hw & Hl & _).
  assert (sessions_ok (w_sessions (put_session (rq_session_id rq) s w0))) as Hok1 by (by eapply put_same_ok).
  pose proof (put_get (rq_session_id rq) s w0) as Hg1.
  pose proof (calls_in_put (rq_session_id rq) s s0 w0 (so_wf _ Hok) Hg) as Ht1. cbn [ss_calls s] in Ht1.
  change (total_calls w0) with (calls_in (w_sessions w0)).
  replace (calls_in (w_sessions w0)) with (calls_in (w_sessions (put_session (rq_session_id rq) s w0))) by lia.
  set (w1 := put_session (rq_session_id rq) s w0) in *. clearbody w1. clear Ht1.
  destruct (rq_tool rq) as [name|]; [|done]. destruct (List.find _ _) as [tool|]; [|done].
  destruct (rq_args rq) as [args|]; [|done]. destruct (bool_decide (rq_event rq = "call")); [by apply on_call_ok|].
  destruct (rq_call_id rq) as [id|]; [|done]. destruct (BMap.get id (ss_calls s)) as [call|] eqn:Hc; [|done].
  set (s1 := set_calls (BMap.remove id (ss_calls s)) s).
  assert (S (length (ss_calls s1)) = length (ss_calls s)) as Hlen.
  { pose proof (BMap.bmap_sum_remove (fun _ : string * Call => 1) id (ss_calls s)) as Hs.
    rewrite <- !BMap.bmap_length_sum, Hc in Hs. cbn [ss_calls s1 set_calls]. lia. }
  pose proof (calls_in_put (rq_session_id rq) s1 s w1 (so_wf _ Hok1) Hg1) as Ht.
  pose proof (so_total _ Hok1). cbn [ss_calls s] in *.
  apply on_completion_ok; [|apply put_get|lia|lia].
  eapply put_same_ok; [done..|by apply BMap.bmap_remove_wf|]. cbn [ss_calls s]. lia.
Qed.

Record NativeReq := mkNativeReq { nr_env : NativeEnv; nr_request : Request }.
Definition native_step (w : World) (r : NativeReq) : World := (step (nr_env r) (nr_request r) w).2.
Definition native_run (rs : list NativeReq) (w : World) : World := fold_left native_step rs w.

(** The caps hold at all times: whatever the sequence of requests, there are at most
    64 sessions, at most 64 pending calls in each and at most 256 altogether, and the
    sessions and calls stay maps with one entry per identifier. *)
Theorem native_caps (rs : list NativeReq) (w : World) :
  w_sessions w = [] ->
  let m := w_sessions (native_run rs w) in
  length m <= 64 /\ calls_in m <= 256 /\ BMap.wf m /\
  forall id s, BMap.get id m = Some s -> length (ss_calls s) <= 64 /\ BMap.wf (ss_calls s).
Proof.
  intros Hw m. assert (sessions_ok m) as Hok.
  { subst m. assert (sessions_ok (w_sessions w)) as Hok by (rewrite Hw; apply sessions_ok_nil). clear Hw.
    unfold native_run. revert w Hok. induction rs as [|r rs IH]; intros w Hok; [done|].
    cbn [fold_left]. by apply IH, step_ok. }
  split_and!; [apply Hok..|]. intros id s Hg. by destruct (sessions_ok_get _ _ _ Hok Hg) as (? & ? & _).
Qed.

(** *** The firewall sees what was released *)

Definition expire_events (env : NativeEnv) (w : World) : list AgentEvent :=
  (fun kv => native_event env (ss_epoch kv.2) (ss_seq kv.2 + 1) SessionEnd)
  <$> List.filter (fun kv => session_expired (ne_now env) kv.2) (w_sessions w).

Lemma expire_firewall (env : NativeEnv) (w : World) :
  w_firewall (expire env w) = inspect_all (w_firewall w) (expire_events env w).
Proof.
  unfold expire, expire_events. cbn [w_firewall set_sessions].
  generalize (List.filter (fun kv => session_expired (ne_now env) kv.2) (w_sessions w)) as l.
  intros l. revert w. induction l as [|kv l IH]; intros w; [done|]. csimpl. by rewrite IH.
Qed.

(** The result events of a list of texts, numbered from [seq + 1]. *)
Definition result_events (env : NativeEnv) (epoch tool : string) (source : Provenance) (seq : Z)
    (texts : list string) : list AgentEvent :=
  imap (fun i text => native_event env epoch (seq + 1 + Z.of_nat i) (ToolResult tool text source)) texts.

(** What the loop over the texts computes. *)
Lemma preview_texts_spec (env : NativeEnv) (epoch tool : string) (source : Provenance) (fw : AgentFirewall)
    (seq : Z) (texts : list string) :
  (forall ev, resolved (preview_native_result fw ev).1 <> Escalate) ->
  let p := preview_texts env epoch tool source fw seq texts in
  let evs := result_events env epoch tool source seq texts in
  pv_events p = evs /\ pv_seq p = (seq + Z.of_nat (length texts))%Z /\
  (pv_strongest p = Allow <-> Forall (fun ev => resolved (preview_native_result fw ev).1 = Allow) evs) /\
  (pv_representative p = None <-> texts = []) /\
  (pv_representative p = None -> pv_strongest p = Allow).
Proof.
  intros Hesc. unfold preview_texts, result_events. induction texts as [|t texts IH] using rev_ind.
  - cbn. split_and!; [done|lia|done|done|done].
  - rewrite fold_left_app, imap_app, length_app. cbn [fold_left length].
    set (p := fold_left _ texts _) in *. destruct IH as (He & Hs & Hst & Hr & Hn).
    unfold preview_text. cbn [pv_events pv_seq pv_strongest pv_representative imap]. unfold compose.
    cbn [imap].
    replace (seq + 1 + Z.of_nat (length texts + 0))%Z with (pv_seq p + 1)%Z by (rewrite Hs; lia).
    set (ev := native_event _ _ _ _). split_and!.
    + by rewrite He.
    + rewrite Hs. lia.
    + rewrite Forall_app, Forall_singleton, <- Hst.
      destruct (pv_representative p) as [o|] eqn:Hrep.
      * rewrite (bool_decide_false (Some o = None)) by done. cbn [orb].
        specialize (Hesc ev). destruct (resolved (preview_native_result fw ev).1); cbn; [tauto| |by split; [|intros []]|done].
        rewrite (bool_decide_false (Ask = Deny)), (bool_decide_true (Ask = Ask)) by done. cbn [orb andb].
        case_bool_decide; split; first [by intros []|intros ?; contradiction|done].
      * rewrite bool_decide_true by done. cbn [orb]. specialize (Hn eq_refl). tauto.
    + split; [|by destruct texts]. destruct (_ || _) eqn:Ht; [done|].
      intros Hn'. rewrite Hn', bool_decide_true in Ht by done. done.
    + destruct (_ || _) eqn:Ht; [done|]. intros Hn'. rewrite Hn', bool_decide_true in Ht by done. done.
Qed.

(** *** The cases of a step *)

(** A session that a request has reached. *)
Definition touch (env : NativeEnv) (s : Session) : Session :=
  mkSession (ss_epoch s) (ss_seq s + 1) (ne_now env) (ss_calls s).

Definition tool_named (name : string) (tool : Tool) : Prop :=
  List.find (fun t => bool_decide (tl_name t = name)) (rg_tools (nt_registry native)) = Some tool.

Inductive step_view (env : NativeEnv) (rq : Request) (w : World) : result Response string * World -> Prop :=
| sv_start :
    rq_event rq = "session_start" ->
    step_view env rq w (session_start env rq (base_response sha256_hex native rq) w)
| sv_end :
    rq_event rq = "session_end" ->
    step_view env rq w (session_end env rq (base_response sha256_hex native rq) w)
| sv_call s tool args :
    rq_event rq = "call" -> BMap.get (rq_session_id rq) (w_sessions w) = Some s ->
    tool_named (tl_name tool) tool -> rq_tool rq = Some (tl_name tool) -> rq_args rq = Some args ->
    step_view env rq w
      (call_step env rq (base_response sha256_hex native rq) (total_calls w) (touch env s) tool args
         (put_session (rq_session_id rq) (touch env s) w))
| sv_completion s tool args id call :
    rq_event rq <> "session_start" -> rq_event rq <> "session_end" -> rq_event rq <> "call" ->
    BMap.get (rq_session_id rq) (w_sessions w) = Some s ->
    tool_named (tl_name tool) tool -> rq_tool rq = Some (tl_name tool) -> rq_args rq = Some args ->
    rq_call_id rq = Some id -> BMap.get id (ss_calls s) = Some call ->
    step_view env rq w
      (completion_step env rq (base_response sha256_hex native rq)
         (set_calls (BMap.remove id (ss_calls s)) (touch env s)) tool args id call
         (put_session (rq_session_id rq) (set_calls (BMap.remove id (ss_calls s)) (touch env s))
            (put_session (rq_session_id rq) (touch env s) w)))
| sv_unknown e :
    rq_event rq <> "session_start" -> rq_event rq <> "session_end" ->
    step_view env rq w (Err e, w)
| sv_rejected e s :
    rq_event rq <> "session_start" -> rq_event rq <> "session_end" ->
    BMap.get (rq_session_id rq) (w_sessions w) = Some s ->
    step_view env rq w (Err e, put_session (rq_session_id rq) (touch env s) w).

Lemma step_viewed (env : NativeEnv) (rq : Request) (w : World) :
  step_view env rq (expire env w) (step env rq w).
Proof.
  unfold native_inspect. set (w0 := expire env w). clearbody w0.
  case_bool_decide; [by constructor|]. case_bool_decide; [by constructor|].
  destruct (BMap.get (rq_session_id rq) (w_sessions w0)) as [s|] eqn:Hg; [|by constructor].
  destruct (rq_tool rq) as [name|] eqn:Ht; [|by eapply sv_rejected].
  destruct (List.find _ _) as [tool|] eqn:Hf; [|by eapply sv_rejected].
  assert (tl_name tool = name) as <- by (by apply List.find_some in Hf as [_ ?%bool_decide_eq_true_1]).
  destruct (rq_args rq) as [args|] eqn:Ha; [|by eapply sv_rejected].
  case_bool_decide; [by eapply sv_call|].
  destruct (rq_call_id rq) as [id|] eqn:Hi; [|by eapply sv_rejected].
  cbn [ss_calls]. destruct (BMap.get id (ss_calls s)) as [call|] eqn:Hc; [|by eapply sv_rejected].
  by eapply sv_completion.
Qed.

(** *** Verdicts of a loaded policy *)

Lemma inner_resolved (fw : AgentFirewall) (ev : AgentEvent) (nat : option (ActionClass * list string)) (rec : bool) :
  policy_ok (af_policy fw) -> resolved (inspect_inner fw ev nat rec).1 <> Escalate.
Proof.
  intros Hp. assert (forall s, resolved (mkAgentOutcome (ad_verdict (agent_evaluate (af_policy fw) s))
    (ad_rule (agent_evaluate (af_policy fw) s)) None [] None 0 [] (ad_fallback (agent_evaluate (af_policy fw) s)))
    <> Escalate) as He.
  { intros s. pose proof (evaluate_fallback (af_policy fw) s Hp) as Hf. cbn zeta in Hf. unfold resolved. cbn.
    destruct (ad_fallback _) as [f|]; [destruct Hf as (-> & [-> | ->] & _); done|].
    by destruct (ad_verdict _). }
  unfold inspect_inner. destruct (ev_kind ev) as [|t c src|n i g| | | | |]; try exact (He _); try done.
  - destruct (rec && _); exact (He _).
  - destruct (spawn _ _ _ _ _) as [a esc]. exact (He _).
Qed.

Lemma default_policy_ok : policy_ok default_policy.
Proof. split; [|done]. repeat (constructor; [by cbn; auto|]). constructor. Qed.

(** The policy is never changed. *)
Lemma inspect_all_policy (fw : AgentFirewall) (evs : list AgentEvent) :
  af_policy (inspect_all fw evs) = af_policy fw.
Proof. apply inspect_all_taint. Qed.

Definition admits (rq : Request) : bool :=
  bool_decide (rq_event rq = "context") || bool_decide (rq_delivery rq ∈ [Some "parent"; Some "mcp_host"]).

Lemma admit_firewall (ep : string) (env : NativeEnv) (epoch tool : string) (source : Provenance) (seq : Z)
    (texts : list string) (w : World) :
  w_firewall (fold_left (admit_event ep) (result_events env epoch tool source seq texts) w)
  = inspect_all (w_firewall w) (result_events env epoch tool source seq texts).
Proof.
  unfold result_events. revert seq w. 
  assert (forall (f : Z -> Z) i0 w, w_firewall (fold_left (admit_event ep)
    (imap (fun i text => native_event env epoch (f (Z.of_nat (i0 + i))) (ToolResult tool text source)) texts) w)
    = inspect_all (w_firewall w)
    (imap (fun i text => native_event env epoch (f (Z.of_nat (i0 + i))) (ToolResult tool text source)) texts)) as Hgo.
  { intros f. induction texts as [|t texts IH]; intros i0 w; [done|]. cbn [imap fold_left]. unfold inspect_all.
    cbn [fold_left]. specialize (IH (S i0)).
    assert (forall l, (imap ((fun i text => native_event env epoch (f (Z.of_nat (i0 + i))) (ToolResult tool text source)) ∘ S) l)
      = imap (fun i text => native_event env epoch (f (Z.of_nat (S i0 + i))) (ToolResult tool text source)) l) as Heq.
    { intros l. apply imap_ext. intros i x _. cbn. by rewrite Nat.add_succ_r. }
    rewrite Heq, IH. unfold inspect_all. by f_equal. }
  intros seq w. apply (Hgo (fun i => seq + 1 + i)%Z 0).
Qed.

(** What a completion decides. *)
Lemma completion_spec (env : NativeEnv) (rq : Request) (r r' : Response) (s : Session) (tool : Tool) (args : Value)
    (id : string) (call : Call) (w w' : World) :
  policy_ok (af_policy (w_firewall w)) ->
  completion_step env rq r s tool args id call w = (Ok r', w') ->
  exists texts,
    completion_texts sha256_hex json_to_string from_str_value from_str_envelope rq call (tl_name tool) args = Ok texts /\
    let evs := result_events env (ss_epoch s) (tl_name tool) (native_source (nt_registry native) tool) (ss_seq s) texts in
    (rs_release r' = true <-> Forall (fun ev => resolved (preview_native_result (w_firewall w) ev).1 = Allow) evs) /\
    w_firewall w' = (if rs_release r' && admits rq then inspect_all (w_firewall w) evs else w_firewall w) /\
    rs_call_id r' = Some id /\ rs_binding_sha256 r' = Some (cl_binding_sha256 call).
Proof.
  intros Hp. unfold on_completion.
  destruct (completion_texts _ _ _ _ rq call (tl_name tool) args) as [texts|]; [|done].
  destruct (preview_texts_spec env (ss_epoch s) (tl_name tool) (native_source (nt_registry native) tool)
    (w_firewall w) (ss_seq s) texts) as (He & _ & Hst & _).
  { intros ev. by apply inner_resolved. }
  set (p := preview_texts _ _ _ _ _ _ _) in *. 
  destruct (native_audit _ _ _ _ _ _ _) as [wa|] eqn:Ha; [|done].
  apply audit_keeps in Ha as (_ & Hf & _). cbn in Hf.
  cbn [rs_release outcome_response]. fold (admits rq). case_bool_decide as Hrel.
  - intros [= <- <-]. exists texts. cbn. rewrite bool_decide_true by done. split_and!; [done|tauto| |done|done].
    assert (forall (b : bool) s', w_firewall (if b then put_session (rq_session_id rq) s'
        (if admits rq then fold_left (admit_event (ss_epoch s)) (pv_events p) wa else wa)
      else if admits rq then fold_left (admit_event (ss_epoch s)) (pv_events p) wa else wa)
      = if admits rq then inspect_all (w_firewall w)
          (result_events env (ss_epoch s) (tl_name tool) (native_source (nt_registry native) tool) (ss_seq s) texts)
        else w_firewall w) as Hgo.
    { intros b s'. assert (w_firewall (if admits rq then fold_left (admit_event (ss_epoch s)) (pv_events p) wa else wa)
        = if admits rq then inspect_all (w_firewall w)
            (result_events env (ss_epoch s) (tl_name tool) (native_source (nt_registry native) tool) (ss_seq s) texts)
          else w_firewall w) as Hx; [|by destruct b].
      destruct (admits rq); [|done]. by rewrite He, admit_firewall, Hf. }
    apply Hgo.
  - intros [= <- <-]. exists texts. cbn. rewrite bool_decide_false by done. split_and!; [done|naive_solver|done|done|done].
Qed.

Lemma completion_error (env : NativeEnv) (rq : Request) (r : Response) (s : Session) (tool : Tool) (args : Value)
    (id : string) (call : Call) (w : World) :
  forall e w', completion_step env rq r s tool args id call w = (Err e, w') -> w_firewall w' = w_firewall w.
Proof.
  unfold on_completion. destruct (completion_texts _ _ _ _ rq call (tl_name tool) args) as [texts|];
    [|by intros ? w' [= <- <-]].
  destruct (native_audit _ _ _ _ _ _ _) as [wa|]; [|by intros ? w' [= <- <-]].
  intros ? w'. destruct (rs_release _); done.
Qed.

(** A call leaves the firewall as it is. *)
Lemma call_firewall (env : NativeEnv) (rq : Request) (r : Response) (total : nat) (s : Session) (tool : Tool)
    (args : Value) (w : World) :
  w_firewall (call_step env rq r total s tool args w).2 = w_firewall w.
Proof.
  unfold on_call. destruct (negb _); [done|]. destruct (check_resources _ _ _ _ native tool args rq); [|done|].
  - destruct (_ || _); [done|]. destruct (declared_hosts _ tool args) as [hosts|]; [|done].
    unfold inspect_native_call, inspect_inner. cbn [ev_kind native_event].
    destruct (native_audit _ _ _ _ _ _ _) as [w'|] eqn:Ha; [|done].
    apply audit_keeps in Ha as (_ & Hf & _). cbn [snd]. destruct (bool_decide _); cbn; by rewrite Hf.
  - destruct (native_audit _ _ _ _ _ _ _) as [w'|] eqn:Ha; [|done].
    apply audit_keeps in Ha as (_ & Hf & _). cbn. by rewrite Hf.
Qed.

(** The texts a completion request would release and the tool they come from. *)
Definition requested (rq : Request) (s : Session) : option (Tool * list string) :=
  name ← rq_tool rq;
  tool ← List.find (fun t => bool_decide (tl_name t = name)) (rg_tools (nt_registry native));
  args ← rq_args rq; id ← rq_call_id rq; call ← BMap.get id (ss_calls s);
  match completion_texts sha256_hex json_to_string from_str_value from_str_envelope rq call name args with
  | Ok texts => Some (tool, texts) | Err _ => None end.

(** What a request shows the firewall: the ends of expired sessions, the end of the
    session it closes, and the results it releases. *)
Definition step_events (env : NativeEnv) (rq : Request) (w : World) : list AgentEvent :=
  expire_events env w ++
  match BMap.get (rq_session_id rq) (w_sessions (expire env w)) with
  | None => []
  | Some s =>
      if bool_decide (rq_event rq = "session_start") then []
      else if bool_decide (rq_event rq = "session_end")
      then [native_event env (ss_epoch s) (ss_seq s + 1) SessionEnd]
      else if bool_decide (rq_event rq = "call") then []
      else match (step env rq w).1, requested rq s with
           | Ok r, Some (tool, texts) =>
               if rs_release r && admits rq
               then result_events env (ss_epoch s) (tl_name tool) (native_source (nt_registry native) tool)
                      (ss_seq s + 1) texts
               else []
           | _, _ => []
           end
  end.

Lemma session_start_firewall (env : NativeEnv) (rq : Request) (r : Response) (w : World) :
  w_firewall (session_start env rq r w).2 = w_firewall w.
Proof.
  unfold session_start. destruct (BMap.contains_key _ _); [done|]. destruct (_ <=? _); [done|].
  destruct (native_audit _ _ _ _ _ _ _) as [w'|] eqn:Ha; [|done]. apply audit_keeps in Ha as (_ & Hf & _).
  cbn. by rewrite Hf.
Qed.

Lemma step_firewall (env : NativeEnv) (rq : Request) (w : World) :
  policy_ok (af_policy (w_firewall w)) ->
  w_firewall (step env rq w).2 = inspect_all (w_firewall w) (step_events env rq w).
Proof.
  intros Hp. unfold step_events, inspect_all. rewrite fold_left_app. fold (inspect_all (w_firewall w) (expire_events env w)).
  rewrite <- expire_firewall.
  assert (policy_ok (af_policy (w_firewall (expire env w)))) as Hp0
    by (by rewrite expire_firewall, inspect_all_policy).
  pose proof (step_viewed env rq w) as Hv. set (w0 := expire env w) in *. clearbody w0.
  destruct (step env rq w) as [res w'] eqn:Hres. cbn [fst snd].
  inversion Hv as [He Heq|He Heq|s tool args He Hg Hf Ht Ha Heq|s tool args id call H1' H2' H3' Hg Hf Ht Ha Hi Hc Heq
    |e' H1' H2' Heq|e' s H1' H2' Hg Heq].
  - rewrite He, (bool_decide_true ("session_start" = _)) by done.
    pose proof (session_start_firewall env rq (base_response sha256_hex native rq) w0) as Hfw.
    rewrite Heq in Hfw. cbn [snd] in Hfw. rewrite Hfw. by destruct (BMap.get _ _).
  - rewrite He, (bool_decide_false ("session_end" = "session_start")), bool_decide_true by done.
    unfold session_end in Heq. destruct (BMap.get _ _) as [s|]; [|by injection Heq as <- <-].
    destruct (native_audit _ _ _ _ _ _ _) as [wa|] eqn:Haud; injection Heq as <- <-; [|done].
    apply audit_keeps in Haud as (_ & -> & _). done.
  - pose proof (call_firewall env rq (base_response sha256_hex native rq) (total_calls w0) (touch env s) tool args
      (put_session (rq_session_id rq) (touch env s) w0)) as Hfw.
    rewrite Heq in Hfw. cbn in Hfw. rewrite Hfw, Hg, He. done.
  - rewrite Hg, !bool_decide_false by done. unfold requested. rewrite Ht. cbn [mbind option_bind].
    unfold tool_named in Hf. do 4 (rewrite ?Hf, ?Ha, ?Hi, ?Hc; cbn [mbind option_bind]).
    destruct res as [r|].
    + apply completion_spec in Heq as (texts & -> & _ & -> & _); [|done].
      cbn [ss_epoch ss_seq touch set_calls w_firewall put_session set_sessions]. by destruct (_ && _).
    + by apply completion_error in Heq.
  - destruct (BMap.get _ _); [|done]. rewrite !(bool_decide_false (rq_event rq = _)) by done. by destruct (bool_decide _).
  - rewrite Hg, !(bool_decide_false (rq_event rq = _)) by done. by destruct (bool_decide _).
Qed.

Lemma native_events_elem (env : NativeEnv) (epoch tool : string) (source : Provenance) (seq : Z)
    (texts : list string) (ev : AgentEvent) :
  ev ∈ result_events env epoch tool source seq texts ->
  exists text, text ∈ texts /\ ev_kind ev = ToolResult tool text source /\ ev_session ev = epoch.
Proof.
  unfold result_events. intros (i & text & -> & Hi)%elem_of_lookup_imap. exists text.
  split_and!; [by eapply list_elem_of_lookup_2|done|done].
Qed.

(** A preview of results says what an inspection says. *)
Lemma previews_inspect (env : NativeEnv) (epoch tool : string) (source : Provenance) (seq : Z)
    (texts : list string) (fw : AgentFirewall) :
  let evs := result_events env epoch tool source seq texts in
  Forall (fun ev => resolved (preview_native_result fw ev).1 = Allow) evs <->
  Forall (fun ev => resolved (inspect fw ev).1 = Allow) evs.
Proof.
  cbn zeta. rewrite !Forall_forall. split; intros HF ev Hev; specialize (HF ev Hev);
    apply native_events_elem in Hev as (text & _ & Hk & _);
    destruct (preview_then_admit fw ev _ _ _ Hk) as (_ & Hsame & _); congruence.
Qed.

(** Nothing reaches the model or a parent unjudged.  A result or context that is
    answered at all was checked against the pending call it names, it is released exactly
    when the firewall allows every one of its texts, each inspected as a result of the
    registered tool, and the firewall records those texts exactly when they are released to
    a context, a parent or a host; a refused one leaves no trace in it. *)
Theorem native_release_sound (env : NativeEnv) (rq : Request) (w w' : World) (r : Response) :
  policy_ok (af_policy (w_firewall w)) -> rq_event rq ∈ ["result"; "context"] ->
  step env rq w = (Ok r, w') ->
  let fw := w_firewall (expire env w) in
  exists s tool texts,
    BMap.get (rq_session_id rq) (w_sessions (expire env w)) = Some s /\ requested rq s = Some (tool, texts) /\
    let evs := result_events env (ss_epoch s) (tl_name tool) (native_source (nt_registry native) tool)
                 (ss_seq s + 1) texts in
    (rs_release r = true <-> Forall (fun ev => resolved (inspect fw ev).1 = Allow) evs) /\
    w_firewall w' = if rs_release r && admits rq then inspect_all fw evs else fw.
Proof.
  intros Hp Hev Hstep fw.
  assert (rq_event rq <> "session_start" /\ rq_event rq <> "session_end" /\ rq_event rq <> "call") as (Hn1 & Hn2 & Hn3)
    by (apply elem_of_cons in Hev as [->|Hev]; [done|]; by apply list_elem_of_singleton in Hev as ->).
  assert (policy_ok (af_policy fw)) as Hp0 by (by unfold fw; rewrite expire_firewall, inspect_all_policy).
  pose proof (step_viewed env rq w) as Hv. rewrite Hstep in Hv. subst fw. set (w0 := expire env w) in *. clearbody w0.
  inversion Hv as [He Heq|He Heq|s tool args He Hg Hf Ht Ha Heq|s tool args id call H1' H2' H3' Hg Hf Ht Ha Hi Hc Heq
    | |]; try done.
  apply completion_spec in Heq as (texts & Htx & Hrel & Hfw & _); [|done].
  exists s, tool, texts. split; [done|]. split.
  { unfold requested. unfold tool_named in Hf. do 5 (rewrite ?Ht, ?Hf, ?Ha, ?Hi, ?Hc; cbn [mbind option_bind]).
    by rewrite Htx. }
  cbn [ss_epoch ss_seq touch set_calls w_firewall put_session set_sessions] in *. split; [|done].
  rewrite Hrel. apply previews_inspect.
Qed.

(** *** The kill chain *)

Fixpoint run_events (rs : list NativeReq) (w : World) : list AgentEvent :=
  match rs with
  | [] => []
  | r :: rs' => step_events (nr_env r) (nr_request r) w ++ run_events rs' (native_step w r)
  end.

Lemma run_firewall (rs : list NativeReq) (w : World) :
  policy_ok (af_policy (w_firewall w)) ->
  w_firewall (native_run rs w) = inspect_all (w_firewall w) (run_events rs w).
Proof.
  unfold native_run. revert w. induction rs as [|r rs IH]; intros w Hp; [done|]. cbn [fold_left run_events].
  assert (w_firewall (native_step w r) = inspect_all (w_firewall w) (step_events (nr_env r) (nr_request r) w)) as Hs
    by (by apply step_firewall).
  rewrite IH by (by rewrite Hs, inspect_all_policy). rewrite Hs. unfold inspect_all. by rewrite fold_left_app.
Qed.

(** A registered call with a tainted argument is denied under the shipped policy. *)
Lemma native_tainted_denied `{!LiteralIterLaws} (cap : nat) (evs : list AgentEvent) (ev : AgentEvent)
    (tool : string) (args : Value) (baseline : ActionClass) (hosts : list string) (text : string) (m : TaintMark) :
  let fw := inspect_all (agent_firewall_new default_policy cap) evs in
  ev_kind ev = ToolCall tool args -> leaf text args -> text <> EmptyString ->
  check (af_taint fw) (ev_session ev) text = Some m ->
  classify_with_baseline args baseline ∈ [Destructive; PrivilegeChanging] ->
  ao_verdict (inspect_native_call fw ev baseline hosts).1 = Deny.
Proof.
  intros fw Hk Hleaf Hne Hc Hclass. subst fw.
  destruct (inspect_all_taint (agent_firewall_new default_policy cap) evs) as [Ht Hp].
  set (fw := inspect_all _ evs) in *. clearbody fw.
  assert ((FToolArgs, text) ∈ facets ev) as Hin.
  { unfold facets. rewrite Hk. apply list_elem_of_fmap. exists text. split; [done|].
    by apply string_leaves_spec. }
  destruct (first_taint_hit _ _ _ _ _ _ Hin Hc) as (m' & fa' & x' & Hft & _ & Hc').
  assert (trust (tm_source m') = Untrusted) as Hu.
  { rewrite Ht in Hc'. by apply (check_untrusted cap (evs ≫= taint_ops) _ _ _ Hc'). }
  unfold inspect_native_call, inspect_inner. rewrite Hk. simpl. rewrite Hp. simpl.
  eapply (default_denies_tainted _ m'); simpl; eauto.
  apply elem_of_cons in Hclass as [->|Hcl]; [eauto|]. apply list_elem_of_singleton in Hcl as ->. eauto.
Qed.

(** A call whose arguments the firewall denies is refused. *)
Lemma denied_call_refused (env : NativeEnv) (rq : Request) (r r' : Response) (total : nat) (s : Session)
    (tool : Tool) (args : Value) (w w' : World) :
  (forall hosts, ao_verdict (inspect_native_call (w_firewall w)
     (native_event env (ss_epoch s) (ss_seq s) (ToolCall (tl_name tool) args)) (tl_action_class tool) hosts).1 = Deny) ->
  rs_call_id r = None ->
  call_step env rq r total s tool args w = (Ok r', w') ->
  rs_release r' = false /\ rs_verdict r' = "deny" /\ rs_call_id r' = None /\ w_sessions w' = w_sessions w.
Proof.
  intros Hd Hid. unfold on_call. destruct (negb _); [done|].
  destruct (check_resources _ _ _ _ native tool args rq); [|done|].
  - destruct (_ || _); [done|]. destruct (declared_hosts _ tool args) as [hosts|]; [|done].
    specialize (Hd hosts). destruct (inspect_native_call _ _ _ _) as [o fw]. cbn [fst] in Hd.
    assert (resolved o = Deny) as Hr by (unfold resolved; by rewrite Hd).
    rewrite Hr, (bool_decide_false (Deny = Allow)) by done.
    destruct (native_audit _ _ _ _ _ _ _) as [wa|] eqn:Ha; [|done].
    apply audit_keeps in Ha as (Hs & _). by intros [= <- <-].
  - destruct (native_audit _ _ _ _ _ _ _) as [wa|] eqn:Ha; [|done].
    apply audit_keeps in Ha as (Hs & _). intros [= <- <-]. by cbn.
Qed.

(** Native tools cannot be used to complete the injection kill chain.  Under the
    shipped policy, whatever requests came before: some released result of an untrusted
    tool carried a distinctive literal into a session, the session has not ended since and
    its literal table has not overflowed; then a call of a registered tool in that session
    with an argument containing the literal, destructive or privilege-changing by its
    arguments or its registration, is answered with a denial and gets no identifier. *)
Theorem native_kill_chain_cut `{!LiteralIterLaws} (cap : nat) (rs : list NativeReq) (w0 w' : World)
    (env : NativeEnv) (rq : Request) (r : Response) (before later : list AgentEvent) (page : AgentEvent)
    (t content : string) (src : Provenance) (lit text : string) (s : Session) (tool : Tool) (args : Value) :
  let w := native_run rs w0 in
  let fw := inspect_all (agent_firewall_new default_policy cap) before in
  w_firewall w0 = agent_firewall_new default_policy cap ->
  run_events rs w0 ++ expire_events env w = before ++ page :: later ->
  ev_kind page = ToolResult t content src -> trust src = Untrusted -> lit ∈ literals content ->
  (forall e, e ∈ later -> ev_session e = ev_session page -> ev_kind e <> SessionEnd) ->
  lit_order (af_taint fw) (ev_session page) + List.length (literals content)
    + literal_budget (ev_session page) (later ≫= taint_ops) <= tt_cap (af_taint fw) ->
  rq_event rq = "call" -> rq_tool rq = Some (tl_name tool) -> tool_named (tl_name tool) tool ->
  rq_args rq = Some args -> leaf text args -> text <> EmptyString -> Str.contains lit (to_lowercase text) = true ->
  classify_with_baseline args (tl_action_class tool) ∈ [Destructive; PrivilegeChanging] ->
  BMap.get (rq_session_id rq) (w_sessions (expire env w)) = Some s -> ss_epoch s = ev_session page ->
  step env rq w = (Ok r, w') ->
  rs_release r = false /\ rs_verdict r = "deny" /\ rs_call_id r = None.
Proof.
  intros w fw Hfw Hrun Hpage Hu Hlit Hend Hbudget Hev Htool Hnamed Hargs Hleaf Hne Hct Hclass Hs Hep Hstep.
  assert (policy_ok (af_policy (w_firewall w0))) as Hp by (rewrite Hfw; apply default_policy_ok).
  assert (w_firewall (expire env w) = inspect_all (agent_firewall_new default_policy cap) (before ++ page :: later)) as Hall.
  { rewrite expire_firewall. unfold w. rewrite run_firewall, Hfw by done. rewrite <- Hrun.
    unfold inspect_all. by rewrite fold_left_app. }
  destruct (literal_stays_tainted fw page later (ev_session page) t content src lit text) as [m Hm]; [done..|].
  assert (inspect_all fw (page :: later) = w_firewall (expire env w)) as Heq.
  { rewrite Hall. unfold fw, inspect_all. by rewrite fold_left_app. }
  rewrite Heq in Hm.
  pose proof (step_viewed env rq w) as Hv. rewrite Hstep in Hv.
  inversion Hv as [He Hx|He Hx|s1 tool1 args1 He Hg Hf Ht Ha Hx|? ? ? ? ? ? ? Hn| |]; try congruence.
  rewrite Hs in Hg. injection Hg as <-. rewrite Hargs in Ha. injection Ha as <-.
  assert (tl_name tool1 = tl_name tool) as Hname by congruence.
  assert (tool1 = tool) as -> by (unfold tool_named in *; rewrite Hname in Hf; congruence).
  apply denied_call_refused in Hx as (? & ? & ? & _); [done| |done].
  intros hosts. cbn [w_firewall put_session set_sessions]. rewrite Hall.
  eapply (native_tainted_denied cap _ _ (tl_name tool) args); [done|done|done| |done].
  cbn [ev_session native_event ss_epoch touch]. rewrite Hep, <- Hall. exact Hm.
Qed.

(** *** The life cycle of a call *)

(** Call [id] is pending in session [sid]. *)
Definition found (w : World) (id sid : string) (c : Call) : Prop :=
  exists s, BMap.get sid (w_sessions w) = Some s /\ BMap.get id (ss_calls s) = Some c.

(** Call [id] is pending nowhere, or in one session, with this stage and binding. *)
Definition at_most (w : World) (id : string) (o : option (Stage * string)) : Prop :=
  (forall sid c, found w id sid c -> o = Some (cl_stage c, cl_binding_sha256 c)) /\
  (forall sid sid' c c', found w id sid c -> found w id sid' c' -> sid = sid').

Lemma at_most_sub (w w' : World) (id : string) (o : option (Stage * string)) :
  (forall sid c, found w' id sid c -> found w id sid c) -> at_most w id o -> at_most w' id o.
Proof. intros Hsub [Ho Hu]. split; eauto. Qed.

Lemma found_put (id sid sid' : string) (s : Session) (c : Call) (w : World) :
  found (put_session sid s w) id sid' c <->
  (sid' = sid /\ BMap.get id (ss_calls s) = Some c) \/ (sid' <> sid /\ found w id sid' c).
Proof.
  unfold found, put_session. cbn [w_sessions set_sessions]. destruct (decide (sid' = sid)) as [->|Hne].
  - rewrite BMap.bmap_get_insert_eq. naive_solver.
  - rewrite BMap.bmap_get_insert_ne by done. naive_solver.
Qed.

Lemma found_ext (w w' : World) (id sid : string) (c : Call) :
  w_sessions w' = w_sessions w -> found w' id sid c <-> found w id sid c.
Proof. unfold found. by intros ->. Qed.

Lemma found_remove (w : World) (id sid0 sid : string) (c : Call) (m : World) :
  w_sessions m = BMap.remove sid0 (w_sessions w) -> BMap.wf (w_sessions w) -> found m id sid c -> found w id sid c.
Proof.
  intros Hm Hw (s & Hs & Hc). exists s. split; [|done]. rewrite Hm in Hs.
  destruct (decide (sid0 = sid)) as [->|Hne]; [by rewrite BMap.bmap_get_remove_eq in Hs|].
  by rewrite BMap.bmap_get_remove_ne in Hs.
Qed.

Lemma found_expire (env : NativeEnv) (w : World) (id sid : string) (c : Call) :
  sessions_ok (w_sessions w) -> found (expire env w) id sid c -> found w id sid c.
Proof.
  intros Hok (s & Hs & Hc). rewrite expire_sessions in Hs.
  rewrite (BMap.bmap_get_fmap (prune env)) in Hs. apply fmap_Some in Hs as (s0 & Hs0 & ->).
  assert (BMap.get sid (w_sessions w) = Some s0) as Hg.
  { revert Hs0. unfold unexpired.
    generalize (List.filter (fun kv => session_expired (ne_now env) kv.2) (w_sessions w)) as l. intros l.
    pose proof (so_wf _ Hok) as Hw. revert Hw. generalize (w_sessions w). clear.
    induction l as [|kv l IH]; intros m Hw Hg; [done|]. cbn [fold_left] in Hg.
    apply IH in Hg; [|by apply BMap.bmap_remove_wf].
    destruct (decide (kv.1 = sid)) as [<-|Hne]; [by rewrite BMap.bmap_get_remove_eq in Hg|].
    by rewrite BMap.bmap_get_remove_ne in Hg. }
  exists s0. split; [done|]. destruct (sessions_ok_get _ _ _ Hok Hg) as (Hw & _).
  cbn [prune set_calls ss_calls] in Hc. by apply BMap.bmap_get_retain in Hc as [? _].
Qed.

(** What a request answers about call [id]: the event and the binding it reports. *)
Definition answered (id : string) (rq : Request) (res : result Response string) : option (string * option string) :=
  match res with
  | Ok r => if bool_decide (rs_call_id r = Some id) then Some (rq_event rq, rs_binding_sha256 r) else None
  | Err _ => None
  end.

(** A result that is released and held for the model's context. *)
Definition held (rq : Request) (res : result Response string) : bool :=
  bool_decide (rq_event rq = "result") && bool_decide (rq_delivery rq = Some "model") &&
  match res with Ok r => rs_release r | Err _ => false end.

(** Sessions after a completion: the session without the call, or, when a value is held for
    the model's context, with the call moved on. *)
Lemma completion_found (env : NativeEnv) (rq : Request) (r : Response) (s : Session) (tool : Tool) (args : Value)
    (id : string) (call : Call) (w w' : World) (res : result Response string) (id' sid : string) (c : Call) :
  BMap.get (rq_session_id rq) (w_sessions w) = Some s -> BMap.wf (ss_calls s) ->
  completion_step env rq r s tool args id call w = (res, w') -> found w' id' sid c ->
  found w id' sid c \/
  (id' = id /\ sid = rq_session_id rq /\ is_ok res = true /\ rq_event rq = "result" /\ held rq res = true /\
   cl_stage c = StContext /\ cl_binding_sha256 c = cl_binding_sha256 call).
Proof.
  intros Hg Hw. unfold on_completion.
  destruct (completion_texts _ _ _ _ rq call (tl_name tool) args) as [texts|]; [|by intros [= <- <-]; left].
  set (p := preview_texts _ _ _ _ _ _ _). set (s' := set_seq (pv_seq p) s).
  assert (forall wx, w_sessions wx = w_sessions (put_session (rq_session_id rq) s' w) ->
    found wx id' sid c -> found w id' sid c) as Hsame.
  { intros wx Hx Hf. apply (found_ext _ _ _ _ _ Hx), found_put in Hf as [[-> Hc]|[_ Hf]]; [|done].
    by exists s. }
  destruct (native_audit _ _ _ _ _ _ _) as [wa|] eqn:Ha; [|intros [= <- <-]; left; by eapply Hsame].
  apply audit_keeps in Ha as (Hs & _).
  destruct (rs_release _) eqn:Hrel; [|intros [= <- <-]; left; by eapply Hsame].
  intros [= <- <-]. unfold held.
  destruct (bool_decide (rq_event rq = "result") && bool_decide (rq_delivery rq = Some "model")) eqn:Hmodel.
  - rewrite found_put. intros [[-> Hc]|[Hne Hf]].
    + destruct (decide (id = id')) as [->|Hid].
      * cbn [ss_calls set_calls] in Hc. rewrite BMap.bmap_get_insert_eq in Hc. injection Hc as <-.
        right. boolp. done.
      * cbn [ss_calls set_calls] in Hc. rewrite BMap.bmap_get_insert_ne in Hc by done. left. by exists s.
    + left. eapply Hsame; [|exact Hf]. destruct (_ || _); [by rewrite admit_keeps_sessions|done].
  - intros Hf. left. eapply Hsame; [|exact Hf]. destruct (_ || _); [by rewrite admit_keeps_sessions|done].
Qed.

Lemma call_found (env : NativeEnv) (rq : Request) (r : Response) (total : nat) (s : Session) (tool : Tool) (args : Value)
    (w w' : World) (res : result Response string) :
  BMap.get (rq_session_id rq) (w_sessions w) = Some s -> rs_call_id r = None ->
  call_step env rq r total s tool args w = (res, w') ->
  (exists b, answered (ne_call_id env) rq res = Some (rq_event rq, Some b) /\
     forall id sid c, found w' id sid c ->
       (found w id sid c /\ (id <> ne_call_id env \/ sid <> rq_session_id rq)) \/
       (id = ne_call_id env /\ sid = rq_session_id rq /\ cl_stage c = StResult /\ cl_binding_sha256 c = b)) \/
  ((forall id, answered id rq res = None) /\ forall id sid c, found w' id sid c -> found w id sid c).
Proof.
  intros Hg Hid. assert (forall res w', w_sessions w' = w_sessions w -> (forall id, answered id rq res = None) ->
    (forall id, answered id rq res = None) /\ forall id sid c, found w' id sid c -> found w id sid c) as Hsame.
  { intros res' w1 Hx Hans. split; [done|]. intros id sid c. by apply found_ext. }
  unfold on_call. destruct (negb _); [intros [= <- <-]; right; by apply Hsame|].
  destruct (check_resources _ _ _ _ native tool args rq).
  - destruct (_ || _); [intros [= <- <-]; right; by apply Hsame|].
    destruct (declared_hosts _ tool args) as [hosts|]; [|intros [= <- <-]; right; by apply Hsame].
    destruct (inspect_native_call _ _ _ _) as [o fw].
    destruct (native_audit _ _ _ _ _ _ _) as [wa|] eqn:Ha; [|intros [= <- <-]; right; by apply Hsame].
    apply audit_keeps in Ha as (Hs & _). cbn [w_sessions set_inspection] in Hs.
    case_bool_decide as Hrel; intros [= <- <-]; [left|right; apply Hsame; [done|]; intros; cbn; by rewrite bool_decide_false].
    eexists. split; [cbn; by rewrite bool_decide_true|]. intros id sid c.
    rewrite found_put. cbn [ss_calls set_calls]. intros [[-> Hc]|[Hne Hf]].
    + destruct (decide (ne_call_id env = id)) as [<-|Hne].
      * rewrite BMap.bmap_get_insert_eq in Hc. injection Hc as <-. by right.
      * rewrite BMap.bmap_get_insert_ne in Hc by done. left. split; [by exists s|]. left. congruence.
    + left. split; [|by right]. by eapply found_ext.
  - intros [= <- <-]. right. by apply Hsame.
  - destruct (native_audit _ _ _ _ _ _ _) as [wa|] eqn:Ha; [|intros [= <- <-]; right; by apply Hsame].
    apply audit_keeps in Ha as (Hs & _). intros [= <- <-]. right. apply Hsame; [done|].
    intros id. cbn. rewrite Hid. by rewrite bool_decide_false.
Qed.

Lemma completion_answer (env : NativeEnv) (rq : Request) (r r' : Response) (s : Session) (tool : Tool) (args : Value)
    (id : string) (call : Call) (w w' : World) :
  completion_step env rq r s tool args id call w = (Ok r', w') ->
  rs_call_id r' = Some id /\ rs_binding_sha256 r' = Some (cl_binding_sha256 call) /\
  cl_stage call = if bool_decide (rq_event rq = "result") then StResult else StContext.
Proof.
  unfold on_completion. destruct (completion_texts _ _ _ _ rq call (tl_name tool) args) as [texts|] eqn:Ht; [|done].
  assert (cl_stage call = if bool_decide (rq_event rq = "result") then StResult else StContext) as Hst.
  { revert Ht. unfold completion_texts. intros Ht. ok_inv Ht.
    destruct (bool_decide (rq_event rq = "result")); ok_inv Ht; boolp; done. }
  destruct (native_audit _ _ _ _ _ _ _) as [wa|]; [|done].
  destruct (rs_release _); intros [= <- <-]; done.
Qed.

Lemma answered_base (id : string) (rq : Request) : answered id rq (Ok (base_response sha256_hex native rq)) = None.
Proof. cbn. by rewrite bool_decide_false. Qed.

Lemma start_found (env : NativeEnv) (rq : Request) (w w' : World) (res : result Response string) :
  session_start env rq (base_response sha256_hex native rq) w = (res, w') ->
  (forall id, answered id rq res = None) /\ forall id sid c, found w' id sid c -> found w id sid c.
Proof.
  unfold session_start. destruct (BMap.contains_key _ _); [by intros [= <- <-]|].
  destruct (_ <=? _); [by intros [= <- <-]|].
  destruct (native_audit _ _ _ _ _ _ _) as [wa|] eqn:Ha; intros [= <- <-]; [|done].
  apply audit_keeps in Ha as (Hs & _). split; [intros; apply answered_base|].
  intros id sid c. rewrite found_put. intros [[_ [=]]|[_ Hf]]. by eapply found_ext.
Qed.

Lemma end_found (env : NativeEnv) (rq : Request) (w w' : World) (res : result Response string) :
  BMap.wf (w_sessions w) ->
  session_end env rq (base_response sha256_hex native rq) w = (res, w') ->
  (forall id, answered id rq res = None) /\ forall id sid c, found w' id sid c -> found w id sid c.
Proof.
  intros Hw. unfold session_end. destruct (BMap.get _ _) as [s|]; [|by intros [= <- <-]].
  destruct (native_audit _ _ _ _ _ _ _) as [wa|] eqn:Ha; intros [= <- <-].
  - apply audit_keeps in Ha as (Hs & _). split; [intros; apply answered_base|].
    intros id sid c. eapply found_remove; [exact Hs|done].
  - split; [done|]. intros id sid c. eapply found_remove; [reflexivity|done].
Qed.

Lemma touch_found (env : NativeEnv) (w : World) (sid0 : string) (s : Session) (id sid : string) (c : Call) :
  BMap.get sid0 (w_sessions w) = Some s -> found (put_session sid0 (touch env s) w) id sid c -> found w id sid c.
Proof. intros Hg. rewrite found_put. intros [[-> Hc]|[_ Hf]]; [by exists s|done]. Qed.

(** The events [parse] lets through. *)
Definition valid_event (rq : Request) : Prop :=
  rq_event rq ∈ ["session_start"; "session_end"; "call"; "result"; "context"].

(** One step of the life cycle, when the request does not issue the identifier. *)
Lemma step_cycle (env : NativeEnv) (rq : Request) (w w' : World) (res : result Response string) (id : string)
    (o : option (Stage * string)) :
  sessions_ok (w_sessions w) -> at_most w id o -> step env rq w = (res, w') ->
  ne_call_id env <> id ->
  match answered id rq res with
  | None => at_most w' id o
  | Some (ev, b) => exists st b', o = Some (st, b') /\ b = Some b' /\
      ((st = StResult /\ ev = "result" /\ at_most w' id (if held rq res then Some (StContext, b') else None)) \/
       (st = StContext /\ (valid_event rq -> ev = "context") /\ at_most w' id None))
  end.
Proof.
  intros Hok0 Hm Hstep Hne.
  assert (at_most (expire env w) id o) as Hm0.
  { eapply at_most_sub; [|exact Hm]. intros sid c. by apply found_expire. }
  pose proof (expire_ok env w Hok0) as Hok. pose proof (step_viewed env rq w) as Hv. rewrite Hstep in Hv.
  set (w0 := expire env w) in *. clearbody w0. clear Hm Hstep Hok0.
  assert ((forall id, answered id rq res = None) /\ (forall id sid c, found w' id sid c -> found w0 id sid c) ->
    match answered id rq res with None => at_most w' id o | Some _ => False end) as Hquiet.
  { intros [Hans Hsub]. rewrite Hans. by eapply at_most_sub; [|exact Hm0]; eauto. }
  inversion Hv as [He Hx|He Hx|s tool args He Hg Hf Ht Ha Hx|s tool args cid call H1' H2' H3' Hg Hf Ht Ha Hi Hc Hx
    |e' H1' H2' Hx|e' s H1' H2' Hg Hx].
  - apply start_found in Hx. apply Hquiet in Hx. by destruct (answered _ _ _).
  - apply end_found in Hx; [|apply Hok]. apply Hquiet in Hx. by destruct (answered _ _ _).
  - apply call_found in Hx as [(b & Hans & Hfd)|[Hans Hsub]]; [| |apply put_get|done].
    + assert (answered id rq res = None) as ->.
      { revert Hans. unfold answered. destruct res as [r|]; [|done]. case_bool_decide; [|done].
        intros _. rewrite bool_decide_false by congruence. done. }
      eapply at_most_sub; [|exact Hm0]. intros sid c Hc. apply Hfd in Hc as [[Hc _]|[-> _]]; [|done].
      by eapply touch_found.
    + assert (at_most w' id o) as Hw' by (eapply at_most_sub; [|exact Hm0]; intros sid c Hc;
        eapply touch_found; eauto). by rewrite Hans.
  - set (s1 := set_calls (BMap.remove cid (ss_calls s)) (touch env s)) in *.
    set (w1 := put_session (rq_session_id rq) s1 (put_session (rq_session_id rq) (touch env s) w0)) in *.
    destruct (sessions_ok_get _ _ _ Hok Hg) as (Hw & _).
    assert (forall sid c, found w1 id sid c -> found w0 id sid c /\ (id <> cid \/ sid <> rq_session_id rq)) as Hsub.
    { intros sid c. unfold w1. rewrite found_put. intros [[-> Hc1]|[Hn Hf1]].
      - cbn [s1 ss_calls set_calls] in Hc1. destruct (decide (cid = id)) as [->|Hn].
        + by rewrite BMap.bmap_get_remove_eq in Hc1.
        + rewrite BMap.bmap_get_remove_ne in Hc1 by done. split; [by exists s|]. left. congruence.
      - split; [by eapply touch_found|by right]. }
    pose proof (fun sid c => completion_found _ _ _ _ _ _ _ _ _ _ _ id sid c (put_get _ s1 _)
      (BMap.bmap_remove_wf cid _ Hw) Hx) as Hfd. fold w1 in Hfd.
    destruct (answered id rq res) as [[ev b]|] eqn:Hans.
    + unfold answered in Hans. destruct res as [r|]; [|done]. case_bool_decide as Hid; [|done].
      injection Hans as <- <-. apply completion_answer in Hx as (Hid' & -> & Hst).
      assert (cid = id) as -> by congruence.
      destruct Hm0 as [Ho Hu]. assert (found w0 id (rq_session_id rq) call) as Hfc by (by exists s).
      exists (cl_stage call), (cl_binding_sha256 call). split; [by eapply Ho|]. split; [done|].
      assert (forall sid c, found w1 id sid c -> False) as Hno.
      { intros sid c [Hc0 [?|Hn]]%Hsub; [done|]. by apply Hn, (Hu _ _ _ _ Hc0 Hfc). }
      case_bool_decide as Her.
      * left. split_and!; [done|done|]. split.
        -- intros sid c [Hc1|(_ & _ & _ & _ & -> & -> & ->)]%Hfd; [by destruct (Hno _ _ Hc1)|done].
        -- intros sid sid' c c' [Hc1|(_ & -> & _)]%Hfd; [by destruct (Hno _ _ Hc1)|].
           intros [Hc1|(_ & -> & _)]%Hfd; [by destruct (Hno _ _ Hc1)|done].
      * right. split_and!; [done|set_solver|]. split.
        -- intros sid c [Hc1|(_ & _ & _ & Hr & _)]%Hfd; [by destruct (Hno _ _ Hc1)|done].
        -- intros sid sid' c c' [Hc1|(_ & _ & _ & Hr & _)]%Hfd; [by destruct (Hno _ _ Hc1)|done].
    + eapply at_most_sub; [|exact Hm0]. intros sid c [Hc1|(-> & _ & Hok' & _)]%Hfd; [by apply Hsub in Hc1 as [? _]|].
      destruct res as [r|]; [|done]. apply completion_answer in Hx as (Hid' & _). unfold answered in Hans.
      by rewrite Hid', bool_decide_true in Hans.
  - subst. cbn. done.
  - subst. cbn. eapply at_most_sub; [|exact Hm0]. intros sid c. by eapply touch_found.
Qed.

(** The request that issues the identifier. *)
Lemma step_birth (env : NativeEnv) (rq : Request) (w w' : World) (res : result Response string) :
  let id := ne_call_id env in
  sessions_ok (w_sessions w) -> at_most w id None -> step env rq w = (res, w') ->
  match answered id rq res with
  | None => at_most w' id None
  | Some (ev, b) => exists b', ev = "call" /\ b = Some b' /\ at_most w' id (Some (StResult, b'))
  end.
Proof.
  intros id Hok0 Hm Hstep. assert (exists i, i = ne_call_id env) as [i Hi0] by eauto. subst id. rewrite <- Hi0 in *.
  rename i into id.
  assert (forall sid c, ~ found (expire env w) id sid c) as Hno.
  { intros sid c Hf%found_expire; [|done]. by apply (proj1 Hm) in Hf. }
  pose proof (expire_ok env w Hok0) as Hok. pose proof (step_viewed env rq w) as Hv. rewrite Hstep in Hv.
  set (w0 := expire env w) in *. clearbody w0. clear Hm Hstep Hok0.
  assert (forall wx, (forall sid c, ~ found wx id sid c) -> at_most wx id None) as Hnone.
  { intros wx Hx. split; intros * Hf; by destruct (Hx _ _ Hf). }
  inversion Hv as [He Hx|He Hx|s tool args He Hg Hf Ht Ha Hx|s tool args cid call H1' H2' H3' Hg Hf Ht Ha Hi Hc Hx
    |e' H1' H2' Hx|e' s H1' H2' Hg Hx].
  - apply start_found in Hx as [-> Hsub]. apply Hnone. intros sid c Hf%Hsub. by eapply Hno.
  - apply end_found in Hx as [-> Hsub]; [|apply Hok]. apply Hnone. intros sid c Hf%Hsub. by eapply Hno.
  - assert (forall sid c, ~ found (put_session (rq_session_id rq) (touch env s) w0) id sid c) as Hno1.
    { intros sid c Hf1%touch_found; [by eapply Hno|done]. }
    apply call_found in Hx as [(b & Hans & Hfd)|[-> Hsub]]; [| |apply put_get|done].
    + rewrite <- Hi0 in *. rewrite Hans. exists b. split_and!; [done|done|]. split.
      * intros sid c [[Hf1 _]|(_ & _ & -> & ->)]%Hfd; [by destruct (Hno1 _ _ Hf1)|done].
      * intros sid sid' c c' [[Hf1 _]|(_ & -> & _)]%Hfd; [by destruct (Hno1 _ _ Hf1)|].
        intros [[Hf1 _]|(_ & -> & _)]%Hfd; [by destruct (Hno1 _ _ Hf1)|done].
    + apply Hnone. intros sid c Hf1%Hsub. by eapply Hno1.
  - assert (cid <> id) as Hne. { intros ->. apply (Hno (rq_session_id rq) call). by exists s. }
    assert (answered id rq res = None) as ->.
    { unfold answered. destruct res as [r|]; [|done]. apply completion_answer in Hx as (-> & _).
      by rewrite bool_decide_false by congruence. }
    apply Hnone. intros sid c Hf1. destruct (sessions_ok_get _ _ _ Hok Hg) as (Hw & _).
    set (s1 := set_calls (BMap.remove cid (ss_calls s)) (touch env s)) in *.
    apply (completion_found _ _ _ s1 _ _ _ _ _ _ _ _ _ _ (put_get _ _ _) (BMap.bmap_remove_wf cid _ Hw) Hx) in Hf1
      as [Hf1|(-> & _)]; [|done].
    rewrite found_put in Hf1. destruct Hf1 as [[-> Hc1]|[_ Hf1]].
    + cbn [s1 ss_calls set_calls] in Hc1. rewrite BMap.bmap_get_remove_ne in Hc1 by done.
      apply (Hno (rq_session_id rq) c). by exists s.
    + apply touch_found in Hf1; [by eapply Hno|done].
  - subst. by apply Hnone.
  - subst. apply Hnone. intros sid c Hf1%touch_found; [by eapply Hno|done].
Qed.

(** The request completes call [id]: it names a pending call of its session, an installed tool and arguments. *)
Definition taken_up (id : string) (env : NativeEnv) (rq : Request) (w : World) : bool :=
  negb (bool_decide (rq_event rq ∈ ["session_start"; "session_end"; "call"])) &&
  bool_decide (rq_call_id rq = Some id) && bool_decide (is_Some (rq_args rq)) &&
  match rq_tool rq with
  | Some name => bool_decide (is_Some (List.find (fun t => bool_decide (tl_name t = name)) (rg_tools (nt_registry native))))
  | None => false
  end &&
  match BMap.get (rq_session_id rq) (w_sessions (expire env w)) with
  | Some s => bool_decide (is_Some (BMap.get id (ss_calls s)))
  | None => false
  end.

(** What a request did with call [id]: it was admitted under a binding, or completed, or a completion failed. *)
Inductive Deed :=
| Issued (binding : string)
| Completed (event binding : string) (for_model : bool)
| Failed (event : string).

Definition deed (id : string) (env : NativeEnv) (rq : Request) (w : World) (res : result Response string) : option Deed :=
  match answered id rq res with
  | Some (ev, b) =>
      let b := default EmptyString b in
      Some (if bool_decide (ev = "call") then Issued b else Completed ev b (held rq res))
  | None => if taken_up id env rq w then Some (Failed (rq_event rq)) else None
  end.

(** What a run did with call [id]. *)
Fixpoint call_trace (id : string) (rs : list NativeReq) (w : World) : list Deed :=
  match rs with
  | [] => []
  | r :: rs' => option_list (deed id (nr_env r) (nr_request r) w (step (nr_env r) (nr_request r) w).1)
                ++ call_trace id rs' (native_step w r)
  end.

(** The call, then one completion, which spends it whether it succeeds or not; only a result released for the model leaves
    one more completion, of its context. *)
Inductive after_result (b : string) : list Deed -> Prop :=
| ar_none : after_result b []
| ar_context : after_result b [Completed "context" b false]
| ar_failed (event : string) : after_result b [Failed event].
Inductive after_call (b : string) : list Deed -> Prop :=
| ac_none : after_call b []
| ac_failed (event : string) : after_call b [Failed event]
| ac_result : after_call b [Completed "result" b false]
| ac_model (tr : list Deed) : after_result b tr -> after_call b (Completed "result" b true :: tr).

(** A completion that is taken up and fails: the call is gone. *)
Lemma taken_spent (id : string) (env : NativeEnv) (rq : Request) (w w' : World) (res : result Response string)
    (o : option (Stage * string)) :
  sessions_ok (w_sessions w) -> at_most w id o -> step env rq w = (res, w') -> taken_up id env rq w = true ->
  answered id rq res = None -> at_most w' id None /\ is_Some o.
Proof.
  intros Hok0 Hm Hstep Ht Hans. unfold taken_up in Ht. rewrite !andb_true_iff in Ht. destruct Ht as ((((Hev & Hid) & Ha) & Hto) & Hs).
  apply negb_true_iff, bool_decide_eq_false_1 in Hev. rewrite !not_elem_of_cons in Hev. destruct Hev as (Hv1 & Hv2 & Hv3 & _).
  apply bool_decide_eq_true_1 in Hid, Ha. destruct Ha as [args Ha]. destruct (rq_tool rq) as [name|] eqn:Hname; [|done].
  apply bool_decide_eq_true_1 in Hto as [tool Htool].
  assert (at_most (expire env w) id o) as [Ho Hu].
  { eapply at_most_sub; [|exact Hm]. intros sid c. by apply found_expire. }
  pose proof (expire_ok env w Hok0) as Hok. unfold native_inspect in Hstep. set (w0 := expire env w) in *. clearbody w0.
  destruct (BMap.get (rq_session_id rq) (w_sessions w0)) as [s|] eqn:Hg; [|done]. apply bool_decide_eq_true_1 in Hs as [call Hc].
  rewrite !bool_decide_false, Hname, Htool, Ha, Hid in Hstep by done. cbn [ss_calls] in Hstep.
  rewrite Hc in Hstep. fold (touch env s) in Hstep.
  assert (Hf : found w0 id (rq_session_id rq) call) by (by exists s).
  split; [|rewrite (Ho _ _ Hf); eauto].
  assert (Hno : forall sid c, ~ found w' id sid c); [|split; intros * Hx; by destruct (Hno _ _ Hx)].
  intros sid c Hx. destruct (sessions_ok_get _ _ _ Hok Hg) as (Hw & _).
  set (s1 := set_calls (BMap.remove id (ss_calls s)) (touch env s)) in *.
  pose proof (completion_found _ _ _ _ _ _ _ _ _ _ _ id sid c (put_get _ s1 _) (BMap.bmap_remove_wf id _ Hw) Hstep Hx)
    as [Hx'|(_ & _ & Hr & _)].
  - rewrite found_put in Hx'. destruct Hx' as [[-> Hx']|[Hne Hx']].
    + cbn [s1 ss_calls set_calls] in Hx'. by rewrite BMap.bmap_get_remove_eq in Hx'.
    + apply touch_found in Hx'; [|done]. by apply Hne, (Hu _ _ _ _ Hx' Hf).
  - destruct res as [r|]; [|done]. apply completion_answer in Hstep as (Hid' & _). cbn in Hans.
    by rewrite Hid', bool_decide_true in Hans.
Qed.

(** One step of the life cycle, by what was done. *)
Lemma step_deed (env : NativeEnv) (rq : Request) (w w' : World) (res : result Response string) (id : string)
    (o : option (Stage * string)) :
  sessions_ok (w_sessions w) -> at_most w id o -> step env rq w = (res, w') ->
  ne_call_id env <> id -> valid_event rq ->
  match deed id env rq w res with
  | None => at_most w' id o
  | Some (Failed _) => at_most w' id None /\ is_Some o
  | Some (Completed ev b m) =>
      (o = Some (StResult, b) /\ ev = "result" /\ at_most w' id (if m then Some (StContext, b) else None)) \/
      (o = Some (StContext, b) /\ ev = "context" /\ m = false /\ at_most w' id None)
  | Some (Issued _) => False
  end.
Proof.
  intros Hok Hm Hs Hne Hval. pose proof (step_cycle _ _ _ _ _ _ _ Hok Hm Hs Hne) as Hc. unfold deed.
  destruct (answered id rq res) as [[ev b]|] eqn:Hans.
  - destruct Hc as (st & b' & -> & -> & [(-> & -> & Hm')|(-> & Hev & Hm')]).
    + rewrite bool_decide_false by done. by left.
    + rewrite (Hev Hval), bool_decide_false by done. right. split_and!; [done..| |done].
      assert (rq_event rq = ev) as He by (by unfold answered in Hans; destruct res; [case_bool_decide|]; simplify_eq).
      unfold held. rewrite He, (Hev Hval). by rewrite bool_decide_false.
  - destruct (taken_up id env rq w) eqn:Ht; [by eapply taken_spent|done].
Qed.

Lemma trace_remaining (id : string) (rs : list NativeReq) (w : World) (o : option (Stage * string)) :
  sessions_ok (w_sessions w) -> at_most w id o ->
  Forall (fun r => ne_call_id (nr_env r) <> id /\ valid_event (nr_request r)) rs ->
  match o with
  | None => call_trace id rs w = []
  | Some (StContext, b) => after_result b (call_trace id rs w)
  | Some (StResult, b) => after_call b (call_trace id rs w)
  end.
Proof.
  intros Hok Hm HF. revert w o Hok Hm. induction HF as [|r rs [Hne Hval] HF IH]; intros w o Hok Hm.
  { destruct o as [[[] b]|]; constructor. }
  cbn [call_trace]. pose proof (step_ok (nr_env r) (nr_request r) w Hok) as Hok'.
  unfold native_step. destruct (step (nr_env r) (nr_request r) w) as [res w'] eqn:Hs. cbn [fst snd] in *.
  pose proof (step_deed _ _ _ _ _ _ _ Hok Hm Hs Hne Hval) as Hc.
  destruct (deed id (nr_env r) (nr_request r) w res) as [[b|ev b m|ev]|]; [done| | |by apply IH]; cbn [option_list app].
  - destruct Hc as [(-> & -> & Hm')|(-> & -> & -> & Hm')]; pose proof (IH _ _ Hok' Hm') as Hr.
    + destruct m; [by constructor|]. rewrite Hr. constructor.
    + rewrite Hr. constructor.
  - destruct Hc as [Hm' [[st b] ->]]. rewrite (IH _ _ Hok' Hm'). destruct st; constructor.
Qed.

(** C37. A call is admitted once and completed once, in that order and under one binding.  However requests are
    interleaved across sessions, when the issued identifiers do not repeat, what concerns one identifier is a
    beginning of: its call; one completion that is taken up, which spends the call whether it succeeds or fails; and,
    only after a result that was released for the model, one completion of its context. All that succeed report the
    same binding. *)
Theorem call_lifecycle (id : string) (rs : list NativeReq) (w : World) :
  w_sessions w = [] -> NoDup ((fun r => ne_call_id (nr_env r)) <$> rs) ->
  Forall (fun r => valid_event (nr_request r)) rs ->
  call_trace id rs w = [] \/
  exists b tr, call_trace id rs w = Issued b :: tr /\ after_call b tr.
Proof.
  intros Hw Hnd HF. assert (sessions_ok (w_sessions w)) as Hok by (rewrite Hw; apply sessions_ok_nil).
  assert (at_most w id None) as Hm.
  { split; intros * (s & Hs & _); by rewrite Hw in Hs. }
  clear Hw. revert w Hok Hm. induction rs as [|r rs IH]; intros w Hok Hm.
  { by left. }
  cbn in Hnd. apply NoDup_cons in Hnd as [Hnin Hnd]. apply Forall_cons in HF as [Hval HF].
  cbn [call_trace]. pose proof (step_ok (nr_env r) (nr_request r) w Hok) as Hok'.
  unfold native_step. destruct (step (nr_env r) (nr_request r) w) as [res w'] eqn:Hs. cbn [fst snd] in *.
  destruct (decide (ne_call_id (nr_env r) = id)) as [<-|Hne].
  - pose proof (step_birth _ _ _ _ _ Hok Hm Hs) as Hb. cbn zeta in Hb. unfold deed.
    destruct (answered _ (nr_request r) res) as [[ev b]|] eqn:Hans.
    2: { destruct (taken_up _ _ _ _) eqn:Ht; [|by apply IH]. by destruct (taken_spent _ _ _ _ _ _ _ Hok Hm Hs Ht Hans) as [_ [??]]. }
    destruct Hb as (b' & -> & -> & Hm'). right. exists b'. eexists. split; [reflexivity|].
    apply (trace_remaining _ _ _ (Some (StResult, b')) Hok' Hm').
    rewrite Forall_forall in HF |- *. intros r' Hr'. split; [|by apply HF].
    intros Heq. apply Hnin. rewrite <- Heq. apply list_elem_of_fmap. by exists r'.
  - pose proof (step_deed _ _ _ _ _ _ _ Hok Hm Hs Hne Hval) as Hc.
    destruct (deed id _ (nr_request r) w res) as [[b|ev b m|ev]|]; [done| |by destruct Hc as [_ [??]]|by apply IH].
    by destruct Hc as [([=] & _)|([=] & _)].
Qed.

(** *** Resource authorization *)

(** Authorization is by the operator's selectors, not by the caller's claims.  An
    authorized call names, as its evidence, exactly the resources that the policy's
    selectors denote in the actual arguments, all of them are on the operator's list, and
    the evidence was bound to the policy's profile, executor and classifier revisions. *)
Theorem authorize_sound (policy : Policy) (tool : Tool) (registry_sha256 : string) (args : Value) (a : Admission) :
  authorize host_os url_parse sha256_hex json_to_string policy tool registry_sha256 args a = Ok tt ->
  let ex := mkExecutor host_os (po_workspace policy) (po_cwd policy) true in
  (forall e, e ∈ ad_resources a <->
     exists s v rs, s ∈ rp_selectors (po_profile policy) /\ denotes args s (re_pointer e) v (re_source e) /\
       resources host_os url_parse v s ex = Ok rs /\ re_resource e ∈ rs) /\
  (forall s p v src rs r, s ∈ rp_selectors (po_profile policy) -> denotes args s p v src ->
     resources host_os url_parse v s ex = Ok rs -> r ∈ rs -> r ∈ po_allowed_resources policy) /\
  ad_profile_sha256 a = canonical_digest sha256_hex json_to_string (profile_value (po_profile policy)) /\
  ad_executor_sha256 a = po_executor_sha256 policy /\ ad_classifier_sha256 a = po_classifier_sha256 policy.
Proof.
  intros Ha ex. unfold authorize in Ha. fold ex in Ha. ok_inv Ha.
  apply orb_false_elim in G0 as [Hc Hr]. apply negb_false_iff in Hc, Hr. apply bool_decide_eq_true_1 in Hr.
  destruct (extract_exact host_os url_parse sha256_hex json_to_string args ex
    (authorize_invocation tool registry_sha256 args a) (po_profile policy) eq_refl Hc) as (He & _ & _).
  rewrite Hr in He. boolp. split_and!; [done| |done|done|done].
  intros s p v src rs r Hs Hd Hrs Hin.
  assert (mkEvidence p src r ∈ ad_resources a) as Hev by (apply He; eauto 10).
  destruct (decide (r ∈ po_allowed_resources policy)) as [|Hn]; [done|exfalso].
  rewrite Hr in G1. apply not_true_iff_false in G1. apply G1, existsb_exists.
  exists (mkEvidence p src r). split; [by apply list_elem_of_In|]. cbn. by rewrite bool_decide_false.
Qed.

(** *** Bindings *)

(** A text whose length fits the eight bytes written before it. *)
Definition sized (f : string) : Prop := in_u64 (Z.of_nat (Str.len f)).

(** No field of a binding can impersonate part of another: equal inputs of the digest come
    from the same registry, session, tool, schema, arguments and resource context. *)
Theorem binding_input_injective (g g' e e' t t' s s' : string) (a a' : Value) (ad ad' : option Admission) :
  Forall sized [g; e; t; s; json_to_string (canonical a)] ->
  Forall sized [g'; e'; t'; s'; json_to_string (canonical a')] ->
  (forall x, ad = Some x -> sized (json_to_string (canonical (admission_value x)))) ->
  (forall x, ad' = Some x -> sized (json_to_string (canonical (admission_value x)))) ->
  binding_input json_to_string g e t s a ad = binding_input json_to_string g' e' t' s' a' ad' ->
  g = g' /\ e = e' /\ t = t' /\ s = s' /\
  json_to_string (canonical a) = json_to_string (canonical a') /\
  (fun x => json_to_string (canonical (admission_value x))) <$> ad
    = (fun x => json_to_string (canonical (admission_value x))) <$> ad'.
Proof.
  intros Hf Hf' Had Had' Heq. rewrite !Forall_cons in Hf, Hf'. destruct_and!. unfold sized in *.
  unfold binding_input in Heq. apply Str.app_inv_head in Heq. apply Str.app_inv_head in Heq.
  apply prefixed_inj in Heq as [<- Heq]; [|done..]. apply prefixed_inj in Heq as [<- Heq]; [|done..].
  apply prefixed_inj in Heq as [<- Heq]; [|done..]. apply prefixed_inj in Heq as [<- Heq]; [|done..].
  apply prefixed_inj in Heq as [<- Heq]; [|done..]. split_and!; [done..|].
  destruct ad as [x|], ad' as [y|]; [|done..]. cbn. f_equal.
  apply Str.app_inv_head in Heq. apply Str.app_inv_head in Heq.
  rewrite <- (Str.app_nil_r (prefixed _)), <- (Str.app_nil_r (prefixed (json_to_string (canonical (admission_value y))))) in Heq.
  apply prefixed_inj in Heq as [? _]; [done|by apply Had|by apply Had'].
Qed.
End native_facts.

(** ** Witnesses *)

Definition demo_registry : Registry := mkRegistry CONTRACT "reg"
  [mkTool "fetch" demo_digest ReadOnly RpUntrusted [] None;
   mkTool "shell" demo_digest SideEffecting RpLocalSystem [] None].
Definition demo_native : NativeConfig := mkNativeConfig demo_registry demo_digest "tok".
Definition demo_nenv (n : Z) (call_id : string) : NativeEnv :=
  mkNativeEnv n (fun _ => 0%Z) 0 "e" call_id true.
Abbreviation demo_step :=
  (@native_inspect ascii_tables demo_engine demo_iter demo_fs "linux" (fun _ => None) (fun s => s) (fun _ => "{}")
    (fun _ => None) (fun _ => None) demo_native).
Definition demo_world : World := mkWorld [] (demo_new 10) (span_cache_new 4 100) [].

Definition demo_start : Request :=
  mkRequest CONTRACT demo_digest "s" "session_start" None None None None None None None None.
Definition demo_native_call (tool : string) (args : Value) : Request :=
  mkRequest CONTRACT demo_digest "s" "call" (Some tool) (Some args) (Some demo_digest) None None None None None.
Definition demo_native_result (id tool : string) (args : Value) (content delivery : string) : Request :=
  mkRequest CONTRACT demo_digest "s" "result" (Some tool) (Some args) None (Some id) (Some content) (Some "value")
    (Some delivery) None.
Definition demo_fetch_args : Value := JObject [("q", JString "news")].
Definition demo_shell_args : Value := JObject [("cmd", JString "rm -rf ~ # http://A.example/x")].

(** A session opens, a page is fetched and given to the parent. *)
Definition demo_requests : list NativeReq :=
  [mkNativeReq (demo_nenv 1 "c1") demo_start;
   mkNativeReq (demo_nenv 2 "c2") (demo_native_call "fetch" demo_fetch_args);
   mkNativeReq (demo_nenv 3 "c3") (demo_native_result "c2" "fetch" demo_fetch_args "http://a.example/x" "parent")].
Abbreviation demo_after :=
  (@native_run ascii_tables demo_engine demo_iter demo_fs "linux" (fun _ => None) (fun s => s) (fun _ => "{}")
    (fun _ => None) (fun _ => None) demo_native demo_requests demo_world).
Definition demo_native_page : AgentEvent :=
  mkEvent "native:e" "native-runtime" None 4 0 (ToolResult "fetch" "http://a.example/x" (Native "reg" "fetch")).
Definition demo_refusal : Response :=
  mkResponse CONTRACT demo_digest "s" "call" "deny" true false None None None None ["deny-tainted-destructive"].

Lemma demo_refused :
  demo_step (demo_nenv 4 "c4") (demo_native_call "shell" demo_shell_args) demo_after
  = (Ok demo_refusal, (demo_step (demo_nenv 4 "c4") (demo_native_call "shell" demo_shell_args) demo_after).2).
Proof.
  etrans; [apply surjective_pairing|].
  apply (f_equal (fun x => (x, (demo_step (demo_nenv 4 "c4") (demo_native_call "shell" demo_shell_args) demo_after).2))).
  vm_compute. reflexivity.
Defined.

Lemma native_kill_chain_cut_witness :
  rs_release demo_refusal = false /\ rs_verdict demo_refusal = "deny" /\ rs_call_id demo_refusal = None.
Proof.
  apply (@native_kill_chain_cut ascii_tables demo_engine demo_entropy demo_iter demo_fs "linux" (fun _ => None)
    (fun s => s) (fun _ => "{}") (fun _ => None) (fun _ => None) demo_native demo_iter_laws 10 demo_requests demo_world
    (demo_step (demo_nenv 4 "c4") (demo_native_call "shell" demo_shell_args) demo_after).2
    (demo_nenv 4 "c4") (demo_native_call "shell" demo_shell_args) demo_refusal [] [] demo_native_page
    "fetch" "http://a.example/x" (Native "reg" "fetch") "http://a.example/x" "rm -rf ~ # http://A.example/x"
    (mkSession "native:e" 4 3 []) (mkTool "shell" demo_digest SideEffecting RpLocalSystem [] None) demo_shell_args).
  - reflexivity.
  - vm_compute. reflexivity.
  - reflexivity.
  - reflexivity.
  - vm_compute. left.
  - intros e He. by apply elem_of_nil in He.
  - vm_compute. lia.
  - reflexivity.
  - reflexivity.
  - vm_compute. reflexivity.
  - reflexivity.
  - eapply leaf_object; [left|constructor].
  - discriminate.
  - reflexivity.
  - vm_compute. left.
  - vm_compute. reflexivity.
  - reflexivity.
  - exact demo_refused.
Defined.

Lemma native_caps_witness : length (w_sessions demo_after) <= 64.
Proof.
  exact (proj1 (@native_caps ascii_tables demo_engine demo_iter demo_fs "linux" (fun _ => None) (fun s => s)
    (fun _ => "{}") (fun _ => None) (fun _ => None) demo_native demo_requests demo_world eq_refl)).
Defined.

(** The fetched page: admitted as a call, then as a result; a completion for another tool spends the next call. *)
Definition demo_life : list NativeReq :=
  demo_requests ++
  [mkNativeReq (demo_nenv 4 "c4") (demo_native_call "fetch" demo_fetch_args);
   mkNativeReq (demo_nenv 5 "c5") (demo_native_result "c4" "shell" demo_fetch_args "http://a.example/x" "parent");
   mkNativeReq (demo_nenv 6 "c6") (demo_native_result "c4" "fetch" demo_fetch_args "http://a.example/x" "parent")].
Lemma call_lifecycle_witness :
  let trace id := @call_trace ascii_tables demo_engine demo_iter demo_fs "linux" (fun _ => None) (fun s => s) (fun _ => "{}")
    (fun _ => None) (fun _ => None) demo_native id demo_life demo_world in
  length (trace "c2") = 2 /\ (exists b, trace "c4" = [Issued b; Failed "result"]) /\
  (trace "c2" = [] \/ exists b tr, trace "c2" = Issued b :: tr /\ after_call b tr).
Proof.
  cbn zeta. split; [vm_compute; reflexivity|]. split; [eexists; vm_compute; reflexivity|].
  apply (@call_lifecycle ascii_tables demo_engine demo_iter demo_fs "linux" (fun _ => None) (fun s => s)
    (fun _ => "{}") (fun _ => None) (fun _ => None) demo_native "c2" demo_life demo_world).
  - reflexivity.
  - vm_compute. repeat constructor; intros Hin; repeat (apply elem_of_cons in Hin as [?|Hin]; [discriminate|]);
      by apply elem_of_nil in Hin.
  - repeat constructor; vm_compute; auto.
Defined.

Definition demo_before_result : World :=
  @native_run ascii_tables demo_engine demo_iter demo_fs "linux" (fun _ => None) (fun s => s) (fun _ => "{}")
    (fun _ => None) (fun _ => None) demo_native (take 2 demo_requests) demo_world.
Definition demo_result_request : Request :=
  demo_native_result "c2" "fetch" demo_fetch_args "http://a.example/x" "parent".

Lemma native_release_sound_witness :
  match (demo_step (demo_nenv 3 "c3") demo_result_request demo_before_result).1 with
  | Ok r => rs_release r = true | Err _ => False end /\
  exists s tool texts, BMap.get "s" (w_sessions (@expire ascii_tables demo_engine demo_iter (demo_nenv 3 "c3") demo_before_result)) = Some s /\
    @requested (fun s => s) (fun _ => "{}") (fun _ => None) (fun _ => None) demo_native demo_result_request s
      = Some (tool, texts).
Proof.
  split; [vm_compute; reflexivity|].
  destruct (demo_step (demo_nenv 3 "c3") demo_result_request demo_before_result) as [res w'] eqn:E.
  assert (res = (demo_step (demo_nenv 3 "c3") demo_result_request demo_before_result).1) as Hres by (by rewrite E).
  destruct res as [r|e]; [|vm_compute in Hres; discriminate].
  destruct (@native_release_sound ascii_tables demo_engine demo_iter demo_fs "linux" (fun _ => None) (fun s => s)
    (fun _ => "{}") (fun _ => None) (fun _ => None) demo_native (demo_nenv 3 "c3") demo_result_request
    demo_before_result w' r) as (s & tool & texts & Hs & Hr & _).
  - assert (af_policy (w_firewall demo_before_result) = default_policy) as -> by (vm_compute; reflexivity).
    apply default_policy_ok.
  - vm_compute. left.
  - exact E.
  - exists s, tool, texts. split; [exact Hs|exact Hr].
Defined.

Definition demo_policy : Policy :=
  mkPolicy demo_profile "/ws" "/ws" demo_digest demo_digest
    [RPath "/ws/a.txt"; RRecipient "a@b.example" "b.example"; RRecipient "c@d.example" "d.example"].
Definition demo_send : Tool := mkTool "send" demo_digest SideEffecting RpLocalSystem [] (Some demo_policy).
Definition demo_json (v : Value) : string := demo_digest.
Definition demo_admission : Admission :=
  mkAdmission "srv" (JString "1") demo_digest demo_digest demo_digest demo_digest demo_digest demo_digest
    (xt_resources (demo_extract demo_args)).

Lemma authorize_sound_witness :
  @authorize demo_fs "linux" (fun _ => None) (fun s => s) demo_json demo_policy demo_send demo_digest demo_args
    demo_admission = Ok tt /\
  mkEvidence "/file" Argument (RPath "/ws/a.txt") ∈ ad_resources demo_admission.
Proof.
  assert (@authorize demo_fs "linux" (fun _ => None) (fun s => s) demo_json demo_policy demo_send demo_digest demo_args
    demo_admission = Ok tt) as Ha by (vm_compute; reflexivity).
  split; [exact Ha|].
  apply (proj1 (@authorize_sound demo_fs "linux" (fun _ => None) (fun s => s) demo_json demo_policy demo_send
    demo_digest demo_args demo_admission Ha)).
  exists (mkSelector "/file" KPath [] false None false), (JString "a.txt"), [RPath "/ws/a.txt"].
  split_and!; [left|apply denotes_argument; [left|vm_compute; reflexivity]|vm_compute; reflexivity|left].
Defined.

Lemma binding_input_injective_witness :
  "s" = "s" /\ demo_json demo_args = demo_json demo_args.
Proof.
  destruct (binding_input_injective demo_json "r" "r" "e" "e" "t" "t" "s" "s" demo_args demo_args
    (Some demo_admission) (Some demo_admission)) as (_ & _ & _ & Hs & Hj & _).
  - repeat constructor; vm_compute; discriminate.
  - repeat constructor; vm_compute; discriminate.
  - intros x [= <-]. vm_compute. split; discriminate.
  - intros x [= <-]. vm_compute. split; discriminate.
  - reflexivity.
  - by split.
Defined.
