(* ===== verification/McpInput.v ===== *)
(** The bounded input profile of an MCP tool ([crates/agentfw/src/mcp/input.rs]): which
    JSON schemas are understood, which arguments conform to one, and the redacted inventory
    of a host's configuration. *)
From S2P Require Import Prelude BTree F32 Json Net Resources Native.
From Stdlib Require Import String Ascii SpecFloat.
#[local] Abbreviation length := List.length.
#[local] Abbreviation index := Native.index.

Definition MAX_DEPTH : nat := 8.
Definition MAX_ITEMS : nat := 256.
Definition MAX_SCHEMA_NODES : nat := Z.to_nat 1024.
Definition MAX_ARG_NODES : nat := Z.to_nat 4096.
Definition MAX_STRING : nat := Z.to_nat (16 * 1024).

(** [InputSchema(Shape)] *)
Unset Elimination Schemes.
Inductive InputSchema :=
| SObject (fields : list (string * InputSchema)) (required : list string)
| SArray (items : InputSchema)
| SString
| SInteger
| SNumber
| SBoolean
| SNull.
Set Elimination Schemes.

(** ** Reading a schema *)

Definition supported_key (kind key : string) : bool :=
  bool_decide (key ∈ ["type"; "title"; "description"; "default"])
  || (bool_decide (kind = "object") && bool_decide (key ∈ ["properties"; "required"; "additionalProperties"]))
  || (bool_decide (kind = "array") && bool_decide (key = "items")).

(** The required names: each declared, none twice. *)
Fixpoint read_required (fields : list (string * InputSchema)) (names : list Value) (required : BSet.t string) :
    option (BSet.t string) :=
  match names with
  | [] => Some required
  | v :: names' =>
      name ← as_str v;
      if BMap.contains_key name fields && negb (BSet.contains name required)
      then read_required fields names' (BSet.insert name required) else None
  end.

(** One node of a schema.  The depth check is the recursion's measure: [fuel] is how many
    levels are left, counting this one. *)
Fixpoint node (fuel : nat) (value : Value) (nodes : nat) : option (InputSchema * nat) :=
  let nodes := S nodes in
  match fuel with
  | O => None
  | S fuel' =>
      if MAX_SCHEMA_NODES <? nodes then None
      else
        map ← as_object value;
        kind ← as_str (index value "type");
        if negb (forallb (fun kv => supported_key kind kv.1) map) then None
        else if existsb (fun key => match BMap.get key map with Some v => negb (is_string v) | None => false end)
                  ["title"; "description"] then None
        else if bool_decide (kind = "object") then
          if negb (bool_decide (index value "additionalProperties" = JBool false)) then None
          else
            properties ← as_object (index value "properties");
            if MAX_ITEMS <? length properties then None
            else
              '(fields, nodes) ←
                (fix go (ps : list (string * Value)) (nodes : nat) (fields : BMap.t string InputSchema) :=
                   match ps with
                   | [] => Some (fields, nodes)
                   | (name, schema) :: ps' =>
                       '(s, nodes) ← node fuel' schema nodes;
                       go ps' nodes (BMap.insert name s fields)
                   end) properties nodes [];
              required ← match BMap.get "required" map with
                | Some v => names ← as_array v; read_required fields names []
                | None => Some []
                end;
              Some (SObject fields required, nodes)
        else if bool_decide (kind = "array") then
          items ← value_get "items" value;
          '(s, nodes) ← node fuel' items nodes;
          Some (SArray s, nodes)
        else if bool_decide (kind = "string") then Some (SString, nodes)
        else if bool_decide (kind = "integer") then Some (SInteger, nodes)
        else if bool_decide (kind = "number") then Some (SNumber, nodes)
        else if bool_decide (kind = "boolean") then Some (SBoolean, nodes)
        else if bool_decide (kind = "null") then Some (SNull, nodes)
        else None
  end.

Definition read (value : Value) : option InputSchema :=
  if negb (bool_decide (index value "type" = JString "object")) then None
  else fst <$> node (S MAX_DEPTH) value 0.

(** ** Checking arguments *)

(** [value.as_f64().is_some_and(f64::is_finite)] *)
Definition is_finite_number (v : Value) : bool :=
  match v with
  | JNumber (Float (S754_infinity _)) | JNumber (Float S754_nan) => false
  | JNumber _ => true
  | _ => false
  end.

(** Returns the number of nodes seen, or nothing when the arguments do not conform. *)
Fixpoint check_input (value : Value) (schema : InputSchema) (depth nodes : nat) {struct value} : option nat :=
  let nodes := S nodes in
  if negb ((depth <=? MAX_DEPTH) && (nodes <=? MAX_ARG_NODES)) then None
  else
    match schema with
    | SObject fields required =>
        match value with
        | JObject args =>
            if negb (forallb (fun key => BMap.contains_key key args) required) then None
            else if MAX_ITEMS <? length args then None
            else
              (fix go (args : list (string * Value)) (nodes : nat) : option nat :=
                 match args with
                 | [] => Some nodes
                 | (key, v) :: args' =>
                     match BMap.get key fields with
                     | None => None
                     | Some s => match check_input v s (S depth) nodes with
                                 | None => None | Some nodes => go args' nodes end
                     end
                 end) args nodes
        | _ => None
        end
    | SArray items =>
        match value with
        | JArray args =>
            if MAX_ITEMS <? length args then None
            else
              (fix go (args : list Value) (nodes : nat) : option nat :=
                 match args with
                 | [] => Some nodes
                 | v :: args' => match check_input v items (S depth) nodes with
                                 | None => None | Some nodes => go args' nodes end
                 end) args nodes
        | _ => None
        end
    | SString => if match value with JString s => Str.len s <=? MAX_STRING | _ => false end then Some nodes else None
    | SInteger => if is_i64 value || is_u64 value then Some nodes else None
    | SNumber => if is_finite_number value then Some nodes else None
    | SBoolean => if is_boolean value then Some nodes else None
    | SNull => if is_null value then Some nodes else None
    end.

Definition validate_input (schema : InputSchema) (value : Value) : bool :=
  bool_decide (is_Some (check_input value schema 0 0)).

(** ** A host's configuration *)

Record HostServerSummary := mkSummary {
  hs_name : string;
  hs_transport : string;
  hs_supported : bool;
  hs_requires_explicit_selection : bool
}.

(** A server the host starts itself over standard input and output. *)
Definition is_local_server (map : list (string * Value)) : bool :=
  match BMap.get "type" map with Some kind => bool_decide (kind = JString "stdio") | None => true end
  && negb (BMap.contains_key "url" map)
  && match BMap.get "command" map ≫= as_str with Some s => negb (Str.is_empty s) | None => false end
  && match BMap.get "args" map with
     | Some args => match as_array args with Some a => forallb is_string a | None => false end
     | None => true
     end.

Definition summarize_server (server : string * Value) : option HostServerSummary :=
  let '(name, entry) := server in
  if Str.is_empty name || (128 <? Str.len name) || has_control name then None
  else
    map ← as_object entry;
    let local := is_local_server map in
    Some (mkSummary name (if local then "stdio" else "unsupported") local true).

(** [strict_json] is the parser that refuses repeated members. *)
Definition inspect_host_config (strict_json : string -> option Value) (bytes : string) :
    option (list HostServerSummary) :=
  if Z.to_nat (1024 * 1024) <? Str.len bytes then None
  else
    value ← strict_json bytes;
    servers ← value_get "mcpServers" value ≫= as_object;
    if MAX_ITEMS <? length servers then None else mapM summarize_server servers.

(** ** Properties *)

(** The values a schema describes. *)
Unset Elimination Schemes.
Inductive conforms : InputSchema -> Value -> Prop :=
| cf_object fields required args :
    (forall key, key ∈ required -> BMap.contains_key key args = true) -> length args <= MAX_ITEMS ->
    Forall (fun kv => exists s, BMap.get kv.1 fields = Some s /\ conforms s kv.2) args ->
    conforms (SObject fields required) (JObject args)
| cf_array items args :
    length args <= MAX_ITEMS -> Forall (conforms items) args -> conforms (SArray items) (JArray args)
| cf_string s : Str.len s <= MAX_STRING -> conforms SString (JString s)
| cf_integer v : is_i64 v || is_u64 v = true -> conforms SInteger v
| cf_number v : is_finite_number v = true -> conforms SNumber v
| cf_boolean b : conforms SBoolean (JBool b)
| cf_null : conforms SNull JNull.
Set Elimination Schemes.

(** The nodes of a value, and the levels below its root. *)
Fixpoint value_nodes (v : Value) : nat :=
  match v with
  | JArray l => S ((fix go l := match l with [] => 0 | x :: l' => value_nodes x + go l' end) l)
  | JObject m => S ((fix go m := match m with [] => 0 | (_, x) :: m' => value_nodes x + go m' end) m)
  | _ => 1
  end.
Fixpoint value_height (v : Value) : nat :=
  match v with
  | JArray l => (fix go l := match l with [] => 0 | x :: l' => max (S (value_height x)) (go l') end) l
  | JObject m => (fix go m := match m with [] => 0 | (_, x) :: m' => max (S (value_height x)) (go m') end) m
  | _ => 0
  end.

(** What [check_input] accepts from a given depth and count. *)
Definition accepts (s : InputSchema) (v : Value) (depth nodes n : nat) : Prop :=
  conforms s v /\ depth + value_height v <= MAX_DEPTH /\ nodes + value_nodes v <= MAX_ARG_NODES /\
  n = nodes + value_nodes v.

Lemma guard_spec (depth nodes : nat) :
  negb ((depth <=? MAX_DEPTH) && (S nodes <=? MAX_ARG_NODES)) = false <->
  depth <= MAX_DEPTH /\ S nodes <= MAX_ARG_NODES.
Proof. rewrite negb_false_iff, andb_true_iff, !Nat.leb_le. done. Qed.

(** A value without parts. *)
Lemma check_leaf (v : Value) (s : InputSchema) (depth nodes n : nat) (b : bool) :
  value_nodes v = 1 -> value_height v = 0 -> (conforms s v <-> b = true) ->
  (if negb ((depth <=? MAX_DEPTH) && (S nodes <=? MAX_ARG_NODES)) then None
   else if b then Some (S nodes) else None) = Some n <-> accepts s v depth nodes n.
Proof.
  intros Hn Hh Hb. unfold accepts. rewrite Hn, Hh, Hb.
  destruct (negb _) eqn:G.
  - split; [done|]. intros (_ & Hd & Hm & _). exfalso. apply not_false_iff_true in G. apply G, guard_spec. lia.
  - apply guard_spec in G. destruct b; [|naive_solver]. split; [intros [= <-]; split_and!; [done|lia..]|].
    intros (_ & _ & _ & ->). f_equal. lia.
Qed.

(** The loop over the parts of a container; [val] and [sch] are a part's value and schema. *)
Fixpoint walk {A} (val : A -> Value) (sch : A -> option InputSchema) (depth : nat) (l : list A) (nodes : nat) :
    option nat :=
  match l with
  | [] => Some nodes
  | x :: l' => s ← sch x; nodes ← check_input (val x) s depth nodes; walk val sch depth l' nodes
  end.

Lemma input_walk_spec {A} (val : A -> Value) (sch : A -> option InputSchema) (depth : nat) (l : list A) :
  Forall (fun x => forall s d nodes n, check_input (val x) s d nodes = Some n <-> accepts s (val x) d nodes n) l ->
  forall nodes n, nodes <= MAX_ARG_NODES ->
  walk val sch depth l nodes = Some n <->
  Forall (fun x => exists s, sch x = Some s /\ conforms s (val x)) l /\
  Forall (fun x => depth + value_height (val x) <= MAX_DEPTH) l /\
  nodes + sum_list ((fun x => value_nodes (val x)) <$> l) <= MAX_ARG_NODES /\
  n = nodes + sum_list ((fun x => value_nodes (val x)) <$> l).
Proof.
  induction 1 as [|x l Hx HF IH]; intros nodes n Hn; cbn [walk].
  - cbn. rewrite !Nat.add_0_r. split; [intros [= ->]; by split_and!; [constructor|constructor| |]|].
    by intros (_ & _ & _ & ->).
  - csimpl. rewrite !Forall_cons. destruct (sch x) as [s|] eqn:Hs; cbn [mbind option_bind].
    2:{ split; [done|]. naive_solver. }
    destruct (check_input (val x) s depth nodes) as [n1|] eqn:Hc; cbn [mbind option_bind].
    + apply Hx in Hc as (Hcf & Hh & Hle & ->). rewrite IH by done. split.
      * intros (? & ? & ? & ->). split_and!; eauto; lia.
      * intros ([_ ?] & [_ ?] & ? & ->). split_and!; eauto; lia.
    + split; [done|]. intros ([(s' & Hs' & Hcf) _] & [Hh _] & Hle & _). exfalso.
      assert (s' = s) as -> by congruence.
      assert (check_input (val x) s depth nodes = Some (nodes + value_nodes (val x))) as Hc'; [|congruence].
      apply Hx. split_and!; [done|done|lia|done].
Qed.

Lemma value_nodes_array (l : list Value) : value_nodes (JArray l) = S (sum_list (value_nodes <$> l)).
Proof. cbn. f_equal. induction l as [|x l IH]; [done|]. csimpl. by rewrite IH. Qed.
Lemma value_nodes_object (m : list (string * Value)) :
  value_nodes (JObject m) = S (sum_list ((fun kv => value_nodes kv.2) <$> m)).
Proof. cbn. f_equal. induction m as [|[k x] l IH]; [done|]. csimpl. by rewrite IH. Qed.

Lemma value_height_array (l : list Value) (d : nat) :
  d + value_height (JArray l) <= MAX_DEPTH <->
  d <= MAX_DEPTH /\ Forall (fun x => S d + value_height x <= MAX_DEPTH) l.
Proof.
  cbn. induction l as [|x l IH].
  - split; [intros; split; [lia|constructor]|lia].
  - rewrite Forall_cons. destruct IH as [IH1 IH2]. split.
    + intros Hle. destruct IH1 as [? ?]; [lia|]. split_and!; [lia|lia|done].
    + intros (? & ? & HF). specialize (IH2 (conj H HF)). lia.
Qed.
Lemma value_height_object (m : list (string * Value)) (d : nat) :
  d + value_height (JObject m) <= MAX_DEPTH <->
  d <= MAX_DEPTH /\ Forall (fun kv => S d + value_height kv.2 <= MAX_DEPTH) m.
Proof.
  cbn. induction m as [|[k x] l IH].
  - split; [intros; split; [lia|constructor]|lia].
  - rewrite Forall_cons. cbn [snd]. destruct IH as [IH1 IH2]. split.
    + intros Hle. destruct IH1 as [? ?]; [lia|]. split_and!; [lia|lia|done].
    + intros (? & ? & HF). specialize (IH2 (conj H HF)). lia.
Qed.

(** A container: the guard, its own condition [extra], then the walk over its parts. *)
Lemma container_spec {A} (val : A -> Value) (sch : A -> option InputSchema) (l : list A) (s : InputSchema) (v : Value)
    (depth nodes n : nat) (refused : bool) :
  Forall (fun x => forall s d nodes n, check_input (val x) s d nodes = Some n <-> accepts s (val x) d nodes n) l ->
  value_nodes v = S (sum_list ((fun x => value_nodes (val x)) <$> l)) ->
  (depth + value_height v <= MAX_DEPTH <->
     depth <= MAX_DEPTH /\ Forall (fun x => S depth + value_height (val x) <= MAX_DEPTH) l) ->
  (conforms s v <-> refused = false /\ Forall (fun x => exists s, sch x = Some s /\ conforms s (val x)) l) ->
  (if negb ((depth <=? MAX_DEPTH) && (S nodes <=? MAX_ARG_NODES)) then None
   else if refused then None else walk val sch (S depth) l (S nodes)) = Some n <-> accepts s v depth nodes n.
Proof.
  intros HF Hn Hh Hc. unfold accepts. rewrite Hn, Hh, Hc. destruct (negb _) eqn:G.
  - split; [done|]. intros (_ & [Hd _] & Hm & _). exfalso. apply not_false_iff_true in G. apply G, guard_spec. lia.
  - apply guard_spec in G. destruct refused; [naive_solver|]. rewrite input_walk_spec by (done || lia). split.
    + intros (? & ? & ? & ->). split_and!; [done|done|lia|done|lia|lia].
    + intros ((_ & ?) & (_ & ?) & ? & ->). split_and!; [done|done|lia|lia].
Qed.

Lemma check_input_spec (v : Value) : forall s depth nodes n,
  check_input v s depth nodes = Some n <-> accepts s v depth nodes n.
Proof.
  induction v as [|b|m|t|l IH|m IH] using Value_ind'; intros s depth nodes n.
  1-4: destruct s; cbn [check_input];
    try (apply (check_leaf _ _ _ _ _ false); [done..|split; [by inversion 1|done]]);
    try (apply check_leaf; [done..|]; split; first [by inversion 1|by constructor]).
  - apply check_leaf; [done..|]. rewrite Nat.leb_le. split; [by inversion 1|by constructor].
  - destruct s as [fields required|items| | | | |].
    2: { assert (check_input (JArray l) (SArray items) depth nodes =
        if negb ((depth <=? MAX_DEPTH) && (S nodes <=? MAX_ARG_NODES)) then None
        else if MAX_ITEMS <? length l then None else walk id (fun _ => Some items) (S depth) l (S nodes)) as ->.
      { cbn [check_input]. do 2 (destruct (_ : bool); [done|]). generalize (S nodes) as k.
        clear. induction l as [|x l IH]; intros k; [done|]. cbn [walk id mbind option_bind].
        destruct (check_input x items (S depth) k); [apply IH|done]. }
      apply container_spec; [done|..].
      - rewrite value_nodes_array. done.
      - apply value_height_array.
      - rewrite Nat.ltb_ge. split; [inversion 1; split; [done|]|intros [? HF]; constructor; [done|]];
          (eapply Forall_impl; [eassumption|]); cbn; naive_solver. }
    all: unfold accepts; cbn [check_input]; destruct (negb _); (split; [done|intros [Hc _]; inversion Hc; done]).
  - destruct s as [fields required|items| | | | |].
    1: { assert (check_input (JObject m) (SObject fields required) depth nodes =
        if negb ((depth <=? MAX_DEPTH) && (S nodes <=? MAX_ARG_NODES)) then None
        else if negb (forallb (fun key => BMap.contains_key key m) required) then None
        else if MAX_ITEMS <? length m then None
        else walk snd (fun kv => BMap.get kv.1 fields) (S depth) m (S nodes)) as ->.
      { cbn [check_input]. do 3 (destruct (_ : bool); [done|]). generalize (S nodes) as k.
        clear. induction m as [|[key x] l IH]; intros k; [done|]. cbn [walk fst snd mbind option_bind].
        destruct (BMap.get key fields) as [s|]; [|done]. cbn [mbind option_bind].
        destruct (check_input x s (S depth) k); [apply IH|done]. }
      assert (forall (a b : bool) (x : option nat), (if a then None else if b then None else x) = if a || b then None else x)
        as Hor by (by intros [] []).
      rewrite (Hor (negb (forallb _ _))). apply container_spec; [done|by rewrite value_nodes_object|apply value_height_object|].
      rewrite orb_false_iff, negb_false_iff, forallb_forall, Nat.ltb_ge. split.
      - inversion 1; subst. split_and!; [|done|done]. intros key Hk%list_elem_of_In. auto.
      - intros ((Hr & Hl) & HF). constructor; [|done|done]. intros key Hk%list_elem_of_In. auto. }
    all: unfold accepts; cbn [check_input]; destruct (negb _); (split; [done|intros [Hc _]; inversion Hc; done]).
Qed.

(** C39. The argument check is a type system.  It accepts exactly the values that conform
    to the schema, a closed object having no member that is not declared and every required
    one, and that have at most 8 levels below the root and 4096 nodes. *)
Theorem validate_input_spec (schema : InputSchema) (value : Value) :
  validate_input schema value = true <->
  conforms schema value /\ value_height value <= MAX_DEPTH /\ value_nodes value <= MAX_ARG_NODES.
Proof.
  unfold validate_input. rewrite bool_decide_eq_true. split.
  - intros [n (Hc & Hh & Hn & _)%check_input_spec]. done.
  - intros (Hc & Hh & Hn). exists (value_nodes value). by apply check_input_spec.
Qed.

(** *** What reading a schema guarantees *)

(** A schema with [fuel] levels: maps are maps, required names are declared. *)
Fixpoint good (fuel : nat) (s : InputSchema) : Prop :=
  match fuel with
  | O => False
  | S f =>
      match s with
      | SObject fields required =>
          BMap.wf fields /\ length fields <= MAX_ITEMS /\
          (forall key, key ∈ required -> BMap.contains_key key fields = true) /\
          Forall (fun kv => good f kv.2) fields
      | SArray items => good f items
      | _ => True
      end
  end.

(** A smallest value with every member supplied. *)
Fixpoint fill (fuel : nat) (s : InputSchema) : Value :=
  match fuel with
  | O => JNull
  | S f =>
      match s with
      | SObject fields _ => JObject ((fun kv => (kv.1, fill f kv.2)) <$> fields)
      | SArray _ => JArray []
      | SString => JString EmptyString
      | SInteger | SNumber => JNumber (PosInt 0)
      | SBoolean => JBool false
      | SNull => JNull
      end
  end.

Lemma fill_conforms (fuel : nat) (s : InputSchema) :
  good fuel s -> conforms s (fill fuel s) /\ S (value_height (fill fuel s)) <= fuel.
Proof.
  revert s. induction fuel as [|f IH]; intros s; [done|]. destruct s as [fields required|items| | | | |]; cbn [good fill].
  2-7: intros _; split; [|cbn; lia]; by constructor; cbn; try lia.
  intros (Hwf & Hlen & Hreq & HF). split.
  - constructor.
    + intros key Hk. apply Hreq, BMap.bmap_contains_key in Hk. apply BMap.bmap_contains_key.
      rewrite <- list_fmap_compose. exact Hk.
    + by rewrite length_fmap.
    + apply Forall_fmap, Forall_forall. intros [k s] Hin. cbn. exists s. split; [by apply BMap.bmap_wf_elem_get|].
      rewrite Forall_forall in HF. by apply IH, (HF (k, s)).
  - clear Hwf Hlen Hreq. cbn. induction HF as [|[k s] fields Hs HF IHF]; cbn; [lia|].
    apply IH in Hs as [_ Hs]. cbn in Hs. lia.
Qed.

Lemma read_required_sub (fields : list (string * InputSchema)) (names : list Value) (required out : BSet.t string) :
  (forall key, key ∈ required -> BMap.contains_key key fields = true) ->
  read_required fields names required = Some out ->
  forall key, key ∈ out -> BMap.contains_key key fields = true.
Proof.
  revert required. induction names as [|v names IH]; intros required Hr; cbn; [by intros [= <-]|].
  intros (name & _ & Hn)%bind_Some. destruct (_ && _) eqn:E; [|done]. boolp.
  eapply IH; [|exact Hn]. intros key [->|Hk]%BSet.bset_elem_of_insert; auto.
Qed.

(** The members of an object schema, read in order. *)
Definition read_fields (read_one : Value -> nat -> option (InputSchema * nat)) :=
  fix go (ps : list (string * Value)) (nodes : nat) (fields : BMap.t string InputSchema) :
    option (BMap.t string InputSchema * nat) :=
  match ps with
  | [] => Some (fields, nodes)
  | (name, schema) :: ps' =>
      '(s, nodes) ← read_one schema nodes;
      go ps' nodes (BMap.insert name s fields)
  end.

Definition fields_nodes (f : nat) (fields : list (string * InputSchema)) : nat :=
  sum_list ((fun kv => value_nodes (fill f kv.2)) <$> fields).

Lemma read_fields_spec (f : nat) (ps : list (string * Value)) (nodes n : nat) (fields out : BMap.t string InputSchema) :
  (forall v nodes s n, node f v nodes = Some (s, n) ->
     good f s /\ nodes + value_nodes (fill f s) <= n <= MAX_SCHEMA_NODES) ->
  nodes <= MAX_SCHEMA_NODES -> BMap.wf fields -> Forall (fun kv => good f kv.2) fields ->
  read_fields (node f) ps nodes fields = Some (out, n) ->
  BMap.wf out /\ Forall (fun kv => good f kv.2) out /\ length out <= length fields + length ps /\
  nodes + fields_nodes f out <= n + fields_nodes f fields /\ n <= MAX_SCHEMA_NODES.
Proof.
  intros Hnode. revert nodes fields. induction ps as [|[name v] ps IH]; intros nodes fields Hmax Hwf HF; cbn [read_fields].
  - intros [= <- <-]. split_and!; [done|done|lia|lia|done].
  - destruct (node f v nodes) as [[s n1]|] eqn:Hs; cbn [mbind option_bind]; [|done]. intros Hr.
    apply Hnode in Hs as [Hg Hn]. apply IH in Hr as (? & ? & Hlen & Hsum & ?);
      [|lia|by apply BMap.bmap_insert_wf|by apply BMap.bmap_Forall_insert].
    split_and!; [done|done| | |done].
    + rewrite BMap.bmap_length_insert in Hlen by done. cbn. destruct (BMap.contains_key _ _); lia.
    + pose proof (BMap.bmap_sum_insert (fun kv => value_nodes (fill f kv.2)) name s fields Hwf) as Hi.
      unfold fields_nodes in *. cbn [snd] in Hi. lia.
Qed.

Lemma node_spec (fuel : nat) : forall value nodes s n,
  node fuel value nodes = Some (s, n) ->
  good fuel s /\ nodes + value_nodes (fill fuel s) <= n <= MAX_SCHEMA_NODES.
Proof.
  induction fuel as [|f IH]; intros value nodes s n; [done|]. cbn [node].
  destruct (_ <? _) eqn:Hmax; [done|]. boolp.
  intros (map & _ & Hn)%bind_Some. apply bind_Some in Hn as (kind & _ & Hn).
  destruct (negb _); [done|]. destruct (existsb _ _); [done|].
  destruct (bool_decide (kind = "object")).
  { destruct (negb _); [done|]. apply bind_Some in Hn as (props & _ & Hn).
    destruct (_ <? _) eqn:Hlen; [done|]. boolp. fold (read_fields (node f)) in Hn.
    apply bind_Some in Hn as ([fields n'] & Hf & Hn).
    apply (read_fields_spec f) in Hf as (Hwf & HF & Hl & Hsum & Hmax'); [|exact IH|lia|constructor|constructor].
    apply bind_Some in Hn as (required & Hreq & [= <- <-]). cbn [good fill].
    assert (forall key, key ∈ required -> BMap.contains_key key fields = true) as Hsub.
    { destruct (BMap.get "required" map) as [v|]; [|injection Hreq as <-; intros key Hk; by apply elem_of_nil in Hk].
      apply bind_Some in Hreq as (names & _ & Hreq). eapply read_required_sub; [|exact Hreq].
      intros key Hk. by apply elem_of_nil in Hk. }
    cbn in Hl. split; [split_and!; [done|lia|done|done]|]. rewrite value_nodes_object, <- list_fmap_compose.
    unfold fields_nodes in Hsum. change (sum_list ((fun kv => value_nodes (fill f kv.2)) <$> [])) with 0 in Hsum.
    unfold compose. cbn [snd]. lia. }
  destruct (bool_decide (kind = "array")).
  { apply bind_Some in Hn as (items & _ & Hn). apply bind_Some in Hn as ([s' n'] & Hs & [= <- <-]).
    apply IH in Hs as [Hg Hn]. cbn [good fill]. split; [done|]. destruct f; [done|].
    assert (1 <= value_nodes (fill (S f) s')) by (destruct s'; cbn; lia). cbn [value_nodes]. lia. }
  repeat (destruct (bool_decide _); [injection Hn as <- <-; cbn; lia|]). done.
Qed.

(** A schema the profile accepts can be called: reading it found an object schema
    whose required members are all declared and whose size is within the argument limits,
    so supplying a value for every declared member passes the check. *)
Theorem read_satisfiable (value : Value) (s : InputSchema) :
  read value = Some s ->
  (exists fields required, s = SObject fields required) /\ good (S MAX_DEPTH) s /\
  validate_input s (fill (S MAX_DEPTH) s) = true.
Proof.
  unfold read. case_bool_decide as Hty; [|done]. cbn [negb]. intros ([s' n] & Hn & ->)%fmap_Some. cbn [fst].
  pose proof (node_spec _ _ _ _ _ Hn) as [Hg Hsize]. split_and!; [|done|].
  - revert Hn. cbn [node]. rewrite Hty. destruct (_ <? _); [done|]. intros (map & _ & Hn)%bind_Some.
    cbn [as_str mbind option_bind] in Hn. destruct (negb _); [done|]. destruct (existsb _ _); [done|].
    rewrite bool_decide_true in Hn by done. destruct (negb _); [done|].
    apply bind_Some in Hn as (props & _ & Hn). destruct (_ <? _); [done|].
    apply bind_Some in Hn as ([fields n'] & _ & Hn). apply bind_Some in Hn as (required & _ & [= <- <-]). eauto.
  - apply fill_conforms in Hg as [Hc Hh]. unfold validate_input. apply bool_decide_eq_true.
    eexists. apply check_input_spec. split_and!; [exact Hc|cbn in *; lia| |reflexivity].
    assert (MAX_SCHEMA_NODES <= MAX_ARG_NODES) by (apply Nat.leb_le; vm_compute; reflexivity). lia.
Qed.

(** ** Witnesses *)

Definition demo_schema : Value :=
  obj [("type", JString "object"); ("additionalProperties", JBool false); ("required", JArray [JString "to"]);
       ("properties", obj [("to", obj [("type", JString "string")]);
                           ("copies", obj [("type", JString "array"); ("items", obj [("type", JString "integer")])])])].

Example demo_schema_checks :
  (fun s => (validate_input s (obj [("to", JString "x")]), validate_input s (obj []),
             validate_input s (obj [("to", JString "x"); ("extra", JNull)]),
             validate_input s (obj [("to", JString "x"); ("copies", JArray [JNumber (PosInt 1); JNull])])))
  <$> read demo_schema = Some (true, false, false, false).
Proof. vm_compute. reflexivity. Qed.

Lemma read_satisfiable_witness :
  exists s, read demo_schema = Some s /\ validate_input s (fill (S MAX_DEPTH) s) = true.
Proof.
  destruct (read demo_schema) as [s|] eqn:E; [|vm_compute in E; discriminate].
  exists s. split; [reflexivity|]. exact (proj2 (proj2 (read_satisfiable demo_schema s E))).
Defined.
