(* ===== verification/McpClassify.v ===== *)
(** Classification of an MCP invocation ([crates/agentfw/src/mcp/admission.rs], lines 25 to
    556): the classifiers, how their answer is mapped to an action class, and the production
    policy composed from it and the operator's baseline.  The classifier process, the
    environment variables and the file system are inputs. *)
From S2P Require Import Prelude BTree F32 Json Net CoreTypes Adapter ToolCall Runner Action Config Resources Native McpInput.
From Stdlib Require Import String Ascii SpecFloat.
#[local] Abbreviation length := List.length.
#[local] Abbreviation index := Native.index.

Definition CLASSIFICATION_CONTRACT : string := "sw-classification/candidate-1".
(** Two seconds, in milliseconds. *)
Definition CLASSIFIER_TIMEOUT : Z := 2000.

(** ** [f64] *)

Definition f64 : Type := spec_float.
Definition f64_of_Z (n : Z) : f64 := binary_normalize 53 1024 n 0 false.
(** The literal [n/d], correctly rounded. *)
Definition f64_lit (n d : Z) : f64 := SFdiv 53 1024 (f64_of_Z n) (f64_of_Z d).
(** [x as f32] *)
Definition f64_as_f32 (x : f64) : f32 :=
  match x with
  | S754_finite s m e => binary_normalize f32_prec f32_emax (if s then Zneg m else Zpos m) e s
  | _ => x
  end.

(** ** A classifier and its answer *)

Definition semantic_input (i : Invocation) : Value :=
  obj [("tool_name", JString (iv_tool i)); ("raw_arguments", iv_args i);
       ("tool_description", JString (iv_description i)); ("tool_schema", iv_schema i);
       ("server_id", JString (iv_server_id i))].

Record Classification := mkClass {
  cs_actions : list string;
  cs_unknown : bool;
  cs_confidence : f64;
  cs_uncertainty : f64;
  cs_reason : string
}.

(** How one run of a classifier ends, seen from the two-second limit around it. *)
Inductive ClassifierRun := TimedOut | Crashed | Errored | Classified (c : Classification).

(** [InvocationClassifier] *)
Record InvocationClassifier := mkClassifier {
  ic_source : string;
  ic_revision : option string;
  ic_classify : Invocation -> ClassifierRun
}.

(** ** The local script *)

(** [BaselineReply] *)
Record BaselineReply := mkReply { br_status : string; br_classification : Classification }.

(** What is made of the script's output; [read_reply] is [serde_json::from_slice]. *)
Definition baseline_reply (read_reply : string -> option BaselineReply) (output : string) :
    result Classification string :=
  let? reply := ok_or (read_reply output) "invalid classifier output" in
  bail_if (negb (bool_decide (br_status reply ∈ ["ok"; "unknown"]))) with "classifier returned technical error" in
  bail_if (bool_decide (br_status reply = "unknown") && negb (cs_unknown (br_classification reply)))
    with "inconsistent unknown status" in
  Ok (br_classification reply).

(** The exchange with the script: [run] is the process's output for an input line, or
    nothing when it cannot be started, fails or takes longer than a second and a half. *)
Definition rule_baseline_classify (json_to_string : Value -> string) (run : string -> option string)
    (read_reply : string -> option BaselineReply) (i : Invocation) : ClassifierRun :=
  let bytes := json_to_string (semantic_input i) in
  if Z.to_nat (1024 * 1024) <? Str.len bytes then Errored
  else
    match run (bytes +:+ String "010"%char EmptyString) with
    | None => Errored
    | Some output =>
        if Z.to_nat (16 * 1024) <? Str.len output then Errored
        else match baseline_reply read_reply output with Ok c => Classified c | Err _ => Errored end
    end.

Definition RuleBaseline (json_to_string : Value -> string) (run : string -> option string)
    (read_reply : string -> option BaselineReply) (digest : string) : InvocationClassifier :=
  mkClassifier "rule-baseline/python" (Some digest) (rule_baseline_classify json_to_string run read_reply).

(** ** The test doubles *)

(** [id]: a short text without control characters, or an integer of 64 bits. *)
Definition id_ok (value : Value) : bool :=
  match as_str value with
  | Some s => negb (Str.is_empty s) && (Str.len s <=? 128) && negb (has_control s)
  | None => false
  end || is_i64 value.

Definition ReadTestDouble : InvocationClassifier :=
  mkClassifier "test-double/read-v1" None (fun i =>
    if negb (Str.is_empty (iv_server_id i)) && negb (Str.is_empty (iv_registry_sha256 i))
       && negb (Str.is_empty (iv_snapshot_sha256 i)) && negb (Str.is_empty (iv_schema_sha256 i))
       && id_ok (iv_host_call_id i) && is_object (iv_args i) && is_object (iv_schema i)
       && bool_decide (iv_baseline i = ReadOnly)
    then Classified (mkClass ["read"] false (f64_of_Z 1) (f64_of_Z 0) "fixed fixture output")
    else Errored).

Definition baseline_action (class : ActionClass) : string :=
  match class with
  | ReadOnly => "read" | SideEffecting => "write" | NetworkAction => "send_data"
  | PrivilegeChanging => "change_permissions" | Destructive => "delete"
  end.

(** The text arguments of a call. *)
Definition text_arguments (args : Value) : list string := omap (fun kv => as_str kv.2) (default [] (as_object args)).
Definition fault (values : list string) (name : string) : bool :=
  existsb (Str.contains ("classifier-fault-" +:+ name)) values.

Definition FixtureTestDouble : InvocationClassifier :=
  mkClassifier "test-double/fixture-v1" None (fun i =>
    let values := text_arguments (iv_args i) in
    (* the sleep is twice the limit *)
    if fault values "timeout" then TimedOut
    else if fault values "crash" then Crashed
    else
      let actions :=
        if fault values "unknown" then []
        else if fault values "mixed" then ["read"; "send_data"]
        else if fault values "understate" then ["read"]
        else if existsb (fun v => Str.starts_with "http://" v || Str.starts_with "https://" v) values
        then ["send_data"]
        else [baseline_action (iv_baseline i)] in
      Classified (mkClass actions (fault values "unknown")
        (if fault values "invalid" then f64_of_Z 2 else f64_lit 9 10) (f64_lit 1 10) "fixture test double")).

(** ** Choosing a classifier *)

(** [vars] reads an environment variable, [debug] is [cfg!(debug_assertions)]. *)
Definition test_classifier_from_env (debug : bool) (vars : string -> option string) :
    result (option InvocationClassifier) string :=
  match vars "AGENTFW_TEST_CLASSIFIER_READ", vars "AGENTFW_TEST_CLASSIFIER" with
  | None, None => Ok None
  | read, fixture =>
      bail_if (negb debug) with "test classifier is unavailable" in
      match read, fixture with
      | Some value, None =>
          if bool_decide (value = "1") then Ok (Some ReadTestDouble) else Err "invalid test classifier setting"
      | None, Some value =>
          if bool_decide (value = "fixture-v1") then Ok (Some FixtureTestDouble)
          else Err "invalid test classifier setting"
      | _, _ => Err "invalid test classifier setting"
      end
  end.

(** [load_script] resolves a script and reads it, at most one byte past the limit;
    [exchange] runs it, with the interpreter and the digest of what was read. *)
Definition classifier_from_env (debug : bool) (vars : string -> option string)
    (load_script : string -> option (string * string)) (sha256_hex : string -> string)
    (json_to_string : Value -> string) (exchange : string -> string -> string -> string -> option string)
    (read_reply : string -> option BaselineReply) : result (option InvocationClassifier) string :=
  match vars "AGENTFW_CLASSIFIER" with
  | None => test_classifier_from_env debug vars
  | Some value =>
      if bool_decide (value = "rule-baseline") then
        bail_if (bool_decide (is_Some (vars "AGENTFW_TEST_CLASSIFIER"))
                 || bool_decide (is_Some (vars "AGENTFW_TEST_CLASSIFIER_READ"))) with "conflicting classifiers" in
        let? path := ok_or (vars "AGENTFW_RULE_BASELINE")
                       "AGENTFW_RULE_BASELINE must explicitly select a local script" in
        let? loaded := ok_or (load_script path) "classifier script missing" in
        let '(script, source) := loaded in
        bail_if (Z.to_nat (1024 * 1024) <? Str.len source) with "classifier source exceeds limit" in
        let digest := sha256_hex source in
        let python := default "python3" (vars "AGENTFW_CLASSIFIER_PYTHON") in
        Ok (Some (RuleBaseline json_to_string (exchange python script digest) read_reply digest))
      else Err "unsupported classifier setting"
  end.

(** [is_file] and [read_file] answer for the path the variable holds; [read_profiles] is
    [serde_json::from_str]. *)
Definition resource_profiles_from_env (value : option string) (read_file : string -> option (option string))
    (read_profiles : string -> option (list ResourceProfile)) :
    result (BMap.t string ResourceProfile) string :=
  match value with
  | None => Ok []
  | Some val =>
      let? content := match read_file val with
                      | Some (Some content) => Ok content
                      | Some None => Err "unreadable resource profiles"
                      | None => Ok val
                      end in
      let? profiles := ok_or (read_profiles content) "invalid resource profiles format" in
      Ok (BMap.of_list ((fun p => (rp_tool_name p, p)) <$> profiles))
  end.

(** ** Mapping an answer *)

(** [x.is_finite() && (0.0..=1.0).contains(&x)] *)
Definition unit_interval (x : f64) : bool :=
  f64_is_finite x && SFleb (f64_of_Z 0) x && SFleb x (f64_of_Z 1).

Definition known_action (action : string) : bool :=
  bool_decide (action ∈ ["read"; "write"; "delete"; "send_data"; "change_permissions"]).

Definition classification_valid (c : Classification) : bool :=
  unit_interval (cs_confidence c) && unit_interval (cs_uncertainty c)
  && negb (Str.is_empty (cs_reason c)) && (Str.len (cs_reason c) <=? Z.to_nat 1024)
  && forallb known_action (cs_actions c).

Definition map_classification (c : Classification) : result ActionClass string :=
  bail_if (negb (classification_valid c)) with "classifier_invalid" in
  match cs_unknown c, cs_actions c with
  | false, [action] =>
      Ok (if bool_decide (action = "read") then ReadOnly
          else if bool_decide (action = "write") then SideEffecting
          else if bool_decide (action = "delete") then Destructive
          else if bool_decide (action = "send_data") then NetworkAction
          else PrivilegeChanging)
  | _, _ => Err "unsupported_classification_mapping"
  end.

Inductive ProductionVerdict := PAllow | PAsk | PDeny.
#[export] Instance ProductionVerdict_eq_dec : EqDecision ProductionVerdict.
Proof. solve_decision. Defined.

Definition compose_production_policy (c : Classification) (baseline : ActionClass) (egress_declared : bool) :
    result ProductionVerdict string :=
  let any a := bool_decide (a ∈ cs_actions c) in
  bail_if (negb (classification_valid c)) with "classifier_invalid" in
  if any "delete" then Ok PDeny
  else if any "send_data" && negb egress_declared && negb (bool_decide (baseline = NetworkAction)) then Ok PDeny
  else if any "change_permissions" then Ok PDeny
  else if cs_unknown c || SFleb (f64_lit 8 10) (cs_uncertainty c) then Ok PAsk
  else if any "write" then Ok (if bool_decide (baseline = ReadOnly) then PDeny else PAsk)
  else if forallb (fun a => bool_decide (a = "read")
                            || (bool_decide (a = "send_data")
                                && (egress_declared || bool_decide (baseline = NetworkAction)))) (cs_actions c)
  then Ok PAllow
  else Ok PAsk.

Definition action_category (action : string) : ToolActionCategory :=
  if bool_decide (action = "read") then CatRead
  else if bool_decide (action = "write") then CatWrite
  else if bool_decide (action = "delete") then CatDelete
  else if bool_decide (action = "send_data") then CatSendData
  else if bool_decide (action = "change_permissions") then CatChangePermissions
  else CatUnknown.

Definition classification_to_adapter (c : Classification) : result ToolClassification string :=
  bail_if (negb (classification_valid c)) with "classifier_invalid" in
  Ok (mkClassification ((action_category <$> cs_actions c) ++ if cs_unknown c then [CatUnknown] else [])
        (f64_as_f32 (cs_confidence c)) (f64_as_f32 (cs_uncertainty c)) (Some (cs_reason c))).

(** The class the answer maps to and the verdict composed from it. *)
Definition judge_run (run : ClassifierRun) (baseline : ActionClass) (egress_declared : bool) :
    result ActionClass string * option AdapterVerdict * result ProductionVerdict string :=
  match run with
  | TimedOut => (Err "classifier_timeout", None, Err "classifier_timeout")
  | Crashed => (Err "classifier_crash", None, Err "classifier_crash")
  | Errored => (Err "classifier_error", None, Err "classifier_error")
  | Classified c =>
      (map_classification c,
       match classification_to_adapter c with Ok tc => Some (evaluate_baseline_policy tc).1 | Err _ => None end,
       compose_production_policy c baseline egress_declared)
  end.

(** ** JSON without repeated members *)

(** A JSON text as its reader sees it: an object's members in the order they come, repeated
    ones included. *)
Unset Elimination Schemes.
Inductive Syntax :=
| XNull
| XBool (b : bool)
| XNumber (n : Number)
| XString (s : string)
| XSeq (l : list Syntax)
| XMap (m : list (string * Syntax)).
Set Elimination Schemes.

(** [Strict]'s visitor: the value a text denotes, if no object repeats a member and every
    number is finite. *)
Fixpoint strict (x : Syntax) : option Value :=
  match x with
  | XNull => Some JNull
  | XBool b => Some (JBool b)
  | XNumber n => if is_finite_number (JNumber n) then Some (JNumber n) else None
  | XString s => Some (JString s)
  | XSeq l =>
      JArray <$> (fix go (l : list Syntax) : option (list Value) :=
                    match l with
                    | [] => Some []
                    | x :: l' => v ← strict x; vs ← go l'; Some (v :: vs)
                    end) l
  | XMap m =>
      JObject <$> (fix go (m : list (string * Syntax)) (values : BMap.t string Value) : option (BMap.t string Value) :=
                     match m with
                     | [] => Some values
                     | (key, x) :: m' =>
                         v ← strict x;
                         if BMap.contains_key key values then None
                         else go m' (BMap.insert key v values)
                     end) m []
  end.

(** ** Properties *)

(** An action that needs no confirmation. *)
Definition harmless (baseline : ActionClass) (egress_declared : bool) (action : string) : Prop :=
  action = "read" \/ (action = "send_data" /\ (egress_declared = true \/ baseline = NetworkAction)).

#[local] Opaque f64_lit.

Lemma compose_allow (c : Classification) (baseline : ActionClass) (d : bool) :
  compose_production_policy c baseline d = Ok PAllow <->
  classification_valid c = true /\ cs_unknown c = false /\ SFleb (f64_lit 8 10) (cs_uncertainty c) = false /\
  Forall (harmless baseline d) (cs_actions c).
Proof.
  unfold compose_production_policy. destruct (classification_valid c) eqn:Hv; simpl; [|split; [done|by intros [[=] _]]].
  assert (Hh : forallb (fun a => bool_decide (a = "read") || (bool_decide (a = "send_data")
             && (d || bool_decide (baseline = NetworkAction)))) (cs_actions c) = true
           <-> Forall (harmless baseline d) (cs_actions c)).
  { rewrite List.forallb_forall, List.Forall_forall. unfold harmless.
    split; intros Hf a Ha; specialize (Hf a Ha);
      rewrite orb_true_iff, andb_true_iff, orb_true_iff, !bool_decide_eq_true in *; tauto. }
  assert (Hno : Forall (harmless baseline d) (cs_actions c) ->
    ("delete" ∉ cs_actions c) /\ ("change_permissions" ∉ cs_actions c) /\ ("write" ∉ cs_actions c) /\
    ("send_data" ∈ cs_actions c -> d = true \/ baseline = NetworkAction)).
  { rewrite Forall_forall. intros Hf. unfold harmless in Hf.
    split_and!; intros Hin; specialize (Hf _ Hin); naive_solver. }
  split.
  - intros Hc. repeat case_match; try discriminate Hc. boolp. rewrite <-Hh. auto.
  - intros (_ & Hu & Hs & Hf). destruct (Hno Hf) as (H1 & H2 & H3 & H4). apply Hh in Hf.
    rewrite Hu, Hs, Hf. rewrite (bool_decide_false ("delete" ∈ _)), (bool_decide_false ("change_permissions" ∈ _)),
      (bool_decide_false ("write" ∈ _)) by done.
    assert (Hsd : bool_decide ("send_data" ∈ cs_actions c) && negb d && negb (bool_decide (baseline = NetworkAction)) = false).
    { destruct (bool_decide ("send_data" ∈ cs_actions c)) eqn:Hin; [|done]. boolp.
      destruct (H4 Hin) as [->| ->]; [done|by destruct d]. }
    by rewrite Hsd.
Qed.

(** Which answers of a classifier let a call through: exactly those that are well formed
    (scores between 0 and 1, a short reason, known actions), that claim a single action and no
    doubt, with an uncertainty below 0.8, where the action is a read, or sending data by a
    tool whose egress the operator declared; every other run of the classifier, its failures
    included, keeps the call from being forwarded. *)
Theorem classifier_allows_iff (run : ClassifierRun) (baseline : ActionClass) (d : bool) :
  (exists class adapter, judge_run run baseline d = (Ok class, adapter, Ok PAllow)) <->
  exists c action, run = Classified c /\ classification_valid c = true /\ cs_unknown c = false /\
    cs_actions c = [action] /\ SFleb (f64_lit 8 10) (cs_uncertainty c) = false /\ harmless baseline d action.
Proof.
  split.
  - intros (class & adapter & Hj). destruct run as [| | |c]; try done. simpl in Hj. injection Hj as Hm _ Hc.
    apply compose_allow in Hc as (Hv & Hu & Hs & Hf).
    unfold map_classification in Hm. rewrite Hv, Hu in Hm. simpl in Hm.
    destruct (cs_actions c) as [|a [|??]] eqn:Ha; [discriminate Hm| |discriminate Hm].
    inversion_clear Hf. exists c, a. auto 10.
  - intros (c & action & -> & Hv & Hu & Ha & Hs & Hh). simpl.
    assert (Hc : compose_production_policy c baseline d = Ok PAllow) by (apply compose_allow; rewrite Ha; auto).
    unfold map_classification. rewrite Hc, Hv, Hu, Ha. simpl. eauto.
Qed.

(** *** Repeated members *)

(** [serde_json::Value]'s own reading: of a repeated member the last one counts. *)
Fixpoint lenient (x : Syntax) : Value :=
  match x with
  | XNull => JNull
  | XBool b => JBool b
  | XNumber n => JNumber n
  | XString s => JString s
  | XSeq l => JArray (lenient <$> l)
  | XMap m => JObject (BMap.of_list ((fun kx => (kx.1, lenient kx.2)) <$> m))
  end.

(** No object repeats a member, no number is infinite. *)
Fixpoint unambiguous (x : Syntax) : bool :=
  match x with
  | XNumber n => is_finite_number (JNumber n)
  | XSeq l => forallb unambiguous l
  | XMap m => bool_decide (NoDup m.*1) && forallb (fun kx => unambiguous kx.2) m
  | _ => true
  end.

Section Syntax_induction.
Variable P : Syntax -> Prop.
Hypothesis Hleaf : forall x, (match x with XSeq _ | XMap _ => False | _ => True end) -> P x.
Hypothesis Hseq : forall l, Forall P l -> P (XSeq l).
Hypothesis Hmap : forall m, Forall (fun kx => P kx.2) m -> P (XMap m).
Fixpoint Syntax_ind' (x : Syntax) : P x :=
  match x with
  | XSeq l => Hseq l ((fix go l : Forall P l :=
      match l with [] => Forall_nil_2 _ | x :: l' => Forall_cons_2 _ _ _ (Syntax_ind' x) (go l') end) l)
  | XMap m => Hmap m ((fix go m : Forall (fun kx => P kx.2) m :=
      match m with [] => Forall_nil_2 _ | kx :: m' => Forall_cons_2 _ _ _ (Syntax_ind' kx.2) (go m') end) m)
  | x => Hleaf x I
  end.
End Syntax_induction.

(** The loop over an object's members, from the members already read. *)
Fixpoint read_members (m : list (string * Syntax)) (values : BMap.t string Value) : option (BMap.t string Value) :=
  match m with
  | [] => Some values
  | (key, x) :: m' =>
      v ← strict x;
      if BMap.contains_key key values then None else read_members m' (BMap.insert key v values)
  end.

Lemma contains_insert (k k' : string) (v : Value) (m : BMap.t string Value) :
  BMap.contains_key k' (BMap.insert k v m) = true <-> k' = k \/ BMap.contains_key k' m = true.
Proof.
  unfold BMap.contains_key. rewrite BMap.bmap_get_insert. case_decide as Hd; rewrite cmp_eq in Hd.
  - split; auto.
  - split; [auto|]. by intros [->|].
Qed.

Lemma read_members_spec (m : list (string * Syntax)) (values : BMap.t string Value) :
  Forall (fun kx => strict kx.2 = if unambiguous kx.2 then Some (lenient kx.2) else None) m ->
  read_members m values =
  if bool_decide (NoDup m.*1) && forallb (fun kx => unambiguous kx.2) m
     && forallb (fun kx => negb (BMap.contains_key kx.1 values)) m
  then Some (fold_left (fun acc kx => BMap.insert kx.1 (lenient kx.2) acc) m values) else None.
Proof.
  intros Hf. revert values. induction Hf as [|[k x] m Hx Hf IH]; intros values; [done|]. cbn [read_members].
  simpl in Hx. rewrite Hx. simpl. destruct (unambiguous x) eqn:Hu; simpl; [|by rewrite andb_false_r].
  destruct (BMap.contains_key k values) eqn:Hc; simpl; [by rewrite !andb_false_r|]. rewrite IH.
  set (ok := forallb (fun kx => unambiguous kx.2) m).
  assert (Hstep : bool_decide (NoDup m.*1) && forallb (fun kx => negb (BMap.contains_key kx.1 (BMap.insert k (lenient x) values))) m
    = bool_decide (NoDup (k :: m.*1)) && forallb (fun kx => negb (BMap.contains_key kx.1 values)) m).
  { apply eq_true_iff_eq. rewrite !andb_true_iff, !bool_decide_eq_true, NoDup_cons, !List.forallb_forall. split.
    - intros [Hn Hall]. split_and!; [|done|].
      + intros ([k' x'] & Hk & Hin%list_elem_of_In)%list_elem_of_fmap. specialize (Hall _ Hin).
        rewrite (proj2 (contains_insert k _ _ _)) in Hall by auto. done.
      + intros kx Hin. specialize (Hall _ Hin). apply negb_true_iff in Hall. apply negb_true_iff.
        destruct (BMap.contains_key kx.1 values) eqn:E; [|done].
        by rewrite (proj2 (contains_insert k _ _ _)) in Hall by auto.
    - intros [[Hni Hn] Hall]. split; [done|]. intros [k' x'] Hin. specialize (Hall _ Hin). apply negb_true_iff in Hall.
      apply negb_true_iff. destruct (BMap.contains_key _ (BMap.insert _ _ _)) eqn:E; [|done].
      apply contains_insert in E as [E|E]; [|simpl in *; congruence]. simpl in E. subst k'. destruct Hni.
      apply list_elem_of_fmap. exists (k, x'). split; [done|by apply list_elem_of_In]. }
  change (((k, x) :: m).*1) with (k :: m.*1).
  assert (Hswap : forall a b c : bool, a && b && c = b && (a && c)) by (by intros [] [] []).
  by rewrite !Hswap, Hstep.
Qed.

(** Reading JSON strictly: a text in which no object repeats a member and no number is
    infinite is read as the value every JSON reader gives it; any other text is refused, so
    no member can mean one thing here and another to the client, the server or the daemon. *)
Theorem strict_exact (x : Syntax) : strict x = if unambiguous x then Some (lenient x) else None.
Proof.
  induction x as [x Hx|l Hl|m Hm] using Syntax_ind'.
  - destruct x; try done.
  - change (strict (XSeq l)) with (JArray <$> mapM strict l). cbn [unambiguous lenient].
    assert (Hgo : mapM strict l = if forallb unambiguous l then Some (lenient <$> l) else None).
    { induction Hl as [|x l Hx Hl IH]; [done|]. cbn. rewrite Hx. destruct (unambiguous x); [|done]. cbn.
      rewrite IH. by destruct (forallb unambiguous l). }
    rewrite Hgo. by destruct (forallb unambiguous l).
  - change (strict (XMap m)) with (JObject <$> read_members m []). rewrite read_members_spec by done.
    cbn [unambiguous lenient]. unfold BMap.of_list.
    assert (Hn : forallb (fun kx : string * Syntax => negb (BMap.contains_key kx.1 ([] : BMap.t string Value))) m = true)
      by (by apply List.forallb_forall).
    rewrite Hn, andb_true_r. destruct (_ && _); [|done]. simpl. do 2 f_equal.
    clear. generalize (@nil (string * Value)). induction m as [|kx m IH]; intros acc; [done|]. csimpl. apply IH.
Qed.
