(* ===== verification/McpAdmission.v ===== *)
(** The admission relay in front of an MCP server ([crates/agentfw/src/mcp/admission.rs],
    lines 415 to 1523): one client, one server, one request at a time.  Each line from either
    side is one step; a step writes at most one line and posts to the daemon before it
    writes.  A step that fails ends the session; a write that fails may have written any part of its
    line.  The daemon's answers, the clock and what becomes of a write are inputs of the step. *)
From S2P Require Import Prelude BTree F32 Json Net CoreTypes Adapter ToolCall Runner Action Config.
From S2P Require Import Resources Native McpInput McpClassify.
From Stdlib Require Import String Ascii SpecFloat.
#[local] Abbreviation length := List.length.
#[local] Abbreviation index := Native.index.

Definition MAX_REQUESTS : nat := Z.to_nat 1024.
(** 30 seconds, in milliseconds. *)
Definition IO_TIMEOUT : Z := 30 * 1000.

(** ** Data *)

Record AdmittedTool := mkAdmittedTool {
  at_description : string;
  at_schema : Value;
  at_schema_sha256 : string;
  at_definition : Value;
  at_definition_sha256 : string
}.
Record Snapshot := mkSnapshot {
  sn_sha256 : string;
  sn_tools : BMap.t string AdmittedTool;
  sn_server_info : Value
}.

Record AdmissionCfg := mkAdmissionCfg {
  ac_daemon_url : string;
  ac_manifest_url : string;
  ac_manifest_token : string;
  ac_server_id : string;
  ac_native : NativeConfig;
  ac_classifier : option InvocationClassifier;
  ac_resource_profiles : BMap.t string ResourceProfile
}.

(** [Collector]: the configuration and the session it announces. *)
Record Collector := mkCollector { co_config : AdmissionCfg; co_session : string }.

Inductive Pending :=
| Handshake (id : Value)
| Manifest (id : Value)
| Ping (id : Value)
| PCall (id : Value) (tool : string) (args : Value) (call_id binding : Value).

Definition pending_id (p : Pending) : Value :=
  match p with Handshake id | Manifest id | Ping id | PCall id _ _ _ _ => id end.

(** The line logged for a classification, as far as it decides anything. *)
Record ClassificationLog := mkLog {
  lg_source : string;
  lg_host_call_id : Value;
  lg_tool : string;
  lg_input_sha256 : string;
  lg_mapped : result ActionClass string;
  lg_baseline : ActionClass;
  lg_adapter_verdict : option AdapterVerdict;
  lg_authoritative : result ProductionVerdict string
}.

(** What a step does to the outside world, in order. *)
Inductive Effect :=
| ToHost (raw : string)
| ToServer (raw : string)
| HostCut (raw : string) (sent : nat)
| ServerCut (raw : string) (sent : nat)
| Posted (url token : string) (body : Value) (reply : result Value string)
| Logged (l : ClassificationLog).

(** ** A step's monad: the effects so far, and a value or the error that ends the session *)

Definition M (A : Type) : Type := list Effect * result A string.
Definition ret {A} (x : A) : M A := ([], Ok x).
Definition fail {A} (e : string) : M A := ([], Err e).
Definition lift {A} (r : result A string) : M A := ([], r).
Definition bind {A B} (m : M A) (k : A -> M B) : M B :=
  match m with
  | (eff, Ok x) => let '(eff', r) := k x in (eff ++ eff', r)
  | (eff, Err e) => (eff, Err e)
  end.
Notation "'do!' x ':=' m 'in' k" := (bind m (fun x => k))
  (at level 10, x name, m at level 100, k at level 200) : soup_scope.
Notation "'ensure' c 'with' e 'in' k" := (if c then k else fail e)
  (at level 10, c at level 100, e at level 100, k at level 200) : soup_scope.

(** What the outside world answers during one step.  A write fails with an error or after its time is up, when
    some number of its bytes went out, perhaps all. *)
Inductive HttpAnswer := Unavailable | HttpReply (success : bool) (chunks : list (option string)).
Record RelayEnv := mkRelayEnv {
  rv_http : string -> string -> Value -> HttpAnswer;
  rv_write : option (nat * string);
  rv_now : Z
}.

(** ** The relay's state *)

Record Relay := mkRelay {
  ry_pending : option Pending;
  ry_initialized : bool;
  ry_notified : bool;
  ry_ready : bool;
  ry_schemas : BMap.t string InputSchema;
  ry_snapshot : option Snapshot;
  ry_server_info : Value;
  ry_list_changed : bool;
  ry_used : BSet.t string;
  ry_deadline : Z
}.
Definition relay_new (now : Z) : Relay := mkRelay None false false false [] None JNull false [] (now + IO_TIMEOUT).

Definition set_pending (p : option Pending) (s : Relay) : Relay :=
  mkRelay p (ry_initialized s) (ry_notified s) (ry_ready s) (ry_schemas s) (ry_snapshot s) (ry_server_info s)
    (ry_list_changed s) (ry_used s) (ry_deadline s).
Definition set_notified (s : Relay) : Relay :=
  mkRelay (ry_pending s) (ry_initialized s) true (ry_ready s) (ry_schemas s) (ry_snapshot s) (ry_server_info s)
    (ry_list_changed s) (ry_used s) (ry_deadline s).
Definition set_used (used : BSet.t string) (s : Relay) : Relay :=
  mkRelay (ry_pending s) (ry_initialized s) (ry_notified s) (ry_ready s) (ry_schemas s) (ry_snapshot s)
    (ry_server_info s) (ry_list_changed s) used (ry_deadline s).
Definition set_deadline (d : Z) (s : Relay) : Relay :=
  mkRelay (ry_pending s) (ry_initialized s) (ry_notified s) (ry_ready s) (ry_schemas s) (ry_snapshot s)
    (ry_server_info s) (ry_list_changed s) (ry_used s) d.
(** The definitions are forgotten: nothing is admitted until they are read again. *)
Definition forget_definitions (s : Relay) : Relay :=
  mkRelay (ry_pending s) (ry_initialized s) (ry_notified s) false [] None (ry_server_info s)
    (ry_list_changed s) (ry_used s) (ry_deadline s).
Definition install_definitions (schemas : BMap.t string InputSchema) (snapshot : Snapshot) (s : Relay) : Relay :=
  mkRelay (ry_pending s) (ry_initialized s) (ry_notified s) true schemas (Some snapshot) (ry_server_info s)
    (ry_list_changed s) (ry_used s) (ry_deadline s).
Definition set_initialized (server_info : Value) (list_changed : bool) (s : Relay) : Relay :=
  mkRelay (ry_pending s) true (ry_notified s) (ry_ready s) (ry_schemas s) (ry_snapshot s) server_info
    list_changed (ry_used s) (ry_deadline s).

(** ** Framing *)

Definition newline : ascii := "010"%char.

(** The part of [s] up to and with the first line feed, and the rest. *)
Fixpoint split_line (s : string) : option (string * string) :=
  match s with
  | EmptyString => None
  | String a s' =>
      if bool_decide (a = newline) then Some (String a EmptyString, s')
      else prod_map (String a) id <$> split_line s'
  end.

(** [line]: read buffers until a line is complete.  [raw] is the partial line kept from
    before; [buffers] is what [fill_buf] returns, one non-empty buffer after the other, the
    end of input after the last.  Returns the line (or nothing at the end), the partial line
    and the buffers left. *)
Fixpoint line (raw : string) (buffers : list string) : result (option string * string * list string) string :=
  match buffers with
  | [] => if Str.is_empty raw then Ok (None, raw, []) else Err "unterminated MCP frame"
  | buffer :: rest =>
      match split_line buffer with
      | Some (head, tail) =>
          bail_if (MAX_CONTENT <? Str.len raw + Str.len head) with "MCP frame exceeds admission limit" in
          Ok (Some (raw +:+ head), EmptyString, if Str.is_empty tail then rest else tail :: rest)
      | None =>
          bail_if (MAX_CONTENT <? Str.len raw + Str.len buffer) with "MCP frame exceeds admission limit" in
          line (raw +:+ buffer) rest
      end
  end.

(** ** JSON checks *)

Definition keys (value : Value) (allowed : list string) : bool :=
  match as_object value with
  | Some map => forallb (fun kv => bool_decide (kv.1 ∈ allowed)) map
  | None => false
  end.

Definition opt_all (p : Value -> bool) (o : option Value) : bool := match o with Some v => p v | None => true end.
(** [value.as_str().is_some_and(|s| !s.is_empty() && s.len() <= n && !control)] *)
Definition plain_text (n : nat) (value : Value) : bool :=
  match as_str value with
  | Some s => negb (Str.is_empty s) && (Str.len s <=? n) && negb (has_control s)
  | None => false
  end.

Definition initialization (value : Value) : result unit string :=
  bail_if (negb (keys value ["protocolVersion"; "capabilities"; "serverInfo"])) with "unsupported MCP fields" in
  bail_if (negb (plain_text 64 (index value "protocolVersion"))) with "unsupported MCP protocol version" in
  bail_if (negb (keys (index value "capabilities") ["tools"])) with "unsupported MCP fields" in
  let? _u := match value_get "tools" (index value "capabilities") with
             | Some tools =>
                 bail_if (negb (keys tools ["listChanged"])) with "unsupported MCP fields" in
                 bail_if (negb (opt_all is_boolean (value_get "listChanged" tools)))
                   with "invalid MCP manifest change capability" in
                 Ok tt
             | None => Ok tt
             end in
  bail_if (negb (keys (index value "serverInfo") ["name"; "version"])) with "unsupported MCP fields" in
  bail_if (negb (forallb (fun field => plain_text 128 (index (index value "serverInfo") field)) ["name"; "version"]))
    with "unsupported MCP server identity" in
  Ok tt.

Definition correlation_id (value : Value) : bool :=
  match as_str value with
  | Some id => negb (Str.is_empty id) && (Str.len id <=? 128)
               && Str.forallb (fun c => Str.is_alnum c || bool_decide (N_of_ascii c ∈ [95; 45]%N)) id
  | None => false
  end.

Definition progress_token (value : Value) : bool :=
  match as_u64 value with Some token => (token <=? 9007199254740991)%Z | None => false end.

Definition discovery_params (value : Value) : result unit string :=
  bail_if (negb (keys value ["_meta"])) with "unsupported MCP fields" in
  match value_get "_meta" value with
  | Some metadata =>
      bail_if (negb (keys metadata ["progressToken"])) with "unsupported MCP fields" in
      bail_if (negb (progress_token (index metadata "progressToken")))
        with "unsupported MCP discovery correlation metadata" in
      Ok tt
  | None => Ok tt
  end.

Definition call_metadata (value : Value) : result unit string :=
  bail_if (negb (keys value ["claudecode/toolUseId"; "threadId"; "progressToken"])) with "unsupported MCP fields" in
  let? host_id := match value_get "claudecode/toolUseId" value, value_get "threadId" value with
                  | Some id, None | None, Some id => Ok id
                  | _, _ => Err "unsupported MCP call correlation metadata"
                  end in
  bail_if (negb (match as_object value with Some map => length map =? 2 | None => false end
                 && correlation_id host_id && progress_token (index value "progressToken")))
    with "unsupported MCP call correlation metadata" in
  Ok tt.

Definition text_block_ok (block : Value) : result unit string :=
  bail_if (negb (keys block ["type"; "text"])) with "unsupported MCP fields" in
  bail_if (negb (bool_decide (index block "type" = JString "text") && is_string (index block "text")))
    with "unsupported non-text MCP content" in
  Ok tt.
Fixpoint text_blocks_ok (blocks : list Value) : result unit string :=
  match blocks with
  | [] => Ok tt
  | b :: blocks' => let? _u := text_block_ok b in text_blocks_ok blocks'
  end.

Definition result_kind (value : Value) : result string string :=
  match value_get "error" value with
  | Some error =>
      bail_if (bool_decide (is_Some (value_get "result" value))) with "ambiguous MCP result and error" in
      bail_if (negb (keys error ["code"; "message"])) with "unsupported MCP fields" in
      bail_if (negb (is_i64 (index error "code") && is_string (index error "message"))) with "unsupported MCP error" in
      Ok "error"
  | None =>
      let? res := ok_or (value_get "result" value) "MCP result absent" in
      bail_if (negb (keys res ["content"; "isError"])) with "unsupported MCP fields" in
      bail_if (negb (opt_all is_boolean (value_get "isError" res))) with "unsupported MCP isError" in
      let? blocks := ok_or (as_array (index res "content")) "MCP content absent" in
      bail_if (256 <? length blocks) with "MCP content block limit" in
      let? _u := text_blocks_ok blocks in
      Ok (if bool_decide (index res "isError" = JBool true) then "error" else "value")
  end.

Section relay.
Variable sha256_hex : string -> string.
Variable json_to_string : Value -> string.
(** The JSON syntax of a text. *)
Variable json_syntax : string -> option Syntax.
(** [serde_json::from_value] at [resource::Admission]. *)
Variable read_admission : Value -> option Admission.

Definition digest (value : Value) : string := sha256_hex (json_to_string (canonical value)).
Definition strict_json (bytes : string) : option Value := json_syntax bytes ≫= strict.

Definition parse_line (raw : string) : result Value string :=
  let? value := ok_or (strict_json raw) "unsupported or malformed MCP JSON" in
  bail_if (negb (is_object value && bool_decide (index value "jsonrpc" = JString "2.0")))
    with "unsupported MCP envelope" in
  Ok value.

Definition request_key (value : Value) : result string string :=
  bail_if (negb (id_ok value)) with "unsupported MCP request id" in
  Ok (json_to_string value).

(** ** The manifest *)

Definition annotations_ok (tool : Value) : result unit string :=
  match value_get "annotations" tool with
  | Some annotations =>
      bail_if (negb (keys annotations ["title"; "readOnlyHint"; "destructiveHint"; "idempotentHint"; "openWorldHint"]))
        with "unsupported MCP fields" in
      bail_if (negb (forallb (fun kv => if bool_decide (kv.1 = "title") then is_string kv.2 else is_boolean kv.2)
                       (default [] (as_object annotations)))) with "invalid MCP tool annotation" in
      Ok tt
  | None => Ok tt
  end.

Definition installed_tool (native : NativeConfig) (name : string) : option Tool :=
  List.find (fun t => bool_decide (tl_name t = name)) (rg_tools (nt_registry native)).

(** One declared tool: its name, its schema and the record kept of it. *)
Definition manifest_tool (native : NativeConfig) (seen : BSet.t string) (tool : Value) :
    result (string * InputSchema * AdmittedTool) string :=
  bail_if (negb (keys tool ["name"; "description"; "inputSchema"; "annotations"])) with "unsupported MCP fields" in
  let? name := ok_or (as_str (index tool "name")) "MCP manifest tool name absent" in
  bail_if (BSet.contains name seen) with "duplicate MCP manifest tool" in
  bail_if (negb (plain_text 128 (JString name))) with "invalid MCP tool name" in
  let? _u := annotations_ok tool in
  bail_if (negb (opt_all is_string (value_get "description" tool))) with "unsupported MCP tool description" in
  let? installed := ok_or (installed_tool native name) "MCP tool is not installed by operator" in
  let schema := index tool "inputSchema" in
  bail_if (negb (is_object schema && bool_decide (digest schema = tl_schema_sha256 installed)))
    with "MCP tool schema differs from operator pin" in
  let? input := ok_or (read schema) "unsupported MCP schema" in
  Ok (name, input, mkAdmittedTool (default EmptyString (as_str (index tool "description"))) schema (digest schema)
                     tool (digest tool)).

Fixpoint manifest_tools (native : NativeConfig) (tools : list Value) (seen : BSet.t string)
    (schemas : BMap.t string InputSchema) (admitted : BMap.t string AdmittedTool) :
    result (BMap.t string InputSchema * BMap.t string AdmittedTool) string :=
  match tools with
  | [] => Ok (schemas, admitted)
  | tool :: tools' =>
      let? t := manifest_tool native seen tool in
      let '(name, input, record) := t in
      manifest_tools native tools' (BSet.insert name seen) (BMap.insert name input schemas)
        (BMap.insert name record admitted)
  end.

Definition manifest (value : Value) (native : NativeConfig) (server_info : Value) :
    result (BMap.t string InputSchema * Snapshot) string :=
  bail_if (negb (keys value ["tools"])) with "unsupported MCP fields" in
  let? tools := ok_or (as_array (index value "tools")) "MCP manifest tools absent" in
  bail_if (negb (length tools =? length (rg_tools (nt_registry native)))) with "MCP manifest coverage mismatch" in
  let? sa := manifest_tools native tools [] [] [] in
  Ok (sa.1, mkSnapshot (digest value) sa.2 server_info).

(** ** Talking to the daemon *)

Fixpoint read_body (chunks : list (option string)) (bytes : string) : result string string :=
  match chunks with
  | [] => Ok bytes
  | None :: _ => Err "MCP admission unavailable"
  | Some chunk :: chunks' =>
      bail_if (Z.to_nat (16 * 1024) <? Str.len bytes + Str.len chunk) with "MCP admission response exceeds limit" in
      read_body chunks' (bytes +:+ chunk)
  end.

Definition receive (answer : HttpAnswer) : result Value string :=
  match answer with
  | Unavailable => Err "MCP admission unavailable"
  | HttpReply success chunks =>
      bail_if (negb success) with "MCP admission request rejected" in
      let? bytes := read_body chunks EmptyString in
      ok_or (strict_json bytes) "malformed MCP admission receipt"
  end.

Definition post (env : RelayEnv) (url token : string) (body : Value) : M Value :=
  let reply := receive (rv_http env url token body) in
  ([Posted url token body reply], reply).

(** What the daemon's manifest inspection is shown of a tool. *)
Definition inspected_tool (tool : Value) : Value :=
  let description := default EmptyString (as_str (index tool "description")) in
  let description := match (value_get "annotations" tool ≫= value_get "title") ≫= as_str with
                     | Some title => description +:+ String newline title
                     | None => description
                     end in
  obj [("name", index tool "name"); ("description", JString description); ("schema", index tool "inputSchema")].

Definition manifest_admitted (reply : Value) : bool :=
  match as_object reply with Some map => length map =? 3 | None => false end
  && bool_decide (index reply "verdict" = JString "allow") && bool_decide (index reply "enforce" = JBool true)
  && (is_null (index reply "reason")
      || match as_str (index reply "reason") with Some s => Str.len s <=? Z.to_nat 8192 | None => false end).

Definition manifest_body (co : Collector) (tools : list Value) : Value :=
  obj [("server", JString (ac_server_id (co_config co))); ("tools", JArray (inspected_tool <$> tools))].

Definition inspect_manifest (co : Collector) (env : RelayEnv) (value : Value) : M unit :=
  do! tools := lift (ok_or (as_array (index value "tools")) "MCP manifest absent") in
  do! reply := post env (ac_manifest_url (co_config co)) (ac_manifest_token (co_config co))
                 (manifest_body co tools) in
  ensure keys reply ["verdict"; "enforce"; "reason"] with "unsupported MCP fields" in
  ensure manifest_admitted reply with "MCP manifest was not admitted in enforcement mode" in
  ret tt.

(** ** Receipts *)

Definition validate_resource_receipt (admission : option Value) (reply : Value) : result unit string :=
  match admission with
  | Some a =>
      let? a := ok_or (read_admission a) "malformed resource admission" in
      let? _u := validate_shape json_to_string a in
      bail_if (negb (bool_decide (index reply "resources_sha256" = JString (resources_sha256 sha256_hex json_to_string a))))
        with "MCP admission resource receipt mismatch" in
      Ok tt
  | None =>
      bail_if (bool_decide (is_Some (value_get "resources_sha256" reply))) with "unexpected legacy resources receipt" in
      Ok tt
  end.

Definition expected_contract (fields : Value) : string :=
  if bool_decide (is_Some (value_get "resource_admission" fields)) then RESOURCE_CONTRACT
  else default CONTRACT (value_get "expected_contract_version" fields ≫= as_str).

Definition event_body (co : Collector) (event : string) (fields : Value) : Value :=
  JObject (fold_left (fun m kv => BMap.insert kv.1 kv.2 m)
    (List.filter (fun kv => negb (bool_decide (kv.1 ∈ ["expected_binding_sha256"; "expected_contract_version"])))
       (default [] (as_object fields)))
    (BMap.of_list [("contract_version", JString (expected_contract fields));
                   ("registry_sha256", JString (nt_registry_sha256 (ac_native (co_config co))));
                   ("session_id", JString (co_session co)); ("event", JString event)])).

Definition receipt_required : list string :=
  ["contract_version"; "registry_sha256"; "session_id"; "event"; "verdict"; "enforced"; "release"; "call_id";
   "binding_sha256"; "content_sha256"; "reason_codes"].

Definition receipt_identity (co : Collector) (event contract : string) (reply : Value) : bool :=
  match as_object reply with
  | Some map => forallb (fun k => BMap.contains_key k map) receipt_required
                && ((length map =? length receipt_required)
                    || ((length map =? length receipt_required + 1) && BMap.contains_key "resources_sha256" map))
  | None => false
  end
  && bool_decide (index reply "contract_version" = JString contract)
  && bool_decide (index reply "registry_sha256" = JString (nt_registry_sha256 (ac_native (co_config co))))
  && bool_decide (index reply "session_id" = JString (co_session co))
  && bool_decide (index reply "event" = JString event)
  && bool_decide (index reply "enforced" = JBool true).

Definition reasons_ok (reply : Value) : bool :=
  match as_array (index reply "reason_codes") with
  | Some codes => (length codes <=? 256)
                  && forallb (fun v => match as_str v with Some s => Str.len s <=? 256 | None => false end) codes
  | None => false
  end.

(** What a receipt says of the invocation, by the event it answers. *)
Definition receipt_binding (event verdict : string) (fields reply : Value) : result unit string :=
  let no_resources := negb (bool_decide (is_Some (value_get "resources_sha256" reply))) in
  if bool_decide (event = "call") then
    let? _u := (if bool_decide (verdict = "allow") then
                  bail_if (negb (match as_str (index reply "call_id") with
                                 | Some s => negb (Str.is_empty s) && (Str.len s <=? 128) | None => false end
                                 && match as_str (index reply "binding_sha256") with
                                    | Some s => is_digest s | None => false end))
                    with "MCP admission invocation binding absent" in
                  validate_resource_receipt (value_get "resource_admission" fields) reply
                else
                  bail_if (negb (is_null (index reply "call_id") && is_null (index reply "binding_sha256") && no_resources))
                    with "withheld MCP call acquired binding" in
                  Ok tt) in
    bail_if (negb (is_null (index reply "content_sha256"))) with "unexpected MCP call content hash" in
    Ok tt
  else if bool_decide (event = "result") then
    bail_if (negb (bool_decide (index reply "call_id" = index fields "call_id")
                   && bool_decide (index reply "binding_sha256" = index fields "expected_binding_sha256")))
      with "MCP result receipt changed invocation" in
    let? content := ok_or (as_str (index fields "content")) "MCP result content missing" in
    bail_if (negb (bool_decide (index reply "content_sha256" = JString (sha256_hex content))))
      with "MCP result receipt changed content" in
    bail_if (negb no_resources) with "unexpected MCP result resources hash" in
    Ok tt
  else
    bail_if (negb (bool_decide (verdict = "allow") && is_null (index reply "call_id")
                   && is_null (index reply "binding_sha256") && is_null (index reply "content_sha256") && no_resources))
      with "MCP session receipt rejected" in
    Ok tt.

Definition check_receipt (co : Collector) (event : string) (fields reply : Value) : result unit string :=
  bail_if (negb (keys reply (receipt_required ++ ["resources_sha256"]))) with "unsupported MCP fields" in
  bail_if (negb (receipt_identity co event (expected_contract fields) reply))
    with "MCP admission receipt identity mismatch" in
  let? verdict := ok_or (as_str (index reply "verdict")) "MCP admission verdict absent" in
  bail_if (negb (bool_decide (verdict ∈ ["allow"; "ask"; "deny"])
                 && bool_decide (as_bool (index reply "release") = Some (bool_decide (verdict = "allow")))))
    with "inconsistent MCP admission verdict" in
  bail_if (negb (reasons_ok reply)) with "malformed MCP admission reasons" in
  receipt_binding event verdict fields reply.

Definition event (co : Collector) (env : RelayEnv) (event : string) (fields : Value) : M Value :=
  ensure bool_decide (expected_contract fields ∈ [CONTRACT; RESOURCE_CONTRACT])
    with "unsupported native receipt contract" in
  ensure is_object fields with "invalid admission event" in
  do! reply := post env (ac_daemon_url (co_config co)) (nt_token (ac_native (co_config co)))
                 (event_body co event fields) in
  do! _u := lift (check_receipt co event fields reply) in
  ret reply.

(** ** Classification of a validated call *)

Definition opt_string (o : option string) : Value := default JNull (JString <$> o).

Definition prediction_identity (server : string) (snapshot : Snapshot) (tool : AdmittedTool) (name : string)
    (args : Value) (source : string) (revision : option string) : string :=
  digest (obj [("profile", JString "sou11-input-v1"); ("server", JString server);
               ("server_info", sn_server_info snapshot); ("snapshot", JString (sn_sha256 snapshot));
               ("tool", JString name); ("schema", JString (at_schema_sha256 tool));
               ("definition", JString (at_definition_sha256 tool)); ("arguments", args);
               ("classifier", JString source); ("revision", opt_string revision)]).

Definition classifier_invocation (co : Collector) (classifier : InvocationClassifier) (snapshot : Snapshot)
    (tool : AdmittedTool) (host_call_id : Value) (name : string) (args : Value) (baseline : ActionClass) : Invocation :=
  mkInvocation (ac_server_id (co_config co)) host_call_id (nt_registry_sha256 (ac_native (co_config co)))
    (sn_sha256 snapshot) (at_schema_sha256 tool) name (at_description tool) (at_schema tool) (at_definition tool)
    (sn_server_info snapshot) (at_definition_sha256 tool)
    (prediction_identity (ac_server_id (co_config co)) snapshot tool name args (ic_source classifier)
       (ic_revision classifier))
    (ic_revision classifier) args baseline.

Definition classify (co : Collector) (snapshot : Snapshot) (host_call_id : Value) (name : string) (args : Value)
    (baseline : ActionClass) (egress_declared : bool) : M (result ProductionVerdict string) :=
  match ac_classifier (co_config co) with
  | None => ret (Ok PAllow)
  | Some classifier =>
      do! tool := lift (ok_or (BMap.get name (sn_tools snapshot)) "classifier discovery state missing") in
      let input := classifier_invocation co classifier snapshot tool host_call_id name args baseline in
      let '(mapped, adapter_eval, prod_eval) := judge_run (ic_classify classifier input) baseline egress_declared in
      do! _u := ([Logged (mkLog (ic_source classifier) host_call_id name (iv_input_sha256 input) mapped baseline
                            adapter_eval prod_eval)], Ok tt) in
      match mapped with
      | Err f => ret (Err f)
      | Ok _ => ret prod_eval
      end
  end.

(** ** Lines the relay answers itself *)

Definition json_line (v : Value) : string := json_to_string v +:+ String newline EmptyString.

Definition withheld (id : Value) (phase : string) (reasons : Value) : string :=
  let reason := Str.join ", " (omap as_str (default [] (as_array reasons))) in
  json_line (obj [("jsonrpc", JString "2.0"); ("id", id);
    ("result", obj [("content", JArray [obj [("type", JString "text");
                      ("text", JString ("Soup Wall withheld MCP " +:+ phase +:+ " (" +:+ reason +:+ ")"))]]);
                    ("isError", JBool true)])]).

Definition error_line (id : Value) (code : Z) (message : string) : string :=
  json_line (obj [("jsonrpc", JString "2.0"); ("id", id);
    ("error", obj [("code", JNumber (NegInt code)); ("message", JString message)])]).

Definition not_classified (id : Value) (failure : string) : string :=
  error_line id (-32603)
    ("Soup Wall could not classify the MCP invocation (" +:+ failure +:+ "); policy not reached").

Definition unsupported_resource_inventory (id : Value) : string :=
  error_line id (-32601) "Native MCP admission does not support resource inventory".

(** ** The relay *)

(** A line of which only the first [sent] bytes went out. *)
Definition cut (sent : nat) (out : Effect) : Effect :=
  match out with ToHost raw => HostCut raw sent | ToServer raw => ServerCut raw sent | out => out end.

Definition write (env : RelayEnv) (out : Effect) : M unit :=
  match rv_write env with
  | None => ([out], Ok tt)
  | Some (sent, e) => ([cut sent out], Err e)
  end.

(** What a client request leads to: a request to forward, or an answer of the relay's own. *)
Inductive Next := Forward (p : Pending) | Answered (raw : string).

Definition egress_declared (tool : Tool) : bool :=
  bool_decide (tl_action_class tool = NetworkAction) || negb (bool_decide (tl_egress tool = [])).

Definition call_fields (name : string) (args : Value) (installed : Tool) : Value :=
  obj [("tool", JString name); ("args", args); ("schema_sha256", JString (tl_schema_sha256 installed))].

(** [tools/call] *)
Definition relay_call (co : Collector) (env : RelayEnv) (s : Relay) (request_id params : Value) : M Next :=
  ensure ry_ready s with "MCP call before operator-pinned manifest" in
  ensure keys params ["name"; "arguments"; "_meta"] with "unsupported MCP fields" in
  do! _u := lift (match value_get "_meta" params with Some metadata => call_metadata metadata | None => Ok tt end) in
  do! name := lift (ok_or (as_str (index params "name")) "MCP call tool absent") in
  do! installed := lift (ok_or (installed_tool (ac_native (co_config co)) name) "MCP call tool is not installed") in
  let args := default (JObject []) (value_get "arguments" params) in
  ensure is_object args with "MCP call arguments must be an object" in
  do! schema := lift (ok_or (BMap.get name (ry_schemas s)) "MCP tool schema not installed") in
  ensure validate_input schema args with "MCP argument type or size mismatch" in
  if BMap.contains_key name (ac_resource_profiles (co_config co))
     || bool_decide (is_Some (tl_resource_policy installed))
  then ret (Answered (withheld request_id "invocation" (JArray [JString "resource_executor_unsupported"])))
  else
    do! verdict := match ac_classifier (co_config co) with
                   | Some _ =>
                       do! snapshot := lift (ok_or (ry_snapshot s) "classifier discovery state missing") in
                       classify co snapshot request_id name args (tl_action_class installed) (egress_declared installed)
                   | None => ret (Ok PAllow)
                   end in
    match verdict with
    | Err failure => ret (Answered (not_classified request_id failure))
    | Ok PAsk => ret (Answered (withheld request_id "invocation" (JArray [JString "policy_unconfirmed_ask"])))
    | Ok PDeny => ret (Answered (withheld request_id "invocation" (JArray [JString "policy_denied"])))
    | Ok PAllow =>
        do! receipt := event co env "call" (call_fields name args installed) in
        if negb (bool_decide (index receipt "release" = JBool true))
        then ret (Answered (withheld request_id "invocation" (index receipt "reason_codes")))
        else ret (Forward (PCall request_id name args (index receipt "call_id") (index receipt "binding_sha256")))
    end.

(** The request with method [method], its state changes apart from the pending request. *)
Definition relay_request (co : Collector) (env : RelayEnv) (s : Relay) (method : string) (request_id params : Value) :
    M (Next * Relay) :=
  if bool_decide (method = "initialize") then
    ensure negb (ry_initialized s) with "MCP session already initialized" in
    ret (Forward (Handshake request_id), s)
  else if bool_decide (method = "tools/list") then
    ensure ry_initialized s with "MCP manifest before initialization" in
    do! _u := lift (discovery_params params) in
    ret (Forward (Manifest request_id), forget_definitions s)
  else if bool_decide (method ∈ ["resources/list"; "resources/templates/list"]) then
    ensure ry_ready s with "MCP resource inventory before operator-pinned manifest" in
    do! _u := lift (discovery_params params) in
    ret (Answered (unsupported_resource_inventory request_id), s)
  else if bool_decide (method = "ping") then
    ensure keys params [] with "unsupported MCP fields" in
    ret (Forward (Ping request_id), s)
  else if bool_decide (method = "tools/call") then
    do! next := relay_call co env s request_id params in
    ret (next, s)
  else fail "unsupported MCP method".

(** A line from the client; nothing when it closes. *)
Definition client_line (co : Collector) (env : RelayEnv) (s : Relay) (raw : string) : M Relay :=
  do! value := lift (parse_line raw) in
  ensure keys value ["jsonrpc"; "id"; "method"; "params"] with "unsupported MCP fields" in
  do! method := lift (ok_or (as_str (index value "method")) "unsupported MCP client message") in
  if bool_decide (method = "notifications/initialized") then
    ensure ry_initialized s && negb (ry_notified s) && bool_decide (ry_pending s = None)
           && bool_decide (value_get "id" value = None) with "unsupported initialized notification" in
    ensure opt_all (fun params => keys params []) (value_get "params" value) with "unsupported MCP fields" in
    do! _u := write env (ToServer raw) in
    ret (set_notified s)
  else
    ensure bool_decide (ry_pending s = None) with "concurrent MCP requests are not supported" in
    do! request_id := lift (ok_or (value_get "id" value) "unsupported MCP notification") in
    ensure length (ry_used s) <? MAX_REQUESTS with "replayed MCP request or session request limit" in
    do! key := lift (request_key request_id) in
    ensure negb (BSet.contains key (ry_used s)) with "replayed MCP request or session request limit" in
    let s := set_used (BSet.insert key (ry_used s)) s in
    let params := default (JObject []) (value_get "params" value) in
    ensure is_object params with "unsupported MCP parameters" in
    do! next := relay_request co env s method request_id params in
    match next.1 with
    | Answered raw' =>
        do! _u := write env (ToHost raw') in
        ret next.2
    | Forward p =>
        do! _u := write env (ToServer raw) in
        ret (set_deadline (rv_now env + IO_TIMEOUT) (set_pending (Some p) next.2))
    end.

Definition result_fields (tool : string) (args call_id : Value) (kind raw : string) (binding : Value) : Value :=
  obj [("tool", JString tool); ("args", args); ("call_id", call_id); ("result_kind", JString kind);
       ("delivery", JString "mcp_host"); ("content", JString raw); ("expected_binding_sha256", binding)].

(** What becomes of a server's response to the pending request: the line for the host and
    the state. *)
Definition server_response (co : Collector) (env : RelayEnv) (s : Relay) (request : Pending) (value : Value)
    (raw : string) : M (string * Relay) :=
  match request with
  | Handshake _ =>
      ensure bool_decide (value_get "error" value = None) && is_object (index value "result")
        with "MCP initialization failed" in
      do! _u := lift (initialization (index value "result")) in
      let result := index value "result" in
      ret (raw, set_initialized (index result "serverInfo")
                  (bool_decide (index (index (index result "capabilities") "tools") "listChanged" = JBool true)) s)
  | Manifest _ =>
      ensure bool_decide (value_get "error" value = None) with "MCP tools/list failed" in
      do! admitted := lift (manifest (index value "result") (ac_native (co_config co)) (ry_server_info s)) in
      do! _u := inspect_manifest co env (index value "result") in
      ret (raw, install_definitions admitted.1 admitted.2 s)
  | Ping _ =>
      ensure bool_decide (value_get "error" value = None) with "MCP ping failed" in
      ensure keys (index value "result") [] with "unsupported MCP fields" in
      ret (raw, s)
  | PCall id tool args call_id binding =>
      do! kind := lift (result_kind value) in
      do! receipt := event co env "result" (result_fields tool args call_id kind raw binding) in
      if negb (bool_decide (index receipt "release" = JBool true))
      then ret (withheld id "result" (index receipt "reason_codes"), s)
      else ret (raw, s)
  end.

Definition server_line (co : Collector) (env : RelayEnv) (s : Relay) (raw : string) : M Relay :=
  do! value := lift (parse_line raw) in
  if bool_decide (index value "method" = JString "notifications/tools/list_changed") then
    ensure keys value ["jsonrpc"; "method"; "params"] with "unsupported MCP fields" in
    ensure ry_initialized s && ry_list_changed s && bool_decide (ry_pending s = None)
      with "unsupported MCP definition change timing" in
    ensure opt_all (fun params => keys params []) (value_get "params" value) with "unsupported MCP fields" in
    do! _u := write env (ToHost raw) in
    ret (forget_definitions s)
  else
    ensure keys value ["jsonrpc"; "id"; "result"; "error"] with "unsupported MCP fields" in
    do! request := lift (ok_or (ry_pending s) "unbound or replayed MCP server response") in
    let s := set_pending None s in
    ensure bool_decide (value_get "id" value = Some (pending_id request)) with "MCP response id mismatch" in
    do! out := server_response co env s request value raw in
    do! _u := write env (ToHost out.1) in
    ret out.2.

(** One turn of the loop; nothing when the client has closed and the session is over. *)
Inductive Input :=
| FromClient (raw : result (option string) string)
| FromServer (raw : result (option string) string)
| Tick.

Definition relay_step (co : Collector) (env : RelayEnv) (s : Relay) (i : Input) : M (option Relay) :=
  match i with
  | FromClient raw =>
      do! raw := lift raw in
      match raw with
      | None =>
          ensure bool_decide (ry_pending s = None) with "MCP client closed with an outstanding request" in
          ret None
      | Some raw => do! s := client_line co env s raw in ret (Some s)
      end
  | FromServer raw =>
      do! raw := lift raw in
      do! raw := lift (ok_or raw "MCP server closed before client completion") in
      do! s := server_line co env s raw in
      ret (Some s)
  | Tick =>
      if bool_decide (is_Some (ry_pending s)) && (ry_deadline s <=? rv_now env)%Z
      then fail "MCP server response timed out"
      else ret (Some s)
  end.

Fixpoint relay (co : Collector) (s : Relay) (inputs : list (RelayEnv * Input)) : M (option Relay) :=
  match inputs with
  | [] => ret (Some s)
  | (env, i) :: inputs' =>
      do! next := relay_step co env s i in
      match next with
      | None => ret None
      | Some s => relay co s inputs'
      end
  end.

(** [run]: the session is announced before the server is started and closed whatever the
    relay did. *)
Definition run (co : Collector) (start stop : RelayEnv) (inputs : list (RelayEnv * Input)) : M unit :=
  do! _u := event co start "session_start" (JObject []) in
  let operation := relay co (relay_new (rv_now start)) inputs in
  let ended := event co stop "session_end" (JObject []) in
  (operation.1 ++ ended.1,
   let? _u := operation.2 in
   let? _u := ended.2 in
   Ok tt).
End relay.
