(* ===== verification/McpRelay.v ===== *)
(** Properties of the MCP admission relay ([McpAdmission]): what is forwarded to the server,
    what reaches the host, which requests are answered, and that a failing step writes
    nothing. *)
From S2P Require Import Prelude BTree F32 Json Net CoreTypes Adapter ToolCall Runner Action Config.
From S2P Require Import Resources Native McpInput McpClassify McpAdmission.
From Stdlib Require Import String Ascii SpecFloat.
#[local] Abbreviation length := List.length.
#[local] Abbreviation index := Native.index.

(** ** The monad *)

Lemma bind_Ok {A B} (m : M A) (k : A -> M B) (eff : list Effect) (y : B) :
  bind m k = (eff, Ok y) <->
  exists e1 x e2, m = (e1, Ok x) /\ k x = (e2, Ok y) /\ eff = e1 ++ e2.
Proof.
  unfold bind. destruct m as [e1 [x|e]]; split; [| |done|naive_solver].
  - destruct (k x) as [e2 r] eqn:Hk. intros [= <- ->]. by exists e1, x, e2.
  - intros (e' & x' & e2 & [= <- <-] & -> & ->). done.
Qed.

Lemma bind_Err {A B} (m : M A) (k : A -> M B) (eff : list Effect) (e : string) :
  bind m k = (eff, Err e) <->
  m = (eff, Err e) \/ exists e1 x e2, m = (e1, Ok x) /\ k x = (e2, Err e) /\ eff = e1 ++ e2.
Proof.
  unfold bind. destruct m as [e1 [x|e']]; split.
  - destruct (k x) as [e2 r] eqn:Hk. intros [= <- ->]. right. by exists e1, x, e2.
  - intros [?|(e' & x' & e2 & [= <- <-] & -> & ->)]; done.
  - intros [= <- <-]. by left.
  - intros [[= -> ->]|(e1' & x' & e2 & ? & _)]; done.
Qed.

Lemma write_Ok env o eff u : write env o = (eff, Ok u) -> eff = [o].
Proof. unfold write. destruct (rv_write env) as [[n e]|]; [done|]. by intros [= <-]. Qed.

(** Invert a step that succeeded. *)
Ltac m_inv H :=
  repeat match type of H with
  | bind _ _ = (_, Ok _) =>
      let e1 := fresh "eff" in let x := fresh "x" in let e2 := fresh "eff" in
      let H1 := fresh "B" in let E := fresh "E" in
      apply bind_Ok in H; destruct H as (e1 & x & e2 & H1 & H & E); m_inv H1
  | (if ?c then _ else fail _) = (_, Ok _) => let E := fresh "G" in destruct c eqn:E; [|discriminate H]
  | lift _ = (_, Ok _) => unfold lift in H; injection H as <- H
  | write _ _ = (_, Ok _) => apply write_Ok in H
  | ret _ = (_, Ok _) => unfold ret in H; injection H as <- <-
  | ok_or _ _ = Ok _ => unfold ok_or in H
  | (match ?o with Some _ => _ | None => Err _ end) = Ok _ =>
      let E := fresh "O" in destruct o eqn:E; [injection H as ->|discriminate H]
  end.

(** ** Steps that write nothing *)

Definition no_write (o : Effect) : Prop :=
  match o with ToHost _ | ToServer _ | HostCut _ _ | ServerCut _ _ => False | _ => True end.
Definition quiet {A} (m : M A) : Prop := Forall no_write m.1.

Lemma quiet_bind {A B} (m : M A) (k : A -> M B) : quiet m -> (forall x, quiet (k x)) -> quiet (bind m k).
Proof.
  unfold quiet, bind. intros Hm Hk. destruct m as [eff [x|e]]; simpl in *; [|done].
  specialize (Hk x). destruct (k x). by apply Forall_app.
Qed.
Lemma quiet_lift {A} (r : result A string) : quiet (lift r).
Proof. by constructor. Qed.
Lemma quiet_ret {A} (x : A) : quiet (ret x).
Proof. by constructor. Qed.
Lemma quiet_fail {A} (e : string) : quiet (@fail A e).
Proof. by constructor. Qed.
Create HintDb quiet.
#[local] Hint Resolve quiet_bind quiet_lift quiet_ret quiet_fail : quiet.

Ltac quiet :=
  repeat first
    [ progress intros
    | apply quiet_bind | apply quiet_lift | apply quiet_ret | apply quiet_fail | assumption
    | progress eauto with quiet
    | case_match ].

(** ** Framing *)

(** All that is still to be read. *)
Fixpoint stream (buffers : list string) : string :=
  match buffers with [] => EmptyString | b :: rest => b +:+ stream rest end.

Lemma split_line_app (a b : string) :
  split_line (a +:+ b) = match split_line a with
                         | Some (head, tail) => Some (head, tail +:+ b)
                         | None => prod_map (fun h => a +:+ h) id <$> split_line b
                         end.
Proof.
  induction a as [|c a IH]; simpl.
  - rewrite Str.app_nil_l. by destruct (split_line b) as [[]|].
  - case_bool_decide; [done|]. rewrite IH. destruct (split_line a) as [[]|]; [done|].
    by destruct (split_line b) as [[]|].
Qed.

Lemma split_line_parts (s head tail : string) : split_line s = Some (head, tail) -> head +:+ tail = s.
Proof.
  revert head. induction s as [|c s IH]; intros head; simpl; [done|].
  case_bool_decide; [by intros [= <- <-]|]. destruct (split_line s) as [[h t]|]; [|done].
  intros [= <- <-]. by rewrite Str.app_cons, (IH h).
Qed.

Lemma stream_empty (buffers : list string) : Forall (fun b => b <> EmptyString) buffers ->
  stream buffers = EmptyString -> buffers = [].
Proof. destruct 1 as [|[] ? Hb]; done. Qed.

(** Framing does not depend on how the bytes arrive: the next line is what precedes and
    includes the first line feed of everything still unread, the partial line kept from
    before first; it is returned if it is within the limit, with the rest of the stream
    intact, and refused otherwise.  The end of the input in the middle of a line is refused. *)
Theorem line_chunking (raw : string) (buffers : list string) :
  split_line raw = None -> Forall (fun b => b <> EmptyString) buffers ->
  match split_line (raw +:+ stream buffers) with
  | Some (head, tail) =>
      if MAX_CONTENT <? Str.len head then line raw buffers = Err "MCP frame exceeds admission limit"
      else exists rest, line raw buffers = Ok (Some head, EmptyString, rest) /\ stream rest = tail
                        /\ Forall (fun b => b <> EmptyString) rest
  | None =>
      if Str.is_empty (raw +:+ stream buffers) then line raw buffers = Ok (None, EmptyString, [])
      else exists e, line raw buffers = Err e
  end.
Proof.
  intros Hraw Hne. revert raw Hraw. induction Hne as [|b rest Hb Hne IH]; intros raw Hraw.
  - simpl. rewrite Str.app_nil_r, Hraw. destruct raw; simpl; eauto.
  - cbn [stream line]. rewrite (split_line_app raw), Hraw, (split_line_app b).
    destruct (split_line b) as [[head tail]|] eqn:Eb.
    + cbn [fmap option_fmap option_map prod_map fst snd]. rewrite Str.len_app. case_match; [done|].
      destruct (Str.is_empty tail) eqn:Et; eexists; (split; [done|]).
      * by destruct tail.
      * split; [done|]. constructor; [by intros ->|done].
    + assert (Hnew : split_line (raw +:+ b) = None) by (by rewrite split_line_app, Hraw, Eb).
      specialize (IH _ Hnew). rewrite (split_line_app (raw +:+ b)), Hnew in IH. 
      destruct (MAX_CONTENT <? Str.len raw + Str.len b) eqn:Eover.
      * destruct (split_line (stream rest)) as [[h t]|]; cbn [fmap option_fmap option_map prod_map fst snd].
        -- rewrite !Str.len_app. destruct (MAX_CONTENT <? _ + (_ + _)) eqn:E2; [done|].
           apply Nat.ltb_lt in Eover. apply Nat.ltb_ge in E2. lia.
        -- destruct raw; destruct b; try done; simpl; eauto.
      * destruct (split_line (stream rest)) as [[h t]|]; cbn [fmap option_fmap option_map prod_map fst snd] in IH |- *;
          rewrite Str.app_assoc in IH; done.
Qed.

Section relay.
Context (sha256_hex : string -> string) (json_to_string : Value -> string).
Context (json_syntax : string -> option Syntax) (read_admission : Value -> option Admission).
Context (co : Collector).
Abbreviation post := (post json_syntax).
Abbreviation event := (event sha256_hex json_to_string json_syntax read_admission).
Abbreviation classify := (classify sha256_hex json_to_string).
Abbreviation digest := (digest sha256_hex json_to_string).
Abbreviation check_receipt := (check_receipt sha256_hex json_to_string read_admission).
Abbreviation relay_call := (relay_call sha256_hex json_to_string json_syntax read_admission).
Abbreviation relay_request := (relay_request sha256_hex json_to_string json_syntax read_admission).
Abbreviation client_line := (client_line sha256_hex json_to_string json_syntax read_admission).
Abbreviation server_response := (server_response sha256_hex json_to_string json_syntax read_admission).
Abbreviation server_line := (server_line sha256_hex json_to_string json_syntax read_admission).
Abbreviation relay_step := (relay_step sha256_hex json_to_string json_syntax read_admission).
Abbreviation relay := (relay sha256_hex json_to_string json_syntax read_admission).
Abbreviation parse_line := (parse_line json_syntax).

Lemma quiet_post env url token body : quiet (post env url token body).
Proof. unfold quiet. simpl. by repeat constructor. Qed.
#[local] Hint Resolve quiet_post : quiet.

Lemma quiet_event env name fields : quiet (event co env name fields).
Proof. unfold McpAdmission.event. quiet. Qed.
#[local] Hint Resolve quiet_event : quiet.

Lemma quiet_inspect_manifest env value : quiet (inspect_manifest json_syntax co env value).
Proof. unfold inspect_manifest. quiet. Qed.
#[local] Hint Resolve quiet_inspect_manifest : quiet.

Lemma quiet_log (l : ClassificationLog) : quiet ([Logged l], Ok tt : result unit string).
Proof. by repeat constructor. Qed.
#[local] Hint Resolve quiet_log : quiet.

Lemma quiet_classify snapshot id name args baseline declared :
  quiet (classify co snapshot id name args baseline declared).
Proof. unfold McpAdmission.classify. quiet. Qed.
#[local] Hint Resolve quiet_classify : quiet.

Lemma quiet_relay_call env s id params : quiet (relay_call co env s id params).
Proof. unfold McpAdmission.relay_call. quiet. Qed.
#[local] Hint Resolve quiet_relay_call : quiet.

Lemma quiet_relay_request env s method id params : quiet (relay_request co env s method id params).
Proof. unfold McpAdmission.relay_request. quiet. Qed.
#[local] Hint Resolve quiet_relay_request : quiet.

Lemma quiet_server_response env s p value raw : quiet (server_response co env s p value raw).
Proof. unfold McpAdmission.server_response. quiet. Qed.
#[local] Hint Resolve quiet_server_response : quiet.

(** The same surroundings, with pipes that take the line. *)
Definition works (env : RelayEnv) : RelayEnv := mkRelayEnv (rv_http env) None (rv_now env).

Definition whole (o : Effect) : Prop := match o with ToHost _ | ToServer _ => True | _ => False end.

(** A failing step fails before its one write, or in it, where it would succeed with pipes that work. *)
Definition closing {A} (env : RelayEnv) (m working : M A) : Prop :=
  forall e, m.2 = Err e -> quiet m \/
    exists e1 o n x, rv_write env = Some (n, e) /\ whole o /\ Forall no_write e1 /\
      m.1 = e1 ++ [cut n o] /\ working = (e1 ++ [o], Ok x).

Lemma closing_quiet {A} env (m working : M A) : quiet m -> closing env m working.
Proof. intros Hm e _. by left. Qed.
Lemma closing_bind {A B} env (m : M A) (k k' : A -> M B) :
  quiet m -> (forall x, closing env (k x) (k' x)) -> closing env (bind m k) (bind m k').
Proof.
  unfold closing, quiet, bind. intros Hm Hk e He. destruct m as [eff [x|e']]; simpl in *; [|by left].
  specialize (Hk x e). destruct (k x) as [e2 r]. simpl in *.
  destruct (Hk He) as [Hq|(e1 & o & n & y & Hw & Hl & Hq & -> & ->)]; [left; by apply Forall_app|].
  right. exists (eff ++ e1), o, n, y. rewrite !app_assoc. split_and!; [done..|by apply Forall_app|done|done].
Qed.
Lemma closing_write {A} env o (x : A) :
  whole o -> closing env (bind (write env o) (fun _ => ret x)) (bind (write (works env) o) (fun _ => ret x)).
Proof.
  intros Hl e. unfold write. destruct (rv_write env) as [[n e']|] eqn:Hw; simpl; [|done]. intros [= ->].
  right. by exists [], o, n, x.
Qed.
Lemma closing_then {A B} env (m working : M A) (f : A -> B) :
  closing env m working -> closing env (bind m (fun x => ret (f x))) (bind working (fun x => ret (f x))).
Proof.
  unfold closing, quiet, bind. destruct m as [eff [x|e]]; simpl; [done|]. intros Hm e' [= <-].
  destruct (Hm e eq_refl) as [?|(e1 & o & n & y & ? & ? & ? & -> & ->)]; [by left|]. right. exists e1, o, n, (f y).
  simpl. by rewrite app_nil_r.
Qed.

Ltac closing :=
  repeat first
    [ progress intros
    | apply closing_write; exact I
    | apply closing_bind; [solve [quiet]|]
    | case_match
    | apply closing_quiet; solve [quiet] ].

(** What comes before the write does not depend on the pipes. *)
Lemma request_works env s method id params :
  relay_request co (works env) s method id params = relay_request co env s method id params.
Proof. reflexivity. Qed.
Lemma response_works env s p value raw :
  server_response co (works env) s p value raw = server_response co env s p value raw.
Proof. reflexivity. Qed.

Lemma closing_client env s raw : closing env (client_line co env s raw) (client_line co (works env) s raw).
Proof. unfold McpAdmission.client_line. closing; rewrite request_works; closing. Qed.
Lemma closing_server env s raw : closing env (server_line co env s raw) (server_line co (works env) s raw).
Proof. unfold McpAdmission.server_line. closing; rewrite response_works; closing. Qed.
Lemma closing_step env s i : closing env (relay_step co env s i) (relay_step co (works env) s i).
Proof.
  unfold McpAdmission.relay_step. destruct i as [raw|raw|].
  - apply closing_bind; [quiet|]. intros [raw'|]; [apply closing_then, closing_client|apply closing_quiet; quiet].
  - apply closing_bind; [quiet|]. intros raw'. apply closing_bind; [quiet|]. intros raw''.
    apply closing_then, closing_server.
  - apply closing_quiet. quiet.
Qed.

(** The lines written to either side. *)
Definition written (eff : list Effect) : list Effect :=
  List.filter (fun o => match o with ToHost _ | ToServer _ | HostCut _ _ | ServerCut _ _ => true | _ => false end) eff.
Lemma written_app (a b : list Effect) : written (a ++ b) = written a ++ written b.
Proof. apply List.filter_app. Qed.
Lemma written_quiet (eff : list Effect) : Forall no_write eff -> written eff = [].
Proof. induction 1 as [|o eff Ho _ IH]; [done|]. unfold written in *. simpl. by destruct o. Qed.

(** Induction over a run: [P] relates the effects so far and the state, [Q] is about the
    effects alone. *)
Lemma relay_trace (P : list Effect -> Relay -> Prop) (Q : list Effect -> Prop) :
  (forall tr s env i eff r, P tr s -> Q tr -> relay_step co env s i = (eff, r) ->
     Q (tr ++ eff) /\ forall s', r = Ok (Some s') -> P (tr ++ eff) s') ->
  forall inputs tr s eff r, P tr s -> Q tr -> relay co s inputs = (eff, r) ->
    Q (tr ++ eff) /\ forall s', r = Ok (Some s') -> P (tr ++ eff) s'.
Proof.
  intros Hstep. induction inputs as [|[env i] inputs IH]; intros tr s eff r HP HQ Hr; simpl in Hr.
  - injection Hr as <- <-. rewrite app_nil_r. naive_solver.
  - unfold bind in Hr. destruct (relay_step co env s i) as [e1 [[s1|]|e]] eqn:Hs;
      destruct (Hstep tr s env i e1 _ HP HQ Hs) as [HQ1 HP1].
    + destruct (relay co s1 inputs) as [e2 r2] eqn:Hr2. injection Hr as <- <-. simpl.
      rewrite app_assoc. eapply IH; eauto.
    + injection Hr as <- <-. simpl. rewrite app_nil_r. naive_solver.
    + injection Hr as <- <-. naive_solver.
Qed.

(** C38. Fail closed: when the relay ends with an error, every line it has written to the
    server or the host was written by an earlier line's step that succeeded, and no line after the one at which it
    fails is looked at.  The line at which it fails causes no write at all, unless what failed is the
    write itself: then some first bytes of one line may have gone out, and it is the line that this step would have written, after
    the same exchange with the daemon, had the pipe taken it. *)
Theorem relay_fails_closed s inputs eff e :
  relay co s inputs = (eff, Err e) ->
  exists done env i rest eff0 s0,
    inputs = done ++ (env, i) :: rest /\ relay co s done = (eff0, Ok (Some s0)) /\
    relay_step co env s0 i = (drop (length eff0) eff, Err e) /\
    take (length eff0) eff = eff0 /\
    (written eff = written eff0 \/
     exists e1 o n next, rv_write env = Some (n, e) /\ whole o /\ Forall no_write e1 /\
       drop (length eff0) eff = e1 ++ [cut n o] /\ written eff = written eff0 ++ [cut n o] /\
       relay_step co (works env) s0 i = (e1 ++ [o], Ok next)).
Proof.
  revert s eff. induction inputs as [|[env i] inputs IH]; intros s eff Hr; [done|]. simpl in Hr.
  apply bind_Err in Hr as [Hr|(e1 & next & e2 & Hs & Hr & ->)].
  - exists [], env, i, inputs, [], s. split_and!; [done|done|by rewrite drop_0|done|].
    destruct (closing_step env s i e) as [Hq|(e1 & o & n & x & Hw & Hl & Hq & Heff & Hwork)]; rewrite ?Hr; [done|left|right].
    + rewrite Hr in Hq. by apply written_quiet.
    + rewrite Hr in Heff. simpl in Heff. subst eff. exists e1, o, n, x. rewrite written_app, written_quiet by done.
      split_and!; try done. by destruct o.
  - destruct next as [s1|]; [|done].
    apply IH in Hr as (dn & env' & i' & rest & eff0 & s0 & -> & Hd & Hst & Ht & Hw).
    exists ((env, i) :: dn), env', i', rest, (e1 ++ eff0), s0. split_and!.
    + done.
    + simpl. apply bind_Ok. by exists e1, (Some s1), eff0.
    + rewrite length_app, drop_app_add. done.
    + rewrite length_app, take_app_add. by rewrite Ht.
    + destruct Hw as [Hw|(e1' & o & n & next & ? & ? & ? & ? & Hw & ?)]; [left; by rewrite !written_app, Hw|right].
      exists e1', o, n, next. split_and!; [done..|by rewrite length_app, drop_app_add|by rewrite !written_app, Hw, app_assoc|done].
Qed.

(** ** What a step that succeeds does *)

Definition params_of (value : Value) : Value := default (JObject []) (value_get "params" value).

Inductive client_did (env : RelayEnv) (s : Relay) (raw : string) (value : Value) (eff : list Effect) (s' : Relay) : Prop :=
| did_notify :
    value_get "id" value = None -> as_str (index value "method") = Some "notifications/initialized" ->
    ry_initialized s = true -> eff = [ToServer raw] -> s' = set_notified s -> client_did env s raw value eff s'
| did_request (method : string) (id : Value) (next : Next) (s1 : Relay) (e1 : list Effect) :
    let key := json_to_string id in
    as_str (index value "method") = Some method -> method <> "notifications/initialized" ->
    ry_pending s = None -> value_get "id" value = Some id -> id_ok id = true ->
    length (ry_used s) < MAX_REQUESTS -> (key ∉ ry_used s) ->
    relay_request co env (set_used (BSet.insert key (ry_used s)) s) method id (params_of value) = (e1, Ok (next, s1)) ->
    match next with
    | Answered raw' => eff = e1 ++ [ToHost raw'] /\ s' = s1
    | Forward p => eff = e1 ++ [ToServer raw]
                   /\ s' = set_deadline (rv_now env + IO_TIMEOUT) (set_pending (Some p) s1)
    end -> client_did env s raw value eff s'.

Lemma client_line_did env s raw eff s' :
  client_line co env s raw = (eff, Ok s') ->
  exists value, parse_line raw = Ok value /\ client_did env s raw value eff s'.
Proof.
  unfold McpAdmission.client_line. intros Hc. m_inv Hc. subst. exists x. split; [done|].
  destruct (bool_decide (x0 = "notifications/initialized")) eqn:En; boolp; subst.
  - m_inv Hc. subst. boolp. simpl.
    eapply did_notify; eauto.
  - m_inv Hc. subst. unfold request_key in B0. ok_inv B0. subst. boolp. apply bool_decide_eq_false_1 in G2.
    destruct x3 as [next s1]. simpl in Hc |- *.
    eapply (did_request _ _ _ _ _ _ x0 x1 next s1 eff); eauto.
    destruct next; m_inv Hc; by subst.
Qed.

Lemma event_Ok env name fields eff reply :
  event co env name fields = (eff, Ok reply) ->
  eff = [Posted (ac_daemon_url (co_config co)) (nt_token (ac_native (co_config co))) (event_body co name fields) (Ok reply)]
  /\ check_receipt co name fields reply = Ok tt.
Proof.
  unfold McpAdmission.event. intros He. m_inv He. subst. destruct x0.
  unfold McpAdmission.post in B. injection B as <- B. by rewrite B.
Qed.

(** The classifier, where there is one, was run on the call and its answer lets it pass. *)
Definition classified (s : Relay) (id : Value) (name : string) (args : Value) (installed : Tool) (eff : list Effect) :
    Prop :=
  match ac_classifier (co_config co) with
  | None => eff = []
  | Some classifier =>
      exists snapshot tool c class log, ry_snapshot s = Some snapshot /\ BMap.get name (sn_tools snapshot) = Some tool
        /\ ic_classify classifier (classifier_invocation sha256_hex json_to_string co classifier snapshot tool id name
                                     args (tl_action_class installed)) = Classified c
        /\ map_classification c = Ok class
        /\ compose_production_policy c (tl_action_class installed) (egress_declared installed) = Ok PAllow
        /\ eff = [Logged log] /\ lg_authoritative log = Ok PAllow
  end.

(** What precedes the forwarding of a call. *)
Definition args_of (params : Value) : Value := default (JObject []) (value_get "arguments" params).
Definition call_post (name : string) (args : Value) (installed : Tool) (receipt : Value) : Effect :=
  Posted (ac_daemon_url (co_config co)) (nt_token (ac_native (co_config co)))
    (event_body co "call" (call_fields name args installed)) (Ok receipt).
Record call_admitted (s : Relay) (id params : Value) (eff : list Effect) (p : Pending)
    (name : string) (installed : Tool) (schema : InputSchema) (receipt : Value) (before : list Effect) : Prop :=
mkCallAdmitted {
  ca_ready : ry_ready s = true;
  ca_named : as_str (index params "name") = Some name;
  ca_installed : installed_tool (ac_native (co_config co)) name = Some installed;
  ca_no_policy : tl_resource_policy installed = None;
  ca_schema : BMap.get name (ry_schemas s) = Some schema;
  ca_conforms : validate_input schema (args_of params) = true;
  ca_classified : classified s id name (args_of params) installed before;
  ca_posted : eff = before ++ [call_post name (args_of params) installed receipt];
  ca_checked : check_receipt co "call" (call_fields name (args_of params) installed) receipt = Ok tt;
  ca_released : index receipt "release" = JBool true;
  ca_pending : p = PCall id name (args_of params) (index receipt "call_id") (index receipt "binding_sha256")
}.

Lemma classify_allow s id name args installed eff :
  (match ac_classifier (co_config co) with
   | Some _ => do! snapshot := lift (ok_or (ry_snapshot s) "classifier discovery state missing") in
               classify co snapshot id name args (tl_action_class installed) (egress_declared installed)
   | None => ret (Ok PAllow)
   end) = (eff, Ok (Ok PAllow)) ->
  classified s id name args installed eff.
Proof.
  unfold classified, McpAdmission.classify. destruct (ac_classifier (co_config co)) as [cl|]; [|by intros [= <-]].
  intros Hc. m_inv Hc. subst.
  destruct (ic_classify cl _) as [| | |c] eqn:Ec; simpl in Hc; [done..|].
  destruct (map_classification c) as [class|] eqn:Em; [|done]. simpl in Hc. injection Hc as <- Hc.
  eexists _, _, c, class, _. split_and!; eauto.
Qed.

Lemma relay_call_forwards env s id params eff p :
  relay_call co env s id params = (eff, Ok (Forward p)) ->
  exists name installed schema receipt before, call_admitted s id params eff p name installed schema receipt before.
Proof.
  unfold McpAdmission.relay_call. intros Hc. m_inv Hc. subst.
  destruct (_ || _) eqn:Ep in Hc; [by m_inv Hc|]. boolp. m_inv Hc. subst.
  destruct x3 as [[| |]|]; try by m_inv Hc.
  m_inv Hc. destruct (negb _) eqn:Er in Hc; [by m_inv Hc|]. unfold ret in Hc. injection Hc as <- <-. subst.
  boolp. apply event_Ok in B1 as [-> Hk]. simpl. rewrite ?app_nil_r.
  exists x0, x1, x2, x3, eff. constructor; eauto.
  - by apply eq_None_not_Some.
  - by apply classify_allow.
Qed.

(** The requests other than calls change the state themselves and post nothing. *)
Inductive request_did (env : RelayEnv) (s : Relay) (method : string) (id params : Value) :
    list Effect -> Next -> Relay -> Prop :=
| did_initialize : request_did env s method id params [] (Forward (Handshake id)) s
| did_list : ry_initialized s = true ->
    request_did env s method id params [] (Forward (Manifest id)) (forget_definitions s)
| did_ping : request_did env s method id params [] (Forward (Ping id)) s
| did_answer raw : ry_ready s = true -> request_did env s method id params [] (Answered raw) s
| did_call eff next : method = "tools/call" -> relay_call co env s id params = (eff, Ok next) ->
    request_did env s method id params eff next s.

Lemma relay_request_did env s method id params eff next s1 :
  relay_request co env s method id params = (eff, Ok (next, s1)) ->
  request_did env s method id params eff next s1 /\
  (method = "tools/call" -> relay_call co env s id params = (eff, Ok next)).
Proof.
  unfold McpAdmission.relay_request. intros Hr.
  repeat case_bool_decide; subst; m_inv Hr; subst; simplify_eq/=; rewrite ?app_nil_r; boolp;
    try (split; [by constructor|done]).
  split; [by constructor|]. intros ->. by rewrite !elem_of_cons, elem_of_nil in *; naive_solver.
Qed.

(** A server's line, when it is accepted. *)
Inductive server_did (env : RelayEnv) (s : Relay) (raw : string) (value : Value) (eff : list Effect) (s' : Relay) : Prop :=
| did_change :
    ry_initialized s = true -> ry_pending s = None -> eff = [ToHost raw] -> s' = forget_definitions s ->
    server_did env s raw value eff s'
| did_response (p : Pending) (e1 : list Effect) (out : string) :
    ry_pending s = Some p -> value_get "id" value = Some (pending_id p) ->
    server_response co env (set_pending None s) p value raw = (e1, Ok (out, s')) ->
    eff = e1 ++ [ToHost out] -> server_did env s raw value eff s'.

Lemma server_line_did env s raw eff s' :
  server_line co env s raw = (eff, Ok s') ->
  exists value, parse_line raw = Ok value /\ server_did env s raw value eff s'.
Proof.
  unfold McpAdmission.server_line. intros Hc. m_inv Hc. subst. exists x. split; [done|].
  case_bool_decide.
  - m_inv Hc. subst. boolp. by apply did_change.
  - m_inv Hc. subst. boolp. destruct x1 as [out s2]. simpl. rewrite ?app_nil_r.
    by eapply did_response.
Qed.

(** A response to a call: the receipt under which it was released or withheld. *)
Definition result_post (tool : string) (args call_id : Value) (kind raw : string) (binding receipt : Value) : Effect :=
  Posted (ac_daemon_url (co_config co)) (nt_token (ac_native (co_config co)))
    (event_body co "result" (result_fields tool args call_id kind raw binding)) (Ok receipt).

Lemma call_response env s id tool args call_id binding value raw e1 out s' :
  server_response co env s (PCall id tool args call_id binding) value raw = (e1, Ok (out, s')) ->
  exists kind receipt, result_kind value = Ok kind /\ e1 = [result_post tool args call_id kind raw binding receipt] /\
    check_receipt co "result" (result_fields tool args call_id kind raw binding) receipt = Ok tt /\ s' = s /\
    out = (if bool_decide (index receipt "release" = JBool true) then raw
           else withheld json_to_string id "result" (index receipt "reason_codes")).
Proof.
  unfold McpAdmission.server_response. intros Hc. m_inv Hc. subst. apply event_Ok in B0 as [-> Hk].
  exists x, x0. case_bool_decide; simpl in Hc; m_inv Hc; simplify_eq/=; done.
Qed.

(** ** The definitions in force *)

Lemma manifest_tools_schemas native tools seen schemas admitted schemas' admitted' :
  manifest_tools sha256_hex json_to_string native tools seen schemas admitted = Ok (schemas', admitted') ->
  forall name sc, BMap.get name schemas' = Some sc ->
    BMap.get name schemas = Some sc \/
    exists tool installed, tool ∈ tools /\ as_str (index tool "name") = Some name /\
      installed_tool native name = Some installed /\
      digest (index tool "inputSchema") = tl_schema_sha256 installed /\ read (index tool "inputSchema") = Some sc.
Proof.
  revert seen schemas admitted. induction tools as [|tool tools IH]; intros seen schemas admitted Hm name sc Hg; simpl in Hm.
  - injection Hm as <- <-. by left.
  - destruct (manifest_tool _ _ _ _ _) as [[[n i] r]|] eqn:Ht; [|done].
    destruct (IH _ _ _ Hm _ _ Hg) as [Hi|(t & ins & Ht' & Hr)]; [|right; exists t, ins; by rewrite elem_of_cons; auto].
    rewrite BMap.bmap_get_insert in Hi. case_decide as Hc; [|by left]. apply cmp_eq in Hc as ->. simplify_eq. right.
    unfold manifest_tool in Ht. ok_inv Ht. simplify_eq. unfold ok_or in *. boolp. repeat case_match; simplify_eq.
    exists tool, a1. split_and!; eauto. apply elem_of_cons. by left.
Qed.

Lemma step_Ok env s i eff s' :
  relay_step co env s i = (eff, Ok (Some s')) ->
  (exists raw, i = FromClient (Ok (Some raw)) /\ client_line co env s raw = (eff, Ok s')) \/
  (exists raw, i = FromServer (Ok (Some raw)) /\ server_line co env s raw = (eff, Ok s')) \/
  (i = Tick /\ eff = [] /\ s' = s).
Proof.
  unfold McpAdmission.relay_step. destruct i as [raw|raw|]; intros Hs.
  - m_inv Hs. subst. destruct x as [raw'|]; [|by m_inv Hs]. m_inv Hs. subst. rewrite app_nil_r. left. eauto.
  - m_inv Hs. subst. simplify_eq. rewrite app_nil_r. right. left. eauto.
  - case_match; [done|]. m_inv Hs. simplify_eq. auto.
Qed.

Lemma quiet_no_server {A} (m : M A) eff r pre raw post :
  quiet m -> m = (eff, r) -> eff = pre ++ ToServer raw :: post -> False.
Proof. intros Hq -> ->. unfold quiet in Hq. simpl in Hq. apply Forall_app in Hq as [_ Hq]. by inversion Hq. Qed.

Lemma last_write (e1 : list Effect) o pre raw post :
  Forall no_write e1 -> e1 ++ [o] = pre ++ ToServer raw :: post -> post = [] /\ pre = e1 /\ o = ToServer raw.
Proof.
  intros Hq He. destruct post as [|o' post _] using rev_ind.
  - by apply app_inj_tail in He as [-> ->].
  - rewrite app_comm_cons, app_assoc in He. apply app_inj_tail in He as [-> _].
    apply Forall_app in Hq as [_ Hq]. by inversion Hq.
Qed.

(** A line reaches the server at the end of the client step that received it. *)
Lemma server_write env s i eff r pre raw post :
  relay_step co env s i = (eff, r) -> eff = pre ++ ToServer raw :: post ->
  post = [] /\ exists s', r = Ok (Some s') /\ client_line co env s raw = (eff, Ok s').
Proof.
  intros Hs He. destruct r as [[s'|]|e].
  - apply step_Ok in Hs as [(raw' & -> & Hc)|[(raw' & -> & Hc)|(-> & -> & ->)]].
    + pose proof Hc as Hc0. apply client_line_did in Hc as (value & Hp & [? _ _ -> _|method id next s1 e1 key ??????? Hrr Hn]).
      * apply (last_write []) in He as (-> & -> & [= ->]); [eauto|done].
      * pose proof (quiet_relay_request env (set_used (BSet.insert key (ry_used s)) s) method id (params_of value)) as Hq.
        rewrite Hrr in Hq.
        destruct next as [?|?]; destruct Hn as [-> _]; apply last_write in He as (-> & -> & [=]); subst; eauto.
    + exfalso. apply server_line_did in Hc as (value & Hp & [_ _ -> _| p e1 out ?? Hr ->]).
      * by apply (last_write []) in He as (_ & _ & [=]).
      * pose proof (quiet_server_response env (set_pending None s) p value raw') as Hq. rewrite Hr in Hq.
        by apply last_write in He as (_ & _ & [=]).
    + by destruct pre.
  - exfalso. unfold McpAdmission.relay_step in Hs. destruct i as [raw'|raw'|].
    + m_inv Hs. destruct x; m_inv Hs; unfold ret in *; subst; simplify_eq/=; by destruct pre.
    + m_inv Hs. unfold ret in *. by simplify_eq.
    + by case_match.
  - exfalso. destruct (closing_step env s i e) as [Hq|(e1 & o & n & x & _ & Hl & Hq & Heff & _)]; rewrite ?Hs; [done|..].
    + rewrite Hs in Hq. eapply quiet_no_server; eauto.
    + rewrite Hs in Heff. simpl in Heff. rewrite He in Heff. symmetry in Heff. apply last_write in Heff as (_ & _ & Ho); [|done].
      by destruct o.
Qed.

(** ** The invariant of a session *)

Definition manifest_post (tools : list Value) (reply : Value) : Effect :=
  Posted (ac_manifest_url (co_config co)) (ac_manifest_token (co_config co)) (manifest_body co tools) (Ok reply).

(** The definitions in force are those of a manifest that matches the operator's pins and
    that the daemon admitted. *)
Definition definitions_ok (tr : list Effect) (s : Relay) : Prop :=
  ry_ready s = true ->
  exists value tools info snapshot reply,
    as_array (index value "tools") = Some tools /\
    manifest sha256_hex json_to_string value (ac_native (co_config co)) info = Ok (ry_schemas s, snapshot) /\
    ry_snapshot s = Some snapshot /\ manifest_post tools reply ∈ tr /\ manifest_admitted reply = true.

(** The pending call is one the daemon released, under the binding it gave. *)
Definition pending_ok (tr : list Effect) (s : Relay) : Prop :=
  forall id tool args call_id binding, ry_pending s = Some (PCall id tool args call_id binding) ->
  exists installed receipt,
    installed_tool (ac_native (co_config co)) tool = Some installed /\
    call_post tool args installed receipt ∈ tr /\
    check_receipt co "call" (call_fields tool args installed) receipt = Ok tt /\
    index receipt "release" = JBool true /\
    call_id = index receipt "call_id" /\ binding = index receipt "binding_sha256".

Definition session_ok (tr : list Effect) (s : Relay) : Prop := definitions_ok tr s /\ pending_ok tr s.

Lemma session_ok_new now : session_ok [] (relay_new now).
Proof. split; by intros ?. Qed.

Lemma definitions_mono tr eff s s' :
  ry_ready s' = ry_ready s -> ry_schemas s' = ry_schemas s -> ry_snapshot s' = ry_snapshot s ->
  definitions_ok tr s -> definitions_ok (tr ++ eff) s'.
Proof.
  unfold definitions_ok. intros -> -> -> Hd Hr. destruct (Hd Hr) as (v & ts & i & sn & r & ? & ? & ? & ? & ?).
  exists v, ts, i, sn, r. rewrite elem_of_app. auto 10.
Qed.
Lemma definitions_not_ready tr s : ry_ready s = false -> definitions_ok tr s.
Proof. by intros Hr Hr'; rewrite Hr in Hr'. Qed.
Lemma pending_none tr s : ry_pending s = None -> pending_ok tr s.
Proof. intros Hn ?????. by rewrite Hn. Qed.
Lemma pending_mono tr eff s s' : ry_pending s' = ry_pending s -> pending_ok tr s -> pending_ok (tr ++ eff) s'.
Proof.
  unfold pending_ok. intros -> Hp ????? Hq. destruct (Hp _ _ _ _ _ Hq) as (i & r & ? & ? & ?).
  exists i, r. rewrite elem_of_app. auto.
Qed.

Lemma inspect_manifest_Ok env value eff u :
  inspect_manifest json_syntax co env value = (eff, Ok u) ->
  exists tools reply, as_array (index value "tools") = Some tools /\ eff = [manifest_post tools reply] /\
    manifest_admitted reply = true.
Proof.
  unfold inspect_manifest. intros Hi. m_inv Hi. subst. unfold McpAdmission.post in B. injection B as <- B.
  exists x, x0. by rewrite B.
Qed.

Lemma client_session env tr s raw eff s' :
  session_ok tr s -> client_line co env s raw = (eff, Ok s') -> session_ok (tr ++ eff) s'.
Proof.
  intros [Hd Hp] Hc. apply client_line_did in Hc as (value & _ & [? _ _ -> ->|method id next s1 e1 key ? ? Hn ???? Hr Hs']).
  - split; [by eapply definitions_mono|by eapply pending_mono].
  - apply relay_request_did in Hr as [Hr _].
    assert (Hd1 : definitions_ok (tr ++ eff) s1).
    { inversion Hr; subst; first [by apply definitions_not_ready | by eapply definitions_mono]. }
    assert (Hsame : definitions_ok (tr ++ eff) s1 -> forall d p, definitions_ok (tr ++ eff) (set_deadline d (set_pending p s1))).
    { intros Hd2 d p. rewrite <-(app_nil_r (tr ++ eff)). by eapply definitions_mono. }
    assert (Hn1 : ry_pending s1 = None) by (inversion Hr; by subst).
    destruct next as [p|raw']; destruct Hs' as [-> ->]; split; [by apply (Hsame Hd1)| |done|by apply pending_none].
    intros id' tool args call_id binding [= ->]. inversion Hr; subst.
    match goal with H : relay_call _ _ _ _ _ = _ |- _ =>
      apply relay_call_forwards in H as (name & installed & schema & receipt & before & [_ _ ? _ _ _ _ -> ? ? [= -> -> -> -> ->]]) end.
    exists installed, receipt. split_and!; [done| |done..]. rewrite !elem_of_app, !list_elem_of_singleton. auto.
Qed.

Lemma server_session env tr s raw eff s' :
  session_ok tr s -> server_line co env s raw = (eff, Ok s') -> session_ok (tr ++ eff) s'.
Proof.
  intros [Hd Hp] Hc. apply server_line_did in Hc as (value & _ & [_ ? -> ->|p e1 out Hs _ Hr ->]).
  - split; [by apply definitions_not_ready|by apply pending_none].
  - assert (Hsame : forall e, definitions_ok (tr ++ e) (set_pending None s)) by (intros e; by eapply definitions_mono).
    destruct p as [id|id|id|id tool args call_id binding].
    + unfold McpAdmission.server_response in Hr. m_inv Hr. simplify_eq/=.
      split; [by eapply definitions_mono|by apply pending_none].
    + unfold McpAdmission.server_response in Hr. m_inv Hr. destruct x as [schemas snapshot]. simplify_eq/=.
      apply inspect_manifest_Ok in B0 as (tools & reply & Ht & -> & Ha).
      split; [|by apply pending_none]. intros _. simpl.
      exists (index value "result"), tools, (ry_server_info s), snapshot, reply. split_and!; try done.
      rewrite elem_of_app, elem_of_cons. auto.
    + unfold McpAdmission.server_response in Hr. m_inv Hr. simplify_eq/=. split; [done|by apply pending_none].
    + apply call_response in Hr as (kind & receipt & _ & _ & _ & -> & _). split; [done|by apply pending_none].
Qed.

Lemma step_session env tr s i eff s' :
  session_ok tr s -> relay_step co env s i = (eff, Ok (Some s')) -> session_ok (tr ++ eff) s'.
Proof.
  intros Hok Hs. apply step_Ok in Hs as [(raw & _ & Hc)|[(raw & _ & Hc)|(_ & -> & ->)]].
  - by eapply client_session.
  - by eapply server_session.
  - by rewrite app_nil_r.
Qed.

(** The call in [value] was admitted by what was done before, [pre]. *)
Definition admitted_before (pre : list Effect) (value : Value) : Prop :=
  exists name installed receipt before tools tool schema reply,
    let args := args_of (params_of value) in
    as_str (index (params_of value) "name") = Some name /\
    installed_tool (ac_native (co_config co)) name = Some installed /\ tl_resource_policy installed = None /\
    (manifest_post tools reply ∈ pre /\ manifest_admitted reply = true) /\
    (tool ∈ tools /\ as_str (index tool "name") = Some name /\
     digest (index tool "inputSchema") = tl_schema_sha256 installed /\
     read (index tool "inputSchema") = Some schema /\ validate_input schema args = true) /\
    (forall classifier, ac_classifier (co_config co) = Some classifier ->
       exists invocation c class, iv_tool invocation = name /\ iv_args invocation = args /\
         ic_classify classifier invocation = Classified c /\ map_classification c = Ok class /\
         compose_production_policy c (tl_action_class installed) (egress_declared installed) = Ok PAllow) /\
    pre = before ++ [call_post name args installed receipt] /\
    check_receipt co "call" (call_fields name args installed) receipt = Ok tt /\
    index receipt "release" = JBool true.

Definition calls_admitted (tr : list Effect) : Prop :=
  forall pre raw post value, tr = pre ++ ToServer raw :: post -> parse_line raw = Ok value ->
    index value "method" = JString "tools/call" -> admitted_before pre value.

Lemma manifest_schema tr s name sc :
  definitions_ok tr s -> ry_ready s = true -> BMap.get name (ry_schemas s) = Some sc ->
  exists tools tool installed reply, manifest_post tools reply ∈ tr /\ manifest_admitted reply = true /\
    tool ∈ tools /\ as_str (index tool "name") = Some name /\
    installed_tool (ac_native (co_config co)) name = Some installed /\
    digest (index tool "inputSchema") = tl_schema_sha256 installed /\ read (index tool "inputSchema") = Some sc.
Proof.
  intros Hd Hr Hg. destruct (Hd Hr) as (value & tools & info & snapshot & reply & Ht & Hm & _ & Hp & Ha).
  unfold manifest in Hm. ok_inv Hm. unfold ok_or in R. rewrite Ht in R. injection R as <-.
  destruct a0 as [schemas admitted]. simpl in Hm. subst schemas.
  destruct (manifest_tools_schemas _ _ _ _ _ _ _ R0 _ _ Hg) as [|(tool & installed & ? & ? & ? & ? & ?)]; [done|].
  exists tools, tool, installed, reply. auto 10.
Qed.

Lemma client_admitted env tr s raw pre eff s' value :
  session_ok tr s -> client_line co env s raw = (eff, Ok s') -> eff = pre ++ [ToServer raw] ->
  parse_line raw = Ok value -> index value "method" = JString "tools/call" -> admitted_before (tr ++ pre) value.
Proof.
  intros [Hd _] Hc -> Hp Hm. apply client_line_did in Hc as (value' & Hp' & Hdid).
  rewrite Hp in Hp'. injection Hp' as <-.
  destruct Hdid as [_ Hm' _ _ _|method id next s1 e1 key Hm' _ _ _ _ _ _ Hr Hs']; rewrite Hm in Hm'; [done|].
  injection Hm' as <-. apply relay_request_did in Hr as [_ Hr]. specialize (Hr eq_refl).
  destruct next as [p|raw']; destruct Hs' as [Heq _]; apply app_inj_tail in Heq as [-> [=]].
  apply relay_call_forwards in Hr as (name & installed & schema & receipt & before & Ha).
  destruct Ha as [Hready Hname Hinst Hnp Hsch Hconf Hcl -> Hchk Hrel _]. simpl in Hready, Hsch.
  destruct (manifest_schema tr s name schema Hd Hready Hsch) as (tools & tool & installed' & reply & ? & ? & ? & ? & ? & ? & ?).
  simplify_eq. exists name, installed, receipt, (tr ++ before), tools, tool, schema, reply. simpl.
  split_and!; try done.
  - rewrite !elem_of_app. auto.
  - intros classifier Hcls. unfold classified in Hcl. rewrite Hcls in Hcl.
    destruct Hcl as (snapshot & t & c & class & log & _ & _ & Hc & Hmap & Hcomp & _).
    eexists _, c, class. split_and!; try exact Hc; done.
  - by rewrite app_assoc.
Qed.

Lemma step_admitted env tr s i eff r :
  session_ok tr s -> calls_admitted tr -> relay_step co env s i = (eff, r) ->
  calls_admitted (tr ++ eff) /\ forall s', r = Ok (Some s') -> session_ok (tr ++ eff) s'.
Proof.
  intros Hok Hq Hs. split; [|intros s' ->; by eapply step_session].
  intros pre raw post value He Hp Hm. apply List.app_eq_app in He as (l & [[-> Hl]|[-> Hl]]).
  - destruct l as [|o l]; simpl in Hl.
    + destruct (server_write env s i eff r [] raw post Hs (eq_sym Hl)) as (-> & s' & -> & Hc).
      rewrite <-(app_nil_r pre). eapply client_admitted; eauto. by rewrite app_nil_r in Hok.
    + injection Hl as <- ->. by eapply Hq.
  - destruct (server_write env s i eff r l raw post Hs Hl) as (-> & s' & -> & Hc).
    by eapply client_admitted.
Qed.

(** C34. No call reaches the server unless it was admitted: for every line the relay forwards
    that calls a tool, at whatever point of a session, the tool is one the operator installed
    (without a resource policy), the arguments conform to a schema with the operator's pinned
    digest, taken from a manifest the daemon had admitted in enforcement mode, the classifier
    (if there is one) answered with a single known action that the production policy allows,
    and the last thing the relay did before forwarding was to post the call, with these very
    arguments, to the daemon and read back a receipt that names this session and registry,
    is consistent, and releases the call. *)
Theorem relay_forwards_admitted now inputs eff r pre raw post value :
  relay co (relay_new now) inputs = (eff, r) -> eff = pre ++ ToServer raw :: post ->
  parse_line raw = Ok value -> index value "method" = JString "tools/call" ->
  admitted_before pre value.
Proof.
  intros Hr He Hp Hm.
  assert (Hq : calls_admitted []) by (intros [|??] ??? [=]).
  destruct (relay_trace session_ok calls_admitted
              ltac:(intros; by eapply step_admitted) inputs [] _ eff r (session_ok_new now) Hq Hr) as [HQ _].
  by eapply HQ.
Qed.

Lemma run_session now inputs eff s : relay co (relay_new now) inputs = (eff, Ok (Some s)) -> session_ok eff s.
Proof.
  intros Hr. assert (Hq : calls_admitted []) by (intros [|??] ??? [=]).
  destruct (relay_trace session_ok calls_admitted
              ltac:(intros; by eapply step_admitted) inputs [] _ eff _ (session_ok_new now) Hq Hr) as [_ HP].
  by apply HP.
Qed.

Lemma result_receipt tool args call_id kind raw binding receipt :
  check_receipt co "result" (result_fields tool args call_id kind raw binding) receipt = Ok tt ->
  index receipt "call_id" = call_id /\ index receipt "binding_sha256" = binding /\
  index receipt "content_sha256" = JString (sha256_hex raw).
Proof.
  unfold McpAdmission.check_receipt. intros Hc. ok_inv Hc. unfold receipt_binding in Hc. simpl in Hc. ok_inv Hc.
  boolp. cbn in *. by simplify_eq.
Qed.

(** C35. What the host sees of a call's result: when the server answers the pending call, the
    relay first posts the exact line to the daemon under the call's identity; the daemon's
    receipt repeats the identity and binding the call was admitted under earlier in the
    session and the digest of this very line.  The host receives the line itself if the
    receipt releases it, and otherwise a notice in its place; no request is left pending. *)
Theorem relay_releases_results now inputs eff s id tool args call_id binding env raw eff' s' :
  relay co (relay_new now) inputs = (eff, Ok (Some s)) ->
  ry_pending s = Some (PCall id tool args call_id binding) ->
  relay_step co env s (FromServer (Ok (Some raw))) = (eff', Ok (Some s')) ->
  exists value kind installed admission receipt out,
    parse_line raw = Ok value /\ value_get "id" value = Some id /\ result_kind value = Ok kind /\
    call_post tool args installed admission ∈ eff /\ index admission "release" = JBool true /\
    eff' = [result_post tool args call_id kind raw binding receipt; ToHost out] /\
    index receipt "call_id" = index admission "call_id" /\
    index receipt "binding_sha256" = index admission "binding_sha256" /\
    index receipt "content_sha256" = JString (sha256_hex raw) /\
    out = (if bool_decide (index receipt "release" = JBool true) then raw
           else withheld json_to_string id "result" (index receipt "reason_codes")) /\
    ry_pending s' = None.
Proof.
  intros Hr Hp Hs. destruct (run_session _ _ _ _ Hr) as [_ Hpend].
  destruct (Hpend _ _ _ _ _ Hp) as (installed & admission & _ & Hpost & _ & Hrel & -> & ->).
  apply step_Ok in Hs as [(? & [=] & _)|[(? & [= <-] & Hc)|([=] & _)]].
  apply server_line_did in Hc as (value & Hv & [_ Hn _ _|p e1 out Hp' Hid Hresp ->]); [congruence|]. simplify_eq.
  apply call_response in Hresp as (kind & receipt & Hk & -> & Hc & -> & Ho).
  apply result_receipt in Hc as (? & ? & ?).
  exists value, kind, installed, admission, receipt, out. split_and!; done.
Qed.

(** ** Request identifiers *)

(** The identifier a forwarded line carries. *)
Definition forwarded_key (o : Effect) : option string :=
  match o with
  | ToServer raw => match parse_line raw with Ok v => json_to_string <$> value_get "id" v | Err _ => None end
  | _ => None
  end.
Definition forwarded_keys (eff : list Effect) : list string := omap forwarded_key eff.

Definition ids_fresh (tr : list Effect) : Prop :=
  NoDup (forwarded_keys tr) /\ length (forwarded_keys tr) <= MAX_REQUESTS.
Definition ids_used (tr : list Effect) (s : Relay) : Prop :=
  (forall k, k ∈ forwarded_keys tr -> k ∈ ry_used s) /\ length (ry_used s) <= MAX_REQUESTS.

Lemma no_server_keys (eff : list Effect) :
  (forall pre raw post, eff = pre ++ ToServer raw :: post -> False) -> forwarded_keys eff = [].
Proof.
  intros Hn. unfold forwarded_keys. induction eff as [|o eff IH]; [done|].
  assert (omap forwarded_key eff = []) as Hr.
  { apply IH. intros pre raw post ->. apply (Hn (o :: pre) raw post). done. }
  csimpl. rewrite Hr. destruct o as [|raw| | | |]; try done. exfalso. by apply (Hn [] raw eff).
Qed.
Lemma quiet_keys (eff : list Effect) : Forall no_write eff -> forwarded_keys eff = [].
Proof.
  intros Hq. apply no_server_keys. intros pre raw post ->. apply Forall_app in Hq as [_ Hq]. by inversion Hq.
Qed.

Lemma bset_length_insert (k : string) (l : BSet.t string) : length (BSet.insert k l) <= S (length l).
Proof. induction l as [|k' l IH]; simpl; [lia|]. destruct (cmp k k'); simpl in *; lia. Qed.

Lemma request_used env s method id params eff next s1 :
  request_did env s method id params eff next s1 -> ry_used s1 = ry_used s.
Proof. by destruct 1. Qed.

Lemma client_ids env tr s raw eff s' :
  ids_used tr s -> ids_fresh tr -> client_line co env s raw = (eff, Ok s') ->
  ids_used (tr ++ eff) s' /\ ids_fresh (tr ++ eff).
Proof.
  intros [Hu Hl] [Hn Hc] Hr. apply client_line_did in Hr as (value & Hp & Hdid).
  unfold ids_used, ids_fresh, forwarded_keys in *.
  destruct Hdid as [Hi _ _ -> ->|method id next s1 e1 key _ _ _ Hi _ Hlt Hfresh Hr Hs'].
  - rewrite omap_app. csimpl. rewrite Hp, Hi. csimpl. by rewrite app_nil_r.
  - pose proof (quiet_relay_request env (set_used (BSet.insert key (ry_used s)) s) method id (params_of value)) as Hq.
    rewrite Hr in Hq. apply quiet_keys in Hq. unfold forwarded_keys in Hq. simpl in Hq.
    apply relay_request_did in Hr as [Hr _]. apply request_used in Hr. simpl in Hr.
    pose proof (bset_length_insert key (ry_used s)) as Hins.
    assert (Hused : ry_used s' = BSet.insert key (ry_used s)) by (destruct next; destruct Hs' as [_ ->]; done).
    rewrite Hused.
    destruct next as [p|raw']; destruct Hs' as [-> _]; rewrite !omap_app, Hq; csimpl.
    + rewrite Hp, Hi. csimpl. split_and!.
      * intros k. rewrite elem_of_app, list_elem_of_singleton, BSet.bset_elem_of_insert. naive_solver.
      * lia.
      * apply NoDup_app. split_and!; [done| |apply NoDup_singleton].
        intros k Hk ->%list_elem_of_singleton. by apply Hfresh, Hu.
      * rewrite length_app. simpl.
        assert (length (omap forwarded_key tr) <= length (ry_used s)); [|lia].
        apply (submseteq_length), NoDup_submseteq; auto.
    + rewrite app_nil_r. split_and!; try done; [|lia].
      intros k Hk. rewrite BSet.bset_elem_of_insert. auto.
Qed.

Lemma server_no_keys env s raw eff s' : server_line co env s raw = (eff, Ok s') -> forwarded_keys eff = [].
Proof.
  intros Hr. apply no_server_keys. intros pre raw' post ->.
  apply server_line_did in Hr as (value & _ & [_ _ He _|p e1 out _ _ Hq He]).
  - by destruct pre as [|? [|??]].
  - pose proof (quiet_server_response env (set_pending None s) p value raw) as Hq'. rewrite Hq in Hq'.
    symmetry in He. by apply last_write in He as (_ & _ & [=]).
Qed.

Lemma server_used env s raw eff s' : server_line co env s raw = (eff, Ok s') -> ry_used s' = ry_used s.
Proof.
  intros Hr. apply server_line_did in Hr as (value & _ & [_ _ _ ->|p e1 out _ _ Hr _]); [done|].
  destruct p; [unfold McpAdmission.server_response in Hr; m_inv Hr; by simplify_eq/=..|].
  by apply call_response in Hr as (? & ? & _ & _ & _ & -> & _).
Qed.

Lemma ids_same tr eff s s' :
  forwarded_keys eff = [] -> ids_fresh tr ->
  ids_fresh (tr ++ eff) /\ (ids_used tr s -> ry_used s' = ry_used s -> ids_used (tr ++ eff) s').
Proof.
  unfold ids_fresh, ids_used, forwarded_keys. intros Hk Hf. rewrite omap_app, Hk, app_nil_r. by split; [|intros ? ->].
Qed.

Lemma step_ids tr s env i eff r :
  ids_used tr s -> ids_fresh tr -> relay_step co env s i = (eff, r) ->
  ids_fresh (tr ++ eff) /\ forall s', r = Ok (Some s') -> ids_used (tr ++ eff) s'.
Proof.
  intros HP HQ Hs.
  assert (Hnot : (forall s', r <> Ok (Some s')) -> forwarded_keys eff = []).
  { intros Hr. apply no_server_keys. intros pre raw post He.
    destruct (server_write _ _ _ _ _ _ _ _ Hs He) as (_ & s' & -> & _). by apply (Hr s'). }
  destruct r as [[s'|]|e].
  - apply step_Ok in Hs as [(raw & _ & Hc)|[(raw & _ & Hc)|(_ & -> & ->)]].
    + destruct (client_ids _ _ _ _ _ _ HP HQ Hc). split; [done|]. by intros ? [= <-].
    + destruct (ids_same tr eff s s' (server_no_keys _ _ _ _ _ Hc) HQ) as [? Hu]. split; [done|].
      intros ? [= <-]. apply Hu; [done|]. by eapply server_used.
    + rewrite app_nil_r. split; [done|]. by intros ? [= <-].
  - split; [|done]. by apply (ids_same tr eff s s); [apply Hnot|].
  - split; [|done]. by apply (ids_same tr eff s s); [apply Hnot|].
Qed.

(** Request identifiers are used once: in a whole session no two lines forwarded to the
    server carry the same identifier, and at most 1024 requests are forwarded. *)
Theorem relay_ids_fresh now inputs eff r :
  relay co (relay_new now) inputs = (eff, r) ->
  NoDup (forwarded_keys eff) /\ length (forwarded_keys eff) <= MAX_REQUESTS.
Proof.
  intros Hr. destruct (relay_trace ids_used ids_fresh (fun tr s env i e r HP HQ => step_ids tr s env i e r HP HQ)
    inputs [] (relay_new now) eff r) as [HQ _]; [| |done|exact HQ].
  - split; [by intros ? ?%elem_of_nil|simpl; lia].
  - split; [constructor|simpl; lia].
Qed.
End relay.

(** ** A session *)

Definition demo_tool_schema : Syntax :=
  XMap [("type", XString "object"); ("properties", XMap [("q", XMap [("type", XString "string")])]);
        ("additionalProperties", XBool false)].
Definition demo_msg (members : list (string * Syntax)) : Syntax := XMap (("jsonrpc", XString "2.0") :: members).
Definition demo_num (n : Z) : Syntax := XNumber (PosInt n).
Definition demo_receipt (event : string) (call_id binding content : Syntax) : Syntax :=
  XMap [("contract_version", XString CONTRACT); ("registry_sha256", XString demo_digest); ("session_id", XString "mcp:s");
        ("event", XString event); ("verdict", XString "allow"); ("enforced", XBool true); ("release", XBool true);
        ("call_id", call_id); ("binding_sha256", binding); ("content_sha256", content); ("reason_codes", XSeq [])].

(** The lines of the session and the daemon's replies, by name. *)
Definition demo_syntax (bytes : string) : option Syntax :=
  snd <$> List.find (fun kv => bool_decide (kv.1 = bytes))
    [("init", demo_msg [("id", demo_num 1); ("method", XString "initialize")]);
     ("inited", demo_msg [("id", demo_num 1); ("result", XMap [("protocolVersion", XString "1");
        ("capabilities", XMap []); ("serverInfo", XMap [("name", XString "s"); ("version", XString "1")])])]);
     ("list", demo_msg [("id", demo_num 2); ("method", XString "tools/list")]);
     ("listed", demo_msg [("id", demo_num 2); ("result", XMap [("tools", XSeq
        [XMap [("name", XString "search"); ("inputSchema", demo_tool_schema)]])])]);
     ("call", demo_msg [("id", demo_num 3); ("method", XString "tools/call");
        ("params", XMap [("name", XString "search"); ("arguments", XMap [("q", XString "news")])])]);
     ("answer", demo_msg [("id", demo_num 3); ("result", XMap [("content", XSeq
        [XMap [("type", XString "text"); ("text", XString "found")]])])]);
     ("twice", XMap [("jsonrpc", XString "2.0"); ("id", demo_num 4); ("id", demo_num 5)]);
     ("manifest-ok", XMap [("verdict", XString "allow"); ("enforce", XBool true); ("reason", XNull)]);
     ("call-ok", demo_receipt "call" (XString "c1") (XString demo_digest) XNull);
     ("result-ok", demo_receipt "result" (XString "c1") (XString demo_digest) (XString demo_digest))].

Definition demo_to_string (v : Value) : string :=
  match v with JNumber (PosInt n) => show_usize n | JString s => s | _ => "{}" end.
Definition demo_http (url token : string) (body : Value) : HttpAnswer :=
  HttpReply true [Some (if bool_decide (url = "manifest") then "manifest-ok"
                        else if bool_decide (index body "event" = JString "call") then "call-ok" else "result-ok")].
Definition demo_renv : RelayEnv := mkRelayEnv demo_http None 0.
Definition demo_search : Tool := mkTool "search" demo_digest ReadOnly RpUntrusted [] None.
Definition demo_collector : Collector :=
  mkCollector (mkAdmissionCfg "daemon" "manifest" "mt" "srv"
    (mkNativeConfig (mkRegistry CONTRACT "reg" [demo_search]) demo_digest "nt") (Some ReadTestDouble) []) "mcp:s".
Definition demo_inputs : list (RelayEnv * Input) :=
  (fun i => (demo_renv, i)) <$>
    [FromClient (Ok (Some "init")); FromServer (Ok (Some "inited")); FromClient (Ok (Some "list"));
     FromServer (Ok (Some "listed")); FromClient (Ok (Some "call"))].
Abbreviation demo_relay := (relay (fun _ => demo_digest) demo_to_string demo_syntax (fun _ => None) demo_collector
                              (relay_new 0)).
Definition demo_effects : list Effect := Eval vm_compute in (demo_relay demo_inputs).1.
Definition demo_state : Relay :=
  Eval vm_compute in (match (demo_relay demo_inputs).2 with Ok (Some s) => s | _ => relay_new 0 end).
Lemma demo_run : demo_relay demo_inputs = (demo_effects, Ok (Some demo_state)).
Proof. vm_compute. reflexivity. Qed.
Definition demo_before : list Effect := Eval vm_compute in removelast demo_effects.
Definition demo_call : Value := Eval vm_compute in default JNull (strict_json demo_syntax "call").

Lemma relay_forwards_admitted_witness :
  admitted_before (fun _ => demo_digest) demo_to_string (fun _ => None) demo_collector demo_before demo_call.
Proof.
  apply (relay_forwards_admitted (fun _ => demo_digest) demo_to_string demo_syntax (fun _ => None) demo_collector 0
           demo_inputs demo_effects (Ok (Some demo_state)) demo_before "call" [] demo_call demo_run);
    vm_compute; reflexivity.
Defined.

Abbreviation demo_next := (McpAdmission.relay_step (fun _ => demo_digest) demo_to_string demo_syntax (fun _ => None)
                             demo_collector demo_renv demo_state).
Definition demo_answered : list Effect * Relay :=
  Eval vm_compute in (match demo_next (FromServer (Ok (Some "answer"))) with
                      | (eff, Ok (Some s)) => (eff, s) | (eff, _) => (eff, demo_state) end).
Lemma demo_answer_run : demo_next (FromServer (Ok (Some "answer"))) = (demo_answered.1, Ok (Some demo_answered.2)).
Proof. vm_compute. reflexivity. Qed.

Lemma relay_releases_results_witness : exists out, In (ToHost out) demo_answered.1 /\ ry_pending demo_answered.2 = None.
Proof.
  destruct (relay_releases_results (fun _ => demo_digest) demo_to_string demo_syntax (fun _ => None) demo_collector 0
    demo_inputs demo_effects demo_state (JNumber (PosInt 3)) "search" (JObject [("q", JString "news")]) (JString "c1")
    (JString demo_digest) demo_renv "answer" _ _ demo_run eq_refl demo_answer_run)
    as (value & kind & installed & admission & receipt & out & _ & _ & _ & _ & _ & He & _ & _ & _ & _ & Hp).
  exists out. split; [|exact Hp]. rewrite He. right. left. reflexivity.
Defined.

Lemma relay_ids_fresh_witness :
  length (forwarded_keys demo_to_string demo_syntax demo_effects) <= MAX_REQUESTS.
Proof.
  exact (proj2 (relay_ids_fresh (fun _ => demo_digest) demo_to_string demo_syntax (fun _ => None) demo_collector 0
           demo_inputs demo_effects _ demo_run)).
Defined.

(** A line that repeats a member ends the session: nothing is written for it. *)
(** The pipe to the server takes three bytes of the admitted call. *)
Definition demo_broken : list (RelayEnv * Input) :=
  take 4 demo_inputs ++
  [(mkRelayEnv demo_http (Some (3, "MCP stdio write timed out")) 0, FromClient (Ok (Some "call")))].
Lemma demo_broken_run :
  demo_relay demo_broken = (demo_before ++ [ServerCut "call" 3], Err "MCP stdio write timed out").
Proof. vm_compute. reflexivity. Qed.
Lemma relay_fails_closed_witness :
  exists dn env i rest eff0 s0, demo_broken = dn ++ (env, i) :: rest /\ demo_relay dn = (eff0, Ok (Some s0)) /\
    (written (demo_before ++ [ServerCut "call" 3]) = written eff0 \/
     exists e1 o next, McpAdmission.relay_step (fun _ => demo_digest) demo_to_string demo_syntax (fun _ => None)
       demo_collector (works env) s0 i = (e1 ++ [o], Ok next)).
Proof.
  destruct (relay_fails_closed (fun _ => demo_digest) demo_to_string demo_syntax (fun _ => None) demo_collector
    (relay_new 0) demo_broken _ _ demo_broken_run)
    as (dn & env & i & rest & eff0 & s0 & Hi & Hd & _ & _ & Hw).
  exists dn, env, i, rest, eff0, s0. split; [exact Hi|]. split; [exact Hd|].
  destruct Hw as [Hw|(e1 & o & n & next & _ & _ & _ & _ & _ & Hwork)]; [left; exact Hw|right]. exists e1, o, next. exact Hwork.
Defined.

Lemma line_chunking_witness :
  exists rest, line "ab" ["cd"; String "e" (String newline "fg"); "h"] =
    Ok (Some (String "a" (String "b" (String "c" (String "d" (String "e" (String newline EmptyString)))))), EmptyString, rest)
    /\ stream rest = "fgh".
Proof.
  pose proof (line_chunking "ab" ["cd"; String "e" (String newline "fg"); "h"] eq_refl
    ltac:(repeat constructor; discriminate)) as Hl.
  vm_compute in Hl. destruct Hl as (rest & He & Hs & _). exists rest. split; [exact He|exact Hs].
Defined.
