(* ===== verification/McpDaemon.v ===== *)
(** The MCP admission relay ([McpAdmission]) against the daemon it asks ([Native]): the
    receipts native admission issues are the receipts the relay accepts, and a call the daemon
    admits and whose result it releases goes through to the host. *)
From S2P Require Import Prelude BTree Platform F32 Json Net CoreTypes Scoring Detectors Adapter ToolCall Runner.
From S2P Require Import Event Authority Fingerprint Fifo Taint Action Egress AgentPolicy Engine Spans Judge Grant.
From S2P Require Import Manifest PinStore HookMap Config Resources Daemon Native NativeProps McpInput McpClassify.
From S2P Require Import McpAdmission McpRelay.
From Stdlib Require Import String Ascii SpecFloat.
#[local] Abbreviation length := List.length.
#[local] Abbreviation index := Native.index.

(** [Serialize] for [Response]: a member that is [None] is null, the digest of the resources
    is left out. *)
Definition response_value (r : Response) : Value :=
  obj ([("contract_version", JString (rs_contract_version r)); ("registry_sha256", JString (rs_registry_sha256 r));
        ("session_id", JString (rs_session_id r)); ("event", JString (rs_event r));
        ("verdict", JString (rs_verdict r)); ("enforced", JBool (rs_enforced r)); ("release", JBool (rs_release r));
        ("call_id", opt_string (rs_call_id r)); ("binding_sha256", opt_string (rs_binding_sha256 r));
        ("content_sha256", opt_string (rs_content_sha256 r))]
       ++ match rs_resources_sha256 r with Some h => [("resources_sha256", JString h)] | None => [] end
       ++ [("reason_codes", JArray (JString <$> rs_reason_codes r))]).

Lemma response_members (r : Response) :
  rs_resources_sha256 r = None ->
  index (response_value r) "call_id" = opt_string (rs_call_id r) /\
  index (response_value r) "binding_sha256" = opt_string (rs_binding_sha256 r) /\
  index (response_value r) "content_sha256" = opt_string (rs_content_sha256 r) /\
  index (response_value r) "release" = JBool (rs_release r) /\
  value_get "resources_sha256" (response_value r) = None.
Proof. destruct r as [? ? ? ? ? ? ? ? ? ? res ?]. simpl. intros ->. split_and!; reflexivity. Qed.

(** The requests the relay's posts are read as. *)
Definition call_request (co : Collector) (name : string) (args : Value) (installed : Tool) : Request :=
  mkRequest CONTRACT (nt_registry_sha256 (ac_native (co_config co))) (co_session co) "call" (Some name) (Some args)
    (Some (tl_schema_sha256 installed)) None None None None None.
Definition result_request (co : Collector) (tool : string) (args : Value) (id kind raw : string) : Request :=
  mkRequest CONTRACT (nt_registry_sha256 (ac_native (co_config co))) (co_session co) "result" (Some tool) (Some args)
    None (Some id) (Some raw) (Some kind) (Some "mcp_host") None.

Section agree.
Context `{UnicodeTables} `{RegexEngine} `{EntropyPlatform} `{LiteralIter} `{FileSystem}.
Context (host_os : string) (url_parse : string -> option Url).
Context (sha256_hex : string -> string) (json_to_string : Value -> string).
Context (from_str_value : string -> option Value) (from_str_envelope : string -> option McpEnvelope).
Context (json_syntax : string -> option Syntax) (read_admission : Value -> option Admission).
Context (co : Collector).
Abbreviation native := (ac_native (co_config co)).
Abbreviation inspect := (native_inspect host_os url_parse sha256_hex json_to_string from_str_value
                           from_str_envelope native).
Abbreviation check_receipt := (check_receipt sha256_hex json_to_string read_admission).

(** The digest is printed as 64 hexadecimal digits. *)
Hypothesis digest_shape : forall bytes, is_digest (sha256_hex bytes) = true.

Definition short_reasons (reasons : list string) : Prop :=
  length reasons <= 256 /\ Forall (fun c => Str.len c <= 256) reasons.

(** A receipt of this session's identity is judged by what it says of the invocation. *)
Lemma receipt_identified event fields v cid bnd content reasons :
  expected_contract fields = CONTRACT -> short_reasons reasons ->
  let r := mkResponse CONTRACT (nt_registry_sha256 native) (co_session co) event (verdict_label v) true
             (bool_decide (v = Allow)) cid bnd content None reasons in
  check_receipt co event fields (response_value r) =
  receipt_binding sha256_hex json_to_string read_admission event (verdict_label v) fields (response_value r).
Proof.
  intros Hc [Hl Hs] r. unfold McpAdmission.check_receipt. rewrite Hc.
  assert (Hreasons : reasons_ok (response_value r) = true).
  { unfold reasons_ok. change (index (response_value r) "reason_codes") with (JArray (JString <$> reasons)). cbn [as_array].
    rewrite length_fmap. apply andb_true_intro. split; [by apply Nat.leb_le|].
    apply List.forallb_forall. intros x (s & -> & Hin%list_elem_of_In)%list_elem_of_In%list_elem_of_fmap.
    cbn [as_str]. apply Nat.leb_le. rewrite Forall_forall in Hs. apply Hs. by apply list_elem_of_In. }
  rewrite Hreasons.
  assert (Hid : receipt_identity co event CONTRACT (response_value r) = true).
  { unfold receipt_identity. rewrite !bool_decide_true by done. done. }
  rewrite Hid.
  change (keys (response_value r) (receipt_required ++ ["resources_sha256"])) with true.
  change (index (response_value r) "verdict") with (JString (verdict_label v)).
  change (index (response_value r) "release") with (JBool (bool_decide (v = Allow))). cbn [negb ok_or as_str as_bool].
  by destruct v.
Qed.

Lemma label_allow (v : Verdict) : bool_decide (verdict_label v = "allow") = bool_decide (v = Allow).
Proof. by destruct v. Qed.

Abbreviation call_step := (on_call host_os url_parse sha256_hex json_to_string native).

(** How the daemon answers a call without a resource policy. *)
Lemma call_answer env name args installed total s w w' r :
  let request := call_request co name args installed in
  tl_resource_policy installed = None -> tl_name installed = name ->
  call_step env request (base_response sha256_hex native request) total s installed args w = (Ok r, w') ->
  exists o, let v := resolved o in
    let bound := binding sha256_hex json_to_string (nt_registry_sha256 native) (ss_epoch s) name
                   (tl_schema_sha256 installed) args None in
    r = mkResponse CONTRACT (nt_registry_sha256 native) (co_session co) "call" (verdict_label v) true
          (bool_decide (v = Allow)) (if bool_decide (v = Allow) then Some (ne_call_id env) else None)
          (if bool_decide (v = Allow) then Some bound else None) None None (option_list (ao_rule o)) /\
    (v = Allow -> BMap.get (co_session co) (w_sessions w') =
       Some (set_calls (BMap.insert (ne_call_id env)
              (mkCall None CONTRACT name (Native.canonical_digest sha256_hex json_to_string args) bound StResult
                 (ne_now env + TTL) None) (ss_calls s)) s)).
Proof.
  intros request Hnp Hname. unfold on_call. change (rq_schema_sha256 request) with (Some (tl_schema_sha256 installed)).
  rewrite bool_decide_true by done. cbn [negb]. unfold check_resources. rewrite Hnp.
  change (rq_resource_admission request) with (@None Admission).
  destruct (_ || _); [done|]. destruct (declared_hosts _ _ _) as [hosts|]; [|done].
  destruct (inspect_native_call _ _ _ _) as [o fw]. destruct (native_audit _ _ _ _ _ _ _) as [w2|] eqn:Ha; [|done].
  intros [= <- <-]. exists o. rewrite Hname. cbn [fmap option_fmap option_map]. split.
  - unfold outcome_response, base_response. by destruct (bool_decide (resolved o = Allow)).
  - intros Hv. rewrite bool_decide_true by done. unfold put_session, set_sessions. cbn [w_sessions].
    change (rq_session_id request) with (co_session co). by rewrite BMap.bmap_get_insert_eq.
Qed.

Lemma call_view env name args installed w w' r :
  installed_tool native name = Some installed ->
  inspect env (call_request co name args installed) w = (Ok r, w') ->
  tl_name installed = name /\
  exists s w1, call_step env (call_request co name args installed)
    (base_response sha256_hex native (call_request co name args installed)) (total_calls (expire env w)) (touch env s)
    installed args w1 = (Ok r, w').
Proof.
  intros Hi Hin. pose proof (step_viewed host_os url_parse sha256_hex json_to_string from_str_value from_str_envelope
    native env (call_request co name args installed) w) as Hv. rewrite Hin in Hv.
  unfold installed_tool in Hi.
  inversion Hv as [|?|s tool args' _ _ Ht Hn Ha Hs|? ? ? ? ? _ _ Hne|?|?]; try done.
  cbn in Hn, Ha. simplify_eq. unfold tool_named in Ht. rewrite Hi in Ht. simplify_eq. split; [done|].
  eexists s, _. reflexivity.
Qed.

(** The receipt of a call. *)
Lemma call_receipt_accepted env name args installed w w' r :
  installed_tool native name = Some installed -> tl_resource_policy installed = None ->
  Str.is_empty (ne_call_id env) = false -> Str.len (ne_call_id env) <= 128 ->
  inspect env (call_request co name args installed) w = (Ok r, w') -> short_reasons (rs_reason_codes r) ->
  check_receipt co "call" (call_fields name args installed) (response_value r) = Ok tt.
Proof.
  intros Hi Hnp Hid1 Hid2 Hin Hs. apply call_view in Hin as (Hn & s & w1 & Hin); [|done].
  apply call_answer in Hin as (o & -> & _); [|done..]. cbn [rs_reason_codes] in Hs.
  rewrite receipt_identified by done. set (r := mkResponse _ _ _ _ _ _ _ _ _ _ _ _).
  destruct (response_members r eq_refl) as (Hcid & Hbnd & Hcon & _ & Hres).
  unfold receipt_binding. rewrite Hcid, Hbnd, Hcon, Hres, label_allow. unfold r. cbn [rs_call_id rs_binding_sha256 rs_content_sha256].
  destruct (bool_decide (resolved o = Allow)); [|done].
  change (value_get "resource_admission" (call_fields name args installed)) with (@None Value).
  apply Nat.leb_le in Hid2. unfold binding. rewrite bool_decide_true by done.
  cbn [opt_string fmap option_fmap option_map from_option id as_str].
  unfold validate_resource_receipt. by rewrite Hid1, Hid2, digest_shape.
Qed.

(** *** The call is still there when its result arrives *)

Lemma get_remove_all (l : list (string * Session)) (id : string) (m : BMap.t string Session) :
  (id ∉ l.*1) -> BMap.get id (fold_left (fun m kv => BMap.remove kv.1 m) l m) = BMap.get id m.
Proof.
  revert m. induction l as [|kv l IH]; intros m Hn; [done|]. cbn [fold_left]. csimpl in Hn.
  apply not_elem_of_cons in Hn as [Hne Hn]. rewrite IH by done. by apply BMap.bmap_get_remove_ne.
Qed.

Lemma expire_get env w id s :
  BMap.wf (w_sessions w) -> BMap.get id (w_sessions w) = Some s -> session_expired (ne_now env) s = false ->
  BMap.get id (w_sessions (expire env w)) = Some (prune env s).
Proof.
  intros Hwf Hg He. rewrite expire_sessions, BMap.bmap_get_fmap. unfold unexpired.
  rewrite get_remove_all; [by rewrite Hg|].
  intros ([k s'] & -> & Hin%list_elem_of_In)%list_elem_of_fmap. apply List.filter_In in Hin as [Hin He'].
  apply list_elem_of_In in Hin. cbn [fst snd] in *.
  rewrite (BMap.bmap_wf_elem_get _ _ _ Hwf Hin) in Hg. simplify_eq. congruence.
Qed.

(** How the daemon answers a result. *)
Lemma result_answer env tool installed args id kind raw s call w texts :
  BMap.get (co_session co) (w_sessions (expire env w)) = Some s ->
  installed_tool native tool = Some installed -> BMap.get id (ss_calls s) = Some call ->
  cl_host_call_id call = None -> cl_contract_version call = CONTRACT -> cl_tool call = tool ->
  cl_args_sha256 call = Native.canonical_digest sha256_hex json_to_string args -> cl_stage call = StResult ->
  kind ∈ ["value"; "error"] -> mcp_host_text from_str_value from_str_envelope raw kind = Ok texts ->
  ne_audit_ok env = true ->
  let p := preview_texts env (ss_epoch s) tool (native_source (nt_registry native) installed)
             (w_firewall (expire env w)) (ss_seq s + 1) texts in
  exists w', inspect env (result_request co tool args id kind raw) w =
    (Ok (mkResponse CONTRACT (nt_registry_sha256 native) (co_session co) "result" (verdict_label (pv_strongest p)) true
           (bool_decide (pv_strongest p = Allow)) (Some id) (Some (cl_binding_sha256 call)) (Some (sha256_hex raw)) None
           (option_list (audited_outcome p ≫= ao_rule))), w').
Proof.
  intros Hg Hi Hc Hh Hv Ht Ha Hst Hk Hm Hau p. set (rq := result_request co tool args id kind raw).
  unfold native_inspect. change (rq_event rq) with "result". change (rq_session_id rq) with (co_session co).
  change (rq_tool rq) with (Some tool). change (rq_args rq) with (Some args). change (rq_call_id rq) with (Some id).
  rewrite Hg. unfold installed_tool in Hi. rewrite Hi. cbn [bool_decide ss_calls]. rewrite Hc.
  assert (Hn : tl_name installed = tool) by (by apply List.find_some in Hi as [_ ?%bool_decide_eq_true_1]).
  rewrite !bool_decide_false by done. unfold on_completion.
  assert (Htx : completion_texts sha256_hex json_to_string from_str_value from_str_envelope rq call (tl_name installed) args
                = Ok texts).
  { unfold completion_texts. rewrite Hh, Hn, Hv, Ht, Ha, Hst. change (rq_event rq) with "result".
    change (rq_delivery rq) with (Some "mcp_host"). change (rq_content rq) with (Some raw).
    change (rq_contract_version rq) with CONTRACT. change (rq_result_kind rq) with (Some kind).
    rewrite !(bool_decide_true (_ = _)) by done. cbn [andb negb orb ok_or default from_option Datatypes.id].
    rewrite (bool_decide_true (Some kind ∈ _)), (bool_decide_true (Some "mcp_host" ∈ _)).
    - done.
    - rewrite !elem_of_cons. auto.
    - rewrite !elem_of_cons in Hk. rewrite !elem_of_cons. destruct Hk as [->|[->|[]%elem_of_nil]]; auto. }
  rewrite Htx, Hn. cbn [ss_epoch ss_seq set_calls]. change (w_firewall (put_session _ _ (put_session _ _ (expire env w))))
    with (w_firewall (expire env w)). fold p. unfold native_audit. rewrite Hau. cbn [rs_release outcome_response].
  destruct (bool_decide (pv_strongest p = Allow)) eqn:E; eexists; unfold outcome_response; rewrite E; reflexivity.
Qed.

(** The receipt of a result is accepted. *)
Lemma result_receipt_accepted tool args id kind raw bnd v reasons :
  short_reasons reasons ->
  check_receipt co "result" (result_fields tool args (JString id) kind raw (JString bnd))
    (response_value (mkResponse CONTRACT (nt_registry_sha256 native) (co_session co) "result" (verdict_label v) true
       (bool_decide (v = Allow)) (Some id) (Some bnd) (Some (sha256_hex raw)) None reasons)) = Ok tt.
Proof.
  intros Hs. rewrite receipt_identified by done. set (r := mkResponse _ _ _ _ _ _ _ _ _ _ _ _).
  destruct (response_members r eq_refl) as (Hcid & Hbnd & Hcon & _ & Hres).
  unfold receipt_binding. rewrite Hcid, Hbnd, Hcon, Hres. unfold r.
  cbn [rs_call_id rs_binding_sha256 rs_content_sha256 opt_string fmap option_fmap option_map from_option Datatypes.id].
  change (index (result_fields tool args (JString id) kind raw (JString bnd)) "content") with (JString raw).
  change (index (result_fields tool args (JString id) kind raw (JString bnd)) "call_id") with (JString id).
  change (index (result_fields tool args (JString id) kind raw (JString bnd)) "expected_binding_sha256") with (JString bnd).
  rewrite (bool_decide_false ("result" = "call")) by done. cbn [as_str ok_or].
  rewrite !(bool_decide_true (_ = _)) by done. done.
Qed.

Abbreviation event := (event sha256_hex json_to_string json_syntax read_admission).
Abbreviation server_line := (server_line sha256_hex json_to_string json_syntax read_admission).

(** During the step the daemon answers the post of [body] with [r]. *)
Definition answers (env : RelayEnv) (body : Value) (r : Response) : Prop :=
  exists bytes, rv_http env (ac_daemon_url (co_config co)) (nt_token native) body = HttpReply true [Some bytes] /\
    Str.len bytes <= Z.to_nat (16 * 1024) /\ strict_json json_syntax bytes = Some (response_value r).

Lemma event_answered env name fields r :
  answers env (event_body co name fields) r -> expected_contract fields = CONTRACT -> is_object fields = true ->
  check_receipt co name fields (response_value r) = Ok tt ->
  event co env name fields =
  ([Posted (ac_daemon_url (co_config co)) (nt_token native) (event_body co name fields) (Ok (response_value r))],
   Ok (response_value r)).
Proof.
  intros (bytes & Hh & Hl & Hs) Hc Ho Hr. unfold McpAdmission.event. rewrite Hc, Ho, bool_decide_true.
  - unfold bind, post, receive. rewrite Hh. cbn [negb read_body]. rewrite Str.app_nil_l.
    assert (Hb : (Z.to_nat (16 * 1024) <? Str.len EmptyString + Str.len bytes) = false) by (apply Nat.ltb_ge; exact Hl).
    rewrite Hb, Hs. cbn [ok_or]. unfold lift. rewrite Hr. done.
  - by apply elem_of_cons; left.
Qed.

Lemma released_call env name args installed w w' r :
  sessions_ok (w_sessions w) -> installed_tool native name = Some installed -> tl_resource_policy installed = None ->
  inspect env (call_request co name args installed) w = (Ok r, w') -> rs_release r = true ->
  rs_resources_sha256 r = None /\ rs_call_id r = Some (ne_call_id env) /\
  exists s bnd, rs_binding_sha256 r = Some bnd /\ BMap.get (co_session co) (w_sessions w') = Some s /\
    ss_touched s = ne_now env /\
    BMap.get (ne_call_id env) (ss_calls s) =
      Some (mkCall None CONTRACT name (Native.canonical_digest sha256_hex json_to_string args) bnd StResult
              (ne_now env + TTL) None).
Proof.
  intros Hok Hi Hnp Hin Hrel. apply call_view in Hin as (Hn & s & w1 & Hin); [|done].
  apply call_answer in Hin as (o & -> & Hs); [|done..]. cbn [rs_release] in Hrel. rewrite Hrel. boolp.
  split_and!; [done..|]. eexists _, _. split_and!; [done|by apply Hs|done|]. cbn [set_calls ss_calls].
  by rewrite BMap.bmap_get_insert_eq.
Qed.

Lemma keys_absent (value : Value) (allowed : list string) (k : string) :
  keys value allowed = true -> (k ∉ allowed) -> value_get k value = None.
Proof.
  unfold keys, value_get. destruct value as [| | | | |m]; try done. cbn [as_object]. intros Hk Hn.
  destruct (BMap.get k m) eqn:Hg; [|done]. apply BMap.bmap_get_Some_elem in Hg.
  rewrite List.forallb_forall in Hk. apply list_elem_of_In in Hg. specialize (Hk _ Hg). by boolp.
Qed.

(** A response to the pending request is passed on when it is accepted. *)
Lemma server_line_answers env s raw value p e1 out s' :
  parse_line json_syntax raw = Ok value -> keys value ["jsonrpc"; "id"; "result"; "error"] = true ->
  ry_pending s = Some p -> value_get "id" value = Some (pending_id p) ->
  server_response sha256_hex json_to_string json_syntax read_admission co env (set_pending None s) p value raw
    = (e1, Ok (out, s')) ->
  rv_write env = None -> server_line co env s raw = (e1 ++ [ToHost out], Ok s').
Proof.
  intros Hparse Hkeys Hp Hid Hr Hw. unfold McpAdmission.server_line. rewrite Hparse. unfold lift. rewrite Hp.
  assert (Hm : index value "method" = JNull).
  { unfold Native.index. rewrite (keys_absent _ _ "method" Hkeys); [done|]. rewrite !elem_of_cons, elem_of_nil. naive_solver. }
  unfold bind at 1. rewrite Hm, Hkeys, bool_decide_false by done. cbn [fst snd app].
  unfold bind at 1. cbn [ok_or]. rewrite Hid.
  unfold bind. rewrite Hr. unfold write. rewrite Hw.
  cbn [fst snd app]. by repeat case_bool_decide.
Qed.

(** A request for a call that the relay takes up in state [s]: it is well formed and new, nothing is pending, and
    the arguments are those the installed schema allows. *)
Inductive callable (s : Relay) (line : string) (id : Value) (name : string) (args : Value) : Prop :=
| Callable (value params : Value) (key : string) (schema : InputSchema)
    (Hparse : parse_line json_syntax line = Ok value)
    (Hkeys : keys value ["jsonrpc"; "id"; "method"; "params"] = true)
    (Hmethod : as_str (index value "method") = Some "tools/call")
    (Hid : value_get "id" value = Some id)
    (Hparams : value_get "params" value = Some params)
    (Hobject : is_object params = true)
    (Hparam_keys : keys params ["name"; "arguments"; "_meta"] = true)
    (Hmeta : opt_all (fun m => is_ok (call_metadata m)) (value_get "_meta" params) = true)
    (Hname : as_str (index params "name") = Some name)
    (Hargs : default (JObject []) (value_get "arguments" params) = args)
    (Hargs_object : is_object args = true)
    (Hidle : ry_pending s = None)
    (Hroom : (length (ry_used s) <? MAX_REQUESTS) = true)
    (Hkey : request_key json_to_string id = Ok key)
    (Hnew : BSet.contains key (ry_used s) = false)
    (Hready : ry_ready s = true)
    (Hschema : BMap.get name (ry_schemas s) = Some schema)
    (Hvalid : validate_input schema args = true).

(** The classifier, if there is one, allows the call, and leaves [log]. *)
Definition judged (s : Relay) (id : Value) (name : string) (args : Value) (installed : Tool) (log : list Effect) : Prop :=
  match ac_classifier (co_config co) with
  | None => log = []
  | Some _ => exists snapshot, ry_snapshot s = Some snapshot /\
      classify sha256_hex json_to_string co snapshot id name args (tl_action_class installed) (egress_declared installed)
      = (log, Ok (Ok PAllow))
  end.

Lemma bind_lift {A B} (x : A) (k : A -> M B) : bind (lift (Ok x)) k = k x.
Proof. unfold bind, lift. by destruct (k x). Qed.

Lemma bind_eff {A B} (eff : list Effect) (x : A) (k : A -> M B) : bind (eff, Ok x) k = (eff ++ (k x).1, (k x).2).
Proof. unfold bind. by destruct (k x). Qed.

Lemma call_forwarded env s id name args params installed log r :
  installed_tool native name = Some installed -> tl_resource_policy installed = None ->
  BMap.contains_key name (ac_resource_profiles (co_config co)) = false ->
  ry_ready s = true -> keys params ["name"; "arguments"; "_meta"] = true ->
  opt_all (fun m => is_ok (call_metadata m)) (value_get "_meta" params) = true ->
  as_str (index params "name") = Some name -> default (JObject []) (value_get "arguments" params) = args ->
  is_object args = true -> (exists schema, BMap.get name (ry_schemas s) = Some schema /\ validate_input schema args = true) ->
  judged s id name args installed log ->
  event co env "call" (call_fields name args installed) = ([call_post co name args installed (response_value r)], Ok (response_value r)) ->
  index (response_value r) "release" = JBool true ->
  relay_call sha256_hex json_to_string json_syntax read_admission co env s id params =
  (log ++ [call_post co name args installed (response_value r)],
   Ok (Forward (PCall id name args (index (response_value r) "call_id") (index (response_value r) "binding_sha256")))).
Proof.
  intros Hi Hnp Hpr Hready Hk Hmeta Hname Hargs Hobj (schema & Hs & Hv) Hj He Hrel. unfold McpAdmission.relay_call.
  rewrite Hready, Hk.
  assert (match value_get "_meta" params with Some metadata => call_metadata metadata | None => Ok tt end = Ok tt) as ->.
  { destruct (value_get "_meta" params) as [m|]; [|done]. cbn in Hmeta. by destruct (call_metadata m) as [[]|]. }
  rewrite bind_lift, Hname. cbn [ok_or]. rewrite bind_lift, Hi. cbn [ok_or]. rewrite bind_lift. cbn zeta.
  rewrite Hargs, Hobj, Hs. cbn [ok_or]. rewrite bind_lift, Hv, Hpr, Hnp, bool_decide_false by by intros [].
  cbn [orb]. unfold judged in Hj. destruct (ac_classifier (co_config co)) as [classifier|].
  - destruct Hj as (snapshot & -> & Hc). cbn [ok_or]. rewrite bind_lift, Hc, bind_eff. cbn iota beta. rewrite He, bind_eff.
    rewrite Hrel, bool_decide_true by done. done.
  - subst log. change (ret (Ok PAllow)) with (@lift (result ProductionVerdict string) (Ok (Ok PAllow))).
    rewrite bind_lift. cbn iota beta. rewrite He, bind_eff. rewrite Hrel, bool_decide_true by done. done.
Qed.

(** The relay takes the line up, asks the daemon and passes the line on. *)
Lemma client_forwards env s line id name args installed log r :
  callable s line id name args -> installed_tool native name = Some installed -> tl_resource_policy installed = None ->
  BMap.contains_key name (ac_resource_profiles (co_config co)) = false -> judged s id name args installed log ->
  event co env "call" (call_fields name args installed) = ([call_post co name args installed (response_value r)], Ok (response_value r)) ->
  index (response_value r) "release" = JBool true -> rv_write env = None ->
  exists s1, client_line sha256_hex json_to_string json_syntax read_admission co env s line =
    (log ++ [call_post co name args installed (response_value r); ToServer line], Ok s1) /\
    ry_pending s1 = Some (PCall id name args (index (response_value r) "call_id") (index (response_value r) "binding_sha256")).
Proof.
  intros [] Hi Hnp Hpr Hj He Hrel Hw. unfold McpAdmission.client_line.
  rewrite Hparse, bind_lift, Hkeys, Hmethod. cbn [ok_or]. rewrite bind_lift, bool_decide_false by done.
  rewrite Hidle, bool_decide_true, Hid by done. cbn [ok_or]. rewrite bind_lift, Hroom, Hkey, bind_lift, Hnew.
  cbn [negb]. cbn zeta. rewrite Hparams. cbn [default from_option]. unfold Datatypes.id at 1. rewrite Hobject.
  unfold relay_request. rewrite !(bool_decide_false (_ = _)) by done. rewrite (bool_decide_false (_ ∈ _)).
  2: { rewrite !elem_of_cons, elem_of_nil. naive_solver. }
  rewrite (bool_decide_true ("tools/call" = _)) by done.
  rewrite (call_forwarded env (set_used (BSet.insert key (ry_used s)) s) id name args params installed log r); eauto.
  rewrite bind_eff. unfold write. rewrite Hw. eexists. split; [cbn; by rewrite app_nil_r, <-app_assoc|done].
Qed.

(** C36. A released call goes out and comes back. When the relay takes up a request for a call and its classifier, if
    there is one, allows it, and the daemon releases the call, the relay accepts the receipt and
    forwards the line to the server; and when the server answers in time with a result whose text the daemon
    releases, the daemon still knows the call, its receipt is accepted again, and the host
    receives exactly the server's line, with no request left pending. The receipts are as the daemon
    writes them; the relay takes only those with at most 256 reason codes of at most 256 bytes, which is assumed
    of both (a rule of the operator may have a longer name). *)
Theorem admitted_call_completes s line nenv1 nenv2 name args installed log w1 w2 r1 id raw value kind texts env1 env2 :
  callable s line id name args -> judged s id name args installed log ->
  BMap.contains_key name (ac_resource_profiles (co_config co)) = false ->
  sessions_ok (w_sessions w1) ->
  installed_tool native name = Some installed -> tl_resource_policy installed = None ->
  Str.is_empty (ne_call_id nenv1) = false -> Str.len (ne_call_id nenv1) <= 128 ->
  inspect nenv1 (call_request co name args installed) w1 = (Ok r1, w2) ->
  rs_release r1 = true -> short_reasons (rs_reason_codes r1) ->
  answers env1 (event_body co "call" (call_fields name args installed)) r1 -> rv_write env1 = None ->
  (ne_now nenv1 <= ne_now nenv2 < ne_now nenv1 + TTL)%Z -> ne_audit_ok nenv2 = true ->
  parse_line json_syntax raw = Ok value -> keys value ["jsonrpc"; "id"; "result"; "error"] = true ->
  value_get "id" value = Some id -> result_kind value = Ok kind ->
  mcp_host_text from_str_value from_str_envelope raw kind = Ok texts ->
  let fields := result_fields name args (opt_string (rs_call_id r1)) kind raw (opt_string (rs_binding_sha256 r1)) in
  (forall r2 w3, inspect nenv2 (result_request co name args (ne_call_id nenv1) kind raw) w2 = (Ok r2, w3) ->
     rs_release r2 = true /\ short_reasons (rs_reason_codes r2) /\ answers env2 (event_body co "result" fields) r2) ->
  rv_write env2 = None ->
  exists receipt s',
    relay sha256_hex json_to_string json_syntax read_admission co s
      [(env1, FromClient (Ok (Some line))); (env2, FromServer (Ok (Some raw)))] =
    (log ++ [call_post co name args installed (response_value r1); ToServer line;
             Posted (ac_daemon_url (co_config co)) (nt_token native) (event_body co "result" fields) (Ok receipt);
             ToHost raw], Ok (Some s')) /\
    ry_pending s' = None.
Proof.
  intros Hcallable Hjudged Hpr Hok Hi Hnp Hid1 Hid2 Hin Hrel Hsr Hans Hw1 Htime Hau Hparse Hkeys Hvid Hkind Htexts fields Hres Hw.
  pose proof (call_receipt_accepted _ _ _ _ _ _ _ Hi Hnp Hid1 Hid2 Hin Hsr) as Hchk.
  destruct (released_call _ _ _ _ _ _ _ Hok Hi Hnp Hin Hrel) as (Hnr & Hcid & ss & bnd & Hbnd & Hg & Htouch & Hcall).
  destruct (response_members r1 Hnr) as (Mcid & Mbnd & _ & Mrel & _).
  assert (Hok2 : sessions_ok (w_sessions w2)).
  { pose proof (step_ok host_os url_parse sha256_hex json_to_string from_str_value from_str_envelope native nenv1
      (call_request co name args installed) w1 Hok) as Hs. by rewrite Hin in Hs. }
  pose proof (expire_get nenv2 w2 (co_session co) ss (so_wf _ Hok2) Hg) as Hex.
  assert (Hlive : session_expired (ne_now nenv2) ss = false).
  { unfold session_expired, sat_sub. rewrite Htouch. apply Z.leb_gt. lia. }
  specialize (Hex Hlive).
  assert (Hcall2 : BMap.get (ne_call_id nenv1) (ss_calls (prune nenv2 ss)) =
      Some (mkCall None CONTRACT name (Native.canonical_digest sha256_hex json_to_string args) bnd StResult
              (ne_now nenv1 + TTL) None)).
  { apply BMap.bmap_get_retain; [by destruct (sessions_ok_get _ _ _ Hok2 Hg)|]. split; [done|].
    cbn [cl_expires]. apply Z.ltb_lt. lia. }
  assert (Hserver : forall st, ry_pending st = Some (PCall id name args (index (response_value r1) "call_id")
                                   (index (response_value r1) "binding_sha256")) ->
    exists receipt, server_line co env2 st raw =
      ([Posted (ac_daemon_url (co_config co)) (nt_token native) (event_body co "result" fields) (Ok receipt);
        ToHost raw], Ok (set_pending None st))).
  { intros st Hpend. rewrite Mcid, Mbnd in Hpend.
    assert (Hkin : kind ∈ ["value"; "error"]).
    { unfold result_kind in Hkind. repeat (case_match; try discriminate Hkind); ok_inv Hkind; subst;
        rewrite !elem_of_cons; try (case_bool_decide); auto. }
    destruct (result_answer nenv2 name installed args (ne_call_id nenv1) kind raw (prune nenv2 ss) _ w2 texts
      Hex Hi Hcall2 eq_refl eq_refl eq_refl eq_refl eq_refl Hkin Htexts Hau) as (w3 & Hin2).
    cbn [cl_binding_sha256] in Hin2. set (v := pv_strongest _) in Hin2.
    destruct (Hres _ _ Hin2) as (Hrel2 & Hsr2 & Hans2). cbn [rs_release] in Hrel2.
    assert (Hchk2 := result_receipt_accepted name args (ne_call_id nenv1) kind raw bnd v _ Hsr2).
    cbn [rs_reason_codes] in Hchk2. unfold fields in Hans2 |- *. rewrite Hcid, Hbnd in Hpend, Hans2 |- *.
    eexists. eapply (server_line_answers _ _ _ _ _ [_]); eauto. unfold server_response. rewrite Hkind.
    cbn [opt_string fmap option_fmap option_map from_option Datatypes.id] in Hans2 |- *.
    unfold bind at 1, lift. rewrite (event_answered _ _ _ _ Hans2) by done.
    match type of Hans2 with answers _ _ ?r2 => destruct (response_members r2 eq_refl) as (_ & _ & _ & Mrel2 & _) end.
    unfold bind. rewrite Mrel2. cbn [rs_release fst snd app]. rewrite Hrel2, bool_decide_true by done. done. }
  destruct (client_forwards env1 s line id name args installed log r1 Hcallable Hi Hnp Hpr Hjudged) as (s1 & Hclient & Hpend);
    [by apply event_answered|by rewrite Mrel, Hrel|done|].
  destruct (Hserver s1 Hpend) as (receipt & Hs). exists receipt, (set_pending None s1). split; [|done].
  cbn [McpAdmission.relay McpAdmission.relay_step]. rewrite !bind_lift, Hclient, bind_eff. cbn [fst snd ret].
  rewrite bind_eff. cbn iota beta. rewrite bind_lift. cbn [ok_or]. rewrite bind_lift, Hs, bind_eff. cbn [fst snd ret].
  rewrite bind_eff. cbn. by rewrite !app_nil_r, <-app_assoc.
Qed.
End agree.

(** ** A call through both ends *)

Definition demo_envelope (content : string) : option McpEnvelope :=
  if bool_decide (content = "answer")
  then Some (mkEnvelope "2.0" (JNumber (PosInt 3)) (Some (mkTextResult [mkTextBlock "text" "found"] None)) None) else None.
Abbreviation demo_inspect :=
  (@native_inspect ascii_tables demo_engine demo_iter demo_fs "linux" (fun _ => None) (fun _ => demo_digest) demo_to_string
    (strict_json demo_syntax) demo_envelope (ac_native (co_config demo_collector))).
Definition demo_daemon : World :=
  mkWorld [("mcp:s", mkSession "native:e" 1 0 [])] (demo_new 10) (span_cache_new 4 100) [].
Abbreviation demo_call_request := (call_request demo_collector "search" (JObject [("q", JString "news")]) demo_search).
Abbreviation demo_result_request :=
  (result_request demo_collector "search" (JObject [("q", JString "news")]) "c1" "value" "answer").
Definition demo_response (event : string) (content : option string) : Response :=
  mkResponse CONTRACT demo_digest "mcp:s" event "allow" true true (Some "c1") (Some demo_digest) content None [].

Lemma demo_admits : (demo_inspect (demo_nenv 0 "c1") demo_call_request demo_daemon).1 = Ok (demo_response "call" None).
Proof. vm_compute. reflexivity. Qed.
Lemma demo_releases :
  (demo_inspect (demo_nenv 1 "c2") demo_result_request
     (demo_inspect (demo_nenv 0 "c1") demo_call_request demo_daemon).2).1 = Ok (demo_response "result" (Some demo_digest)).
Proof. vm_compute. reflexivity. Qed.

Lemma demo_sessions_ok : sessions_ok (w_sessions demo_daemon).
Proof. split; [repeat constructor|unfold MAX_SESSIONS; cbn; lia|unfold MAX_CALLS; cbn; lia|repeat constructor; cbn; lia]. Qed.

Lemma demo_answers (event : string) (fields : Value) (r : Response) :
  (event = "call" /\ r = demo_response "call" None) \/ (event = "result" /\ r = demo_response "result" (Some demo_digest)) ->
  index (event_body demo_collector event fields) "event" = JString event ->
  answers demo_syntax demo_collector demo_renv (event_body demo_collector event fields) r.
Proof.
  intros Hr He. unfold answers. cbn [rv_http demo_renv]. unfold demo_http. rewrite He.
  destruct Hr as [[-> ->]|[-> ->]]; eexists; (split; [reflexivity|]); (split; [apply Nat.leb_le; vm_compute; reflexivity|]);
    vm_compute; reflexivity.
Qed.

Abbreviation demo_relay_from := (relay (fun _ => demo_digest) demo_to_string demo_syntax (fun _ => None) demo_collector).

(** The relay after the manifest was read, and what its classifier logs of the call. *)
Definition demo_ready : Relay :=
  Eval vm_compute in (match (demo_relay (take 4 demo_inputs)).2 with Ok (Some s) => s | _ => relay_new 0 end).
Definition demo_schema : InputSchema :=
  Eval vm_compute in (default (SObject [] []) (BMap.get "search" (ry_schemas demo_ready))).
Abbreviation demo_args := (JObject [("q", JString "news")]).
Definition demo_snapshot : Snapshot :=
  Eval vm_compute in (default (mkSnapshot EmptyString [] JNull) (ry_snapshot demo_ready)).
Definition demo_log : list Effect :=
  Eval vm_compute in
    (classify (fun _ => demo_digest) demo_to_string demo_collector
       demo_snapshot (JNumber (PosInt 3)) "search" demo_args
       (tl_action_class demo_search) (egress_declared demo_search)).1.

Lemma demo_callable : callable demo_to_string demo_syntax demo_ready "call" (JNumber (PosInt 3)) "search" demo_args.
Proof.
  refine (Callable _ _ _ _ _ _ _ demo_call (index demo_call "params") "3" demo_schema _ _ _ _ _ _ _ _ _ _ _ _ _ _ _ _ _ _);
    vm_compute; reflexivity.
Qed.
Lemma demo_judged :
  judged (fun _ => demo_digest) demo_to_string demo_collector demo_ready (JNumber (PosInt 3)) "search" demo_args demo_search
    demo_log.
Proof. exists demo_snapshot. split; vm_compute; reflexivity. Qed.

Lemma admitted_call_completes_witness :
  exists receipt s', demo_relay_from demo_ready
      [(demo_renv, FromClient (Ok (Some "call"))); (demo_renv, FromServer (Ok (Some "answer")))] =
    (demo_log ++ [call_post demo_collector "search" demo_args demo_search (response_value (demo_response "call" None));
      ToServer "call"; Posted "daemon" "nt" (event_body demo_collector "result"
        (result_fields "search" demo_args (JString "c1") "value" "answer" (JString demo_digest)))
        (Ok receipt); ToHost "answer"], Ok (Some s')) /\ ry_pending s' = None.
Proof.
  apply (@admitted_call_completes ascii_tables demo_engine demo_iter demo_fs "linux" (fun _ => None)
    (fun _ => demo_digest) demo_to_string (strict_json demo_syntax) demo_envelope demo_syntax (fun _ => None) demo_collector
    ltac:(intros; vm_compute; reflexivity) demo_ready "call" (demo_nenv 0 "c1") (demo_nenv 1 "c2") "search" demo_args
    demo_search demo_log demo_daemon (demo_inspect (demo_nenv 0 "c1") demo_call_request demo_daemon).2 (demo_response "call" None)
    (JNumber (PosInt 3)) "answer" (default JNull (strict_json demo_syntax "answer")) "value" ["found"] demo_renv demo_renv
    demo_callable demo_judged eq_refl demo_sessions_ok eq_refl eq_refl eq_refl ltac:(cbn; lia)).
  - rewrite <-demo_admits. apply surjective_pairing.
  - reflexivity.
  - split; [cbn; lia|constructor].
  - apply demo_answers; [by left|reflexivity].
  - reflexivity.
  - unfold TTL. cbn. lia.
  - reflexivity.
  - vm_compute. reflexivity.
  - vm_compute. reflexivity.
  - vm_compute. reflexivity.
  - vm_compute. reflexivity.
  - vm_compute. reflexivity.
  - intros r2 w3 Hin. change (ne_call_id (demo_nenv 0 "c1")) with "c1" in Hin. pose proof demo_releases as Hr. rewrite Hin in Hr. injection Hr as ->.
    split; [reflexivity|]. split; [split; [cbn; lia|constructor]|].
    apply (demo_answers "result" _ (demo_response "result" (Some demo_digest)) (or_intror (conj eq_refl eq_refl))). vm_compute. reflexivity.
  - reflexivity.
Defined.
