(* ===== verification/RateLimit.v ===== *)
(** Fixed-window request limiting ([crates/proxy/src/rate_limit.rs]).  An [Instant] is
    a number of nanoseconds on the monotonic clock. *)
From S2P Require Import Prelude Grant.
From Stdlib Require Import String Ascii.
From stdpp Require Import gmap strings.
#[local] Abbreviation length := List.length.

Record RateLimit := mkRateLimit {
  rl_enabled : bool;
  rl_requests_per_window : Z;
  rl_window_seconds : Z;
  rl_max_tracked_clients : nat
}.

Definition rate_limit_default : RateLimit := mkRateLimit false 60 60 (Z.to_nat 10000).

(** The digest that names a client. *)
Abbreviation ClientId := string (only parsing).

Section client_ids.
Variable sha256 : string -> string.

Definition client_id_input (presented_token : option string) : string :=
  "llm-firewall-rate-limit-v1" +:+ NUL +:+
  match presented_token with
  | Some token => "token" +:+ NUL +:+ token
  | None => "anonymous" +:+ NUL
  end.
Definition client_id (presented_token : option string) : ClientId := sha256 (client_id_input presented_token).

Definition tenant_client_input (tenant_id : string) : string :=
  "llm-firewall-tenant-rate-limit-v1" +:+ NUL +:+ "tenant" +:+ NUL +:+ tenant_id.
Definition tenant_client_id (tenant_id : string) : ClientId := sha256 (tenant_client_input tenant_id).

(** Distinct callers get distinct keys unless the digest confuses them: a token, no token
    and a tenant never share one. *)
Theorem client_ids_disjoint (t t' : option string) (n n' : string) :
  no_collision sha256 (client_id_input t) (client_id_input t') ->
  no_collision sha256 (tenant_client_input n) (tenant_client_input n') ->
  no_collision sha256 (client_id_input t) (tenant_client_input n) ->
  (client_id t = client_id t' <-> t = t') /\ (tenant_client_id n = tenant_client_id n' <-> n = n') /\
  client_id t <> tenant_client_id n.
Proof.
  intros Hinj Hinj' Hinj''. split_and!.
  - split; [|by intros ->]. intros Heq%Hinj%Str.app_inv_head%Str.app_inv_head.
    destruct t as [a|], t' as [b|]; try done. by apply Str.app_inv_head, Str.app_inv_head in Heq as ->.
  - split; [|by intros ->]. by intros Heq%Hinj'%Str.app_inv_head%Str.app_inv_head%Str.app_inv_head%Str.app_inv_head.
  - by intros Heq%Hinj''.
Qed.
End client_ids.

Inductive RateDecision := Allowed | Rejected (retry_after_secs : Z).

Record Window := mkWindow { w_started : Z; w_requests : Z }.

Abbreviation Clients := (gmap string Window).

Definition NANOS : Z := 1000000000.

(** [now.duration_since(started)], saturating at zero. *)
Definition duration_since (now started : Z) : Z := Z.max 0 (now - started).

Definition seconds_ceil (duration : Z) : Z :=
  Z.max 1 (sat_add64 (duration / NANOS) (if (duration mod NANOS =? 0)%Z then 0 else 1)).

(** The window of a configuration, in nanoseconds, and its request limit. *)
Definition window_of (config : RateLimit) : Z := Z.max 1 (rl_window_seconds config) * NANOS.
Definition limit_of (config : RateLimit) : Z := Z.max 1 (rl_requests_per_window config).

Definition live (window now : Z) (entry : Window) : bool := (duration_since now (w_started entry) <? window)%Z.

(** [self.clients.retain(..)]. *)
Definition retain_live (window now : Z) (m : Clients) : Clients :=
  filter (fun kv => live window now kv.2 = true) m.

Definition check_with (m : Clients) (client : ClientId) (config : RateLimit) (now : Z) : RateDecision * Clients :=
  if negb (rl_enabled config) then (Allowed, m)
  else
    let window := window_of config in
    let request_limit := limit_of config in
    match m !! client with
    | Some entry =>
        let elapsed := duration_since now (w_started entry) in
        if (window <=? elapsed)%Z then (Allowed, <[client := mkWindow now 1]> m)
        else if (request_limit <=? w_requests entry)%Z
        then (Rejected (seconds_ceil (window - elapsed)), m)
        else (Allowed, <[client := mkWindow (w_started entry) (w_requests entry + 1)]> m)
    | None =>
        let max_clients := max (rl_max_tracked_clients config) 1 in
        let m' := if max_clients <=? size m then retain_live window now m else m in
        if (max_clients <=? size m) && (max_clients <=? size m')
        then (Rejected (Z.max 1 (rl_window_seconds config)), m')
        else (Allowed, <[client := mkWindow now 1]> m')
    end.

Record RateLimiter := mkRateLimiter { lim_config : RateLimit; lim_clients : Clients }.

Definition limiter_new (config : RateLimit) : RateLimiter := mkRateLimiter config ∅.

Definition limiter_check (l : RateLimiter) (client : ClientId) (now : Z) : RateDecision * RateLimiter :=
  let '(d, m) := check_with (lim_clients l) client (lim_config l) now in
  (d, mkRateLimiter (lim_config l) m).

(** ** Properties *)

Lemma retain_live_lookup (window now : Z) (m : Clients) (c : ClientId) :
  retain_live window now m !! c =
  match m !! c with Some e => if live window now e then Some e else None | None => None end.
Proof.
  unfold retain_live. destruct (m !! c) as [e|] eqn:E.
  - destruct (live window now e) eqn:El.
    + by apply map_lookup_filter_Some.
    + apply map_lookup_filter_None. right. intros x Hx. rewrite E in Hx. injection Hx as <-. simpl. congruence.
  - apply map_lookup_filter_None. by left.
Qed.

Lemma check_with_size (m : Clients) (c : ClientId) (config : RateLimit) (now : Z) :
  size m <= max (rl_max_tracked_clients config) 1 ->
  size (check_with m c config now).2 <= max (rl_max_tracked_clients config) 1.
Proof.
  intros Hs. unfold check_with. destruct (rl_enabled config); [|done]. cbn [negb].
  destruct (m !! c) as [e|] eqn:E.
  - destruct (_ <=? _)%Z; [|destruct (_ <=? _)%Z; [done|]]; simpl; rewrite map_size_insert_Some; eauto.
  - set (mx := max (rl_max_tracked_clients config) 1) in *.
    assert (size (retain_live (window_of config) now m) <= size m) as Hle
      by apply map_subseteq_size, map_filter_subseteq.
    assert (forall m' : Clients, m' !! c = None -> size m' < mx -> size (<[c := mkWindow now 1]> m') <= mx) as Hins.
    { intros m' Hn Hlt. rewrite map_size_insert_None by done. lia. }
    destruct (Nat.leb_spec mx (size m)); cbn [andb]; [|simpl; by apply Hins].
    destruct (Nat.leb_spec mx (size (retain_live (window_of config) now m))); simpl; [lia|].
    apply Hins; [by rewrite retain_live_lookup, E|done].
Qed.

(** One request to the limiter: who and when. *)
Definition request : Type := ClientId * Z.

Definition serve (config : RateLimit) (m : Clients) (r : request) : Clients :=
  (check_with m r.1 config r.2).2.

(** The map stays within its bound however many identities callers mint. *)
Theorem clients_bounded (config : RateLimit) (rs : list request) :
  size (fold_left (serve config) rs (∅ : Clients)) <= max (rl_max_tracked_clients config) 1.
Proof.
  assert (size (∅ : Clients) <= max (rl_max_tracked_clients config) 1) as H0 by (rewrite map_size_empty; lia).
  revert H0. generalize (∅ : Clients). induction rs as [|r rs IH]; intros m Hm; [done|]. simpl.
  by apply IH, check_with_size.
Qed.

(** Waiting as told is enough: a tracked client that was refused is allowed again once
    the announced number of seconds has passed. *)
Theorem retry_after_suffices (m : Clients) (c : ClientId) (config : RateLimit) (now now' r : Z) (e : Window) :
  m !! c = Some e -> (0 <= rl_window_seconds config < 2 ^ 32)%Z -> (w_started e <= now)%Z ->
  (check_with m c config now).1 = Rejected r -> (now + r * NANOS <= now')%Z ->
  (check_with m c config now').1 = Allowed.
Proof.
  intros He Hw Hs Hr Hn. unfold check_with in *. rewrite He in *.
  destruct (rl_enabled config); [|done]. cbn [negb] in *.
  destruct (Z.leb_spec (window_of config) (duration_since now (w_started e))); [done|].
  destruct (limit_of config <=? w_requests e)%Z; [|done]. simpl in Hr. injection Hr as <-.
  destruct (Z.leb_spec (window_of config) (duration_since now' (w_started e))) as [|Hlt]; [done|].
  exfalso. unfold seconds_ceil, duration_since, sat_add64, window_of, u64_max, NANOS in *.
  set (d := (Z.max 1 (rl_window_seconds config) * 1000000000 - Z.max 0 (now - w_started e))%Z) in *.
  assert (0 < d <= 2 ^ 32 * 1000000000)%Z as Hd by lia.
  pose proof (Z.div_mod d 1000000000 ltac:(lia)) as Hdm.
  pose proof (Z.mod_pos_bound d 1000000000 ltac:(lia)) as Hmb.
  destruct (Z.eqb_spec (d mod 1000000000) 0); lia.
Qed.

(** *** What a client can get through *)

(** The times at which a client was allowed, newest first. *)
Definition serve_allowed (config : RateLimit) (c : ClientId) (s : Clients * list Z) (r : request) :
    Clients * list Z :=
  let '(d, m) := check_with s.1 r.1 config r.2 in
  (m, if decide (r.1 = c) then match d with Allowed => r.2 :: s.2 | Rejected _ => s.2 end else s.2).

Definition allowed_times (config : RateLimit) (c : ClientId) (rs : list request) : list Z :=
  (fold_left (serve_allowed config c) rs (∅, [])).2.

Section windows.
Context (config : RateLimit) (c : ClientId).
Hypothesis enabled : rl_enabled config = true.
Abbreviation W := (window_of config).
Abbreviation L := (limit_of config).

(** A log of the allowed requests of [c]: when, and the window it was counted in. *)
Definition cnt (s : Z) (log : list (Z * Z)) : Z := Z.of_nat (length (List.filter (fun p => p.2 =? s)%Z log)).

Definition entry_inv (now : Z) (log : list (Z * Z)) (oe : option Window) : Prop :=
  match oe with
  | None => forall p, p ∈ log -> (p.2 + W <= now)%Z
  | Some e => cnt (w_started e) log = w_requests e /\ (w_started e <= now)%Z /\
      forall p, p ∈ log -> p.2 = w_started e \/ (p.2 + W <= w_started e)%Z
  end.

Definition log_inv (now : Z) (log : list (Z * Z)) : Prop :=
  (forall p, p ∈ log -> (p.2 <= p.1 < p.2 + W)%Z) /\ (forall s, (cnt s log <= L)%Z) /\
  (forall p q, p ∈ log -> q ∈ log -> p.2 = q.2 \/ (p.2 + W <= q.2)%Z \/ (q.2 + W <= p.2)%Z).

Lemma window_pos : (0 < W)%Z.
Proof. unfold window_of, NANOS. lia. Qed.

Lemma limit_pos : (1 <= L)%Z.
Proof. unfold limit_of. lia. Qed.

Lemma cnt_cons (s : Z) (p : Z * Z) (log : list (Z * Z)) :
  cnt s (p :: log) = ((if decide (p.2 = s) then 1 else 0) + cnt s log)%Z.
Proof.
  unfold cnt. simpl. case_decide as Hd.
  - rewrite (proj2 (Z.eqb_eq _ _) Hd). simpl. lia.
  - by rewrite (proj2 (Z.eqb_neq _ _) Hd).
Qed.

Lemma log_inv_nil (now : Z) : log_inv now [].
Proof.
  pose proof limit_pos. split_and!.
  - by intros p []%elem_of_nil.
  - intros s. unfold cnt. simpl. lia.
  - by intros p q []%elem_of_nil.
Qed.

Lemma cnt_absent (s : Z) (log : list (Z * Z)) : (forall p, p ∈ log -> p.2 <> s) -> cnt s log = 0%Z.
Proof.
  induction log as [|p log IH]; intros Hn; [done|]. rewrite cnt_cons, IH by (intros; apply Hn; by right).
  rewrite decide_False; [done|]. apply Hn. left.
Qed.

(** Opening a window at [now], when every logged one is over. *)
Lemma open_window (now : Z) (log : list (Z * Z)) :
  log_inv now log -> (forall p, p ∈ log -> (p.2 + W <= now)%Z) ->
  log_inv now ((now, now) :: log) /\ entry_inv now ((now, now) :: log) (Some (mkWindow now 1)).
Proof.
  intros (H1 & H2 & H3) Hover. pose proof window_pos. pose proof limit_pos.
  assert (cnt now log = 0%Z) as Hz by (apply cnt_absent; intros p Hp; specialize (Hover p Hp); lia).
  split; [split_and!|split_and!].
  - intros p [->|Hp]%elem_of_cons; [simpl; lia|by apply H1].
  - intros s. rewrite cnt_cons. simpl. case_decide; [subst; lia|]. specialize (H2 s). lia.
  - intros p q [->|Hp]%elem_of_cons [->|Hq]%elem_of_cons; [by left|..|by apply H3];
      [specialize (Hover q Hq)|specialize (Hover p Hp)]; simpl; lia.
  - simpl. rewrite cnt_cons, Hz. simpl. by rewrite decide_True.
  - simpl. lia.
  - intros p [->|Hp]%elem_of_cons; [by left|right; by apply Hover].
Qed.

(** Counting one more request in the current window. *)
Lemma extend_window (now : Z) (log : list (Z * Z)) (e : Window) :
  log_inv now log -> entry_inv now log (Some e) -> (now < w_started e + W)%Z -> (w_requests e < L)%Z ->
  log_inv now ((now, w_started e) :: log) /\
  entry_inv now ((now, w_started e) :: log) (Some (mkWindow (w_started e) (w_requests e + 1))).
Proof.
  intros (H1 & H2 & H3) (Hc & Hs & Hw) Hlt Hl. split; [split_and!|split_and!].
  - intros p [->|Hp]%elem_of_cons; [simpl; lia|by apply H1].
  - intros s. rewrite cnt_cons. simpl. case_decide as Hd; [subst s; rewrite Hc; lia|]. specialize (H2 s). lia.
  - intros p q [->|Hp]%elem_of_cons [->|Hq]%elem_of_cons; [by left|..|by apply H3];
      [destruct (Hw q Hq)|destruct (Hw p Hp)]; simpl; lia.
  - simpl. rewrite cnt_cons, Hc. simpl. rewrite decide_True by done. lia.
  - simpl. lia.
  - intros p [->|Hp]%elem_of_cons; [by left|by apply Hw].
Qed.

Lemma entry_inv_later (now now' : Z) (log : list (Z * Z)) (oe : option Window) :
  (now <= now')%Z -> entry_inv now log oe -> entry_inv now' log oe.
Proof.
  intros Hle. destruct oe as [e|]; simpl; [intuition lia|]. intros Hall p Hp. specialize (Hall p Hp). lia.
Qed.

Lemma entry_inv_over (now : Z) (log : list (Z * Z)) (e : Window) :
  entry_inv now log (Some e) -> (w_started e + W <= now)%Z -> entry_inv now log None.
Proof. intros (_ & _ & Hw) Ho p Hp. pose proof window_pos. destruct (Hw p Hp); lia. Qed.

Lemma not_live (now : Z) (e : Window) :
  (w_started e <= now)%Z -> live W now e = false -> (w_started e + W <= now)%Z.
Proof. unfold live, duration_since. intros Hs Hl%Z.ltb_ge. lia. Qed.

(** What a request does to the entry of [c], whoever makes it. *)
Lemma retain_entry (m : Clients) (now : Z) (log : list (Z * Z)) :
  entry_inv now log (m !! c) -> entry_inv now log (retain_live W now m !! c).
Proof.
  intros He. rewrite retain_live_lookup. destruct (m !! c) as [e|]; [|done].
  destruct (live W now e) eqn:El; [done|]. eapply entry_inv_over; [done|]. apply not_live; [apply He|done].
Qed.

Lemma other_request (m : Clients) (c' : ClientId) (now : Z) (log : list (Z * Z)) :
  c' <> c -> entry_inv now log (m !! c) -> entry_inv now log ((check_with m c' config now).2 !! c).
Proof.
  intros Hne He. unfold check_with. rewrite enabled. cbn [negb].
  destruct (m !! c') as [e|].
  - destruct (_ <=? _)%Z; [|destruct (_ <=? _)%Z; [done|]]; simpl; by rewrite lookup_insert_ne.
  - set (b := max _ 1 <=? size m).
    assert (entry_inv now log ((if b then retain_live W now m else m) !! c)) as Hr
      by (destruct b; [by apply retain_entry|done]).
    destruct (b && _); simpl; [done|]. by rewrite lookup_insert_ne.
Qed.

(** A request of [c] itself. *)
Lemma own_request (m : Clients) (now : Z) (log : list (Z * Z)) :
  log_inv now log -> entry_inv now log (m !! c) ->
  exists log', log_inv now log' /\ entry_inv now log' ((check_with m c config now).2 !! c) /\
    log'.*1 = match (check_with m c config now).1 with Allowed => now :: log.*1 | Rejected _ => log.*1 end.
Proof.
  intros Hl He. unfold check_with. rewrite enabled. cbn [negb].
  destruct (m !! c) as [e|] eqn:E.
  - pose proof He as (_ & Hs & _).
    destruct (Z.leb_spec W (duration_since now (w_started e))) as [Ho|Ho]; simpl.
    + assert (w_started e + W <= now)%Z as Hov by (pose proof window_pos; unfold duration_since in Ho; lia).
      destruct (open_window now log Hl (entry_inv_over _ _ _ He Hov)) as [H1 H2].
      exists ((now, now) :: log). by rewrite lookup_insert_eq.
    + destruct (Z.leb_spec L (w_requests e)); simpl; [exists log; by rewrite E|].
      destruct (extend_window now log e Hl He) as [H1 H2]; [unfold duration_since in Ho; lia|done|].
      exists ((now, w_started e) :: log). by rewrite lookup_insert_eq.
  - set (b := max _ 1 <=? size m). set (m' := if b then _ else m).
    assert (m' !! c = None) as Hn by (unfold m'; destruct b; [by rewrite retain_live_lookup, E|done]).
    destruct (b && _); simpl; [exists log; by rewrite Hn|].
    destruct (open_window now log Hl He) as [H1 H2].
    exists ((now, now) :: log). by rewrite lookup_insert_eq.
Qed.

Lemma serve_inv (s : Clients * list Z) (log : list (Z * Z)) (r : request) (now : Z) :
  log_inv now log -> entry_inv now log (s.1 !! c) -> s.2 = log.*1 -> (now <= r.2)%Z ->
  exists log', log_inv r.2 log' /\ entry_inv r.2 log' ((serve_allowed config c s r).1 !! c) /\
    (serve_allowed config c s r).2 = log'.*1.
Proof.
  intros Hl He Hs Hle. destruct r as [c' now']. simpl in Hle |- *.
  assert (log_inv now' log) as Hl' by exact Hl. apply (entry_inv_later _ now') in He; [|done].
  unfold serve_allowed. cbn [fst snd]. destruct (decide (c' = c)) as [->|Hne].
  - destruct (own_request s.1 now' log Hl' He) as (log' & H1 & H2 & H3).
    destruct (check_with s.1 c config now') as [d m']. cbn in H2, H3 |- *. exists log'. rewrite Hs, H3.
    split_and!; [done..|]. by destruct d.
  - pose proof (other_request s.1 c' now' log Hne He) as H2.
    destruct (check_with s.1 c' config now') as [d m']. by exists log.
Qed.

Lemma serve_run_inv (rs : list request) (s : Clients * list Z) (log : list (Z * Z)) (now : Z) :
  log_inv now log -> entry_inv now log (s.1 !! c) -> s.2 = log.*1 -> StronglySorted Z.le (now :: rs.*2) ->
  exists now' log', log_inv now' log' /\ (fold_left (serve_allowed config c) rs s).2 = log'.*1.
Proof.
  revert s log now. induction rs as [|r rs IH]; intros s log now Hl He Hs Hm; [by exists now, log|].
  simpl in Hm. apply StronglySorted_inv in Hm as [Hm Hall]. apply Forall_cons in Hall as [Hle _].
  destruct (serve_inv s log r now Hl He Hs Hle) as (log' & H1 & H2 & H3).
  apply (IH (serve_allowed config c s r) log' r.2); done.
Qed.

(** At most two windows meet an interval as long as one. *)
Lemma two_windows (now t : Z) (log : list (Z * Z)) :
  log_inv now log ->
  exists s1 s2, forall p, p ∈ log -> (t <= p.1 < t + W)%Z -> p.2 = s1 \/ p.2 = s2.
Proof.
  intros (H1 & _ & H3).
  set (P := fun p : Z * Z => (t <= p.1 < t + W)%Z). pose proof window_pos as HW.
  destruct (decide (Exists P log)) as [[p1 [Hp1 HP1]]%Exists_exists|Hno].
  2:{ exists 0%Z, 0%Z. intros p Hp HP. destruct Hno. apply Exists_exists. by exists p. }
  destruct (decide (Exists (fun p => P p /\ p.2 <> p1.2) log)) as [(p2 & Hp2 & HP2 & Hne)%Exists_exists|Hno].
  - exists p1.2, p2.2. intros p Hp HP. specialize (H1 p Hp) as Ha. specialize (H1 p1 Hp1) as Hb.
    specialize (H1 p2 Hp2) as Hc. pose proof (H3 p p1 Hp Hp1). pose proof (H3 p p2 Hp Hp2).
    pose proof (H3 p1 p2 Hp1 Hp2). unfold P in *. lia.
  - exists p1.2, p1.2. intros p Hp HP. left. destruct (decide (p.2 = p1.2)); [done|].
    destruct Hno. apply Exists_exists. by exists p.
Qed.

Lemma count_two (s1 s2 : Z) (log : list (Z * Z)) (P : Z -> bool) :
  (forall p, p ∈ log -> P p.1 = true -> p.2 = s1 \/ p.2 = s2) ->
  (Z.of_nat (length (List.filter P log.*1)) <= cnt s1 log + cnt s2 log)%Z.
Proof.
  induction log as [|p log IH]; intros Hall; [done|]. rewrite fmap_cons, !cnt_cons. simpl.
  specialize (IH (fun q Hq => Hall q (list_elem_of_further _ _ _ Hq))).
  destruct (P p.1) eqn:E; simpl; [|repeat case_decide; lia].
  destruct (Hall p (list_elem_of_here _ _) E) as [Hs|Hs]; repeat case_decide; lia.
Qed.

(** The fixed window bounds what gets through: from a fresh limiter, under a clock that
    does not run backwards and whatever other clients do, a client is allowed at most
    twice the configured number of requests in any interval of one window's length. *)
Theorem allowed_per_window (rs : list request) (t : Z) :
  StronglySorted Z.le rs.*2 ->
  (Z.of_nat (length (List.filter (fun x => (t <=? x) && (x <? t + W))%Z (allowed_times config c rs)))
   <= 2 * L)%Z.
Proof.
  intros Hm. unfold allowed_times. pose proof limit_pos.
  assert (exists now log, log_inv now log /\ (fold_left (serve_allowed config c) rs (∅, [])).2 = log.*1)
    as (now & log & Hl & ->).
  { destruct rs as [|r rs]; [exists 0%Z, []; split; [apply log_inv_nil|done]|].
    apply (serve_run_inv (r :: rs) _ [] r.2); [apply log_inv_nil| |done|].
    - simpl. rewrite lookup_empty. by intros ? []%elem_of_nil.
    - constructor; [done|]. simpl in Hm |- *. apply StronglySorted_inv in Hm as [_ Hall].
      constructor; [lia|done]. }
  destruct (two_windows now t log Hl) as (s1 & s2 & Hs).
  etransitivity; [apply (count_two s1 s2)|].
  - intros p Hp HP. apply Hs; [done|]. lia.
  - destruct Hl as (_ & Hl & _). pose proof (Hl s1). pose proof (Hl s2). lia.
Qed.
End windows.

Lemma allowed_per_window_witness :
  let config := mkRateLimit true 2 60 10 in
  (Z.of_nat (length (List.filter (fun x => (0 <=? x) && (x <? 0 + window_of config))%Z
     (allowed_times config "c" [("c", 0); ("d", 1); ("c", 2); ("c", 3); ("c", 61 * NANOS)]%Z)))
   <= 2 * limit_of config)%Z.
Proof.
  intros config. apply (allowed_per_window config "c").
  - reflexivity.
  - simpl. unfold NANOS. repeat constructor; lia.
Defined.
