(* ===== verification/Spend.v ===== *)
(** Spend reservations ([crates/proxy/src/spend_limit.rs]) and the usage events billed
    afterwards ([crates/proxy/src/usage.rs]).  Amounts are [u64] micro-dollars;
    instants are nanoseconds. *)
From S2P Require Import Prelude BTree F32 Json Grant RateLimit.
From Stdlib Require Import String Ascii.
From stdpp Require Import gmap strings.
#[local] Abbreviation length := List.length.

Record ModelPrice := mkModelPrice {
  mp_input_usd_micros_per_million : Z;
  mp_output_usd_micros_per_million : Z
}.

Record SpendLimit := mkSpendLimit {
  sl_enabled : bool;
  sl_window_seconds : Z;
  sl_max_usd_micros : Z;
  sl_reserve_usd_micros_per_request : Z;
  sl_max_tracked_clients : nat;
  sl_model_prices : BMap.t string ModelPrice
}.

Definition spend_limit_default : SpendLimit := mkSpendLimit false 86400 0 0 (Z.to_nat 10000) [].

Record Reservation := mkReservation {
  rv_client : ClientId;
  rv_price : ModelPrice;
  rv_reserved_usd_micros : Z;
  rv_max_usd_micros : Z;
  rv_redis_key : option string
}.

Inductive ReserveError :=
| ModelUnpriced
| BudgetExhausted (retry_after_secs : Z)
| CapacityExhausted (retry_after_secs : Z).

(** The record the source calls [Window]. *)
Record SpendWindow := mkSpendWindow {
  sw_started : Z;
  sw_spent_usd_micros : Z;
  sw_reserved_usd_micros : Z
}.

Abbreviation Spenders := (gmap string SpendWindow).

Definition token_cost (tokens micros_per_million : Z) : Z :=
  sat_add64 (sat_mul64 tokens micros_per_million) 999999 / 1000000.

Definition reservation_cost (r : Reservation) (input_tokens output_tokens : Z) : Z :=
  sat_add64 (token_cost input_tokens (mp_input_usd_micros_per_million (rv_price r)))
            (token_cost output_tokens (mp_output_usd_micros_per_million (rv_price r))).

Definition spend_window (config : SpendLimit) : Z := Z.max 1 (sl_window_seconds config) * NANOS.

Definition reserve_with (m : Spenders) (client : ClientId) (model : string) (config : SpendLimit) (now : Z) :
    result Reservation ReserveError * Spenders :=
  match BMap.get model (sl_model_prices config) with
  | None => (Err ModelUnpriced, m)
  | Some price =>
      let window_duration := spend_window config in
      let max_clients := max (sl_max_tracked_clients config) 1 in
      let full := negb (bool_decide (is_Some (m !! client))) && (max_clients <=? size m) in
      let m := if full
               then filter (fun kv : string * SpendWindow => (duration_since now (sw_started kv.2) < window_duration)%Z) m
               else m in
      if full && (max_clients <=? size m)
      then (Err (CapacityExhausted (Z.max 1 (sl_window_seconds config))), m)
      else
        let entry := default (mkSpendWindow now 0 0) (m !! client) in
        let entry := if (window_duration <=? duration_since now (sw_started entry))%Z
                     then mkSpendWindow now 0 0 else entry in
        let reservation := sl_reserve_usd_micros_per_request config in
        let committed := sat_add64 (sw_spent_usd_micros entry) (sw_reserved_usd_micros entry) in
        if (sl_max_usd_micros config <? sat_add64 committed reservation)%Z
        then (Err (BudgetExhausted (seconds_ceil (window_duration - duration_since now (sw_started entry)))),
              <[client := entry]> m)
        else (Ok (mkReservation client price reservation (sl_max_usd_micros config) None),
              <[client := mkSpendWindow (sw_started entry) (sw_spent_usd_micros entry)
                            (sat_add64 (sw_reserved_usd_micros entry) reservation)]> m)
  end.

Record SpendLedger := mkSpendLedger { sl_config : SpendLimit; sl_clients : Spenders }.

Definition spend_ledger_new (config : SpendLimit) : SpendLedger := mkSpendLedger config ∅.

Definition reserve (l : SpendLedger) (client : ClientId) (model : string) (now : Z) :
    result Reservation ReserveError * SpendLedger :=
  let '(r, m) := reserve_with (sl_clients l) client model (sl_config l) now in
  (r, mkSpendLedger (sl_config l) m).

(** Apply a change to the entry of a reservation's client, if it is still tracked. *)
Definition on_entry (m : Spenders) (r : Reservation) (f : SpendWindow -> SpendWindow) : Spenders :=
  match m !! rv_client r with Some entry => <[rv_client r := f entry]> m | None => m end.

Definition unreserve (r : Reservation) (e : SpendWindow) : Z :=
  sat_sub (sw_reserved_usd_micros e) (rv_reserved_usd_micros r).

Definition release (m : Spenders) (r : Reservation) : Spenders :=
  on_entry m r (fun e => mkSpendWindow (sw_started e) (sw_spent_usd_micros e) (unreserve r e)).

Definition settle_usage (m : Spenders) (r : Reservation) (input_tokens output_tokens : Z) : Z * Spenders :=
  let cost := reservation_cost r input_tokens output_tokens in
  (cost, on_entry m r (fun e => mkSpendWindow (sw_started e) (sat_add64 (sw_spent_usd_micros e) cost) (unreserve r e))).

Definition exhaust (m : Spenders) (r : Reservation) : Spenders :=
  on_entry m r (fun e => mkSpendWindow (sw_started e) (rv_max_usd_micros r) (unreserve r e)).

(** ** [usage.rs] *)

Inductive UsageTokenStatus := Actual | Missing.
Inductive UsagePricingStatus := Priced | Unpriced.

Record NewUsageEvent := mkUsageEvent {
  ue_tenant_id : string;
  ue_request_id : string;
  ue_provider_response_id : option string;
  ue_provider : string;
  ue_path : string;
  ue_requested_model : string;
  ue_provider_model : option string;
  ue_input_tokens : option Z;
  ue_output_tokens : option Z;
  ue_token_status : UsageTokenStatus;
  ue_pricing_status : UsagePricingStatus;
  ue_model_price_version : option string;
  ue_input_usd_micros_per_million : option Z;
  ue_output_usd_micros_per_million : option Z;
  ue_cost_usd_micros : option Z;
  ue_created_at_unix : Z
}.

Record TerminalUsageContext := mkUsageContext {
  uc_tenant_id : string;
  uc_request_id : string;
  uc_provider : string;
  uc_path : string;
  uc_requested_model : string;
  uc_input_field : string;
  uc_output_field : string;
  uc_price : option ModelPrice
}.

Definition component_cost (tokens micros_per_million : Z) : option Z :=
  p ← checked_mul128 tokens micros_per_million;
  numerator ← checked_add128 p 999999;
  Some (numerator / 1000000)%Z.

Definition checked_token_cost (input_tokens output_tokens : Z) (price : ModelPrice) : option Z :=
  input ← component_cost input_tokens (mp_input_usd_micros_per_million price);
  output ← component_cost output_tokens (mp_output_usd_micros_per_million price);
  total ← checked_add128 input output;
  try_u64 total.

(** A string member that is neither empty nor longer than 256 bytes. *)
Definition short_member (key : string) (body : Value) : option string :=
  v ← value_get key body;
  s ← as_str v;
  if negb (Str.is_empty s) && (Str.len s <=? 256) then Some s else None.

Definition usage_tokens (input_field output_field : string) (body : Value) : option (Z * Z) :=
  usage ← value_get "usage" body;
  i ← value_get input_field usage;
  input ← as_u64 i;
  o ← value_get output_field usage;
  output ← as_u64 o;
  if ((input <=? i64_max) && (output <=? i64_max))%Z then Some (input, output) else None.

Definition valid_price (price : option ModelPrice) : option ModelPrice :=
  p ← price;
  if ((mp_input_usd_micros_per_million p <=? i64_max) && (mp_output_usd_micros_per_million p <=? i64_max))%Z
  then Some p else None.

Section usage.
Variable sha256 : string -> string.
(** [URL_SAFE_NO_PAD.encode]. *)
Variable base64url_encode : string -> string.

Definition price_version_input (model : string) (price : ModelPrice) : string :=
  "llm-firewall/model-price/v1" +:+ NUL +:+ be64 (Z.of_nat (Str.len model)) +:+ model +:+
  be64 (mp_input_usd_micros_per_million price) +:+ be64 (mp_output_usd_micros_per_million price).

Definition model_price_version (model : string) (price : ModelPrice) : string :=
  "sha256:" +:+ base64url_encode (sha256 (price_version_input model price)).

Definition terminal_usage_event (context : TerminalUsageContext) (body : Value) (now_unix : Z) : NewUsageEvent :=
  let tokens := usage_tokens (uc_input_field context) (uc_output_field context) body in
  let price := valid_price (uc_price context) in
  let price_version := model_price_version (uc_requested_model context) <$> price in
  let cost := '(input, output) ← tokens; p ← price; checked_token_cost input output p in
  mkUsageEvent (uc_tenant_id context) (uc_request_id context) (short_member "id" body)
    (uc_provider context) (uc_path context) (uc_requested_model context) (short_member "model" body)
    (fst <$> tokens) (snd <$> tokens)
    (match tokens with Some _ => Actual | None => Missing end)
    (match cost with Some _ => Priced | None => Unpriced end)
    price_version (mp_input_usd_micros_per_million <$> price) (mp_output_usd_micros_per_million <$> price)
    cost now_unix.
End usage.

(** ** Properties of the ledger *)

(** What the reservations of a client that are neither settled nor released add up to. *)
Fixpoint outstanding (c : ClientId) (rs : list Reservation) : Z :=
  match rs with
  | [] => 0
  | r :: rs' => (if decide (rv_client r = c) then rv_reserved_usd_micros r else 0) + outstanding c rs'
  end.

Section budget.
Context (config : SpendLimit).
Abbreviation R := (sl_reserve_usd_micros_per_request config).
Abbreviation M := (sl_max_usd_micros config).
Hypothesis R_nonneg : (0 <= R)%Z.
Hypothesis M_small : (0 <= M < u64_max)%Z.

(** A ledger with the reservations that are out, and its moves.  Requests may be served
    in any order; every reservation that is out when the ledger is asked is still within
    its window, and a settled response costs no more than was reserved for it. *)
Inductive spend_step : Spenders * list Reservation -> Spenders * list Reservation -> Prop :=
| step_reserve m rs c model now r m' :
    (forall x e, x ∈ rs -> m !! rv_client x = Some e -> (duration_since now (sw_started e) < spend_window config)%Z) ->
    reserve_with m c model config now = (Ok r, m') -> spend_step (m, rs) (m', r :: rs)
| step_refuse m rs c model now err m' :
    (forall x e, x ∈ rs -> m !! rv_client x = Some e -> (duration_since now (sw_started e) < spend_window config)%Z) ->
    reserve_with m c model config now = (Err err, m') -> spend_step (m, rs) (m', rs)
| step_release m rs1 r rs2 : spend_step (m, rs1 ++ r :: rs2) (release m r, rs1 ++ rs2)
| step_settle m rs1 r rs2 input_tokens output_tokens :
    (0 <= reservation_cost r input_tokens output_tokens <= rv_reserved_usd_micros r)%Z ->
    spend_step (m, rs1 ++ r :: rs2) ((settle_usage m r input_tokens output_tokens).2, rs1 ++ rs2).

Inductive spend_reachable : Spenders * list Reservation -> Prop :=
| reach_init : spend_reachable (∅, [])
| reach_step s s' : spend_reachable s -> spend_step s s' -> spend_reachable s'.

(** The entry of a client against what it has out. *)
Definition entry_ok (oe : option SpendWindow) (out : Z) : Prop :=
  match oe with
  | Some e => sw_reserved_usd_micros e = out /\ (0 <= sw_spent_usd_micros e)%Z /\
              (sw_spent_usd_micros e + out <= M)%Z
  | None => True
  end.

Definition spend_inv (s : Spenders * list Reservation) : Prop :=
  (forall r, r ∈ s.2 -> rv_reserved_usd_micros r = R /\ is_Some (s.1 !! rv_client r)) /\
  (forall c, entry_ok (s.1 !! c) (outstanding c s.2)).

Lemma outstanding_app (c : ClientId) (rs1 rs2 : list Reservation) :
  outstanding c (rs1 ++ rs2) = (outstanding c rs1 + outstanding c rs2)%Z.
Proof. induction rs1 as [|r rs1 IH]; simpl; [done|]. rewrite IH. case_decide; lia. Qed.

Lemma outstanding_nonneg (c : ClientId) (rs : list Reservation) :
  (forall r, r ∈ rs -> rv_reserved_usd_micros r = R) -> (0 <= outstanding c rs)%Z.
Proof.
  induction rs as [|r rs IH]; intros Hall; simpl; [lia|].
  specialize (IH (fun x Hx => Hall x (list_elem_of_further _ _ _ Hx))).
  pose proof (Hall r (list_elem_of_here _ _)). case_decide; lia.
Qed.

Lemma outstanding_none (c : ClientId) (rs : list Reservation) :
  (forall r, r ∈ rs -> rv_client r <> c) -> outstanding c rs = 0%Z.
Proof.
  induction rs as [|r rs IH]; intros Hall; simpl; [done|].
  rewrite decide_False by (apply Hall; left). rewrite IH; [done|]. intros x Hx. apply Hall. by right.
Qed.

(** The ledger after the sweep that makes room: entries with reservations out stay. *)
Definition swept (m m' : Spenders) (rs : list Reservation) : Prop :=
  (forall c e, m' !! c = Some e -> m !! c = Some e) /\ (forall r, r ∈ rs -> m' !! rv_client r = m !! rv_client r).

Lemma swept_inv (m m' : Spenders) (rs : list Reservation) :
  swept m m' rs -> spend_inv (m, rs) -> spend_inv (m', rs).
Proof.
  intros [Hsub Hkeep] [Hr Hc]. split.
  - intros r Hin. destruct (Hr r Hin) as [? Hs]. simpl in *. by rewrite (Hkeep r Hin).
  - intros c. simpl. destruct (m' !! c) as [e|] eqn:E; [|done]. specialize (Hc c). simpl in Hc.
    by rewrite (Hsub c e E) in Hc.
Qed.

Lemma sweep_swept (m : Spenders) (rs : list Reservation) (now : Z) :
  (forall x e, x ∈ rs -> m !! rv_client x = Some e -> (duration_since now (sw_started e) < spend_window config)%Z) ->
  swept m (filter (fun kv : string * SpendWindow => (duration_since now (sw_started kv.2) < spend_window config)%Z) m) rs.
Proof.
  intros Hlive. split.
  - intros c e. by intros [He _]%map_lookup_filter_Some.
  - intros r Hin. destruct (m !! rv_client r) as [e|] eqn:E.
    + apply map_lookup_filter_Some. split; [done|]. simpl. by eapply Hlive.
    + apply map_lookup_filter_None. by left.
Qed.

(** Writing a client's entry and pushing its reservations. *)
Lemma insert_inv (m : Spenders) (rs rs' : list Reservation) (c : ClientId) (e : SpendWindow) :
  spend_inv (m, rs) -> (forall c', c' <> c -> outstanding c' rs' = outstanding c' rs) ->
  (forall r, r ∈ rs' -> rv_reserved_usd_micros r = R /\ (r ∈ rs \/ rv_client r = c)) ->
  entry_ok (Some e) (outstanding c rs') -> spend_inv (<[c := e]> m, rs').
Proof.
  intros [Hr Hc] Ho Hrs He. split; simpl.
  - intros r Hin. destruct (Hrs r Hin) as [? Hor]. split; [done|].
    destruct (decide (rv_client r = c)) as [->|Hne]; [rewrite lookup_insert_eq; eauto|].
    rewrite lookup_insert_ne by done. destruct Hor as [Hin'|]; [by apply Hr|done].
  - intros c'. destruct (decide (c' = c)) as [->|Hne]; [by rewrite lookup_insert_eq|].
    rewrite lookup_insert_ne, Ho by done. apply Hc.
Qed.

(** The entry a request is judged by, fresh or current. *)
Lemma current_entry (m : Spenders) (rs : list Reservation) (c : ClientId) (now : Z) :
  (forall x e, x ∈ rs -> m !! rv_client x = Some e -> (duration_since now (sw_started e) < spend_window config)%Z) ->
  spend_inv (m, rs) ->
  let entry := default (mkSpendWindow now 0 0) (m !! c) in
  let entry := if (spend_window config <=? duration_since now (sw_started entry))%Z
               then mkSpendWindow now 0 0 else entry in
  entry_ok (Some entry) (outstanding c rs).
Proof.
  intros Hlive [Hr Hc]. specialize (Hc c). simpl in Hc.
  assert ((forall r, r ∈ rs -> rv_client r <> c) -> entry_ok (Some (mkSpendWindow now 0 0)) (outstanding c rs)) as Hfresh.
  { intros Hn. simpl. rewrite outstanding_none by done. lia. }
  destruct (m !! c) as [e|] eqn:E; simpl.
  - destruct (Z.leb_spec (spend_window config) (duration_since now (sw_started e))); [|done].
    apply Hfresh. intros r Hin <-. specialize (Hlive r e Hin E). lia.
  - assert (entry_ok (Some (mkSpendWindow now 0 0)) (outstanding c rs)) as Hf.
    { apply Hfresh. intros r Hin <-. destruct (Hr r Hin) as [_ [x Hx]]. simpl in Hx. congruence. }
    by destruct (_ <=? _)%Z.
Qed.

Lemma reserve_inv (m m' : Spenders) (rs : list Reservation) (c : ClientId) (model : string) (now : Z) res :
  (forall x e, x ∈ rs -> m !! rv_client x = Some e -> (duration_since now (sw_started e) < spend_window config)%Z) ->
  spend_inv (m, rs) -> reserve_with m c model config now = (res, m') ->
  spend_inv (m', match res with Ok r => r :: rs | Err _ => rs end).
Proof.
  intros Hlive Hinv. unfold reserve_with. destruct (BMap.get model _) as [price|]; [|by intros [= <- <-]].
  set (full := negb _ && _). set (m1 := if full then _ else m).
  assert (swept m m1 rs) as Hsw by (unfold m1; destruct full; [by apply sweep_swept|done]).
  pose proof (swept_inv m m1 rs Hsw Hinv) as Hinv1.
  assert (forall x e, x ∈ rs -> m1 !! rv_client x = Some e -> (duration_since now (sw_started e) < spend_window config)%Z) as Hlive1.
  { intros x e Hx He. apply (Hlive x e Hx). destruct Hsw as [Hs _]. by apply Hs. }
  destruct (full && _); [by intros [= <- <-]|].
  pose proof (current_entry m1 rs c now Hlive1 Hinv1) as He. cbv zeta in He.
  set (entry := if (_ <=? _)%Z then _ else _) in *. clearbody entry.
  destruct He as (Hres & Hsp & Hle).
  assert (0 <= outstanding c rs)%Z as Ho by (apply outstanding_nonneg; intros r Hr; by apply Hinv).
  destruct (Z.ltb_spec M (sat_add64 (sat_add64 (sw_spent_usd_micros entry) (sw_reserved_usd_micros entry)) R))
    as [Hlt|Hge]; intros [= <- <-].
  - apply (insert_inv m1 rs rs); [done|done| |done]. intros r Hr. split; [by apply Hinv|by left].
  - rewrite Hres in Hge |- *. unfold sat_add64, u64_max in *.
    apply (insert_inv m1 rs); [done| | |].
    + intros c' Hne. simpl. by rewrite decide_False.
    + intros r [->|Hr]%elem_of_cons; simpl; [split; [done|by right]|]. split; [by apply Hinv|by left].
    + simpl. rewrite decide_True by done. lia.
Qed.

(** Taking one reservation back, with what it cost. *)
Lemma close_inv (m : Spenders) (rs1 rs2 : list Reservation) (r : Reservation) (cost : Z) :
  (0 <= cost <= rv_reserved_usd_micros r)%Z -> spend_inv (m, rs1 ++ r :: rs2) ->
  spend_inv (on_entry m r (fun e => mkSpendWindow (sw_started e) (sat_add64 (sw_spent_usd_micros e) cost) (unreserve r e)),
             rs1 ++ rs2).
Proof.
  intros Hcost Hinv. pose proof Hinv as [Hr Hc]. simpl in Hr, Hc.
  assert (r ∈ rs1 ++ r :: rs2) as Hin by (apply elem_of_app; right; left).
  assert (forall x, x ∈ rs1 ++ rs2 -> x ∈ rs1 ++ r :: rs2) as Hsub by set_solver.
  destruct (Hr r Hin) as [HR [e He]]. unfold on_entry. rewrite He.
  specialize (Hc (rv_client r)). rewrite He in Hc. destruct Hc as (Hres & Hsp & Hle).
  rewrite outstanding_app in Hres, Hle. simpl in Hres, Hle. rewrite decide_True in Hres, Hle by done.
  assert (forall c', 0 <= outstanding c' (rs1 ++ rs2))%Z as Ho
    by (intros c'; apply outstanding_nonneg; intros x Hx; by apply Hr, Hsub).
  specialize (Ho (rv_client r)). rewrite outstanding_app in Ho.
  apply (insert_inv m (rs1 ++ r :: rs2)); [done| | |].
  - intros c' Hne. rewrite !outstanding_app. simpl. by rewrite decide_False.
  - intros x Hx. split; [by apply Hr, Hsub|left; by apply Hsub].
  - simpl. rewrite outstanding_app. unfold unreserve, sat_sub, sat_add64, u64_max in *. lia.
Qed.

Lemma spend_step_inv (s s' : Spenders * list Reservation) : spend_inv s -> spend_step s s' -> spend_inv s'.
Proof.
  intros Hinv Hs. destruct Hs as [m rs c model now r m' Hl Hr|m rs c model now err m' Hl Hr|m rs1 r rs2|m rs1 r rs2 i o Hc].
  - by apply (reserve_inv m m' rs c model now (Ok r)).
  - by apply (reserve_inv m m' rs c model now (Err err)).
  - pose proof (close_inv m rs1 rs2 r 0) as Hcl.
    assert (release m r = on_entry m r (fun e => mkSpendWindow (sw_started e) (sat_add64 (sw_spent_usd_micros e) 0) (unreserve r e))) as ->.
    { unfold release, on_entry. destruct (m !! rv_client r) as [e|] eqn:E; [|done]. do 2 f_equal.
      destruct Hinv as [Hall Hc]. specialize (Hc (rv_client r)). simpl in Hc. rewrite E in Hc.
      destruct Hc as (? & ? & Hle).
      assert (0 <= outstanding (rv_client r) (rs1 ++ r :: rs2))%Z
        by (apply outstanding_nonneg; intros x Hx; by apply Hall).
      unfold sat_add64, u64_max in *. lia. }
    apply Hcl; [|done]. destruct Hinv as [Hr _]. destruct (Hr r) as [-> _]; [simpl; set_solver|lia].
  - by apply close_inv.
Qed.

(** The budget holds: in every reachable state, what a client has spent in its window
    and what it has reserved stay together within the configured maximum. *)
Theorem budget_respected (s : Spenders * list Reservation) (c : ClientId) (e : SpendWindow) :
  spend_reachable s -> s.1 !! c = Some e ->
  (0 <= sw_spent_usd_micros e /\ sw_reserved_usd_micros e = outstanding c s.2 /\
   sw_spent_usd_micros e + sw_reserved_usd_micros e <= M)%Z.
Proof.
  intros Hs He. assert (spend_inv s) as [_ Hc].
  { clear He. induction Hs as [|s s' _ IH Hst]; [|by eapply spend_step_inv].
    split; simpl; [by intros r []%elem_of_nil|]. intros c'. by rewrite lookup_empty. }
  specialize (Hc c). rewrite He in Hc. destruct Hc as (-> & ? & ?). done.
Qed.
End budget.

(** A reservation does not remember its window: one that outlives it is taken off the
    next window's reservations, and two requests are then out against a budget for one. *)
Theorem stale_release_overcommits :
  let price := mkModelPrice 1 1 in
  let config := mkSpendLimit true 60 10 10 100 [("m", price)] in
  let r := mkReservation "c" price 10 10 None in
  let m1 := (reserve_with (∅ : Spenders) "c" "m" config 0).2 in
  let m2 := (reserve_with m1 "c" "m" config (61 * NANOS)).2 in
  let m3 := release m2 r in
  (reserve_with (∅ : Spenders) "c" "m" config 0).1 = Ok r /\
  (reserve_with m1 "c" "m" config (61 * NANOS)).1 = Ok r /\
  (reserve_with m3 "c" "m" config (62 * NANOS)).1 = Ok r.
Proof. by vm_compute. Qed.

(** A response without usage freezes its client: until the window is over no further
    reservation succeeds. *)
Theorem exhaust_freezes (m : Spenders) (r : Reservation) (e : SpendWindow) (config : SpendLimit)
    (model : string) (now : Z) :
  m !! rv_client r = Some e -> rv_max_usd_micros r = sl_max_usd_micros config ->
  (0 <= sl_max_usd_micros config < u64_max)%Z -> (0 < sl_reserve_usd_micros_per_request config)%Z ->
  (duration_since now (sw_started e) < spend_window config)%Z ->
  is_ok (reserve_with (exhaust m r) (rv_client r) model config now).1 = false.
Proof.
  intros He Hmax HM HR Hw. unfold exhaust, on_entry. rewrite He. unfold reserve_with.
  destruct (BMap.get model _) as [price|]; [|done].
  rewrite lookup_insert_eq. rewrite (bool_decide_true (is_Some _)) by eauto. cbn [negb andb].
  rewrite lookup_insert_eq. cbn [from_option id sw_started].
  destruct (Z.leb_spec (spend_window config) (duration_since now (sw_started e))); [lia|].
  cbn [sw_spent_usd_micros sw_reserved_usd_micros]. rewrite Hmax.
  assert (0 <= unreserve r e)%Z by (unfold unreserve, sat_sub; lia).
  set (c := sl_max_usd_micros config) in *. set (q := sl_reserve_usd_micros_per_request config) in *.
  destruct (Z.ltb_spec c (sat_add64 (sat_add64 c (unreserve r e)) q)) as [|Hge]; [done|].
  exfalso. unfold sat_add64, u64_max in *. lia.
Qed.

(** *** Costs *)

(** [ceil(a / 10^6)]. *)
Definition ceil_million (a : Z) : Z := - (- a / 1000000).

Lemma ceil_million_spec (a : Z) : ((a + 999999) / 1000000 = ceil_million a)%Z.
Proof. unfold ceil_million. Z.to_euclidean_division_equations. lia. Qed.

(** The billed cost is exact: for [u64] inputs, the sum of the two components, each
    rounded up to a micro-dollar, or nothing when it does not fit; and the amount the
    ledger charges is that same amount whenever the [u64] products do not saturate. *)
Theorem cost_exact (r : Reservation) (input output : Z) :
  let p := rv_price r in
  let exact := (ceil_million (input * mp_input_usd_micros_per_million p)
                + ceil_million (output * mp_output_usd_micros_per_million p))%Z in
  in_u64 input -> in_u64 output ->
  in_u64 (mp_input_usd_micros_per_million p) -> in_u64 (mp_output_usd_micros_per_million p) ->
  checked_token_cost input output p = (if (exact <=? u64_max)%Z then Some exact else None) /\
  ((input * mp_input_usd_micros_per_million p + 999999 <= u64_max)%Z ->
   (output * mp_output_usd_micros_per_million p + 999999 <= u64_max)%Z ->
   reservation_cost r input output = exact).
Proof.
  intros p exact Hi Ho Hpi Hpo. unfold checked_token_cost, component_cost, reservation_cost, token_cost.
  fold p. subst exact. unfold in_u64 in *.
  set (a := (input * mp_input_usd_micros_per_million p)%Z). set (b := (output * mp_output_usd_micros_per_million p)%Z).
  assert (0 <= a <= u64_max * u64_max)%Z as Ha by (unfold a; nia).
  assert (0 <= b <= u64_max * u64_max)%Z as Hb by (unfold b; nia).
  rewrite <- !ceil_million_spec.
  assert (0 <= (a + 999999) / 1000000 <= a + 999999)%Z as Hca by (Z.to_euclidean_division_equations; lia).
  assert (0 <= (b + 999999) / 1000000 <= b + 999999)%Z as Hcb by (Z.to_euclidean_division_equations; lia).
  split.
  - unfold checked_mul128, checked_add128, try_u64. fold a b. unfold u64_max, u128_max in *.
    rewrite (proj2 (Z.leb_le a _)) by lia. cbn [mbind option_bind].
    rewrite (proj2 (Z.leb_le (a + _) _)) by lia. cbn [mbind option_bind].
    rewrite (proj2 (Z.leb_le b _)) by lia. cbn [mbind option_bind].
    rewrite (proj2 (Z.leb_le (b + _) _)) by lia. cbn [mbind option_bind].
    rewrite (proj2 (Z.leb_le ((a + _) / _ + _) _)) by (Z.to_euclidean_division_equations; lia). done.
  - intros Hsa Hsb. unfold sat_add64, sat_mul64. fold a b. unfold u64_max in *.
    rewrite !(Z.min_l _ (2 ^ 64 - 1)); try lia; (Z.to_euclidean_division_equations; lia).
Qed.

(** Nothing is billed as exact without evidence: an event is priced exactly when both
    counters were reported in range, a price within range was configured, and their
    exact cost fits; it then carries the counters, the rates and that cost. *)
Theorem priced_iff_evidence sha256 enc (ctx : TerminalUsageContext) (body : Value) (now : Z) :
  let ev := terminal_usage_event sha256 enc ctx body now in
  (ue_pricing_status ev = Priced <->
   exists i o p c, usage_tokens (uc_input_field ctx) (uc_output_field ctx) body = Some (i, o) /\
     valid_price (uc_price ctx) = Some p /\ checked_token_cost i o p = Some c /\
     ue_input_tokens ev = Some i /\ ue_output_tokens ev = Some o /\ ue_cost_usd_micros ev = Some c) /\
  (ue_token_status ev = Missing <-> ue_input_tokens ev = None) /\
  (ue_pricing_status ev = Unpriced <-> ue_cost_usd_micros ev = None).
Proof.
  intros ev. subst ev. unfold terminal_usage_event. cbn.
  destruct (usage_tokens _ _ _) as [[i o]|]; cbn; [destruct (valid_price _) as [p|]; cbn|].
  - destruct (checked_token_cost i o p) as [c|] eqn:Ec; cbn; (split_and!; split; try done).
    + intros _. by exists i, o, p, c.
    + intros (i' & o' & p' & c' & [= <- <-] & [= <-] & Hc & _). congruence.
  - split_and!; split; try done. by intros (? & ? & ? & ? & _ & ? & _).
  - split_and!; split; try done. by intros (? & ? & ? & ? & ? & _).
Qed.

(** A price version names its contents: without a digest collision, equal versions mean
    the same model and the same two rates. *)
Theorem price_version_injective sha256 enc (model model' : string) (p p' : ModelPrice) :
  no_collision (fun s => enc (sha256 s)) (price_version_input model p) (price_version_input model' p') ->
  in_u64 (Z.of_nat (Str.len model)) -> in_u64 (Z.of_nat (Str.len model')) ->
  in_u64 (mp_input_usd_micros_per_million p) -> in_u64 (mp_output_usd_micros_per_million p) ->
  in_u64 (mp_input_usd_micros_per_million p') -> in_u64 (mp_output_usd_micros_per_million p') ->
  model_price_version sha256 enc model p = model_price_version sha256 enc model' p' ->
  model = model' /\ p = p'.
Proof.
  intros Hinj Hm Hm' Hi Ho Hi' Ho' Heq.
  apply Str.app_inv_head, Hinj in Heq. unfold price_version_input in Heq.
  do 2 apply Str.app_inv_head in Heq.
  pose proof (prefixed_inj model model' (be64 (mp_input_usd_micros_per_million p) +:+ be64 (mp_output_usd_micros_per_million p))
    (be64 (mp_input_usd_micros_per_million p') +:+ be64 (mp_output_usd_micros_per_million p')) Hm Hm') as Hp.
  unfold prefixed in Hp. rewrite !Str.app_assoc in Hp. destruct (Hp Heq) as [-> Hr].
  apply Str.app_inj_len in Hr as [H1 H2]; [|unfold be64; by rewrite !len_be_bytes].
  apply be64_inj in H1, H2; [|done..]. destruct p, p'. simpl in *. by subst.
Qed.

(** ** Witnesses *)

Definition demo_price : ModelPrice := mkModelPrice 3 15.
Definition demo_spend : SpendLimit := mkSpendLimit true 60 100 40 10 [("m", demo_price)].
Definition demo_spenders : Spenders := (reserve_with (∅ : Spenders) "c" "m" demo_spend 0).2.
Definition demo_reservation : Reservation := mkReservation "c" demo_price 40 100 None.

Lemma budget_respected_witness :
  (0 <= 0 /\ 40 = outstanding "c" [demo_reservation] /\ 0 + 40 <= 100)%Z.
Proof.
  apply (budget_respected demo_spend ltac:(simpl; lia) ltac:(unfold u64_max; simpl; lia)
    (demo_spenders, [demo_reservation]) "c" (mkSpendWindow 0 0 40)).
  - eapply reach_step; [apply reach_init|].
    apply (step_reserve demo_spend ∅ [] "c" "m" 0 demo_reservation demo_spenders).
    + intros x e []%elem_of_nil.
    + reflexivity.
  - reflexivity.
Defined.

Lemma cost_exact_witness :
  checked_token_cost 1000 500 demo_price = Some 2%Z /\ reservation_cost demo_reservation 1000 500 = 2%Z.
Proof.
  destruct (cost_exact demo_reservation 1000 500) as [H1 H2].
  - unfold in_u64, u64_max. lia.
  - unfold in_u64, u64_max. lia.
  - unfold in_u64, u64_max. simpl. lia.
  - unfold in_u64, u64_max. simpl. lia.
  - split; [exact H1|]. apply H2; unfold u64_max; simpl; lia.
Defined.
