(* ===== verification/ProxyEvents.v ===== *)
(** The proxy's wire models ([crates/proxy/src/openai.rs], [responses.rs],
    [anthropic.rs]) and the projection of a request and its response into
    provider-neutral events ([crates/proxy/src/events.rs]). *)
From S2P Require Import Prelude BTree F32 Json.
From Stdlib Require Import String Ascii.

(** ** Wire models *)

Record ChatMessage := mkChatMessage {
  cm_role : string;
  cm_content : option string;
  cm_rest : list (string * Value)
}.

Record ChatRequest := mkChatRequest {
  cr_model : string;
  cr_messages : list ChatMessage;
  cr_stream : bool;
  cr_rest : list (string * Value)
}.

Record ResponsesRequest := mkResponsesRequest {
  rr_model : string;
  rr_instructions : option string;
  rr_input : option Value;
  rr_stream : bool;
  rr_rest : list (string * Value)
}.

Record AnthropicMessage := mkAnthropicMessage { am_role : string; am_content : Value }.

Record AnthropicRequest := mkAnthropicRequest {
  ar_model : string;
  ar_system : option Value;
  ar_messages : list AnthropicMessage;
  ar_stream : bool;
  ar_rest : list (string * Value)
}.

(** ** Events *)

Inductive Provider := OpenAiChat | OpenAiResponses | Anthropic.
Inductive EventDirection := DInput | DOutput.

Inductive SecurityEventKind :=
| KText (role : option string) (text : string)
| KToolResult (call_id : option string) (content : string)
| KToolCall (call_id : option string) (name : string) (args : Value).

Record SecurityEvent := mkSecurityEvent {
  se_provider : Provider;
  se_direction : EventDirection;
  se_kind : SecurityEventKind
}.

Definition text (p : Provider) (d : EventDirection) (role : option string) (value : string) :
    SecurityEvent := mkSecurityEvent p d (KText role value).
Definition tool_result (p : Provider) (call_id : option string) (content : string) : SecurityEvent :=
  mkSecurityEvent p DInput (KToolResult call_id content).
Definition tool_call (p : Provider) (d : EventDirection) (call_id : option string) (name : string)
    (args : Value) : SecurityEvent := mkSecurityEvent p d (KToolCall call_id name args).

(** [value.get(key).and_then(Value::as_str)] and [.and_then(Value::as_array)]. *)
Definition get_str (key : string) (v : Value) : option string := value_get key v ≫= as_str.
Definition get_array (key : string) (v : Value) : option (list Value) := value_get key v ≫= as_array.

(** [.filter(|value| !value.is_empty())]. *)
Definition nonempty_str (o : option string) : option string :=
  s ← o; if Str.is_empty s then None else Some s.

(** A loop over an optional array that pushes events. *)
Definition each {A} (o : option (list Value)) (f : Value -> list A) : list A := default [] o ≫= f.

Section events.
(** [serde_json::from_str::<Value>]. *)
Variable from_str : string -> option Value.

Definition parse_arguments (value : option Value) : Value :=
  match value with
  | Some (JString raw) => default (JString raw) (from_str raw)
  | Some v => v
  | None => JNull
  end.

(** *** Chat Completions *)

Definition chat_message (m : ChatMessage) : list SecurityEvent :=
  match nonempty_str (cm_content m) with
  | None => []
  | Some content =>
      if bool_decide (cm_role m = "tool")
      then [tool_result OpenAiChat (BMap.get "tool_call_id" (cm_rest m) ≫= as_str) content]
      else [text OpenAiChat DInput (Some (cm_role m)) content]
  end.

Definition chat_call (call : Value) : list SecurityEvent :=
  match value_get "function" call with
  | None => []
  | Some function =>
      match get_str "name" function with
      | None => []
      | Some name => [tool_call OpenAiChat DOutput (get_str "id" call) name
                        (parse_arguments (value_get "arguments" function))]
      end
  end.

Definition chat_choice (choice : Value) : list SecurityEvent :=
  match value_get "message" choice with
  | None => []
  | Some message =>
      match nonempty_str (get_str "content" message) with
      | Some content => [text OpenAiChat DOutput (get_str "role" message) content]
      | None => []
      end ++ each (get_array "tool_calls" message) chat_call
  end.

Definition normalize_chat (request : ChatRequest) (response : Value) : list SecurityEvent :=
  (cr_messages request ≫= chat_message) ++ each (get_array "choices" response) chat_choice.

(** *** Responses *)

Definition is_text_kind (kind : option string) : bool :=
  match kind with
  | None => true
  | Some k => bool_decide (k = "input_text") || bool_decide (k = "output_text") || bool_decide (k = "text")
  end.

Definition response_input_content (p : Provider) (value : Value) (role : option string) :
    list SecurityEvent :=
  let push o := match nonempty_str o with Some c => [text p DInput role c] | None => [] end in
  match value with
  | JString content => push (Some content)
  | JArray parts =>
      parts ≫= fun part =>
        match part with
        | JString content => push (Some content)
        | _ => if is_text_kind (get_str "type" part) then push (get_str "text" part) else []
        end
  | _ => []
  end.

Definition response_input_item (value : Value) : list SecurityEvent :=
  match as_object value with
  | None => response_input_content OpenAiResponses value None
  | Some object =>
      if bool_decide (get_str "type" value = Some "function_call_output") then
        let push o := match nonempty_str o with
          | Some c => [tool_result OpenAiResponses (get_str "call_id" value) c]
          | None => [] end in
        match value_get "output" value with
        | Some (JString content) => push (Some content)
        | Some (JArray parts) => parts ≫= fun part => push (get_str "text" part)
        | _ => []
        end
      else if bool_decide (get_str "type" value = Some "message") || BMap.contains_key "role" object then
        response_input_content OpenAiResponses (default JNull (value_get "content" value))
          (get_str "role" value)
      else []
  end.

Definition responses_message_part (role : option string) (part : Value) : list SecurityEvent :=
  if bool_decide (get_str "type" part = Some "output_text") then
    match nonempty_str (get_str "text" part) with
    | Some content => [text OpenAiResponses DOutput role content]
    | None => []
    end
  else [].

Definition responses_output_item (item : Value) : list SecurityEvent :=
  match get_str "type" item with
  | Some kind =>
      if bool_decide (kind = "message") then
        each (get_array "content" item) (responses_message_part (get_str "role" item))
      else if bool_decide (kind = "function_call") then
        match get_str "name" item with
        | Some name => [tool_call OpenAiResponses DOutput (get_str "call_id" item) name
                          (parse_arguments (value_get "arguments" item))]
        | None => []
        end
      else []
  | None => []
  end.

Definition normalize_responses (request : ResponsesRequest) (response : Value) : list SecurityEvent :=
  match nonempty_str (rr_instructions request) with
  | Some instructions => [text OpenAiResponses DInput (Some "system") instructions]
  | None => []
  end ++
  match rr_input request with
  | Some (JArray items) => items ≫= response_input_item
  | Some value => response_input_item value
  | None => []
  end ++
  each (get_array "output" response) responses_output_item.

(** *** Anthropic Messages *)

Definition anthropic_texts (value : Value) (role : option string) (output : bool) :
    list SecurityEvent :=
  let push o := match nonempty_str o with
    | Some c => [text Anthropic (if output then DOutput else DInput) role c]
    | None => [] end in
  match value with
  | JString content => push (Some content)
  | JArray blocks =>
      blocks ≫= fun block =>
        if bool_decide (get_str "type" block = Some "text") then push (get_str "text" block) else []
  | _ => []
  end.

(** The texts of a [tool_result] block. *)
Definition anthropic_text_parts (block : Value) : list string :=
  match value_get "content" block with
  | Some (JString content) => [content]
  | Some (JArray parts) => omap (get_str "text") parts
  | _ => []
  end.

Definition anthropic_result_block (block : Value) : list SecurityEvent :=
  if bool_decide (get_str "type" block = Some "tool_result") then
    match anthropic_text_parts block with
    | [] => []
    | parts => [tool_result Anthropic (get_str "tool_use_id" block) (Str.join (String "010" "") parts)]
    end
  else [].

Definition anthropic_message (m : AnthropicMessage) : list SecurityEvent :=
  each (as_array (am_content m)) anthropic_result_block
  ++ anthropic_texts (am_content m) (Some (am_role m)) false.

Definition anthropic_output_block (block : Value) : list SecurityEvent :=
  match get_str "type" block with
  | Some kind =>
      if bool_decide (kind = "text") then
        match nonempty_str (get_str "text" block) with
        | Some content => [text Anthropic DOutput (Some "assistant") content]
        | None => []
        end
      else if bool_decide (kind = "tool_use") then
        match get_str "name" block with
        | Some name => [tool_call Anthropic DOutput (get_str "id" block) name
                          (default JNull (value_get "input" block))]
        | None => []
        end
      else []
  | None => []
  end.

Definition normalize_anthropic (request : AnthropicRequest) (response : Value) : list SecurityEvent :=
  match ar_system request with
  | Some system => anthropic_texts system (Some "system") false
  | None => []
  end ++
  (ar_messages request ≫= anthropic_message) ++
  each (get_array "content" response) anthropic_output_block.
End events.

(** *** Readers of the events *)

Definition event_tool_result (e : SecurityEvent) : option string :=
  match se_direction e, se_kind e with
  | DInput, KToolResult _ content => Some content
  | _, _ => None
  end.

Definition input_tool_results (events : list SecurityEvent) : list string :=
  omap event_tool_result events.

Definition event_output_text (e : SecurityEvent) : option string :=
  match se_direction e, se_kind e with
  | DOutput, KText _ t => Some t
  | _, _ => None
  end.

Definition output_text (events : list SecurityEvent) : string :=
  Str.join (String "010" "") (omap event_output_text events).

(** ** Properties *)

(** A tool cycle, independent of the transport: the results the request carries
    (call id, content) and the calls the response makes (call id, name, raw
    arguments), and its rendering on the three wires. *)
Definition tool_outputs : Type := list (string * string).
Definition tool_requests : Type := list (string * string * string).

Definition chat_request_of (rs : tool_outputs) : ChatRequest :=
  mkChatRequest "m"
    ((fun r => mkChatMessage "tool" (Some r.2) [("tool_call_id", JString r.1)]) <$> rs) false [].
Definition chat_call_json (c : string * string * string) : Value :=
  JObject [("function", JObject [("arguments", JString c.2); ("name", JString c.1.2)]);
           ("id", JString c.1.1)].
Definition chat_response_of (cs : tool_requests) : Value :=
  JObject [("choices", JArray [JObject [("message",
    JObject [("role", JString "assistant"); ("tool_calls", JArray (chat_call_json <$> cs))])]])].

Definition responses_output_json (r : string * string) : Value :=
  JObject [("call_id", JString r.1); ("output", JString r.2); ("type", JString "function_call_output")].
Definition responses_request_of (rs : tool_outputs) : ResponsesRequest :=
  mkResponsesRequest "m" None (Some (JArray (responses_output_json <$> rs))) false [].
Definition responses_call_json (c : string * string * string) : Value :=
  JObject [("arguments", JString c.2); ("call_id", JString c.1.1); ("name", JString c.1.2);
           ("type", JString "function_call")].
Definition responses_response_of (cs : tool_requests) : Value :=
  JObject [("output", JArray (responses_call_json <$> cs))].

Definition anthropic_result_json (r : string * string) : Value :=
  JObject [("content", JString r.2); ("tool_use_id", JString r.1); ("type", JString "tool_result")].
Definition anthropic_request_of (rs : tool_outputs) : AnthropicRequest :=
  mkAnthropicRequest "m" None
    [mkAnthropicMessage "user" (JArray (anthropic_result_json <$> rs))] false [].
Definition anthropic_call_json (from_str : string -> option Value) (c : string * string * string) :
    Value :=
  JObject [("id", JString c.1.1); ("input", default (JString c.2) (from_str c.2));
           ("name", JString c.1.2); ("type", JString "tool_use")].
Definition anthropic_response_of (from_str : string -> option Value) (cs : tool_requests) : Value :=
  JObject [("content", JArray (anthropic_call_json from_str <$> cs))].

(** What every transport should project the cycle to. *)
Definition cycle_kinds (from_str : string -> option Value) (rs : tool_outputs) (cs : tool_requests) :
    list SecurityEventKind :=
  ((fun r => KToolResult (Some r.1) r.2) <$> rs) ++
  ((fun c => KToolCall (Some c.1.1) c.1.2 (default (JString c.2) (from_str c.2))) <$> cs).

(** A loop that pushes one event per element. *)
Lemma bind_one {A B C} (f : A -> list B) (g : B -> C) (h : A -> C) (l : list A) :
  (forall x, x ∈ l -> g <$> f x = [h x]) -> g <$> (l ≫= f) = h <$> l.
Proof.
  induction l as [|x l IH]; intros Hf; [done|].
  rewrite bind_cons, fmap_app, Hf, IH by set_solver. done.
Qed.

Lemma bind_fmap_list {A B C} (f : A -> B) (g : B -> list C) (l : list A) :
  (f <$> l) ≫= g = l ≫= (fun x => g (f x)).
Proof. induction l as [|x l IH]; [done|]. by rewrite fmap_cons, !bind_cons, IH. Qed.

Lemma bind_none {A B} (f : A -> list B) (l : list A) :
  (forall x, x ∈ l -> f x = []) -> l ≫= f = [].
Proof.
  induction l as [|x l IH]; intros Hf; [done|]. rewrite bind_cons, Hf, IH by set_solver. done.
Qed.

Lemma nonempty_str_Some (s : string) : s <> EmptyString -> nonempty_str (Some s) = Some s.
Proof. by destruct s. Qed.

(** The calls of the three rendered responses, and the messages of the Anthropic
    request. *)
Lemma chat_response_calls from_str (cs : tool_requests) :
  each (get_array "choices" (chat_response_of cs)) (chat_choice from_str)
  = (chat_call_json <$> cs) ≫= chat_call from_str.
Proof. exact (app_nil_r _). Qed.

Lemma anthropic_request_results (rs : tool_outputs) :
  ar_messages (anthropic_request_of rs) ≫= anthropic_message
  = (anthropic_result_json <$> rs) ≫= anthropic_result_block.
Proof.
  trans (((anthropic_result_json <$> rs) ≫= anthropic_result_block) ++
    ((anthropic_result_json <$> rs) ≫= fun block =>
       if bool_decide (get_str "type" block = Some "text")
       then match nonempty_str (get_str "text" block) with
            | Some c => [text Anthropic DInput (Some "user") c] | None => [] end
       else [])); [exact (app_nil_r _)|].
  rewrite <- (app_nil_r (_ ≫= anthropic_result_block)) at 2. f_equal. apply bind_none.
  by intros x (r & -> & _)%list_elem_of_fmap.
Qed.

(** Whatever wire a tool cycle is carried on, it is projected to the same events:
    the three providers cannot be judged differently. *)
Theorem transports_agree (from_str : string -> option Value) (rs : tool_outputs) (cs : tool_requests) :
  Forall (fun r => r.2 <> EmptyString) rs ->
  se_kind <$> normalize_chat from_str (chat_request_of rs) (chat_response_of cs)
    = cycle_kinds from_str rs cs /\
  se_kind <$> normalize_responses from_str (responses_request_of rs) (responses_response_of cs)
    = cycle_kinds from_str rs cs /\
  se_kind <$> normalize_anthropic (anthropic_request_of rs) (anthropic_response_of from_str cs)
    = cycle_kinds from_str rs cs.
Proof.
  rewrite Forall_forall. intros Hne. unfold cycle_kinds. split_and!.
  - unfold normalize_chat. rewrite chat_response_calls, fmap_app.
    cbn [cr_messages chat_request_of]. f_equal; rewrite bind_fmap_list; apply bind_one; [|done].
    intros r Hr. unfold chat_message. cbn [cm_content].
    by rewrite nonempty_str_Some by by apply Hne.
  - trans (se_kind <$> (((responses_output_json <$> rs) ≫= response_input_item) ++
      ((responses_call_json <$> cs) ≫= responses_output_item from_str))); [done|].
    rewrite fmap_app. f_equal; rewrite bind_fmap_list; apply bind_one; [|done].
    intros r Hr. trans (se_kind <$> match nonempty_str (Some r.2) with
      | Some c => [tool_result OpenAiResponses (Some r.1) c] | None => [] end); [done|].
    by rewrite nonempty_str_Some by by apply Hne.
  - trans (se_kind <$> ((ar_messages (anthropic_request_of rs) ≫= anthropic_message) ++
      ((anthropic_call_json from_str <$> cs) ≫= anthropic_output_block))); [done|].
    rewrite anthropic_request_results, fmap_app.
    f_equal; rewrite bind_fmap_list; by apply bind_one.
Qed.

Lemma transports_agree_witness :
  let rs := [("c1", "untrusted result")] in
  let cs := [("c2", "bash", "rm -rf ~")] in
  let from_str := fun _ => None in
  se_kind <$> normalize_chat from_str (chat_request_of rs) (chat_response_of cs)
    = cycle_kinds from_str rs cs /\
  se_kind <$> normalize_responses from_str (responses_request_of rs) (responses_response_of cs)
    = cycle_kinds from_str rs cs /\
  se_kind <$> normalize_anthropic (anthropic_request_of rs) (anthropic_response_of from_str cs)
    = cycle_kinds from_str rs cs.
Proof.
  intros rs cs from_str. apply (transports_agree from_str rs cs). repeat constructor. discriminate.
Defined.
