(* ===== verification/ProxyInput.v ===== *)
(** The proxy's text pipeline ([crates/proxy/src/pipeline.rs]): every text segment of
    a request goes through the core firewall, which blocks the request or masks the
    segment in place.  What the segments are is compared with what the event normalizer
    reads; tool results of the Anthropic wire are none. *)
From S2P Require Import Prelude BTree Platform F32 Json CoreTypes Scoring Masking CorePolicy.
From S2P Require Import Detectors Normalize Firewall ProxyEvents.
From Stdlib Require Import String Ascii.
#[local] Abbreviation length := List.length.

Record Acc := mkAcc {
  acc_worst : Z;
  acc_reasons : list string;
  acc_owasp : list string;
  acc_atlas : list string
}.

Definition acc_default : Acc := mkAcc 0 [] [] [].

(** [if !v.contains(x) { v.push(x.clone()) }] for an optional tag. *)
Definition push_tag (tags : list string) (tag : option string) : list string :=
  match tag with
  | Some t => if bool_decide (t ∈ tags) then tags else tags ++ [t]
  | None => tags
  end.

Definition note (acc : Acc) (out : Outcome) : Acc :=
  let owasp := fold_left (fun l f => push_tag l (f_owasp f)) (o_findings out) (acc_owasp acc) in
  let atlas := fold_left (fun l f => push_tag l (f_atlas f)) (o_findings out) (acc_atlas acc) in
  if (acc_worst acc <? rs_score (o_score out))%Z
  then mkAcc (rs_score (o_score out)) (rs_reasons (o_score out)) owasp atlas
  else mkAcc (acc_worst acc) (acc_reasons acc) owasp atlas.

(** A scan updates a value in place and the accumulator, and may stop with a block
    reason; [None] is a panic of the firewall. *)
Definition scan (A : Type) : Type := A -> Acc -> option (A * option string * Acc).

(** [for x in xs.iter_mut() { if let Some(reason) = f(x) { return Some(reason) } }]. *)
Fixpoint scan_each {A} (f : scan A) (l : list A) (acc : Acc) : option (list A * option string * Acc) :=
  match l with
  | [] => Some ([], None, acc)
  | x :: l' =>
      '(x, r, acc) ← f x acc;
      match r with
      | Some reason => Some (x :: l', Some reason, acc)
      | None => '(l', r, acc) ← scan_each f l' acc; Some (x :: l', r, acc)
      end
  end.

(** A scan of a part of a value, written back. *)
Definition scan_via {A B} (put : B -> A) (f : scan B) (b : B) (acc : Acc) : option (A * option string * Acc) :=
  '(b, r, acc) ← f b acc; Some (put b, r, acc).

(** Nothing to scan. *)
Definition scan_nothing {A} (a : A) (acc : Acc) : option (A * option string * Acc) := Some (a, None, acc).

Definition set_key (key : string) (object : list (string * Value)) (v : Value) : Value :=
  JObject (BMap.insert key v object).

Section pipeline.
Context `{RegexEngine} `{TextCrates} `{UnicodeTables}.
Variable fw : Firewall.

Definition scan_segment : scan string := fun text acc =>
  out ← run fw text Input;
  let acc := note acc out in
  Some match d_action (o_decision out) with
       | ActBlock => (text, Some (default "Blocked by policy" (d_message (o_decision out))), acc)
       | ActMask => (default text (o_transformed_text out), None, acc)
       | ActAllow | ActFlag => (text, None, acc)
       end.

(** The three decision records of the source, over the kind of request. *)
Record InputDecision (R : Type) := mkInputDecision {
  id_block_reason : option string;
  id_request : R;
  id_score : Z;
  id_reasons : list string;
  id_owasp : list string;
  id_atlas : list string
}.
#[global] Arguments mkInputDecision {R}.
#[global] Arguments id_block_reason {R}.
#[global] Arguments id_request {R}.
#[global] Arguments id_score {R}.
#[global] Arguments id_reasons {R}.
#[global] Arguments id_owasp {R}.
#[global] Arguments id_atlas {R}.

Definition decision_of {R} (x : R * option string * Acc) : InputDecision R :=
  let '(request, reason, acc) := x in
  mkInputDecision reason request (acc_worst acc) (acc_reasons acc) (acc_owasp acc) (acc_atlas acc).

(** *** Chat Completions *)

Definition scan_chat_message : scan ChatMessage := fun m =>
  match cm_content m with
  | None => scan_nothing m
  | Some content => scan_via (fun c => mkChatMessage (cm_role m) (Some c) (cm_rest m)) scan_segment content
  end.

Definition decide_input (request : ChatRequest) : option (InputDecision ChatRequest) :=
  decision_of <$> scan_via
    (fun ms => mkChatRequest (cr_model request) ms (cr_stream request) (cr_rest request))
    (scan_each scan_chat_message) (cr_messages request) acc_default.

(** *** Responses *)

Definition scan_responses_part : scan Value := fun part =>
  match part with
  | JString text => scan_via JString scan_segment text
  | JObject object =>
      if is_text_kind (get_str "type" part) then
        match BMap.get "text" object with
        | Some (JString text) => scan_via (fun t => set_key "text" object (JString t)) scan_segment text
        | _ => scan_nothing part
        end
      else scan_nothing part
  | _ => scan_nothing part
  end.

Definition scan_responses_content : scan Value := fun content =>
  match content with
  | JString text => scan_via JString scan_segment text
  | JArray parts => scan_via JArray (scan_each scan_responses_part) parts
  | _ => scan_nothing content
  end.

(** [object.get_mut(key).and_then(|v| scan(v))]. *)
Definition scan_member (key : string) (object : list (string * Value)) (f : scan Value) (acc : Acc) :
    option (Value * option string * Acc) :=
  match BMap.get key object with
  | Some v => scan_via (set_key key object) f v acc
  | None => scan_nothing (JObject object) acc
  end.

Definition scan_responses_item : scan Value := fun item =>
  match item with
  | JObject object =>
      if bool_decide (get_str "type" item = Some "function_call_output")
      then scan_member "output" object scan_responses_content
      else if bool_decide (get_str "type" item = Some "message") || BMap.contains_key "role" object
      then scan_member "content" object scan_responses_content
      else scan_nothing item
  | _ => scan_responses_content item
  end.

Definition scan_responses_input : scan Value := fun input =>
  match input with
  | JArray items => scan_via JArray (scan_each scan_responses_item) items
  | _ => scan_responses_item input
  end.

(** A scan of an optional field. *)
Definition scan_option {A} (f : scan A) : scan (option A) := fun o =>
  match o with Some a => scan_via Some f a | None => scan_nothing None end.

Definition scan_responses : scan ResponsesRequest := fun request acc =>
  '(instructions, r, acc) ← scan_option scan_segment (rr_instructions request) acc;
  let request := mkResponsesRequest (rr_model request) instructions (rr_input request)
                   (rr_stream request) (rr_rest request) in
  match r with
  | Some reason => Some (request, Some reason, acc)
  | None => scan_via (fun input => mkResponsesRequest (rr_model request) (rr_instructions request) input
              (rr_stream request) (rr_rest request))
              (scan_option scan_responses_input) (rr_input request) acc
  end.

Definition decide_input_responses (request : ResponsesRequest) : option (InputDecision ResponsesRequest) :=
  decision_of <$> scan_responses request acc_default.

(** *** Anthropic *)

Definition scan_block : scan Value := fun block =>
  match block with
  | JObject object =>
      if bool_decide (get_str "type" block = Some "text") then
        match BMap.get "text" object with
        | Some (JString s) => scan_via (fun t => set_key "text" object (JString t)) scan_segment s
        | _ => scan_nothing block
        end
      else scan_nothing block
  | _ => scan_nothing block
  end.

Definition scan_content : scan Value := fun content =>
  match content with
  | JString s => scan_via JString scan_segment s
  | JArray blocks => scan_via JArray (scan_each scan_block) blocks
  | _ => scan_nothing content
  end.

Definition scan_anthropic_message : scan AnthropicMessage := fun m =>
  scan_via (mkAnthropicMessage (am_role m)) scan_content (am_content m).

Definition scan_anthropic : scan AnthropicRequest := fun request acc =>
  '(system, r, acc) ← scan_option scan_content (ar_system request) acc;
  let request := mkAnthropicRequest (ar_model request) system (ar_messages request)
                   (ar_stream request) (ar_rest request) in
  match r with
  | Some reason => Some (request, Some reason, acc)
  | None => scan_via (fun ms => mkAnthropicRequest (ar_model request) (ar_system request) ms
              (ar_stream request) (ar_rest request))
              (scan_each scan_anthropic_message) (ar_messages request) acc
  end.

Definition decide_input_anthropic (request : AnthropicRequest) : option (InputDecision AnthropicRequest) :=
  decision_of <$> scan_anthropic request acc_default.

Definition decide_output (text : string) : option (option string) :=
  out ← run fw text Output;
  Some (if bool_decide (d_action (o_decision out) = ActBlock)
        then Some (default "Blocked output" (d_message (o_decision out))) else None).
End pipeline.

(** ** Properties *)

(** The text segments of the three requests. *)
Definition message_segments (m : ChatMessage) : list string := option_list (cm_content m).
Definition chat_segments (req : ChatRequest) : list string := cr_messages req ≫= message_segments.

Definition member_text (v : Value) : list string :=
  match v with JString t => [t] | _ => [] end.
Definition text_of (object : list (string * Value)) : list string :=
  match BMap.get "text" object with Some v => member_text v | None => [] end.

Definition responses_part_segments (part : Value) : list string :=
  match part with
  | JString t => [t]
  | JObject object => if is_text_kind (get_str "type" part) then text_of object else []
  | _ => []
  end.
Definition responses_content_segments (content : Value) : list string :=
  match content with
  | JString t => [t]
  | JArray parts => parts ≫= responses_part_segments
  | _ => []
  end.
(** The member of an item that holds its text. *)
Definition item_member (item : Value) : option string :=
  match item with
  | JObject object =>
      if bool_decide (get_str "type" item = Some "function_call_output") then Some "output"
      else if bool_decide (get_str "type" item = Some "message") || BMap.contains_key "role" object
      then Some "content" else None
  | _ => None
  end.
Definition responses_item_segments (item : Value) : list string :=
  match item with
  | JObject object =>
      match item_member item ≫= (fun k => BMap.get k object) with
      | Some v => responses_content_segments v
      | None => []
      end
  | _ => responses_content_segments item
  end.
Definition responses_input_segments (input : Value) : list string :=
  match input with
  | JArray items => items ≫= responses_item_segments
  | _ => responses_item_segments input
  end.
Definition responses_segments (req : ResponsesRequest) : list string :=
  option_list (rr_instructions req) ++ (option_list (rr_input req) ≫= responses_input_segments).

Definition block_segments (block : Value) : list string :=
  match block with
  | JObject object => if bool_decide (get_str "type" block = Some "text") then text_of object else []
  | _ => []
  end.
Definition content_segments (content : Value) : list string :=
  match content with
  | JString t => [t]
  | JArray blocks => blocks ≫= block_segments
  | _ => []
  end.
Definition anthropic_segments (req : AnthropicRequest) : list string :=
  (option_list (ar_system req) ≫= content_segments) ++
  (ar_messages req ≫= fun m => content_segments (am_content m)).

(** The requests with a function applied to every segment and nothing else changed. *)
Section rewriting.
Variable g : string -> string.

Definition map_message (m : ChatMessage) : ChatMessage :=
  mkChatMessage (cm_role m) (g <$> cm_content m) (cm_rest m).
Definition map_chat (req : ChatRequest) : ChatRequest :=
  mkChatRequest (cr_model req) (map_message <$> cr_messages req) (cr_stream req) (cr_rest req).

Definition map_text (object : list (string * Value)) : Value :=
  match BMap.get "text" object with
  | Some (JString t) => set_key "text" object (JString (g t))
  | _ => JObject object
  end.
Definition map_responses_part (part : Value) : Value :=
  match part with
  | JString t => JString (g t)
  | JObject object => if is_text_kind (get_str "type" part) then map_text object else part
  | _ => part
  end.
Definition map_responses_content (content : Value) : Value :=
  match content with
  | JString t => JString (g t)
  | JArray parts => JArray (map_responses_part <$> parts)
  | _ => content
  end.
Definition map_responses_item (item : Value) : Value :=
  match item with
  | JObject object =>
      match item_member item with
      | Some k => match BMap.get k object with
                  | Some v => set_key k object (map_responses_content v)
                  | None => item
                  end
      | None => item
      end
  | _ => map_responses_content item
  end.
Definition map_responses_input (input : Value) : Value :=
  match input with
  | JArray items => JArray (map_responses_item <$> items)
  | _ => map_responses_item input
  end.
Definition map_responses (req : ResponsesRequest) : ResponsesRequest :=
  mkResponsesRequest (rr_model req) (g <$> rr_instructions req) (map_responses_input <$> rr_input req)
    (rr_stream req) (rr_rest req).

Definition map_block (block : Value) : Value :=
  match block with
  | JObject object => if bool_decide (get_str "type" block = Some "text") then map_text object else block
  | _ => block
  end.
Definition map_content (content : Value) : Value :=
  match content with
  | JString t => JString (g t)
  | JArray blocks => JArray (map_block <$> blocks)
  | _ => content
  end.
Definition map_anthropic (req : AnthropicRequest) : AnthropicRequest :=
  mkAnthropicRequest (ar_model req) (map_content <$> ar_system req)
    ((fun m => mkAnthropicMessage (am_role m) (map_content (am_content m))) <$> ar_messages req)
    (ar_stream req) (ar_rest req).
End rewriting.

(** *** What the segments cover *)

(** The text of a message or of the instructions that the event normalizer reads. *)
Definition input_text (e : SecurityEvent) : option string :=
  match se_direction e, se_kind e with
  | DInput, KText _ t => Some t
  | _, _ => None
  end.

Definition outputs (events : list SecurityEvent) : Prop :=
  forall e, e ∈ events -> se_direction e = DOutput.

(** Every event of a loop over blocks comes from a block. *)
Lemma each_elem (o : option (list Value)) (f : Value -> list SecurityEvent) e :
  e ∈ each o f -> exists v, e ∈ f v.
Proof. intros (v & Hv & _)%list_elem_of_bind. eauto. Qed.

Ltac solve_outputs :=
  repeat match goal with
  | H : _ ∈ each _ _ |- _ => apply each_elem in H as (? & H)
  | H : _ ∈ _ ++ _ |- _ => apply elem_of_app in H as [H|H]
  | H : _ ∈ match ?x with _ => _ end |- _ => destruct x
  | H : _ ∈ (if ?b then _ else _) |- _ => destruct b
  | H : _ ∈ [] |- _ => by apply elem_of_nil in H
  | H : _ ∈ [_] |- _ => apply list_elem_of_singleton in H as ->; done
  end.

Lemma chat_outputs from_str o : outputs (each o (chat_choice from_str)).
Proof. intros e H. apply each_elem in H as (ch & H). unfold chat_choice, chat_call in H. solve_outputs. Qed.
Lemma responses_outputs from_str o : outputs (each o (responses_output_item from_str)).
Proof. intros e H. apply each_elem in H as (item & H). unfold responses_output_item, responses_message_part in H. solve_outputs. Qed.
Lemma anthropic_outputs o : outputs (each o anthropic_output_block).
Proof. intros e H. apply each_elem in H as (b & H). unfold anthropic_output_block in H. solve_outputs. Qed.

Lemma outputs_no_input events e s :
  outputs events -> e ∈ events -> ~ (input_text e = Some s \/ event_tool_result e = Some s).
Proof.
  intros Ho He. specialize (Ho e He). unfold input_text, event_tool_result. rewrite Ho. by intros [?|?].
Qed.

Lemma nonempty_elem (o : option string) (s : string) : nonempty_str o = Some s -> o = Some s.
Proof. destruct o as [[|a t]|]; cbn; congruence. Qed.

(** A text that was pushed when it is not empty. *)
Lemma pushed_text (o : option string) (f : string -> SecurityEvent) e s :
  (forall c t, input_text (f c) = Some t \/ event_tool_result (f c) = Some t -> t = c) ->
  e ∈ match nonempty_str o with Some c => [f c] | None => [] end ->
  input_text e = Some s \/ event_tool_result e = Some s -> o = Some s.
Proof.
  intros Hf He Ht. destruct (nonempty_str o) as [c|] eqn:E; [|by apply elem_of_nil in He].
  apply nonempty_elem in E as ->. apply list_elem_of_singleton in He as ->. by rewrite (Hf _ _ Ht).
Qed.

Lemma read_text p d r c t : input_text (text p d r c) = Some t \/ event_tool_result (text p d r c) = Some t -> t = c.
Proof. destruct d; cbn; intros [[= ->]|?]; done. Qed.

(** The member [text] of a block. *)
Lemma block_text block s : get_str "text" block = Some s ->
  match block with JObject object => s ∈ text_of object | _ => False end.
Proof.
  unfold get_str, text_of. destruct block as [| | | | |object]; try done. cbn [value_get mbind option_bind].
  destruct (BMap.get "text" object) as [[| | |t| |]|]; try done. intros [= ->]. by apply list_elem_of_singleton.
Qed.

Lemma chat_covered from_str req response e s :
  e ∈ normalize_chat from_str req response -> input_text e = Some s \/ event_tool_result e = Some s ->
  s ∈ chat_segments req.
Proof.
  intros [Hin|Hin]%elem_of_app Ht; [|by destruct (outputs_no_input _ _ s (chat_outputs _ _) Hin)].
  apply list_elem_of_bind in Hin as (m & Hm & Hin). apply list_elem_of_bind. exists m. split; [|done].
  unfold chat_message in Hm. unfold message_segments.
  destruct (nonempty_str (cm_content m)) as [c|] eqn:E; [|by apply elem_of_nil in Hm].
  apply nonempty_elem in E as ->. apply list_elem_of_singleton.
  destruct (bool_decide _); apply list_elem_of_singleton in Hm as ->; cbn in Ht; destruct Ht; congruence.
Qed.

Lemma responses_content_covered p value role e s :
  e ∈ response_input_content p value role -> input_text e = Some s \/ event_tool_result e = Some s ->
  s ∈ responses_content_segments value.
Proof.
  unfold response_input_content, responses_content_segments. intros He Ht.
  destruct value as [| | |t|parts|]; try by apply elem_of_nil in He.
  - apply pushed_text with (s := s) in He; [|apply read_text|exact Ht]. injection He as ->. by apply list_elem_of_singleton.
  - apply list_elem_of_bind in He as (part & He & Hin). apply list_elem_of_bind. exists part. split; [|done].
    unfold responses_part_segments. destruct part as [| | |t| |object];
      try (apply pushed_text with (s := s) in He; [|apply read_text|exact Ht]; injection He as ->; by apply list_elem_of_singleton);
      destruct (is_text_kind _); try by apply elem_of_nil in He.
    all: apply pushed_text with (s := s) in He; [|apply read_text|exact Ht]; by apply block_text in He.
Qed.

Lemma responses_item_covered item e s :
  e ∈ response_input_item item -> input_text e = Some s -> s ∈ responses_item_segments item.
Proof.
  unfold response_input_item, responses_item_segments, item_member. intros He Ht.
  destruct item as [| | | | |object];
    try by (eapply responses_content_covered; [exact He|by left]).
  cbn [as_object] in He. destruct (bool_decide (get_str "type" _ = Some "function_call_output")).
  - exfalso. assert (forall o, e ∈ match nonempty_str o with
      | Some c => [tool_result OpenAiResponses (get_str "call_id" (JObject object)) c] | None => [] end -> False) as Hr.
    { intros o Ho. destruct (nonempty_str o); [|by apply elem_of_nil in Ho].
      by apply list_elem_of_singleton in Ho as ->. }
    destruct (value_get "output" _) as [[| | |t|parts|]|]; try by apply elem_of_nil in He.
    + by apply (Hr (Some t)).
    + apply list_elem_of_bind in He as (part & He & _). by apply (Hr (get_str "text" part)).
  - destruct (_ || _); [|by apply elem_of_nil in He]. cbn [mbind option_bind].
    apply (responses_content_covered _ _ _ _ s) in He; [|by left]. cbn [value_get] in He.
    destruct (BMap.get "content" object); [done|]. by apply elem_of_nil in He.
Qed.

Lemma responses_covered from_str req response e s :
  e ∈ normalize_responses from_str req response -> input_text e = Some s -> s ∈ responses_segments req.
Proof.
  intros [Hin|[Hin|Hin]%elem_of_app]%elem_of_app Ht; unfold responses_segments; rewrite elem_of_app.
  - left. apply pushed_text with (s := s) in Hin; [|apply read_text|by left].
    rewrite Hin. by apply list_elem_of_singleton.
  - right. destruct (rr_input req) as [input|]; [|by apply elem_of_nil in Hin].
    apply list_elem_of_bind. exists input. split; [|by apply list_elem_of_singleton].
    unfold responses_input_segments.
    destruct input; try by eapply responses_item_covered.
    apply list_elem_of_bind in Hin as (item & He & Hin). apply list_elem_of_bind. exists item.
    split; [by eapply responses_item_covered|done].
  - destruct (outputs_no_input _ _ s (responses_outputs _ _) Hin). by left.
Qed.

Lemma anthropic_texts_covered value role output e s :
  e ∈ anthropic_texts value role output -> input_text e = Some s -> s ∈ content_segments value.
Proof.
  unfold anthropic_texts, content_segments. intros He Ht.
  destruct value as [| | |t|blocks|]; try by apply elem_of_nil in He.
  - apply pushed_text with (s := s) in He; [|apply read_text|by left]. injection He as ->.
    by apply list_elem_of_singleton.
  - apply list_elem_of_bind in He as (block & He & Hin). apply list_elem_of_bind. exists block. split; [|done].
    unfold block_segments. destruct (bool_decide (get_str "type" block = _)); [|by apply elem_of_nil in He].
    apply pushed_text with (s := s) in He; [|apply read_text|by left]. by apply block_text in He; destruct block.
Qed.

Lemma anthropic_covered req response e s :
  e ∈ normalize_anthropic req response -> input_text e = Some s -> s ∈ anthropic_segments req.
Proof.
  intros [Hin|[Hin|Hin]%elem_of_app]%elem_of_app Ht; unfold anthropic_segments; rewrite elem_of_app.
  - left. destruct (ar_system req) as [v|]; [|by apply elem_of_nil in Hin].
    apply list_elem_of_bind. exists v. split; [by eapply anthropic_texts_covered|by apply list_elem_of_singleton].
  - right. apply list_elem_of_bind in Hin as (m & Hin & Hm). apply list_elem_of_bind. exists m. split; [|done].
    apply elem_of_app in Hin as [Hin|Hin]; [|by eapply anthropic_texts_covered].
    apply each_elem in Hin as (b & Hin). unfold anthropic_result_block in Hin.
    destruct (bool_decide _); [|by apply elem_of_nil in Hin].
    destruct (anthropic_text_parts b); [by apply elem_of_nil in Hin|]. by apply list_elem_of_singleton in Hin as ->.
  - destruct (outputs_no_input _ _ s (anthropic_outputs _) Hin). by left.
Qed.

(** Rewriting the segments leaves every tool result as it was. *)
Lemma result_block_kept g b : anthropic_result_block (map_block g b) = anthropic_result_block b.
Proof.
  unfold map_block. destruct b as [| | | | |object]; try done.
  destruct (decide (get_str "type" (JObject object) = Some "text")) as [E|E];
    [rewrite bool_decide_true by done|by rewrite bool_decide_false by done].
  unfold map_text. destruct (BMap.get "text" object) as [[| | |t| |]|]; try done.
  assert (get_str "type" (set_key "text" object (JString (g t))) = Some "text") as E'.
  { rewrite <- E. unfold get_str, set_key. cbn [value_get]. by rewrite BMap.bmap_get_insert_ne by done. }
  unfold anthropic_result_block. by rewrite E, E'.
Qed.

Lemma texts_no_result value role output : omap event_tool_result (anthropic_texts value role output) = [].
Proof.
  assert (forall o, omap event_tool_result
    match nonempty_str o with Some c => [text Anthropic (if output then DOutput else DInput) role c] | None => [] end
    = []) as Ho.
  { intros o. destruct (nonempty_str o); [|done]. by destruct output. }
  unfold anthropic_texts. destruct value as [| | |t|blocks|]; try done.
  induction blocks as [|b blocks IH]; [done|]. cbn [mbind list_bind]. rewrite omap_app, IH, app_nil_r.
  destruct (bool_decide _); [apply Ho|done].
Qed.

Lemma results_kept g req response :
  omap event_tool_result (normalize_anthropic (map_anthropic g req) response) =
  omap event_tool_result (normalize_anthropic req response).
Proof.
  unfold normalize_anthropic. rewrite !omap_app. cbn [map_anthropic ar_system ar_messages]. f_equal; [|f_equal].
  - destruct (ar_system req); [|done]. cbn [fmap option_fmap option_map]. by rewrite !texts_no_result.
  - induction (ar_messages req) as [|m ms IH]; [done|]. cbn [fmap list_fmap mbind list_bind].
    rewrite !omap_app. f_equal; [|exact IH]. unfold anthropic_message. cbn [am_content am_role].
    rewrite !omap_app, !texts_no_result, !app_nil_r. f_equal. destruct (am_content m) as [| | | |bs|]; try done.
    unfold each. cbn [map_content as_array default]. induction bs as [|b bs IHb]; [done|].
    cbn [fmap list_fmap mbind list_bind]. unfold id in *. by rewrite !bind_cons, result_block_kept, IHb.
Qed.

Section pipeline_facts.
Context `{RegexEngine} `{TextCrates} `{UnicodeTables}.
Variable fw : Firewall.

(** The firewall's outcome on a segment (it never panics), whether it refuses the
    segment, and the text it lets through. *)
Definition verdict (s : string) : Outcome :=
  default (mkOutcome (mkDecision ActBlock None None) (mkRiskScore 0 []) [] None) (run fw s Input).
Definition passes (s : string) : Prop := d_action (o_decision (verdict s)) <> ActBlock.
Definition masked (s : string) : string :=
  if decide (d_action (o_decision (verdict s)) = ActMask)
  then default s (o_transformed_text (verdict s)) else s.

Lemma run_verdict s : run fw s Input = Some (verdict s).
Proof. unfold verdict. by destruct (run_spec fw s Input) as (added & o & -> & _). Qed.

(** A scan of a value with segments [segs] that leaves [a']: it stops exactly when a
    segment is refused, and otherwise has rewritten and noted every one. *)
Definition scans {A} (act : Acc -> option (A * option string * Acc)) (segs : list string) (a' : A) : Prop :=
  forall acc, exists x r acc', act acc = Some (x, r, acc') /\
    (r = None <-> Forall passes segs) /\
    (r = None -> x = a' /\ acc' = fold_left (fun acc s => note acc (verdict s)) segs acc).

Lemma scans_nothing {A} (a : A) : scans (scan_nothing a) [] a.
Proof. intros acc. exists a, None, acc. split; [done|]. split; [by split|done]. Qed.

Lemma scans_segment s : scans (scan_segment fw s) [s] (masked s).
Proof.
  intros acc. unfold scan_segment. rewrite run_verdict. cbn [mbind option_bind].
  assert (Forall passes [s] <-> passes s) as Hone by (rewrite Forall_cons; split; [tauto|by split]).
  unfold passes in *. unfold masked.
  destruct (d_action (o_decision (verdict s))); eexists _, _, _; (split; [done|]); rewrite Hone;
    (split; [|done]); by split.
Qed.

Lemma scans_via {A B} (put : B -> A) (f : scan B) (b b' : B) segs :
  scans (f b) segs b' -> scans (scan_via put f b) segs (put b').
Proof.
  intros Hf acc. destruct (Hf acc) as (x & r & acc' & E & Hr & Hx). unfold scan_via. rewrite E. cbn.
  exists (put x), r, acc'. split; [done|]. split; [done|]. intros Hn. by destruct (Hx Hn) as [-> ->].
Qed.

Lemma scans_each {A} (f : scan A) (segs : A -> list string) (tr : A -> A) (l : list A) :
  (forall x, scans (f x) (segs x) (tr x)) -> scans (scan_each f l) (l ≫= segs) (tr <$> l).
Proof.
  intros Hf. induction l as [|a l IH]; [apply scans_nothing|]. intros acc. rewrite bind_cons.
  cbn [scan_each]. destruct (Hf a acc) as (x & r & acc1 & -> & Hr & Hx). cbn [mbind option_bind].
  destruct r as [reason|].
  - exists (x :: l), (Some reason), acc1. split; [done|]. split; [|done].
    rewrite Forall_app, <- Hr. split; [done|]. by intros [? _].
  - destruct (Hx eq_refl) as [-> ->]. destruct (IH (fold_left (fun acc s => note acc (verdict s)) (segs a) acc))
      as (y & r & acc2 & E & Hr' & Hy). rewrite E. cbn [mbind option_bind].
    exists (tr a :: y), r, acc2. split; [done|]. rewrite fold_left_app.
    split; [rewrite Forall_app, <- Hr, Hr'; naive_solver|]. intros Hn. by destruct (Hy Hn) as [-> ->].
Qed.

Lemma scans_option {A} (f : scan A) (segs : A -> list string) (tr : A -> A) (o : option A) :
  (forall x, scans (f x) (segs x) (tr x)) -> scans (scan_option f o) (option_list o ≫= segs) (tr <$> o).
Proof.
  intros Hf. destruct o as [a|]; [|apply scans_nothing]. cbn. rewrite app_nil_r. by apply scans_via.
Qed.

(** Two scans in sequence, the second on the value the first left. *)
Lemma scans_seq {A B} (f : Acc -> option (A * option string * Acc)) (part : A -> B)
    (k : A -> Acc -> option (B * option string * Acc)) segs1 segs2 (a' : A) (b' : B) :
  scans f segs1 a' -> scans (k a') segs2 b' ->
  scans (fun acc => '(a, r, acc) ← f acc;
    match r with Some reason => Some (part a, Some reason, acc) | None => k a acc end) (segs1 ++ segs2) b'.
Proof.
  intros Hf Hk acc. destruct (Hf acc) as (x & r & acc1 & -> & Hr & Hx). cbn [mbind option_bind].
  destruct r as [reason|].
  - exists (part x), (Some reason), acc1. split; [done|]. split; [|done]. rewrite Forall_app, <- Hr. split; [done|]. by intros [? _].
  - destruct (Hx eq_refl) as [-> ->].
    destruct (Hk (fold_left (fun acc s => note acc (verdict s)) segs1 acc)) as (y & r & acc2 & E & Hr' & Hy).
    exists y, r, acc2. split; [done|]. rewrite fold_left_app.
    split; [rewrite Forall_app, <- Hr, Hr'; naive_solver|done].
Qed.

Lemma scans_text object :
  scans (match BMap.get "text" object with
         | Some (JString t) => scan_via (fun t => set_key "text" object (JString t)) (scan_segment fw) t
         | _ => scan_nothing (JObject object) end) (text_of object) (map_text masked object).
Proof.
  unfold text_of, map_text. destruct (BMap.get "text" object) as [[]|]; try apply scans_nothing.
  apply (scans_via (fun t => set_key "text" object (JString t))), scans_segment.
Qed.

Lemma scans_message m : scans (scan_chat_message fw m) (message_segments m) (map_message masked m).
Proof.
  unfold scan_chat_message, message_segments, map_message. destruct m as [role [c|] rest]; cbn.
  - apply (scans_via (fun c => mkChatMessage role (Some c) rest)), scans_segment.
  - apply scans_nothing.
Qed.

Lemma scans_responses_part part :
  scans (scan_responses_part fw part) (responses_part_segments part) (map_responses_part masked part).
Proof.
  unfold scan_responses_part, responses_part_segments, map_responses_part.
  destruct part as [| | |t|l|object]; try apply scans_nothing; [apply scans_via, scans_segment|].
  destruct (is_text_kind _); [apply scans_text|apply scans_nothing].
Qed.

Lemma scans_responses_content v :
  scans (scan_responses_content fw v) (responses_content_segments v) (map_responses_content masked v).
Proof.
  unfold scan_responses_content, responses_content_segments, map_responses_content.
  destruct v; try apply scans_nothing; [apply scans_via, scans_segment|].
  apply (scans_via JArray), scans_each, scans_responses_part.
Qed.

Lemma scans_member key object :
  scans (scan_member key object (scan_responses_content fw))
    (match BMap.get key object with Some v => responses_content_segments v | None => [] end)
    (match BMap.get key object with
     | Some v => set_key key object (map_responses_content masked v)
     | None => JObject object end).
Proof.
  unfold scan_member. destruct (BMap.get key object); [|apply scans_nothing].
  apply (scans_via (set_key key object)), scans_responses_content.
Qed.

Lemma scans_responses_item item :
  scans (scan_responses_item fw item) (responses_item_segments item) (map_responses_item masked item).
Proof.
  unfold scan_responses_item, responses_item_segments, map_responses_item, item_member.
  destruct item as [| | |t|l|object]; try apply scans_responses_content.
  destruct (bool_decide _); [apply (scans_member "output" object)|].
  destruct (_ || _); [apply (scans_member "content" object)|apply scans_nothing].
Qed.

Lemma scans_responses_input input :
  scans (scan_responses_input fw input) (responses_input_segments input) (map_responses_input masked input).
Proof.
  unfold scan_responses_input, responses_input_segments, map_responses_input.
  destruct input as [| | |t|l|object]; try apply scans_responses_item.
  apply (scans_via JArray), scans_each, scans_responses_item.
Qed.

Lemma scans_content v : scans (scan_content fw v) (content_segments v) (map_content masked v).
Proof.
  unfold scan_content, content_segments, map_content.
  destruct v; try apply scans_nothing; [apply scans_via, scans_segment|].
  apply (scans_via JArray), scans_each. intros b. unfold scan_block, block_segments, map_block.
  destruct b as [| | |t|k|object]; try apply scans_nothing.
  destruct (bool_decide _); [apply scans_text|apply scans_nothing].
Qed.

(** The score a decision reports: the highest over the segments. *)
Definition worst_score (segs : list string) : Z :=
  fold_left (fun w s => Z.max w (rs_score (o_score (verdict s)))) segs 0%Z.

Lemma note_worst segs acc :
  acc_worst (fold_left (fun acc s => note acc (verdict s)) segs acc) =
  fold_left (fun w s => Z.max w (rs_score (o_score (verdict s)))) segs (acc_worst acc).
Proof.
  revert acc. induction segs as [|s segs IH]; intros acc; [done|]. cbn [fold_left]. rewrite IH. f_equal.
  unfold note. destruct (Z.ltb_spec (acc_worst acc) (rs_score (o_score (verdict s)))); cbn; lia.
Qed.

(** What a decision should be for a request with segments [segs] whose rewriting is
    [rewritten]. *)
Definition decides {R} (o : option (InputDecision R)) (segs : list string) (rewritten : R) : Prop :=
  exists d, o = Some d /\
    (id_block_reason d = None <-> forall s, s ∈ segs -> passes s) /\
    (id_block_reason d = None -> id_request d = rewritten /\ id_score d = worst_score segs).

Lemma scans_decides {R} (act : Acc -> option (R * option string * Acc)) segs rewritten :
  scans act segs rewritten -> decides (decision_of <$> act acc_default) segs rewritten.
Proof.
  intros Hs. destruct (Hs acc_default) as (x & r & acc & -> & Hr & Hx). cbn.
  eexists. split; [done|]. cbn. rewrite <- Forall_forall. split; [done|].
  intros Hn. destruct (Hx Hn) as [-> ->]. split; [done|]. apply note_worst.
Qed.

End pipeline_facts.

(** On the Anthropic wire tool results are no segments: a request that carries only tool
    results has no segment at all, so none of its text can be refused or masked. *)
Theorem anthropic_results_unscanned (rs : tool_outputs) :
  anthropic_segments (anthropic_request_of rs) = [] /\
  chat_segments (chat_request_of rs) = rs.*2 /\
  responses_segments (responses_request_of rs) = rs.*2.
Proof.
  split_and!.
  - unfold anthropic_segments. cbn [anthropic_request_of ar_system ar_messages option_list app mbind list_bind].
    rewrite app_nil_r. cbn [am_content content_segments]. apply bind_none.
    by intros x (r & -> & _)%list_elem_of_fmap.
  - unfold chat_segments. cbn [chat_request_of cr_messages]. rewrite bind_fmap_list.
    rewrite <- (list_fmap_id (_ ≫= _)). by apply bind_one.
  - trans ((responses_output_json <$> rs) ≫= responses_item_segments); [exact (app_nil_r _)|].
    rewrite bind_fmap_list.
    rewrite <- (list_fmap_id (_ ≫= _)). by apply bind_one.
Qed.
