(* ===== verification/AgentScan.v ===== *)
(** Inspection of the tool blocks of proxied traffic
    ([crates/proxy/src/agent_scan.rs]): extraction per provider, one
    request/response cycle through the agent firewall, and the reassembly of tool
    calls streamed in fragments. *)
From S2P Require Import Prelude BTree Platform F32 Json CoreTypes Detectors Adapter Event.
From S2P Require Import Taint Action AgentPolicy Engine ProxyEvents.
From Stdlib Require Import String Ascii.
#[local] Abbreviation length := List.length.

(** The source's [ToolCall]. *)
Record WireCall := mkWireCall { wc_name : string; wc_args : Value }.

Record ScanVerdict := mkScanVerdict { sv_verdict : Verdict; sv_reason : option string }.

Definition scan_adapter_response (v : ScanVerdict) (policy_version : string) : DecisionResponse :=
  {| rp_contract_version := CONTRACT_VERSION;
     rp_verdict := match sv_verdict v with
       | Allow => AAllow | Ask => AAsk | Deny => ADeny | Escalate => AAsk end;
     rp_policy_version := policy_version;
     rp_policy_bundle_id := None;
     rp_reason_codes := [];
     rp_remediation_hint := None;
     rp_expires_at := None;
     rp_signature := None;
     rp_replay := None |}.

(** ** Extraction *)

Definition openai_tool_results (req : ChatRequest) : list string :=
  List.filter (fun c => negb (Str.is_empty c))
    (omap cm_content (List.filter (fun m => bool_decide (cm_role m = "tool")) (cr_messages req))).

Definition responses_result_item (item : Value) : list string :=
  if negb (bool_decide (get_str "type" item = Some "function_call_output")) then []
  else match value_get "output" item with
       | Some (JString t) => if Str.is_empty t then [] else [t]
       | Some (JArray parts) => parts ≫= fun part => option_list (nonempty_str (get_str "text" part))
       | _ => []
       end.

Definition responses_tool_results (req : ResponsesRequest) : list string :=
  each (rr_input req ≫= as_array) responses_result_item.

Definition anthropic_result_texts (b : Value) : list string :=
  if negb (bool_decide (get_str "type" b = Some "tool_result")) then []
  else match value_get "content" b with
       | Some (JString s) => if Str.is_empty s then [] else [s]
       | Some (JArray inner) => inner ≫= fun ib => option_list (nonempty_str (get_str "text" ib))
       | _ => []
       end.

Definition anthropic_tool_results (request : Value) : list string :=
  each (get_array "messages" request) (fun m => each (get_array "content" m) anthropic_result_texts).

(** [v.pointer("/a/b")] for two object keys. *)
Definition pointer2 (a b : string) (v : Value) : option Value := value_get a v ≫= value_get b.

Definition anthropic_call (b : Value) : option WireCall :=
  if negb (bool_decide (get_str "type" b = Some "tool_use")) then None
  else name ← get_str "name" b; Some (mkWireCall name (default JNull (value_get "input" b))).

Definition anthropic_tool_calls (response : Value) : list WireCall :=
  each (get_array "content" response) (fun b => option_list (anthropic_call b)).

Section extraction.
Variable from_str : string -> option Value.

Definition openai_call (c : Value) : option WireCall :=
  f ← value_get "function" c;
  name ← get_str "name" f;
  Some (mkWireCall name
    (match value_get "arguments" f with
     | Some (JString s) => default (JString s) (from_str s)
     | Some v => v
     | None => JNull
     end)).

Definition openai_tool_calls (response : Value) : list WireCall :=
  each (get_array "choices" response) (fun ch =>
    each (pointer2 "message" "tool_calls" ch ≫= as_array) (fun c => option_list (openai_call c))).

Definition responses_tool_call (item : Value) : option WireCall :=
  if negb (bool_decide (get_str "type" item = Some "function_call")) then None
  else name ← get_str "name" item;
       Some (mkWireCall name
         (match value_get "arguments" item with
          | Some (JString s) => default (JString s) (from_str s)
          | Some v => v
          | None => JNull
          end)).

Definition responses_tool_calls (response : Value) : list WireCall :=
  each (get_array "output" response) (fun item => option_list (responses_tool_call item)).
End extraction.

(** ** One cycle *)

Definition verdict_rank (v : Verdict) : nat :=
  match v with Allow => 0 | Ask => 1 | Escalate => 2 | Deny => 3 end.

Definition result_event (session : string) (seq : Z) (content : string) : AgentEvent :=
  mkEvent session "api" None seq 0 (ToolResult "tool" content (McpServer "api-tool")).
Definition call_event (session : string) (seq : Z) (call : WireCall) : AgentEvent :=
  mkEvent session "api" None seq 0 (ToolCall (wc_name call) (wc_args call)).

(** [out.rule.map(..)]. *)
Definition scan_reason (out : AgentOutcome) : option string :=
  (fun r => match ao_message out with
    | Some m => "[" +:+ r +:+ "] " +:+ m
    | None => "[" +:+ r +:+ "]" end) <$> ao_rule out.

Definition event_wire_call (e : SecurityEvent) : option WireCall :=
  match se_direction e, se_kind e with
  | DOutput, KToolCall _ name args => Some (mkWireCall name args)
  | _, _ => None
  end.

Section cycle.
Context `{UnicodeTables} `{RegexEngine} `{LiteralIter}.

Definition cycle_state : Type := AgentFirewall * Z.

Definition ingest_result (session : string) (st : cycle_state) (content : string) : cycle_state :=
  let '(fw, seq) := st in
  ((inspect fw (result_event session (seq + 1) content)).2, (seq + 1)%Z).

Definition judge_call (session : string) (st : cycle_state * ScanVerdict) (call : WireCall) :
    cycle_state * ScanVerdict :=
  let '((fw, seq), worst) := st in
  let '(out, fw) := inspect fw (call_event session (seq + 1) call) in
  ((fw, (seq + 1)%Z),
   if verdict_rank (sv_verdict worst) <? verdict_rank (ao_verdict out)
   then mkScanVerdict (ao_verdict out) (scan_reason out) else worst).

Definition inspect_cycle (fw : AgentFirewall) (session : string) (tool_results : list string)
    (tool_calls : list WireCall) : ScanVerdict * AgentFirewall :=
  let st := fold_left (ingest_result session) tool_results (fw, 0%Z) in
  let '((fw, _), worst) := fold_left (judge_call session) tool_calls (st, mkScanVerdict Allow None) in
  (worst, fw).

Definition inspect_normalized_cycle (fw : AgentFirewall) (session : string)
    (events : list SecurityEvent) : ScanVerdict * AgentFirewall :=
  inspect_cycle fw session (omap event_tool_result events) (omap event_wire_call events).
End cycle.

(** ** Streamed tool calls *)

Inductive StreamProtocol := SPOpenAiChat | SPAnthropicMessages.

Definition MAX_STREAM_TOOL_CALL_BYTES : Z := 256 * 1024.
Definition TOOL_CALL_TOO_LARGE : string := "streamed tool call exceeded the inspection size limit".

Record PartialToolCall := mkPartial {
  pt_name : option string;
  pt_args : string;
  pt_initial_input : option Value
}.

Definition partial_default : PartialToolCall := mkPartial None EmptyString None.

Record StreamingToolCalls := mkStreaming {
  stc_protocol : StreamProtocol;
  stc_partial : BMap.t Z PartialToolCall;
  stc_budget : Z
}.

Definition set_partial (p : BMap.t Z PartialToolCall) (s : StreamingToolCalls) : StreamingToolCalls :=
  mkStreaming (stc_protocol s) p (stc_budget s).
Definition set_budget (b : Z) (s : StreamingToolCalls) : StreamingToolCalls :=
  mkStreaming (stc_protocol s) (stc_partial s) b.

Definition with_limit (protocol : StreamProtocol) (max_bytes : Z) : StreamingToolCalls :=
  mkStreaming protocol [] max_bytes.
Definition streaming_new (protocol : StreamProtocol) : StreamingToolCalls :=
  with_limit protocol MAX_STREAM_TOOL_CALL_BYTES.

(** [self.budget.checked_sub(len)]: the budget is only replaced when it suffices. *)
Definition charge (len : nat) (s : StreamingToolCalls) : option StreamingToolCalls :=
  if (Z.of_nat len <=? stc_budget s)%Z then Some (set_budget (stc_budget s - Z.of_nat len) s) else None.

Section streaming.
Variable from_str : string -> option Value.

Definition finish (p : PartialToolCall) : option WireCall :=
  name ← pt_name p;
  Some (mkWireCall name
    (if Str.is_empty (pt_args p) then default JNull (pt_initial_input p)
     else default (JString (pt_args p)) (from_str (pt_args p)))).

Definition flush (s : StreamingToolCalls) : list WireCall * StreamingToolCalls :=
  (omap finish (stc_partial s).*2, set_partial [] s).

(** One element of [delta.tool_calls]: its index, name and argument fragment. *)
Definition fragment_of (call : Value) : Z * option string * string :=
  (default 0%Z (value_get "index" call ≫= as_u64),
   nonempty_str (pointer2 "function" "name" call ≫= as_str),
   default EmptyString (pointer2 "function" "arguments" call ≫= as_str)).

Definition add_fragment (s : StreamingToolCalls) (f : Z * option string * string) :
    option StreamingToolCalls :=
  let '(index, name, fragment) := f in
  s ← (if Str.is_empty fragment then Some s else charge (Str.len fragment) s);
  let entry := default partial_default (BMap.get index (stc_partial s)) in
  let entry := mkPartial (match name with Some n => Some n | None => pt_name entry end)
                 (pt_args entry +:+ fragment) (pt_initial_input entry) in
  Some (set_partial (BMap.insert index entry (stc_partial s)) s).

(** The loop over [delta.tool_calls]; [false] when a charge failed. *)
Fixpoint openai_fragments (calls : list Value) (s : StreamingToolCalls) : bool * StreamingToolCalls :=
  match calls with
  | [] => (true, s)
  | call :: calls =>
      match add_fragment s (fragment_of call) with
      | Some s => openai_fragments calls s
      | None => (false, s)
      end
  end.

Definition choice_finished (choice : Value) : bool :=
  match value_get "finish_reason" choice with
  | Some reason => negb (is_null reason)
  | None => false
  end.

Fixpoint openai_choices (choices : list Value) (completed : bool) (s : StreamingToolCalls) :
    option bool * StreamingToolCalls :=
  match choices with
  | [] => (Some completed, s)
  | choice :: choices =>
      let '(ok, s) := openai_fragments
        (default [] (pointer2 "delta" "tool_calls" choice ≫= as_array)) s in
      if ok then openai_choices choices (completed || choice_finished choice) s else (None, s)
  end.

Definition push_openai (s : StreamingToolCalls) (event : Value) :
    result (list WireCall) string * StreamingToolCalls :=
  match get_array "choices" event with
  | None => (Ok [], s)
  | Some choices =>
      match openai_choices choices false s with
      | (None, s) => (Err TOOL_CALL_TOO_LARGE, s)
      | (Some true, s) => let '(calls, s) := flush s in (Ok calls, s)
      | (Some false, s) => (Ok [], s)
      end
  end.

Definition block_start (index : Z) (event : Value) (s : StreamingToolCalls) : StreamingToolCalls :=
  match value_get "content_block" event with
  | None => s
  | Some block =>
      if negb (bool_decide (get_str "type" block = Some "tool_use")) then s
      else match get_str "name" block with
           | None => s
           | Some name => set_partial
               (BMap.insert index (mkPartial (Some name) EmptyString (value_get "input" block))
                  (stc_partial s)) s
           end
  end.

Definition block_delta (index : Z) (event : Value) (s : StreamingToolCalls) :
    option StreamingToolCalls :=
  if negb (bool_decide ((pointer2 "delta" "type" event ≫= as_str) = Some "input_json_delta")) then Some s
  else match pointer2 "delta" "partial_json" event ≫= as_str with
       | None => Some s
       | Some fragment =>
           match BMap.get index (stc_partial s) with
           | None => Some s
           | Some entry =>
               s ← charge (Str.len fragment) s;
               Some (set_partial (BMap.insert index
                 (mkPartial (pt_name entry) (pt_args entry +:+ fragment) (pt_initial_input entry))
                 (stc_partial s)) s)
           end
       end.

Definition push_anthropic (s : StreamingToolCalls) (event : Value) :
    result (list WireCall) string * StreamingToolCalls :=
  let index := default 0%Z (value_get "index" event ≫= as_u64) in
  match get_str "type" event with
  | None => (Ok [], s)
  | Some kind =>
      if bool_decide (kind = "content_block_start") then (Ok [], block_start index event s)
      else if bool_decide (kind = "content_block_delta") then
        match block_delta index event s with
        | Some s => (Ok [], s)
        | None => (Err TOOL_CALL_TOO_LARGE, s)
        end
      else if bool_decide (kind = "content_block_stop") then
        (Ok (option_list (BMap.get index (stc_partial s) ≫= finish)),
         set_partial (BMap.remove index (stc_partial s)) s)
      else if bool_decide (kind = "message_stop") then
        let '(calls, s) := flush s in (Ok calls, s)
      else (Ok [], s)
  end.

Definition push (s : StreamingToolCalls) (event : Value) :
    result (list WireCall) string * StreamingToolCalls :=
  match stc_protocol s with
  | SPOpenAiChat => push_openai s event
  | SPAnthropicMessages => push_anthropic s event
  end.
End streaming.

(** ** Properties *)

(** *** Extraction *)

Lemma omap_bind {A B C} (f : B -> option C) (g : A -> list B) (l : list A) :
  omap f (l ≫= g) = l ≫= (fun x => omap f (g x)).
Proof. induction l as [|x l IH]; [done|]. by rewrite !bind_cons, omap_app, IH. Qed.

Lemma bind_ext_list {A B} (f g : A -> list B) (l : list A) :
  (forall x, f x = g x) -> l ≫= f = l ≫= g.
Proof. intros Hfg. induction l as [|x l IH]; [done|]. by rewrite !bind_cons, Hfg, IH. Qed.

(** Two loops over the same optional array agree when their bodies do. *)
Lemma omap_each {A B} (f : A -> option B) (o : option (list Value)) (g : Value -> list A)
    (h : Value -> list B) :
  (forall v, omap f (g v) = h v) -> omap f (each o g) = each o h.
Proof. intros Hgh. unfold each. rewrite omap_bind. by apply bind_ext_list. Qed.

Lemma omap_each_none {A B} (f : A -> option B) (o : option (list Value)) (g : Value -> list A) :
  (forall v, omap f (g v) = []) -> omap f (each o g) = [].
Proof. intros Hg. rewrite (omap_each f o g (fun _ => [])) by done. unfold each. by apply bind_none. Qed.

Ltac branches :=
  repeat (simpl; case_match; simplify_eq/=; try done).

(** The buffered path and the streaming path see the same Chat traffic: the events
    carry exactly the results and the calls the extractors find. *)
Theorem chat_extraction_agrees from_str (req : ChatRequest) (resp : Value) :
  input_tool_results (normalize_chat from_str req resp) = openai_tool_results req /\
  omap event_wire_call (normalize_chat from_str req resp) = openai_tool_calls from_str resp.
Proof.
  unfold input_tool_results, normalize_chat. rewrite !omap_app. split.
  - rewrite (omap_each_none _ _ (chat_choice from_str)), app_nil_r.
    + unfold openai_tool_results. destruct req as [? ms ? ?]. simpl.
      induction ms as [|[role [c|] rest] ms IH]; [done| |]; rewrite bind_cons, omap_app, IH;
        unfold chat_message; simpl; case_bool_decide; simpl; try done; by destruct c.
    + intros v. unfold chat_choice. case_match; [|done]. rewrite omap_app.
      rewrite omap_each_none; [by case_match|]. intros w. unfold chat_call. by branches.
  - assert (omap event_wire_call (cr_messages req ≫= chat_message) = []) as ->.
    { rewrite omap_bind. apply bind_none. intros m _. unfold chat_message. by branches. }
    unfold openai_tool_calls. apply omap_each. intros v. unfold chat_choice, pointer2.
    destruct (value_get "message" v) as [msg|]; simpl; [|done]. rewrite omap_app.
    replace (omap event_wire_call _) with (@nil WireCall) at 1 by by case_match.
    apply omap_each. intros w. unfold chat_call, openai_call.
    destruct (value_get "function" w) as [f|]; simpl; [|done]. by destruct (get_str "name" f).
Qed.

Lemma content_no_results p v role :
  omap event_tool_result (response_input_content p v role) = [] /\
  omap event_wire_call (response_input_content p v role) = [].
Proof.
  unfold response_input_content. destruct v; try done; [by case_match|].
  rewrite !omap_bind. split; apply bind_none; intros part _; by branches.
Qed.

Lemma item_results (v : Value) :
  omap event_tool_result (response_input_item v) = responses_result_item v.
Proof.
  unfold response_input_item, responses_result_item. destruct v as [| | | |l|m];
    try exact (proj1 (content_no_results OpenAiResponses _ None)).
  cbn [as_object].
  case_bool_decide; simpl negb; cbv iota.
  - destruct (value_get "output" (JObject m)) as [[]|]; try done.
    + simpl. by destruct (Str.is_empty s).
    + rewrite omap_bind. apply bind_ext_list. intros part. by destruct (nonempty_str _).
  - case_match; [|done]. by rewrite (proj1 (content_no_results _ _ _)).
Qed.

Lemma item_no_calls (v : Value) : omap event_wire_call (response_input_item v) = [].
Proof.
  unfold response_input_item. case_match; [|by apply content_no_results].
  case_match; [|case_match; [by apply content_no_results|done]].
  case_match; [|done]. case_match; try done; [by branches|].
  rewrite omap_bind. apply bind_none. intros part _. by branches.
Qed.

(** The same for the Responses wire, for the input forms the API defines: a text or
    a list of items. *)
Theorem responses_extraction_agrees from_str (req : ResponsesRequest) (resp : Value) :
  (forall m, rr_input req <> Some (JObject m)) ->
  input_tool_results (normalize_responses from_str req resp) = responses_tool_results req /\
  omap event_wire_call (normalize_responses from_str req resp) = responses_tool_calls from_str resp.
Proof.
  intros Hin. unfold input_tool_results, normalize_responses. rewrite !omap_app.
  assert (forall B (f : SecurityEvent -> option B), (forall p d r t, f (text p d r t) = None) ->
    omap f match nonempty_str (rr_instructions req) with
      | Some i => [text OpenAiResponses DInput (Some "system") i] | None => [] end = []) as Hinstr.
  { intros B f Hf. case_match; [|done]. simpl. by rewrite Hf. }
  rewrite !Hinstr by (by intros ? []). simpl app. split.
  - rewrite (omap_each_none _ _ (responses_output_item from_str)), app_nil_r.
    + unfold responses_tool_results. destruct (rr_input req) as [[]|]; try done.
      * by destruct s.
      * simpl. unfold each. simpl. rewrite omap_bind. apply bind_ext_list, item_results.
      * naive_solver.
    + intros v. unfold responses_output_item. destruct (get_str "type" v) as [k|]; [|done].
      case_bool_decide; [apply omap_each_none; intros w; unfold responses_message_part; by branches|].
      by branches.
  - assert (omap event_wire_call match rr_input req with
      | Some (JArray items) => items ≫= response_input_item
      | Some value => response_input_item value | None => [] end = []) as ->.
    { destruct (rr_input req) as [[]|]; try done; try apply item_no_calls.
      rewrite omap_bind. apply bind_none. intros x _. apply item_no_calls. }
    unfold responses_tool_calls. apply omap_each. intros v.
    unfold responses_output_item, responses_tool_call.
    destruct (get_str "type" v) as [k|]; [|done].
    destruct (decide (k = "message")) as [->|Hk]; [|rewrite bool_decide_false by done].
    + rewrite bool_decide_true by done. apply omap_each_none. intros w.
      unfold responses_message_part. by branches.
    + destruct (decide (k = "function_call")) as [->|Hk'].
      * rewrite !bool_decide_true by done. simpl. by destruct (get_str "name" v).
      * rewrite !bool_decide_false by congruence. done.
Qed.

(** And for the calls of the Anthropic wire. *)
Theorem anthropic_extraction_agrees (req : AnthropicRequest) (resp : Value) :
  omap event_wire_call (normalize_anthropic req resp) = anthropic_tool_calls resp.
Proof.
  unfold normalize_anthropic. rewrite !omap_app.
  assert (forall v r, omap event_wire_call (anthropic_texts v r false) = []) as Htexts.
  { intros v r. unfold anthropic_texts. destruct v; try done; [by branches|].
    rewrite omap_bind. apply bind_none. intros x _. by branches. }
  assert (omap event_wire_call (ar_messages req ≫= anthropic_message) = []) as ->.
  { rewrite omap_bind. apply bind_none. intros m _. unfold anthropic_message.
    rewrite omap_app, Htexts, omap_each_none; [done|].
    intros v. unfold anthropic_result_block. by branches. }
  replace (omap event_wire_call _) with (@nil WireCall) at 1 by (by case_match; rewrite ?Htexts).
  unfold anthropic_tool_calls. apply omap_each. intros v.
  unfold anthropic_output_block, anthropic_call. destruct (get_str "type" v) as [k|]; [|done].
  destruct (decide (k = "tool_use")) as [->|Hk].
  - rewrite bool_decide_false, !bool_decide_true by done. simpl. by destruct (get_str "name" v).
  - rewrite (bool_decide_false (k = "tool_use")), (bool_decide_false (Some k = Some "tool_use")) by congruence.
    simpl. by branches.
Qed.

(** *** One cycle *)

Section cycle_facts.
Context `{UnicodeTables} `{RegexEngine} `{LiteralIter}.

Fixpoint result_events (session : string) (seq : Z) (rs : list string) : list AgentEvent :=
  match rs with
  | [] => []
  | c :: rs => result_event session (seq + 1) c :: result_events session (seq + 1) rs
  end.

Lemma ingest_results (session : string) (rs : list string) (fw : AgentFirewall) (seq : Z) :
  (fold_left (ingest_result session) rs (fw, seq)).1 = inspect_all fw (result_events session seq rs).
Proof. revert fw seq. induction rs as [|c rs IH]; intros fw seq; [done|]. apply IH. Qed.

Lemma result_events_elem session seq rs e :
  e ∈ result_events session seq rs -> exists q c, c ∈ rs /\ e = result_event session q c.
Proof.
  revert seq. induction rs as [|c rs IH]; intros seq; simpl; [by intros ?%elem_of_nil|].
  intros [->|Hin]%elem_of_cons; [exists (seq + 1)%Z, c; split; [left|done]|].
  destruct (IH _ Hin) as (q & c' & ? & ?). exists q, c'. split; [by right|done].
Qed.

(** The firewall a cycle's calls are judged by. *)
Definition after_results (fw : AgentFirewall) (session : string) (rs : list string) : AgentFirewall :=
  inspect_all fw (result_events session 0 rs).

Definition call_verdict (fw : AgentFirewall) (session : string) (c : WireCall) : AgentOutcome :=
  (inspect fw (call_event session 0 c)).1.

(** Judging a call changes nothing, and its place in the cycle does not matter. *)
Lemma inspect_call_event fw session q c :
  inspect fw (call_event session q c) = (call_verdict fw session c, fw).
Proof. done. Qed.

Lemma judge_call_eq session fw seq worst c :
  judge_call session ((fw, seq), worst) c =
  ((fw, (seq + 1)%Z),
   if verdict_rank (sv_verdict worst) <? verdict_rank (ao_verdict (call_verdict fw session c))
   then mkScanVerdict (ao_verdict (call_verdict fw session c)) (scan_reason (call_verdict fw session c))
   else worst).
Proof. done. Qed.

Lemma judge_calls_spec (session : string) (cs : list WireCall) (fw : AgentFirewall) (seq : Z)
    (worst : ScanVerdict) :
  let out := fold_left (judge_call session) cs ((fw, seq), worst) in
  out.1.1 = fw /\
  verdict_rank (sv_verdict worst) <= verdict_rank (sv_verdict out.2) /\
  (forall c, c ∈ cs -> verdict_rank (ao_verdict (call_verdict fw session c))
     <= verdict_rank (sv_verdict out.2)) /\
  (out.2 = worst \/ exists c, c ∈ cs /\
     out.2 = mkScanVerdict (ao_verdict (call_verdict fw session c)) (scan_reason (call_verdict fw session c))).
Proof.
  revert seq worst. induction cs as [|c cs IH]; intros seq worst.
  { simpl. split_and!; [done|done|by intros ? ?%elem_of_nil|by left]. }
  cbn [fold_left]. rewrite judge_call_eq. cbv zeta.
  set (o := call_verdict fw session c).
  set (w := if _ <? _ then _ else worst).
  assert (verdict_rank (sv_verdict worst) <= verdict_rank (sv_verdict w) /\
    verdict_rank (ao_verdict o) <= verdict_rank (sv_verdict w) /\
    (w = worst \/ w = mkScanVerdict (ao_verdict o) (scan_reason o))) as (Hw & Ho & Hcase).
  { subst w. destruct (Nat.ltb_spec (verdict_rank (sv_verdict worst)) (verdict_rank (ao_verdict o)));
      cbn [sv_verdict]; auto with lia. }
  clearbody w. destruct (IH (seq + 1)%Z w) as (J1 & J2 & J3 & J4). split_and!; [done|lia| |].
  - intros c' [->|Hc]%elem_of_cons; [fold o; lia|by apply J3].
  - destruct J4 as [->|(c' & Hc & ->)]; [|right; exists c'; split; [by right|done]].
    destruct Hcase as [->| ->]; [by left|right]. exists c. split; [left|done].
Qed.

Lemma judge_worst (fw : AgentFirewall) (session : string) (rs : list string) (cs : list WireCall) :
  let out := (inspect_cycle fw session rs cs).1 in
  let v c := call_verdict (after_results fw session rs) session c in
  (forall c, c ∈ cs -> verdict_rank (ao_verdict (v c)) <= verdict_rank (sv_verdict out)) /\
  (out = mkScanVerdict Allow None \/
   exists c, c ∈ cs /\ out = mkScanVerdict (ao_verdict (v c)) (scan_reason (v c))) /\
  (inspect_cycle fw session rs cs).2 = after_results fw session rs.
Proof.
  unfold inspect_cycle, after_results. rewrite <- (ingest_results session rs fw 0).
  destruct (fold_left (ingest_result session) rs (fw, 0%Z)) as [fw1 seq]. cbn [fst]. cbv zeta.
  destruct (judge_calls_spec session cs fw1 seq (mkScanVerdict Allow None)) as (J1 & _ & J3 & J4).
  destruct (fold_left (judge_call session) cs _) as [[fw2 seq2] worst].
  cbn [fst snd] in *. subst fw2. done.
Qed.

(** A cycle reports the worst verdict over its calls, each judged after all the
    results of the cycle, so the order in which the response lists them does not
    change the verdict. *)
Theorem cycle_order (fw : AgentFirewall) (session : string) (rs : list string) (cs cs' : list WireCall) :
  cs ≡ₚ cs' ->
  sv_verdict (inspect_cycle fw session rs cs).1 = sv_verdict (inspect_cycle fw session rs cs').1 /\
  (inspect_cycle fw session rs cs).2 = (inspect_cycle fw session rs cs').2.
Proof.
  intros Hp. destruct (judge_worst fw session rs cs) as (Hm & Hc & ->).
  destruct (judge_worst fw session rs cs') as (Hm' & Hc' & ->). split; [|done].
  assert (forall a b, verdict_rank a = verdict_rank b -> a = b) as Hinj by by intros [] [].
  apply Hinj, Nat.le_antisymm.
  - destruct Hc as [->|(c & Hin & ->)]; [cbn; lia|]. apply Hm'. by rewrite <- Hp.
  - destruct Hc' as [->|(c & Hin & ->)]; [cbn; lia|]. apply Hm. by rewrite Hp.
Qed.

(** The taint operations of a cycle's results. *)
Lemma result_ops session seq rs :
  literal_budget session (result_events session seq rs ≫= taint_ops) = length (rs ≫= literals).
Proof.
  revert seq. induction rs as [|c rs IH]; intros seq; [done|]. cbn [result_events].
  rewrite !bind_cons, length_app, <- (IH (seq + 1)%Z). cbn. by rewrite decide_True.
Qed.

Lemma record_grow t s q src content :
  lit_order t s + length (literals content) <= tt_cap t ->
  lit_order (record t s q src content) s <= lit_order t s + length (literals content) /\
  tt_cap (record t s q src content) = tt_cap t.
Proof.
  unfold record, lit_order. intros Hb. destruct (bool_decide _); [|cbn [negb]; split; [lia|done]].
  cbn [tt_sessions tt_cap negb]. rewrite lookup_insert_eq. split; [|done].
  cbn [st_lits default]. by apply fifo_fold_grow.
Qed.

(** Ingesting results fills the literal table by at most what they contain. *)
Lemma after_results_grow fw session seq rs :
  lit_order (af_taint fw) session + length (rs ≫= literals) <= tt_cap (af_taint fw) ->
  let fw' := inspect_all fw (result_events session seq rs) in
  lit_order (af_taint fw') session <= lit_order (af_taint fw) session + length (rs ≫= literals) /\
  tt_cap (af_taint fw') = tt_cap (af_taint fw).
Proof.
  revert fw seq. induction rs as [|c rs IH]; intros fw seq Hb; [split; simpl; [lia|done]|].
  rewrite bind_cons, length_app in *. cbn [result_events inspect_all fold_left].
  set (fw1 := (inspect fw (result_event session (seq + 1) c)).2).
  assert (af_taint fw1 = record (af_taint fw) session (seq + 1) (McpServer "api-tool") c) as E
    by by destruct (inspect_taint fw (result_event session (seq + 1) c)).
  destruct (record_grow (af_taint fw) session (seq + 1) (McpServer "api-tool") c) as [Hl Hc]; [lia|].
  rewrite <- E in Hl, Hc. destruct (IH fw1 (seq + 1)%Z) as [Hl' Hc']; [rewrite Hc; lia|].
  split; [etrans; [exact Hl'|lia]|by rewrite <- Hc].
Qed.

(** A literal of a result of the cycle taints the calls of the cycle. *)
Lemma cycle_tainted `{!LiteralIterLaws} fw session rs content lit t :
  content ∈ rs -> lit ∈ literals content ->
  lit_order (af_taint fw) session + length (rs ≫= literals) <= tt_cap (af_taint fw) ->
  Str.contains lit (to_lowercase t) = true ->
  exists m, check (af_taint (after_results fw session rs)) session t = Some m.
Proof.
  intros (rs1 & rs2 & ->)%list_elem_of_split Hlit Hb Hc. unfold after_results.
  rewrite bind_app, bind_cons, !length_app in Hb.
  assert (forall seq, exists q, result_events session seq (rs1 ++ content :: rs2) =
    result_events session seq rs1 ++ result_event session q content :: result_events session q rs2) as Hsplit.
  { induction rs1 as [|c rs1 IH]; intros seq; [by exists (seq + 1)%Z|]. simpl.
    assert (lit_order (af_taint fw) session + (length (rs1 ≫= literals) +
      (length (literals content) + length (rs2 ≫= literals))) <= tt_cap (af_taint fw)) as Hb'.
    { rewrite bind_cons, length_app in Hb. lia. }
    destruct (IH Hb' (seq + 1)%Z) as [q ->]. by exists q. }
  destruct (Hsplit 0%Z) as [q ->]. unfold inspect_all. rewrite fold_left_app.
  destruct (after_results_grow fw session 0 rs1) as [Hl Hcap]; [lia|].
  unfold inspect_all in Hl, Hcap.
  eapply (literal_stays_tainted _ (result_event session q content)); try done.
  - intros e (q' & c' & _ & ->)%result_events_elem _. done.
  - rewrite result_ops, Hcap. lia.
Qed.

(** A cycle that repeats, in a destructive or privilege-changing call, a literal of
    one of its results is denied. *)
Lemma cycle_call_denied `{!LiteralIterLaws} `{EntropyPlatform} (cap : nat) (before : list AgentEvent)
    (session : string) (rs : list string) (cs : list WireCall) (content lit t : string) (call : WireCall) :
  let fw := inspect_all (agent_firewall_new default_policy cap) before in
  content ∈ rs -> lit ∈ literals content ->
  lit_order (af_taint fw) session + length (rs ≫= literals) <= tt_cap (af_taint fw) ->
  call ∈ cs -> leaf t (wc_args call) -> t <> EmptyString -> Str.contains lit (to_lowercase t) = true ->
  (classify (wc_name call) (wc_args call) = Destructive \/
   classify (wc_name call) (wc_args call) = PrivilegeChanging) ->
  sv_verdict (inspect_cycle fw session rs cs).1 = Deny.
Proof.
  intros fw Hin Hlit Hb Hcall Hleaf Hne Hct Hclass.
  destruct (cycle_tainted fw session rs content lit t) as [m Hm]; [done..|].
  destruct (judge_worst fw session rs cs) as (Hmax & _). specialize (Hmax call Hcall).
  assert (ao_verdict (call_verdict (after_results fw session rs) session call) = Deny) as Hd.
  { unfold call_verdict. subst fw. unfold after_results, inspect_all in *.
    rewrite <- fold_left_app in *. by eapply tainted_call_denied. }
  rewrite Hd in Hmax.
  destruct (sv_verdict (inspect_cycle fw session rs cs).1); cbn in Hmax; lia || done.
Qed.

(** A response that repeats, in a destructive or privilege-changing call, a literal
    some tool result of the request contained is denied by the shipped policy,
    whatever the proxy inspected before and whatever else the response calls. *)
Theorem cycle_denied `{!LiteralIterLaws} `{EntropyPlatform} (cap : nat) (before : list AgentEvent)
    (session : string) (events : list SecurityEvent) (content lit t : string) (call : WireCall) :
  let fw := inspect_all (agent_firewall_new default_policy cap) before in
  let rs := input_tool_results events in
  content ∈ rs -> lit ∈ literals content ->
  lit_order (af_taint fw) session + length (rs ≫= literals) <= tt_cap (af_taint fw) ->
  call ∈ omap event_wire_call events ->
  leaf t (wc_args call) -> t <> EmptyString -> Str.contains lit (to_lowercase t) = true ->
  (classify (wc_name call) (wc_args call) = Destructive \/
   classify (wc_name call) (wc_args call) = PrivilegeChanging) ->
  sv_verdict (inspect_normalized_cycle fw session events).1 = Deny.
Proof. intros fw rs. intros. by eapply cycle_call_denied. Qed.

(** Nothing ends the session of a cycle: what its results recorded stays in the
    shared firewall, one session per request. *)
Theorem cycle_session_kept (fw : AgentFirewall) (session : string) (events : list SecurityEvent) :
  input_tool_results events <> [] ->
  is_Some (tt_sessions (af_taint (inspect_normalized_cycle fw session events).2) !! session) /\
  forall s, is_Some (tt_sessions (af_taint fw) !! s) ->
    is_Some (tt_sessions (af_taint (inspect_normalized_cycle fw session events).2) !! s).
Proof.
  intros Hne. unfold inspect_normalized_cycle. fold (input_tool_results events).
  set (rs := input_tool_results events) in *.
  rewrite (proj2 (proj2 (judge_worst fw session rs (omap event_wire_call events)))).
  unfold after_results. rewrite (proj1 (inspect_all_taint _ _)).
  assert (forall seq rs t, let t' := fold_left taint_step (result_events session seq rs ≫= taint_ops) t in
    (forall s, is_Some (tt_sessions t !! s) -> is_Some (tt_sessions t' !! s)) /\
    (rs <> [] -> is_Some (tt_sessions t' !! session))) as Hk; [|destruct (Hk 0%Z rs (af_taint fw)); auto].
  clear. intros seq rs. revert seq. induction rs as [|c rs IH]; intros seq t; [done|].
  cbn [result_events]. rewrite bind_cons, fold_left_app. cbn [taint_ops result_event ev_kind fold_left taint_step ev_session ev_seq].
  set (t1 := record _ _ _ _ _). destruct (IH (seq + 1)%Z t1) as [Hs _].
  assert (forall s, is_Some (tt_sessions t !! s) \/ s = session -> is_Some (tt_sessions t1 !! s)) as Ht1.
  { intros s. unfold t1, record. rewrite bool_decide_true by done. cbn [negb tt_sessions].
    destruct (decide (s = session)) as [->|Hn].
    - rewrite lookup_insert_eq. eauto.
    - rewrite lookup_insert_ne by done. naive_solver. }
  split; [intros s Hs'; apply Hs; auto|]. intros _. apply Hs; auto.
Qed.
End cycle_facts.

(** *** Reassembly of streamed calls *)

Abbreviation fragment := (Z * option string * string)%type.

(** What a Chat event adds, and whether it ends its calls. *)
Definition event_fragments (event : Value) : list fragment :=
  each (get_array "choices" event) (fun choice =>
    fragment_of <$> default [] (pointer2 "delta" "tool_calls" choice ≫= as_array)).
Definition event_finished (event : Value) : bool :=
  existsb choice_finished (default [] (get_array "choices" event)).

Fixpoint fragment_bytes (fs : list fragment) : Z :=
  match fs with [] => 0 | f :: fs => Z.of_nat (Str.len f.2) + fragment_bytes fs end.

Lemma fragment_bytes_app (fs gs : list fragment) :
  fragment_bytes (fs ++ gs) = (fragment_bytes fs + fragment_bytes gs)%Z.
Proof. induction fs as [|f fs IH]; [done|]. cbn [fragment_bytes app]. rewrite IH. lia. Qed.

Lemma fragment_bytes_nonneg (fs : list fragment) : (0 <= fragment_bytes fs)%Z.
Proof. induction fs as [|f fs IH]; cbn [fragment_bytes]; lia. Qed.

(** One fragment joins the call of its index. *)
Definition merge_fragment (f : fragment) (p : PartialToolCall) : PartialToolCall :=
  mkPartial (match f.1.2 with Some n => Some n | None => pt_name p end)
    (pt_args p +:+ f.2) (pt_initial_input p).
Definition add_to (m : BMap.t Z PartialToolCall) (f : fragment) : BMap.t Z PartialToolCall :=
  BMap.insert f.1.1 (merge_fragment f (default partial_default (BMap.get f.1.1 m))) m.

(** The state after fragments that fit in the budget. *)
Definition absorb (s : StreamingToolCalls) (fs : list fragment) : StreamingToolCalls :=
  mkStreaming (stc_protocol s) (fold_left add_to fs (stc_partial s)) (stc_budget s - fragment_bytes fs).

Lemma absorb_nil s : absorb s [] = s.
Proof. destruct s. unfold absorb. cbn. by rewrite Z.sub_0_r. Qed.

Lemma absorb_app s fs gs : absorb s (fs ++ gs) = absorb (absorb s fs) gs.
Proof. unfold absorb. cbn. rewrite fold_left_app, fragment_bytes_app. f_equal. lia. Qed.

Lemma add_fragment_ok s f :
  (Z.of_nat (Str.len f.2) <= stc_budget s)%Z -> add_fragment s f = Some (absorb s [f]).
Proof.
  destruct s as [pr m b], f as [[i n] a]. unfold absorb, add_fragment, charge. cbn. intros Hb.
  destruct a as [|c a]; cbn; [by rewrite Z.sub_0_r|].
  rewrite (proj2 (Z.leb_le _ _)) by done. cbn. by rewrite Z.add_0_r.
Qed.

Lemma openai_fragments_ok calls s :
  (fragment_bytes (fragment_of <$> calls) <= stc_budget s)%Z ->
  openai_fragments calls s = (true, absorb s (fragment_of <$> calls)).
Proof.
  revert s. induction calls as [|c calls IH]; intros s Hb; [by rewrite absorb_nil|].
  rewrite fmap_cons in *. cbn [fragment_bytes] in Hb.
  pose proof (fragment_bytes_nonneg (fragment_of <$> calls)).
  cbn [openai_fragments]. rewrite add_fragment_ok by lia.
  rewrite IH by (cbn [absorb stc_budget fragment_bytes]; lia). by rewrite <- absorb_app.
Qed.

Lemma openai_choices_ok choices completed s :
  let fs := choices ≫= fun choice =>
    fragment_of <$> default [] (pointer2 "delta" "tool_calls" choice ≫= as_array) in
  (fragment_bytes fs <= stc_budget s)%Z ->
  openai_choices choices completed s = (Some (completed || existsb choice_finished choices), absorb s fs).
Proof.
  revert completed s. induction choices as [|c choices IH]; intros completed s fs Hb; subst fs.
  { cbn. by rewrite absorb_nil, orb_false_r. }
  rewrite bind_cons, fragment_bytes_app in *. cbn [openai_choices].
  set (calls := default [] (pointer2 "delta" "tool_calls" c ≫= as_array)) in *.
  match type of Hb with (_ + fragment_bytes ?g <= _)%Z => pose proof (fragment_bytes_nonneg g) end.
  rewrite openai_fragments_ok by lia. rewrite IH by (cbn [absorb stc_budget fragment_bytes]; lia).
  rewrite <- absorb_app. cbn [existsb]. by rewrite orb_assoc.
Qed.

(** A Chat event within the budget is exactly its fragments. *)
Lemma push_openai_ok from_str s event :
  (fragment_bytes (event_fragments event) <= stc_budget s)%Z ->
  let s' := absorb s (event_fragments event) in
  push_openai from_str s event =
    if event_finished event then (Ok (omap (finish from_str) (stc_partial s').*2), set_partial [] s')
    else (Ok [], s').
Proof.
  unfold push_openai, event_fragments, event_finished, each. intros Hb.
  destruct (get_array "choices" event) as [choices|]; cbn [default existsb];
    [|by rewrite absorb_nil].
  rewrite openai_choices_ok by done. cbn [orb]. by destruct (existsb _ _).
Qed.

(** The fragments of one call, its name and its raw arguments. *)
Definition fragments_at (i : Z) (fs : list fragment) : list fragment :=
  List.filter (fun f => bool_decide (f.1.1 = i)) fs.
Definition name_at (i : Z) (fs : list fragment) : option string :=
  last (omap (fun f => f.1.2) (fragments_at i fs)).
Fixpoint concat_all (l : list string) : string :=
  match l with [] => EmptyString | s :: l => s +:+ concat_all l end.
Definition args_at (i : Z) (fs : list fragment) : string := concat_all (snd <$> fragments_at i fs).

Lemma concat_all_app l k : concat_all (l ++ k) = concat_all l +:+ concat_all k.
Proof. induction l as [|s l IH]; [done|]. cbn [concat_all app]. by rewrite IH, Str.app_assoc. Qed.

(** The open calls after fragments from scratch: one entry per index seen, with the
    latest name and all the argument text in order. *)
Lemma get_absorbed (i : Z) (fs : list fragment) :
  BMap.get i (fold_left add_to fs []) =
    if decide (fragments_at i fs = []) then None
    else Some (mkPartial (name_at i fs) (args_at i fs) None).
Proof.
  induction fs as [|f fs IH] using rev_ind; [done|].
  rewrite fold_left_app. cbn [fold_left]. unfold add_to at 1, fragments_at, name_at, args_at.
  rewrite BMap.bmap_get_insert. unfold fragments_at in *. rewrite List.filter_app. cbn [List.filter].
  match goal with |- (if ?d then _ else _) = _ => destruct d as [Hc|Hc] end.
  - apply cmp_eq in Hc as ->. rewrite IH, bool_decide_true by done.
    rewrite (decide_False (P := _ ++ [f] = [])) by (by destruct (List.filter _ fs)). f_equal.
    rewrite omap_app, fmap_app, concat_all_app. cbn [fmap list_fmap concat_all].
    rewrite Str.app_nil_r. unfold merge_fragment, name_at, args_at, fragments_at.
    destruct (decide (List.filter (fun f0 => bool_decide (f0.1.1 = f.1.1)) fs = [])) as [E|E];
      cbn [default pt_name pt_args pt_initial_input partial_default].
    + rewrite E. cbn. by destruct (f.1.2).
    + cbn [omap list_omap]. destruct (f.1.2) as [n|]; [by rewrite last_snoc|by rewrite app_nil_r].
  - rewrite bool_decide_false, app_nil_r, IH; [done|]. intros <-. apply Hc, cmp_refl.
Qed.

Lemma absorbed_wf (fs : list fragment) : BMap.wf (fold_left add_to fs []).
Proof.
  induction fs as [|f fs IH] using rev_ind; [constructor|].
  rewrite fold_left_app. by apply BMap.bmap_insert_wf.
Qed.

(** The open calls of complete Chat calls, numbered from [n]. *)
Fixpoint open_calls (n : Z) (cs : tool_requests) : BMap.t Z PartialToolCall :=
  match cs with
  | [] => []
  | c :: cs => (n, mkPartial (Some c.1.2) c.2 None) :: open_calls (n + 1) cs
  end.

Lemma open_calls_ge n cs kv : kv ∈ open_calls n cs -> (n <= kv.1)%Z.
Proof.
  revert n. induction cs as [|c cs IH]; intros n; cbn; [by intros ?%elem_of_nil|].
  intros [->|Hin]%elem_of_cons; [done|]. specialize (IH _ Hin). lia.
Qed.

Lemma open_calls_wf n cs : BMap.wf (open_calls n cs).
Proof.
  revert n. induction cs as [|c cs IH]; intros n; cbn; [constructor|].
  constructor; [apply IH|]. apply Forall_forall. intros kv Hkv%open_calls_ge. cbn.
  unfold cmp, Z_ord. apply Z.compare_lt_iff. lia.
Qed.

Lemma open_calls_get n cs i :
  BMap.get i (open_calls n cs) =
    if decide (n <= i)%Z then (fun c => mkPartial (Some c.1.2) c.2 None) <$> cs !! Z.to_nat (i - n)
    else None.
Proof.
  revert n. induction cs as [|c cs IH]; intros n; cbn [open_calls BMap.get];
    [by case_decide|].
  unfold cmp, Z_ord. destruct (Z.compare_spec i n) as [->|Hlt|Hgt].
  - rewrite decide_True by done. by rewrite Z.sub_diag.
  - by rewrite IH, !decide_False by lia.
  - rewrite IH, !decide_True by lia. replace (Z.to_nat (i - n)) with (S (Z.to_nat (i - (n + 1)))) by lia.
    done.
Qed.

Lemma open_calls_finish from_str n cs :
  Forall (fun c => c.2 <> EmptyString) cs ->
  omap (finish from_str) (open_calls n cs).*2
  = (fun c => mkWireCall c.1.2 (default (JString c.2) (from_str c.2))) <$> cs.
Proof.
  intros Hne. revert n. induction Hne as [|c cs Hc _ IH]; intros n; [done|].
  cbn [open_calls]. rewrite !fmap_cons. cbn [omap list_omap]. unfold finish at 1. cbn.
  destruct (Str.is_empty c.2) eqn:E; [by destruct c as [? []]|]. cbn. f_equal. apply IH.
Qed.

Lemma whole_calls from_str (cs : tool_requests) :
  openai_tool_calls from_str (chat_response_of cs)
  = (fun c => mkWireCall c.1.2 (default (JString c.2) (from_str c.2))) <$> cs.
Proof.
  trans (((chat_call_json <$> cs) ≫= fun c => option_list (openai_call from_str c)) ++ []); [done|].
  rewrite app_nil_r, bind_fmap_list. rewrite <- (list_fmap_id (_ ≫= _)). by apply bind_one.
Qed.

(** A run of the assembler. *)
Fixpoint push_all (from_str : string -> option Value) (s : StreamingToolCalls) (events : list Value) :
    list (result (list WireCall) string) * StreamingToolCalls :=
  match events with
  | [] => ([], s)
  | e :: events =>
      let '(r, s) := push from_str s e in
      let '(rs, s) := push_all from_str s events in (r :: rs, s)
  end.

Lemma push_all_open from_str s evs last :
  stc_protocol s = SPOpenAiChat ->
  Forall (fun e => event_finished e = false) evs -> event_finished last = true ->
  (fragment_bytes ((evs ++ [last]) ≫= event_fragments) <= stc_budget s)%Z ->
  let s' := absorb s ((evs ++ [last]) ≫= event_fragments) in
  push_all from_str s (evs ++ [last]) =
    (repeat (Ok []) (length evs) ++ [Ok (omap (finish from_str) (stc_partial s').*2)], set_partial [] s').
Proof.
  intros Hp Hopen Hlast. revert s Hp. induction Hopen as [|e evs He _ IH]; intros s Hp Hb.
  - cbn [app push_all]. unfold push. rewrite Hp. cbn [app] in Hb. rewrite bind_cons in *.
    cbn [mbind list_bind] in *. rewrite app_nil_r in *. by rewrite push_openai_ok, Hlast.
  - cbn [app push_all]. unfold push. rewrite Hp. cbn [app] in Hb. rewrite bind_cons, fragment_bytes_app in Hb.
    pose proof (fragment_bytes_nonneg ((evs ++ [last]) ≫= event_fragments)).
    rewrite push_openai_ok, He by lia. cbv zeta. rewrite IH; [|done|cbn [absorb stc_budget]; lia].
    rewrite bind_cons, absorb_app. done.
Qed.

(** C20. Chat calls with arguments are judged as a whole however they are streamed: if,
    over events of which only the last carries a finish reason, the fragments at every
    index spell out the name and the non-empty arguments of the call at that place of
    a list, no fragment has another index, and all of them are within the limit on
    buffered tool calls, then nothing is returned before the last event, and the last
    event returns exactly the calls of the buffered response with that list, in order.
    The calls may be interleaved and cut anywhere.  Without these conditions the two
    differ: see [empty_arguments_differ] and [choices_share_indices]. *)
Theorem streamed_as_whole from_str (cs : tool_requests) (evs : list Value) (last : Value) :
  let fs := (evs ++ [last]) ≫= event_fragments in
  Forall (fun e => event_finished e = false) evs -> event_finished last = true ->
  (forall f, f ∈ fs -> (0 <= f.1.1 < Z.of_nat (length cs))%Z) ->
  (forall k c, cs !! k = Some c ->
     c.2 <> EmptyString /\ name_at (Z.of_nat k) fs = Some c.1.2 /\ args_at (Z.of_nat k) fs = c.2) ->
  (fragment_bytes fs <= MAX_STREAM_TOOL_CALL_BYTES)%Z ->
  (push_all from_str (streaming_new SPOpenAiChat) (evs ++ [last])).1 =
    repeat (Ok []) (length evs) ++ [Ok (openai_tool_calls from_str (chat_response_of cs))].
Proof.
  intros fs Hopen Hlast Hidx Hcalls Hb. rewrite push_all_open by done. fold fs. cbn [fst].
  do 3 f_equal. rewrite whole_calls, <- (open_calls_finish from_str 0).
  2:{ apply Forall_forall. intros c (k & Hk)%list_elem_of_lookup. by apply (Hcalls k c). }
  do 2 f_equal. cbn [absorb stc_partial streaming_new with_limit].
  apply BMap.bmap_wf_ext; [apply absorbed_wf|apply open_calls_wf|].
  intros i. rewrite get_absorbed, open_calls_get, Z.sub_0_r.
  assert (fragments_at i fs <> [] -> (0 <= i < Z.of_nat (length cs))%Z) as Hrange.
  { intros Hne. destruct (fragments_at i fs) as [|f l] eqn:E; [done|].
    assert (f ∈ fragments_at i fs) as Hf by (rewrite E; left).
    apply list_elem_of_In, List.filter_In in Hf as [Hf <-%bool_decide_eq_true].
    by apply Hidx, list_elem_of_In. }
  destruct (decide (0 <= i)%Z) as [Hi|Hi]; [|rewrite decide_True; [done|]; apply dec_stable; naive_solver lia].
  destruct (cs !! Z.to_nat i) as [c|] eqn:Ec.
  - destruct (Hcalls _ _ Ec) as (Hne & Hn & Ha). rewrite Z2Nat.id in Hn, Ha by done.
    rewrite Hn, Ha, decide_False; [done|]. intros E. unfold args_at in Ha. by rewrite E in Ha.
  - apply lookup_ge_None in Ec. rewrite decide_True; [done|]. apply dec_stable. intros Hne.
    specialize (Hrange Hne). lia.
Qed.

(** *** Anthropic blocks *)

(** The argument text an event adds to block [i]. *)
Definition delta_for (i : Z) (event : Value) : string :=
  if bool_decide (get_str "type" event = Some "content_block_delta")
     && bool_decide (default 0%Z (value_get "index" event ≫= as_u64) = i)
     && bool_decide ((pointer2 "delta" "type" event ≫= as_str) = Some "input_json_delta")
  then default EmptyString (pointer2 "delta" "partial_json" event ≫= as_str) else EmptyString.

(** Events that neither open nor close block [i]. *)
Definition leaves_open (i : Z) (event : Value) : Prop :=
  get_str "type" event <> Some "message_stop" /\
  (default 0%Z (value_get "index" event ≫= as_u64) = i ->
   get_str "type" event <> Some "content_block_start" /\ get_str "type" event <> Some "content_block_stop").

Lemma block_delta_get i event s s' p :
  block_delta (default 0%Z (value_get "index" event ≫= as_u64)) event s = Some s' ->
  get_str "type" event = Some "content_block_delta" ->
  BMap.get i (stc_partial s) = Some p ->
  stc_protocol s' = stc_protocol s /\
  BMap.get i (stc_partial s') = Some (mkPartial (pt_name p) (pt_args p +:+ delta_for i event) (pt_initial_input p)).
Proof.
  unfold block_delta, delta_for. intros Hd Ht Hp. rewrite Ht, (bool_decide_true (Some _ = _)) by done.
  cbn [andb]. destruct p as [n a inp]. set (j := default 0%Z _) in *. cbn [pt_name pt_args pt_initial_input].
  destruct (bool_decide ((pointer2 "delta" "type" event ≫= as_str) = _)); cbn [negb andb] in *.
  2:{ injection Hd as <-. by rewrite andb_false_r, Str.app_nil_r. }
  rewrite andb_true_r. destruct (pointer2 "delta" "partial_json" event ≫= as_str) as [fr|].
  2:{ injection Hd as <-. cbn [default]. by case_bool_decide; rewrite Str.app_nil_r. }
  case_bool_decide as Hj; [subst j; rewrite Hj in Hd|].
  - rewrite Hp in Hd. apply bind_Some in Hd as (s1 & Hs1 & [= <-]). unfold charge in Hs1.
    destruct (_ <=? _)%Z; [|done]. injection Hs1 as <-. split; [done|]. cbn [stc_partial set_partial].
    by rewrite BMap.bmap_get_insert_eq.
  - rewrite Str.app_nil_r. destruct (BMap.get j (stc_partial s)) as [e|].
    2:{ by injection Hd as <-. }
    apply bind_Some in Hd as (s1 & Hs1 & [= <-]). unfold charge in Hs1.
    destruct (_ <=? _)%Z; [|done]. injection Hs1 as <-. split; [done|]. cbn [stc_partial set_partial set_budget].
    by rewrite BMap.bmap_get_insert_ne.
Qed.

Definition delta_bytes (event : Value) : Z :=
  Z.of_nat (Str.len (default EmptyString (pointer2 "delta" "partial_json" event ≫= as_str))).
Fixpoint all_delta_bytes (evs : list Value) : Z :=
  match evs with [] => 0 | e :: evs => delta_bytes e + all_delta_bytes evs end.

Lemma block_delta_ok i event s :
  (delta_bytes event <= stc_budget s)%Z ->
  exists s', block_delta i event s = Some s' /\ (stc_budget s - delta_bytes event <= stc_budget s')%Z.
Proof.
  unfold block_delta, delta_bytes. intros Hb. destruct (negb _); [exists s; split; [done|lia]|].
  destruct (pointer2 "delta" "partial_json" event ≫= as_str) as [fr|]; [|exists s; split; [done|cbn; lia]].
  cbn [default] in *. destruct (BMap.get i (stc_partial s)); [|exists s; split; [done|lia]].
  unfold charge. rewrite (proj2 (Z.leb_le _ _)) by done. eexists. split; [done|].
  apply Z.le_refl.
Qed.

Lemma block_start_other i j event s :
  i <> j -> BMap.get j (stc_partial (block_start i event s)) = BMap.get j (stc_partial s) /\
  stc_protocol (block_start i event s) = stc_protocol s /\ stc_budget (block_start i event s) = stc_budget s.
Proof.
  intros Hij. unfold block_start. repeat case_match; try done. cbn. by rewrite BMap.bmap_get_insert_ne.
Qed.

(** An event that leaves block [i] open adds exactly its own fragment to it. *)
Lemma anthropic_step from_str i event s p :
  stc_protocol s = SPAnthropicMessages -> leaves_open i event ->
  (delta_bytes event <= stc_budget s)%Z -> BMap.get i (stc_partial s) = Some p ->
  exists r s', push from_str s event = (Ok r, s') /\ stc_protocol s' = SPAnthropicMessages /\
    (stc_budget s - delta_bytes event <= stc_budget s')%Z /\
    BMap.get i (stc_partial s') =
      Some (mkPartial (pt_name p) (pt_args p +:+ delta_for i event) (pt_initial_input p)).
Proof.
  intros Hpr [Hstop Hother] Hb Hp. unfold push. rewrite Hpr. unfold push_anthropic.
  set (j := default 0%Z (value_get "index" event ≫= as_u64)) in *.
  assert (get_str "type" event <> Some "content_block_delta" -> delta_for i event = EmptyString) as Hnd.
  { intros Hn. unfold delta_for. by rewrite (bool_decide_false (get_str _ _ = _)). }
  assert (0 <= delta_bytes event)%Z by (unfold delta_bytes; lia).
  destruct p as [n a inp]. cbn [pt_name pt_args pt_initial_input] in *.
  destruct (get_str "type" event) as [kind|] eqn:Ht.
  2:{ rewrite Hnd, Str.app_nil_r by done. eexists _, s. split_and!; try done. lia. }
  destruct (decide (kind = "content_block_delta")) as [->|Hk].
  { destruct (block_delta_ok j event s Hb) as (s' & Hd & Hbud). cbn. rewrite Hd.
    destruct (block_delta_get i event s s' (mkPartial n a inp)) as [Hpr' Hg]; [done..|].
    eexists _, s'. by rewrite Hpr'. }
  rewrite Hnd, Str.app_nil_r, (bool_decide_false (kind = "content_block_delta")) by congruence.
  case_bool_decide; [subst kind|].
  { destruct (block_start_other j i event s) as (Hg & Hq & Hbud); [naive_solver|].
    eexists _, _. split; [done|]. rewrite Hg, Hq, Hbud. split_and!; try done. lia. }
  case_bool_decide; [subst kind|].
  { eexists _, _. split; [done|]. cbn. rewrite BMap.bmap_get_remove_ne by naive_solver.
    split_and!; try done. lia. }
  rewrite bool_decide_false by congruence. eexists _, s. split_and!; try done. lia.
Qed.

Lemma anthropic_steps from_str i evs s p :
  stc_protocol s = SPAnthropicMessages -> Forall (leaves_open i) evs ->
  (all_delta_bytes evs <= stc_budget s)%Z -> BMap.get i (stc_partial s) = Some p ->
  let out := push_all from_str s evs in
  Forall (fun r => is_ok r = true) out.1 /\ stc_protocol out.2 = SPAnthropicMessages /\
  BMap.get i (stc_partial out.2) =
    Some (mkPartial (pt_name p) (pt_args p +:+ concat_all (delta_for i <$> evs)) (pt_initial_input p)).
Proof.
  intros Hpr Hopen. revert s p Hpr. induction Hopen as [|e evs He _ IH]; intros s p Hpr Hb Hp.
  { cbn. rewrite Str.app_nil_r. destruct p. split_and!; [constructor|done|done]. }
  cbn [all_delta_bytes] in Hb.
  assert (forall evs, 0 <= all_delta_bytes evs)%Z as Hnn.
  { clear. induction evs; cbn [all_delta_bytes]; unfold delta_bytes in *; lia. }
  specialize (Hnn evs).
  destruct (anthropic_step from_str i e s p) as (r & s' & E & Hpr' & Hb' & Hp'); try done; [lia|].
  cbn [push_all]. rewrite E.
  destruct (IH s' (mkPartial (pt_name p) (pt_args p +:+ delta_for i e) (pt_initial_input p)) Hpr')
    as (H1 & H2 & H3); [lia|done|].
  destruct (push_all from_str s' evs) as [rs s2]. cbn [fst snd pt_name pt_args pt_initial_input] in *.
  split_and!; [by constructor|done|]. rewrite H3, fmap_cons. cbn [concat_all].
  by rewrite Str.app_assoc.
Qed.

(** An Anthropic block is judged as a whole however its input is streamed: once it is
    opened, whatever other blocks do in between, the event that closes it returns
    exactly the call of the equivalent buffered response. *)
Theorem streamed_block_as_whole from_str (s : StreamingToolCalls) (i : Z) (name raw : string)
    (input : Value) (evs : list Value) :
  let start := JObject [("content_block", JObject [("input", input); ("name", JString name);
      ("type", JString "tool_use")]); ("index", JNumber (PosInt i)); ("type", JString "content_block_start")] in
  let stop := JObject [("index", JNumber (PosInt i)); ("type", JString "content_block_stop")] in
  stc_protocol s = SPAnthropicMessages ->
  Forall (leaves_open i) evs -> (all_delta_bytes evs <= stc_budget s)%Z ->
  concat_all (delta_for i <$> evs) = raw -> raw <> EmptyString ->
  let opened := (push from_str s start).2 in
  let run := push_all from_str opened evs in
  Forall (fun r => is_ok r = true) run.1 /\
  (push from_str run.2 stop).1 =
    Ok (anthropic_tool_calls (anthropic_response_of from_str [("id", name, raw)])).
Proof.
  intros start stop Hpr Hopen Hb Hraw Hne opened run.
  assert (opened = set_partial (BMap.insert i (mkPartial (Some name) EmptyString (Some input))
    (stc_partial s)) s) as Ho by (unfold opened, push; by rewrite Hpr).
  destruct (anthropic_steps from_str i evs opened (mkPartial (Some name) EmptyString (Some input)))
    as (Hok & Hpr' & Hg); [by rewrite Ho|done|by rewrite Ho|
    rewrite Ho; cbn; by rewrite BMap.bmap_get_insert_eq|].
  fold run in Hok, Hpr', Hg. split; [done|]. rewrite Hraw in Hg.
  unfold push. rewrite Hpr'. unfold push_anthropic.
  change (default 0%Z (value_get "index" stop ≫= as_u64)) with i. rewrite Hg.
  cbn [mbind option_bind pt_name pt_args pt_initial_input].
  destruct raw as [|c raw]; [done|]. done.
Qed.

(** *** Limits of the reassembly *)

(** A Chat frame of one choice. *)
Definition chat_fragment (index : Z) (name : option string) (args : string) : Value :=
  JObject [("function", JObject (("arguments", JString args) ::
             option_list ((fun n => ("name", JString n)) <$> name)));
           ("index", JNumber (PosInt index))].
Definition chat_delta (fragments : list Value) (finish_reason : Value) : Value :=
  JObject [("delta", JObject [("tool_calls", JArray fragments)]); ("finish_reason", finish_reason)].
Definition chat_frame (choices : list Value) : Value := JObject [("choices", JArray choices)].

(** A parser for the examples: it accepts no text. *)
Definition no_json : string -> option Value := fun _ => None.

(** Fragments are keyed by the call index alone, and every choice numbers its calls
    from zero: with two choices, a call of the first is judged under the name of the
    second and with both argument texts run together. *)
Theorem choices_share_indices :
  let bash := chat_fragment 0 (Some "Bash") "rm -rf ~" in
  let read := chat_fragment 0 (Some "Read") " a" in
  (push no_json (streaming_new SPOpenAiChat)
     (chat_frame [chat_delta [bash] (JString "tool_calls"); chat_delta [read] (JString "tool_calls")])).1
  = Ok [mkWireCall "Read" (JString "rm -rf ~ a")].
Proof. by vm_compute. Qed.

(** A failed charge leaves the budget and the open call as they were: a caller that
    goes on after the error has the call judged with the fragment cut out. *)
Theorem oversized_fragment_cut :
  let s := with_limit SPOpenAiChat 10 in
  let frame i n a r := chat_frame [chat_delta [chat_fragment i n a] r] in
  push_all no_json s [frame 0%Z (Some "Bash") "echo " JNull;
                      frame 0%Z None "rm -rf / ;" JNull;
                      frame 0%Z None "hi" (JString "tool_calls")]
  = ([Ok []; Err TOOL_CALL_TOO_LARGE; Ok [mkWireCall "Bash" (JString "echo hi")]],
     mkStreaming SPOpenAiChat [] 3).
Proof. by vm_compute. Qed.

(** A call without arguments is judged as [null] when streamed and as the empty
    string when buffered. *)
Theorem empty_arguments_differ :
  let frame := chat_frame [chat_delta [chat_fragment 0 (Some "list") EmptyString] (JString "tool_calls")] in
  (push no_json (streaming_new SPOpenAiChat) frame).1 = Ok [mkWireCall "list" JNull] /\
  openai_tool_calls no_json (chat_response_of [("id", "list", EmptyString)])
    = [mkWireCall "list" (JString EmptyString)].
Proof. by vm_compute. Qed.

(** ** Witnesses *)

Lemma streamed_as_whole_witness :
  let frame fs r := chat_frame [chat_delta fs r] in
  let evs := [frame [chat_fragment 0 (Some "Bash") "rm "; chat_fragment 1 (Some "Read") "/e"] JNull;
              frame [chat_fragment 1 None "tc"; chat_fragment 0 None "-rf"] JNull] in
  (push_all no_json (streaming_new SPOpenAiChat) (evs ++ [frame [] (JString "tool_calls")])).1 =
    repeat (Ok []) 2 ++
    [Ok (openai_tool_calls no_json (chat_response_of [("a", "Bash", "rm -rf"); ("b", "Read", "/etc")]))].
Proof.
  intros frame evs.
  apply (streamed_as_whole no_json [("a", "Bash", "rm -rf"); ("b", "Read", "/etc")] evs
    (frame [] (JString "tool_calls"))).
  - repeat constructor.
  - reflexivity.
  - intros f Hf. vm_compute in Hf. repeat (apply elem_of_cons in Hf as [->|Hf]; [by vm_compute|]).
    by apply elem_of_nil in Hf.
  - intros [|[|k]] c Hc; simplify_eq/=; split_and!; try discriminate; reflexivity.
  - vm_compute. discriminate.
Defined.

Lemma streamed_block_as_whole_witness :
  let delta i t := JObject [("delta", JObject [("partial_json", JString t); ("type", JString "input_json_delta")]);
      ("index", JNumber (PosInt i)); ("type", JString "content_block_delta")] in
  let evs := [delta 1%Z "rm "; delta 2%Z "x"; delta 1%Z "-rf"] in
  concat_all (delta_for 1 <$> evs) = "rm -rf" /\
  (push no_json (push_all no_json (push no_json (streaming_new SPAnthropicMessages)
      (JObject [("content_block", JObject [("input", JObject []); ("name", JString "Bash");
         ("type", JString "tool_use")]); ("index", JNumber (PosInt 1));
         ("type", JString "content_block_start")])).2 evs).2
     (JObject [("index", JNumber (PosInt 1)); ("type", JString "content_block_stop")])).1
  = Ok (anthropic_tool_calls (anthropic_response_of no_json [("id", "Bash", "rm -rf")])).
Proof.
  intros delta evs. split; [reflexivity|].
  apply (streamed_block_as_whole no_json (streaming_new SPAnthropicMessages) 1 "Bash" "rm -rf"
    (JObject []) evs).
  - reflexivity.
  - repeat constructor; discriminate.
  - vm_compute. discriminate.
  - reflexivity.
  - discriminate.
Defined.

Definition demo_cycle : list SecurityEvent :=
  [tool_result OpenAiChat (Some "c1") "http://a.example/x";
   tool_call OpenAiChat DOutput (Some "c2") "Read" (JString "notes");
   tool_call OpenAiChat DOutput (Some "c3") "Bash" (JArray [JString "rm -rf ~ # http://A.example/x"])].

Lemma cycle_denied_witness :
  sv_verdict (@inspect_normalized_cycle ascii_tables demo_engine demo_iter
    (@inspect_all ascii_tables demo_engine demo_iter
      (@agent_firewall_new demo_engine demo_entropy default_policy 10) []) "r1" demo_cycle).1 = Deny.
Proof.
  apply (@cycle_denied ascii_tables demo_engine demo_iter demo_iter_laws demo_entropy 10 [] "r1" demo_cycle
    "http://a.example/x" "http://a.example/x" "rm -rf ~ # http://A.example/x"
    (mkWireCall "Bash" (JArray [JString "rm -rf ~ # http://A.example/x"]))).
  - left.
  - vm_compute. left.
  - vm_compute. lia.
  - right. left.
  - apply (leaf_array _ (JString "rm -rf ~ # http://A.example/x")); [left|constructor].
  - discriminate.
  - reflexivity.
  - left. reflexivity.
Defined.
