(* ===== verification/Sse.v ===== *)
(** Decoding of server-sent events and the text of a Responses body
    ([crates/proxy/src/responses.rs]).  Wire bytes are byte strings. *)
From S2P Require Import Prelude BTree F32 Json Egress ProxyEvents.
From Stdlib Require Import String Ascii.
#[local] Abbreviation length := List.length.

(** ** The standard library on bytes *)

(** [String::from_utf8_lossy]: every maximal ill-formed part becomes U+FFFD. *)
Module Utf8.
Import Str.

Definition replacement : string := String "239" (String "191" (String "189" EmptyString)).

Definition cont (a : ascii) : bool := byte_in a 128 191.
(** Second bytes allowed after a three-byte and a four-byte lead. *)
Definition second3 (a b : ascii) : bool :=
  (byte_is a 224 && byte_in b 160 191) || (byte_in a 225 236 && byte_in b 128 191)
  || (byte_is a 237 && byte_in b 128 159) || (byte_in a 238 239 && byte_in b 128 191).
Definition second4 (a b : ascii) : bool :=
  (byte_is a 240 && byte_in b 144 191) || (byte_in a 241 243 && byte_in b 128 191)
  || (byte_is a 244 && byte_in b 128 143).

Fixpoint lossy (s : string) : string :=
  match s with
  | EmptyString => EmptyString
  | String a s1 =>
      if is_ascii_char a then String a (lossy s1)
      else if byte_in a 194 223 then
        match s1 with
        | String b s2 => if cont b then String a (String b (lossy s2)) else replacement +:+ lossy s1
        | EmptyString => replacement
        end
      else if byte_in a 224 239 then
        match s1 with
        | String b s2 =>
            if second3 a b then
              match s2 with
              | String c s3 =>
                  if cont c then String a (String b (String c (lossy s3))) else replacement +:+ lossy s2
              | EmptyString => replacement
              end
            else replacement +:+ lossy s1
        | EmptyString => replacement
        end
      else if byte_in a 240 244 then
        match s1 with
        | String b s2 =>
            if second4 a b then
              match s2 with
              | String c s3 =>
                  if cont c then
                    match s3 with
                    | String d s4 =>
                        if cont d then String a (String b (String c (String d (lossy s4))))
                        else replacement +:+ lossy s3
                    | EmptyString => replacement
                    end
                  else replacement +:+ lossy s2
              | EmptyString => replacement
              end
            else replacement +:+ lossy s1
        | EmptyString => replacement
        end
      else replacement +:+ lossy s1
  end.

Lemma lossy_ascii (s : string) : is_ascii s = true -> lossy s = s.
Proof.
  unfold is_ascii. induction s as [|a s IH]; cbn [forallb lossy]; [done|].
  intros [Ha Hs]%andb_true_iff. by rewrite Ha, IH.
Qed.
End Utf8.

Definition LF : ascii := "010"%char.
Definition CR : ascii := "013"%char.

Definition strip_cr (s : string) : string := default s (strip_suffix_char CR s).

(** [str::lines]: a line ends at [\n] or [\r\n]; a last line without [\n] is kept as
    it is. *)
Fixpoint line_list (pieces : list string) : list string :=
  match pieces with
  | [] => []
  | [p] => if Str.is_empty p then [] else [p]
  | p :: rest => strip_cr p :: line_list rest
  end.
Definition lines (s : string) : list string := line_list (Str.split_char LF s).

(** [bytes.windows(n).position(|w| w == pat)]. *)
Fixpoint position (pat s : string) : option nat :=
  if Str.starts_with pat s then Some 0
  else match s with EmptyString => None | String _ s' => S <$> position pat s' end.

(** ** The decoder *)

Definition MAX_SSE_EVENT_BYTES : Z := 1024 * 1024.

Inductive SseDecodeError := TooLarge | NotJson.

Definition sse_reason (e : SseDecodeError) : string :=
  match e with
  | TooLarge => "SSE event exceeded the 1 MiB inspection limit"
  | NotJson => "SSE data was not valid JSON"
  end.

Record SseJsonDecoder := mkDecoder { sd_pending : string; sd_saw_done : bool }.

Definition decoder_default : SseJsonDecoder := mkDecoder EmptyString false.

Definition lf_lf : string := String LF (String LF EmptyString).
Definition crlf_crlf : string := String CR (String LF (String CR (String LF EmptyString))).

Definition find_frame_end (bytes : string) : option (nat * nat) :=
  match position lf_lf bytes, position crlf_crlf bytes with
  | Some a, Some b => Some (if a <=? b then (a, 2) else (b, 4))
  | Some a, None => Some (a, 2)
  | None, Some b => Some (b, 4)
  | None, None => None
  end.

(** The value of a [data:] line. *)
Definition data_value (line : string) : option string := Str.strip_prefix "data:" (strip_cr line).

Definition frame_is_done (frame : string) : bool :=
  existsb (fun line => match data_value line with
    | Some value => bool_decide (Str.trim value = "[DONE]")
    | None => false end) (lines (Utf8.lossy frame)).

Section decoder.
(** [serde_json::from_str::<Value>]. *)
Variable from_str : string -> option Value.

Definition frame_data (frame : string) : string :=
  Str.join (String LF EmptyString)
    ((fun value => default value (Str.strip_prefix " " value)) <$> omap data_value (lines (Utf8.lossy frame))).

Definition decode_frame (frame : string) : result (option Value) SseDecodeError :=
  let data := frame_data frame in
  if Str.is_empty data || bool_decide (data = "[DONE]") then Ok None
  else match from_str data with Some v => Ok (Some v) | None => Err NotJson end.

(** The loop over complete frames: the error it stopped at, the events so far and
    the decoder. *)
Fixpoint drain (fuel : nat) (d : SseJsonDecoder) (events : list Value) :
    option SseDecodeError * list Value * SseJsonDecoder :=
  match fuel with
  | 0 => (None, events, d)
  | S fuel =>
      match find_frame_end (sd_pending d) with
      | None => (None, events, d)
      | Some (end_, separator_len) =>
          let rest := Str.drop (end_ + separator_len) (sd_pending d) in
          if (MAX_SSE_EVENT_BYTES <? Z.of_nat end_)%Z then (Some TooLarge, events, mkDecoder rest (sd_saw_done d))
          else
            let frame := Str.take end_ (sd_pending d) in
            if frame_is_done frame then drain fuel (mkDecoder rest true) events
            else
              let d := mkDecoder rest (sd_saw_done d) in
              match decode_frame frame with
              | Err e => (Some e, events, d)
              | Ok (Some value) => drain fuel d (events ++ [value])
              | Ok None => drain fuel d events
              end
      end
  end.

(** Every frame takes at least its separator, so the length bounds the loop. *)
Definition sse_push (d : SseJsonDecoder) (chunk : string) :
    result (list Value) SseDecodeError * SseJsonDecoder :=
  let pending := sd_pending d +:+ chunk in
  match drain (Str.len pending) (mkDecoder pending (sd_saw_done d)) [] with
  | (Some e, _, d) => (Err e, d)
  | (None, events, d) =>
      if (MAX_SSE_EVENT_BYTES <? Z.of_nat (Str.len (sd_pending d)))%Z
      then (Err TooLarge, mkDecoder EmptyString (sd_saw_done d))
      else (Ok events, d)
  end.
End decoder.

(** ** Responses bodies *)

Definition response_output_text (response : Value) : string :=
  match get_array "output" response with
  | None => default EmptyString (get_str "output_text" response)
  | Some items =>
      Str.join (String LF EmptyString)
        (items ≫= fun item =>
           if negb (bool_decide (get_str "type" item = Some "message")) then []
           else each (get_array "content" item) (fun part =>
             if bool_decide (get_str "type" part = Some "output_text")
             then option_list (get_str "text" part) else []))
  end.

(** ** Properties *)

(** *** Frame boundaries *)

Lemma take_app_le n s t : n <= Str.len s -> Str.take n (s +:+ t) = Str.take n s.
Proof.
  revert n. induction s as [|a s IH]; intros [|n] Hn; [by destruct t| |done|]; [cbn in Hn; lia|].
  rewrite Str.app_cons, Str.len_cons in *. cbn [Str.take]. f_equal. by rewrite IH by lia.
Qed.

Lemma drop_app_le n s t : n <= Str.len s -> Str.drop n (s +:+ t) = Str.drop n s +:+ t.
Proof.
  revert n. induction s as [|a s IH]; intros [|n] Hn; [by destruct t| |done|]; [cbn in Hn; lia|].
  rewrite Str.app_cons, Str.len_cons in *. cbn [Str.drop]. by rewrite IH by lia.
Qed.

Lemma starts_with_long p s t :
  Str.len p <= Str.len s -> Str.starts_with p (s +:+ t) = Str.starts_with p s.
Proof.
  revert s. induction p as [|a p IH]; intros [|b s] Hl; [by destruct t|done|cbn in Hl; lia|].
  rewrite Str.app_cons, !Str.len_cons in *. unfold Str.starts_with in *. cbn [String.prefix].
  destruct (ascii_dec a b); [|done]. apply IH. lia.
Qed.

Lemma starts_with_len p s : Str.starts_with p s = true -> Str.len p <= Str.len s.
Proof. intros (r & ->)%Str.starts_with_spec. rewrite Str.len_app. lia. Qed.

Lemma position_len p s i : position p s = Some i -> i + Str.len p <= Str.len s.
Proof.
  revert i. induction s as [|a s IH]; intros i; cbn [position];
    destruct (Str.starts_with p _) eqn:E; try done; try (intros [= <-]; by apply starts_with_len).
  intros (j & Hj & ->)%fmap_Some. specialize (IH j Hj). rewrite Str.len_cons. lia.
Qed.

(** A boundary already seen does not move when bytes arrive. *)
Lemma position_app p s t i : position p s = Some i -> position p (s +:+ t) = Some i.
Proof.
  revert i. induction s as [|a s IH]; intros i Hi; pose proof (position_len _ _ _ Hi) as Hl.
  - cbn [position] in Hi. destruct (Str.starts_with p EmptyString) eqn:E; [|done].
    destruct p; [|done]. injection Hi as <-. by destruct t.
  - rewrite Str.app_cons. cbn [position] in *. rewrite <- Str.app_cons, starts_with_long by lia.
    destruct (Str.starts_with p (String a s)); [done|].
    apply fmap_Some in Hi as (j & Hj & ->). by rewrite (IH j Hj).
Qed.

Lemma position_late p s t j :
  p <> EmptyString -> position p s = None -> position p (s +:+ t) = Some j -> Str.len s < j + Str.len p.
Proof.
  intros Hp. revert j. induction s as [|a s IH]; intros j Hs Hj.
  { destruct p; [done|]. cbn. lia. }
  rewrite Str.app_cons in Hj. cbn [position] in *. rewrite Str.len_cons.
  destruct (Str.starts_with p (String a s)) eqn:E; [done|].
  destruct (position p s) as [k|] eqn:Ek; [done|].
  destruct (Str.starts_with p (String a (s +:+ t))) eqn:E'.
  - injection Hj as <-. destruct (le_lt_dec (Str.len p) (Str.len (String a s))) as [Hle|Hlt].
    + rewrite <- Str.app_cons, starts_with_long in E' by done. congruence.
    + rewrite Str.len_cons in Hlt. lia.
  - apply fmap_Some in Hj as (j' & Hj' & ->). specialize (IH j' eq_refl Hj'). lia.
Qed.

Lemma get_app_l p r k c : Str.get k p = Some c -> Str.get k (p +:+ r) = Some c.
Proof. revert k. induction p as [|b p IH]; intros [|k] Hk; cbn in *; try done. by apply IH. Qed.

Lemma position_get p s i k c :
  position p s = Some i -> Str.get k p = Some c -> Str.get (i + k) s = Some c.
Proof.
  intros Hi Hk. revert i Hi. induction s as [|a s IH]; intros i; cbn [position];
    destruct (Str.starts_with p _) eqn:E; try done;
    try (intros [= <-]; apply Str.starts_with_spec in E as (r & ->); by apply get_app_l).
  intros (j & Hj & ->)%fmap_Some. cbn. by apply IH.
Qed.

Lemma find_frame_end_len p e n : find_frame_end p = Some (e, n) -> e + n <= Str.len p /\ 2 <= n.
Proof.
  unfold find_frame_end.
  destruct (position lf_lf p) as [a|] eqn:Ea, (position crlf_crlf p) as [b|] eqn:Eb; try done;
    try apply position_len in Ea; try apply position_len in Eb; cbn in *;
    try case_match; intros [= <- <-]; lia.
Qed.

Lemma find_frame_end_app p t x : find_frame_end p = Some x -> find_frame_end (p +:+ t) = Some x.
Proof.
  unfold find_frame_end.
  destruct (position lf_lf p) as [a|] eqn:Ea, (position crlf_crlf p) as [b|] eqn:Eb; [..|done].
  - by rewrite (position_app _ _ _ _ Ea), (position_app _ _ _ _ Eb).
  - rewrite (position_app _ _ _ _ Ea). intros [= <-].
    destruct (position crlf_crlf (p +:+ t)) as [j|] eqn:Ej; [|done].
    assert (Hj := position_late crlf_crlf _ _ _ ltac:(done) Eb Ej). pose proof (position_len _ _ _ Ea) as Ha.
    cbn in Hj, Ha. destruct (Nat.leb_spec a j) as [|Hlt]; [done|].
    assert (j + 2 = a + 1) as Heq by lia.
    pose proof (position_get _ _ _ 1 LF (position_app _ _ t _ Ea) eq_refl) as G1.
    pose proof (position_get _ _ _ 2 CR Ej eq_refl) as G2. rewrite Heq, G1 in G2. discriminate.
  - rewrite (position_app _ _ _ _ Eb). intros [= <-].
    destruct (position lf_lf (p +:+ t)) as [i|] eqn:Ei; [|done].
    assert (Hi := position_late lf_lf _ _ _ ltac:(done) Ea Ei). apply position_len in Eb. cbn in Hi, Eb.
    destruct (Nat.leb_spec i b); [lia|done].
Qed.

(** *** Frames *)

Section frames.
Variable from_str : string -> option Value.

(** One turn of the loop: no complete frame, or what the first one decodes to. *)
Definition frame_step (d : SseJsonDecoder) : option (result (list Value) SseDecodeError * SseJsonDecoder) :=
  '(end_, n) ← find_frame_end (sd_pending d);
  let rest := Str.drop (end_ + n) (sd_pending d) in
  Some (if (MAX_SSE_EVENT_BYTES <? Z.of_nat end_)%Z then (Err TooLarge, mkDecoder rest (sd_saw_done d))
        else let frame := Str.take end_ (sd_pending d) in
             if frame_is_done frame then (Ok [], mkDecoder rest true)
             else (match decode_frame from_str frame with
                   | Err e => Err e
                   | Ok o => Ok (option_list o) end, mkDecoder rest (sd_saw_done d))).

Lemma drain_S fuel d events :
  drain from_str (S fuel) d events =
    match frame_step d with
    | None => (None, events, d)
    | Some (Err e, d') => (Some e, events, d')
    | Some (Ok vs, d') => drain from_str fuel d' (events ++ vs)
    end.
Proof.
  unfold frame_step. cbn [drain]. destruct (find_frame_end (sd_pending d)) as [[e n]|]; [|done].
  cbn. destruct (_ <? _)%Z; [done|]. destruct (frame_is_done _); [by rewrite app_nil_r|].
  destruct (decode_frame _ _) as [[v|]|]; [done|by rewrite app_nil_r|done].
Qed.

(** The decoder with more bytes. *)
Definition feed (d : SseJsonDecoder) (bytes : string) : SseJsonDecoder :=
  mkDecoder (sd_pending d +:+ bytes) (sd_saw_done d).

Lemma frame_step_len d r d' :
  frame_step d = Some (r, d') -> Str.len (sd_pending d') < Str.len (sd_pending d).
Proof.
  unfold frame_step. intros ([e n] & Hf & Heq)%bind_Some.
  apply find_frame_end_len in Hf as [Hl Hn].
  assert (sd_pending d' = Str.drop (e + n) (sd_pending d)) as ->.
  { destruct (_ <? _)%Z; [by simplify_eq|]. by destruct (frame_is_done _); simplify_eq. }
  rewrite Str.len_drop. lia.
Qed.

(** A complete frame is decoded the same way whatever follows it. *)
Lemma frame_step_feed d r d' bytes :
  frame_step d = Some (r, d') -> frame_step (feed d bytes) = Some (r, feed d' bytes).
Proof.
  unfold frame_step. intros ([e n] & Hf & Heq)%bind_Some.
  apply find_frame_end_len in Hf as Hl. cbn [feed sd_pending sd_saw_done].
  rewrite (find_frame_end_app _ _ _ Hf). cbn [mbind option_bind].
  rewrite take_app_le, drop_app_le by lia.
  destruct (_ <? _)%Z; [by simplify_eq|]. by destruct (frame_is_done _); simplify_eq.
Qed.

Lemma drain_fuel f g d events :
  Str.len (sd_pending d) <= f -> Str.len (sd_pending d) <= g ->
  drain from_str f d events = drain from_str g d events.
Proof.
  assert (forall k d events, Str.len (sd_pending d) = 0 -> drain from_str k d events = (None, events, d)) as H0.
  { intros [|k] e evs He; [done|]. rewrite drain_S. destruct (frame_step e) as [[r e']|] eqn:E; [|done].
    apply frame_step_len in E. lia. }
  revert g d events. induction f as [|f IH]; intros [|g] d events Hf Hg;
    [done|by rewrite !H0 by lia|by rewrite !H0 by lia|].
  rewrite !drain_S. destruct (frame_step d) as [[[vs|e] d']|] eqn:E; [|done|done].
  apply frame_step_len in E. apply IH; lia.
Qed.

Lemma drain_len f d events : Str.len (sd_pending (drain from_str f d events).2) <= Str.len (sd_pending d).
Proof.
  revert d events. induction f as [|f IH]; intros d events; [done|]. rewrite drain_S.
  destruct (frame_step d) as [[[vs|e] d']|] eqn:E; [|apply frame_step_len in E; cbn; lia|done].
  apply frame_step_len in E. etrans; [apply IH|lia].
Qed.

Lemma drain_acc f d events :
  drain from_str f d events =
    let '(o, vs, d') := drain from_str f d [] in (o, events ++ vs, d').
Proof.
  revert d events. induction f as [|f IH]; intros d events; [cbn; by rewrite app_nil_r|].
  rewrite !drain_S. destruct (frame_step d) as [[[vs|e] d']|]; [|by rewrite app_nil_r..].
  rewrite (IH d' (events ++ vs)), (IH d' ([] ++ vs)).
  destruct (drain from_str f d' []) as [[o ws] d2]. by rewrite <- app_assoc.
Qed.

(** With enough fuel the loop only stops without a complete frame. *)
Lemma drain_done f d events vs d' :
  Str.len (sd_pending d) <= f -> drain from_str f d events = (None, vs, d') ->
  find_frame_end (sd_pending d') = None.
Proof.
  revert d events. induction f as [|f IH]; intros d events Hf.
  - intros [= <- <-]. destruct (find_frame_end (sd_pending d)) as [[e n]|] eqn:E; [|done].
    apply find_frame_end_len in E. lia.
  - rewrite drain_S. destruct (frame_step d) as [[[ws|e] d2]|] eqn:E; [|done|].
    + apply IH. apply frame_step_len in E. lia.
    + intros [= <- <-]. unfold frame_step in E. by destruct (find_frame_end (sd_pending d)) as [[? ?]|].
Qed.

(** Draining what has arrived and then the rest is draining everything. *)
Lemma drain_feed f g d events bytes :
  Str.len (sd_pending d) <= f -> Str.len (sd_pending (feed d bytes)) <= g ->
  drain from_str g (feed d bytes) events =
    match drain from_str f d events with
    | (None, vs, d') => drain from_str g (feed d' bytes) vs
    | (Some e, vs, d') => (Some e, vs, feed d' bytes)
    end.
Proof.
  revert g d events. induction f as [|f IH]; intros g d events Hf Hg; [done|].
  rewrite drain_S. destruct (frame_step d) as [[r d']|] eqn:E; [|done].
  pose proof (frame_step_len _ _ _ E) as Hl. pose proof (frame_step_feed _ _ _ bytes E) as Ef.
  cbn [feed sd_pending] in Hg. rewrite Str.len_app in Hg.
  destruct g as [|g]; [lia|]. rewrite drain_S, Ef. destruct r as [vs|e]; [|done].
  rewrite IH by (cbn [feed sd_pending]; rewrite ?Str.len_app; lia).
  pose proof (drain_len f d' (events ++ vs)) as Hl'.
  destruct (drain from_str f d' (events ++ vs)) as [[[e|] ws] d2]; [done|]. cbn [snd] in Hl'.
  apply drain_fuel; cbn [feed sd_pending]; rewrite Str.len_app; lia.
Qed.

(** A decoder between two chunks: no complete frame is left, and what is left is
    within the limit. *)
Definition ready (d : SseJsonDecoder) : Prop :=
  find_frame_end (sd_pending d) = None /\ (Z.of_nat (Str.len (sd_pending d)) <= MAX_SSE_EVENT_BYTES)%Z.

(** What a stream means, whatever its chunks: its frames one after the other, each
    decoded on its own, up to the part after the last boundary.  Each frame with its
    boundary, and that last part, has at most [limit] bytes; the stream may be as long
    as it likes. *)
Inductive decodes (limit : Z) : SseJsonDecoder -> list Value -> SseJsonDecoder -> Prop :=
  | decodes_rest d :
      find_frame_end (sd_pending d) = None -> (Z.of_nat (Str.len (sd_pending d)) <= limit)%Z ->
      decodes limit d [] d
  | decodes_frame d vs d1 events d' :
      frame_step d = Some (Ok vs, d1) ->
      (Z.of_nat (Str.len (sd_pending d)) <= limit + Z.of_nat (Str.len (sd_pending d1)))%Z ->
      decodes limit d1 events d' -> decodes limit d (vs ++ events) d'.

Lemma frame_step_none d : frame_step d = None <-> find_frame_end (sd_pending d) = None.
Proof. unfold frame_step. by destruct (find_frame_end (sd_pending d)) as [[? ?]|]. Qed.

Lemma decodes_det l1 l2 d e1 d1 e2 d2 :
  decodes l1 d e1 d1 -> decodes l2 d e2 d2 -> e1 = e2 /\ d1 = d2.
Proof.
  intros H1. revert e2 d2. induction H1 as [d Hn _|d vs d3 es d' Hs _ _ IH]; intros e2 d2;
    inversion 1 as [d0 Hn' _|d0 vs' d4 es' d'' Hs' _ Hd]; subst; [done|..].
  - apply frame_step_none in Hn. congruence.
  - apply frame_step_none in Hn'. congruence.
  - rewrite Hs in Hs'. injection Hs' as <- <-. by destruct (IH _ _ Hd) as [-> ->].
Qed.

(** A boundary that is not in what has arrived lies beyond it. *)
Lemma find_frame_end_late p t e n :
  find_frame_end p = None -> find_frame_end (p +:+ t) = Some (e, n) -> Str.len p < e + n.
Proof.
  unfold find_frame_end. destruct (position lf_lf p) eqn:Ea, (position crlf_crlf p) eqn:Eb; try done. intros _.
  assert (forall j, position lf_lf (p +:+ t) = Some j -> Str.len p < j + 2) as H1
    by (intros j Hj; by apply (position_late lf_lf p t j)).
  assert (forall j, position crlf_crlf (p +:+ t) = Some j -> Str.len p < j + 4) as H2
    by (intros j Hj; by apply (position_late crlf_crlf p t j)).
  destruct (position lf_lf (p +:+ t)) as [i|], (position crlf_crlf (p +:+ t)) as [j|]; [|..|done];
    try (specialize (H1 _ eq_refl)); try (specialize (H2 _ eq_refl)); repeat case_match; intros; simplify_eq; lia.
Qed.

Lemma frame_step_late d t r d' :
  frame_step d = None -> frame_step (feed d t) = Some (r, d') ->
  Str.len (sd_pending d) + Str.len (sd_pending d') < Str.len (sd_pending (feed d t)).
Proof.
  intros Hn%frame_step_none. unfold frame_step. intros ([e n] & Hf & Heq)%bind_Some.
  pose proof (find_frame_end_late _ _ _ _ Hn Hf) as Hl. pose proof (find_frame_end_len _ _ _ Hf) as [Hl' _].
  assert (sd_pending d' = Str.drop (e + n) (sd_pending (feed d t))) as ->.
  { destruct (_ <? _)%Z; [by simplify_eq|]. by destruct (frame_is_done _); simplify_eq. }
  rewrite Str.len_drop. lia.
Qed.

(** The loop over what has arrived takes the first frames of the stream, and the rest
    of the stream is what it leaves with the bytes still to come. *)
Lemma drain_prefix limit d b events d' :
  decodes limit (feed d b) events d' ->
  exists e1 d1 e2, drain from_str (Str.len (sd_pending d)) d [] = (None, e1, d1) /\ events = e1 ++ e2 /\
    decodes limit (feed d1 b) e2 d' /\ find_frame_end (sd_pending d1) = None /\
    (Z.of_nat (Str.len (sd_pending d1)) <= limit)%Z.
Proof.
  intros H. remember (feed d b) as s eqn:Es. revert d Es.
  assert (forall d, frame_step d = None -> drain from_str (Str.len (sd_pending d)) d [] = (None, [], d)) as H0.
  { intros d Hd. destruct (Str.len (sd_pending d)); [done|]. by rewrite drain_S, Hd. }
  induction H as [s Hn Hl|s vs d1 events d' Hs Hl Hd IH]; intros d ->.
  - destruct (frame_step d) as [[r d1]|] eqn:E.
    { apply frame_step_none in Hn. by rewrite (frame_step_feed _ _ _ b E) in Hn. }
    exists [], d, []. rewrite H0 by done. apply frame_step_none in E. cbn [feed sd_pending] in Hl.
    rewrite Str.len_app in Hl. split_and!; [done|done|constructor; [done|cbn [feed sd_pending]; rewrite Str.len_app; lia]|done|lia].
  - destruct (frame_step d) as [[r d2]|] eqn:E.
    + rewrite (frame_step_feed _ _ _ b E) in Hs. injection Hs as -> <-.
      destruct (IH d2 eq_refl) as (e1 & d3 & e2 & Hr & -> & Hd2 & Hrest). exists (vs ++ e1), d3, e2.
      pose proof (frame_step_len _ _ _ E) as Hlen. destruct (Str.len (sd_pending d)) as [|f] eqn:Ef; [lia|].
      rewrite drain_S, E, drain_acc, (drain_fuel f (Str.len (sd_pending d2))), Hr by lia.
      split_and!; [done|by rewrite app_assoc|by destruct Hrest..].
    + pose proof (frame_step_late _ _ _ _ E Hs) as Hlate. exists [], d, (vs ++ events). rewrite H0 by done.
      apply frame_step_none in E. split_and!; [done|done|by econstructor|done|lia].
Qed.

(** A loop that ends without an error went through the frames of what it was given. *)
Lemma drain_decodes f d vs d1 events b d' :
  drain from_str f d [] = (None, vs, d1) -> decodes (MAX_SSE_EVENT_BYTES + 4) (feed d1 b) events d' ->
  decodes (MAX_SSE_EVENT_BYTES + 4) (feed d b) (vs ++ events) d'.
Proof.
  revert d vs. induction f as [|f IH]; intros d vs; [by intros [= <- <-]|]. rewrite drain_S.
  destruct (frame_step d) as [[[ws|e] d2]|] eqn:E; [|done|by intros [= <- <-]]. rewrite drain_acc.
  destruct (drain from_str f d2 []) as [[o us] d3] eqn:Ed. intros [= -> <- ->] Hd. cbn [app]. rewrite <- app_assoc.
  econstructor; [by apply frame_step_feed| |by eapply IH].
  cbn [feed sd_pending]. rewrite !Str.len_app. revert E. unfold frame_step.
  intros ([e n] & Hf & Heq)%bind_Some.
  assert (n <= 4) as Hn by (revert Hf; unfold find_frame_end; repeat case_match; intros; simplify_eq; lia).
  apply find_frame_end_len in Hf as [Hl _].
  destruct (Z.ltb_spec MAX_SSE_EVENT_BYTES (Z.of_nat e)); [done|].
  assert (sd_pending d2 = Str.drop (e + n) (sd_pending d)) as ->
    by by destruct (frame_is_done _); simplify_eq.
  rewrite Str.len_drop. lia.
Qed.

(** A run over the chunks of a stream. *)
Fixpoint sse_run (d : SseJsonDecoder) (chunks : list string) :
    list (result (list Value) SseDecodeError) * SseJsonDecoder :=
  match chunks with
  | [] => ([], d)
  | c :: chunks =>
      let '(r, d) := sse_push from_str d c in
      let '(rs, d) := sse_run d chunks in (r :: rs, d)
  end.

Lemma join_chunks_cons c cs : Str.join EmptyString (c :: cs) = c +:+ Str.join EmptyString cs.
Proof. destruct cs; [by rewrite Str.app_nil_r|done]. Qed.

Lemma feed_app d a b : feed d (a +:+ b) = feed (feed d a) b.
Proof. unfold feed. cbn [sd_pending sd_saw_done]. by rewrite Str.app_assoc. Qed.

(** Every cut of a stream whose frames all decode, none over the limit, gives them. *)
Lemma sse_run_complete chunks d events d' :
  ready d -> decodes MAX_SSE_EVENT_BYTES (feed d (Str.join EmptyString chunks)) events d' ->
  exists parts, sse_run d chunks = (Ok <$> parts, d') /\ mjoin parts = events.
Proof.
  revert d events. induction chunks as [|c chunks IH]; intros d events [Hn Hl] H.
  - exists []. assert (feed d (Str.join EmptyString []) = d) as Ed.
    { destruct d. unfold feed. cbn. by rewrite Str.app_nil_r. }
    rewrite Ed in H. by destruct (decodes_det _ _ _ _ _ _ _ H (decodes_rest _ d Hn Hl)) as [-> ->].
  - rewrite join_chunks_cons, feed_app in H.
    destruct (drain_prefix _ _ _ _ _ H) as (e1 & d1 & e2 & Hr & -> & Hd & Hn1 & Hl1).
    destruct (IH d1 e2) as (parts & Hp & Hj); [done..|]. exists (e1 :: parts). cbn [sse_run].
    unfold sse_push. fold (feed d c). change (sd_pending d +:+ c) with (sd_pending (feed d c)). rewrite Hr.
    rewrite (proj2 (Z.ltb_ge _ _)) by done. rewrite Hp. split; [done|]. by rewrite <- Hj.
Qed.

(** A cut that decodes without an error gives the events of the frames, and no others. *)
Lemma sse_run_sound chunks d parts d' :
  ready d -> sse_run d chunks = (Ok <$> parts, d') ->
  decodes (MAX_SSE_EVENT_BYTES + 4) (feed d (Str.join EmptyString chunks)) (mjoin parts) d'.
Proof.
  revert d parts. induction chunks as [|c chunks IH]; intros d parts [Hn Hl].
  - intros [= Hp <-]. destruct parts; [|done]. assert (feed d (Str.join EmptyString []) = d) as ->.
    { destruct d. unfold feed. cbn. by rewrite Str.app_nil_r. }
    constructor; [done|lia].
  - cbn [sse_run]. unfold sse_push. fold (feed d c). change (sd_pending d +:+ c) with (sd_pending (feed d c)).
    destruct (drain from_str _ (feed d c) []) as [[[e|] e1] d1] eqn:Ed.
    all: destruct (Z.ltb_spec MAX_SSE_EVENT_BYTES (Z.of_nat (Str.len (sd_pending d1)))) as [|Hl1];
      destruct (sse_run _ chunks) as [rs d2] eqn:Er; intros [= Hp ->]; destruct parts as [|p parts]; try done.
    injection Hp as -> ->. pose proof (drain_done _ _ _ _ _ (le_n _) Ed) as Hn1.
    rewrite join_chunks_cons, feed_app. eapply drain_decodes; [exact Ed|]. by eapply IH.
Qed.

(** C21. Chunk boundaries do not change what is inspected.  A stream whose frames all
    decode, each with its boundary within 1 MiB and followed by at most 1 MiB of a frame
    that is not complete, decodes without an error however it is cut, however long it
    is, to the events of its frames in their order, and leaves the decoder in the same
    state.  And two ways of cutting any bytes that both decode without an error give the
    same events and the same state.  Where a chunk is answered with an error the events
    do depend on the cut: see [error_drops_decoded]. *)
Theorem chunking_invariant (d d' : SseJsonDecoder) (chunks : list string) (events : list Value) :
  ready d ->
  (decodes MAX_SSE_EVENT_BYTES (feed d (Str.join EmptyString chunks)) events d' ->
   exists parts, sse_run d chunks = (Ok <$> parts, d') /\ mjoin parts = events) /\
  (forall other parts1 parts2 d1 d2, Str.join EmptyString other = Str.join EmptyString chunks ->
   sse_run d chunks = (Ok <$> parts1, d1) -> sse_run d other = (Ok <$> parts2, d2) ->
   mjoin parts1 = mjoin parts2 /\ d1 = d2).
Proof.
  intros Hd. split; [by apply sse_run_complete|]. intros other p1 p2 d1 d2 Hj H1 H2.
  apply sse_run_sound in H1; [|done]. apply sse_run_sound in H2; [|done]. rewrite Hj in H2. by eapply decodes_det.
Qed.
End frames.

(** *** A single data frame *)

Definition plain_byte (a : ascii) : bool :=
  Str.is_ascii_char a && negb (bool_decide (a = LF)) && negb (bool_decide (a = CR)).

Lemma plain_spec a : plain_byte a = true -> Str.is_ascii_char a = true /\ a <> LF /\ a <> CR.
Proof.
  unfold plain_byte. rewrite !andb_true_iff, !negb_true_iff, !bool_decide_eq_false. tauto.
Qed.

Lemma plain_ascii s : Str.forallb plain_byte s = true -> Str.is_ascii s = true.
Proof.
  unfold Str.is_ascii. induction s as [|a s IH]; [done|]. cbn [Str.forallb].
  intros [Ha Hs]%andb_true_iff. apply plain_spec in Ha as (-> & _ & _). by rewrite IH.
Qed.

Lemma plain_lines s : Str.forallb plain_byte s = true -> s <> EmptyString -> lines s = [s].
Proof.
  intros Hs Hne. unfold lines. assert (Str.split_char LF s = [s]) as ->; [|by destruct s].
  clear Hne. unfold Str.split_char. induction s as [|a s IH]; [done|]. cbn [Str.forallb] in Hs.
  apply andb_true_iff in Hs as [(_ & Ha & _)%plain_spec Hs]. cbn [Str.split].
  by rewrite bool_decide_false, IH by done.
Qed.

Lemma plain_strip_cr s : Str.forallb plain_byte s = true -> strip_cr s = s.
Proof.
  intros Hs. unfold strip_cr. assert (strip_suffix_char CR s = None) as ->; [|done].
  induction s as [|a s IH]; [done|]. cbn [Str.forallb] in Hs.
  apply andb_true_iff in Hs as [(_ & _ & Ha)%plain_spec Hs]. cbn [strip_suffix_char].
  rewrite bool_decide_false by done. destruct s; [done|]. by rewrite IH.
Qed.

Lemma plain_boundary s : Str.forallb plain_byte s = true ->
  position lf_lf (s +:+ lf_lf) = Some (Str.len s) /\ position crlf_crlf (s +:+ lf_lf) = None.
Proof.
  induction s as [|a s IH]; [done|]. cbn [Str.forallb].
  intros [(_ & Ha & Ha')%plain_spec Hs]%andb_true_iff. destruct (IH Hs) as [H1 H2].
  rewrite Str.app_cons. cbn [position]. unfold Str.starts_with. cbn [lf_lf crlf_crlf String.prefix].
  destruct (ascii_dec LF a); [congruence|]. destruct (ascii_dec CR a); [congruence|].
  fold lf_lf crlf_crlf. by rewrite H1, H2.
Qed.

(** An event the upstream sends as one [data:] line is decoded to its payload, and
    nothing is left over. *)
Theorem data_frame_decoded from_str (payload : string) (v : Value) :
  Str.forallb plain_byte payload = true -> from_str payload = Some v ->
  payload <> EmptyString -> Str.trim (" " +:+ payload) <> "[DONE]" -> payload <> "[DONE]" ->
  (Z.of_nat (Str.len payload) + 6 <= MAX_SSE_EVENT_BYTES)%Z ->
  sse_push from_str decoder_default ("data: " +:+ payload +:+ lf_lf) = (Ok [v], decoder_default).
Proof.
  intros Hp Hv Hne Htrim Hdone Hmax. set (frame := "data: " +:+ payload).
  assert (Str.forallb plain_byte frame = true) as Hframe by done.
  destruct (plain_boundary frame Hframe) as [Hlf Hcr].
  assert (Str.len frame = Str.len payload + 6) as Hlen by (unfold frame; rewrite Str.len_app; cbn; lia).
  assert (lines (Utf8.lossy frame) = [frame]) as Hlines.
  { rewrite Utf8.lossy_ascii by by apply plain_ascii. by apply plain_lines. }
  assert (data_value frame = Some (" " +:+ payload)) as Hdata.
  { unfold data_value. by rewrite plain_strip_cr. }
  unfold sse_push. cbn [decoder_default sd_pending sd_saw_done]. rewrite Str.app_nil_l, <- Str.app_assoc.
  fold frame. rewrite (drain_fuel _ _ (S (S (Str.len frame)))) by (cbn [sd_pending]; rewrite ?Str.len_app; cbn; lia).
  rewrite drain_S. unfold frame_step, find_frame_end. cbn [sd_pending sd_saw_done]. rewrite Hlf, Hcr.
  cbn [mbind option_bind]. rewrite (proj2 (Z.ltb_ge _ _)) by lia. rewrite Str.take_app.
  replace (Str.len frame + 2) with (Str.len (frame +:+ lf_lf)) by (rewrite Str.len_app; done).
  assert (Str.drop (Str.len (frame +:+ lf_lf)) (frame +:+ lf_lf) = EmptyString) as ->.
  { generalize (frame +:+ lf_lf). intros s. rewrite <- (Str.app_nil_r s) at 2. by rewrite Str.drop_app. }
  unfold frame_is_done, decode_frame, frame_data. rewrite Hlines. cbn [existsb omap list_omap].
  rewrite Hdata, bool_decide_false by done. cbn [orb fmap list_fmap].
  change (default (" " +:+ payload) (Str.strip_prefix " " (" " +:+ payload))) with payload.
  change (Str.join (String LF EmptyString) [payload]) with payload.
  rewrite bool_decide_false by done. replace (Str.is_empty payload) with false by by destruct payload.
  cbn [orb]. rewrite Hv. cbn [option_list app]. rewrite drain_S. done.
Qed.

(** *** A limit of the decoder *)

(** A parser for the examples: the JSON texts are those in braces. *)
Definition braces_json : string -> option Value :=
  fun s => if Str.starts_with "{" s then Some (JString s) else None.

(** When a frame of a chunk is not JSON, the events of the frames before it in the
    same chunk are lost, and the frames after it are only decoded when the next
    chunk arrives. *)
Theorem error_drops_decoded :
  let frame s := "data: " +:+ s +:+ lf_lf in
  sse_run braces_json decoder_default [frame "{a}" +:+ frame "oops" +:+ frame "{b}"; EmptyString]
  = ([Err NotJson; Ok [JString "{b}"]], decoder_default) /\
  sse_run braces_json decoder_default [frame "{a}"; frame "oops"; frame "{b}"]
  = ([Ok [JString "{a}"]; Err NotJson; Ok [JString "{b}"]], decoder_default).
Proof. by vm_compute. Qed.

(** ** Witnesses *)

Lemma chunking_invariant_witness :
  let chunks := ["data: {a"; "}" +:+ String LF EmptyString; String LF "data: "] in
  (exists parts, sse_run braces_json decoder_default chunks = (Ok <$> parts, mkDecoder "data: " false) /\
     mjoin parts = [JString "{a}"]) /\
  mjoin [[]; []; [JString "{a}"]] = mjoin [[JString "{a}"]].
Proof.
  intros chunks.
  destruct (chunking_invariant braces_json decoder_default (mkDecoder "data: " false) chunks [JString "{a}"])
    as [H1 H2]; [split; [reflexivity|vm_compute; discriminate]|]. split.
  - apply H1. apply (decodes_frame braces_json _ _ [JString "{a}"] (mkDecoder "data: " false) []).
    + vm_compute. reflexivity.
    + vm_compute. discriminate.
    + apply decodes_rest; [reflexivity|vm_compute; discriminate].
  - apply (H2 [Str.join EmptyString chunks] _ _ (mkDecoder "data: " false) (mkDecoder "data: " false));
      vm_compute; reflexivity.
Defined.

Lemma data_frame_decoded_witness :
  sse_push braces_json decoder_default ("data: " +:+ "{a}" +:+ lf_lf) = (Ok [JString "{a}"], decoder_default).
Proof.
  apply (data_frame_decoded braces_json "{a}" (JString "{a}"));
    try reflexivity; try discriminate; vm_compute; discriminate.
Defined.
