(* ===== verification/Sandbox.v ===== *)
(** Guarded execution ([agentfw/src/sandbox.rs]): typed shell, file and network operations that
    an agent's tool runs only after the agent firewall allowed exactly that operation. Each
    operation is a function of the firewall that returns its result, the firewall, and what it did to
    the outside as a list of effects. What the operating system answers is a parameter: the
    file system when a path is checked ([fs]) and when it is used ([fs']), the child process and the network.
    A path is its bytes; where it is shown to the firewall or put on a command line it is first made UTF-8
    ([to_string_lossy]), which replaces what is not. *)
From S2P Require Import Prelude BTree Platform F32 Json Net CoreTypes Scoring Detectors Normalize Adapter Event Authority.
From S2P Require Import Fingerprint Taint Action Egress AgentPolicy Engine HookMap Config Resources ProxyEvents Sse.
From Stdlib Require Import String Ascii.
Local Open Scope string_scope.
Local Open Scope Z_scope.
#[local] Abbreviation length := List.length.

(** ** Data *)

Inductive NetworkPolicy := NetworkDeny | NetworkAllowlist (hosts : list string).

Record SandboxSpec := mkSandboxSpec {
  bx_program : string; bx_args : list string; bx_workspace : string; bx_network : NetworkPolicy;
  bx_timeout : Z; bx_max_output_bytes : Z }.
Record SandboxResult := mkSandboxResult {
  br_status : option Z; br_stdout : string; br_stderr : string; br_stdout_truncated : bool;
  br_stderr_truncated : bool; br_timed_out : bool }.

(** Who asks: session, agent and sequence number. *)
Record Caller := mkCaller { ca_session : string; ca_agent : string; ca_seq : Z }.

Record GuardedShellSpec := mkShellSpec {
  gs_caller : Caller; gs_command : string; gs_workspace : string; gs_network : NetworkPolicy;
  gs_timeout : Z; gs_max_output_bytes : Z }.
Record GuardedFileWriteSpec := mkWriteSpec { gw_caller : Caller; gw_path : string; gw_content : string; gw_workspace : string }.
Record GuardedFileDeleteSpec := mkDeleteSpec { gd_caller : Caller; gd_path : string; gd_workspace : string }.
Record GuardedFileRenameSpec := mkRenameSpec { gr_caller : Caller; gr_from : string; gr_to : string; gr_workspace : string }.
Record GuardedNetworkFetchSpec := mkFetchSpec {
  gf_caller : Caller; gf_url : string; gf_proxy_url : string; gf_timeout : Z; gf_max_response_bytes : Z }.

(** What the program reads of a [reqwest::Url]. *)
Record FetchUrl := mkFetchUrl {
  fu_scheme : string; fu_username : string; fu_password : option string; fu_host_str : option string;
  fu_path : string; fu_query : option string; fu_fragment : option string }.

(** An operation on the outside. *)
Inductive Effect :=
| Spawn (program : string) (args : list string) (timeout : Z)
| WriteFile (target content : string)
| DeleteFile (target : string)
| RenameFile (from to : string)
| Fetch (url proxy : FetchUrl) (timeout : Z).

(** What a child process did: its output as read, piece by piece, and its exit code. *)
Inductive ChildRun :=
| SpawnFailed | ChildIoFailed | ChildTimedOut
| ChildDone (stdout stderr : list string) (code : option Z).

(** Why a file operation failed, and why there is no client for a request. *)
Inductive IoFault := FailOpen | FailWrite | FailSync | FailTask.
Inductive ClientFault := BadProxy | BadClient.

(** An answer: its length as announced, its status, and the chunks of its body, [None] for a broken stream. *)
Record FetchResponse := mkFetchResponse {
  fr_content_length : option Z; fr_status : Z; fr_chunks : list (option string) }.

Inductive GuardedResult :=
| ShellResult (decision : DecisionResponse) (execution : SandboxResult)
| WriteResult (decision : DecisionResponse) (bytes_written : nat)
| DeleteResult (decision : DecisionResponse) (deleted : bool)
| RenameResult (decision : DecisionResponse) (renamed : bool)
| FetchResult (decision : DecisionResponse) (host : string) (status : Z) (body : string) (body_truncated : bool).

Definition MAX_FILE_WRITE_BYTES : Z := 16 * 1024 * 1024.
Definition MAX_NETWORK_URL_BYTES : Z := 8 * 1024.
Definition MAX_NETWORK_RESPONSE_BYTES : Z := 16 * 1024 * 1024.
Definition MAX_ARGUMENT_BYTES : Z := 64 * 1024.
Definition MAX_OUTPUT_BYTES : Z := 16 * 1024 * 1024.
(** Durations are nanoseconds. *)
Definition seconds (n : Z) : Z := n * 10 ^ 9.
Definition bytes (s : string) : Z := Z.of_nat (Str.len s).

Definition verdict_label (v : Verdict) : string :=
  match v with Allow => "allow" | Ask => "ask" | Deny => "deny" | Escalate => "escalate" end.

(** [format!("{what} refused: verdict={label} rule={rule}")] for all but an allow. *)
Definition require_allow (what : string) (o : AgentOutcome) : result unit string :=
  if bool_decide (ao_verdict o = Allow) then Ok tt
  else Err (what +:+ " refused: verdict=" +:+ verdict_label (ao_verdict o) +:+ " rule=" +:+ default "none" (ao_rule o)).

Definition identity_checks (what : string) (session agent : string) : result unit string :=
  bail_if (Str.is_empty session || Str.is_empty agent) with what +:+ " session and agent are required" in
  bail_if ((256 <? bytes session) || (256 <? bytes agent)) with what +:+ " session or agent is oversized" in
  bail_if (has_control session || has_control agent) with what +:+ " session or agent contains a control character" in
  Ok tt.
Definition validate_file_operation_identity (session agent operation : string) : result unit string :=
  identity_checks ("guarded file " +:+ operation) session agent.
Definition validate_network_identity (session agent : string) : result unit string :=
  identity_checks "guarded network" session agent.

(** [Path::to_string_lossy] *)
Definition to_string_lossy (path : string) : string := Utf8.lossy path.

Definition tool_event (c : Caller) (tool : string) (args : list (string * string)) : AgentEvent :=
  mkEvent (ca_session c) (ca_agent c) None (ca_seq c) 0
    (ToolCall tool (JObject (BMap.of_list ((fun kv => (kv.1, JString kv.2)) <$> args)))).

Definition event_command (e : AgentEvent) : result string string :=
  match ev_kind e with
  | ToolCall tool (JObject m) =>
      if bool_decide (tool = "Bash") then ok_or (BMap.get "command" m ≫= as_str) "guarded shell command is not a string"
      else Err "guarded shell event is not a Bash tool call"
  | ToolCall tool _ =>
      if bool_decide (tool = "Bash") then Err "guarded shell command is not a string"
      else Err "guarded shell event is not a Bash tool call"
  | _ => Err "guarded shell event is not a Bash tool call"
  end.

(** ** Reading with a limit *)

(** [read_capped]: everything is read up to a read of no bytes, [limit] bytes are kept. *)
Fixpoint read_capped (limit : nat) (chunks : list string) (out : string) (truncated : bool) : string * bool :=
  match chunks with
  | [] => (out, truncated)
  | chunk :: chunks =>
      if Str.is_empty chunk then (out, truncated)
      else if (Str.len out <? limit)%nat then
        let keep := Nat.min (limit - Str.len out) (Str.len chunk) in
        read_capped limit chunks (out +:+ Str.take keep chunk) (truncated || (keep <? Str.len chunk)%nat)
      else read_capped limit chunks out true
  end.

(** The loop over the body of an answer: it stops at the chunk that goes over the limit, and
    fails at a broken one. *)
Fixpoint read_body (limit : nat) (chunks : list (option string)) (out : string) : result (string * bool) string :=
  match chunks with
  | [] => Ok (out, false)
  | None :: _ => Err "guarded network response stream failed"
  | Some chunk :: chunks =>
      let remaining := (limit - Str.len out)%nat in
      if (remaining <? Str.len chunk)%nat then Ok (out +:+ Str.take remaining chunk, true)
      else read_body limit chunks (out +:+ chunk)
  end.

(** ** URLs *)

(** [localhost], or an address of the loopback network. *)
Definition is_loopback_host (host : string) : bool :=
  Str.eq_ignore_ascii_case host "localhost"
  || match parse_ip host with Some a => is_loopback a | None => false end.

Section urls.
(** [reqwest::Url::parse]. *)
Variable url_parse : string -> option FetchUrl.

Definition unusable_url (raw : string) : bool :=
  Str.is_empty raw || (MAX_NETWORK_URL_BYTES <? bytes raw) || has_control raw.
Definition scheme_ok (url : FetchUrl) (host : string) : bool :=
  bool_decide (fu_scheme url = "https") || (bool_decide (fu_scheme url = "http") && is_loopback_host host).
Definition is_some {A} (o : option A) : bool := match o with Some _ => true | None => false end.

Definition validate_fetch_url (raw : string) : result FetchUrl string :=
  bail_if (unusable_url raw) with "guarded network URL is empty, oversized, or contains a control character" in
  let? url := ok_or (url_parse raw) "guarded network URL is invalid" in
  bail_if (negb (Str.is_empty (fu_username url)) || is_some (fu_password url))
    with "guarded network URL must not contain userinfo" in
  bail_if (is_some (fu_fragment url)) with "guarded network URL must not contain a fragment" in
  let? host := ok_or (fu_host_str url) "guarded network URL must contain a host" in
  bail_if (negb (scheme_ok url host)) with "guarded network URL must use HTTPS (HTTP is loopback-only)" in
  Ok url.

Definition validate_proxy_url (raw : string) : result FetchUrl string :=
  bail_if (unusable_url raw) with "guarded egress proxy URL is empty, oversized, or contains a control character" in
  let? url := ok_or (url_parse raw) "guarded egress proxy URL is invalid" in
  bail_if (negb (Str.is_empty (fu_username url)) || is_some (fu_password url)
           || (negb (bool_decide (fu_path url = "/")) && negb (Str.is_empty (fu_path url)))
           || is_some (fu_query url) || is_some (fu_fragment url))
    with "guarded egress proxy URL must not contain credentials, a path, or query data" in
  let? host := ok_or (fu_host_str url) "guarded egress proxy URL must contain a host" in
  bail_if (negb (scheme_ok url host)) with "guarded egress proxy must use HTTPS (HTTP is loopback-only)" in
  Ok url.
End urls.

Definition validate_network_limits (timeout max_response_bytes : Z) : result unit string :=
  bail_if ((timeout <=? 0) || (seconds 120 <? timeout))
    with "guarded network timeout must be between one millisecond and two minutes" in
  bail_if ((max_response_bytes <=? 0) || (MAX_NETWORK_RESPONSE_BYTES <? max_response_bytes))
    with "guarded network response limit is outside the safe range" in
  Ok tt.

(** ** Workspaces *)

Section workspace.
Context (fs : FileSystem).

Definition validate_workspace_path (workspace : string) : result string string :=
  let? workspace := ok_or (fs_canonicalize workspace) ("sandbox workspace does not exist: " +:+ workspace) in
  bail_if (negb (fs_is_dir workspace)) with "sandbox workspace must be a directory" in
  bail_if (bool_decide (path_parent workspace = None)) with "refusing to mount the host filesystem root as a workspace" in
  Ok workspace.

Definition resolve_workspace_target (workspace requested : string) : result string string :=
  bail_if (Str.is_empty requested) with "guarded file operation path is empty" in
  bail_if (bool_decide (ParentDir ∈ components requested)) with "guarded file operation path traversal is not allowed" in
  let candidate := if is_absolute requested then requested else path_join workspace requested in
  let? file_name := ok_or (path_file_name candidate) "guarded file operation target must be a file" in
  let? parent := ok_or (path_parent candidate) "guarded file operation target has no parent" in
  let? parent := ok_or (fs_canonicalize parent) "guarded file write parent does not exist" in
  bail_if (negb (starts_with_path parent workspace)) with "guarded file operation target is outside the workspace" in
  let target := path_join parent file_name in
  match fs_symlink_metadata target with
  | Ok kind =>
      bail_if (bool_decide (kind = FkSymlink)) with "guarded file operation refuses a symlink target" in
      bail_if (negb (bool_decide (kind = FkFile))) with "guarded file operation target is not a regular file" in
      Ok target
  | Err _ => Ok target
  end.

Definition validate (spec : SandboxSpec) : result string string :=
  bail_if (Str.is_empty (bx_program spec) || (MAX_ARGUMENT_BYTES <? bytes (bx_program spec)))
    with "sandbox program is empty or oversized" in
  bail_if (has_control (bx_program spec)) with "sandbox program contains a control character" in
  bail_if ((MAX_ARGUMENT_BYTES <? foldr (fun a n => bytes a + n) 0 (bx_args spec))
           || existsb (Str.contains_char "000") (bx_args spec))
    with "sandbox arguments are oversized or contain a NUL byte" in
  bail_if ((bx_timeout spec <=? 0) || (seconds 600 <? bx_timeout spec))
    with "sandbox timeout must be between one millisecond and ten minutes" in
  bail_if ((bx_max_output_bytes spec <=? 0) || (MAX_OUTPUT_BYTES <? bx_max_output_bytes spec))
    with "sandbox output limit is outside the safe range" in
  let? workspace := validate_workspace_path (bx_workspace spec) in
  match bx_network spec with
  | NetworkAllowlist [] => Err "an empty network allowlist is ambiguous; use network=deny"
  | NetworkAllowlist _ => Err "network allowlists require an egress proxy; refusing unsandboxed network access"
  | NetworkDeny => Ok workspace
  end.

(** A regular file, and no link to one. *)
Definition regular (p : string) : bool := bool_decide (fs_symlink_metadata p = Ok FkFile).

(** [add_ro_bind_if_present] *)
Definition ro_binds (paths : list string) : list string :=
  paths ≫= fun p => if fs_exists p then ["--ro-bind"; p; p] else [].

(** The command line of [bwrap]. *)
Definition bwrap_args (workspace program : string) (args : list string) : list string :=
  (["--die-with-parent"; "--new-session"; "--unshare-all"; "--unshare-user"; "--clearenv"; "--cap-drop"; "ALL"]
   ++ ro_binds ["/usr"; "/bin"; "/sbin"; "/lib"; "/lib64"]
   ++ ["--dir"; "/etc"]
   ++ ro_binds ["/etc/passwd"; "/etc/group"; "/etc/nsswitch.conf"; "/etc/hosts"; "/etc/ld.so.cache"; "/etc/localtime"]
   ++ ["--dev"; "/dev"; "--proc"; "/proc"; "--tmpfs"; "/tmp"; "--dir"; "/workspace"; "--bind"; to_string_lossy workspace; "/workspace";
       "--chdir"; "/workspace"; "--setenv"; "PATH"; "/usr/local/sbin:/usr/local/bin:/usr/sbin:/usr/bin:/sbin:/bin";
       "--setenv"; "HOME"; "/tmp"; "--setenv"; "LANG"; "C.UTF-8"; "--"; program]
   ++ args)%list.
End workspace.

(** ** The guarded operations *)

Section guarded.
Context `{UnicodeTables} `{RegexEngine} `{EntropyPlatform} `{LiteralIter}.
(** Whether this is Linux, where [bwrap] is; the file system when paths are checked and when they are used. *)
Variables (linux : bool) (fs fs' : FileSystem).
Variable url_parse : string -> option FetchUrl.
(** What the child, the file operation and the network make of an effect. *)
Variable child : Effect -> ChildRun.
Variable os_fault : Effect -> option IoFault.
Variable http : Effect -> option FetchResponse.
(** [reqwest::Proxy::all] and the building of the client. *)
Variable client_fault : FetchUrl -> option ClientFault.

Definition Guarded : Type := (result GuardedResult string * AgentFirewall) * list Effect.
(** Nothing was inspected and nothing done. *)
Definition refused (fw : AgentFirewall) (e : string) : Guarded := ((Err e, fw), []).

Definition decision_of (o : AgentOutcome) : DecisionResponse := adapter_response o "agentfw-local".

(** The rest of an operation, after the firewall allowed it: a result and the effects. *)
Definition when_allowed (fw : AgentFirewall) (what : string) (e : AgentEvent)
    (k : AgentOutcome -> AgentFirewall -> result GuardedResult string * list Effect) : Guarded :=
  let '(outcome, fw) := inspect fw e in
  match require_allow what outcome with
  | Err error => ((Err error, fw), [])
  | Ok _ => let '(r, effects) := k outcome fw in ((r, fw), effects)
  end.

Definition run_linux (spec : SandboxSpec) (workspace : string) : result SandboxResult string * list Effect :=
  let effect := Spawn "bwrap" (bwrap_args fs' workspace (bx_program spec) (bx_args spec)) (bx_timeout spec) in
  let limit := Z.to_nat (bx_max_output_bytes spec) in
  (match child effect with
   | SpawnFailed => Err "failed to start bubblewrap; install bwrap or keep the tool disabled"
   | ChildIoFailed => Err "sandbox process failed"
   | ChildTimedOut => Ok (mkSandboxResult None EmptyString EmptyString false false true)
   | ChildDone stdout stderr code =>
       let out := read_capped limit stdout EmptyString false in
       let err := read_capped limit stderr EmptyString false in
       Ok (mkSandboxResult code (Utf8.lossy out.1) (Utf8.lossy err.1) out.2 err.2 false)
   end, [effect]).

Definition sandbox_run (spec : SandboxSpec) : result SandboxResult string * list Effect :=
  match validate fs spec with
  | Err e => (Err e, [])
  | Ok workspace =>
      if linux then run_linux spec workspace
      else (Err "agentfw sandbox requires Linux bubblewrap; refusing host execution", [])
  end.

Definition shell_event (spec : GuardedShellSpec) : AgentEvent :=
  tool_event (gs_caller spec) "Bash" [("command", gs_command spec)].

Definition run_guarded_shell (fw : AgentFirewall) (spec : GuardedShellSpec) : Guarded :=
  let session := ca_session (gs_caller spec) in
  let agent := ca_agent (gs_caller spec) in
  if Str.is_empty session || Str.is_empty agent || Str.is_empty (gs_command spec) then
    refused fw "guarded shell session, agent, and command are required"
  else if (256 <? bytes session) || (256 <? bytes agent) then refused fw "guarded shell session or agent is oversized"
  else if has_control session || has_control agent then
    refused fw "guarded shell session or agent contains a control character"
  else if has_control (gs_command spec) then refused fw "guarded shell command contains a control character"
  else
    when_allowed fw "guarded shell execution" (shell_event spec) (fun outcome _ =>
      match event_command (shell_event spec) with
      | Err e => (Err e, [])
      | Ok command =>
          let '(r, effects) := sandbox_run (mkSandboxSpec "sh" ["-c"; command] (gs_workspace spec) (gs_network spec)
                                 (gs_timeout spec) (gs_max_output_bytes spec)) in
          (let? execution := r in Ok (ShellResult (decision_of outcome) execution), effects)
      end).

Definition write_event (spec : GuardedFileWriteSpec) : AgentEvent :=
  tool_event (gw_caller spec) "Write" [("file_path", to_string_lossy (gw_path spec)); ("content", gw_content spec)].

Definition write_workspace_file (target content : string) : result nat string * list Effect :=
  let effect := WriteFile target content in
  (match os_fault effect with
   | None => Ok (Str.len content)
   | Some FailOpen => Err "failed to open guarded file write target"
   | Some FailWrite => Err "failed to write guarded file target"
   | Some FailSync => Err "failed to sync guarded file target"
   | Some FailTask => Err "guarded file write task failed"
   end, [effect]).

Definition run_guarded_file_write (fw : AgentFirewall) (spec : GuardedFileWriteSpec) : Guarded :=
  match validate_file_operation_identity (ca_session (gw_caller spec)) (ca_agent (gw_caller spec)) "write" with
  | Err e => refused fw e
  | Ok _ =>
      if MAX_FILE_WRITE_BYTES <? bytes (gw_content spec) then refused fw "guarded file write content is oversized"
      else
        when_allowed fw "guarded file write" (write_event spec) (fun outcome _ =>
          match (let? workspace := validate_workspace_path fs (gw_workspace spec) in
                 resolve_workspace_target fs workspace (gw_path spec)) with
          | Err e => (Err e, [])
          | Ok target =>
              let '(r, effects) := write_workspace_file target (gw_content spec) in
              (let? n := r in Ok (WriteResult (decision_of outcome) n), effects)
          end)
  end.

Definition delete_event (spec : GuardedFileDeleteSpec) : AgentEvent :=
  tool_event (gd_caller spec) "Delete" [("file_path", to_string_lossy (gd_path spec))].

Definition delete_workspace_file (target : string) : result bool string * list Effect :=
  match @fs_symlink_metadata fs' target with
  | Err _ => (Err "guarded file delete target is missing", [])
  | Ok _ =>
      if negb (regular fs' target) then (Err "guarded file delete target is not a regular file", [])
      else
        let effect := DeleteFile target in
        (match os_fault effect with
         | None => Ok true
         | Some FailTask => Err "guarded file delete task failed"
         | Some _ => Err "failed to delete guarded file target"
         end, [effect])
  end.

Definition run_guarded_file_delete (fw : AgentFirewall) (spec : GuardedFileDeleteSpec) : Guarded :=
  match validate_file_operation_identity (ca_session (gd_caller spec)) (ca_agent (gd_caller spec)) "delete" with
  | Err e => refused fw e
  | Ok _ =>
      when_allowed fw "guarded file delete" (delete_event spec) (fun outcome _ =>
        match (let? workspace := validate_workspace_path fs (gd_workspace spec) in
               resolve_workspace_target fs workspace (gd_path spec)) with
        | Err e => (Err e, [])
        | Ok target =>
            let '(r, effects) := delete_workspace_file target in
            (let? deleted := r in Ok (DeleteResult (decision_of outcome) deleted), effects)
        end)
  end.

Definition rename_event (spec : GuardedFileRenameSpec) : AgentEvent :=
  tool_event (gr_caller spec) "Rename" [("from", to_string_lossy (gr_from spec)); ("to", to_string_lossy (gr_to spec))].

Definition rename_workspace_file (from to : string) : result bool string * list Effect :=
  match @fs_symlink_metadata fs' from with
  | Err _ => (Err "guarded file rename source is missing", [])
  | Ok _ =>
      if negb (regular fs' from) then (Err "guarded file rename source is not a regular file", [])
      else if is_ok (@fs_symlink_metadata fs' to) && negb (regular fs' to) then
        (Err "guarded file rename destination is not a regular file", [])
      else
        let effect := RenameFile from to in
        (match os_fault effect with
         | None => Ok true
         | Some FailTask => Err "guarded file rename task failed"
         | Some _ => Err "failed to rename guarded file target"
         end, [effect])
  end.

Definition run_guarded_file_rename (fw : AgentFirewall) (spec : GuardedFileRenameSpec) : Guarded :=
  match validate_file_operation_identity (ca_session (gr_caller spec)) (ca_agent (gr_caller spec)) "rename" with
  | Err e => refused fw e
  | Ok _ =>
      when_allowed fw "guarded file rename" (rename_event spec) (fun outcome _ =>
        match (let? workspace := validate_workspace_path fs (gr_workspace spec) in
               let? from := resolve_workspace_target fs workspace (gr_from spec) in
               let? to := resolve_workspace_target fs workspace (gr_to spec) in
               Ok (from, to)) with
        | Err e => (Err e, [])
        | Ok (from, to) =>
            let '(r, effects) := rename_workspace_file from to in
            (let? renamed := r in Ok (RenameResult (decision_of outcome) renamed), effects)
        end)
  end.

Definition fetch_event (spec : GuardedNetworkFetchSpec) : AgentEvent :=
  tool_event (gf_caller spec) "WebFetch" [("url", gf_url spec)].

(** The hosts the policy saw are exactly the host of the URL. *)
Definition host_represented (host : string) (hosts : list string) : bool :=
  (length hosts =? 1)%nat && existsb (fun candidate => Str.eq_ignore_ascii_case candidate host) hosts.

(** The request and its answer. *)
Definition fetch_through (outcome : AgentOutcome) (spec : GuardedNetworkFetchSpec) (host : string)
    (url proxy_url : FetchUrl) : result GuardedResult string * list Effect :=
  match client_fault proxy_url with
  | Some BadProxy => (Err "guarded egress proxy configuration is invalid", [])
  | Some BadClient => (Err "guarded network client", [])
  | None =>
    let effect := Fetch url proxy_url (gf_timeout spec) in
    (match http effect with
     | None => Err "guarded network request failed"
     | Some response =>
         bail_if (match fr_content_length response with Some n => gf_max_response_bytes spec <? n | None => false end)
           with "guarded network response exceeds the configured limit" in
         let? body := read_body (Z.to_nat (gf_max_response_bytes spec)) (fr_chunks response) EmptyString in
         let? text := ok_or (from_utf8 body.1) "guarded network response is not UTF-8" in
         Ok (FetchResult (decision_of outcome) host (fr_status response) text body.2)
     end, [effect])
  end.

Definition run_guarded_network_fetch (fw : AgentFirewall) (spec : GuardedNetworkFetchSpec) : Guarded :=
  match (let? _u := validate_network_identity (ca_session (gf_caller spec)) (ca_agent (gf_caller spec)) in
         let? url := validate_fetch_url url_parse (gf_url spec) in
         let? proxy_url := validate_proxy_url url_parse (gf_proxy_url spec) in
         let? _u := validate_network_limits (gf_timeout spec) (gf_max_response_bytes spec) in
         Ok (url, proxy_url)) with
  | Err e => refused fw e
  | Ok (url, proxy_url) =>
      when_allowed fw "guarded network fetch" (fetch_event spec) (fun outcome fw =>
        match fu_host_str url with
        | None => (Err "guarded network URL has no host", [])
        | Some host =>
            let host := Str.to_ascii_lowercase host in
            if negb (host_represented host (ao_egress_hosts outcome)) then
              (Err "guarded network URL host was not represented by the policy extractor", [])
            else if negb (egress_hosts_allowlisted fw (ao_egress_hosts outcome)) then
              (Err "guarded network URL host is not on the egress allowlist", [])
            else fetch_through outcome spec host url proxy_url
        end)
  end.

(** The operations of this module. *)
Inductive GuardedOp :=
| Shell (spec : GuardedShellSpec) | FileWrite (spec : GuardedFileWriteSpec) | FileDelete (spec : GuardedFileDeleteSpec)
| FileRename (spec : GuardedFileRenameSpec) | NetworkFetch (spec : GuardedNetworkFetchSpec).

Definition run_guarded (fw : AgentFirewall) (op : GuardedOp) : Guarded :=
  match op with
  | Shell spec => run_guarded_shell fw spec
  | FileWrite spec => run_guarded_file_write fw spec
  | FileDelete spec => run_guarded_file_delete fw spec
  | FileRename spec => run_guarded_file_rename fw spec
  | NetworkFetch spec => run_guarded_network_fetch fw spec
  end.

(** The call the firewall is asked about: the operation with its paths as text. *)
Definition op_event (op : GuardedOp) : AgentEvent :=
  match op with
  | Shell spec => shell_event spec
  | FileWrite spec => write_event spec
  | FileDelete spec => delete_event spec
  | FileRename spec => rename_event spec
  | NetworkFetch spec => fetch_event spec
  end.
End guarded.

(** * What the guard promises *)

(** ** Bounded output *)

Definition concat_all (chunks : list string) : string := foldr String.append EmptyString chunks.

Lemma take_more (n : nat) (s t : string) : (Str.len s <= n)%nat -> Str.take n (s +:+ t) = s +:+ Str.take (n - Str.len s) t.
Proof.
  revert n. induction s as [|a s IH]; intros n Hn; [by rewrite Nat.sub_0_r|]. rewrite Str.len_cons in Hn.
  destruct n as [|n]; [lia|]. rewrite !Str.app_cons. cbn [Str.take]. rewrite IH by lia. by rewrite Str.len_cons.
Qed.

Lemma take_less (n : nat) (s t : string) : (n <= Str.len s)%nat -> Str.take n (s +:+ t) = Str.take n s.
Proof.
  revert s. induction n as [|n IH]; intros s Hn; [by destruct s, t|]. destruct s as [|a s]; [cbn in Hn; lia|].
  rewrite Str.len_cons in Hn. rewrite Str.app_cons. cbn [Str.take]. rewrite IH by lia. done.
Qed.

(** What is read with a limit is the beginning of the output, and it is marked when something is missing. *)
Lemma read_capped_spec limit chunks out truncated :
  (Str.len out <= limit)%nat -> Forall (fun c => c <> EmptyString) chunks ->
  read_capped limit chunks out truncated =
    (Str.take limit (out +:+ concat_all chunks), truncated || (limit <? Str.len (out +:+ concat_all chunks))%nat).
Proof.
  intros Hlen HF. revert out truncated Hlen.
  induction HF as [|chunk chunks Hne _ IH]; intros out truncated Hlen; cbn [read_capped concat_all foldr].
  - rewrite Str.app_nil_r. rewrite (proj2 (Nat.ltb_ge _ _) Hlen), orb_false_r. f_equal.
    rewrite <- (Str.app_nil_r out) at 2. rewrite take_more by done.
    by destruct (limit - Str.len out)%nat; rewrite ?Str.app_nil_r.
  - fold (concat_all chunks). set (rest := concat_all chunks).
    assert (Str.is_empty chunk = false) as -> by by destruct chunk.
    destruct (Nat.ltb_spec (Str.len out) limit) as [Hlt|Hge].
    + destruct (Nat.le_gt_cases (Str.len chunk) (limit - Str.len out)) as [Hfit|Hover].
      * rewrite Nat.min_r by done. rewrite Str.take_all. rewrite IH by (rewrite Str.len_app; lia).
        rewrite Nat.ltb_irrefl, orb_false_r, !Str.app_assoc. done.
      * rewrite Nat.min_l by lia. rewrite IH by (rewrite Str.len_app, Str.len_take; lia).
        rewrite (proj2 (Nat.ltb_lt _ _) Hover), orb_true_r. cbn [orb].
        rewrite take_less by (rewrite Str.len_app, Str.len_take; lia).
        rewrite (take_more limit out (chunk +:+ rest)) by lia. rewrite (take_less _ chunk rest) by lia.
        rewrite take_more by lia. f_equal; [|rewrite (proj2 (Nat.ltb_lt _ _)); [by rewrite orb_true_r|rewrite !Str.len_app; lia]].
        f_equal. rewrite <- (Str.app_nil_r (Str.take _ chunk)) at 1. rewrite take_more by (rewrite Str.len_take; lia).
        rewrite Str.len_take. replace (limit - Str.len out - _)%nat with 0%nat by lia. by rewrite Str.app_nil_r.
    + assert (Str.len out = limit) as Heq by lia. rewrite IH by done. subst limit. rewrite !Str.take_app. f_equal. cbn [orb].
      symmetry. apply orb_true_intro. right. apply Nat.ltb_lt. rewrite !Str.len_app. destruct chunk; [done|].
      rewrite Str.len_cons. lia.
Qed.

Lemma read_capped_len limit chunks out truncated :
  (Str.len out <= limit)%nat -> (Str.len (read_capped limit chunks out truncated).1 <= limit)%nat.
Proof.
  revert out truncated. induction chunks as [|chunk chunks IH]; intros out truncated Hlen; cbn [read_capped]; [done|].
  destruct (Str.is_empty chunk); [done|]. destruct (Nat.ltb_spec (Str.len out) limit); apply IH; [|done].
  rewrite Str.len_app, Str.len_take. lia.
Qed.

(** The body of an answer stays within the limit, and one marked complete is the whole body. *)
Lemma read_body_spec limit chunks out body truncated :
  (Str.len out <= limit)%nat -> read_body limit chunks out = Ok (body, truncated) ->
  (Str.len body <= limit)%nat /\
  (truncated = false -> exists pieces, chunks = Some <$> pieces /\ body = out +:+ concat_all pieces).
Proof.
  revert out. induction chunks as [|[chunk|] chunks IH]; intros out Hlen; cbn [read_body]; [| |done].
  - intros [= <- <-]. split; [done|]. intros _. exists []. by rewrite Str.app_nil_r.
  - destruct (Nat.ltb_spec (limit - Str.len out) (Str.len chunk)) as [Hlt|Hge].
    + intros [= <- <-]. split; [|done]. rewrite Str.len_app, Str.len_take. lia.
    + intros Hr. destruct (IH (out +:+ chunk) ltac:(rewrite Str.len_app; lia) Hr) as [Hb Hall]. split; [done|].
      intros Ht. destruct (Hall Ht) as (pieces & -> & ->). exists (chunk :: pieces). split; [done|].
      cbn [concat_all foldr]. by rewrite Str.app_assoc.
Qed.

(** ** Confinement *)

(** A name joined to an absolute path is its last component. *)
Lemma components_join (p name : string) :
  is_absolute p = true -> Str.forallb (fun a => negb (is_slash a)) name = true ->
  components (path_join p name) = (components p ++ segment false name)%list.
Proof.
  intros Hp Hs. unfold path_join.
  assert (is_absolute name = false) as ->.
  { unfold is_absolute. rewrite starts_with_char. destruct name; [done|]. cbn in Hs.
    by apply andb_prop in Hs as [?%negb_true_iff _]. }
  assert (Str.is_empty p = false) as -> by by destruct p.
  assert (forall q r, is_absolute (q +:+ String "/" r) = true -> Str.forallb (fun a => negb (is_slash a)) r = true ->
    components (q +:+ String "/" r) = RootDir :: mjoin (segment false <$> Str.split is_slash q) ++ segment false r)%list as Hmain.
  { intros q r Ha Hr. unfold components. rewrite Ha. rewrite split_app by done. rewrite (split_whole _ _ Hr).
    rewrite fmap_app, join_app. cbn. by rewrite app_nil_r. }
  cbn [orb]. destruct (Str.ends_with "/" p) eqn:E.
  - apply Str.ends_with_spec in E as [q ->]. rewrite Str.app_assoc. change ("/" +:+ name) with (String "/" name).
    rewrite (Hmain q EmptyString Hp eq_refl), app_nil_r. rewrite Hmain; [done| |done].
    revert Hp. unfold is_absolute. rewrite !starts_with_char. by destruct q.
  - change ("/" +:+ name) with (String "/" name). rewrite Hmain; [|by apply starts_with_slash|done].
    unfold components at 1. by rewrite Hp.
Qed.

Section governed.
Context `{UnicodeTables} `{RegexEngine} `{EntropyPlatform} `{LiteralIter}.
Variables (linux : bool) (fs fs' : FileSystem).
Context {fs_laws : @FileSystemLaws fs}.
Variable url_parse : string -> option FetchUrl.
Variable child : Effect -> ChildRun.
Variable os_fault : Effect -> option IoFault.
Variable http : Effect -> option FetchResponse.
Variable client_fault : FetchUrl -> option ClientFault.

Abbreviation run_op := (run_guarded linux fs fs' url_parse child os_fault http client_fault).

(** [root] is the workspace: canonical, a directory, and not the root of the disk. *)
Definition workspace_root (workspace root : string) : Prop :=
  @fs_canonicalize fs workspace = Some root /\ @fs_is_dir fs root = true /\ path_parent root <> None.

(** The file an operation on [requested] may touch: below the workspace, in a directory without
    links and with nothing to go up by, and neither a link nor anything but a file when it was looked at. *)
Definition confined (workspace requested target : string) : Prop :=
  (ParentDir ∉ components requested) /\
  exists root dir name, workspace_root workspace root /\ (exists p, @fs_canonicalize fs p = Some dir) /\
    path_file_name (if is_absolute requested then requested else path_join root requested) = Some name /\
    components root `prefix_of` components dir /\ components target = (components dir ++ [Normal name])%list /\
    (ParentDir ∉ components target) /\
    forall kind, @fs_symlink_metadata fs target = Ok kind -> kind = FkFile.

Lemma workspace_root_of (workspace root : string) :
  validate_workspace_path fs workspace = Ok root -> workspace_root workspace root.
Proof.
  unfold validate_workspace_path. intros Hv. ok_inv Hv. unfold ok_or in *. boolp.
  destruct (fs_canonicalize workspace) as [?|] eqn:E; simplify_eq. done.
Qed.

Lemma segment_normal (p name : string) : Normal name ∈ components p -> segment false name = [Normal name].
Proof.
  assert (forall first s, Normal name ∈ segment first s -> segment false name = [Normal name]) as Hseg.
  { intros first s. unfold segment at 1. destruct (Str.is_empty s) eqn:E; [set_solver|].
    repeat case_bool_decide; [destruct first| |]; rewrite ?list_elem_of_singleton; try done;
      [by intros ?%elem_of_nil|]. intros [= ->]. unfold segment. rewrite E. by repeat case_bool_decide. }
  assert (forall segs, Normal name ∈ mjoin (segment false <$> segs) -> segment false name = [Normal name]) as Hsegs.
  { induction segs as [|s segs IH]; [set_solver|]. cbn. rewrite elem_of_app. intros [?%Hseg|?%IH]; done. }
  unfold components. destruct (is_absolute p).
  - rewrite elem_of_cons. intros [?|?%Hsegs]; done.
  - destruct (Str.split is_slash p); [set_solver|]. rewrite elem_of_app. intros [?%Hseg|?%Hsegs]; done.
Qed.

Lemma target_confined (workspace root requested target : string) :
  workspace_root workspace root -> resolve_workspace_target fs root requested = Ok target ->
  confined workspace requested target.
Proof.
  intros Hroot. unfold resolve_workspace_target. intros Hr. ok_inv Hr. rename a into name, a0 into up, a1 into dir.
  unfold ok_or in *. destruct (path_file_name _) as [?|] eqn:Hname in R; simplify_eq.
  destruct (fs_canonicalize up) as [?|] eqn:Hdir; simplify_eq. unfold starts_with_path in G1. boolp.
  assert (Normal name ∈ components (if is_absolute requested then requested else path_join root requested)) as Hin.
  { unfold path_file_name in Hname. destruct (last _) as [[]|] eqn:Hl; simplify_eq. by eapply last_Some_elem_of. }
  destruct (name_in_split _ _ Hin) as [Hsplit%split_no_slash Hnotup].
  pose proof (canonicalize_normal _ _ Hdir) as [Habs Hnorm].
  assert (target = path_join dir name /\ forall kind, @fs_symlink_metadata fs target = Ok kind -> kind = FkFile)
    as [Ht Hkind].
  { destruct (fs_symlink_metadata _) as [kind|] eqn:Hm in Hr; ok_inv Hr; simplify_eq; boolp; split; congruence. }
  split; [done|]. exists root, dir, name. split_and!; [done|by exists up|done|done| | |done].
  - rewrite Ht, components_join by done. by erewrite segment_normal.
  - rewrite Ht. by apply join_no_parent.
Qed.

(** ** The operations *)

(** What the rest of an operation may do once the firewall allowed it with [o]. *)
Definition permitted (o : AgentOutcome) (fw : AgentFirewall) (op : GuardedOp) (e : Effect) : Prop :=
  match op, e with
  | Shell spec, Spawn program args timeout =>
      linux = true /\ program = "bwrap" /\ gs_network spec = NetworkDeny /\
      timeout = gs_timeout spec /\ 0 < timeout <= seconds 600 /\
      exists root, workspace_root (gs_workspace spec) root /\
        args = bwrap_args fs' root "sh" ["-c"; gs_command spec]
  | FileWrite spec, WriteFile target content =>
      content = gw_content spec /\ bytes content <= MAX_FILE_WRITE_BYTES /\
      confined (gw_workspace spec) (gw_path spec) target
  | FileDelete spec, DeleteFile target =>
      confined (gd_workspace spec) (gd_path spec) target /\ regular fs' target = true
  | FileRename spec, RenameFile from to =>
      confined (gr_workspace spec) (gr_from spec) from /\ confined (gr_workspace spec) (gr_to spec) to /\
      regular fs' from = true /\ (forall kind, @fs_symlink_metadata fs' to = Ok kind -> kind = FkFile)
  | NetworkFetch spec, Fetch url proxy timeout =>
      timeout = gf_timeout spec /\ 0 < timeout <= seconds 120 /\
      url_parse (gf_url spec) = Some url /\ url_parse (gf_proxy_url spec) = Some proxy /\
      (fu_username url = EmptyString /\ fu_password url = None) /\
      (exists through, fu_host_str proxy = Some through /\ scheme_ok proxy through = true) /\
      exists host seen, fu_host_str url = Some host /\ scheme_ok url host = true /\
        ao_egress_hosts o = [seen] /\ Str.eq_ignore_ascii_case seen (Str.to_ascii_lowercase host) = true /\
        is_allowed seen (egress_allowlist (af_policy fw)) = true
  | _, _ => False
  end.

(** A success reports the decision, and output within its limit. *)
Definition reported (o : AgentOutcome) (op : GuardedOp) (v : GuardedResult) : Prop :=
  match op, v with
  | Shell spec, ShellResult d execution =>
      d = decision_of o /\
      exists out err, br_stdout execution = Utf8.lossy out /\ br_stderr execution = Utf8.lossy err /\
        bytes out <= gs_max_output_bytes spec /\ bytes err <= gs_max_output_bytes spec
  | FileDelete _, DeleteResult d done | FileRename _, RenameResult d done => d = decision_of o /\ done = true
  | FileWrite spec, WriteResult d n => d = decision_of o /\ n = Str.len (gw_content spec)
  | NetworkFetch spec, FetchResult d _ _ body _ => d = decision_of o /\ bytes body <= gf_max_response_bytes spec
  | _, _ => False
  end.

(** One permitted effect, or a failure without any. *)
Definition obeys (o : AgentOutcome) (fw : AgentFirewall) (op : GuardedOp) (k : result GuardedResult string * list Effect) : Prop :=
  (is_ok k.1 = false /\ k.2 = []) \/
  (exists e, k.2 = [e] /\ permitted o fw op e /\ forall v, k.1 = Ok v -> reported o op v).

Definition governed (fw : AgentFirewall) (op : GuardedOp) (g : Guarded) : Prop :=
  let '(o, fw1) := inspect fw (op_event op) in
  (is_ok g.1.1 = false /\ (g.1.2 = fw \/ g.1.2 = fw1) /\ g.2 = []) \/
  (ao_verdict o = Allow /\ g.1.2 = fw1 /\ obeys o fw1 op (g.1.1, g.2)).

Lemma governed_refused fw op error : governed fw op (refused fw error).
Proof. unfold governed. destruct (inspect fw (op_event op)) as [o fw1]. left. cbn. auto. Qed.

Lemma governed_allowed fw op what k :
  (forall o fw1, inspect fw (op_event op) = (o, fw1) -> ao_verdict o = Allow -> obeys o fw1 op (k o fw1)) ->
  governed fw op (when_allowed fw what (op_event op) k).
Proof.
  intros Hk. unfold governed, when_allowed. destruct (inspect fw (op_event op)) as [o fw1] eqn:Hi.
  unfold require_allow. case_bool_decide as Hv; [|left; cbn; auto].
  right. specialize (Hk o fw1 eq_refl Hv). destruct (k o fw1) as [r effects]. done.
Qed.

Lemma inspected_command spec : event_command (shell_event spec) = Ok (gs_command spec).
Proof. reflexivity. Qed.

(** What a child printed is kept up to the limit. *)
Lemma run_linux_output spec root execution :
  (run_linux fs' child spec root).1 = Ok execution -> 0 < bx_max_output_bytes spec ->
  exists out err, br_stdout execution = Utf8.lossy out /\ br_stderr execution = Utf8.lossy err /\
    bytes out <= bx_max_output_bytes spec /\ bytes err <= bx_max_output_bytes spec.
Proof.
  assert (forall chunks, bytes (read_capped (Z.to_nat (bx_max_output_bytes spec)) chunks EmptyString false).1
    <= Z.of_nat (Z.to_nat (bx_max_output_bytes spec))) as Hcap.
  { intros chunks. apply Nat2Z.inj_le, read_capped_len. cbn. lia. }
  unfold run_linux. cbn [fst]. intros Hr Hpos. rewrite Z2Nat.id in Hcap by lia. destruct (child _); simplify_eq.
  - exists EmptyString, EmptyString. split_and!; [done|done| |]; change (bytes EmptyString) with 0; lia.
  - eexists _, _. split_and!; [reflexivity|reflexivity|apply Hcap|apply Hcap].
Qed.

Lemma governed_shell fw spec : governed fw (Shell spec) (run_op fw (Shell spec)).
Proof.
  cbn [run_guarded]. unfold run_guarded_shell.
  repeat match goal with |- governed _ _ (if ?c then _ else _) => destruct c; [apply governed_refused|] end.
  apply governed_allowed. intros o fw1 _ _. rewrite inspected_command.
  unfold sandbox_run. destruct (validate _ _) as [root|] eqn:Hv; [|by left]. destruct linux eqn:Hl; [|by left].
  right. eexists. split; [done|]. unfold validate in Hv. ok_inv Hv. boolp. cbn in *.
  destruct (gs_network spec) as [|[]] eqn:Hn; simplify_eq. split.
  - split_and!; [done..|lia|lia|]. eexists. split; [by apply workspace_root_of|done].
  - cbn [fst]. intros v Hr. ok_inv Hr. subst v. split; [done|].
    match goal with R : _ = Ok ?x |- _ => apply (run_linux_output (mkSandboxSpec "sh" ["-c"; gs_command spec]
      (gs_workspace spec) NetworkDeny (gs_timeout spec) (gs_max_output_bytes spec)) root x) end; [done|cbn [bx_max_output_bytes]; lia].
Qed.

Lemma governed_write fw spec : governed fw (FileWrite spec) (run_op fw (FileWrite spec)).
Proof.
  cbn [run_guarded]. unfold run_guarded_file_write, validate_file_operation_identity.
  destruct (identity_checks _ _ _); [|apply governed_refused].
  destruct (_ <? _) eqn:Hb; [apply governed_refused|]. boolp. apply governed_allowed. intros o fw1 _ _.
  destruct (validate_workspace_path _ _) as [root|] eqn:Hw; [|by left].
  destruct (resolve_workspace_target _ _ _) as [target|] eqn:Ht; [|by left]. right. eexists. split; [done|].
  split; [split_and!; [done..|]; by eapply target_confined, Ht; apply workspace_root_of|].
  intros v. cbn. destruct (os_fault _) as [[]|]; try done. by intros [= <-].
Qed.

Lemma governed_delete fw spec : governed fw (FileDelete spec) (run_op fw (FileDelete spec)).
Proof.
  cbn [run_guarded]. unfold run_guarded_file_delete, validate_file_operation_identity.
  destruct (identity_checks _ _ _); [|apply governed_refused]. apply governed_allowed. intros o fw1 _ _.
  destruct (validate_workspace_path _ _) as [root|] eqn:Hw; [|by left].
  destruct (resolve_workspace_target _ _ _) as [target|] eqn:Ht; [|by left].
  unfold delete_workspace_file. destruct (@fs_symlink_metadata fs' target); [|by left].
  destruct (regular fs' target) eqn:Hreg; cbn [negb]; [|by left]. right. eexists. split; [done|].
  split; [split; [by eapply target_confined, Ht; apply workspace_root_of|done]|].
  intros v. cbn. destruct (os_fault _) as [[]|]; try done. by intros [= <-].
Qed.

Lemma governed_rename fw spec : governed fw (FileRename spec) (run_op fw (FileRename spec)).
Proof.
  cbn [run_guarded]. unfold run_guarded_file_rename, validate_file_operation_identity.
  destruct (identity_checks _ _ _); [|apply governed_refused]. apply governed_allowed. intros o fw1 _ _.
  destruct (validate_workspace_path _ _) as [root|] eqn:Hw; [|by left]. apply workspace_root_of in Hw.
  destruct (resolve_workspace_target _ _ (gr_from spec)) as [from|] eqn:Hfrom; [|by left].
  destruct (resolve_workspace_target _ _ (gr_to spec)) as [to|] eqn:Hto; [|by left].
  unfold rename_workspace_file. destruct (@fs_symlink_metadata fs' from); [|by left].
  destruct (regular fs' from) eqn:Hreg; cbn [negb]; [|by left].
  destruct (_ && _) eqn:Hdest; [by left|]. right. eexists. split; [done|]. split.
  - split_and!; [by eapply target_confined, Hfrom|by eapply target_confined, Hto|done|].
    intros kind Hk. rewrite Hk in Hdest. unfold regular in Hdest. rewrite Hk in Hdest. cbn in Hdest. boolp. congruence.
  - intros v. cbn. destruct (os_fault _) as [[]|]; try done. by intros [= <-].
Qed.

Lemma host_represented_spec (host : string) (hosts : list string) :
  host_represented host hosts = true -> exists seen, hosts = [seen] /\ Str.eq_ignore_ascii_case seen host = true.
Proof.
  unfold host_represented. destruct hosts as [|seen [|]]; [done| |done]. cbn. rewrite orb_false_r. eauto.
Qed.

Lemma fetch_url_ok raw url : validate_fetch_url url_parse raw = Ok url ->
  url_parse raw = Some url /\ (fu_username url = EmptyString /\ fu_password url = None) /\
  exists host, fu_host_str url = Some host /\ scheme_ok url host = true.
Proof.
  unfold validate_fetch_url. intros Hv. ok_inv Hv. unfold ok_or in *. simplify_eq. boolp.
  destruct (url_parse raw); simplify_eq. destruct (fu_host_str url) as [host|] eqn:Hh; simplify_eq.
  destruct (fu_username url), (fu_password url); try done. eauto 10.
Qed.

Lemma proxy_url_ok raw url : validate_proxy_url url_parse raw = Ok url ->
  url_parse raw = Some url /\ exists host, fu_host_str url = Some host /\ scheme_ok url host = true.
Proof.
  unfold validate_proxy_url. intros Hv. ok_inv Hv. unfold ok_or in *. simplify_eq. boolp.
  destruct (url_parse raw); simplify_eq. destruct (fu_host_str url) as [host|] eqn:Hh; simplify_eq. eauto.
Qed.

Lemma fetched_body o spec host response v :
  (bail_if (match fr_content_length response with Some n => gf_max_response_bytes spec <? n | None => false end)
     with "guarded network response exceeds the configured limit" in
   let? body := read_body (Z.to_nat (gf_max_response_bytes spec)) (fr_chunks response) EmptyString in
   let? text := ok_or (from_utf8 body.1) "guarded network response is not UTF-8" in
   Ok (FetchResult (decision_of o) host (fr_status response) text body.2)) = Ok v ->
  0 < gf_max_response_bytes spec -> reported o (NetworkFetch spec) v.
Proof.
  intros Hv Hpos. ok_inv Hv. subst v. split; [done|]. unfold ok_or in R0.
  destruct (from_utf8 a.1) as [t|] eqn:Ht; simplify_eq. unfold from_utf8 in Ht. case_match; simplify_eq.
  destruct a as [body truncated]. apply read_body_spec in R as [Hb _]; [|cbn; lia].
  unfold bytes. cbn [fst]. lia.
Qed.

Lemma governed_fetch fw spec : governed fw (NetworkFetch spec) (run_op fw (NetworkFetch spec)).
Proof.
  cbn [run_guarded]. unfold run_guarded_network_fetch.
  destruct (validate_network_identity _ _); [|apply governed_refused].
  destruct (validate_fetch_url _ _) as [url|] eqn:Hu; [|apply governed_refused].
  destruct (validate_proxy_url _ _) as [proxy|] eqn:Hp; [|apply governed_refused].
  destruct (validate_network_limits _ _) as [|] eqn:Hl; [|apply governed_refused].
  apply fetch_url_ok in Hu as (Hurl & Hinfo & host & Hhost & Hscheme). apply proxy_url_ok in Hp as (Hproxy & Hthrough).
  unfold validate_network_limits in Hl. ok_inv Hl. boolp.
  apply governed_allowed. intros o fw1 _ _. rewrite Hhost.
  destruct (host_represented _ _) eqn:Hrep; cbn [negb]; [|by left].
  destruct (egress_hosts_allowlisted _ _) eqn:Hallow; cbn [negb]; [|by left].
  apply host_represented_spec in Hrep as (seen & Hseen & Heq).
  unfold egress_hosts_allowlisted in Hallow. rewrite Hseen in Hallow. cbn in Hallow. rewrite andb_true_r in Hallow.
  unfold fetch_through. destruct (client_fault proxy) as [[]|]; [by left|by left|].
  right. eexists. split; [done|]. split.
  { destruct Hinfo. split_and!; eauto 10. }
  intros v. cbn [fst]. destruct (http _) as [response|]; [|done]. intros Hv. eapply fetched_body; [exact Hv|lia].
Qed.

(** C5. Guarded execution is governed by the firewall: whatever operation a tool asks for, either
    nothing is done outside, or exactly one thing is, which the firewall allowed when it inspected that
    operation, its paths read as UTF-8 (a path that is UTF-8 is inspected as it is; in any other, what is not
    UTF-8 is replaced). A command is the inspected one, run by [bwrap] without a network, with one
    writable directory on its command line, the text of the canonical workspace, which is not the root,
    for at most ten minutes, its output kept up to the limit; a file written, deleted or renamed is a regular file or a new one below the canonical workspace, written with the inspected content; a request goes to the host the
    policy saw, which is on the egress allowlist, through the proxy. Every operation that succeeds did so. *)
Theorem guarded_execution_governed (fw : AgentFirewall) (op : GuardedOp) : governed fw op (run_op fw op).
Proof.
  destruct op; [apply governed_shell|apply governed_write|apply governed_delete|apply governed_rename|apply governed_fetch].
Qed.

(** The kill chain is cut at the executor: under the shipped policy, after an untrusted result that carried a
    literal entered the session, a guarded operation whose arguments carry the literal and which is
    destructive or changes privileges runs nothing, changes no file and sends nothing, whatever the host is like. *)
Theorem guarded_kill_chain_cut `{!LiteralIterLaws} (cap : nat) (before : list AgentEvent)
    (page : AgentEvent) (later : list AgentEvent) (op : GuardedOp)
    (t content : string) (src : Provenance) (tool : string) (args : Value) (lit text : string) :
  let fw := inspect_all (agent_firewall_new default_policy cap) before in
  ev_kind page = ToolResult t content src -> trust src = Untrusted -> lit ∈ literals content ->
  ev_session page = ev_session (op_event op) ->
  (forall e, e ∈ later -> ev_session e = ev_session (op_event op) -> ev_kind e <> SessionEnd) ->
  (lit_order (af_taint fw) (ev_session (op_event op)) + length (literals content)
    + literal_budget (ev_session (op_event op)) (later ≫= taint_ops) <= tt_cap (af_taint fw))%nat ->
  ev_kind (op_event op) = ToolCall tool args -> leaf text args -> text <> EmptyString ->
  Str.contains lit (to_lowercase text) = true ->
  (classify tool args = Destructive \/ classify tool args = PrivilegeChanging) ->
  (run_op (inspect_all fw (page :: later)) op).2 = [] /\
  is_ok (run_op (inspect_all fw (page :: later)) op).1.1 = false.
Proof.
  intros fw Hpage Hu Hlit Hs Hend Hbudget Hk Hleaf Hne Hct Hclass.
  pose proof (kill_chain_denied cap before page later (op_event op) t content src tool args lit text
    Hpage Hu Hlit Hs Hend Hbudget Hk Hleaf Hne Hct Hclass) as Hdeny. fold fw in Hdeny.
  assert (governed (inspect_all fw (page :: later)) op (run_op (inspect_all fw (page :: later)) op)) as Hg
    by (destruct op; [apply governed_shell|apply governed_write|apply governed_delete|apply governed_rename|apply governed_fetch]).
  unfold governed in Hg. destruct (inspect _ (op_event op)) as [o fw1]. cbn in Hdeny.
  destruct Hg as [(Hok & _ & He)|(Hallow & _)]; [done|congruence].
Qed.
End governed.

(** ** Witnesses *)

Definition demo_caller : Caller := mkCaller "s" "main" 9.
Definition demo_fetch_url (text : string) : option FetchUrl :=
  if Str.starts_with "https://" text then Some (mkFetchUrl "https" EmptyString None (Some (Str.drop 8 text)) "/" None None)
  else None.
Definition demo_guarded : AgentFirewall -> GuardedOp -> Guarded :=
  @run_guarded ascii_tables demo_engine demo_iter true demo_fs demo_fs demo_fetch_url
    (fun _ => ChildDone ["12"; "345"] [] (Some 0)) (fun _ => None)
    (fun _ => Some (mkFetchResponse None 200 [Some "body"])) (fun _ => None).
Definition demo_shell (command : string) : GuardedOp :=
  Shell (mkShellSpec demo_caller command "/ws" NetworkDeny (seconds 5) 4).
Definition demo_write (path : string) : GuardedOp := FileWrite (mkWriteSpec demo_caller path "new" "/ws").
Definition demo_open_policy : AgentFirewall :=
  @agent_firewall_new demo_engine demo_entropy (mkAgentPolicySet [] ["docs.example"] Allow) 10.

Example demo_operations :
  ((fun op => (demo_guarded demo_open_policy op).2)
     <$> [demo_write "b.txt"; demo_write "link"; demo_write "../b.txt"; demo_write "/b.txt";
          FileDelete (mkDeleteSpec demo_caller "a.txt" "/ws"); FileRename (mkRenameSpec demo_caller "a.txt" "link/c" "/ws")])
  = [[WriteFile "/ws/b.txt" "new"]; []; []; []; [DeleteFile "/ws/a.txt"]; [RenameFile "/ws/a.txt" "/ws/real/c"]].
Proof. vm_compute. reflexivity. Qed.

(** Four bytes of the output are kept, and the cut is reported. *)
Example demo_output :
  (demo_guarded demo_open_policy (demo_shell "echo hi")).1.1 =
  Ok (ShellResult (decision_of (@inspect ascii_tables demo_engine demo_iter demo_open_policy (op_event (demo_shell "echo hi"))).1)
        (mkSandboxResult (Some 0) "1234" EmptyString true false false)).
Proof. vm_compute. reflexivity. Qed.

Lemma guarded_execution_governed_witness :
  (demo_guarded demo_open_policy (demo_write "b.txt")).2 = [WriteFile "/ws/b.txt" "new"] /\
  @confined demo_fs "/ws" "b.txt" "/ws/b.txt".
Proof.
  assert ((demo_guarded demo_open_policy (demo_write "b.txt")).2 = [WriteFile "/ws/b.txt" "new"]) as He
    by (vm_compute; reflexivity).
  split; [exact He|].
  pose proof (@guarded_execution_governed ascii_tables demo_engine demo_iter true demo_fs demo_fs demo_fs_laws
    demo_fetch_url (fun _ => ChildDone ["12"; "345"] [] (Some 0)) (fun _ => None)
    (fun _ => Some (mkFetchResponse None 200 [Some "body"])) (fun _ => None) demo_open_policy (demo_write "b.txt")) as Hg.
  change (run_guarded _ _ _ _ _ _ _ _ _ _) with (demo_guarded demo_open_policy (demo_write "b.txt")) in Hg.
  unfold governed in Hg. destruct (inspect _ _) as [o fw1]. rewrite He in Hg.
  destruct Hg as [(_ & _ & [=])|(_ & _ & [[_ [=]]|(e & [= <-] & (_ & _ & Hc) & _)])]. exact Hc.
Defined.

Lemma guarded_kill_chain_cut_witness :
  (demo_guarded (demo_run (demo_run (demo_new 10) []) [demo_page 1 "a.example" "http://a.example/x"])
    (demo_shell "rm -rf ~ # http://A.example/x")).2 = [].
Proof.
  apply (@guarded_kill_chain_cut ascii_tables demo_engine demo_entropy demo_iter true demo_fs demo_fs demo_fs_laws
    demo_fetch_url (fun _ => ChildDone ["12"; "345"] [] (Some 0)) (fun _ => None)
    (fun _ => Some (mkFetchResponse None 200 [Some "body"])) (fun _ => None) demo_iter_laws 10 []
    (demo_page 1 "a.example" "http://a.example/x") [] (demo_shell "rm -rf ~ # http://A.example/x")
    "WebFetch" "http://a.example/x" (Network "a.example") "Bash"
    (JObject [("command", JString "rm -rf ~ # http://A.example/x")]) "http://a.example/x"
    "rm -rf ~ # http://A.example/x").
  - reflexivity.
  - reflexivity.
  - vm_compute. left.
  - reflexivity.
  - intros e []%elem_of_nil.
  - vm_compute. lia.
  - reflexivity.
  - apply (leaf_object _ "command" (JString "rm -rf ~ # http://A.example/x")); [left|constructor].
  - discriminate.
  - reflexivity.
  - left. reflexivity.
Defined.

(** What is inspected of a path that is not UTF-8 is another path. *)
Lemma inspected_path_differs :
  let path := "a" +:+ String "255" EmptyString in
  op_event (demo_write path) = op_event (demo_write ("a" +:+ Utf8.replacement)) /\
  path <> "a" +:+ Utf8.replacement /\
  (demo_guarded demo_open_policy (demo_write path)).2 = [WriteFile ("/ws/" +:+ path) "new"].
Proof. split; [reflexivity|]. split; [discriminate|]. vm_compute. reflexivity. Qed.

(** A body cut inside a character is no UTF-8: the answer is an error, not a shorter body. *)
Lemma cut_character_refused :
  (@fetch_through (fun _ => Some (mkFetchResponse None 200 [Some (String "195" (String "169" EmptyString))])) (fun _ => None)
     (@inspect ascii_tables demo_engine demo_iter demo_open_policy (op_event (demo_shell "x"))).1
     (mkFetchSpec demo_caller EmptyString EmptyString 5 1) "h"
     (mkFetchUrl "https" EmptyString None None EmptyString None None)
     (mkFetchUrl "https" EmptyString None None EmptyString None None)).1
  = Err "guarded network response is not UTF-8".
Proof. vm_compute. reflexivity. Qed.
