(* ===== verification/Capability.v ===== *)
(** Capability authorization of model-emitted tool calls
    ([crates/proxy/src/capability.rs]): explicit grants of tools, hosts and
    filesystem prefixes. *)
From S2P Require Import Prelude BTree Platform F32 Json Event Egress Engine HookMap ProxyEvents AgentScan.
From Stdlib Require Import String Ascii.
#[local] Abbreviation length := List.length.

Record CapabilityPolicy := mkCapabilityPolicy {
  cp_enabled : bool;
  cp_enforce : bool;
  cp_allowed_tools : list string;
  cp_allowed_hosts : list string;
  cp_allowed_path_prefixes : list string;
  cp_extra_path_keys : list string
}.

Record Violation := mkViolation { vi_tool : string; vi_reason : string }.

(** ** Paths in arguments *)

Definition PATH_KEYS : list string := [
  "path"; "paths"; "file"; "files"; "directory"; "directories"; "dir"; "dirs"; "cwd"; "workdir";
  "working_directory"; "filename"; "file_path"; "directory_path"; "target"; "target_path";
  "destination_path"; "input_path"; "output_path"; "input_file"; "output_file"; "root"; "root_dir";
  "workspace"; "workspace_path"; "repo_path"].

Definition is_quote (a : ascii) : bool := bool_decide (a = "034"%char) || bool_decide (a = "'"%char).
Definition unbackslash (a : ascii) : ascii := if decide (a = "\"%char) then "/"%char else a.

(** The text [normalize_path] works on. *)
Definition path_text (raw : string) : string :=
  let text := Str.map_bytes unbackslash
    (Str.trim_end_matches is_quote (Str.trim_start_matches is_quote (Str.trim raw))) in
  default text (Str.strip_prefix "file://" text).

(** The loop over the components: whether [..] occurred, and the components left.
    The stack is kept with its top first. *)
Definition path_step (st : bool * list string) (part : string) : bool * list string :=
  let '(traversal, parts) := st in
  if bool_decide (part = EmptyString) || bool_decide (part = ".") then st
  else if bool_decide (part = "..") then (true, tail parts)
  else (traversal, part :: parts).

Definition normalize_path (raw : string) : option (string * bool) :=
  let text := path_text raw in
  if Str.is_empty text then None
  else
    let '(traversal, parts) := fold_left path_step (Str.split_char "/" text) (false, []) in
    let joined := Str.join "/" (rev parts) in
    let normalized := if Str.starts_with "/" text then "/" +:+ joined else joined in
    if Str.is_empty normalized then None else Some (normalized, traversal).

Definition drive_like (p : string) : bool := bool_decide (Str.get 1 p = Some ":"%char).

Definition path_is_within (path prefix : string) : bool :=
  match normalize_path path, normalize_path prefix with
  | Some (path, path_traversal), Some (prefix, prefix_traversal) =>
      if path_traversal || prefix_traversal then false
      else if bool_decide (prefix = "/") then Str.starts_with "/" path
      else
        let '(path, prefix) :=
          if drive_like path || drive_like prefix
          then (Str.to_ascii_lowercase path, Str.to_ascii_lowercase prefix) else (path, prefix) in
        bool_decide (path = prefix) ||
        match Str.strip_prefix prefix path with
        | Some rest => Str.starts_with "/" rest
        | None => false
        end
  | _, _ => false
  end.

Fixpoint collect_strings (value : Value) : list string :=
  match value with
  | JString t => if Str.is_empty (Str.trim t) then [] else [t]
  | JArray items => (fix go (l : list Value) :=
      match l with [] => [] | x :: l' => collect_strings x ++ go l' end) items
  | _ => []
  end.

Section walk.
Variable extra_path_keys : list string.

Definition is_path_key (key : string) : bool :=
  bool_decide (Str.to_ascii_lowercase key ∈ PATH_KEYS)
  || existsb (fun extra => Str.eq_ignore_ascii_case extra key) extra_path_keys.

Fixpoint walk (value : Value) : list string :=
  match value with
  | JArray items => (fix go (l : list Value) :=
      match l with [] => [] | x :: l' => walk x ++ go l' end) items
  | JObject object => (fix go (m : list (string * Value)) :=
      match m with
      | [] => []
      | kv :: m' => (if is_path_key kv.1 then collect_strings kv.2 else []) ++ walk kv.2 ++ go m'
      end) object
  | _ => []
  end.

(** The source's [BTreeSet<(String, bool)>]: [false] sorts before [true]. *)
#[local] Instance bool_ord : Ord bool := fun a b =>
  match a, b with false, true => Lt | true, false => Gt | _, _ => Eq end.

Definition extract_path_candidates (value : Value) : list (string * bool) :=
  BSet.of_list (omap normalize_path (walk value)).
End walk.

(** ** Violations *)

Section violations.
Context `{UnicodeTables} `{RegexEngine}.

Definition tool_violations (policy : CapabilityPolicy) (call : WireCall) : list Violation :=
  if negb (bool_decide (cp_allowed_tools policy = []))
     && negb (existsb (fun name => bool_decide (name = wc_name call)) (cp_allowed_tools policy))
  then [mkViolation (wc_name call)
          ("tool '" +:+ wc_name call +:+ "' is not in the capability allowlist")]
  else [].

Definition denied_hosts (policy : CapabilityPolicy) (call : WireCall) : list string :=
  List.filter (fun host => negb (is_allowed host (cp_allowed_hosts policy))) (hosts (wc_args call)).

Definition host_violations (policy : CapabilityPolicy) (call : WireCall) : list Violation :=
  let denied := denied_hosts policy call in
  if bool_decide (denied = []) then []
  else [mkViolation (wc_name call)
          ("tool '" +:+ wc_name call +:+ "' reaches non-allowlisted host(s): " +:+ Str.join ", " denied)].

Definition candidate_allowed (policy : CapabilityPolicy) (c : string * bool) : bool :=
  negb c.2 && existsb (path_is_within c.1) (cp_allowed_path_prefixes policy).

Definition path_violations (policy : CapabilityPolicy) (call : WireCall) : list Violation :=
  if bool_decide (cp_allowed_path_prefixes policy = []) then []
  else extract_path_candidates (cp_extra_path_keys policy) (wc_args call) ≫= fun c =>
    if candidate_allowed policy c then []
    else [mkViolation (wc_name call)
            ("tool '" +:+ wc_name call +:+ "' references a path outside the filesystem scope: " +:+ c.1)].

Definition violations_for_calls (policy : CapabilityPolicy) (calls : list WireCall) : list Violation :=
  if negb (cp_enabled policy) then []
  else calls ≫= fun call =>
    tool_violations policy call ++ host_violations policy call ++ path_violations policy call.

Definition violations (policy : CapabilityPolicy) (events : list SecurityEvent) : list Violation :=
  violations_for_calls policy (omap event_wire_call events).
End violations.

(** ** Properties *)

(** *** What is a path argument *)

(** [s] is a non-blank string of [v], through arrays only. *)
Inductive listed : string -> Value -> Prop :=
| listed_here s : Str.is_empty (Str.trim s) = false -> listed s (JString s)
| listed_array s x l : x ∈ l -> listed s x -> listed s (JArray l).

(** [s] sits under a path-like key somewhere in [v]. *)
Inductive path_arg (extra : list string) : string -> Value -> Prop :=
| path_here s k x m : (k, x) ∈ m -> is_path_key extra k = true -> listed s x -> path_arg extra s (JObject m)
| path_member s k x m : (k, x) ∈ m -> path_arg extra s x -> path_arg extra s (JObject m)
| path_item s x l : x ∈ l -> path_arg extra s x -> path_arg extra s (JArray l).

Lemma collect_strings_spec (v : Value) (s : string) : s ∈ collect_strings v <-> listed s v.
Proof.
  induction v as [| | |t|l IH|m IH] using Value_ind'; cbn [collect_strings];
    try (rewrite elem_of_nil; split; [done|by inversion 1]).
  - destruct (Str.is_empty (Str.trim t)) eqn:E.
    + rewrite elem_of_nil. split; [done|]. inversion 1; congruence.
    + rewrite list_elem_of_singleton. split; [intros ->; by constructor|by inversion 1].
  - trans (exists x, x ∈ l /\ listed s x).
    + induction IH as [|x l Hx _ IHl]; [rewrite elem_of_nil; set_solver|].
      rewrite elem_of_app, Hx, IHl. set_solver.
    + split; [intros (x & ? & ?); by eapply listed_array|inversion 1; eauto].
Qed.

Lemma walk_spec (extra : list string) (v : Value) (s : string) :
  s ∈ walk extra v <-> path_arg extra s v.
Proof.
  induction v as [| | |t|l IH|m IH] using Value_ind'; cbn [walk];
    try (rewrite elem_of_nil; split; [done|by inversion 1]).
  - trans (exists x, x ∈ l /\ path_arg extra s x).
    + induction IH as [|x l Hx _ IHl]; [rewrite elem_of_nil; set_solver|].
      rewrite elem_of_app, Hx, IHl. set_solver.
    + split; [intros (x & ? & ?); by eapply path_item|inversion 1; eauto].
  - trans (exists k x, (k, x) ∈ m /\ ((is_path_key extra k = true /\ listed s x) \/ path_arg extra s x)).
    + induction IH as [|[k x] m Hx _ IHm]; [rewrite elem_of_nil; set_solver|].
      rewrite !elem_of_app, IHm. cbn [fst snd] in *. rewrite Hx.
      assert (s ∈ (if is_path_key extra k then collect_strings x else []) <->
        is_path_key extra k = true /\ listed s x) as ->.
      { destruct (is_path_key extra k); [rewrite collect_strings_spec; tauto|rewrite elem_of_nil; naive_solver]. }
      split.
      * intros [?|[?|(k' & x' & ? & ?)]]; [exists k, x; split; [left|by left]|
          exists k, x; split; [left|by right]|exists k', x'; split; [by right|done]].
      * intros (k' & x' & [[= -> ->]|Hin]%elem_of_cons & Hc); [tauto|]. right. right. eauto.
    + split; [|inversion 1; naive_solver].
      intros (k & x & ? & [[? ?]|?]); [by eapply path_here|by eapply path_member].
Qed.

#[local] Instance bool_ord_laws : @OrdLaws bool bool_ord.
Proof. split; [intros [] []|intros [] []|intros [] [] []]; by try split. Qed.

Lemma candidates_spec (extra : list string) (v : Value) (c : string * bool) :
  c ∈ extract_path_candidates extra v <->
  exists s, path_arg extra s v /\ normalize_path s = Some c.
Proof.
  unfold extract_path_candidates. rewrite BSet.bset_elem_of_of_list, list_elem_of_omap.
  by setoid_rewrite walk_spec.
Qed.

(** *** What is allowed *)

Section scope.
Context `{UnicodeTables} `{RegexEngine}.

(** A call is within its grants: its tool is granted, every host it reaches is
    granted, and every path argument that normalizes is free of [..] and inside a
    granted prefix. *)
Definition granted (policy : CapabilityPolicy) (call : WireCall) : Prop :=
  (cp_allowed_tools policy = [] \/ wc_name call ∈ cp_allowed_tools policy) /\
  (forall h, h ∈ hosts (wc_args call) -> is_allowed h (cp_allowed_hosts policy) = true) /\
  (cp_allowed_path_prefixes policy = [] \/
   forall s p t, path_arg (cp_extra_path_keys policy) s (wc_args call) -> normalize_path s = Some (p, t) ->
     t = false /\ exists prefix, prefix ∈ cp_allowed_path_prefixes policy /\ path_is_within p prefix = true).

Lemma bind_nil_iff {A B} (f : A -> list B) (l : list A) :
  l ≫= f = [] <-> forall x, x ∈ l -> f x = [].
Proof.
  induction l as [|x l IH]; [set_solver|]. rewrite bind_cons.
  split; [intros [H1 H2]%app_nil; set_solver|]. intros Hf. rewrite (Hf x), (proj2 IH) by set_solver. done.
Qed.

Lemma tool_violations_nil policy call :
  tool_violations policy call = [] <->
  cp_allowed_tools policy = [] \/ wc_name call ∈ cp_allowed_tools policy.
Proof.
  unfold tool_violations. destruct (decide (cp_allowed_tools policy = [])) as [E|E].
  { rewrite bool_decide_true by done. cbn. tauto. }
  rewrite bool_decide_false by done. cbn [negb andb].
  assert (existsb (fun name => bool_decide (name = wc_name call)) (cp_allowed_tools policy) = true <->
    wc_name call ∈ cp_allowed_tools policy) as Hex.
  { rewrite existsb_exists. setoid_rewrite <- list_elem_of_In. setoid_rewrite bool_decide_eq_true.
    naive_solver. }
  destruct (existsb _ _); cbn; naive_solver.
Qed.

Lemma host_violations_nil policy call :
  host_violations policy call = [] <->
  forall h, h ∈ hosts (wc_args call) -> is_allowed h (cp_allowed_hosts policy) = true.
Proof.
  unfold host_violations. trans (denied_hosts policy call = []); [by case_bool_decide|].
  unfold denied_hosts. induction (hosts (wc_args call)) as [|h hs IH]; [set_solver|]. cbn [List.filter].
  destruct (is_allowed h (cp_allowed_hosts policy)) eqn:E; cbn [negb]; [rewrite IH; set_solver|].
  split; [done|]. intros Hall. rewrite Hall in E by left. done.
Qed.

Lemma path_violations_nil policy call :
  path_violations policy call = [] <->
  cp_allowed_path_prefixes policy = [] \/
  forall s p t, path_arg (cp_extra_path_keys policy) s (wc_args call) -> normalize_path s = Some (p, t) ->
    t = false /\ exists prefix, prefix ∈ cp_allowed_path_prefixes policy /\ path_is_within p prefix = true.
Proof.
  unfold path_violations. case_bool_decide as E; [tauto|]. rewrite bind_nil_iff.
  assert (forall c, (if candidate_allowed policy c then [] else
      [mkViolation (wc_name call) ("tool '" +:+ wc_name call
        +:+ "' references a path outside the filesystem scope: " +:+ c.1)]) = [] <->
    c.2 = false /\ exists prefix, prefix ∈ cp_allowed_path_prefixes policy /\ path_is_within c.1 prefix = true) as Hc.
  { intros c. trans (candidate_allowed policy c = true); [by destruct (candidate_allowed _ _)|].
    unfold candidate_allowed. rewrite andb_true_iff, negb_true_iff, existsb_exists.
    by setoid_rewrite <- list_elem_of_In. }
  setoid_rewrite Hc. setoid_rewrite candidates_spec. split.
  - intros Hall. right. intros s p t Hs Hn. by apply (Hall (p, t)); eauto.
  - intros [|Hall]; [done|]. intros [p t] (s & Hs & Hn). by eapply Hall.
Qed.

Lemma no_violation_calls (policy : CapabilityPolicy) (calls : list WireCall) :
  violations_for_calls policy calls = [] <->
  cp_enabled policy = false \/ forall call, call ∈ calls -> granted policy call.
Proof.
  unfold violations_for_calls. destruct (cp_enabled policy); cbn [negb]; [|tauto].
  rewrite bind_nil_iff. unfold granted. split.
  - intros Hall. right. intros call (H1 & (H2 & H3)%app_nil)%Hall%app_nil.
    by rewrite <- tool_violations_nil, <- host_violations_nil, <- path_violations_nil.
  - intros [|Hall]; [done|]. intros call (H1 & H2 & H3)%Hall.
    by rewrite (proj2 (tool_violations_nil _ _)), (proj2 (host_violations_nil _ _)),
      (proj2 (path_violations_nil _ _)).
Qed.

(** An enabled policy reports no violation exactly when every call of the response is
    within its grants: nothing outside them passes, nothing inside them is flagged. *)
Theorem no_violation_iff (policy : CapabilityPolicy) (events : list SecurityEvent) :
  violations policy events = [] <->
  cp_enabled policy = false \/
  forall e id name args, e ∈ events -> se_direction e = DOutput -> se_kind e = KToolCall id name args ->
    granted policy (mkWireCall name args).
Proof.
  unfold violations. rewrite no_violation_calls.
  assert (forall c, c ∈ omap event_wire_call events <-> exists e id, e ∈ events /\ se_direction e = DOutput /\
    se_kind e = KToolCall id (wc_name c) (wc_args c)) as Hc.
  { intros c. rewrite list_elem_of_omap. split.
    - intros (e & He & Hw). unfold event_wire_call in Hw.
      destruct (se_direction e) eqn:Ed, (se_kind e) as [| |id n a] eqn:Ek; try done. injection Hw as <-. eauto 6.
    - intros (e & id & He & Hd & Hk). exists e. split; [done|]. unfold event_wire_call.
      rewrite Hd, Hk. by destruct c. }
  setoid_rewrite Hc. split; (intros [?|Hall]; [by left|right]).
  - intros e id name args He Hd Hk. apply Hall. eauto.
  - intros [n a] (e & id & He & Hd & Hk). by eapply Hall.
Qed.
End scope.

(** *** Prefixes are matched by component *)

(** A component spelled with letters, digits, [_], [-] and [.], other than [.] and
    [..]. *)
Definition name_char (a : ascii) : bool :=
  Str.is_alnum a || Str.byte_is a 95 || Str.byte_is a 45 || Str.byte_is a 46.
Definition clean_name (n : string) : bool :=
  Str.forallb name_char n && negb (Str.is_empty n) && negb (bool_decide (n = "."))
  && negb (bool_decide (n = "..")).
Definition spell (absolute : bool) (names : list string) : string :=
  (if absolute then "/" else EmptyString) +:+ Str.join "/" names.

(** Printable ASCII other than the bytes [normalize_path] treats specially. *)
Definition spelling_char (a : ascii) : bool := name_char a || bool_decide (a = "/"%char).

Lemma byte_case (P : ascii -> bool) :
  (forall n, n < 256 -> P (ascii_of_nat n) = true) -> forall a, P a = true.
Proof. intros Hn a. rewrite <- (ascii_nat_embedding a). apply Hn, nat_ascii_bounded. Qed.

(** What the spelling bytes are not. *)
Lemma spelling_char_facts (a : ascii) : spelling_char a = true ->
  Str.ws1 a = false /\ Str.is_ascii_char a = true /\ is_quote a = false /\ unbackslash a = a /\
  a <> ":"%char.
Proof.
  intros Ha.
  assert (negb (spelling_char a) || (negb (Str.ws1 a) && Str.is_ascii_char a && negb (is_quote a)
    && bool_decide (unbackslash a = a) && negb (bool_decide (a = ":"%char))) = true) as Hall.
  { clear Ha. revert a. apply byte_case. intros n Hn.
    assert (forallb (fun n => let a := ascii_of_nat n in
      negb (spelling_char a) || (negb (Str.ws1 a) && Str.is_ascii_char a && negb (is_quote a)
      && bool_decide (unbackslash a = a) && negb (bool_decide (a = ":"%char)))) (seq 0 256) = true) as Hb
      by by vm_compute.
    rewrite forallb_forall in Hb. apply Hb, in_seq. lia. }
  rewrite Ha in Hall. cbn [negb orb] in Hall.
  rewrite !andb_true_iff, !negb_true_iff, bool_decide_eq_true, bool_decide_eq_false in Hall. tauto.
Qed.

Lemma ascii_not_ws (a b c : ascii) : Str.is_ascii_char a = true -> Str.ws2 a b = false /\ Str.ws3 a b c = false.
Proof.
  unfold Str.is_ascii_char, Str.ws2, Str.ws3, Str.byte_is. intros Ha%N.ltb_lt.
  rewrite !(proj2 (N.eqb_neq (N_of_ascii a) _)) by lia. done.
Qed.

Lemma trim_start_spelling a s : spelling_char a = true -> Str.trim_start (String a s) = String a s.
Proof.
  intros (Hw & Ha & _)%spelling_char_facts. cbn [Str.trim_start]. rewrite Hw.
  destruct s as [|b s]; [done|]. destruct s as [|c s];
    by rewrite ?(proj1 (ascii_not_ws a b a Ha)), ?(proj2 (ascii_not_ws a b c Ha)).
Qed.

(** Such a text reaches the component loop as it is. *)
Lemma path_text_spelling s :
  Str.forallb spelling_char s = true -> path_text s = s.
Proof.
  intros Hs. unfold path_text.
  assert (Str.trim s = s) as ->.
  { unfold Str.trim. assert (Str.trim_start s = s) as ->.
    { destruct s as [|a s]; [done|]. apply trim_start_spelling. by apply andb_true_iff in Hs as [? _]. }
    induction s as [|a s IH]; [done|]. apply andb_true_iff in Hs as [Ha Hs].
    cbn [Str.trim_end]. unfold Str.all_ws. rewrite trim_start_spelling by done. cbn [Str.is_empty].
    by rewrite IH. }
  assert (Str.trim_start_matches is_quote s = s) as ->.
  { destruct s as [|a s]; [done|]. apply andb_true_iff in Hs as [(_ & _ & Hq & _)%spelling_char_facts _].
    cbn [Str.trim_start_matches]. by rewrite Hq. }
  assert (Str.trim_end_matches is_quote s = s) as ->.
  { induction s as [|a s IH]; [done|]. apply andb_true_iff in Hs as [(_ & _ & Hq & _)%spelling_char_facts Hs].
    cbn [Str.trim_end_matches]. rewrite IH by done. destruct s; [by rewrite Hq|done]. }
  assert (Str.map_bytes unbackslash s = s) as ->.
  { induction s as [|a s IH]; [done|]. apply andb_true_iff in Hs as [(_ & _ & _ & Hb & _)%spelling_char_facts Hs].
    cbn [Str.map_bytes]. by rewrite Hb, IH. }
  destruct (Str.strip_prefix "file://" s) as [r|] eqn:E; [|done].
  apply Str.strip_prefix_spec in E as ->. cbn in Hs. by rewrite !andb_false_r in Hs || discriminate.
Qed.

Lemma clean_name_facts n : clean_name n = true ->
  Str.forallb name_char n = true /\ n <> EmptyString /\ n <> "." /\ n <> "..".
Proof.
  unfold clean_name. rewrite !andb_true_iff, !negb_true_iff, !bool_decide_eq_false.
  intros [[[Hn He] Hd] Hdd]. split_and!; try done. by intros ->.
Qed.

Lemma name_not_slash a : name_char a = true -> bool_decide (a = "/"%char) = false.
Proof. intros Ha. apply bool_decide_eq_false. by intros ->. Qed.

Lemma split_name n : Str.forallb name_char n = true -> Str.split_char "/" n = [n].
Proof.
  unfold Str.split_char. induction n as [|a n IH]; [done|].
  intros [Ha Hn]%andb_true_iff. cbn [Str.split]. by rewrite name_not_slash, IH.
Qed.

Lemma join_cons n m l : Str.join "/" (n :: m :: l) = n +:+ String "/" (Str.join "/" (m :: l)).
Proof. done. Qed.

(** Joining clean names and splitting at [/] are inverse. *)
Lemma split_join (names : list string) :
  Forall (fun n => clean_name n = true) names -> names <> [] ->
  Str.split_char "/" (Str.join "/" names) = names.
Proof.
  induction 1 as [|n names Hn Hns IH]; [done|]. intros _. apply clean_name_facts in Hn as (Hn & _).
  destruct names as [|m names]; [by apply split_name|].
  rewrite join_cons. unfold Str.split_char in *. rewrite split_app by done.
  fold (Str.split_char "/" n). by rewrite split_name, IH.
Qed.

Lemma join_spelling (names : list string) :
  Forall (fun n => clean_name n = true) names -> Str.forallb spelling_char (Str.join "/" names) = true.
Proof.
  assert (forall n, Str.forallb name_char n = true -> Str.forallb spelling_char n = true) as Hw.
  { induction n as [|a n IH]; [done|]. intros [Ha Hn]%andb_true_iff. cbn [Str.forallb].
    unfold spelling_char at 1. by rewrite Ha, IH. }
  induction 1 as [|n names Hn Hns IH]; [done|]. apply clean_name_facts in Hn as (Hn & _).
  destruct names as [|m names]; [by apply Hw|]. rewrite join_cons, Str.forallb_app, Hw by done.
  cbn [Str.forallb]. by rewrite IH.
Qed.

Lemma fold_clean (names : list string) (parts : list string) :
  Forall (fun n => clean_name n = true) names ->
  fold_left path_step names (false, parts) = (false, rev names ++ parts).
Proof.
  intros Hn. revert parts. induction Hn as [|n names Hn _ IH]; intros parts; [done|].
  apply clean_name_facts in Hn as (_ & H1 & H2 & H3). cbn [fold_left path_step].
  rewrite !bool_decide_false by done. cbn [orb]. rewrite IH. cbn [rev]. by rewrite <- app_assoc.
Qed.

Lemma spelled_head (names : list string) :
  Forall (fun n => clean_name n = true) names -> names <> [] ->
  exists a s, Str.join "/" names = String a s /\ name_char a = true.
Proof.
  destruct 1 as [|n names Hn _]; [done|]. intros _. apply clean_name_facts in Hn as (Hn & Hne & _).
  destruct n as [|a n]; [done|]. apply andb_true_iff in Hn as [Ha _].
  destruct names as [|m names]; [by exists a, n|]. rewrite join_cons, Str.app_cons. by eexists a, _.
Qed.

(** A clean path is its own normal form. *)
Lemma normalize_spell (absolute : bool) (names : list string) :
  Forall (fun n => clean_name n = true) names -> names <> [] ->
  normalize_path (spell absolute names) = Some (spell absolute names, false).
Proof.
  intros Hn Hne. unfold normalize_path. rewrite path_text_spelling.
  2:{ unfold spell. rewrite Str.forallb_app, join_spelling by done. by destruct absolute. }
  destruct (spelled_head names Hn Hne) as (a & s & Hj & Ha). unfold spell. destruct absolute.
  - change ("/" +:+ Str.join "/" names) with (EmptyString +:+ String "/" (Str.join "/" names)).
    unfold Str.split_char. rewrite split_app by done. fold (Str.split_char "/" (Str.join "/" names)).
    rewrite split_join by done. cbn [Str.split app]. cbn [fold_left path_step].
    rewrite bool_decide_true by done. cbn [orb]. rewrite fold_clean, app_nil_r, rev_involutive by done.
    by rewrite Hj.
  - rewrite Str.app_nil_l, split_join, fold_clean, app_nil_r, rev_involutive by done. rewrite Hj.
    replace (Str.starts_with "/" (String a s)) with false; [done|].
    unfold Str.starts_with. cbn [String.prefix]. destruct (ascii_dec "/" a) as [<-|]; done.
Qed.

Lemma drive_like_spelling s : Str.forallb spelling_char s = true -> drive_like s = false.
Proof.
  intros Hs. unfold drive_like. apply bool_decide_eq_false. destruct s as [|a [|b s]]; [done..|].
  apply andb_true_iff in Hs as [_ (Hb & _)%andb_true_iff].
  apply spelling_char_facts in Hb as (_ & _ & _ & _ & Hb). cbn. congruence.
Qed.

Lemma join_app (l k : list string) :
  l <> [] -> k <> [] -> Str.join "/" (l ++ k) = Str.join "/" l +:+ String "/" (Str.join "/" k).
Proof.
  intros Hl Hk. induction l as [|n l IH]; [done|]. destruct l as [|m l].
  - destruct k as [|m k]; done.
  - cbn [app]. rewrite !join_cons. cbn [app] in IH. rewrite IH by done. by rewrite Str.app_assoc.
Qed.

(** The prefix grant is by component: a clean path is inside a clean prefix exactly
    when both are absolute or both relative and the prefix's components begin the
    path's.  A sibling whose name merely starts the same is outside. *)
Theorem path_is_within_spec (abs_path abs_prefix : bool) (path prefix : list string) :
  Forall (fun n => clean_name n = true) path -> Forall (fun n => clean_name n = true) prefix ->
  path <> [] -> prefix <> [] ->
  path_is_within (spell abs_path path) (spell abs_prefix prefix) = true <->
  abs_path = abs_prefix /\ exists rest, path = prefix ++ rest.
Proof.
  intros Hp Hq Hpn Hqn. unfold path_is_within. rewrite !normalize_spell by done. cbn [orb].
  destruct (spelled_head prefix Hq Hqn) as (b & t & Hjq & Hb).
  destruct (spelled_head path Hp Hpn) as (a & s & Hjp & Ha).
  assert (spell abs_prefix prefix <> "/") as Hroot.
  { unfold spell. rewrite Hjq. destruct abs_prefix; cbn; [done|]. intros [= -> _]. done. }
  rewrite bool_decide_false by done.
  assert (forall ab l, Forall (fun n => clean_name n = true) l -> drive_like (spell ab l) = false) as Hdr.
  { intros ab l Hl. apply drive_like_spelling. unfold spell.
    rewrite Str.forallb_app, join_spelling by done. by destruct ab. }
  rewrite !Hdr by done. cbn [orb]. rewrite orb_true_iff, bool_decide_eq_true.
  trans (exists rest, spell abs_path path = spell abs_prefix prefix +:+ rest /\
    (rest = EmptyString \/ exists r, rest = String "/" r)).
  { split.
    - intros [->|Hs]; [exists EmptyString; rewrite Str.app_nil_r; auto|].
      destruct (Str.strip_prefix _ _) as [r|] eqn:E; [|done]. apply Str.strip_prefix_spec in E.
      apply Str.starts_with_spec in Hs as (r' & ->). exists ("/" +:+ r'). eauto.
    - intros (rest & E & [->|(r & ->)]); [left; by rewrite E, Str.app_nil_r|right].
      apply Str.strip_prefix_spec in E. rewrite E. apply (Str.starts_with_app "/" r). }
  split.
  - intros (rest & E & Hrest).
    assert (abs_path = abs_prefix) as <-.
    { unfold spell in E. rewrite Hjp, Hjq in E. destruct abs_path, abs_prefix; try done;
        cbn in E; injection E as E0 _; subst; done. }
    split; [done|]. unfold spell in E. rewrite Str.app_assoc in E. apply Str.app_inv_head in E.
    apply (f_equal (Str.split_char "/")) in E. rewrite split_join in E by done.
    destruct Hrest as [->|(r & ->)].
    + rewrite Str.app_nil_r, split_join in E by done. exists []. by rewrite app_nil_r.
    + unfold Str.split_char in E. rewrite split_app in E by done.
      fold (Str.split_char "/" (Str.join "/" prefix)) in E. rewrite split_join in E by done. eauto.
  - intros (-> & rest & ->). destruct (decide (rest = [])) as [->|Hr].
    + exists EmptyString. rewrite app_nil_r, Str.app_nil_r. auto.
    + exists (String "/" (Str.join "/" rest)). unfold spell. rewrite join_app, Str.app_assoc by done. eauto.
Qed.

(** A path that climbs is reported as such wherever it ends up, if it ends up
    anywhere. *)
Theorem traversal_flagged (raw p : string) (t : bool) :
  normalize_path raw = Some (p, t) ->
  t = true <-> ".." ∈ Str.split_char "/" (path_text raw).
Proof.
  assert (forall parts b st, (fold_left path_step parts (b, st)).1 = true <-> b = true \/ ".." ∈ parts) as Hfold.
  { induction parts as [|x parts IH]; intros b st; [cbn; set_solver|]. cbn [fold_left].
    destruct (path_step (b, st) x) as [b' st'] eqn:E. rewrite IH, elem_of_cons.
    assert (b' = true <-> b = true \/ ".." = x) as ->; [|tauto]. unfold path_step in E.
    destruct (decide (x = "..")) as [->|Hx]; [vm_compute in E; naive_solver|].
    rewrite (bool_decide_false (x = "..")) in E by done. by destruct (_ || _); simplify_eq; naive_solver. }
  unfold normalize_path. destruct (Str.is_empty (path_text raw)); [done|].
  specialize (Hfold (Str.split_char "/" (path_text raw)) false []).
  destruct (fold_left path_step _ _) as [t' parts]. cbn [fst] in Hfold.
  destruct (Str.is_empty _); [done|]. intros [= _ <-]. rewrite Hfold. naive_solver.
Qed.

(** *** Limits of the scope *)

Definition repo_policy : CapabilityPolicy := mkCapabilityPolicy true true [] [] ["/repo"; "src"] [].
Definition demo_violations : CapabilityPolicy -> list WireCall -> list Violation :=
  @violations_for_calls ascii_tables demo_engine.

(** A path that climbs to nothing, such as [..] or [a/../..], normalizes to the empty
    path and is not a candidate at all: the call is not a violation, although every
    other path with [..] is. *)
Theorem parent_escapes_scope :
  normalize_path ".." = None /\ normalize_path "a/../../.." = None /\
  demo_violations repo_policy [mkWireCall "list" (JObject [("path", JString "..")])] = [] /\
  demo_violations repo_policy [mkWireCall "list" (JObject [("path", JString "../x")])] <> [].
Proof. by vm_compute. Qed.

(** Candidates are normalized a second time when they are compared, so a quote that
    was not at the end of the argument is dropped: [./'src/x], a file of the
    directory ['src], counts as inside [src]. *)
Theorem renormalized_quote :
  normalize_path "./'src/x" = Some ("'src/x", false) /\ path_is_within "'src/x" "src" = true /\
  demo_violations repo_policy [mkWireCall "read" (JObject [("path", JString "./'src/x")])] = [].
Proof. by vm_compute. Qed.

(** ** Witnesses *)

Lemma path_is_within_spec_witness :
  path_is_within (spell true ["repo-evil"; "x"]) (spell true ["repo"]) <> true /\
  path_is_within (spell true ["repo"; "x"]) (spell true ["repo"]) = true.
Proof.
  split.
  - intros Hw. apply (path_is_within_spec true true ["repo-evil"; "x"] ["repo"]) in Hw;
      [|repeat constructor..|discriminate|discriminate].
    destruct Hw as [_ (rest & Heq)]. discriminate.
  - apply (path_is_within_spec true true ["repo"; "x"] ["repo"]); [repeat constructor..|discriminate|discriminate|].
    split; [reflexivity|]. exists ["x"]. reflexivity.
Defined.
