(* ===== verification/ProxyStream.v ===== *)
(** Enforcement of the proxy on responses ([crates/proxy/src/handlers.rs]): the
    refusals of the agent and capability layers, the checks of a buffered response,
    and the loops that inspect a streamed response chunk by chunk before forwarding
    it.  The agent firewall is shared by all requests: every step takes it and
    returns it. *)
From S2P Require Import Prelude BTree Platform F32 Json CoreTypes Scoring CorePolicy Detectors Normalize.
From S2P Require Import Firewall Adapter Event Taint Action Egress AgentPolicy Engine.
From S2P Require Import ProxyEvents ProxyInput AgentScan Sse Capability.
From Stdlib Require Import String Ascii.
#[local] Abbreviation length := List.length.

Inductive FailMode := FailOpen | FailClosed.

(** The settings the handlers below read. *)
Record ProxyConfig := mkProxyConfig {
  pc_agent_enabled : bool;
  pc_agent_enforce : bool;
  pc_fail_mode : FailMode;
  pc_capability_policy : CapabilityPolicy;
  pc_stream_window : nat;
  pc_max_stream_chunk_bytes : Z
}.

Definition max_stream_chunk_bytes (c : ProxyConfig) : Z := Z.max (pc_max_stream_chunk_bytes c) 1.

(** The sliding tail of a stream's text: the last [4 * window] bytes, cut forward to a
    character boundary. *)
Fixpoint skip_continuation (s : string) : string :=
  match s with
  | String a s' => if Str.is_continuation a then skip_continuation s' else s
  | EmptyString => EmptyString
  end.

Definition append_tail (acc text : string) (window : nat) : string :=
  let acc := acc +:+ text in
  if Str.len acc <=? window * 4 then acc
  else skip_continuation (Str.drop (Str.len acc - window * 4) acc).

(** ** Usage evidence of a stream *)

Record StreamUsageEvidence := mkEvidence {
  ue_provider_response_id : option string;
  ue_provider_model : option string;
  ue_input_tokens : option Z;
  ue_output_tokens : option Z;
  ue_saw_terminal : bool
}.

Definition evidence_default : StreamUsageEvidence := mkEvidence None None None None false.

(** [event.get(key).or_else(|| event.get("message").and_then(|m| m.get(key)))]. *)
Definition get_or_message (key : string) (event : Value) : option Value :=
  match value_get key event with Some v => Some v | None => pointer2 "message" key event end.

Definition short_text (v : option Value) : option string :=
  s ← v ≫= as_str; if negb (Str.is_empty s) && (Str.len s <=? 256) then Some s else None.

(** A field replaced only by a new value. *)
Definition keep {A} (new old : option A) : option A := match new with Some x => Some x | None => old end.

Definition observe (e : StreamUsageEvidence) (event : Value) (input_field output_field : string) :
    StreamUsageEvidence :=
  let usage := get_or_message "usage" event in
  mkEvidence
    (keep (short_text (get_or_message "id" event)) (ue_provider_response_id e))
    (keep (short_text (get_or_message "model" event)) (ue_provider_model e))
    (keep ((usage ≫= value_get input_field) ≫= as_u64) (ue_input_tokens e))
    (keep ((usage ≫= value_get output_field) ≫= as_u64) (ue_output_tokens e))
    (bool_decide (get_str "type" event = Some "message_stop") || ue_saw_terminal e).

Definition terminal_body (e : StreamUsageEvidence) (input_field output_field : string) : Value :=
  JObject (BMap.of_list (
    option_list ((fun id => ("id", JString id)) <$> ue_provider_response_id e) ++
    option_list ((fun m => ("model", JString m)) <$> ue_provider_model e) ++
    match ue_input_tokens e, ue_output_tokens e with
    | Some i, Some o => [("usage", JObject (BMap.of_list
        [(input_field, JNumber (PosInt i)); (output_field, JNumber (PosInt o))]))]
    | _, _ => []
    end)).

Section enforcement.
Context `{UnicodeTables} `{RegexEngine} `{LiteralIter} `{TextCrates}.
Variable config : ProxyConfig.
(** The core firewall of the proxy. *)
Variable firewall : Firewall.
(** [serde_json::from_str::<Value>] and [Value::to_string]. *)
Variable from_str : string -> option Value.
Variable to_string : Value -> string.

(** ** Refusals *)

Definition refusal_of (v : ScanVerdict) : option string :=
  match sv_verdict v with
  | Deny => if pc_agent_enforce config
            then Some (default "agent policy denied a tool call" (sv_reason v)) else None
  | _ => None
  end.

Definition agent_refuse_reason (agent : AgentFirewall) (request_id : string) (results : list string)
    (calls : list WireCall) : option string * AgentFirewall :=
  if bool_decide (calls = []) then (None, agent)
  else let '(v, agent) := inspect_cycle agent request_id results calls in (refusal_of v, agent).

Definition agent_refuse_events (agent : AgentFirewall) (request_id : string)
    (events : list SecurityEvent) : option string * AgentFirewall :=
  let '(v, agent) := inspect_normalized_cycle agent request_id events in (refusal_of v, agent).

Definition refuse_violations (vs : list Violation) : option string :=
  if bool_decide (vs = []) then None
  else if cp_enforce (pc_capability_policy config)
  then Some ("capability policy denied: " +:+ Str.join "; " (vi_reason <$> vs))
  else None.

Definition capability_refuse_events (events : list SecurityEvent) : option string :=
  refuse_violations (violations (pc_capability_policy config) events).
Definition capability_refuse_calls (calls : list WireCall) : option string :=
  refuse_violations (violations_for_calls (pc_capability_policy config) calls).

(** ** Buffered responses *)

(** The checks of a complete response, in the order of the three handlers, up to
    content moderation; [None] is a panic of the firewall. *)
Definition check_response (agent : AgentFirewall) (request_id : string) (events : list SecurityEvent) :
    option (option string * AgentFirewall) :=
  match capability_refuse_events events with
  | Some reason => Some (Some reason, agent)
  | None =>
      blocked ← decide_output firewall (output_text events);
      match blocked with
      | Some reason => Some (Some reason, agent)
      | None => Some (if pc_agent_enabled config then agent_refuse_events agent request_id events
                      else (None, agent))
      end
  end.

(** ** Chat and Anthropic streams *)

Inductive chunk_outcome := Forward | Block (reason : string).

(** The calls an event completed, judged before its frame is forwarded. *)
Definition judge_completed (agent : AgentFirewall) (request_id : string) (results : list string)
    (completed : list WireCall) : option string * AgentFirewall :=
  if bool_decide (completed = []) then (None, agent)
  else match capability_refuse_calls completed with
       | Some reason => (Some reason, agent)
       | None => if pc_agent_enabled config then agent_refuse_reason agent request_id results completed
                 else (None, agent)
       end.

Fixpoint judge_events (events : list Value) (assembler : StreamingToolCalls) (agent : AgentFirewall)
    (request_id : string) (results : list string) :
    option string * StreamingToolCalls * AgentFirewall :=
  match events with
  | [] => (None, assembler, agent)
  | event :: events =>
      let '(pushed, assembler) := push from_str assembler event in
      match pushed, pc_fail_mode config with
      | Err reason, FailClosed => (Some reason, assembler, agent)
      | _, _ =>
          let completed := match pushed with Ok calls => calls | Err _ => [] end in
          let '(reason, agent) := judge_completed agent request_id results completed in
          match reason with
          | Some reason => (Some reason, assembler, agent)
          | None => judge_events events assembler agent request_id results
          end
      end
  end.

Record StreamState := mkStreamState {
  ss_acc : string;
  ss_decoder : SseJsonDecoder;
  ss_evidence : StreamUsageEvidence;
  ss_usage_recorded : bool;
  ss_assembler : option StreamingToolCalls
}.

Definition stream_start (protocol : option StreamProtocol) : StreamState :=
  mkStreamState EmptyString decoder_default evidence_default false (streaming_new <$> protocol).

(** The usage fields of the wire and whether the upstream answered with success. *)
Record StreamContext := mkStreamContext {
  sc_request_id : string;
  sc_results : list string;
  sc_input_field : string;
  sc_output_field : string;
  sc_success : bool
}.

(** The decoded events of a chunk and the refusal of an undecodable one. *)
Definition decode_chunk (d : SseJsonDecoder) (bytes : string) (inspecting : bool) :
    list Value * option string * SseJsonDecoder :=
  match sse_push from_str d bytes with
  | (Ok events, d) => (events, None, d)
  | (Err TooLarge, d) =>
      ([], match inspecting, pc_fail_mode config with
           | true, FailClosed => Some (sse_reason TooLarge) | _, _ => None end, d)
  | (Err NotJson, d) => ([], None, d)
  end.

(** One chunk of [proxy_stream]: what is sent to the client, the bodies recorded as
    terminal usage, and the state. *)
Definition proxy_chunk (ctx : StreamContext) (st : StreamState) (agent : AgentFirewall) (bytes : string) :
    option (chunk_outcome * list Value * StreamState * AgentFirewall) :=
  if (max_stream_chunk_bytes config <? Z.of_nat (Str.len bytes))%Z
  then Some (Block "upstream stream chunk exceeded configured limit", [], st, agent)
  else
    let '(decoded, tool_block, decoder) :=
      decode_chunk (ss_decoder st) bytes (bool_decide (is_Some (ss_assembler st))) in
    let evidence := fold_left (fun e ev => observe e ev (sc_input_field ctx) (sc_output_field ctx))
                      decoded (ss_evidence st) in
    let '(tool_block, assembler, agent) :=
      match tool_block, ss_assembler st with
      | None, Some assembler =>
          let '(r, assembler, agent) :=
            judge_events decoded assembler agent (sc_request_id ctx) (sc_results ctx) in
          (r, Some assembler, agent)
      | r, assembler => (r, assembler, agent)
      end in
    let st := mkStreamState (ss_acc st) decoder evidence (ss_usage_recorded st) assembler in
    match tool_block with
    | Some reason => Some (Block reason, [], st, agent)
    | None =>
        let recording := negb (ss_usage_recorded st)
          && (sd_saw_done decoder || ue_saw_terminal evidence) && sc_success ctx in
        let recorded := if recording
          then [terminal_body evidence (sc_input_field ctx) (sc_output_field ctx)] else [] in
        let acc := append_tail (ss_acc st) (Utf8.lossy bytes) (Nat.max (pc_stream_window config) 16) in
        let st := mkStreamState acc decoder (if recording then evidence_default else evidence)
                    (ss_usage_recorded st || recording) assembler in
        blocked ← decide_output firewall acc;
        Some (match blocked with Some reason => Block reason | None => Forward end, recorded, st, agent)
    end.

(** The end of the stream: calls still open are audited, too late to block. *)
Definition stream_end (ctx : StreamContext) (st : StreamState) (agent : AgentFirewall) :
    option string * AgentFirewall :=
  match ss_assembler st with
  | None => (None, agent)
  | Some assembler =>
      judge_completed agent (sc_request_id ctx) (sc_results ctx) (flush from_str assembler).1
  end.

(** ** Responses streams *)

Record ResponsesState := mkResponsesState {
  rs_decoder : SseJsonDecoder;
  rs_output_tail : string;
  rs_inspected_calls : list string;
  rs_terminal_response : option Value;
  rs_usage_recorded : bool
}.

Definition responses_start : ResponsesState := mkResponsesState decoder_default EmptyString [] None false.

Definition set_inspected (calls : list string) (st : ResponsesState) : ResponsesState :=
  mkResponsesState (rs_decoder st) (rs_output_tail st) calls (rs_terminal_response st) (rs_usage_recorded st).

Definition call_key (item : Value) : string :=
  default (to_string item)
    ((match value_get "call_id" item with Some v => Some v | None => value_get "id" item end) ≫= as_str).

(** [response.output_item.done]. *)
Definition item_done (ctx : StreamContext) (st : ResponsesState) (agent : AgentFirewall) (event : Value) :
    option string * ResponsesState * AgentFirewall :=
  match value_get "item" event with
  | None => (None, st, agent)
  | Some item =>
      match responses_tool_call from_str item with
      | None => (None, st, agent)
      | Some call =>
          match capability_refuse_calls [call] with
          | Some reason => (Some reason, st, agent)
          | None =>
              if negb (pc_agent_enabled config) then (None, st, agent)
              else if bool_decide (call_key item ∈ rs_inspected_calls st) then (None, st, agent)
              else
                let '(reason, agent) :=
                  agent_refuse_reason agent (sc_request_id ctx) (sc_results ctx) [call] in
                (reason, set_inspected (call_key item :: rs_inspected_calls st) st, agent)
          end
      end
  end.

(** [response.completed]. *)
Definition response_completed (ctx : StreamContext) (st : ResponsesState) (agent : AgentFirewall)
    (event : Value) : option string * ResponsesState * AgentFirewall :=
  match value_get "response" event with
  | None => (None, st, agent)
  | Some response =>
      let st := mkResponsesState (rs_decoder st) (rs_output_tail st) (rs_inspected_calls st)
                  (Some response) (rs_usage_recorded st) in
      let calls := responses_tool_calls from_str response in
      match capability_refuse_calls calls with
      | Some reason => (Some reason, st, agent)
      | None =>
          if negb (pc_agent_enabled config) || negb (bool_decide (rs_inspected_calls st = []))
          then (None, st, agent)
          else let '(reason, agent) :=
                 agent_refuse_reason agent (sc_request_id ctx) (sc_results ctx) calls in
               (reason, st, agent)
      end
  end.

Definition responses_event (ctx : StreamContext) (st : ResponsesState) (agent : AgentFirewall)
    (event : Value) : option (option string * ResponsesState * AgentFirewall) :=
  match get_str "type" event with
  | Some kind =>
      if bool_decide (kind = "response.output_text.delta") then
        match get_str "delta" event with
        | None => Some (None, st, agent)
        | Some delta =>
            let tail := append_tail (rs_output_tail st) delta (Nat.max (pc_stream_window config) 16) in
            let st := mkResponsesState (rs_decoder st) tail (rs_inspected_calls st)
                        (rs_terminal_response st) (rs_usage_recorded st) in
            blocked ← decide_output firewall tail;
            Some (blocked, st, agent)
        end
      else if bool_decide (kind = "response.output_item.done") then Some (item_done ctx st agent event)
      else if bool_decide (kind = "response.completed") then Some (response_completed ctx st agent event)
      else Some (None, st, agent)
  | None => Some (None, st, agent)
  end.

Fixpoint responses_events (ctx : StreamContext) (events : list Value) (st : ResponsesState)
    (agent : AgentFirewall) : option (option string * ResponsesState * AgentFirewall) :=
  match events with
  | [] => Some (None, st, agent)
  | event :: events =>
      '(reason, st, agent) ← responses_event ctx st agent event;
      match reason with
      | Some reason => Some (Some reason, st, agent)
      | None => responses_events ctx events st agent
      end
  end.

Definition responses_chunk (ctx : StreamContext) (st : ResponsesState) (agent : AgentFirewall)
    (bytes : string) : option (chunk_outcome * list Value * ResponsesState * AgentFirewall) :=
  if (max_stream_chunk_bytes config <? Z.of_nat (Str.len bytes))%Z
  then Some (Block "upstream stream chunk exceeded configured limit", [], st, agent)
  else
    let '(decoded, decoder) := sse_push from_str (rs_decoder st) bytes in
    let '(events, block_reason) := match decoded, pc_fail_mode config with
      | Ok events, _ => (events, None)
      | Err e, FailClosed => ([], Some (sse_reason e))
      | Err _, FailOpen => ([], None)
      end in
    let st := mkResponsesState decoder (rs_output_tail st) (rs_inspected_calls st)
                (rs_terminal_response st) (rs_usage_recorded st) in
    '(reason, st, agent) ← responses_events ctx events st agent;
    let recorded := if negb (rs_usage_recorded st) then option_list (rs_terminal_response st) else [] in
    let st := mkResponsesState (rs_decoder st) (rs_output_tail st) (rs_inspected_calls st)
                (rs_terminal_response st)
                (rs_usage_recorded st || bool_decide (is_Some (rs_terminal_response st))) in
    Some (match (match reason with Some r => Some r | None => block_reason end) with
          | Some r => Block r | None => Forward end, recorded, st, agent).
End enforcement.

(** ** Properties *)

(** The tail keeps the end of the stream and is bounded. *)
Theorem append_tail_spec (acc text : string) (window : nat) :
  let tail := append_tail acc text window in
  (exists dropped, acc +:+ text = dropped +:+ tail) /\ Str.len tail <= window * 4 /\
  (Str.len (acc +:+ text) <= window * 4 -> tail = acc +:+ text).
Proof.
  assert (forall s, exists d, s = d +:+ skip_continuation s) as Hskip.
  { induction s as [|a s [d IH]]; [by exists EmptyString|]. cbn [skip_continuation].
    destruct (Str.is_continuation a); [|by exists EmptyString]. exists (String a d).
    by rewrite Str.app_cons, <- IH. }
  unfold append_tail. set (s := acc +:+ text). clearbody s.
  destruct (Nat.leb_spec (Str.len s) (window * 4)) as [Hle|Hgt]; cbv zeta.
  - split_and!; [by exists EmptyString|done|done].
  - destruct (Hskip (Str.drop (Str.len s - window * 4) s)) as [d Hd]. split_and!; [| |lia].
    + exists (Str.take (Str.len s - window * 4) s +:+ d).
      by rewrite Str.app_assoc, <- Hd, Str.take_drop.
    + apply (f_equal Str.len) in Hd. rewrite Str.len_app, Str.len_drop in Hd. lia.
Qed.

Section enforcement_facts.
Context `{UnicodeTables} `{RegexEngine} `{LiteralIter} `{TextCrates}.
Variable config : ProxyConfig.
Variable firewall : Firewall.
Variable from_str : string -> option Value.

Lemma refusal_deny v :
  pc_agent_enforce config = true -> (is_Some (refusal_of config v) <-> sv_verdict v = Deny).
Proof.
  intros He. unfold refusal_of. rewrite He. destruct (sv_verdict v); split; try done; by intros [].
Qed.

Lemma refuse_violations_none vs :
  cp_enforce (pc_capability_policy config) = true -> refuse_violations config vs = None -> vs = [].
Proof. unfold refuse_violations. intros ->. by case_bool_decide. Qed.

(** What the judgement of completed calls lets pass. *)
Definition call_group_ok (request_id : string) (results : list string) (calls : list WireCall) : Prop :=
  (cp_enabled (pc_capability_policy config) = true -> cp_enforce (pc_capability_policy config) = true ->
   forall call, call ∈ calls -> granted (pc_capability_policy config) call) /\
  (pc_agent_enabled config = true -> pc_agent_enforce config = true -> calls <> [] ->
   exists agent, sv_verdict (inspect_cycle agent request_id results calls).1 <> Deny).

Lemma judge_completed_none agent request_id results calls agent' :
  judge_completed config agent request_id results calls = (None, agent') ->
  call_group_ok request_id results calls.
Proof.
  unfold judge_completed, call_group_ok. case_bool_decide as Hn; [subst calls; intros _; split; [set_solver|done]|].
  destruct (capability_refuse_calls config calls) eqn:Ec; [done|]. intros Hj. split.
  - intros Hen Hef. apply refuse_violations_none in Ec; [|done].
    apply no_violation_calls in Ec as [|]; [congruence|done].
  - intros Hen Hef _. rewrite Hen in Hj. unfold agent_refuse_reason in Hj.
    rewrite bool_decide_false in Hj by done. exists agent.
    destruct (inspect_cycle agent request_id results calls) as [v a]. injection Hj as Hv _. cbn.
    intros Hd. apply (refusal_deny v Hef) in Hd. rewrite Hv in Hd. by destruct Hd.
Qed.

Lemma judge_events_none events assembler agent request_id results assembler' agent' :
  pc_fail_mode config = FailClosed ->
  judge_events config from_str events assembler agent request_id results = (None, assembler', agent') ->
  (push_all from_str assembler events).2 = assembler' /\
  forall r, r ∈ (push_all from_str assembler events).1 ->
    exists calls, r = Ok calls /\ call_group_ok request_id results calls.
Proof.
  intros Hf. revert assembler agent. induction events as [|e events IH]; intros assembler agent Hj.
  { injection Hj as <- _. split; [done|]. by intros r ?%elem_of_nil. }
  cbn [judge_events push_all] in *. destruct (push from_str assembler e) as [[calls|err] asm1]; rewrite ?Hf in Hj;
    [|done].
  destruct (judge_completed config agent request_id results calls) as [[reason|] agent1] eqn:Ej; [done|].
  destruct (IH _ _ Hj) as [Hs Hr]. destruct (push_all from_str asm1 events) as [rs s]. cbn in *.
  split; [done|]. intros r [->|Hin]%elem_of_cons; [|by apply Hr].
  exists calls. split; [done|]. by eapply judge_completed_none.
Qed.

(** No chunk is forwarded before the calls it completes were judged: with fail-closed
    inspection, a forwarded chunk that decoded was reassembled without overflow, every
    call it completed is within an enforced capability policy, and no group of calls
    it completed was denied by an enforced agent policy. *)
Theorem forwarded_chunk_judged (ctx : StreamContext) (st st' : StreamState) (agent agent' : AgentFirewall)
    (bytes : string) (recorded events : list Value) (d' : SseJsonDecoder) (assembler : StreamingToolCalls) :
  pc_fail_mode config = FailClosed -> ss_assembler st = Some assembler ->
  sse_push from_str (ss_decoder st) bytes = (Ok events, d') ->
  proxy_chunk config firewall from_str ctx st agent bytes = Some (Forward, recorded, st', agent') ->
  ss_assembler st' = Some (push_all from_str assembler events).2 /\
  forall r, r ∈ (push_all from_str assembler events).1 ->
    exists calls, r = Ok calls /\ call_group_ok (sc_request_id ctx) (sc_results ctx) calls.
Proof.
  intros Hf Hasm Hpush. unfold proxy_chunk, decode_chunk. rewrite Hasm, Hpush.
  destruct (_ <? _)%Z; [done|].
  destruct (judge_events _ _ _ _ _ _ _) as [[reason asm'] agent1] eqn:Ej.
  destruct reason as [reason|]; [done|]. intros (blocked & _ & [= _ _ <- _])%bind_Some.
  destruct (judge_events_none _ _ _ _ _ _ _ Hf Ej) as [-> Hr]. done.
Qed.

(** A cycle whose results and calls close the kill chain: some result contained the
    literal [lit], and some call repeats it destructively. *)
Definition closes_chain (agent : AgentFirewall) (session : string) (results : list string)
    (calls : list WireCall) : Prop :=
  exists content lit t call,
    content ∈ results /\ lit ∈ literals content /\
    lit_order (af_taint agent) session + length (results ≫= literals) <= tt_cap (af_taint agent) /\
    call ∈ calls /\ leaf t (wc_args call) /\ t <> EmptyString /\
    Str.contains lit (to_lowercase t) = true /\
    (classify (wc_name call) (wc_args call) = Destructive \/
     classify (wc_name call) (wc_args call) = PrivilegeChanging).

Lemma chain_refused `{!LiteralIterLaws} `{EntropyPlatform} (cap : nat) (before : list AgentEvent)
    (session : string) (results : list string) (calls : list WireCall) :
  let agent := inspect_all (agent_firewall_new default_policy cap) before in
  closes_chain agent session results calls ->
  sv_verdict (inspect_cycle agent session results calls).1 = Deny.
Proof.
  intros agent (content & lit & t & call & Hin & Hlit & Hb & Hcall & Hleaf & Hne & Hct & Hclass).
  by eapply cycle_call_denied.
Qed.

Lemma agent_refuses `{!LiteralIterLaws} `{EntropyPlatform} (cap : nat) (before : list AgentEvent)
    (session : string) (results : list string) (calls : list WireCall) :
  let agent := inspect_all (agent_firewall_new default_policy cap) before in
  pc_agent_enforce config = true -> closes_chain agent session results calls ->
  exists reason agent', agent_refuse_reason config agent session results calls = (Some reason, agent').
Proof.
  intros agent He Hc. pose proof (chain_refused cap before session results calls Hc) as Hd.
  unfold agent_refuse_reason. rewrite bool_decide_false.
  2:{ intros ->. destruct Hc as (? & ? & ? & ? & _ & _ & _ & Hin & _). by apply elem_of_nil in Hin. }
  fold agent in Hd. destruct (inspect_cycle agent session results calls) as [v a]. cbn [fst] in Hd.
  apply (refusal_deny v He) in Hd as [reason ->]. eauto.
Qed.

(** A buffered response that closes the kill chain is refused, on every wire and
    whatever the text pipeline says. *)
Theorem buffered_chain_refused `{!LiteralIterLaws} `{EntropyPlatform} (cap : nat)
    (before : list AgentEvent) (request_id : string) (events : list SecurityEvent) :
  let agent := inspect_all (agent_firewall_new default_policy cap) before in
  pc_agent_enabled config = true -> pc_agent_enforce config = true ->
  closes_chain agent request_id (input_tool_results events) (omap event_wire_call events) ->
  exists reason agent', check_response config firewall agent request_id events = Some (Some reason, agent').
Proof.
  intros agent Hen He Hc. unfold check_response.
  destruct (capability_refuse_events config events); [eauto|].
  unfold decide_output. destruct (run_spec firewall (output_text events) Output) as (? & o & -> & _).
  cbn [mbind option_bind]. case_bool_decide; [eauto|]. rewrite Hen. unfold agent_refuse_events, inspect_normalized_cycle.
  pose proof (chain_refused cap before request_id _ _ Hc) as Hd. fold agent in Hd.
  unfold input_tool_results in Hd.
  destruct (inspect_cycle agent request_id _ _) as [v a]. cbn [fst] in Hd.
  apply (refusal_deny v He) in Hd as [reason ->]. eauto.
Qed.

(** Judging the first events and then the rest is judging them all. *)
Lemma judge_events_app pre events assembler agent request_id results :
  judge_events config from_str (pre ++ events) assembler agent request_id results =
  match judge_events config from_str pre assembler agent request_id results with
  | (None, assembler, agent) => judge_events config from_str events assembler agent request_id results
  | refused => refused
  end.
Proof.
  revert assembler agent. induction pre as [|e pre IH]; intros assembler agent; [done|].
  cbn [app judge_events]. destruct (push from_str assembler e) as [[calls|err] s1], (pc_fail_mode config); try done;
    destruct (judge_completed _ _ _ _ _) as [[reason|] a1]; try done; apply IH.
Qed.

(** Judging calls shows the firewall the results of the request, perhaps again. *)
Lemma judge_completed_agent agent request_id results calls :
  exists evs, (judge_completed config agent request_id results calls).2 = inspect_all agent evs.
Proof.
  unfold judge_completed, agent_refuse_reason.
  destruct (bool_decide _); [by exists []|]. destruct (capability_refuse_calls config calls); [by exists []|].
  destruct (pc_agent_enabled config); [|by exists []].
  destruct (judge_worst agent request_id results calls) as (_ & _ & Hj).
  destruct (inspect_cycle agent request_id results calls) as [v a]. cbn [snd] in *. subst a. by eexists.
Qed.

Lemma judge_events_agent events assembler agent request_id results :
  exists evs, (judge_events config from_str events assembler agent request_id results).2 = inspect_all agent evs.
Proof.
  revert assembler agent. induction events as [|e events IH]; intros assembler agent; [by exists []|].
  cbn [judge_events]. destruct (push from_str assembler e) as [[calls|err] s1];
    [|destruct (pc_fail_mode config); [|by exists []]].
  all: match goal with |- context [judge_completed _ _ _ _ ?c] =>
         destruct (judge_completed_agent agent request_id results c) as [evs E] end;
    destruct (judge_completed _ _ _ _ _) as [[reason|] a1]; cbn [snd] in *; subst a1; [by exists evs|];
    destruct (IH s1 (inspect_all agent evs)) as [more ->]; exists (evs ++ more);
    unfold inspect_all; by rewrite fold_left_app.
Qed.

(** C2. A streamed response that closes the kill chain is cut before the chunk that
    completes the call reaches the client.  On the Chat and Anthropic wires, with the
    agent layer on and enforcing the shipped policy, whatever it inspected before: when a
    chunk decodes without an error and one of its events completes calls of which one
    repeats, destructively or with a change of privileges, a literal of one of the
    request's tool results, and the literals of those results fit into what is left
    of the session's literal table when the calls are judged, then the chunk is not
    forwarded and the client gets the block frame instead.  The chunk's earlier events may
    complete other calls, and anything may follow. *)
Theorem streamed_chain_blocked `{!LiteralIterLaws} `{EntropyPlatform} (cap : nat)
    (before : list AgentEvent) (ctx : StreamContext) (st : StreamState) (bytes : string)
    (pre post : list Value) (e : Value) (d' : SseJsonDecoder)
    (assembler asm1 asm2 : StreamingToolCalls) (calls : list WireCall)
    (earlier : option string) (agent1 : AgentFirewall) :
  let agent := inspect_all (agent_firewall_new default_policy cap) before in
  pc_agent_enabled config = true -> pc_agent_enforce config = true ->
  ss_assembler st = Some assembler ->
  sse_push from_str (ss_decoder st) bytes = (Ok (pre ++ e :: post), d') ->
  judge_events config from_str pre assembler agent (sc_request_id ctx) (sc_results ctx) = (earlier, asm1, agent1) ->
  push from_str asm1 e = (Ok calls, asm2) ->
  closes_chain agent1 (sc_request_id ctx) (sc_results ctx) calls ->
  exists reason st' agent',
    proxy_chunk config firewall from_str ctx st agent bytes = Some (Block reason, [], st', agent').
Proof.
  intros agent Hen He Hasm Hpush Hpre Hcall Hc. unfold proxy_chunk.
  destruct (_ <? _)%Z; [eauto|]. unfold decode_chunk. rewrite Hpush, Hasm, judge_events_app.
  pose proof (judge_events_agent pre assembler agent (sc_request_id ctx) (sc_results ctx)) as [evs Ha].
  rewrite Hpre in *. cbn [snd] in Ha. destruct earlier; [eauto|].
  cbn [judge_events]. rewrite Hcall. unfold judge_completed. rewrite bool_decide_false.
  2:{ intros ->. destruct Hc as (? & ? & ? & ? & _ & _ & _ & Hin & _). by apply elem_of_nil in Hin. }
  destruct (capability_refuse_calls config calls); [eauto|]. rewrite Hen.
  assert (agent1 = inspect_all (agent_firewall_new default_policy cap) (before ++ evs)) as ->.
  { rewrite Ha. unfold agent, inspect_all. by rewrite fold_left_app. }
  destruct (agent_refuses cap _ (sc_request_id ctx) (sc_results ctx) calls He Hc) as (reason & agent' & E).
  rewrite E. eauto.
Qed.
End enforcement_facts.

(** ** Limits and witnesses *)

(** A proxy with no text detectors; the capability policy grants [Read] only. *)
Definition demo_proxy_config (agent_on : bool) (tools : list string) : ProxyConfig :=
  mkProxyConfig agent_on agent_on FailClosed
    (mkCapabilityPolicy true true tools [] [] []) 64 (1024 * 1024).
Definition open_firewall : Firewall := firewall_new [] (mkPolicySet [] ActAllow).
Definition demo_context : StreamContext :=
  mkStreamContext "r1" ["http://a.example/x"] "prompt_tokens" "completion_tokens" true.
Definition demo_agent : AgentFirewall :=
  @inspect_all ascii_tables demo_engine demo_iter
    (@agent_firewall_new demo_engine demo_entropy default_policy 10) [].

Definition demo_destructive : string := "rm -rf ~ # http://A.example/x".
Definition demo_tool_frame : Value :=
  chat_frame [chat_delta [chat_fragment 0 (Some "Bash") demo_destructive] (JString "tool_calls")].
Definition demo_item (id : string) (name args : string) : Value :=
  JObject [("item", JObject [("arguments", JString args); ("call_id", JString id); ("name", JString name);
     ("type", JString "function_call")]); ("type", JString "response.output_item.done")].
(** A parser of four payloads. *)
Definition demo_json (s : string) : option Value :=
  if bool_decide (s = "call") then Some demo_tool_frame
  else if bool_decide (s = "read") then Some (demo_item "c1" "Read" "notes")
  else if bool_decide (s = "again") then Some (demo_item "c1" "Bash" demo_destructive)
  else if bool_decide (s = "other") then Some (demo_item "c2" "Bash" demo_destructive)
  else None.
Definition data_frame (payload : string) : string := "data: " +:+ payload +:+ lf_lf.

Definition demo_chunk (config : ProxyConfig) :
    StreamState -> AgentFirewall -> string -> option (chunk_outcome * list Value * StreamState * AgentFirewall) :=
  @proxy_chunk ascii_tables demo_engine demo_iter demo_text_crates config open_firewall demo_json demo_context.

Definition outcome_of {A B C} (o : option (chunk_outcome * A * B * C)) : option chunk_outcome :=
  (fun x => x.1.1.1) <$> o.

(** A frame that is not JSON hides the frames before it in its chunk: a call the
    capability policy refuses passes, with fail-closed inspection, when an
    undecodable frame follows it in the same chunk, and the end of the stream does
    not notice. *)
Theorem bad_frame_hides_call :
  let config := demo_proxy_config false ["Read"] in
  let st := stream_start (Some SPOpenAiChat) in
  (exists reason, outcome_of (demo_chunk config st demo_agent (data_frame "call")) = Some (Block reason)) /\
  let passed := demo_chunk config st demo_agent (data_frame "call" +:+ data_frame "oops") in
  outcome_of passed = Some Forward /\
  (fun x => (@stream_end ascii_tables demo_engine demo_iter config demo_json demo_context x.1.2 x.2).1) <$> passed
    = Some None.
Proof. split; [eexists; vm_compute; reflexivity|]. split; vm_compute; reflexivity. Qed.

(** On the Responses wire a call is identified by the id the upstream gives it: a
    second call under the id of an inspected one is not shown to the agent layer. *)
Theorem repeated_id_uninspected :
  let chunk := @responses_chunk ascii_tables demo_engine demo_iter demo_text_crates
    (demo_proxy_config true []) open_firewall demo_json (fun _ => EmptyString) demo_context
    responses_start demo_agent in
  (exists reason, outcome_of (chunk (data_frame "read" +:+ data_frame "other")) = Some (Block reason)) /\
  outcome_of (chunk (data_frame "read" +:+ data_frame "again")) = Some Forward.
Proof. split; [eexists; vm_compute; reflexivity|vm_compute; reflexivity]. Qed.

Lemma demo_closes_chain :
  @closes_chain ascii_tables demo_engine demo_agent "r1" ["http://a.example/x"]
    [mkWireCall "Bash" (JString demo_destructive)].
Proof.
  exists "http://a.example/x", "http://a.example/x", demo_destructive,
    (mkWireCall "Bash" (JString demo_destructive)).
  split_and!.
  - left.
  - vm_compute. left.
  - vm_compute. lia.
  - left.
  - constructor.
  - discriminate.
  - reflexivity.
  - left. reflexivity.
Defined.

Lemma streamed_chain_blocked_witness :
  exists reason st' agent',
    demo_chunk (demo_proxy_config true []) (stream_start (Some SPOpenAiChat)) demo_agent (data_frame "call")
    = Some (Block reason, [], st', agent').
Proof.
  apply (@streamed_chain_blocked ascii_tables demo_engine demo_iter demo_text_crates
    (demo_proxy_config true []) open_firewall demo_json demo_iter_laws demo_entropy 10 [] demo_context
    (stream_start (Some SPOpenAiChat)) (data_frame "call") [] [] demo_tool_frame decoder_default
    (streaming_new SPOpenAiChat) (streaming_new SPOpenAiChat)
    (mkStreaming SPOpenAiChat [] (MAX_STREAM_TOOL_CALL_BYTES - 29))
    [mkWireCall "Bash" (JString demo_destructive)] None demo_agent).
  - reflexivity.
  - reflexivity.
  - reflexivity.
  - vm_compute. reflexivity.
  - reflexivity.
  - vm_compute. reflexivity.
  - exact demo_closes_chain.
Defined.

Definition demo_response : list SecurityEvent :=
  [tool_result OpenAiChat (Some "c1") "http://a.example/x";
   tool_call OpenAiChat DOutput (Some "c2") "Bash" (JString demo_destructive)].

Lemma buffered_chain_refused_witness :
  exists reason agent',
    @check_response ascii_tables demo_engine demo_iter demo_text_crates (demo_proxy_config true [])
      open_firewall demo_agent "r1" demo_response = Some (Some reason, agent').
Proof.
  apply (@buffered_chain_refused ascii_tables demo_engine demo_iter demo_text_crates
    (demo_proxy_config true []) open_firewall demo_iter_laws demo_entropy 10 [] "r1" demo_response).
  - reflexivity.
  - reflexivity.
  - exact demo_closes_chain.
Defined.

(** An agent firewall without detectors. *)
Definition bare_agent : AgentFirewall := mkAgentFirewall default_policy [] (tracker_new 10) ∅.
Definition demo_forwarded : StreamState :=
  mkStreamState (data_frame "call") decoder_default evidence_default false
    (Some (mkStreaming SPOpenAiChat [] (MAX_STREAM_TOOL_CALL_BYTES - 29))).

Lemma forwarded_chunk_judged_witness :
  ss_assembler demo_forwarded = Some (push_all demo_json (streaming_new SPOpenAiChat) [demo_tool_frame]).2 /\
  forall r, r ∈ (push_all demo_json (streaming_new SPOpenAiChat) [demo_tool_frame]).1 ->
    exists calls, r = Ok calls /\
      @call_group_ok ascii_tables demo_engine demo_iter (demo_proxy_config true ["Bash"]) "r1" [] calls.
Proof.
  apply (@forwarded_chunk_judged ascii_tables demo_engine demo_iter demo_text_crates
    (demo_proxy_config true ["Bash"]) open_firewall demo_json
    (mkStreamContext "r1" [] "prompt_tokens" "completion_tokens" true)
    (stream_start (Some SPOpenAiChat)) demo_forwarded bare_agent bare_agent (data_frame "call") []
    [demo_tool_frame] decoder_default (streaming_new SPOpenAiChat)).
  - reflexivity.
  - reflexivity.
  - vm_compute. reflexivity.
  - vm_compute. reflexivity.
Defined.
