(* ===== verification/TenantDb.v ===== *)
(** The control plane's database ([proxy/src/tenant_store.rs]): its tables, what their
    constraints refuse, and the values the operations of [TenantDirectory],
    [TenantScim], [TenantSession], [TenantPolicy] and [TenantUsage] exchange with it.

    A table with a primary key is a [gmap] from the key to the row; a table with an
    [AUTOINCREMENT] key is a [Log], its rows in order of insertion with the next key.  A
    column with a [CHECK] on the stored spellings of an enumeration holds the enumeration
    itself; the spellings and their reading back are defined and shown to agree.  Columns
    [active INTEGER CHECK(active IN (0, 1))] are booleans.  Time and random bytes are
    arguments of the operations; SHA-256 is a parameter ([Sha256]). *)
From S2P Require Import Prelude BTree Net Json Spend.
From Stdlib Require Import String Ascii.
Local Open Scope string_scope.
Local Open Scope Z_scope.

#[local] Abbreviation length := List.length.

(** SHA-256, 32 bytes out. *)
Class Sha256 := sha256 : string -> string.
Class Sha256Laws `{Sha256} := sha256_len : forall s, Str.len (sha256 s) = 32%nat.

(** ** Roles and permissions *)

Inductive WorkspaceRole := Owner | Admin | Analyst | Developer.

Inductive WorkspacePermission :=
| ManageMembership | ManageIdentity | ManageTenant | ManageBilling | ManagePolicies
| ApprovePolicies | ManageServiceTokens | ManageOwnServiceTokens | ReadAudit | ReadUsage
| ExportUsage.

#[export] Instance WorkspaceRole_eq_dec : EqDecision WorkspaceRole.
Proof. solve_decision. Defined.
#[export] Instance WorkspacePermission_eq_dec : EqDecision WorkspacePermission.
Proof. solve_decision. Defined.

Definition role_permits (r : WorkspaceRole) (permission : WorkspacePermission) : bool :=
  match r with
  | Owner => true
  | Admin =>
      match permission with
      | ManageTenant | ManagePolicies | ManageServiceTokens | ReadAudit | ReadUsage | ExportUsage => true
      | _ => false
      end
  | Analyst => match permission with ReadAudit | ReadUsage | ExportUsage => true | _ => false end
  | Developer => match permission with ManageOwnServiceTokens => true | _ => false end
  end.

Definition role_storage_value (r : WorkspaceRole) : string :=
  match r with Owner => "owner" | Admin => "admin" | Analyst => "analyst" | Developer => "developer" end.

Definition role_from_storage (value : string) : result WorkspaceRole string :=
  if bool_decide (value = "owner") then Ok Owner
  else if bool_decide (value = "admin") then Ok Admin
  else if bool_decide (value = "analyst") then Ok Analyst
  else if bool_decide (value = "developer") then Ok Developer
  else Err "stored workspace role is invalid".

Inductive AdminRole := AdminOwner | AdminOperator | AdminViewer.

#[export] Instance AdminRole_eq_dec : EqDecision AdminRole.
Proof. solve_decision. Defined.

Definition admin_permits (r required : AdminRole) : bool :=
  match r, required with
  | AdminOwner, _ => true
  | AdminOperator, (AdminOperator | AdminViewer) => true
  | AdminViewer, AdminViewer => true
  | _, _ => false
  end.

Definition admin_storage_value (r : AdminRole) : string :=
  match r with AdminOwner => "owner" | AdminOperator => "operator" | AdminViewer => "viewer" end.

Definition admin_from_storage (value : string) : result AdminRole string :=
  if bool_decide (value = "owner") then Ok AdminOwner
  else if bool_decide (value = "operator") then Ok AdminOperator
  else if bool_decide (value = "viewer") then Ok AdminViewer
  else Err "stored admin role is invalid".

Inductive BrowserSessionFederation := Oidc | Saml.

#[export] Instance BrowserSessionFederation_eq_dec : EqDecision BrowserSessionFederation.
Proof. solve_decision. Defined.

Definition federation_as_storage (f : BrowserSessionFederation) : string :=
  match f with Oidc => "oidc" | Saml => "saml" end.

Definition federation_from_storage (value : string) : result BrowserSessionFederation string :=
  if bool_decide (value = "oidc") then Ok Oidc
  else if bool_decide (value = "saml") then Ok Saml
  else Err "invalid browser session federation kind".

Lemma storage_values_read_back (r : WorkspaceRole) (a : AdminRole) (f : BrowserSessionFederation) :
  role_from_storage (role_storage_value r) = Ok r /\ admin_from_storage (admin_storage_value a) = Ok a
  /\ federation_from_storage (federation_as_storage f) = Ok f.
Proof. by destruct r, a, f. Qed.

(** ** Rows *)

Record Tenant := mkTenant { tn_id : string; tn_name : string; tn_active : bool; tn_created_at_unix : Z }.

Record Organization := mkOrganization {
  og_id : string; og_name : string; og_active : bool; og_created_at_unix : Z }.

Record Workspace := mkWorkspace {
  wk_id : string; wk_organization_id : string; wk_tenant_id : string; wk_name : string;
  wk_active : bool; wk_created_at_unix : Z }.

Record WorkspacePrincipal := mkPrincipal {
  wp_id : string; wp_name : string; wp_active : bool; wp_created_at_unix : Z }.

Record WorkspaceExternalIdentity := mkIdentity {
  ei_issuer : string; ei_subject : string; ei_principal_id : string; ei_created_at_unix : Z }.

Record WorkspaceMembership := mkMembership {
  mb_workspace_id : string; mb_principal_id : string; mb_role : WorkspaceRole; mb_active : bool;
  mb_created_at_unix : Z; mb_updated_at_unix : Z }.

(** The stored row has the hash of the bearer beside the fields of the public view. *)
Record WorkspaceInvitation := mkInvitation {
  iv_id : string; iv_organization_id : string; iv_workspace_id : string; iv_token_hash : string;
  iv_recipient_label : string; iv_role : WorkspaceRole; iv_created_by_principal_id : string;
  iv_active : bool; iv_expires_at_unix : Z; iv_created_at_unix : Z; iv_revoked_at_unix : option Z;
  iv_accepted_by_principal_id : option string; iv_accepted_at_unix : option Z }.

Record WorkspaceServiceAccount := mkServiceAccount {
  sa_id : string; sa_workspace_id : string; sa_name : string; sa_created_by_principal_id : string;
  sa_token_hash : string; sa_active : bool; sa_expires_at_unix : Z; sa_created_at_unix : Z;
  sa_revoked_at_unix : option Z }.

Record TenantToken := mkTenantToken {
  tt_id : string; tt_tenant_id : string; tt_token_hash : string; tt_label : string;
  tt_active : bool; tt_created_at_unix : Z; tt_revoked_at_unix : option Z }.

Record ControlPlaneAdmin := mkAdmin {
  ad_id : string; ad_name : string; ad_token_hash : string; ad_role : AdminRole; ad_active : bool;
  ad_created_at_unix : Z; ad_revoked_at_unix : option Z }.

Record WorkspaceAdminAuditEvent := mkAdminAudit {
  aa_organization_id : string; aa_workspace_id : string; aa_actor_principal_id : option string;
  aa_action : string; aa_target_principal_id : option string; aa_created_at_unix : Z }.

Record TenantRateLimit := mkRateLimit { trl_requests_per_window : Z; trl_window_seconds : Z }.
Record TenantSpendLimit := mkTenantSpendLimit {
  tsl_window_seconds : Z; tsl_max_usd_micros : Z; tsl_reserve_usd_micros_per_request : Z }.
Record TenantLimits := mkLimits {
  tl_rate_limit : option TenantRateLimit; tl_spend_limit : option TenantSpendLimit }.

(** A row of [tenant_limits]: five nullable columns. *)
Record LimitsRow := mkLimitsRow {
  lr_rate_requests : option Z; lr_rate_window : option Z; lr_spend_window : option Z;
  lr_spend_max : option Z; lr_spend_reserve : option Z; lr_updated_at_unix : Z }.

Record TenantAuditEvent := mkTenantAudit {
  ta_tenant_id : string; ta_created_at_unix : Z; ta_path : string; ta_outcome : string;
  ta_status_code : Z; ta_latency_ms : Z }.

Record ScimToken := mkScimToken {
  st_id : string; st_organization_id : string; st_token_hash : string; st_label : string;
  st_active : bool; st_expires_at_unix : Z; st_created_at_unix : Z; st_revoked_at_unix : option Z }.

Record ScimUser := mkScimUser {
  su_id : string; su_organization_id : string; su_external_id : string; su_user_name : string;
  su_display_name : string; su_active : bool; su_created_at_unix : Z; su_updated_at_unix : Z }.

(** A row of [scim_groups]; the members are rows of [scim_group_members]. *)
Record ScimGroupRow := mkScimGroupRow {
  sg_id : string; sg_organization_id : string; sg_external_id : string; sg_display_name : string;
  sg_active : bool; sg_created_at_unix : Z; sg_updated_at_unix : Z }.

Record ScimAudit := mkScimAudit {
  sx_organization_id : string; sx_scim_token_id : option string; sx_action : string;
  sx_target : string; sx_created_at_unix : Z }.

Record MappingAudit := mkMappingAudit {
  mx_organization_id : string; mx_workspace_id : string; mx_actor_principal_id : option string;
  mx_group_id : string; mx_action : string; mx_created_at_unix : Z }.

Record OrganizationOidcConnection := mkOidcConnection {
  oc_organization_id : string; oc_issuer : string; oc_client_id : string; oc_redirect_uri : string;
  oc_active : bool; oc_created_at_unix : Z; oc_updated_at_unix : Z }.

Record OrganizationSamlConnection := mkSamlConnection {
  sc_organization_id : string; sc_entity_id : string; sc_metadata_xml : string;
  sc_metadata_signing_cert_pem : string; sc_active : bool; sc_created_at_unix : Z;
  sc_updated_at_unix : Z }.

Record OidcAuthorizationState := mkOidcState {
  os_state_hash : string; os_organization_id : string; os_expires_at_unix : Z;
  os_consumed_at_unix : option Z; os_created_at_unix : Z }.

Record SamlAuthorizationPending := mkSamlPending {
  sp_organization_id : string; sp_workspace_id : string; sp_invitation_id : option string;
  sp_request_id : string; sp_idp_entity_id : string; sp_expected_binding : string;
  sp_request_binding : string; sp_acs_url : string; sp_acs_binding : string }.

Record SamlAuthorizationState := mkSamlState {
  ss_state_hash : string; ss_pending : SamlAuthorizationPending; ss_expires_at_unix : Z;
  ss_consumed_at_unix : option Z; ss_created_at_unix : Z }.

Record OidcBrowserSessionRow := mkSessionRow {
  bs_session_hash : string; bs_organization_id : string; bs_workspace_id : string;
  bs_principal_id : string; bs_federation_kind : BrowserSessionFederation; bs_expires_at_unix : Z;
  bs_revoked_at_unix : option Z; bs_created_at_unix : Z }.

Record TenantModelPolicy := mkModelPolicy { allowed_models : list string }.

Record TenantPolicyDocument := mkPolicyDocument {
  pd_schema_version : Z; pd_model_policy : option TenantModelPolicy }.

(** A row of [tenant_policy_versions]: the document as JSON text. *)
Record PolicyVersionRow := mkVersionRow {
  pv_id : string; pv_tenant_id : string; pv_sequence : Z; pv_document_json : string;
  pv_content_sha256 : string; pv_created_by : string; pv_created_at_unix : Z }.

Record PolicyApproval := mkApproval { pa_approved_by : string; pa_approved_at_unix : Z }.

Inductive PolicyDeploymentAction := Activate | Rollback.

Record TenantPolicyDeployment := mkDeployment {
  dp_id : string; dp_tenant_id : string; dp_sequence : Z; dp_version_id : string;
  dp_previous_version_id : option string; dp_action : PolicyDeploymentAction; dp_actor_id : string;
  dp_created_at_unix : Z }.

Record SecurityEventRow := mkSecurityEvent {
  se_id : string; se_tenant_id : string; se_sequence : Z; se_event_type : string;
  se_payload_json : string; se_content_sha256 : string; se_occurred_at_unix : Z }.

Record WebhookDestinationRow := mkDestinationRow {
  wd_id : string; wd_tenant_id : string; wd_url : string; wd_event_types_json : string;
  wd_active : bool; wd_created_at_unix : Z; wd_updated_at_unix : Z }.

Inductive WebhookDeliveryStatus := Pending | InFlight | Delivered | Dead.

Record WebhookDelivery := mkDelivery {
  wv_id : string; wv_tenant_id : string; wv_event_id : string; wv_destination_id : string;
  wv_status : WebhookDeliveryStatus; wv_attempt_count : Z; wv_next_attempt_at_unix : Z;
  wv_locked_until_unix : option Z; wv_delivered_at_unix : option Z; wv_last_http_status : option Z;
  wv_last_error : option string; wv_created_at_unix : Z }.

Inductive UsageReconciliationStatus := Matched | Mismatched | Orphan | Ambiguous.

Record UsageReconciliationRun := mkReconciliationRun {
  rr_id : string; rr_tenant_id : string; rr_source : string; rr_statement_id : string;
  rr_statement_hash : string; rr_actor_admin_id : string; rr_record_count : Z; rr_matched_count : Z;
  rr_mismatched_count : Z; rr_orphan_count : Z; rr_ambiguous_count : Z; rr_created_at_unix : Z }.

Record UsageReconciliationObservation := mkObservation {
  ro_run_id : string; ro_tenant_id : string; ro_source_record_id : string;
  ro_usage_event_id : option Z; ro_provider : string; ro_provider_response_id : string;
  ro_input_tokens : option Z; ro_output_tokens : option Z; ro_cost_usd_micros : option Z;
  ro_status : UsageReconciliationStatus; ro_created_at_unix : Z }.

Record UsageRetentionRun := mkRetentionRun {
  rn_id : string; rn_tenant_id : string; rn_actor_admin_id : string; rn_retention_days : Z;
  rn_cutoff_unix : Z; rn_executed : bool; rn_eligible_event_count : Z;
  rn_protected_reconciliation_event_count : Z; rn_eligible_input_tokens : Z;
  rn_eligible_output_tokens : Z; rn_eligible_cost_usd_micros : Z; rn_deleted_event_count : Z;
  rn_created_at_unix : Z }.

Record UsageQuotaPolicy := mkQuotaPolicy {
  qp_request_limit : option Z; qp_token_limit : option Z; qp_cost_usd_micros_limit : option Z;
  qp_alert_threshold_basis_points : Z }.

#[export] Instance PolicyDeploymentAction_eq_dec : EqDecision PolicyDeploymentAction.
Proof. solve_decision. Defined.
#[export] Instance WebhookDeliveryStatus_eq_dec : EqDecision WebhookDeliveryStatus.
Proof. solve_decision. Defined.
#[export] Instance UsageReconciliationStatus_eq_dec : EqDecision UsageReconciliationStatus.
Proof. solve_decision. Defined.

(** ** Tables *)

(** A table with an [INTEGER PRIMARY KEY AUTOINCREMENT]. *)
Record Log (A : Type) := mkLog { log_rows : list (Z * A); log_next : Z }.
Arguments mkLog {A}. Arguments log_rows {A}. Arguments log_next {A}.

Definition log_empty {A} : Log A := mkLog [] 1.

Definition log_append {A} (x : A) (l : Log A) : Log A :=
  mkLog (log_rows l ++ [(log_next l, x)]) (log_next l + 1).

Definition log_delete {A} (p : Z * A -> bool) (l : Log A) : Log A :=
  mkLog (filter (fun r => p r = false) (log_rows l)) (log_next l).

(** Customers and their workspaces. *)
Record Directory := mkDirectory {
  organizations : gmap string Organization;
  tenants : gmap string Tenant;
  workspaces : gmap string Workspace;
  principals : gmap string WorkspacePrincipal;
  identities : gmap (string * string) WorkspaceExternalIdentity;
  memberships : gmap (string * string) WorkspaceMembership;
  invitations : gmap string WorkspaceInvitation;
  service_accounts : gmap string WorkspaceServiceAccount;
  tenant_tokens : gmap string TenantToken;
  admins : gmap string ControlPlaneAdmin;
  limits : gmap string LimitsRow;
  admin_audit : Log WorkspaceAdminAuditEvent;
  tenant_audit : Log TenantAuditEvent }.

(** The directory an identity provider provisions. *)
Record ScimTables := mkScimTables {
  scim_tokens : gmap string ScimToken;
  scim_users : gmap string ScimUser;
  scim_groups : gmap string ScimGroupRow;
  group_members : gmap (string * string) Z;
  mappings : gmap (string * string) (Z * Z);
  scim_audit : Log ScimAudit;
  scim_group_audit : Log ScimAudit;
  mapping_audit : Log MappingAudit }.

(** Identity-provider connections, logins under way and browser sessions. *)
Record FederationTables := mkFederationTables {
  oidc_connections : gmap string OrganizationOidcConnection;
  saml_connections : gmap string OrganizationSamlConnection;
  oidc_states : gmap string OidcAuthorizationState;
  saml_states : gmap string SamlAuthorizationState;
  sessions : gmap string OidcBrowserSessionRow }.

(** Tenant policies, their deployments and the webhooks that announce them. *)
Record PolicyTables := mkPolicyTables {
  model_policies : gmap string (string * Z);
  policy_versions : gmap string PolicyVersionRow;
  policy_approvals : gmap string PolicyApproval;
  policy_state : gmap string (string * Z);
  policy_deployments : gmap string TenantPolicyDeployment;
  security_events : gmap string SecurityEventRow;
  webhook_destinations : gmap string WebhookDestinationRow;
  webhook_deliveries : gmap string WebhookDelivery }.

(** Usage evidence, its reconciliation and retention. *)
Record UsageTables := mkUsageTables {
  usage_events : Log NewUsageEvent;
  reconciliation_runs : gmap string UsageReconciliationRun;
  observations : Log UsageReconciliationObservation;
  retention_policies : gmap string (Z * string * Z);
  retention_runs : gmap string UsageRetentionRun;
  quota_policies : gmap string (UsageQuotaPolicy * string * Z) }.

(** The database. *)
Record Db := mkDb {
  db_dir :> Directory;
  db_scim :> ScimTables;
  db_fed :> FederationTables;
  db_pol :> PolicyTables;
  db_usage :> UsageTables }.

(** Replacing one table. *)
Definition upd_organizations (g : gmap string Organization -> gmap string Organization) (db : Db) : Db :=
  mkDb (mkDirectory (g (organizations db)) (tenants db) (workspaces db) (principals db)
    (identities db) (memberships db) (invitations db) (service_accounts db) (tenant_tokens db)
    (admins db) (limits db) (admin_audit db) (tenant_audit db)) (db_scim db) (db_fed db) (db_pol db)
    (db_usage db).
Definition upd_tenants (g : gmap string Tenant -> gmap string Tenant) (db : Db) : Db :=
  mkDb (mkDirectory (organizations db) (g (tenants db)) (workspaces db) (principals db)
    (identities db) (memberships db) (invitations db) (service_accounts db) (tenant_tokens db)
    (admins db) (limits db) (admin_audit db) (tenant_audit db)) (db_scim db) (db_fed db) (db_pol db)
    (db_usage db).
Definition upd_workspaces (g : gmap string Workspace -> gmap string Workspace) (db : Db) : Db :=
  mkDb (mkDirectory (organizations db) (tenants db) (g (workspaces db)) (principals db)
    (identities db) (memberships db) (invitations db) (service_accounts db) (tenant_tokens db)
    (admins db) (limits db) (admin_audit db) (tenant_audit db)) (db_scim db) (db_fed db) (db_pol db)
    (db_usage db).
Definition upd_principals (g : gmap string WorkspacePrincipal -> gmap string WorkspacePrincipal) (db : Db) : Db :=
  mkDb (mkDirectory (organizations db) (tenants db) (workspaces db) (g (principals db))
    (identities db) (memberships db) (invitations db) (service_accounts db) (tenant_tokens db)
    (admins db) (limits db) (admin_audit db) (tenant_audit db)) (db_scim db) (db_fed db) (db_pol db)
    (db_usage db).
Definition upd_identities (g : gmap (string * string) WorkspaceExternalIdentity -> gmap (string * string) WorkspaceExternalIdentity) (db : Db) : Db :=
  mkDb (mkDirectory (organizations db) (tenants db) (workspaces db) (principals db) (g (identities
    db)) (memberships db) (invitations db) (service_accounts db) (tenant_tokens db) (admins db)
    (limits db) (admin_audit db) (tenant_audit db)) (db_scim db) (db_fed db) (db_pol db) (db_usage
    db).
Definition upd_memberships (g : gmap (string * string) WorkspaceMembership -> gmap (string * string) WorkspaceMembership) (db : Db) : Db :=
  mkDb (mkDirectory (organizations db) (tenants db) (workspaces db) (principals db) (identities
    db) (g (memberships db)) (invitations db) (service_accounts db) (tenant_tokens db) (admins db)
    (limits db) (admin_audit db) (tenant_audit db)) (db_scim db) (db_fed db) (db_pol db) (db_usage
    db).
Definition upd_invitations (g : gmap string WorkspaceInvitation -> gmap string WorkspaceInvitation) (db : Db) : Db :=
  mkDb (mkDirectory (organizations db) (tenants db) (workspaces db) (principals db) (identities
    db) (memberships db) (g (invitations db)) (service_accounts db) (tenant_tokens db) (admins db)
    (limits db) (admin_audit db) (tenant_audit db)) (db_scim db) (db_fed db) (db_pol db) (db_usage
    db).
Definition upd_service_accounts (g : gmap string WorkspaceServiceAccount -> gmap string WorkspaceServiceAccount) (db : Db) : Db :=
  mkDb (mkDirectory (organizations db) (tenants db) (workspaces db) (principals db) (identities
    db) (memberships db) (invitations db) (g (service_accounts db)) (tenant_tokens db) (admins db)
    (limits db) (admin_audit db) (tenant_audit db)) (db_scim db) (db_fed db) (db_pol db) (db_usage
    db).
Definition upd_tenant_tokens (g : gmap string TenantToken -> gmap string TenantToken) (db : Db) : Db :=
  mkDb (mkDirectory (organizations db) (tenants db) (workspaces db) (principals db) (identities
    db) (memberships db) (invitations db) (service_accounts db) (g (tenant_tokens db)) (admins db)
    (limits db) (admin_audit db) (tenant_audit db)) (db_scim db) (db_fed db) (db_pol db) (db_usage
    db).
Definition upd_admins (g : gmap string ControlPlaneAdmin -> gmap string ControlPlaneAdmin) (db : Db) : Db :=
  mkDb (mkDirectory (organizations db) (tenants db) (workspaces db) (principals db) (identities
    db) (memberships db) (invitations db) (service_accounts db) (tenant_tokens db) (g (admins db))
    (limits db) (admin_audit db) (tenant_audit db)) (db_scim db) (db_fed db) (db_pol db) (db_usage
    db).
Definition upd_limits (g : gmap string LimitsRow -> gmap string LimitsRow) (db : Db) : Db :=
  mkDb (mkDirectory (organizations db) (tenants db) (workspaces db) (principals db) (identities
    db) (memberships db) (invitations db) (service_accounts db) (tenant_tokens db) (admins db) (g
    (limits db)) (admin_audit db) (tenant_audit db)) (db_scim db) (db_fed db) (db_pol db) (db_usage
    db).
Definition upd_admin_audit (g : Log WorkspaceAdminAuditEvent -> Log WorkspaceAdminAuditEvent) (db : Db) : Db :=
  mkDb (mkDirectory (organizations db) (tenants db) (workspaces db) (principals db) (identities
    db) (memberships db) (invitations db) (service_accounts db) (tenant_tokens db) (admins db)
    (limits db) (g (admin_audit db)) (tenant_audit db)) (db_scim db) (db_fed db) (db_pol db)
    (db_usage db).
Definition upd_tenant_audit (g : Log TenantAuditEvent -> Log TenantAuditEvent) (db : Db) : Db :=
  mkDb (mkDirectory (organizations db) (tenants db) (workspaces db) (principals db) (identities
    db) (memberships db) (invitations db) (service_accounts db) (tenant_tokens db) (admins db)
    (limits db) (admin_audit db) (g (tenant_audit db))) (db_scim db) (db_fed db) (db_pol db)
    (db_usage db).
Definition upd_scim_tokens (g : gmap string ScimToken -> gmap string ScimToken) (db : Db) : Db :=
  mkDb (db_dir db) (mkScimTables (g (scim_tokens db)) (scim_users db) (scim_groups db)
    (group_members db) (mappings db) (scim_audit db) (scim_group_audit db) (mapping_audit db))
    (db_fed db) (db_pol db) (db_usage db).
Definition upd_scim_users (g : gmap string ScimUser -> gmap string ScimUser) (db : Db) : Db :=
  mkDb (db_dir db) (mkScimTables (scim_tokens db) (g (scim_users db)) (scim_groups db)
    (group_members db) (mappings db) (scim_audit db) (scim_group_audit db) (mapping_audit db))
    (db_fed db) (db_pol db) (db_usage db).
Definition upd_scim_groups (g : gmap string ScimGroupRow -> gmap string ScimGroupRow) (db : Db) : Db :=
  mkDb (db_dir db) (mkScimTables (scim_tokens db) (scim_users db) (g (scim_groups db))
    (group_members db) (mappings db) (scim_audit db) (scim_group_audit db) (mapping_audit db))
    (db_fed db) (db_pol db) (db_usage db).
Definition upd_group_members (g : gmap (string * string) Z -> gmap (string * string) Z) (db : Db) : Db :=
  mkDb (db_dir db) (mkScimTables (scim_tokens db) (scim_users db) (scim_groups db) (g
    (group_members db)) (mappings db) (scim_audit db) (scim_group_audit db) (mapping_audit db))
    (db_fed db) (db_pol db) (db_usage db).
Definition upd_mappings (g : gmap (string * string) (Z * Z) -> gmap (string * string) (Z * Z)) (db : Db) : Db :=
  mkDb (db_dir db) (mkScimTables (scim_tokens db) (scim_users db) (scim_groups db) (group_members
    db) (g (mappings db)) (scim_audit db) (scim_group_audit db) (mapping_audit db)) (db_fed db)
    (db_pol db) (db_usage db).
Definition upd_scim_audit (g : Log ScimAudit -> Log ScimAudit) (db : Db) : Db :=
  mkDb (db_dir db) (mkScimTables (scim_tokens db) (scim_users db) (scim_groups db) (group_members
    db) (mappings db) (g (scim_audit db)) (scim_group_audit db) (mapping_audit db)) (db_fed db)
    (db_pol db) (db_usage db).
Definition upd_scim_group_audit (g : Log ScimAudit -> Log ScimAudit) (db : Db) : Db :=
  mkDb (db_dir db) (mkScimTables (scim_tokens db) (scim_users db) (scim_groups db) (group_members
    db) (mappings db) (scim_audit db) (g (scim_group_audit db)) (mapping_audit db)) (db_fed db)
    (db_pol db) (db_usage db).
Definition upd_mapping_audit (g : Log MappingAudit -> Log MappingAudit) (db : Db) : Db :=
  mkDb (db_dir db) (mkScimTables (scim_tokens db) (scim_users db) (scim_groups db) (group_members
    db) (mappings db) (scim_audit db) (scim_group_audit db) (g (mapping_audit db))) (db_fed db)
    (db_pol db) (db_usage db).
Definition upd_oidc_connections (g : gmap string OrganizationOidcConnection -> gmap string OrganizationOidcConnection) (db : Db) : Db :=
  mkDb (db_dir db) (db_scim db) (mkFederationTables (g (oidc_connections db)) (saml_connections
    db) (oidc_states db) (saml_states db) (sessions db)) (db_pol db) (db_usage db).
Definition upd_saml_connections (g : gmap string OrganizationSamlConnection -> gmap string OrganizationSamlConnection) (db : Db) : Db :=
  mkDb (db_dir db) (db_scim db) (mkFederationTables (oidc_connections db) (g (saml_connections
    db)) (oidc_states db) (saml_states db) (sessions db)) (db_pol db) (db_usage db).
Definition upd_oidc_states (g : gmap string OidcAuthorizationState -> gmap string OidcAuthorizationState) (db : Db) : Db :=
  mkDb (db_dir db) (db_scim db) (mkFederationTables (oidc_connections db) (saml_connections db) (g
    (oidc_states db)) (saml_states db) (sessions db)) (db_pol db) (db_usage db).
Definition upd_saml_states (g : gmap string SamlAuthorizationState -> gmap string SamlAuthorizationState) (db : Db) : Db :=
  mkDb (db_dir db) (db_scim db) (mkFederationTables (oidc_connections db) (saml_connections db)
    (oidc_states db) (g (saml_states db)) (sessions db)) (db_pol db) (db_usage db).
Definition upd_sessions (g : gmap string OidcBrowserSessionRow -> gmap string OidcBrowserSessionRow) (db : Db) : Db :=
  mkDb (db_dir db) (db_scim db) (mkFederationTables (oidc_connections db) (saml_connections db)
    (oidc_states db) (saml_states db) (g (sessions db))) (db_pol db) (db_usage db).
Definition upd_model_policies (g : gmap string (string * Z) -> gmap string (string * Z)) (db : Db) : Db :=
  mkDb (db_dir db) (db_scim db) (db_fed db) (mkPolicyTables (g (model_policies db))
    (policy_versions db) (policy_approvals db) (policy_state db) (policy_deployments db)
    (security_events db) (webhook_destinations db) (webhook_deliveries db)) (db_usage db).
Definition upd_policy_versions (g : gmap string PolicyVersionRow -> gmap string PolicyVersionRow) (db : Db) : Db :=
  mkDb (db_dir db) (db_scim db) (db_fed db) (mkPolicyTables (model_policies db) (g
    (policy_versions db)) (policy_approvals db) (policy_state db) (policy_deployments db)
    (security_events db) (webhook_destinations db) (webhook_deliveries db)) (db_usage db).
Definition upd_policy_approvals (g : gmap string PolicyApproval -> gmap string PolicyApproval) (db : Db) : Db :=
  mkDb (db_dir db) (db_scim db) (db_fed db) (mkPolicyTables (model_policies db) (policy_versions
    db) (g (policy_approvals db)) (policy_state db) (policy_deployments db) (security_events db)
    (webhook_destinations db) (webhook_deliveries db)) (db_usage db).
Definition upd_policy_state (g : gmap string (string * Z) -> gmap string (string * Z)) (db : Db) : Db :=
  mkDb (db_dir db) (db_scim db) (db_fed db) (mkPolicyTables (model_policies db) (policy_versions
    db) (policy_approvals db) (g (policy_state db)) (policy_deployments db) (security_events db)
    (webhook_destinations db) (webhook_deliveries db)) (db_usage db).
Definition upd_policy_deployments (g : gmap string TenantPolicyDeployment -> gmap string TenantPolicyDeployment) (db : Db) : Db :=
  mkDb (db_dir db) (db_scim db) (db_fed db) (mkPolicyTables (model_policies db) (policy_versions
    db) (policy_approvals db) (policy_state db) (g (policy_deployments db)) (security_events db)
    (webhook_destinations db) (webhook_deliveries db)) (db_usage db).
Definition upd_security_events (g : gmap string SecurityEventRow -> gmap string SecurityEventRow) (db : Db) : Db :=
  mkDb (db_dir db) (db_scim db) (db_fed db) (mkPolicyTables (model_policies db) (policy_versions
    db) (policy_approvals db) (policy_state db) (policy_deployments db) (g (security_events db))
    (webhook_destinations db) (webhook_deliveries db)) (db_usage db).
Definition upd_webhook_destinations (g : gmap string WebhookDestinationRow -> gmap string WebhookDestinationRow) (db : Db) : Db :=
  mkDb (db_dir db) (db_scim db) (db_fed db) (mkPolicyTables (model_policies db) (policy_versions
    db) (policy_approvals db) (policy_state db) (policy_deployments db) (security_events db) (g
    (webhook_destinations db)) (webhook_deliveries db)) (db_usage db).
Definition upd_webhook_deliveries (g : gmap string WebhookDelivery -> gmap string WebhookDelivery) (db : Db) : Db :=
  mkDb (db_dir db) (db_scim db) (db_fed db) (mkPolicyTables (model_policies db) (policy_versions
    db) (policy_approvals db) (policy_state db) (policy_deployments db) (security_events db)
    (webhook_destinations db) (g (webhook_deliveries db))) (db_usage db).
Definition upd_usage_events (g : Log NewUsageEvent -> Log NewUsageEvent) (db : Db) : Db :=
  mkDb (db_dir db) (db_scim db) (db_fed db) (db_pol db) (mkUsageTables (g (usage_events db))
    (reconciliation_runs db) (observations db) (retention_policies db) (retention_runs db)
    (quota_policies db)).
Definition upd_reconciliation_runs (g : gmap string UsageReconciliationRun -> gmap string UsageReconciliationRun) (db : Db) : Db :=
  mkDb (db_dir db) (db_scim db) (db_fed db) (db_pol db) (mkUsageTables (usage_events db) (g
    (reconciliation_runs db)) (observations db) (retention_policies db) (retention_runs db)
    (quota_policies db)).
Definition upd_observations (g : Log UsageReconciliationObservation -> Log UsageReconciliationObservation) (db : Db) : Db :=
  mkDb (db_dir db) (db_scim db) (db_fed db) (db_pol db) (mkUsageTables (usage_events db)
    (reconciliation_runs db) (g (observations db)) (retention_policies db) (retention_runs db)
    (quota_policies db)).
Definition upd_retention_policies (g : gmap string (Z * string * Z) -> gmap string (Z * string * Z)) (db : Db) : Db :=
  mkDb (db_dir db) (db_scim db) (db_fed db) (db_pol db) (mkUsageTables (usage_events db)
    (reconciliation_runs db) (observations db) (g (retention_policies db)) (retention_runs db)
    (quota_policies db)).
Definition upd_retention_runs (g : gmap string UsageRetentionRun -> gmap string UsageRetentionRun) (db : Db) : Db :=
  mkDb (db_dir db) (db_scim db) (db_fed db) (db_pol db) (mkUsageTables (usage_events db)
    (reconciliation_runs db) (observations db) (retention_policies db) (g (retention_runs db))
    (quota_policies db)).
Definition upd_quota_policies (g : gmap string (UsageQuotaPolicy * string * Z) -> gmap string (UsageQuotaPolicy * string * Z)) (db : Db) : Db :=
  mkDb (db_dir db) (db_scim db) (db_fed db) (db_pol db) (mkUsageTables (usage_events db)
    (reconciliation_runs db) (observations db) (retention_policies db) (retention_runs db) (g
    (quota_policies db))).

(** The empty database with the bootstrap organization, as [open] leaves a new file. *)
Definition BOOTSTRAP_ORGANIZATION_ID : string := "org_bootstrap".

Definition open_empty (now : Z) : Db :=
  mkDb
    (mkDirectory {[ BOOTSTRAP_ORGANIZATION_ID := mkOrganization BOOTSTRAP_ORGANIZATION_ID "Bootstrap organization" true now ]} ∅ ∅ ∅ ∅ ∅ ∅ ∅ ∅ ∅ ∅ log_empty log_empty)
    (mkScimTables ∅ ∅ ∅ ∅ ∅ log_empty log_empty log_empty)
    (mkFederationTables ∅ ∅ ∅ ∅ ∅)
    (mkPolicyTables ∅ ∅ ∅ ∅ ∅ ∅ ∅ ∅)
    (mkUsageTables log_empty ∅ log_empty ∅ ∅ ∅).

(** ** Queries *)

(** The rows of a table. *)
Definition rows {K V} `{Countable K} (t : gmap K V) : list V := (map_to_list t).*2.

(** [SELECT 1 FROM t WHERE p]. *)
Definition any {K V} `{Countable K} (p : V -> bool) (t : gmap K V) : bool := existsb p (rows t).

(** [SELECT * FROM t WHERE p], at most one row wanted. *)
Definition find_row {K V} `{Countable K} (p : V -> bool) (t : gmap K V) : option V :=
  List.find p (rows t).

Definition has {K V} `{Countable K} (k : K) (t : gmap K V) : bool := bool_decide (is_Some (t !! k)).

(** [ORDER BY f ASC], with the rows of equal keys in table order. *)
Definition key_le {A K} `{Ord K} (f : A -> K) (a b : A) : bool :=
  match cmp (f a) (f b) with Gt => false | _ => true end.
Definition order_by {A K} `{Ord K} (f : A -> K) (l : list A) : list A := sort_by (key_le f) l.

(** [LIMIT n] after [limit.clamp(1, max)]. *)
Definition clamp_limit (n max : nat) : nat := Nat.min (Nat.max n 1) max.

(** [COALESCE(MAX(sequence), 0) + 1]. *)
Definition next_sequence (l : list Z) : Z := foldr Z.max 0 l + 1.

Section query_lemmas.
Context {K V : Type} `{Countable K}.
Implicit Types (t : gmap K V) (p : V -> bool).

Lemma elem_of_rows t (v : V) : v ∈ rows t <-> exists k, t !! k = Some v.
Proof.
  unfold rows. rewrite list_elem_of_fmap. split.
  - intros [[k v'] [-> Hin]]. exists k. by apply elem_of_map_to_list.
  - intros [k Hk]. exists (k, v). split; [done|]. by apply elem_of_map_to_list.
Qed.

Lemma any_true p t : any p t = true <-> exists k v, t !! k = Some v /\ p v = true.
Proof.
  unfold any. rewrite existsb_exists. split.
  - intros [v [Hin Hp]]. apply list_elem_of_In, elem_of_rows in Hin as [k Hk]. eauto.
  - intros (k & v & Hk & Hp). exists v. split; [|done]. apply list_elem_of_In, elem_of_rows. eauto.
Qed.

Lemma any_false p t : any p t = false <-> forall k v, t !! k = Some v -> p v = false.
Proof.
  rewrite <- not_true_iff_false, any_true. split.
  - intros Hn k v Hk. destruct (p v) eqn:Hp; [|done]. destruct Hn. eauto.
  - intros Hall (k & v & Hk & Hp). rewrite (Hall k v Hk) in Hp. done.
Qed.

Lemma find_row_some p t (v : V) : find_row p t = Some v -> (exists k, t !! k = Some v) /\ p v = true.
Proof.
  intros Hf. apply List.find_some in Hf as [Hin Hp]. split; [|done].
  by apply elem_of_rows, list_elem_of_In.
Qed.

Lemma find_row_none p t : find_row p t = None -> forall k v, t !! k = Some v -> p v = false.
Proof.
  intros Hf k v Hk. apply (List.find_none _ _ Hf). apply list_elem_of_In, elem_of_rows. eauto.
Qed.

Lemma find_row_is_some p t (k : K) (v : V) :
  t !! k = Some v -> p v = true -> exists v', find_row p t = Some v'.
Proof.
  intros Hk Hp. destruct (find_row p t) as [v'|] eqn:Hf; [by eauto|].
  by rewrite (find_row_none _ _ Hf k v Hk) in Hp.
Qed.

(** A query that at most one row answers. *)
Lemma find_row_unique p t (k : K) (v : V) :
  t !! k = Some v -> p v = true ->
  (forall k' v', t !! k' = Some v' -> p v' = true -> v' = v) ->
  find_row p t = Some v.
Proof.
  intros Hk Hp Hu. destruct (find_row_is_some p t k v Hk Hp) as [v' Hf].
  rewrite Hf. f_equal. apply find_row_some in Hf as [[k' Hk'] Hp']. eauto.
Qed.

Lemma has_true k t : has k t = true <-> is_Some (t !! k).
Proof. apply bool_decide_eq_true. Qed.
Lemma has_false k t : has k t = false <-> t !! k = None.
Proof. unfold has. rewrite bool_decide_eq_false, <- eq_None_not_Some. done. Qed.
End query_lemmas.

Lemma next_sequence_gt (l : list Z) (n : Z) : n ∈ l -> n < next_sequence l.
Proof.
  unfold next_sequence. induction l as [|x l IH]; [by intros ?%elem_of_nil|].
  intros [->|Hin]%elem_of_cons; cbn; [lia|]. specialize (IH Hin). lia.
Qed.

Lemma next_sequence_pos (l : list Z) : 0 < next_sequence l.
Proof. unfold next_sequence. induction l; cbn; lia. Qed.

(** ** Operations *)

(** An operation keeps the database of the statements that committed, also when it fails. *)
Definition Op (A : Type) : Type := Db -> result A string * Db.

(** One transaction: a failure rolls back. *)
Definition atomically {A} (f : Db -> result (A * Db) string) : Op A := fun db =>
  match f db with Ok (x, db') => (Ok x, db') | Err e => (Err e, db) end.

(** A query outside a transaction. *)
Definition reading {A} (f : Db -> result A string) : Op A := fun db => (f db, db).

Lemma atomically_ok {A} (f : Db -> result (A * Db) string) (db db' : Db) (x : A) :
  atomically f db = (Ok x, db') <-> f db = Ok (x, db').
Proof. unfold atomically. destruct (f db) as [[? ?]|]; naive_solver. Qed.

Lemma atomically_err {A} (f : Db -> result (A * Db) string) (db db' : Db) (e : string) :
  atomically f db = (Err e, db') -> db' = db.
Proof. unfold atomically. destruct (f db) as [[? ?]|]; naive_solver. Qed.

(** A property every successful run of a transaction preserves, the operation preserves. *)
Lemma atomically_preserves {A} (f : Db -> result (A * Db) string) (P : Db -> Prop) (db : Db) :
  P db -> (forall x db', f db = Ok (x, db') -> P db') -> P (atomically f db).2.
Proof. unfold atomically. intros Hp Hf. destruct (f db) as [[x db']|]; cbn; eauto. Qed.

(** ** Random identifiers and credentials *)

Definition BASE64URL_TABLE : string := "ABCDEFGHIJKLMNOPQRSTUVWXYZabcdefghijklmnopqrstuvwxyz0123456789-_".

Definition table_at (n : Z) : ascii := default "A"%char (Str.get (Z.to_nat n) BASE64URL_TABLE).

Definition byte_value (a : ascii) : Z := Z.of_N (N_of_ascii a).

(** The four 6-bit groups of a 24-bit word. *)
Definition sextet (value : Z) (shift : Z) : ascii := table_at (Z.land (Z.shiftr value shift) 63).

Fixpoint base64url (bytes : string) : string :=
  match bytes with
  | String a (String b (String c rest)) =>
      let value := Z.lor (Z.lor (Z.shiftl (byte_value a) 16) (Z.shiftl (byte_value b) 8)) (byte_value c) in
      String (sextet value 18) (String (sextet value 12) (String (sextet value 6) (String (sextet value 0)
        (base64url rest))))
  | String a (String b EmptyString) =>
      let value := Z.lor (Z.shiftl (byte_value a) 16) (Z.shiftl (byte_value b) 8) in
      String (sextet value 18) (String (sextet value 12) (String (sextet value 6) EmptyString))
  | String a EmptyString =>
      let value := Z.shiftl (byte_value a) 16 in
      String (sextet value 18) (String (sextet value 12) EmptyString)
  | EmptyString => EmptyString
  end.

(** [random_id(prefix)]; [random] are the bytes the generator filled in. *)
Definition random_id (prefix random : string) : string := prefix +:+ "_" +:+ base64url random.

Definition workspace_id_for_tenant (tenant_id : string) : string := "workspace_" +:+ tenant_id.
Definition generate_token (random : string) : string := "llmfw_" +:+ base64url random.
Definition generate_admin_token (random : string) : string := "llmfw_admin_" +:+ base64url random.
Definition generate_scim_token (random : string) : string := "llmfw_scim_" +:+ base64url random.
Definition generate_service_account_token (random : string) : string := "llmfw_sa_" +:+ base64url random.
Definition generate_workspace_invitation_token (random : string) : string :=
  "llmfw_invite_" +:+ base64url random.
Definition generate_oidc_browser_session_token (random : string) : string := base64url random.

(** ** Validation of the texts operations are given *)

Definition validate_label (value field : string) (max_len : Z) : result string string :=
  let value := Str.trim value in
  bail_if (Str.is_empty value) with (field +:+ " cannot be empty") in
  bail_if (max_len <? Z.of_nat (Str.len value)) with (field +:+ " cannot exceed " +:+ show_usize max_len +:+ " bytes") in
  Ok value.

Definition validate_external_identity_component (value field : string) (max_len : Z) : result string string :=
  bail_if (Str.is_empty value) with (field +:+ " cannot be empty") in
  bail_if (max_len <? Z.of_nat (Str.len value)) with (field +:+ " cannot exceed " +:+ show_usize max_len +:+ " bytes") in
  bail_if (has_control value) with (field +:+ " cannot contain control characters") in
  Ok value.

Definition validate_usage_text (value field : string) (max_bytes : Z) : result unit string :=
  bail_if (Str.is_empty value || (max_bytes <? Z.of_nat (Str.len value)) || has_control value)
    with (field +:+ " is invalid") in
  Ok tt.

(** [i64::try_from] on an optional [u64]. *)
Definition optional_database_integer (value : option Z) (field : string) : result (option Z) string :=
  match value with
  | None => Ok None
  | Some v => bail_if (i64_max <? v) with (field +:+ " exceeds database range") in Ok (Some v)
  end.

Section hashes.
Context `{Sha256}.

Definition token_hash (token : string) : string := sha256 ("llm-firewall-tenant-token-v1:" +:+ token).

Definition scim_token_hash (token : string) : result string string :=
  let? token := validate_external_identity_component token "SCIM token" 256 in
  bail_if (negb (Str.starts_with "llmfw_scim_" token)) with "invalid SCIM token" in
  Ok (sha256 ("llm-firewall-scim-token-v1:" +:+ token)).

Definition workspace_invitation_token_hash (token : string) : result string string :=
  let? token := validate_external_identity_component token "workspace invitation token" 256 in
  bail_if (negb (Str.starts_with "llmfw_invite_" token)) with "invalid workspace invitation token" in
  Ok (sha256 ("llm-firewall-workspace-invitation-v1:" +:+ token)).

Definition oidc_authorization_state_hash (state : string) : result string string :=
  let? state := validate_external_identity_component state "OIDC state" 8192 in
  Ok (sha256 ("llm-firewall-oidc-authorization-state-v1:" +:+ state)).

Definition oidc_browser_session_hash (token : string) : result string string :=
  let? token := validate_external_identity_component token "OIDC browser session" 256 in
  Ok (sha256 ("llm-firewall-oidc-browser-session-v1:" +:+ token)).
End hashes.

(** ** Lifetimes *)

(** Both ends of a lifetime: after now, and not past the longest allowed. *)
Definition expiry_outside (now max expires_at_unix : Z) : bool :=
  (expires_at_unix <=? now) || (now + max <? expires_at_unix).

Definition validate_service_account_expiry (now expires_at_unix : Z) : result unit string :=
  bail_if (expiry_outside now (366 * 24 * 60 * 60) expires_at_unix)
    with "service-account expiry must be in the next 366 days" in Ok tt.

Definition validate_workspace_invitation_expiry (now expires_at_unix : Z) : result unit string :=
  bail_if (expiry_outside now (7 * 24 * 60 * 60) expires_at_unix)
    with "workspace invitation expiry must be in the next seven days" in Ok tt.

Definition validate_oidc_authorization_state_expiry (now expires_at_unix : Z) : result unit string :=
  bail_if (expiry_outside now 600 expires_at_unix)
    with "OIDC authorization state expiry must be between one second and ten minutes from now" in Ok tt.

Definition validate_oidc_browser_session_expiry (now expires_at_unix : Z) : result unit string :=
  bail_if (expiry_outside now (24 * 60 * 60) expires_at_unix)
    with "OIDC browser session expiry must be between one second and twenty-four hours from now" in Ok tt.

Definition validate_scim_token_expiry (now expires_at_unix : Z) : result unit string :=
  bail_if (expiry_outside now (365 * 24 * 60 * 60) expires_at_unix)
    with "SCIM token expiry must be between one second and one year from now" in Ok tt.

(** ** Distinct random bytes give distinct credentials *)

Lemma lor_shift (y x n : Z) : 0 <= n -> 0 <= x < 2 ^ n -> Z.lor (Z.shiftl y n) x = y * 2 ^ n + x.
Proof.
  intros Hn Hx. rewrite <- Z.shiftl_mul_pow2 by done. symmetry.
  apply Z.add_nocarry_lor. apply Z.bits_inj'. intros i Hi.
  rewrite Z.land_spec, Z.bits_0. destruct (decide (i < n)).
  - by rewrite Z.shiftl_spec_low.
  - assert (2 ^ n <= 2 ^ i) by (apply Z.pow_le_mono_r; lia).
    rewrite (Z.testbit_eqb x i), Z.div_small by lia. by rewrite andb_false_r.
Qed.

Lemma byte_value_range (a : ascii) : 0 <= byte_value a < 256.
Proof. unfold byte_value. pose proof (N_ascii_bounded a). lia. Qed.

Lemma byte_value_inj (a b : ascii) : byte_value a = byte_value b -> a = b.
Proof.
  unfold byte_value. intros Hab. rewrite <- (ascii_N_embedding a), <- (ascii_N_embedding b).
  f_equal. lia.
Qed.

Definition table_ok : bool :=
  forallb (fun i => forallb (fun j =>
    implb (bool_decide (table_at (Z.of_nat i) = table_at (Z.of_nat j))) (i =? j)%nat)
    (seq 0 64)) (seq 0 64).

Lemma table_at_inj (i j : Z) : 0 <= i < 64 -> 0 <= j < 64 -> table_at i = table_at j -> i = j.
Proof.
  intros Hi Hj Hij. assert (table_ok = true) as Hok by (vm_compute; reflexivity).
  unfold table_ok in Hok. rewrite forallb_forall in Hok.
  assert (In (Z.to_nat i) (seq 0 64) /\ In (Z.to_nat j) (seq 0 64)) as [Hini Hinj]
    by (split; apply in_seq; lia).
  specialize (Hok _ Hini). rewrite forallb_forall in Hok. specialize (Hok _ Hinj).
  rewrite !Z2Nat.id in Hok by lia. rewrite bool_decide_eq_true_2 in Hok by done. cbn in Hok.
  apply Nat.eqb_eq in Hok. lia.
Qed.

Lemma sextet_inj (v w s : Z) : 0 <= s -> sextet v s = sextet w s ->
  (v / 2 ^ s) mod 64 = (w / 2 ^ s) mod 64.
Proof.
  unfold sextet. intros Hn Hs. rewrite <- !Z.shiftr_div_pow2 by done.
  change 64 with (2 ^ 6). rewrite <- !Z.land_ones by done. change (Z.ones 6) with 63.
  apply table_at_inj; [..|done]; change 63 with (Z.ones 6); rewrite Z.land_ones by done;
    apply Z.mod_pos_bound; done.
Qed.

Lemma word_digits (v : Z) : 0 <= v < 16777216 ->
  v = (v / 262144) mod 64 * 262144 + (v / 4096) mod 64 * 4096 + (v / 64) mod 64 * 64 + (v / 1) mod 64.
Proof.
  intros Hv. rewrite Z.div_1_r.
  assert (v / 64 / 64 / 64 < 64) by (apply Z.div_lt_upper_bound; [lia|]; apply Z.div_lt_upper_bound; [lia|];
    apply Z.div_lt_upper_bound; lia).
  assert (0 <= v / 64 / 64 / 64) by (repeat apply Z.div_pos; lia).
  replace (v / 4096) with (v / 64 / 64) by (rewrite Z.div_div; [done|lia..]).
  replace (v / 262144) with (v / 64 / 64 / 64) by (rewrite !Z.div_div; [done|lia..]).
  rewrite (Z.mod_small (v / 64 / 64 / 64)) by lia.
  pose proof (Z.div_mod v 64). pose proof (Z.div_mod (v / 64) 64). pose proof (Z.div_mod (v / 64 / 64) 64). lia.
Qed.

(** A word of three bytes is determined by the four characters that encode it. *)
Lemma word_inj (a b c a' b' c' : ascii) :
  let word x y z := Z.lor (Z.lor (Z.shiftl (byte_value x) 16) (Z.shiftl (byte_value y) 8)) (byte_value z) in
  sextet (word a b c) 18 = sextet (word a' b' c') 18 ->
  sextet (word a b c) 12 = sextet (word a' b' c') 12 ->
  sextet (word a b c) 6 = sextet (word a' b' c') 6 ->
  sextet (word a b c) 0 = sextet (word a' b' c') 0 ->
  a = a' /\ b = b' /\ c = c'.
Proof.
  intros word.
  assert (Hw : forall x y z, word x y z = byte_value x * 65536 + byte_value y * 256 + byte_value z).
  { intros x y z. unfold word. pose proof (byte_value_range y). pose proof (byte_value_range z).
    rewrite <- Z.lor_assoc, (lor_shift _ _ 8), (lor_shift _ _ 16) by lia. lia. }
  rewrite !Hw. clear Hw.
  pose proof (byte_value_range a); pose proof (byte_value_range b); pose proof (byte_value_range c).
  pose proof (byte_value_range a'); pose proof (byte_value_range b'); pose proof (byte_value_range c').
  intros E1%sextet_inj E2%sextet_inj E3%sextet_inj E4%sextet_inj; [|lia..].
  assert (byte_value a = byte_value a' /\ byte_value b = byte_value b' /\ byte_value c = byte_value c')
    as (Ha & Hb & Hc).
  { change (2 ^ 18) with 262144 in E1. change (2 ^ 12) with 4096 in E2. change (2 ^ 6) with 64 in E3.
    change (2 ^ 0) with 1 in E4. revert E1 E2 E3 E4.
    set (v := byte_value a * 65536 + _ + _). set (w := byte_value a' * 65536 + _ + _). intros E1 E2 E3 E4.
    assert (v = w) as Hvw.
    { rewrite (word_digits v), (word_digits w), E1, E2, E3, E4 by (unfold v, w; lia). done. }
    clear E1 E2 E3 E4. unfold v, w in Hvw. lia. }
  by apply byte_value_inj in Ha, Hb, Hc.
Qed.

Lemma sextet_zero (v w s : Z) : 0 <= s -> (v / 2 ^ s) mod 64 = 0 -> (w / 2 ^ s) mod 64 = 0 ->
  sextet v s = sextet w s.
Proof.
  intros Hn Hv Hw. unfold sextet. change 63 with (Z.ones 6).
  rewrite !Z.land_ones, !Z.shiftr_div_pow2 by done. change (2 ^ 6) with 64. by rewrite Hv, Hw.
Qed.

Lemma shifted_low (x n s : Z) : 0 <= s -> s + 6 <= n -> (Z.shiftl x n / 2 ^ s) mod 64 = 0.
Proof.
  intros Hs Hn. rewrite Z.shiftl_mul_pow2 by lia. replace n with ((n - s - 6) + 6 + s) by lia.
  rewrite !Z.pow_add_r by lia. rewrite !Z.mul_assoc, Z.div_mul by (apply Z.pow_nonzero; lia).
  change (2 ^ 6) with 64. apply Z.mod_mul. lia.
Qed.

Lemma base64url_inj (s t : string) : base64url s = base64url t -> s = t.
Proof.
  assert (forall n s t, (Str.len s < n)%nat -> base64url s = base64url t -> s = t) as Hn; [|apply (Hn (S (Str.len s))); lia].
  clear s t. induction n as [|n IH]; [lia|]. intros s t Hlen.
  assert (Hz : byte_value Ascii.zero = 0) by done.
  assert (Hlow : forall x y, (Z.lor (Z.shiftl x 16) (Z.shiftl y 8) / 2 ^ 0) mod 64 = 0).
  { intros x y. replace (Z.shiftl x 16) with (Z.shiftl (Z.shiftl x 8) 8) by (by rewrite Z.shiftl_shiftl).
    rewrite <- Z.shiftl_lor. apply shifted_low; lia. }
  destruct s as [|a [|b [|c s]]], t as [|a' [|b' [|c' t]]]; cbn [base64url]; intros Heq; try done;
    injection Heq; clear Heq.
  - intros E1 E2. destruct (word_inj a Ascii.zero Ascii.zero a' Ascii.zero Ascii.zero) as (-> & _ & _); [..|done];
      rewrite !Hz, !Z.shiftl_0_l, !Z.lor_0_r; [done..| |]; apply sextet_zero; try lia; apply shifted_low; lia.
  - intros E1 E2 E3. destruct (word_inj a b Ascii.zero a' b' Ascii.zero) as (-> & -> & _); [..|done];
      rewrite !Hz, !Z.lor_0_r; [done..|]. by apply sextet_zero.
  - intros E1 E2 E3 E4 E5. destruct (word_inj a b c a' b' c') as (-> & -> & ->); [done..|].
    do 3 f_equal. apply IH; [cbn in Hlen; unfold Str.len; lia|done].
Qed.
