(* ===== verification/TenantDirectory.v ===== *)
(** Organizations, tenants, workspaces and who belongs to them
    ([proxy/src/tenant_store.rs]): the operations of the control plane on the directory
    tables, each one transaction on the database of [TenantDb].

    [now] is the clock, [random] and [random'] the bytes the generator hands out.  A
    statement that a constraint refuses is an error with the context the source gives
    it. *)
From S2P Require Import Prelude BTree Net TenantDb.
From Stdlib Require Import String Ascii.
Local Open Scope string_scope.
Local Open Scope Z_scope.

#[local] Abbreviation length := List.length.

(** The rows of a table that satisfy [p]. *)
Definition keep {K V} `{Countable K} (p : V -> bool) (t : gmap K V) : gmap K V :=
  filter (fun kv => p kv.2 = true) t.

Lemma keep_lookup {K V} `{Countable K} (p : V -> bool) (t : gmap K V) (k : K) (v : V) :
  keep p t !! k = Some v <-> t !! k = Some v /\ p v = true.
Proof. unfold keep. rewrite map_lookup_filter_Some. done. Qed.

(** ** Authorization inside a transaction *)

(** The join every customer mutation starts with: the workspace, its organization and
    tenant, the principal and its membership exist and are active. *)
Definition authorized_member (workspace_id principal_id : string) (db : Db) :
    option (Workspace * WorkspaceRole) :=
  w ← workspaces db !! workspace_id;
  o ← organizations db !! wk_organization_id w;
  t ← tenants db !! wk_tenant_id w;
  p ← principals db !! principal_id;
  m ← memberships db !! (workspace_id, principal_id);
  if wk_active w && og_active o && tn_active t && wp_active p && mb_active m
  then Some (w, mb_role m) else None.

Definition not_permitted : string := "customer workspace action is not permitted".

(** The member's role grants one of the permissions. *)
Definition authorized_with (workspace_id principal_id : string) (granted : WorkspaceRole -> bool) (db : Db) :
    result (Workspace * WorkspaceRole) string :=
  match authorized_member workspace_id principal_id db with
  | Some (w, role) => if granted role then Ok (w, role) else Err not_permitted
  | None => Err not_permitted
  end.

(** The organization of a workspace, for one of its active owners. *)
Definition authorized_workspace_owner (workspace_id actor_principal_id : string) (db : Db) :
    result string string :=
  match authorized_member workspace_id actor_principal_id db with
  | Some (w, role) => if bool_decide (role = Owner) then Ok (wk_organization_id w) else Err not_permitted
  | None => Err not_permitted
  end.

Definition append_admin_audit (organization_id workspace_id : string) (actor : option string)
    (action : string) (target : option string) (now : Z) (db : Db) : Db :=
  upd_admin_audit (log_append (mkAdminAudit organization_id workspace_id actor action target now)) db.

(** ** Organizations and tenants *)

Definition create_organization (now : Z) (random name : string) : Op Organization :=
  atomically (fun db =>
    let? name := validate_label name "organization name" 128 in
    let organization := mkOrganization (random_id "org" random) name true now in
    bail_if (has (og_id organization) (organizations db)
             || any (fun o => bool_decide (og_name o = name)) (organizations db))
      with "failed to create organization" in
    Ok (organization, upd_organizations <[og_id organization := organization]> db)).

Definition list_organizations : Op (list Organization) :=
  reading (fun db => Ok (order_by (fun o => (og_created_at_unix o, og_id o)) (rows (organizations db)))).

Definition set_organization_active (organization_id : string) (active : bool) : Op bool :=
  atomically (fun db =>
    bail_if (bool_decide (organization_id = BOOTSTRAP_ORGANIZATION_ID) && negb active)
      with "the bootstrap organization cannot be suspended" in
    match organizations db !! organization_id with
    | None => Ok (false, db)
    | Some o =>
        Ok (true, upd_organizations
                    <[organization_id := mkOrganization (og_id o) (og_name o) active (og_created_at_unix o)]> db)
    end).

Definition create_tenant_in_organization (now : Z) (random organization_id name : string) : Op Tenant :=
  atomically (fun db =>
    let? name := validate_label name "tenant name" 128 in
    let tenant := mkTenant (random_id "tenant" random) name true now in
    match organizations db !! organization_id with
    | None => Err "organization not found"
    | Some o =>
        bail_if (negb (og_active o)) with "cannot create a tenant in an inactive organization" in
        bail_if (has (tn_id tenant) (tenants db)
                 || any (fun t => bool_decide (tn_name t = name)) (tenants db))
          with "failed to create tenant" in
        let workspace := mkWorkspace (workspace_id_for_tenant (tn_id tenant)) organization_id
                           (tn_id tenant) name true now in
        bail_if (has (wk_id workspace) (workspaces db)
                 || any (fun w => bool_decide (wk_tenant_id w = tn_id tenant)
                                  || bool_decide (wk_organization_id w = organization_id /\ wk_name w = name))
                      (workspaces db))
          with "failed to create tenant workspace" in
        Ok (tenant, upd_workspaces <[wk_id workspace := workspace]>
                      (upd_tenants <[tn_id tenant := tenant]> db))
    end).

Definition create_tenant (now : Z) (random name : string) : Op Tenant :=
  create_tenant_in_organization now random BOOTSTRAP_ORGANIZATION_ID name.

Definition list_tenants : Op (list Tenant) :=
  reading (fun db => Ok (order_by (fun t => (tn_created_at_unix t, tn_id t)) (rows (tenants db)))).

Definition set_tenant_active (tenant_id : string) (active : bool) : Op bool :=
  atomically (fun db =>
    match tenants db !! tenant_id with
    | None => Ok (false, db)
    | Some t =>
        Ok (true, upd_tenants <[tenant_id := mkTenant (tn_id t) (tn_name t) active (tn_created_at_unix t)]> db)
    end).

(** Rows of a tenant that [ON DELETE RESTRICT] protects. *)
Definition tenant_restricted (tenant_id : string) (db : Db) : bool :=
  let mine t := bool_decide (t = tenant_id) in
  any (fun v => mine (pv_tenant_id v)) (policy_versions db)
  || any (fun d => mine (dp_tenant_id d)) (policy_deployments db)
  || any (fun e => mine (se_tenant_id e)) (security_events db)
  || any (fun d => mine (wd_tenant_id d)) (webhook_destinations db)
  || any (fun d => mine (wv_tenant_id d)) (webhook_deliveries db)
  || existsb (fun r => mine (Spend.ue_tenant_id r.2)) (log_rows (usage_events db))
  || any (fun r => mine (rr_tenant_id r)) (reconciliation_runs db)
  || existsb (fun r => mine (ro_tenant_id r.2)) (log_rows (observations db))
  || has tenant_id (retention_policies db)
  || any (fun r => mine (rn_tenant_id r)) (retention_runs db)
  || has tenant_id (quota_policies db).

(** The workspaces of a tenant go with it, and their rows with them. *)
Definition delete_workspaces (gone : string -> bool) (db : Db) : Db :=
  let stays w := negb (gone w) in
  let kept_invitation iv := stays (iv_workspace_id iv) in
  let db := upd_saml_states (keep (fun s =>
              stays (sp_workspace_id (ss_pending s))
              && match sp_invitation_id (ss_pending s) with
                 | Some i => match invitations db !! i with Some iv => kept_invitation iv | None => true end
                 | None => true
                 end)) db in
  let db := upd_sessions (keep (fun s => stays (bs_workspace_id s))) db in
  let db := upd_memberships (keep (fun m => stays (mb_workspace_id m))) db in
  let db := upd_invitations (keep kept_invitation) db in
  let db := upd_service_accounts (keep (fun a => stays (sa_workspace_id a))) db in
  let db := upd_mappings (filter (fun kv => stays kv.1.1 = true)) db in
  let db := upd_mapping_audit (log_delete (fun r => gone (mx_workspace_id r.2))) db in
  let db := upd_admin_audit (log_delete (fun r => gone (aa_workspace_id r.2))) db in
  upd_workspaces (keep (fun w => stays (wk_id w))) db.

Definition delete_tenant (tenant_id : string) : Op bool :=
  atomically (fun db =>
    if has tenant_id (tenants db) then
      bail_if (tenant_restricted tenant_id db) with "failed to delete tenant" in
      let gone w := match workspaces db !! w with
                    | Some row => bool_decide (wk_tenant_id row = tenant_id) | None => false end in
      let db := delete_workspaces gone db in
      let db := upd_tenant_tokens (keep (fun t => negb (bool_decide (tt_tenant_id t = tenant_id)))) db in
      let db := upd_limits (delete tenant_id) db in
      let db := upd_model_policies (delete tenant_id) db in
      let db := upd_policy_state (delete tenant_id) db in
      let db := upd_tenant_audit (log_delete (fun r => bool_decide (ta_tenant_id r.2 = tenant_id))) db in
      Ok (true, upd_tenants (delete tenant_id) db)
    else Ok (false, db)).

(** ** Workspaces *)

Definition list_organization_workspaces (organization_id : string) : Op (list Workspace) :=
  reading (fun db => Ok (order_by (fun w => (wk_created_at_unix w, wk_id w))
    (filter (fun w => wk_organization_id w = organization_id) (rows (workspaces db))))).

Definition active_workspace_in_organization (organization_id workspace_id : string) : Op bool :=
  reading (fun db => Ok
    match workspaces db !! workspace_id with
    | Some w =>
        bool_decide (wk_organization_id w = organization_id) && wk_active w
        && match organizations db !! wk_organization_id w with Some o => og_active o | None => false end
    | None => false
    end).

Definition workspace_for_tenant (tenant_id : string) : Op (option Workspace) :=
  reading (fun db => Ok (find_row (fun w => bool_decide (wk_tenant_id w = tenant_id)) (workspaces db))).

Definition active_workspace_by_id (workspace_id : string) : Op (option Workspace) :=
  reading (fun db => Ok (
    w ← workspaces db !! workspace_id;
    o ← organizations db !! wk_organization_id w;
    t ← tenants db !! wk_tenant_id w;
    if wk_active w && og_active o && tn_active t then Some w else None)).

(** ** Principals and their identities *)

Definition create_workspace_principal (now : Z) (random name : string) : Op WorkspacePrincipal :=
  atomically (fun db =>
    let? name := validate_label name "principal name" 128 in
    let principal := mkPrincipal (random_id "principal" random) name true now in
    bail_if (has (wp_id principal) (principals db)) with "failed to create workspace principal" in
    Ok (principal, upd_principals <[wp_id principal := principal]> db)).

(** [PRIMARY KEY(issuer, subject)] and [UNIQUE(principal_id, issuer)]. *)
Definition identity_conflict (issuer subject principal_id : string) (db : Db) : bool :=
  has (issuer, subject) (identities db)
  || any (fun i => bool_decide (ei_principal_id i = principal_id /\ ei_issuer i = issuer)) (identities db).

Definition link_workspace_external_identity (now : Z) (principal_id issuer subject : string) :
    Op WorkspaceExternalIdentity :=
  atomically (fun db =>
    let? issuer := validate_external_identity_component issuer "identity issuer" 2048 in
    let? subject := validate_external_identity_component subject "identity subject" 255 in
    let identity := mkIdentity issuer subject principal_id now in
    match principals db !! principal_id with
    | Some p =>
        bail_if (negb (wp_active p)) with "workspace principal not found or inactive" in
        bail_if (identity_conflict issuer subject principal_id db)
          with "failed to link workspace external identity" in
        Ok (identity, upd_identities <[(issuer, subject) := identity]> db)
    | None => Err "workspace principal not found or inactive"
    end).

Definition workspace_principal_for_external_identity (issuer subject : string) : Op (option WorkspacePrincipal) :=
  reading (fun db =>
    let? issuer := validate_external_identity_component issuer "identity issuer" 2048 in
    let? subject := validate_external_identity_component subject "identity subject" 255 in
    Ok (i ← identities db !! (issuer, subject);
        p ← principals db !! ei_principal_id i;
        if wp_active p then Some p else None)).

(** ** Memberships *)

(** A principal the organization's directory does not manage, or manages and has active. *)
Definition scim_allows (organization_id principal_id : string) (db : Db) : bool :=
  match scim_users db !! principal_id with
  | None => true
  | Some u => bool_decide (su_organization_id u = organization_id) && su_active u
  end.

(** [INSERT ... ON CONFLICT(workspace_id, principal_id) DO UPDATE]. *)
Definition upsert_membership (workspace_id principal_id : string) (role : WorkspaceRole) (now : Z) (db : Db) : Db :=
  upd_memberships (fun t =>
    <[(workspace_id, principal_id) :=
        match t !! (workspace_id, principal_id) with
        | Some m => mkMembership workspace_id principal_id role true (mb_created_at_unix m) now
        | None => mkMembership workspace_id principal_id role true now now
        end]> t) db.

Definition read_membership (workspace_id principal_id : string) (context : string) (db : Db) :
    result WorkspaceMembership string :=
  ok_or (memberships db !! (workspace_id, principal_id)) context.

Definition set_workspace_membership (now : Z) (workspace_id principal_id : string) (role : WorkspaceRole) :
    Op WorkspaceMembership :=
  atomically (fun db =>
    match workspaces db !! workspace_id, principals db !! principal_id with
    | Some w, Some p =>
        match organizations db !! wk_organization_id w with
        | None => Err "workspace or principal not found"
        | Some o =>
            bail_if (negb (og_active o)) with "cannot assign a membership to an inactive organization" in
            bail_if (negb (wk_active w)) with "cannot assign a membership to an inactive workspace" in
            bail_if (negb (wp_active p)) with "cannot assign an inactive principal" in
            bail_if (negb (scim_allows (wk_organization_id w) principal_id db))
              with "cannot assign a membership to an inactive or cross-organization SCIM user" in
            let db := upsert_membership workspace_id principal_id role now db in
            let db := append_admin_audit (og_id o) workspace_id None "membership.upsert" (Some principal_id) now db in
            let? membership := read_membership workspace_id principal_id "failed to read saved workspace membership" db in
            Ok (membership, db)
        end
    | _, _ => Err "workspace or principal not found"
    end).

(** A member as customers see it: the membership with the principal's name. *)
Definition list_workspace_members (workspace_id : string) : Op (list (WorkspaceMembership * string)) :=
  reading (fun db => Ok (order_by (fun r => (if mb_active r.1 then 0 else 1, (r.2, mb_principal_id r.1)))
    (omap (fun m =>
       if bool_decide (mb_workspace_id m = workspace_id)
       then p ← principals db !! mb_principal_id m; Some (m, wp_name p) else None)
     (rows (memberships db))))).

(** [COUNT] of the active owners of a workspace. *)
Definition owner_count (workspace_id : string) (db : Db) : nat :=
  length (filter (fun m => mb_workspace_id m = workspace_id /\ mb_active m = true /\ mb_role m = Owner)
    (rows (memberships db))).

Definition update_workspace_membership_as_owner (now : Z)
    (workspace_id actor_principal_id target_principal_id : string) (role : WorkspaceRole) (active : bool) :
    Op WorkspaceMembership :=
  atomically (fun db =>
    let? organization_id := authorized_workspace_owner workspace_id actor_principal_id db in
    match memberships db !! (workspace_id, target_principal_id),
          principals db !! target_principal_id, workspaces db !! workspace_id with
    | Some target, Some p, Some w =>
        bail_if (negb (wp_active p && scim_allows (wk_organization_id w) target_principal_id db))
          with "workspace membership target is not active or not found" in
        bail_if (bool_decide (mb_role target = Owner) && mb_active target
                 && (negb active || bool_decide (role <> Owner))
                 && (owner_count workspace_id db <=? 1)%nat)
          with "cannot remove or demote the last active workspace owner" in
        let membership := mkMembership workspace_id target_principal_id role active
                            (mb_created_at_unix target) now in
        let db := upd_memberships <[(workspace_id, target_principal_id) := membership]> db in
        let db := append_admin_audit organization_id workspace_id (Some actor_principal_id)
                    "membership.update" (Some target_principal_id) now db in
        let? membership := read_membership workspace_id target_principal_id
                             "failed to read customer workspace membership" db in
        Ok (membership, db)
    | _, _, _ => Err "workspace membership target is not active or not found"
    end).

Definition list_workspace_admin_audit (workspace_id : string) (limit : nat) :
    Op (list (Z * WorkspaceAdminAuditEvent)) :=
  reading (fun db => Ok (take (clamp_limit limit 500)
    (reverse (filter (fun r => aa_workspace_id r.2 = workspace_id) (log_rows (admin_audit db)))))).

(** ** Invitations *)

Section invitations.
Context `{Sha256}.

Definition create_workspace_invitation_as_owner (now : Z) (random random' : string)
    (workspace_id actor_principal_id recipient_label : string) (role : WorkspaceRole) (expires_at_unix : Z) :
    Op (WorkspaceInvitation * string) :=
  atomically (fun db =>
    let? _ := validate_workspace_invitation_expiry now expires_at_unix in
    let token := generate_workspace_invitation_token random in
    let? label := validate_label recipient_label "invitation recipient label" 128 in
    let? organization_id := authorized_workspace_owner workspace_id actor_principal_id db in
    let? hash := workspace_invitation_token_hash token in
    let invitation := mkInvitation (random_id "invitation" random') organization_id workspace_id hash label
                        role actor_principal_id true expires_at_unix now None None None in
    bail_if (has (iv_id invitation) (invitations db)
             || any (fun iv => bool_decide (iv_token_hash iv = hash)) (invitations db))
      with "failed to create workspace invitation" in
    let db := upd_invitations <[iv_id invitation := invitation]> db in
    let db := append_admin_audit organization_id workspace_id (Some actor_principal_id)
                "invitation.create" None now db in
    Ok ((invitation, token), db)).

Definition list_workspace_invitations_as_owner (workspace_id actor_principal_id : string) :
    Op (list WorkspaceInvitation) :=
  reading (fun db =>
    let? _ := authorized_workspace_owner workspace_id actor_principal_id db in
    Ok (reverse (order_by (fun iv => (iv_created_at_unix iv, iv_id iv))
      (filter (fun iv => iv_workspace_id iv = workspace_id) (rows (invitations db)))))).

Definition invitation_revoked (now : Z) (iv : WorkspaceInvitation) : WorkspaceInvitation :=
  mkInvitation (iv_id iv) (iv_organization_id iv) (iv_workspace_id iv) (iv_token_hash iv)
    (iv_recipient_label iv) (iv_role iv) (iv_created_by_principal_id iv) false (iv_expires_at_unix iv)
    (iv_created_at_unix iv) (Some now) (iv_accepted_by_principal_id iv) (iv_accepted_at_unix iv).

Definition revoke_workspace_invitation_as_owner (now : Z)
    (workspace_id invitation_id actor_principal_id : string) : Op bool :=
  atomically (fun db =>
    let? organization_id := authorized_workspace_owner workspace_id actor_principal_id db in
    match invitations db !! invitation_id with
    | Some iv =>
        if bool_decide (iv_workspace_id iv = workspace_id) && iv_active iv
           && bool_decide (iv_accepted_at_unix iv = None) then
          let db := upd_invitations <[invitation_id := invitation_revoked now iv]> db in
          Ok (true, append_admin_audit organization_id workspace_id (Some actor_principal_id)
                      "invitation.revoke" None now db)
        else Ok (false, db)
    | None => Ok (false, db)
    end).

(** Revoke, then issue again with the label and role of the old one. *)
Definition resend_workspace_invitation_as_owner (now : Z) (random random' : string)
    (workspace_id invitation_id actor_principal_id : string) (expires_at_unix : Z) :
    Op (option (WorkspaceInvitation * string)) := fun db =>
  match validate_workspace_invitation_expiry now expires_at_unix with
  | Err e => (Err e, db)
  | Ok _ =>
      match list_workspace_invitations_as_owner workspace_id actor_principal_id db with
      | (Err e, db) => (Err e, db)
      | (Ok listed, db) =>
          match List.find (fun iv => bool_decide (iv_id iv = invitation_id) && iv_active iv
                              && bool_decide (iv_revoked_at_unix iv = None)
                              && bool_decide (iv_accepted_at_unix iv = None)) listed with
          | None => (Ok None, db)
          | Some invitation =>
              match revoke_workspace_invitation_as_owner now workspace_id invitation_id actor_principal_id db with
              | (Err e, db) => (Err e, db)
              | (Ok false, db) => (Ok None, db)
              | (Ok true, db) =>
                  match create_workspace_invitation_as_owner now random random' workspace_id
                          actor_principal_id (iv_recipient_label invitation) (iv_role invitation)
                          expires_at_unix db with
                  | (Ok issued, db) => (Ok (Some issued), db)
                  | (Err e, db) => (Err e, db)
                  end
              end
          end
      end
  end.

(** The connection of a federation, of an organization. *)
Definition connection_active (federation : BrowserSessionFederation) (organization_id : string) (db : Db) : bool :=
  match federation with
  | Oidc => match oidc_connections db !! organization_id with Some c => oc_active c | None => false end
  | Saml => match saml_connections db !! organization_id with Some c => sc_active c | None => false end
  end.

Definition connection_issuer (federation : BrowserSessionFederation) (organization_id : string) (db : Db) :
    option string :=
  match federation with
  | Oidc => oc_issuer <$> oidc_connections db !! organization_id
  | Saml => sc_entity_id <$> saml_connections db !! organization_id
  end.

(** An invitation that can still be taken, in an active workspace. *)
Definition invitation_open (now : Z) (iv : WorkspaceInvitation) (db : Db) : bool :=
  iv_active iv && bool_decide (iv_revoked_at_unix iv = None) && bool_decide (iv_accepted_at_unix iv = None)
  && (now <=? iv_expires_at_unix iv)
  && match organizations db !! iv_organization_id iv, workspaces db !! iv_workspace_id iv with
     | Some o, Some w =>
         bool_decide (wk_organization_id w = iv_organization_id iv) && og_active o && wk_active w
         && match tenants db !! wk_tenant_id w with Some t => tn_active t | None => false end
     | _, _ => false
     end.

Definition workspace_invitation_for_federation_token (now : Z) (token : string)
    (federation : BrowserSessionFederation) : Op (option WorkspaceInvitation) :=
  reading (fun db =>
    let? hash := workspace_invitation_token_hash token in
    Ok (find_row (fun iv => bool_decide (iv_token_hash iv = hash) && invitation_open now iv db
                            && connection_active federation (iv_organization_id iv) db)
          (invitations db))).

Definition workspace_invitation_for_token (now : Z) (token : string) : Op (option WorkspaceInvitation) :=
  workspace_invitation_for_federation_token now token Oidc.

Record VerifiedWorkspaceAccess := mkAccess {
  va_organization_id : string; va_workspace_id : string; va_principal_id : string;
  va_role : WorkspaceRole }.

Definition access_permits (a : VerifiedWorkspaceAccess) (permission : WorkspacePermission) : bool :=
  role_permits (va_role a) permission.

Definition invitation_accepted (now : Z) (principal_id : string) (iv : WorkspaceInvitation) : WorkspaceInvitation :=
  mkInvitation (iv_id iv) (iv_organization_id iv) (iv_workspace_id iv) (iv_token_hash iv)
    (iv_recipient_label iv) (iv_role iv) (iv_created_by_principal_id iv) false (iv_expires_at_unix iv)
    (iv_created_at_unix iv) (iv_revoked_at_unix iv) (Some principal_id) (Some now).

(** The principal a verified identity is bound to, or a new one: [None] when the bound one
    may not join the organization. *)
Definition invited_principal (now : Z) (random issuer subject : string) (iv : WorkspaceInvitation) (db : Db) :
    result (option (string * Db)) string :=
  match (i ← identities db !! (issuer, subject);
         p ← principals db !! ei_principal_id i; Some (ei_principal_id i, wp_active p)) with
  | Some (principal_id, active) =>
      if active && scim_allows (iv_organization_id iv) principal_id db
      then Ok (Some (principal_id, db)) else Ok None
  | None =>
      let principal_id := random_id "principal" random in
      bail_if (has principal_id (principals db)) with "failed to create invited workspace principal" in
      let db := upd_principals <[principal_id := mkPrincipal principal_id (iv_recipient_label iv) true now]> db in
      bail_if (identity_conflict issuer subject principal_id db) with "failed to bind invited federated identity" in
      Ok (Some (principal_id,
        upd_identities <[(issuer, subject) := mkIdentity issuer subject principal_id now]> db))
  end.

Definition accept_workspace_invitation_federated (now : Z) (random : string)
    (invitation_id organization_id workspace_id issuer subject : string)
    (federation : BrowserSessionFederation) : Op (option VerifiedWorkspaceAccess) :=
  atomically (fun db =>
    let? issuer := validate_external_identity_component issuer "identity issuer" 2048 in
    let? subject := validate_external_identity_component subject "identity subject" 255 in
    match invitations db !! invitation_id with
    | None => Ok (None, db)
    | Some invitation =>
        if bool_decide (iv_organization_id invitation = organization_id)
           && bool_decide (iv_workspace_id invitation = workspace_id)
           && invitation_open now invitation db
           && bool_decide (connection_issuer federation organization_id db = Some issuer)
           && connection_active federation organization_id db then
          let? found := invited_principal now random issuer subject invitation db in
          match found with
          | None => Ok (None, db)
          | Some (principal_id, db') =>
              if has (workspace_id, principal_id) (memberships db') then Ok (None, db')
              else
                let db' := upd_memberships
                             <[(workspace_id, principal_id) :=
                                 mkMembership workspace_id principal_id (iv_role invitation) true now now]> db' in
                let db' := upd_invitations
                             <[invitation_id := invitation_accepted now principal_id invitation]> db' in
                let db' := append_admin_audit organization_id workspace_id (Some principal_id)
                             "invitation.accept" (Some principal_id) now db' in
                Ok (Some (mkAccess organization_id workspace_id principal_id (iv_role invitation)), db')
          end
        else Ok (None, db)
    end).

Definition accept_workspace_invitation_oidc (now : Z) (random : string)
    (invitation_id organization_id workspace_id issuer subject : string) :
    Op (option VerifiedWorkspaceAccess) :=
  accept_workspace_invitation_federated now random invitation_id organization_id workspace_id issuer subject Oidc.

(** ** Service accounts *)

Definition list_workspace_service_accounts (workspace_id actor_principal_id : string) :
    Op (list WorkspaceServiceAccount) :=
  reading (fun db => Ok
    match authorized_member workspace_id actor_principal_id db with
    | None => []
    | Some (_, role) =>
        order_by (fun a => (sa_created_at_unix a, sa_id a))
          (filter (fun a => sa_workspace_id a = workspace_id
                            /\ (role = Owner \/ role = Admin \/ sa_created_by_principal_id a = actor_principal_id))
             (rows (service_accounts db)))
    end).

Definition create_workspace_service_account (now : Z) (random random' : string)
    (workspace_id actor_principal_id name : string) (expires_at_unix : Z) :
    Op (WorkspaceServiceAccount * string) :=
  atomically (fun db =>
    let? _ := validate_service_account_expiry now expires_at_unix in
    let? name := validate_label name "service account name" 128 in
    let token := generate_service_account_token random' in
    let account := mkServiceAccount (random_id "service_account" random) workspace_id name
                     actor_principal_id (token_hash token) true expires_at_unix now None in
    let? authorized := authorized_with workspace_id actor_principal_id
      (fun role => role_permits role ManageServiceTokens || role_permits role ManageOwnServiceTokens) db in
    bail_if (has (sa_id account) (service_accounts db)
             || any (fun a => bool_decide (sa_token_hash a = sa_token_hash account)) (service_accounts db))
      with "failed to create workspace service account" in
    let db := upd_service_accounts <[sa_id account := account]> db in
    let db := append_admin_audit (wk_organization_id authorized.1) workspace_id (Some actor_principal_id)
                "service_account.create" (Some actor_principal_id) now db in
    Ok ((account, token), db)).

Definition service_account_revoked (now : Z) (a : WorkspaceServiceAccount) : WorkspaceServiceAccount :=
  mkServiceAccount (sa_id a) (sa_workspace_id a) (sa_name a) (sa_created_by_principal_id a)
    (sa_token_hash a) false (sa_expires_at_unix a) (sa_created_at_unix a) (Some now).

Definition revoke_workspace_service_account (now : Z) (workspace_id account_id actor_principal_id : string) :
    Op bool :=
  atomically (fun db =>
    match authorized_member workspace_id actor_principal_id db, service_accounts db !! account_id with
    | Some (w, role), Some a =>
        if bool_decide (sa_workspace_id a = workspace_id) && sa_active a
           && (role_permits role ManageServiceTokens
               || (bool_decide (sa_created_by_principal_id a = actor_principal_id)
                   && role_permits role ManageOwnServiceTokens)) then
          let db := upd_service_accounts <[account_id := service_account_revoked now a]> db in
          Ok (true, append_admin_audit (wk_organization_id w) workspace_id (Some actor_principal_id)
                      "service_account.revoke" (Some (sa_created_by_principal_id a)) now db)
        else Ok (false, db)
    | _, _ => Ok (false, db)
    end).

(** ** Platform administrators and tenant tokens *)

Definition create_admin (now : Z) (random random' name : string) (role : AdminRole) :
    Op (ControlPlaneAdmin * string) :=
  atomically (fun db =>
    let? name := validate_label name "admin name" 128 in
    let token := generate_admin_token random' in
    let admin := mkAdmin (random_id "admin" random) name (token_hash token) role true now None in
    bail_if (has (ad_id admin) (admins db)
             || any (fun a => bool_decide (ad_name a = name)
                              || bool_decide (ad_token_hash a = ad_token_hash admin)) (admins db))
      with "failed to create control-plane admin" in
    Ok ((admin, token), upd_admins <[ad_id admin := admin]> db)).

Definition list_admins : Op (list ControlPlaneAdmin) :=
  reading (fun db => Ok (order_by (fun a => (ad_created_at_unix a, ad_id a)) (rows (admins db)))).

Definition revoke_admin (now : Z) (admin_id : string) : Op bool :=
  atomically (fun db =>
    match admins db !! admin_id with
    | Some a =>
        if ad_active a then
          Ok (true, upd_admins <[admin_id := mkAdmin (ad_id a) (ad_name a) (ad_token_hash a) (ad_role a)
                                               false (ad_created_at_unix a) (Some now)]> db)
        else Ok (false, db)
    | None => Ok (false, db)
    end).

(** A non-empty bearer token of an [Authorization] header. *)
Definition bearer (presented_header : option string) : option string :=
  header ← presented_header;
  token ← Str.strip_prefix "Bearer " header;
  if Str.is_empty token then None else Some token.

Definition authenticate_admin_bearer (presented_header : option string) : Op (option ControlPlaneAdmin) :=
  reading (fun db => Ok
    match bearer presented_header with
    | None => None
    | Some token =>
        find_row (fun a => bool_decide (ad_token_hash a = token_hash token) && ad_active a) (admins db)
    end).

Definition issue_token (now : Z) (random random' tenant_id label : string) : Op (TenantToken * string) :=
  atomically (fun db =>
    let? label := validate_label label "token label" 128 in
    match tenants db !! tenant_id with
    | None => Err "tenant not found"
    | Some t =>
        bail_if (negb (tn_active t)) with "cannot issue a token for an inactive tenant" in
        let token := generate_token random in
        let issued := mkTenantToken (random_id "token" random') tenant_id (token_hash token) label true now None in
        bail_if (has (tt_id issued) (tenant_tokens db)
                 || any (fun r => bool_decide (tt_token_hash r = tt_token_hash issued)) (tenant_tokens db))
          with "failed to issue tenant token" in
        Ok ((issued, token), upd_tenant_tokens <[tt_id issued := issued]> db)
    end).

Definition revoke_token (now : Z) (token_id : string) : Op bool :=
  atomically (fun db =>
    match tenant_tokens db !! token_id with
    | Some t =>
        if tt_active t then
          Ok (true, upd_tenant_tokens <[token_id := mkTenantToken (tt_id t) (tt_tenant_id t) (tt_token_hash t)
                                           (tt_label t) false (tt_created_at_unix t) (Some now)]> db)
        else Ok (false, db)
    | None => Ok (false, db)
    end).

Definition list_tokens (tenant_id : string) : Op (list TenantToken) :=
  reading (fun db => Ok (reverse (order_by (fun t => (tt_created_at_unix t, tt_id t))
    (filter (fun t => tt_tenant_id t = tenant_id) (rows (tenant_tokens db)))))).

(** A tenant token, else a service account of one of the tenant's workspaces. *)
Definition authenticate_bearer (now : Z) (presented_header : option string) : Op (option Tenant) :=
  reading (fun db => Ok
    match bearer presented_header with
    | None => None
    | Some token =>
        let active_tenant id := t ← tenants db !! id; if tn_active t then Some t else None in
        let of_token r :=
          if bool_decide (tt_token_hash r = token_hash token) && tt_active r
          then active_tenant (tt_tenant_id r) else None in
        let of_account a :=
          if bool_decide (sa_token_hash a = token_hash token) && sa_active a && (now <=? sa_expires_at_unix a)
          then w ← workspaces db !! sa_workspace_id a;
               o ← organizations db !! wk_organization_id w;
               if wk_active w && og_active o then active_tenant (wk_tenant_id w) else None
          else None in
        head (omap of_token (rows (tenant_tokens db)) ++ omap of_account (rows (service_accounts db)))
    end).
End invitations.

(** ** Limits and the request audit *)

Definition validate_limits (limits : TenantLimits) : result unit string :=
  let rate_bad := match tl_rate_limit limits with
                  | Some r => (trl_requests_per_window r =? 0) || (trl_window_seconds r =? 0) | None => false end in
  let spend_bad := match tl_spend_limit limits with
                   | Some s => (tsl_window_seconds s =? 0) || (tsl_max_usd_micros s =? 0)
                               || (tsl_reserve_usd_micros_per_request s =? 0) | None => false end in
  let reserve_bad := match tl_spend_limit limits with
                     | Some s => tsl_max_usd_micros s <? tsl_reserve_usd_micros_per_request s | None => false end in
  bail_if rate_bad with "tenant rate limit requires nonzero requests_per_window and window_seconds" in
  bail_if spend_bad with "tenant spend limit requires nonzero window, budget, and reservation" in
  bail_if reserve_bad with "tenant spend reservation cannot exceed the tenant budget" in
  Ok tt.

Definition limits_row (limits : TenantLimits) (now : Z) : LimitsRow :=
  mkLimitsRow (trl_requests_per_window <$> tl_rate_limit limits) (trl_window_seconds <$> tl_rate_limit limits)
    (tsl_window_seconds <$> tl_spend_limit limits) (tsl_max_usd_micros <$> tl_spend_limit limits)
    (tsl_reserve_usd_micros_per_request <$> tl_spend_limit limits) now.

(** A [u64] parameter beyond [i64::MAX] is refused by the database driver. *)
Definition row_fits (r : LimitsRow) : bool :=
  let fits o := match o with Some v => v <=? i64_max | None => true end in
  fits (lr_rate_requests r) && fits (lr_rate_window r) && fits (lr_spend_window r)
  && fits (lr_spend_max r) && fits (lr_spend_reserve r).

Definition limits_for (tenant_id : string) : Op TenantLimits :=
  reading (fun db => Ok
    match limits db !! tenant_id with
    | None => mkLimits None None
    | Some r =>
        mkLimits
          (n ← lr_rate_requests r; w ← lr_rate_window r; Some (mkRateLimit n w))
          (w ← lr_spend_window r; m ← lr_spend_max r; v ← lr_spend_reserve r; Some (mkTenantSpendLimit w m v))
    end).

Definition set_limits (now : Z) (tenant_id : string) (new_limits : TenantLimits) : Op unit :=
  atomically (fun db =>
    let? _ := validate_limits new_limits in
    bail_if (negb (has tenant_id (tenants db))) with "tenant not found" in
    bail_if (negb (row_fits (limits_row new_limits now))) with "failed to save tenant limits" in
    Ok (tt, upd_limits <[tenant_id := limits_row new_limits now]> db)).

Definition set_workspace_limits (now : Z) (workspace_id principal_id : string) (new_limits : TenantLimits) :
    Op unit :=
  atomically (fun db =>
    let? _ := validate_limits new_limits in
    let? authorized := authorized_with workspace_id principal_id (fun r => role_permits r ManageTenant) db in
    bail_if (negb (row_fits (limits_row new_limits now))) with "failed to save customer limits" in
    let db := upd_limits <[wk_tenant_id authorized.1 := limits_row new_limits now]> db in
    Ok (tt, append_admin_audit (wk_organization_id authorized.1) workspace_id (Some principal_id)
              "limits.set" None now db)).

(** Append, then delete the rows at and below the key [audit_max_rows] from the newest. *)
Definition append_audit (audit_max_rows : nat) (now : Z) (tenant_id path outcome : string)
    (status_code latency_ms : Z) : Op unit :=
  atomically (fun db =>
    bail_if (negb (has tenant_id (tenants db)) || (i64_max <? latency_ms))
      with "failed to append tenant audit event" in
    let db := upd_tenant_audit
                (log_append (mkTenantAudit tenant_id now path outcome status_code latency_ms)) db in
    let horizon := match reverse (log_rows (tenant_audit db)) !! audit_max_rows with
                   | Some r => r.1 | None => -1 end in
    Ok (tt, upd_tenant_audit (log_delete (fun r => r.1 <=? horizon)) db)).

Definition list_audit (tenant_id : string) (limit : nat) : Op (list (Z * TenantAuditEvent)) :=
  reading (fun db => Ok (take (clamp_limit limit 500)
    (reverse (filter (fun r => ta_tenant_id r.2 = tenant_id) (log_rows (tenant_audit db)))))).
