(* ===== verification/TenantScim.v ===== *)
(** Directory provisioning ([proxy/src/tenant_store.rs]): the SCIM credentials of an
    organization, the users and groups its identity provider keeps there, and the
    assignments and group mappings by which a workspace owner lets them in. *)
From S2P Require Import Prelude BTree Net TenantDb TenantDirectory.
From Stdlib Require Import String Ascii.
Local Open Scope string_scope.
Local Open Scope Z_scope.

#[local] Abbreviation length := List.length.

(** ** Validation *)

Definition validate_scim_user_text (value field : string) (max_len : Z) : result string string :=
  let? value := validate_external_identity_component value field max_len in
  bail_if (negb (bool_decide (Str.trim value = value))) with (field +:+ " cannot start or end with whitespace") in
  Ok value.

Definition validate_scim_user_fields (external_id user_name display_name : string) :
    result (string * string * string) string :=
  let? external_id := validate_external_identity_component external_id "SCIM externalId" 512 in
  let? user_name := validate_scim_user_text user_name "SCIM userName" 320 in
  let? display_name := validate_scim_user_text display_name "SCIM displayName" 256 in
  Ok (external_id, user_name, display_name).

Definition validate_scim_user_id (value : string) : result string string :=
  validate_external_identity_component value "SCIM user id" 256.

Record ScimUserUpdate := mkUserUpdate {
  uu_user_name : option string; uu_display_name : option string; uu_active : option bool }.

(** [value.map(f).transpose()?]. *)
Definition transpose {A B} (f : A -> result B string) (value : option A) : result (option B) string :=
  match value with
  | None => Ok None
  | Some v => let? w := f v in Ok (Some w)
  end.

Definition validate_scim_user_update (update : ScimUserUpdate) : result ScimUserUpdate string :=
  bail_if (bool_decide (uu_user_name update = None) && bool_decide (uu_display_name update = None)
           && bool_decide (uu_active update = None))
    with "SCIM user update must change at least one supported attribute" in
  let? user_name := transpose (fun v => validate_scim_user_text v "SCIM userName" 320) (uu_user_name update) in
  let? display_name := transpose (fun v => validate_scim_user_text v "SCIM displayName" 256)
                         (uu_display_name update) in
  Ok (mkUserUpdate user_name display_name (uu_active update)).

Definition validate_scim_group_fields (external_id display_name : string) : result (string * string) string :=
  let? external_id := validate_external_identity_component external_id "SCIM group externalId" 512 in
  let? display_name := validate_scim_user_text display_name "SCIM group displayName" 256 in
  Ok (external_id, display_name).

Definition validate_scim_group_id (value : string) : result string string :=
  validate_external_identity_component value "SCIM group id" 256.

Fixpoint validate_member_ids (seen : list string) (member_ids : list string) : result (list string) string :=
  match member_ids with
  | [] => Ok []
  | member_id :: rest =>
      let? member_id := validate_scim_user_id member_id in
      bail_if (bool_decide (member_id ∈ seen)) with "SCIM group member IDs cannot be duplicated" in
      let? rest := validate_member_ids (member_id :: seen) rest in
      Ok (member_id :: rest)
  end.

Definition validate_scim_group_member_ids (member_ids : list string) : result (list string) string :=
  bail_if (100 <? length member_ids)%nat with "SCIM group cannot contain more than 100 members per request" in
  validate_member_ids [] member_ids.

Inductive ScimGroupMemberChange :=
| Replace (member_ids : list string)
| Add (member_ids : list string)
| Remove (member_ids : list string).

Record ScimGroupUpdate := mkGroupUpdate {
  gu_display_name : option string; gu_member_change : option ScimGroupMemberChange }.

Definition validate_member_change (change : ScimGroupMemberChange) : result ScimGroupMemberChange string :=
  match change with
  | Replace ids => let? ids := validate_scim_group_member_ids ids in Ok (Replace ids)
  | Add ids => let? ids := validate_scim_group_member_ids ids in Ok (Add ids)
  | Remove ids => let? ids := validate_scim_group_member_ids ids in Ok (Remove ids)
  end.

Definition validate_scim_group_update (update : ScimGroupUpdate) : result ScimGroupUpdate string :=
  bail_if (bool_decide (gu_display_name update = None)
           && match gu_member_change update with None => true | _ => false end)
    with "SCIM group update must change a supported attribute" in
  let? member_change := transpose validate_member_change (gu_member_change update) in
  let? display_name := transpose (fun v => validate_scim_user_text v "SCIM group displayName" 256)
                         (gu_display_name update) in
  Ok (mkGroupUpdate display_name member_change).

Definition validate_scim_page (start_index count : Z) : result unit string :=
  bail_if ((start_index =? 0) || (1000000 <? start_index))
    with "SCIM startIndex must be between 1 and 1000000" in
  bail_if (100 <? count) with "SCIM count cannot exceed 100" in
  Ok tt.

(** ** Credentials *)

(** The organization a SCIM bearer speaks for, and the credential it is. *)
Record ScimIdentity := mkScimIdentity { si_organization_id : string; si_token_id : string }.

Section scim.
Context `{Sha256}.

Definition issue_scim_token (now : Z) (random random' organization_id label : string) (expires_at_unix : Z) :
    Op (ScimToken * string) :=
  atomically (fun db =>
    let? _ := validate_scim_token_expiry now expires_at_unix in
    let? label := validate_label label "SCIM token label" 128 in
    let token := generate_scim_token random' in
    let? hash := scim_token_hash token in
    let credential := mkScimToken (random_id "scim" random) organization_id hash label true
                        expires_at_unix now None in
    match organizations db !! organization_id with
    | Some o =>
        bail_if (negb (og_active o)) with "organization not found or inactive" in
        bail_if (has (st_id credential) (scim_tokens db)
                 || any (fun t => bool_decide (st_token_hash t = hash)) (scim_tokens db))
          with "failed to issue SCIM token" in
        Ok ((credential, token), upd_scim_tokens <[st_id credential := credential]> db)
    | None => Err "organization not found or inactive"
    end).

Definition list_scim_tokens (organization_id : string) : Op (list ScimToken) :=
  reading (fun db => Ok (reverse (order_by (fun t => (st_created_at_unix t, st_id t))
    (filter (fun t => st_organization_id t = organization_id) (rows (scim_tokens db)))))).

Definition revoke_scim_token (now : Z) (token_id : string) : Op bool :=
  atomically (fun db =>
    match scim_tokens db !! token_id with
    | Some t =>
        if st_active t then
          Ok (true, upd_scim_tokens <[token_id := mkScimToken (st_id t) (st_organization_id t) (st_token_hash t)
                      (st_label t) false (st_expires_at_unix t) (st_created_at_unix t) (Some now)]> db)
        else Ok (false, db)
    | None => Ok (false, db)
    end).

Definition authenticate_scim_bearer (now : Z) (presented_header : option string) : Op (option ScimIdentity) :=
  reading (fun db => Ok
    match presented_header ≫= Str.strip_prefix "Bearer " with
    | None => None
    | Some token =>
        match scim_token_hash token with
        | Err _ => None
        | Ok hash =>
            t ← find_row (fun t =>
                  bool_decide (st_token_hash t = hash) && st_active t && (now <=? st_expires_at_unix t)
                  && match organizations db !! st_organization_id t with
                     | Some o => og_active o | None => false end)
                (scim_tokens db);
            Some (mkScimIdentity (st_organization_id t) (st_id t))
        end
    end).
End scim.

(** ** Users *)

Definition scim_organization_active (organization_id : string) (db : Db) : result unit string :=
  match organizations db !! organization_id with
  | Some o => bail_if (negb (og_active o)) with "SCIM organization is inactive" in Ok tt
  | None => Err "SCIM organization not found"
  end.

(** The audit row references the credential. *)
Definition append_scim_audit (identity : ScimIdentity) (action target : string) (now : Z) (db : Db) :
    result Db string :=
  bail_if (negb (has (si_token_id identity) (scim_tokens db))) with "failed to append SCIM user audit event" in
  Ok (upd_scim_audit (log_append (mkScimAudit (si_organization_id identity) (Some (si_token_id identity))
                                    action target now)) db).

Definition append_scim_group_audit (identity : ScimIdentity) (action target : string) (now : Z)
    (context : string) (db : Db) : result Db string :=
  bail_if (negb (has (si_token_id identity) (scim_tokens db))) with context in
  Ok (upd_scim_group_audit (log_append (mkScimAudit (si_organization_id identity) (Some (si_token_id identity))
                                          action target now)) db).

Definition create_scim_user (now : Z) (random : string) (identity : ScimIdentity)
    (external_id user_name display_name : string) (active : bool) : Op ScimUser :=
  atomically (fun db =>
    let? fields := validate_scim_user_fields external_id user_name display_name in
    let '(external_id, user_name, display_name) := fields in
    let user := mkScimUser (random_id "principal" random) (si_organization_id identity) external_id
                  user_name display_name active now now in
    let? _ := scim_organization_active (si_organization_id identity) db in
    bail_if (has (su_id user) (principals db)) with "failed to create SCIM workspace principal" in
    let db := upd_principals <[su_id user := mkPrincipal (su_id user) display_name true now]> db in
    bail_if (has (su_id user) (scim_users db)
             || any (fun u => bool_decide (su_organization_id u = su_organization_id user)
                              && (bool_decide (su_external_id u = external_id)
                                  || bool_decide (su_user_name u = user_name))) (scim_users db))
      with "failed to save SCIM user" in
    let db := upd_scim_users <[su_id user := user]> db in
    let? db := append_scim_audit identity "user.create" (su_id user) now db in
    Ok (user, db)).

(** [LIMIT count OFFSET start_index - 1]. *)
Definition page {A} (start_index count : Z) (l : list A) : list A :=
  take (Z.to_nat count) (drop (Z.to_nat (start_index - 1)) l).

(** The total number of resources and the resources of the page. *)
Definition list_scim_users (identity : ScimIdentity) (start_index count : Z) : Op (Z * list ScimUser) :=
  reading (fun db =>
    let? _ := validate_scim_page start_index count in
    let mine := filter (fun u => su_organization_id u = si_organization_id identity) (rows (scim_users db)) in
    Ok (Z.of_nat (length mine), page start_index count (order_by su_id mine))).

Definition scim_user_of (organization_id user_id : string) (db : Db) : option ScimUser :=
  u ← scim_users db !! user_id;
  if bool_decide (su_organization_id u = organization_id) then Some u else None.

Definition scim_user_by_id (identity : ScimIdentity) (user_id : string) : Op (option ScimUser) :=
  reading (fun db =>
    let? user_id := validate_scim_user_id user_id in
    Ok (scim_user_of (si_organization_id identity) user_id db)).

(** Suspend what the user was granted in the organization's workspaces. *)
Definition suspended (all : gmap string Workspace) (user_id organization_id : string) (now : Z)
    (m : WorkspaceMembership) : WorkspaceMembership :=
  let in_organization :=
    match all !! mb_workspace_id m with
    | Some row => bool_decide (wk_organization_id row = organization_id) | None => false end in
  if bool_decide (mb_principal_id m = user_id) && in_organization
  then mkMembership (mb_workspace_id m) (mb_principal_id m) (mb_role m) false (mb_created_at_unix m) now
  else m.

Definition suspend_memberships (user_id organization_id : string) (now : Z) (db : Db) : Db :=
  upd_memberships (fmap (suspended (workspaces db) user_id organization_id now)) db.

Definition update_scim_user (now : Z) (identity : ScimIdentity) (user_id : string) (update : ScimUserUpdate) :
    Op (option ScimUser) :=
  atomically (fun db =>
    let? user_id := validate_scim_user_id user_id in
    let? update := validate_scim_user_update update in
    match scim_user_of (si_organization_id identity) user_id db with
    | None => Ok (None, db)
    | Some current =>
        let next_user_name := default (su_user_name current) (uu_user_name update) in
        let next_display_name := default (su_display_name current) (uu_display_name update) in
        let next_active := default (su_active current) (uu_active update) in
        let updated := mkScimUser (su_id current) (su_organization_id current) (su_external_id current)
                         next_user_name next_display_name next_active (su_created_at_unix current) now in
        bail_if (any (fun u => bool_decide (su_organization_id u = si_organization_id identity)
                               && bool_decide (su_user_name u = next_user_name)
                               && negb (bool_decide (su_id u = user_id))) (scim_users db))
          with "failed to update SCIM user" in
        let db := upd_scim_users <[user_id := updated]> db in
        let db := upd_principals (alter (fun p => mkPrincipal (wp_id p) next_display_name (wp_active p)
                                                    (wp_created_at_unix p)) user_id) db in
        let db := if next_active then db else suspend_memberships user_id (si_organization_id identity) now db in
        let action := if su_active current && negb next_active then "user.deactivate" else "user.update" in
        let? db := append_scim_audit identity action user_id now db in
        Ok (Some updated, db)
    end).

(** ** Groups *)

(** A group with the members it has. *)
Record ScimGroup := mkScimGroup { gr_row : ScimGroupRow; gr_member_ids : list string }.

Definition scim_group_members (group_id : string) (db : Db) : list string :=
  order_by (fun p => p)
    (omap (fun kv : string * string * Z => if bool_decide (kv.1.1 = group_id) then Some kv.1.2 else None)
       (map_to_list (group_members db))).

Definition require_active_scim_group_members (organization_id : string) (member_ids : list string) (db : Db) :
    result unit string :=
  bail_if (negb (forallb (fun p => match scim_users db !! p with
                                   | Some u => bool_decide (su_organization_id u = organization_id) && su_active u
                                   | None => false end) member_ids))
    with "SCIM group member is not an active user of this organization" in
  Ok tt.

Definition create_scim_group (now : Z) (random : string) (identity : ScimIdentity)
    (external_id display_name : string) (member_ids : list string) : Op ScimGroup :=
  atomically (fun db =>
    let? fields := validate_scim_group_fields external_id display_name in
    let '(external_id, display_name) := fields in
    let? member_ids := validate_scim_group_member_ids member_ids in
    let group := mkScimGroupRow (random_id "scim_group" random) (si_organization_id identity) external_id
                   display_name true now now in
    let? _ := scim_organization_active (si_organization_id identity) db in
    let? _ := require_active_scim_group_members (si_organization_id identity) member_ids db in
    bail_if (has (sg_id group) (scim_groups db)
             || any (fun g => bool_decide (sg_organization_id g = si_organization_id identity)
                              && bool_decide (sg_external_id g = external_id)) (scim_groups db))
      with "failed to save SCIM group" in
    let db := upd_scim_groups <[sg_id group := group]> db in
    bail_if (existsb (fun p => has (sg_id group, p) (group_members db)) member_ids)
      with "failed to add SCIM group member" in
    let db := upd_group_members (fun t => foldr (fun p => <[(sg_id group, p) := now]>) t member_ids) db in
    let? db := append_scim_group_audit identity "group.create" (sg_id group) now
                 "failed to append SCIM group audit event" db in
    Ok (mkScimGroup group (scim_group_members (sg_id group) db), db)).

Definition scim_group_of (organization_id group_id : string) (db : Db) : option ScimGroupRow :=
  g ← scim_groups db !! group_id;
  if bool_decide (sg_organization_id g = organization_id) && sg_active g then Some g else None.

Definition list_scim_groups (identity : ScimIdentity) (start_index count : Z) : Op (Z * list ScimGroup) :=
  reading (fun db =>
    let? _ := validate_scim_page start_index count in
    let mine := filter (fun g => sg_organization_id g = si_organization_id identity /\ sg_active g = true)
                  (rows (scim_groups db)) in
    Ok (Z.of_nat (length mine),
        (fun g => mkScimGroup g (scim_group_members (sg_id g) db)) <$> page start_index count (order_by sg_id mine))).

Definition scim_group_by_id (identity : ScimIdentity) (group_id : string) : Op (option ScimGroup) :=
  reading (fun db =>
    let? group_id := validate_scim_group_id group_id in
    Ok ((fun g => mkScimGroup g (scim_group_members (sg_id g) db))
          <$> scim_group_of (si_organization_id identity) group_id db)).

(** Applying a member change to [scim_group_members]. *)
Definition change_members (group_id : string) (change : ScimGroupMemberChange) (now : Z)
    (t : gmap (string * string) Z) : gmap (string * string) Z :=
  let add ids t := foldr (fun p t => if has (group_id, p) t then t else <[(group_id, p) := now]> t) t ids in
  match change with
  | Replace ids => add ids (filter (fun kv => kv.1.1 <> group_id) t)
  | Add ids => add ids t
  | Remove ids => foldr (fun p => delete (group_id, p)) t ids
  end.

Definition update_scim_group (now : Z) (identity : ScimIdentity) (group_id : string) (update : ScimGroupUpdate) :
    Op (option ScimGroup) :=
  atomically (fun db =>
    let? group_id := validate_scim_group_id group_id in
    let? update := validate_scim_group_update update in
    match scim_group_of (si_organization_id identity) group_id db with
    | None => Ok (None, db)
    | Some current =>
        let next_display_name := default (sg_display_name current) (gu_display_name update) in
        let action := match gu_member_change update with
                      | Some (Replace _) => "group.members.replace"
                      | Some (Add _) => "group.members.add"
                      | Some (Remove _) => "group.members.remove"
                      | None => "group.update"
                      end in
        let? _ := match gu_member_change update with
                  | Some (Replace ids) | Some (Add ids) =>
                      require_active_scim_group_members (si_organization_id identity) ids db
                  | _ => Ok tt
                  end in
        let db := match gu_member_change update with
                  | Some change => upd_group_members (change_members group_id change now) db
                  | None => db
                  end in
        let row := mkScimGroupRow (sg_id current) (sg_organization_id current) (sg_external_id current)
                     next_display_name (sg_active current) (sg_created_at_unix current) now in
        let db := upd_scim_groups <[group_id := row]> db in
        let? db := append_scim_group_audit identity action group_id now
                     "failed to append SCIM group audit event" db in
        Ok (Some (mkScimGroup row (scim_group_members group_id db)), db)
    end).

(** The group's members and mappings go with it. *)
Definition delete_scim_group (now : Z) (identity : ScimIdentity) (group_id : string) : Op bool :=
  atomically (fun db =>
    let? group_id := validate_scim_group_id group_id in
    match scim_group_of (si_organization_id identity) group_id db with
    | None => Ok (false, db)
    | Some _ =>
        let? db := append_scim_group_audit identity "group.delete" group_id now
                     "failed to append SCIM group deletion audit event" db in
        let db := upd_group_members (filter (fun kv => kv.1.1 <> group_id)) db in
        let db := upd_mappings (filter (fun kv => kv.1.2 <> group_id)) db in
        Ok (true, upd_scim_groups (delete group_id) db)
    end).

(** ** What a workspace owner grants *)

Definition list_workspace_scim_users_as_owner (workspace_id actor_principal_id : string) :
    Op (list (string * string)) :=
  reading (fun db => Ok
    match authorized_workspace_owner workspace_id actor_principal_id db with
    | Err _ => []
    | Ok organization_id =>
        (fun u => (su_id u, su_display_name u))
          <$> order_by (fun u => (su_display_name u, su_id u))
                (filter (fun u => su_organization_id u = organization_id /\ su_active u = true)
                   (rows (scim_users db)))
    end).

Definition assign_scim_user_to_workspace_as_owner (now : Z)
    (workspace_id actor_principal_id target_principal_id : string) (role : WorkspaceRole) :
    Op WorkspaceMembership :=
  atomically (fun db =>
    let? organization_id := authorized_workspace_owner workspace_id actor_principal_id db in
    let target_active :=
      match scim_user_of organization_id target_principal_id db, principals db !! target_principal_id with
      | Some u, Some p => su_active u && wp_active p
      | _, _ => false
      end in
    bail_if (negb target_active) with "SCIM user is not active in this workspace organization" in
    let db := upsert_membership workspace_id target_principal_id role now db in
    let db := append_admin_audit organization_id workspace_id (Some actor_principal_id)
                "membership.assign_scim" (Some target_principal_id) now db in
    let? membership := read_membership workspace_id target_principal_id
                         "failed to read SCIM workspace assignment" db in
    Ok (membership, db)).

Definition list_workspace_scim_groups_as_owner (workspace_id actor_principal_id : string) :
    Op (list (string * string)) :=
  reading (fun db => Ok
    match authorized_workspace_owner workspace_id actor_principal_id db with
    | Err _ => []
    | Ok organization_id =>
        (fun g => (sg_id g, sg_display_name g))
          <$> order_by (fun g => (sg_display_name g, sg_id g))
                (filter (fun g => sg_organization_id g = organization_id /\ sg_active g = true)
                   (rows (scim_groups db)))
    end).

(** The group, its name and when it was mapped; the role of every mapping is [Analyst]. *)
Record WorkspaceScimGroupMapping := mkMapping {
  gm_workspace_id : string; gm_group_id : string; gm_group_display_name : string;
  gm_role : WorkspaceRole; gm_created_at_unix : Z; gm_updated_at_unix : Z }.

Definition list_workspace_scim_group_mappings_as_owner (workspace_id actor_principal_id : string) :
    Op (list WorkspaceScimGroupMapping) :=
  reading (fun db => Ok
    match authorized_workspace_owner workspace_id actor_principal_id db with
    | Err _ => []
    | Ok _ =>
        order_by (fun m => (gm_group_display_name m, gm_group_id m))
          (omap (fun kv : string * string * (Z * Z) =>
             if bool_decide (kv.1.1 = workspace_id)
             then g ← scim_groups db !! kv.1.2;
                  Some (mkMapping workspace_id kv.1.2 (sg_display_name g) Analyst kv.2.1 kv.2.2)
             else None) (map_to_list (mappings db)))
    end).

Definition append_mapping_audit (organization_id workspace_id actor group_id action : string) (now : Z)
    (db : Db) : Db :=
  upd_mapping_audit (log_append (mkMappingAudit organization_id workspace_id (Some actor) group_id action now)) db.

Definition create_workspace_scim_group_mapping_as_owner (now : Z)
    (workspace_id actor_principal_id group_id : string) : Op bool :=
  atomically (fun db =>
    let? group_id := validate_scim_group_id group_id in
    let? organization_id := authorized_workspace_owner workspace_id actor_principal_id db in
    match scim_group_of organization_id group_id db with
    | None => Err "SCIM group is not active in this workspace organization"
    | Some _ =>
        if has (workspace_id, group_id) (mappings db) then Ok (false, db)
        else
          let db := upd_mappings <[(workspace_id, group_id) := (now, now)]> db in
          Ok (true, append_mapping_audit organization_id workspace_id actor_principal_id group_id
                      "group_mapping.create" now db)
    end).

Definition delete_workspace_scim_group_mapping_as_owner (now : Z)
    (workspace_id actor_principal_id group_id : string) : Op bool :=
  atomically (fun db =>
    let? group_id := validate_scim_group_id group_id in
    let? organization_id := authorized_workspace_owner workspace_id actor_principal_id db in
    let mine := match scim_groups db !! group_id with
                | Some g => bool_decide (sg_organization_id g = organization_id) | None => false end in
    if has (workspace_id, group_id) (mappings db) && mine then
      let db := upd_mappings (delete (workspace_id, group_id)) db in
      Ok (true, append_mapping_audit organization_id workspace_id actor_principal_id group_id
                  "group_mapping.delete" now db)
    else Ok (false, db)).
