(* ===== verification/TenantSession.v ===== *)
(** Federation and browser sessions ([proxy/src/tenant_store.rs]): the identity-provider
    connections of an organization, the one-time states of logins under way, what a
    verified identity may do in a workspace, and the opaque sessions that follow.

    [Url::parse] is a parameter ([UrlParser]): the [url] crate is not part of the sources. *)
From S2P Require Import Prelude BTree Net TenantDb TenantDirectory TenantScim.
From Stdlib Require Import String Ascii.
Local Open Scope string_scope.
Local Open Scope Z_scope.

#[local] Abbreviation length := List.length.

(** What the code reads of a parsed URL. *)
Record Url := mkUrl {
  url_scheme : string; url_host_str : option string; url_username : string; url_password : option string;
  url_query : option string; url_fragment : option string; url_path : string }.

Class UrlParser := url_parse : string -> option Url.

(** ** Connections *)

Section connections.
Context `{UrlParser}.

Definition validate_oidc_https_uri (value field : string) : result string string :=
  let? value := validate_external_identity_component value field 2048 in
  match url_parse value with
  | None => Err (field +:+ " must be an absolute URI")
  | Some uri =>
      bail_if (negb (bool_decide (url_scheme uri = "https")) || bool_decide (url_host_str uri = None)
               || negb (Str.is_empty (url_username uri)) || negb (bool_decide (url_password uri = None))
               || negb (bool_decide (url_query uri = None)) || negb (bool_decide (url_fragment uri = None)))
        with (field +:+ " must be an HTTPS URI without embedded credentials, query, or fragment") in
      Ok value
  end.

Definition set_organization_oidc_connection (now : Z) (organization_id issuer client_id redirect_uri : string)
    (active : bool) : Op OrganizationOidcConnection :=
  atomically (fun db =>
    let? issuer := validate_oidc_https_uri issuer "OIDC issuer" in
    let? client_id := validate_external_identity_component client_id "OIDC client id" 512 in
    let? redirect_uri := validate_oidc_https_uri redirect_uri "OIDC redirect URI" in
    match organizations db !! organization_id with
    | None => Err "organization not found"
    | Some o =>
        bail_if (negb (og_active o)) with "cannot configure OIDC for an inactive organization" in
        let created := match oidc_connections db !! organization_id with
                       | Some c => oc_created_at_unix c | None => now end in
        let connection := mkOidcConnection organization_id issuer client_id redirect_uri active created now in
        Ok (connection, upd_oidc_connections <[organization_id := connection]> db)
    end).
End connections.

Definition organization_oidc_connection (organization_id : string) : Op (option OrganizationOidcConnection) :=
  reading (fun db => Ok (oidc_connections db !! organization_id)).

Definition delete_organization_oidc_connection (organization_id : string) : Op bool :=
  atomically (fun db =>
    Ok (has organization_id (oidc_connections db), upd_oidc_connections (delete organization_id) db)).

Definition validate_saml_entity_id (value : string) : result string string :=
  validate_external_identity_component (Str.trim value) "SAML IdP entity ID" 2048.

Definition validate_saml_metadata (value : string) : result string string :=
  let value := Str.trim value in
  bail_if (Str.is_empty value) with "SAML metadata cannot be empty" in
  bail_if (512 * 1024 <? Z.of_nat (Str.len value)) with "SAML metadata cannot exceed 524288 bytes" in
  bail_if (Str.contains "<!DOCTYPE" value || Str.contains "<!ENTITY" value)
    with "SAML metadata cannot contain a DTD or external entity" in
  bail_if (negb (Str.contains "EntityDescriptor" value))
    with "SAML metadata must contain an EntityDescriptor" in
  Ok value.

Definition validate_saml_certificate (value : string) : result string string :=
  let value := Str.trim value in
  bail_if (Str.is_empty value) with "SAML metadata signing certificate cannot be empty" in
  bail_if (16 * 1024 <? Z.of_nat (Str.len value))
    with "SAML metadata signing certificate cannot exceed 16384 bytes" in
  bail_if (negb (Str.contains "-----BEGIN CERTIFICATE-----" value)
           || negb (Str.contains "-----END CERTIFICATE-----" value))
    with "SAML metadata signing certificate must be PEM encoded" in
  Ok value.

Definition set_organization_saml_connection (now : Z)
    (organization_id entity_id metadata_xml metadata_signing_cert_pem : string) (active : bool) :
    Op OrganizationSamlConnection :=
  atomically (fun db =>
    let? entity_id := validate_saml_entity_id entity_id in
    let? metadata_xml := validate_saml_metadata metadata_xml in
    let? certificate := validate_saml_certificate metadata_signing_cert_pem in
    match organizations db !! organization_id with
    | None => Err "organization not found"
    | Some o =>
        bail_if (negb (og_active o)) with "cannot configure SAML for an inactive organization" in
        let created := match saml_connections db !! organization_id with
                       | Some c => sc_created_at_unix c | None => now end in
        let connection := mkSamlConnection organization_id entity_id metadata_xml certificate active created now in
        Ok (connection, upd_saml_connections <[organization_id := connection]> db)
    end).

Definition organization_saml_connection (organization_id : string) : Op (option OrganizationSamlConnection) :=
  reading (fun db => Ok (saml_connections db !! organization_id)).

Definition delete_organization_saml_connection (organization_id : string) : Op bool :=
  atomically (fun db =>
    Ok (has organization_id (saml_connections db), upd_saml_connections (delete organization_id) db)).

(** ** One-time authorization states *)

(** [DELETE ... WHERE key IN (SELECT key WHERE stale ORDER BY expires ASC LIMIT 100)]. *)
Definition prune {V} (key : V -> string) (expires : V -> Z) (stale : V -> bool) (t : gmap string V) :
    gmap string V :=
  foldr (fun v => delete (key v)) t
    (take 100 (order_by expires (filter (fun v => stale v = true) (rows t)))).

Section states.
Context `{Sha256}.

(** The expired states are pruned even when the reservation is refused. *)
Definition reserve_oidc_authorization_state (now : Z) (state organization_id : string) (expires_at_unix : Z) :
    Op unit := fun db =>
  match validate_oidc_authorization_state_expiry now expires_at_unix, oidc_authorization_state_hash state with
  | Err e, _ | Ok _, Err e => (Err e, db)
  | Ok _, Ok state_hash =>
      let db := upd_oidc_states (prune os_state_hash os_expires_at_unix (fun s => os_expires_at_unix s <? now)) db in
      let configured :=
        match organizations db !! organization_id, oidc_connections db !! organization_id with
        | Some o, Some c => og_active o && oc_active c
        | _, _ => false
        end in
      if negb configured then (Err "organization not found, inactive, or has no active OIDC connection", db)
      else if has state_hash (oidc_states db) then (Err "failed to reserve OIDC authorization state", db)
      else (Ok tt, upd_oidc_states
              <[state_hash := mkOidcState state_hash organization_id expires_at_unix None now]> db)
  end.

Definition consume_oidc_authorization_state (now : Z) (state organization_id : string) : Op bool :=
  atomically (fun db =>
    let? state_hash := oidc_authorization_state_hash state in
    match oidc_states db !! state_hash with
    | Some s =>
        if bool_decide (os_organization_id s = organization_id) && bool_decide (os_consumed_at_unix s = None)
           && (now <=? os_expires_at_unix s) then
          Ok (true, upd_oidc_states <[state_hash := mkOidcState (os_state_hash s) (os_organization_id s)
                      (os_expires_at_unix s) (Some now) (os_created_at_unix s)]> db)
        else Ok (false, db)
    | None => Ok (false, db)
    end).

Definition reserve_saml_authorization_state (now : Z) (state : string) (pending : SamlAuthorizationPending)
    (expires_at_unix : Z) : Op unit := fun db =>
  match validate_oidc_authorization_state_expiry now expires_at_unix, oidc_authorization_state_hash state with
  | Err e, _ | Ok _, Err e => (Err e, db)
  | Ok _, Ok state_hash =>
      let db := upd_saml_states (prune ss_state_hash ss_expires_at_unix (fun s => ss_expires_at_unix s <? now)) db in
      let configured :=
        match organizations db !! sp_organization_id pending, workspaces db !! sp_workspace_id pending,
              saml_connections db !! sp_organization_id pending with
        | Some o, Some w, Some c =>
            bool_decide (wk_organization_id w = sp_organization_id pending)
            && og_active o && wk_active w && sc_active c
        | _, _, _ => false
        end in
      let invitation_known := match sp_invitation_id pending with
                              | Some i => has i (invitations db) | None => true end in
      if negb configured then (Err "organization or workspace is inactive, or SAML is not configured", db)
      else if has state_hash (saml_states db) || negb invitation_known
      then (Err "failed to reserve SAML authorization state", db)
      else (Ok tt, upd_saml_states
              <[state_hash := mkSamlState state_hash pending expires_at_unix None now]> db)
  end.

Definition consume_saml_authorization_state (now : Z) (state : string) : Op (option SamlAuthorizationPending) :=
  atomically (fun db =>
    let? state_hash := oidc_authorization_state_hash state in
    match saml_states db !! state_hash with
    | Some s =>
        if bool_decide (ss_consumed_at_unix s = None) && (now <=? ss_expires_at_unix s) then
          Ok (Some (ss_pending s), upd_saml_states <[state_hash := mkSamlState (ss_state_hash s) (ss_pending s)
                      (ss_expires_at_unix s) (Some now) (ss_created_at_unix s)]> db)
        else Ok (None, db)
    | None => Ok (None, db)
    end).
End states.

(** ** What a principal may do in a workspace *)

(** A mapping of the workspace names an active group of the organization that holds the
    principal, an active user of the organization. *)
Definition group_grants (organization_id workspace_id principal_id : string) (db : Db) : bool :=
  existsb (fun kv : string * string * (Z * Z) =>
    let '((w, g), _) := kv in
    bool_decide (w = workspace_id)
    && match scim_groups db !! g with
       | Some row => bool_decide (sg_organization_id row = organization_id) && sg_active row
       | None => false
       end
    && has (g, principal_id) (group_members db)
    && match scim_users db !! principal_id with
       | Some u => bool_decide (su_organization_id u = organization_id) && su_active u
       | None => false
       end) (map_to_list (mappings db)).

(** [COALESCE] of the active membership's role and [analyst] from a mapped group. *)
Definition effective_role (organization_id workspace_id principal_id : string) (db : Db) : option WorkspaceRole :=
  match memberships db !! (workspace_id, principal_id) with
  | Some m =>
      if mb_active m then Some (mb_role m)
      else if group_grants organization_id workspace_id principal_id db then Some Analyst else None
  | None => if group_grants organization_id workspace_id principal_id db then Some Analyst else None
  end.

(** Organization, workspace and principal are active and the workspace is the
    organization's. *)
Definition scope_active (organization_id workspace_id principal_id : string) (db : Db) : bool :=
  match organizations db !! organization_id, workspaces db !! workspace_id, principals db !! principal_id with
  | Some o, Some w, Some p =>
      bool_decide (wk_organization_id w = organization_id) && og_active o && wk_active w && wp_active p
  | _, _, _ => false
  end.

(** The access of an identity verified through a federation of the organization. *)
Definition verified_access (federation : BrowserSessionFederation)
    (organization_id workspace_id issuer subject : string) : Op (option VerifiedWorkspaceAccess) :=
  reading (fun db =>
    let? issuer := validate_external_identity_component issuer "identity issuer" 2048 in
    let? subject := validate_external_identity_component subject "identity subject" 255 in
    Ok (if bool_decide (connection_issuer federation organization_id db = Some issuer)
           && connection_active federation organization_id db then
          i ← identities db !! (issuer, subject);
          if scope_active organization_id workspace_id (ei_principal_id i) db then
            role ← effective_role organization_id workspace_id (ei_principal_id i) db;
            Some (mkAccess organization_id workspace_id (ei_principal_id i) role)
          else None
        else None)).

Definition verified_identity_workspace_access (organization_id workspace_id issuer subject : string) :
    Op (option VerifiedWorkspaceAccess) :=
  verified_access Oidc organization_id workspace_id issuer subject.

Definition verified_saml_identity_workspace_access (organization_id workspace_id issuer subject : string) :
    Op (option VerifiedWorkspaceAccess) :=
  verified_access Saml organization_id workspace_id issuer subject.

(** The roles a principal has in a workspace grant the permission. *)
Definition workspace_permits (principal_id workspace_id : string) (permission : WorkspacePermission) : Op bool :=
  reading (fun db => Ok
    match workspaces db !! workspace_id with
    | None => false
    | Some w =>
        scope_active (wk_organization_id w) workspace_id principal_id db
        && (match memberships db !! (workspace_id, principal_id) with
            | Some m => mb_active m && scim_allows (wk_organization_id w) principal_id db
                        && role_permits (mb_role m) permission
            | None => false
            end
            || (group_grants (wk_organization_id w) workspace_id principal_id db && role_permits Analyst permission))
    end).

(** ** Browser sessions *)

Section sessions.
Context `{Sha256}.

Record IssuedOidcBrowserSession := mkIssuedSession { is_token : string; is_expires_at_unix : Z }.

Record OidcBrowserSession := mkBrowserSession {
  ob_access : VerifiedWorkspaceAccess; ob_expires_at_unix : Z }.

(** Sessions that expired or were revoked. *)
Definition session_stale (now : Z) (s : OidcBrowserSessionRow) : bool :=
  (bs_expires_at_unix s <? now) || negb (bool_decide (bs_revoked_at_unix s = None)).

Definition issue_oidc_browser_session (now : Z) (random : string) (access : VerifiedWorkspaceAccess)
    (federation : BrowserSessionFederation) (expires_at_unix : Z) : Op IssuedOidcBrowserSession := fun db =>
  let token := generate_oidc_browser_session_token random in
  match validate_oidc_browser_session_expiry now expires_at_unix, oidc_browser_session_hash token with
  | Err e, _ | Ok _, Err e => (Err e, db)
  | Ok _, Ok session_hash =>
      let db := upd_sessions (prune bs_session_hash bs_expires_at_unix (session_stale now)) db in
      let '(org, ws, pr) := (va_organization_id access, va_workspace_id access, va_principal_id access) in
      if scope_active org ws pr db && connection_active federation org db
         && match effective_role org ws pr db with Some _ => true | None => false end then
        if has session_hash (sessions db) then (Err "failed to create OIDC browser session", db)
        else (Ok (mkIssuedSession token expires_at_unix), upd_sessions
                <[session_hash := mkSessionRow session_hash org ws pr federation expires_at_unix None now]> db)
      else (Err "verified OIDC identity no longer has active workspace access", db)
  end.

(** What a live session gives now: the role is read from the tables, not from the session. *)
Definition session_access (now : Z) (session_hash : string) (db : Db) :
    option (OidcBrowserSessionRow * VerifiedWorkspaceAccess) :=
  s ← sessions db !! session_hash;
  let '(org, ws, pr) := (bs_organization_id s, bs_workspace_id s, bs_principal_id s) in
  if (now <=? bs_expires_at_unix s) && bool_decide (bs_revoked_at_unix s = None)
     && scope_active org ws pr db && connection_active (bs_federation_kind s) org db then
    role ← effective_role org ws pr db;
    Some (s, mkAccess org ws pr role)
  else None.

Definition session_revoked (now : Z) (s : OidcBrowserSessionRow) : OidcBrowserSessionRow :=
  mkSessionRow (bs_session_hash s) (bs_organization_id s) (bs_workspace_id s) (bs_principal_id s)
    (bs_federation_kind s) (bs_expires_at_unix s) (Some now) (bs_created_at_unix s).

Definition rotate_oidc_browser_session (now : Z) (random token : string) (expires_at_unix : Z) :
    Op (option IssuedOidcBrowserSession) :=
  atomically (fun db =>
    let? _ := validate_oidc_browser_session_expiry now expires_at_unix in
    let? old_hash := oidc_browser_session_hash token in
    let issued := mkIssuedSession (generate_oidc_browser_session_token random) expires_at_unix in
    let? new_hash := oidc_browser_session_hash (is_token issued) in
    match session_access now old_hash db with
    | None => Ok (None, db)
    | Some (s, access) =>
        let db := upd_sessions <[old_hash := session_revoked now s]> db in
        bail_if (has new_hash (sessions db)) with "failed to issue replacement OIDC browser session" in
        Ok (Some issued, upd_sessions
              <[new_hash := mkSessionRow new_hash (va_organization_id access) (va_workspace_id access)
                  (va_principal_id access) (bs_federation_kind s) expires_at_unix None now]> db)
    end).

Definition authenticate_oidc_browser_session (now : Z) (token : string) : Op (option OidcBrowserSession) :=
  reading (fun db =>
    let? session_hash := oidc_browser_session_hash token in
    Ok ((fun r => mkBrowserSession r.2 (bs_expires_at_unix r.1)) <$> session_access now session_hash db)).

Definition revoke_oidc_browser_session (now : Z) (token : string) : Op bool :=
  atomically (fun db =>
    let? session_hash := oidc_browser_session_hash token in
    match sessions db !! session_hash with
    | Some s =>
        if bool_decide (bs_revoked_at_unix s = None)
        then Ok (true, upd_sessions <[session_hash := session_revoked now s]> db) else Ok (false, db)
    | None => Ok (false, db)
    end).
End sessions.
