(* ===== verification/TenantPolicy.v ===== *)
(** Tenant policies and the webhooks that announce them ([proxy/src/tenant_store.rs]):
    immutable versions, their approval, deployment and rollback, the allowlist the data
    plane reads, simulation, security events and the delivery queue.

    JSON text columns are written and read by serde, a parameter ([JsonCodec]): reading
    back what was written gives the value again.  HMAC-SHA256 and the network are
    parameters too. *)
From S2P Require Import Prelude BTree Net Json TenantDb TenantDirectory TenantScim TenantSession.
From Stdlib Require Import String Ascii.
Local Open Scope string_scope.
Local Open Scope Z_scope.

#[local] Abbreviation length := List.length.

(** [serde_json::to_string] and [from_str] for a type. *)
Class JsonCodec (A : Type) := { to_json : A -> string; from_json : string -> option A }.
Class JsonCodecLaws (A : Type) `{JsonCodec A} := from_to_json : forall x : A, from_json (to_json x) = Some x.

(** ** Documents *)

Definition model_policy_permits (policy : TenantModelPolicy) (model : string) : bool :=
  existsb (fun allowed => bool_decide (allowed = model)) (allowed_models policy).

Definition TENANT_POLICY_SCHEMA_VERSION : Z := 1.

Definition policy_document_new (model_policy : option TenantModelPolicy) : TenantPolicyDocument :=
  mkPolicyDocument TENANT_POLICY_SCHEMA_VERSION model_policy.

Definition action_storage_value (a : PolicyDeploymentAction) : string :=
  match a with Activate => "activate" | Rollback => "rollback" end.

Definition action_from_storage (value : string) : result PolicyDeploymentAction string :=
  if bool_decide (value = "activate") then Ok Activate
  else if bool_decide (value = "rollback") then Ok Rollback
  else Err "stored policy deployment action is invalid".

Fixpoint validate_models (seen models : list string) : result unit string :=
  match models with
  | [] => Ok tt
  | model :: rest =>
      bail_if (Str.is_empty model || (200 <? Str.len model)%nat || negb (bool_decide (Str.trim model = model)))
        with "tenant model identifiers must be nonempty, trimmed, and at most 200 bytes" in
      bail_if (bool_decide (model ∈ seen)) with "tenant model policy cannot contain duplicate models" in
      validate_models (model :: seen) rest
  end.

Definition validate_model_policy (policy : TenantModelPolicy) : result unit string :=
  bail_if (100 <? length (allowed_models policy))%nat
    with "tenant model policy cannot contain more than 100 models" in
  validate_models [] (allowed_models policy).

Definition validate_policy_document (document : TenantPolicyDocument) : result unit string :=
  bail_if (negb (pd_schema_version document =? TENANT_POLICY_SCHEMA_VERSION))
    with ("unsupported tenant policy schema version " +:+ show_usize (pd_schema_version document)
          +:+ "; expected " +:+ show_usize TENANT_POLICY_SCHEMA_VERSION) in
  match pd_model_policy document with
  | Some policy => validate_model_policy policy
  | None => Ok tt
  end.

Definition hex_digit (n : Z) : ascii := default "0"%char (Str.get (Z.to_nat n) "0123456789abcdef").

Fixpoint hex_lower (bytes : string) : string :=
  match bytes with
  | EmptyString => EmptyString
  | String a rest => String (hex_digit (byte_value a / 16)) (String (hex_digit (byte_value a mod 16)) (hex_lower rest))
  end.

(** A version as the API shows it. *)
Record TenantPolicyVersion := mkPolicyVersion {
  tv_id : string; tv_tenant_id : string; tv_sequence : Z; tv_document : TenantPolicyDocument;
  tv_content_sha256 : string; tv_created_by : string; tv_created_at_unix : Z;
  tv_approved_by : option string; tv_approved_at_unix : option Z; tv_active : bool }.

(** An integer as [serde_json] has it. *)
Definition json_int (n : Z) : Value := JNumber (if n <? 0 then NegInt n else PosInt n).

Section policies.
Context `{Sha256, JsonCodec TenantPolicyDocument, JsonCodec TenantModelPolicy, JsonCodec (list string),
          JsonCodec Value}.

Definition canonical_policy_document (document : TenantPolicyDocument) : result (string * string) string :=
  let? _ := validate_policy_document document in
  let encoded := to_json document in
  Ok (encoded, hex_lower (sha256 ("llm-firewall-tenant-policy-v1:" +:+ encoded))).

(** [COALESCE(MAX(sequence), 0) + 1] over the tenant's versions. *)
Definition next_version_sequence (tenant_id : string) (db : Db) : Z :=
  next_sequence (pv_sequence <$> filter (fun v => pv_tenant_id v = tenant_id) (rows (policy_versions db))).

(** The row, refused when its key or its content hash does not fit the table. *)
Definition insert_policy_version (v : PolicyVersionRow) (context : string) (db : Db) : result Db string :=
  bail_if (has (pv_id v) (policy_versions db) || negb (Str.len (pv_content_sha256 v) =? 64)%nat) with context in
  Ok (upd_policy_versions <[pv_id v := v]> db).

Definition create_policy_version (now : Z) (random tenant_id actor_id : string)
    (document : TenantPolicyDocument) : Op TenantPolicyVersion :=
  atomically (fun db =>
    let? _ := validate_usage_text actor_id "policy actor ID" 256 in
    let? canonical := canonical_policy_document document in
    let id := random_id "policy" random in
    bail_if (negb (has tenant_id (tenants db))) with "tenant not found" in
    let sequence := next_version_sequence tenant_id db in
    let? db := insert_policy_version (mkVersionRow id tenant_id sequence canonical.1 canonical.2 actor_id now)
                 "failed to append tenant policy version" db in
    Ok (mkPolicyVersion id tenant_id sequence document canonical.2 actor_id now None None false, db)).

(** A row joined with its approval and the tenant's state. *)
Definition policy_version_from_row (db : Db) (v : PolicyVersionRow) : result TenantPolicyVersion string :=
  let approval := policy_approvals db !! pv_id v in
  match from_json (pv_document_json v) with
  | None => Err "failed to load policy version"
  | Some document =>
      Ok (mkPolicyVersion (pv_id v) (pv_tenant_id v) (pv_sequence v) document (pv_content_sha256 v)
            (pv_created_by v) (pv_created_at_unix v) (pa_approved_by <$> approval)
            (pa_approved_at_unix <$> approval)
            (bool_decide (fst <$> policy_state db !! pv_tenant_id v = Some (pv_id v))))
  end.

(** [.collect::<Result<Vec<_>, _>>()]. *)
Fixpoint collect {A B} (f : A -> result B string) (l : list A) : result (list B) string :=
  match l with
  | [] => Ok []
  | x :: l' => let? y := f x in let? ys := collect f l' in Ok (y :: ys)
  end.

Definition list_policy_versions (tenant_id : string) (limit : nat) : Op (list TenantPolicyVersion) :=
  reading (fun db =>
    collect (policy_version_from_row db)
      (take (clamp_limit limit 100) (reverse (order_by pv_sequence
        (filter (fun v => pv_tenant_id v = tenant_id) (rows (policy_versions db))))))).

Definition version_of (tenant_id version_id : string) (db : Db) : option PolicyVersionRow :=
  v ← policy_versions db !! version_id;
  if bool_decide (pv_tenant_id v = tenant_id) then Some v else None.

Definition policy_version (tenant_id version_id : string) : Op (option TenantPolicyVersion) :=
  reading (fun db =>
    match version_of tenant_id version_id db with
    | None => Ok None
    | Some v => let? version := policy_version_from_row db v in Ok (Some version)
    end).

Definition approve_version_tx (now : Z) (tenant_id version_id actor_id : string) (db : Db) :
    result (unit * Db) string :=
  match version_of tenant_id version_id db with
  | None => Err "policy version not found"
  | Some _ =>
      match policy_approvals db !! version_id with
      | Some existing =>
          bail_if (negb (bool_decide (pa_approved_by existing = actor_id)))
            with "policy version was already approved by another actor" in
          Ok (tt, db)
      | None => Ok (tt, upd_policy_approvals <[version_id := mkApproval actor_id now]> db)
      end
  end.

Definition approve_policy_version (now : Z) (tenant_id version_id actor_id : string) : Op TenantPolicyVersion :=
  fun db =>
  match validate_usage_text actor_id "policy approver ID" 256 with
  | Err e => (Err e, db)
  | Ok _ =>
      match atomically (approve_version_tx now tenant_id version_id actor_id) db with
      | (Err e, db) => (Err e, db)
      | (Ok _, db) =>
          match policy_version tenant_id version_id db with
          | (Ok (Some v), db) => (Ok v, db)
          | (Ok None, db) => (Err "policy version not found after approval", db)
          | (Err e, db) => (Err e, db)
          end
      end
  end.

(** ** Deployment *)

Definition policy_deployment_security_payload (deployment : TenantPolicyDeployment) : Value :=
  JObject (BMap.of_list
    [("schema_version", json_int 1); ("event_type", JString "policy.deployed");
     ("tenant_id", JString (dp_tenant_id deployment)); ("deployment_id", JString (dp_id deployment));
     ("deployment_sequence", json_int (dp_sequence deployment));
     ("version_id", JString (dp_version_id deployment));
     ("previous_version_id", match dp_previous_version_id deployment with Some p => JString p | None => JNull end);
     ("action", JString (action_storage_value (dp_action deployment)));
     ("actor_id", JString (dp_actor_id deployment));
     ("created_at_unix", json_int (dp_created_at_unix deployment))]).

Definition canonical_security_event_payload (event_type : string) (payload : Value) :
    result (string * string) string :=
  let? _ := validate_usage_text event_type "security event type" 128 in
  let encoded := to_json payload in
  Ok (encoded, hex_lower (sha256 ("llm-firewall-security-event-v1:" +:+ event_type +:+ ":" +:+ encoded))).

Definition WEBHOOK_POLICY_DEPLOYED_EVENT : string := "policy.deployed".

(** One pending delivery for each active destination of the tenant that subscribes; the
    i-th takes the i-th random identifier. *)
Fixpoint enqueue_deliveries (now : Z) (random : nat -> string) (i : nat) (tenant_id event_id : string)
    (destinations : list WebhookDestinationRow) (db : Db) : result Db string :=
  match destinations with
  | [] => Ok db
  | d :: rest =>
      match from_json (wd_event_types_json d) : option (list string) with
      | None => Err "stored webhook event subscriptions are invalid"
      | Some event_types =>
          if bool_decide (WEBHOOK_POLICY_DEPLOYED_EVENT ∈ event_types) then
            let id := random_id "webhook_delivery" (random i) in
            if any (fun v => bool_decide (wv_event_id v = event_id /\ wv_destination_id v = wd_id d))
                 (webhook_deliveries db)
            then enqueue_deliveries now random (S i) tenant_id event_id rest db
            else
              bail_if (has id (webhook_deliveries db)) with "failed to enqueue webhook delivery" in
              enqueue_deliveries now random (S i) tenant_id event_id rest
                (upd_webhook_deliveries
                   <[id := mkDelivery id tenant_id event_id (wd_id d) Pending 0 now None None None None now]> db)
          else enqueue_deliveries now random i tenant_id event_id rest db
      end
  end.

Definition active_destinations (tenant_id : string) (db : Db) : list WebhookDestinationRow :=
  filter (fun d => wd_tenant_id d = tenant_id /\ wd_active d = true) (rows (webhook_destinations db)).

(** Materialize the allowlist, move the active version, and append the deployment, its
    security event and the deliveries. *)
Definition install_policy (now : Z) (random : nat -> string) (document : TenantPolicyDocument)
    (deployment_id tenant_id version_id : string) (previous : option string)
    (action : PolicyDeploymentAction) (actor_id : string) (db : Db) :
    result (TenantPolicyDeployment * Db) string :=
  let db := upd_model_policies (fun t =>
              match pd_model_policy document with
              | Some policy => <[tenant_id := (to_json policy, now)]> t
              | None => delete tenant_id t
              end) db in
  let db := upd_policy_state <[tenant_id := (version_id, now)]> db in
  let sequence := next_sequence (dp_sequence <$>
    filter (fun d => dp_tenant_id d = tenant_id) (rows (policy_deployments db))) in
  let deployment := mkDeployment deployment_id tenant_id sequence version_id previous action actor_id now in
  bail_if (has deployment_id (policy_deployments db)) with "failed to append policy deployment" in
  let db := upd_policy_deployments <[deployment_id := deployment]> db in
  let? event := canonical_security_event_payload WEBHOOK_POLICY_DEPLOYED_EVENT
                  (policy_deployment_security_payload deployment) in
  let event_id := random_id "security_event" (random 0%nat) in
  let event_sequence := next_sequence (se_sequence <$>
    filter (fun e => se_tenant_id e = tenant_id) (rows (security_events db))) in
  bail_if (has event_id (security_events db) || negb (Str.len event.2 =? 64)%nat)
    with "failed to append policy security event" in
  let db := upd_security_events <[event_id := mkSecurityEvent event_id tenant_id event_sequence
              WEBHOOK_POLICY_DEPLOYED_EVENT event.1 event.2 now]> db in
  let? db := enqueue_deliveries now random 1 tenant_id event_id (active_destinations tenant_id db) db in
  Ok (deployment, db).

Definition was_deployed (tenant_id version_id : string) (db : Db) : bool :=
  any (fun d => bool_decide (dp_tenant_id d = tenant_id /\ dp_version_id d = version_id)) (policy_deployments db).

Definition deploy_policy_version (now : Z) (random : nat -> string) (random' : string)
    (tenant_id version_id actor_id : string) (action : PolicyDeploymentAction) : Op TenantPolicyDeployment :=
  atomically (fun db =>
    let? _ := validate_usage_text actor_id "policy deployment actor ID" 256 in
    let deployment_id := random_id "policy_deployment" random' in
    match version_of tenant_id version_id db, policy_approvals db !! version_id with
    | Some v, Some _ =>
        match from_json (pv_document_json v) with
        | None => Err "stored tenant policy version is invalid"
        | Some document =>
            let? _ := validate_policy_document document in
            let previous := fst <$> policy_state db !! tenant_id in
            bail_if (bool_decide (previous = Some version_id)) with "policy version is already active" in
            bail_if (bool_decide (action = Rollback) && negb (was_deployed tenant_id version_id db))
              with "rollback target has never been deployed" in
            install_policy now random document deployment_id tenant_id version_id previous action actor_id db
        end
    | _, _ => Err "approved policy version not found"
    end).

Definition list_policy_deployments (tenant_id : string) (limit : nat) : Op (list TenantPolicyDeployment) :=
  reading (fun db => Ok (take (clamp_limit limit 100) (reverse (order_by dp_sequence
    (filter (fun d => dp_tenant_id d = tenant_id) (rows (policy_deployments db))))))).

Definition list_security_events (tenant_id : string) (after_sequence : Z) (limit : nat) :
    Op (list (SecurityEventRow * Value)) :=
  reading (fun db =>
    bail_if (i64_max <? after_sequence) with "security-event cursor exceeds SQLite integer range" in
    collect (fun e => match from_json (se_payload_json e) with
                      | Some payload => Ok (e, payload) | None => Err "failed to read security events" end)
      (take (clamp_limit limit 500) (order_by se_sequence
        (filter (fun e => se_tenant_id e = tenant_id /\ after_sequence < se_sequence e)
           (rows (security_events db)))))).

(** ** What the data plane reads, and simulation *)

Definition model_policy_for (tenant_id : string) : Op (option TenantModelPolicy) :=
  reading (fun db =>
    match model_policies db !! tenant_id with
    | None => Ok None
    | Some (encoded, _) =>
        match from_json encoded with
        | Some policy => Ok (Some policy)
        | None => Err "stored tenant model policy is invalid"
        end
    end).

(** Three transactions; what the first ones wrote stays when a later one fails. *)
Definition set_model_policy (now : Z) (random : nat -> string) (random' random'' tenant_id : string)
    (policy : option TenantModelPolicy) : Op unit := fun db =>
  let actor := "internal_control_plane" in
  match create_policy_version now random'' tenant_id actor (policy_document_new policy) db with
  | (Err e, db) => (Err e, db)
  | (Ok version, db) =>
      match approve_policy_version now tenant_id (tv_id version) actor db with
      | (Err e, db) => (Err e, db)
      | (Ok _, db) =>
          match deploy_policy_version now random random' tenant_id (tv_id version) actor Activate db with
          | (Err e, db) => (Err e, db)
          | (Ok _, db) => (Ok tt, db)
          end
      end
  end.

Definition set_workspace_model_policy (now : Z) (random : nat -> string) (random' random'' : string)
    (workspace_id principal_id : string) (policy : option TenantModelPolicy) : Op unit :=
  atomically (fun db =>
    let document := policy_document_new policy in
    let? canonical := canonical_policy_document document in
    let audit_action := match policy with Some _ => "model_policy.set" | None => "model_policy.clear" end in
    let version_id := random_id "policy" random'' in
    let deployment_id := random_id "policy_deployment" random' in
    let? authorized := authorized_with workspace_id principal_id (fun r => role_permits r ApprovePolicies) db in
    let tenant_id := wk_tenant_id authorized.1 in
    let sequence := next_version_sequence tenant_id db in
    let? db := insert_policy_version
                 (mkVersionRow version_id tenant_id sequence canonical.1 canonical.2 principal_id now)
                 "failed to append customer policy version" db in
    bail_if (has version_id (policy_approvals db)) with "failed to approve customer policy version" in
    let db := upd_policy_approvals <[version_id := mkApproval principal_id now]> db in
    let previous := fst <$> policy_state db !! tenant_id in
    let? installed := install_policy now random document deployment_id tenant_id version_id previous
                        Activate principal_id db in
    Ok (tt, append_admin_audit (wk_organization_id authorized.1) workspace_id (Some principal_id)
              audit_action None now installed.2)).

Record PolicySimulationResult := mkSimulationResult {
  sr_requested_model : string; sr_current_permitted : bool; sr_candidate_permitted : bool; sr_changed : bool }.

Record TenantPolicySimulation := mkSimulation {
  sm_version_id : string; sm_active_version_id : option string; sm_changed_count : Z;
  sm_results : list PolicySimulationResult }.

Fixpoint validate_cases (cases : list string) : result unit string :=
  match cases with
  | [] => Ok tt
  | model :: rest =>
      let? _ := validate_usage_text model "simulation model" 200 in
      bail_if (negb (bool_decide (Str.trim model = model))) with "simulation model identifiers must be trimmed" in
      validate_cases rest
  end.

Definition validate_policy_simulation_cases (cases : list string) : result unit string :=
  bail_if ((length cases =? 0)%nat || (1000 <? length cases)%nat)
    with "policy simulation requires between 1 and 1000 cases" in
  validate_cases cases.

Definition policy_document_permits (document : option TenantPolicyDocument) (model : string) : bool :=
  match document ≫= pd_model_policy with
  | None => true
  | Some policy => model_policy_permits policy model
  end.

Definition evaluate_policy_simulation (version_id : string) (active_version_id : option string)
    (current : option TenantPolicyDocument) (candidate : TenantPolicyDocument) (cases : list string) :
    result TenantPolicySimulation string :=
  let? _ := validate_policy_simulation_cases cases in
  let? _ := validate_policy_document candidate in
  let results := (fun model =>
    let current_permitted := policy_document_permits current model in
    let candidate_permitted := policy_document_permits (Some candidate) model in
    mkSimulationResult model current_permitted candidate_permitted
      (negb (Bool.eqb current_permitted candidate_permitted))) <$> cases in
  Ok (mkSimulation version_id active_version_id
        (Z.of_nat (length (filter (fun r => sr_changed r = true) results))) results).

Definition simulate_policy_version (tenant_id version_id : string) (cases : list string) :
    Op TenantPolicySimulation :=
  reading (fun db =>
    let? found := (policy_version tenant_id version_id db).1 in
    match found with
    | None => Err "policy version not found"
    | Some candidate =>
        let active_version_id := fst <$> policy_state db !! tenant_id in
        let? active := match active_version_id with
                       | Some id => (policy_version tenant_id id db).1 | None => Ok None end in
        let active_document := tv_document <$> active in
        let? fallback := match active_document with
                         | None => let? policy := (model_policy_for tenant_id db).1 in
                                   Ok ((fun p => policy_document_new (Some p)) <$> policy)
                         | Some _ => Ok None
                         end in
        evaluate_policy_simulation (tv_id candidate) active_version_id
          (match active_document with Some d => Some d | None => fallback end) (tv_document candidate) cases
    end).
End policies.

(** ** Webhook destinations *)

Definition delivery_storage_value (s : WebhookDeliveryStatus) : string :=
  match s with Pending => "pending" | InFlight => "in_flight" | Delivered => "delivered" | Dead => "dead" end.

Definition delivery_from_storage (value : string) : result WebhookDeliveryStatus string :=
  if bool_decide (value = "pending") then Ok Pending
  else if bool_decide (value = "in_flight") then Ok InFlight
  else if bool_decide (value = "delivered") then Ok Delivered
  else if bool_decide (value = "dead") then Ok Dead
  else Err "stored webhook delivery status is invalid".

Fixpoint validate_event_types (validated values : list string) : result (list string) string :=
  match values with
  | [] => Ok validated
  | event_type :: rest =>
      let? _ := validate_usage_text event_type "webhook event type" 128 in
      bail_if (negb (bool_decide (event_type = WEBHOOK_POLICY_DEPLOYED_EVENT)))
        with "unsupported webhook event type" in
      validate_event_types
        (if bool_decide (event_type ∈ validated) then validated else validated ++ [event_type]) rest
  end.

Definition validate_webhook_event_types (event_types : list string) : result (list string) string :=
  let values := match event_types with [] => [WEBHOOK_POLICY_DEPLOYED_EVENT] | _ => event_types end in
  bail_if (16 <? length values)%nat
    with "a webhook destination cannot subscribe to more than 16 event types" in
  validate_event_types [] values.

Section webhooks.
Context `{Sha256, UrlParser, JsonCodec (list string), JsonCodec Value}.
(** HMAC-SHA256 with a key, and unpadded base64url of the [base64] crate. *)
Variable hmac_sha256 : string -> string -> string.

Definition validate_webhook_destination_url (value : string) : result string string :=
  let? value := validate_oidc_https_uri value "webhook URL" in
  match url_parse value with
  | None => Err "webhook URL is not a valid URI"
  | Some uri =>
      match url_host_str uri with
      | None => Err "webhook URL must contain a host"
      | Some host =>
          bail_if (Str.eq_ignore_ascii_case host "localhost" || Str.ends_with ".localhost" host
                   || Str.eq_ignore_ascii_case host "metadata.google.internal"
                   || Str.eq_ignore_ascii_case host "metadata.google.internal." || is_ip_addr host)
            with "webhook URL must use an external DNS hostname, not a local or literal address" in
          Ok value
      end
  end.

(** The secret of a destination: derived from the process key, never stored. *)
Definition secret_for (key destination_id : string) : string :=
  base64url (hmac_sha256 key ("llm-firewall-webhook-secret-v1:" +:+ destination_id)).

Definition signature_for (key destination_id body : string) : string :=
  "sha256=" +:+ hex_lower (hmac_sha256 (secret_for key destination_id) body).

Definition insert_destination (now : Z) (random tenant_id url : string) (event_types : list string)
    (context : string) (db : Db) : result (WebhookDestinationRow * Db) string :=
  let d := mkDestinationRow (random_id "webhook" random) tenant_id url (to_json event_types) true now now in
  bail_if (has (wd_id d) (webhook_destinations db) || negb (has tenant_id (tenants db))) with context in
  Ok (d, upd_webhook_destinations <[wd_id d := d]> db).

(** The destination and its secret, shown once. *)
Definition create_webhook_destination (signing_key : option string) (now : Z) (random tenant_id url : string)
    (event_types : list string) : Op (WebhookDestinationRow * string) :=
  atomically (fun db =>
    match signing_key with
    | None => Err "webhook signing key is not configured"
    | Some key =>
        let? url := validate_webhook_destination_url url in
        let? event_types := validate_webhook_event_types event_types in
        let? inserted := insert_destination now random tenant_id url event_types
                           "failed to create webhook destination" db in
        Ok ((inserted.1, secret_for key (wd_id inserted.1)), inserted.2)
    end).

Definition create_workspace_webhook_destination (signing_key : option string) (now : Z) (random : string)
    (workspace_id principal_id url : string) (event_types : list string) : Op (WebhookDestinationRow * string) :=
  atomically (fun db =>
    match signing_key with
    | None => Err "webhook signing key is not configured"
    | Some key =>
        let? url := validate_webhook_destination_url url in
        let? event_types := validate_webhook_event_types event_types in
        let? authorized := authorized_with workspace_id principal_id (fun r => bool_decide (r = Owner)) db in
        let? inserted := insert_destination now random (wk_tenant_id authorized.1) url event_types
                           "failed to create customer webhook destination" db in
        Ok ((inserted.1, secret_for key (wd_id inserted.1)),
            append_admin_audit (wk_organization_id authorized.1) workspace_id (Some principal_id)
              "webhook_destination.create" None now inserted.2)
    end).

Definition list_webhook_destinations (tenant_id : string) : Op (list (WebhookDestinationRow * list string)) :=
  reading (fun db =>
    collect (fun d => match from_json (wd_event_types_json d) with
                      | Some types => Ok (d, types) | None => Err "failed to read webhook destinations" end)
      (order_by wd_id (filter (fun d => wd_tenant_id d = tenant_id) (rows (webhook_destinations db))))).

(** The destination, when it is the tenant's and active. *)
Definition deactivate_in (now : Z) (tenant_id destination_id : string) (db : Db) : option Db :=
  d ← webhook_destinations db !! destination_id;
  if bool_decide (wd_tenant_id d = tenant_id) && wd_active d
  then Some (upd_webhook_destinations <[destination_id := mkDestinationRow (wd_id d) (wd_tenant_id d) (wd_url d)
               (wd_event_types_json d) false (wd_created_at_unix d) now]> db)
  else None.

Definition deactivate_webhook_destination (now : Z) (tenant_id destination_id : string) : Op bool :=
  atomically (fun db =>
    match deactivate_in now tenant_id destination_id db with
    | Some db' => Ok (true, db')
    | None => Ok (false, db)
    end).

Definition deactivate_workspace_webhook_destination (now : Z) (workspace_id principal_id destination_id : string) :
    Op bool :=
  atomically (fun db =>
    match authorized_with workspace_id principal_id (fun r => bool_decide (r = Owner)) db with
    | Err _ => Ok (false, db)
    | Ok (w, _) =>
        match deactivate_in now (wk_tenant_id w) destination_id db with
        | Some db' => Ok (true, append_admin_audit (wk_organization_id w) workspace_id (Some principal_id)
                                  "webhook_destination.deactivate" None now db')
        | None => Ok (false, db)
        end
    end).

Definition list_webhook_deliveries (tenant_id : string) (limit : nat) : Op (list WebhookDelivery) :=
  reading (fun db => Ok (take (clamp_limit limit 500) (reverse (order_by (fun v => (wv_created_at_unix v, wv_id v))
    (filter (fun v => wv_tenant_id v = tenant_id) (rows (webhook_deliveries db))))))).

(** ** The delivery queue *)

Record PendingWebhookDelivery := mkPendingDelivery {
  pw_delivery : WebhookDelivery; pw_destination : WebhookDestinationRow; pw_event : SecurityEventRow;
  pw_payload : Value }.

Record WebhookAttemptResult := mkAttemptResult { ar_http_status : option Z; ar_error : option string }.

(** Pending and due, or taken by a worker that did not finish in time. *)
Definition due (now : Z) (v : WebhookDelivery) : bool :=
  match wv_status v with
  | Pending => wv_next_attempt_at_unix v <=? now
  | InFlight => match wv_locked_until_unix v with Some t => t <=? now | None => false end
  | _ => false
  end.

(** A delivery joined with its active destination and its event. *)
Definition pending_row (now : Z) (db : Db) (v : WebhookDelivery) :
    option (WebhookDelivery * WebhookDestinationRow * SecurityEventRow) :=
  w ← webhook_destinations db !! wv_destination_id v;
  e ← security_events db !! wv_event_id v;
  if wd_active w && due now v then Some (v, w, e) else None.

Definition claim_lock (now : Z) (v : WebhookDelivery) : WebhookDelivery :=
  mkDelivery (wv_id v) (wv_tenant_id v) (wv_event_id v) (wv_destination_id v) InFlight
    (wv_attempt_count v + 1) (wv_next_attempt_at_unix v) (Some (Z.min (now + 30) i64_max))
    (wv_delivered_at_unix v) (wv_last_http_status v) (wv_last_error v) (wv_created_at_unix v).

Definition claim_webhook_delivery (now : Z) : Op (option PendingWebhookDelivery) :=
  atomically (fun db =>
    match order_by (fun r => (wv_next_attempt_at_unix r.1.1, wv_id r.1.1))
            (omap (pending_row now db) (rows (webhook_deliveries db))) with
    | [] => Ok (None, db)
    | (v, w, e) :: _ =>
        match (from_json (wd_event_types_json w) : option (list string)), from_json (se_payload_json e) with
        | Some _, Some payload =>
            Ok (Some (mkPendingDelivery (claim_lock now v) w e payload),
                upd_webhook_deliveries <[wv_id v := claim_lock now v]> db)
        | _, _ => Err "failed to claim webhook delivery"
        end
    end).

Definition backoff (now attempt_count : Z) : Z :=
  Z.min (now + Z.min (5 * Z.shiftl 1 (Z.min attempt_count 10)) i64_max) i64_max.

Fixpoint take_chars (n : nat) (s : string) : string :=
  match n, s with
  | _, EmptyString => EmptyString
  | O, String a s' => if Str.is_continuation a then String a (take_chars O s') else EmptyString
  | S n', String a s' => if Str.is_continuation a then String a (take_chars n s') else String a (take_chars n' s')
  end.

Definition settled (now : Z) (attempt : WebhookAttemptResult) (v : WebhookDelivery) : WebhookDelivery :=
  let status := match ar_error attempt with
                | None => Delivered
                | Some _ => if 8 <=? wv_attempt_count v then Dead else Pending
                end in
  let next_attempt := match status with Pending => backoff now (wv_attempt_count v) | _ => now end in
  mkDelivery (wv_id v) (wv_tenant_id v) (wv_event_id v) (wv_destination_id v) status (wv_attempt_count v)
    next_attempt None (match status with Delivered => Some now | _ => wv_delivered_at_unix v end)
    (ar_http_status attempt) (take_chars 512 <$> ar_error attempt) (wv_created_at_unix v).

Definition finish_webhook_delivery (now : Z) (delivery_id : string) (attempt : WebhookAttemptResult) : Op unit :=
  atomically (fun db => Ok (tt, upd_webhook_deliveries (alter (settled now attempt) delivery_id) db)).

(** One claim, one attempt, its result: [deliver] is the attempt over the network, which
    ends at [now']. *)
Definition dispatch_webhooks_once (signing_key : option string) (now now' : Z)
    (deliver : string -> PendingWebhookDelivery -> WebhookAttemptResult) : Op bool := fun db =>
  match signing_key with
  | None => (Ok false, db)
  | Some key =>
      match claim_webhook_delivery now db with
      | (Err e, db) => (Err e, db)
      | (Ok None, db) => (Ok false, db)
      | (Ok (Some pending), db) =>
          match finish_webhook_delivery now' (wv_id (pw_delivery pending)) (deliver key pending) db with
          | (Err e, db) => (Err e, db)
          | (Ok _, db) => (Ok true, db)
          end
      end
  end.

(** ** One attempt *)

Inductive IpAddr :=
| V4 (a b c d : Z)
| V6 (segments : list Z).

Definition is_public_socket_address (ip : IpAddr) : bool :=
  match ip with
  | V4 a b c d =>
      negb (a =? 127)
      && negb ((a =? 10) || ((a =? 172) && (16 <=? b) && (b <=? 31)) || ((a =? 192) && (b =? 168)))
      && negb ((a =? 169) && (b =? 254))
      && negb ((a =? 0) && (b =? 0) && (c =? 0) && (d =? 0))
      && negb ((a =? 255) && (b =? 255) && (c =? 255) && (d =? 255))
      && negb ((224 <=? a) && (a <=? 239))
      && negb ((a =? 100) && (b =? 64))
      && negb ((a =? 192) && (b =? 0) && (c =? 0))
      && negb ((a =? 198) && (b =? 18))
      && negb ((a =? 198) && (b =? 19))
  | V6 segments =>
      let first := default 0 (head segments) in
      negb (bool_decide (segments = [0; 0; 0; 0; 0; 0; 0; 1]))
      && negb (Z.land first 65024 =? 64512)
      && negb (Z.land first 65472 =? 65152)
      && negb (bool_decide (segments = [0; 0; 0; 0; 0; 0; 0; 0]))
      && negb (Z.land first 65280 =? 65280)
  end.

(** The request an attempt sends: to these addresses only, without following redirects. *)
Record WebhookPost := mkPost {
  po_url : string; po_addresses : list (IpAddr * Z); po_event_type : string; po_delivery_id : string;
  po_signature : string; po_body : string }.

Definition webhook_body (pending : PendingWebhookDelivery) : Value :=
  let e := pw_event pending in
  JObject (BMap.of_list
    [("schema_version", json_int 1); ("event_id", JString (se_id e));
     ("tenant_id", JString (se_tenant_id e)); ("sequence", json_int (se_sequence e));
     ("event_type", JString (se_event_type e)); ("payload", pw_payload pending);
     ("content_sha256", JString (se_content_sha256 e));
     ("occurred_at_unix", json_int (se_occurred_at_unix e))]).

(** [lookup_host]: the addresses of a host and port, or [None] when it does not resolve;
    [port_or_known_default]: the port of a URL. *)
Variable lookup_host : string -> Z -> option (list (IpAddr * Z)).
Variable url_port : Url -> option Z.

Definition resolve_public_webhook_url (url : string) : result (string * list (IpAddr * Z)) string :=
  match url_parse url with
  | None => Err "webhook URL is not a valid URI"
  | Some parsed =>
      match url_host_str parsed with
      | None => Err "webhook URL must contain a host"
      | Some host =>
          match lookup_host host (default 443 (url_port parsed)) with
          | None => Err "webhook host could not be resolved"
          | Some found =>
              let addresses := filter (fun a => is_public_socket_address a.1 = true) found in
              bail_if (bool_decide (addresses = []))
                with "webhook host resolved only to private or local addresses" in
              Ok (url, addresses)
          end
      end
  end.

(** What is sent, or why nothing is. *)
Definition webhook_post (key : string) (pending : PendingWebhookDelivery) : result WebhookPost string :=
  let? resolved := resolve_public_webhook_url (wd_url (pw_destination pending)) in
  let body := to_json (webhook_body pending) in
  Ok (mkPost resolved.1 resolved.2 (se_event_type (pw_event pending)) (wv_id (pw_delivery pending))
        (signature_for key (wd_id (pw_destination pending)) body) body).

(** [send] gives the HTTP status of the answer, or the reason there is none. *)
Definition deliver_webhook (send : WebhookPost -> result Z string) (key : string)
    (pending : PendingWebhookDelivery) : WebhookAttemptResult :=
  match webhook_post key pending with
  | Err e => mkAttemptResult None (Some e)
  | Ok post =>
      match send post with
      | Err e => mkAttemptResult None (Some ("webhook request failed: " +:+ e))
      | Ok status =>
          if (200 <=? status) && (status <? 300) then mkAttemptResult (Some status) None
          else mkAttemptResult (Some status) (Some ("webhook endpoint returned HTTP " +:+ show_usize status))
      end
  end.
End webhooks.
