(* ===== verification/TenantUsage.v ===== *)
(** Usage evidence ([proxy/src/tenant_store.rs]): the immutable usage events of the proxy
    ([Spend] builds them), reports over them, reconciliation with provider statements,
    retention and monthly quotas.

    Sums are of 64-bit columns: the database refuses one beyond [i64::MAX]. *)
From S2P Require Import Prelude BTree Net Spend TenantDb TenantDirectory TenantScim.
From Stdlib Require Import String Ascii.
Local Open Scope string_scope.
Local Open Scope Z_scope.

#[local] Abbreviation length := List.length.

#[export] Instance UsageTokenStatus_eq_dec : EqDecision UsageTokenStatus.
Proof. solve_decision. Defined.
#[export] Instance UsagePricingStatus_eq_dec : EqDecision UsagePricingStatus.
Proof. solve_decision. Defined.

(** ** Events *)

Definition usage_provider (provider : string) : bool :=
  bool_decide (provider = "openai") || bool_decide (provider = "anthropic").

Definition present {A} (o : option A) : bool := match o with Some _ => true | None => false end.

Definition validate_optional_text (value : option string) (field : string) (max : Z) : result unit string :=
  match value with Some v => validate_usage_text v field max | None => Ok tt end.

Definition validate_usage_event (event : NewUsageEvent) : result unit string :=
  let? _ := validate_usage_text (ue_tenant_id event) "usage tenant ID" 256 in
  let? _ := validate_usage_text (ue_request_id event) "usage request ID" 256 in
  let? _ := validate_optional_text (ue_provider_response_id event) "provider response ID" 256 in
  bail_if (negb (usage_provider (ue_provider event))) with "usage provider is unsupported" in
  let? _ := validate_usage_text (ue_path event) "usage request path" 128 in
  let? _ := validate_usage_text (ue_requested_model event) "usage requested model" 256 in
  let? _ := validate_optional_text (ue_provider_model event) "usage provider model" 256 in
  bail_if (ue_created_at_unix event <? 0) with "usage event timestamp is invalid" in
  let tokens_present := present (ue_input_tokens event) && present (ue_output_tokens event) in
  let actual := match ue_token_status event with Actual => true | Missing => false end in
  bail_if (negb (Bool.eqb (present (ue_input_tokens event)) (present (ue_output_tokens event)))
           || negb (Bool.eqb actual tokens_present))
    with "usage token status does not match token evidence" in
  let version := present (ue_model_price_version event) in
  let prices_present := version && present (ue_input_usd_micros_per_million event)
                        && present (ue_output_usd_micros_per_million event) in
  bail_if (negb (Bool.eqb version (present (ue_input_usd_micros_per_million event)))
           || negb (Bool.eqb version (present (ue_output_usd_micros_per_million event))))
    with "usage model-price metadata is incomplete" in
  let? _ := validate_optional_text (ue_model_price_version event) "usage model-price version" 128 in
  let priced := match ue_pricing_status event with Priced => true | Unpriced => false end in
  bail_if (negb (Bool.eqb priced (tokens_present && prices_present && present (ue_cost_usd_micros event)))
           || (negb priced && present (ue_cost_usd_micros event)))
    with "usage pricing status does not match pricing evidence" in
  let? _ := optional_database_integer (ue_input_tokens event) "input token count" in
  let? _ := optional_database_integer (ue_output_tokens event) "output token count" in
  let? _ := optional_database_integer (ue_input_usd_micros_per_million event) "input model price" in
  let? _ := optional_database_integer (ue_output_usd_micros_per_million event) "output model price" in
  let? _ := optional_database_integer (ue_cost_usd_micros event) "usage cost" in
  Ok tt.

(** [true] when the event is new; an event the tenant already has for the request stays. *)
Definition append_usage_event (event : NewUsageEvent) : Op bool :=
  atomically (fun db =>
    let? _ := validate_usage_event event in
    if existsb (fun r => bool_decide (ue_tenant_id r.2 = ue_tenant_id event)
                         && bool_decide (ue_request_id r.2 = ue_request_id event)) (log_rows (usage_events db))
    then Ok (false, db)
    else
      bail_if (negb (has (ue_tenant_id event) (tenants db))) with "failed to append immutable usage event" in
      Ok (true, upd_usage_events (log_append event) db)).

Definition tenant_events (tenant_id : string) (db : Db) : list (Z * NewUsageEvent) :=
  filter (fun r => ue_tenant_id r.2 = tenant_id) (log_rows (usage_events db)).

Definition list_usage_events (tenant_id : string) (limit : nat) : Op (list (Z * NewUsageEvent)) :=
  reading (fun db => Ok (take (clamp_limit limit 500) (reverse (tenant_events tenant_id db)))).

(** ** Reports *)

Record UsageTotals := mkTotals {
  to_request_count : Z; to_actual_token_events : Z; to_missing_token_events : Z; to_priced_events : Z;
  to_unpriced_events : Z; to_provider_correlated_events : Z; to_input_tokens : Z; to_output_tokens : Z;
  to_priced_cost_usd_micros : Z }.

Definition validate_usage_range (from_unix until_unix : Z) : result unit string :=
  bail_if ((from_unix <? 0) || (until_unix <=? from_unix)) with "usage time range is invalid" in
  bail_if (366 * 24 * 60 * 60 <? until_unix - from_unix) with "usage time range cannot exceed 366 days" in
  Ok tt.

(** [COUNT] of the rows with [p], and [COALESCE(SUM(column), 0)]. *)
Definition count_if {A} (p : A -> bool) (l : list A) : Z := Z.of_nat (length (filter (fun x => p x = true) l)).
Definition sum_column {A} (f : A -> option Z) (l : list A) : Z := foldr (fun x => Z.add (default 0 (f x))) 0 l.

Definition usage_totals (l : list NewUsageEvent) : result UsageTotals string :=
  let input := sum_column ue_input_tokens l in
  let output := sum_column ue_output_tokens l in
  let cost := sum_column ue_cost_usd_micros l in
  bail_if ((i64_max <? input) || (i64_max <? output) || (i64_max <? cost)) with "failed to aggregate usage totals" in
  Ok (mkTotals (Z.of_nat (length l))
        (count_if (fun e => bool_decide (ue_token_status e = Actual)) l)
        (count_if (fun e => bool_decide (ue_token_status e = Missing)) l)
        (count_if (fun e => bool_decide (ue_pricing_status e = Priced)) l)
        (count_if (fun e => bool_decide (ue_pricing_status e = Unpriced)) l)
        (count_if (fun e => present (ue_provider_response_id e)) l)
        input output cost).

Definition in_range (from_unix until_unix : Z) (r : Z * NewUsageEvent) : bool :=
  (from_unix <=? ue_created_at_unix r.2) && (ue_created_at_unix r.2 <? until_unix).

Definition range_events (tenant_id : string) (from_unix until_unix : Z) (db : Db) : list (Z * NewUsageEvent) :=
  filter (fun r => in_range from_unix until_unix r = true) (tenant_events tenant_id db).

(** [GROUP BY key ORDER BY key]: the totals of each group. *)
Fixpoint group_totals {K} `{EqDecision K} (key : NewUsageEvent -> K) (l : list NewUsageEvent) (keys : list K) :
    result (list (K * UsageTotals)) string :=
  match keys with
  | [] => Ok []
  | k :: rest =>
      let? totals := usage_totals (filter (fun e => key e = k) l) in
      let? groups := group_totals key l rest in
      Ok ((k, totals) :: groups)
  end.

Definition grouped {K} `{EqDecision K, Ord K} (key : NewUsageEvent -> K) (l : list NewUsageEvent) :
    result (list (K * UsageTotals)) string :=
  group_totals key l (order_by (fun k => k) (remove_dups (key <$> l))).

Definition day_start (e : NewUsageEvent) : Z := ue_created_at_unix e / 86400 * 86400.
Definition model_key (e : NewUsageEvent) : string * string := (ue_provider e, ue_requested_model e).

(** Another event of the tenant has the provider response's identifier too. *)
Definition duplicated (all : list (Z * NewUsageEvent)) (r : Z * NewUsageEvent) : bool :=
  existsb (fun d => bool_decide (ue_provider d.2 = ue_provider r.2)
                    && bool_decide (ue_provider_response_id d.2 = ue_provider_response_id r.2)
                    && negb (d.1 =? r.1)) all.

Definition reconciliation_ready (all : list (Z * NewUsageEvent)) (r : Z * NewUsageEvent) : bool :=
  present (ue_provider_response_id r.2) && bool_decide (ue_token_status r.2 = Actual)
  && bool_decide (ue_pricing_status r.2 = Priced) && negb (duplicated all r).

Record UsageReconciliationReadiness := mkReadiness {
  rd_ready_events : Z; rd_review_required_events : Z; rd_missing_provider_response_id_events : Z;
  rd_duplicate_provider_response_id_groups : Z; rd_duplicate_provider_response_id_events : Z }.

Definition readiness (all range : list (Z * NewUsageEvent)) (totals : UsageTotals) :
    result UsageReconciliationReadiness string :=
  let ready := count_if (reconciliation_ready all) range in
  let duplicates := filter (fun r => present (ue_provider_response_id r.2) && duplicated all r = true) range in
  let groups := remove_dups ((fun r => (ue_provider r.2, ue_provider_response_id r.2)) <$> duplicates) in
  bail_if (to_request_count totals <? ready) with "usage reconciliation counts are inconsistent" in
  bail_if (to_request_count totals <? to_provider_correlated_events totals)
    with "usage provider correlation counts are inconsistent" in
  Ok (mkReadiness ready (to_request_count totals - ready)
        (to_request_count totals - to_provider_correlated_events totals)
        (Z.of_nat (length groups)) (Z.of_nat (length duplicates))).

Record UsageReport := mkReport {
  rp_from_unix : Z; rp_until_unix : Z; rp_totals : UsageTotals; rp_daily : list (Z * UsageTotals);
  rp_models : list (string * string * UsageTotals); rp_reconciliation : UsageReconciliationReadiness }.

Definition usage_report (tenant_id : string) (from_unix until_unix : Z) : Op UsageReport :=
  reading (fun db =>
    let? _ := validate_usage_text tenant_id "usage tenant ID" 256 in
    let? _ := validate_usage_range from_unix until_unix in
    let range := range_events tenant_id from_unix until_unix db in
    let? totals := usage_totals range.*2 in
    let? daily := grouped day_start range.*2 in
    let? models := grouped model_key range.*2 in
    let? reconciliation := readiness (tenant_events tenant_id db) range totals in
    Ok (mkReport from_unix until_unix totals daily models reconciliation)).

(** A page of the export, and where the next one starts. *)
Definition list_usage_events_range (tenant_id : string) (from_unix until_unix : Z) (after_id : option Z)
    (limit : nat) : Op (list (Z * NewUsageEvent) * option Z) :=
  reading (fun db =>
    let? _ := validate_usage_text tenant_id "usage tenant ID" 256 in
    let? _ := validate_usage_range from_unix until_unix in
    bail_if (match after_id with Some v => v <? 0 | None => false end) with "usage event cursor is invalid" in
    let limit := clamp_limit limit 1000 in
    let events := take (S limit) (filter (fun r => default 0 after_id < r.1)
                    (range_events tenant_id from_unix until_unix db)) in
    if (limit <? length events)%nat
    then Ok (take limit events, fst <$> last (take limit events))
    else Ok (events, None)).

(** ** Reconciliation *)

Definition reconciliation_storage_value (s : UsageReconciliationStatus) : string :=
  match s with Matched => "matched" | Mismatched => "mismatched" | Orphan => "orphan" | Ambiguous => "ambiguous" end.

Definition reconciliation_from_storage (value : string) : result UsageReconciliationStatus string :=
  if bool_decide (value = "matched") then Ok Matched
  else if bool_decide (value = "mismatched") then Ok Mismatched
  else if bool_decide (value = "orphan") then Ok Orphan
  else if bool_decide (value = "ambiguous") then Ok Ambiguous
  else Err "stored usage reconciliation status is invalid".

Record NewUsageReconciliationRecord := mkReconciliationRecord {
  nr_source_record_id : string; nr_provider : string; nr_provider_response_id : string;
  nr_input_tokens : option Z; nr_output_tokens : option Z; nr_cost_usd_micros : option Z }.

Record NewUsageReconciliationImport := mkReconciliationImport {
  ni_source : string; ni_statement_id : string; ni_records : list NewUsageReconciliationRecord }.

(** [n.to_be_bytes()] of a [u64]: [k] bytes, most significant first. *)
Fixpoint be_bytes (k : nat) (n : Z) : string :=
  match k with
  | O => EmptyString
  | S k' => String (ascii_of_N (Z.to_N (n / 256 ^ Z.of_nat k' mod 256))) (be_bytes k' n)
  end.

Definition u64_be_bytes (n : Z) : string := be_bytes 8 n.

Definition hash_reconciliation_text (value : string) : string :=
  u64_be_bytes (Z.of_nat (Str.len value)) +:+ value.

Definition hash_reconciliation_optional_u64 (value : option Z) : string :=
  match value with
  | Some v => String (ascii_of_nat 1) (u64_be_bytes v)
  | None => String (ascii_of_nat 0) EmptyString
  end.

Fixpoint validate_reconciliation_records (seen : list string) (records : list NewUsageReconciliationRecord) :
    result unit string :=
  match records with
  | [] => Ok tt
  | record :: rest =>
      let? _ := validate_usage_text (nr_source_record_id record) "reconciliation source record ID" 256 in
      bail_if (bool_decide (nr_source_record_id record ∈ seen))
        with "reconciliation source record IDs must be unique" in
      bail_if (negb (usage_provider (nr_provider record))) with "reconciliation provider is unsupported" in
      let? _ := validate_usage_text (nr_provider_response_id record) "reconciliation provider response ID" 256 in
      bail_if (negb (Bool.eqb (present (nr_input_tokens record)) (present (nr_output_tokens record))))
        with "reconciliation token evidence must contain both input and output counters" in
      bail_if (negb (present (nr_input_tokens record)) && negb (present (nr_cost_usd_micros record)))
        with "reconciliation record requires token or cost evidence" in
      let? _ := optional_database_integer (nr_input_tokens record) "reconciliation input token count" in
      let? _ := optional_database_integer (nr_output_tokens record) "reconciliation output token count" in
      let? _ := optional_database_integer (nr_cost_usd_micros record) "reconciliation cost" in
      validate_reconciliation_records (nr_source_record_id record :: seen) rest
  end.

Definition record_bytes (record : NewUsageReconciliationRecord) : string :=
  hash_reconciliation_text (nr_source_record_id record) +:+ hash_reconciliation_text (nr_provider record)
  +:+ hash_reconciliation_text (nr_provider_response_id record)
  +:+ hash_reconciliation_optional_u64 (nr_input_tokens record)
  +:+ hash_reconciliation_optional_u64 (nr_output_tokens record)
  +:+ hash_reconciliation_optional_u64 (nr_cost_usd_micros record).

Definition statement_domain : string := "llm-firewall/usage-reconciliation/v1" +:+ String (ascii_of_nat 0) EmptyString.

(** What is hashed: the records in the order of their identifiers. *)
Definition statement_bytes (import : NewUsageReconciliationImport) : string :=
  statement_domain +:+ hash_reconciliation_text (ni_source import)
  +:+ hash_reconciliation_text (ni_statement_id import)
  +:+ u64_be_bytes (Z.of_nat (length (ni_records import)))
  +:+ foldr (fun r acc => record_bytes r +:+ acc) EmptyString (order_by nr_source_record_id (ni_records import)).

(** The local event a statement row is compared with. *)
Record UsageReconciliationCandidate := mkCandidate {
  ca_id : Z; ca_input_tokens : option Z; ca_output_tokens : option Z; ca_cost_usd_micros : option Z }.

Definition evaluate_usage_reconciliation (record : NewUsageReconciliationRecord)
    (local : list UsageReconciliationCandidate) : option Z * UsageReconciliationStatus :=
  match local with
  | [] => (None, Orphan)
  | [local] =>
      let tokens_match :=
        match nr_input_tokens record, nr_output_tokens record with
        | Some input, Some output =>
            bool_decide (ca_input_tokens local = Some input) && bool_decide (ca_output_tokens local = Some output)
        | None, None => true
        | _, _ => false
        end in
      let cost_matches :=
        match nr_cost_usd_micros record with
        | None => true
        | Some cost => bool_decide (ca_cost_usd_micros local = Some cost)
        end in
      (Some (ca_id local), if tokens_match && cost_matches then Matched else Mismatched)
  | _ => (None, Ambiguous)
  end.

(** [ORDER BY id ASC LIMIT 2]: enough to tell one from several. *)
Definition candidates (tenant_id : string) (record : NewUsageReconciliationRecord) (db : Db) :
    list UsageReconciliationCandidate :=
  (fun r : Z * NewUsageEvent =>
     mkCandidate r.1 (ue_input_tokens r.2) (ue_output_tokens r.2) (ue_cost_usd_micros r.2))
  <$> take 2 (filter (fun r => ue_provider r.2 = nr_provider record
                               /\ ue_provider_response_id r.2 = Some (nr_provider_response_id record))
                (tenant_events tenant_id db)).

Section reconciliation.
Context `{Sha256}.

Definition validate_usage_reconciliation_import (import : NewUsageReconciliationImport) : result string string :=
  let? _ := validate_usage_text (ni_source import) "reconciliation source" 128 in
  let? _ := validate_usage_text (ni_statement_id import) "reconciliation statement ID" 256 in
  bail_if ((length (ni_records import) =? 0)%nat || (1000 <? length (ni_records import))%nat)
    with "reconciliation import must contain between 1 and 1000 records" in
  let? _ := validate_reconciliation_records [] (ni_records import) in
  Ok (sha256 (statement_bytes import)).

Definition observation_of (run_id tenant_id : string) (now : Z) (record : NewUsageReconciliationRecord)
    (evaluation : option Z * UsageReconciliationStatus) : UsageReconciliationObservation :=
  mkObservation run_id tenant_id (nr_source_record_id record) evaluation.1 (nr_provider record)
    (nr_provider_response_id record) (nr_input_tokens record) (nr_output_tokens record)
    (nr_cost_usd_micros record) evaluation.2 now.

Definition import_usage_reconciliation (now : Z) (random tenant_id actor_admin_id : string)
    (import : NewUsageReconciliationImport) : Op UsageReconciliationRun :=
  atomically (fun db =>
    let? _ := validate_usage_text tenant_id "reconciliation tenant ID" 256 in
    let? _ := validate_usage_text actor_admin_id "reconciliation actor admin ID" 256 in
    let? statement_hash := validate_usage_reconciliation_import import in
    match find_row (fun r => bool_decide (rr_tenant_id r = tenant_id) && bool_decide (rr_source r = ni_source import)
                             && bool_decide (rr_statement_id r = ni_statement_id import))
            (reconciliation_runs db) with
    | Some run =>
        bail_if (negb (bool_decide (rr_statement_hash run = statement_hash)))
          with "reconciliation statement ID was already used with different content" in
        Ok (run, db)
    | None =>
        let evaluations := (fun record =>
          (record, evaluate_usage_reconciliation record (candidates tenant_id record db))) <$> ni_records import in
        let counted s := count_if (fun e : NewUsageReconciliationRecord * (option Z * UsageReconciliationStatus) =>
                           bool_decide (e.2.2 = s)) evaluations in
        let run := mkReconciliationRun (random_id "usage_reconciliation" random) tenant_id (ni_source import)
                     (ni_statement_id import) statement_hash actor_admin_id
                     (Z.of_nat (length (ni_records import))) (counted Matched) (counted Mismatched)
                     (counted Orphan) (counted Ambiguous) now in
        bail_if (has (rr_id run) (reconciliation_runs db) || negb (has tenant_id (tenants db)))
          with "failed to append usage reconciliation run" in
        let db := upd_reconciliation_runs <[rr_id run := run]> db in
        Ok (run, upd_observations (fun log =>
              foldl (fun log e => log_append (observation_of (rr_id run) tenant_id now e.1 e.2) log) log evaluations) db)
    end).
End reconciliation.

Definition list_usage_reconciliation_runs (tenant_id : string) (limit : nat) : Op (list UsageReconciliationRun) :=
  reading (fun db => Ok (take (clamp_limit limit 100) (reverse (order_by (fun r => (rr_created_at_unix r, rr_id r))
    (filter (fun r => rr_tenant_id r = tenant_id) (rows (reconciliation_runs db))))))).

(** The rows of a run the tenant owns, in the order they were appended. *)
Definition list_usage_reconciliation_observations (tenant_id run_id : string) (limit : nat) :
    Op (list UsageReconciliationObservation) :=
  reading (fun db => Ok (take (clamp_limit limit 1000)
    (filter (fun o => ro_tenant_id o = tenant_id /\ ro_run_id o = run_id /\
                      rr_tenant_id <$> reconciliation_runs db !! ro_run_id o = Some tenant_id)
       (log_rows (observations db)).*2))).

(** ** The calendar *)

Definition civil_from_days (days_since_epoch : Z) : Z * Z * Z :=
  let shifted := days_since_epoch + 719468 in
  let era := shifted / 146097 in
  let day_of_era := shifted - era * 146097 in
  let year_of_era := Z.quot (day_of_era - Z.quot day_of_era 1460 + Z.quot day_of_era 36524
                             - Z.quot day_of_era 146096) 365 in
  let year := year_of_era + era * 400 in
  let day_of_year := day_of_era - (365 * year_of_era + Z.quot year_of_era 4 - Z.quot year_of_era 100) in
  let month_prime := Z.quot (5 * day_of_year + 2) 153 in
  let day := day_of_year - Z.quot (153 * month_prime + 2) 5 + 1 in
  let month := month_prime + (if month_prime <? 10 then 3 else -9) in
  (if month <=? 2 then year + 1 else year, month, day).

Definition days_from_civil (year month day : Z) : Z :=
  let adjusted_year := year - (if month <=? 2 then 1 else 0) in
  let era := adjusted_year / 400 in
  let year_of_era := adjusted_year - era * 400 in
  let month_prime := month + (if 2 <? month then -3 else 9) in
  let day_of_year := Z.quot (153 * month_prime + 2) 5 + day - 1 in
  let day_of_era := year_of_era * 365 + Z.quot year_of_era 4 - Z.quot year_of_era 100 + day_of_year in
  era * 146097 + day_of_era - 719468.

Definition checked_mul64 (a b : Z) : option Z :=
  if (- 2 ^ 63 <=? a * b) && (a * b <=? i64_max) then Some (a * b) else None.

Definition current_utc_month_range (now_unix : Z) : result (Z * Z) string :=
  bail_if (now_unix <? 0) with "system clock is before the Unix epoch" in
  let days := Z.quot now_unix 86400 in
  let '(year, month, _) := civil_from_days days in
  let start_days := days_from_civil year month 1 in
  let '(next_year, next_month) := if month =? 12 then (year + 1, 1) else (year, month + 1) in
  let next_days := days_from_civil next_year next_month 1 in
  let? start := ok_or (checked_mul64 start_days 86400) "UTC month start exceeds supported range" in
  let? until := ok_or (checked_mul64 next_days 86400) "UTC month end exceeds supported range" in
  Ok (start, until).

(** ** Retention *)

Definition validate_usage_retention_policy (retention_days : Z) : result unit string :=
  bail_if ((retention_days <? 30) || (3650 <? retention_days))
    with "usage retention must be between 30 and 3650 days" in
  Ok tt.

Definition usage_retention_cutoff (now retention_days : Z) : result Z string :=
  let? _ := validate_usage_retention_policy retention_days in
  bail_if (now - retention_days * 86400 <? - 2 ^ 63)
    with "usage retention cutoff is outside the supported range" in
  Ok (now - retention_days * 86400).

Definition usage_retention_policy (tenant_id : string) : Op (option Z) :=
  reading (fun db => Ok ((fun r => r.1.1) <$> retention_policies db !! tenant_id)).

Definition validate_optional_retention (policy : option Z) : result unit string :=
  match policy with Some days => validate_usage_retention_policy days | None => Ok tt end.

Definition store_retention (tenant_id actor_id : string) (policy : option Z) (now : Z) (db : Db) : Db :=
  upd_retention_policies (fun t => match policy with
                                   | Some days => <[tenant_id := (days, actor_id, now)]> t
                                   | None => delete tenant_id t
                                   end) db.

Definition set_usage_retention_policy (now : Z) (tenant_id actor_id : string) (policy : option Z) : Op unit :=
  atomically (fun db =>
    let? _ := validate_usage_text actor_id "retention actor ID" 256 in
    let? _ := validate_optional_retention policy in
    bail_if (negb (has tenant_id (tenants db))) with "tenant not found" in
    Ok (tt, store_retention tenant_id actor_id policy now db)).

Definition set_workspace_usage_retention_policy (now : Z) (workspace_id principal_id : string) (policy : option Z) :
    Op unit :=
  atomically (fun db =>
    let? _ := validate_optional_retention policy in
    let action := match policy with
                  | Some _ => "usage_retention_policy.set" | None => "usage_retention_policy.clear" end in
    let? authorized := authorized_with workspace_id principal_id (fun r => role_permits r ManageBilling) db in
    let db := store_retention (wk_tenant_id authorized.1) principal_id policy now db in
    Ok (tt, append_admin_audit (wk_organization_id authorized.1) workspace_id (Some principal_id) action None now db)).

(** An observation of a reconciliation run refers to the event. *)
Definition reconciled (db : Db) (r : Z * NewUsageEvent) : bool :=
  existsb (fun o => bool_decide (ro_usage_event_id o.2 = Some r.1)) (log_rows (observations db)).

(** Older than the cutoff, and whether a reconciliation protects it. *)
Definition eligible (tenant_id : string) (cutoff : Z) (db : Db) (r : Z * NewUsageEvent) : bool :=
  bool_decide (ue_tenant_id r.2 = tenant_id) && (ue_created_at_unix r.2 <? cutoff) && negb (reconciled db r).

Definition run_usage_retention (now : Z) (random tenant_id actor_admin_id : string) (execute : bool) :
    Op UsageRetentionRun :=
  atomically (fun db =>
    let? _ := validate_usage_text actor_admin_id "retention actor ID" 256 in
    match retention_policies db !! tenant_id with
    | None => Err "usage retention policy is not configured"
    | Some (retention_days, _, _) =>
        let? policy_cutoff := usage_retention_cutoff now retention_days in
        let? month := current_utc_month_range now in
        let cutoff_unix := Z.min policy_cutoff month.1 in
        let events := filter (fun r => eligible tenant_id cutoff_unix db r = true) (log_rows (usage_events db)) in
        let protected := count_if (fun r => bool_decide (ue_tenant_id r.2 = tenant_id)
                                            && (ue_created_at_unix r.2 <? cutoff_unix) && reconciled db r)
                           (log_rows (usage_events db)) in
        let input := sum_column (fun r => ue_input_tokens r.2) events in
        let output := sum_column (fun r => ue_output_tokens r.2) events in
        let cost := sum_column (fun r => ue_cost_usd_micros r.2) events in
        bail_if ((i64_max <? input) || (i64_max <? output) || (i64_max <? cost))
          with "failed to inspect usage retention eligibility" in
        let count := Z.of_nat (length events) in
        let run := mkRetentionRun (random_id "usage_retention" random) tenant_id actor_admin_id retention_days
                     cutoff_unix execute count protected input output cost (if execute then count else 0) now in
        let db' := if execute then upd_usage_events (log_delete (eligible tenant_id cutoff_unix db)) db else db in
        bail_if (has (rn_id run) (retention_runs db)) with "failed to append usage retention run" in
        Ok (run, upd_retention_runs <[rn_id run := run]> db')
    end).

Definition list_usage_retention_runs (tenant_id : string) (limit : nat) : Op (list UsageRetentionRun) :=
  reading (fun db => Ok (take (clamp_limit limit 100) (reverse (order_by (fun r => (rn_created_at_unix r, rn_id r))
    (filter (fun r => rn_tenant_id r = tenant_id) (rows (retention_runs db))))))).

(** ** Quotas *)

Definition default_usage_quota_alert_threshold_basis_points : Z := 8000.

Definition validate_quota_limit (value : option Z) (field : string) : result unit string :=
  bail_if (bool_decide (value = Some 0)) with (field +:+ " must be positive") in
  let? _ := optional_database_integer value field in Ok tt.

Definition validate_usage_quota_policy (policy : UsageQuotaPolicy) : result unit string :=
  bail_if (negb (present (qp_request_limit policy)) && negb (present (qp_token_limit policy))
           && negb (present (qp_cost_usd_micros_limit policy)))
    with "usage quota policy requires at least one limit" in
  bail_if ((qp_alert_threshold_basis_points policy <? 1) || (10000 <? qp_alert_threshold_basis_points policy))
    with "usage quota alert threshold must be between 1 and 10000 basis points" in
  let? _ := validate_quota_limit (qp_request_limit policy) "request quota" in
  let? _ := validate_quota_limit (qp_token_limit policy) "token quota" in
  let? _ := validate_quota_limit (qp_cost_usd_micros_limit policy) "cost quota" in
  Ok tt.

Inductive UsageQuotaState := QuotaOk | Threshold | Exceeded | EvidenceIncomplete.

#[export] Instance UsageQuotaState_eq_dec : EqDecision UsageQuotaState.
Proof. solve_decision. Defined.

Record UsageQuotaMetricStatus := mkMetric { qm_used : Z; qm_limit : Z; qm_state : UsageQuotaState }.

Definition usage_quota_metric (used limit threshold_basis_points : Z) (evidence_complete : bool) :
    UsageQuotaMetricStatus :=
  mkMetric used limit
    (if limit <=? used then Exceeded
     else if negb evidence_complete then EvidenceIncomplete
     else if limit * threshold_basis_points <=? used * 10000 then Threshold
     else QuotaOk).

Record UsageQuotaStatus := mkQuotaStatus {
  qs_from_unix : Z; qs_until_unix : Z; qs_policy : UsageQuotaPolicy; qs_requests : option UsageQuotaMetricStatus;
  qs_tokens : option UsageQuotaMetricStatus; qs_cost_usd_micros : option UsageQuotaMetricStatus;
  qs_missing_token_events : Z; qs_unpriced_events : Z; qs_attention_required : bool }.

Definition evaluate_usage_quota (policy : UsageQuotaPolicy) (report : UsageReport) : result UsageQuotaStatus string :=
  let? _ := validate_usage_quota_policy policy in
  let threshold := qp_alert_threshold_basis_points policy in
  let totals := rp_totals report in
  let requests := (fun limit => usage_quota_metric (to_request_count totals) limit threshold true)
                  <$> qp_request_limit policy in
  bail_if (u64_max <? to_input_tokens totals + to_output_tokens totals)
    with "usage token total exceeds supported range" in
  let tokens := (fun limit => usage_quota_metric (to_input_tokens totals + to_output_tokens totals) limit threshold
                                (to_missing_token_events totals =? 0)) <$> qp_token_limit policy in
  let cost := (fun limit => usage_quota_metric (to_priced_cost_usd_micros totals) limit threshold
                              (to_unpriced_events totals =? 0)) <$> qp_cost_usd_micros_limit policy in
  let attention := existsb (fun m : option UsageQuotaMetricStatus =>
                              match m with Some m => negb (bool_decide (qm_state m = QuotaOk)) | None => false end)
                     [requests; tokens; cost] in
  Ok (mkQuotaStatus (rp_from_unix report) (rp_until_unix report) policy requests tokens cost
        (to_missing_token_events totals) (to_unpriced_events totals) attention).

Definition usage_quota_policy (tenant_id : string) : Op (option UsageQuotaPolicy) :=
  reading (fun db => Ok ((fun r => r.1.1) <$> quota_policies db !! tenant_id)).

Definition validate_optional_quota (policy : option UsageQuotaPolicy) : result unit string :=
  match policy with Some p => validate_usage_quota_policy p | None => Ok tt end.

Definition store_quota (tenant_id actor_id : string) (policy : option UsageQuotaPolicy) (now : Z) (db : Db) : Db :=
  upd_quota_policies (fun t => match policy with
                               | Some p => <[tenant_id := (p, actor_id, now)]> t
                               | None => delete tenant_id t
                               end) db.

Definition set_usage_quota_policy (now : Z) (tenant_id actor_id : string) (policy : option UsageQuotaPolicy) :
    Op unit :=
  atomically (fun db =>
    let? _ := validate_usage_text actor_id "quota actor ID" 256 in
    let? _ := validate_optional_quota policy in
    bail_if (negb (has tenant_id (tenants db))) with "tenant not found" in
    Ok (tt, store_quota tenant_id actor_id policy now db)).

Definition set_workspace_usage_quota_policy (now : Z) (workspace_id principal_id : string)
    (policy : option UsageQuotaPolicy) : Op unit :=
  atomically (fun db =>
    let? _ := validate_optional_quota policy in
    let action := match policy with
                  | Some _ => "usage_quota_policy.set" | None => "usage_quota_policy.clear" end in
    let? authorized := authorized_with workspace_id principal_id (fun r => role_permits r ManageBilling) db in
    let db := store_quota (wk_tenant_id authorized.1) principal_id policy now db in
    Ok (tt, append_admin_audit (wk_organization_id authorized.1) workspace_id (Some principal_id) action None now db)).

(** The quota over the current UTC month. *)
Definition usage_quota_status (now : Z) (tenant_id : string) : Op (option UsageQuotaStatus) :=
  reading (fun db =>
    match quota_policies db !! tenant_id with
    | None => Ok None
    | Some (policy, _, _) =>
        let? month := current_utc_month_range now in
        let? report := (usage_report tenant_id month.1 month.2 db).1 in
        let? status := evaluate_usage_quota policy report in
        Ok (Some status)
    end).
