(* ===== verification/TenantAccess.v ===== *)
(** Who has access, in every reachable database: the operations of the control plane as
    the steps of one transition system, its invariant, and what the two ways of
    authorizing a customer (browser sessions and [workspace_permits]) and the owner-only
    operations guarantee. *)
From S2P Require Import Prelude BTree Net Json Spend TenantDb TenantDirectory TenantScim TenantSession.
From S2P Require Import TenantPolicy TenantUsage.
From Stdlib Require Import String Ascii.
Local Open Scope string_scope.
Local Open Scope Z_scope.

#[local] Abbreviation length := List.length.

(** ** The control plane as a transition system *)

Section system.
Context `{Sha256, UrlParser, JsonCodec TenantPolicyDocument, JsonCodec TenantModelPolicy,
          JsonCodec (list string), JsonCodec Value}.
Variable hmac_sha256 : string -> string -> string.

(** A mutating request with what it is given: arguments, clock and random bytes. *)
Inductive Request :=
| RCreateOrganization (now : Z) (random name : string)
| RSetOrganizationActive (organization_id : string) (active : bool)
| RCreateTenant (now : Z) (random organization_id name : string)
| RSetTenantActive (tenant_id : string) (active : bool)
| RDeleteTenant (tenant_id : string)
| RCreatePrincipal (now : Z) (random name : string)
| RLinkIdentity (now : Z) (principal_id issuer subject : string)
| RSetMembership (now : Z) (workspace_id principal_id : string) (role : WorkspaceRole)
| RUpdateMembership (now : Z) (workspace_id actor target : string) (role : WorkspaceRole) (active : bool)
| RInvite (now : Z) (random random' workspace_id actor label : string) (role : WorkspaceRole) (expires : Z)
| RRevokeInvitation (now : Z) (workspace_id invitation_id actor : string)
| RResendInvitation (now : Z) (random random' workspace_id invitation_id actor : string) (expires : Z)
| RAcceptInvitation (now : Z) (random invitation_id organization_id workspace_id issuer subject : string)
    (federation : BrowserSessionFederation)
| RCreateServiceAccount (now : Z) (random random' workspace_id actor name : string) (expires : Z)
| RRevokeServiceAccount (now : Z) (workspace_id account_id actor : string)
| RCreateAdmin (now : Z) (random random' name : string) (role : AdminRole)
| RRevokeAdmin (now : Z) (admin_id : string)
| RIssueToken (now : Z) (random random' tenant_id label : string)
| RRevokeToken (now : Z) (token_id : string)
| RSetLimits (now : Z) (tenant_id : string) (limits : TenantLimits)
| RSetWorkspaceLimits (now : Z) (workspace_id principal_id : string) (limits : TenantLimits)
| RAppendAudit (max_rows : nat) (now : Z) (tenant_id path outcome : string) (status_code latency_ms : Z)
| RIssueScimToken (now : Z) (random random' organization_id label : string) (expires : Z)
| RRevokeScimToken (now : Z) (token_id : string)
| RCreateScimUser (now : Z) (random : string) (identity : ScimIdentity)
    (external_id user_name display_name : string) (active : bool)
| RUpdateScimUser (now : Z) (identity : ScimIdentity) (user_id : string) (update : ScimUserUpdate)
| RCreateScimGroup (now : Z) (random : string) (identity : ScimIdentity) (external_id display_name : string)
    (member_ids : list string)
| RUpdateScimGroup (now : Z) (identity : ScimIdentity) (group_id : string) (update : ScimGroupUpdate)
| RDeleteScimGroup (now : Z) (identity : ScimIdentity) (group_id : string)
| RAssignScimUser (now : Z) (workspace_id actor target : string) (role : WorkspaceRole)
| RCreateMapping (now : Z) (workspace_id actor group_id : string)
| RDeleteMapping (now : Z) (workspace_id actor group_id : string)
| RSetOidcConnection (now : Z) (organization_id issuer client_id redirect_uri : string) (active : bool)
| RDeleteOidcConnection (organization_id : string)
| RSetSamlConnection (now : Z) (organization_id entity_id metadata certificate : string) (active : bool)
| RDeleteSamlConnection (organization_id : string)
| RReserveOidcState (now : Z) (state organization_id : string) (expires : Z)
| RConsumeOidcState (now : Z) (state organization_id : string)
| RReserveSamlState (now : Z) (state : string) (pending : SamlAuthorizationPending) (expires : Z)
| RConsumeSamlState (now : Z) (state : string)
| RIssueSession (now : Z) (random : string) (access : VerifiedWorkspaceAccess)
    (federation : BrowserSessionFederation) (expires : Z)
| RRotateSession (now : Z) (random token : string) (expires : Z)
| RRevokeSession (now : Z) (token : string)
| RCreatePolicyVersion (now : Z) (random tenant_id actor : string) (document : TenantPolicyDocument)
| RApprovePolicyVersion (now : Z) (tenant_id version_id actor : string)
| RDeployPolicyVersion (now : Z) (random : nat -> string) (random' tenant_id version_id actor : string)
    (action : PolicyDeploymentAction)
| RSetModelPolicy (now : Z) (random : nat -> string) (random' random'' tenant_id : string)
    (policy : option TenantModelPolicy)
| RSetWorkspaceModelPolicy (now : Z) (random : nat -> string) (random' random'' workspace_id principal_id : string)
    (policy : option TenantModelPolicy)
| RCreateWebhook (key : option string) (now : Z) (random tenant_id url : string) (event_types : list string)
| RCreateWorkspaceWebhook (key : option string) (now : Z) (random workspace_id principal_id url : string)
    (event_types : list string)
| RDeactivateWebhook (now : Z) (tenant_id destination_id : string)
| RDeactivateWorkspaceWebhook (now : Z) (workspace_id principal_id destination_id : string)
| RClaimWebhook (now : Z)
| RFinishWebhook (now : Z) (delivery_id : string) (attempt : WebhookAttemptResult)
| RAppendUsage (event : NewUsageEvent)
| RImportReconciliation (now : Z) (random tenant_id actor : string) (import : NewUsageReconciliationImport)
| RSetRetention (now : Z) (tenant_id actor : string) (policy : option Z)
| RSetWorkspaceRetention (now : Z) (workspace_id principal_id : string) (policy : option Z)
| RRunRetention (now : Z) (random tenant_id actor : string) (execute : bool)
| RSetQuota (now : Z) (tenant_id actor : string) (policy : option UsageQuotaPolicy)
| RSetWorkspaceQuota (now : Z) (workspace_id principal_id : string) (policy : option UsageQuotaPolicy).

(** The database a request leaves. *)
Definition exec (r : Request) (db : Db) : Db :=
  match r with
  | RCreateOrganization now rnd name => (create_organization now rnd name db).2
  | RSetOrganizationActive o a => (set_organization_active o a db).2
  | RCreateTenant now rnd o name => (create_tenant_in_organization now rnd o name db).2
  | RSetTenantActive t a => (set_tenant_active t a db).2
  | RDeleteTenant t => (delete_tenant t db).2
  | RCreatePrincipal now rnd name => (create_workspace_principal now rnd name db).2
  | RLinkIdentity now p i s => (link_workspace_external_identity now p i s db).2
  | RSetMembership now w p role => (set_workspace_membership now w p role db).2
  | RUpdateMembership now w a t role act => (update_workspace_membership_as_owner now w a t role act db).2
  | RInvite now rnd rnd' w a l role e => (create_workspace_invitation_as_owner now rnd rnd' w a l role e db).2
  | RRevokeInvitation now w i a => (revoke_workspace_invitation_as_owner now w i a db).2
  | RResendInvitation now rnd rnd' w i a e => (resend_workspace_invitation_as_owner now rnd rnd' w i a e db).2
  | RAcceptInvitation now rnd i o w iss sub f => (accept_workspace_invitation_federated now rnd i o w iss sub f db).2
  | RCreateServiceAccount now rnd rnd' w a n e => (create_workspace_service_account now rnd rnd' w a n e db).2
  | RRevokeServiceAccount now w i a => (revoke_workspace_service_account now w i a db).2
  | RCreateAdmin now rnd rnd' n role => (create_admin now rnd rnd' n role db).2
  | RRevokeAdmin now a => (revoke_admin now a db).2
  | RIssueToken now rnd rnd' t l => (issue_token now rnd rnd' t l db).2
  | RRevokeToken now t => (revoke_token now t db).2
  | RSetLimits now t l => (set_limits now t l db).2
  | RSetWorkspaceLimits now w p l => (set_workspace_limits now w p l db).2
  | RAppendAudit m now t path out s l => (append_audit m now t path out s l db).2
  | RIssueScimToken now rnd rnd' o l e => (issue_scim_token now rnd rnd' o l e db).2
  | RRevokeScimToken now t => (revoke_scim_token now t db).2
  | RCreateScimUser now rnd i e u d a => (create_scim_user now rnd i e u d a db).2
  | RUpdateScimUser now i u up => (update_scim_user now i u up db).2
  | RCreateScimGroup now rnd i e d m => (create_scim_group now rnd i e d m db).2
  | RUpdateScimGroup now i g up => (update_scim_group now i g up db).2
  | RDeleteScimGroup now i g => (delete_scim_group now i g db).2
  | RAssignScimUser now w a t role => (assign_scim_user_to_workspace_as_owner now w a t role db).2
  | RCreateMapping now w a g => (create_workspace_scim_group_mapping_as_owner now w a g db).2
  | RDeleteMapping now w a g => (delete_workspace_scim_group_mapping_as_owner now w a g db).2
  | RSetOidcConnection now o i c u a => (set_organization_oidc_connection now o i c u a db).2
  | RDeleteOidcConnection o => (delete_organization_oidc_connection o db).2
  | RSetSamlConnection now o e m c a => (set_organization_saml_connection now o e m c a db).2
  | RDeleteSamlConnection o => (delete_organization_saml_connection o db).2
  | RReserveOidcState now s o e => (reserve_oidc_authorization_state now s o e db).2
  | RConsumeOidcState now s o => (consume_oidc_authorization_state now s o db).2
  | RReserveSamlState now s p e => (reserve_saml_authorization_state now s p e db).2
  | RConsumeSamlState now s => (consume_saml_authorization_state now s db).2
  | RIssueSession now rnd a f e => (issue_oidc_browser_session now rnd a f e db).2
  | RRotateSession now rnd t e => (rotate_oidc_browser_session now rnd t e db).2
  | RRevokeSession now t => (revoke_oidc_browser_session now t db).2
  | RCreatePolicyVersion now rnd t a d => (create_policy_version now rnd t a d db).2
  | RApprovePolicyVersion now t v a => (approve_policy_version now t v a db).2
  | RDeployPolicyVersion now rnd rnd' t v a act => (deploy_policy_version now rnd rnd' t v a act db).2
  | RSetModelPolicy now rnd rnd' rnd'' t p => (set_model_policy now rnd rnd' rnd'' t p db).2
  | RSetWorkspaceModelPolicy now rnd rnd' rnd'' w pr p => (set_workspace_model_policy now rnd rnd' rnd'' w pr p db).2
  | RCreateWebhook k now rnd t u e => (create_webhook_destination hmac_sha256 k now rnd t u e db).2
  | RCreateWorkspaceWebhook k now rnd w p u e =>
      (create_workspace_webhook_destination hmac_sha256 k now rnd w p u e db).2
  | RDeactivateWebhook now t d => (deactivate_webhook_destination now t d db).2
  | RDeactivateWorkspaceWebhook now w p d => (deactivate_workspace_webhook_destination now w p d db).2
  | RClaimWebhook now => (claim_webhook_delivery now db).2
  | RFinishWebhook now d a => (finish_webhook_delivery now d a db).2
  | RAppendUsage e => (append_usage_event e db).2
  | RImportReconciliation now rnd t a i => (import_usage_reconciliation now rnd t a i db).2
  | RSetRetention now t a p => (set_usage_retention_policy now t a p db).2
  | RSetWorkspaceRetention now w pr p => (set_workspace_usage_retention_policy now w pr p db).2
  | RRunRetention now rnd t a e => (run_usage_retention now rnd t a e db).2
  | RSetQuota now t a p => (set_usage_quota_policy now t a p db).2
  | RSetWorkspaceQuota now w pr p => (set_workspace_usage_quota_policy now w pr p db).2
  end.

Definition run (trace : list Request) (db : Db) : Db := foldl (fun db r => exec r db) db trace.

(** The databases requests lead to. *)
Definition reachable (db : Db) : Prop := exists now trace, db = run trace (open_empty now).

Lemma run_app (t1 t2 : list Request) (db : Db) : run (t1 ++ t2)%list db = run t2 (run t1 db).
Proof. apply foldl_app. Qed.

Lemma run_invariant (P : Db -> Prop) :
  (forall r db, P db -> P (exec r db)) -> forall trace db, P db -> P (run trace db).
Proof. intros Hs trace. induction trace as [|r trace IH]; intros db Hp; [done|]. apply IH. by apply Hs. Qed.
End system.

(** ** The invariant *)

(** The tables that say who belongs where. *)
Definition View : Type :=
  gmap string Workspace * gmap string WorkspacePrincipal * gmap (string * string) WorkspaceMembership
  * gmap string ScimUser.

Definition view (db : Db) : View := (workspaces db, principals db, memberships db, scim_users db).

(** Keys name their rows, references resolve, and an active membership of a user the
    directory manages is in the user's organization, with the user active. *)
Record wf_view (v : View) : Prop := {
  wf_workspace_key : forall w k, v.1.1.1 !! w = Some k -> wk_id k = w;
  wf_member_key : forall w p m, v.1.2 !! (w, p) = Some m -> mb_workspace_id m = w /\ mb_principal_id m = p;
  wf_member_workspace : forall w p m, v.1.2 !! (w, p) = Some m -> is_Some (v.1.1.1 !! w);
  wf_member_principal : forall w p m, v.1.2 !! (w, p) = Some m -> is_Some (v.1.1.2 !! p);
  wf_scim_key : forall p u, v.2 !! p = Some u -> su_id u = p;
  wf_scim_principal : forall p u, v.2 !! p = Some u -> is_Some (v.1.1.2 !! p);
  wf_managed : forall w p m u k, v.1.2 !! (w, p) = Some m -> mb_active m = true -> v.2 !! p = Some u ->
    v.1.1.1 !! w = Some k -> su_organization_id u = wk_organization_id k /\ su_active u = true
}.

Definition wf (db : Db) : Prop := wf_view (view db).

Lemma wf_of_view (db db' : Db) : view db' = view db -> wf db -> wf db'.
Proof. unfold wf. by intros ->. Qed.

(** Invert a transaction that committed. *)
Ltac tx_inv H :=
  cbn zeta beta in H;
  repeat (first
    [ progress ok_inv H
    | match type of H with
      | (match ?m with _ => _ end) = Ok _ => destruct m eqn:?; try discriminate H
      end ]; cbn zeta beta in H);
  repeat match goal with
  | R : (if ?c then Err _ else Ok _) = Ok _ |- _ =>
      let E := fresh "G" in destruct c eqn:E; [discriminate R|injection R as R]
  end;
  simplify_eq/=.

(** Operations that leave the four tables alone. *)
Lemma atomically_view {A} (f : Db -> result (A * Db) string) (db : Db) :
  (forall x db', f db = Ok (x, db') -> view db' = view db) -> view (atomically f db).2 = view db.
Proof. unfold atomically. intros Hf. destruct (f db) as [[x db']|] eqn:E; cbn; eauto. Qed.

Ltac frame :=
  apply atomically_view; let Ht := fresh "Ht" in intros ? ? Ht; tx_inv Ht; try reflexivity.

Section frames.
Context `{Sha256, UrlParser, JsonCodec TenantPolicyDocument, JsonCodec TenantModelPolicy,
          JsonCodec (list string), JsonCodec Value}.

Lemma enqueue_view (now : Z) (random : nat -> string) (t e : string) (ds : list WebhookDestinationRow) :
  forall i db db', enqueue_deliveries now random i t e ds db = Ok db' -> view db' = view db.
Proof.
  induction ds as [|d ds IH]; intros i db db'; cbn [enqueue_deliveries]; [by intros [= <-]|].
  repeat case_match; try done; intros Heq; apply IH in Heq; done.
Qed.

Lemma install_view now random document did t v prev act actor db x db' :
  install_policy now random document did t v prev act actor db = Ok (x, db') -> view db' = view db.
Proof.
  unfold install_policy. cbn zeta. intros Hi. ok_inv Hi. simplify_eq.
  match goal with He : enqueue_deliveries _ _ _ _ _ _ _ = Ok _ |- _ => apply enqueue_view in He; by rewrite He end.
Qed.

Lemma deploy_view now random random' t v actor act db :
  view (deploy_policy_version now random random' t v actor act db).2 = view db.
Proof. unfold deploy_policy_version. frame. by eapply install_view. Qed.

Lemma create_version_view now random t actor document db :
  view (create_policy_version now random t actor document db).2 = view db.
Proof. unfold create_policy_version, insert_policy_version. frame. Qed.

Lemma approve_view now t v actor db : view (approve_policy_version now t v actor db).2 = view db.
Proof.
  unfold approve_policy_version. case_match; [|done].
  assert (view (atomically (approve_version_tx now t v actor) db).2 = view db) as Hv
    by (unfold approve_version_tx; frame).
  destruct (atomically _ _) as [[|] db']; cbn [snd] in *; [|done].
  unfold policy_version, reading. repeat case_match; first [exact Hv | simplify_eq].
Qed.

Variable hmac_sha256 : string -> string -> string.

(** The requests that change who belongs where. *)
Definition moves (r : Request) : bool :=
  match r with
  | RCreateTenant _ _ _ _ | RDeleteTenant _ | RCreatePrincipal _ _ _ | RSetMembership _ _ _ _
  | RUpdateMembership _ _ _ _ _ _ | RAcceptInvitation _ _ _ _ _ _ _ _ | RCreateScimUser _ _ _ _ _ _ _
  | RUpdateScimUser _ _ _ _ | RAssignScimUser _ _ _ _ _ => true
  | _ => false
  end.

Lemma set_model_policy_view now random random' random'' t policy db :
  view (set_model_policy now random random' random'' t policy db).2 = view db.
Proof.
  unfold set_model_policy.
  pose proof (create_version_view now random'' t "internal_control_plane" (policy_document_new policy) db) as H1'.
  destruct (create_policy_version _ _ _ _ _ _) as [[v|] db1]; cbn [snd] in *; [|done].
  pose proof (approve_view now t (tv_id v) "internal_control_plane" db1) as H2'.
  destruct (approve_policy_version _ _ _ _ _) as [[v'|] db2]; cbn [snd] in *; [|congruence].
  pose proof (deploy_view now random random' t (tv_id v) "internal_control_plane" Activate db2) as H3'.
  destruct (deploy_policy_version _ _ _ _ _ _ _ _) as [[d|] db3]; cbn [snd] in *; congruence.
Qed.

Lemma invite_view now random random' w a l role e db :
  view (create_workspace_invitation_as_owner now random random' w a l role e db).2 = view db.
Proof. unfold create_workspace_invitation_as_owner. frame. Qed.

Lemma revoke_invitation_view now w i a db :
  view (revoke_workspace_invitation_as_owner now w i a db).2 = view db.
Proof. unfold revoke_workspace_invitation_as_owner. frame. Qed.

Lemma resend_view now random random' w i a e db :
  view (resend_workspace_invitation_as_owner now random random' w i a e db).2 = view db.
Proof.
  unfold resend_workspace_invitation_as_owner, list_workspace_invitations_as_owner, reading.
  destruct (validate_workspace_invitation_expiry now e); [|done].
  destruct (authorized_workspace_owner w a db); cbn beta iota; [|done].
  destruct (List.find _ _) as [iv|]; [|done].
  pose proof (revoke_invitation_view now w i a db) as H1'.
  destruct (revoke_workspace_invitation_as_owner _ _ _ _ _) as [[[|]|] db1]; cbn [snd] in *; [|done..].
  pose proof (invite_view now random random' w a (iv_recipient_label iv) (iv_role iv) e db1) as H2'.
  destruct (create_workspace_invitation_as_owner _ _ _ _ _ _ _ _ _) as [[|] db2]; cbn [snd] in *; congruence.
Qed.

Lemma set_workspace_model_policy_view now random random' random'' w p policy db :
  view (set_workspace_model_policy now random random' random'' w p policy db).2 = view db.
Proof.
  unfold set_workspace_model_policy, insert_policy_version. frame.
  match goal with He : install_policy _ _ _ _ _ _ _ _ _ _ = Ok ?r |- _ =>
    destruct r as [d db1]; apply install_view in He; exact He end.
Qed.

Lemma deactivate_view now t d db db' : deactivate_in now t d db = Some db' -> view db' = view db.
Proof.
  unfold deactivate_in. destruct (webhook_destinations db !! d); cbn; [|done]. case_match; [|done].
  by intros [= <-].
Qed.

Ltac unfold_head :=
  match goal with
  | |- view (?f _).2 = _ =>
      let rec head t := match t with ?g _ => head g | _ => t end in let h := head f in unfold h
  end.

Lemma exec_view (r : Request) (db : Db) : moves r = false -> view (exec hmac_sha256 r db) = view db.
Proof.
  destruct r; try done; intros _; cbn [exec];
    try first [apply resend_view | apply set_model_policy_view | apply set_workspace_model_policy_view
              | apply deploy_view | apply create_version_view | apply approve_view];
    unfold_head; unfold append_scim_audit, append_scim_group_audit, insert_destination in *.
  all: try (frame; fail).
  all: try (repeat case_match; reflexivity).
  all: frame; try (by case_match).
  all: match goal with Hd : deactivate_in _ _ _ _ = Some _ |- _ => apply deactivate_view in Hd; exact Hd end.
Qed.
End frames.

(** ** The operations that move members keep the invariant *)

Section invariant.
Implicit Types (ws : gmap string Workspace) (pr : gmap string WorkspacePrincipal)
  (mb : gmap (string * string) WorkspaceMembership) (su : gmap string ScimUser).

(** The directory lets the principal be active in the workspace. *)
Definition managed_ok ws su (w p : string) : Prop :=
  forall u k, su !! p = Some u -> ws !! w = Some k ->
    su_organization_id u = wk_organization_id k /\ su_active u = true.

Lemma wf_put_member ws pr mb su w p m :
  wf_view (ws, pr, mb, su) -> mb_workspace_id m = w -> mb_principal_id m = p ->
  is_Some (ws !! w) -> is_Some (pr !! p) -> (mb_active m = true -> managed_ok ws su w p) ->
  wf_view (ws, pr, <[(w, p) := m]> mb, su).
Proof.
  intros [H1 H2 H3 H4 H5 H6 H7] Hw Hp Hws Hpr Hok. split; cbn in *; try done.
  - intros w' p' m'. destruct (decide ((w', p') = (w, p))) as [[= -> ->]|Hne].
    + rewrite lookup_insert_eq. by intros [= <-].
    + rewrite lookup_insert_ne by congruence. apply H2.
  - intros w' p' m'. destruct (decide ((w', p') = (w, p))) as [[= -> ->]|Hne]; [done|].
    rewrite lookup_insert_ne by congruence. apply H3.
  - intros w' p' m'. destruct (decide ((w', p') = (w, p))) as [[= -> ->]|Hne]; [done|].
    rewrite lookup_insert_ne by congruence. apply H4.
  - intros w' p' m' u k. destruct (decide ((w', p') = (w, p))) as [[= -> ->]|Hne].
    + rewrite lookup_insert_eq. intros [= <-] Ha Hu Hk. by apply Hok.
    + rewrite lookup_insert_ne by congruence. apply H7.
Qed.

Lemma wf_put_principal ws pr mb su p q :
  wf_view (ws, pr, mb, su) -> wf_view (ws, <[p := q]> pr, mb, su).
Proof.
  intros [H1 H2 H3 H4 H5 H6 H7]. split; cbn in *; try done.
  - intros w p' m Hm. apply H4 in Hm. by apply lookup_insert_is_Some'; right.
  - intros p' u Hu. apply H6 in Hu. by apply lookup_insert_is_Some'; right.
Qed.

Lemma wf_alter_principal ws pr mb su f p :
  wf_view (ws, pr, mb, su) -> wf_view (ws, alter f p pr, mb, su).
Proof.
  intros [H1 H2 H3 H4 H5 H6 H7]. split; cbn in *; try done.
  - intros w p' m Hm. apply H4 in Hm. by apply lookup_alter_is_Some.
  - intros p' u Hu. apply H6 in Hu. by apply lookup_alter_is_Some.
Qed.

Lemma wf_put_workspace ws pr mb su w k :
  wf_view (ws, pr, mb, su) -> ws !! w = None -> wk_id k = w -> wf_view (<[w := k]> ws, pr, mb, su).
Proof.
  intros [H1 H2 H3 H4 H5 H6 H7] Hfresh Hk. split; cbn in *; try done.
  - intros w' k'. destruct (decide (w' = w)) as [->|Hne].
    + rewrite lookup_insert_eq. by intros [= <-].
    + rewrite lookup_insert_ne by congruence. apply H1.
  - intros w' p m Hm. apply H3 in Hm. by apply lookup_insert_is_Some'; right.
  - intros w' p m u k' Hm Ha Hu. destruct (decide (w' = w)) as [->|Hne].
    + apply H3 in Hm. rewrite Hfresh in Hm. by destruct Hm.
    + rewrite lookup_insert_ne by congruence. by apply (H7 w' p m u k').
Qed.

Lemma wf_put_scim ws pr mb su p u :
  wf_view (ws, pr, mb, su) -> is_Some (pr !! p) -> su_id u = p ->
  (forall w m k, mb !! (w, p) = Some m -> mb_active m = true -> ws !! w = Some k ->
    su_organization_id u = wk_organization_id k /\ su_active u = true) ->
  wf_view (ws, pr, mb, <[p := u]> su).
Proof.
  intros [H1 H2 H3 H4 H5 H6 H7] Hp Hid Hok. split; cbn in *; try done.
  - intros p' u'. destruct (decide (p' = p)) as [->|Hne].
    + rewrite lookup_insert_eq. by intros [= <-].
    + rewrite lookup_insert_ne by congruence. apply H5.
  - intros p' u'. destruct (decide (p' = p)) as [->|Hne]; [done|].
    rewrite lookup_insert_ne by congruence. apply H6.
  - intros w p' m u' k Hm Ha. destruct (decide (p' = p)) as [->|Hne].
    + rewrite lookup_insert_eq. intros [= <-] Hk. by apply (Hok w m k).
    + rewrite lookup_insert_ne by congruence. intros; by apply (H7 w p' m u' k).
Qed.

(** Suspending memberships, whichever they are. *)
Lemma wf_fmap_members ws pr mb su (f : WorkspaceMembership -> WorkspaceMembership) :
  wf_view (ws, pr, mb, su) ->
  (forall m, mb_workspace_id (f m) = mb_workspace_id m /\ mb_principal_id (f m) = mb_principal_id m
             /\ (mb_active (f m) = true -> mb_active m = true)) ->
  wf_view (ws, pr, f <$> mb, su).
Proof.
  intros [H1 H2 H3 H4 H5 H6 H7] Hf. split; cbn in *; try done.
  - intros w p m. rewrite lookup_fmap, fmap_Some. intros (m0 & Hm & ->).
    destruct (Hf m0) as (-> & -> & _). by apply H2.
  - intros w p m. rewrite lookup_fmap, fmap_Some. intros (m0 & Hm & ->). eauto.
  - intros w p m. rewrite lookup_fmap, fmap_Some. intros (m0 & Hm & ->). eauto.
  - intros w p m u k. rewrite lookup_fmap, fmap_Some. intros (m0 & Hm & ->) Ha.
    destruct (Hf m0) as (_ & _ & Hact). eauto.
Qed.

(** Deleting workspaces with their memberships. *)
Lemma wf_keep_workspaces ws pr mb su (stays : string -> bool) :
  wf_view (ws, pr, mb, su) ->
  wf_view (keep (fun w => stays (wk_id w)) ws, pr, keep (fun m => stays (mb_workspace_id m)) mb, su).
Proof.
  intros [H1 H2 H3 H4 H5 H6 H7]. split; cbn in *; try done.
  - intros w k [Hk _]%keep_lookup. by apply H1.
  - intros w p m [Hm _]%keep_lookup. by apply H2.
  - intros w p m [Hm Hs]%keep_lookup. destruct (H3 w p m Hm) as [k Hk]. exists k.
    apply keep_lookup. split; [done|]. rewrite (H1 w k Hk). by destruct (H2 w p m Hm) as [<- _].
  - intros w p m [Hm _]%keep_lookup. eauto.
  - intros w p m u k [Hm _]%keep_lookup Ha Hu [Hk _]%keep_lookup. eauto.
Qed.
End invariant.

Lemma authorized_member_some (w p : string) (db : Db) (k : Workspace) (role : WorkspaceRole) :
  authorized_member w p db = Some (k, role) <->
  exists o t q m, workspaces db !! w = Some k /\ organizations db !! wk_organization_id k = Some o /\
    tenants db !! wk_tenant_id k = Some t /\ principals db !! p = Some q /\
    memberships db !! (w, p) = Some m /\ mb_role m = role /\
    wk_active k = true /\ og_active o = true /\ tn_active t = true /\ wp_active q = true /\ mb_active m = true.
Proof.
  unfold authorized_member. split.
  - destruct (workspaces db !! w) as [k'|] eqn:Ek; cbn; [|done].
    destruct (organizations db !! _) as [o|] eqn:Eo; cbn; [|done].
    destruct (tenants db !! _) as [t|] eqn:Et; cbn; [|done].
    destruct (principals db !! p) as [q|] eqn:Eq; cbn; [|done].
    destruct (memberships db !! _) as [m|] eqn:Em; cbn; [|done].
    case_match eqn:Hc; [|done]. intros [= -> <-]. boolp. by exists o, t, q, m.
  - intros (o & t & q & m & -> & Ho & Ht & Hq & Hm & Hr & A1 & A2 & A3 & A4 & A5). cbn.
    rewrite Ho; cbn. rewrite Ht; cbn. rewrite Hq; cbn. rewrite Hm; cbn.
    by rewrite A1, A2, A3, A4, A5, Hr.
Qed.

Lemma authorized_owner_ok (w p : string) (db : Db) (org : string) :
  authorized_workspace_owner w p db = Ok org <->
  exists k, authorized_member w p db = Some (k, Owner) /\ org = wk_organization_id k.
Proof.
  unfold authorized_workspace_owner. destruct (authorized_member w p db) as [[k role]|]; [|naive_solver].
  case_bool_decide; naive_solver.
Qed.

Lemma scim_allows_ok (db : Db) (w p : string) (k : Workspace) :
  workspaces db !! w = Some k -> scim_allows (wk_organization_id k) p db = true ->
  managed_ok (workspaces db) (scim_users db) w p.
Proof.
  unfold scim_allows. intros Hk Ha u k' Hu Hk'. rewrite Hu in Ha. simplify_eq. boolp. done.
Qed.

(** Every committed run of the operation at hand. *)
Ltac committed Hp :=
  match goal with
  | |- ?P (?f _).2 =>
      let rec head t := match t with ?g _ => head g | _ => t end in let h := head f in unfold h
  end;
  apply atomically_preserves; [exact Hp|];
  let Ht := fresh "Ht" in intros ? ? Ht; tx_inv Ht; boolp.

Lemma create_tenant_wf now random org name db :
  wf db -> wf (create_tenant_in_organization now random org name db).2.
Proof.
  intros Hwf. committed Hwf.
  apply wf_put_workspace; [done| |done]. by apply has_false.
Qed.

(** What a replaced table does to the view. *)
Lemma view_saml_states g db : view (upd_saml_states g db) = view db.
Proof. done. Qed.
Lemma view_sessions g db : view (upd_sessions g db) = view db.
Proof. done. Qed.
Lemma view_invitations g db : view (upd_invitations g db) = view db.
Proof. done. Qed.
Lemma view_service_accounts g db : view (upd_service_accounts g db) = view db.
Proof. done. Qed.
Lemma view_mappings g db : view (upd_mappings g db) = view db.
Proof. done. Qed.
Lemma view_mapping_audit g db : view (upd_mapping_audit g db) = view db.
Proof. done. Qed.
Lemma view_admin_audit g db : view (upd_admin_audit g db) = view db.
Proof. done. Qed.
Lemma view_tenant_tokens g db : view (upd_tenant_tokens g db) = view db.
Proof. done. Qed.
Lemma view_limits g db : view (upd_limits g db) = view db.
Proof. done. Qed.
Lemma view_model_policies g db : view (upd_model_policies g db) = view db.
Proof. done. Qed.
Lemma view_policy_state g db : view (upd_policy_state g db) = view db.
Proof. done. Qed.
Lemma view_tenant_audit g db : view (upd_tenant_audit g db) = view db.
Proof. done. Qed.
Lemma view_tenants g db : view (upd_tenants g db) = view db.
Proof. done. Qed.
Lemma view_workspaces g db :
  view (upd_workspaces g db) = (g (view db).1.1.1, (view db).1.1.2, (view db).1.2, (view db).2).
Proof. done. Qed.
Lemma view_memberships g db :
  view (upd_memberships g db) = ((view db).1.1.1, (view db).1.1.2, g (view db).1.2, (view db).2).
Proof. done. Qed.
Create Rewrite HintDb view.
#[local] Hint Rewrite view_saml_states view_sessions view_invitations view_service_accounts view_mappings view_mapping_audit view_admin_audit view_tenant_tokens view_limits view_model_policies view_policy_state view_tenant_audit view_tenants view_workspaces view_memberships : view.

Lemma delete_tenant_wf t db : wf db -> wf (delete_tenant t db).2.
Proof.
  intros Hwf. unfold delete_tenant. apply atomically_preserves; [done|]. intros x db' Ht.
  destruct (has t (tenants db)); [|by simplify_eq]. destruct (tenant_restricted t db); [done|].
  cbn zeta in Ht. injection Ht as <- <-. unfold wf, delete_workspaces. cbn zeta. autorewrite with view.
  cbn [fst snd]. by apply (wf_keep_workspaces _ _ _ _ (fun w => negb match workspaces db !! w with
    | Some row => bool_decide (wk_tenant_id row = t) | None => false end)).
Qed.

Lemma create_principal_wf now random name db : wf db -> wf (create_workspace_principal now random name db).2.
Proof.
  intros Hwf. committed Hwf. by apply wf_put_principal.
Qed.

Lemma upsert_wf w p role now db :
  wf db -> is_Some (workspaces db !! w) -> is_Some (principals db !! p) ->
  managed_ok (workspaces db) (scim_users db) w p -> wf (upsert_membership w p role now db).
Proof. intros Hwf Hw Hp Hok. apply wf_put_member; try done; by case_match. Qed.

Lemma set_membership_wf now w p role db : wf db -> wf (set_workspace_membership now w p role db).2.
Proof.
  intros Hwf. committed Hwf.
  apply upsert_wf; eauto using scim_allows_ok.
Qed.

Lemma update_membership_wf now w a t role act db :
  wf db -> wf (update_workspace_membership_as_owner now w a t role act db).2.
Proof.
  intros Hwf. committed Hwf.
  apply wf_put_member; eauto using scim_allows_ok.
Qed.

Lemma scim_user_of_some (org p : string) (db : Db) (u : ScimUser) :
  scim_user_of org p db = Some u <-> scim_users db !! p = Some u /\ su_organization_id u = org.
Proof.
  unfold scim_user_of. destruct (scim_users db !! p) as [u'|]; cbn; [|naive_solver].
  case_bool_decide; naive_solver.
Qed.

Lemma assign_wf now w a t role db : wf db -> wf (assign_scim_user_to_workspace_as_owner now w a t role db).2.
Proof.
  intros Hwf. committed Hwf.
  destruct (scim_user_of _ t db) as [u|] eqn:Hu; [|done]. destruct (principals db !! t) as [q|] eqn:Hq; [|done].
  boolp. apply scim_user_of_some in Hu as [Hu Horg].
  match goal with Ho : authorized_workspace_owner _ _ _ = Ok _ |- _ =>
    apply authorized_owner_ok in Ho as (k & Hk & ->) end.
  apply authorized_member_some in Hk as (? & ? & ? & ? & Hk & _).
  apply upsert_wf; [done|by eauto|by eauto|]. intros u' k' Hu' Hk'. by simplify_eq.
Qed.

Lemma invited_principal_wf now random issuer subject iv db p db' :
  wf db -> invited_principal now random issuer subject iv db = Ok (Some (p, db')) ->
  wf db' /\ is_Some (principals db' !! p) /\ workspaces db' = workspaces db /\ memberships db' = memberships db /\
  scim_users db' = scim_users db /\ scim_allows (iv_organization_id iv) p db = true.
Proof.
  intros Hwf. unfold invited_principal.
  destruct (_ ≫= _) as [[q act]|] eqn:Hq.
  - case_match eqn:Hc; [|done]. intros [= <- <-]. boolp.
    apply bind_Some in Hq as (i & Hi & Hq). apply bind_Some in Hq as (r & Hr & [= <- <-]). by eauto 10.
  - cbn zeta. intros Ht. tx_inv Ht. apply has_false in G. split_and!; try done.
    + by apply wf_put_principal.
    + cbn. rewrite lookup_insert_eq. by eexists.
    + unfold scim_allows. destruct (scim_users db !! _) as [u|] eqn:Hu; [|done].
      destruct (wf_scim_principal _ Hwf _ _ Hu) as [r Hr]. unfold view in Hr; cbn in Hr. congruence.
Qed.

Lemma invitation_open_true now iv db :
  invitation_open now iv db = true <->
  iv_active iv = true /\ iv_revoked_at_unix iv = None /\ iv_accepted_at_unix iv = None /\
  now <= iv_expires_at_unix iv /\
  exists o k t, organizations db !! iv_organization_id iv = Some o /\ workspaces db !! iv_workspace_id iv = Some k /\
    wk_organization_id k = iv_organization_id iv /\ tenants db !! wk_tenant_id k = Some t /\
    og_active o = true /\ wk_active k = true /\ tn_active t = true.
Proof.
  unfold invitation_open. rewrite !andb_true_iff, !bool_decide_eq_true, Z.leb_le.
  destruct (organizations db !! _) as [o|]; [|by split; [intros [_ ?]|intros (_ & _ & _ & _ & ? & ? & ? & ? & _)]].
  destruct (workspaces db !! _) as [k|]; [|by split; [intros [_ ?]|intros (_ & _ & _ & _ & ? & ? & ? & _ & ? & _)]].
  rewrite !andb_true_iff, bool_decide_eq_true. destruct (tenants db !! _) as [t|] eqn:Ht; split.
  - intros ((((? & ?) & ?) & ?) & (((? & ?) & ?) & ?)). split_and!; try done. by exists o, k, t.
  - intros (? & ? & ? & ? & ? & ? & ? & ? & ? & ? & ? & ? & ? & ?). simplify_eq. done.
  - by intros [_ [_ ?]].
  - intros (_ & _ & _ & _ & ? & ? & ? & ? & ? & _ & ? & _). simplify_eq.
Qed.

Lemma accept_wf now random i o w iss sub f db :
  wf db -> wf (accept_workspace_invitation_federated now random i o w iss sub f db).2.
Proof.
  intros Hwf. committed Hwf; try done;
    match goal with Hp : invited_principal _ _ _ _ _ _ = _ |- _ =>
      apply invited_principal_wf in Hp as (Hwf' & Hp & Ews & Emb & Esu & Hscim); [|done] end; [done|].
  match goal with Ho : invitation_open _ _ _ = true |- _ =>
    apply invitation_open_true in Ho as (_ & _ & _ & _ & og & k & t & _ & Hk & Horg & _) end.
  subst. rewrite <- Horg in Hscim. apply wf_put_member; [done..| | |].
  - cbn. rewrite Ews. by eauto.
  - done.
  - intros _. cbn. rewrite Ews, Esu. by eapply scim_allows_ok.
Qed.

Lemma create_scim_user_wf now random i e u d a db : wf db -> wf (create_scim_user now random i e u d a db).2.
Proof.
  intros Hwf. unfold create_scim_user. apply atomically_preserves; [done|]. intros x db' Ht.
  unfold append_scim_audit in Ht. tx_inv Ht. boolp. apply has_false in G.
  apply wf_put_scim; [by apply wf_put_principal| | |].
  - cbn. rewrite lookup_insert_eq. by eexists.
  - done.
  - intros w m k Hm. apply (wf_member_principal _ Hwf) in Hm as [q Hq]. cbn in Hq. congruence.
Qed.

(** A validated value is the value. *)
Lemma validated_component value field n v : validate_external_identity_component value field n = Ok v -> v = value.
Proof. unfold validate_external_identity_component. by repeat case_match; intros [= <-]. Qed.

Lemma validated_update_active up v : validate_scim_user_update up = Ok v -> uu_active v = uu_active up.
Proof.
  unfold validate_scim_user_update. case_match; [done|].
  destruct (transpose _ _); [|done]. destruct (transpose _ _); [|done]. by intros [= <-].
Qed.

(** What an update that found its user leaves. *)
Lemma update_scim_user_spec now i id up db x db' :
  update_scim_user now i id up db = (Ok (Some x), db') ->
  exists cur f, scim_users db !! id = Some cur /\ su_organization_id cur = si_organization_id i /\
    su_id x = su_id cur /\ su_organization_id x = su_organization_id cur /\
    su_active x = default (su_active cur) (uu_active up) /\
    view db' = (workspaces db, alter f id (principals db),
      (if su_active x then memberships db
       else suspended (workspaces db) id (si_organization_id i) now <$> memberships db),
      <[id := x]> (scim_users db)).
Proof.
  unfold update_scim_user. rewrite atomically_ok. intros Ht.
  unfold append_scim_audit in Ht. tx_inv Ht. boolp.
  apply validated_component in R as ->. apply validated_update_active in R0 as Hact.
  match goal with Hu : scim_user_of _ _ _ = Some ?c |- _ => apply scim_user_of_some in Hu as [Hu Ho]; exists c end.
  eexists. cbn. rewrite Hact in *. split_and!; try done. by destruct (default _ _).
Qed.

Lemma suspended_keeps ws id org now m :
  mb_workspace_id (suspended ws id org now m) = mb_workspace_id m /\
  mb_principal_id (suspended ws id org now m) = mb_principal_id m /\
  (mb_active (suspended ws id org now m) = true -> mb_active m = true).
Proof. unfold suspended. repeat case_match; cbn; naive_solver. Qed.

Lemma update_scim_user_wf now i u up db : wf db -> wf (update_scim_user now i u up db).2.
Proof.
  intros Hwf. destruct (update_scim_user now i u up db) as [[[x|]|e] db'] eqn:E; cbn.
  - apply update_scim_user_spec in E as (cur & f & Hcur & Horg & Hid & Hox & Hax & Hv). unfold wf. rewrite Hv.
    assert (su_id x = u) by (rewrite Hid; by apply (wf_scim_key _ Hwf)).
    assert (is_Some (principals db !! u)) as Hp by by apply (wf_scim_principal _ Hwf _ _ Hcur).
    apply wf_put_scim; [| |done|].
    + apply wf_alter_principal. case_match; [done|]. apply wf_fmap_members; [done|]. apply suspended_keeps.
    + by apply lookup_alter_is_Some.
    + intros w m k Hm Ha Hk. destruct (su_active x) eqn:Hx.
      * destruct (wf_managed _ Hwf w u m cur k) as [Ho _]; [done..|]. by rewrite Hox.
      * rewrite lookup_fmap, fmap_Some in Hm. destruct Hm as (m0 & Hm0 & ->).
        destruct (wf_member_key _ Hwf _ _ _ Hm0) as [Hmw Hmp].
        assert (Ha0 : mb_active m0 = true) by (by apply suspended_keeps in Ha).
        destruct (wf_managed _ Hwf w u m0 cur k) as [Ho _]; [done..|].
        exfalso. revert Ha. unfold suspended. rewrite Hmw, Hmp, Hk.
        rewrite !bool_decide_eq_true_2 by congruence. done.
  - unfold update_scim_user in E. rewrite atomically_ok in E. unfold append_scim_audit in E. tx_inv E. done.
  - unfold update_scim_user in E. by apply atomically_err in E as ->.
Qed.

(** The invariant holds of every reachable database. *)
Lemma open_wf (now : Z) : wf (open_empty now).
Proof. by split; cbn; intros *; rewrite lookup_empty. Qed.

Section reachability.
Context `{Sha256, UrlParser, JsonCodec TenantPolicyDocument, JsonCodec TenantModelPolicy,
          JsonCodec (list string), JsonCodec Value}.
Variable hmac_sha256 : string -> string -> string.

Lemma exec_wf (r : Request) (db : Db) : wf db -> wf (exec hmac_sha256 r db).
Proof.
  destruct (moves r) eqn:Hm; [|intros Hwf; by apply (wf_of_view db); [apply exec_view|]].
  destruct r; try done; cbn [exec]; eauto using create_tenant_wf, delete_tenant_wf, create_principal_wf,
    set_membership_wf, update_membership_wf, accept_wf, create_scim_user_wf, update_scim_user_wf, assign_wf.
Qed.

Lemma reachable_wf_lemma (db : Db) : reachable hmac_sha256 db -> wf db.
Proof. intros (now & trace & ->). apply run_invariant; [apply exec_wf|apply open_wf]. Qed.
End reachability.
