(* ===== verification/TenantScene.v ===== *)
(** A small deployment of the control plane, evaluated: concrete stand-ins for the
    libraries the store calls (hash, URL parser, JSON codec) and a trace that sets up an
    organization with a tenant, an owner, a directory user and a browser session. The
    theorems about reachable databases are applied to it. *)
From S2P Require Import Prelude BTree Net Json Spend TenantDb TenantDirectory TenantScim TenantSession.
From S2P Require Import TenantPolicy TenantUsage TenantAccess.
From stdpp Require Import countable strings.
From Stdlib Require Import String Ascii.
Local Open Scope string_scope.
Local Open Scope Z_scope.

(** ** Stand-ins *)

(** The last 32 bytes. *)
Definition scene_sha : Sha256 := fun s =>
  let padded := "00000000000000000000000000000000" +:+ s in Str.drop (Str.len padded - 32) padded.

Lemma scene_sha_len : Sha256Laws (H := scene_sha).
Proof. intros s. unfold sha256, scene_sha. rewrite Str.len_drop, Str.len_app. cbn. lia. Qed.
Definition scene_hmac (key message : string) : string := key +:+ ":" +:+ message.
Definition scene_url : UrlParser := fun s =>
  if Str.starts_with "https://" s then Some (mkUrl "https" (Some "host.example") EmptyString None None None "/auth/oidc/callback")
  else None.

(** A codec for every countable type: the digits of the value's code. *)
Fixpoint digits (p : positive) : string :=
  match p with
  | xH => EmptyString
  | xO p => String "0" (digits p)
  | xI p => String "1" (digits p)
  end.

Fixpoint undigits (s : string) : option positive :=
  match s with
  | EmptyString => Some xH
  | String c s => if Ascii.eqb c "0" then xO <$> undigits s else if Ascii.eqb c "1" then xI <$> undigits s else None
  end.

Lemma undigits_digits p : undigits (digits p) = Some p.
Proof. induction p as [p IH|p IH|]; cbn; by rewrite ?IH. Qed.

Definition digit_codec {A} `{Countable A} : JsonCodec A :=
  {| to_json := fun x => digits (encode x); from_json := fun s => undigits s ≫= decode |}.

Lemma digit_codec_laws {A} `{Countable A} : JsonCodecLaws A (H := digit_codec).
Proof. intros x. cbn. rewrite undigits_digits. apply decode_encode. Qed.

#[global] Instance TenantModelPolicy_eq_dec : EqDecision TenantModelPolicy.
Proof. solve_decision. Defined.
#[global] Program Instance TenantModelPolicy_countable : Countable TenantModelPolicy :=
  inj_countable' allowed_models mkModelPolicy _.
Next Obligation. by intros []. Qed.
#[global] Instance TenantPolicyDocument_eq_dec : EqDecision TenantPolicyDocument.
Proof. solve_decision. Defined.
#[global] Program Instance TenantPolicyDocument_countable : Countable TenantPolicyDocument :=
  inj_countable' (fun d => (pd_schema_version d, pd_model_policy d)) (fun x => mkPolicyDocument x.1 x.2) _.
Next Obligation. by intros []. Qed.

Definition scene_doc : JsonCodec TenantPolicyDocument := digit_codec.
Definition scene_model : JsonCodec TenantModelPolicy := digit_codec.
Definition scene_types : JsonCodec (list string) := digit_codec.

(** Event payloads are written, and only read back as the fixed object of a deployment. *)
Definition scene_value : JsonCodec Value := {| to_json := fun _ => "{}"; from_json := fun _ => Some (JObject []) |}.

#[local] Existing Instances scene_sha scene_url scene_doc scene_model scene_types scene_value.

(** ** The deployment *)

Definition org : string := Eval vm_compute in random_id "org" "o".
Definition tenant : string := Eval vm_compute in random_id "tenant" "t".
Definition workspace : string := Eval vm_compute in workspace_id_for_tenant tenant.
Definition owner : string := Eval vm_compute in random_id "principal" "p".
Definition scim : ScimIdentity := Eval vm_compute in mkScimIdentity org (random_id "scim" "k").
Definition user : string := Eval vm_compute in random_id "principal" "u".
Definition session : string := Eval vm_compute in generate_oidc_browser_session_token "c".

Definition setup : list Request :=
  [ RCreateOrganization 100 "o" "Acme"; RCreateTenant 100 "t" org "Acme production";
    RCreatePrincipal 100 "p" "Olga"; RSetMembership 100 workspace owner Owner;
    RIssueScimToken 100 "k" "s" org "directory" 1000;
    RCreateScimUser 100 "u" scim "ext-1" "dan@acme" "Dan" true;
    RAssignScimUser 100 workspace owner user Developer;
    RSetOidcConnection 100 org "https://idp.acme" "client" "https://fw.acme/callback" true;
    RLinkIdentity 100 user "https://idp.acme" "dan";
    RIssueSession 100 "c" (mkAccess org workspace user Developer) Oidc 4000 ].

Definition deployed : Db := run scene_hmac setup (open_empty 100).

Lemma deployed_reachable : reachable scene_hmac deployed.
Proof. by exists 100, setup. Qed.

(** The session of the directory user works. *)
Lemma deployed_session :
  (authenticate_oidc_browser_session 200 session deployed).1
  = Ok (Some (mkBrowserSession (mkAccess org workspace user Developer) 4000)).
Proof. vm_compute. reflexivity. Qed.
