(* ===== verification/TenantGuards.v ===== *)
(** What the tenant store guarantees about access in every reachable database: a
    deprovisioned user is locked out until the directory reactivates it, a browser session
    gives no more than the permission check, owner-only operations refuse everyone else
    without a trace, and the customers of a workspace cannot leave it without an owner. *)
From S2P Require Import Prelude BTree Net Json Spend TenantDb TenantDirectory TenantScim TenantSession.
From S2P Require Import TenantPolicy TenantUsage TenantAccess TenantScene.
From Stdlib Require Import String Ascii.
Local Open Scope string_scope.
Local Open Scope Z_scope.

#[local] Abbreviation length := List.length.

(** ** Deprovisioned users *)

(** No way of authorizing a customer gives the principal anything. *)
Definition locked_out `{Sha256} (p : string) (db : Db) : Prop :=
  (forall w permission, (workspace_permits p w permission db).1 = Ok false) /\
  (forall w, authorized_member w p db = None) /\
  (forall now token s, (authenticate_oidc_browser_session now token db).1 = Ok (Some s) ->
     va_principal_id (ob_access s) <> p) /\
  (forall federation o w issuer subject a, (verified_access federation o w issuer subject db).1 = Ok (Some a) ->
     va_principal_id a <> p).

(** The directory lists the principal as inactive. *)
Definition deprovisioned (p : string) (db : Db) : Prop :=
  exists u, scim_users db !! p = Some u /\ su_active u = false.

(** The only request that undoes it. *)
Definition reactivates (p : string) (r : Request) : bool :=
  match r with
  | RUpdateScimUser _ _ id update => bool_decide (id = p) && bool_decide (uu_active update = Some true)
  | _ => false
  end.

Lemma group_grants_inactive org w p db : deprovisioned p db -> group_grants org w p db = false.
Proof.
  intros (u & Hu & Ha). unfold group_grants. apply not_true_is_false. rewrite existsb_exists.
  intros ([[w' g] v] & _ & Hc). rewrite Hu, Ha, !andb_false_r in Hc. done.
Qed.

Lemma member_inactive w p db m : wf db -> deprovisioned p db -> memberships db !! (w, p) = Some m -> mb_active m = false.
Proof.
  intros Hwf (u & Hu & Ha) Hm. apply not_true_is_false. intros Hact.
  destruct (wf_member_workspace _ Hwf _ _ _ Hm) as [k Hk].
  destruct (wf_managed _ Hwf w p m u k) as [_ Hu']; [done..|congruence].
Qed.

Lemma effective_role_inactive org w p db : wf db -> deprovisioned p db -> effective_role org w p db = None.
Proof.
  intros Hwf Hd. unfold effective_role. rewrite (group_grants_inactive org w p db Hd).
  destruct (memberships db !! (w, p)) as [m|] eqn:Hm; [|done]. by rewrite (member_inactive w p db m).
Qed.

Lemma session_access_role `{Sha256} now h db s a :
  session_access now h db = Some (s, a) ->
  sessions db !! h = Some s /\ now <= bs_expires_at_unix s /\ bs_revoked_at_unix s = None /\
  scope_active (va_organization_id a) (va_workspace_id a) (va_principal_id a) db = true /\
  connection_active (bs_federation_kind s) (va_organization_id a) db = true /\
  effective_role (va_organization_id a) (va_workspace_id a) (va_principal_id a) db = Some (va_role a) /\
  bs_organization_id s = va_organization_id a /\ bs_workspace_id s = va_workspace_id a /\
  bs_principal_id s = va_principal_id a.
Proof.
  unfold session_access. intros Hs. apply bind_Some in Hs as (s' & Hs' & Hs). cbn zeta in Hs.
  case_match eqn:Hc; [|done]. apply bind_Some in Hs as (role & Hr & [= <- <-]). boolp.
  by split_and!.
Qed.

Lemma authenticate_session_some `{Sha256} now token db s :
  (authenticate_oidc_browser_session now token db).1 = Ok (Some s) ->
  exists h row, oidc_browser_session_hash token = Ok h /\ session_access now h db = Some (row, ob_access s) /\
    ob_expires_at_unix s = bs_expires_at_unix row.
Proof.
  unfold authenticate_oidc_browser_session, reading. cbn [fst].
  destruct (oidc_browser_session_hash token) as [h|] eqn:Eh; cbn beta iota; [|done]. intros [= Hs].
  apply fmap_Some in Hs as ([row a] & Hs & ->). by exists h, row.
Qed.

Lemma verified_access_role federation o w issuer subject db a :
  (verified_access federation o w issuer subject db).1 = Ok (Some a) ->
  scope_active o w (va_principal_id a) db = true /\
  effective_role o w (va_principal_id a) db = Some (va_role a) /\
  va_organization_id a = o /\ va_workspace_id a = w /\
  (exists i, identities db !! (issuer, subject) = Some i /\ ei_principal_id i = va_principal_id a) /\
  connection_issuer federation o db = Some issuer /\ connection_active federation o db = true.
Proof.
  unfold verified_access, reading. cbn [fst].
  destruct (validate_external_identity_component issuer _ _) as [i|] eqn:Ei; cbn beta iota; [|done].
  apply validated_component in Ei as ->.
  destruct (validate_external_identity_component subject _ _) as [s|] eqn:Es; cbn beta iota; [|done].
  apply validated_component in Es as ->. intros [= Ha].
  case_match eqn:Hc; [|done]. apply bind_Some in Ha as (i & Hi & Ha). case_match eqn:Hs; [|done].
  apply bind_Some in Ha as (role & Hr & [= <-]). boolp. cbn. by eauto 10.
Qed.

Lemma deprovisioned_locked_out `{Sha256} p db : wf db -> deprovisioned p db -> locked_out p db.
Proof.
  intros Hwf Hd. split_and!.
  - intros w permission. unfold workspace_permits, reading; cbn [fst]. f_equal.
    destruct (workspaces db !! w) as [k|]; [|done]. rewrite group_grants_inactive by done.
    destruct (memberships db !! (w, p)) as [m|] eqn:Hm; [|by rewrite andb_false_r].
    rewrite (member_inactive w p db m) by done. by rewrite andb_false_r.
  - intros w. destruct (authorized_member w p db) as [[k role]|] eqn:Ha; [|done].
    apply authorized_member_some in Ha as (o & t & q & m & _ & _ & _ & _ & Hm & _ & _ & _ & _ & _ & Hact).
    by rewrite (member_inactive w p db m) in Hact.
  - intros now token s Hs <-. apply authenticate_session_some in Hs as (h & row & _ & Hs & _).
    apply session_access_role in Hs as (_ & _ & _ & _ & _ & Hr & _).
    by rewrite effective_role_inactive in Hr.
  - intros f o w iss sub a Ha <-. apply verified_access_role in Ha as (_ & Hr & _).
    by rewrite effective_role_inactive in Hr.
Qed.

(** A table an operation leaves alone. *)
Lemma atomically_keeps {A T} (g : Db -> T) (f : Db -> result (A * Db) string) (db : Db) :
  (forall x db', f db = Ok (x, db') -> g db' = g db) -> g (atomically f db).2 = g db.
Proof. unfold atomically. intros Hf. destruct (f db) as [[x db']|] eqn:E; cbn; eauto. Qed.

Ltac keeps g :=
  match goal with
  | |- context [(?f ?db).2] =>
      let rec head t := match t with ?h _ => head h | _ => t end in let h := head f in unfold h
  end;
  unfold append_scim_audit, append_scim_group_audit, insert_destination;
  apply (atomically_keeps g); let Ht := fresh "Ht" in intros ? ? Ht; tx_inv Ht; try reflexivity.

Lemma view_scim db db' : view db' = view db -> scim_users db' = scim_users db.
Proof. by intros [= _ _ _ ?]. Qed.

Lemma accept_keeps_scim now random i o w iss sub f db :
  scim_users (accept_workspace_invitation_federated now random i o w iss sub f db).2 = scim_users db.
Proof.
  keeps (fun db : Db => scim_users db); match goal with Hp : invited_principal _ _ _ _ _ _ = _ |- _ =>
    unfold invited_principal in Hp; cbn zeta in Hp; destruct (_ ≫= _) as [[? ?]|] in Hp; tx_inv Hp; try done;
    repeat case_match; simplify_eq; done end.
Qed.

Lemma delete_tenant_keeps_scim t db : scim_users (delete_tenant t db).2 = scim_users db.
Proof.
  unfold delete_tenant. apply (atomically_keeps (fun db : Db => scim_users db)). intros x db' Ht.
  destruct (has t (tenants db)); [|by simplify_eq]. destruct (tenant_restricted t db); [done|].
  cbn zeta in Ht. injection Ht as _ <-. reflexivity.
Qed.

(** Installing a policy changes the policy tables only. *)
Definition outside_policy (db : Db) : Directory * ScimTables * FederationTables * UsageTables :=
  (db_dir db, db_scim db, db_fed db, db_usage db).

Section policy_frames.
Context `{Sha256, JsonCodec TenantPolicyDocument, JsonCodec TenantModelPolicy, JsonCodec (list string), JsonCodec Value}.

Lemma enqueue_outside (now : Z) (random : nat -> string) (t e : string) (ds : list WebhookDestinationRow) :
  forall i db db', enqueue_deliveries now random i t e ds db = Ok db' -> outside_policy db' = outside_policy db.
Proof.
  induction ds as [|d ds IH]; intros i db db'; cbn [enqueue_deliveries]; [by intros [= <-]|].
  repeat case_match; try done; intros Heq; apply IH in Heq; done.
Qed.

Lemma install_outside now random document did t v prev act actor db x db' :
  install_policy now random document did t v prev act actor db = Ok (x, db') ->
  outside_policy db' = outside_policy db.
Proof.
  unfold install_policy. cbn zeta. intros Hi. ok_inv Hi. simplify_eq.
  match goal with He : enqueue_deliveries _ _ _ _ _ _ _ = Ok _ |- _ => apply enqueue_outside in He; by rewrite He end.
Qed.
End policy_frames.

(** ** Owners *)

(** Two rows that satisfy a predicate have two keys. *)
Lemma other_row {K V} `{Countable K} (P : V -> Prop) `{forall v, Decision (P v)} (t : gmap K V) (k : K) :
  (1 < length (filter P (rows t)))%nat -> exists k' v, k' <> k /\ t !! k' = Some v /\ P v.
Proof.
  intros Hlen.
  assert (Hd : (0 < length (filter P (rows (delete k t))))%nat).
  { destruct (t !! k) as [v|] eqn:Hk; [|rewrite delete_id by done; lia].
    unfold rows in *. rewrite <- (insert_delete_id t k v Hk), map_to_list_insert in Hlen
      by (rewrite lookup_delete_eq; done).
    rewrite fmap_cons, filter_cons in Hlen. case_decide; cbn [List.length] in Hlen; lia. }
  destruct (filter P (rows (delete k t))) as [|v l] eqn:Hf; [cbn in Hd; lia|].
  assert (Hin : v ∈ filter P (rows (delete k t))) by (rewrite Hf; left).
  apply list_elem_of_filter in Hin as [Hp Hin]. apply elem_of_rows in Hin as [k' Hk'].
  apply lookup_delete_Some in Hk' as [Hne Hk']. by exists k', v.
Qed.

(** A workspace with an active owner. *)
Definition owned (w : string) (db : Db) : Prop :=
  exists p m, memberships db !! (w, p) = Some m /\ mb_active m = true /\ mb_role m = Owner.

Lemma owned_count w db : wf db -> owned w db <-> (0 < owner_count w db)%nat.
Proof.
  intros Hwf. unfold owner_count. split.
  - intros (p & m & Hm & Ha & Hr). destruct (wf_member_key _ Hwf _ _ _ Hm) as [Hw _].
    enough (Hin : m ∈ filter (fun m => mb_workspace_id m = w /\ mb_active m = true /\ mb_role m = Owner)
                    (rows (memberships db))) by (destruct (filter _ _); [by apply not_elem_of_nil in Hin|cbn; lia]).
    apply list_elem_of_filter. split; [done|]. apply elem_of_rows. by eexists.
  - destruct (filter _ _) as [|m l] eqn:Hf; [cbn; lia|]. intros _.
    assert (Hin : m ∈ m :: l) by left. rewrite <- Hf in Hin. apply list_elem_of_filter in Hin as [(Hw & Ha & Hr) Hin].
    apply elem_of_rows in Hin as [[w' p] Hm]. destruct (wf_member_key _ Hwf _ _ _ Hm) as [Hw' _].
    exists p, m. by rewrite <- Hw, Hw'.
Qed.

(** Memberships that stay as they are, and more of them. *)
Lemma owned_mono w (db db' : Db) :
  (forall p m, memberships db !! (w, p) = Some m -> mb_active m = true -> mb_role m = Owner ->
     exists m', memberships db' !! (w, p) = Some m' /\ mb_active m' = true /\ mb_role m' = Owner) ->
  owned w db -> owned w db'.
Proof. intros Hk (p & m & Hm & Ha & Hr). destruct (Hk p m Hm Ha Hr) as (m' & ?). by exists p, m'. Qed.

Lemma owned_upsert w w' p role now db : role = Owner \/ w' <> w -> owned w db -> owned w (upsert_membership w' p role now db).
Proof.
  intros Hor. apply owned_mono. intros q m Hm Ha Hr. cbn.
  destruct (decide ((w', p) = (w, q))) as [[= -> ->]|Hne].
  - destruct Hor as [->|]; [|done]. rewrite lookup_insert_eq, Hm. by eexists.
  - rewrite lookup_insert_ne by done. by exists m.
Qed.

Section guards.
Context `{Sha256, UrlParser, JsonCodec TenantPolicyDocument, JsonCodec TenantModelPolicy,
          JsonCodec (list string), JsonCodec Value}.
Variable hmac_sha256 : string -> string -> string.

Lemma exec_keeps_scim (r : Request) (db : Db) :
  match r with RCreateScimUser _ _ _ _ _ _ _ | RUpdateScimUser _ _ _ _ => False | _ => True end ->
  scim_users (exec hmac_sha256 r db) = scim_users db.
Proof.
  destruct (moves r) eqn:Hm; [|intros _; by apply view_scim, exec_view].
  destruct r; try done; intros _; cbn [exec].
  all: try first [apply accept_keeps_scim | apply delete_tenant_keeps_scim].
  all: keeps (fun db : Db => scim_users db).
Qed.

Lemma deprovisioned_exec (p : string) (r : Request) (db : Db) :
  wf db -> reactivates p r = false -> deprovisioned p db -> deprovisioned p (exec hmac_sha256 r db).
Proof.
  intros Hwf Hr (u & Hu & Ha).
  destruct r eqn:Er; try (exists u; rewrite exec_keeps_scim; [done|done]); cbn [exec].
  - unfold create_scim_user. apply atomically_preserves; [by exists u|]. intros x db' Ht.
    unfold append_scim_audit in Ht. tx_inv Ht. boolp. exists u. split; [|done]. cbn.
    rewrite lookup_insert_ne; [done|]. intros Heq. apply has_false in G.
    destruct (wf_scim_principal _ Hwf _ _ Hu) as [q Hq]. unfold view in Hq; cbn in Hq. congruence.
  - destruct (update_scim_user now identity user_id update db) as [[[x|]|e] db'] eqn:E; cbn.
    + apply update_scim_user_spec in E as (cur & f & Hcur & Horg & Hid & Hox & Hax & Hv).
      injection Hv as _ _ _ Hsu. unfold deprovisioned. rewrite Hsu. destruct (decide (user_id = p)) as [->|Hne].
      * exists x. rewrite lookup_insert_eq. split; [done|]. simplify_eq. rewrite Hax.
        cbn in Hr. rewrite bool_decide_eq_true_2 in Hr by done. cbn in Hr. apply bool_decide_eq_false in Hr.
        destruct (uu_active update) as [[]|]; cbn; congruence.
      * exists u. by rewrite lookup_insert_ne.
    + unfold update_scim_user in E. rewrite atomically_ok in E. unfold append_scim_audit in E. tx_inv E. by exists u.
    + unfold update_scim_user in E. apply atomically_err in E as ->. by exists u.
Qed.

(** C16. In every reachable database, once the organization's directory lists a user as
    inactive, and as long as no request reactivates that very user, whatever else
    happens: no permission check passes for the principal in any workspace, no customer
    operation is authorized for it, and neither a browser session nor a verified federated
    login gives it access. *)
Theorem deprovisioned_stays_out (p : string) (db : Db) (trace : list Request) :
  reachable hmac_sha256 db -> deprovisioned p db -> Forall (fun r => reactivates p r = false) trace ->
  locked_out p (run hmac_sha256 trace db).
Proof.
  intros Hdb Hd Htr. apply reachable_wf_lemma in Hdb.
  enough (wf (run hmac_sha256 trace db) /\ deprovisioned p (run hmac_sha256 trace db)) as [? ?]
    by by apply deprovisioned_locked_out.
  revert db Hdb Hd. induction Htr as [|r trace Hr _ IH]; intros db Hwf Hd; [done|].
  cbn. apply IH; [by apply exec_wf|by apply deprovisioned_exec].
Qed.

(** ** Sessions and the permission check *)

(** The access a browser session or a verified federated login is given. *)
Definition admitted (a : VerifiedWorkspaceAccess) (db : Db) : Prop :=
  (exists now token s, (authenticate_oidc_browser_session now token db).1 = Ok (Some s) /\ ob_access s = a) \/
  (exists federation issuer subject,
     (verified_access federation (va_organization_id a) (va_workspace_id a) issuer subject db).1 = Ok (Some a)).

Lemma admitted_role (a : VerifiedWorkspaceAccess) (db : Db) :
  admitted a db -> scope_active (va_organization_id a) (va_workspace_id a) (va_principal_id a) db = true /\
    effective_role (va_organization_id a) (va_workspace_id a) (va_principal_id a) db = Some (va_role a).
Proof.
  intros [(now & token & s & Hs & <-)|(f & i & s & Hv)].
  - apply authenticate_session_some in Hs as (h & row & _ & Hs & _). by apply session_access_role in Hs as (? & ? & ? & ? & ? & ? & _).
  - by apply verified_access_role in Hv as (? & ? & _).
Qed.

Lemma scope_active_true o w p db :
  scope_active o w p db = true <-> exists og k q, organizations db !! o = Some og /\ workspaces db !! w = Some k /\
    principals db !! p = Some q /\ wk_organization_id k = o /\ og_active og = true /\ wk_active k = true /\ wp_active q = true.
Proof.
  unfold scope_active. destruct (organizations db !! o) as [og|]; [|naive_solver].
  destruct (workspaces db !! w) as [k|]; [|naive_solver]. destruct (principals db !! p) as [q|]; [|naive_solver].
  rewrite !andb_true_iff, bool_decide_eq_true. naive_solver.
Qed.

(** C17. In every reachable database whatever the role of a live browser session or of a
    verified federated login permits, the store's own permission check permits the same
    principal in the same workspace: sessions never carry more than the tables say, although
    the session is answered from the role and the check from memberships, directory
    state and group mappings. *)
Theorem session_within_permissions (db : Db) (a : VerifiedWorkspaceAccess) (permission : WorkspacePermission) :
  reachable hmac_sha256 db -> admitted a db -> access_permits a permission = true ->
  (workspace_permits (va_principal_id a) (va_workspace_id a) permission db).1 = Ok true.
Proof.
  intros Hwf Ha Hp. apply reachable_wf_lemma in Hwf. apply admitted_role in Ha as [Hs Hr].
  apply scope_active_true in Hs as Hs'. destruct Hs' as (og & k & q & Ho & Hk & Hq & Horg & _).
  unfold workspace_permits, reading; cbn [fst]. f_equal. rewrite Hk, Horg, Hs. cbn.
  unfold effective_role in Hr. unfold access_permits in Hp.
  destruct (memberships db !! _) as [m|] eqn:Hm; [destruct (mb_active m) eqn:Hact|].
  - injection Hr as Hr. rewrite Hr, Hp. replace (scim_allows _ _ db) with true; [done|]. symmetry.
    unfold scim_allows. destruct (scim_users db !! _) as [u|] eqn:Hu; [|done].
    destruct (wf_managed _ Hwf _ _ m u k Hm Hact Hu Hk) as [Hou Hau]. rewrite Hau.
    by rewrite bool_decide_eq_true_2 by congruence.
  - destruct (group_grants _ _ _ db); [|done]. injection Hr as Hr. rewrite <- Hr in Hp. exact Hp.
  - destruct (group_grants _ _ _ db); [|done]. injection Hr as Hr. rewrite <- Hr in Hp. exact Hp.
Qed.

(** ** Customer operations *)

(** The workspace a customer request is about, the principal that makes it and the roles
    that may. *)
Definition customer (r : Request) : option (string * string * (WorkspaceRole -> bool)) :=
  let owner role := bool_decide (role = Owner) in
  match r with
  | RUpdateMembership _ w a _ _ _ | RInvite _ _ _ w a _ _ _ | RRevokeInvitation _ w _ a
  | RResendInvitation _ _ _ w _ a _ | RAssignScimUser _ w a _ _ | RCreateMapping _ w a _
  | RDeleteMapping _ w a _ | RCreateWorkspaceWebhook _ _ _ w a _ _
  | RDeactivateWorkspaceWebhook _ w a _ => Some (w, a, owner)
  | RSetWorkspaceModelPolicy _ _ _ _ w a _ => Some (w, a, fun role => role_permits role ApprovePolicies)
  | RSetWorkspaceRetention _ w a _ | RSetWorkspaceQuota _ w a _ =>
      Some (w, a, fun role => role_permits role ManageBilling)
  | RSetWorkspaceLimits _ w a _ => Some (w, a, fun role => role_permits role ManageTenant)
  | RCreateServiceAccount _ _ _ w a _ _ | RRevokeServiceAccount _ w _ a =>
      Some (w, a, fun role => role_permits role ManageServiceTokens || role_permits role ManageOwnServiceTokens)
  | _ => None
  end.

(** The principal is an active member with one of the roles, in an active scope. *)
Definition entitled (w a : string) (granted : WorkspaceRole -> bool) (db : Db) : Prop :=
  exists k role, authorized_member w a db = Some (k, role) /\ granted role = true.

(** The entries appended to the two audit logs of a workspace: all of them name the
    workspace and the actor, and there is at least one. *)
Definition audited (w a : string) (db db' : Db) : Prop :=
  exists new new',
    log_rows (admin_audit db') = (log_rows (admin_audit db) ++ new)%list /\
    log_rows (mapping_audit db') = (log_rows (mapping_audit db) ++ new')%list /\
    Forall (fun e => aa_workspace_id e.2 = w /\ aa_actor_principal_id e.2 = Some a) new /\
    Forall (fun e => mx_workspace_id e.2 = w /\ mx_actor_principal_id e.2 = Some a) new' /\
    (length new + length new' > 0)%nat.

Lemma audited_once w a (db db' : Db) n e :
  log_rows (admin_audit db') = (log_rows (admin_audit db) ++ [(n, e)])%list -> mapping_audit db' = mapping_audit db ->
  aa_workspace_id e = w -> aa_actor_principal_id e = Some a -> audited w a db db'.
Proof.
  intros Hl Hm Hw Ha. exists [(n, e)], []. rewrite Hm, app_nil_r. split_and!; try done; [by repeat constructor|cbn; lia].
Qed.

Lemma audited_mapping w a (db db' : Db) n e :
  log_rows (mapping_audit db') = (log_rows (mapping_audit db) ++ [(n, e)])%list -> admin_audit db' = admin_audit db ->
  mx_workspace_id e = w -> mx_actor_principal_id e = Some a -> audited w a db db'.
Proof.
  intros Hl Hm Hw Ha. exists [], [(n, e)]. rewrite Hm, app_nil_r. split_and!; try done; [by repeat constructor|cbn; lia].
Qed.

Lemma audited_trans w a db1 db2 db3 : audited w a db1 db2 -> audited w a db2 db3 -> audited w a db1 db3.
Proof.
  intros (n1 & m1 & A1 & B1 & C1 & D1 & E1) (n2 & m2 & A2 & B2 & C2 & D2 & E2).
  exists (n1 ++ n2)%list, (m1 ++ m2)%list. rewrite A2, A1, B2, B1, !app_assoc.
  split_and!; try done; [by apply Forall_app..|]. rewrite !length_app. lia.
Qed.

(** An operation changed nothing, or was made by someone entitled and left its trace. *)
Definition governed (w a : string) (granted : WorkspaceRole -> bool) (db db' : Db) : Prop :=
  db' = db \/ (entitled w a granted db /\ audited w a db db').

Lemma governed_atomically {A} w a granted (f : Db -> result (A * Db) string) db :
  (forall x db', f db = Ok (x, db') -> governed w a granted db db') -> governed w a granted db (atomically f db).2.
Proof. unfold atomically. intros Hf. destruct (f db) as [[x db']|] eqn:E; cbn; [by eapply Hf|by left]. Qed.

Lemma owner_entitled w a db org :
  authorized_workspace_owner w a db = Ok org -> entitled w a (fun role => bool_decide (role = Owner)) db.
Proof. intros (k & Hk & _)%authorized_owner_ok. exists k, Owner. by split. Qed.

Lemma with_entitled w a granted db x : authorized_with w a granted db = Ok x -> entitled w a granted db.
Proof.
  unfold authorized_with. destruct (authorized_member w a db) as [[k role]|] eqn:Em; [|done].
  destruct (granted role) eqn:Eg; [|done]. intros _. by exists k, role.
Qed.

Ltac governed :=
  match goal with
  | |- governed _ _ _ _ (?f ?db).2 =>
      let rec head t := match t with ?h _ => head h | _ => t end in let h := head f in unfold h
  end;
  apply governed_atomically; let Ht := fresh "Ht" in intros ? ? Ht; tx_inv Ht;
  try (by left); right;
  (split; [first [by eapply owner_entitled | by eapply with_entitled]
          | first [by eapply audited_once | by eapply audited_mapping]]).

Lemma revoke_account_governed now w i a db :
  governed w a (fun role => role_permits role ManageServiceTokens || role_permits role ManageOwnServiceTokens) db
    (revoke_workspace_service_account now w i a db).2.
Proof.
  unfold revoke_workspace_service_account. apply governed_atomically. intros x db' Ht.
  destruct (authorized_member w a db) as [[k role]|] eqn:Em; [|left; by simplify_eq].
  destruct (service_accounts db !! i) as [acc|]; [|left; by simplify_eq].
  case_match eqn:Hc; [|left; by simplify_eq]. injection Ht as _ <-. right.
  split; [|by eapply audited_once]. exists k, role. split; [done|]. boolp. apply orb_true_iff.
  match goal with Hg : _ \/ _ |- _ => destruct Hg as [?|?]; [by left|right; by boolp] end.
Qed.

Lemma set_workspace_policy_governed now random random' random'' w a policy db :
  governed w a (fun role => role_permits role ApprovePolicies) db
    (set_workspace_model_policy now random random' random'' w a policy db).2.
Proof.
  unfold set_workspace_model_policy, insert_policy_version. apply governed_atomically. intros x db' Ht. tx_inv Ht.
  right. split; [by eapply with_entitled|].
  match goal with Hi : install_policy _ _ _ _ _ _ _ _ _ _ = Ok ?r |- _ =>
    destruct r as [d db1]; apply install_outside in Hi; cbn in Hi; injection Hi as Hd Hsc _ _ end.
  eapply audited_once; cbn; rewrite ?Hd, ?Hsc; reflexivity.
Qed.

Lemma create_webhook_governed key now random w a url types db :
  governed w a (fun role => bool_decide (role = Owner)) db
    (create_workspace_webhook_destination hmac_sha256 key now random w a url types db).2.
Proof.
  unfold create_workspace_webhook_destination, insert_destination. apply governed_atomically. intros x db' Ht. tx_inv Ht.
  right. split; [by eapply with_entitled|by eapply audited_once].
Qed.

Lemma deactivate_webhook_governed now w a d db :
  governed w a (fun role => bool_decide (role = Owner)) db
    (deactivate_workspace_webhook_destination now w a d db).2.
Proof.
  unfold deactivate_workspace_webhook_destination. apply governed_atomically. intros x db' Ht.
  destruct (authorized_with w a _ db) as [[k role]|] eqn:Ew; [|left; by simplify_eq].
  destruct (deactivate_in _ _ _ _) as [db1|] eqn:Ed; [|left; by simplify_eq]. injection Ht as _ <-. right.
  split; [by eapply with_entitled|].
  unfold deactivate_in in Ed. apply bind_Some in Ed as (r & _ & Ed). case_match; [|done]. injection Ed as <-.
  by eapply audited_once.
Qed.

Lemma revoke_invitation_governed now w i a db :
  governed w a (fun role => bool_decide (role = Owner)) db (revoke_workspace_invitation_as_owner now w i a db).2.
Proof. governed. Qed.

Lemma invite_governed now random random' w a l role e db :
  governed w a (fun role => bool_decide (role = Owner)) db
    (create_workspace_invitation_as_owner now random random' w a l role e db).2.
Proof. governed. Qed.

Lemma revoke_invitation_changes now w i a db db' :
  revoke_workspace_invitation_as_owner now w i a db = (Ok true, db') ->
  entitled w a (fun role => bool_decide (role = Owner)) db /\ audited w a db db'.
Proof.
  unfold revoke_workspace_invitation_as_owner. rewrite atomically_ok. intros Ht. tx_inv Ht.
  split; [by eapply owner_entitled|by eapply audited_once].
Qed.

Lemma resend_governed now random random' w i a e db :
  governed w a (fun role => bool_decide (role = Owner)) db
    (resend_workspace_invitation_as_owner now random random' w i a e db).2.
Proof.
  unfold resend_workspace_invitation_as_owner, list_workspace_invitations_as_owner, reading.
  destruct (validate_workspace_invitation_expiry now e); [|by left].
  destruct (authorized_workspace_owner w a db); cbn beta iota; [|by left].
  destruct (List.find _ _) as [iv|]; [|by left].
  pose proof (revoke_invitation_governed now w i a db) as Hg.
  destruct (revoke_workspace_invitation_as_owner _ _ _ _ _) as [[[|]|] db1] eqn:Er; cbn [snd] in *; [|done..].
  apply revoke_invitation_changes in Er as [He Ha].
  pose proof (invite_governed now random random' w a (iv_recipient_label iv) (iv_role iv) e db1) as Hg'.
  destruct (create_workspace_invitation_as_owner _ _ _ _ _ _ _ _ _) as [[|] db2]; cbn [snd] in *;
    right; (split; [done|]); destruct Hg' as [->|[_ ?]]; eauto using audited_trans.
Qed.

Lemma exec_governed (r : Request) (db : Db) w a granted :
  customer r = Some (w, a, granted) -> governed w a granted db (exec hmac_sha256 r db).
Proof.
  destruct r; try done; intros [= <- <- <-]; cbn [exec]; try (governed; fail);
    eauto using revoke_account_governed, set_workspace_policy_governed, create_webhook_governed,
      deactivate_webhook_governed, resend_governed.
Qed.

(** C18. A customer request (membership changes, invitations, directory assignments, group
    mappings, webhooks, model policy, retention, quotas, limits and service accounts) either
    leaves the whole database as it was, or was made by an active member of the
    workspace, in an active tenant and organization, whose role the request requires, and
    every entry it appended to the audit logs, at least one, names that workspace and
    that principal. *)
Theorem customer_changes_governed (r : Request) (db : Db) (w a : string) (granted : WorkspaceRole -> bool) :
  customer r = Some (w, a, granted) -> exec hmac_sha256 r db <> db ->
  entitled w a granted db /\ audited w a db (exec hmac_sha256 r db).
Proof. intros Hc Hne. by destruct (exec_governed r db w a granted Hc). Qed.

(** Requests that can take the last owner away: the operator's membership tool and tenant
    deletion, the directory's user updates, and assigning a directory user a lower role. *)
Definition unseats (r : Request) : bool :=
  match r with
  | RSetMembership _ _ _ role | RAssignScimUser _ _ _ _ role => negb (bool_decide (role = Owner))
  | RUpdateScimUser _ _ _ _ | RDeleteTenant _ => true
  | _ => false
  end.

Lemma view_members db db' : view db' = view db -> memberships db' = memberships db.
Proof. by intros [= _ _ ? _]. Qed.

Lemma owned_same w (db db' : Db) : memberships db' = memberships db -> owned w db -> owned w db'.
Proof. intros Hm. apply owned_mono. rewrite Hm. by eauto. Qed.

Lemma update_membership_owned now w a p role active w' db :
  wf db -> owned w' db -> owned w' (update_workspace_membership_as_owner now w a p role active db).2.
Proof.
  intros Hwf Ho. committed Ho. unfold owned; cbn.
  destruct (decide (w' = w)) as [->|Hw].
  - destruct (decide (mb_role w0 = Owner /\ mb_active w0 = true /\ ~ (active = true /\ role = Owner)))
      as [(Hr & Ha & Hdem)|Hno].
    + assert (Hc : (1 < owner_count w db)%nat).
      { apply Nat.nle_gt. intros Hle. apply Nat.leb_le in Hle. rewrite Hle, Hr, Ha in G0. cbn in G0.
        destruct active; cbn in G0; [|done]. apply Hdem. split; [done|]. by destruct role. }
      apply (other_row _ _ (w, p)) in Hc as ([w' q] & m & Hne & Hm & Hw & Hact & Hown).
      destruct (wf_member_key _ Hwf _ _ _ Hm) as [Hw' _]. assert (w' = w) as -> by congruence.
      exists q, m. by rewrite lookup_insert_ne by congruence.
    + destruct Ho as (q & m & Hm & Ha & Hr). destruct (decide (q = p)) as [->|Hq].
      * simplify_eq. eexists p, _. rewrite lookup_insert_eq. split; [done|]. cbn.
        destruct active, role; try done; exfalso; apply Hno; (split_and!; [done..|]); by intros [? ?].
      * exists q, m. by rewrite lookup_insert_ne by congruence.
  - destruct Ho as (q & m & Hm & Ha & Hr). exists q, m. by rewrite lookup_insert_ne by congruence.
Qed.

Lemma accept_owned now random i o w iss sub f w' db :
  wf db -> owned w' db -> owned w' (accept_workspace_invitation_federated now random i o w iss sub f db).2.
Proof.
  intros Hwf Ho. committed Ho; try done;
    match goal with Hp : invited_principal _ _ _ _ _ _ = _ |- _ =>
      apply invited_principal_wf in Hp as (_ & _ & _ & Emb & _); [|done] end.
  - by apply (owned_same _ db).
  - revert Ho. apply owned_mono. intros q m Hm Ha Hr. cbn. rewrite Emb. exists m.
    rewrite lookup_insert_ne; [done|]. intros [= -> ->].
    match goal with Hh : has _ _ = false |- _ => apply has_false in Hh; rewrite Emb in Hh; congruence end.
Qed.

Lemma exec_owned (r : Request) (w : string) (db : Db) :
  wf db -> unseats r = false -> owned w db -> owned w (exec hmac_sha256 r db).
Proof.
  intros Hwf Hu Ho. destruct (moves r) eqn:Hm; [|by apply (owned_same _ db); [apply view_members, exec_view|]].
  destruct r; try done; cbn [exec]; cbn in Hu; eauto using update_membership_owned, accept_owned.
  - committed Ho. done.
  - committed Ho. done.
  - apply negb_false_iff, bool_decide_eq_true in Hu. committed Ho. apply owned_upsert; [by left|done].
  - unfold create_scim_user. apply atomically_preserves; [done|]. intros x db' Ht.
    unfold append_scim_audit in Ht. tx_inv Ht. done.
  - apply negb_false_iff, bool_decide_eq_true in Hu. committed Ho. apply owned_upsert; [by left|done].
Qed.

(** C19. From any reachable database a workspace that has an active owner keeps one, whatever
    sequence of requests follows, except for those of the platform operator (setting a
    membership to a lower role, deleting the tenant), of the identity provider's directory (user updates)
    and the assignment of a directory user to a lower role. In particular no sequence of
    owner-made membership updates removes, suspends or demotes the last owner. *)
Theorem last_owner_kept (w : string) (db : Db) (trace : list Request) :
  reachable hmac_sha256 db -> (0 < owner_count w db)%nat -> Forall (fun r => unseats r = false) trace ->
  (0 < owner_count w (run hmac_sha256 trace db))%nat.
Proof.
  intros Hdb Ho Htr. apply reachable_wf_lemma in Hdb. apply owned_count in Ho; [|done].
  enough (wf (run hmac_sha256 trace db) /\ owned w (run hmac_sha256 trace db)) as [? ?] by by apply owned_count.
  revert db Hdb Ho. induction Htr as [|r trace Hr _ IH]; intros db Hwf Ho; [done|].
  cbn. apply IH; [by apply exec_wf|by apply exec_owned].
Qed.
End guards.

(** ** The guarantees at work *)

#[local] Existing Instances scene_sha scene_url scene_doc scene_model scene_types scene_value.

Definition deactivation : Request := RUpdateScimUser 200 scim user (mkUserUpdate None None (Some false)).

Lemma deactivated_reachable : reachable scene_hmac (run scene_hmac (setup ++ [deactivation])%list (open_empty 100)).
Proof. by exists 100, (setup ++ [deactivation])%list. Qed.

Lemma user_deactivated : deprovisioned user (run scene_hmac (setup ++ [deactivation])%list (open_empty 100)).
Proof. eexists. split; vm_compute; reflexivity. Qed.

Lemma deprovisioned_stays_out_witness :
  locked_out user (run scene_hmac
    [RAssignScimUser 300 workspace owner user Owner; RUpdateMembership 300 workspace owner user Owner true;
     RIssueSession 300 "d" (mkAccess org workspace user Owner) Oidc 4000]
    (run scene_hmac (setup ++ [deactivation])%list (open_empty 100))).
Proof.
  apply deprovisioned_stays_out; [apply deactivated_reachable|apply user_deactivated|].
  repeat constructor.
Defined.

Lemma session_within_permissions_witness :
  (workspace_permits user workspace ManageOwnServiceTokens deployed).1 = Ok true.
Proof.
  apply (session_within_permissions scene_hmac deployed (mkAccess org workspace user Developer));
    [apply deployed_reachable| |reflexivity].
  left. exists 200, session, (mkBrowserSession (mkAccess org workspace user Developer) 4000).
  split; [apply deployed_session|reflexivity].
Defined.

Definition invite : Request := RInvite 200 "i" "j" workspace owner "Ann" Analyst 5000.

Lemma invite_changes : exec scene_hmac invite deployed <> deployed.
Proof.
  intros Heq. apply (f_equal (fun db : Db => size (invitations db))) in Heq. vm_compute in Heq. discriminate Heq.
Qed.

Lemma customer_changes_governed_witness :
  entitled workspace owner (fun role => bool_decide (role = Owner)) deployed
  /\ audited workspace owner deployed (exec scene_hmac invite deployed).
Proof. apply (customer_changes_governed scene_hmac); [reflexivity|apply invite_changes]. Defined.

Lemma one_owner : owner_count workspace deployed = 1%nat.
Proof. vm_compute. reflexivity. Qed.

Lemma last_owner_kept_witness :
  (0 < owner_count workspace (run scene_hmac
     [RUpdateMembership 300 workspace owner owner Owner false; RUpdateMembership 300 workspace owner owner Developer true]
     deployed))%nat.
Proof.
  apply last_owner_kept; [apply deployed_reachable|rewrite one_owner; lia|]. repeat constructor.
Defined.

(** The assignment of directory users has no such guard: the last owner of a workspace, a
    directory user, can be assigned a lower role, by itself. *)
Definition handover : list Request :=
  [RAssignScimUser 300 workspace owner user Owner; RUpdateMembership 300 workspace user owner Developer true].

Lemma assignment_unseats_last_owner :
  owner_count workspace (run scene_hmac handover deployed) = 1%nat /\
  owner_count workspace (run scene_hmac (handover ++ [RAssignScimUser 400 workspace user user Developer])%list deployed) = 0%nat.
Proof. split; vm_compute; reflexivity. Qed.
