(* ===== verification/TenantOnce.v ===== *)
(** Credentials that work once: an invitation is accepted at most once, a login state is
    consumed at most once and a rotated browser session is dead, whatever requests follow. *)
From S2P Require Import Prelude BTree Net Json Spend TenantDb TenantDirectory TenantScim TenantSession.
From S2P Require Import TenantPolicy TenantUsage TenantAccess TenantScene TenantGuards.
From Stdlib Require Import String Ascii.
Local Open Scope string_scope.
Local Open Scope Z_scope.

#[local] Abbreviation length := List.length.

(** ** Which tables a request touches *)

Section once.
Context `{Sha256, UrlParser, JsonCodec TenantPolicyDocument, JsonCodec TenantModelPolicy,
          JsonCodec (list string), JsonCodec Value}.
Variable hmac_sha256 : string -> string -> string.

Lemma deploy_outside now random random' t v actor act db :
  outside_policy (deploy_policy_version now random random' t v actor act db).2 = outside_policy db.
Proof. keeps outside_policy. by eapply install_outside. Qed.

Lemma create_version_outside now random t actor document db :
  outside_policy (create_policy_version now random t actor document db).2 = outside_policy db.
Proof. unfold create_policy_version, insert_policy_version. apply (atomically_keeps outside_policy). intros ? ? Ht. by tx_inv Ht. Qed.

Lemma approve_outside now t v actor db :
  outside_policy (approve_policy_version now t v actor db).2 = outside_policy db.
Proof.
  unfold approve_policy_version. case_match; [|done].
  assert (outside_policy (atomically (approve_version_tx now t v actor) db).2 = outside_policy db) as Hv
    by (unfold approve_version_tx; apply (atomically_keeps outside_policy); intros ? ? Ht; by tx_inv Ht).
  destruct (atomically _ _) as [[|] db']; cbn [snd] in *; [|done].
  unfold policy_version, reading. repeat case_match; first [exact Hv | simplify_eq].
Qed.

Lemma set_model_policy_outside now random random' random'' t policy db :
  outside_policy (set_model_policy now random random' random'' t policy db).2 = outside_policy db.
Proof.
  unfold set_model_policy.
  pose proof (create_version_outside now random'' t "internal_control_plane" (policy_document_new policy) db) as H1'.
  destruct (create_policy_version _ _ _ _ _ _) as [[v|] db1]; cbn [snd] in *; [|done].
  pose proof (approve_outside now t (tv_id v) "internal_control_plane" db1) as H2'.
  destruct (approve_policy_version _ _ _ _ _) as [[v'|] db2]; cbn [snd] in *; [|congruence].
  pose proof (deploy_outside now random random' t (tv_id v) "internal_control_plane" Activate db2) as H3'.
  destruct (deploy_policy_version _ _ _ _ _ _ _ _) as [[d|] db3]; cbn [snd] in *; congruence.
Qed.

(** What customer requests about policies leave alone. *)
Lemma set_workspace_model_policy_parts now random random' random'' w p policy db :
  let db' := (set_workspace_model_policy now random random' random'' w p policy db).2 in
  invitations db' = invitations db /\ db_fed db' = db_fed db /\ db_scim db' = db_scim db /\ db_usage db' = db_usage db /\
  identities db' = identities db.
Proof.
  cbn zeta. unfold set_workspace_model_policy, insert_policy_version.
  match goal with |- context [atomically ?f db] =>
    apply (atomically_preserves f (fun db' => invitations db' = invitations db /\ db_fed db' = db_fed db /\
      db_scim db' = db_scim db /\ db_usage db' = db_usage db /\ identities db' = identities db)) end; [done|].
  intros x db' Ht. tx_inv Ht.
  match goal with Hi : install_policy _ _ _ _ _ _ _ _ _ _ = Ok ?r |- _ =>
    destruct r as [d db1]; apply install_outside in Hi; cbn in Hi; injection Hi as Hd Hsc Hf Hu end.
  cbn. by rewrite Hd, Hsc, Hf, Hu.
Qed.

Lemma deactivate_outside now t d db db' : deactivate_in now t d db = Some db' -> outside_policy db' = outside_policy db.
Proof.
  unfold deactivate_in. destruct (webhook_destinations db !! d); cbn; [|done]. case_match; [|done].
  by intros [= <-].
Qed.

(** Requests about invitations. *)
Definition handles_invitations (r : Request) : bool :=
  match r with
  | RInvite _ _ _ _ _ _ _ _ | RRevokeInvitation _ _ _ _ | RResendInvitation _ _ _ _ _ _ _
  | RAcceptInvitation _ _ _ _ _ _ _ _ | RDeleteTenant _ => true
  | _ => false
  end.

(** Requests about logins and sessions. *)
Definition handles_logins (r : Request) : bool :=
  match r with
  | RReserveOidcState _ _ _ _ | RConsumeOidcState _ _ _ | RReserveSamlState _ _ _ _ | RConsumeSamlState _ _
  | RIssueSession _ _ _ _ _ | RRotateSession _ _ _ _ | RRevokeSession _ _ | RDeleteTenant _
  | RSetOidcConnection _ _ _ _ _ _ | RDeleteOidcConnection _ | RSetSamlConnection _ _ _ _ _ _
  | RDeleteSamlConnection _ => true
  | _ => false
  end.

(** The table [g] after a request: the requests about policies leave everything outside the
    policy tables, the others are single transactions on tables [g] is not one of. *)
Ltac by_parts E :=
  let E1 := fresh in let E2 := fresh in let E3 := fresh in let E4 := fresh in
  injection E as E1 E2 E3 E4; rewrite ?E1, ?E2, ?E3, ?E4; reflexivity.

Ltac exec_frame g :=
  cbn [exec];
  try (apply set_workspace_model_policy_parts);
  try (let Ho := fresh in
       match goal with
       | |- context [(deploy_policy_version ?a ?b ?c ?d ?e ?f ?h ?db).2] => pose proof (deploy_outside a b c d e f h db) as Ho
       | |- context [(create_policy_version ?a ?b ?c ?d ?e ?db).2] => pose proof (create_version_outside a b c d e db) as Ho
       | |- context [(approve_policy_version ?a ?b ?c ?d ?db).2] => pose proof (approve_outside a b c d db) as Ho
       | |- context [(set_model_policy ?a ?b ?c ?d ?e ?f ?db).2] => pose proof (set_model_policy_outside a b c d e f db) as Ho
       end; by_parts Ho);
  try (keeps g; fail);
  try (unfold reserve_oidc_authorization_state, reserve_saml_authorization_state, issue_oidc_browser_session;
       repeat case_match; reflexivity);
  try (keeps g;
       first [ match goal with Hd : deactivate_in _ _ _ _ = Some _ |- _ =>
                 apply deactivate_outside in Hd; cbn; by_parts Hd end
             | repeat case_match; reflexivity ]).

Lemma exec_keeps_invitations (r : Request) (db : Db) :
  handles_invitations r = false -> invitations (exec hmac_sha256 r db) = invitations db.
Proof. destruct r; try done; intros _; exec_frame (fun db : Db => invitations db). Qed.

(** Resending is revoking and inviting again. *)
Lemma resend_keeps {T} (g : Db -> T) now random random' w i a e db :
  (forall db, g (revoke_workspace_invitation_as_owner now w i a db).2 = g db) ->
  (forall l role db, g (create_workspace_invitation_as_owner now random random' w a l role e db).2 = g db) ->
  g (resend_workspace_invitation_as_owner now random random' w i a e db).2 = g db.
Proof.
  intros Hr Hi. unfold resend_workspace_invitation_as_owner, list_workspace_invitations_as_owner, reading.
  destruct (validate_workspace_invitation_expiry now e); [|done].
  destruct (authorized_workspace_owner w a db); cbn beta iota; [|done].
  destruct (List.find _ _) as [iv|]; [|done]. specialize (Hr db).
  destruct (revoke_workspace_invitation_as_owner _ _ _ _ _) as [[[|]|] db1]; cbn [snd] in *; [|done..].
  specialize (Hi (iv_recipient_label iv) (iv_role iv) db1).
  destruct (create_workspace_invitation_as_owner _ _ _ _ _ _ _ _ _) as [[|] db2]; cbn [snd] in *; congruence.
Qed.

Lemma resend_keeps_fed now random random' w i a e db :
  db_fed (resend_workspace_invitation_as_owner now random random' w i a e db).2 = db_fed db.
Proof. apply (resend_keeps db_fed); intros; keeps db_fed. Qed.

Lemma invited_keeps now random iss sub iv db p db' :
  invited_principal now random iss sub iv db = Ok (Some (p, db')) ->
  db_fed db' = db_fed db /\ db_usage db' = db_usage db /\ invitations db' = invitations db /\
  memberships db' = memberships db /\ db_pol db' = db_pol db.
Proof.
  unfold invited_principal. destruct (_ ≫= _) as [[q act]|].
  - case_match; [|done]. by intros [= <- <-].
  - cbn zeta. intros Ht. by tx_inv Ht.
Qed.

(** The principal is the one the identity is bound to afterwards. *)
Lemma invited_bound now random iss sub iv db p db' :
  invited_principal now random iss sub iv db = Ok (Some (p, db')) ->
  ei_principal_id <$> identities db' !! (iss, sub) = Some p.
Proof.
  unfold invited_principal. destruct (_ ≫= _) as [[q act]|] eqn:E.
  - case_match; [|done]. intros [= <- <-]. destruct (identities db !! (iss, sub)) as [i|]; [|done]. cbn in E |- *.
    destruct (principals db !! ei_principal_id i); [|done]. by injection E as <- _.
  - cbn zeta. intros Ht. tx_inv Ht. cbn. by rewrite lookup_insert_eq.
Qed.

Lemma accept_keeps_fed now random i o w iss sub f db :
  db_fed (accept_workspace_invitation_federated now random i o w iss sub f db).2 = db_fed db.
Proof.
  keeps db_fed; match goal with Hp : invited_principal _ _ _ _ _ _ = _ |- _ => 
    apply invited_keeps in Hp as (Hp & _); exact Hp end.
Qed.

Lemma exec_keeps_logins (r : Request) (db : Db) :
  handles_logins r = false -> db_fed (exec hmac_sha256 r db) = db_fed db.
Proof. destruct r; try done; intros _; exec_frame db_fed;
  [apply resend_keeps_fed|apply accept_keeps_fed]. Qed.

(** Statements are imported by one operation. *)
Definition imports (r : Request) : bool := match r with RImportReconciliation _ _ _ _ _ => true | _ => false end.

Lemma exec_keeps_runs (r : Request) (db : Db) :
  imports r = false -> reconciliation_runs (exec hmac_sha256 r db) = reconciliation_runs db.
Proof. destruct r; try done; intros _; exec_frame (fun db : Db => reconciliation_runs db).
- apply (resend_keeps (fun db : Db => reconciliation_runs db)); intros; keeps (fun db : Db => reconciliation_runs db).
- keeps (fun db : Db => reconciliation_runs db); match goal with Hp : invited_principal _ _ _ _ _ _ = _ |- _ =>
    apply invited_keeps in Hp as (_ & Hp & _); cbn; by rewrite Hp end.
- by destruct (set_workspace_model_policy_parts now random random' random'' workspace_id principal_id policy db)
    as (_ & _ & _ & -> & _).
Qed.

(** An external identity, once bound to a principal, stays bound to it. *)
Definition binds (r : Request) : bool :=
  match r with RLinkIdentity _ _ _ _ | RAcceptInvitation _ _ _ _ _ _ _ _ => true | _ => false end.

Lemma exec_keeps_identities (r : Request) (db : Db) :
  binds r = false -> identities (exec hmac_sha256 r db) = identities db.
Proof.
destruct r; try done; intros _; exec_frame (fun db : Db => identities db).
apply (resend_keeps (fun db : Db => identities db)); intros; keeps (fun db : Db => identities db).
Qed.

(** The principal an invitation brings in is the one the identity is bound to. *)
Lemma invited_identity now random iss sub iv (db : Db) p (db' : Db) :
  invited_principal now random iss sub iv db = Ok (Some (p, db')) ->
  (forall key i, identities db !! key = Some i -> identities db' !! key = Some i) /\
  ei_principal_id <$> identities db' !! (iss, sub) = Some p.
Proof.
  unfold invited_principal. destruct (identities db !! (iss, sub)) as [i|] eqn:Hi; cbn.
  - destruct (principals db !! ei_principal_id i) as [q|]; cbn.
    + case_match; [|done]. intros [= <- <-]. by rewrite Hi.
    + intros Ht. tx_inv Ht. unfold identity_conflict in *. boolp.
      match goal with Hf : has (iss, sub) _ = false |- _ => apply has_false in Hf; cbn in Hf; congruence end.
  - intros Ht. tx_inv Ht. cbn. rewrite lookup_insert_eq. split; [|done].
    intros key i Hk. rewrite lookup_insert_ne; [done|]. intros <-. congruence.
Qed.

Lemma exec_identity (r : Request) (db : Db) key i :
  identities db !! key = Some i -> identities (exec hmac_sha256 r db) !! key = Some i.
Proof.
  intros Hi. destruct (binds r) eqn:Hb; [|by rewrite exec_keeps_identities].
  destruct r; try done; cbn [exec].
  - unfold link_workspace_external_identity. match goal with |- context [atomically ?f db] =>
      apply (atomically_preserves f (fun db' => identities db' !! key = Some i)) end; [done|].
    intros x db' Ht. tx_inv Ht. cbn. rewrite lookup_insert_ne; [done|]. intros <-.
    match goal with Hc : identity_conflict _ _ _ _ = false |- _ =>
      unfold identity_conflict in Hc; apply orb_false_iff in Hc as [Hc _]; apply has_false in Hc; congruence end.
  - unfold accept_workspace_invitation_federated. match goal with |- context [atomically ?f db] =>
      apply (atomically_preserves f (fun db' => identities db' !! key = Some i)) end; [done|].
    intros x db' Ht. tx_inv Ht; try done;
      match goal with Hp : invited_principal _ _ _ _ _ _ = _ |- _ => apply invited_identity in Hp as [Hp _]; by apply Hp end.
Qed.

(** ** Invitations *)

(** Nobody can take the invitation. *)
Definition spent_invitation (i : string) (db : Db) : Prop :=
  match invitations db !! i with Some iv => iv_active iv = false | None => True end.

(** A later invitation that happens to draw the same identifier. *)
Definition redraws_invitation (i : string) (r : Request) : bool :=
  match r with
  | RInvite _ _ random _ _ _ _ _ | RResendInvitation _ _ random _ _ _ _ =>
      bool_decide (random_id "invitation" random = i)
  | _ => false
  end.

Lemma spent_same i (db db' : Db) : invitations db' = invitations db -> spent_invitation i db -> spent_invitation i db'.
Proof. unfold spent_invitation. by intros ->. Qed.

Lemma invite_spent i now random random' w a l role e db :
  random_id "invitation" random' <> i -> spent_invitation i db ->
  spent_invitation i (create_workspace_invitation_as_owner now random random' w a l role e db).2.
Proof.
  intros Hne Hs. committed Hs. unfold spent_invitation in *. cbn. by rewrite lookup_insert_ne.
Qed.

Lemma revoke_spent i now w j a db :
  spent_invitation i db -> spent_invitation i (revoke_workspace_invitation_as_owner now w j a db).2.
Proof.
  intros Hs. committed Hs; try done. unfold spent_invitation in *. cbn.
  destruct (decide (j = i)) as [->|Hne]; [by rewrite lookup_insert_eq|by rewrite lookup_insert_ne].
Qed.

Lemma exec_spent (i : string) (r : Request) (db : Db) :
  redraws_invitation i r = false -> spent_invitation i db -> spent_invitation i (exec hmac_sha256 r db).
Proof.
  intros Hr Hs. destruct (handles_invitations r) eqn:Hh;
    [|by apply (spent_same _ db); [apply exec_keeps_invitations|]].
  destruct r; try done; cbn [exec]; cbn in Hr; try apply bool_decide_eq_false in Hr.
  - unfold delete_tenant. apply atomically_preserves; [done|]. intros x db' Ht.
    destruct (has tenant_id (tenants db)); [|by simplify_eq]. destruct (tenant_restricted tenant_id db); [done|].
    cbn zeta in Ht. injection Ht as _ <-. unfold spent_invitation in *.
    match goal with |- match ?m !! i with _ => _ end => change m with (keep (fun iv => negb
      match workspaces db !! iv_workspace_id iv with
      | Some row => bool_decide (wk_tenant_id row = tenant_id) | None => false end) (invitations db)) end.
    destruct (keep _ _ !! i) as [iv|] eqn:Hk; [|done]. apply keep_lookup in Hk as [Hk _]. by rewrite Hk in Hs.
  - by apply invite_spent.
  - by apply revoke_spent.
  - unfold resend_workspace_invitation_as_owner, list_workspace_invitations_as_owner, reading.
    destruct (validate_workspace_invitation_expiry now expires); [|done].
    destruct (authorized_workspace_owner workspace_id actor db); cbn beta iota; [|done].
    destruct (List.find _ _) as [iv|]; [|done].
    pose proof (revoke_spent i now workspace_id invitation_id actor db Hs) as Hs1.
    destruct (revoke_workspace_invitation_as_owner _ _ _ _ _) as [[[|]|] db1]; cbn [snd] in *; [|done..].
    pose proof (invite_spent i now random random' workspace_id actor (iv_recipient_label iv) (iv_role iv) expires db1 Hr Hs1) as Hs2.
    by destruct (create_workspace_invitation_as_owner _ _ _ _ _ _ _ _ _) as [[|] db2].
  - committed Hs; try done;
      match goal with Hp : invited_principal _ _ _ _ _ _ = _ |- _ => apply invited_keeps in Hp as (_ & _ & Hp & _) end;
      [by apply (spent_same _ db)|].
    unfold spent_invitation in *. cbn.
    match goal with Hp : _ = _.(db_dir).(invitations) |- _ => rewrite Hp end.
    destruct (decide (invitation_id = i)) as [->|Hne]; [by rewrite lookup_insert_eq|by rewrite lookup_insert_ne].
Qed.

(** Whatever a step of a trace keeps, the trace keeps. *)
Lemma run_keeps (P : Db -> Prop) (ok : Request -> bool) :
  (forall r db, ok r = false -> P db -> P (exec hmac_sha256 r db)) ->
  forall trace db, Forall (fun r => ok r = false) trace -> P db -> P (run hmac_sha256 trace db).
Proof. intros Hs trace db Htr. revert db. induction Htr as [|r trace Hr _ IH]; intros db Hp; [done|]. apply IH. by apply Hs. Qed.

(** What an acceptance found and left. *)
Lemma accept_spec now random i o w iss sub f db a db' :
  accept_workspace_invitation_federated now random i o w iss sub f db = (Ok (Some a), db') ->
  exists iv, invitations db !! i = Some iv /\ iv_active iv = true /\ iv_revoked_at_unix iv = None /\
    now <= iv_expires_at_unix iv /\ iv_organization_id iv = o /\ iv_workspace_id iv = w /\
    connection_issuer f o db = Some iss /\ connection_active f o db = true /\
    a = mkAccess o w (va_principal_id a) (iv_role iv) /\
    ei_principal_id <$> identities db' !! (iss, sub) = Some (va_principal_id a) /\
    memberships db !! (w, va_principal_id a) = None /\
    memberships db' !! (w, va_principal_id a)
      = Some (mkMembership w (va_principal_id a) (iv_role iv) true now now) /\
    spent_invitation i db'.
Proof.
  unfold accept_workspace_invitation_federated. rewrite atomically_ok. intros Ht. tx_inv Ht. boolp.
  apply validated_component in R as ->. apply validated_component in R0 as ->.
  pose proof (invited_bound _ _ _ _ _ _ _ _ R1) as Hbound. apply invited_keeps in R1 as (_ & _ & Hiv & Hmb & _).
  match goal with Ho : invitation_open _ _ _ = true |- _ => apply invitation_open_true in Ho as (? & ? & ? & ? & _) end.
  match goal with Hh : has _ _ = false |- _ => apply has_false in Hh; rewrite Hmb in Hh end.
  eexists. split_and!; try done.
  - cbn. by rewrite lookup_insert_eq.
  - unfold spent_invitation. cbn. by rewrite lookup_insert_eq.
Qed.

(** C27. An invitation is good for one acceptance: the invitation is to the organization and the workspace
    that are joined, it was open, not revoked and unexpired; the verified identity came from the
    organization's own active federation; the principal is the one that identity is
    bound to, had no membership in the workspace and gets exactly the invited role there;
    and after that, whatever requests follow (as long as no later invitation draws the
    same random identifier), no acceptance of the invitation succeeds again. *)
Theorem invitation_single_use now random i o w iss sub f (db : Db) a db' (trace : list Request) :
  accept_workspace_invitation_federated now random i o w iss sub f db = (Ok (Some a), db') ->
  Forall (fun r => redraws_invitation i r = false) trace ->
  (exists iv, invitations db !! i = Some iv /\ iv_organization_id iv = o /\ iv_workspace_id iv = w /\
     iv_active iv = true /\ iv_revoked_at_unix iv = None /\ now <= iv_expires_at_unix iv /\
     connection_issuer f o db = Some iss /\ connection_active f o db = true /\
     va_organization_id a = o /\ va_workspace_id a = w /\ va_role a = iv_role iv /\
     ei_principal_id <$> identities db' !! (iss, sub) = Some (va_principal_id a) /\
     memberships db !! (w, va_principal_id a) = None /\
     memberships db' !! (w, va_principal_id a)
       = Some (mkMembership w (va_principal_id a) (iv_role iv) true now now)) /\
  forall now' random' o' w' iss' sub' f' a',
    (accept_workspace_invitation_federated now' random' i o' w' iss' sub' f' (run hmac_sha256 trace db')).1
    <> Ok (Some a').
Proof.
  intros Ha Htr. apply accept_spec in Ha as (iv & Hi & Hact & Hrev & Hexp & Ho & Hw & Hiss & Hconn & Ea & Hbound & Hno & Hm & Hs).
  split; [exists iv; rewrite Ea; by split_and!|].
  intros now' random' o' w' iss' sub' f' a' Ha'. apply (run_keeps (spent_invitation i) _ (exec_spent i) trace db' Htr) in Hs.
  destruct (accept_workspace_invitation_federated _ _ _ _ _ _ _ _ _) as [r db''] eqn:E in Ha'. cbn in Ha'. subst r.
  apply accept_spec in E as (iv' & Hi' & Hact' & _). unfold spent_invitation in Hs. rewrite Hi' in Hs. congruence.
Qed.

(** ** Login states *)

(** The pruned table holds rows of the table only. *)
Lemma prune_lookup {V} (key : V -> string) expires stale (t : gmap string V) (h : string) (v : V) :
  prune key expires stale t !! h = Some v -> t !! h = Some v.
Proof.
  unfold prune. generalize (take 100 (order_by expires (filter (fun v => stale v = true) (rows t)))) as l.
  induction l as [|x l IH]; cbn; [done|]. intros [_ Hl]%lookup_delete_Some. by apply IH.
Qed.

(** The state with this hash cannot be consumed. *)
Definition spent_oidc (h : string) (db : Db) : Prop :=
  forall s, oidc_states db !! h = Some s -> os_consumed_at_unix s <> None.
Definition spent_saml (h : string) (db : Db) : Prop :=
  forall s, saml_states db !! h = Some s -> ss_consumed_at_unix s <> None.

(** A request that reserves a state with this hash again. *)
Definition reserves_oidc (h : string) (r : Request) : bool :=
  match r with RReserveOidcState _ s _ _ => bool_decide (oidc_authorization_state_hash s = Ok h) | _ => false end.
Definition reserves_saml (h : string) (r : Request) : bool :=
  match r with RReserveSamlState _ s _ _ => bool_decide (oidc_authorization_state_hash s = Ok h) | _ => false end.

Lemma exec_spent_oidc (h : string) (r : Request) (db : Db) :
  reserves_oidc h r = false -> spent_oidc h db -> spent_oidc h (exec hmac_sha256 r db).
Proof.
  intros Hr Hs. destruct (handles_logins r) eqn:Hh;
    [|intros s; rewrite exec_keeps_logins by done; apply Hs].
  destruct r; try done; cbn [exec]; cbn in Hr; try apply bool_decide_eq_false in Hr;
    try (committed Hs; done).
  all: try (unfold reserve_saml_authorization_state, issue_oidc_browser_session; repeat case_match; exact Hs).
  - unfold reserve_oidc_authorization_state. case_match; [|done]. case_match eqn:Eh; [|done].
    assert (Hp : spent_oidc h (upd_oidc_states (prune os_state_hash os_expires_at_unix
                   (fun s => os_expires_at_unix s <? now)) db)) by (intros s Hk%prune_lookup; by apply Hs).
    cbn zeta. repeat case_match; try exact Hp; cbn [snd]; intros s; cbn;
      (rewrite lookup_insert_ne by congruence); apply Hp.
  - committed Hs; try done. intros s. cbn. destruct (decide (a = h)) as [->|Hne].
    + rewrite lookup_insert_eq. by intros [= <-].
    + rewrite lookup_insert_ne by done. apply Hs.
Qed.

Lemma exec_spent_saml (h : string) (r : Request) (db : Db) :
  reserves_saml h r = false -> spent_saml h db -> spent_saml h (exec hmac_sha256 r db).
Proof.
  intros Hr Hs. destruct (handles_logins r) eqn:Hh;
    [|intros s; rewrite exec_keeps_logins by done; apply Hs].
  destruct r; try done; cbn [exec]; cbn in Hr; try apply bool_decide_eq_false in Hr;
    try (committed Hs; done).
  all: try (unfold reserve_oidc_authorization_state, issue_oidc_browser_session; repeat case_match; exact Hs).
  - unfold delete_tenant. apply atomically_preserves; [done|]. intros x db' Ht.
    destruct (has tenant_id (tenants db)); [|by simplify_eq]. destruct (tenant_restricted tenant_id db); [done|].
    cbn zeta in Ht. injection Ht as _ <-. intros s.
    match goal with |- ?m !! h = _ -> _ => destruct (m !! h) as [s'|] eqn:Hk; [|done] end. intros [= <-].
    apply (keep_lookup _ (saml_states db)) in Hk as [Hk _]. by apply Hs.
  - unfold reserve_saml_authorization_state. case_match; [|done]. case_match eqn:Eh; [|done].
    assert (Hp : spent_saml h (upd_saml_states (prune ss_state_hash ss_expires_at_unix
                   (fun s => ss_expires_at_unix s <? now)) db)) by (intros s Hk%prune_lookup; by apply Hs).
    cbn zeta. repeat case_match; try exact Hp; cbn [snd]; intros s'; cbn;
      (rewrite lookup_insert_ne by congruence); apply Hp.
  - committed Hs; try done. intros s'. cbn. destruct (decide (a = h)) as [->|Hne].
    + rewrite lookup_insert_eq. by intros [= <-].
    + rewrite lookup_insert_ne by done. apply Hs.
Qed.

Lemma consume_oidc_spec now s o db db' :
  consume_oidc_authorization_state now s o db = (Ok true, db') ->
  exists h row, oidc_authorization_state_hash s = Ok h /\ oidc_states db !! h = Some row /\
    os_organization_id row = o /\ os_consumed_at_unix row = None /\ now <= os_expires_at_unix row /\ spent_oidc h db'.
Proof.
  unfold consume_oidc_authorization_state. rewrite atomically_ok. intros Ht. tx_inv Ht. boolp.
  eexists _, _. split_and!; try done. intros s'. cbn. rewrite lookup_insert_eq. by intros [= <-].
Qed.

Lemma consume_saml_spec now s db pending db' :
  consume_saml_authorization_state now s db = (Ok (Some pending), db') ->
  exists h row, oidc_authorization_state_hash s = Ok h /\ saml_states db !! h = Some row /\
    ss_pending row = pending /\ ss_consumed_at_unix row = None /\ now <= ss_expires_at_unix row /\ spent_saml h db'.
Proof.
  unfold consume_saml_authorization_state. rewrite atomically_ok. intros Ht. tx_inv Ht. boolp.
  eexists _, _. split_and!; try done. intros s'. cbn. rewrite lookup_insert_eq. by intros [= <-].
Qed.

(** A login that is under way is completed at most once. When the callback consumes the
    authorization state, of OIDC or of SAML, the state was reserved, unconsumed and
    unexpired, and an OIDC state was reserved for the same organization; afterwards,
    whatever requests follow and until a new login reserves a state with the same hash, no
    callback with that state succeeds. *)
Theorem login_state_single_use now (s o : string) (db db' : Db) (trace : list Request) :
  (consume_oidc_authorization_state now s o db = (Ok true, db') ->
   exists h row, oidc_authorization_state_hash s = Ok h /\ oidc_states db !! h = Some row /\
     os_organization_id row = o /\ os_consumed_at_unix row = None /\ now <= os_expires_at_unix row /\
     (Forall (fun r => reserves_oidc h r = false) trace -> forall now' o',
        (consume_oidc_authorization_state now' s o' (run hmac_sha256 trace db')).1 <> Ok true)) /\
  (forall pending, consume_saml_authorization_state now s db = (Ok (Some pending), db') ->
   exists h row, oidc_authorization_state_hash s = Ok h /\ saml_states db !! h = Some row /\
     ss_pending row = pending /\ ss_consumed_at_unix row = None /\ now <= ss_expires_at_unix row /\
     (Forall (fun r => reserves_saml h r = false) trace -> forall now' pending',
        (consume_saml_authorization_state now' s (run hmac_sha256 trace db')).1 <> Ok (Some pending'))).
Proof.
  split.
  - intros (h & row & Eh & Hrow & Ho & Hc & He & Hs)%consume_oidc_spec.
    exists h, row. split_and!; try done. intros Htr now' o' Hok.
    apply (run_keeps (spent_oidc h) _ (exec_spent_oidc h) trace db' Htr) in Hs.
    destruct (consume_oidc_authorization_state _ _ _ _) as [r db''] eqn:E in Hok. cbn in Hok. subst r.
    apply consume_oidc_spec in E as (h' & row' & Eh' & Hrow' & _ & Hc' & _). assert (h' = h) as -> by congruence. exact (Hs row' Hrow' Hc').
  - intros pending (h & row & Eh & Hrow & Ho & Hc & He & Hs)%consume_saml_spec.
    exists h, row. split_and!; try done. intros Htr now' p' Hok.
    apply (run_keeps (spent_saml h) _ (exec_spent_saml h) trace db' Htr) in Hs.
    destruct (consume_saml_authorization_state _ _ _) as [r db''] eqn:E in Hok. cbn in Hok. subst r.
    apply consume_saml_spec in E as (h' & row' & Eh' & Hrow' & _ & Hc' & _). assert (h' = h) as -> by congruence. exact (Hs row' Hrow' Hc').
Qed.

(** ** Browser sessions *)

(** No session with this hash is alive. *)
Definition dead_session (h : string) (db : Db) : Prop :=
  forall s, sessions db !! h = Some s -> bs_revoked_at_unix s <> None.

(** A later session that happens to draw a token with the same hash. *)
Definition redraws_session (h : string) (r : Request) : bool :=
  match r with
  | RIssueSession _ random _ _ _ | RRotateSession _ random _ _ =>
      bool_decide (oidc_browser_session_hash (generate_oidc_browser_session_token random) = Ok h)
  | _ => false
  end.

Lemma dead_insert h k s db : bs_revoked_at_unix s <> None -> dead_session h db -> dead_session h (upd_sessions <[k := s]> db).
Proof.
  intros Hr Hd s'. cbn. destruct (decide (k = h)) as [->|Hne].
  - rewrite lookup_insert_eq. by intros [= <-].
  - rewrite lookup_insert_ne by done. apply Hd.
Qed.

Lemma dead_other h k s db : k <> h -> dead_session h db -> dead_session h (upd_sessions <[k := s]> db).
Proof. intros Hne Hd s'. cbn. rewrite lookup_insert_ne by done. apply Hd. Qed.

Lemma exec_dead (h : string) (r : Request) (db : Db) :
  redraws_session h r = false -> dead_session h db -> dead_session h (exec hmac_sha256 r db).
Proof.
  intros Hr Hs. destruct (handles_logins r) eqn:Hh;
    [|intros s; rewrite exec_keeps_logins by done; apply Hs].
  destruct r; try done; cbn [exec]; cbn in Hr; try apply bool_decide_eq_false in Hr;
    try (committed Hs; done).
  all: try (unfold reserve_oidc_authorization_state, reserve_saml_authorization_state; repeat case_match; exact Hs).
  - unfold delete_tenant. apply atomically_preserves; [done|]. intros x db' Ht.
    destruct (has tenant_id (tenants db)); [|by simplify_eq]. destruct (tenant_restricted tenant_id db); [done|].
    cbn zeta in Ht. injection Ht as _ <-. intros s.
    match goal with |- ?m !! h = _ -> _ => destruct (m !! h) as [s'|] eqn:Hk; [|done] end. intros [= <-].
    apply (keep_lookup _ (sessions db)) in Hk as [Hk _]. by apply Hs.
  - unfold issue_oidc_browser_session. cbn zeta. case_match; [|done]. case_match eqn:Eh; [|done].
    assert (Hp : dead_session h (upd_sessions (prune bs_session_hash bs_expires_at_unix (session_stale now)) db))
      by (intros s Hk%prune_lookup; by apply Hs).
    repeat case_match; try exact Hp; cbn [snd]; (apply dead_other; [congruence|exact Hp]).
  - committed Hs; try done. apply dead_other; [congruence|]. by apply dead_insert.
  - committed Hs; try done. by apply dead_insert.
Qed.

Lemma rotate_spec now random token e db issued db' :
  rotate_oidc_browser_session now random token e db = (Ok (Some issued), db') ->
  exists h h' s a, oidc_browser_session_hash token = Ok h /\ session_access now h db = Some (s, a) /\
    issued = mkIssuedSession (generate_oidc_browser_session_token random) e /\
    oidc_browser_session_hash (is_token issued) = Ok h' /\ h' <> h /\ now <= e /\
    db' = upd_sessions <[h' := mkSessionRow h' (va_organization_id a) (va_workspace_id a) (va_principal_id a)
                                 (bs_federation_kind s) e None now]>
            (upd_sessions <[h := session_revoked now s]> db).
Proof.
  unfold rotate_oidc_browser_session, validate_oidc_browser_session_expiry, expiry_outside.
  rewrite atomically_ok. intros Ht. tx_inv Ht. boolp.
  match goal with Hh : has _ _ = false |- _ => apply has_false in Hh; cbn in Hh end.
  eexists _, _, _, _. split_and!; try done.
  - intros ->. by rewrite lookup_insert_eq in G.
  - lia.
Qed.

Lemma dead_no_access now h db : dead_session h db -> session_access now h db = None.
Proof.
  intros Hd. destruct (session_access now h db) as [[s a]|] eqn:E; [|done].
  apply session_access_role in E as (Hs & _ & Hr & _). by apply Hd in Hs.
Qed.

(** Rotating a browser session moves the access to a new token. The new token
    authenticates at once with the access the old one had, read afresh from the
    tables, until the requested expiry; the old token is dead: whatever requests follow, as long as no
    later session draws a token with its hash, it never authenticates again. *)
Theorem session_rotation now random token e (db : Db) issued db' (trace : list Request) :
  rotate_oidc_browser_session now random token e db = (Ok (Some issued), db') ->
  exists h a, oidc_browser_session_hash token = Ok h /\
    (exists old, (authenticate_oidc_browser_session now token db).1 = Ok (Some old) /\ ob_access old = a) /\
    (authenticate_oidc_browser_session now (is_token issued) db').1 = Ok (Some (mkBrowserSession a e)) /\
    (Forall (fun r => redraws_session h r = false) trace ->
     forall now', (authenticate_oidc_browser_session now' token (run hmac_sha256 trace db')).1 = Ok None).
Proof.
  intros (h & h' & s & a & Eh & Hs & Hi & Eh' & Hne & Hle & ->)%rotate_spec.
  exists h, a. split; [done|]. split; [|split].
  - exists (mkBrowserSession a (bs_expires_at_unix s)). unfold authenticate_oidc_browser_session, reading. cbn [fst].
    by rewrite Eh, Hs.
  - unfold authenticate_oidc_browser_session, reading. cbn [fst]. rewrite Eh'.
    apply session_access_role in Hs as (_ & _ & _ & Hsc & Hc & Hr & Ho & Hw & Hp).
    destruct a as [ao aw ap ar]; cbn in *. unfold session_access at 1. cbn. rewrite lookup_insert_eq. cbn.
    apply Z.leb_le in Hle. rewrite Hle. cbn.
    change (scope_active ao aw ap _) with (scope_active ao aw ap db). rewrite Hsc. cbn.
    change (connection_active (bs_federation_kind s) ao _) with (connection_active (bs_federation_kind s) ao db).
    rewrite Hc. change (effective_role ao aw ap _) with (effective_role ao aw ap db). by rewrite Hr.
  - intros Htr now'. unfold authenticate_oidc_browser_session, reading. cbn [fst]. rewrite Eh.
    rewrite dead_no_access; [done|]. apply (run_keeps (dead_session h) _ (exec_dead h) trace _ Htr).
    apply dead_other; [done|]. intros s'. cbn. rewrite lookup_insert_eq. by intros [= <-].
Qed.
End once.

(** ** One use, evaluated *)

#[local] Existing Instances scene_sha scene_url scene_doc scene_model scene_types scene_value.

Lemma pair_snd {A B} (p : A * B) (a : A) : p.1 = a -> p = (a, p.2).
Proof. destruct p. by intros <-. Qed.

Definition invitation : string := Eval vm_compute in random_id "invitation" "j".
Definition invited : Db := exec scene_hmac (RInvite 200 "i" "j" workspace owner "Ann" Analyst 5000) deployed.
Definition ann : string := Eval vm_compute in random_id "principal" "a".
#[local] Abbreviation joined :=
  (accept_workspace_invitation_federated 300 "a" invitation org workspace "https://idp.acme" "ann" Oidc invited).2.

Lemma ann_joins :
  accept_workspace_invitation_federated 300 "a" invitation org workspace "https://idp.acme" "ann" Oidc invited
  = (Ok (Some (mkAccess org workspace ann Analyst)), joined).
Proof. apply pair_snd. vm_compute. reflexivity. Qed.

Lemma invitation_single_use_witness :
  (accept_workspace_invitation_federated 400 "b" invitation org workspace "https://idp.acme" "eve" Oidc
     (run scene_hmac [RRevokeInvitation 350 workspace invitation owner; RDeleteTenant tenant] joined)).1
  <> Ok (Some (mkAccess org workspace ann Analyst)).
Proof.
  apply (invitation_single_use scene_hmac _ _ _ _ _ _ _ _ _ _ _ _ ann_joins). repeat constructor.
Defined.

Definition logging_in : Db := exec scene_hmac (RReserveOidcState 200 "state-1" org 500) deployed.
#[local] Abbreviation logged_in := (consume_oidc_authorization_state 210 "state-1" org logging_in).2.

Lemma login_completes : consume_oidc_authorization_state 210 "state-1" org logging_in = (Ok true, logged_in).
Proof. apply pair_snd. vm_compute. reflexivity. Qed.

Lemma login_state_single_use_witness :
  (consume_oidc_authorization_state 220 "state-1" org
     (run scene_hmac [RReserveOidcState 215 "state-2" org 500] logged_in)).1 <> Ok true.
Proof.
  destruct (login_state_single_use scene_hmac 210 "state-1" org logging_in logged_in
    [RReserveOidcState 215 "state-2" org 500]) as [Ho _].
  destruct (Ho login_completes) as (h & row & Eh & _ & _ & _ & _ & Hn). apply Hn.
  vm_compute in Eh. injection Eh as <-. repeat constructor.
Defined.

#[local] Abbreviation rotated := (rotate_oidc_browser_session 200 "r" session 5000 deployed).2.

Lemma session_rotates :
  rotate_oidc_browser_session 200 "r" session 5000 deployed
  = (Ok (Some (mkIssuedSession (generate_oidc_browser_session_token "r") 5000)), rotated).
Proof. apply pair_snd. vm_compute. reflexivity. Qed.

Lemma session_rotation_witness :
  (authenticate_oidc_browser_session 300 session
     (run scene_hmac [RIssueSession 250 "n" (mkAccess org workspace user Developer) Oidc 4000] rotated)).1 = Ok None.
Proof.
  destruct (session_rotation scene_hmac _ _ _ _ _ _ _ [RIssueSession 250 "n" (mkAccess org workspace user Developer) Oidc 4000]
    session_rotates) as (h & a & Eh & _ & _ & Hd).
  apply Hd. vm_compute in Eh. injection Eh as <-. repeat constructor.
Defined.
