(* ===== verification/TenantHistory.v ===== *)
(** Policy deployments: the tables of policy versions, approvals, deployments and the
    materialized allowlist implement, per tenant, an append-only log of deployments whose last
    entry is the policy the data plane enforces. *)
From S2P Require Import Prelude BTree Net Json Spend TenantDb TenantDirectory TenantScim TenantSession.
From S2P Require Import TenantPolicy TenantUsage TenantAccess TenantScene TenantGuards TenantOnce.
From stdpp Require Import sorting.
From Stdlib Require Import String Ascii.
Local Open Scope string_scope.
Local Open Scope Z_scope.

#[local] Abbreviation length := List.length.

(** ** Ordered queries *)

Lemma key_le_Z {A} (f : A -> Z) (a b : A) : key_le f a b = true <-> f a <= f b.
Proof. unfold key_le, cmp, Z_ord. destruct (Z.compare_spec (f a) (f b)); split; intros; try done; lia. Qed.

(** The only list in strictly increasing order with these rows. *)
Lemma order_by_unique {A} (f : A -> Z) (l l' : list A) :
  l ≡ₚ l' -> StronglySorted (fun a b => f a < f b) l' -> order_by f l = l'.
Proof.
  intros Hp Hs. unfold order_by.
  apply (StronglySorted_unique_strong (fun a b => key_le f a b = true)).
  - intros a b Ha Hb. rewrite !key_le_Z. intros H1 H2.
    assert (Ha' : a ∈ l') by (rewrite <- Hp; by apply sort_by_elem in Ha).
    clear -Hs Ha' Hb H1 H2. induction Hs as [|x l' Hs IH Hall]; [by apply not_elem_of_nil in Hb|].
    rewrite Forall_forall in Hall. apply elem_of_cons in Ha' as [->|Ha'], Hb as [->|Hb]; auto.
    + specialize (Hall b Hb). cbn in Hall. lia.
    + specialize (Hall a Ha'). cbn in Hall. lia.
  - apply sort_by_sorted; intros *; rewrite !key_le_Z; lia.
  - clear Hp. induction Hs as [|x l' Hs IH Hall]; constructor; [done|].
    eapply Forall_impl; [exact Hall|]. cbn. intros y Hy. apply key_le_Z. lia.
  - by rewrite sort_by_perm.
Qed.

Lemma next_sequence_perm (l l' : list Z) : l ≡ₚ l' -> next_sequence l = next_sequence l'.
Proof.
  unfold next_sequence. intros Hp. f_equal.
  apply (foldr_permutation_proper eq); [solve_proper|lia|done].
Qed.

Lemma next_sequence_seqZ (n : Z) : 0 <= n -> next_sequence (seqZ 1 n) = n + 1.
Proof.
  intros Hn. unfold next_sequence. f_equal.
  assert (Hle : forall l b, 0 <= b -> (forall x, x ∈ l -> x <= b) -> foldr Z.max 0 l <= b).
  { induction l as [|x l IH]; intros b Hb Hl; cbn; [done|]. apply Z.max_lub; [apply Hl; left|].
    apply IH; [done|]. intros y Hy. apply Hl. by right. }
  assert (Hge : forall l x, x ∈ l -> x <= foldr Z.max 0 l).
  { induction l as [|y l IH]; intros x; [by intros ?%not_elem_of_nil|].
    intros [->|Hx]%elem_of_cons; cbn; [lia|]. apply IH in Hx. lia. }
  apply Z.le_antisymm.
  - apply Hle; [done|]. intros x Hx. apply elem_of_seqZ in Hx. lia.
  - destruct (decide (n = 0)) as [->|Hne]; [done|]. apply Hge. apply elem_of_seqZ. lia.
Qed.

(** Numbered rows are in order. *)
Lemma numbered_sorted {A} (f : A -> Z) (l : list A) (m n : Z) :
  f <$> l = seqZ m n -> StronglySorted (fun a b => f a < f b) l.
Proof.
  revert m n. induction l as [|x l IH]; intros m n Hl; [constructor|].
  destruct (decide (0 < n)) as [Hn|Hn]; [|rewrite seqZ_nil in Hl by lia; done].
  rewrite seqZ_cons in Hl by done. csimpl in Hl. injection Hl as Hx Hl.
  constructor; [by eapply IH|]. apply Forall_forall. intros y Hy.
  assert (Hin : f y ∈ f <$> l) by by apply list_elem_of_fmap_2.
  rewrite Hl in Hin. apply elem_of_seqZ in Hin. lia.
Qed.

Lemma numbered_snoc {A} (f : A -> Z) (l : list A) (d : A) :
  f <$> l = seqZ 1 (Z.of_nat (length l)) -> f d = Z.of_nat (length l) + 1 ->
  f <$> (l ++ [d])%list = seqZ 1 (Z.of_nat (length (l ++ [d])%list)).
Proof.
  intros Hl Hd. rewrite fmap_app, length_app, Nat2Z.inj_add. cbn [List.length]. rewrite Hl.
  rewrite seqZ_app by lia. f_equal. csimpl. rewrite Hd. change (Z.of_nat 1) with 1.
  rewrite seqZ_cons by lia. rewrite seqZ_nil by lia. f_equal. lia.
Qed.

(** ** The log of a tenant *)

(** The deployments of a tenant, oldest first. *)
Definition log (t : string) (db : Db) : list TenantPolicyDeployment :=
  order_by dp_sequence (filter (fun d => dp_tenant_id d = t) (rows (policy_deployments db))).

Section history.
Context `{Sha256, JsonCodec TenantPolicyDocument, JsonCodec TenantModelPolicy, JsonCodec (list string), JsonCodec Value}.

(** The version is the tenant's, approved, and its stored document reads back as [doc]. *)
Definition approved_document (t v : string) (doc : TenantPolicyDocument) (db : Db) : Prop :=
  exists row, policy_versions db !! v = Some row /\ pv_tenant_id row = t /\
    is_Some (policy_approvals db !! v) /\ from_json (pv_document_json row) = Some doc.

Record history (t : string) (db : Db) : Prop := {
  (** numbered from one without gaps *)
  h_sequence : dp_sequence <$> log t db = seqZ 1 (Z.of_nat (length (log t db)));
  (** each names the version it replaced *)
  h_previous : dp_previous_version_id <$> log t db
               = take (length (log t db)) (None :: (Some <$> (dp_version_id <$> log t db)));
  (** the active version is the one deployed last *)
  h_active : fst <$> policy_state db !! t = last (dp_version_id <$> log t db);
  (** only approved versions were deployed *)
  h_approved : Forall (fun d => exists doc, approved_document t (dp_version_id d) doc db) (log t db);
  (** the materialized allowlist is that of the version deployed last *)
  h_materialized : match last (log t db) with
                   | Some d => exists doc, approved_document t (dp_version_id d) doc db /\
                       fst <$> model_policies db !! t = to_json <$> pd_model_policy doc
                   | None => model_policies db !! t = None
                   end
}.

(** The tables a history is about. *)
Definition policy_view (db : Db) :=
  (model_policies db, policy_versions db, policy_approvals db, policy_state db, policy_deployments db).

Lemma history_same t (db db' : Db) : policy_view db' = policy_view db -> history t db -> history t db'.
Proof.
  intros [= E1 E2 E3 E4 E5] [A B C D E].
  assert (El : log t db' = log t db) by (unfold log; by rewrite E5).
  split; rewrite ?El; unfold approved_document in *; rewrite ?E1, ?E2, ?E3, ?E4; done.
Qed.

Lemma log_same t (db db' : Db) : policy_deployments db' = policy_deployments db -> log t db' = log t db.
Proof. unfold log. by intros ->. Qed.

(** More versions and approvals keep what was approved. *)
Lemma approved_mono t v doc (db db' : Db) :
  (forall k row, policy_versions db !! k = Some row -> policy_versions db' !! k = Some row) ->
  (forall k, is_Some (policy_approvals db !! k) -> is_Some (policy_approvals db' !! k)) ->
  approved_document t v doc db -> approved_document t v doc db'.
Proof. intros Hv Ha (row & Hr & Ht & Hap & Hd). exists row. split_and!; auto. Qed.

Lemma history_mono t (db db' : Db) :
  policy_deployments db' = policy_deployments db -> policy_state db' = policy_state db ->
  model_policies db' = model_policies db ->
  (forall k row, policy_versions db !! k = Some row -> policy_versions db' !! k = Some row) ->
  (forall k, is_Some (policy_approvals db !! k) -> is_Some (policy_approvals db' !! k)) ->
  history t db -> history t db'.
Proof.
  intros Ed Es Em Hv Ha [A B C D E]. pose proof (log_same t db db' Ed) as El.
  split; rewrite ?El, ?Es, ?Em; try done.
  - eapply Forall_impl; [exact D|]. cbn. intros d (doc & Hd). exists doc. by eapply approved_mono.
  - destruct (last (log t db)) as [d|]; [|done]. destruct E as (doc & Hd & He). exists doc.
    split; [by eapply approved_mono|done].
Qed.

(** ** Appending to the log *)

Lemma log_insert t (db db' : Db) (d : TenantPolicyDeployment) :
  history t db -> policy_deployments db !! dp_id d = None ->
  policy_deployments db' = <[dp_id d := d]> (policy_deployments db) ->
  (dp_tenant_id d = t -> dp_sequence d = Z.of_nat (length (log t db)) + 1) ->
  log t db' = if decide (dp_tenant_id d = t) then (log t db ++ [d])%list else log t db.
Proof.
  intros Hh Hf Ed Hseq. unfold log at 1. rewrite Ed.
  assert (Hp : rows (<[dp_id d := d]> (policy_deployments db)) ≡ₚ d :: rows (policy_deployments db))
    by (unfold rows; by rewrite map_to_list_insert).
  apply order_by_unique.
  - rewrite Hp, filter_cons. unfold log, order_by. case_decide; [|by rewrite sort_by_perm].
    by rewrite sort_by_perm, Permutation_app_comm.
  - pose proof (h_sequence t db Hh) as Hs. case_decide as Ht; [|by eapply numbered_sorted].
    eapply numbered_sorted, numbered_snoc; auto.
Qed.

(** The next number of a tenant's log. *)
Lemma next_deployment t db :
  history t db ->
  next_sequence (dp_sequence <$> filter (fun d => dp_tenant_id d = t) (rows (policy_deployments db)))
  = Z.of_nat (length (log t db)) + 1.
Proof.
  intros Hh. rewrite <- next_sequence_seqZ by lia. rewrite <- (h_sequence t db Hh).
  apply next_sequence_perm. unfold log, order_by. by rewrite sort_by_perm.
Qed.

Lemma take_snoc {A} (x : A) (l : list A) : (take (length l) (x :: l) ++ [default x (last l)])%list = x :: l.
Proof.
  revert x. induction l as [|y l IH]; intros x; [done|]. cbn [List.length take app]. f_equal.
  rewrite last_cons. rewrite <- (IH y) at 2. do 2 f_equal. by destruct (last l).
Qed.

(** Deploying the next version, with what the tables must hold. *)
Lemma history_install t (db db' : Db) (d : TenantPolicyDeployment) (doc : TenantPolicyDocument) now :
  (forall t', history t' db) -> policy_deployments db !! dp_id d = None ->
  policy_deployments db' = <[dp_id d := d]> (policy_deployments db) -> dp_tenant_id d = t ->
  dp_sequence d = Z.of_nat (length (log t db)) + 1 ->
  dp_previous_version_id d = fst <$> policy_state db !! t ->
  policy_state db' = <[t := (dp_version_id d, now)]> (policy_state db) ->
  model_policies db' = match pd_model_policy doc with
                       | Some policy => <[t := (to_json policy, now)]> (model_policies db)
                       | None => delete t (model_policies db) end ->
  policy_versions db' = policy_versions db -> policy_approvals db' = policy_approvals db ->
  approved_document t (dp_version_id d) doc db ->
  forall t', history t' db'.
Proof.
  intros Hall Hf Ed Ht Hseq Hprev Es Em Ev Ea Hdoc t'.
  pose proof (log_insert t' db db' d (Hall t') Hf Ed) as El. rewrite Ht in El.
  assert (Hap : forall v doc' u, approved_document u v doc' db -> approved_document u v doc' db')
    by (unfold approved_document; by rewrite Ev, Ea).
  destruct (decide (t = t')) as [<-|Hne].
  - destruct (Hall t) as [A B C D E]. specialize (El (fun _ => Hseq)). split; rewrite El; clear El.
    + by apply numbered_snoc.
    + rewrite !fmap_app, B, length_app. csimpl. rewrite Hprev, C, app_comm_cons.
      rewrite take_app_length' by (cbn [List.length]; rewrite !length_fmap; lia).
      etrans; [|apply (take_snoc None)]. rewrite !length_fmap. do 2 f_equal.
      rewrite !fmap_last. by destruct (last (log t db)).
    + rewrite Es, lookup_insert_eq, fmap_last, last_snoc. done.
    + apply Forall_app. split; [eapply Forall_impl; [exact D|naive_solver]|]. constructor; [eauto|done].
    + rewrite last_snoc. exists doc. split; [by apply Hap|]. rewrite Em.
      destruct (pd_model_policy doc); cbn; by rewrite ?lookup_insert_eq, ?lookup_delete_eq.
  - destruct (Hall t') as [A B C D E]. specialize (El (fun e => False_ind _ (Hne e))).
    assert (Em' : model_policies db' !! t' = model_policies db !! t')
      by (rewrite Em; destruct (pd_model_policy doc); [by rewrite lookup_insert_ne|by rewrite lookup_delete_ne]).
    split; rewrite ?El, ?Em', ?Es, ?(lookup_insert_ne _ _ _ _ Hne); try done.
    + eapply Forall_impl; [exact D|naive_solver].
    + destruct (last (log t' db)); [|done]. destruct E as (doc' & ? & ?). eauto.
Qed.

(** ** What the operations do to the log *)

Lemma enqueue_policy (now : Z) (random : nat -> string) (t e : string) (ds : list WebhookDestinationRow) :
  forall i db db', enqueue_deliveries now random i t e ds db = Ok db' -> policy_view db' = policy_view db.
Proof.
  induction ds as [|d ds IH]; intros i db db'; cbn [enqueue_deliveries]; [by intros [= <-]|].
  repeat case_match; try done; intros Heq; apply IH in Heq; done.
Qed.

Lemma install_spec now random document did t v prev act actor db d db' :
  install_policy now random document did t v prev act actor db = Ok (d, db') ->
  policy_deployments db !! did = None /\
  d = mkDeployment did t (next_sequence (dp_sequence <$>
        filter (fun d => dp_tenant_id d = t) (rows (policy_deployments db)))) v prev act actor now /\
  policy_view db' = (match pd_model_policy document with
                     | Some policy => <[t := (to_json policy, now)]> (model_policies db)
                     | None => delete t (model_policies db) end,
                     policy_versions db, policy_approvals db, <[t := (v, now)]> (policy_state db),
                     <[did := d]> (policy_deployments db)).
Proof.
  unfold install_policy. cbn zeta. intros Hi. ok_inv Hi. simplify_eq.
  match goal with He : enqueue_deliveries _ _ _ _ _ _ _ = Ok _ |- _ => apply enqueue_policy in He; rewrite He end.
  split_and!; [|done|done]. by apply has_false.
Qed.

(** Installing an approved document for the tenant appends one deployment to its log. *)
Lemma install_history now random document did t v act actor db d db' :
  (forall t', history t' db) ->
  approved_document t v document db ->
  install_policy now random document did t v (fst <$> policy_state db !! t) act actor db = Ok (d, db') ->
  (forall t', history t' db') /\
  (forall t', log t' db' = if decide (t = t') then (log t' db ++ [d])%list else log t' db) /\
  dp_version_id d = v /\ dp_id d = did.
Proof.
  intros Hall Hdoc (Hf & Hd & Hv)%install_spec. injection Hv as E1 E2 E3 E4 E5.
  rewrite next_deployment in Hd by done. split_and!; [| |by subst d..].
  - eapply (history_install t db db' d document now); subst d; try done.
  - intros t'. rewrite (log_insert t' db db' d); subst d; try done. by intros <-.
Qed.

(** What a request about policies may have done: nothing, or one deployment appended to the
    log of one tenant. *)
Definition appended (db db' : Db) : Prop :=
  (forall t, log t db' = log t db) \/
  exists t d, dp_tenant_id d = t /\ log t db' = (log t db ++ [d])%list /\
    forall t', t' <> t -> log t' db' = log t' db.

Lemma approved_of_deploy t v row a doc db :
  version_of t v db = Some row -> policy_approvals db !! v = Some a -> from_json (pv_document_json row) = Some doc ->
  approved_document t v doc db.
Proof.
  unfold version_of. intros Hv Ha Hd. apply bind_Some in Hv as (row' & Hv & Ht). case_bool_decide; [|done].
  injection Ht as ->. exists row. by eauto.
Qed.

Lemma install_appended now random document did t v act actor db d db' :
  (forall t', history t' db) -> approved_document t v document db ->
  install_policy now random document did t v (fst <$> policy_state db !! t) act actor db = Ok (d, db') ->
  (forall t', history t' db') /\ appended db db'.
Proof.
  intros Hall Hdoc Hi. pose proof Hi as (_ & Hd & _)%install_spec.
  apply install_history in Hi as (Hh & Hl & _ & _); [|done..]. split; [done|]. right.
  exists t, d. split_and!; [by subst d| |].
  - rewrite Hl. by destruct (decide (t = t)).
  - intros t' Hne. rewrite Hl. by destruct (decide (t = t')).
Qed.

Definition good_step (db db' : Db) : Prop := (forall t, history t db') /\ appended db db'.

(** The log is as it was. *)
Definition quiet (db db' : Db) : Prop := (forall t, history t db') /\ (forall t, log t db' = log t db).

Lemma quiet_good db db' : quiet db db' -> good_step db db'.
Proof. intros [? ?]. split; [done|by left]. Qed.

Lemma quiet_refl db : (forall t, history t db) -> quiet db db.
Proof. by split. Qed.

Lemma quiet_then_good db1 db2 db3 : quiet db1 db2 -> good_step db2 db3 -> good_step db1 db3.
Proof.
  intros [_ Hq] [Hh [Hs|(t & d & Ht & Hl & Ho)]]; (split; [done|]).
  - left. intros t. by rewrite Hs, Hq.
  - right. exists t, d. split_and!; [done|by rewrite Hl, Hq|]. intros t' Hne. by rewrite Ho, Hq.
Qed.

Lemma quiet_same (db db' : Db) : policy_view db' = policy_view db -> (forall t, history t db) -> quiet db db'.
Proof.
  intros Hv Hh. split; [intros t; by apply (history_same t db)|]. intros t. apply log_same. by injection Hv.
Qed.

Lemma deploy_good now random random' t v actor act db :
  (forall t, history t db) -> good_step db (deploy_policy_version now random random' t v actor act db).2.
Proof.
  intros Hh. unfold deploy_policy_version. apply (atomically_preserves _ (good_step db)); [by apply quiet_good, quiet_refl|].
  intros x db' Ht. tx_inv Ht. eapply install_appended; [done| |done]. by eapply approved_of_deploy.
Qed.

Lemma quiet_mono (db db' : Db) :
  policy_deployments db' = policy_deployments db -> policy_state db' = policy_state db ->
  model_policies db' = model_policies db ->
  (forall k row, policy_versions db !! k = Some row -> policy_versions db' !! k = Some row) ->
  (forall k, is_Some (policy_approvals db !! k) -> is_Some (policy_approvals db' !! k)) ->
  (forall t, history t db) -> quiet db db'.
Proof.
  intros Ed Es Em Hv Ha Hh. split; [intros t; by apply (history_mono t db)|]. intros t. by apply log_same.
Qed.

Lemma lookup_put_fresh {V} (t : gmap string V) k v k' v' : t !! k = None -> t !! k' = Some v' -> <[k := v]> t !! k' = Some v'.
Proof. intros Hf Hk. rewrite lookup_insert_ne; [done|congruence]. Qed.

Lemma create_quiet now random t actor document db :
  (forall t, history t db) -> quiet db (create_policy_version now random t actor document db).2.
Proof.
  intros Hh. unfold create_policy_version, insert_policy_version.
  apply (atomically_preserves _ (quiet db)); [by apply quiet_refl|].
  intros x db' Ht. tx_inv Ht. boolp. apply quiet_mono; try done.
  intros k row. apply lookup_put_fresh. by apply has_false.
Qed.

Lemma approve_quiet now t v actor db :
  (forall t, history t db) -> quiet db (approve_policy_version now t v actor db).2.
Proof.
  intros Hh. unfold approve_policy_version. case_match; [|by apply quiet_refl].
  assert (quiet db (atomically (approve_version_tx now t v actor) db).2) as Hg.
  { apply (atomically_preserves _ (quiet db)); [by apply quiet_refl|]. unfold approve_version_tx.
    intros x db' Ht. tx_inv Ht; [by apply quiet_refl|]. apply quiet_mono; try done.
    intros k Hk. cbn. apply lookup_insert_is_Some'. by right. }
  destruct (atomically _ _) as [[|] db']; cbn [snd] in *; [|done].
  unfold policy_version, reading. repeat case_match; first [exact Hg | simplify_eq].
Qed.

Lemma set_model_policy_good now random random' random'' t policy db :
  (forall t, history t db) -> good_step db (set_model_policy now random random' random'' t policy db).2.
Proof.
  intros Hh. unfold set_model_policy.
  pose proof (create_quiet now random'' t "internal_control_plane" (policy_document_new policy) db Hh) as H1'.
  destruct (create_policy_version _ _ _ _ _ _) as [[v|] db1]; cbn [snd] in *; [|by apply quiet_good].
  pose proof (approve_quiet now t (tv_id v) "internal_control_plane" db1 (proj1 H1')) as H2'.
  assert (H3' : quiet db (approve_policy_version now t (tv_id v) "internal_control_plane" db1).2).
  { split; [apply H2'|]. intros t'. by rewrite (proj2 H2'), (proj2 H1'). }
  destruct (approve_policy_version _ _ _ _ _) as [[v'|] db2]; cbn [snd] in *; [|by apply quiet_good].
  pose proof (deploy_good now random random' t (tv_id v) "internal_control_plane" Activate db2 (proj1 H2')) as H4'.
  destruct (deploy_policy_version _ _ _ _ _ _ _ _) as [[d|] db3]; cbn [snd] in *; by eapply quiet_then_good.
Qed.

Context `{!JsonCodecLaws TenantPolicyDocument}.

Lemma set_workspace_policy_good now random random' random'' w p policy db :
  (forall t, history t db) -> good_step db (set_workspace_model_policy now random random' random'' w p policy db).2.
Proof.
  intros Hh. unfold set_workspace_model_policy, insert_policy_version, canonical_policy_document.
  apply (atomically_preserves _ (good_step db)); [by apply quiet_good, quiet_refl|].
  intros x db' Ht. tx_inv Ht. boolp.
  match goal with Hi : install_policy _ _ _ _ _ _ _ _ _ ?d1 = Ok ?r |- _ =>
    destruct r as [d db2]; set (db1 := d1) in *; rename Hi into Hins end.
  assert (Hq : quiet db db1).
  { apply quiet_mono; try done; cbn.
    - intros k row. apply lookup_put_fresh. by apply has_false.
    - intros k Hk. apply lookup_insert_is_Some'. by right. }
  change (policy_state db) with (policy_state db1) in Hins.
  apply install_appended in Hins as [Hh' Ha]; [|apply Hq|].
  - eapply quiet_then_good; [exact Hq|]. split; [intros t; by apply (history_same t db2)|exact Ha].
  - subst db1. eexists. cbn. rewrite !lookup_insert_eq. split_and!; [done|done|by eexists|]. cbn.
    match goal with Hc : _ = Ok a |- _ => destruct (validate_policy_document _) in Hc; [|done]; injection Hc as <- end.
    apply from_to_json.
Qed.

Lemma delete_tenant_quiet t db : (forall t, history t db) -> quiet db (delete_tenant t db).2.
Proof.
  intros Hh. unfold delete_tenant. apply (atomically_preserves _ (quiet db)); [by apply quiet_refl|].
  intros x db' Ht. destruct (has t (tenants db)); [|simplify_eq; by apply quiet_refl].
  destruct (tenant_restricted t db) eqn:Hr; [done|]. cbn zeta in Ht. injection Ht as _ <-.
  assert (Hl : log t db = []).
  { unfold tenant_restricted in Hr. cbn zeta in Hr. rewrite !orb_false_iff in Hr.
    destruct Hr as ((((((((((_ & Hd) & _) & _) & _) & _) & _) & _) & _) & _) & _).
    unfold log. enough (filter (fun d => dp_tenant_id d = t) (rows (policy_deployments db)) = []) as -> by done.
    apply elem_of_nil_inv. intros d [Ht (k & Hk)%elem_of_rows]%list_elem_of_filter.
    rewrite any_false in Hd. specialize (Hd k d Hk). cbn in Hd. by apply bool_decide_eq_false in Hd. }
  pose proof (h_materialized t db (Hh t)) as Hm. pose proof (h_active t db (Hh t)) as Ha.
  rewrite Hl in Hm, Ha. cbn in Hm, Ha. apply fmap_None in Ha.
  apply quiet_mono; try done; [by apply delete_id..].
Qed.
End history.

Section transitions.
Context `{Sha256, UrlParser, JsonCodec TenantPolicyDocument, JsonCodec TenantModelPolicy,
          JsonCodec (list string), JsonCodec Value, !JsonCodecLaws TenantPolicyDocument, !JsonCodecLaws TenantModelPolicy}.
Variable hmac_sha256 : string -> string -> string.

Definition handles_policies (r : Request) : bool :=
  match r with
  | RCreatePolicyVersion _ _ _ _ _ | RApprovePolicyVersion _ _ _ _ | RDeployPolicyVersion _ _ _ _ _ _ _
  | RSetModelPolicy _ _ _ _ _ _ | RSetWorkspaceModelPolicy _ _ _ _ _ _ _ | RDeleteTenant _ => true
  | _ => false
  end.

Lemma deactivate_policy now t d db db' : deactivate_in now t d db = Some db' -> policy_view db' = policy_view db.
Proof.
  unfold deactivate_in. destruct (webhook_destinations db !! d); cbn; [|done]. case_match; [|done].
  by intros [= <-].
Qed.

Lemma exec_keeps_policies (r : Request) (db : Db) :
  handles_policies r = false -> policy_view (exec hmac_sha256 r db) = policy_view db.
Proof.
  destruct r; try done; intros _; cbn [exec]; try (keeps policy_view; fail);
    try (unfold reserve_oidc_authorization_state, reserve_saml_authorization_state, issue_oidc_browser_session;
         repeat case_match; reflexivity);
    try (keeps policy_view; first [match goal with Hd : deactivate_in _ _ _ _ = Some _ |- _ => apply deactivate_policy in Hd; exact Hd end|repeat case_match; reflexivity]).
  - apply (resend_keeps policy_view); intros; keeps policy_view.
  - keeps policy_view; match goal with Hp : invited_principal _ _ _ _ _ _ = _ |- _ =>
      apply invited_keeps in Hp as (_ & _ & _ & _ & Hp); unfold policy_view; cbn; by rewrite Hp end.
Qed.

Lemma exec_good (r : Request) (db : Db) : (forall t, history t db) -> good_step db (exec hmac_sha256 r db).
Proof.
  intros Hh. destruct (handles_policies r) eqn:Hp; [|by apply quiet_good, quiet_same; [apply exec_keeps_policies|]].
  destruct r; try done; cbn [exec]; auto using quiet_good, create_quiet, approve_quiet, deploy_good,
    set_model_policy_good, set_workspace_policy_good, delete_tenant_quiet.
Qed.

Lemma open_history now t : history t (open_empty now).
Proof. by split. Qed.

Lemma reachable_history (db : Db) : reachable hmac_sha256 db -> forall t, history t db.
Proof.
  intros (now & trace & ->). apply (run_invariant hmac_sha256 (fun db => forall t, history t db)).
  - intros r db' Hh. by apply exec_good.
  - intros t. apply open_history.
Qed.

Lemma active_policy (db : Db) (t : string) :
  history t db ->
  match policy_state db !! t with
  | Some (v, _) => exists doc, approved_document t v doc db /\ (model_policy_for t db).1 = Ok (pd_model_policy doc)
  | None => (model_policy_for t db).1 = Ok None
  end.
Proof.
  intros Hh. pose proof (h_active t db Hh) as Ha. pose proof (h_materialized t db Hh) as Hm.
  unfold model_policy_for, reading. cbn [fst]. rewrite fmap_last in Ha.
  destruct (policy_state db !! t) as [[v n]|]; destruct (last (log t db)) as [d|]; try done.
  - injection Ha as ->. destruct Hm as (doc & Hd & He). exists doc. split; [done|].
    destruct (model_policies db !! t) as [[j n']|]; cbn in He; destruct (pd_model_policy doc) as [policy|]; try done.
    injection He as ->. by rewrite from_to_json.
  - by rewrite Hm.
Qed.

(** C40. In every reachable database the model policy the data plane reads for a tenant is
    the one of its active policy version: the active version is one of the tenant's own, it
    was approved, its stored document still parses, and the materialized allowlist is exactly the
    document's; a tenant without an active version is not restricted. *)
Theorem active_policy_enforced (db : Db) (t : string) :
  reachable hmac_sha256 db ->
  match policy_state db !! t with
  | Some (v, _) => exists doc, approved_document t v doc db /\ (model_policy_for t db).1 = Ok (pd_model_policy doc)
  | None => (model_policy_for t db).1 = Ok None
  end.
Proof. intros Hdb. by apply active_policy, reachable_history. Qed.

(** C29. Deployments refine an append-only log. In every reachable database the tenant's
    deployments, in the order of their numbers, are numbered from one without gaps, each
    names the version it replaced, and the active version is that of the last; and any
    request leaves every tenant's log as it was, except that it may append one
    deployment to one tenant's log. *)
Theorem deployments_refine_log (db : Db) (r : Request) :
  reachable hmac_sha256 db ->
  (forall t, dp_sequence <$> log t db = seqZ 1 (Z.of_nat (length (log t db))) /\
     dp_previous_version_id <$> log t db
       = take (length (log t db)) (None :: (Some <$> (dp_version_id <$> log t db))) /\
     fst <$> policy_state db !! t = last (dp_version_id <$> log t db)) /\
  ((forall t, log t (exec hmac_sha256 r db) = log t db) \/
   exists t d, dp_tenant_id d = t /\ log t (exec hmac_sha256 r db) = (log t db ++ [d])%list /\
     forall t', t' <> t -> log t' (exec hmac_sha256 r db) = log t' db).
Proof.
  intros Hdb. pose proof (reachable_history db Hdb) as Hh. split.
  - intros t. by destruct (Hh t).
  - by destruct (exec_good r db Hh).
Qed.

(** ** Simulation *)

(** Whether the data plane lets the tenant use the model. *)
Definition enforced (t : string) (db : Db) (model : string) : bool :=
  match (model_policy_for t db).1 with
  | Ok (Some policy) => model_policy_permits policy model
  | Ok None => true
  | Err _ => false
  end.

Lemma policy_version_some t v db version :
  (policy_version t v db).1 = Ok (Some version) ->
  exists row, version_of t v db = Some row /\ from_json (pv_document_json row) = Some (tv_document version).
Proof.
  unfold policy_version, reading. cbn [fst]. destruct (version_of t v db) as [row|] eqn:Er; [|done].
  unfold policy_version_from_row. destruct (from_json (pv_document_json row)) as [doc|] eqn:Ed; [|done].
  intros [= <-]. by exists row.
Qed.

Lemma policy_version_approved t v doc db :
  approved_document t v doc db -> exists version, (policy_version t v db).1 = Ok (Some version) /\ tv_document version = doc.
Proof.
  intros (row & Hr & Ht & _ & Hd). unfold policy_version, reading, version_of, policy_version_from_row. cbn [fst].
  rewrite Hr. cbn. rewrite bool_decide_eq_true_2 by done. rewrite Hd. by eexists.
Qed.

Lemma deploy_document now random random' t v actor action db d db' row doc :
  deploy_policy_version now random random' t v actor action db = (Ok d, db') ->
  version_of t v db = Some row -> from_json (pv_document_json row) = Some doc ->
  (model_policy_for t db').1 = Ok (pd_model_policy doc).
Proof.
  unfold deploy_policy_version. rewrite atomically_ok. intros Hdep Hv Hd. rewrite Hv in Hdep.
  tx_inv Hdep. match goal with Hi : install_policy _ _ _ _ _ _ _ _ _ _ = Ok _ |- _ => apply install_spec in Hi as (_ & _ & Hi); injection Hi as Em _ _ _ _ end.
  unfold model_policy_for, reading. cbn [fst]. rewrite Em.
  destruct (pd_model_policy doc) as [policy|]; [by rewrite lookup_insert_eq, from_to_json|by rewrite lookup_delete_eq].
Qed.

(** A simulation says what deploying would do: for every model it was asked about, the
    permission it reports as current is what the data plane enforces for the tenant now, and
    the permission it reports for the candidate is what the data plane enforces once that
    version is deployed, whether activated or rolled back to. *)
Theorem simulation_predicts_deployment (db : Db) t v cases sim now random random' actor action d db' :
  reachable hmac_sha256 db ->
  (simulate_policy_version t v cases db).1 = Ok sim ->
  deploy_policy_version now random random' t v actor action db = (Ok d, db') ->
  sm_results sim = (fun model => mkSimulationResult model (enforced t db model) (enforced t db' model)
                                   (negb (Bool.eqb (enforced t db model) (enforced t db' model)))) <$> cases.
Proof.
  intros Hdb Hsim Hdep. pose proof (active_policy db t (reachable_history db Hdb t)) as Hact.
  unfold simulate_policy_version, reading in Hsim. cbn [fst] in Hsim.
  destruct (policy_version t v db).1 as [[candidate|]|] eqn:Ec; [|done..].
  apply policy_version_some in Ec as (row & Hrow & Hdoc).
  pose proof (deploy_document _ _ _ _ _ _ _ _ _ _ _ _ Hdep Hrow Hdoc) as Hnew.
  assert (Hcand : forall model, policy_document_permits (Some (tv_document candidate)) model = enforced t db' model).
  { intros model. unfold enforced. by rewrite Hnew. }
  assert (Hevd : forall active current, (forall model, policy_document_permits current model = enforced t db model) ->
    evaluate_policy_simulation (tv_id candidate) active current (tv_document candidate) cases = Ok sim ->
    sm_results sim = (fun model => mkSimulationResult model (enforced t db model) (enforced t db' model)
                        (negb (Bool.eqb (enforced t db model) (enforced t db' model)))) <$> cases).
  { intros active current Hcur He. unfold evaluate_policy_simulation in He. ok_inv He. simplify_eq. cbn.
    apply list_fmap_ext. intros i model _. by rewrite Hcur, Hcand. }
  destruct (policy_state db !! t) as [[active n]|]; cbn [fmap option_fmap option_map fst] in Hsim.
  - destruct Hact as (doc & Hap & Hpol). apply policy_version_approved in Hap as (version & Hpv & Hd).
    rewrite Hpv in Hsim. cbn [fmap option_fmap option_map] in Hsim.
    eapply Hevd; [|exact Hsim]. intros model. unfold enforced. by rewrite Hpol, Hd.
  - rewrite Hact in Hsim. cbn [fmap option_fmap option_map] in Hsim.
    eapply Hevd; [|exact Hsim]. intros model. unfold enforced. by rewrite Hact.
Qed.
End transitions.

(** ** A deployment, evaluated *)

#[local] Existing Instances scene_sha scene_url scene_doc scene_model scene_types scene_value.
#[local] Instance scene_doc_laws : JsonCodecLaws TenantPolicyDocument := digit_codec_laws.
#[local] Instance scene_model_laws : JsonCodecLaws TenantModelPolicy := digit_codec_laws.

Definition only (model : string) : TenantPolicyDocument := policy_document_new (Some (mkModelPolicy [model])).
Definition version (random : string) : string := random_id "policy" random.

(** The first version is deployed, the second approved. *)
Definition policies : list Request :=
  (setup ++
  [ RCreatePolicyVersion 200 "1" tenant "admin" (only "small"); RApprovePolicyVersion 210 tenant (version "1") "admin";
    RDeployPolicyVersion 220 (fun i => "e") "d" tenant (version "1") "admin" Activate;
    RCreatePolicyVersion 230 "2" tenant "admin" (only "large"); RApprovePolicyVersion 240 tenant (version "2") "admin" ])%list.

Definition versioned : Db := run scene_hmac policies (open_empty 100).

Lemma versioned_reachable : reachable scene_hmac versioned.
Proof. by exists 100, policies. Qed.

Lemma versioned_state : policy_state versioned !! tenant = Some (version "1", 220).
Proof. vm_compute. reflexivity. Qed.

Lemma active_policy_enforced_witness :
  exists doc, approved_document tenant (version "1") doc versioned /\
    (model_policy_for tenant versioned).1 = Ok (pd_model_policy doc).
Proof.
  pose proof (active_policy_enforced scene_hmac versioned tenant versioned_reachable) as Hact.
  rewrite versioned_state in Hact. exact Hact.
Defined.

#[local] Abbreviation second := (RDeployPolicyVersion 300 (fun i => "f") "g" tenant (version "2") "admin" Activate).

Lemma deployments_refine_log_witness :
  fst <$> policy_state versioned !! tenant = last (dp_version_id <$> log tenant versioned).
Proof.
  destruct (deployments_refine_log scene_hmac versioned second versioned_reachable) as [Hl _]. apply Hl.
Defined.

#[local] Abbreviation deployed_second :=
  (deploy_policy_version 300 (fun i => "f") "g" tenant (version "2") "admin" Activate versioned).2.

Definition second_deployment : TenantPolicyDeployment :=
  mkDeployment (random_id "policy_deployment" "g") tenant 2 (version "2") (Some (version "1")) Activate "admin" 300.

Lemma second_deploys :
  deploy_policy_version 300 (fun i => "f") "g" tenant (version "2") "admin" Activate versioned
  = (Ok second_deployment, deployed_second).
Proof. apply pair_snd. vm_compute. reflexivity. Qed.

Definition simulated : TenantPolicySimulation :=
  mkSimulation (version "2") (Some (version "1")) 2
    [mkSimulationResult "small" true false true; mkSimulationResult "large" false true true].

Lemma second_simulated : (simulate_policy_version tenant (version "2") ["small"; "large"] versioned).1 = Ok simulated.
Proof. vm_compute. reflexivity. Qed.

Lemma simulation_predicts_deployment_witness :
  sm_results simulated
  = (fun model => mkSimulationResult model (enforced tenant versioned model) (enforced tenant deployed_second model)
       (negb (Bool.eqb (enforced tenant versioned model) (enforced tenant deployed_second model)))) <$> ["small"; "large"].
Proof.
  apply (simulation_predicts_deployment scene_hmac _ _ _ _ _ _ _ _ _ _ _ _ versioned_reachable second_simulated second_deploys).
Defined.
