(* ===== verification/TenantLedger.v ===== *)
(** Usage evidence over time: the UTC calendar of quotas and retention, where the closed formulas
    of the store are compared with the Gregorian calendar defined by its rules; the month a quota is counted over, what retention may
    delete, and that importing a provider statement is idempotent. *)
From S2P Require Import Prelude BTree Net Json Spend TenantDb TenantDirectory TenantScim TenantSession.
From S2P Require Import TenantPolicy TenantUsage TenantAccess TenantScene TenantGuards TenantOnce TenantHistory.
From Stdlib Require Import String Ascii.
Local Open Scope string_scope.
Local Open Scope Z_scope.

#[local] Abbreviation length := List.length.

(** ** The Gregorian calendar *)

Definition leap (y : Z) : bool := ((y mod 4 =? 0) && negb (y mod 100 =? 0)) || (y mod 400 =? 0).

Definition days_in_month (y m : Z) : Z :=
  if m =? 2 then (if leap y then 29 else 28)
  else if (m =? 4) || (m =? 6) || (m =? 9) || (m =? 11) then 30 else 31.

Definition valid_date (date : Z * Z * Z) : Prop :=
  let '(y, m, d) := date in 1 <= m <= 12 /\ 1 <= d <= days_in_month y m.

Definition next_day (date : Z * Z * Z) : Z * Z * Z :=
  let '(y, m, d) := date in
  if d <? days_in_month y m then (y, m, d + 1)
  else if m <? 12 then (y, m + 1, 1) else (y + 1, 1, 1).

(** ** The year that starts in March *)

(** Days before the [y]-th year of an era of 400 years. *)
Definition year_start (y : Z) : Z := 365 * y + y / 4 - y / 100.

Definition year_of (doe : Z) : Z := (doe - doe / 1460 + doe / 36524 - doe / 146096) / 365.

(** The year that ends with a leap day. *)
Definition long (y : Z) : Prop := (y mod 4 = 3 /\ y mod 100 <> 99) \/ y = 399.

Lemma year_of_spec (doe : Z) :
  0 <= doe < 146097 ->
  0 <= year_of doe < 400 /\ 0 <= doe - year_start (year_of doe) <= 365 /\
  (doe - year_start (year_of doe) = 365 -> long (year_of doe)).
Proof.
  intros Hd. unfold year_of, year_start, long. split_and!; Z.to_euclidean_division_equations; lia.
Qed.

Lemma year_of_unique (y doy : Z) :
  0 <= y < 400 -> 0 <= doy <= 365 -> (doy = 365 -> long y) ->
  0 <= year_start y + doy < 146097 /\ year_of (year_start y + doy) = y.
Proof.
  intros Hy Hd Hl. unfold year_of, year_start, long in *. split; Z.to_euclidean_division_equations; lia.
Qed.

(** ** Months of that year *)

(** The month of a day counted from the first of March, in the code's numbering. *)
Definition month_of (doy : Z) : Z := (5 * doy + 2) / 153.
Definition month_start (mp : Z) : Z := (153 * mp + 2) / 5.

Lemma month_of_spec (doy : Z) :
  0 <= doy <= 365 -> 0 <= month_of doy <= 11 /\ month_start (month_of doy) <= doy < month_start (month_of doy + 1).
Proof. intros Hd. unfold month_of, month_start. split_and!; Z.to_euclidean_division_equations; lia. Qed.

Lemma month_of_unique (mp day : Z) :
  0 <= mp <= 11 -> 0 <= day < month_start (mp + 1) - month_start mp -> month_of (month_start mp + day) = mp.
Proof. unfold month_of, month_start. intros Hm Hd. Z.to_euclidean_division_equations; lia. Qed.

(** The formulas of the code in these terms. *)
Lemma civil_eq (days : Z) :
  civil_from_days days =
  let shifted := days + 719468 in
  let era := shifted / 146097 in
  let doe := shifted mod 146097 in
  let yoe := year_of doe in
  let mp := month_of (doe - year_start yoe) in
  let month := mp + (if mp <? 10 then 3 else -9) in
  (yoe + era * 400 + (if month <=? 2 then 1 else 0), month, doe - year_start yoe - month_start mp + 1).
Proof.
  unfold civil_from_days. cbn zeta.
  assert (Hm : (days + 719468) mod 146097 = days + 719468 - (days + 719468) / 146097 * 146097)
    by (rewrite Z.mod_eq by lia; lia).
  pose proof (Z.mod_pos_bound (days + 719468) 146097 ltac:(lia)) as Hb. rewrite <- Hm.
  set (doe := (days + 719468) mod 146097) in *. clearbody doe.
  pose proof (year_of_spec doe Hb) as (Hy & Hd & _).
  assert (Hyo : Z.quot (doe - Z.quot doe 1460 + Z.quot doe 36524 - Z.quot doe 146096) 365 = year_of doe)
    by (unfold year_of; Z.to_euclidean_division_equations; lia).
  rewrite Hyo. rewrite !(Z.quot_div_nonneg (year_of doe)) by lia. fold (year_start (year_of doe)).
  set (doy := doe - year_start (year_of doe)) in *. clearbody doy.
  rewrite (Z.quot_div_nonneg (5 * doy + 2)) by lia. fold (month_of doy).
  pose proof (month_of_spec doy Hd) as [Hmp _].
  rewrite (Z.quot_div_nonneg (153 * month_of doy + 2)) by lia. fold (month_start (month_of doy)).
  repeat case_match; f_equal; f_equal; lia.
Qed.

Lemma days_eq (y m d : Z) :
  1 <= m <= 12 ->
  days_from_civil y m d =
  let ay := y - (if m <=? 2 then 1 else 0) in
  let mp := m + (if 2 <? m then -3 else 9) in
  ay / 400 * 146097 + year_start (ay mod 400) + month_start mp + d - 1 - 719468.
Proof.
  intros Hm. unfold days_from_civil. cbn zeta.
  set (ay := y - (if m <=? 2 then 1 else 0)). pose proof (Z.mod_pos_bound ay 400 ltac:(lia)) as Hb.
  replace (ay - ay / 400 * 400) with (ay mod 400) by (rewrite Z.mod_eq by lia; lia).
  assert (Hmp : 0 <= m + (if 2 <? m then -3 else 9) <= 11) by (case_match; lia).
  rewrite !Z.quot_div_nonneg by lia. unfold year_start, month_start. lia.
Qed.

(** ** The code's calendar is the Gregorian one *)

(** The months of the March year have the lengths of the calendar. *)
Lemma month_length (y mp : Z) :
  0 <= mp <= 11 ->
  let m := mp + (if mp <? 10 then 3 else -9) in
  (mp <> 11 -> month_start (mp + 1) - month_start mp = days_in_month y m) /\
  (mp = 11 -> month_start mp = 337 /\ m = 2).
Proof.
  intros Hm. assert (mp = 0 \/ mp = 1 \/ mp = 2 \/ mp = 3 \/ mp = 4 \/ mp = 5 \/ mp = 6 \/ mp = 7 \/ mp = 8 \/ mp = 9
    \/ mp = 10 \/ mp = 11) as Hc by lia.
  repeat destruct Hc as [->|Hc]; try subst mp; split; try done.
Qed.

Lemma long_leap (era y : Z) : 0 <= y < 400 -> long y <-> leap (y + era * 400 + 1) = true.
Proof.
  intros Hy. unfold long, leap.
  rewrite orb_true_iff, andb_true_iff, negb_true_iff, !Z.eqb_eq, Z.eqb_neq.
  Z.to_euclidean_division_equations; lia.
Qed.

Lemma civil_valid (days : Z) :
  valid_date (civil_from_days days) /\
  let '(y, m, d) := civil_from_days days in days_from_civil y m d = days.
Proof.
  rewrite civil_eq. cbn zeta.
  pose proof (Z.div_mod (days + 719468) 146097 ltac:(lia)) as Hdm.
  pose proof (Z.mod_pos_bound (days + 719468) 146097 ltac:(lia)) as Hb.
  set (doe := (days + 719468) mod 146097) in *. set (era := (days + 719468) / 146097) in *. clearbody doe era.
  pose proof (year_of_spec doe Hb) as (Hy & Hd & Hl). set (yoe := year_of doe) in *. clearbody yoe.
  set (doy := doe - year_start yoe) in *.
  pose proof (month_of_spec doy Hd) as [Hmp Hms]. set (mp := month_of doy) in *. clearbody mp.
  destruct (month_length (yoe + era * 400 + (if mp + (if mp <? 10 then 3 else -9) <=? 2 then 1 else 0)) mp Hmp)
    as [Hlen Hfeb].
  set (m := mp + (if mp <? 10 then 3 else -9)) in *.
  assert (Hm : 1 <= m <= 12 /\ m + (if 2 <? m then -3 else 9) = mp) by (subst m; repeat case_match; lia).
  destruct Hm as [Hm Hback]. set (y := yoe + era * 400 + (if m <=? 2 then 1 else 0)) in *. split.
  - split; [done|]. destruct (decide (mp = 11)) as [->|Hne]; [|rewrite <- Hlen by done; lia].
    destruct Hfeb as [Hs Hm2]; [done|]. rewrite Hs in *. unfold days_in_month. rewrite Hm2. cbn.
    destruct (leap y) eqn:Hleap; [lia|]. enough (doy <> 365) by lia. intros H365.
    apply Hl, (long_leap era) in H365; [|done]. subst y. rewrite Hm2 in Hleap. cbn in Hleap. congruence.
  - rewrite days_eq by done. cbn zeta. rewrite Hback.
    replace (y - (if m <=? 2 then 1 else 0)) with (yoe + era * 400) by (subst y; lia).
    rewrite Z.div_add, Z.mod_add, Z.div_small, Z.mod_small by lia. lia.
Qed.

Lemma civil_of_days (y m d : Z) : valid_date (y, m, d) -> civil_from_days (days_from_civil y m d) = (y, m, d).
Proof.
  intros [Hm Hd]. rewrite days_eq by done. cbn zeta.
  set (ay := y - (if m <=? 2 then 1 else 0)). set (mp := m + (if 2 <? m then -3 else 9)).
  pose proof (Z.mod_pos_bound ay 400 ltac:(lia)) as Hy. pose proof (Z.div_mod ay 400 ltac:(lia)) as Hay.
  set (yoe := ay mod 400) in *. set (era := ay / 400) in *. clearbody yoe era.
  assert (Hmp : 0 <= mp <= 11 /\ mp + (if mp <? 10 then 3 else -9) = m) by (subst mp; repeat case_match; lia).
  destruct Hmp as [Hmp Hback].
  destruct (month_length y mp Hmp) as [Hlen Hfeb]. rewrite Hback in Hlen, Hfeb.
  assert (Hdoy : 0 <= month_start mp + (d - 1) <= 365 /\ (month_start mp + (d - 1) = 365 -> long yoe) /\
    (0 <= d - 1 < month_start (mp + 1) - month_start mp)).
  { destruct (decide (mp = 11)) as [E|Hne].
    - destruct Hfeb as [Hs Hm2]; [done|]. rewrite Hs. unfold days_in_month in Hd. rewrite Hm2 in Hd. cbn in Hd.
      rewrite E. change (month_start (11 + 1)) with 367.
      assert (Hyy : y = yoe + era * 400 + 1) by (subst ay; rewrite Hm2 in Hay; cbn in Hay; lia).
      destruct (leap y) eqn:Hleap; (split_and!; [lia|lia|intros|lia|lia]); [|lia].
      apply (long_leap era); [done|]. by rewrite <- Hyy.
    - rewrite <- Hlen in Hd by done. pose proof (month_of_unique mp (d - 1) Hmp) as _.
      unfold month_start in *. split_and!; Z.to_euclidean_division_equations; lia. }
  destruct Hdoy as (Hdoy & Hlong & Hday).
  destruct (year_of_unique yoe _ Hy Hdoy Hlong) as [Hdoe Hyof].
  rewrite civil_eq. cbn zeta.
  replace (era * 146097 + year_start yoe + month_start mp + d - 1 - 719468 + 719468)
    with ((year_start yoe + (month_start mp + (d - 1))) + era * 146097) by lia.
  rewrite Z.div_add, Z.mod_add, Z.div_small, Z.mod_small, Hyof by lia.
  replace (year_start yoe + (month_start mp + (d - 1)) - year_start yoe) with (month_start mp + (d - 1)) by lia.
  rewrite month_of_unique by done. rewrite Hback. f_equal; [f_equal|]; [|lia]. subst ay. lia.
Qed.

Lemma next_day_valid (date : Z * Z * Z) : valid_date date -> valid_date (next_day date).
Proof.
  destruct date as [[y m] d]. intros [Hm Hd]. unfold next_day.
  assert (Hpos : forall y m, 28 <= days_in_month y m) by (intros; unfold days_in_month; repeat case_match; lia).
  pose proof (Hpos y (m + 1)). pose proof (Hpos (y + 1) 1).
  destruct (d <? days_in_month y m) eqn:E; [|destruct (m <? 12) eqn:E']; split; lia.
Qed.

(** From the last day of February to the first of March. *)
Lemma february (y : Z) :
  (y - (if 2 + 1 <=? 2 then 1 else 0)) / 400 * 146097 + year_start ((y - (if 2 + 1 <=? 2 then 1 else 0)) mod 400)
    + month_start (2 + 1 + (if 2 <? 2 + 1 then -3 else 9)) + 1 - 1 - 719468
  = (y - (if 2 <=? 2 then 1 else 0)) / 400 * 146097 + year_start ((y - (if 2 <=? 2 then 1 else 0)) mod 400)
    + month_start (2 + (if 2 <? 2 then -3 else 9)) + (if leap y then 29 else 28) - 1 - 719468 + 1.
Proof.
  change (2 + 1 <=? 2) with false. change (2 <=? 2) with true. change (2 <? 2 + 1) with true.
  change (2 <? 2) with false. cbn iota. change (month_start (2 + 1 + -3)) with 0. change (month_start (2 + 9)) with 337.
  unfold year_start, leap.
  destruct (y mod 4 =? 0) eqn:E1, (y mod 100 =? 0) eqn:E2, (y mod 400 =? 0) eqn:E3; cbn;
    Z.to_euclidean_division_equations; lia.
Qed.

(** The day after is one day later. *)
Lemma days_next_day (y m d : Z) :
  valid_date (y, m, d) ->
  let '(y', m', d') := next_day (y, m, d) in days_from_civil y' m' d' = days_from_civil y m d + 1.
Proof.
  intros [Hm Hd]. unfold next_day. destruct (d <? days_in_month y m) eqn:E; [rewrite !days_eq by lia; cbn zeta; lia|].
  assert (Hlast : d = days_in_month y m) by lia. subst d. clear E Hd.
  assert (m = 1 \/ m = 2 \/ m = 3 \/ m = 4 \/ m = 5 \/ m = 6 \/ m = 7 \/ m = 8 \/ m = 9 \/ m = 10 \/ m = 11 \/ m = 12)
    as Hc by lia.
  destruct (decide (m = 2)) as [->|H2].
  - cbn - [days_from_civil leap]. rewrite !days_eq by lia. cbn zeta. apply february.
  - repeat destruct Hc as [->|Hc]; try subst m; try done; cbn - [days_from_civil]; rewrite !days_eq by lia; cbn zeta;
      repeat match goal with
      | |- context [?a <=? ?b] => let v := eval vm_compute in (a <=? b) in change (a <=? b) with v
      | |- context [?a <? ?b] => let v := eval vm_compute in (a <? b) in change (a <? b) with v
      end; cbn iota;
      repeat match goal with
      | |- context [month_start ?a] => let v := eval vm_compute in (month_start a) in change (month_start a) with v
      end;
      first [lia | replace (y + 1 - 1) with (y - 0) by lia; lia].
Qed.

(** C32. The store's calendar is the Gregorian one: day 0 is 1 January 1970, and the date of every
    day, before or after it, is followed by the date of the next day under the
    rules for month lengths and leap years; and the two conversions are inverse to each other
    on all days and all dates. *)
Theorem calendar_correct :
  civil_from_days 0 = (1970, 1, 1) /\
  (forall days, civil_from_days (days + 1) = next_day (civil_from_days days)) /\
  (forall days, let '(y, m, d) := civil_from_days days in days_from_civil y m d = days) /\
  (forall y m d, valid_date (y, m, d) -> civil_from_days (days_from_civil y m d) = (y, m, d)).
Proof.
  split; [reflexivity|]. split; [|split; [intros; apply civil_valid|apply civil_of_days]].
  intros days. pose proof (civil_valid days) as [Hv Hd]. destruct (civil_from_days days) as [[y m] d].
  pose proof (days_next_day y m d Hv) as Hn. pose proof (next_day_valid _ Hv) as Hv'.
  destruct (next_day (y, m, d)) as [[y' m'] d']. rewrite <- Hd, <- Hn. by apply civil_of_days.
Qed.

(** ** The current month *)

(** Earlier days of the month. *)
Lemma civil_back (days y m d k : Z) :
  civil_from_days days = (y, m, d) -> 0 <= k < d -> civil_from_days (days - k) = (y, m, d - k).
Proof.
  intros Hc Hk. pose proof (civil_valid days) as [Hv Hd]. rewrite Hc in Hv, Hd. destruct Hv as [Hm Hday].
  rewrite <- Hd. rewrite <- (civil_of_days y m (d - k)) by (split; lia). f_equal.
  rewrite !days_eq by done. cbn zeta. lia.
Qed.

(** The first day of the month is as many days back as the date says. *)
Lemma month_first (days y m d : Z) : civil_from_days days = (y, m, d) -> days_from_civil y m 1 = days - (d - 1).
Proof.
  intros Hc. pose proof (civil_valid days) as [Hv Hd]. rewrite Hc in Hv, Hd. destruct Hv as [Hm _].
  rewrite days_eq in Hd |- * by done. cbn zeta in *. lia.
Qed.

Lemma month_range_spec (now : Z) (start until : Z) :
  current_utc_month_range now = Ok (start, until) ->
  exists y m d, 0 <= now /\ civil_from_days (now / 86400) = (y, m, d) /\
    start = (now / 86400 - (d - 1)) * 86400 /\ 1 <= d /\ start <= now < until.
Proof.
  unfold current_utc_month_range. intros Hr.
  destruct (now <? 0) eqn:Hn; [done|]. rewrite Z.quot_div_nonneg in Hr by lia.
  destruct (civil_from_days (now / 86400)) as [[y m] d] eqn:Hc. cbn zeta in Hr.
  pose proof (civil_valid (now / 86400)) as [Hv _]. rewrite Hc in Hv. destruct Hv as [Hm Hd].
  pose proof (month_first _ _ _ _ Hc) as Hf.
  assert (Hnext : (let '(ny, nm) := if m =? 12 then (y + 1, 1) else (y, m + 1) in days_from_civil ny nm 1)
                  = days_from_civil y m 1 + days_in_month y m).
  { pose proof (days_next_day y m (days_in_month y m)) as Hn'. unfold next_day in Hn'.
    rewrite Z.ltb_irrefl in Hn'. specialize (Hn' (conj Hm (conj (Z.le_trans _ _ _ (proj1 Hd) (proj2 Hd)) (Z.le_refl _)))).
    destruct (Z.eqb_spec m 12) as [->|Hne].
    - change (12 <? 12) with false in Hn'. cbn iota in Hn'. rewrite Hn', !(days_eq y) by lia. cbn zeta. lia.
    - rewrite (proj2 (Z.ltb_lt m 12)) in Hn' by lia. rewrite Hn', !(days_eq y m) by lia. cbn zeta. lia. }
  destruct (if m =? 12 then (y + 1, 1) else (y, m + 1)) as [ny nm]. rewrite Hnext, Hf in Hr.
  unfold checked_mul64, ok_or in Hr. destruct (_ && _) in Hr; [|done]. destruct (_ && _) in Hr; [|done].
  injection Hr as <- <-.
  exists y, m, d. pose proof (Z.div_mod now 86400 ltac:(lia)). pose proof (Z.mod_pos_bound now 86400 ltac:(lia)).
  split_and!; try done; lia.
Qed.

(** Months do not run backwards. *)
Lemma month_start_mono (now now' start until start' until' : Z) :
  now <= now' -> current_utc_month_range now = Ok (start, until) -> current_utc_month_range now' = Ok (start', until') ->
  start <= start'.
Proof.
  intros Hle (y & m & d & Hn & Hc & Hs & Hd & Hr)%month_range_spec (y' & m' & d' & _ & Hc' & Hs' & Hd' & _)%month_range_spec.
  destruct (Z.le_gt_cases start start') as [|Hgt]; [done|]. exfalso.
  assert (Hdays : now / 86400 <= now' / 86400) by (apply Z.div_le_mono; lia).
  pose proof (civil_back _ _ _ _ (d - 1) Hc ltac:(lia)) as H1.
  pose proof (civil_back _ _ _ _ (now' / 86400 - (now / 86400 - (d - 1))) Hc' ltac:(lia)) as H2.
  replace (now' / 86400 - (now' / 86400 - (now / 86400 - (d - 1)))) with (now / 86400 - (d - 1)) in H2 by lia.
  rewrite H1 in H2. injection H2 as _ _ H2. lia.
Qed.

(** ** Retention *)

Lemma count_if_le {A} (p : A -> bool) (l : list A) : count_if p l <= Z.of_nat (length l).
Proof. unfold count_if. pose proof (length_filter (fun x => p x = true) l). lia. Qed.

Lemma count_if_rest {A} (p : A -> bool) (l : list A) :
  Z.of_nat (length l) - Z.of_nat (length (filter (fun x => p x = false) l)) = count_if p l.
Proof.
  unfold count_if. induction l as [|x l IH]; [done|]. rewrite !filter_cons.
  destruct (p x); repeat case_decide; try done; cbn [List.length]; lia.
Qed.

Lemma readiness_ok (all range : list (Z * NewUsageEvent)) (totals : UsageTotals) :
  usage_totals range.*2 = Ok totals -> exists rd, readiness all range totals = Ok rd.
Proof.
  unfold usage_totals. case_match; [done|]. intros [= <-]. unfold readiness. cbn.
  pose proof (count_if_le (reconciliation_ready all) range).
  pose proof (count_if_le (fun e => present (ue_provider_response_id e)) range.*2).
  rewrite length_fmap in *. repeat case_match; try (eexists; reflexivity); exfalso; lia.
Qed.

(** A quota status depends on the events of the month only. *)
Lemma quota_status_range (now : Z) (t : string) (db db' : Db) :
  quota_policies db' = quota_policies db ->
  (forall start until, current_utc_month_range now = Ok (start, until) ->
     range_events t start until db' = range_events t start until db) ->
  (usage_quota_status now t db').1 = (usage_quota_status now t db).1.
Proof.
  intros Hq Hr. unfold usage_quota_status, reading. cbn [fst]. rewrite Hq.
  destruct (quota_policies db !! t) as [[[policy ?] ?]|]; [|done].
  destruct (current_utc_month_range now) as [[start until]|]; [|done]. cbn beta iota.
  unfold usage_report, reading. cbn [fst snd]. rewrite (Hr start until) by done.
  destruct (validate_usage_text t _ _); [|done]. destruct (validate_usage_range start until); [|done].
  destruct (usage_totals _) as [totals|] eqn:Ht; [|done]. destruct (grouped day_start _); [|done].
  destruct (grouped model_key _); [|done].
  destruct (readiness_ok (tenant_events t db') _ _ Ht) as [rd' ->].
  destruct (readiness_ok (tenant_events t db) _ _ Ht) as [rd ->]. done.
Qed.

Lemma cutoff_spec now days cutoff :
  usage_retention_cutoff now days = Ok cutoff -> 30 <= days /\ cutoff = now - days * 86400.
Proof.
  unfold usage_retention_cutoff, validate_usage_retention_policy.
  destruct ((days <? 30) || (3650 <? days)) eqn:E; [done|]. cbn beta iota. case_match; [done|].
  intros [= <-]. apply orb_false_iff in E as [? ?]. split; lia.
Qed.

Lemma retention_spec now random t actor execute db run db' :
  run_usage_retention now random t actor execute db = (Ok run, db') ->
  exists days start until, current_utc_month_range now = Ok (start, until) /\ 30 <= days /\
    let cutoff := Z.min (now - days * 86400) start in
    log_rows (usage_events db') = (if execute then filter (fun r => eligible t cutoff db r = false) (log_rows (usage_events db))
                                   else log_rows (usage_events db)) /\
    quota_policies db' = quota_policies db /\ rn_cutoff_unix run = cutoff /\
    rn_deleted_event_count run = (if execute then count_if (eligible t cutoff db) (log_rows (usage_events db)) else 0).
Proof.
  unfold run_usage_retention. rewrite atomically_ok. intros Ht. tx_inv Ht.
  match goal with Hc : usage_retention_cutoff now ?days = Ok _,
      Hm : current_utc_month_range now = Ok ?m |- _ =>
    apply cutoff_spec in Hc as [Hd ->]; destruct m as [start until]; exists days, start, until end.
  split; [done|]. split; [done|]. cbn. by destruct execute.
Qed.

(** C30. A retention run deletes nothing that still counts. Every usage event it removed was the
    tenant's, older than thirty days and than the current UTC month, and referred to by no
    reconciliation observation; a dry run removes nothing; the run reports exactly how many
    events went; and the quota status of every tenant, now and at any later time, is what
    it would have been without the run. *)
Theorem retention_spares_evidence now random t actor execute (db : Db) run (db' : Db) :
  run_usage_retention now random t actor execute db = (Ok run, db') ->
  (forall r, r ∈ log_rows (usage_events db) -> (r ∉ log_rows (usage_events db')) ->
     execute = true /\ ue_tenant_id r.2 = t /\ ue_created_at_unix r.2 < now - 30 * 86400 /\
     (forall start until, current_utc_month_range now = Ok (start, until) -> ue_created_at_unix r.2 < start) /\
     reconciled db r = false) /\
  log_rows (usage_events db') `sublist_of` log_rows (usage_events db) /\
  Z.of_nat (length (log_rows (usage_events db))) - Z.of_nat (length (log_rows (usage_events db')))
    = rn_deleted_event_count run /\
  (forall now' t', now <= now' -> (usage_quota_status now' t' db').1 = (usage_quota_status now' t' db).1).
Proof.
  intros (days & start & until & Hmonth & Hdays & Hrows & Hq & _ & Hcount)%retention_spec.
  set (cutoff := Z.min (now - days * 86400) start) in *. rewrite Hrows. split_and!.
  - intros r Hin Hout. destruct execute; [|done]. rewrite list_elem_of_filter in Hout.
    assert (He : eligible t cutoff db r = true) by (apply not_false_is_true; naive_solver).
    unfold eligible in He. boolp. subst cutoff. split_and!; try done; [lia|].
    intros start' until' Hm'. rewrite Hmonth in Hm'. injection Hm' as <- _. lia.
  - destruct execute; [apply sublist_filter|done].
  - rewrite Hcount. destruct execute; [|lia]. apply count_if_rest.
  - intros now' t' Hle. apply quota_status_range; [done|]. intros start' until' Hm'.
    pose proof (month_start_mono now now' start until start' until' Hle Hmonth Hm') as Hs.
    unfold range_events, tenant_events. rewrite Hrows. destruct execute; [|done].
    rewrite !list_filter_filter. apply list_filter_iff. intros r. split; [tauto|]. intros [Hr Ht'].
    split_and!; [done..|]. unfold in_range, eligible in *. boolp.
    subst cutoff. replace (ue_created_at_unix r.2 <? _) with false by lia. by rewrite andb_false_r.
Qed.

(** ** Statements *)

Lemma key_le_total {A K} `{OrdLaws K} (f : A -> K) (x y : A) : key_le f x y = true \/ key_le f y x = true.
Proof. unfold key_le. rewrite (cmp_opp (f x) (f y)). destruct (cmp (f x) (f y)); cbn; auto. Qed.

Lemma key_le_trans {A K} `{OrdLaws K} (f : A -> K) (x y z : A) :
  key_le f x y = true -> key_le f y z = true -> key_le f x z = true.
Proof.
  unfold key_le. intros Hxy Hyz.
  destruct (cmp (f x) (f y)) eqn:E1; [apply cmp_eq in E1; by rewrite E1| |done].
  destruct (cmp (f y) (f z)) eqn:E2; [apply cmp_eq in E2; by rewrite <- E2, E1| |done].
  by rewrite (cmp_trans _ _ _ E1 E2).
Qed.

Lemma key_le_antisym {A K} `{OrdLaws K} (f : A -> K) (x y : A) :
  key_le f x y = true -> key_le f y x = true -> f x = f y.
Proof.
  unfold key_le. rewrite (cmp_opp (f x) (f y)). destruct (cmp (f x) (f y)) eqn:E; cbn; try done.
  intros _ _. by apply cmp_eq.
Qed.

Lemma fmap_nodup_inj {A K} (f : A -> K) (l : list A) (x y : A) : NoDup (f <$> l) -> x ∈ l -> y ∈ l -> f x = f y -> x = y.
Proof.
  induction l as [|z l IH]; [by intros _ ?%not_elem_of_nil|]. csimpl. intros [Hz Hn]%NoDup_cons.
  intros [->|Hx]%elem_of_cons [->|Hy]%elem_of_cons Hf; auto; exfalso; apply Hz.
  - rewrite Hf. by apply list_elem_of_fmap_2.
  - rewrite <- Hf. by apply list_elem_of_fmap_2.
Qed.

(** Sorting by a key that is different in all rows forgets their order. *)
Lemma order_by_perm {A K} `{OrdLaws K} (f : A -> K) (l l' : list A) :
  NoDup (f <$> l) -> l ≡ₚ l' -> order_by f l = order_by f l'.
Proof.
  intros Hn Hp. unfold order_by. apply (sorting.StronglySorted_unique_strong (fun a b => key_le f a b = true)).
  - intros a b Ha Hb H1 H2. apply sort_by_elem in Ha, Hb. rewrite <- Hp in Hb.
    eapply fmap_nodup_inj; eauto using key_le_antisym.
  - apply sort_by_sorted; eauto using key_le_total, key_le_trans.
  - apply sort_by_sorted; eauto using key_le_total, key_le_trans.
  - by rewrite !sort_by_perm.
Qed.

(** One record is in order, whatever the others. *)
Definition record_valid (r : NewUsageReconciliationRecord) : Prop := validate_reconciliation_records [] [r] = Ok tt.

Lemma validate_records_cons seen r rest :
  validate_reconciliation_records seen (r :: rest) = Ok tt <->
  record_valid r /\ (nr_source_record_id r ∉ seen) /\
  validate_reconciliation_records (nr_source_record_id r :: seen) rest = Ok tt.
Proof.
  unfold record_valid. cbn [validate_reconciliation_records].
  rewrite (bool_decide_eq_false_2 (nr_source_record_id r ∈ [])) by apply not_elem_of_nil.
  destruct (validate_usage_text (nr_source_record_id r) _ _); [|by split; [|intros [? _]]].
  case_bool_decide; [by split; [|intros (_ & ? & _)]|].
  destruct (usage_provider (nr_provider r)); [|by split; [|intros [? _]]].
  destruct (validate_usage_text (nr_provider_response_id r) _ _); [|by split; [|intros [? _]]].
  destruct (Bool.eqb (present (nr_input_tokens r)) _); [|by split; [|intros [? _]]].
  destruct (negb (present (nr_input_tokens r)) && _); [by split; [|intros [? _]]|].
  destruct (optional_database_integer (nr_input_tokens r) _); [|by split; [|intros [? _]]].
  destruct (optional_database_integer (nr_output_tokens r) _); [|by split; [|intros [? _]]].
  destruct (optional_database_integer (nr_cost_usd_micros r) _); [|by split; [|intros [? _]]].
  split; [intros ?; by split_and!|by intros (_ & _ & ?)].
Qed.

Lemma validate_records_iff (records : list NewUsageReconciliationRecord) : forall seen,
  validate_reconciliation_records seen records = Ok tt <->
  Forall record_valid records /\ NoDup (nr_source_record_id <$> records) /\
  Forall (fun r => nr_source_record_id r ∉ seen) records.
Proof.
  induction records as [|r records IH]; intros seen.
  - split; [intros _; by repeat constructor|done].
  - rewrite validate_records_cons, IH, !Forall_cons. csimpl. rewrite NoDup_cons.
    assert (Hiff : Forall (fun x => nr_source_record_id x ∉ nr_source_record_id r :: seen) records <->
      (nr_source_record_id r ∉ nr_source_record_id <$> records) /\ Forall (fun x => nr_source_record_id x ∉ seen) records).
    { rewrite !Forall_forall. split.
      - intros Hall. split.
        + intros (x & Heq & Hx)%list_elem_of_fmap. apply (Hall x Hx). rewrite Heq. left.
        + intros x Hx Hs. apply (Hall x Hx). by right.
      - intros [Hr Hs] x Hx [Heq|Hin]%elem_of_cons; [|by apply (Hs x Hx)].
        apply Hr. rewrite <- Heq. by apply list_elem_of_fmap_2. }
    rewrite Hiff. tauto.
Qed.

Lemma validate_records_unit seen records u : validate_reconciliation_records seen records = Ok u -> u = tt.
Proof. by destruct u. Qed.

(** Permuting the records of a valid statement leaves it valid and its bytes the same. *)
Lemma validate_records_perm records records' :
  records ≡ₚ records' -> validate_reconciliation_records [] records = Ok tt ->
  validate_reconciliation_records [] records' = Ok tt.
Proof.
  intros Hp (H1 & H2 & H3)%validate_records_iff. apply validate_records_iff.
  split; [|split]; [by rewrite <- Hp|by rewrite <- (fmap_Permutation nr_source_record_id _ _ Hp)|by rewrite <- Hp].
Qed.

Lemma statement_bytes_perm source id records records' :
  validate_reconciliation_records [] records = Ok tt -> records ≡ₚ records' ->
  statement_bytes (mkReconciliationImport source id records) = statement_bytes (mkReconciliationImport source id records').
Proof.
  intros (_ & Hn & _)%validate_records_iff Hp. unfold statement_bytes.
  cbn [ni_source ni_statement_id ni_records]. by rewrite (order_by_perm _ _ _ Hn Hp), (Permutation_length Hp).
Qed.

(** ** Reading the bytes back *)

Lemma be_bytes_len k n : Str.len (be_bytes k n) = k.
Proof. induction k as [|k IH]; cbn; [done|]. by rewrite <- IH at 2. Qed.

Lemma str_app_inj (a a' b b' : string) : Str.len a = Str.len a' -> a +:+ b = a' +:+ b' -> a = a' /\ b = b'.
Proof.
  revert a'. induction a as [|c a IH]; intros [|c' a']; try done.
  rewrite !Str.app_cons. cbn. intros [= Hl] [= -> Hab]. destruct (IH a' Hl Hab) as [-> ->]. done.
Qed.

(** The number a big-endian text stands for. *)
Fixpoint be_value (s : string) : Z :=
  match s with
  | EmptyString => 0
  | String c s' => byte_value c * 256 ^ Z.of_nat (Str.len s') + be_value s'
  end.

Lemma be_value_bytes k n : be_value (be_bytes k n) = n mod 256 ^ Z.of_nat k.
Proof.
  induction k as [|k IH]; [cbn; by rewrite Z.mod_1_r|]. cbn [be_bytes be_value].
  rewrite IH, be_bytes_len, Nat2Z.inj_succ, Z.pow_succ_r by lia. unfold byte_value.
  assert (Hb : 0 <= n / 256 ^ Z.of_nat k mod 256 < 256) by (apply Z.mod_pos_bound; lia).
  rewrite N_ascii_embedding by lia. rewrite Z2N.id by lia.
  rewrite (Z.mul_comm 256), Z.rem_mul_r by (pose proof (Z.pow_pos_nonneg 256 (Z.of_nat k)); lia). lia.
Qed.

Lemma u64_be_len n : Str.len (u64_be_bytes n) = 8%nat.
Proof. apply be_bytes_len. Qed.

Definition u64 (n : Z) : Prop := 0 <= n <= u64_max.

Lemma u64_be_inj (n n' : Z) : u64 n -> u64 n' -> u64_be_bytes n = u64_be_bytes n' -> n = n'.
Proof.
  intros Hn Hn' Heq. apply (f_equal be_value) in Heq. unfold u64_be_bytes in Heq. rewrite !be_value_bytes in Heq.
  unfold u64, u64_max in *. rewrite !Z.mod_small in Heq by (change (256 ^ Z.of_nat 8) with (2 ^ 64); lia). done.
Qed.

(** A text, a counter and a record are each read back from the front of the bytes. *)
Lemma text_inj (s s' b b' : string) :
  u64 (Z.of_nat (Str.len s)) -> u64 (Z.of_nat (Str.len s')) ->
  hash_reconciliation_text s +:+ b = hash_reconciliation_text s' +:+ b' -> s = s' /\ b = b'.
Proof.
  unfold hash_reconciliation_text. rewrite !Str.app_assoc. intros Hs Hs' Heq.
  apply str_app_inj in Heq as [Hl Heq]; [|by rewrite !u64_be_len].
  apply u64_be_inj in Hl; [|done..]. by apply str_app_inj in Heq; [|lia].
Qed.

Lemma string_tail (c c' : ascii) (s s' : string) : String c s = String c' s' -> s = s'.
Proof. by intros [= _ ->]. Qed.

Lemma optional_inj (o o' : option Z) (b b' : string) :
  (forall n, o = Some n -> u64 n) -> (forall n, o' = Some n -> u64 n) ->
  hash_reconciliation_optional_u64 o +:+ b = hash_reconciliation_optional_u64 o' +:+ b' -> o = o' /\ b = b'.
Proof.
  intros Ho Ho' Heq. destruct o as [n|], o' as [n'|]; cbn [hash_reconciliation_optional_u64] in Heq;
    rewrite !Str.app_cons in Heq; try discriminate Heq; apply string_tail in Heq.
  - apply str_app_inj in Heq as [Hl ->]; [|by rewrite !u64_be_len].
    apply u64_be_inj in Hl as ->; [done|by apply Ho|by apply Ho'].
  - by rewrite !Str.app_nil_l in Heq.
Qed.

(** What a statement's values are before validation: strings that fit in memory and
    unsigned counters. *)
Definition record_typed (r : NewUsageReconciliationRecord) : Prop :=
  u64 (Z.of_nat (Str.len (nr_source_record_id r))) /\ u64 (Z.of_nat (Str.len (nr_provider r))) /\
  u64 (Z.of_nat (Str.len (nr_provider_response_id r))) /\ (forall n, nr_input_tokens r = Some n -> u64 n) /\
  (forall n, nr_output_tokens r = Some n -> u64 n) /\ (forall n, nr_cost_usd_micros r = Some n -> u64 n).

Definition import_typed (i : NewUsageReconciliationImport) : Prop :=
  u64 (Z.of_nat (Str.len (ni_source i))) /\ u64 (Z.of_nat (Str.len (ni_statement_id i))) /\
  u64 (Z.of_nat (length (ni_records i))) /\ Forall record_typed (ni_records i).

Lemma record_inj r r' b b' :
  record_typed r -> record_typed r' -> record_bytes r +:+ b = record_bytes r' +:+ b' -> r = r' /\ b = b'.
Proof.
  intros (T1 & T2 & T3 & T4 & T5 & T6) (T1' & T2' & T3' & T4' & T5' & T6'). unfold record_bytes.
  rewrite !Str.app_assoc. intros Heq.
  apply text_inj in Heq as [E1 Heq]; [|done..]. apply text_inj in Heq as [E2 Heq]; [|done..].
  apply text_inj in Heq as [E3 Heq]; [|done..]. apply optional_inj in Heq as [E4 Heq]; [|done..].
  apply optional_inj in Heq as [E5 Heq]; [|done..]. apply optional_inj in Heq as [E6 Heq]; [|done..].
  split; [|done]. destruct r, r'; cbn in *. by simplify_eq.
Qed.

Lemma records_inj l : forall l', length l = length l' -> Forall record_typed l -> Forall record_typed l' ->
  foldr (fun r acc => record_bytes r +:+ acc) EmptyString l = foldr (fun r acc => record_bytes r +:+ acc) EmptyString l' ->
  l = l'.
Proof.
  induction l as [|r l IH]; intros [|r' l']; try done. cbn [List.length foldr].
  intros [= Hl] [Hr Ht]%Forall_cons [Hr' Ht']%Forall_cons Heq.
  apply record_inj in Heq as [-> Heq]; [|done..]. f_equal. by apply IH.
Qed.

(** The hashed bytes determine the statement up to the order of its records. *)
Lemma statement_bytes_inj (i i' : NewUsageReconciliationImport) :
  import_typed i -> import_typed i' -> statement_bytes i = statement_bytes i' ->
  ni_source i = ni_source i' /\ ni_statement_id i = ni_statement_id i' /\ ni_records i ≡ₚ ni_records i'.
Proof.
  intros (T1 & T2 & T3 & T4) (T1' & T2' & T3' & T4') Heq. unfold statement_bytes in Heq.
  apply str_app_inj in Heq as [_ Heq]; [|done].
  apply text_inj in Heq as [E1 Heq]; [|done..]. apply text_inj in Heq as [E2 Heq]; [|done..].
  apply str_app_inj in Heq as [Hl Heq]; [|by rewrite !u64_be_len]. apply u64_be_inj in Hl; [|done..].
  split_and!; [done..|]. apply records_inj in Heq.
  - rewrite <- (sort_by_perm (key_le nr_source_record_id) (ni_records i)).
    rewrite <- (sort_by_perm (key_le nr_source_record_id) (ni_records i')). unfold order_by in Heq. by rewrite Heq.
  - unfold order_by. rewrite !sort_by_perm. lia.
  - unfold order_by. by rewrite sort_by_perm.
  - unfold order_by. by rewrite sort_by_perm.
Qed.

(** ** Importing a statement *)

Section imports.
Context `{Sha256, UrlParser, JsonCodec TenantPolicyDocument, JsonCodec TenantModelPolicy,
          JsonCodec (list string), JsonCodec Value}.
Variable hmac_sha256 : string -> string -> string.

(** The tenant's run for a statement. *)
Definition of_statement (t source id : string) (r : UsageReconciliationRun) : bool :=
  bool_decide (rr_tenant_id r = t) && bool_decide (rr_source r = source) && bool_decide (rr_statement_id r = id).

(** It is there, and it is the only one. *)
Definition imported (t source id : string) (run : UsageReconciliationRun) (db : Db) : Prop :=
  (exists k, reconciliation_runs db !! k = Some run) /\ of_statement t source id run = true /\
  forall k r, reconciliation_runs db !! k = Some r -> of_statement t source id r = true -> r = run.

Lemma imported_find t source id run db :
  imported t source id run db -> find_row (of_statement t source id) (reconciliation_runs db) = Some run.
Proof. intros ([k Hk] & Hs & Hu). by eapply find_row_unique. Qed.

Lemma validate_import_spec i h :
  validate_usage_reconciliation_import i = Ok h <->
  validate_usage_text (ni_source i) "reconciliation source" 128 = Ok tt /\
  validate_usage_text (ni_statement_id i) "reconciliation statement ID" 256 = Ok tt /\
  (length (ni_records i) <> 0%nat /\ length (ni_records i) <= 1000)%nat /\
  validate_reconciliation_records [] (ni_records i) = Ok tt /\ h = sha256 (statement_bytes i).
Proof.
  unfold validate_usage_reconciliation_import.
  destruct (validate_usage_text (ni_source i) _ _) as [[]|]; [|by split; [|intros [? _]]].
  destruct (validate_usage_text (ni_statement_id i) _ _) as [[]|]; [|by split; [|intros (_ & ? & _)]].
  destruct ((length (ni_records i) =? 0)%nat || _) eqn:E.
  - split; [done|]. intros (_ & _ & ? & _). exfalso.
    apply orb_true_iff in E as [E%Nat.eqb_eq|E%Nat.ltb_lt]; lia.
  - apply orb_false_iff in E as [E1 E2]. apply Nat.eqb_neq in E1. apply Nat.ltb_ge in E2.
    destruct (validate_reconciliation_records [] (ni_records i)) as [[]|]; [|by split; [|intros (_ & _ & _ & ? & _)]].
    split; [intros [= <-]; by split_and!|]. by intros (_ & _ & _ & _ & ->).
Qed.

(** Every record got one of the four statuses. *)
Definition tallied (run : UsageReconciliationRun) : Prop :=
  rr_matched_count run + rr_mismatched_count run + rr_orphan_count run + rr_ambiguous_count run = rr_record_count run.

Lemma statuses_total (l : list (NewUsageReconciliationRecord * (option Z * UsageReconciliationStatus))) :
  let counted s := count_if (fun e => bool_decide (e.2.2 = s)) l in
  counted Matched + counted Mismatched + counted Orphan + counted Ambiguous = Z.of_nat (length l).
Proof.
  cbn zeta. unfold count_if. induction l as [|[r [o s]] l IH]; [done|].
  rewrite !filter_cons. cbn [snd fst List.length]. destruct s; repeat case_decide; try done; cbn [List.length]; lia.
Qed.

(** A new run, under a statement the tenant had not imported. *)
Definition adds_run (db db' : Db) (run : UsageReconciliationRun) : Prop :=
  (forall k r, reconciliation_runs db !! k = Some r ->
     of_statement (rr_tenant_id run) (rr_source run) (rr_statement_id run) r = false) /\
  reconciliation_runs db !! rr_id run = None /\
  reconciliation_runs db' = <[rr_id run := run]> (reconciliation_runs db) /\ tallied run.

Lemma import_spec now random t actor i (db : Db) run (db' : Db) :
  import_usage_reconciliation now random t actor i db = (Ok run, db') ->
  validate_usage_text t "reconciliation tenant ID" 256 = Ok tt /\
  validate_usage_reconciliation_import i = Ok (rr_statement_hash run) /\
  of_statement t (ni_source i) (ni_statement_id i) run = true /\
  (db' = db /\ find_row (of_statement t (ni_source i) (ni_statement_id i)) (reconciliation_runs db) = Some run \/
   adds_run db db' run /\ rr_record_count run = Z.of_nat (length (ni_records i))).
Proof.
  unfold import_usage_reconciliation. rewrite atomically_ok. intros Ht. cbn zeta in Ht.
  destruct (validate_usage_text t _ _) as [[]|]; [|done]. destruct (validate_usage_text actor _ _); [|done].
  destruct (validate_usage_reconciliation_import i) as [h|]; [|done]. cbn beta iota in Ht.
  change (fun r => _ && _) with (of_statement t (ni_source i) (ni_statement_id i)) in Ht.
  destruct (find_row _ _) as [r|] eqn:Hf.
  - destruct (negb _) eqn:Hb in Ht; [done|]. injection Ht as <- <-. apply negb_false_iff, bool_decide_eq_true in Hb.
    rewrite Hb. apply find_row_some in Hf as Hf'. destruct Hf' as [_ Hs]. split_and!; auto.
  - destruct (_ || _) eqn:Hb in Ht; [done|]. injection Ht as <- <-. apply orb_false_iff in Hb as [Hb _].
    split_and!; try done; [unfold of_statement; cbn; by rewrite !bool_decide_eq_true_2|]. right. split; [|done].
    split_and!; [|by apply has_false|done|].
    + intros k r Hk. by eapply find_row_none in Hf.
    + unfold tallied. cbn. rewrite statuses_total. by rewrite length_fmap.
Qed.

Lemma exec_runs (r : Request) (db : Db) :
  reconciliation_runs (exec hmac_sha256 r db) = reconciliation_runs db \/
  exists run, adds_run db (exec hmac_sha256 r db) run.
Proof.
  destruct (imports r) eqn:Hr; [|left; by apply exec_keeps_runs]. destruct r; try done. cbn [exec].
  destruct (import_usage_reconciliation _ _ _ _ _ db) as [[run|e] db'] eqn:Hi; cbn [snd].
  - apply import_spec in Hi as (_ & _ & _ & [[-> _]|[Ha _]]); eauto.
  - left. by rewrite (atomically_err _ _ _ _ Hi).
Qed.

(** A later import leaves a statement's run alone. *)
Lemma exec_imported t source id run (r : Request) (db : Db) :
  imported t source id run db -> imported t source id run (exec hmac_sha256 r db).
Proof.
  intros ([k Hk] & Hs & Hu). destruct (exec_runs r db) as [E|(new & Hnew & Hid & E & _)]; unfold imported; rewrite E.
  - eauto.
  - assert (Hne : of_statement t source id new = false).
    { destruct (of_statement t source id new) eqn:Hn; [|done]. specialize (Hnew _ _ Hk).
      unfold of_statement in *. boolp. subst. by rewrite !bool_decide_eq_true_2 in Hnew by congruence. }
    split_and!; [|done|].
    + exists k. rewrite lookup_insert_ne; [done|]. intros <-. by rewrite Hid in Hk.
    + intros k' r' [[<- <-]|[Hk' ?]]%lookup_insert_Some Hr'; [by rewrite Hne in Hr'|eauto].
Qed.

(** A tenant has one run per statement, and its counts add up. *)
Definition runs_ok (db : Db) : Prop :=
  (forall k r, reconciliation_runs db !! k = Some r -> tallied r) /\
  (forall k k' r r', reconciliation_runs db !! k = Some r -> reconciliation_runs db !! k' = Some r' ->
     of_statement (rr_tenant_id r) (rr_source r) (rr_statement_id r) r' = true -> r = r').

Lemma of_statement_sym r r' :
  of_statement (rr_tenant_id r) (rr_source r) (rr_statement_id r) r' = true ->
  of_statement (rr_tenant_id r') (rr_source r') (rr_statement_id r') r = true.
Proof. unfold of_statement. intros. boolp. by rewrite !bool_decide_eq_true_2. Qed.

Lemma adds_runs_ok (db db' : Db) run : adds_run db db' run -> runs_ok db -> runs_ok db'.
Proof.
  intros (Hnew & Hid & E & Ht) [Hall Hu]. unfold runs_ok. rewrite E. split.
  - intros k r [[_ <-]|[_ Hk]]%lookup_insert_Some; eauto.
  - intros k k' r r' [[_ <-]|[_ Hk]]%lookup_insert_Some [[_ <-]|[_ Hk']]%lookup_insert_Some Hs; eauto.
    + by rewrite (Hnew _ _ Hk') in Hs.
    + apply of_statement_sym in Hs. by rewrite (Hnew _ _ Hk) in Hs.
Qed.

Lemma reachable_runs (db : Db) : reachable hmac_sha256 db -> runs_ok db.
Proof.
  intros (now & trace & ->). apply (run_invariant hmac_sha256 runs_ok); [|by split].
  intros r db Hok. destruct (exec_runs r db) as [E|[run Ha]]; [|by eapply adds_runs_ok].
  unfold runs_ok. by rewrite E.
Qed.

(** After a successful import the statement has its run. *)
Lemma import_imported now random t actor i (db : Db) run (db' : Db) :
  runs_ok db -> import_usage_reconciliation now random t actor i db = (Ok run, db') ->
  imported t (ni_source i) (ni_statement_id i) run db' /\ tallied run.
Proof.
  intros [Hall Hu] (_ & _ & Hs & [[-> Hf]|[(Hnew & Hid & E & Ht) _]])%import_spec.
  - apply find_row_some in Hf as [[k Hk] _]. split; [|eauto]. split_and!; eauto. intros k' r Hk' Hr.
    symmetry. eapply Hu; [done..|]. unfold of_statement in *. boolp. by rewrite !bool_decide_eq_true_2 by congruence.
  - split; [|done]. unfold imported. rewrite E. split_and!; [exists (rr_id run); by rewrite lookup_insert_eq|done|].
    intros k r [[_ <-]|[_ Hk]]%lookup_insert_Some Hr; [done|]. specialize (Hnew _ _ Hk).
    unfold of_statement in *. boolp. by rewrite !bool_decide_eq_true_2 in Hnew by congruence.
Qed.
(** Importing it again, in whatever order of records, finds the run. *)
Lemma reimport now random t actor i records run (db : Db) :
  imported t (ni_source i) (ni_statement_id i) run db ->
  validate_usage_text t "reconciliation tenant ID" 256 = Ok tt ->
  validate_usage_text actor "reconciliation actor admin ID" 256 = Ok tt ->
  validate_usage_reconciliation_import i = Ok (rr_statement_hash run) -> ni_records i ≡ₚ records ->
  import_usage_reconciliation now random t actor (mkReconciliationImport (ni_source i) (ni_statement_id i) records) db
    = (Ok run, db).
Proof.
  intros Hi%imported_find Ht Ha (Hs & Hid & Hlen & Hr & Hh)%validate_import_spec Hp.
  unfold import_usage_reconciliation. rewrite atomically_ok. rewrite Ht, Ha. cbn beta iota.
  assert (Hv : validate_usage_reconciliation_import
      (mkReconciliationImport (ni_source i) (ni_statement_id i) records) = Ok (rr_statement_hash run)).
  { apply validate_import_spec. cbn [ni_source ni_statement_id ni_records].
    rewrite <- (Permutation_length Hp). split_and!; try done; [lia..|by eapply validate_records_perm|].
    rewrite Hh. f_equal. destruct i. by apply statement_bytes_perm. }
  rewrite Hv. cbn beta iota zeta. cbn [ni_source ni_statement_id].
  change (fun r => _ && _) with (of_statement t (ni_source i) (ni_statement_id i)). rewrite Hi.
  by rewrite bool_decide_eq_true_2.
Qed.

(** C31. Importing a provider statement is idempotent. The run of a successful import accounts
    for every record (matched, mismatched, orphan or ambiguous). Whatever happens afterwards,
    importing the statement again, its records in any order, returns that run and leaves the
    database as it is; and an import under the same source and statement identifier succeeds
    only so, with the same records, unless SHA-256 maps two different byte strings to
    the same digest. *)
Theorem reconciliation_idempotent now random t actor i (db : Db) run (db' : Db) trace :
  reachable hmac_sha256 db ->
  import_usage_reconciliation now random t actor i db = (Ok run, db') ->
  let later := TenantAccess.run hmac_sha256 trace db' in
  rr_matched_count run + rr_mismatched_count run + rr_orphan_count run + rr_ambiguous_count run = rr_record_count run /\
  (forall now' random' actor' records,
     validate_usage_text actor' "reconciliation actor admin ID" 256 = Ok tt -> ni_records i ≡ₚ records ->
     import_usage_reconciliation now' random' t actor'
       (mkReconciliationImport (ni_source i) (ni_statement_id i) records) later = (Ok run, later)) /\
  (forall now' random' actor' i' run' last,
     import_typed i -> import_typed i' -> ni_source i' = ni_source i -> ni_statement_id i' = ni_statement_id i ->
     import_usage_reconciliation now' random' t actor' i' later = (Ok run', last) ->
     run' = run /\ last = later /\
     (ni_records i ≡ₚ ni_records i' \/
      statement_bytes i <> statement_bytes i' /\ sha256 (statement_bytes i) = sha256 (statement_bytes i'))).
Proof.
  intros Hok%reachable_runs Himp later. pose proof Himp as (Ht & Hv & _ & _)%import_spec.
  apply import_imported in Himp as [Hi Htally]; [|done].
  assert (Hl : imported t (ni_source i) (ni_statement_id i) run later)
    by (apply run_invariant; [intros; by apply exec_imported|done]).
  split; [done|]. split; [intros; by apply reimport|].
  intros now' random' actor' i' run' last Hty Hty' Es Eid (_ & Hv' & Hs' & Hcase)%import_spec.
  rewrite Es, Eid in *. destruct Hcase as [[-> Hf]|[(Hnew & _) _]].
  - rewrite (imported_find _ _ _ _ _ Hl) in Hf. injection Hf as <-. split_and!; [done..|].
    apply validate_import_spec in Hv as (_ & _ & _ & _ & Hh), Hv' as (_ & _ & _ & _ & Hh').
    destruct (decide (statement_bytes i = statement_bytes i')) as [Hb|Hb]; [left|right; split; congruence].
    by apply statement_bytes_inj.
  - exfalso. destruct Hl as ([k Hk] & Hs & _). specialize (Hnew _ _ Hk). unfold of_statement in *. boolp.
    by rewrite !bool_decide_eq_true_2 in Hnew by congruence.
Qed.
End imports.

(** ** A tenant's evidence *)

#[local] Existing Instances scene_sha scene_url scene_doc scene_model scene_types scene_value.

Definition used (request : string) (response : option string) (at_unix : Z) : NewUsageEvent :=
  mkUsageEvent tenant request response "openai" "/v1/chat/completions" "small" None (Some 12) (Some 30) Actual Unpriced
    None None None None at_unix.

(** Three events, one of them of the current month, and a ninety-day retention policy. *)
Definition metered : Db :=
  run scene_hmac
    [ RAppendUsage (used "req-1" (Some "resp-1") 1000); RAppendUsage (used "req-2" (Some "resp-2") 1000);
      RAppendUsage (used "req-3" None 1710000000); RSetRetention 2000 tenant "admin" (Some 90);
      RSetQuota 2000 tenant "admin" (Some (mkQuotaPolicy (Some 10) None None 8000)) ] deployed.

Lemma run_reachable hmac (trace : list Request) (db : Db) : reachable hmac db -> reachable hmac (run hmac trace db).
Proof. intros (now & trace' & ->). exists now, (trace' ++ trace)%list. by rewrite run_app. Qed.

Lemma metered_reachable : reachable scene_hmac metered.
Proof. apply run_reachable, deployed_reachable. Qed.

Definition charged : NewUsageReconciliationRecord :=
  mkReconciliationRecord "row-1" "openai" "resp-1" (Some 12) (Some 30) None.
Definition stray : NewUsageReconciliationRecord :=
  mkReconciliationRecord "row-2" "openai" "resp-9" (Some 5) (Some 5) None.
Definition statement : NewUsageReconciliationImport :=
  mkReconciliationImport "openai-invoice" "2024-02" [charged; stray].

Definition statement_run : UsageReconciliationRun := Eval vm_compute in
  match (import_usage_reconciliation 3000 "r" tenant "admin" statement metered).1 with
  | Ok run => run
  | Err _ => mkReconciliationRun EmptyString EmptyString EmptyString EmptyString EmptyString EmptyString 0 0 0 0 0 0
  end.

#[local] Abbreviation accounted := (import_usage_reconciliation 3000 "r" tenant "admin" statement metered).2.

Lemma statement_imported :
  import_usage_reconciliation 3000 "r" tenant "admin" statement metered = (Ok statement_run, accounted).
Proof. apply pair_snd. vm_compute. reflexivity. Qed.

Lemma reconciliation_idempotent_witness :
  let later := run scene_hmac [RSetTenantActive tenant false] accounted in
  rr_matched_count statement_run = 1 /\ rr_orphan_count statement_run = 1 /\
  import_usage_reconciliation 5000 "q" tenant "auditor"
    (mkReconciliationImport "openai-invoice" "2024-02" [stray; charged]) later = (Ok statement_run, later).
Proof.
  split; [reflexivity|]. split; [reflexivity|].
  destruct (reconciliation_idempotent scene_hmac 3000 "r" tenant "admin" statement metered statement_run accounted
              [RSetTenantActive tenant false] metered_reachable statement_imported) as (_ & Hre & _).
  apply Hre; [reflexivity|apply perm_swap].
Defined.

Definition retention_run : UsageRetentionRun := Eval vm_compute in
  match (run_usage_retention 1710460800 "n" tenant "admin" true accounted).1 with
  | Ok run => run
  | Err _ => mkRetentionRun EmptyString EmptyString EmptyString 0 0 false 0 0 0 0 0 0 0
  end.

#[local] Abbreviation retained := (run_usage_retention 1710460800 "n" tenant "admin" true accounted).2.

Lemma retention_runs :
  run_usage_retention 1710460800 "n" tenant "admin" true accounted = (Ok retention_run, retained).
Proof. apply pair_snd. vm_compute. reflexivity. Qed.

Lemma retention_spares_evidence_witness :
  rn_deleted_event_count retention_run = 1 /\
  (usage_quota_status 1710460900 tenant retained).1 = (usage_quota_status 1710460900 tenant accounted).1.
Proof.
  split; [reflexivity|].
  destruct (retention_spares_evidence _ _ _ _ _ _ _ _ retention_runs) as (_ & _ & _ & Hq). apply Hq. lia.
Defined.
