(* ===== verification/Oidc.v ===== *)
(** OpenID Connect without the browser: what login seals into the redirect, the proof
    against cross-site requests, provider metadata and token exchange ([proxy/src/oidc.rs]),
    and the verification of an ID token ([proxy/src/oidc_token.rs]).

    The libraries are parameters: authenticated encryption ([Aead], AES-256-GCM), base64url
    decoding ([Base64Url]), HMAC, the JSON readers, the [url] crate, the HTTP client ([send]) and the
    [jsonwebtoken] crate ([Jwt]). *)
From S2P Require Import Prelude BTree Net Json TenantDb TenantSession TenantPolicy.
From Stdlib Require Import String Ascii.
Local Open Scope string_scope.
Local Open Scope Z_scope.

#[local] Abbreviation length := List.length.

(** AES-256-GCM: key, nonce, associated data, message. *)
Class Aead := {
  aead_encrypt : string -> string -> string -> string -> option string;
  aead_decrypt : string -> string -> string -> string -> option string }.

(** [URL_SAFE_NO_PAD.decode]. *)
Class Base64Url := base64url_decode : string -> option string.

(** Documented behaviour: what was encrypted is decrypted, with sixteen bytes of tag. *)
Class AeadLaws `{Aead} : Prop := {
  decrypt_encrypt key nonce aad message sealed :
    aead_encrypt key nonce aad message = Some sealed -> aead_decrypt key nonce aad sealed = Some message;
  encrypt_len key nonce aad message sealed :
    aead_encrypt key nonce aad message = Some sealed -> Str.len sealed = (Str.len message + 16)%nat }.

Class Base64UrlLaws `{Base64Url} : Prop := decode_base64url s : base64url_decode (base64url s) = Some s.

(** ** One-time values *)

Definition CALLBACK_PATH : string := "/auth/oidc/callback".
Definition AUTHORIZATION_STATE_AAD : string := "llm-firewall/oidc-authorization-state/v1".
Definition SAML_AUTHORIZATION_STATE_AAD : string := "llm-firewall/saml-authorization-state/v1".
Definition SAML_RELAY_STATE_AAD : string := "llm-firewall/saml-relay-state/v1".
Definition BROWSER_CSRF_KEY_DERIVATION : string := "llm-firewall/browser-csrf-key/v1".
Definition BROWSER_CSRF_AAD : string := "llm-firewall/browser-csrf-token/v1".
Definition AES_GCM_NONCE_BYTES : nat := 12.
Definition MAX_SEALED_AUTHORIZATION_STATE_BYTES : nat := Z.to_nat (4 * 1024).

Record PkcePair := mkPkce { pk_code_verifier : string; pk_code_challenge : string }.

Definition random_urlsafe_value (random : string) : string := base64url random.

Definition validate_state_component (value field : string) (max_bytes : nat) : result string string :=
  bail_if (Str.is_empty value || (max_bytes <? Str.len value)%nat || has_control value)
    with (field +:+ " is invalid") in
  Ok value.

Definition validate_token_exchange_component (value field : string) (max_bytes : nat) : result unit string :=
  bail_if (Str.is_empty value || (max_bytes <? Str.len value)%nat || has_control value)
    with (field +:+ " is invalid") in
  Ok tt.

(** ** Sealed browser state *)

Record OidcStateCipher := mkCipher { ci_key : string; ci_csrf_key : string }.

Record AuthorizationState := mkAuthorizationState {
  as_organization_id : string; as_workspace_id : string; as_invitation_id : option string;
  as_code_verifier : string; as_nonce : string; as_expires_at_unix : Z }.

(** Documented behaviour of [serde_json] on this record: it reads back what it wrote, and
    escapes quotes and backslashes only when there are no control characters. *)
Class StateJsonLaws `{JsonCodec AuthorizationState} : Prop := {
  state_json_read s : - 2 ^ 63 <= as_expires_at_unix s < 2 ^ 63 -> from_json (to_json s) = Some s;
  state_json_len s : - 2 ^ 63 <= as_expires_at_unix s < 2 ^ 63 ->
    has_control (as_organization_id s) = false -> has_control (as_workspace_id s) = false ->
    has_control (default EmptyString (as_invitation_id s)) = false -> has_control (as_code_verifier s) = false ->
    has_control (as_nonce s) = false ->
    (Str.len (to_json s) <= 2 * (Str.len (as_organization_id s) + Str.len (as_workspace_id s)
       + Str.len (default EmptyString (as_invitation_id s)) + Str.len (as_code_verifier s) + Str.len (as_nonce s)) + 256)%nat }.

Record SamlSealedState := mkSamlSealedState {
  sl_organization_id : string; sl_workspace_id : string; sl_expires_at_unix : Z }.

Section cipher.
Context `{Sha256, Aead, Base64Url, JsonCodec AuthorizationState, JsonCodec SamlSealedState}.
Variable hmac_sha256 : string -> string -> string.

Definition pkce_generate (random : string) : PkcePair :=
  let code_verifier := random_urlsafe_value random in
  mkPkce code_verifier (base64url (sha256 code_verifier)).

Definition from_base64url_key (encoded_key : string) : result OidcStateCipher string :=
  match base64url_decode encoded_key with
  | None => Err "OIDC state encryption key is not valid base64url"
  | Some key =>
      bail_if (negb (Str.len key =? 32)%nat)
        with "OIDC state encryption key must decode to exactly 32 bytes" in
      Ok (mkCipher key (sha256 (BROWSER_CSRF_KEY_DERIVATION +:+ key)))
  end.

(** The nonce in front of the ciphertext. *)
Definition sealed_with (c : OidcStateCipher) (aad gcm_nonce plaintext error : string) : result string string :=
  match aead_encrypt (ci_key c) gcm_nonce aad plaintext with
  | None => Err error
  | Some ciphertext => Ok (base64url (gcm_nonce +:+ ciphertext))
  end.

Definition opened_with (c : OidcStateCipher) (aad : string) (bytes : string) : option string :=
  aead_decrypt (ci_key c) (Str.take AES_GCM_NONCE_BYTES bytes) aad (Str.drop AES_GCM_NONCE_BYTES bytes).

Definition seal_authorization_state_with_invitation (c : OidcStateCipher) (gcm_nonce : string)
    (organization_id workspace_id : string) (invitation_id : option string) (pkce : PkcePair) (nonce : string)
    (expires_at_unix : Z) : result string string :=
  let? organization_id := validate_state_component organization_id "OIDC organization" 256 in
  let? workspace_id := validate_state_component workspace_id "OIDC workspace" 256 in
  let? invitation_id := match invitation_id with
                        | None => Ok None
                        | Some value => let? value := validate_state_component value "workspace invitation" 256 in
                                        Ok (Some value)
                        end in
  let? nonce := validate_state_component nonce "OIDC nonce" 256 in
  let state := mkAuthorizationState organization_id workspace_id invitation_id (pk_code_verifier pkce) nonce
                 expires_at_unix in
  sealed_with c AUTHORIZATION_STATE_AAD gcm_nonce (to_json state) "failed to encrypt OIDC authorization state".

Definition seal_authorization_state (c : OidcStateCipher) (gcm_nonce organization_id workspace_id : string)
    (pkce : PkcePair) (nonce : string) (expires_at_unix : Z) : result string string :=
  seal_authorization_state_with_invitation c gcm_nonce organization_id workspace_id None pkce nonce expires_at_unix.

Definition open_authorization_state (c : OidcStateCipher) (sealed : string) : result AuthorizationState string :=
  let invalid := "invalid OIDC authorization state" in
  bail_if (Str.is_empty sealed || (MAX_SEALED_AUTHORIZATION_STATE_BYTES <? Str.len sealed)%nat) with invalid in
  match base64url_decode sealed with
  | None => Err invalid
  | Some bytes =>
      bail_if (Str.len bytes <=? AES_GCM_NONCE_BYTES)%nat with invalid in
      match opened_with c AUTHORIZATION_STATE_AAD bytes with
      | None => Err invalid
      | Some plaintext => ok_or (from_json plaintext) invalid
      end
  end.

Definition seal_saml_authorization_state (c : OidcStateCipher) (gcm_nonce organization_id workspace_id : string)
    (expires_at_unix : Z) : result string string :=
  let? organization_id := validate_state_component organization_id "SAML organization" 256 in
  let? workspace_id := validate_state_component workspace_id "SAML workspace" 256 in
  sealed_with c SAML_AUTHORIZATION_STATE_AAD gcm_nonce
    (to_json (mkSamlSealedState organization_id workspace_id expires_at_unix))
    "failed to encrypt SAML authorization state".

Definition open_saml_authorization_state (c : OidcStateCipher) (sealed : string) : result SamlSealedState string :=
  let invalid := "invalid SAML authorization state" in
  bail_if (Str.is_empty sealed || (MAX_SEALED_AUTHORIZATION_STATE_BYTES <? Str.len sealed)%nat) with invalid in
  match base64url_decode sealed with
  | None => Err invalid
  | Some bytes =>
      bail_if (Str.len bytes <=? AES_GCM_NONCE_BYTES)%nat with invalid in
      match opened_with c SAML_AUTHORIZATION_STATE_AAD bytes with
      | None => Err invalid
      | Some plaintext => ok_or (from_json plaintext) invalid
      end
  end.

(** [marker]: sixteen random bytes. *)
Definition seal_saml_relay_state (c : OidcStateCipher) (gcm_nonce marker : string) : result string string :=
  sealed_with c SAML_RELAY_STATE_AAD gcm_nonce marker "failed to encrypt SAML RelayState".

Definition open_saml_relay_state (c : OidcStateCipher) (sealed : string) : result unit string :=
  let invalid := "invalid SAML RelayState" in
  bail_if (Str.is_empty sealed || (80 <? Str.len sealed)%nat) with invalid in
  match base64url_decode sealed with
  | None => Err invalid
  | Some bytes =>
      bail_if (negb (Str.len bytes =? AES_GCM_NONCE_BYTES + 16 + 16)%nat) with invalid in
      match opened_with c SAML_RELAY_STATE_AAD bytes with
      | None => Err invalid
      | Some marker => bail_if (negb (Str.len marker =? 16)%nat) with invalid in Ok tt
      end
  end.

(** ** Proof against cross-site requests *)

Definition browser_csrf_token (c : OidcStateCipher) (session_token : string) : string :=
  base64url (hmac_sha256 (ci_csrf_key c) (BROWSER_CSRF_AAD +:+ session_token)).

Definition verifies_browser_csrf_token (c : OidcStateCipher) (session_token presented : string) : bool :=
  if Str.is_empty presented || (128 <? Str.len presented)%nat then false
  else match base64url_decode presented with
       | None => false
       | Some proof => bool_decide (proof = hmac_sha256 (ci_csrf_key c) (BROWSER_CSRF_AAD +:+ session_token))
       end.
End cipher.

(** ** The provider over HTTP *)

Definition MAX_DISCOVERY_DOCUMENT_BYTES : nat := Z.to_nat (64 * 1024).
Definition MAX_JWKS_DOCUMENT_BYTES : nat := Z.to_nat (256 * 1024).
Definition MAX_TOKEN_RESPONSE_BYTES : nat := Z.to_nat (64 * 1024).
Definition MAX_AUTHORIZATION_CODE_BYTES : nat := Z.to_nat (8 * 1024).

Inductive HttpRequest :=
| HttpGet (url : Url)
| HttpPostForm (url : Url) (form : list (string * string)).

(** What arrives: status, the announced length, and the body chunk by chunk. *)
Record HttpResponse := mkHttpResponse {
  hr_status : Z; hr_content_length : option Z; hr_chunks : list (result string string) }.

Record DiscoveryDocument := mkDiscovery {
  di_issuer : string; di_authorization_endpoint : string; di_token_endpoint : string; di_jwks_uri : string;
  di_response_types_supported : list string; di_grant_types_supported : list string;
  di_code_challenge_methods_supported : list string }.

Record ValidatedEndpoints := mkEndpoints {
  ep_authorization_endpoint : Url; ep_token_endpoint : Url; ep_jwks_uri : Url }.

Record OidcTokenResponse := mkTokenResponse { tr_id_token : string }.

Definition ensure_success_response_size (response : HttpResponse) (max_bytes : nat) (description : string) :
    result unit string :=
  bail_if (negb ((200 <=? hr_status response) && (hr_status response <? 300)))
    with (description +:+ " returned a non-success status") in
  bail_if (match hr_content_length response with Some n => Z.of_nat max_bytes <? n | None => false end)
    with (description +:+ " exceeds the size limit") in
  Ok tt.

Definition append_bounded_chunk (body chunk : string) (max_bytes : nat) (description : string) :
    result string string :=
  bail_if (max_bytes - Str.len body <? Str.len chunk)%nat with (description +:+ " exceeds the size limit") in
  Ok (body +:+ chunk).

Fixpoint read_chunks (body : string) (chunks : list (result string string)) (max_bytes : nat) (description : string) :
    result string string :=
  match chunks with
  | [] => Ok body
  | Err _ :: _ => Err ("failed to read " +:+ description)
  | Ok chunk :: rest =>
      let? body := append_bounded_chunk body chunk max_bytes description in
      read_chunks body rest max_bytes description
  end.

Definition read_bounded_response (response : HttpResponse) (max_bytes : nat) (description : string) :
    result string string :=
  read_chunks EmptyString (hr_chunks response) max_bytes description.

(** ** Keys and claims, as [jsonwebtoken] reads them *)

Inductive Algorithm := HS256 | HS384 | HS512 | ES256 | ES384 | RS256 | RS384 | RS512 | PS256 | PS384 | PS512 | EdDSA.
#[export] Instance Algorithm_eq_dec : EqDecision Algorithm.
Proof. solve_decision. Defined.

(** A key may name an algorithm no token uses. *)
Inductive KeyAlgorithm := KeySigns (a : Algorithm) | KeyEncrypts (name : string).
#[export] Instance KeyAlgorithm_eq_dec : EqDecision KeyAlgorithm.
Proof. solve_decision. Defined.

Inductive PublicKeyUse := UseSignature | UseEncryption | UseOther (name : string).
#[export] Instance PublicKeyUse_eq_dec : EqDecision PublicKeyUse.
Proof. solve_decision. Defined.

Inductive KeyOperations := OpVerify | OpOther (name : string).
#[export] Instance KeyOperations_eq_dec : EqDecision KeyOperations.
Proof. solve_decision. Defined.

Record Jwk := mkJwk {
  jk_key_id : option string; jk_public_key_use : option PublicKeyUse;
  jk_key_operations : option (list KeyOperations); jk_key_algorithm : option KeyAlgorithm;
  jk_material : string }.

Definition JwkSet : Type := list Jwk.

Record IdTokenClaims := mkClaims {
  cl_iss : string; cl_sub : string; cl_aud : Value; cl_exp : Z; cl_iat : Z; cl_nonce : string; cl_azp : option string }.

Record Validation := mkValidation {
  vn_algorithm : Algorithm; vn_leeway : Z; vn_validate_nbf : bool; vn_issuer : string; vn_audience : string;
  vn_required_spec_claims : list string }.

Class Jwt := {
  decode_header : string -> option (Algorithm * option string);
  from_jwk : Jwk -> bool;
  decode_claims : Z -> string -> Jwk -> Validation -> option IdTokenClaims }.

(** An audience claim names the client: alone or in a list. *)
Definition names_audience (audience : string) (claim : Value) : bool :=
  match claim with
  | JString s => bool_decide (s = audience)
  | JArray l => existsb (fun v => bool_decide (v = JString audience)) l
  | _ => false
  end.

(** Documented behaviour of [decode]: the signature is the key's ([signed]), the
    issuer and the audience are those required, and the token has not expired. *)
Class JwtLaws `{Jwt} (signed : Jwk -> Algorithm -> string -> IdTokenClaims -> Prop) : Prop :=
  decode_claims_ok now token key v claims :
    decode_claims now token key v = Some claims ->
    signed key (vn_algorithm v) token claims /\ cl_iss claims = vn_issuer v /\
    names_audience (vn_audience v) (cl_aud claims) = true /\ now - vn_leeway v <= cl_exp claims.

Record VerifiedIdToken := mkVerified { vi_issuer : string; vi_subject : string }.

Section provider.
Context `{UrlParser, Base64Url, Jwt, JsonCodec DiscoveryDocument, JsonCodec JwkSet, JsonCodec OidcTokenResponse,
          JsonCodec Value}.
Variable send : HttpRequest -> result HttpResponse string.

Definition parse_https_uri (value field : string) (query_allowed : bool) : result Url string :=
  match url_parse value with
  | None => Err (field +:+ " must be an absolute URI")
  | Some url =>
      bail_if (negb (bool_decide (url_scheme url = "https")) || bool_decide (url_host_str url = None)
               || negb (Str.is_empty (url_username url)) || negb (bool_decide (url_password url = None))
               || (negb query_allowed && negb (bool_decide (url_query url = None)))
               || negb (bool_decide (url_fragment url = None)))
        with (field +:+ " must be an HTTPS URI without credentials or a fragment") in
      Ok url
  end.

Definition set_path (path : string) (u : Url) : Url :=
  mkUrl (url_scheme u) (url_host_str u) (url_username u) (url_password u) (url_query u) (url_fragment u) path.

Definition discovery_url (issuer : string) : result Url string :=
  let? url := parse_https_uri issuer "OIDC issuer" false in
  Ok (set_path (Str.trim_end_matches (fun a => Ascii.eqb a "/") (url_path url)
                +:+ "/.well-known/openid-configuration") url).

Definition validate_for_connection (d : DiscoveryDocument) (connection : OrganizationOidcConnection) :
    result ValidatedEndpoints string :=
  bail_if (negb (oc_active connection)) with "OIDC connection is inactive" in
  bail_if (negb (bool_decide (di_issuer d = oc_issuer connection)))
    with "OIDC discovery issuer does not exactly match the organization connection" in
  bail_if (negb (bool_decide ("code" ∈ di_response_types_supported d)))
    with "OIDC provider does not advertise authorization-code response support" in
  bail_if (negb (bool_decide (di_grant_types_supported d = []))
           && negb (bool_decide ("authorization_code" ∈ di_grant_types_supported d)))
    with "OIDC provider does not advertise authorization-code grant support" in
  bail_if (negb (bool_decide ("S256" ∈ di_code_challenge_methods_supported d)))
    with "OIDC provider does not advertise PKCE S256 support" in
  let? authorization_endpoint := parse_https_uri (di_authorization_endpoint d) "OIDC authorization endpoint" true in
  let? token_endpoint := parse_https_uri (di_token_endpoint d) "OIDC token endpoint" true in
  let? jwks_uri := parse_https_uri (di_jwks_uri d) "OIDC JWKS URI" true in
  Ok (mkEndpoints authorization_endpoint token_endpoint jwks_uri).

Definition parse_and_validate_discovery (body : string) (connection : OrganizationOidcConnection) :
    result ValidatedEndpoints string :=
  let? document := ok_or (from_json body) "OIDC discovery document is not valid JSON" in
  validate_for_connection document connection.

Definition parse_jwks (body : string) : result JwkSet string :=
  let? jwks := ok_or (from_json body : option JwkSet) "OIDC JWKS response is not valid JSON" in
  bail_if (length jwks =? 0)%nat with "OIDC JWKS response contains no keys" in
  Ok jwks.

Definition parse_token_response (body : string) : result OidcTokenResponse string :=
  let? response := ok_or (from_json body) "OIDC token response is not valid JSON" in
  bail_if (Str.is_empty (tr_id_token response)) with "OIDC token response has no ID token" in
  Ok response.

Definition fetch_validated_discovery (connection : OrganizationOidcConnection) : result ValidatedEndpoints string :=
  let? url := discovery_url (oc_issuer connection) in
  match send (HttpGet url) with
  | Err _ => Err "OIDC discovery request failed"
  | Ok response =>
      let? _ := ensure_success_response_size response MAX_DISCOVERY_DOCUMENT_BYTES "OIDC discovery response" in
      let? body := read_bounded_response response MAX_DISCOVERY_DOCUMENT_BYTES "OIDC discovery response" in
      parse_and_validate_discovery body connection
  end.

Definition fetch_jwks (endpoints : ValidatedEndpoints) : result JwkSet string :=
  match send (HttpGet (ep_jwks_uri endpoints)) with
  | Err _ => Err "OIDC JWKS request failed"
  | Ok response =>
      let? _ := ensure_success_response_size response MAX_JWKS_DOCUMENT_BYTES "OIDC JWKS response" in
      let? body := read_bounded_response response MAX_JWKS_DOCUMENT_BYTES "OIDC JWKS response" in
      parse_jwks body
  end.

Definition exchange_authorization_code (endpoints : ValidatedEndpoints) (connection : OrganizationOidcConnection)
    (code code_verifier : string) : result OidcTokenResponse string :=
  let? _ := validate_token_exchange_component code "OIDC authorization code" MAX_AUTHORIZATION_CODE_BYTES in
  let? _ := validate_token_exchange_component code_verifier "OIDC PKCE verifier" 256 in
  match send (HttpPostForm (ep_token_endpoint endpoints)
                [("grant_type", "authorization_code"); ("code", code);
                 ("redirect_uri", oc_redirect_uri connection); ("client_id", oc_client_id connection);
                 ("code_verifier", code_verifier)]) with
  | Err _ => Err "OIDC token request failed"
  | Ok response =>
      let? _ := ensure_success_response_size response MAX_TOKEN_RESPONSE_BYTES "OIDC token response" in
      let? body := read_bounded_response response MAX_TOKEN_RESPONSE_BYTES "OIDC token response" in
      parse_token_response body
  end.

(** ** ID tokens *)

Definition MAX_ID_TOKEN_BYTES : nat := Z.to_nat (16 * 1024).
Definition MAX_JWT_HEADER_BYTES : nat := Z.to_nat 1024.
Definition CLOCK_SKEW_SECONDS : Z := 60.
Definition SUPPORTED_ID_TOKEN_ALGORITHMS : list Algorithm :=
  [RS256; RS384; RS512; PS256; PS384; PS512; ES256; ES384; EdDSA].

Definition reject_unsafe_jose_header (token : string) : result unit string :=
  match Str.split_char "." token with
  | [encoded_header; _; _] =>
      match base64url_decode encoded_header with
      | None => Err "invalid OIDC ID token"
      | Some header =>
          bail_if (MAX_JWT_HEADER_BYTES <? Str.len header)%nat
            with "OIDC ID token header exceeds the size limit" in
          match from_json header with
          | Some (JObject m) =>
              bail_if (existsb (fun forbidden => bool_decide (is_Some (BMap.get forbidden m)))
                         ["crit"; "jku"; "jwk"; "x5u"; "x5c"])
                with "OIDC ID token has an unsupported JOSE header" in
              bail_if (bool_decide (BMap.get "b64" m = Some (JBool false)))
                with "OIDC ID token has an unsupported JOSE header" in
              Ok tt
          | _ => Err "invalid OIDC ID token"
          end
      end
  | _ => Err "invalid OIDC ID token"
  end.

(** The pairs of the table: every signature algorithm but the symmetric ones, with itself. *)
Definition jwk_algorithm_matches (key_algorithm : KeyAlgorithm) (token_algorithm : Algorithm) : bool :=
  match key_algorithm, token_algorithm with
  | KeySigns RS256, RS256 | KeySigns RS384, RS384 | KeySigns RS512, RS512
  | KeySigns PS256, PS256 | KeySigns PS384, PS384 | KeySigns PS512, PS512
  | KeySigns ES256, ES256 | KeySigns ES384, ES384 | KeySigns EdDSA, EdDSA => true
  | _, _ => false
  end.

Definition select_verification_key (jwks : JwkSet) (kid : string) (algorithm : Algorithm) : result Jwk string :=
  match filter (fun key => jk_key_id key = Some kid) jwks with
  | [key] =>
      bail_if (match jk_public_key_use key with Some UseSignature | None => false | _ => true end)
        with "OIDC verification key is not intended for signatures" in
      bail_if (match jk_key_operations key with
               | Some operations => negb (bool_decide (OpVerify ∈ operations)) | None => false end)
        with "OIDC verification key cannot verify signatures" in
      bail_if (match jk_key_algorithm key with
               | Some a => negb (jwk_algorithm_matches a algorithm) | None => false end)
        with "OIDC verification key algorithm does not match the token" in
      Ok key
  | _ => Err "OIDC verification key is missing or ambiguous"
  end.

Definition has_multiple_audiences (audience : Value) : bool :=
  match audience with JArray values => (1 <? length values)%nat | _ => false end.

Definition validate_claims (now : Z) (claims : IdTokenClaims) (connection : OrganizationOidcConnection)
    (expected_nonce : string) : result unit string :=
  bail_if (negb (bool_decide (cl_iss claims = oc_issuer connection)) || Str.is_empty (cl_sub claims)
           || (Z.to_nat 1024 <? Str.len (cl_sub claims))%nat || has_control (cl_sub claims)
           || negb (bool_decide (cl_nonce claims = expected_nonce)))
    with "OIDC ID token claims are invalid" in
  bail_if (has_multiple_audiences (cl_aud claims) && bool_decide (cl_azp claims = None))
    with "OIDC ID token with multiple audiences is missing azp" in
  bail_if (match cl_azp claims with
           | Some party => negb (bool_decide (party = oc_client_id connection)) | None => false end)
    with "OIDC ID token azp does not match the client ID" in
  bail_if (now <? 0) with "system clock is before the Unix epoch" in
  bail_if (i64_max <? now) with "system clock is out of range" in
  bail_if ((cl_exp claims <=? 0) || (cl_iat claims <=? 0) || (now + CLOCK_SKEW_SECONDS <? cl_iat claims))
    with "OIDC ID token time claims are invalid" in
  Ok tt.

Definition verify_id_token (now : Z) (id_token : string) (jwks : JwkSet)
    (connection : OrganizationOidcConnection) (expected_nonce : string) : result VerifiedIdToken string :=
  bail_if (Str.is_empty id_token || (MAX_ID_TOKEN_BYTES <? Str.len id_token)%nat || Str.is_empty expected_nonce)
    with "invalid OIDC ID token" in
  let? _ := reject_unsafe_jose_header id_token in
  match decode_header id_token with
  | None => Err "invalid OIDC ID token"
  | Some (alg, kid) =>
      bail_if (negb (bool_decide (alg ∈ SUPPORTED_ID_TOKEN_ALGORITHMS)))
        with "OIDC ID token uses an unsupported signature algorithm" in
      match kid with
      | None => Err "OIDC ID token is missing a key identifier"
      | Some kid =>
          bail_if (Str.is_empty kid) with "OIDC ID token is missing a key identifier" in
          let? key := select_verification_key jwks kid alg in
          bail_if (negb (from_jwk key)) with "invalid OIDC verification key" in
          let validation := mkValidation alg CLOCK_SKEW_SECONDS true (oc_issuer connection) (oc_client_id connection)
                              ["exp"; "iss"; "aud"; "sub"] in
          match decode_claims now id_token key validation with
          | None => Err "OIDC ID token verification failed"
          | Some claims =>
              let? _ := validate_claims now claims connection expected_nonce in
              Ok (mkVerified (cl_iss claims) (cl_sub claims))
          end
      end
  end.
End provider.
