(* ===== verification/PortalTypes.v ===== *)
(** The customer portal, part one ([proxy/src/oidc_auth.rs]): what its endpoints send and
    answer. Requests carry headers; answers are a status, an optional cookie or redirect and a
    body. 64-bit numbers leave as decimal text. Also the session cookie, the usage range and the
    CSV export. *)
From S2P Require Import Prelude BTree Net Json Spend TenantDb TenantDirectory TenantScim TenantSession.
From S2P Require Import TenantPolicy TenantUsage Oidc.
From Stdlib Require Import String Ascii.
Local Open Scope string_scope.
Local Open Scope Z_scope.

#[local] Abbreviation length := List.length.

(** ** Headers *)

Definition AUTHORIZATION_STATE_TTL_SECONDS : Z := 10 * 60.
Definition BROWSER_SESSION_TTL_SECONDS : Z := 8 * 60 * 60.
Definition SESSION_COOKIE_NAME : string := "__Host-llm-fw-session".
Definition CUSTOMER_CSRF_HEADER : string := "x-llm-firewall-csrf-token".
Definition MAX_BROWSER_SESSION_TOKEN_BYTES : nat := 256.
Definition MAX_CUSTOMER_PRINCIPAL_ID_BYTES : nat := 256.

(** A header map: lowercase names with their values, in the order they came. *)
Definition HeaderMap : Type := list (string * string).

(** [HeaderValue::to_str]: only visible ASCII, space and tab. *)
Definition visible (a : ascii) : bool := Str.byte_in a 32 126 || Str.byte_is a 9.
Definition to_str (value : string) : option string := if Str.forallb visible value then Some value else None.

Definition get_all (name : string) (headers : HeaderMap) : list string :=
  omap (fun h => if bool_decide (h.1 = name) then Some h.2 else None) headers.

Definition csrf_header (headers : HeaderMap) : option string := head (get_all CUSTOMER_CSRF_HEADER headers) ≫= to_str.

(** [s.split_once(c)]. *)
Fixpoint split_once (c : ascii) (s : string) : option (string * string) :=
  match s with
  | EmptyString => None
  | String a rest =>
      if Ascii.eqb a c then Some (EmptyString, rest)
      else match split_once c rest with Some (k, v) => Some (String a k, v) | None => None end
  end.

Definition is_valid_browser_session_token (token : string) : bool :=
  negb (Str.is_empty token) && (Str.len token <=? MAX_BROWSER_SESSION_TOKEN_BYTES)%nat
  && Str.forallb (fun a => Str.is_alnum a || Ascii.eqb a "-" || Ascii.eqb a "_") token.

(** The loop over the cookies; [seen] is the token found so far. *)
Fixpoint session_token_in (seen : option string) (cookies : list string) : option string :=
  match cookies with
  | [] => seen
  | cookie :: rest =>
      match split_once "=" (Str.trim cookie) with
      | None => session_token_in seen rest
      | Some (name, token) =>
          if negb (bool_decide (name = SESSION_COOKIE_NAME)) then session_token_in seen rest
          else if bool_decide (is_Some seen) || negb (is_valid_browser_session_token token) then None
          else session_token_in (Some token) rest
      end
  end.

Definition session_cookie_token (headers : HeaderMap) : option string :=
  session_token_in None (omap to_str (get_all "cookie" headers) ≫= Str.split_char ";").

Definition session_cookie (token : string) (max_age_seconds : Z) : result string string :=
  bail_if (negb (is_valid_browser_session_token token) || (max_age_seconds <=? 0))
    with "invalid OIDC browser session cookie" in
  let text := SESSION_COOKIE_NAME +:+ "=" +:+ token +:+ "; Path=/; Max-Age=" +:+ show_usize max_age_seconds
              +:+ "; HttpOnly; Secure; SameSite=Lax" in
  ok_or (to_str text) "invalid OIDC browser session cookie".

Definition expired_session_cookie : string :=
  "__Host-llm-fw-session=; Path=/; Max-Age=0; Expires=Thu, 01 Jan 1970 00:00:00 GMT; HttpOnly; Secure; SameSite=Lax".

(** ** What customers see *)

Record CustomerProxyAuditEvent := mkProxyAudit {
  pa_created_at_unix : Z; pa_path : string; pa_outcome : string; pa_status_code : Z; pa_latency_ms : Z }.
Definition proxy_audit_from (e : TenantAuditEvent) : CustomerProxyAuditEvent :=
  mkProxyAudit (ta_created_at_unix e) (ta_path e) (ta_outcome e) (ta_status_code e) (ta_latency_ms e).

Record CustomerUsageTotals := mkCustomerTotals {
  ct_request_count : string; ct_actual_token_events : string; ct_missing_token_events : string;
  ct_priced_events : string; ct_unpriced_events : string; ct_provider_correlated_events : string;
  ct_input_tokens : string; ct_output_tokens : string; ct_priced_cost_usd_micros : string }.
Definition totals_from (t : UsageTotals) : CustomerUsageTotals :=
  mkCustomerTotals (show_usize (to_request_count t)) (show_usize (to_actual_token_events t))
    (show_usize (to_missing_token_events t)) (show_usize (to_priced_events t)) (show_usize (to_unpriced_events t))
    (show_usize (to_provider_correlated_events t)) (show_usize (to_input_tokens t))
    (show_usize (to_output_tokens t)) (show_usize (to_priced_cost_usd_micros t)).

Record CustomerUsageReconciliation := mkCustomerReconciliation {
  cr_ready_events : string; cr_review_required_events : string;
  cr_missing_provider_response_id_events : string; cr_duplicate_provider_response_id_groups : string;
  cr_duplicate_provider_response_id_events : string }.
Definition reconciliation_from (r : UsageReconciliationReadiness) : CustomerUsageReconciliation :=
  mkCustomerReconciliation (show_usize (rd_ready_events r)) (show_usize (rd_review_required_events r))
    (show_usize (rd_missing_provider_response_id_events r)) (show_usize (rd_duplicate_provider_response_id_groups r))
    (show_usize (rd_duplicate_provider_response_id_events r)).

Record CustomerUsageReport := mkCustomerReport {
  cu_from_unix : Z; cu_until_unix : Z; cu_totals : CustomerUsageTotals;
  cu_daily : list (Z * CustomerUsageTotals); cu_models : list (string * string * CustomerUsageTotals);
  cu_reconciliation : CustomerUsageReconciliation }.
Definition usage_report_from (r : UsageReport) : CustomerUsageReport :=
  mkCustomerReport (rp_from_unix r) (rp_until_unix r) (totals_from (rp_totals r))
    ((fun day => (day.1, totals_from day.2)) <$> rp_daily r)
    ((fun model => (model.1, totals_from model.2)) <$> rp_models r)
    (reconciliation_from (rp_reconciliation r)).

Inductive CustomerInvoicePreviewStatus := InvoiceReady | InvoiceReviewRequired.
Record CustomerInvoiceLineItem := mkLineItem {
  li_provider : string; li_requested_model : string; li_request_count : string; li_input_tokens : string;
  li_output_tokens : string; li_cost_usd_micros : string }.
Record CustomerInvoicePreview := mkInvoice {
  in_currency : string; in_from_unix : Z; in_until_unix : Z; in_status : CustomerInvoicePreviewStatus;
  in_is_final : bool; in_totals : CustomerUsageTotals; in_line_items : list CustomerInvoiceLineItem;
  in_reconciliation : CustomerUsageReconciliation; in_notice : string }.
Definition invoice_from (r : UsageReport) : CustomerInvoicePreview :=
  let status := if (to_missing_token_events (rp_totals r) =? 0) && (to_unpriced_events (rp_totals r) =? 0)
                   && (rd_review_required_events (rp_reconciliation r) =? 0)
                then InvoiceReady else InvoiceReviewRequired in
  mkInvoice "USD" (rp_from_unix r) (rp_until_unix r) status false (totals_from (rp_totals r))
    ((fun model : string * string * UsageTotals =>
        mkLineItem model.1.1 model.1.2 (show_usize (to_request_count model.2)) (show_usize (to_input_tokens model.2))
          (show_usize (to_output_tokens model.2)) (show_usize (to_priced_cost_usd_micros model.2))) <$> rp_models r)
    (reconciliation_from (rp_reconciliation r))
    "Preview only. Final invoices require provider reconciliation, tax/privacy review, and an explicit billing workflow.".

Record CustomerUsageReconciliationRun := mkCustomerRun {
  cn_id : string; cn_source : string; cn_statement_id : string; cn_record_count : string; cn_matched_count : string;
  cn_mismatched_count : string; cn_orphan_count : string; cn_ambiguous_count : string; cn_created_at_unix : Z }.
Definition run_from (r : UsageReconciliationRun) : CustomerUsageReconciliationRun :=
  mkCustomerRun (rr_id r) (rr_source r) (rr_statement_id r) (show_usize (rr_record_count r))
    (show_usize (rr_matched_count r)) (show_usize (rr_mismatched_count r)) (show_usize (rr_orphan_count r))
    (show_usize (rr_ambiguous_count r)) (rr_created_at_unix r).

Record CustomerUsageReconciliationObservation := mkCustomerObservation {
  co_source_record_id : string; co_provider : string; co_provider_response_id : string;
  co_input_tokens : option string; co_output_tokens : option string; co_cost_usd_micros : option string;
  co_status : UsageReconciliationStatus; co_created_at_unix : Z }.
Definition observation_from (o : UsageReconciliationObservation) : CustomerUsageReconciliationObservation :=
  mkCustomerObservation (ro_source_record_id o) (ro_provider o) (ro_provider_response_id o)
    (show_usize <$> ro_input_tokens o) (show_usize <$> ro_output_tokens o) (show_usize <$> ro_cost_usd_micros o)
    (ro_status o) (ro_created_at_unix o).

Record CustomerUsageRetentionRun := mkCustomerRetentionRun {
  ce_id : string; ce_retention_days : Z; ce_cutoff_unix : Z; ce_executed : bool; ce_eligible_event_count : string;
  ce_protected_reconciliation_event_count : string; ce_eligible_input_tokens : string;
  ce_eligible_output_tokens : string; ce_eligible_cost_usd_micros : string; ce_deleted_event_count : string;
  ce_created_at_unix : Z }.
Definition retention_run_from (r : UsageRetentionRun) : CustomerUsageRetentionRun :=
  mkCustomerRetentionRun (rn_id r) (rn_retention_days r) (rn_cutoff_unix r) (rn_executed r)
    (show_usize (rn_eligible_event_count r)) (show_usize (rn_protected_reconciliation_event_count r))
    (show_usize (rn_eligible_input_tokens r)) (show_usize (rn_eligible_output_tokens r))
    (show_usize (rn_eligible_cost_usd_micros r)) (show_usize (rn_deleted_event_count r)) (rn_created_at_unix r).

Record CustomerUsageQuotaPolicy := mkCustomerQuotaPolicy {
  cq_request_limit : option string; cq_token_limit : option string; cq_cost_usd_micros_limit : option string;
  cq_alert_threshold_basis_points : Z }.
Definition quota_policy_from (p : UsageQuotaPolicy) : CustomerUsageQuotaPolicy :=
  mkCustomerQuotaPolicy (show_usize <$> qp_request_limit p) (show_usize <$> qp_token_limit p)
    (show_usize <$> qp_cost_usd_micros_limit p) (qp_alert_threshold_basis_points p).

Record CustomerUsageQuotaMetricStatus := mkCustomerMetric {
  cm_used : string; cm_limit : string; cm_state : UsageQuotaState }.
Definition metric_from (m : UsageQuotaMetricStatus) : CustomerUsageQuotaMetricStatus :=
  mkCustomerMetric (show_usize (qm_used m)) (show_usize (qm_limit m)) (qm_state m).

Record CustomerUsageQuotaStatus := mkCustomerQuotaStatus {
  cs_from_unix : Z; cs_until_unix : Z; cs_policy : CustomerUsageQuotaPolicy;
  cs_requests : option CustomerUsageQuotaMetricStatus; cs_tokens : option CustomerUsageQuotaMetricStatus;
  cs_cost_usd_micros : option CustomerUsageQuotaMetricStatus; cs_missing_token_events : string;
  cs_unpriced_events : string; cs_attention_required : bool }.
Definition quota_status_from (s : UsageQuotaStatus) : CustomerUsageQuotaStatus :=
  mkCustomerQuotaStatus (qs_from_unix s) (qs_until_unix s) (quota_policy_from (qs_policy s))
    (metric_from <$> qs_requests s) (metric_from <$> qs_tokens s) (metric_from <$> qs_cost_usd_micros s)
    (show_usize (qs_missing_token_events s)) (show_usize (qs_unpriced_events s)) (qs_attention_required s).

(** Destinations and deliveries without the tenant. *)
Record CustomerWebhookDestination := mkCustomerDestination {
  cd_id : string; cd_url : string; cd_event_types : list string; cd_active : bool; cd_created_at_unix : Z;
  cd_updated_at_unix : Z }.
Definition destination_from (d : WebhookDestinationRow) (event_types : list string) : CustomerWebhookDestination :=
  mkCustomerDestination (wd_id d) (wd_url d) event_types (wd_active d) (wd_created_at_unix d) (wd_updated_at_unix d).

Record CustomerWebhookDelivery := mkCustomerDelivery {
  cv_id : string; cv_event_id : string; cv_destination_id : string; cv_status : WebhookDeliveryStatus;
  cv_attempt_count : Z; cv_next_attempt_at_unix : Z; cv_locked_until_unix : option Z;
  cv_delivered_at_unix : option Z; cv_last_http_status : option Z; cv_last_error : option string;
  cv_created_at_unix : Z }.
Definition delivery_from (d : WebhookDelivery) : CustomerWebhookDelivery :=
  mkCustomerDelivery (wv_id d) (wv_event_id d) (wv_destination_id d) (wv_status d) (wv_attempt_count d)
    (wv_next_attempt_at_unix d) (wv_locked_until_unix d) (wv_delivered_at_unix d) (wv_last_http_status d)
    (wv_last_error d) (wv_created_at_unix d).

Record CustomerServiceAccount := mkCustomerAccount {
  ca_account_id : string; ca_name : string; ca_created_by_principal_id : string; ca_active : bool;
  ca_expires_at_unix : string; ca_created_at_unix : Z; ca_revoked_at_unix : option Z }.
Definition service_account_from (a : WorkspaceServiceAccount) : CustomerServiceAccount :=
  mkCustomerAccount (sa_id a) (sa_name a) (sa_created_by_principal_id a) (sa_active a)
    (show_usize (sa_expires_at_unix a)) (sa_created_at_unix a) (sa_revoked_at_unix a).

Record CustomerRateLimit := mkCustomerRateLimit { crl_requests_per_window : Z; crl_window_seconds : string }.
Record CustomerSpendLimit := mkCustomerSpendLimit {
  csl_window_seconds : string; csl_max_usd_micros : string; csl_reserve_usd_micros_per_request : string }.
Record CustomerTenantLimits := mkCustomerLimits {
  ctl_rate_limit : option CustomerRateLimit; ctl_spend_limit : option CustomerSpendLimit }.
Definition limits_from (l : TenantLimits) : CustomerTenantLimits :=
  mkCustomerLimits
    ((fun r => mkCustomerRateLimit (trl_requests_per_window r) (show_usize (trl_window_seconds r))) <$> tl_rate_limit l)
    ((fun s => mkCustomerSpendLimit (show_usize (tsl_window_seconds s)) (show_usize (tsl_max_usd_micros s))
                 (show_usize (tsl_reserve_usd_micros_per_request s))) <$> tl_spend_limit l).

Record IssuedCustomerWorkspaceInvitation := mkIssuedCustomerInvitation {
  ici_invitation : WorkspaceInvitation; ici_token : string; ici_accept_path : string }.
Definition issued_invitation_from (issued : WorkspaceInvitation * string) : IssuedCustomerWorkspaceInvitation :=
  mkIssuedCustomerInvitation issued.1 issued.2 ("/customer/invitation#" +:+ issued.2).

(** ** The clock and the usage range *)

(** [now_unix], of the seconds since the epoch the system clock shows. *)
Definition now_unix (clock : Z) : result Z string :=
  bail_if (clock <? 0) with "system clock is before the Unix epoch" in
  bail_if (i64_max <? clock) with "system clock is out of range" in
  Ok clock.

Inductive CustomerUsageRangeError := RangeClock | RangeInvalid.

Definition i64_min : Z := - 2 ^ 63.
(** [a.saturating_sub(b)] on [i64], for [b] not negative. *)
Definition saturating_sub (a b : Z) : Z := Z.max (a - b) i64_min.

Definition customer_usage_range (clock : Z) (from_unix until_unix : option Z) :
    result (Z * Z) CustomerUsageRangeError :=
  match now_unix clock with
  | Err _ => Err RangeClock
  | Ok now =>
      bail_if (i64_max <? now + 1) with RangeClock in
      let until_unix := default (now + 1) until_unix in
      let from_unix := default (saturating_sub until_unix (30 * 24 * 60 * 60)) from_unix in
      bail_if ((from_unix <? 0) || (until_unix <=? from_unix) || (366 * 24 * 60 * 60 <? until_unix - from_unix))
        with RangeInvalid in
      Ok (from_unix, until_unix)
  end.

(** ** CSV *)

Definition formula_start (a : ascii) : bool :=
  Ascii.eqb a "=" || Ascii.eqb a "+" || Ascii.eqb a "-" || Ascii.eqb a "@".

Definition csv_special (a : ascii) : bool :=
  Ascii.eqb a "," || Str.byte_is a 34 || Str.byte_is a 13 || Str.byte_is a 10.

(** [replace] of a quote by two. *)
Fixpoint double_quotes (s : string) : string :=
  match s with
  | EmptyString => EmptyString
  | String a s => if Str.byte_is a 34 then String a (String a (double_quotes s)) else String a (double_quotes s)
  end.

Definition quote_mark : string := String (Ascii.ascii_of_N 34) EmptyString.

Definition csv_text (value : string) : string :=
  let formula_like := match Str.trim_start_matches (fun a => Ascii.eqb a " ") value with
                      | String a _ => formula_start a | EmptyString => false end in
  let safe := if formula_like then "'" +:+ value else value in
  if Str.existsb csv_special safe then quote_mark +:+ double_quotes safe +:+ quote_mark else safe.

Definition csv_optional_text (value : option string) : string :=
  match value with Some v => csv_text v | None => EmptyString end.
Definition csv_optional_integer (value : option Z) : string :=
  match value with Some n => show_usize n | None => EmptyString end.

Definition usage_event_csv_row (event : Z * NewUsageEvent) : string :=
  let '(id, e) := event in
  Str.join ","
    [ show_usize id; csv_text (ue_request_id e); csv_optional_text (ue_provider_response_id e);
      csv_text (ue_provider e); csv_text (ue_path e); csv_text (ue_requested_model e);
      csv_optional_text (ue_provider_model e); csv_optional_integer (ue_input_tokens e);
      csv_optional_integer (ue_output_tokens e);
      match ue_token_status e with Actual => "actual" | Missing => "missing" end;
      match ue_pricing_status e with Priced => "priced" | Unpriced => "unpriced" end;
      csv_optional_text (ue_model_price_version e); csv_optional_integer (ue_input_usd_micros_per_million e);
      csv_optional_integer (ue_output_usd_micros_per_million e); csv_optional_integer (ue_cost_usd_micros e);
      show_usize (ue_created_at_unix e) ].

Definition crlf : string := String (Ascii.ascii_of_N 13) (String (Ascii.ascii_of_N 10) EmptyString).

Definition csv_header : string :=
  "event_id,request_id,provider_response_id,provider,path,requested_model,provider_model,input_tokens,output_tokens,token_status,pricing_status,model_price_version,input_usd_micros_per_million,output_usd_micros_per_million,cost_usd_micros,created_at_unix".

Definition usage_csv (events : list (Z * NewUsageEvent)) : string :=
  csv_header +:+ crlf +:+ foldr (fun e acc => usage_event_csv_row e +:+ crlf +:+ acc) EmptyString events.

(** ** Answers *)

Inductive Payload :=
| PSession (s : OidcBrowserSession)
| PCsrfToken (token : string)
| PServiceAccounts (l : list CustomerServiceAccount)
| PIssuedServiceAccount (a : CustomerServiceAccount) (token : string)
| PRevoked
| PDestinations (l : list CustomerWebhookDestination)
| PIssuedDestination (d : CustomerWebhookDestination) (secret : string)
| PDeactivated
| PDeliveries (l : list CustomerWebhookDelivery)
| PAdminAudit (l : list (Z * WorkspaceAdminAuditEvent))
| PProxyAudit (l : list CustomerProxyAuditEvent)
| PUsage (r : CustomerUsageReport)
| PInvoice (i : CustomerInvoicePreview)
| PRuns (l : list CustomerUsageReconciliationRun)
| PObservations (l : list CustomerUsageReconciliationObservation)
| PRetention (policy : option Z) (runs : list CustomerUsageRetentionRun)
| PRetentionPolicy (policy : option Z)
| PQuota (s : option CustomerUsageQuotaStatus)
| PQuotaPolicy (p : option CustomerUsageQuotaPolicy)
| PMembers (l : list (WorkspaceMembership * string))
| PInvitations (l : list WorkspaceInvitation)
| PIssuedInvitation (i : IssuedCustomerWorkspaceInvitation)
| PScimUsers (l : list (string * string))
| PScimGroups (l : list (string * string))
| PMappings (l : list WorkspaceScimGroupMapping)
| PMappingCreated (created : bool)
| PMembership (m : WorkspaceMembership)
| PControls (limits : CustomerTenantLimits) (model_policy : option TenantModelPolicy)
| PModelPolicy (p : option TenantModelPolicy)
| PLimits (l : CustomerTenantLimits).

Inductive Body :=
| BEmpty
| BError (error_type message : string)
| BJson (p : Payload)
| BCsv (text : string) (next_after_id : option string).

(** [Location]: the provider's endpoint with the query pairs appended, or a page. *)
Inductive Location := ToProvider (endpoint : Url) (pairs : list (string * string)) | ToPage (path : string).

Record Response := mkResponse {
  rs_status : Z; rs_body : Body; rs_location : option Location; rs_set_cookie : option string;
  rs_no_store : bool }.

Definition error (status : Z) (error_type message : string) : Response :=
  mkResponse status (BError error_type message) None None false.
Definition customer_json (p : Payload) : Response := mkResponse 200 (BJson p) None None true.
Definition no_content : Response := mkResponse 204 BEmpty None None false.
Definition redirect_to (l : Location) : Response := mkResponse 303 BEmpty (Some l) None false.
Definition with_cookie (cookie : string) (r : Response) : Response :=
  mkResponse (rs_status r) (rs_body r) (rs_location r) (Some cookie) (rs_no_store r).

Definition unavailable : Response := error 404 "oidc_not_enabled" "OIDC browser login is not enabled".
Definition customer_usage_range_invalid : Response :=
  error 400 "customer_usage_range_error" "Usage range must be a positive half-open interval of at most 366 days".
Definition login_unavailable : Response :=
  error 400 "oidc_login_unavailable" "OIDC login is unavailable for this organization".
Definition login_failed : Response := error 400 "oidc_login_failed" "OIDC login could not be completed".
Definition customer_unauthenticated : Response :=
  error 401 "customer_session_required" "A valid customer session is required".
Definition customer_forbidden : Response :=
  error 403 "customer_permission_denied" "Your current workspace role cannot perform this action".
Definition customer_csrf_invalid : Response := error 403 "customer_csrf_invalid" "A valid CSRF proof is required".
Definition control_plane_unavailable : Response :=
  error 503 "oidc_control_plane_unavailable" "OIDC login is temporarily unavailable".

(** The export sets [no-store] itself. *)
Definition customer_usage_csv_response (page : list (Z * NewUsageEvent) * option Z) : Response :=
  mkResponse 200 (BCsv (usage_csv page.1) (show_usize <$> page.2)) None None true.
