(* ===== verification/Portal.v ===== *)
(** The customer portal, part two ([proxy/src/oidc_auth.rs]): the endpoints, over the tenant
    store. An endpoint is not one transaction: between its calls to the store other requests
    commit and the clock moves on. [World] is what happens around one request: what others
    commit before each of its steps, what the clock shows, the random bytes, and what the
    identity provider answers. A handler runs step by step and may return early with a
    response. *)
From S2P Require Import Prelude BTree Net Json Spend TenantDb TenantDirectory TenantScim TenantSession.
From S2P Require Import TenantPolicy TenantUsage TenantAccess Oidc PortalTypes.
From Stdlib Require Import String Ascii.
Local Open Scope string_scope.
Local Open Scope Z_scope.

#[local] Abbreviation length := List.length.

Record World := mkWorld {
  wo_now : nat -> Z;
  wo_random : nat -> nat -> string;
  wo_others : nat -> list Request;
  wo_http : nat -> HttpRequest -> result HttpResponse string }.

Record PortalConfig := mkPortalConfig {
  pc_tenant_store : bool;
  pc_cipher : option OidcStateCipher;
  pc_webhook_key : option string }.

Declare Scope portal_scope.

Section portal.
Context `{Sha256, UrlParser, JsonCodec TenantPolicyDocument, JsonCodec TenantModelPolicy,
          JsonCodec (list string), JsonCodec Value}.
Context `{Aead, Base64Url, Jwt, JsonCodec AuthorizationState, JsonCodec DiscoveryDocument, JsonCodec JwkSet,
          JsonCodec OidcTokenResponse}.
Variable hmac_sha256 : string -> string -> string.
Variable cfg : PortalConfig.

(** ** Steps *)

(** The step counter and the database; a value, or the response returned early. *)
Definition M (A : Type) : Type := World -> nat * Db -> result A Response * (nat * Db).

Definition ret {A} (x : A) : M A := fun _ s => (Ok x, s).
Definition reply {A} (r : Response) : M A := fun _ s => (Err r, s).
Definition bind {A B} (m : M A) (k : A -> M B) : M B := fun w s =>
  match m w s with (Ok x, s) => k x w s | (Err r, s) => (Err r, s) end.

Notation "'do' x ':=' m 'in' k" := (bind m (fun x => k))
  (at level 10, x name, m at level 100, k at level 200) : portal_scope.
Local Open Scope portal_scope.

(** A step: what others committed in the meantime comes first. *)
Definition step {A} (f : nat -> World -> Db -> A * Db) : M A := fun w s =>
  let done := f s.1 w (run hmac_sha256 (wo_others w s.1) s.2) in (Ok done.1, (S s.1, done.2)).

(** One call to the store. *)
Definition store {A} (op : Z -> (nat -> string) -> Op A) : M (result A string) :=
  step (fun k w db => op (wo_now w k) (wo_random w k) db).

Definition clock : M Z := step (fun k w db => (wo_now w k, db)).
Definition random : M (nat -> string) := step (fun k w db => (wo_random w k, db)).
(** The provider, as the step finds it. *)
Definition provider : M (HttpRequest -> result HttpResponse string) := step (fun k w db => (wo_http w k, db)).

(** ** The guards the endpoints share *)

Definition require_store : M unit := if pc_tenant_store cfg then ret tt else reply unavailable.
Definition require_cipher : M OidcStateCipher :=
  match pc_cipher cfg with Some c => ret c | None => reply unavailable end.
Definition require_cookie (headers : HeaderMap) : M string :=
  match session_cookie_token headers with Some token => ret token | None => reply customer_unauthenticated end.
Definition require_csrf (c : OidcStateCipher) (token : string) (headers : HeaderMap) : M unit :=
  if match csrf_header headers with
     | Some csrf => verifies_browser_csrf_token hmac_sha256 c token csrf | None => false end
  then ret tt else reply customer_csrf_invalid.

Definition require_session (token : string) : M OidcBrowserSession :=
  do found := store (fun now _ => authenticate_oidc_browser_session now token) in
  match found with
  | Ok (Some session) => ret session
  | Ok None => reply customer_unauthenticated
  | Err _ => reply control_plane_unavailable
  end.

Definition principal_of (s : OidcBrowserSession) : string := va_principal_id (ob_access s).
Definition workspace_of (s : OidcBrowserSession) : string := va_workspace_id (ob_access s).

Definition require_permission (session : OidcBrowserSession) (permission : WorkspacePermission) : M unit :=
  do permitted := store (fun _ _ => workspace_permits (principal_of session) (workspace_of session) permission) in
  match permitted with
  | Ok true => ret tt
  | Ok false => reply customer_forbidden
  | Err _ => reply control_plane_unavailable
  end.

(** The workspace of the session, of the session's organization. *)
Definition require_workspace (session : OidcBrowserSession) : M Workspace :=
  do found := store (fun _ _ => active_workspace_by_id (workspace_of session)) in
  match found with
  | Ok (Some workspace) =>
      if bool_decide (wk_organization_id workspace = va_organization_id (ob_access session)) then ret workspace
      else reply control_plane_unavailable
  | Ok None => reply customer_unauthenticated
  | Err _ => reply control_plane_unavailable
  end.

Definition customer_workspace_for_permission (headers : HeaderMap) (permission : WorkspacePermission) :
    M (OidcBrowserSession * Workspace) :=
  do _ := require_store in
  do token := require_cookie headers in
  do session := require_session token in
  do _ := require_permission session permission in
  do workspace := require_workspace session in
  ret (session, workspace).

(** A listing, or the error every listing answers with. *)
Definition listed {A} (r : result A string) (payload : A -> Payload) : M Response :=
  match r with Ok x => ret (customer_json (payload x)) | Err _ => ret control_plane_unavailable end.

(** ** Sessions *)

Definition customer_session (headers : HeaderMap) : M Response :=
  do _ := require_store in
  do token := require_cookie headers in
  do session := require_session token in
  ret (customer_json (PSession session)).

Definition customer_csrf (headers : HeaderMap) : M Response :=
  do _ := require_store in
  do c := require_cipher in
  do token := require_cookie headers in
  do _ := require_session token in
  ret (customer_json (PCsrfToken (browser_csrf_token hmac_sha256 c token))).

Definition logout (headers : HeaderMap) : M Response :=
  do _ := require_store in
  match session_cookie_token headers with
  | Some token =>
      do revoked := store (fun now _ => revoke_oidc_browser_session now token) in
      match revoked with
      | Err _ => ret control_plane_unavailable
      | Ok _ => ret (with_cookie expired_session_cookie no_content)
      end
  | None => ret (with_cookie expired_session_cookie no_content)
  end.

(** The expiry of a new session, from the clock. *)
Definition browser_session_expiry : M Z :=
  do now := clock in
  match now_unix now with
  | Ok now => ret (now + BROWSER_SESSION_TTL_SECONDS)
  | Err _ => reply control_plane_unavailable
  end.

Definition rotate_session (headers : HeaderMap) : M Response :=
  do _ := require_store in
  do c := require_cipher in
  do token := require_cookie headers in
  do _ := require_csrf c token headers in
  do expires_at_unix := browser_session_expiry in
  do rotated := store (fun now random => rotate_oidc_browser_session now (random 0%nat) token expires_at_unix) in
  match rotated with
  | Ok (Some session) =>
      match session_cookie (is_token session) BROWSER_SESSION_TTL_SECONDS with
      | Ok cookie => ret (with_cookie cookie no_content)
      | Err _ => ret control_plane_unavailable
      end
  | Ok None => ret customer_unauthenticated
  | Err _ => ret control_plane_unavailable
  end.

(** ** Service accounts *)

Definition customer_service_accounts (headers : HeaderMap) : M Response :=
  do _ := require_store in
  do token := require_cookie headers in
  do session := require_session token in
  do accounts := store (fun _ _ => list_workspace_service_accounts (workspace_of session) (principal_of session)) in
  listed accounts (fun l => PServiceAccounts (service_account_from <$> l)).

Definition create_customer_service_account (headers : HeaderMap) (name : string) (expires_at_unix : Z) : M Response :=
  do _ := require_store in
  do c := require_cipher in
  do token := require_cookie headers in
  do _ := require_csrf c token headers in
  do session := require_session token in
  do issued := store (fun now random => create_workspace_service_account now (random 0%nat) (random 1%nat)
                        (workspace_of session) (principal_of session) name expires_at_unix) in
  match issued with
  | Ok (account, token) => ret (customer_json (PIssuedServiceAccount (service_account_from account) token))
  | Err e =>
      if Str.contains "not permitted" e then ret customer_forbidden
      else ret (error 400 "service_account_invalid" "Service account could not be created")
  end.

Definition revoke_customer_service_account (headers : HeaderMap) (account_id : string) : M Response :=
  do _ := require_store in
  do c := require_cipher in
  do token := require_cookie headers in
  do _ := require_csrf c token headers in
  do session := require_session token in
  do revoked := store (fun now _ => revoke_workspace_service_account now (workspace_of session) account_id
                         (principal_of session)) in
  match revoked with
  | Ok true => ret (customer_json PRevoked)
  | Ok false => ret customer_forbidden
  | Err _ => ret control_plane_unavailable
  end.

(** ** Webhooks *)

Definition customer_webhook_destinations (headers : HeaderMap) : M Response :=
  do context := customer_workspace_for_permission headers ReadAudit in
  do destinations := store (fun _ _ => list_webhook_destinations (wk_tenant_id context.2)) in
  listed destinations (fun l => PDestinations ((fun d => destination_from d.1 d.2) <$> l)).

(** The new destination's event types are those stored with it. *)
Definition create_customer_webhook_destination (headers : HeaderMap) (url : string) (event_types : list string) :
    M Response :=
  do _ := require_store in
  do c := require_cipher in
  do token := require_cookie headers in
  do _ := require_csrf c token headers in
  do session := require_session token in
  do issued := store (fun now random => create_workspace_webhook_destination hmac_sha256 (pc_webhook_key cfg) now
                        (random 0%nat) (workspace_of session) (principal_of session) url event_types) in
  match issued with
  | Ok (d, secret) =>
      ret (customer_json (PIssuedDestination
             (destination_from d (default [] (from_json (wd_event_types_json d)))) secret))
  | Err e =>
      if Str.contains "not permitted" e then ret customer_forbidden
      else if Str.contains "not configured" e then ret control_plane_unavailable
      else ret (error 400 "customer_webhook_destination_error" "The webhook destination could not be created")
  end.

Definition deactivate_customer_webhook_destination (headers : HeaderMap) (destination_id : string) : M Response :=
  do _ := require_store in
  do c := require_cipher in
  do token := require_cookie headers in
  do _ := require_csrf c token headers in
  do session := require_session token in
  do done := store (fun now _ => deactivate_workspace_webhook_destination now (workspace_of session)
                      (principal_of session) destination_id) in
  match done with
  | Ok true => ret (customer_json PDeactivated)
  | Ok false => ret customer_forbidden
  | Err _ => ret control_plane_unavailable
  end.

Definition customer_webhook_deliveries (headers : HeaderMap) (limit : nat) : M Response :=
  do context := customer_workspace_for_permission headers ReadAudit in
  do deliveries := store (fun _ _ => list_webhook_deliveries (wk_tenant_id context.2) limit) in
  listed deliveries (fun l => PDeliveries (delivery_from <$> l)).

(** ** Audit *)

Definition customer_workspace_audit (headers : HeaderMap) (limit : nat) : M Response :=
  do _ := require_store in
  do token := require_cookie headers in
  do session := require_session token in
  do _ := require_permission session ReadAudit in
  do events := store (fun _ _ => list_workspace_admin_audit (workspace_of session) limit) in
  listed events PAdminAudit.

Definition customer_workspace_proxy_audit (headers : HeaderMap) (limit : nat) : M Response :=
  do context := customer_workspace_for_permission headers ReadAudit in
  do events := store (fun _ _ => list_audit (wk_tenant_id context.2) limit) in
  listed events (fun l => PProxyAudit ((fun e => proxy_audit_from e.2) <$> l)).

(** ** Usage *)

Definition require_range (from_unix until_unix : option Z) : M (Z * Z) :=
  do now := clock in
  match customer_usage_range now from_unix until_unix with
  | Ok range => ret range
  | Err RangeClock => reply control_plane_unavailable
  | Err RangeInvalid => reply customer_usage_range_invalid
  end.

Definition customer_workspace_usage (headers : HeaderMap) (from_unix until_unix : option Z) : M Response :=
  do context := customer_workspace_for_permission headers ReadUsage in
  do range := require_range from_unix until_unix in
  do report := store (fun _ _ => usage_report (wk_tenant_id context.2) range.1 range.2) in
  listed report (fun r => PUsage (usage_report_from r)).

Definition customer_workspace_invoice_preview (headers : HeaderMap) (from_unix until_unix : option Z) : M Response :=
  do context := customer_workspace_for_permission headers ManageBilling in
  do range := require_range from_unix until_unix in
  do report := store (fun _ _ => usage_report (wk_tenant_id context.2) range.1 range.2) in
  listed report (fun r => PInvoice (invoice_from r)).

Definition export_customer_workspace_usage (headers : HeaderMap) (from_unix until_unix after_id : option Z)
    (limit : nat) : M Response :=
  do context := customer_workspace_for_permission headers ExportUsage in
  do range := require_range from_unix until_unix in
  if match after_id with Some n => n <? 0 | None => false end
  then ret (error 400 "customer_usage_export_cursor_error" "Usage export cursor must be a non-negative event ID")
  else
    do page := store (fun _ _ => list_usage_events_range (wk_tenant_id context.2) range.1 range.2 after_id limit) in
    match page with
    | Ok page => ret (customer_usage_csv_response page)
    | Err _ => ret control_plane_unavailable
    end.

Definition customer_workspace_usage_reconciliation_runs (headers : HeaderMap) (limit : nat) : M Response :=
  do context := customer_workspace_for_permission headers ReadUsage in
  do runs := store (fun _ _ => list_usage_reconciliation_runs (wk_tenant_id context.2) limit) in
  listed runs (fun l => PRuns (run_from <$> l)).

Definition customer_workspace_usage_reconciliation_observations (headers : HeaderMap) (run_id : string)
    (limit : nat) : M Response :=
  do context := customer_workspace_for_permission headers ReadUsage in
  do observations := store (fun _ _ =>
    list_usage_reconciliation_observations (wk_tenant_id context.2) run_id limit) in
  listed observations (fun l => PObservations (observation_from <$> l)).

Definition customer_workspace_usage_retention (headers : HeaderMap) (limit : nat) : M Response :=
  do context := customer_workspace_for_permission headers ReadUsage in
  do policy := store (fun _ _ => usage_retention_policy (wk_tenant_id context.2)) in
  match policy with
  | Err _ => ret control_plane_unavailable
  | Ok policy =>
      do runs := store (fun _ _ => list_usage_retention_runs (wk_tenant_id context.2) limit) in
      listed runs (fun l => PRetention policy (retention_run_from <$> l))
  end.

Definition set_customer_workspace_usage_retention (headers : HeaderMap) (policy : option Z) : M Response :=
  do c := require_cipher in
  do token := require_cookie headers in
  do _ := require_csrf c token headers in
  do context := customer_workspace_for_permission headers ManageBilling in
  do saved := store (fun now _ => set_workspace_usage_retention_policy now (workspace_of context.1)
                       (principal_of context.1) policy) in
  match saved with
  | Ok _ => ret (customer_json (PRetentionPolicy policy))
  | Err _ => ret (error 400 "customer_usage_retention_policy_error" "The usage retention policy could not be saved")
  end.

Definition customer_workspace_usage_quota (headers : HeaderMap) : M Response :=
  do context := customer_workspace_for_permission headers ReadUsage in
  do status := store (fun now _ => usage_quota_status now (wk_tenant_id context.2)) in
  listed status (fun s => PQuota (quota_status_from <$> s)).

Definition set_customer_workspace_usage_quota (headers : HeaderMap) (policy : option UsageQuotaPolicy) : M Response :=
  do c := require_cipher in
  do token := require_cookie headers in
  do _ := require_csrf c token headers in
  do context := customer_workspace_for_permission headers ManageBilling in
  do saved := store (fun now _ => set_workspace_usage_quota_policy now (workspace_of context.1)
                       (principal_of context.1) policy) in
  match saved with
  | Ok _ => ret (customer_json (PQuotaPolicy (quota_policy_from <$> policy)))
  | Err _ => ret (error 400 "customer_usage_quota_policy_error" "The usage quota policy could not be saved")
  end.

(** ** Members and invitations *)

Definition customer_workspace_members (headers : HeaderMap) : M Response :=
  do _ := require_store in
  do token := require_cookie headers in
  do session := require_session token in
  do _ := require_permission session ManageMembership in
  do members := store (fun _ _ => list_workspace_members (workspace_of session)) in
  listed members PMembers.

Definition customer_workspace_invitations (headers : HeaderMap) : M Response :=
  do context := customer_workspace_for_permission headers ManageMembership in
  do found := store (fun _ _ => list_workspace_invitations_as_owner (workspace_of context.1)
                       (principal_of context.1)) in
  listed found PInvitations.

Definition create_customer_workspace_invitation (headers : HeaderMap) (recipient_label : string)
    (role : WorkspaceRole) (expires_at_unix : Z) : M Response :=
  do c := require_cipher in
  do token := require_cookie headers in
  do _ := require_csrf c token headers in
  do context := customer_workspace_for_permission headers ManageMembership in
  do issued := store (fun now random => create_workspace_invitation_as_owner now (random 0%nat) (random 1%nat)
                        (workspace_of context.1) (principal_of context.1) recipient_label role expires_at_unix) in
  match issued with
  | Ok issued => ret (customer_json (PIssuedInvitation (issued_invitation_from issued)))
  | Err _ => ret (error 400 "customer_invitation_error" "The workspace invitation could not be created")
  end.

(** An identifier from the path or the body. *)
Definition target_invalid (id : string) : bool :=
  Str.is_empty id || (MAX_CUSTOMER_PRINCIPAL_ID_BYTES <? Str.len id)%nat.

Definition revoke_customer_workspace_invitation (headers : HeaderMap) (invitation_id : string) : M Response :=
  if target_invalid invitation_id
  then ret (error 400 "customer_invitation_error" "The workspace invitation target is invalid")
  else
    do c := require_cipher in
    do token := require_cookie headers in
    do _ := require_csrf c token headers in
    do context := customer_workspace_for_permission headers ManageMembership in
    do revoked := store (fun now _ => revoke_workspace_invitation_as_owner now (workspace_of context.1)
                           invitation_id (principal_of context.1)) in
    match revoked with
    | Ok true => ret no_content
    | Ok false => ret (error 404 "customer_invitation_error" "The active workspace invitation was not found")
    | Err _ => ret (error 400 "customer_invitation_error" "The workspace invitation could not be revoked")
    end.

Definition resend_customer_workspace_invitation (headers : HeaderMap) (invitation_id : string)
    (expires_at_unix : Z) : M Response :=
  if target_invalid invitation_id
  then ret (error 400 "customer_invitation_error" "The workspace invitation target is invalid")
  else
    do c := require_cipher in
    do token := require_cookie headers in
    do _ := require_csrf c token headers in
    do context := customer_workspace_for_permission headers ManageMembership in
    do resent := store (fun now random => resend_workspace_invitation_as_owner now (random 0%nat) (random 1%nat)
                          (workspace_of context.1) invitation_id (principal_of context.1) expires_at_unix) in
    match resent with
    | Ok (Some issued) => ret (customer_json (PIssuedInvitation (issued_invitation_from issued)))
    | Ok None => ret (error 404 "customer_invitation_error" "The active workspace invitation was not found")
    | Err _ => ret (error 400 "customer_invitation_error" "The workspace invitation could not be resent")
    end.

Definition update_customer_workspace_membership (headers : HeaderMap) (principal_id : string)
    (role : WorkspaceRole) (active : bool) : M Response :=
  if target_invalid principal_id
  then ret (error 400 "customer_membership_error" "The membership target is invalid")
  else
    do _ := require_store in
    do c := require_cipher in
    do token := require_cookie headers in
    do session := require_session token in
    do _ := require_csrf c token headers in
    do _ := require_permission session ManageMembership in
    do saved := store (fun now _ => update_workspace_membership_as_owner now (workspace_of session)
                         (principal_of session) principal_id role active) in
    match saved with
    | Ok membership => ret (customer_json (PMembership membership))
    | Err _ => ret (error 400 "customer_membership_error" "The workspace membership could not be saved")
    end.

(** ** The directory *)

Definition customer_workspace_scim_users (headers : HeaderMap) : M Response :=
  do _ := require_store in
  do token := require_cookie headers in
  do session := require_session token in
  do _ := require_permission session ManageMembership in
  do users := store (fun _ _ => list_workspace_scim_users_as_owner (workspace_of session) (principal_of session)) in
  listed users PScimUsers.

Definition customer_workspace_scim_groups (headers : HeaderMap) : M Response :=
  do _ := require_store in
  do token := require_cookie headers in
  do session := require_session token in
  do _ := require_permission session ManageMembership in
  do groups := store (fun _ _ => list_workspace_scim_groups_as_owner (workspace_of session) (principal_of session)) in
  listed groups PScimGroups.

Definition customer_workspace_scim_group_mappings (headers : HeaderMap) : M Response :=
  do _ := require_store in
  do token := require_cookie headers in
  do session := require_session token in
  do _ := require_permission session ManageMembership in
  do found := store (fun _ _ => list_workspace_scim_group_mappings_as_owner (workspace_of session)
                       (principal_of session)) in
  listed found PMappings.

Definition create_customer_workspace_scim_group_mapping (headers : HeaderMap) (group_id : string) : M Response :=
  if target_invalid group_id
  then ret (error 400 "customer_scim_group_mapping_error" "The SCIM group target is invalid")
  else
    do _ := require_store in
    do c := require_cipher in
    do token := require_cookie headers in
    do session := require_session token in
    do _ := require_csrf c token headers in
    do _ := require_permission session ManageMembership in
    do created := store (fun now _ => create_workspace_scim_group_mapping_as_owner now (workspace_of session)
                           (principal_of session) group_id) in
    match created with
    | Ok created => ret (customer_json (PMappingCreated created))
    | Err _ => ret (error 400 "customer_scim_group_mapping_error" "The SCIM group could not be mapped to this workspace")
    end.

Definition delete_customer_workspace_scim_group_mapping (headers : HeaderMap) (group_id : string) : M Response :=
  if target_invalid group_id
  then ret (error 400 "customer_scim_group_mapping_error" "The SCIM group target is invalid")
  else
    do _ := require_store in
    do c := require_cipher in
    do token := require_cookie headers in
    do session := require_session token in
    do _ := require_csrf c token headers in
    do _ := require_permission session ManageMembership in
    do deleted := store (fun now _ => delete_workspace_scim_group_mapping_as_owner now (workspace_of session)
                           (principal_of session) group_id) in
    match deleted with
    | Ok true => ret no_content
    | Ok false => ret (error 404 "customer_scim_group_mapping_error" "The SCIM group mapping was not found")
    | Err _ => ret (error 400 "customer_scim_group_mapping_error" "The SCIM group mapping could not be removed")
    end.

Definition assign_customer_workspace_scim_user (headers : HeaderMap) (principal_id : string)
    (role : WorkspaceRole) : M Response :=
  if target_invalid principal_id
  then ret (error 400 "customer_scim_membership_error" "The SCIM membership target is invalid")
  else
    do _ := require_store in
    do c := require_cipher in
    do token := require_cookie headers in
    do session := require_session token in
    do _ := require_csrf c token headers in
    do _ := require_permission session ManageMembership in
    do saved := store (fun now _ => assign_scim_user_to_workspace_as_owner now (workspace_of session)
                         (principal_of session) principal_id role) in
    match saved with
    | Ok membership => ret (customer_json (PMembership membership))
    | Err _ => ret (error 400 "customer_scim_membership_error" "The SCIM user could not be assigned to this workspace")
    end.

(** ** Controls *)

Definition customer_workspace_controls (headers : HeaderMap) : M Response :=
  do _ := require_store in
  do token := require_cookie headers in
  do session := require_session token in
  do _ := require_permission session ManagePolicies in
  do workspace := require_workspace session in
  do limits := store (fun _ _ => limits_for (wk_tenant_id workspace)) in
  match limits with
  | Err _ => ret control_plane_unavailable
  | Ok limits =>
      do model_policy := store (fun _ _ => model_policy_for (wk_tenant_id workspace)) in
      listed model_policy (PControls (limits_from limits))
  end.

Definition set_customer_workspace_model_policy (headers : HeaderMap) (policy : option TenantModelPolicy) : M Response :=
  do _ := require_store in
  do c := require_cipher in
  do token := require_cookie headers in
  do session := require_session token in
  do _ := require_csrf c token headers in
  do _ := require_permission session ApprovePolicies in
  do saved := store (fun now random => set_workspace_model_policy now (fun i => random (2 + i)%nat) (random 0%nat)
                       (random 1%nat) (workspace_of session) (principal_of session) policy) in
  match saved with
  | Ok _ => ret (customer_json (PModelPolicy policy))
  | Err _ => ret (error 400 "customer_model_policy_error" "The model policy could not be saved")
  end.

Definition set_customer_workspace_limits (headers : HeaderMap) (new : TenantLimits) : M Response :=
  do _ := require_store in
  do c := require_cipher in
  do token := require_cookie headers in
  do session := require_session token in
  do _ := require_csrf c token headers in
  do _ := require_permission session ManageTenant in
  do saved := store (fun now _ => set_workspace_limits now (workspace_of session) (principal_of session) new) in
  match saved with
  | Ok _ => ret (customer_json (PLimits (limits_from new)))
  | Err _ => ret (error 400 "customer_limits_error" "The workspace limits could not be saved")
  end.

(** ** Login *)

Definition callback_path (connection : OrganizationOidcConnection) : result unit string :=
  match url_parse (oc_redirect_uri connection) with
  | None => Err "relative URL without a base"
  | Some url =>
      bail_if (negb (bool_decide (url_path url = CALLBACK_PATH)))
        with "OIDC redirect URI does not use the firewall callback path" in
      Ok tt
  end.

Definition authorization_url (endpoints : ValidatedEndpoints) (connection : OrganizationOidcConnection)
    (state : string) (pkce : PkcePair) (nonce : string) : result Location string :=
  let? _ := callback_path connection in
  bail_if (Str.is_empty state || Str.is_empty nonce) with "OIDC authorization state is invalid" in
  Ok (ToProvider (ep_authorization_endpoint endpoints)
        [("response_type", "code"); ("client_id", oc_client_id connection);
         ("redirect_uri", oc_redirect_uri connection); ("scope", "openid"); ("state", state); ("nonce", nonce);
         ("code_challenge", pk_code_challenge pkce); ("code_challenge_method", "S256")]).

(** Building the HTTP client is taken to succeed. *)
Definition start_login_for_workspace (organization_id workspace_id : string) (invitation_id : option string) :
    M Response :=
  do _ := require_store in
  do c := require_cipher in
  do active := store (fun _ _ => active_workspace_in_organization organization_id workspace_id) in
  match active with
  | Err _ => ret control_plane_unavailable
  | Ok false => ret login_unavailable
  | Ok true =>
      do found := store (fun _ _ => organization_oidc_connection organization_id) in
      match found with
      | Err _ => ret control_plane_unavailable
      | Ok None => ret login_unavailable
      | Ok (Some connection) =>
          if negb (oc_active connection) || negb (is_ok (callback_path connection)) then ret login_unavailable
          else
            do send := provider in
            match fetch_validated_discovery send connection with
            | Err _ => ret login_unavailable
            | Ok endpoints =>
                do random := random in
                let pkce := pkce_generate (random 0%nat) in
                let nonce := random_urlsafe_value (random 1%nat) in
                do now := clock in
                match now_unix now with
                | Err _ => ret control_plane_unavailable
                | Ok now =>
                    let expires_at_unix := now + AUTHORIZATION_STATE_TTL_SECONDS in
                    match seal_authorization_state_with_invitation c (random 2%nat) (oc_organization_id connection)
                            workspace_id invitation_id pkce nonce expires_at_unix with
                    | Err _ => ret control_plane_unavailable
                    | Ok state_value =>
                        do reserved := store (fun now _ => reserve_oidc_authorization_state now state_value
                                                (oc_organization_id connection) expires_at_unix) in
                        match reserved with
                        | Err _ => ret control_plane_unavailable
                        | Ok _ =>
                            match authorization_url endpoints connection state_value pkce nonce with
                            | Ok url => ret (redirect_to url)
                            | Err _ => ret control_plane_unavailable
                            end
                        end
                    end
                end
            end
      end
  end.

Definition start_login (organization_id workspace_id : string) : M Response :=
  start_login_for_workspace organization_id workspace_id None.

Definition start_invitation_login (token : string) : M Response :=
  if (256 <? Str.len token)%nat || negb (Str.starts_with "llmfw_invite_" token) then ret login_unavailable
  else
    do _ := require_store in
    do found := store (fun now _ => workspace_invitation_for_token now token) in
    match found with
    | Ok (Some iv) => start_login_for_workspace (iv_organization_id iv) (iv_workspace_id iv) (Some (iv_id iv))
    | Ok None => ret login_unavailable
    | Err _ => ret control_plane_unavailable
    end.

(** What the store gives a verified identity: membership through the invitation, or the access it has. *)
Definition access_result (state : AuthorizationState) (verified : VerifiedIdToken) :
    M (result (option VerifiedWorkspaceAccess) string) :=
  match as_invitation_id state with
  | Some invitation_id =>
      store (fun now random => accept_workspace_invitation_oidc now (random 0%nat) invitation_id
               (as_organization_id state) (as_workspace_id state) (vi_issuer verified) (vi_subject verified))
  | None =>
      store (fun _ _ => verified_identity_workspace_access (as_organization_id state) (as_workspace_id state)
               (vi_issuer verified) (vi_subject verified))
  end.

(** From a verified identity to a session: the second half of [callback_with_client]. *)
Definition finish_login (state : AuthorizationState) (verified : VerifiedIdToken) : M Response :=
  do found := access_result state verified in
  match found with
  | Err _ => ret control_plane_unavailable
  | Ok None => ret login_failed
  | Ok (Some access) =>
      if negb (bool_decide (va_organization_id access = as_organization_id state))
         || negb (bool_decide (va_workspace_id access = as_workspace_id state)) then ret login_failed
      else
        do expires_at_unix := browser_session_expiry in
        do issued := store (fun now random => issue_oidc_browser_session now (random 0%nat) access Oidc expires_at_unix) in
        match issued with
        | Err _ => ret control_plane_unavailable
        | Ok session =>
            match session_cookie (is_token session) BROWSER_SESSION_TTL_SECONDS with
            | Ok cookie => ret (with_cookie cookie (redirect_to (ToPage "/customer")))
            | Err _ => ret control_plane_unavailable
            end
        end
  end.

(** The provider's side of the callback: metadata, keys and the code, each asked for at a step
    of its own. *)
Definition verified_identity (state : AuthorizationState) (connection : OrganizationOidcConnection) (code : string) :
    M VerifiedIdToken :=
  do send := provider in
  match fetch_validated_discovery send connection with
  | Err _ => reply login_failed
  | Ok endpoints =>
      do send := provider in
      match fetch_jwks send endpoints with
      | Err _ => reply login_failed
      | Ok jwks =>
          do send := provider in
          match exchange_authorization_code send endpoints connection code (as_code_verifier state) with
          | Err _ => reply login_failed
          | Ok response =>
              do now := clock in
              match verify_id_token now (tr_id_token response) jwks connection (as_nonce state) with
              | Err _ => reply login_failed
              | Ok verified => ret verified
              end
          end
      end
  end.

Definition callback_with_client (query_state query_code query_error : option string) : M Response :=
  do _ := require_store in
  do c := require_cipher in
  match query_state with
  | None => ret login_failed
  | Some state_value =>
      match open_authorization_state c state_value with
      | Err _ => ret login_failed
      | Ok state =>
          do now := clock in
          match now_unix now with
          | Err _ => ret control_plane_unavailable
          | Ok now =>
              if as_expires_at_unix state <? now then ret login_failed
              else
                do consumed := store (fun now _ =>
                  consume_oidc_authorization_state now state_value (as_organization_id state)) in
                match consumed with
                | Err _ => ret control_plane_unavailable
                | Ok false => ret login_failed
                | Ok true =>
                    match query_error, query_code with
                    | Some _, _ | None, None => ret login_failed
                    | None, Some code =>
                        do found := store (fun _ _ => organization_oidc_connection (as_organization_id state)) in
                        match found with
                        | Err _ => ret control_plane_unavailable
                        | Ok None => ret login_failed
                        | Ok (Some connection) =>
                            if oc_active connection && is_ok (callback_path connection) then
                              do verified := verified_identity state connection code in
                              finish_login state verified
                            else ret login_failed
                        end
                    end
                end
          end
      end
  end.

(** ** Routes *)

Inductive Endpoint :=
| StartLogin (organization_id workspace_id : string)
| StartInvitationLogin (token : string)
| Callback (state code error : option string)
| Logout
| RotateSession
| Session
| Csrf
| ServiceAccounts
| CreateServiceAccount (name : string) (expires_at_unix : Z)
| RevokeServiceAccount (account_id : string)
| WorkspaceAudit (limit : nat)
| ProxyAudit (limit : nat)
| Usage (from_unix until_unix : option Z)
| InvoicePreview (from_unix until_unix : option Z)
| ExportUsage (from_unix until_unix after_id : option Z) (limit : nat)
| ReconciliationRuns (limit : nat)
| ReconciliationObservations (run_id : string) (limit : nat)
| Retention (limit : nat)
| SetRetention (policy : option Z)
| Quota
| SetQuota (policy : option UsageQuotaPolicy)
| Members
| AssignScimUser (principal_id : string) (role : WorkspaceRole)
| UpdateMembership (principal_id : string) (role : WorkspaceRole) (active : bool)
| Invitations
| CreateInvitation (recipient_label : string) (role : WorkspaceRole) (expires_at_unix : Z)
| RevokeInvitation (invitation_id : string)
| ResendInvitation (invitation_id : string) (expires_at_unix : Z)
| ScimUsers
| ScimGroups
| ScimGroupMappings
| CreateScimGroupMapping (group_id : string)
| DeleteScimGroupMapping (group_id : string)
| Controls
| SetModelPolicy (policy : option TenantModelPolicy)
| SetLimits (new : TenantLimits)
| WebhookDestinations
| CreateWebhookDestination (url : string) (event_types : list string)
| DeactivateWebhookDestination (destination_id : string)
| WebhookDeliveries (limit : nat).

Definition route (e : Endpoint) (headers : HeaderMap) : M Response :=
  match e with
  | StartLogin o w => start_login o w
  | StartInvitationLogin t => start_invitation_login t
  | Callback s c e => callback_with_client s c e
  | Logout => logout headers
  | RotateSession => rotate_session headers
  | Session => customer_session headers
  | Csrf => customer_csrf headers
  | ServiceAccounts => customer_service_accounts headers
  | CreateServiceAccount n e => create_customer_service_account headers n e
  | RevokeServiceAccount i => revoke_customer_service_account headers i
  | WorkspaceAudit l => customer_workspace_audit headers l
  | ProxyAudit l => customer_workspace_proxy_audit headers l
  | Usage f u => customer_workspace_usage headers f u
  | InvoicePreview f u => customer_workspace_invoice_preview headers f u
  | ExportUsage f u a l => export_customer_workspace_usage headers f u a l
  | ReconciliationRuns l => customer_workspace_usage_reconciliation_runs headers l
  | ReconciliationObservations i l => customer_workspace_usage_reconciliation_observations headers i l
  | Retention l => customer_workspace_usage_retention headers l
  | SetRetention p => set_customer_workspace_usage_retention headers p
  | Quota => customer_workspace_usage_quota headers
  | SetQuota p => set_customer_workspace_usage_quota headers p
  | Members => customer_workspace_members headers
  | AssignScimUser p r => assign_customer_workspace_scim_user headers p r
  | UpdateMembership p r a => update_customer_workspace_membership headers p r a
  | Invitations => customer_workspace_invitations headers
  | CreateInvitation l r e => create_customer_workspace_invitation headers l r e
  | RevokeInvitation i => revoke_customer_workspace_invitation headers i
  | ResendInvitation i e => resend_customer_workspace_invitation headers i e
  | ScimUsers => customer_workspace_scim_users headers
  | ScimGroups => customer_workspace_scim_groups headers
  | ScimGroupMappings => customer_workspace_scim_group_mappings headers
  | CreateScimGroupMapping g => create_customer_workspace_scim_group_mapping headers g
  | DeleteScimGroupMapping g => delete_customer_workspace_scim_group_mapping headers g
  | Controls => customer_workspace_controls headers
  | SetModelPolicy p => set_customer_workspace_model_policy headers p
  | SetLimits l => set_customer_workspace_limits headers l
  | WebhookDestinations => customer_webhook_destinations headers
  | CreateWebhookDestination u t => create_customer_webhook_destination headers u t
  | DeactivateWebhookDestination d => deactivate_customer_webhook_destination headers d
  | WebhookDeliveries l => customer_webhook_deliveries headers l
  end.

(** The response, and the step and database after it. *)
Definition handle (e : Endpoint) (headers : HeaderMap) (w : World) (db : Db) : Response * (nat * Db) :=
  match route e headers w (0%nat, db) with (Ok r, s) | (Err r, s) => (r, s) end.
End portal.
