(* ===== verification/PortalProps.v ===== *)
(** What the customer portal guarantees, however other requests interleave with its steps:
    a request acts for the session of its cookie, with the permission its endpoint needs
    and, when it changes something, under a proof against cross-site requests; and what it
    changes is one operation of the store, made in the session's name and checked by the
    store again when it happens. *)
From S2P Require Import Prelude BTree Net Json Spend TenantDb TenantDirectory TenantScim TenantSession.
From S2P Require Import TenantPolicy TenantUsage TenantAccess TenantScene TenantGuards TenantOnce Oidc PortalTypes Portal.
From Stdlib Require Import String Ascii.
Local Open Scope string_scope.
Local Open Scope Z_scope.

#[local] Abbreviation length := List.length.

(** ** The endpoints of a workspace *)

(** The permission an endpoint asks for before it turns to the store's own checks. *)
Definition needs (e : Endpoint) : option WorkspacePermission :=
  match e with
  | WorkspaceAudit _ | ProxyAudit _ | WebhookDestinations | WebhookDeliveries _ => Some ReadAudit
  | Usage _ _ | ReconciliationRuns _ | ReconciliationObservations _ _ | Retention _ | Quota => Some ReadUsage
  | InvoicePreview _ _ | SetRetention _ | SetQuota _ => Some ManageBilling
  | Portal.ExportUsage _ _ _ _ => Some TenantDb.ExportUsage
  | Members | AssignScimUser _ _ | UpdateMembership _ _ _ | Invitations | CreateInvitation _ _ _
  | RevokeInvitation _ | ResendInvitation _ _ | ScimUsers | ScimGroups | ScimGroupMappings
  | CreateScimGroupMapping _ | DeleteScimGroupMapping _ => Some ManageMembership
  | Controls => Some ManagePolicies
  | SetModelPolicy _ => Some ApprovePolicies
  | SetLimits _ => Some ManageTenant
  | _ => None
  end.

(** What an endpoint asks of the store on behalf of a member of a workspace. *)
Definition asks (cfg : PortalConfig) (e : Endpoint) (now : Z) (random : nat -> string) (w p : string) : option Request :=
  match e with
  | CreateServiceAccount n x => Some (RCreateServiceAccount now (random 0%nat) (random 1%nat) w p n x)
  | RevokeServiceAccount i => Some (RRevokeServiceAccount now w i p)
  | SetRetention x => Some (RSetWorkspaceRetention now w p x)
  | SetQuota x => Some (RSetWorkspaceQuota now w p x)
  | AssignScimUser t r => Some (RAssignScimUser now w p t r)
  | UpdateMembership t r a => Some (RUpdateMembership now w p t r a)
  | CreateInvitation l r x => Some (RInvite now (random 0%nat) (random 1%nat) w p l r x)
  | RevokeInvitation i => Some (RRevokeInvitation now w i p)
  | ResendInvitation i x => Some (RResendInvitation now (random 0%nat) (random 1%nat) w i p x)
  | CreateScimGroupMapping g => Some (RCreateMapping now w p g)
  | DeleteScimGroupMapping g => Some (RDeleteMapping now w p g)
  | SetModelPolicy x =>
      Some (RSetWorkspaceModelPolicy now (fun i => random (2 + i)%nat) (random 0%nat) (random 1%nat) w p x)
  | SetLimits l => Some (RSetWorkspaceLimits now w p l)
  | CreateWebhookDestination u t => Some (RCreateWorkspaceWebhook (pc_webhook_key cfg) now (random 0%nat) w p u t)
  | DeactivateWebhookDestination d => Some (RDeactivateWorkspaceWebhook now w p d)
  | _ => None
  end.

(** Not login, logout or rotation. *)
Definition of_workspace (e : Endpoint) : bool :=
  match e with
  | StartLogin _ _ | StartInvitationLogin _ | Callback _ _ _ | Logout | RotateSession => false
  | _ => true
  end.

Section portal_props.
Context `{Sha256, UrlParser, JsonCodec TenantPolicyDocument, JsonCodec TenantModelPolicy,
          JsonCodec (list string), JsonCodec Value}.
Context `{Aead, Base64Url, Jwt, JsonCodec AuthorizationState, JsonCodec DiscoveryDocument, JsonCodec JwkSet,
          JsonCodec OidcTokenResponse}.
Variable hmac_sha256 : string -> string -> string.
Variable cfg : PortalConfig.
Variable w : World.
Variable db : Db.

(** The database once others did what they do before the first [k] steps. *)
Fixpoint at_step (k : nat) : Db :=
  match k with O => db | S k => run hmac_sha256 (wo_others w k) (at_step k) end.

(** The cookie of the request is a live session at step [k]. *)
Definition authenticated (token : string) (session : OidcBrowserSession) (k : nat) : Prop :=
  (authenticate_oidc_browser_session (wo_now w k) token (at_step (S k))).1 = Ok (Some session).

Definition permitted (session : OidcBrowserSession) (permission : WorkspacePermission) (k : nat) : Prop :=
  (workspace_permits (principal_of session) (workspace_of session) permission (at_step (S k))).1 = Ok true.

(** The workspace of the session, active at step [k] and of the session's organization. *)
Definition workspace_at (session : OidcBrowserSession) (ws : Workspace) (k : nat) : Prop :=
  (active_workspace_by_id (workspace_of session) (at_step (S k))).1 = Ok (Some ws) /\
  wk_organization_id ws = va_organization_id (ob_access session).

Definition proven (headers : HeaderMap) (token : string) : Prop :=
  exists c csrf, pc_cipher cfg = Some c /\ csrf_header headers = Some csrf /\
    verifies_browser_csrf_token hmac_sha256 c token csrf = true.

(** A guard: it lets the request pass with [Q], or refuses it and nothing happened. *)
Definition checked {A} (m : M A) (k k' : nat) (Q : A -> Prop) : Prop :=
  (exists x, m w (k, at_step k) = (Ok x, (k', at_step k')) /\ Q x) \/
  (exists r j, m w (k, at_step k) = (Err r, (j, at_step j)) /\ 400 <= rs_status r).

Ltac settle k :=
  first [left; eexists; split; [reflexivity|try done] | right; eexists _, k; split; [reflexivity|done]
        | right; eexists _, (S k); split; [reflexivity|done]].

Lemma checked_store k : checked (require_store cfg) k k (fun _ => True).
Proof. unfold checked, require_store. destruct (pc_tenant_store cfg); settle k. Qed.

Lemma checked_cipher k : checked (require_cipher cfg) k k (fun c => pc_cipher cfg = Some c).
Proof. unfold checked, require_cipher. destruct (pc_cipher cfg); settle k. Qed.

Lemma checked_cookie headers k : checked (require_cookie headers) k k (fun token => session_cookie_token headers = Some token).
Proof. unfold checked, require_cookie. destruct (session_cookie_token headers); settle k. Qed.

Lemma checked_csrf headers c token k :
  pc_cipher cfg = Some c -> checked (require_csrf hmac_sha256 c token headers) k k (fun _ => proven headers token).
Proof.
  intros Hc. unfold checked, require_csrf. destruct (csrf_header headers) as [csrf|] eqn:Hh.
  - destruct (verifies_browser_csrf_token _ _ _ _) eqn:Hv; settle k.
    exists c, csrf. done.
  - settle k.
Qed.

Lemma checked_session token k :
  checked (require_session hmac_sha256 token) k (S k) (fun session => authenticated token session k).
Proof.
  unfold checked, require_session, authenticated, bind, store, step. cbn [fst snd at_step].
  change (authenticate_oidc_browser_session (wo_now w k) token ?D).2 with D.
  destruct (authenticate_oidc_browser_session _ _ _).1 as [[session|]|]; settle k.
Qed.

Lemma checked_permission session permission k :
  checked (require_permission hmac_sha256 session permission) k (S k) (fun _ => permitted session permission k).
Proof.
  unfold checked, require_permission, permitted, bind, store, step. cbn [fst snd at_step].
  change (workspace_permits ?a ?b ?c ?D).2 with D.
  destruct (workspace_permits _ _ _ _).1 as [[|]|]; settle k.
Qed.

Lemma checked_workspace session k :
  checked (require_workspace hmac_sha256 session) k (S k) (fun ws => workspace_at session ws k).
Proof.
  unfold checked, require_workspace, bind, store, step. cbn [fst snd at_step].
  change (active_workspace_by_id ?a ?D).2 with D.
  unfold workspace_at. cbn [at_step].
  destruct (active_workspace_by_id _ _).1 as [[ws|]|]; [case_bool_decide|..]; settle k.
Qed.

Lemma checked_range f u k : checked (require_range hmac_sha256 f u) k (S k) (fun r =>
  customer_usage_range (wo_now w k) f u = Ok r).
Proof.
  unfold checked, require_range, bind, clock, step. cbn [fst snd at_step].
  destruct (customer_usage_range _ _ _) as [r|[|]]; settle k.
Qed.

Lemma checked_bind {A B} (m : M A) (f : A -> M B) k k1 k2 (P : A -> Prop) (Q : B -> Prop) :
  checked m k k1 P -> (forall x, P x -> checked (f x) k1 k2 Q) -> checked (bind m f) k k2 Q.
Proof.
  intros [(x & Hm & Hp)|(r & j & Hm & Hr)] Hf; unfold checked, bind; rewrite Hm; [by apply Hf|right; eauto].
Qed.

Lemma checked_ret {A} (x : A) k (Q : A -> Prop) : Q x -> checked (ret x) k k Q.
Proof. left. eauto. Qed.

(** The guard most endpoints begin with. *)
Definition in_context (headers : HeaderMap) (permission : WorkspacePermission) (k : nat)
    (context : OidcBrowserSession * Workspace) : Prop :=
  exists token, session_cookie_token headers = Some token /\ authenticated token context.1 k /\
    permitted context.1 permission (S k) /\ workspace_at context.1 context.2 (S (S k)).

Lemma checked_context headers permission k :
  checked (customer_workspace_for_permission hmac_sha256 cfg headers permission) k (S (S (S k)))
    (in_context headers permission k).
Proof.
  eapply checked_bind; [apply checked_store|]. intros _ _.
  eapply checked_bind; [apply checked_cookie|]. intros token Ht.
  eapply checked_bind; [apply checked_session|]. intros session Hs.
  eapply checked_bind; [apply checked_permission|]. intros ? Hp.
  eapply checked_bind; [apply checked_workspace|]. intros ws Hw.
  apply checked_ret. exists token. done.
Qed.

(** ** What an endpoint that reads may answer *)

(** A listing of rows of the table that belong to the session. *)
Definition lists {A} (response : Response) (payload : list A -> Payload) (mine : A -> Prop) : Prop :=
  exists l, response = customer_json (payload l) /\ Forall mine l.

(** The answer about the tenant [t] of the session's workspace, as the store has it at step [n]. *)
Definition tenant_answer (e : Endpoint) (t : string) (n : nat) (response : Response) : Prop :=
  let D := at_step n in
  let report_of f u (payload : UsageReport -> Payload) :=
    exists j range report, (j < n)%nat /\ customer_usage_range (wo_now w j) f u = Ok range /\
      (usage_report t range.1 range.2 D).1 = Ok report /\ response = customer_json (payload report) in
  match e with
  | WebhookDestinations =>
      lists response (fun l => PDestinations ((fun d => destination_from d.1 d.2) <$> l))
        (fun d => d.1 ∈ rows (webhook_destinations D) /\ wd_tenant_id d.1 = t)
  | WebhookDeliveries _ =>
      lists response (fun l => PDeliveries (delivery_from <$> l))
        (fun v => v ∈ rows (webhook_deliveries D) /\ wv_tenant_id v = t)
  | ProxyAudit _ =>
      lists response (fun l => PProxyAudit ((fun e => proxy_audit_from e.2) <$> l))
        (fun r => r ∈ log_rows (tenant_audit D) /\ ta_tenant_id r.2 = t)
  | Usage f u => report_of f u (fun r => PUsage (usage_report_from r))
  | InvoicePreview f u => report_of f u (fun r => PInvoice (invoice_from r))
  | ExportUsage _ _ _ _ =>
      exists page, response = customer_usage_csv_response page /\
        Forall (fun r => r ∈ log_rows (usage_events D) /\ ue_tenant_id r.2 = t) page.1
  | ReconciliationRuns _ =>
      lists response (fun l => PRuns (run_from <$> l))
        (fun r => r ∈ rows (reconciliation_runs D) /\ rr_tenant_id r = t)
  | ReconciliationObservations run _ =>
      lists response (fun l => PObservations (observation_from <$> l))
        (fun o => o ∈ (log_rows (observations D)).*2 /\ ro_tenant_id o = t /\ ro_run_id o = run)
  | Retention _ =>
      lists response (fun l => PRetention ((fun r => r.1.1) <$> retention_policies (at_step (Nat.pred n)) !! t)
                                 (retention_run_from <$> l))
        (fun r => r ∈ rows (retention_runs D) /\ rn_tenant_id r = t)
  | Quota =>
      exists status, (usage_quota_status (wo_now w (Nat.pred n)) t D).1 = Ok status /\
        response = customer_json (PQuota (quota_status_from <$> status))
  | Controls =>
      exists limits policy, (limits_for t (at_step (Nat.pred n))).1 = Ok limits /\ (model_policy_for t D).1 = Ok policy /\
        response = customer_json (PControls (limits_from limits) policy)
  | _ => False
  end.

(** The answer to a session: about itself, its workspace, the organization of its workspace when it
    owns the workspace, or the tenant of its workspace. *)
Definition answers (e : Endpoint) (token : string) (session : OidcBrowserSession) (n : nat) (response : Response) : Prop :=
  let D := at_step n in
  let ws := workspace_of session in
  let p := principal_of session in
  match e with
  | Session => response = customer_json (PSession session)
  | Csrf => exists c, pc_cipher cfg = Some c /\ response = customer_json (PCsrfToken (browser_csrf_token hmac_sha256 c token))
  | ServiceAccounts =>
      lists response (fun l => PServiceAccounts (service_account_from <$> l)) (fun a =>
        a ∈ rows (service_accounts D) /\ sa_workspace_id a = ws /\
        exists found role, authorized_member ws p D = Some (found, role) /\
          (role = Owner \/ role = Admin \/ sa_created_by_principal_id a = p))
  | WorkspaceAudit _ =>
      lists response PAdminAudit (fun r => r ∈ log_rows (admin_audit D) /\ aa_workspace_id r.2 = ws)
  | Members =>
      lists response PMembers (fun m => m.1 ∈ rows (memberships D) /\ mb_workspace_id m.1 = ws)
  | Invitations =>
      lists response PInvitations (fun iv => iv ∈ rows (invitations D) /\ iv_workspace_id iv = ws /\
        exists o, authorized_workspace_owner ws p D = Ok o)
  | ScimUsers =>
      lists response PScimUsers (fun x => exists u, x = (su_id u, su_display_name u) /\ u ∈ rows (scim_users D) /\
        authorized_workspace_owner ws p D = Ok (su_organization_id u))
  | ScimGroups =>
      lists response PScimGroups (fun x => exists g, x = (sg_id g, sg_display_name g) /\ g ∈ rows (scim_groups D) /\
        authorized_workspace_owner ws p D = Ok (sg_organization_id g))
  | ScimGroupMappings =>
      lists response PMappings (fun m => gm_workspace_id m = ws /\ is_Some (mappings D !! (ws, gm_group_id m)) /\
        exists o, authorized_workspace_owner ws p D = Ok o)
  | _ => exists found j, (j < n)%nat /\ workspace_at session found j /\ tenant_answer e (wk_tenant_id found) n response
  end.

(** ** The outcome of a request *)

(** The response, early or not. *)
Definition final (out : result Response Response * (nat * Db)) : Response * (nat * Db) :=
  match out with (Ok r, s) | (Err r, s) => (r, s) end.

(** The request was refused and did nothing, or it acted for a live session that has the
    permission; and when the endpoint writes, the proof was right and what is left is the
    store's operation in the session's name. *)
Definition in_order (e : Endpoint) (headers : HeaderMap) (out : Response * (nat * Db)) : Prop :=
  let '(response, (n, db')) := out in
  (400 <= rs_status response /\ db' = at_step n) \/
  exists token session i, session_cookie_token headers = Some token /\ (i < n)%nat /\ authenticated token session i /\
    (forall permission, needs e = Some permission -> exists j, (j < n)%nat /\ permitted session permission j) /\
    match asks cfg e (wo_now w (Nat.pred n)) (wo_random w (Nat.pred n)) (workspace_of session) (principal_of session) with
    | None => db' = at_step n /\ answers e token session n response
    | Some r => proven headers token /\ db' = exec hmac_sha256 r (at_step n)
    end.

Lemma in_order_bind {A} e headers (m : M A) (f : A -> M Response) k k' (Q : A -> Prop) :
  checked m k k' Q -> (forall x, Q x -> in_order e headers (final (f x w (k', at_step k')))) ->
  in_order e headers (final (bind m f w (k, at_step k))).
Proof.
  intros [(x & Hm & Hp)|(r & j & Hm & Hr)] Hf; unfold bind; rewrite Hm; [by apply Hf|]. cbn. by left.
Qed.

Lemma in_order_refused e headers r k : 400 <= rs_status r -> in_order e headers (final (ret r w (k, at_step k))).
Proof. intros Hr. by left. Qed.

(** A step that reads, before the last. *)
Lemma checked_read {A} (op : Z -> (nat -> string) -> Op A) k :
  (forall now random D, (op now random D).2 = D) -> checked (store hmac_sha256 op) k (S k)
    (fun x => x = (op (wo_now w k) (wo_random w k) (at_step (S k))).1).
Proof. intros Hop. left. unfold store, step. cbn [fst snd]. rewrite Hop. eexists. by split. Qed.

(** The answer of an endpoint that does not write. *)
Lemma in_order_ret e headers token session i response k :
  session_cookie_token headers = Some token -> authenticated token session i -> (i < k)%nat ->
  (forall permission, needs e = Some permission -> exists j, (j < k)%nat /\ permitted session permission j) ->
  (forall now random x y, asks cfg e now random x y = None) -> answers e token session k response ->
  in_order e headers (final (ret response w (k, at_step k))).
Proof. intros Ht Hs Hi Hp Ha Hr. right. exists token, session, i. rewrite Ha. done. Qed.

(** The last step of an endpoint that reads. *)
Lemma in_order_read {A} e headers token session i (op : Z -> (nat -> string) -> Op A) (f : result A string -> M Response) k :
  session_cookie_token headers = Some token -> authenticated token session i -> (i < S k)%nat ->
  (forall permission, needs e = Some permission -> exists j, (j < S k)%nat /\ permitted session permission j) ->
  (forall now random x y, asks cfg e now random x y = None) ->
  (forall now random D, (op now random D).2 = D) ->
  (forall s, exists response, f (op (wo_now w k) (wo_random w k) (at_step (S k))).1 w s = (Ok response, s) /\
     (400 <= rs_status response \/ answers e token session (S k) response)) ->
  in_order e headers (final (bind (store hmac_sha256 op) f w (k, at_step k))).
Proof.
  intros Ht Hs Hi Hp Ha Hop Hf. unfold bind, store, step. cbn [fst snd]. rewrite Hop.
  change (run hmac_sha256 (wo_others w k) (at_step k)) with (at_step (S k)).
  destruct (Hf (S k, at_step (S k))) as (response & -> & [Hr|Hr]); [by left|].
  right. exists token, session, i. rewrite Ha. done.
Qed.

(** A listing that succeeds, or the error of every listing. *)
Lemma listed_answers {A} (r : result A string) (payload : A -> Payload) (P : Response -> Prop) s :
  (forall x, r = Ok x -> P (customer_json (payload x))) ->
  exists response, listed r payload w s = (Ok response, s) /\ (400 <= rs_status response \/ P response).
Proof. intros Hp. destruct r as [x|e]; eexists; (split; [reflexivity|]); [right; auto|by left]. Qed.

(** The last step of an endpoint that writes. *)
Lemma in_order_write {A} e headers token session i (op : Z -> (nat -> string) -> Op A) (f : result A string -> M Response) k r :
  session_cookie_token headers = Some token -> authenticated token session i -> (i < S k)%nat -> proven headers token ->
  (forall permission, needs e = Some permission -> exists j, (j < S k)%nat /\ permitted session permission j) ->
  asks cfg e (wo_now w k) (wo_random w k) (workspace_of session) (principal_of session) = Some r ->
  (forall D, (op (wo_now w k) (wo_random w k) D).2 = exec hmac_sha256 r D) ->
  (forall r s, exists response, f r w s = (Ok response, s)) ->
  in_order e headers (final (bind (store hmac_sha256 op) f w (k, at_step k))).
Proof.
  intros Ht Hs Hi Hc Hp Ha Hop Hf. unfold bind, store, step. cbn [fst snd]. rewrite Hop.
  match goal with |- context [f ?a w ?b] => destruct (Hf a b) as [response ->] end.
  right. exists token, session, i. cbn [Nat.pred]. rewrite Ha. done.
Qed.

Ltac pass_guard :=
  first
  [ eapply in_order_bind; [apply checked_store|]; intros _ _
  | eapply in_order_bind; [apply checked_cipher|]; intros ? ?
  | eapply in_order_bind; [apply checked_cookie|]; intros ? ?
  | eapply in_order_bind; [apply checked_csrf; eassumption|]; intros ? ?
  | eapply in_order_bind; [apply checked_session|]; intros ? ?
  | eapply in_order_bind; [apply checked_permission|]; intros ? ?
  | eapply in_order_bind; [apply checked_workspace|]; intros ? ?
  | eapply in_order_bind; [apply checked_range|]; intros ? ?
  | eapply in_order_bind; [apply checked_context|]; intros ? (? & ? & ? & ? & ?); simplify_eq
  | match goal with |- context [if target_invalid ?x then _ else _] =>
      destruct (target_invalid x); [by apply in_order_refused|] end
  | match goal with |- context [if match ?x with Some _ => _ | None => _ end then ret _ else _] =>
      destruct (match x with Some _ => _ | None => _ end); [by apply in_order_refused|] end ].

Ltac responds :=
  intros [?|?] ?; unfold listed; repeat case_match; eexists; reflexivity.

Ltac in_time := intros ? [= <-]; (eexists; split; [|eassumption]; lia).

Ltac finished :=
  first
  [ match goal with |- in_order _ _ (final (ret _ _ _)) =>
      eapply in_order_ret; [eassumption|eassumption|lia| | |]; [in_time|done|] end
  | eapply in_order_read; [eassumption|eassumption|lia| | | |]; [in_time|done|done|intros ?]
  | eapply in_order_write; [eassumption|eassumption|lia|eassumption| | | |]; [in_time|reflexivity|done|responds] ].

Lemma take_elem {A} n (l : list A) x : x ∈ take n l -> x ∈ l.
Proof. intros Hx. rewrite <- (take_drop n l). apply elem_of_app. by left. Qed.

Lemma collect_elem {A B} (f : A -> result B string) l ys y :
  collect f l = Ok ys -> y ∈ ys -> exists x, x ∈ l /\ f x = Ok y.
Proof.
  revert ys. induction l as [|x l IH]; intros ys; cbn; [intros [= <-] Hy; by apply elem_of_nil in Hy|].
  destruct (f x) as [y'|] eqn:Hx; [|done]. destruct (collect f l) as [ys'|]; [|done]. intros [= <-] [->|Hy]%elem_of_cons.
  - exists x. split; [left|done].
  - destruct (IH _ eq_refl Hy) as (x' & ? & ?). exists x'. split; [by right|done].
Qed.

(** From a row of an answer back to the row of the table. *)
Ltac row_of Hr :=
  repeat lazymatch type of Hr with
  | _ ∈ rows _ => fail
  | _ ∈ snd <$> _ => fail
  | _ ∈ take _ _ => apply take_elem in Hr
  | _ ∈ reverse _ => apply (proj1 (elem_of_reverse _ _)) in Hr
  | _ ∈ order_by _ _ => apply (proj1 (sort_by_elem _ _ _)) in Hr
  | _ ∈ filter _ _ => apply list_elem_of_filter in Hr as [? Hr]
  | _ ∈ omap _ _ => apply list_elem_of_omap in Hr as (? & Hr & ?)
  | _ ∈ _ <$> _ => apply list_elem_of_fmap in Hr as (? & -> & Hr)
  end.

(** The rows of a listing, each to be traced to its table. *)
Ltac listing := intros [= <-]; apply Forall_forall; intros ? Hr; row_of Hr.

Lemma accounts_own ws p D l :
  (list_workspace_service_accounts ws p D).1 = Ok l ->
  Forall (fun a => a ∈ rows (service_accounts D) /\ sa_workspace_id a = ws /\
    exists found role, authorized_member ws p D = Some (found, role) /\
      (role = Owner \/ role = Admin \/ sa_created_by_principal_id a = p)) l.
Proof.
  cbn. destruct (authorized_member ws p D) as [[found role]|]; [listing|intros [= <-]; constructor].
  destruct_and!. split_and!; [done..|]. by exists found, role.
Qed.

Lemma members_own ws D l :
  (list_workspace_members ws D).1 = Ok l ->
  Forall (fun m => m.1 ∈ rows (memberships D) /\ mb_workspace_id m.1 = ws) l.
Proof.
  cbn. listing. case_bool_decide; [|done]. destruct (principals D !! _); simplify_eq/=. done.
Qed.

Lemma users_own ws p D l :
  (list_workspace_scim_users_as_owner ws p D).1 = Ok l ->
  Forall (fun x => exists u, x = (su_id u, su_display_name u) /\ u ∈ rows (scim_users D) /\
    authorized_workspace_owner ws p D = Ok (su_organization_id u)) l.
Proof.
  cbn. destruct (authorized_workspace_owner ws p D) as [o|]; [listing|intros [= <-]; constructor].
  destruct_and!. simplify_eq. eauto.
Qed.

Lemma groups_own ws p D l :
  (list_workspace_scim_groups_as_owner ws p D).1 = Ok l ->
  Forall (fun x => exists g, x = (sg_id g, sg_display_name g) /\ g ∈ rows (scim_groups D) /\
    authorized_workspace_owner ws p D = Ok (sg_organization_id g)) l.
Proof.
  cbn. destruct (authorized_workspace_owner ws p D) as [o|]; [listing|intros [= <-]; constructor].
  destruct_and!. simplify_eq. eauto.
Qed.

Lemma mappings_own ws p D l :
  (list_workspace_scim_group_mappings_as_owner ws p D).1 = Ok l ->
  Forall (fun m => gm_workspace_id m = ws /\ is_Some (mappings D !! (ws, gm_group_id m)) /\
    exists o, authorized_workspace_owner ws p D = Ok o) l.
Proof.
  cbn. destruct (authorized_workspace_owner ws p D) as [o|]; [listing|intros [= <-]; constructor].
  case_bool_decide; [|done]. destruct x0 as [[ws' g] v]. cbn in *. subst. destruct (scim_groups D !! g); simplify_eq/=.
  apply elem_of_map_to_list in Hr. eauto.
Qed.

Lemma destinations_own t D l :
  (list_webhook_destinations t D).1 = Ok l ->
  Forall (fun d => d.1 ∈ rows (webhook_destinations D) /\ wd_tenant_id d.1 = t) l.
Proof.
  cbn. intros Hl. apply Forall_forall. intros d Hd. destruct (collect_elem _ _ _ _ Hl Hd) as (x & Hr & Hx). row_of Hr.
  destruct (from_json _); simplify_eq/=. done.
Qed.

Lemma export_own t f u a limit D page :
  (list_usage_events_range t f u a limit D).1 = Ok page ->
  Forall (fun r => r ∈ log_rows (usage_events D) /\ ue_tenant_id r.2 = t) page.1.
Proof.
  unfold list_usage_events_range, reading. cbn [fst].
  destruct (validate_usage_text _ _ _); [|done]. destruct (validate_usage_range _ _); [|done]. cbn zeta.
  destruct (match a with Some _ => _ | None => _ end); [done|]. set (events := take _ (filter _ _)). intros Hp.
  assert (Hsub : forall r, r ∈ page.1 -> r ∈ range_events t f u D).
  { intros r Hr. assert (r ∈ events) as Hin; [|unfold events in Hin; by row_of Hin].
    destruct (_ <? _)%nat; injection Hp as <-; [by apply take_elem in Hr|done]. }
  apply Forall_forall. intros r Hr. apply Hsub in Hr. unfold range_events, tenant_events in Hr. row_of Hr. done.
Qed.

(** An answer about the tenant of the session's workspace. *)
Ltac about_tenant := eexists _, 2%nat; split; [lia|]; split; [eassumption|].

(** The endpoints that read twice. *)
Ltac first_read :=
  match goal with
  | |- in_order (Retention _) _ (final (bind _ _ _ (3%nat, _))) => idtac
  | |- in_order Controls _ (final (bind _ _ _ (3%nat, _))) => idtac
  end;
  eapply in_order_bind; [by apply checked_read|]; intros [?|?] ?; [|by apply in_order_refused].

Lemma request_in_order (e : Endpoint) (headers : HeaderMap) :
  of_workspace e = true -> in_order e headers (final (route hmac_sha256 cfg e headers w (0%nat, at_step 0))).
Proof.
  destruct e; try done; intros _; cbn [route];
    unfold customer_session, customer_csrf, customer_service_accounts, create_customer_service_account,
      revoke_customer_service_account, customer_workspace_audit, customer_workspace_proxy_audit, customer_workspace_usage,
      customer_workspace_invoice_preview, export_customer_workspace_usage, customer_workspace_usage_reconciliation_runs,
      customer_workspace_usage_reconciliation_observations, customer_workspace_usage_retention,
      set_customer_workspace_usage_retention, customer_workspace_usage_quota, set_customer_workspace_usage_quota,
      customer_workspace_members, assign_customer_workspace_scim_user, update_customer_workspace_membership,
      customer_workspace_invitations, create_customer_workspace_invitation, revoke_customer_workspace_invitation,
      resend_customer_workspace_invitation, customer_workspace_scim_users, customer_workspace_scim_groups,
      customer_workspace_scim_group_mappings, create_customer_workspace_scim_group_mapping,
      delete_customer_workspace_scim_group_mapping, customer_workspace_controls, set_customer_workspace_model_policy,
      set_customer_workspace_limits, customer_webhook_destinations, create_customer_webhook_destination,
      deactivate_customer_webhook_destination, customer_webhook_deliveries;
    repeat (pass_guard; cbn beta in *); try first_read; try finished;
    try (apply listed_answers; intros l Hl); try about_tenant; try (exists l; split; [reflexivity|]).
  all: try first [done|exact (accounts_own _ _ _ _ Hl)|exact (members_own _ _ _ Hl)|exact (users_own _ _ _ _ Hl)
    |exact (groups_own _ _ _ _ Hl)|exact (mappings_own _ _ _ _ Hl)|exact (destinations_own _ _ _ Hl)].
  all: try (revert Hl; cbn; listing; destruct_and?; by eauto).
  - by exists x.
  - exists 3%nat, x1, l. split; [lia|done].
  - exists 3%nat, x1, l. split; [lia|done].
  - destruct (list_usage_events_range _ _ _ _ _ _).1 as [page|] eqn:Hp; eexists; (split; [reflexivity|]); [right|by left].
    about_tenant. exists page. split; [done|]. by apply export_own in Hp.
  - match goal with Ha : Ok a = _ |- _ => cbn in Ha; injection Ha as -> end. exists l. split; [done|]. revert Hl. cbn. listing. done.
  - by exists l.
  - revert Hl. cbn. destruct (authorized_workspace_owner _ _ _) as [o|]; [|done]. cbn. listing. eauto.
  - by exists a, l.
Qed.
Lemma asks_customer e now random x y r :
  asks cfg e now random x y = Some r -> exists granted, customer r = Some (x, y, granted).
Proof. destruct e; try done; intros [= <-]; by eexists. Qed.

(** C8. Every request to an endpoint of a workspace, whatever other requests commit between its
    steps, is refused and changes nothing, or it acts for the live session its cookie names,
    and for no other principal or workspace: the endpoint's permission was granted to that
    session during the request; an endpoint that reads changes nothing and answers with what is the session's: itself, rows
    of its workspace (its service accounts only to a member of it: all to an owner or admin, else those
    the member created), of the organization of that workspace to its owner, or of the tenant of that workspace; and an endpoint that
    writes got a proof of this session against cross-site requests and leaves what one
    operation of the store, made in the session's name, leaves of the database as others had it at that
    moment, which is nothing unless the principal was still entitled to it then, and
    otherwise is audited in its name. *)
Theorem portal_acts_for_session (e : Endpoint) (headers : HeaderMap) :
  of_workspace e = true ->
  let '(response, (n, db')) := handle hmac_sha256 cfg e headers w db in
  (400 <= rs_status response /\ db' = at_step n) \/
  exists token session i, session_cookie_token headers = Some token /\ (i < n)%nat /\ authenticated token session i /\
    (forall permission, needs e = Some permission -> exists j, (j < n)%nat /\ permitted session permission j) /\
    match asks cfg e (wo_now w (Nat.pred n)) (wo_random w (Nat.pred n)) (workspace_of session) (principal_of session) with
    | None => db' = at_step n /\ answers e token session n response
    | Some r =>
        proven headers token /\ db' = exec hmac_sha256 r (at_step n) /\
        exists granted, customer r = Some (workspace_of session, principal_of session, granted) /\
          (db' = at_step n \/
           entitled (workspace_of session) (principal_of session) granted (at_step n) /\
           audited (workspace_of session) (principal_of session) (at_step n) db')
    end.
Proof.
  intros He. pose proof (request_in_order e headers He) as Ho. unfold handle. change (0%nat, db) with (0%nat, at_step 0).
  fold (final (route hmac_sha256 cfg e headers w (0%nat, at_step 0))).
  destruct (final _) as [response [n db']]. destruct Ho as [Hr|(token & session & i & Ht & Hi & Hs & Hp & Ha)]; [by left|].
  right. exists token, session, i. split_and!; [done..|]. destruct (asks _ _ _ _ _ _) as [r|] eqn:Er; [|done].
  destruct Ha as [Hc ->]. apply asks_customer in Er as [granted Hg]. split_and!; [done..|].
  exists granted. split; [done|]. by apply (exec_governed hmac_sha256).
Qed.
End portal_props.
