(* ===== verification/LoginProps.v ===== *)
(** Logging in through the organization's identity provider: what the redirect carries
    comes back as it was sent, and the callback sets a session cookie only for a verified
    identity, once per login, in the workspace the login was started for. Before that, what the
    firewall hands to a browser and takes back: sealed states open to what was sealed, and a proof
    against cross-site requests is good for the session it was issued for. *)
From S2P Require Import Prelude BTree Net Json Spend TenantDb TenantDirectory TenantScim TenantSession.
From S2P Require Import TenantPolicy TenantUsage TenantAccess TenantScene TenantGuards TenantOnce Oidc PortalTypes Portal PortalProps.
From Stdlib Require Import String Ascii.
Local Open Scope string_scope.
Local Open Scope Z_scope.

#[local] Abbreviation length := List.length.

(** ** Encoded bytes *)

Lemma base64url_ind (P : string -> Prop) :
  P EmptyString -> (forall a, P (String a EmptyString)) -> (forall a b, P (String a (String b EmptyString))) ->
  (forall a b c s, P s -> P (String a (String b (String c s)))) -> forall s, P s.
Proof.
  intros H0 H1 H2 H3 s. assert (forall n s, (Str.len s <= n)%nat -> P s) as Hn; [|by apply (Hn (Str.len s))].
  clear s. induction n as [|n IH]; intros [|a [|b [|c s]]] Hl; try done; cbn in Hl; try lia.
  apply H3, IH. unfold Str.len. lia.
Qed.

Lemma base64url_len (s : string) : (3 * Str.len (base64url s) <= 4 * Str.len s + 2)%nat.
Proof.
  induction s as [| | |a b c s IH] using base64url_ind; [cbn; lia..|].
  cbn [base64url]. rewrite !Str.len_cons. lia.
Qed.

Lemma sextet_byte (p : ascii -> bool) v n : Str.forallb p BASE64URL_TABLE = true -> p "A"%char = true -> p (sextet v n) = true.
Proof.
  intros Ht Ha. unfold sextet, table_at. generalize (Z.to_nat (Z.land (Z.shiftr v n) 63)) as i. revert Ht.
  generalize BASE64URL_TABLE as s. induction s as [|c s IH]; intros Hs i; cbn in *; [by destruct i|].
  apply andb_true_iff in Hs as [Hc Hs]. destruct i; [done|by apply IH].
Qed.

(** Every byte of an encoding is one of the table's. *)
Lemma base64url_bytes (p : ascii -> bool) (s : string) :
  Str.forallb p BASE64URL_TABLE = true -> p "A"%char = true -> Str.forallb p (base64url s) = true.
Proof.
  intros Ht Ha. induction s as [| | |a b c s IH] using base64url_ind; [done|..];
    cbn [base64url Str.forallb]; rewrite !(sextet_byte p) by done; [done..|]. by rewrite IH.
Qed.

Lemma base64url_no_control (s : string) : has_control (base64url s) = false.
Proof. apply graphic_no_control. by apply base64url_bytes. Qed.

Lemma base64url_empty (s : string) : s <> EmptyString -> Str.is_empty (base64url s) = false.
Proof. by destruct s as [|a [|b [|c s]]]. Qed.

(** ** Sealed states *)

Section seals.
Context `{Sha256, AeadLaws, Base64UrlLaws, JsonCodec AuthorizationState, JsonCodec SamlSealedState}.
Variable hmac_sha256 : string -> string -> string.

Lemma sealed_opened c aad gcm_nonce plaintext error sealed :
  Str.len gcm_nonce = AES_GCM_NONCE_BYTES -> sealed_with c aad gcm_nonce plaintext error = Ok sealed ->
  exists bytes, sealed = base64url bytes /\ base64url_decode sealed = Some bytes /\
    Str.len bytes = (AES_GCM_NONCE_BYTES + Str.len plaintext + 16)%nat /\ opened_with c aad bytes = Some plaintext.
Proof.
  unfold sealed_with. intros Hn. destruct (aead_encrypt _ _ _ _) as [ciphertext|] eqn:He; [|done]. intros [= <-].
  exists (gcm_nonce +:+ ciphertext). split; [done|]. split; [apply decode_base64url|].
  split; [rewrite Str.len_app, (encrypt_len _ _ _ _ _ He); lia|]. unfold opened_with.
  rewrite <- Hn, Str.take_app, Str.drop_app. by apply decrypt_encrypt.
Qed.

Lemma validate_state_spec value field n v :
  validate_state_component value field n = Ok v -> v = value /\ (Str.len value <= n)%nat /\ has_control value = false.
Proof.
  unfold validate_state_component. destruct (_ || _) eqn:E; [done|]. intros [= <-].
  apply orb_false_iff in E as [E Hc]. apply orb_false_iff in E as [_ E]. apply Nat.ltb_ge in E. done.
Qed.

(** A sealed login state opens to what was sealed. *)
Lemma seal_open `{!StateJsonLaws} c gcm_nonce o ws i pkce nonce e sealed :
  Str.len gcm_nonce = AES_GCM_NONCE_BYTES -> - 2 ^ 63 <= e < 2 ^ 63 -> (Str.len (pk_code_verifier pkce) <= 256)%nat ->
  has_control (pk_code_verifier pkce) = false ->
  seal_authorization_state_with_invitation c gcm_nonce o ws i pkce nonce e = Ok sealed ->
  open_authorization_state c sealed = Ok (mkAuthorizationState o ws i (pk_code_verifier pkce) nonce e) /\
  exists bytes, sealed = base64url bytes /\ (0 < Str.len sealed <= MAX_SEALED_AUTHORIZATION_STATE_BYTES)%nat.
Proof.
  intros Hn He Hv Hvc. unfold seal_authorization_state_with_invitation.
  destruct (validate_state_component o _ _) as [?|] eqn:E1; [|done]. apply validate_state_spec in E1 as (-> & L1 & C1).
  destruct (validate_state_component ws _ _) as [?|] eqn:E2; [|done]. apply validate_state_spec in E2 as (-> & L2 & C2).
  match goal with |- context [match ?m with Ok _ => _ | Err _ => _ end = _] => destruct m as [i'|] eqn:E3 end; [|done].
  assert (i' = i /\ (Str.len (default EmptyString i) <= 256)%nat /\ has_control (default EmptyString i) = false) as (-> & L3 & C3).
  { destruct i as [i|]; [|by injection E3 as <-; split_and!; [done|cbn; lia|]].
    destruct (validate_state_component i _ _) as [?|] eqn:E; [|done]. injection E3 as <-.
    by apply validate_state_spec in E as (-> & ? & ?). }
  destruct (validate_state_component nonce _ _) as [?|] eqn:E4; [|done]. apply validate_state_spec in E4 as (-> & L4 & C4).
  intros (bytes & -> & Hdec & Hlen & Hopen)%sealed_opened; [|done].
  set (state := mkAuthorizationState o ws i (pk_code_verifier pkce) nonce e) in *.
  assert (Hjson : (Str.len (to_json state) <= 2 * (256 + 256 + 256 + 256 + 256) + 256)%nat)
    by (pose proof (state_json_len state He C1 C2 C3 Hvc C4) as Hj; cbn [as_organization_id as_workspace_id as_invitation_id as_code_verifier as_nonce state] in Hj; lia).
  pose proof (base64url_len bytes) as Hb. unfold AES_GCM_NONCE_BYTES in *.
  assert (0 < Str.len (base64url bytes))%nat as Hpos
    by (destruct bytes as [|? [|? [|? ?]]]; [cbn in Hlen; lia|cbn; lia..]).
  assert (Str.len (base64url bytes) <= MAX_SEALED_AUTHORIZATION_STATE_BYTES)%nat as Hmax
    by (change MAX_SEALED_AUTHORIZATION_STATE_BYTES with (Z.to_nat (4 * 1024)); lia).
  split; [|by eexists]. unfold open_authorization_state.
  replace (Str.is_empty (base64url bytes)) with false by (destruct (base64url bytes); [cbn in Hpos; lia|done]).
  rewrite (proj2 (Nat.ltb_ge _ _) Hmax). cbn [orb]. rewrite Hdec.
  rewrite (proj2 (Nat.leb_gt _ _)) by (unfold AES_GCM_NONCE_BYTES; lia). rewrite Hopen. by rewrite (state_json_read state He).
Qed.

(** The relay state of a SAML login fits the protocol's limit and is recognized. *)
Lemma relay_seal_open c gcm_nonce marker sealed :
  Str.len gcm_nonce = AES_GCM_NONCE_BYTES -> Str.len marker = 16%nat ->
  seal_saml_relay_state c gcm_nonce marker = Ok sealed ->
  (Str.len sealed <= 80)%nat /\ open_saml_relay_state c sealed = Ok tt.
Proof.
  intros Hn Hm (bytes & -> & Hdec & Hlen & Hopen)%sealed_opened; [|done].
  pose proof (base64url_len bytes) as Hb. unfold AES_GCM_NONCE_BYTES in *.
  assert (Str.len (base64url bytes) <= 80)%nat as Hmax by lia. split; [done|]. unfold open_saml_relay_state.
  assert (0 < Str.len (base64url bytes))%nat as Hpos
    by (destruct bytes as [|? [|? [|? ?]]]; [cbn in Hlen; lia|cbn; lia..]).
  replace (Str.is_empty (base64url bytes)) with false by (destruct (base64url bytes); [cbn in Hpos; lia|done]).
  rewrite (proj2 (Nat.ltb_ge _ _) Hmax). cbn [orb]. rewrite Hdec.
  rewrite (proj2 (Nat.eqb_eq _ _)) by (unfold AES_GCM_NONCE_BYTES; lia). cbn [negb]. rewrite Hopen.
  by rewrite (proj2 (Nat.eqb_eq _ _)).
Qed.

(** The proof the portal issues for a session verifies for it, and a proof that
    verifies for a session is the HMAC of that session under the derived key. *)
Lemma csrf_verifies c session presented :
  verifies_browser_csrf_token hmac_sha256 c session presented = true <->
  Str.is_empty presented = false /\ (Str.len presented <= 128)%nat /\
  base64url_decode presented = Some (hmac_sha256 (ci_csrf_key c) (BROWSER_CSRF_AAD +:+ session)).
Proof.
  unfold verifies_browser_csrf_token. destruct (Str.is_empty presented); cbn [orb]; [by split; [|intros [? _]]|].
  destruct (Nat.ltb_spec 128 (Str.len presented)); [split; [done|intros (_ & ? & _); lia]|].
  destruct (base64url_decode presented) as [proof|]; [|by split; [|intros (_ & _ & ?)]].
  rewrite bool_decide_eq_true. split; [by intros ->|by intros (_ & _ & [= ->])].
Qed.

Lemma csrf_issued c session :
  (1 <= Str.len (hmac_sha256 (ci_csrf_key c) (BROWSER_CSRF_AAD +:+ session)) <= 32)%nat ->
  verifies_browser_csrf_token hmac_sha256 c session (browser_csrf_token hmac_sha256 c session) = true.
Proof.
  intros Hl. apply csrf_verifies. unfold browser_csrf_token.
  set (mac := hmac_sha256 _ _) in *. pose proof (base64url_len mac). split_and!; [|lia|apply decode_base64url].
  apply base64url_empty. intros He. rewrite He in Hl. cbn in Hl. lia.
Qed.

(** A proof issued for one session serves another only if the HMACs collide. *)
Lemma csrf_bound c session session' :
  verifies_browser_csrf_token hmac_sha256 c session' (browser_csrf_token hmac_sha256 c session) = true ->
  hmac_sha256 (ci_csrf_key c) (BROWSER_CSRF_AAD +:+ session) = hmac_sha256 (ci_csrf_key c) (BROWSER_CSRF_AAD +:+ session').
Proof.
  intros (_ & _ & Hd)%csrf_verifies. unfold browser_csrf_token in Hd. rewrite decode_base64url in Hd. by injection Hd.
Qed.
End seals.

Section login.
Context `{Sha256, UrlParser, JsonCodec TenantPolicyDocument, JsonCodec TenantModelPolicy,
          JsonCodec (list string), JsonCodec Value}.
Context `{Aead, Base64Url, Jwt, JsonCodec AuthorizationState, JsonCodec DiscoveryDocument, JsonCodec JwkSet,
          JsonCodec OidcTokenResponse}.
Variable hmac_sha256 : string -> string -> string.
Variable cfg : PortalConfig.

(** ** From an identity to a session *)

Lemma accept_identity now random i o ws iss sub f (db : Db) a (db' : Db) :
  accept_workspace_invitation_federated now random i o ws iss sub f db = (Ok (Some a), db') ->
  ei_principal_id <$> identities db' !! (iss, sub) = Some (va_principal_id a).
Proof.
  unfold accept_workspace_invitation_federated. rewrite atomically_ok. intros Ht. tx_inv Ht.
  repeat match goal with R : validate_external_identity_component _ _ _ = Ok _ |- _ =>
    apply validated_component in R; subst end.
  match goal with Hp : invited_principal _ _ _ _ _ _ = _ |- _ => apply invited_identity in Hp as [_ Hp]; exact Hp end.
Qed.

Lemma verified_identity_bound f o ws iss sub (db : Db) a :
  (verified_access f o ws iss sub db).1 = Ok (Some a) ->
  ei_principal_id <$> identities db !! (iss, sub) = Some (va_principal_id a).
Proof.
  unfold verified_access, reading. cbn [fst]. intros Ht. tx_inv Ht.
  repeat match goal with R : validate_external_identity_component _ _ _ = Ok _ |- _ =>
    apply validated_component in R; subst end.
  case_match; [|done]. destruct (identities db !! (iss, sub)) as [row|]; cbn in *; [|done].
  case_match; [|done]. destruct (effective_role _ _ _ _); cbn in *; by simplify_eq.
Qed.

(** A session that was issued authenticates at once. *)
Lemma issue_spec now random a f e (db : Db) issued (db' : Db) :
  issue_oidc_browser_session now random a f e db = (Ok issued, db') ->
  is_token issued = base64url random /\ identities db' = identities db /\
  exists role, (authenticate_oidc_browser_session now (is_token issued) db').1
    = Ok (Some (mkBrowserSession (mkAccess (va_organization_id a) (va_workspace_id a) (va_principal_id a) role) e)).
Proof.
  unfold issue_oidc_browser_session. destruct (validate_oidc_browser_session_expiry now e) eqn:He; [|done].
  unfold validate_oidc_browser_session_expiry, expiry_outside in He. destruct (_ || _) eqn:Hx in He; [done|]. boolp.
  destruct (oidc_browser_session_hash _) as [h|] eqn:Hh; [|done]. cbn zeta.
  destruct (_ && _) eqn:Hg; [|done]. apply andb_true_iff in Hg as [Hg Hr]. apply andb_true_iff in Hg as [Hs Hc].
  destruct (effective_role _ _ _ _) as [role|] eqn:Hrole in Hr; [|done].
  case_match; [done|]. intros [= <- <-]. split; [done|]. split; [done|]. exists role.
  unfold authenticate_oidc_browser_session, reading. cbn [fst is_token]. rewrite Hh.
  unfold session_access. cbn. rewrite lookup_insert_eq. cbn. rewrite (proj2 (Z.leb_le now e)) by lia. cbn.
  change (scope_active ?o ?x ?p ?D) with (scope_active o x p db) in *.
  change (connection_active f ?o ?D) with (connection_active f o db) in *.
  change (effective_role ?o ?x ?p ?D) with (effective_role o x p db) in *.
  rewrite Hs, Hc, Hrole. done.
Qed.

Lemma verify_spec now token jwks connection nonce verified :
  verify_id_token now token jwks connection nonce = Ok verified ->
  exists alg key claims, alg ∈ SUPPORTED_ID_TOKEN_ALGORITHMS /\ key ∈ jwks /\
    decode_claims now token key (mkValidation alg CLOCK_SKEW_SECONDS true (oc_issuer connection)
      (oc_client_id connection) ["exp"; "iss"; "aud"; "sub"]) = Some claims /\
    cl_nonce claims = nonce /\ vi_issuer verified = oc_issuer connection /\
    cl_iss claims = vi_issuer verified /\ cl_sub claims = vi_subject verified.
Proof.
  unfold verify_id_token. destruct (_ || _); [done|].
  destruct (reject_unsafe_jose_header token); [|done]. destruct (decode_header token) as [[alg [kid|]]|]; [|by cases|done].
  case_bool_decide as Ha; [|done]. destruct (Str.is_empty kid); [done|]. cbn [negb].
  destruct (select_verification_key jwks kid alg) as [key|] eqn:Hk; [|done]. destruct (from_jwk key); [|done]. cbn [negb].
  destruct (decode_claims _ _ _ _) as [claims|] eqn:Hc; [|done].
  destruct (validate_claims now claims connection nonce) eqn:Hv; [|done]. intros [= <-].
  assert (Hin : key ∈ jwks).
  { unfold select_verification_key in Hk.
    destruct (filter (fun key => jk_key_id key = Some kid) jwks) as [|key' [|]] eqn:Hf; [done| |done].
    assert (key ∈ filter (fun key => jk_key_id key = Some kid) jwks) as Hin
      by (rewrite Hf; repeat case_match; simplify_eq; left).
    by apply list_elem_of_filter in Hin as [_ ?]. }
  unfold validate_claims in Hv. destruct (_ || _) eqn:Hg in Hv; [done|]. boolp.
  exists alg, key, claims. cbn. split_and!; try done; congruence.
Qed.

(** What the provider answered: its metadata, found under the issuer of the connection, its keys, found where the
    metadata says, and the ID token it gave for this code and verifier. *)
Definition provider_gave (w : World) (k : nat) (connection : OrganizationOidcConnection) (code verifier : string)
    (jwks : JwkSet) (id_token : string) : Prop :=
  exists endpoints url metadata keys jwks_body reply token_body,
    discovery_url (oc_issuer connection) = Ok url /\ wo_http w k (HttpGet url) = Ok metadata /\
    fetch_validated_discovery (wo_http w k) connection = Ok endpoints /\
    wo_http w (S k) (HttpGet (ep_jwks_uri endpoints)) = Ok keys /\
    read_bounded_response keys MAX_JWKS_DOCUMENT_BYTES "OIDC JWKS response" = Ok jwks_body /\
    parse_jwks jwks_body = Ok jwks /\
    wo_http w (S (S k)) (HttpPostForm (ep_token_endpoint endpoints)
      [("grant_type", "authorization_code"); ("code", code); ("redirect_uri", oc_redirect_uri connection);
       ("client_id", oc_client_id connection); ("code_verifier", verifier)]) = Ok reply /\
    read_bounded_response reply MAX_TOKEN_RESPONSE_BYTES "OIDC token response" = Ok token_body /\
    parse_token_response token_body = Ok (mkTokenResponse id_token).

Lemma fetched w k connection code verifier endpoints jwks answer :
  fetch_validated_discovery (wo_http w k) connection = Ok endpoints ->
  fetch_jwks (wo_http w (S k)) endpoints = Ok jwks ->
  exchange_authorization_code (wo_http w (S (S k))) endpoints connection code verifier = Ok answer ->
  provider_gave w k connection code verifier jwks (tr_id_token answer).
Proof.
  intros Hd Hj Hx. pose proof Hd as Hd'. unfold fetch_validated_discovery in Hd'. unfold fetch_jwks in Hj.
  unfold exchange_authorization_code in Hx. repeat (case_match; [|done]). simplify_eq.
  do 7 eexists. split_and!; try done. by destruct answer.
Qed.

(** ** The callback *)

Section callback.
Variable w : World.
Variable db : Db.

(** What others commit before the steps [k], [k + 1] and so on, on top of [D]. *)
Fixpoint drift (k n : nat) (D : Db) : Db :=
  match n with O => D | S n => drift (S k) n (run hmac_sha256 (wo_others w k) D) end.

(** The store's answer to a verified identity. *)
Definition admits (now : Z) (random : string) (state : AuthorizationState) (iss sub : string) (D : Db)
    (a : VerifiedWorkspaceAccess) (D' : Db) : Prop :=
  match as_invitation_id state with
  | Some i => accept_workspace_invitation_oidc now random i (as_organization_id state) (as_workspace_id state) iss sub D
              = (Ok (Some a), D')
  | None => (verified_identity_workspace_access (as_organization_id state) (as_workspace_id state) iss sub D).1
            = Ok (Some a) /\ D' = D
  end.

Lemma admits_bound now random state iss sub D a D' :
  admits now random state iss sub D a D' ->
  ei_principal_id <$> identities D' !! (iss, sub) = Some (va_principal_id a).
Proof.
  unfold admits. destruct (as_invitation_id state).
  - apply accept_identity.
  - intros [Ha ->]. by eapply verified_identity_bound.
Qed.

Lemma access_spec state verified k D :
  exists r D', access_result hmac_sha256 state verified w (k, D) = (Ok r, (S k, D')) /\
    forall a, r = Ok (Some a) ->
      admits (wo_now w k) (wo_random w k 0) state (vi_issuer verified) (vi_subject verified) (drift k 1 D) a D'.
Proof.
  unfold access_result, admits, store, step. destruct (as_invitation_id state); cbn [fst snd drift];
    do 2 eexists; (split; [reflexivity|]); intros a Ha; [rewrite <- Ha; apply surjective_pairing|done].
Qed.

Lemma finish_spec state verified k D response n D' cookie :
  final (finish_login hmac_sha256 state verified w (k, D)) = (response, (n, D')) -> rs_set_cookie response = Some cookie ->
  exists a D1 issued e,
    admits (wo_now w k) (wo_random w k 0) state (vi_issuer verified) (vi_subject verified) (drift k 1 D) a D1 /\
    va_organization_id a = as_organization_id state /\ va_workspace_id a = as_workspace_id state /\
    issue_oidc_browser_session (wo_now w (2 + k)) (wo_random w (2 + k) 0) a Oidc e (drift (S k) 2 D1) = (Ok issued, D') /\
    session_cookie (is_token issued) BROWSER_SESSION_TTL_SECONDS = Ok cookie.
Proof.
  unfold finish_login, bind. destruct (access_spec state verified k D) as (r & D1 & -> & Ha).
  destruct r as [[a|]|]; [|by intros [= <- <- <-]..]. case_match eqn:Hscope; [by intros [= <- <- <-]|].
  apply orb_false_iff in Hscope as [Ho Hw]. apply negb_false_iff, bool_decide_eq_true in Ho, Hw.
  unfold browser_session_expiry, bind, clock, store, step. cbn [fst snd].
  destruct (now_unix _) as [e|]; [|by intros [= <- <- <-]]. cbn [fst snd ret].
  destruct (issue_oidc_browser_session _ _ _ _ _ _) as [[issued|] D2] eqn:Hi; cbn [fst snd]; [|by intros [= <- <- <-]].
  destruct (session_cookie _ _) as [text|] eqn:Hc; [|by intros [= <- <- <-]]. intros [= <- <- <-] [= <-].
  exists a, D1, issued. eexists. split_and!; [by apply Ha|done..|exact Hi|done].
Qed.

Lemma verified_spec state connection code k D :
  (exists r j D', verified_identity hmac_sha256 state connection code w (k, D) = (Err r, (j, D')) /\ rs_set_cookie r = None) \/
  (exists verified token jwks, verified_identity hmac_sha256 state connection code w (k, D) = (Ok verified, ((4 + k)%nat, drift k 4 D)) /\
     verify_id_token (wo_now w (3 + k)) token jwks connection (as_nonce state) = Ok verified /\
     provider_gave w k connection code (as_code_verifier state) jwks token).
Proof.
  unfold verified_identity, bind, provider, clock, step, reply, ret. cbn [fst snd drift].
  destruct (fetch_validated_discovery _ connection) as [endpoints|] eqn:Hd; [|left; eauto]. cbn [fst snd].
  destruct (fetch_jwks _ endpoints) as [jwks|] eqn:Hj; [|left; eauto]. cbn [fst snd].
  destruct (exchange_authorization_code _ _ _ _ _) as [answer|] eqn:Hx; [|left; eauto 10]. cbn [fst snd].
  destruct (verify_id_token _ _ _ _ _) as [verified|] eqn:Hv; [|left; eauto 10].
  right. exists verified, (tr_id_token answer), jwks. split_and!; [done..|]. by eapply fetched.
Qed.

Lemma callback_spec sv code err response n db' cookie :
  final (callback_with_client hmac_sha256 cfg sv code err w (0%nat, db)) = (response, (n, db')) ->
  rs_set_cookie response = Some cookie ->
  exists value c state D1 connection token jwks verified a D2 issued e,
    sv = Some value /\ pc_cipher cfg = Some c /\ open_authorization_state c value = Ok state /\
    consume_oidc_authorization_state (wo_now w 1) value (as_organization_id state) (drift 0 2 db) = (Ok true, D1) /\
    oidc_connections (drift 2 1 D1) !! as_organization_id state = Some connection /\ oc_active connection = true /\
    verify_id_token (wo_now w 6) token jwks connection (as_nonce state) = Ok verified /\
    (exists sent, code = Some sent /\ provider_gave w 3 connection sent (as_code_verifier state) jwks token) /\
    admits (wo_now w 7) (wo_random w 7 0) state (vi_issuer verified) (vi_subject verified) (drift 2 6 D1) a D2 /\
    va_organization_id a = as_organization_id state /\ va_workspace_id a = as_workspace_id state /\
    issue_oidc_browser_session (wo_now w 9) (wo_random w 9 0) a Oidc e (drift 8 2 D2) = (Ok issued, db') /\
    session_cookie (is_token issued) BROWSER_SESSION_TTL_SECONDS = Ok cookie.
Proof.
  unfold callback_with_client, require_store, require_cipher, bind at 1 2.
  destruct (pc_tenant_store cfg); [|by intros [= <- <- <-]]. cbn [ret].
  destruct (pc_cipher cfg) as [c|] eqn:Hc; [|by intros [= <- <- <-]]. cbn [ret].
  destruct sv as [value|]; [|by intros [= <- <- <-]].
  destruct (open_authorization_state c value) as [state|] eqn:Ho; [|by intros [= <- <- <-]].
  unfold bind at 1, clock, step. cbn [fst snd]. destruct (now_unix _) as [now|]; [|by intros [= <- <- <-]].
  destruct (_ <? now); [by intros [= <- <- <-]|].
  unfold bind at 1, store at 1, step. cbn [fst snd].
  destruct (consume_oidc_authorization_state _ _ _ _) as [[[|]|] D1] eqn:Hcon; cbn [fst snd]; [|by intros [= <- <- <-]..].
  destruct err as [?|]; [by intros [= <- <- <-]|]. destruct code as [code|]; [|by intros [= <- <- <-]].
  unfold bind at 1, store at 1, step. cbn [fst snd].
  change (organization_oidc_connection ?o ?D).2 with D.
  change (organization_oidc_connection ?o ?D).1 with (Ok (E := string) (oidc_connections D !! o)).
  destruct (oidc_connections _ !! _) as [connection|] eqn:Hconn; [|by intros [= <- <- <-]].
  destruct (oc_active connection && _) eqn:Hact; [|by intros [= <- <- <-]]. apply andb_true_iff in Hact as [Hact _].
  unfold bind at 1. match goal with |- context [verified_identity _ _ _ _ w (3%nat, ?D)] =>
    destruct (verified_spec state connection code 3 D) as
      [(r & j & D' & -> & Hr)|(verified & token & jwks & -> & Hv & Hgave)] end; [intros [= <- <- <-]; by rewrite Hr|].
  intros Hfin Hck. apply finish_spec with (cookie := cookie) in Hfin as (a & D2 & issued & e & Ha & Hao & Haw & Hi & Hck'); [|done].
  exists value, c, state, D1, connection, token, jwks, verified, a, D2, issued, e. split_and!; eauto.
Qed.
End callback.
(** ** The whole login *)

Lemma drift_keeps (P : Db -> Prop) (ok : Request -> bool) (w : World) :
  (forall r db, ok r = false -> P db -> P (exec hmac_sha256 r db)) ->
  (forall k, Forall (fun r => ok r = false) (wo_others w k)) ->
  forall n k D, P D -> P (drift w k n D).
Proof. intros Hs Ho n. induction n as [|n IH]; intros k D Hp; [done|]. apply IH. by apply (run_keeps hmac_sha256 P ok). Qed.

Lemma drift_identity (w : World) n k (D : Db) key i :
  identities D !! key = Some i -> identities (drift w k n D) !! key = Some i.
Proof.
  intros Hi. apply (drift_keeps (fun db => identities db !! key = Some i) (fun _ => false)); [|by intros; apply Forall_true|done].
  intros. by apply exec_identity.
Qed.

(** The steps after the state was consumed leave it consumed. *)
Lemma login_spends h (w : World) state iss sub D1 a D2 e issued (db' : Db) :
  (forall k, Forall (fun r => reserves_oidc h r = false) (wo_others w k)) -> spent_oidc h D1 ->
  admits (wo_now w 7) (wo_random w 7 0) state iss sub (drift w 2 6 D1) a D2 ->
  issue_oidc_browser_session (wo_now w 9) (wo_random w 9 0) a Oidc e (drift w 8 2 D2) = (Ok issued, db') ->
  spent_oidc h db'.
Proof.
  intros Ho Hs Ha Hi. pose proof (exec_spent_oidc hmac_sha256 h) as Hexec.
  assert (spent_oidc h (drift w 2 6 D1)) as Hs6 by by eapply drift_keeps.
  assert (spent_oidc h D2) as Hs2.
  { unfold admits in Ha. destruct (as_invitation_id state) as [i|]; [|by destruct Ha as [_ ->]].
    specialize (Hexec (RAcceptInvitation (wo_now w 7) (wo_random w 7 0) i (as_organization_id state)
      (as_workspace_id state) iss sub Oidc) _ eq_refl Hs6). cbn [exec] in Hexec.
    change (accept_workspace_invitation_oidc ?x ?y ?z ?o ?ws ?u ?v ?D)
      with (accept_workspace_invitation_federated x y z o ws u v Oidc D) in Ha. by rewrite Ha in Hexec. }
  assert (spent_oidc h (drift w 8 2 D2)) as Hs8 by by eapply drift_keeps.
  specialize (Hexec (RIssueSession (wo_now w 9) (wo_random w 9 0) a Oidc e) _ eq_refl Hs8). cbn [exec] in Hexec.
  by rewrite Hi in Hexec.
Qed.

(** A callback with a spent state sets no cookie. *)
Lemma spent_callback h value code err (w : World) (db : Db) headers :
  oidc_authorization_state_hash value = Ok h -> spent_oidc h db ->
  (forall k, Forall (fun r => reserves_oidc h r = false) (wo_others w k)) ->
  rs_set_cookie (handle hmac_sha256 cfg (Callback (Some value) code err) headers w db).1 = None.
Proof.
  intros Hh Hs Ho. destruct (rs_set_cookie _) as [cookie|] eqn:Hck; [|done]. exfalso. unfold handle in Hck. cbn [route] in Hck.
  fold (final (callback_with_client hmac_sha256 cfg (Some value) code err w (0%nat, db))) in Hck.
  destruct (final _) as [response [n db']] eqn:Hf in Hck. cbn in Hck.
  eapply callback_spec in Hf as (value' & c & state & D1 & _ & _ & _ & _ & _ & _ & _ & _ & [= <-] & _ & _ & Hcon & _); [|done].
  apply consume_oidc_spec in Hcon as (h' & row & Eh & Hrow & _ & Hc & _).
  assert (h' = h) as -> by congruence.
  assert (spent_oidc h (drift w 0 2 db)) as Hs2
    by (eapply drift_keeps; [apply (exec_spent_oidc hmac_sha256 h)|done|done]).
  exact (Hs2 row Hrow Hc).
Qed.

(** C9. The callback sets a session cookie only for a verified identity. The state it was
    given opens under the firewall's own key, was reserved for its organization and not yet used;
    the ID token is the one the provider of that organization gave for the code of this request and the verifier sealed into
    the state, a key of the key set this provider publishes signed it, and it names this provider,
    this client and the nonce sealed into the state; the cookie's token authenticates at once, in the
    organization and workspace sealed into the state, as the principal this very identity is
    bound to; and no later callback with the same state sets a cookie again, until a new
    login reserves a state with its hash. All this whatever other requests commit between the
    steps. *)
Theorem login_sound (signed : Jwk -> Algorithm -> string -> IdTokenClaims -> Prop) `{!JwtLaws signed}
    sv code err headers (w : World) (db : Db) response n (db' : Db) cookie :
  handle hmac_sha256 cfg (Callback sv code err) headers w db = (response, (n, db')) ->
  rs_set_cookie response = Some cookie ->
  exists value c state h row connection sent jwks key alg id_token claims token session,
    sv = Some value /\ pc_cipher cfg = Some c /\ open_authorization_state c value = Ok state /\
    oidc_authorization_state_hash value = Ok h /\ oidc_states (at_step hmac_sha256 w db 2) !! h = Some row /\
    os_organization_id row = as_organization_id state /\ os_consumed_at_unix row = None /\
    (exists D, oidc_connections D !! as_organization_id state = Some connection /\ oc_active connection = true /\
       D = run hmac_sha256 (RConsumeOidcState (wo_now w 1) value (as_organization_id state) :: wo_others w 2)
             (at_step hmac_sha256 w db 2)) /\
    code = Some sent /\ provider_gave w 3 connection sent (as_code_verifier state) jwks id_token /\ key ∈ jwks /\
    signed key alg id_token claims /\ alg ∈ SUPPORTED_ID_TOKEN_ALGORITHMS /\ cl_iss claims = oc_issuer connection /\
    names_audience (oc_client_id connection) (cl_aud claims) = true /\ cl_nonce claims = as_nonce state /\
    session_cookie token BROWSER_SESSION_TTL_SECONDS = Ok cookie /\
    (authenticate_oidc_browser_session (wo_now w 9) token db').1 = Ok (Some session) /\
    va_organization_id (ob_access session) = as_organization_id state /\ workspace_of session = as_workspace_id state /\
    ei_principal_id <$> identities db' !! (cl_iss claims, cl_sub claims) = Some (principal_of session) /\
    ((forall k, Forall (fun r => reserves_oidc h r = false) (wo_others w k)) ->
     forall trace code' err' headers' w', Forall (fun r => reserves_oidc h r = false) trace ->
       (forall k, Forall (fun r => reserves_oidc h r = false) (wo_others w' k)) ->
       rs_set_cookie (handle hmac_sha256 cfg (Callback sv code' err') headers' w' (run hmac_sha256 trace db')).1 = None).
Proof.
  unfold handle at 1. cbn [route]. fold (final (callback_with_client hmac_sha256 cfg sv code err w (0%nat, db))).
  intros Hf Hck. eapply callback_spec in Hf as
    (value & c & state & D1 & connection & token & jwks & verified & a & D2 & issued & e & -> & Hc & Ho & Hcon & Hconn &
     Hact & Hv & (sent & -> & Hgave) & Ha & Hao & Haw & Hi & Hcookie); [|done].
  pose proof Hcon as (h & row & Eh & Hrow & Hro & Hrc & _ & Hspent)%consume_oidc_spec.
  apply verify_spec in Hv as (alg & key & claims & Halg & Hkey & Hdec & Hnonce & Hiss & Hci & Hcs).
  apply decode_claims_ok in Hdec as (Hsig & _ & Haud & _). cbn in Hsig, Haud.
  pose proof (admits_bound _ _ _ _ _ _ _ _ Ha) as Hbound.
  pose proof Hi as (_ & Hid & role & Hauth)%issue_spec.
  exists value, c, state, h, row, connection, sent, jwks, key, alg, token, claims, (is_token issued). eexists.
  split_and!; try done.
  - exists (drift w 2 1 D1). split_and!; [done..|]. cbn [drift]. unfold run at 2. cbn [foldl exec].
    change (drift w 0 2 db) with (at_step hmac_sha256 w db 2) in Hcon. by rewrite Hcon.
  - congruence.
  - cbn. rewrite Hid, Hci, Hcs. destruct (identities D2 !! _) as [row'|] eqn:Hrow'; [|done].
    by rewrite (drift_identity w 2 8 D2 _ row').
  - intros Ho1 trace code' err' headers' w' Htr Ho2. eapply spent_callback; [done| |done].
    apply (run_keeps hmac_sha256 (spent_oidc h) (reserves_oidc h)); [apply exec_spent_oidc|done|].
    eapply login_spends; [exact Ho1|exact Hspent|exact Ha|exact Hi].
Qed.

(** ** What a login starts with *)

Lemma reserve_spec now value o e (db db' : Db) :
  reserve_oidc_authorization_state now value o e db = (Ok tt, db') ->
  exists h, oidc_authorization_state_hash value = Ok h /\ oidc_states db' !! h = Some (mkOidcState h o e None now).
Proof.
  unfold reserve_oidc_authorization_state. destruct (validate_oidc_authorization_state_expiry _ _); [|done].
  destruct (oidc_authorization_state_hash value) as [h|]; [|done]. cbn zeta.
  destruct (negb _); [done|]. destruct (has _ _); [done|].
  intros [= <-]. exists h. split; [done|]. apply lookup_insert_eq.
Qed.

(** A state that is reserved is consumed until it expires. *)
Lemma consume_reserved now value o e h created (db : Db) :
  oidc_authorization_state_hash value = Ok h -> oidc_states db !! h = Some (mkOidcState h o e None created) -> now <= e ->
  (consume_oidc_authorization_state now value o db).1 = Ok true.
Proof.
  intros Hh Hs He. unfold consume_oidc_authorization_state, atomically. rewrite Hh, Hs. cbn.
  rewrite !bool_decide_eq_true_2 by done. cbn. by rewrite (proj2 (Z.leb_le _ _) He).
Qed.

Lemma random_value_fits r n : Str.len r = n -> (n <= 192)%nat ->
  (Str.len (random_urlsafe_value r) <= 256)%nat /\ has_control (random_urlsafe_value r) = false.
Proof. intros <- Hn. pose proof (base64url_len r). split; [unfold random_urlsafe_value; lia|apply base64url_no_control]. Qed.

Lemma start_spec o ws i (w : World) k (db : Db) response n (db' : Db) endpoint pairs :
  final (start_login_for_workspace hmac_sha256 cfg o ws i w (k, db)) = (response, (n, db')) ->
  rs_location response = Some (ToProvider endpoint pairs) ->
  let pkce := pkce_generate (wo_random w (3 + k) 0) in let nonce := random_urlsafe_value (wo_random w (3 + k) 1) in
  let e := wo_now w (4 + k) + AUTHORIZATION_STATE_TTL_SECONDS in
  exists c connection value D,
    pc_cipher cfg = Some c /\ oidc_connections (drift w k 2 db) !! o = Some connection /\ oc_active connection = true /\
    0 <= wo_now w (4 + k) /\
    seal_authorization_state_with_invitation c (wo_random w (3 + k) 2) (oc_organization_id connection) ws i pkce nonce e = Ok value /\
    reserve_oidc_authorization_state (wo_now w (5 + k)) value (oc_organization_id connection) e D = (Ok tt, db') /\
    pairs = [("response_type", "code"); ("client_id", oc_client_id connection);
             ("redirect_uri", oc_redirect_uri connection); ("scope", "openid"); ("state", value); ("nonce", nonce);
             ("code_challenge", pk_code_challenge pkce); ("code_challenge_method", "S256")].
Proof.
  cbn zeta. unfold start_login_for_workspace, require_store, require_cipher, bind at 1 2.
  destruct (pc_tenant_store cfg); [|by intros [= <- <- <-]]. cbn [ret].
  destruct (pc_cipher cfg) as [c|]; [|by intros [= <- <- <-]]. cbn [ret].
  unfold bind at 1, store at 1, step. cbn [fst snd].
  change (active_workspace_in_organization ?o ?x ?D).2 with D.
  destruct (active_workspace_in_organization _ _ _).1 as [[|]|]; [|by intros [= <- <- <-]..].
  unfold bind at 1, store at 1, step. cbn [fst snd].
  change (organization_oidc_connection ?o ?D).2 with D.
  change (organization_oidc_connection ?o ?D).1 with (Ok (E := string) (oidc_connections D !! o)).
  destruct (oidc_connections _ !! o) as [connection|] eqn:Hconn; [|by intros [= <- <- <-]].
  destruct (negb (oc_active connection) || _) eqn:Hact; [by intros [= <- <- <-]|].
  apply orb_false_iff in Hact as [Hact%negb_false_iff _].
  unfold bind at 1, provider, step. cbn [fst snd].
  destruct (fetch_validated_discovery _ _) as [endpoints|]; [|by intros [= <- <- <-]].
  unfold bind at 1, random, step. cbn [fst snd]. unfold bind at 1, clock, step. cbn [fst snd].
  destruct (now_unix _) as [now|] eqn:Hnow; [|by intros [= <- <- <-]].
  unfold now_unix in Hnow. destruct (Z.ltb_spec (wo_now w (S (S (S (S k))))) 0); [done|].
  destruct (i64_max <? _); [done|]. injection Hnow as <-.
  destruct (seal_authorization_state_with_invitation _ _ _ _ _ _ _ _) as [value|] eqn:Hseal; [|by intros [= <- <- <-]].
  unfold bind at 1, store at 1, step. cbn [fst snd].
  destruct (reserve_oidc_authorization_state _ _ _ _ _) as [[[]|] D'] eqn:Hres; cbn [fst snd]; [|by intros [= <- <- <-]].
  unfold authorization_url. destruct (callback_path connection); [|by intros [= <- <- <-]].
  destruct (_ || _); [by intros [= <- <- <-]|]. intros [= <- <- <-] [= <- <-].
  do 4 eexists. split_and!; [done|done|done|done|exact Hseal|exact Hres|done].
Qed.

(** C28. What a login sends to the identity provider comes back as it was sent. The redirect
    carries a state that opens under the firewall's key to the organization of the
    connection, the workspace asked for, the nonce of the redirect, the verifier whose SHA-256 is the code challenge of
    the redirect, and an expiry ten minutes ahead; and that state is reserved, so that until it
    expires a callback consumes it. Encoding and encryption lose nothing and stay
    within the limits the callback checks. *)
Theorem login_round_trip `{!AeadLaws, !Base64UrlLaws, !StateJsonLaws} o ws headers (w : World) (db : Db) response n (db' : Db)
    endpoint pairs :
  Str.len (wo_random w 3 0) = 32%nat -> Str.len (wo_random w 3 1) = 32%nat -> Str.len (wo_random w 3 2) = 12%nat ->
  wo_now w 4 < 2 ^ 62 ->
  handle hmac_sha256 cfg (StartLogin o ws) headers w db = (response, (n, db')) ->
  rs_location response = Some (ToProvider endpoint pairs) ->
  exists c connection value nonce verifier e,
    pc_cipher cfg = Some c /\ oidc_connections (at_step hmac_sha256 w db 2) !! o = Some connection /\ oc_active connection = true /\
    pairs = [("response_type", "code"); ("client_id", oc_client_id connection);
             ("redirect_uri", oc_redirect_uri connection); ("scope", "openid"); ("state", value); ("nonce", nonce);
             ("code_challenge", base64url (sha256 verifier)); ("code_challenge_method", "S256")] /\
    open_authorization_state c value = Ok (mkAuthorizationState (oc_organization_id connection) ws None verifier nonce e) /\
    e = wo_now w 4 + AUTHORIZATION_STATE_TTL_SECONDS /\
    forall now, now <= e -> (consume_oidc_authorization_state now value (oc_organization_id connection) db').1 = Ok true.
Proof.
  intros R0 R1 R2 Hnow. unfold handle. cbn [route]. unfold start_login.
  fold (final (start_login_for_workspace hmac_sha256 cfg o ws None w (0%nat, db))).
  intros Hf Hloc. pose proof (start_spec _ _ _ _ _ _ _ _ _ _ _ Hf Hloc) as
    (c & connection & value & D & Hc & Hconn & Hact & Hpos & Hseal & Hres & Hpairs).
  cbn [Nat.add] in *. destruct (random_value_fits _ _ R0) as [V1 V2]; [lia|].
  apply seal_open in Hseal as [Hopen _]; [|done|unfold AUTHORIZATION_STATE_TTL_SECONDS; lia|done..].
  apply reserve_spec in Hres as (h & Hh & Hrow).
  exists c, connection, value. do 3 eexists. split_and!; [done|exact Hconn|done|exact Hpairs|exact Hopen|done|].
  intros now Hle. by eapply consume_reserved.
Qed.
End login.
