(* ===== verification/PortalScene.v ===== *)
(** The customer portal, evaluated: concrete stand-ins for the libraries of login (base64url
    decoding, encryption, JSON, [jsonwebtoken]) that satisfy the documented laws, and
    requests against the deployment of [TenantScene]. *)
From S2P Require Import Prelude BTree Net Json Spend TenantDb TenantDirectory TenantScim TenantSession.
From S2P Require Import TenantPolicy TenantUsage TenantAccess TenantScene Oidc PortalTypes Portal PortalProps LoginProps.
From Stdlib Require Import String Ascii.
Local Open Scope string_scope.
Local Open Scope Z_scope.

#[local] Abbreviation length := List.length.

(** ** Decoding *)

Fixpoint index_of (a : ascii) (s : string) : option Z :=
  match s with
  | EmptyString => None
  | String b s => if Ascii.eqb a b then Some 0 else Z.succ <$> index_of a s
  end.

(** The 24 bits of four characters. *)
Definition word (p q r t : ascii) : option Z :=
  match index_of p BASE64URL_TABLE, index_of q BASE64URL_TABLE, index_of r BASE64URL_TABLE, index_of t BASE64URL_TABLE with
  | Some p, Some q, Some r, Some t => Some (p * 2 ^ 18 + q * 2 ^ 12 + r * 2 ^ 6 + t)
  | _, _, _, _ => None
  end.
Definition byte_of (v : Z) : ascii := ascii_of_N (Z.to_N (v mod 256)).

Fixpoint scene_unbase64 (s : string) : option string :=
  match s with
  | String p (String q (String r (String t rest))) =>
      match word p q r t, scene_unbase64 rest with
      | Some v, Some rest => Some (String (byte_of (v / 2 ^ 16)) (String (byte_of (v / 2 ^ 8)) (String (byte_of v) rest)))
      | _, _ => None
      end
  | String p (String q (String r EmptyString)) =>
      (fun v => String (byte_of (v / 2 ^ 16)) (String (byte_of (v / 2 ^ 8)) EmptyString)) <$> word p q r "A"
  | String p (String q EmptyString) => (fun v => String (byte_of (v / 2 ^ 16)) EmptyString) <$> word p q "A" "A"
  | String _ EmptyString => None
  | EmptyString => Some EmptyString
  end.
Definition scene_base64 : Base64Url := scene_unbase64.

Lemma index_table (i : Z) : 0 <= i < 64 -> index_of (table_at i) BASE64URL_TABLE = Some i.
Proof.
  intros Hi. assert (Forall (fun n => index_of (table_at (Z.of_nat n)) BASE64URL_TABLE = Some (Z.of_nat n)) (seq 0 64)) as Ht
    by (repeat constructor).
  rewrite Forall_forall in Ht. specialize (Ht (Z.to_nat i)). rewrite Z2Nat.id in Ht by lia. apply Ht, elem_of_seq. lia.
Qed.

Lemma index_sextet v n : 0 <= n -> index_of (sextet v n) BASE64URL_TABLE = Some ((v / 2 ^ n) mod 64).
Proof.
  intros Hn. unfold sextet. rewrite (Z.land_ones _ 6) by lia. rewrite Z.shiftr_div_pow2 by done.
  apply index_table. apply Z.mod_pos_bound. lia.
Qed.

Lemma lor_shiftl (a b n : Z) : 0 <= n -> 0 <= b < 2 ^ n -> Z.lor (Z.shiftl a n) b = a * 2 ^ n + b.
Proof.
  intros Hn Hb. rewrite <- Z.shiftl_mul_pow2 by done.
  assert (Z.land (Z.shiftl a n) b = 0) as Hl.
  { apply Z.bits_inj'. intros k Hk. rewrite Z.land_spec, Z.bits_0. destruct (Z.lt_ge_cases k n).
    - by rewrite Z.shiftl_spec_low.
    - rewrite <- (Z.mod_small b (2 ^ n)) by done. rewrite Z.mod_pow2_bits_high by lia. apply andb_false_r. }
  rewrite Z.add_nocarry_lxor by done. symmetry. by apply Z.lxor_lor.
Qed.

Lemma byte_value_bound a : 0 <= byte_value a < 256.
Proof. unfold byte_value. pose proof (N_ascii_bounded a). lia. Qed.

Lemma byte_of_value a v : v mod 256 = byte_value a -> byte_of v = a.
Proof. intros Hv. unfold byte_of. rewrite Hv. unfold byte_value. rewrite N2Z.id. apply ascii_N_embedding. Qed.

Lemma word_sextets v : 0 <= v < 2 ^ 24 ->
  word (sextet v 18) (sextet v 12) (sextet v 6) (sextet v 0) = Some v.
Proof.
  intros Hv. unfold word. rewrite !index_sextet by done. f_equal. rewrite Z.pow_0_r, Z.div_1_r.
  Z.to_euclidean_division_equations. lia.
Qed.

Lemma sextet_blank v n : 0 <= n -> (v / 2 ^ n) mod 64 = 0 -> sextet v n = "A"%char.
Proof.
  intros Hn Hv. unfold sextet. rewrite (Z.land_ones _ 6), Z.shiftr_div_pow2 by lia. change (2 ^ 6) with 64. by rewrite Hv.
Qed.

Lemma scene_base64_laws : Base64UrlLaws (H := scene_base64).
Proof.
  intros s. induction s as [|a|a b|a b c s IH] using base64url_ind; [done|..]; unfold base64url_decode, scene_base64 in *;
    pose proof (byte_value_bound a); try pose proof (byte_value_bound b); try pose proof (byte_value_bound c);
    cbn [base64url]; cbn [scene_unbase64].
  - rewrite Z.shiftl_mul_pow2 by done. set (v := byte_value a * 2 ^ 16). assert (0 <= v < 2 ^ 24) as Hv by lia.
    pose proof (word_sextets v Hv) as Hw. rewrite (sextet_blank v 6), (sextet_blank v 0) in Hw
      by (unfold v in *; Z.to_euclidean_division_equations; lia). rewrite Hw.
    cbn. f_equal. f_equal. apply byte_of_value. unfold v in *. Z.to_euclidean_division_equations. lia.
  - rewrite lor_shiftl by (rewrite ?Z.shiftl_mul_pow2 by done; lia). rewrite Z.shiftl_mul_pow2 by done.
    set (v := byte_value a * 2 ^ 16 + byte_value b * 2 ^ 8). assert (0 <= v < 2 ^ 24) as Hv by lia.
    pose proof (word_sextets v Hv) as Hw. rewrite (sextet_blank v 0) in Hw
      by (unfold v in *; Z.to_euclidean_division_equations; lia). rewrite Hw.
    cbn. repeat f_equal; apply byte_of_value; unfold v in *; Z.to_euclidean_division_equations; lia.
  - rewrite <- Z.lor_assoc. rewrite (lor_shiftl (byte_value b)) by lia.
    rewrite lor_shiftl by lia. set (v := byte_value a * 2 ^ 16 + _). assert (0 <= v < 2 ^ 24) as Hv by lia.
    rewrite (word_sextets v Hv), IH.
    repeat f_equal; apply byte_of_value; unfold v in *; Z.to_euclidean_division_equations; lia.
Qed.

(** ** Encryption, with a fixed tag in front *)

Definition TAG : string := "0123456789abcdef".
Definition scene_aead : Aead :=
  {| aead_encrypt := fun _ _ _ message => Some (TAG +:+ message);
     aead_decrypt := fun _ _ _ sealed => if Str.starts_with TAG sealed then Some (Str.drop 16 sealed) else None |}.

Lemma scene_aead_laws : AeadLaws (H := scene_aead).
Proof.
  split; intros key nonce aad message sealed [= <-].
  - cbn [aead_decrypt scene_aead]. rewrite Str.starts_with_app. change 16%nat with (Str.len TAG). by rewrite Str.drop_app.
  - rewrite Str.len_app. cbn. lia.
Qed.

(** ** Sealed states as text: quoted strings, then the digits of the expiry *)

Definition escaped (c : ascii) : bool := Ascii.eqb c "\" || Ascii.eqb c "034".
Fixpoint quote (s : string) : string :=
  match s with
  | EmptyString => String "034" EmptyString
  | String c s => if escaped c then String "\" (String c (quote s)) else String c (quote s)
  end.
Fixpoint unquote (s : string) : option (string * string) :=
  match s with
  | EmptyString => None
  | String c s =>
      if Ascii.eqb c "034" then Some (EmptyString, s)
      else if Ascii.eqb c "\" then
        match s with
        | String c s => match unquote s with Some (t, rest) => Some (String c t, rest) | None => None end
        | EmptyString => None
        end
      else match unquote s with Some (t, rest) => Some (String c t, rest) | None => None end
  end.

Lemma unquote_quote s rest : unquote (quote s +:+ rest) = Some (s, rest).
Proof.
  induction s as [|c s IH]; [done|]. cbn [quote]. unfold escaped.
  destruct (Ascii.eqb_spec c "\") as [->|Hb]; cbn [orb]; [rewrite !Str.app_cons; cbn; by rewrite IH|].
  destruct (Ascii.eqb_spec c "034") as [->|Hq]; rewrite !Str.app_cons; [cbn; by rewrite IH|].
  cbn. rewrite (proj2 (Ascii.eqb_neq _ _) Hq), (proj2 (Ascii.eqb_neq _ _) Hb). by rewrite IH.
Qed.

Lemma quote_len s : (Str.len (quote s) <= 2 * Str.len s + 1)%nat.
Proof. induction s as [|c s IH]; [cbn; lia|]. cbn [quote]. destruct (escaped c); rewrite !Str.len_cons; lia. Qed.

Definition show_number (e : Z) : string :=
  match e with Z0 => "z" | Zpos p => String "p" (digits p) | Zneg p => String "n" (digits p) end.
Definition read_number (s : string) : option Z :=
  match s with
  | String "z" EmptyString => Some 0
  | String "p" s => Zpos <$> undigits s
  | String "n" s => Zneg <$> undigits s
  | _ => None
  end.

Lemma read_show_number e : read_number (show_number e) = Some e.
Proof. destruct e; cbn; by rewrite ?undigits_digits. Qed.

Lemma digits_len p (n : nat) : Zpos p < 2 ^ Z.of_nat n -> (Str.len (digits p) <= n)%nat.
Proof.
  revert n. induction p as [p IH|p IH|]; intros [|n] Hp; cbn [digits]; rewrite ?Str.len_cons; try (cbn in Hp |- *; lia);
    rewrite Nat2Z.inj_succ, Z.pow_succ_r in Hp by lia; specialize (IH n); lia.
Qed.

Lemma show_number_len e : - 2 ^ 63 <= e < 2 ^ 63 -> (Str.len (show_number e) <= 65)%nat.
Proof. intros He. destruct e as [|p|p]; [cbn; lia|..]; cbn [show_number]; rewrite Str.len_cons; pose proof (digits_len p 64); lia. Qed.

Definition show_state (s : AuthorizationState) : string :=
  quote (as_organization_id s) +:+ (quote (as_workspace_id s) +:+ (quote (as_code_verifier s) +:+ (quote (as_nonce s) +:+
    ((match as_invitation_id s with Some i => "+" +:+ quote i | None => "-" end) +:+ show_number (as_expires_at_unix s))))).

Definition read_state (s : string) : option AuthorizationState :=
  '(o, s) ← unquote s; '(w, s) ← unquote s; '(v, s) ← unquote s; '(n, s) ← unquote s;
  '(i, s) ← match s with
            | String "+" s => '(i, s) ← unquote s; Some (Some i, s)
            | String "-" s => Some (None, s)
            | _ => None
            end;
  e ← read_number s; Some (mkAuthorizationState o w i v n e).

Definition scene_state : JsonCodec AuthorizationState := {| to_json := show_state; from_json := read_state |}.

Lemma scene_state_laws : StateJsonLaws (H := scene_state).
Proof.
  split; intros [o ws i v n e] He; cbn [to_json from_json scene_state].
  - unfold read_state, show_state. cbn [as_organization_id as_workspace_id as_invitation_id as_code_verifier as_nonce
      as_expires_at_unix]. do 4 (rewrite unquote_quote; cbn [mbind option_bind]).
    destruct i as [i|]; rewrite ?Str.app_cons, ?Str.app_nil_l; cbn [mbind option_bind];
      [rewrite unquote_quote; cbn [mbind option_bind]|]; by rewrite read_show_number.
  - intros _ _ _ _ _. unfold show_state. rewrite !Str.len_app. cbn [as_organization_id as_workspace_id as_invitation_id
      as_code_verifier as_nonce as_expires_at_unix] in *.
    pose proof (quote_len o). pose proof (quote_len ws). pose proof (quote_len v). pose proof (quote_len n).
    pose proof (show_number_len e He). destruct i as [i|]; cbn [default] in *; rewrite ?Str.len_app.
    + pose proof (quote_len i). change (Str.len "+") with 1%nat. change (id i) with i. lia.
    + change (Str.len "-") with 1%nat. cbn. lia.
Qed.

(** ** The identity provider *)

Definition scene_discovery : JsonCodec DiscoveryDocument :=
  {| to_json := fun _ => "{}";
     from_json := fun _ => Some (mkDiscovery "https://idp.acme" "https://idp.acme/authorize" "https://idp.acme/token"
       "https://idp.acme/keys" ["code"] [] ["S256"]) |}.
Definition scene_key : Jwk := mkJwk (Some "k1") (Some UseSignature) None (Some (KeySigns RS256)) "modulus".
Definition scene_jwks : JsonCodec JwkSet := {| to_json := fun _ => "{}"; from_json := fun _ => Some [scene_key] |}.
Definition scene_token : JsonCodec OidcTokenResponse :=
  {| to_json := tr_id_token; from_json := fun body => Some (mkTokenResponse body) |}.

(** A token is two dots and the nonce; the key signs every such token for the user [dan]. *)
Definition token_nonce (token : string) : string := Str.drop 2 token.
Definition scene_jwt : Jwt :=
  {| decode_header := fun _ => Some (RS256, Some "k1");
     from_jwk := fun _ => true;
     decode_claims := fun now token key v =>
       if vn_leeway v <? 0 then None
       else Some (mkClaims (vn_issuer v) "dan" (JString (vn_audience v)) (now + 300) now (token_nonce token) None) |}.
Definition scene_signed (key : Jwk) (alg : Algorithm) (token : string) (claims : IdTokenClaims) : Prop :=
  cl_nonce claims = token_nonce token.

#[local] Existing Instances scene_sha scene_url scene_doc scene_model scene_types scene_value scene_base64 scene_aead
  scene_state scene_discovery scene_jwks scene_token scene_jwt.

Lemma scene_jwt_laws : JwtLaws scene_signed.
Proof.
  intros now token key v claims. cbn. destruct (Z.ltb_spec (vn_leeway v) 0); [done|]. intros [= <-]. cbn.
  split_and!; [done|done|by rewrite bool_decide_eq_true_2|lia].
Qed.
#[local] Existing Instances scene_jwt_laws scene_base64_laws scene_aead_laws scene_state_laws.

(** ** Requests *)

Definition cipher : OidcStateCipher := mkCipher "key" "csrf".
Definition portal : PortalConfig := mkPortalConfig true (Some cipher) (Some "webhook").

(** Random bytes of the lengths login asks for. *)
Definition random_bytes (step which : nat) : string :=
  Str.take (if (which =? 2)%nat then 12 else 32) (String (ascii_of_nat (65 + step)) (String (ascii_of_nat (65 + which))
    "abcdefghijklmnopqrstuvwxyz0123456789")).

(** Nobody else is there; the provider answers with a token for [nonce]. *)
Definition quiet (nonce : string) : World :=
  mkWorld (fun step => 300 + Z.of_nat step) random_bytes (fun _ => [])
    (fun _ request => Ok (mkHttpResponse 200 None
       [Ok match request with HttpGet _ => "{}" | HttpPostForm _ _ => ".." +:+ nonce end])).

Lemma quiet_at_step n (db : Db) k : at_step scene_hmac (quiet n) db k = db.
Proof. induction k as [|k IH]; [done|]. cbn [at_step]. by rewrite IH. Qed.

#[local] Abbreviation started := (handle scene_hmac portal (StartLogin org workspace) [] (quiet EmptyString) deployed).
Definition state_of (r : Response) : string :=
  match rs_location r with
  | Some (ToProvider _ pairs) => default EmptyString (snd <$> find (fun p => String.eqb p.1 "state") pairs)
  | _ => EmptyString
  end.
Definition login_state : string := Eval vm_compute in state_of started.1.
Definition nonce : string := random_urlsafe_value (random_bytes 3 1).
#[local] Abbreviation finished :=
  (handle scene_hmac portal (Callback (Some login_state) (Some "code") None) [] (quiet nonce) started.2.2).

Lemma login_round_trip_witness :
  exists c connection value nonce verifier e,
    pc_cipher portal = Some c /\ oidc_connections deployed !! org = Some connection /\ value = login_state /\
    open_authorization_state c value = Ok (mkAuthorizationState (oc_organization_id connection) workspace None verifier nonce e) /\
    (consume_oidc_authorization_state 400 value (oc_organization_id connection) started.2.2).1 = Ok true.
Proof.
  destruct started as [response [n db']] eqn:Hs. assert (Hl : state_of response = login_state /\ exists endpoint pairs,
    rs_location response = Some (ToProvider endpoint pairs)).
  { replace response with started.1 by by rewrite Hs. split; [vm_compute; reflexivity|do 2 eexists; vm_compute; reflexivity]. }
  destruct Hl as (Hv & endpoint & pairs & Hloc).
  destruct (login_round_trip scene_hmac portal org workspace [] (quiet EmptyString) deployed response n db' endpoint pairs)
    as (c & connection & value & nonce & verifier & e & Hc & Hconn & _ & Hp & Ho & He & Hcon); [vm_compute; reflexivity..|exact Hs|exact Hloc|].
  rewrite quiet_at_step in Hconn.
  exists c, connection, value, nonce, verifier, e. split_and!; [exact Hc|exact Hconn| |exact Ho|apply Hcon; subst e; by vm_compute].
  rewrite <- Hv. unfold state_of. rewrite Hloc, Hp. reflexivity.
Defined.

Lemma login_sound_witness :
  exists response n db' cookie, finished = (response, (n, db')) /\ rs_set_cookie response = Some cookie /\
  exists token session, session_cookie token BROWSER_SESSION_TTL_SECONDS = Ok cookie /\
    (authenticate_oidc_browser_session 309 token db').1 = Ok (Some session) /\ workspace_of session = workspace.
Proof.
  destruct finished as [response [n db']] eqn:Hf. assert (Hc : exists cookie, rs_set_cookie response = Some cookie).
  { replace response with finished.1 by by rewrite Hf. eexists. vm_compute. reflexivity. }
  destruct Hc as [cookie Hc]. exists response, n, db', cookie. split; [reflexivity|]. split; [exact Hc|].
  destruct (login_sound scene_hmac portal scene_signed (Some login_state) (Some "code") None [] (quiet nonce) started.2.2
    response n db' cookie Hf Hc) as (value & c & state & h & row & connection & sent & jwks & key & alg & id_token & claims & token & session &
    [= <-] & [= <-] & Ho & _ & _ & _ & _ & _ & _ & _ & _ & _ & _ & _ & _ & _ & Hk & Ha & _ & Hw & _).
  exists token, session. split_and!; [exact Hk|exact Ha|]. rewrite Hw.
  assert (open_authorization_state cipher login_state = Ok state) as Ho' by exact Ho. vm_compute in Ho'. injection Ho' as <-. reflexivity.
Defined.

(** A developer's browser creates a service account. *)
Definition creating : Endpoint := CreateServiceAccount "ci" 2000.
Definition browser : HeaderMap :=
  [("cookie", "theme=dark; __Host-llm-fw-session=" +:+ session);
   (CUSTOMER_CSRF_HEADER, browser_csrf_token scene_hmac cipher session)].
#[local] Abbreviation created := (handle scene_hmac portal creating browser (quiet EmptyString) deployed).

Lemma portal_acts_for_session_witness :
  of_workspace creating = true /\ rs_status created.1 = 200 /\
  exists token found i, session_cookie_token browser = Some token /\
    authenticated scene_hmac (quiet EmptyString) deployed token found i /\ proven scene_hmac portal browser token.
Proof.
  split; [reflexivity|]. assert (rs_status created.1 = 200) as Hs by (vm_compute; reflexivity). split; [exact Hs|].
  pose proof (portal_acts_for_session scene_hmac portal (quiet EmptyString) deployed creating browser eq_refl) as Hw.
  destruct created as [response [n db']]. destruct Hw as [[Hr _]|(token & found & i & Ht & _ & Ha & _ & Hp & _)].
  - cbn in Hs. lia.
  - exists token, found, i. split_and!; [exact Ht|exact Ha|exact Hp].
Defined.
