(* ===== verification/RedisLimits.v ===== *)
(** Rate and spend windows shared by all replicas through Redis
    ([crates/proxy/src/redis_limits.rs]). The five Lua scripts run atomically on the server;
    around them a command may time out before or after the server ran it. Server time is in
    milliseconds; amounts are taken below [2 ^ 53], where Lua's numbers are exact. *)
From S2P Require Import Prelude BTree Net Json Grant RateLimit Spend TenantDb TenantPolicy.
From Stdlib Require Import String Ascii.
From stdpp Require Import gmap strings.
Local Open Scope string_scope.
Local Open Scope Z_scope.
#[local] Abbreviation length := List.length.

(** ** The server *)

Inductive RedisValue := RCount (n : Z) | RHash (spent reserved : option Z).

(** A key with its time to live, as the moment it expires. *)
Record RedisEntry := mkEntry { re_value : RedisValue; re_expires : option Z }.

Abbreviation Redis := (gmap string RedisEntry).

Definition entry_live (t : Z) (e : RedisEntry) : bool :=
  match re_expires e with Some x => t <? x | None => true end.

(** An expired key does not exist. *)
Definition redis_get (t : Z) (key : string) (r : Redis) : option RedisEntry :=
  match r !! key with Some e => if entry_live t e then Some e else None | None => None end.

(** A script's answer, or an error of the server. *)
Definition Script : Type := Redis -> option Z * Redis.

Definition RATE_LIMIT_SCRIPT (t : Z) (key : string) (ttl limit : Z) : Script := fun r =>
  match redis_get t key r with
  | Some (mkEntry (RHash _ _) _) => (None, r)
  | found =>
      let old := match found with Some (mkEntry (RCount n) _) => n | _ => 0 end in
      let count := old + 1 in
      let expires := if count =? 1 then Some (t + 1000 * ttl) else found ≫= re_expires in
      (Some (if limit <? count then 0 else 1), <[key := mkEntry (RCount count) expires]> r)
  end.

(** [tonumber(redis.call('HGET', ..)) or 0] of the two fields. *)
Definition hash_fields (found : option RedisEntry) : option (Z * Z) :=
  match found with
  | Some (mkEntry (RHash s v) _) => Some (default 0 s, default 0 v)
  | Some (mkEntry (RCount _) _) => None
  | None => Some (0, 0)
  end.

Definition SPEND_RESERVE_SCRIPT (t : Z) (key : string) (requested maximum ttl : Z) : Script := fun r =>
  let found := redis_get t key r in
  match hash_fields found with
  | None => (None, r)
  | Some (spent, reserved) =>
      if maximum <? spent + reserved + requested then (Some 0, r)
      else
        let kept := match found with Some (mkEntry (RHash s _) _) => s | _ => None end in
        (Some 1, <[key := mkEntry (RHash kept (Some (reserved + requested))) (Some (t + 1000 * ttl))]> r)
  end.

(** The scripts that change a reservation: nothing for a key that is gone. *)
Definition on_hash (t : Z) (key : string) (f : Z -> Z -> Z * Z) : Script := fun r =>
  match redis_get t key r with
  | None => (Some 0, r)
  | Some e =>
      match hash_fields (Some e) with
      | None => (None, r)
      | Some (spent, reserved) =>
          let '(spent, reserved) := f spent reserved in
          (Some 1, <[key := mkEntry (RHash (Some spent) (Some reserved)) (re_expires e)]> r)
      end
  end.

Definition SPEND_RELEASE_SCRIPT (t : Z) (key : string) (release : Z) : Script :=
  on_hash t key (fun spent reserved => (spent, Z.max 0 (reserved - release))).
Definition SPEND_SETTLE_SCRIPT (t : Z) (key : string) (release charge : Z) : Script :=
  on_hash t key (fun spent reserved => (spent + charge, Z.max 0 (reserved - release))).
Definition SPEND_EXHAUST_SCRIPT (t : Z) (key : string) (release maximum : Z) : Script :=
  on_hash t key (fun spent reserved => (maximum, Z.max 0 (reserved - release))).

(** ** The client *)

Inductive RedisLimitError := Timeout | Backend.

(** What becomes of a command: the answer arrives, the command or only its answer is
    lost, or the connection refuses it. *)
Inductive Delivery := Answered | LostBefore | LostAfter | Refused.

Definition invoke (d : Delivery) (script : Script) (r : Redis) : result Z RedisLimitError * Redis :=
  match d with
  | Answered => (match (script r).1 with Some v => Ok v | None => Err Backend end, (script r).2)
  | LostBefore => (Err Timeout, r)
  | LostAfter => (Err Timeout, (script r).2)
  | Refused => (Err Backend, r)
  end.

Record RedisLimits := mkRedisLimits { rd_key_prefix : string }.

Definition redis_key_fragment (client : ClientId) : string := hex_lower client.

Section client.
Variable self : RedisLimits.

Definition window_start (now window_seconds : Z) : Z := now / window_seconds * window_seconds.
Definition retry_after (now window_seconds : Z) : Z := Z.max 1 (sat_sub window_seconds (now mod window_seconds)).

Definition rate_key (client : ClientId) (start : Z) : string :=
  rd_key_prefix self +:+ ":rate:" +:+ redis_key_fragment client +:+ ":" +:+ show_usize start.
Definition spend_key (client : ClientId) (start : Z) : string :=
  rd_key_prefix self +:+ ":spend:" +:+ redis_key_fragment client +:+ ":" +:+ show_usize start.

(** [now] is the replica's clock in seconds, [t] the server's. *)
Definition check_rate (client : ClientId) (requests_per_window window_seconds now t : Z) (d : Delivery) (r : Redis) :
    result RateDecision RedisLimitError * Redis :=
  let window_seconds := Z.max 1 window_seconds in
  let key := rate_key client (window_start now window_seconds) in
  match invoke d (RATE_LIMIT_SCRIPT t key (sat_add64 window_seconds 1) (Z.max 1 requests_per_window)) r with
  | (Ok allowed, r) => (Ok (if allowed =? 1 then Allowed else Rejected (retry_after now window_seconds)), r)
  | (Err e, r) => (Err e, r)
  end.

Inductive RedisSpendError := SpendExhausted (retry_after_secs : Z) | SpendBackend (error : RedisLimitError).

Definition reserve_spend (client : ClientId) (price : ModelPrice) (config : SpendLimit) (now t : Z) (d : Delivery)
    (r : Redis) : result Reservation RedisSpendError * Redis :=
  let window_seconds := Z.max 1 (sl_window_seconds config) in
  let key := spend_key client (window_start now window_seconds) in
  match invoke d (SPEND_RESERVE_SCRIPT t key (sl_reserve_usd_micros_per_request config) (sl_max_usd_micros config)
                    (sat_add64 window_seconds 1)) r with
  | (Ok reserved, r) =>
      if reserved =? 0 then (Err (SpendExhausted (retry_after now window_seconds)), r)
      else (Ok (mkReservation client price (sl_reserve_usd_micros_per_request config) (sl_max_usd_micros config)
                  (Some key)), r)
  | (Err e, r) => (Err (SpendBackend e), r)
  end.

(** [update_reservation], with the script as a function of its key. *)
Definition update_reservation (script : string -> Script) (reservation : Reservation) (d : Delivery) (r : Redis) :
    result unit RedisLimitError * Redis :=
  match rv_redis_key reservation with
  | None => (Ok tt, r)
  | Some key => match invoke d (script key) r with (Ok _, r) => (Ok tt, r) | (Err e, r) => (Err e, r) end
  end.

Definition release_spend (reservation : Reservation) (t : Z) (d : Delivery) : Redis -> result unit RedisLimitError * Redis :=
  update_reservation (fun key => SPEND_RELEASE_SCRIPT t key (rv_reserved_usd_micros reservation)) reservation d.

Definition settle_spend (reservation : Reservation) (input_tokens output_tokens t : Z) (d : Delivery) (r : Redis) :
    result Z RedisLimitError * Redis :=
  let charged := reservation_cost reservation input_tokens output_tokens in
  match update_reservation (fun key => SPEND_SETTLE_SCRIPT t key (rv_reserved_usd_micros reservation) charged)
          reservation d r with
  | (Ok _, r) => (Ok charged, r)
  | (Err e, r) => (Err e, r)
  end.

Definition exhaust_spend (reservation : Reservation) (t : Z) (d : Delivery) : Redis -> result unit RedisLimitError * Redis :=
  update_reservation (fun key => SPEND_EXHAUST_SCRIPT t key (rv_reserved_usd_micros reservation)
                                   (rv_max_usd_micros reservation)) reservation d.
End client.
