(* ===== verification/RedisProps.v ===== *)
(** What the windows in Redis guarantee to all replicas together, whatever commands and
    answers are lost: at most the limit of a client's requests is let through by Redis in each window, what it was charged
    and what is outstanding stay within its budget, and an exhausted budget stays so until its window ends.
    A window is named by the clock of the replica and kept by that of the server; the two may differ as
    long as the difference varies by no more than a second. *)
From S2P Require Import Prelude BTree Net Json Grant RateLimit Spend TenantDb TenantPolicy RedisLimits.
From Stdlib Require Import String Ascii.
From stdpp Require Import gmap strings pretty.
Local Open Scope string_scope.
Local Open Scope Z_scope.
#[local] Abbreviation length := List.length.

(** ** Keys *)

Definition not_colon (a : ascii) : bool := negb (Ascii.eqb a ":").

Lemma before_colon_inj (s s' u u' : string) :
  Str.forallb not_colon s = true -> Str.forallb not_colon s' = true ->
  s +:+ ":" +:+ u = s' +:+ ":" +:+ u' -> s = s' /\ u = u'.
Proof.
  change (":" +:+ u) with (String ":" (EmptyString +:+ u)). change (":" +:+ u') with (String ":" (EmptyString +:+ u')).
  rewrite !Str.app_nil_l. revert s'. induction s as [|a s IH]; intros [|b s'] Hs Hs'; rewrite ?Str.app_nil_l, ?Str.app_cons; cbn in Hs, Hs'.
  - by intros [= ->].
  - intros [= <- _]. done.
  - intros [= -> _]. done.
  - apply andb_true_iff in Hs as [_ Hs], Hs' as [_ Hs']. intros [= -> Heq].
    by destruct (IH s' Hs Hs' Heq) as [-> ->].
Qed.

Lemma hex_no_colon (s : string) : Str.forallb not_colon (hex_lower s) = true.
Proof.
  assert (forall n, not_colon (hex_digit n) = true) as Hd.
  { intros n. unfold hex_digit. generalize (Z.to_nat n) as i. intros i. do 17 (destruct i as [|i]; [done|]). done. }
  induction s as [|a s IH]; [done|]. cbn. by rewrite !Hd, IH.
Qed.

Lemma show_inj (a b : Z) : show_usize a = show_usize b -> a = b.
Proof. apply (inj (@pretty Z _)). Qed.

Section shared.
Variable self : RedisLimits.

Lemma rate_key_start c s c' s' : rate_key self c s = rate_key self c' s' -> s = s'.
Proof.
  intros Heq. apply Str.app_inv_head, Str.app_inv_head, before_colon_inj in Heq as [_ Heq]; [|apply hex_no_colon..].
  by apply show_inj.
Qed.

Lemma spend_key_start c s c' s' : spend_key self c s = spend_key self c' s' -> s = s'.
Proof.
  intros Heq. apply Str.app_inv_head, Str.app_inv_head, before_colon_inj in Heq as [_ Heq]; [|apply hex_no_colon..].
  by apply show_inj.
Qed.

Lemma rate_spend_keys c s c' s' : rate_key self c s <> spend_key self c' s'.
Proof. unfold rate_key, spend_key. by intros Heq%Str.app_inv_head. Qed.

(** A command that a replica built when its clock showed the second [now] runs when the server's clock
    shows [t] milliseconds: clocks that disagree and the command's way add up to at most a second of variation, which
    is what the extra second of a key's time to live is for. *)
Variables (ahead behind : Z).
Definition timely (now t : Z) : Prop := 1000 * now - ahead <= t < 1000 * (now + 1) + behind.

(** The key of a reservation made through Redis. *)
Definition keyed (r : Reservation) : Prop := exists c s, rv_redis_key r = Some (spend_key self c s).

(** ** Requests per window *)

(** A check by some replica, or anything that leaves the rate windows alone. *)
Inductive RateEvent :=
| Check (client : ClientId) (now t : Z) (d : Delivery)
| Elsewhere (f : Redis -> Redis).

Definition spares_rates (e : RateEvent) : Prop :=
  match e with
  | Check _ now t _ => timely now t
  | Elsewhere f => forall r c s, f r !! rate_key self c s = r !! rate_key self c s
  end.

Variables (requests_per_window window_seconds : Z).
#[local] Abbreviation w := (Z.max 1 window_seconds).
#[local] Abbreviation limit := (Z.max 1 requests_per_window).

(** Redis, and the requests it let through, with the clock of the replica that asked. *)
Definition rate_step (st : Redis * list (ClientId * Z)) (e : RateEvent) : Redis * list (ClientId * Z) :=
  match e with
  | Check client now t d =>
      match check_rate self client requests_per_window window_seconds now t d st.1 with
      | (Ok Allowed, r) => (r, st.2 ++ [(client, now)])
      | (_, r) => (r, st.2)
      end
  | Elsewhere f => (f st.1, st.2)
  end%list.

(** What passed in the window [k] of [w] seconds. *)
Definition passed (c : ClientId) (k : Z) (log : list (ClientId * Z)) : Z :=
  Z.of_nat (length (filter (fun p => p.1 = c /\ p.2 / w = k) log)).

Lemma passed_snoc c k log p :
  passed c k (log ++ [p])%list = passed c k log + (if decide (p.1 = c /\ p.2 / w = k) then 1 else 0).
Proof.
  unfold passed. rewrite filter_app, length_app, filter_cons, filter_nil. case_decide; cbn; lia.
Qed.

Definition rate_inv (c : ClientId) (k : Z) (st : Redis * list (ClientId * Z)) : Prop :=
  match st.1 !! rate_key self c (k * w) with
  | None => passed c k st.2 = 0
  | Some (mkEntry (RCount n) (Some x)) =>
      1 <= n /\ passed c k st.2 <= n /\ passed c k st.2 <= limit /\ 1000 * (k * w + w) + behind <= x
  | Some _ => False
  end.

(** The server's time of a command of the window [k]. *)
Lemma timely_window now t k width :
  0 < width -> now / width = k -> timely now t -> 1000 * (k * width) - ahead <= t < 1000 * (k * width + width) + behind.
Proof.
  unfold timely. intros Hw <- Ht. pose proof (Z.mul_div_le now width). pose proof (Z.mul_succ_div_gt now width). nia.
Qed.

Lemma check_rate_eq client now t d r :
  check_rate self client requests_per_window window_seconds now t d r =
  match invoke d (RATE_LIMIT_SCRIPT t (rate_key self client (now / w * w)) (sat_add64 w 1) limit) r with
  | (Ok allowed, r) => (Ok (if allowed =? 1 then Allowed else Rejected (retry_after now w)), r)
  | (Err e, r) => (Err e, r)
  end.
Proof. done. Qed.

Lemma script_other t key ttl lim r key' :
  key <> key' -> (RATE_LIMIT_SCRIPT t key ttl lim r).2 !! key' = r !! key'.
Proof.
  intros Hne. unfold RATE_LIMIT_SCRIPT. destruct (redis_get t key r) as [[[n|s v] x]|]; cbn; try done;
    by rewrite lookup_insert_ne.
Qed.

Lemma invoke_cases d script r :
  (invoke d script r).2 = r \/ (invoke d script r).2 = (script r).2.
Proof. destruct d; auto. Qed.

Lemma invoke_ok d script r v r' : invoke d script r = (Ok v, r') -> (script r) = (Some v, r').
Proof. destruct d; cbn; try done. destruct (script r) as [[?|] ?]; cbn; congruence. Qed.

(** One check against the entry of its window. *)
Lemma check_entry c k log client now t r r' v :
  w <= i64_max -> ahead + behind <= 1000 -> timely now t ->
  rate_inv c k (r, log) -> rate_key self client (now / w * w) = rate_key self c (k * w) ->
  RATE_LIMIT_SCRIPT t (rate_key self client (now / w * w)) (sat_add64 w 1) limit r = (v, r') ->
  rate_inv c k (r', log) /\ (v = Some 1 -> rate_inv c k (r', log ++ [(client, now)])%list).
Proof.
  intros Hw Hslack Htime Hinv Hkey Hs. pose proof (rate_key_start _ _ _ _ Hkey) as Hst. rewrite Hkey in Hs.
  assert (0 < w) by lia. assert (now / w = k) as Hk by nia. pose proof (timely_window now t k w ltac:(lia) Hk Htime) as Ht.
  assert (1 <= limit) as Hl by lia.
  assert (sat_add64 w 1 = w + 1) as Httl by (unfold sat_add64, u64_max, i64_max in *; lia). rewrite Httl in Hs.
  unfold rate_inv in *. cbn [fst snd] in *. rewrite passed_snoc.
  assert (forall b : Z, b + (if decide ((client, now).1 = c /\ (client, now).2 / w = k) then 1 else 0) <= b + 1) as Hb
    by (intros b; case_decide; lia).
  unfold RATE_LIMIT_SCRIPT, redis_get in Hs. destruct (r !! _) as [[[n|s u] [x|]]|]; try done.
  - destruct Hinv as (Hn & Hp & Hpl & Hx). unfold entry_live in Hs. cbn [re_expires] in Hs.
    rewrite (proj2 (Z.ltb_lt t x)) in Hs by lia. cbn in Hs. rewrite (proj2 (Z.eqb_neq (n + 1) 1)) in Hs by lia.
    injection Hs as <- <-. rewrite lookup_insert_eq. split; [lia|]. intros [= Hv].
    destruct (Z.ltb_spec limit (n + 1)); [done|]. specialize (Hb (passed c k log)). lia.
  - cbn in Hs. injection Hs as <- <-. rewrite lookup_insert_eq. specialize (Hb (passed c k log)). split; [lia|]. intros _. lia.
Qed.

Lemma rate_step_inv c k st e :
  w <= i64_max -> ahead + behind <= 1000 -> spares_rates e -> rate_inv c k st -> rate_inv c k (rate_step st e).
Proof.
  intros Hw Hslack He Hinv. destruct st as [r log]. destruct e as [client now t d|f]; cbn [rate_step fst snd].
  - rewrite check_rate_eq. set (key := rate_key self client _).
    destruct (decide (key = rate_key self c (k * w))) as [Hkey|Hkey].
    + destruct (RATE_LIMIT_SCRIPT t key (sat_add64 w 1) limit r) as [v r'] eqn:Hs.
      pose proof (check_entry c k log client now t r r' v Hw Hslack He Hinv Hkey Hs) as [H1 H2].
      destruct d; cbn; rewrite ?Hs; cbn; try done. destruct v as [v|]; cbn; [|done].
      destruct (Z.eqb_spec v 1) as [->|]; [by apply H2|done].
    + assert (forall r', r' !! rate_key self c (k * w) = r !! rate_key self c (k * w) -> rate_inv c k (r', log)) as Hsame
        by (intros r' Hr'; unfold rate_inv in *; cbn [fst snd] in *; by rewrite Hr').
      assert (forall r', r' !! rate_key self c (k * w) = r !! rate_key self c (k * w) ->
                rate_inv c k (r', log ++ [(client, now)])%list) as Hmore.
      { intros r' Hr'. unfold rate_inv in *. cbn [fst snd] in *. rewrite Hr', passed_snoc, decide_False; [by rewrite Z.add_0_r|].
        cbn. intros [-> <-]. by apply Hkey. }
      assert ((invoke d (RATE_LIMIT_SCRIPT t key (sat_add64 w 1) limit) r).2 !! rate_key self c (k * w)
              = r !! rate_key self c (k * w)) as Hr
        by (destruct (invoke_cases d (RATE_LIMIT_SCRIPT t key (sat_add64 w 1) limit) r) as [->| ->]; [done|by apply script_other]).
      destruct (invoke _ _ _) as [[v|] r']; cbn in Hr; [|by apply Hsame]. destruct (v =? 1); [by apply Hmore|by apply Hsame].
  - unfold rate_inv in *. cbn [fst snd] in *. by rewrite (He r c (k * w)).
Qed.

(** C25. Whichever replicas ask Redis, in whatever order, and whatever commands or answers are lost, Redis lets at
    most the configured number of a client's requests through in each window, provided the
    difference between the clock a replica names the window by and the server's clock when the command runs varies by at most a
    second; and the first request Redis answers for in a window passes. (A replica configured to fail
    open passes requests without Redis when it is out of reach; those are not counted.) *)
Theorem shared_rate_bound (events : list RateEvent) :
  w <= i64_max -> ahead + behind <= 1000 -> Forall spares_rates events ->
  (forall c k, passed c k (foldl rate_step (∅, []) events).2 <= limit) /\
  (forall c now t r, redis_get t (rate_key self c (now / w * w)) r = None ->
     (check_rate self c requests_per_window window_seconds now t Answered r).1 = Ok Allowed).
Proof.
  intros Hw Hslack Hev. split.
  - intros c k. assert (rate_inv c k (foldl rate_step (∅, []) events)) as Hinv.
    { assert (rate_inv c k (∅, [])) as H0 by (unfold rate_inv; cbn [fst snd]; by rewrite lookup_empty).
      revert H0. generalize (∅ : Redis, [] : list (ClientId * Z)) as st. induction Hev as [|e events He Hev IH]; intros st Hst; [done|].
      cbn. apply IH. by apply rate_step_inv. }
    unfold rate_inv in Hinv. assert (1 <= limit) by lia. repeat case_match; try done; lia.
  - intros c now t r Hr. rewrite check_rate_eq. cbn [invoke fst]. unfold RATE_LIMIT_SCRIPT. rewrite Hr. cbn zeta match.
    destruct (Z.ltb_spec limit (0 + 1)); [lia|done].
Qed.

(** The spend operations leave the rate windows alone. *)
Lemma spend_elsewhere (f : Redis -> Redis) :
  (forall r, exists c s v, f r = r \/ f r = <[spend_key self c s := v]> r) -> spares_rates (Elsewhere f).
Proof.
  intros Hf r c s. destruct (Hf r) as (c' & s' & v & [->| ->]); [done|].
  apply lookup_insert_ne. intros Heq. by apply (rate_spend_keys c s c' s').
Qed.

(** ** Money per window *)

Variable config : SpendLimit.
#[local] Abbreviation sw := (Z.max 1 (sl_window_seconds config)).
#[local] Abbreviation R := (sl_reserve_usd_micros_per_request config).
#[local] Abbreviation maximum := (sl_max_usd_micros config).

(** Some replica reserves, or finishes the [i]-th reservation that is outstanding. *)
Inductive SpendEvent :=
| SReserve (client : ClientId) (price : ModelPrice) (now t : Z) (d : Delivery)
| SRelease (i : nat) (t : Z) (d : Delivery)
| SSettle (i : nat) (input_tokens output_tokens t : Z) (d : Delivery)
| SExhaust (i : nat) (t : Z) (d : Delivery).

(** Redis, the reservations in the hands of a replica, what providers charged, by window, and the windows whose budget
    was exhausted: Redis ran the command, while the window was there. *)
Record Spending := mkSpending {
  sp_redis : Redis; sp_outstanding : list Reservation; sp_charged : list (string * Z); sp_frozen : list string }.

Definition runs (d : Delivery) : bool := match d with Answered | LostAfter => true | _ => false end.

Definition freezes (v : Reservation) (t : Z) (d : Delivery) (r : Redis) : list string :=
  match rv_redis_key v with
  | Some key => if runs d && bool_decide (is_Some (redis_get t key r)) then [key] else []
  | None => []
  end.

Definition spend_step (st : Spending) (e : SpendEvent) : Spending :=
  match e with
  | SReserve client price now t d =>
      match reserve_spend self client price config now t d (sp_redis st) with
      | (Ok reservation, r) => mkSpending r (sp_outstanding st ++ [reservation]) (sp_charged st) (sp_frozen st)
      | (Err _, r) => mkSpending r (sp_outstanding st) (sp_charged st) (sp_frozen st)
      end
  | SRelease i t d =>
      match sp_outstanding st !! i with
      | Some v => mkSpending (release_spend v t d (sp_redis st)).2 (delete i (sp_outstanding st)) (sp_charged st) (sp_frozen st)
      | None => st
      end
  | SSettle i input output t d =>
      match sp_outstanding st !! i with
      | Some v => mkSpending (settle_spend v input output t d (sp_redis st)).2 (delete i (sp_outstanding st))
                    (sp_charged st ++ [(default EmptyString (rv_redis_key v), reservation_cost v input output)]) (sp_frozen st)
      | None => st
      end
  | SExhaust i t d =>
      match sp_outstanding st !! i with
      | Some v => mkSpending (exhaust_spend v t d (sp_redis st)).2 (delete i (sp_outstanding st)) (sp_charged st)
                    (freezes v t d (sp_redis st) ++ sp_frozen st)
      | None => st
      end
  end%list.

(** The provider charges no more than was reserved, and commands that reserve are timely. *)
Definition within_reservation (st : Spending) (e : SpendEvent) : Prop :=
  match e with
  | SReserve _ _ now t _ => timely now t
  | SSettle i input output _ _ =>
      forall v, sp_outstanding st !! i = Some v -> 0 <= reservation_cost v input output <= rv_reserved_usd_micros v
  | _ => True
  end.

Fixpoint covered (st : Spending) (events : list SpendEvent) : Prop :=
  match events with [] => True | e :: events => within_reservation st e /\ covered (spend_step st e) events end.

Fixpoint outstanding_on (key : string) (l : list Reservation) : Z :=
  match l with
  | [] => 0
  | v :: l => (if decide (rv_redis_key v = Some key) then rv_reserved_usd_micros v else 0) + outstanding_on key l
  end.
Fixpoint charged_on (key : string) (l : list (string * Z)) : Z :=
  match l with [] => 0 | p :: l => (if decide (p.1 = key) then p.2 else 0) + charged_on key l end.

Lemma outstanding_snoc key l v :
  outstanding_on key (l ++ [v])%list = outstanding_on key l + (if decide (rv_redis_key v = Some key) then rv_reserved_usd_micros v else 0).
Proof. induction l as [|x l IH]; cbn in *; [lia|]. rewrite IH. lia. Qed.

Lemma charged_snoc key l p : charged_on key (l ++ [p])%list = charged_on key l + (if decide (p.1 = key) then p.2 else 0).
Proof. induction l as [|x l IH]; cbn in *; [lia|]. rewrite IH. lia. Qed.

Lemma outstanding_delete key l i v : l !! i = Some v ->
  outstanding_on key l = (if decide (rv_redis_key v = Some key) then rv_reserved_usd_micros v else 0) + outstanding_on key (delete i l).
Proof.
  revert i. induction l as [|x l IH]; intros [|i] Hi; [done..|by injection Hi as ->|].
  change (delete (S i) (x :: l)) with (x :: delete i l). cbn [outstanding_on]. rewrite (IH i Hi). lia.
Qed.

(** A reservation of this budget, on the key of a window. *)
Definition of_budget (v : Reservation) : Prop :=
  rv_reserved_usd_micros v = R /\ rv_max_usd_micros v = maximum /\
  exists c k, rv_redis_key v = Some (spend_key self c (k * sw)).

Lemma outstanding_on_nonneg key l : 0 <= R -> Forall of_budget l -> 0 <= outstanding_on key l.
Proof. intros HR Hl. induction Hl as [|v l (Hv & _) _ IH]; [done|]. cbn. case_decide; lia. Qed.

Definition entry_within (x spent reserved outstanding charged last : Z) : Prop :=
  last <= x /\ 0 <= reserved /\ outstanding <= reserved /\ charged + outstanding <= maximum /\
  (charged + outstanding <= spent + reserved <= maximum \/ maximum <= spent).

Definition key_inv (c : ClientId) (k : Z) (st : Spending) : Prop :=
  let key := spend_key self c (k * sw) in
  let o := outstanding_on key (sp_outstanding st) in let s := charged_on key (sp_charged st) in
  match sp_redis st !! key with
  | None => o = 0 /\ s = 0 /\ key ∉ sp_frozen st
  | Some (mkEntry (RHash spent (Some reserved)) (Some x)) =>
      entry_within x (default 0 spent) reserved o s (1000 * (k * sw + sw) + behind) /\
      (key ∈ sp_frozen st -> maximum <= default 0 spent)
  | Some _ => False
  end.

Lemma on_hash_lookup t key f r key' :
  (on_hash t key f r).2 !! key' = r !! key' \/
  key' = key /\ exists spent reserved x, r !! key = Some (mkEntry (RHash spent reserved) x) /\
    (on_hash t key f r).2 !! key' =
    Some (mkEntry (RHash (Some (f (default 0 spent) (default 0 reserved)).1) (Some (f (default 0 spent) (default 0 reserved)).2)) x).
Proof.
  unfold on_hash, redis_get. destruct (r !! key) as [e|] eqn:He; [|by left]. destruct (entry_live t e); [|by left].
  destruct e as [[n|spent reserved] x]; [by left|]. cbn. destruct (f _ _) as [a b] eqn:Hf.
  destruct (decide (key' = key)) as [->|Hne]; [|left; cbn; by rewrite lookup_insert_ne].
  right. split; [done|]. exists spent, reserved, x. cbn. by rewrite lookup_insert_eq, Hf.
Qed.

(** What a finished reservation does to the entries: nothing, or the script's change to its own. *)
Lemma update_lookup v t d f r key :
  (update_reservation (fun key => on_hash t key f) v d r).2 !! key = r !! key \/
  rv_redis_key v = Some key /\ exists spent reserved x, r !! key = Some (mkEntry (RHash spent reserved) x) /\
    (update_reservation (fun key => on_hash t key f) v d r).2 !! key =
    Some (mkEntry (RHash (Some (f (default 0 spent) (default 0 reserved)).1) (Some (f (default 0 spent) (default 0 reserved)).2)) x).
Proof.
  unfold update_reservation. destruct (rv_redis_key v) as [key'|]; [|by left].
  assert (match invoke d (on_hash t key' f) r with (Ok _, r) => (Ok tt, r) | (Err e, r) => (Err e, r) end.2
          = (invoke d (on_hash t key' f) r).2) as -> by by destruct (invoke _ _ _) as [[?|?] ?].
  destruct (invoke_cases d (on_hash t key' f) r) as [->| ->]; [by left|].
  destruct (on_hash_lookup t key' f r key) as [->|(-> & Hl)]; [by left|by right].
Qed.

(** Finishing a reservation with a charge no larger than it. *)
Lemma finish_inv c k st i v charge (f : Z -> Z -> Z * Z) t d charged frozen :
  0 <= R -> Forall of_budget (sp_outstanding st) -> key_inv c k st -> sp_outstanding st !! i = Some v ->
  0 <= charge <= R ->
  (forall spent reserved, (f spent reserved).2 = Z.max 0 (reserved - rv_reserved_usd_micros v) /\
     ((f spent reserved).1 = spent + charge \/ (f spent reserved).1 = maximum)) ->
  charged_on (spend_key self c (k * sw)) charged = charged_on (spend_key self c (k * sw)) (sp_charged st)
    + (if decide (rv_redis_key v = Some (spend_key self c (k * sw))) then charge else 0) ->
  (spend_key self c (k * sw) ∈ frozen -> spend_key self c (k * sw) ∈ sp_frozen st \/
     exists reserved x, (update_reservation (fun key => on_hash t key f) v d (sp_redis st)).2 !! spend_key self c (k * sw)
                        = Some (mkEntry (RHash (Some maximum) reserved) x)) ->
  key_inv c k (mkSpending (update_reservation (fun key => on_hash t key f) v d (sp_redis st)).2
                 (delete i (sp_outstanding st)) charged frozen).
Proof.
  intros HR Hall Hinv Hi Hc Hf Hch Hfz. unfold key_inv in *. cbn [sp_redis sp_outstanding sp_charged sp_frozen]. rewrite Hch.
  pose proof (Forall_lookup_1 _ _ _ _ Hall Hi) as (Hres & _ & _).
  set (key := spend_key self c (k * sw)) in *. rewrite (outstanding_delete key _ _ _ Hi) in Hinv.
  assert (0 <= outstanding_on key (delete i (sp_outstanding st))) as Hpos
    by (apply outstanding_on_nonneg; [done|by apply Forall_delete]).
  destruct (update_lookup v t d f (sp_redis st) key) as [Heq|(Hk & spent & reserved & x & Hr & Heq)]; rewrite Heq in Hfz |- *; clear Heq.
  - destruct (sp_redis st !! key) as [[[?|spent [reserved|]] [x|]]|]; try done.
    + destruct Hinv as [Hinv Hfr]. split; [unfold entry_within in *; case_decide; lia|].
      intros [?|(? & ? & [= -> _ _])]%Hfz; [auto|done].
    + destruct Hinv as (? & ? & ?). split_and!; [case_decide; lia..|]. by intros [?|(? & ? & ?)]%Hfz.
  - rewrite Hr in Hinv. destruct reserved as [reserved|]; [|done]. destruct x as [x|]; [|done]. destruct Hinv as [Hinv Hfr].
    destruct (Hf (default 0 spent) reserved) as [H2 H1]. repeat change (default 0 (Some ?z)) with z in *. rewrite H2.
    rewrite decide_True in Hinv |- * by done.
    split; [unfold entry_within in *; destruct H1 as [-> | ->]; lia|].
    intros [?%Hfr|(? & ? & [= -> _ _])]%Hfz; [destruct H1 as [-> | ->]; lia|done].
Qed.

(** A reservation was added to the entry. *)
Definition grown (t : Z) (key : string) (r r' : Redis) : Prop :=
  exists spent reserved, hash_fields (redis_get t key r) = Some (spent, reserved) /\ spent + reserved + R <= maximum /\
    r' !! key = Some (mkEntry (RHash (match redis_get t key r with Some (mkEntry (RHash s _) _) => s | _ => None end)
                                 (Some (reserved + R))) (Some (t + 1000 * sat_add64 sw 1))).

Lemma reserve_lookup t key d (r : Redis) key' :
  let r' := (invoke d (SPEND_RESERVE_SCRIPT t key R maximum (sat_add64 sw 1)) r).2 in
  r' !! key' = r !! key' \/ key' = key /\ grown t key r r'.
Proof.
  cbn zeta. destruct (invoke_cases d (SPEND_RESERVE_SCRIPT t key R maximum (sat_add64 sw 1)) r) as [->| ->]; [by left|].
  unfold SPEND_RESERVE_SCRIPT, grown. destruct (hash_fields _) as [[spent reserved]|]; [|by left].
  destruct (Z.ltb_spec maximum (spent + reserved + R)); [by left|]. cbn [snd].
  destruct (decide (key' = key)) as [->|]; [|left; by rewrite lookup_insert_ne].
  right. split; [done|]. exists spent, reserved. split_and!; [done|lia|]. by rewrite lookup_insert_eq.
Qed.

Lemma reserve_grown t key d (r r' : Redis) v :
  invoke d (SPEND_RESERVE_SCRIPT t key R maximum (sat_add64 sw 1)) r = (Ok v, r') -> (v =? 0) = false -> grown t key r r'.
Proof.
  intros Hi Hv. apply invoke_ok in Hi. unfold SPEND_RESERVE_SCRIPT, grown in *.
  destruct (hash_fields _) as [[spent reserved]|]; [|done]. destruct (Z.ltb_spec maximum (spent + reserved + R)).
  - by injection Hi as <- _.
  - injection Hi as _ <-. exists spent, reserved. split_and!; [done|lia|]. by rewrite lookup_insert_eq.
Qed.

Lemma grown_inv c k st client now t (r : Redis) l o :
  sw <= i64_max -> ahead + behind <= 1000 -> timely now t -> 0 <= maximum -> key_inv c k st ->
  spend_key self client (now / sw * sw) = spend_key self c (k * sw) ->
  grown t (spend_key self c (k * sw)) (sp_redis st) r ->
  outstanding_on (spend_key self c (k * sw)) l = outstanding_on (spend_key self c (k * sw)) (sp_outstanding st) + o ->
  0 <= o <= R -> key_inv c k (mkSpending r l (sp_charged st) (sp_frozen st)).
Proof.
  intros Hw Hslack Htime Hm Hinv Hst%spend_key_start (spent & reserved & Hh & Hle & Hr) Hl Ho.
  assert (now / sw = k) as Hk by nia. pose proof (timely_window now t k sw ltac:(lia) Hk Htime) as Ht.
  assert (sat_add64 sw 1 = sw + 1) as Httl by (unfold sat_add64, u64_max, i64_max in *; lia).
  unfold key_inv in *. cbn [sp_redis sp_outstanding sp_charged sp_frozen]. rewrite Hr, Httl, Hl. clear Hr. unfold redis_get in *.
  destruct (sp_redis st !! _) as [[[n|s [u|]] [x|]]|]; try done.
  - unfold entry_live in *. cbn [re_expires] in *. assert (t < x) as Hlx by (unfold entry_within in Hinv; lia).
    rewrite (proj2 (Z.ltb_lt _ _) Hlx) in *. cbn [hash_fields] in Hh. injection Hh as <- <-.
    repeat change (default 0 (Some ?z)) with z in *. destruct Hinv as [Hinv Hfr]. split; [|done]. unfold entry_within in *. lia.
  - injection Hh as <- <-. destruct Hinv as (? & ? & ?). split; [|done]. unfold entry_within. cbn. lia.
Qed.

(** Reserving: the entry of the window grows with the outstanding reservations. *)
Lemma shared_reserve_inv c k st client price now t d :
  sw <= i64_max -> ahead + behind <= 1000 -> timely now t -> 0 <= R -> 0 <= maximum -> key_inv c k st ->
  key_inv c k (spend_step st (SReserve client price now t d)).
Proof.
  intros Hw Hslack Htime HR Hm Hinv. cbn [spend_step]. unfold reserve_spend. cbn zeta. unfold window_start.
  set (key' := spend_key self client (now / sw * sw)). set (key := spend_key self c (k * sw)).
  pose proof (reserve_lookup t key' d (sp_redis st) key) as Hl. cbn zeta in Hl.
  assert (Hsame : forall r l, r !! key = sp_redis st !! key -> outstanding_on key l = outstanding_on key (sp_outstanding st) ->
            key_inv c k (mkSpending r l (sp_charged st) (sp_frozen st))).
  { intros r l Hr Ho. unfold key_inv in *. cbn [sp_redis sp_outstanding sp_charged sp_frozen]. fold key in Hinv |- *. by rewrite Hr, Ho. }
  assert (Hquiet : forall r, r !! key = sp_redis st !! key \/ key = key' /\ grown t key' (sp_redis st) r ->
            key_inv c k (mkSpending r (sp_outstanding st) (sp_charged st) (sp_frozen st))).
  { intros r [Hr|[Hk Hg]]; [by apply Hsame|]. rewrite <- Hk in Hg. eapply (grown_inv c k st client now t r _ 0); eauto; lia. }
  destruct (invoke d _ (sp_redis st)) as [[v|e] r] eqn:Hi; [|by apply Hquiet].
  destruct (v =? 0) eqn:Hv; [by apply Hquiet|]. apply reserve_grown in Hi; [|done].
  destruct (decide (key = key')) as [Hk|Hk].
  - rewrite <- Hk in Hi. eapply (grown_inv c k st client now t r _ R); [done..| |lia].
    rewrite outstanding_snoc. cbn [rv_redis_key rv_reserved_usd_micros]. fold key. rewrite decide_True; [done|by rewrite Hk].
  - apply Hsame; [by destruct Hl as [Hl|[? _]]|]. rewrite outstanding_snoc. cbn [rv_redis_key]. rewrite decide_False; [lia|congruence].
Qed.

Lemma spend_step_budget st e : Forall of_budget (sp_outstanding st) -> Forall of_budget (sp_outstanding (spend_step st e)).
Proof.
  intros Hall. destruct e as [client price now t d|i t d|i a b t d|i t d]; cbn [spend_step];
    try (destruct (sp_outstanding st !! i); [by apply Forall_delete|done]).
  unfold reserve_spend. cbn zeta. destruct (invoke _ _ _) as [[v|] r]; [|done]. destruct (v =? 0); [done|].
  apply Forall_app. split; [done|]. apply Forall_singleton. split_and!; [done..|]. by exists client, (now / sw).
Qed.

(** An exhausted budget: the entry is full. *)
Lemma exhausted_full v t d (r : Redis) key x spent reserved :
  rv_max_usd_micros v = maximum -> r !! key = Some (mkEntry (RHash spent reserved) x) -> key ∈ freezes v t d r ->
  exists u x', (exhaust_spend v t d r).2 !! key = Some (mkEntry (RHash (Some maximum) u) x').
Proof.
  intros Hmax Hr. unfold freezes, exhaust_spend, update_reservation. destruct (rv_redis_key v) as [key'|]; [|by intros ?%elem_of_nil].
  destruct (runs d) eqn:Hd; [|by intros ?%elem_of_nil]. cbn [andb]. case_bool_decide as Hlive; [|by intros ?%elem_of_nil].
  intros ->%list_elem_of_singleton.
  assert ((SPEND_EXHAUST_SCRIPT t key' (rv_reserved_usd_micros v) (rv_max_usd_micros v) r).2 !! key'
          = Some (mkEntry (RHash (Some maximum) (Some (Z.max 0 (default 0 reserved - rv_reserved_usd_micros v)))) x)) as Hs.
  { unfold SPEND_EXHAUST_SCRIPT, on_hash, redis_get in *. rewrite Hr in Hlive |- *.
    destruct (entry_live t _); [|by destruct Hlive]. cbn. rewrite lookup_insert_eq. by rewrite Hmax. }
  do 2 eexists. destruct d; try done; cbn; first [exact Hs|destruct (SPEND_EXHAUST_SCRIPT _ _ _ _ _).1; exact Hs].
Qed.

Lemma shared_step_inv c k st e :
  sw <= i64_max -> ahead + behind <= 1000 -> 0 <= R -> 0 <= maximum -> Forall of_budget (sp_outstanding st) -> within_reservation st e ->
  key_inv c k st -> key_inv c k (spend_step st e).
Proof.
  intros Hw Hslack HR Hm Hall He Hinv. destruct e as [client price now t d|i t d|i a b t d|i t d]; [by apply shared_reserve_inv|..];
    cbn [spend_step]; destruct (sp_outstanding st !! i) as [v|] eqn:Hi; try done;
    pose proof (Forall_lookup_1 _ _ _ _ Hall Hi) as (Hres & Hmax & _).
  - apply (finish_inv c k st i v 0); try done; [intros; cbn; split; [done|left; lia]|case_decide; lia|by left].
  - assert (0 <= reservation_cost v a b <= R) as Hc by (rewrite <- Hres; by apply He).
    unfold settle_spend. rewrite (surjective_pairing (update_reservation _ _ _ _)).
    replace (_ : Redis) with (update_reservation (fun key => SPEND_SETTLE_SCRIPT t key (rv_reserved_usd_micros v)
      (reservation_cost v a b)) v d (sp_redis st)).2 by by destruct (update_reservation _ _ _ _) as [[?|?] ?].
    apply (finish_inv c k st i v (reservation_cost v a b)); try done; [intros; cbn; split; [done|by left]| |by left].
    rewrite charged_snoc. cbn [fst snd]. f_equal. destruct (rv_redis_key v) as [key|]; cbn.
    + by destruct (decide (key = _)) as [->|]; [rewrite decide_True|rewrite decide_False by congruence].
    + rewrite (decide_False (P := None = Some _)) by done. apply decide_False.
      intros Hk. apply (f_equal Str.len) in Hk. unfold spend_key in Hk. rewrite !Str.len_app in Hk. cbn in Hk. lia.
  - apply (finish_inv c k st i v 0); try done; [intros; cbn; split; [done|by right]|case_decide; lia|].
    intros [Hf|Hf]%elem_of_app; [right|by left]. unfold key_inv in Hinv.
    destruct (sp_redis st !! _) as [[[?|spent reserved] x]|] eqn:Hr; [done| |].
    + by eapply exhausted_full.
    + exfalso. revert Hf. unfold freezes. destruct (rv_redis_key v); [|by intros ?%elem_of_nil].
      destruct (runs d); [|by intros ?%elem_of_nil]. cbn [andb]. case_bool_decide as Hl; [|by intros ?%elem_of_nil].
      intros <-%list_elem_of_singleton. unfold redis_get in Hl. rewrite Hr in Hl. by destruct Hl.
Qed.

Definition fresh_spending : Spending := mkSpending ∅ [] [] [].

Lemma spending_inv events c k :
  sw <= i64_max -> ahead + behind <= 1000 -> 0 <= R -> 0 <= maximum -> covered fresh_spending events ->
  key_inv c k (foldl spend_step fresh_spending events).
Proof.
  intros Hw Hslack HR Hm Hcov.
  assert (Hinv : key_inv c k fresh_spending).
  { unfold key_inv, fresh_spending. cbn [sp_redis sp_frozen]. rewrite lookup_empty. split_and!; [done..|]. by intros ?%elem_of_nil. }
  assert (Hall : Forall of_budget (sp_outstanding fresh_spending)) by constructor.
  revert Hcov Hinv Hall. generalize fresh_spending as st. induction events as [|e events IH]; intros st Hcov Hinv Hall; [done|].
  destruct Hcov as [He Hcov]. cbn [foldl]. apply IH; [done|by apply shared_step_inv|by apply spend_step_budget].
Qed.

(** A full entry refuses. *)
Lemma frozen_refused c k st price now t d :
  0 < R -> timely now t -> now / sw = k -> key_inv c k st -> spend_key self c (k * sw) ∈ sp_frozen st ->
  exists e, (reserve_spend self c price config now t d (sp_redis st)).1 = Err e.
Proof.
  intros HR Htime Hk Hinv Hf. pose proof (timely_window now t k sw ltac:(lia) Hk Htime) as Ht. subst k. unfold key_inv in Hinv.
  assert (Hs : SPEND_RESERVE_SCRIPT t (spend_key self c (now / sw * sw)) R maximum (sat_add64 sw 1) (sp_redis st)
               = (Some 0, sp_redis st)).
  { unfold SPEND_RESERVE_SCRIPT, redis_get. destruct (sp_redis st !! _) as [[[?|spent [reserved|]] [x|]]|]; try done.
    - destruct Hinv as [Hin Hfull]. specialize (Hfull Hf). unfold entry_within in Hin. unfold entry_live. cbn [re_expires].
      rewrite (proj2 (Z.ltb_lt t x)) by lia. cbn [hash_fields]. change (default 0 (Some reserved)) with reserved.
      rewrite (proj2 (Z.ltb_lt maximum _)) by lia. done.
    - by destruct Hinv as (_ & _ & ?). }
  unfold reserve_spend. cbn zeta. unfold window_start. destruct d; cbn; rewrite ?Hs; cbn; eauto.
Qed.

(** C24. Money spent through Redis stays within the budget of its window, for all replicas
    together and whatever commands or answers are lost: what providers charged against a window and what is still reserved on it
    never exceed the configured maximum, as long as no request is charged more than it
    reserved; and once Redis ran the command that exhausts the budget of a window, no replica gets another
    reservation on that window. Provided the difference between the clock a replica names the window by
    and the server's clock when it reserves varies by at most a second. *)
Theorem shared_budget_respected (events : list SpendEvent) :
  sw <= i64_max -> ahead + behind <= 1000 -> 0 <= R -> 0 <= maximum -> covered fresh_spending events ->
  forall c k, let st := foldl spend_step fresh_spending events in
    charged_on (spend_key self c (k * sw)) (sp_charged st) + outstanding_on (spend_key self c (k * sw)) (sp_outstanding st)
    <= maximum /\
    (0 < R -> spend_key self c (k * sw) ∈ sp_frozen st ->
     forall price now t d, timely now t -> now / sw = k ->
       exists e, (reserve_spend self c price config now t d (sp_redis st)).1 = Err e).
Proof.
  intros Hw Hslack HR Hm Hcov c k. cbn zeta. pose proof (spending_inv events c k Hw Hslack HR Hm Hcov) as Hinv.
  split; [|intros HR' Hf price now t d Htime Hk; by eapply frozen_refused].
  unfold key_inv, entry_within in Hinv. repeat case_match; try done; lia.
Qed.
End shared.

(** ** Examples *)

Definition demo_redis : RedisLimits := mkRedisLimits "fw".

(** Two replicas, a limit of two per minute: the third request and the one whose answer is
    lost do not pass. *)
Definition demo_checks : list RateEvent :=
  [Check "c" 1 1000 Answered; Check "c" 2 2900 LostAfter; Elsewhere (fun r => r); Check "d" 2 2500 Answered;
   Check "c" 3 4500 Answered; Check "c" 59 60500 Answered; Check "c" 60 60600 Answered].

Lemma shared_rate_bound_witness :
  passed 60 "c" 0 (foldl (rate_step demo_redis 2 60) (∅, []) demo_checks).2 = 1 /\
  passed 60 "c" 0 (foldl (rate_step demo_redis 2 60) (∅, []) demo_checks).2 <= 2 /\
  (check_rate demo_redis "c" 2 60 3 3000 Answered ∅).1 = Ok Allowed.
Proof.
  destruct (shared_rate_bound demo_redis 0 1000 2 60 demo_checks) as [Hb Hf];
    [by vm_compute|by vm_compute|repeat constructor; by vm_compute|].
  split; [vm_compute; reflexivity|]. split; [apply (Hb "c" 0)|apply (Hf "c" 3 3000 ∅); reflexivity].
Defined.

(** The first reservation is settled, the answer to the second is lost, the third does not fit; another client
    exhausts its budget. *)
Definition demo_spending : list SpendEvent :=
  [SReserve "c" demo_price 1 1000 Answered; SReserve "c" demo_price 2 2000 LostAfter; SReserve "c" demo_price 3 3000 Answered;
   SSettle 0 1000000 1000000 4000 LostBefore; SReserve "d" demo_price 5 5500 Answered; SExhaust 0 6000 Answered].

Lemma shared_budget_respected_witness :
  let st := foldl (spend_step demo_redis demo_spend) fresh_spending demo_spending in
  charged_on (spend_key demo_redis "c" 0) (sp_charged st) = 18 /\ sp_outstanding st = [] /\
  charged_on (spend_key demo_redis "c" 0) (sp_charged st) + outstanding_on (spend_key demo_redis "c" 0) (sp_outstanding st)
  <= sl_max_usd_micros demo_spend /\
  exists e, (reserve_spend demo_redis "d" demo_price demo_spend 7 7500 Answered (sp_redis st)).1 = Err e.
Proof.
  cbn zeta. split; [vm_compute; reflexivity|]. split; [vm_compute; reflexivity|].
  assert (Hc : covered demo_redis 0 1000 demo_spend fresh_spending demo_spending).
  { cbn [covered demo_spending within_reservation]. unfold timely. split_and!; try done; try lia.
    intros v Hv. assert (Some v = Some (mkReservation "c" demo_price 40 100 (Some (spend_key demo_redis "c" 0)))) as [= ->]
      by (rewrite <- Hv; vm_compute; reflexivity). by vm_compute. }
  assert (Hw : Z.max 1 (sl_window_seconds demo_spend) <= i64_max) by by vm_compute.
  pose proof (shared_budget_respected demo_redis 0 1000 demo_spend demo_spending Hw ltac:(by vm_compute) ltac:(by vm_compute)
                ltac:(by vm_compute) Hc) as Hb.
  split; [exact (proj1 (Hb "c" 0))|]. apply (proj2 (Hb "d" 0)); [by vm_compute|vm_compute; left|by vm_compute|by vm_compute].
Defined.
