(* ===== verification/Gateway.v ===== *)
(** A model request through the whole proxy: the middleware that authenticates and meters it
    ([crates/proxy/src/auth.rs]), the three handlers from the tenant's model policy to the
    answer ([crates/proxy/src/handlers.rs]), the moderation gate ([moderation.rs]) and the
    audit queue of the tenant store.

    A request is not atomic: between two of its steps other requests change the shared
    state in any way ([ar_others]), commands to Redis may be lost, and the request itself may
    be dropped when its client disconnects. What it does to the outside is kept as a
    list of effects; one that may fail says what became of it. Locks are never poisoned: nothing
    panics while it holds one. *)
From S2P Require Import Prelude BTree Platform Net F32 Json CoreTypes Scoring CorePolicy Detectors Normalize.
From S2P Require Import Firewall Adapter Event Taint Action Egress AgentPolicy Engine Grant RateLimit Spend.
From S2P Require Import TenantDb TenantDirectory TenantPolicy TenantUsage PortalTypes RedisLimits.
From S2P Require Import ProxyEvents ProxyInput AgentScan Sse Capability ProxyStream.
From Stdlib Require Import String Ascii.
Local Open Scope string_scope.
Local Open Scope Z_scope.
#[local] Abbreviation length := List.length.

(** ** Moderation *)

Inductive ModerationAction := Flag | ModerationBlock.
#[export] Instance ModerationAction_eq_dec : EqDecision ModerationAction.
Proof. solve_decision. Defined.

Record OutputModeration := mkModeration {
  om_enabled : bool; om_action : ModerationAction; om_threshold : f32; om_categories : list string;
  om_refusal_message : string }.

Inductive GateVerdict := GateAllow | Harmful (categories : list string) (action : ModerationAction).

Definition verdict_from_scores (scores : list (string * f32)) (cfg : OutputModeration) : GateVerdict :=
  let hits := fst <$> List.filter (fun p : string * f32 =>
                f32_ge p.2 (om_threshold cfg) && negb (Str.eq_ignore_ascii_case p.1 "safe")
                && negb (Str.eq_ignore_ascii_case p.1 "ok")
                && (bool_decide (om_categories cfg = []) || existsb (fun c => bool_decide (c = p.1)) (om_categories cfg))) scores in
  if bool_decide (hits = []) then GateAllow else Harmful hits (om_action cfg).

(** [classifier]: the loaded model, which may fail on a text. *)
Definition moderation_check (cfg : OutputModeration) (classifier : option (string -> option (list (string * f32))))
    (text : string) : GateVerdict :=
  if negb (om_enabled cfg) then GateAllow
  else match classifier with
       | Some predict =>
           match predict text with Some scores => verdict_from_scores scores cfg | None => GateAllow end
       | None => GateAllow
       end.

(** ** Shared state *)

Record TenantAuditWrite := mkAuditWrite {
  aw_tenant_id : string; aw_path : string; aw_outcome : string; aw_status_code : Z; aw_latency_ms : Z }.

Record Gw := mkGw {
  gw_db : Db; gw_rate : Clients; gw_spend : Spenders; gw_redis : Redis; gw_agent : AgentFirewall;
  gw_queue : list TenantAuditWrite; gw_dropped_events : Z; gw_failed_events : Z; gw_usage_failed : Z }.

Definition set_db (x : Db) (g : Gw) : Gw :=
  mkGw x (gw_rate g) (gw_spend g) (gw_redis g) (gw_agent g) (gw_queue g) (gw_dropped_events g) (gw_failed_events g) (gw_usage_failed g).
Definition set_rate (x : Clients) (g : Gw) : Gw :=
  mkGw (gw_db g) x (gw_spend g) (gw_redis g) (gw_agent g) (gw_queue g) (gw_dropped_events g) (gw_failed_events g) (gw_usage_failed g).
Definition set_spend (x : Spenders) (g : Gw) : Gw :=
  mkGw (gw_db g) (gw_rate g) x (gw_redis g) (gw_agent g) (gw_queue g) (gw_dropped_events g) (gw_failed_events g) (gw_usage_failed g).
Definition set_redis (x : Redis) (g : Gw) : Gw :=
  mkGw (gw_db g) (gw_rate g) (gw_spend g) x (gw_agent g) (gw_queue g) (gw_dropped_events g) (gw_failed_events g) (gw_usage_failed g).
Definition set_agent (x : AgentFirewall) (g : Gw) : Gw :=
  mkGw (gw_db g) (gw_rate g) (gw_spend g) (gw_redis g) x (gw_queue g) (gw_dropped_events g) (gw_failed_events g) (gw_usage_failed g).
Definition set_queue (x : list TenantAuditWrite) (g : Gw) : Gw :=
  mkGw (gw_db g) (gw_rate g) (gw_spend g) (gw_redis g) (gw_agent g) x (gw_dropped_events g) (gw_failed_events g) (gw_usage_failed g).
Definition add_dropped (g : Gw) : Gw :=
  mkGw (gw_db g) (gw_rate g) (gw_spend g) (gw_redis g) (gw_agent g) (gw_queue g) (gw_dropped_events g + 1) (gw_failed_events g) (gw_usage_failed g).
Definition add_failed (g : Gw) : Gw :=
  mkGw (gw_db g) (gw_rate g) (gw_spend g) (gw_redis g) (gw_agent g) (gw_queue g) (gw_dropped_events g) (gw_failed_events g + 1) (gw_usage_failed g).
Definition add_usage_failed (g : Gw) : Gw :=
  mkGw (gw_db g) (gw_rate g) (gw_spend g) (gw_redis g) (gw_agent g) (gw_queue g) (gw_dropped_events g) (gw_failed_events g) (gw_usage_failed g + 1).

(** ** Configuration *)

Record GatewayConfig := mkGatewayConfig {
  gc_proxy : ProxyConfig; gc_firewall : Firewall; gc_proxy_auth_enabled : bool; gc_proxy_auth_token : option string;
  gc_tenant_store : bool; gc_audit_queue : option nat; gc_audit_max_rows : nat; gc_rate_limit : RateLimit;
  gc_spend_limit : SpendLimit; gc_redis : option RedisLimits; gc_redis_fail_mode : FailMode; gc_openai_base : string;
  gc_anthropic_base : string; gc_openai_api_key : option string; gc_moderation : OutputModeration;
  gc_max_upstream_body_bytes : Z }.

Definition max_upstream_body_bytes (c : GatewayConfig) : Z := Z.max (gc_max_upstream_body_bytes c) 1.

(** What authentication attaches to a request. *)
Record TenantAccess := mkTenantAccess {
  tx_tenant_id : string; tx_limits : TenantLimits; tx_model_policy : option TenantModelPolicy }.

(** ** Requests, answers, effects *)

Inductive UpstreamBody := UChat (r : ChatRequest) | UResponses (r : ResponsesRequest) | UAnthropic (r : AnthropicRequest).

(** What the extractor made of the body, or the status it refused it with. *)
Inductive RequestBody :=
| ChatCompletions (r : result ChatRequest Z)
| Responses (r : result ResponsesRequest Z)
| Messages (r : result AnthropicRequest Z).

Record ModelRequest := mkModelRequest { mr_path : string; mr_headers : HeaderMap; mr_body : RequestBody }.

Inductive GwBody :=
| GError (message kind : string)
| GAnthropicError (kind message : string)
| GUpstream (v : Value)
| GStream (content_type : string)
| GRejection.

Record GwResponse := mkGwResponse {
  gr_status : Z; gr_body : GwBody; gr_retry_after : option Z; gr_deferred : bool }.
Definition plain (status : Z) (body : GwBody) : GwResponse := mkGwResponse status body None false.

(** What became of an audit event: the queue took it or was full, or it was written at once or was not. *)
Inductive AuditFate := Queued | QueueFull | Appended | AppendFailed.

(** What a request does to the outside, in order. [Reserved] is a reservation the handler holds, whose end
    is [confirmed] when the ledger answered (a command to Redis may be lost, or its answer);
    [BlockFrame] the error frame of the wire, which repeats the reason on the Responses wire only. *)
Inductive Effect :=
| SentUpstream (url : string) (headers : list (string * string)) (body : UpstreamBody)
| Reserved (v : Reservation)
| Released (v : Reservation) (confirmed : bool)
| Settled (v : Reservation) (input_tokens output_tokens : Z) (confirmed : bool)
| Exhausted (v : Reservation) (confirmed : bool)
| Billed (e : NewUsageEvent)
| Audited (a : TenantAuditWrite) (fate : AuditFate)
| ToClient (bytes : string)
| BlockFrame (reason : string)
| TaskPanicked.

(** The upstream: no answer in time, no connection, or an answer with its content type (by default that of an
    event stream) and a body that arrives in pieces. *)
Inductive BodyItem := Piece (bytes : string) | ReadError | IdleTimeout.
Inductive UpstreamAnswer :=
| UpstreamTimeout
| UpstreamFailed (message : string)
| UpstreamAnswered (status : Z) (content_type : string) (items : list BodyItem).

(** Where a handler may be dropped: before a step, or while it waits for the result. *)
Inductive Drop := Stays | DropBefore | DropAfter.

Record Around := mkAround {
  ar_unix : nat -> Z; ar_instant : nat -> Z; ar_server : nat -> Z; ar_others : nat -> Gw -> Gw;
  ar_delivery : nat -> Delivery; ar_dropped : nat -> Drop; ar_client_gone : nat -> bool;
  ar_upstream : UpstreamAnswer; ar_request_id : string }.

Inductive Stop := ReplyWith (r : GwResponse) | Gone | Panicked.

(** The step, the shared state and the effects so far. *)
Record Run := mkRun { ru_step : nat; ru_gw : Gw; ru_effects : list Effect }.
Definition M (A : Type) : Type := Around -> Run -> result A Stop * Run.

Definition ret {A} (x : A) : M A := fun _ s => (Ok x, s).
Definition stop {A} (x : Stop) : M A := fun _ s => (Err x, s).
Definition reply {A} (r : GwResponse) : M A := stop (ReplyWith r).
Definition bind {A B} (m : M A) (k : A -> M B) : M B := fun w s =>
  match m w s with (Ok x, s) => k x w s | (Err e, s) => (Err e, s) end.

Declare Scope gateway_scope.
Notation "'do' x ':=' m 'in' k" := (bind m (fun x => k))
  (at level 10, x name, m at level 100, k at level 200) : gateway_scope.
Local Open Scope gateway_scope.

(** One step on the shared state, after what others did in the meantime. *)
Definition task_step {A} (f : nat -> Around -> Gw -> A * Gw) : M A := fun w s =>
  let done := f (ru_step s) w (ar_others w (ru_step s) (ru_gw s)) in
  (Ok done.1, mkRun (S (ru_step s)) done.2 (ru_effects s)).

(** A step of the handler, which is dropped with its connection. *)
Definition step {A} (f : nat -> Around -> Gw -> A * Gw) : M A := fun w s =>
  match ar_dropped w (ru_step s) with
  | Stays => task_step f w s
  | DropBefore => (Err Gone, s)
  | DropAfter => (Err Gone, (task_step f w s).2)
  end.

Definition emit (e : Effect) : M unit := fun _ s => (Ok tt, mkRun (ru_step s) (ru_gw s) (ru_effects s ++ [e])%list).
Definition around {A} (f : Around -> A) : M A := fun w s => (Ok (f w), s).
Definition instant : M Z := fun w s => (Ok (ar_instant w (ru_step s)), s).

Definition of_option {A} (o : option A) : M A := match o with Some x => ret x | None => stop Panicked end.

(** The handler's answer, for the middleware around it. *)
Definition caught (m : M GwResponse) : M GwResponse := fun w s =>
  match m w s with (Err (ReplyWith r), s) => (Ok r, s) | x => x end.

Definition store {A} (op : Z -> Op A) : M (result A string) :=
  step (fun k w g => let done := op (ar_unix w k) (gw_db g) in (done.1, set_db done.2 g)).
Definition task_store {A} (op : Z -> Op A) : M (result A string) :=
  task_step (fun k w g => let done := op (ar_unix w k) (gw_db g) in (done.1, set_db done.2 g)).

(** ** The tenant audit *)

(** [queue_audit]: [None] when there is no dispatcher, else whether the event was queued. *)
Definition queue_audit (cfg : GatewayConfig) (a : TenantAuditWrite) (g : Gw) : option bool * Gw :=
  match gc_audit_queue cfg with
  | None => (None, g)
  | Some capacity =>
      if (length (gw_queue g) <? Nat.max capacity 1)%nat then (Some true, set_queue (gw_queue g ++ [a])%list g)
      else (Some false, add_dropped g)
  end.

(** One turn of the dispatcher's task. *)
Definition audit_worker (cfg : GatewayConfig) (now : Z) (g : Gw) : Gw :=
  match gw_queue g with
  | [] => g
  | a :: rest =>
      match append_audit (gc_audit_max_rows cfg) now (aw_tenant_id a) (aw_path a) (aw_outcome a) (aw_status_code a)
              (aw_latency_ms a) (gw_db g) with
      | (Ok _, db) => set_queue rest (set_db db g)
      | (Err _, db) => add_failed (set_queue rest (set_db db g))
      end
  end.

Record TenantAuditContext := mkAuditContext { ac_tenant_id : string; ac_path : string; ac_started : Z }.

Definition record_tenant_audit (cfg : GatewayConfig) (context : TenantAuditContext) (outcome : string) (status_code : Z) :
    M unit :=
  do now := instant in
  let latency_ms := Z.min (duration_since now (ac_started context) / 1000000) u64_max in
  let event := mkAuditWrite (ac_tenant_id context) (ac_path context) outcome status_code latency_ms in
  if negb (gc_tenant_store cfg) then ret tt
  else
    do queued := task_step (fun _ _ => queue_audit cfg event) in
    match queued with
    | Some true => emit (Audited event Queued)
    | Some false => emit (Audited event QueueFull)
    | None =>
        do appended := task_store (fun now => append_audit (gc_audit_max_rows cfg) now (ac_tenant_id context)
                                     (ac_path context) outcome status_code latency_ms) in
        emit (Audited event match appended with Ok _ => Appended | Err _ => AppendFailed end)
    end.

Definition is_success (status : Z) : bool := (200 <=? status) && (status <? 300).

Definition outcome_for_status (status : Z) : string :=
  if is_success status then "completed"
  else if status =? 429 then "rate_limited"
  else if (400 <=? status) && (status <? 500) then "rejected"
  else "failed".

(** ** Authentication *)

Definition PROXY_AUTH_HEADER : string := "x-llm-firewall-token".

Definition header_get (name : string) (headers : HeaderMap) : option string := head (get_all name headers).
Definition presented_token (headers : HeaderMap) : option string := header_get PROXY_AUTH_HEADER headers ≫= to_str.

(** [ct_eq] compares without leaking time; the result is equality. *)
Definition is_authorized (expected : string) (presented : option string) : bool :=
  match presented ≫= Str.strip_prefix "Bearer " with
  | Some presented => bool_decide (expected = presented)
  | None => false
  end.

Definition unavailable_response (message error_type : string) : GwResponse := plain 503 (GError message error_type).
Definition unauthenticated_response : GwResponse :=
  plain 401 (GError "proxy authentication required" "proxy_authentication_error").
Definition rate_limited_response (retry_after_secs : Z) : GwResponse :=
  mkGwResponse 429 (GError "rate limit exceeded" "rate_limit_exceeded") (Some retry_after_secs) false.

Section gateway.
Context `{UnicodeTables} `{RegexEngine} `{LiteralIter} `{TextCrates}.
Context `{Sha256, JsonCodec TenantModelPolicy}.
(** [serde_json::from_str] and [Value::to_string]. *)
Variable from_str : string -> option Value.
Variable to_string : Value -> string.
(** The moderation model. *)
Variable classifier : option (string -> option (list (string * f32))).
Variable cfg : GatewayConfig.

(** Three reads of the store, one after the other. *)
Definition authenticate_access (presented : option string) : M (result (option TenantAccess) string) :=
  do identity := store (fun now => authenticate_bearer now presented) in
  match identity with
  | Err e => ret (Err e)
  | Ok None => ret (Ok None)
  | Ok (Some tenant) =>
      do limits := store (fun _ => limits_for (tn_id tenant)) in
      match limits with
      | Err e => ret (Err e)
      | Ok limits =>
          do policy := store (fun _ => model_policy_for (tn_id tenant)) in
          match policy with
          | Err e => ret (Err e)
          | Ok policy => ret (Ok (Some (mkTenantAccess (tn_id tenant) limits policy)))
          end
      end
  end.

Definition check_rate_limit (client : ClientId) (config : RateLimit) : M (option RateDecision) :=
  match gc_redis cfg with
  | Some redis_limits =>
      do checked := step (fun k w g =>
        let done := check_rate redis_limits client (rl_requests_per_window config) (rl_window_seconds config)
                      (ar_unix w k) (ar_server w k) (ar_delivery w k) (gw_redis g) in
        (done.1, set_redis done.2 g)) in
      match checked, gc_redis_fail_mode cfg with
      | Ok decision, _ => ret (Some decision)
      | Err _, FailClosed => ret None
      | Err _, FailOpen => ret (Some Allowed)
      end
  | None =>
      step (fun k w g =>
        let done := check_with (gw_rate g) client config (ar_instant w k) in (Some done.1, set_rate done.2 g))
  end.

Definition audit_tenant_response (access : option TenantAccess) (path : string) (started : Z) (response : GwResponse) :
    M GwResponse :=
  if gr_deferred response then ret response
  else match access with
       | None => ret response
       | Some access =>
           do _ := record_tenant_audit cfg (mkAuditContext (tx_tenant_id access) path started)
                     (outcome_for_status (gr_status response)) (gr_status response) in
           ret response
       end.

(** Who is calling: the tenant of the token, or nobody in particular. *)
Definition caller (presented : option string) : M (option TenantAccess) :=
  if negb (gc_proxy_auth_enabled cfg || gc_tenant_store cfg) then ret None
  else if gc_tenant_store cfg then
    do access := authenticate_access presented in
    match access with
    | Ok (Some access) => ret (Some access)
    | Ok None => reply unauthenticated_response
    | Err _ => reply (unavailable_response "tenant authentication temporarily unavailable" "tenant_store_unavailable")
    end
  else match gc_proxy_auth_token cfg with
       | Some expected => if is_authorized expected presented then ret None else reply unauthenticated_response
       | None => reply unauthenticated_response
       end.

(** The limiter's configuration for a tenant. *)
Definition tenant_rate_limit (limit : TenantRateLimit) : RateLimit :=
  RateLimit.mkRateLimit true (trl_requests_per_window limit) (trl_window_seconds limit)
    (rl_max_tracked_clients (gc_rate_limit cfg)).

(** The global limit, then the tenant's; [None] when the limiter is out of reach. *)
Definition rate_decision (presented : option string) (access : option TenantAccess) : M (option RateDecision) :=
  do global := (if rl_enabled (gc_rate_limit cfg) then check_rate_limit (client_id sha256 presented) (gc_rate_limit cfg)
                else ret (Some Allowed)) in
  match global with
  | None => ret None
  | Some (Rejected n) => ret (Some (Rejected n))
  | Some Allowed =>
      match access ≫= fun a => limit ← tl_rate_limit (tx_limits a); Some (tx_tenant_id a, limit) with
      | Some (tenant_id, limit) => check_rate_limit (tenant_client_id sha256 tenant_id) (tenant_rate_limit limit)
      | None => ret (Some Allowed)
      end
  end.

Definition require_proxy_token (request : ModelRequest) (next : option TenantAccess -> option TenantAuditContext -> M GwResponse) :
    M GwResponse :=
  do started := instant in
  let path := mr_path request in
  let presented := presented_token (mr_headers request) in
  do access := caller presented in
  do decision := rate_decision presented access in
  match decision with
  | None =>
      audit_tenant_response access path started
        (unavailable_response "rate limiter temporarily unavailable" "rate_limiter_unavailable")
  | Some Allowed =>
      do response := caught (next access ((fun a => mkAuditContext (tx_tenant_id a) path started) <$> access)) in
      audit_tenant_response access path started response
  | Some (Rejected n) => audit_tenant_response access path started (rate_limited_response n)
  end.

(** ** Model policy and spend *)

Definition model_refusal (anthropic : bool) : GwResponse :=
  plain 403 (if anthropic then GAnthropicError "permission_error" "model is not allowed for this tenant"
             else GError "model is not allowed for this tenant" "tenant_model_not_allowed").

Definition tenant_model_policy_response (access : option TenantAccess) (model : string) (anthropic : bool) :
    option GwResponse :=
  match access ≫= tx_model_policy with
  | None => None
  | Some policy => if model_policy_permits policy model then None else Some (model_refusal anthropic)
  end.

Inductive SpendRequestError :=
| StreamingUnsupported
| ModelWithoutPrice
| BudgetGone (retry_after_secs : Z)
| CapacityGone (retry_after_secs : Z)
| LedgerUnavailable.

Definition spend_config (access : option TenantAccess) : option SpendLimit :=
  match access ≫= fun a => tl_spend_limit (tx_limits a) with
  | Some limit =>
      Some (mkSpendLimit true (tsl_window_seconds limit) (tsl_max_usd_micros limit)
              (tsl_reserve_usd_micros_per_request limit) (sl_max_tracked_clients (gc_spend_limit cfg))
              (sl_model_prices (gc_spend_limit cfg)))
  | None => if sl_enabled (gc_spend_limit cfg) then Some (gc_spend_limit cfg) else None
  end.

Definition spend_client (headers : HeaderMap) (access : option TenantAccess) : ClientId :=
  match access with
  | Some a => tenant_client_id sha256 (tx_tenant_id a)
  | None => client_id sha256 (presented_token headers)
  end.

Definition took (v : Reservation) : M (result (option Reservation) SpendRequestError) :=
  do _ := emit (Reserved v) in ret (Ok (Some v)).

Definition reserve_request (headers : HeaderMap) (access : option TenantAccess) (model : string) (stream : bool) :
    M (result (option Reservation) SpendRequestError) :=
  match spend_config access with
  | None => ret (Ok None)
  | Some config =>
      if stream then ret (Err StreamingUnsupported)
      else match BMap.get model (sl_model_prices config) with
           | None => ret (Err ModelWithoutPrice)
           | Some price =>
               let client := spend_client headers access in
               match gc_redis cfg with
               | Some redis_limits =>
                   do reserved := step (fun k w g =>
                     let done := reserve_spend redis_limits client price config (ar_unix w k) (ar_server w k)
                                   (ar_delivery w k) (gw_redis g) in
                     (done.1, set_redis done.2 g)) in
                   match reserved, gc_redis_fail_mode cfg with
                   | Ok v, _ => took v
                   | Err (SpendExhausted n), _ => ret (Err (BudgetGone n))
                   | Err (SpendBackend _), FailClosed => ret (Err LedgerUnavailable)
                   | Err (SpendBackend _), FailOpen => ret (Ok None)
                   end
               | None =>
                   do reserved := step (fun k w g =>
                     let done := reserve_with (gw_spend g) client model config (ar_instant w k) in
                     (done.1, set_spend done.2 g)) in
                   match reserved with
                   | Ok v => took v
                   | Err ModelUnpriced => ret (Err ModelWithoutPrice)
                   | Err (BudgetExhausted n) => ret (Err (BudgetGone n))
                   | Err (CapacityExhausted n) => ret (Err (CapacityGone n))
                   end
               end
           end
  end.

(** A command to Redis about a reservation; what it answers is only logged. *)
Definition redis_update {A} (f : Z -> Delivery -> Redis -> result A RedisLimitError * Redis) : M bool :=
  step (fun k w g =>
    let done := f (ar_server w k) (ar_delivery w k) (gw_redis g) in
    (match done.1 with Ok _ => true | Err _ => false end, set_redis done.2 g)).

(** The end of a reservation, in the ledger that holds it: whether that ledger confirmed it. *)
Definition end_reservation {A} (v : Reservation) (distributed : Z -> Delivery -> Redis -> result A RedisLimitError * Redis)
    (local : Spenders -> Spenders) : M bool :=
  match rv_redis_key v, gc_redis cfg with
  | Some _, Some _ => redis_update distributed
  | Some _, None => ret false
  | None, _ => step (fun _ _ g => (true, set_spend (local (gw_spend g)) g))
  end.

Definition release_request (reservation : option Reservation) : M unit :=
  match reservation with
  | None => ret tt
  | Some v =>
      do confirmed := end_reservation v (release_spend v) (fun m => release m v) in
      emit (Released v confirmed)
  end.

Definition reported_usage (body : Value) (input_field output_field : string) : option (Z * Z) :=
  usage ← value_get "usage" body;
  input ← value_get input_field usage ≫= as_u64;
  output ← value_get output_field usage ≫= as_u64;
  Some (input, output).

Definition settle_request (reservation : option Reservation) (body : Value) (input_field output_field : string) : M unit :=
  match reservation with
  | None => ret tt
  | Some v =>
      match reported_usage body input_field output_field with
      | Some (input, output) =>
          do confirmed := end_reservation v (settle_spend v input output) (fun m => (settle_usage m v input output).2) in
          emit (Settled v input output confirmed)
      | None =>
          do confirmed := end_reservation v (exhaust_spend v) (fun m => exhaust m v) in
          emit (Exhausted v confirmed)
      end
  end.

Definition spend_error_response (e : SpendRequestError) (anthropic : bool) : GwResponse :=
  let '(status, message, kind, retry_after) :=
    match e with
    | StreamingUnsupported => (400, "spend limits currently require stream: false", "spend_streaming_not_supported", None)
    | ModelWithoutPrice => (400, "model has no configured spend price", "spend_model_unpriced", None)
    | BudgetGone n => (429, "spend limit exceeded", "spend_limit_exceeded", Some n)
    | CapacityGone n => (429, "spend ledger is at configured client capacity", "spend_ledger_capacity_exceeded", Some n)
    | LedgerUnavailable => (503, "spend ledger temporarily unavailable", "spend_ledger_unavailable", None)
    end in
  mkGwResponse status
    (if anthropic then GAnthropicError "invalid_request_error" message else GError message kind) retry_after false.

(** ** The upstream *)

Definition OPENAI_HEADERS : list string := ["authorization"; "openai-organization"; "openai-project"; "openai-beta"].
Definition ANTHROPIC_HEADERS : list string := ["x-api-key"; "anthropic-version"; "anthropic-beta"; "authorization"].

Definition forward_headers (headers : HeaderMap) (names : list string) (fallback_bearer : option string) :
    list (string * string) :=
  (omap (fun name => v ← header_get name headers; Some (name, v)) names ++
   match header_get "authorization" headers, fallback_bearer with
   | None, Some key => [("authorization", "Bearer " +:+ key)]
   | _, _ => []
   end)%list.

Definition error_body (message : string) : GwBody := GError message "llm_firewall_block".
Definition anthropic_error_body (message : string) : GwBody := GAnthropicError "invalid_request_error" message.

(** What the three handlers differ in. *)
Record Wire (R : Type) := mkWire {
  wi_upstream : R -> UpstreamBody; wi_model : R -> string; wi_stream : R -> bool;
  wi_decide : R -> option (InputDecision R); wi_events : R -> Value -> list SecurityEvent;
  wi_tool_results : R -> list string; wi_protocol : option StreamProtocol; wi_error : string -> GwBody;
  wi_anthropic : bool; wi_provider : string; wi_path : string; wi_input_field : string; wi_output_field : string;
  wi_base : string; wi_headers : list string; wi_fallback : option string }.
#[global] Arguments mkWire {R}.
#[global] Arguments wi_upstream {R}.
#[global] Arguments wi_model {R}.
#[global] Arguments wi_stream {R}.
#[global] Arguments wi_decide {R}.
#[global] Arguments wi_events {R}.
#[global] Arguments wi_tool_results {R}.
#[global] Arguments wi_protocol {R}.
#[global] Arguments wi_error {R}.
#[global] Arguments wi_anthropic {R}.
#[global] Arguments wi_provider {R}.
#[global] Arguments wi_path {R}.
#[global] Arguments wi_input_field {R}.
#[global] Arguments wi_output_field {R}.
#[global] Arguments wi_base {R}.
#[global] Arguments wi_headers {R}.
#[global] Arguments wi_fallback {R}.

Definition chat_wire : Wire ChatRequest :=
  mkWire UChat cr_model cr_stream (decide_input (gc_firewall cfg)) (normalize_chat from_str) openai_tool_results
    (Some SPOpenAiChat) error_body false "openai" "/v1/chat/completions" "prompt_tokens" "completion_tokens"
    (gc_openai_base cfg) OPENAI_HEADERS (gc_openai_api_key cfg).

Definition responses_wire : Wire ResponsesRequest :=
  mkWire UResponses rr_model rr_stream (decide_input_responses (gc_firewall cfg)) (normalize_responses from_str)
    (fun r => if pc_agent_enabled (gc_proxy cfg) then responses_tool_results r else [])
    None error_body false "openai" "/v1/responses" "input_tokens" "output_tokens"
    (gc_openai_base cfg) OPENAI_HEADERS (gc_openai_api_key cfg).

(** [serde_json::to_value] of the typed request. *)
Definition anthropic_value (r : AnthropicRequest) : Value :=
  JObject (BMap.of_list
    ([("model", JString (ar_model r))] ++ option_list ((fun v => ("system", v)) <$> ar_system r) ++
     [("messages", JArray ((fun m => JObject (BMap.of_list [("role", JString (am_role m)); ("content", am_content m)]))
                             <$> ar_messages r));
      ("stream", JBool (ar_stream r))] ++ ar_rest r)%list).

Definition anthropic_wire : Wire AnthropicRequest :=
  mkWire UAnthropic ar_model ar_stream (decide_input_anthropic (gc_firewall cfg)) normalize_anthropic
    (fun r => anthropic_tool_results (anthropic_value r))
    (Some SPAnthropicMessages) anthropic_error_body true "anthropic" "/v1/messages" "input_tokens" "output_tokens"
    (gc_anthropic_base cfg) ANTHROPIC_HEADERS None.

Inductive UpstreamJsonError := JsonTooLarge | JsonRead | JsonDecode | JsonTimeout.

Fixpoint read_upstream_json (body : string) (items : list BodyItem) (max_bytes : Z) : result Value UpstreamJsonError :=
  match items with
  | [] => ok_or (from_str body) JsonDecode
  | Piece chunk :: items =>
      if max_bytes <? Z.of_nat (Str.len body + Str.len chunk) then Err JsonTooLarge
      else read_upstream_json (body +:+ chunk) items max_bytes
  | ReadError :: _ => Err JsonRead
  | IdleTimeout :: _ => Err JsonTimeout
  end.

(** Sending the request and waiting for the head of the answer. *)
Definition send (url : string) (headers : list (string * string)) (body : UpstreamBody) : M UpstreamAnswer :=
  do _ := emit (SentUpstream url headers body) in
  do answer := around ar_upstream in
  step (fun _ _ g => (answer, g)).

(** The text of a library's error after [bad upstream body] is left out. *)
Definition forward_json (url : string) (headers : list (string * string)) (body : UpstreamBody) :
    M (result (Z * Value) GwResponse) :=
  do answer := send url headers body in
  match answer with
  | UpstreamTimeout => ret (Err (plain 504 (error_body "upstream timeout")))
  | UpstreamFailed message =>
      ret (Err (plain 502 (error_body match pc_fail_mode (gc_proxy cfg) with
                                      | FailClosed => "upstream error (fail_closed): " +:+ message
                                      | FailOpen => "upstream error" end)))
  | UpstreamAnswered status _ items =>
      do read := step (fun _ _ g => (read_upstream_json EmptyString items (max_upstream_body_bytes cfg), g)) in
      ret match read with
          | Ok v => Ok (status, v)
          | Err JsonTimeout => Err (plain 504 (error_body "upstream timeout"))
          | Err JsonTooLarge => Err (plain 502 (error_body "upstream body exceeded configured limit"))
          | Err JsonRead | Err JsonDecode => Err (plain 502 (error_body "bad upstream body"))
          end
  end.

Definition record_terminal_usage {R} (W : Wire R) (access : option TenantAccess) (request_id requested_model : string)
    (body : Value) : M unit :=
  match gc_tenant_store cfg, access with
  | true, Some access =>
      do event := task_step (fun k w g =>
        let event := terminal_usage_event sha256 base64url
          (mkUsageContext (tx_tenant_id access) request_id (wi_provider W) (wi_path W) requested_model
             (wi_input_field W) (wi_output_field W)
             (BMap.get requested_model (sl_model_prices (gc_spend_limit cfg)))) body (ar_unix w k) in
        match append_usage_event event (gw_db g) with
        | (Ok _, db) => (event, set_db db g)
        | (Err _, db) => (event, add_usage_failed (set_db db g))
        end) in
      emit (Billed event)
  | _, _ => ret tt
  end.

(** ** Streams *)

Definition finish_tenant_stream (audit : option TenantAuditContext) (outcome : string) (status_code : Z) : M unit :=
  match audit with
  | Some context => record_tenant_audit cfg context outcome status_code
  | None => ret tt
  end.

(** A task of its own: it outlives the handler, and its panic is its end only. *)
Definition spawned (m : M unit) : M unit := fun w s =>
  match m w s with
  | (Err _, s) => (Ok tt, mkRun (ru_step s) (ru_gw s) (ru_effects s ++ [TaskPanicked])%list)
  | (Ok _, s) => (Ok tt, s)
  end.

(** A chunk as one step on the shared agent firewall. *)
Definition inspect_chunk {St} (chunk : AgentFirewall -> option (chunk_outcome * list Value * St * AgentFirewall)) :
    M (chunk_outcome * list Value * St) :=
  do seen := task_step (fun _ _ g =>
    match chunk (gw_agent g) with
    | Some (outcome, recorded, st, agent) => (Some (outcome, recorded, st), set_agent agent g)
    | None => (None, g)
    end) in
  of_option seen.

Fixpoint record_each (record : Value -> M unit) (bodies : list Value) : M unit :=
  match bodies with [] => ret tt | body :: bodies => do _ := record body in record_each record bodies end.

Definition client_gone : M bool := fun w s => (Ok (ar_client_gone w (ru_step s)), s).

(** The loop of the spawned task, for both kinds of stream. *)
Fixpoint stream_loop {St} (chunk : St -> string -> AgentFirewall -> option (chunk_outcome * list Value * St * AgentFirewall))
    (at_end : St -> M unit) (record : Value -> M unit) (finish : string -> Z -> M unit) (status : Z)
    (items : list BodyItem) (st : St) : M unit :=
  match items with
  | [] =>
      do _ := at_end st in
      finish (if is_success status then "completed" else "failed") status
  | IdleTimeout :: _ =>
      do _ := finish "stream_timeout" 504 in
      emit (BlockFrame "upstream stream idle timeout")
  | ReadError :: _ => finish "stream_error" 502
  | Piece bytes :: items =>
      do seen := inspect_chunk (chunk st bytes) in
      let '(outcome, recorded, st) := seen in
      do _ := record_each record recorded in
      match outcome with
      | Block reason =>
          do _ := finish "blocked" 502 in
          emit (BlockFrame reason)
      | Forward =>
          do gone := client_gone in
          if (gone : bool) then finish "client_disconnected" 499
          else
            do _ := emit (ToClient bytes) in
            stream_loop chunk at_end record finish status items st
      end
  end.

(** The calls still open at the end are judged for the log only. *)
Definition end_of_stream (ctx : StreamContext) (st : StreamState) : M unit :=
  task_step (fun _ _ g => (tt, set_agent (stream_end (gc_proxy cfg) from_str ctx st (gw_agent g)).2 g)).

(** Sending a request whose answer is streamed: the head is answered at once, the body by
    [task], which is run to its end here. The middleware does nothing more for the response
    when the audit is left to the task. *)
Definition streaming_response {R} (W : Wire R) (audit : option TenantAuditContext) (headers : list (string * string))
    (request : R) (task : Z -> list BodyItem -> M unit) : M GwResponse :=
  do answer := send (wi_base W +:+ wi_path W) headers (wi_upstream W request) in
  match answer with
  | UpstreamTimeout | UpstreamFailed _ => reply (plain 502 (error_body "upstream error"))
  | UpstreamAnswered status content_type items =>
      do _ := spawned (task status items) in
      ret (mkGwResponse status (GStream content_type) None (bool_decide (is_Some audit)))
  end.

Definition stream_context {R} (W : Wire R) (request_id : string) (request : R) (status : Z) : StreamContext :=
  mkStreamContext request_id (wi_tool_results W request) (wi_input_field W) (wi_output_field W) (is_success status).

Definition proxy_stream {R} (W : Wire R) (protocol : StreamProtocol) (access : option TenantAccess)
    (audit : option TenantAuditContext) (request_id : string) (headers : list (string * string)) (request : R) : M GwResponse :=
  streaming_response W audit headers request (fun status items =>
    let ctx := stream_context W request_id request status in
    stream_loop (fun st bytes agent => proxy_chunk (gc_proxy cfg) (gc_firewall cfg) from_str ctx st agent bytes)
      (end_of_stream ctx) (record_terminal_usage W access request_id (wi_model W request)) (finish_tenant_stream audit)
      status items (stream_start (Some protocol))).

Definition proxy_responses_stream {R} (W : Wire R) (access : option TenantAccess)
    (audit : option TenantAuditContext) (request_id : string) (headers : list (string * string)) (request : R) : M GwResponse :=
  streaming_response W audit headers request (fun status items =>
    let ctx := stream_context W request_id request status in
    stream_loop (fun st bytes agent => responses_chunk (gc_proxy cfg) (gc_firewall cfg) from_str to_string ctx st agent bytes)
      (fun _ => ret tt) (record_terminal_usage W access request_id (wi_model W request)) (finish_tenant_stream audit)
      status items responses_start).

(** ** The handlers *)

Definition inspect_response (request_id : string) (events : list SecurityEvent) : M (option string) :=
  do checked := step (fun _ _ g =>
    match check_response (gc_proxy cfg) (gc_firewall cfg) (gw_agent g) request_id events with
    | Some (reason, agent) => (Some reason, set_agent agent g)
    | None => (None, g)
    end) in
  of_option checked.

(** From the provider's answer to the client's. *)
Definition answer_client {R} (W : Wire R) (access : option TenantAccess) (request_id : string)
    (request : R) (reservation : option Reservation) (body : Value) : M GwResponse :=
  do _ := settle_request reservation body (wi_input_field W) (wi_output_field W) in
  do _ := record_terminal_usage W access request_id (wi_model W request) body in
  let events := wi_events W request body in
  do refused := inspect_response request_id events in
  match refused with
  | Some reason => ret (plain 502 (wi_error W reason))
  | None =>
      match moderation_check (gc_moderation cfg) classifier (output_text events) with
      | Harmful _ ModerationBlock => ret (plain 200 (wi_error W (om_refusal_message (gc_moderation cfg))))
      | _ => ret (plain 200 (GUpstream body))
      end
  end.

Definition serve {R} (W : Wire R) (access : option TenantAccess) (audit : option TenantAuditContext) (headers : HeaderMap)
    (request : R) : M GwResponse :=
  do request_id := around ar_request_id in
  match tenant_model_policy_response access (wi_model W request) (wi_anthropic W) with
  | Some response => ret response
  | None =>
      do decision := of_option (wi_decide W request) in
      match id_block_reason decision with
      | Some reason => ret (plain 400 (wi_error W reason))
      | None =>
          let request := id_request decision in
          do reserved := reserve_request headers access (wi_model W request) (wi_stream W request) in
          match reserved with
          | Err e => ret (spend_error_response e (wi_anthropic W))
          | Ok reservation =>
              let sent := forward_headers headers (wi_headers W) (wi_fallback W) in
              if wi_stream W request then
                match wi_protocol W with
                | Some protocol => proxy_stream W protocol access audit request_id sent request
                | None => proxy_responses_stream W access audit request_id sent request
                end
              else
                do answer := forward_json (wi_base W +:+ wi_path W) sent (wi_upstream W request) in
                match answer with
                | Err response => do _ := release_request reservation in ret response
                | Ok (status, body) =>
                    if negb (status =? 200) then do _ := release_request reservation in ret (plain status (GUpstream body))
                    else answer_client W access request_id request reservation body
                end
          end
      end
  end.

Definition chat_completions : option TenantAccess -> option TenantAuditContext -> HeaderMap -> ChatRequest -> M GwResponse :=
  serve chat_wire.
Definition responses : option TenantAccess -> option TenantAuditContext -> HeaderMap -> ResponsesRequest -> M GwResponse :=
  serve responses_wire.
Definition messages : option TenantAccess -> option TenantAuditContext -> HeaderMap -> AnthropicRequest -> M GwResponse :=
  serve anthropic_wire.

(** The three handlers behind the extractor of the body. *)
Definition route (request : ModelRequest) (access : option TenantAccess) (audit : option TenantAuditContext) : M GwResponse :=
  match mr_body request with
  | ChatCompletions (Ok r) => chat_completions access audit (mr_headers request) r
  | Responses (Ok r) => responses access audit (mr_headers request) r
  | Messages (Ok r) => messages access audit (mr_headers request) r
  | ChatCompletions (Err status) | Responses (Err status) | Messages (Err status) => ret (plain status GRejection)
  end.

(** The whole request. *)
Definition gateway (request : ModelRequest) : M GwResponse :=
  caught (require_proxy_token request (route request)).
End gateway.

(** ** Readiness *)

(** [readyz], with what the probes of the store and of Redis found. *)
Definition readyz (cfg : GatewayConfig) (store_reachable redis_reachable redis_configured : bool) (g : Gw) : Z :=
  let '(control_plane_ready, dropped, failed, usage_failed) :=
    if gc_tenant_store cfg then
      (store_reachable, if bool_decide (is_Some (gc_audit_queue cfg)) then gw_dropped_events g else 0,
       if bool_decide (is_Some (gc_audit_queue cfg)) then gw_failed_events g else 0, gw_usage_failed g)
    else (true, 0, 0, 0) in
  let redis_ready := match gc_redis cfg with Some _ => redis_reachable | None => negb redis_configured end in
  if control_plane_ready && ((dropped =? 0) && (failed =? 0)) && (usage_failed =? 0) && redis_ready then 200 else 503.
