(* ===== verification/GatewayProps.v ===== *)
(** What the proxy does with a model request, whatever happens around it: nothing is sent
    upstream before the caller, its limits, its model and its text were checked; a
    reservation is taken at most once and finished; every authenticated request is audited once; and
    the client only sees what was inspected. *)
From S2P Require Import Prelude BTree Platform Net F32 Json CoreTypes Scoring CorePolicy Detectors Normalize.
From S2P Require Import Firewall Adapter Event Taint Action Egress AgentPolicy Engine Grant RateLimit Spend.
From S2P Require Import TenantDb TenantDirectory TenantPolicy TenantUsage PortalTypes RedisLimits.
From S2P Require Import ProxyEvents ProxyInput AgentScan Sse Capability ProxyStream Gateway.
From Stdlib Require Import String Ascii.
Local Open Scope string_scope.
Local Open Scope Z_scope.
Local Open Scope gateway_scope.
#[local] Abbreviation length := List.length.

(** ** Reasoning about effects *)

(** What [m] returns in the world [w] and the effects it adds satisfy [Q]. *)
Definition does {A} (w : Around) (m : M A) (Q : result A Stop -> list Effect -> Prop) : Prop :=
  forall s, exists l, ru_effects (m w s).2 = (ru_effects s ++ l)%list /\ Q (m w s).1 l.

Section reasoning.
Context {w : Around}.

Lemma does_ret {A} (x : A) (Q : _ -> _ -> Prop) : Q (Ok x) [] -> does w (ret x) Q.
Proof. intros HQ s. exists []. by rewrite app_nil_r. Qed.

Lemma does_stop {A} e (Q : result A Stop -> _ -> Prop) : Q (Err e) [] -> does w (stop e) Q.
Proof. intros HQ s. exists []. by rewrite app_nil_r. Qed.

Lemma does_emit e (Q : _ -> _ -> Prop) : Q (Ok tt) [e] -> does w (emit e) Q.
Proof. intros HQ s. by exists [e]. Qed.

Lemma does_weaken {A} (m : M A) (P Q : _ -> _ -> Prop) : does w m P -> (forall r l, P r l -> Q r l) -> does w m Q.
Proof. intros Hm HPQ s. destruct (Hm s) as (l & Hl & HP). exists l. auto. Qed.

Lemma does_bind {A B} (m : M A) (k : A -> M B) (P : _ -> _ -> Prop) (Q : _ -> _ -> Prop) :
  does w m P -> (forall e l, P (Err e) l -> Q (Err e) l) ->
  (forall x l, P (Ok x) l -> does w (k x) (fun r l' => Q r (l ++ l')%list)) -> does w (bind m k) Q.
Proof.
  intros Hm Herr Hk s. destruct (Hm s) as (l & Hl & HP). unfold bind.
  destruct (m w s) as [[x|e] s1]; cbn [fst snd] in *; [|exists l; auto].
  destruct (Hk x l HP s1) as (l' & Hl' & HQ). exists (l ++ l')%list. by rewrite Hl', Hl, app_assoc.
Qed.

(** Steps and other silent actions: a value of [R], or the request is dropped. *)
Definition quiet {A} (r : result A Stop) (l : list Effect) : Prop :=
  l = [] /\ match r with Ok _ => True | Err e => e = Gone end.

Lemma does_task_step {A} (f : nat -> Around -> Gw -> A * Gw) (Q : _ -> _ -> Prop) :
  (forall k g, Q (Ok (f k w g).1) []) -> does w (task_step f) Q.
Proof. intros HQ s. exists []. split; [cbn; by rewrite app_nil_r|apply HQ]. Qed.

Lemma does_step {A} (f : nat -> Around -> Gw -> A * Gw) (Q : _ -> _ -> Prop) :
  Q (Err Gone) [] -> (forall k g, Q (Ok (f k w g).1) []) -> does w (step f) Q.
Proof.
  intros Hg HQ s. unfold step. exists []. destruct (ar_dropped w (ru_step s)); cbn; rewrite app_nil_r; auto.
Qed.

Lemma does_quiet_step {A} (f : nat -> Around -> Gw -> A * Gw) : does w (step f) quiet.
Proof. by apply does_step. Qed.

Lemma does_around {A} (f : Around -> A) (Q : _ -> _ -> Prop) : Q (Ok (f w)) [] -> does w (around f) Q.
Proof. intros HQ s. exists []. split; [by rewrite app_nil_r|exact HQ]. Qed.

Lemma does_instant (Q : _ -> _ -> Prop) : (forall t, Q (Ok t) []) -> does w instant Q.
Proof. intros HQ s. exists []. split; [by rewrite app_nil_r|apply HQ]. Qed.

Lemma does_client_gone (Q : _ -> _ -> Prop) : (forall b, Q (Ok b) []) -> does w client_gone Q.
Proof. intros HQ s. exists []. split; [by rewrite app_nil_r|apply HQ]. Qed.

Lemma does_of_option {A} (o : option A) (Q : _ -> _ -> Prop) :
  (forall x, o = Some x -> Q (Ok x) []) -> (o = None -> Q (Err Panicked) []) -> does w (of_option o) Q.
Proof. destruct o; intros; [apply does_ret|apply does_stop]; auto. Qed.

Lemma does_caught (m : M GwResponse) (P Q : _ -> _ -> Prop) :
  does w m P ->
  (forall r l, P (Ok r) l -> Q (Ok r) l) -> (forall r l, P (Err (ReplyWith r)) l -> Q (Ok r) l) ->
  (forall e l, (forall r, e <> ReplyWith r) -> P (Err e) l -> Q (Err e) l) -> does w (caught m) Q.
Proof.
  intros Hm H1 H2 H3 s. destruct (Hm s) as (l & Hl & HP). exists l. unfold caught.
  destruct (m w s) as [[r|[r| |]] s1]; cbn [fst snd] in *; auto.
Qed.

(** A task: its own end, or what it did before it panicked. *)
Lemma does_spawned (m : M unit) (P Q : _ -> _ -> Prop) :
  does w m P -> (forall l, P (Ok tt) l -> Q (Ok tt) l) -> (forall e l, P (Err e) l -> Q (Ok tt) (l ++ [TaskPanicked])%list) ->
  does w (spawned m) Q.
Proof.
  intros Hm H1 H2 s. destruct (Hm s) as (l & Hl & HP). unfold spawned.
  destruct (m w s) as [[[]|e] s1]; cbn [fst snd ru_effects] in *; [exists l; auto|].
  exists (l ++ [TaskPanicked])%list. rewrite Hl, app_assoc. eauto.
Qed.

(** A bind whose first part is silent. *)
Lemma does_then {A B} (m : M A) (k : A -> M B) (Q : _ -> _ -> Prop) :
  does w m quiet -> Q (Err Gone) [] -> (forall x, does w (k x) Q) -> does w (bind m k) Q.
Proof.
  intros Hm Hg Hk. eapply does_bind; [exact Hm| |].
  - by intros e l [-> ->].
  - intros x l [-> _]. apply Hk.
Qed.

End reasoning.

(** ** The parts of a request *)

Definition spend_effect (e : Effect) : bool :=
  match e with Reserved _ | Released _ _ | Settled _ _ _ _ | Exhausted _ _ => true | _ => false end.
Definition audit_effect (e : Effect) : bool := match e with Audited _ _ => true | _ => false end.
Definition sent_effect (e : Effect) : bool := match e with SentUpstream _ _ _ => true | _ => false end.

(** The audit entry of a request. *)
Definition audit_entry (context : TenantAuditContext) (outcome : string) (status : Z) (a : TenantAuditWrite) : Prop :=
  aw_tenant_id a = ac_tenant_id context /\ aw_path a = ac_path context /\ aw_outcome a = outcome /\ aw_status_code a = status.

(** What can become of the event: with a queue it is queued or dropped, else it is written or not. *)
Definition audit_fate (cfg : GatewayConfig) (fate : AuditFate) : Prop :=
  match gc_audit_queue cfg with
  | Some _ => fate = Queued \/ fate = QueueFull
  | None => fate = Appended \/ fate = AppendFailed
  end.

(** One event with its fate, when there is a store. *)
Definition left_audit (cfg : GatewayConfig) (context : TenantAuditContext) (outcome : string) (status : Z) (l : list Effect) : Prop :=
  exists a fate, audit_entry context outcome status a /\ audit_fate cfg fate /\
    l = if gc_tenant_store cfg then [Audited a fate] else [].

Lemma does_audit {w} cfg context outcome status :
  does w (record_tenant_audit cfg context outcome status) (fun r l => r = Ok tt /\ left_audit cfg context outcome status l).
Proof.
  unfold record_tenant_audit. eapply (does_bind _ _ (fun r l => (exists t, r = Ok t) /\ l = [])).
  { apply does_instant. eauto. }
  { by intros e l [[? ?] _]. }
  intros now l [_ ->]. cbn [app]. set (a := mkAuditWrite _ _ _ _ _).
  assert (audit_entry context outcome status a) as Ha by done.
  unfold left_audit, audit_fate, queue_audit. destruct (gc_tenant_store cfg); cbn [negb].
  2: { apply does_ret. split; [done|]. destruct (gc_audit_queue cfg); [exists a, Queued|exists a, Appended]; auto. }
  destruct (gc_audit_queue cfg) as [capacity|].
  - eapply (does_bind _ _ (fun r l => (exists b, r = Ok (Some b)) /\ l = [])).
    { apply does_task_step. intros k g. case_match; eauto. }
    { by intros e l [[? ?] _]. }
    intros queued l [[b [= ->]] ->]. destruct b; apply does_emit; (split; [done|]); [exists a, Queued|exists a, QueueFull]; auto.
  - eapply (does_bind _ _ (fun r l => r = Ok None /\ l = [])).
    { by apply does_task_step. }
    { by intros e l [? _]. }
    intros queued l [[= ->] ->]. eapply (does_bind _ _ (fun r l => (exists t, r = Ok t) /\ l = [])).
    { apply does_task_step. eauto. }
    { by intros e l [[? ?] _]. }
    intros appended l [_ ->]. apply does_emit. split; [done|]. destruct appended; [exists a, Appended|exists a, AppendFailed]; auto.
Qed.

(** The fate recorded is the event's: it is the last of the queue, or the queue was full and the event is
    counted as dropped, or it was written to the store, or the store refused it. *)
Lemma audit_fate_true w cfg context outcome status s :
  gc_tenant_store cfg = true ->
  let done := (record_tenant_audit cfg context outcome status w s).2 in
  let before := ar_others w (ru_step s) (ru_gw s) in
  exists a fate, ru_effects done = (ru_effects s ++ [Audited a fate])%list /\ audit_entry context outcome status a /\
  match fate with
  | Queued => gw_queue (ru_gw done) = (gw_queue before ++ [a])%list
  | QueueFull => (exists capacity, gc_audit_queue cfg = Some capacity /\ (Nat.max capacity 1 <= length (gw_queue before))%nat) /\
                 ru_gw done = add_dropped before
  | Appended | AppendFailed =>
      let before := ar_others w (S (ru_step s)) before in
      let written := append_audit (gc_audit_max_rows cfg) (ar_unix w (S (ru_step s))) (aw_tenant_id a) (aw_path a)
                       (aw_outcome a) (aw_status_code a) (aw_latency_ms a) (gw_db before) in
      (fate = Appended <-> exists r, written.1 = Ok r) /\ ru_gw done = set_db written.2 before
  end.
Proof.
  intros Hs. unfold record_tenant_audit, bind, instant, task_step, task_store, queue_audit, emit. rewrite Hs. cbn [negb].
  destruct (gc_audit_queue cfg) as [capacity|]; cbn [fst snd ru_step ru_gw ru_effects].
  - destruct (_ <? _)%nat eqn:E; cbn [fst snd ru_gw ru_effects]; eexists _, _; (split; [done|]); (split; [done|]); [done|].
    split; [|done]. exists capacity. split; [done|]. by apply Nat.ltb_ge in E.
  - unfold task_step. cbn [fst snd ru_step ru_gw ru_effects]. set (a := mkAuditWrite _ _ _ _ _).
    exists a. destruct (append_audit _ _ _ _ _ _ _ _) as [[r|e] db]; eexists; (split; [done|]); (split; [done|]);
      cbn [fst snd]; (split; [|done]); split; first [by eauto|done|by intros [? ?]].
Qed.

Section parts.
Context {w : Around}.
Context `{UnicodeTables} `{RegexEngine} `{LiteralIter} `{TextCrates}.
Context `{Sha256, JsonCodec TenantModelPolicy}.
Variable from_str : string -> option Value.
Variable to_string : Value -> string.
Variable classifier : option (string -> option (list (string * f32))).
Variable cfg : GatewayConfig.

Definition held (reservation : option Reservation) : list Effect :=
  match reservation with Some v => [Reserved v] | None => [] end.

(** The local ledger is always confirmed. *)
Definition sure (v : Reservation) (confirmed : bool) : Prop := rv_redis_key v = None -> confirmed = true.

Definition given_back (reservation : option Reservation) (l : list Effect) : Prop :=
  match reservation with Some v => exists c, sure v c /\ l = [Released v c] | None => l = [] end.
Definition paid (reservation : option Reservation) (usage : option (Z * Z)) (l : list Effect) : Prop :=
  match reservation, usage with
  | None, _ => l = []
  | Some v, Some (input, output) => exists c, sure v c /\ l = [Settled v input output c]
  | Some v, None => exists c, sure v c /\ l = [Exhausted v c]
  end.

(** How the request goes on: with a reservation, which is Redis's only where Redis is configured; or without
    one because none is asked for, or because Redis is out of reach and fails open. *)
Definition reserved_for (access : option TenantAccess) (reservation : option Reservation) : Prop :=
  match reservation with
  | Some v => gc_redis cfg = None -> rv_redis_key v = None
  | None => spend_config cfg access = None \/ (is_Some (gc_redis cfg) /\ gc_redis_fail_mode cfg = FailOpen)
  end.

Lemma local_reservation m client model config now :
  match (reserve_with m client model config now).1 with Ok v => rv_redis_key v = None | Err _ => True end.
Proof. unfold reserve_with. repeat (case_match; cbn [fst]; try done); by simplify_eq/=. Qed.

Lemma does_took v : does w (took v) (fun r l => r = Ok (Ok (Some v)) /\ l = [Reserved v]).
Proof.
  unfold took. eapply (does_bind _ _ (fun r l => r = Ok tt /\ l = [Reserved v])); [by apply does_emit|by intros ? ? [? ?]|].
  intros _ l [_ ->]. by apply does_ret.
Qed.

(** A request whose spend is limited goes on with a reservation, unless Redis fails open. *)
Lemma does_reserve headers access model stream :
  does w (reserve_request cfg headers access model stream) (fun r l =>
    match r with
    | Ok (Ok reservation) => l = held reservation /\ reserved_for access reservation /\ (is_Some reservation -> stream = false)
    | Ok (Err _) => l = []
    | Err e => l = [] /\ e = Gone
    end).
Proof.
  unfold reserve_request, reserved_for. destruct (spend_config cfg access) as [config|].
  2: { apply does_ret. split_and!; [done|by left|]. by intros [? ?]. }
  destruct stream; [by apply does_ret|]. destruct (BMap.get _ _) as [price|]; [|by apply does_ret].
  destruct (gc_redis cfg) as [redis|].
  - apply does_then; [apply does_quiet_step|done|]. intros [v|[n|e]].
    + eapply does_weaken; [apply does_took|]. by intros r l [-> ->].
    + by apply does_ret.
    + destruct (gc_redis_fail_mode cfg); apply does_ret; first [done|by split_and!; [|eauto|intros [? ?]]].
  - eapply (does_bind _ _ (fun r l => l = [] /\ match r with
      | Ok (Ok v) => rv_redis_key v = None | Ok (Err _) => True | Err e => e = Gone end)).
    { apply does_step; [done|]. intros k g. split; [done|]. cbn [fst]. by apply local_reservation. }
    { by intros e l [-> ->]. }
    intros [v|[|n|n]] l [-> Hv]; [|by apply does_ret..].
    eapply does_weaken; [apply does_took|]. by intros r l [-> ->].
Qed.

(** Finishing a reservation: one silent step, then the effect. *)
Definition finishes (done : list Effect -> Prop) (r : result unit Stop) (l : list Effect) : Prop :=
  match r with Ok _ => done l | Err e => l = [] /\ e = Gone end.

Lemma does_finish {A} v (distributed : Z -> Delivery -> Redis -> result A RedisLimitError * Redis) local (e : bool -> Effect) :
  does w (do c := end_reservation cfg v distributed local in emit (e c))
    (finishes (fun l => exists c, sure v c /\ l = [e c])).
Proof.
  eapply (does_bind _ _ (fun r l => l = [] /\ match r with Ok c => sure v c | Err e => e = Gone end)).
  - unfold end_reservation, redis_update, sure. destruct (rv_redis_key v); [destruct (gc_redis cfg)|];
      first [by apply does_step|by apply does_ret].
  - by intros ? l [-> ->].
  - intros c l [-> Hc]. apply does_emit. by exists c.
Qed.

Lemma does_release reservation : does w (release_request cfg reservation) (finishes (given_back reservation)).
Proof.
  unfold release_request. destruct reservation as [v|]; [|by apply does_ret].
  apply (does_finish v _ _ (Released v)).
Qed.

Lemma does_settle reservation body i o :
  does w (settle_request cfg reservation body i o) (finishes (paid reservation (reported_usage body i o))).
Proof.
  unfold settle_request. destruct reservation as [v|]; [|by apply does_ret].
  destruct (reported_usage body i o) as [[input output]|];
    [apply (does_finish v _ _ (Settled v input output))|apply (does_finish v _ _ (Exhausted v))].
Qed.

Lemma does_send url headers body :
  does w (send url headers body) (fun r l => l = [SentUpstream url headers body] /\ match r with Ok x => x = ar_upstream w | Err e => e = Gone end).
Proof.
  unfold send. eapply (does_bind _ _ (fun r l => r = Ok tt /\ l = [SentUpstream url headers body]));
    [by apply does_emit|by intros ? ? [? ?]|]. intros _ l [_ ->].
  eapply (does_bind _ _ (fun r l => r = Ok (ar_upstream w) /\ l = [])); [by apply does_around|by intros ? ? [? ?]|].
  intros x l [[= ->] ->]. by apply does_step.
Qed.

(** An answer the proxy gives itself. *)
Definition own_body (b : GwBody) : bool := match b with GUpstream _ | GStream _ => false | _ => true end.

Lemma does_forward url headers body :
  does w (forward_json from_str cfg url headers body) (fun r l => l = [SentUpstream url headers body] /\
    match r with
    | Ok (Ok (status, v)) => exists ct items, ar_upstream w = UpstreamAnswered status ct items /\
                               read_upstream_json from_str EmptyString items (max_upstream_body_bytes cfg) = Ok v
    | Ok (Err response) => gr_deferred response = false /\ own_body (gr_body response) = true
    | Err e => e = Gone
    end).
Proof.
  unfold forward_json. eapply does_bind; [apply does_send|by intros e l [? ?]|]. intros answer l [-> ->].
  destruct (ar_upstream w) as [|message|status ct items] eqn:Hup; [apply does_ret; done..|].
  eapply (does_bind _ _ (fun r l => l = [] /\ match r with
    | Ok x => x = read_upstream_json from_str EmptyString items (max_upstream_body_bytes cfg) | Err e => e = Gone end)).
  { by apply does_step. }
  { by intros e l [-> ->]. }
  intros x l [-> Hx]. destruct x as [v|[]]; apply does_ret; (split; [done|]); eauto.
Qed.

(** Evidence for the bill of this tenant. *)
Definition billed {R} (W : Wire R) (access : option TenantAccess) (request_id model : string) (l : list Effect) : Prop :=
  l = [] \/ exists a e, access = Some a /\ l = [Billed e] /\ ue_tenant_id e = tx_tenant_id a /\
                        ue_request_id e = request_id /\ ue_requested_model e = model.

Lemma does_bill {R} (W : Wire R) access request_id model body :
  does w (record_terminal_usage cfg W access request_id model body) (fun r l => r = Ok tt /\ billed W access request_id model l).
Proof.
  unfold record_terminal_usage. destruct (gc_tenant_store cfg); [|apply does_ret; split; [done|by left]].
  destruct access as [a|]; [|apply does_ret; split; [done|by left]].
  eapply (does_bind _ _ (fun r l => l = [] /\ match r with
    | Ok e => ue_tenant_id e = tx_tenant_id a /\ ue_request_id e = request_id /\ ue_requested_model e = model
    | Err _ => False end)).
  - apply does_task_step. intros k g. split; [done|]. by destruct (append_usage_event _ _) as [[?|?] ?].
  - by intros e l [_ ?].
  - intros e l [-> He]. apply does_emit. split; [done|]. right. by exists a, e.
Qed.
End parts.

(** ** Streams *)

Definition client_bytes (l : list Effect) : list string := omap (fun e => match e with ToClient b => Some b | _ => None end) l.
Definition pieces (items : list BodyItem) : list string := omap (fun i => match i with Piece b => Some b | _ => None end) items.

(** How a stream of [items] ended after [bytes] went to the client, as the audit puts it, and
    the frame it left. *)
Definition ended_as (status : Z) (items : list BodyItem) (bytes : list string) (outcome : string) (code : Z)
    (frames : list Effect) : Prop :=
  let cut i := exists rest, items = ((Piece <$> bytes) ++ i :: rest)%list in
  (items = Piece <$> bytes /\ outcome = (if is_success status then "completed" else "failed") /\ code = status /\ frames = []) \/
  (cut IdleTimeout /\ outcome = "stream_timeout" /\ code = 504 /\ frames = [BlockFrame "upstream stream idle timeout"]) \/
  (cut ReadError /\ outcome = "stream_error" /\ code = 502 /\ frames = []) \/
  (exists b, cut (Piece b) /\ ((outcome = "blocked" /\ code = 502 /\ exists reason, frames = [BlockFrame reason]) \/
                               (outcome = "client_disconnected" /\ code = 499 /\ frames = []))).

Lemma ended_as_cons status items bytes outcome code frames b :
  ended_as status items bytes outcome code frames ->
  ended_as status (Piece b :: items) (b :: bytes) outcome code frames.
Proof.
  intros [(-> & ?)|[([rest ->] & ?)|[([rest ->] & ?)|(b' & [rest ->] & ?)]]]; [left|right; left|do 2 right; left|do 3 right];
    [done|by split; [exists rest|]..|]. exists b'. by split; [exists rest|].
Qed.

Lemma ended_frames status items bytes outcome code frames :
  ended_as status items bytes outcome code frames -> frames = [] \/ exists reason, frames = [BlockFrame reason].
Proof. intros [(_ & _ & _ & ->)|[(_ & _ & _ & ->)|[(_ & _ & _ & ->)|(b & _ & [(_ & _ & ?)|(_ & _ & ->)])]]]; eauto. Qed.

Section loop.
Context {w : Around}.
Context {St : Type}.
Variable chunk : St -> string -> AgentFirewall -> option (chunk_outcome * list Value * St * AgentFirewall).
Variables (at_end : St -> M unit) (record : Value -> M unit) (finish : string -> Z -> M unit).
Variable fin_ok : string -> Z -> list Effect -> Prop.
Hypothesis does_end : forall st, does w (at_end st) (fun r l => r = Ok tt /\ l = []).
Hypothesis does_record : forall v, does w (record v) (fun r l => r = Ok tt /\ (l = [] \/ exists e, l = [Billed e])).
Hypothesis does_fin : forall outcome status, does w (finish outcome status) (fun r l => r = Ok tt /\ fin_ok outcome status l).

(** An effect before the end: a bill, or bytes for the client. *)
Definition passed_on (e : Effect) : Prop :=
  match e with
  | Billed _ | ToClient _ => True
  | _ => False
  end.

(** Bytes that were inspected in this order from the state [st], each with the agent firewall
    as it was then, and let through. *)
Fixpoint relayed (st : St) (bytes : list string) : Prop :=
  match bytes with
  | [] => True
  | b :: bytes => exists agent recorded st' agent', chunk st b agent = Some (Forward, recorded, st', agent') /\ relayed st' bytes
  end.

Definition streamed (status : Z) (st : St) (items : list BodyItem) (r : result unit Stop) (l : list Effect) : Prop :=
  exists mid fin, l = (mid ++ fin)%list /\ Forall passed_on mid /\ relayed st (client_bytes mid) /\
  client_bytes mid `prefix_of` pieces items /\
  match r with
  | Ok _ => exists outcome code audit tail, fin = (audit ++ tail)%list /\ fin_ok outcome code audit /\
              ended_as status items (client_bytes mid) outcome code tail
  | Err e => e = Panicked /\ fin = []
  end.

Lemma does_records bodies :
  does w (record_each record bodies) (fun r l => r = Ok tt /\ Forall passed_on l /\ client_bytes l = []).
Proof.
  induction bodies as [|v bodies IH]; cbn [record_each]; [by apply does_ret|].
  eapply does_bind; [apply does_record|by intros e l [? ?]|]. intros _ l [_ Hl].
  eapply does_weaken; [exact IH|]. intros r l' (-> & Hp & Hc). split; [done|].
  destruct Hl as [->|[e ->]]; [done|]. by split; [constructor|].
Qed.

Lemma does_inspect st bytes :
  does w (inspect_chunk (chunk st bytes)) (fun r l => l = [] /\ match r with
    | Ok (outcome, recorded, st') => exists agent agent', chunk st bytes agent = Some (outcome, recorded, st', agent')
    | Err e => e = Panicked end).
Proof.
  unfold inspect_chunk. eapply (does_bind _ _ (fun r l => l = [] /\ match r with
    | Ok (Some (outcome, recorded, st')) => exists agent agent', chunk st bytes agent = Some (outcome, recorded, st', agent')
    | Ok None => True
    | Err _ => False end)).
  - apply does_task_step. intros k g. split; [done|].
    destruct (chunk st bytes (gw_agent g)) as [[[[outcome recorded] st'] agent]|] eqn:Hc; cbn; eauto.
  - by intros e l [_ ?].
  - intros [[[outcome recorded] st']|] l [-> Hx]; [by apply does_ret|by apply does_stop].
Qed.

Lemma client_bytes_app l l' : client_bytes (l ++ l') = (client_bytes l ++ client_bytes l')%list.
Proof. apply omap_app. Qed.

Lemma streamed_before status st items mid r l :
  Forall passed_on mid -> client_bytes mid = [] -> streamed status st items r l -> streamed status st items r (mid ++ l)%list.
Proof.
  intros Hm Hc (mid' & fin & -> & Hm' & Hrel & Hp & Hr). exists (mid ++ mid')%list, fin.
  rewrite app_assoc, client_bytes_app, Hc. split_and!; [done|by apply Forall_app|done..].
Qed.

Lemma does_fin_then outcome code status (k : M unit) st items tail :
  does w k (fun r l => r = Ok tt /\ l = tail) -> ended_as status items [] outcome code tail ->
  does w (do _ := finish outcome code in k) (streamed status st items).
Proof.
  intros Hk Ht. eapply does_bind; [apply does_fin|by intros e l [? ?]|]. intros _ l [_ Hf].
  eapply does_weaken; [exact Hk|]. intros r l' [-> ->]. exists [], (l ++ tail)%list. split_and!; [done|done|done|apply prefix_nil|].
  by exists outcome, code, l, tail.
Qed.

Lemma does_fin_last outcome code status st items :
  ended_as status items [] outcome code [] -> does w (finish outcome code) (streamed status st items).
Proof.
  intros He. eapply does_weaken; [apply does_fin|]. intros r l [-> Hf]. exists [], l. split_and!; [done|done|done|apply prefix_nil|].
  exists outcome, code, l, []. rewrite app_nil_r. auto.
Qed.

Lemma does_loop status items st : does w (stream_loop chunk at_end record finish status items st) (streamed status st items).
Proof.
  revert st. induction items as [|[bytes| |] items IH]; intros st; cbn [stream_loop].
  - eapply does_bind; [apply does_end|by intros e l [? ?]|]. intros _ l [_ ->]. apply does_fin_last. by left.
  - eapply does_bind; [apply does_inspect| |].
    { intros e l [-> ->]. exists [], []. split_and!; [done|done|done|apply prefix_nil|done..]. }
    intros [[outcome recorded] st'] l [-> Hc]. cbn [app].
    eapply does_bind; [apply does_records|by intros e l [? ?]|]. intros _ l (_ & Hp & Hb).
    eapply (does_weaken _ (streamed status st (Piece bytes :: items))); [|intros r l'; by apply streamed_before].
    destruct outcome as [|reason].
    + eapply (does_bind _ _ (fun r l => (exists b, r = Ok b) /\ l = [])); [apply does_client_gone; eauto|by intros ? ? [[? ?] ?]|].
      intros gone ? [_ ->]. cbn [app]. destruct gone.
      { apply does_fin_last. do 3 right. exists bytes. split; [by exists items|by right]. }
      eapply (does_bind _ _ (fun r l => r = Ok tt /\ l = [ToClient bytes])); [by apply does_emit|by intros ? ? [? ?]|].
      intros _ ? [_ ->]. eapply does_weaken; [apply IH|]. intros r l' (mid & fin & -> & Hm & Hrel & Hpre & Hr).
      exists (ToClient bytes :: mid), fin. split_and!; [done|by constructor| |by apply prefix_cons|].
      { destruct Hc as (agent & agent' & Hc). cbn. eauto 10. }
      destruct r; [|done]. destruct Hr as (o & c & audit & tail & ? & ? & ?). exists o, c, audit, tail.
      split_and!; [done..|]. by apply ended_as_cons.
    + apply (does_fin_then _ _ _ _ _ _ [BlockFrame reason]); [by apply does_emit|]. do 3 right. exists bytes.
      split; [by exists items|]. left. eauto.
  - apply does_fin_last. do 2 right. left. by split; [exists items|].
  - apply (does_fin_then _ _ _ _ _ _ [BlockFrame "upstream stream idle timeout"]); [by apply does_emit|]. right. left.
    by split; [exists items|].
Qed.
End loop.

(** ** A handler *)

Section handler.
Variable w : Around.
Context `{UnicodeTables} `{RegexEngine} `{LiteralIter} `{TextCrates}.
Context `{Sha256, JsonCodec TenantModelPolicy}.
Variable from_str : string -> option Value.
Variable to_string : Value -> string.
Variable classifier : option (string -> option (list (string * f32))).
Variable cfg : GatewayConfig.

Definition finished_audit (audit : option TenantAuditContext) (outcome : string) (status : Z) (l : list Effect) : Prop :=
  match audit with
  | None => l = []
  | Some context => left_audit cfg context outcome status l
  end.

Lemma does_finish_stream audit outcome status :
  does w (finish_tenant_stream cfg audit outcome status) (fun r l => r = Ok tt /\ finished_audit audit outcome status l).
Proof. destruct audit as [context|]; [apply does_audit|by apply does_ret]. Qed.

(** The chunks a stream let through, by the loop that read it. *)
Definition stream_effects {R} (W : Wire R) (audit : option TenantAuditContext) (request_id : string) (request : R)
    (status : Z) (items : list BodyItem) (r : result unit Stop) (l : list Effect) : Prop :=
  let ctx := stream_context W request_id request status in
  match wi_protocol W with
  | Some protocol => streamed (fun st bytes agent => proxy_chunk (gc_proxy cfg) (gc_firewall cfg) from_str ctx st agent bytes)
                (finished_audit audit) status (stream_start (Some protocol)) items r l
  | None => streamed (fun st bytes agent => responses_chunk (gc_proxy cfg) (gc_firewall cfg) from_str to_string ctx st agent bytes)
              (finished_audit audit) status responses_start items r l
  end.

(** After the request was sent: the answer to a stream. *)
Definition stream_rest {R} (W : Wire R) (audit : option TenantAuditContext) (request_id : string) (request : R)
    (r : result GwResponse Stop) (rest : list Effect) : Prop :=
  (rest = [] /\ match r with
                | Ok _ => False
                | Err (ReplyWith response) => gr_deferred response = false /\ own_body (gr_body response) = true
                | Err e => e = Gone end) \/
  exists status ct items rt l, ar_upstream w = UpstreamAnswered status ct items /\
    r = Ok (mkGwResponse status (GStream ct) None (bool_decide (is_Some audit))) /\
    stream_effects W audit request_id request status items rt l /\
    rest = (l ++ match rt with Ok _ => [] | Err _ => [TaskPanicked] end)%list.

(** Both kinds of stream, over the loop each runs. *)
Lemma does_streaming {R} (W : Wire R) audit request_id headers request (task : Z -> list BodyItem -> M unit) :
  (forall status items, does w (task status items) (stream_effects W audit request_id request status items)) ->
  does w (streaming_response W audit headers request task) (fun r l => exists rest,
    l = SentUpstream (wi_base W +:+ wi_path W) headers (wi_upstream W request) :: rest /\
    stream_rest W audit request_id request r rest).
Proof.
  intros Htask. unfold streaming_response. eapply does_bind; [apply does_send| |].
  { intros e l [-> ->]. exists []. split; [done|]. by left. }
  intros answer l [-> ->]. destruct (ar_upstream w) as [|message|status ct items] eqn:Hup;
    [apply does_stop; exists []; split; [done|]; by left..|].
  eapply (does_bind _ _ (fun r l => r = Ok tt /\ exists rt l', stream_effects W audit request_id request status items rt l' /\
    l = (l' ++ match rt with Ok _ => [] | Err _ => [TaskPanicked] end)%list)).
  - apply (does_spawned _ (stream_effects W audit request_id request status items)); [apply Htask|..].
    + intros l Hl. split; [done|]. exists (Ok tt), l. by rewrite app_nil_r.
    + intros e l Hl. split; [done|]. by exists (Err e), l.
  - by intros e l [? _].
  - intros [] l [_ (rt & l' & Hl & ->)]. apply does_ret. eexists. split; [by rewrite app_nil_r|]. right.
    by exists status, ct, items, rt, l'.
Qed.

Lemma does_stream_bill {R} (W : Wire R) access request_id model v :
  does w (record_terminal_usage cfg W access request_id model v) (fun r l => r = Ok tt /\ (l = [] \/ exists e, l = [Billed e])).
Proof. eapply does_weaken; [apply does_bill|]. intros r l [-> [->|(a & e & _ & -> & _)]]; eauto. Qed.

Lemma does_proxy_stream {R} (W : Wire R) access audit request_id headers request :
  does w match wi_protocol W with
         | Some protocol => proxy_stream from_str cfg W protocol access audit request_id headers request
         | None => proxy_responses_stream from_str to_string cfg W access audit request_id headers request
         end (fun r l => exists rest,
    l = SentUpstream (wi_base W +:+ wi_path W) headers (wi_upstream W request) :: rest /\
    stream_rest W audit request_id request r rest).
Proof.
  destruct (wi_protocol W) as [protocol|] eqn:Hp; apply does_streaming; intros status items; unfold stream_effects; rewrite Hp;
    (apply does_loop; [|intros v; apply does_stream_bill|apply does_finish_stream]); intros st;
    [by apply does_task_step|by apply does_ret].
Qed.

(** After the request was sent: the answer as a whole. *)
Definition buffered_rest {R} (W : Wire R) (access : option TenantAccess) (request_id : string) (request : R)
    (reservation : option Reservation) (r : result GwResponse Stop) (rest : list Effect) : Prop :=
  (rest = [] /\ r = Err Gone) \/
  (given_back reservation rest /\ exists response, r = Ok response /\ gr_deferred response = false /\
     (own_body (gr_body response) = true \/ (exists status ct items v, status <> 200 /\ response = plain status (GUpstream v) /\
        ar_upstream w = UpstreamAnswered status ct items /\
        read_upstream_json from_str EmptyString items (max_upstream_body_bytes cfg) = Ok v))) \/
  exists ct items body fin bill, ar_upstream w = UpstreamAnswered 200 ct items /\
    read_upstream_json from_str EmptyString items (max_upstream_body_bytes cfg) = Ok body /\
    rest = (fin ++ bill)%list /\ paid reservation (reported_usage body (wi_input_field W) (wi_output_field W)) fin /\
    billed W access request_id (wi_model W request) bill /\
    match r with
    | Err e => e = Gone \/ e = Panicked
    | Ok response => gr_deferred response = false /\
        (own_body (gr_body response) = true \/
         response = plain 200 (GUpstream body) /\
         (exists agent agent', check_response (gc_proxy cfg) (gc_firewall cfg) agent request_id (wi_events W request body)
                               = Some (None, agent')) /\
         forall categories, moderation_check (gc_moderation cfg) classifier (output_text (wi_events W request body))
                            <> Harmful categories ModerationBlock)
    end.

Definition own_errors {R} (W : Wire R) : Prop := forall m, own_body (wi_error W m) = true.

Lemma does_inspect_response request_id events :
  does w (inspect_response cfg request_id events) (fun r l => l = [] /\ match r with
    | Ok reason => exists agent agent', check_response (gc_proxy cfg) (gc_firewall cfg) agent request_id events = Some (reason, agent')
    | Err e => e = Gone \/ e = Panicked end).
Proof.
  unfold inspect_response. eapply (does_bind _ _ (fun r l => l = [] /\ match r with
    | Ok (Some reason) => exists agent agent', check_response (gc_proxy cfg) (gc_firewall cfg) agent request_id events = Some (reason, agent')
    | Ok None => True
    | Err e => e = Gone end)).
  - apply does_step; [done|]. intros k g. split; [done|].
    destruct (check_response _ _ (gw_agent g) _ _) as [[reason agent]|] eqn:Hc; cbn; eauto.
  - intros e l [-> ->]. auto.
  - intros [reason|] l [-> Hx]; [by apply does_ret|apply does_stop; auto].
Qed.

Lemma does_answer {R} (W : Wire R) access request_id request reservation ct items body :
  own_errors W -> ar_upstream w = UpstreamAnswered 200 ct items ->
  read_upstream_json from_str EmptyString items (max_upstream_body_bytes cfg) = Ok body ->
  does w (answer_client classifier cfg W access request_id request reservation body)
    (buffered_rest W access request_id request reservation).
Proof.
  intros Hown Hup Hread. unfold answer_client. eapply does_bind; [apply does_settle| |].
  { intros e l [-> ->]. by left. }
  intros [] l Hl. cbn in Hl. eapply does_bind; [apply does_bill|by intros e l' [? ?]|]. intros _ bill [_ Hb].
  eapply does_bind; [apply does_inspect_response| |].
  { intros e l' [-> He]. right. right. exists ct, items, body, l, bill. rewrite app_nil_r. by split_and!. }
  intros refused l' [-> Hc]. cbn [app].
  assert (Hend : forall response, gr_deferred response = false ->
            (own_body (gr_body response) = true \/ (response = plain 200 (GUpstream body) /\ refused = None /\
               forall categories, moderation_check (gc_moderation cfg) classifier (output_text (wi_events W request body))
                                  <> Harmful categories ModerationBlock)) ->
            does w (ret response) (fun r l'' => buffered_rest W access request_id request reservation r (l ++ bill ++ l'')%list)).
  { intros response Hd Hr. apply does_ret. right. right. exists ct, items, body, l, bill. rewrite app_nil_r. split_and!; [done..|].
    destruct Hr as [Hr|(Hr & -> & Hm)]; [by left|right; auto]. }
  destruct refused as [reason|]; [apply Hend; [done|left; apply Hown]|].
  destruct (moderation_check _ _ _) as [|categories []] eqn:Hm; apply Hend; cbn; auto; right; split_and!; done || (intros ?; congruence).
Qed.

(** A handler that answers by itself and has no effect. *)
Definition by_itself (r : result GwResponse Stop) (l : list Effect) : Prop :=
  l = [] /\ match r with
            | Ok response => gr_deferred response = false /\ own_body (gr_body response) = true
            | Err e => e = Gone \/ e = Panicked end.

(** A handler that sends the masked request, after model policy, text and spend were checked. *)
Definition forwarded {R} (W : Wire R) (access : option TenantAccess) (audit : option TenantAuditContext)
    (headers : HeaderMap) (request : R) (r : result GwResponse Stop) (l : list Effect) : Prop :=
  exists d reservation rest,
    tenant_model_policy_response access (wi_model W request) (wi_anthropic W) = None /\
    wi_decide W request = Some d /\ id_block_reason d = None /\
    reserved_for cfg access reservation /\
    l = (held reservation ++ SentUpstream (wi_base W +:+ wi_path W) (forward_headers headers (wi_headers W) (wi_fallback W))
                               (wi_upstream W (id_request d)) :: rest)%list /\
    if wi_stream W (id_request d) then reservation = None /\ stream_rest W audit (ar_request_id w) (id_request d) r rest
    else buffered_rest W access (ar_request_id w) (id_request d) reservation r rest.

Definition served {R} (W : Wire R) (access : option TenantAccess) (audit : option TenantAuditContext)
    (headers : HeaderMap) (request : R) (r : result GwResponse Stop) (l : list Effect) : Prop :=
  by_itself r l \/ forwarded W access audit headers request r l.

Lemma does_serve {R} (W : Wire R) access audit headers request :
  own_errors W ->
  does w (serve from_str to_string classifier cfg W access audit headers request) (served W access audit headers request).
Proof.
  intros Hown. unfold serve.
  eapply (does_bind _ _ (fun r l => r = Ok (ar_request_id w) /\ l = [])); [by apply does_around|by intros ? ? [? ?]|].
  intros request_id l [[= ->] ->]. cbn [app].
  destruct (tenant_model_policy_response _ _ _) as [response|] eqn:Hpol.
  { apply does_ret. left. split; [done|]. unfold tenant_model_policy_response in Hpol.
    repeat case_match; simplify_eq. unfold model_refusal, plain. cbn. by destruct (wi_anthropic W). }
  eapply (does_bind _ _ (fun r l => l = [] /\ match r with Ok d => wi_decide W request = Some d | Err e => e = Panicked end)).
  { apply does_of_option; [by intros d ->|done]. }
  { intros e l [-> ->]. left. split; auto. }
  intros d l [-> Hd]. cbn [app]. destruct (id_block_reason d) as [reason|] eqn:Hb.
  { apply does_ret. left. split; [done|]. split; [done|apply Hown]. }
  eapply does_bind; [apply does_reserve| |].
  { intros e l [-> ->]. left. split; auto. }
  intros [reservation|e] l Hl; [|subst; apply does_ret; left; split; [done|];
    unfold spend_error_response; destruct e; cbn; by destruct (wi_anthropic W)].
  destruct Hl as (-> & Hspend & Hs).
  assert (Hst : wi_stream W (id_request d) = true -> reservation = None).
  { destruct reservation as [v|]; [|done]. by rewrite Hs by eauto. }
  assert (Hin : forall rest r, (if wi_stream W (id_request d)
              then reservation = None /\ stream_rest W audit (ar_request_id w) (id_request d) r rest
              else buffered_rest W access (ar_request_id w) (id_request d) reservation r rest) ->
            served W access audit headers request r
              (held reservation ++ SentUpstream (wi_base W +:+ wi_path W) (forward_headers headers (wi_headers W) (wi_fallback W))
                 (wi_upstream W (id_request d)) :: rest)).
  { intros rest r Hr. right. by exists d, reservation, rest. }
  cbn zeta. destruct (wi_stream W (id_request d)) eqn:Hstream.
  - eapply does_weaken; [apply does_proxy_stream|]. intros r l (rest & -> & Hr). apply Hin. auto.
  - eapply does_bind; [apply does_forward| |].
    { intros e l [-> ->]. apply Hin. by left. }
    intros answer l [-> Ha]. destruct answer as [[status body]|response].
    + destruct Ha as (ct & items & Hup & Hread). destruct (Z.eqb_spec status 200) as [->|Hne]; cbn [negb].
      * eapply does_weaken; [by eapply does_answer|]. intros r l Hr. by apply Hin.
      * eapply does_bind; [apply does_release| |].
        { intros e l [-> ->]. apply Hin. by left. }
        intros [] l Hl'. cbn in Hl'. subst. apply does_ret. rewrite app_nil_r. apply Hin. right. left.
        split; [done|]. eexists. split; [done|]. split; [done|]. right. cbn. eauto 10.
    + eapply does_bind; [apply does_release| |].
      { intros e l [-> ->]. apply Hin. by left. }
      intros [] l Hl'. cbn in Hl'. subst. apply does_ret. rewrite app_nil_r. apply Hin. right. left.
      split; [done|]. destruct Ha. exists response. auto.
Qed.

Lemma chat_errors : own_errors (chat_wire from_str cfg).
Proof. done. Qed.
Lemma responses_errors : own_errors (responses_wire from_str cfg).
Proof. done. Qed.
Lemma anthropic_errors : own_errors (anthropic_wire cfg).
Proof. done. Qed.
End handler.

(** ** The middleware *)

Section whole.
Variable w : Around.
Context `{UnicodeTables} `{RegexEngine} `{LiteralIter} `{TextCrates}.
Context `{Sha256, JsonCodec TenantModelPolicy}.
Variable from_str : string -> option Value.
Variable to_string : Value -> string.
Variable classifier : option (string -> option (list (string * f32))).
Variable cfg : GatewayConfig.

(** What authentication found, at the steps it looked: the token's tenant with its limits
    and model policy, or the shared token. *)
Definition known (s : Run) (presented : option string) (access : option TenantAccess) : Prop :=
  let k := ru_step s in
  let g0 := ar_others w k (ru_gw s) in let g1 := ar_others w (S k) g0 in let g2 := ar_others w (S (S k)) g1 in
  if gc_tenant_store cfg then
    exists tenant limits policy, access = Some (mkTenantAccess (tn_id tenant) limits policy) /\
      (authenticate_bearer (ar_unix w k) presented (gw_db g0)).1 = Ok (Some tenant) /\
      (limits_for (tn_id tenant) (gw_db g1)).1 = Ok limits /\ (model_policy_for (tn_id tenant) (gw_db g2)).1 = Ok policy
  else access = None /\ (gc_proxy_auth_enabled cfg = true ->
    exists expected, gc_proxy_auth_token cfg = Some expected /\ presented = Some ("Bearer " +:+ expected)).

Lemma set_db_same g : set_db (gw_db g) g = g.
Proof. by destruct g. Qed.

Lemma authorized_spec expected presented :
  is_authorized expected presented = true -> presented = Some ("Bearer " +:+ expected).
Proof.
  unfold is_authorized. destruct presented as [p|]; cbn [mbind option_bind]; [|done].
  destruct (Str.strip_prefix "Bearer " p) as [t|] eqn:E; [|done]. intros ->%bool_decide_eq_true.
  by apply Str.strip_prefix_spec in E as ->.
Qed.

(** A store operation that only reads, as a step. *)
Lemma store_read {A} (op : Z -> Op A) s r s' :
  (forall now db, (op now db).2 = db) -> store op w s = (r, s') ->
  r = Err Gone /\ ru_effects s' = ru_effects s \/
  r = Ok (op (ar_unix w (ru_step s)) (gw_db (ar_others w (ru_step s) (ru_gw s)))).1 /\
  s' = mkRun (S (ru_step s)) (ar_others w (ru_step s) (ru_gw s)) (ru_effects s).
Proof.
  intros Hro. unfold store, step. destruct (ar_dropped w (ru_step s)); [|intros [= <- <-]; by left..].
  unfold task_step. cbn. intros [= <- <-]. right. by rewrite Hro, set_db_same.
Qed.

Lemma caller_spec presented s r s1 :
  caller cfg presented w s = (r, s1) ->
  ru_effects s1 = ru_effects s /\
  match r with
  | Ok access => known s presented access
  | Err (ReplyWith response) => gr_deferred response = false /\ own_body (gr_body response) = true
  | Err e => e = Gone
  end.
Proof.
  unfold caller, known. destruct (gc_tenant_store cfg); rewrite ?orb_true_r, ?orb_false_r; cbn [negb].
  2: { destruct (gc_proxy_auth_enabled cfg); cbn [negb]; [|intros [= <- <-]; by split; [|split]].
       destruct (gc_proxy_auth_token cfg) as [expected|]; [|intros [= <- <-]; by split].
       destruct (is_authorized expected presented) eqn:E; intros [= <- <-]; [|by split].
       split; [done|]. split; [done|]. intros _. exists expected. split; [done|]. by apply authorized_spec. }
  unfold authenticate_access, bind.
  destruct (store (fun now => authenticate_bearer now presented) w s) as [ri si] eqn:Hi.
  apply store_read in Hi; [|done]. destruct Hi as [[-> He]|[-> ->]]; [by intros [= <- <-]|].
  destruct (authenticate_bearer _ _ _).1 as [[tenant|]|] eqn:Ht; [|by intros [= <- <-]..].
  destruct (store (fun _ => limits_for (tn_id tenant)) w _) as [rl sl] eqn:Hl.
  apply store_read in Hl; [|done]. destruct Hl as [[-> He]|[-> ->]]; [by intros [= <- <-]|]. cbn [ru_step ru_gw ru_effects] in *.
  destruct (limits_for _ _).1 as [limits|] eqn:Hlim; [|by intros [= <- <-]].
  destruct (store (fun _ => model_policy_for (tn_id tenant)) w _) as [rp sp] eqn:Hp.
  apply store_read in Hp; [|done]. destruct Hp as [[-> He]|[-> ->]]; [by intros [= <- <-]|]. cbn [ru_step ru_gw ru_effects] in *.
  destruct (model_policy_for _ _).1 as [policy|] eqn:Hpol; [|by intros [= <- <-]].
  intros [= <- <-]. split; [done|]. by exists tenant, limits, policy.
Qed.

Lemma does_check_rate client config : does w (check_rate_limit cfg client config) quiet.
Proof.
  unfold check_rate_limit. destruct (gc_redis cfg); [|apply does_quiet_step].
  apply does_then; [apply does_quiet_step|done|]. intros [d|e]; [by apply does_ret|].
  destruct (gc_redis_fail_mode cfg); by apply does_ret.
Qed.

Lemma does_rate presented access : does w (rate_decision cfg presented access) quiet.
Proof.
  unfold rate_decision. apply does_then; [|done|].
  - destruct (rl_enabled _); [apply does_check_rate|by apply does_ret].
  - intros [[|n]|]; [|by apply does_ret..].
    destruct (access ≫= _) as [[tenant limit]|]; [apply does_check_rate|by apply does_ret].
Qed.

(** The entry of the middleware for a response it saw the end of. *)
Definition audited_as (access : option TenantAccess) (path : string) (response : GwResponse) (l : list Effect) : Prop :=
  if gr_deferred response then l = []
  else match access with
       | None => l = []
       | Some a => exists started, left_audit cfg (mkAuditContext (tx_tenant_id a) path started)
                     (outcome_for_status (gr_status response)) (gr_status response) l
       end.

Lemma does_audit_response access path started response :
  does w (audit_tenant_response cfg access path started response) (fun r l => r = Ok response /\ audited_as access path response l).
Proof.
  unfold audit_tenant_response, audited_as. destruct (gr_deferred response); [by apply does_ret|].
  destruct access as [a|]; [|by apply does_ret].
  eapply does_bind; [apply does_audit|by intros e l [? ?]|]. intros _ l [_ Hx].
  apply does_ret. split; [done|]. exists started. by rewrite app_nil_r.
Qed.

Definition context_of (path : string) (started : Z) (access : option TenantAccess) : option TenantAuditContext :=
  (fun a => mkAuditContext (tx_tenant_id a) path started) <$> access.

Definition routed (request : ModelRequest) (access : option TenantAccess) (audit : option TenantAuditContext)
    (r : result GwResponse Stop) (l : list Effect) : Prop :=
  match mr_body request with
  | ChatCompletions (Ok q) => served w from_str to_string classifier cfg (chat_wire from_str cfg) access audit (mr_headers request) q r l
  | Responses (Ok q) => served w from_str to_string classifier cfg (responses_wire from_str cfg) access audit (mr_headers request) q r l
  | Messages (Ok q) => served w from_str to_string classifier cfg (anthropic_wire cfg) access audit (mr_headers request) q r l
  | ChatCompletions (Err status) | Responses (Err status) | Messages (Err status) => r = Ok (plain status GRejection) /\ l = []
  end.

Lemma does_route request access audit :
  does w (route from_str to_string classifier cfg request access audit) (routed request access audit).
Proof.
  unfold route, routed. destruct (mr_body request) as [[q|]|[q|]|[q|]]; try by apply does_ret.
  - by apply (does_serve w from_str to_string classifier cfg (chat_wire from_str cfg)).
  - by apply (does_serve w from_str to_string classifier cfg (responses_wire from_str cfg)).
  - by apply (does_serve w from_str to_string classifier cfg (anthropic_wire cfg)).
Qed.

(** The end of an admitted request: the handler, then the audit. *)
Definition completed (request : ModelRequest) (access : option TenantAccess) (r : result GwResponse Stop) (l : list Effect) : Prop :=
  exists started rh lh, routed request access (context_of (mr_path request) started access) rh lh /\
  match rh with
  | Ok response | Err (ReplyWith response) =>
      r = Ok response /\ exists la, l = (lh ++ la)%list /\ audited_as access (mr_path request) response la
  | Err e => r = Err e /\ l = lh
  end.

Definition turned_away (request : ModelRequest) (access : option TenantAccess) (r : result GwResponse Stop) (l : list Effect) : Prop :=
  (r = Err Gone /\ l = []) \/
  exists response, r = Ok response /\ gr_deferred response = false /\ own_body (gr_body response) = true /\
    audited_as access (mr_path request) response l.

(** An answer the middleware gives before it knows the caller, or none. *)
Definition refused_early (r : result GwResponse Stop) : Prop :=
  match r with Ok response => gr_deferred response = false /\ own_body (gr_body response) = true | Err e => e = Gone end.

(** All that can come of a request that arrives in state [s]. *)
Definition handled (request : ModelRequest) (s : Run) (r : result GwResponse Stop) (l : list Effect) : Prop :=
  let presented := presented_token (mr_headers request) in
  ((exists e s1, caller cfg presented w s = (Err e, s1)) /\ l = [] /\ refused_early r) \/
  exists access s1, caller cfg presented w s = (Ok access, s1) /\ known s presented access /\
    (turned_away request access r l \/
     (rate_decision cfg presented access w s1).1 = Ok (Some Allowed) /\ completed request access r l).

(** The middleware once the limits let the request through. *)
Lemma does_admitted request access started :
  does w (do response := caught (route from_str to_string classifier cfg request access
                                 (context_of (mr_path request) started access)) in
        audit_tenant_response cfg access (mr_path request) started response)
    (fun r l => completed request access r l /\ forall x, r <> Err (ReplyWith x)).
Proof.
  eapply (does_bind _ _ (fun r l => exists rh, routed request access (context_of (mr_path request) started access) rh l /\
    match rh with Ok x | Err (ReplyWith x) => r = Ok x | Err e => r = Err e end)).
  - eapply does_caught; [apply does_route|..].
    + intros r l Hr. by exists (Ok r).
    + intros r l Hr. by exists (Err (ReplyWith r)).
    + intros e l He Hr. exists (Err e). split; [done|]. destruct e as [x| |]; [by destruct (He x)|done..].
  - intros e l (rh & Hr & He). split; [exists started, rh, l; split; [done|]|];
      destruct rh as [x|[x| |]]; simplify_eq; done.
  - intros response l (rh & Hr & He). eapply does_weaken; [apply does_audit_response|]. intros r la [-> Ha].
    split; [|done]. exists started, rh, l. split; [done|]. destruct rh as [x|[x| |]]; simplify_eq; eauto.
Qed.

(** The middleware when it turns the request away itself. *)
Lemma does_away request access started response :
  gr_deferred response = false -> own_body (gr_body response) = true ->
  does w (audit_tenant_response cfg access (mr_path request) started response)
    (fun r l => turned_away request access r l /\ forall x, r <> Err (ReplyWith x)).
Proof.
  intros Hd Ho. eapply does_weaken; [apply does_audit_response|]. intros r l [-> Ha]. split; [|done].
  right. by exists response.
Qed.

(** [caught] changes nothing where no reply is thrown. *)
Lemma does_uncaught (m : M GwResponse) (P : _ -> _ -> Prop) :
  does w m (fun r l => P r l /\ forall x, r <> Err (ReplyWith x)) ->
  forall s, exists l, ru_effects (caught m w s).2 = (ru_effects s ++ l)%list /\ P (caught m w s).1 l.
Proof.
  intros Hm. apply (does_caught _ _ P Hm); [by intros ? ? [? _]| |by intros ? ? _ [? _]].
  intros r l [_ Hx]. by destruct (Hx r).
Qed.

Lemma gateway_cases request s r s' :
  gateway from_str to_string classifier cfg request w s = (r, s') ->
  exists l, ru_effects s' = (ru_effects s ++ l)%list /\ handled request s r l.
Proof.
  unfold gateway, require_proxy_token. unfold caught at 1, bind at 1, instant.
  set (started := ar_instant w (ru_step s)). unfold bind at 1.
  destruct (caller cfg _ w s) as [rc s1] eqn:Hc. pose proof (caller_spec _ _ _ _ Hc) as [He Hk].
  destruct rc as [access|e].
  2: { destruct e as [response| |]; intros [= <- <-]; [exists []; rewrite app_nil_r; split; [done|]; left; eauto..|done]. }
  unfold bind at 1. destruct (does_rate (presented_token (mr_headers request)) access s1) as (lr & Hlr & Hq).
  destruct (rate_decision cfg _ access w s1) as [rd s2] eqn:Hd. cbn [fst snd] in Hlr, Hq. destruct Hq as [-> Hrd].
  rewrite app_nil_r, He in Hlr.
  assert (Hknown : forall l, turned_away request access r l \/ rd = Ok (Some Allowed) /\ completed request access r l ->
    handled request s r l).
  { intros l Hl. right. exists access, s1. rewrite Hd. auto. }
  assert (Hrun : forall m : M GwResponse,
    does w m (fun r l => (turned_away request access r l \/ rd = Ok (Some Allowed) /\ completed request access r l) /\
                       forall x, r <> Err (ReplyWith x)) ->
    caught m w s2 = (r, s') -> exists l, ru_effects s' = (ru_effects s ++ l)%list /\ handled request s r l).
  { intros m Hm Hrun. destruct (does_uncaught _ _ Hm s2) as (l & Hl & HP). rewrite Hrun in Hl, HP. exists l.
    cbn [fst snd] in Hl, HP. rewrite Hl, Hlr. auto. }
  destruct rd as [[[|n]|]|e].
  - intros Hg. eapply Hrun; [|exact Hg]. eapply does_weaken; [apply does_admitted|]. intros r0 l [? ?]; auto.
  - intros Hg. eapply Hrun; [|exact Hg]. eapply does_weaken; [by apply does_away|]. intros r0 l [? ?]; auto.
  - intros Hg. eapply Hrun; [|exact Hg]. eapply does_weaken; [by apply does_away|]. intros r0 l [? ?]; auto.
  - subst e. intros [= <- <-]. exists []. rewrite app_nil_r. split; [done|]. apply Hknown. left. by left.
Qed.
End whole.
