(* ===== verification/GatewayClaims.v ===== *)
(** The properties of a model request as a whole, read off [GatewayProps.gateway_cases]: what
    had to hold before anything was sent upstream, how a spend reservation ends, what is
    audited, and what of the provider's answer reaches the client. *)
From S2P Require Import Prelude BTree Platform Net F32 Json CoreTypes Scoring CorePolicy Detectors Normalize.
From S2P Require Import Firewall Adapter Event Taint Action Egress AgentPolicy Engine Grant RateLimit Spend.
From S2P Require Import TenantDb TenantDirectory TenantPolicy TenantUsage PortalTypes RedisLimits.
From S2P Require Import ProxyEvents ProxyInput AgentScan Sse Capability ProxyStream Gateway GatewayProps.
From Stdlib Require Import String Ascii.
Local Open Scope string_scope.
Local Open Scope Z_scope.
#[local] Abbreviation length := List.length.

Section claims.
Context `{UnicodeTables} `{RegexEngine} `{LiteralIter} `{TextCrates}.
Context `{Sha256, JsonCodec TenantModelPolicy}.
Variable from_str : string -> option Value.
Variable to_string : Value -> string.
Variable classifier : option (string -> option (list (string * f32))).
Variable cfg : GatewayConfig.

(** A statement about the request on the wire it arrived by. *)
Definition on_wire (request : ModelRequest) (P : forall R, Wire R -> R -> Prop) : Prop :=
  match mr_body request with
  | ChatCompletions (Ok q) => P _ (chat_wire from_str cfg) q
  | Responses (Ok q) => P _ (responses_wire from_str cfg) q
  | Messages (Ok q) => P _ (anthropic_wire cfg) q
  | _ => False
  end.

Lemma on_wire_mono request (P Q : forall R, Wire R -> R -> Prop) :
  (forall R (W : Wire R) q, P R W q -> Q R W q) -> on_wire request P -> on_wire request Q.
Proof. unfold on_wire. repeat case_match; auto. Qed.

(** ** Masking keeps the model *)

Definition keeps {R} (W : Wire R) : Prop :=
  forall q d, wi_decide W q = Some d -> wi_model W (id_request d) = wi_model W q /\ wi_stream W (id_request d) = wi_stream W q.

Lemma decision_put {A B} (put : B -> A) (f : scan B) b acc d :
  decision_of <$> scan_via put f b acc = Some d -> exists b', id_request d = put b'.
Proof.
  unfold scan_via. destruct (f b acc) as [[[b' r] acc']|]; [|done]. cbn. intros [= <-]. by exists b'.
Qed.

Lemma chat_keeps : keeps (chat_wire from_str cfg).
Proof. intros q d Hd. apply decision_put in Hd as [b ->]. done. Qed.

Lemma responses_keeps : keeps (responses_wire from_str cfg).
Proof.
  intros q d. unfold responses_wire. cbn [wi_decide]. unfold decide_input_responses, scan_responses.
  destruct (scan_option _ _ _) as [[[i [reason|]] acc]|]; cbn [mbind option_bind]; [by intros [= <-]| |done].
  intros Hd. apply decision_put in Hd as [b ->]. done.
Qed.

Lemma anthropic_keeps : keeps (anthropic_wire cfg).
Proof.
  intros q d. unfold anthropic_wire. cbn [wi_decide]. unfold decide_input_anthropic, scan_anthropic.
  destruct (scan_option _ _ _) as [[[i [reason|]] acc]|]; cbn [mbind option_bind]; [by intros [= <-]| |done].
  intros Hd. apply decision_put in Hd as [b ->]. done.
Qed.

(** ** Headers *)

Lemma forwarded_header headers names fallback name value :
  (name, value) ∈ forward_headers headers names fallback ->
  (name ∈ names /\ header_get name headers = Some value) \/
  (name = "authorization" /\ header_get "authorization" headers = None /\ exists key, fallback = Some key /\ value = "Bearer " +:+ key).
Proof.
  unfold forward_headers. rewrite elem_of_app. intros [Hin|Hin].
  - left. apply list_elem_of_omap in Hin as (n & Hn & Hv). destruct (header_get n headers) eqn:E; simplify_eq/=; auto.
  - right. destruct (header_get "authorization" headers) eqn:E; [by apply elem_of_nil in Hin|].
    destruct fallback as [key|]; [|by apply elem_of_nil in Hin]. apply list_elem_of_singleton in Hin as [= -> ->]. eauto.
Qed.

(** The headers of the caller that a provider may see, and the deployment's own key. *)
Definition may_send (headers : HeaderMap) (sent : list (string * string)) : Prop :=
  forall name value, (name, value) ∈ sent ->
    name ∈ (OPENAI_HEADERS ++ ANTHROPIC_HEADERS)%list /\
    (header_get name headers = Some value \/
     exists key, gc_openai_api_key cfg = Some key /\ value = "Bearer " +:+ key).

Lemma forward_may_send headers names fallback :
  names ⊆ (OPENAI_HEADERS ++ ANTHROPIC_HEADERS)%list -> (fallback = None \/ fallback = gc_openai_api_key cfg) ->
  may_send headers (forward_headers headers names fallback).
Proof.
  intros Hn Hf name value [[Hin Hg]|(-> & _ & key & Hk & ->)]%forwarded_header; [split; [by apply Hn|by left]|].
  split; [by left|]. right. exists key. destruct Hf; simplify_eq; auto.
Qed.

(** ** What is sent *)

(** The request as it left: judged, masked and of the model the tenant may use. *)
Definition sent_as {R} (access : option TenantAccess) (url : string) (body : UpstreamBody) (W : Wire R) (q : R) : Prop :=
  exists d, wi_decide W q = Some d /\ id_block_reason d = None /\
    url = wi_base W +:+ wi_path W /\ body = wi_upstream W (id_request d) /\
    (forall policy, access ≫= tx_model_policy = Some policy -> model_policy_permits policy (wi_model W (id_request d)) = true).

(** ** The effects after sending *)

Lemma kept_effects (f : Effect -> bool) l : Forall (fun e => f e = true) l -> List.filter f l = l.
Proof. induction 1 as [|e l He _ IH]; [done|]. cbn. by rewrite He, IH. Qed.

Lemma no_effects (f : Effect -> bool) l : Forall (fun e => f e = false) l -> List.filter f l = [].
Proof. induction 1 as [|e l He _ IH]; [done|]. cbn. by rewrite He. Qed.

(** A kind of effect that neither a bill nor bytes for the client are. *)
Definition apart (f : Effect -> bool) : Prop :=
  (forall e, f (Billed e) = false) /\ (forall b, f (ToClient b) = false) /\ (forall r, f (BlockFrame r) = false) /\
  f TaskPanicked = false.

Definition frame_effect (e : Effect) : bool := match e with BlockFrame _ => true | _ => false end.

(** The end of a stream in its effects [l]: the audit [x], with the outcome of how the stream ended. *)
Definition stream_end_in (audit : option TenantAuditContext) (status : Z) (items : list BodyItem) (l x : list Effect) : Prop :=
  exists outcome code, finished_audit cfg audit outcome code x /\
    ended_as status items (client_bytes l) outcome code (List.filter frame_effect l).

Lemma finished_only audit outcome code x :
  finished_audit cfg audit outcome code x -> Forall (fun e => audit_effect e = true) x.
Proof.
  unfold finished_audit, left_audit. destruct audit; [|by intros ->]. intros (a & fate & _ & _ & ->).
  destruct (gc_tenant_store cfg); by repeat constructor.
Qed.

Lemma client_bytes_none f l : Forall (fun e => f e = true) l -> (forall b, f (ToClient b) = false) -> client_bytes l = [].
Proof.
  intros Hl Hf. induction Hl as [|e l He _ IH]; [done|]. unfold client_bytes in *. cbn.
  destruct e; try exact IH. by rewrite Hf in He.
Qed.

Lemma audit_filter (f : Effect -> bool) l :
  Forall (fun e => audit_effect e = true) l -> (forall a fate, f (Audited a fate) = false) -> List.filter f l = [].
Proof. intros Hl Hf. apply no_effects. eapply Forall_impl; [exact Hl|]. intros [] ?; done || auto. Qed.

Lemma streamed_filter {St} (chunk : St -> _) audit status st items r l (f : Effect -> bool) :
  streamed chunk (finished_audit cfg audit) status st items r l -> apart f ->
  match r with
  | Ok _ => exists x, stream_end_in audit status items l x /\ List.filter f l = List.filter f x
  | Err _ => List.filter f l = []
  end.
Proof.
  intros (mid & fin & -> & Hm & _ & _ & Hr) (Hbill & Hbytes & Hframe & _). rewrite List.filter_app.
  rewrite (no_effects f mid) by (eapply Forall_impl; [exact Hm|]; intros [] ?; done || auto).
  destruct r as [u|e]; [|by destruct Hr as [_ ->]].
  destruct Hr as (outcome & code & x & tail & -> & Hx & Ht). exists x. pose proof (finished_only _ _ _ _ Hx) as Hax.
  pose proof (ended_frames _ _ _ _ _ _ Ht) as Htail.
  assert (client_bytes tail = [] /\ List.filter f tail = [] /\ List.filter frame_effect tail = tail) as (Hc & Hf & Hft).
  { destruct Htail as [->|[reason ->]]; cbn; by rewrite ?Hframe. }
  split; [|cbn [app]; by rewrite List.filter_app, Hf, app_nil_r].
  exists outcome, code. split; [done|]. rewrite !client_bytes_app, Hc, (client_bytes_none _ x Hax), !app_nil_r by done.
  rewrite !List.filter_app, Hft, (audit_filter _ x Hax) by done.
  by rewrite (no_effects frame_effect mid) by (eapply Forall_impl; [exact Hm|]; by intros [] ?).
Qed.

Lemma stream_filter {R} w (W : Wire R) audit id q r rest (f : Effect -> bool) :
  stream_rest w from_str to_string cfg W audit id q r rest -> apart f ->
  match r with
  | Ok response => gr_deferred response = bool_decide (is_Some audit) /\
      ((List.filter f rest = [] /\ TaskPanicked ∈ rest) \/
       exists ct items x, ar_upstream w = UpstreamAnswered (gr_status response) ct items /\
         stream_end_in audit (gr_status response) items rest x /\ List.filter f rest = List.filter f x)
  | Err e => List.filter f rest = [] /\ (forall response, e = ReplyWith response -> gr_deferred response = false)
  end.
Proof.
  intros [[-> Hr]|(status & ct & items & rt & l & Hup & -> & Hl & ->)] Hf.
  { destruct r as [?|[]]; [done|..]; split; try done. intros ? [= <-]. by destruct Hr. }
  split; [done|]. pose proof Hf as (_ & _ & _ & Hp).
  assert (Hs : match rt with
    | Ok _ => exists x, stream_end_in audit status items l x /\ List.filter f l = List.filter f x
    | Err _ => List.filter f l = [] end).
  { unfold stream_effects in Hl. by destruct (wi_protocol W); eapply streamed_filter in Hl. }
  destruct rt; [right|left; rewrite List.filter_app].
  { destruct Hs as (x & Hx & Hfx). exists ct, items, x. by rewrite app_nil_r. }
  rewrite Hs. cbn. rewrite Hp. split; [done|]. apply elem_of_app. right. left.
Qed.

Lemma stream_silent {R} w (W : Wire R) audit id q r rest (f : Effect -> bool) :
  stream_rest w from_str to_string cfg W audit id q r rest -> apart f -> (forall a fate, f (Audited a fate) = false) ->
  List.filter f rest = [].
Proof.
  intros Hr Hf Ha. apply (stream_filter _ _ _ _ _ _ _ f) in Hr; [|done]. destruct r; [|by destruct Hr].
  destruct Hr as (_ & [[-> _]|(ct & items & x & _ & (o & c & Hx & _) & ->)]); [done|].
  apply audit_filter; [by eapply finished_only|done].
Qed.

Lemma billed_filter {R} (W : Wire R) access id model l (f : Effect -> bool) :
  billed W access id model l -> apart f -> List.filter f l = [].
Proof. intros [->|(a & e & _ & -> & _)] (Hb & _); [done|]. cbn. by rewrite Hb. Qed.

(** The end of a reservation. *)
Definition ends (reservation : option Reservation) (l : list Effect) : Prop :=
  match reservation with
  | None => l = []
  | Some v => exists c, sure v c /\ (l = [Released v c] \/ (exists i o, l = [Settled v i o c]) \/ l = [Exhausted v c])
  end.

Lemma ends_paid reservation usage l : paid reservation usage l -> ends reservation l.
Proof. destruct reservation, usage as [[]|]; cbn; try done; intros (c & ? & ->); eauto 10. Qed.
Lemma ends_given reservation l : given_back reservation l -> ends reservation l.
Proof. destruct reservation; [|done]. cbn. intros (c & ? & ->); eauto. Qed.

Lemma ends_all_spend reservation l : ends reservation l -> Forall (fun e => spend_effect e = true) l.
Proof.
  destruct reservation as [v|]; [|by intros ->]. intros (c & _ & [->|[(i & o & ->)| ->]]); by repeat constructor.
Qed.

Lemma buffered_filter {R} w (W : Wire R) access id q reservation r rest :
  buffered_rest w from_str classifier cfg W access id q reservation r rest ->
  exists fin bill, rest = (fin ++ bill)%list /\ (forall f, apart f -> List.filter f bill = []) /\
    (ends reservation fin \/ (fin = [] /\ r = Err Gone)) /\
    (forall response, r = Ok response -> gr_deferred response = false) /\ (forall response, r <> Err (ReplyWith response)).
Proof.
  intros [[-> ->]|[(Hg & response & -> & Hd & _)|(ct & items & body & fin & bill & _ & _ & -> & Hp & Hb & Hr)]].
  - exists [], []. by split_and!; auto.
  - exists rest, []. rewrite app_nil_r. apply ends_given in Hg.
    split_and!; auto. by intros ? [= <-].
  - exists fin, bill. apply ends_paid in Hp. split_and!; auto.
    + intros f. by eapply billed_filter.
    + intros response ->. by destruct Hr.
    + intros response ->. by destruct Hr.
Qed.

(** ** A request as a whole *)

Lemma audited_only access path response l :
  audited_as cfg access path response l -> Forall (fun e => audit_effect e = true) l.
Proof.
  unfold audited_as. destruct (gr_deferred response); [by intros ->|]. destruct access; [|by intros ->].
  intros (? & x & fate & _ & _ & ->). destruct (gc_tenant_store cfg); by repeat constructor.
Qed.

Lemma routed_cases w request access audit r l :
  routed w from_str to_string classifier cfg request access audit r l ->
  by_itself r l \/
  on_wire request (fun R W q => forwarded w from_str to_string classifier cfg W access audit (mr_headers request) q r l).
Proof.
  unfold routed, on_wire. destruct (mr_body request) as [[q|st]|[q|st]|[q|st]]; try done;
    intros [-> ->]; left; by split.
Qed.

(** Nothing is done but to audit, or the request was sent by an admitted caller. *)
Lemma handled_sent w request s r l :
  handled w from_str to_string classifier cfg request s r l ->
  (Forall (fun e => audit_effect e = true) l /\ forall response, r = Ok response -> own_body (gr_body response) = true) \/
  exists access s1 started rh lh la, let presented := presented_token (mr_headers request) in
    caller cfg presented w s = (Ok access, s1) /\ known w cfg s presented access /\
    (rate_decision cfg presented access w s1).1 = Ok (Some Allowed) /\
    on_wire request (fun R W q => forwarded w from_str to_string classifier cfg W access
      (context_of (mr_path request) started access) (mr_headers request) q rh lh) /\
    l = (lh ++ la)%list /\ Forall (fun e => audit_effect e = true) la /\
    match rh with Ok x | Err (ReplyWith x) => r = Ok x | Err e => r = Err e end.
Proof.
  intros [(_ & -> & Hr)|(access & s1 & Hc & Hk & [Haway|(Hrate & started & rh & lh & Hrt & Hend)])].
  { left. split; [done|]. intros response ->. by destruct Hr. }
  { left. destruct Haway as [[-> ->]|(response & -> & _ & Ho & Ha)]; [done|].
    split; [by eapply audited_only|]. by intros ? [= <-]. }
  assert (Hall : exists la, l = (lh ++ la)%list /\ Forall (fun e => audit_effect e = true) la /\
            match rh with Ok x | Err (ReplyWith x) => r = Ok x | Err e => r = Err e end).
  { destruct rh as [x|[x| |]]; destruct Hend as [-> Hl]; [..|exists []; by rewrite app_nil_r|exists []; by rewrite app_nil_r];
      destruct Hl as (la & -> & Ha); exists la; eauto using audited_only. }
  destruct Hall as (la & -> & Hla & Hr). apply routed_cases in Hrt as [[-> Hby]|Hf].
  - left. split; [done|]. intros response ->. destruct rh as [x|[x| |]]; simplify_eq; [by destruct Hby|].
    by destruct Hby.
  - right. by exists access, s1, started, rh, lh, la.
Qed.

Lemma rest_filters {R} w (W : Wire R) access audit headers q r l :
  forwarded w from_str to_string classifier cfg W access audit headers q r l ->
  exists d reservation fin bill,
    wi_decide W q = Some d /\ reserved_for cfg access reservation /\
    l = (held reservation ++ SentUpstream (wi_base W +:+ wi_path W) (forward_headers headers (wi_headers W) (wi_fallback W))
           (wi_upstream W (id_request d)) :: fin ++ bill)%list /\
    (ends reservation fin \/ fin = [] /\ r = Err Gone) /\
    List.filter spend_effect bill = [] /\ List.filter sent_effect bill = [].
Proof.
  intros (d & reservation & rest & _ & Hd & _ & Hrf & -> & Hr). exists d, reservation.
  assert (apart spend_effect /\ apart sent_effect) as [Hsp Hse] by done.
  destruct (wi_stream W (id_request d)).
  - destruct Hr as [-> Hr]. exists [], rest. split_and!; [done..|by left| |].
    + by eapply stream_silent.
    + by eapply stream_silent.
  - apply buffered_filter in Hr as (fin & bill & -> & Hb & Hf & _). exists fin, bill. split_and!; auto.
Qed.

Lemma filter_held (f : Effect -> bool) reservation : (forall v, f (Reserved v) = false) -> List.filter f (held reservation) = [].
Proof. intros Hf. destruct reservation; [|done]. cbn. by rewrite Hf. Qed.

Lemma ends_filter reservation fin (f : Effect -> bool) :
  ends reservation fin -> (forall e, spend_effect e = true -> f e = false) -> List.filter f fin = [].
Proof. intros He Hf. apply no_effects. eapply Forall_impl; [by apply ends_all_spend in He|]. auto. Qed.

Lemma ends_spend reservation fin : ends reservation fin -> List.filter spend_effect fin = fin.
Proof. intros He. by apply kept_effects, (ends_all_spend reservation). Qed.

(** The effects of a request that was sent, by kind. *)
Lemma forwarded_filters {R} w (W : Wire R) access audit headers q r lh la :
  forwarded w from_str to_string classifier cfg W access audit headers q r lh ->
  Forall (fun e => audit_effect e = true) la ->
  exists d reservation fin, wi_decide W q = Some d /\ reserved_for cfg access reservation /\
    List.filter sent_effect (lh ++ la) = [SentUpstream (wi_base W +:+ wi_path W)
      (forward_headers headers (wi_headers W) (wi_fallback W)) (wi_upstream W (id_request d))] /\
    List.filter spend_effect (lh ++ la) = (held reservation ++ fin)%list /\
    (ends reservation fin \/ fin = [] /\ r = Err Gone).
Proof.
  intros Hf Hla. apply rest_filters in Hf as (d & reservation & fin & bill & Hd & Hrf & -> & Hend & Hsp & Hse).
  exists d, reservation, fin. split; [done|]. split; [done|]. rewrite !List.filter_app. cbn [List.filter sent_effect spend_effect].
  rewrite !List.filter_app, Hsp, Hse, !(audit_filter _ la Hla) by done. rewrite filter_held by done.
  assert (List.filter sent_effect fin = [] /\ List.filter spend_effect fin = fin) as [-> ->].
  { destruct Hend as [He|[-> _]]; [|done]. split; [|by eapply ends_spend]. eapply ends_filter; [done|]. by intros []. }
  rewrite !app_nil_r. split_and!; [done|by destruct reservation|done].
Qed.

Lemma elem_filter (f : Effect -> bool) e l : e ∈ l -> f e = true -> e ∈ List.filter f l.
Proof. rewrite !list_elem_of_In, List.filter_In. auto. Qed.

(** A header of the caller that the provider accepts; or, for a provider with a key of the deployment,
    that key when the caller sent none. *)
Definition header_for (headers : HeaderMap) (names : list string) (key : option string) (name value : string) : Prop :=
  (name ∈ names /\ header_get name headers = Some value) \/
  (name = "authorization" /\ header_get "authorization" headers = None /\
   exists k, key = Some k /\ value = "Bearer " +:+ k).

(** Each wire goes to its own provider, with the headers of that provider and never the key of the other. *)
Definition to_provider (request : ModelRequest) (url : string) (headers : list (string * string)) : Prop :=
  let go base path names key :=
    url = base +:+ path /\ forall name value, (name, value) ∈ headers -> header_for (mr_headers request) names key name value in
  match mr_body request with
  | ChatCompletions _ => go (gc_openai_base cfg) "/v1/chat/completions" OPENAI_HEADERS (gc_openai_api_key cfg)
  | Responses _ => go (gc_openai_base cfg) "/v1/responses" OPENAI_HEADERS (gc_openai_api_key cfg)
  | Messages _ => go (gc_anthropic_base cfg) "/v1/messages" ANTHROPIC_HEADERS None
  end.

(** Where a request may go: the wire's address, with headers a provider may see and the judged request. *)
Definition sent_by (access : option TenantAccess) (request : ModelRequest) (url : string) (headers : list (string * string))
    (body : UpstreamBody) : Prop :=
  may_send (mr_headers request) headers /\ to_provider request url headers /\
  on_wire request (fun R W q => sent_as access url body W q).

Lemma forwarded_sent w request access audit r lh la url headers body :
  on_wire request (fun R W q => forwarded w from_str to_string classifier cfg W access audit (mr_headers request) q r lh) ->
  Forall (fun e => audit_effect e = true) la ->
  SentUpstream url headers body ∈ (lh ++ la)%list ->
  List.filter sent_effect (lh ++ la) = [SentUpstream url headers body] /\ sent_by access request url headers body.
Proof.
  intros Hw Hla Hin. apply (elem_filter sent_effect) in Hin; [|done].
  assert (Hone : forall R (W : Wire R) q, keeps W -> wi_headers W ⊆ (OPENAI_HEADERS ++ ANTHROPIC_HEADERS)%list ->
            (wi_fallback W = None \/ wi_fallback W = gc_openai_api_key cfg) ->
            forwarded w from_str to_string classifier cfg W access audit (mr_headers request) q r lh ->
            List.filter sent_effect (lh ++ la) = [SentUpstream url headers body] /\
            may_send (mr_headers request) headers /\
            (url = wi_base W +:+ wi_path W /\ forall name value, (name, value) ∈ headers ->
               header_for (mr_headers request) (wi_headers W) (wi_fallback W) name value) /\
            sent_as access url body W q).
  { intros R W q Hk Hh Hfb Hf. pose proof Hf as (d' & _ & _ & Hpol & Hd' & Hnb & _).
    destruct (forwarded_filters _ _ _ _ _ _ _ _ _ Hf Hla) as (d & reservation & fin & Hd & _ & Hsent & _).
    rewrite Hsent in Hin |- *. apply list_elem_of_singleton in Hin as [= -> -> ->]. simplify_eq. split; [done|].
    split; [by apply forward_may_send|]. split; [split; [done|]; by intros name value ?%forwarded_header|]. exists d'. split_and!; try done. intros policy Hp.
    destruct (Hk _ _ Hd') as [-> _]. unfold tenant_model_policy_response in Hpol. rewrite Hp in Hpol.
    by destruct (model_policy_permits policy (wi_model W q)). }
  assert (OPENAI_HEADERS ⊆ (OPENAI_HEADERS ++ ANTHROPIC_HEADERS)%list /\
          ANTHROPIC_HEADERS ⊆ (OPENAI_HEADERS ++ ANTHROPIC_HEADERS)%list) as [Hoa Han] by (split; clear; set_solver).
  unfold sent_by, to_provider, on_wire in *. destruct (mr_body request) as [[q|]|[q|]|[q|]]; try done.
  - apply Hone in Hw as (? & ? & ? & ?); auto using chat_keeps.
  - apply Hone in Hw as (? & ? & ? & ?); auto using responses_keeps.
  - apply Hone in Hw as (? & ? & ? & ?); auto using anthropic_keeps.
Qed.


(** Without Redis the end of a reservation is always confirmed. *)
Definition told (confirmed : bool) : Prop := gc_redis cfg = None -> confirmed = true.

(** The last word on a reservation. *)
Definition closes (v : Reservation) (e : Effect) : Prop :=
  exists c, told c /\ (e = Released v c \/ (exists i o, e = Settled v i o c) \/ e = Exhausted v c).

Lemma sure_told access v c : reserved_for cfg access (Some v) -> sure v c -> told c.
Proof. intros Hr Hs Hn. auto. Qed.

Lemma ends_closes access v fin :
  reserved_for cfg access (Some v) -> ends (Some v) fin -> exists e, fin = [e] /\ closes v e.
Proof.
  intros Hr (c & Hs & He). apply (sure_told _ _ _ Hr) in Hs.
  destruct He as [->|[(i & o & ->)| ->]]; eexists; (split; [done|]); exists c; (split; [done|]); eauto.
Qed.

Lemma spend_shape w request access audit r lh la :
  on_wire request (fun R W q => forwarded w from_str to_string classifier cfg W access audit (mr_headers request) q r lh) ->
  Forall (fun e => audit_effect e = true) la ->
  List.filter spend_effect (lh ++ la) = [] \/
  exists v, (List.filter spend_effect (lh ++ la) = [Reserved v] /\ r = Err Gone) \/
            exists e, List.filter spend_effect (lh ++ la) = [Reserved v; e] /\ closes v e.
Proof.
  intros Hw Hla.
  assert (Hone : forall R (W : Wire R) q, forwarded w from_str to_string classifier cfg W access audit (mr_headers request) q r lh ->
    List.filter spend_effect (lh ++ la) = [] \/
    exists v, (List.filter spend_effect (lh ++ la) = [Reserved v] /\ r = Err Gone) \/
              exists e, List.filter spend_effect (lh ++ la) = [Reserved v; e] /\ closes v e).
  { intros R W q Hf. destruct (forwarded_filters _ _ _ _ _ _ _ _ _ Hf Hla) as (d & [v|] & fin & _ & Hrf & _ & -> & Hend).
    - right. exists v. destruct Hend as [He|[-> ->]]; [right|by left].
      destruct (ends_closes _ _ _ Hrf He) as (e & -> & ?). by exists e.
    - left. destruct Hend as [Hend|[-> _]]; [|done]. by cbn in Hend; subst. }
  unfold on_wire in Hw. destruct (mr_body request) as [[q|]|[q|]|[q|]]; try done; by eapply Hone.
Qed.

(** The answer of the provider that a client may see: read whole, and at status 200 judged and charged. *)
Definition answer_passed {R} (w : Around) (W : Wire R) (q : R) (status : Z) (body : Value) : Prop :=
  (exists ct items, ar_upstream w = UpstreamAnswered status ct items /\
     read_upstream_json from_str EmptyString items (max_upstream_body_bytes cfg) = Ok body) /\
  (status = 200 -> exists d, wi_decide W q = Some d /\
     (exists agent agent', check_response (gc_proxy cfg) (gc_firewall cfg) agent (ar_request_id w)
                             (wi_events W (id_request d) body) = Some (None, agent')) /\
     (forall categories, moderation_check (gc_moderation cfg) classifier (output_text (wi_events W (id_request d) body))
                         <> Harmful categories ModerationBlock)).

Definition charged {R} (W : Wire R) (v : Reservation) (body : Value) (l : list Effect) : Prop :=
  exists c, told c /\
  match reported_usage body (wi_input_field W) (wi_output_field W) with
  | Some (i, o) => Settled v i o c ∈ l
  | None => Exhausted v c ∈ l
  end.

Lemma paid_charged {R} (W : Wire R) access v body fin :
  reserved_for cfg access (Some v) -> paid (Some v) (reported_usage body (wi_input_field W) (wi_output_field W)) fin ->
  charged W v body fin.
Proof.
  intros Hr. unfold charged, paid. destruct (reported_usage _ _ _) as [[i o]|]; intros (c & Hs & ->);
    exists c; (split; [by eapply sure_told|by apply list_elem_of_singleton]).
Qed.

Lemma charged_sub {R} (W : Wire R) v body l l' : charged W v body l -> l ⊆ l' -> charged W v body l'.
Proof. intros (c & ? & Hc) Hl. exists c. split; [done|]. destruct (reported_usage _ _ _) as [[i o]|]; by apply Hl. Qed.

Lemma forwarded_answer {R} w (W : Wire R) access audit headers q r l response body :
  forwarded w from_str to_string classifier cfg W access audit headers q r l ->
  r = Ok response \/ r = Err (ReplyWith response) -> gr_body response = GUpstream body ->
  answer_passed w W q (gr_status response) body /\
  (gr_status response = 200 -> forall v, Reserved v ∈ List.filter spend_effect l -> charged W v body l).
Proof.
  intros (d & reservation & rest & _ & Hd & _ & Hrf & -> & Hrest) Hr Hb. destruct (wi_stream W (id_request d)).
  { exfalso. destruct Hrest as [_ [[_ Hrest]|(status & ct & items & rt & lt & _ & -> & _)]].
    - destruct Hr as [->| ->]; [done|]. destruct Hrest as [_ Ho]. by rewrite Hb in Ho.
    - by destruct Hr as [Heq|Heq]; simplify_eq. }
  destruct Hrest as [[_ ->]|[(_ & response' & -> & _ & [Ho|(status & ct & items & v & Hne & -> & Hup & Hread)])|
    (ct & items & body' & fin & bill & Hup & Hread & -> & Hpaid & Hbill & Hrest)]].
  - by destruct Hr.
  - destruct Hr as [[= ->]|?]; [|done]. by rewrite Hb in Ho.
  - destruct Hr as [[= <-]|?]; [|done]. cbn in Hb |- *. simplify_eq. split; [split; eauto; done|done].
  - destruct Hr as [->| ->]; [|by destruct Hrest]. destruct Hrest as [_ [Ho|(-> & Hcheck & Hmod)]]; [by rewrite Hb in Ho|].
    cbn in Hb |- *. injection Hb as ->. split; [split; eauto 10|]. intros _ v Hv.
    rewrite !List.filter_app in Hv. cbn [List.filter spend_effect] in Hv. rewrite List.filter_app in Hv.
    rewrite (billed_filter _ _ _ _ _ spend_effect Hbill), app_nil_r in Hv by done.
    assert (reservation = Some v) as ->.
    { destruct reservation as [v'|]; cbn in Hv.
      - apply elem_of_cons in Hv as [[= ->]|Hv]; [done|]. destruct (reported_usage _ _ _) as [[i o]|];
          destruct Hpaid as (c & _ & ->); cbn in Hv; apply list_elem_of_singleton in Hv; done.
      - destruct (reported_usage _ _ _) as [[i o]|]; cbn in Hpaid; subst; by apply elem_of_nil in Hv. }
    eapply charged_sub; [by eapply paid_charged|]. intros e He. apply elem_of_app. right. right. apply elem_of_app. by left.
Qed.


(** ** What the client sees *)

(** Bytes of a stream that the inspection of the wire let through, in order. *)
Definition stream_passed {R} (w : Around) (W : Wire R) (q : R) (status : Z) (bytes : list string) : Prop :=
  exists d, wi_decide W q = Some d /\
  let ctx := stream_context W (ar_request_id w) (id_request d) status in
  match wi_protocol W with
  | Some protocol => relayed (fun st bytes agent => proxy_chunk (gc_proxy cfg) (gc_firewall cfg) from_str ctx st agent bytes)
                       (stream_start (Some protocol)) bytes
  | None => relayed (fun st bytes agent => responses_chunk (gc_proxy cfg) (gc_firewall cfg) from_str to_string ctx st agent bytes)
              responses_start bytes
  end.

Lemma streamed_bytes {St} (chunk : St -> _) audit status st items r l :
  streamed chunk (finished_audit cfg audit) status st items r l ->
  relayed chunk st (client_bytes l) /\ client_bytes l `prefix_of` pieces items.
Proof.
  intros (mid & fin & -> & _ & Hrel & Hp & Hr). rewrite client_bytes_app.
  assert (client_bytes fin = []) as ->; [|by rewrite app_nil_r].
  destruct r; [|by destruct Hr as [_ ->]]. destruct Hr as (? & ? & x & tail & -> & Hx & Ht%ended_frames).
  rewrite client_bytes_app, (client_bytes_none _ x (finished_only _ _ _ _ Hx)) by done.
  by destruct Ht as [->|[? ->]].
Qed.

Lemma ends_bytes reservation fin : ends reservation fin -> client_bytes fin = [].
Proof. intros He. apply ends_all_spend in He. by apply (client_bytes_none _ _ He). Qed.

Lemma forwarded_bytes {R} w (W : Wire R) access audit headers q r l :
  forwarded w from_str to_string classifier cfg W access audit headers q r l ->
  client_bytes l = [] \/
  exists status ct items, ar_upstream w = UpstreamAnswered status ct items /\
    client_bytes l `prefix_of` pieces items /\ stream_passed w W q status (client_bytes l).
Proof.
  intros (d & reservation & rest & _ & Hd & _ & _ & -> & Hr). rewrite client_bytes_app.
  assert (client_bytes (held reservation) = []) as -> by (by destruct reservation). cbn [app].
  change (client_bytes (SentUpstream ?a ?b ?c :: rest)) with (client_bytes rest).
  destruct (wi_stream W (id_request d)).
  - destruct Hr as [_ [[-> _]|(status & ct & items & rt & lt & Hup & _ & He & ->)]]; [by left|]. right. exists status, ct, items.
    assert (client_bytes (lt ++ match rt with Ok _ => [] | Err _ => [TaskPanicked] end) = client_bytes lt) as ->.
    { rewrite client_bytes_app. destruct rt; cbn; by rewrite app_nil_r. }
    unfold stream_effects in He. split; [done|]. unfold stream_passed.
    destruct (wi_protocol W) eqn:E; apply streamed_bytes in He as [? ?]; (split; [done|]); exists d; (split; [done|]); done.
  - left. destruct Hr as [[-> _]|[(Hg & _)|(? & ? & body & fin & bill & _ & _ & -> & Hp & Hb & _)]]; [done|..].
    { apply ends_given in Hg. by eapply ends_bytes. }
    apply ends_paid in Hp. rewrite client_bytes_app, (ends_bytes reservation) by done.
    by destruct Hb as [->|(? & ? & _ & -> & _)].
Qed.

(** C7. What the client sees of a provider's answer: a body that was read whole within
    the limit, and at status 200 passed the inspection of the response and is not blocked by the moderation
    gate; the bytes of a stream are a prefix of what the provider sent, each of them inspected in
    order from the start of the stream and let through before it was sent. *)
Theorem client_sees_inspected request w g r s' :
  gateway from_str to_string classifier cfg request w (mkRun 0 g []) = (r, s') ->
  (forall response body, r = Ok response -> gr_body response = GUpstream body ->
     on_wire request (fun R W q => answer_passed w W q (gr_status response) body)) /\
  (client_bytes (ru_effects s') <> [] ->
   exists status ct items, ar_upstream w = UpstreamAnswered status ct items /\
     client_bytes (ru_effects s') `prefix_of` pieces items /\
     on_wire request (fun R W q => stream_passed w W q status (client_bytes (ru_effects s')))).
Proof.
  intros Hg. apply gateway_cases in Hg as (l & Hl & Hh). cbn in Hl. rewrite Hl.
  apply handled_sent in Hh as [[Ha Hown]|(access & s1 & started & rh & lh & la & _ & _ & _ & Hw & -> & Hla & Hr)].
  { split.
    - intros response body Hr Hb. apply Hown in Hr. by rewrite Hb in Hr.
    - intros Hne. by rewrite (client_bytes_none _ _ Ha) in Hne. }
  rewrite client_bytes_app, (client_bytes_none _ la Hla), app_nil_r by done. split.
  - intros response body -> Hb. revert Hw. apply on_wire_mono. intros R W q Hf.
    apply (forwarded_answer _ _ _ _ _ _ _ _ response body) in Hf as [Hp _]; [done| |done].
    destruct rh as [x|[x| |]]; simplify_eq; auto.
  - intros Hne. unfold on_wire in *. destruct (mr_body request) as [[q|]|[q|]|[q|]]; try done;
      apply forwarded_bytes in Hw as [?|(status & ct & items & ? & ? & ?)]; try done; by exists status, ct, items.
Qed.

(** ** The audit *)

Lemma spend_audits reservation fin : ends reservation fin -> List.filter audit_effect fin = [].
Proof. intros He. eapply ends_filter; [done|]. by intros []. Qed.

(** The audit a stream's task leaves, with the outcome and status of how the stream ended. *)
Definition stream_audited (w : Around) (audit : option TenantAuditContext) (response : GwResponse) (l : list Effect) : Prop :=
  exists ct items, ar_upstream w = UpstreamAnswered (gr_status response) ct items /\
    stream_end_in audit (gr_status response) items l (List.filter audit_effect l).

Lemma forwarded_audits {R} w (W : Wire R) access audit headers q r l response :
  forwarded w from_str to_string classifier cfg W access audit headers q r l ->
  r = Ok response \/ r = Err (ReplyWith response) ->
  (gr_deferred response = false /\ (List.filter audit_effect l = [])) \/
  (gr_deferred response = true /\ ((List.filter audit_effect l = [] /\ TaskPanicked ∈ l) \/
     stream_audited w audit response l)).
Proof.
  intros (d & reservation & rest & _ & _ & _ & _ & -> & Hrest) Hr. rewrite List.filter_app, filter_held by done. cbn [app List.filter audit_effect].
  destruct (wi_stream W (id_request d)).
  - destruct Hrest as [-> Hrest]. apply (stream_filter _ _ _ _ _ _ _ audit_effect) in Hrest; [|done].
    destruct Hr as [->| ->]; [|destruct Hrest as [-> Hx]; left; by rewrite (Hx response)].
    destruct Hrest as (-> & Hrest). destruct audit as [context|].
    + right. split; [done|]. destruct Hrest as [[-> Hp]|(ct & items & x & Hup & Hx & Hf)]; [left; split; [done|by right]|].
      right. exists ct, items. split; [done|]. pose proof Hx as (o & c & Hxa & Hxe). exists o, c. split; [|done].
      cbn [held app List.filter audit_effect]. rewrite Hf. apply finished_only in Hxa as Hall.
      by rewrite (kept_effects audit_effect x).
    + left. split; [done|]. destruct Hrest as [[-> _]|(ct & items & x & _ & (o & c & Hxa & _) & ->)]; [done|].
      cbn in Hxa. by subst.
  - apply buffered_filter in Hrest as (fin & bill & -> & Hb & Hend & Hok & Herr). left.
    destruct Hr as [->| ->]; [|by destruct (Herr response)]. split; [by apply Hok|]. rewrite List.filter_app, Hb by done.
    rewrite app_nil_r. destruct Hend as [He|[-> _]]; [by eapply spend_audits|done].
Qed.

(** The event of an answered request of a tenant: it says how the request was answered or, when a stream was
    still to be read, how that stream ended. *)
Definition audit_of (w : Around) (request : ModelRequest) (a : TenantAccess) (response : GwResponse) (l : list Effect) : Prop :=
  (gr_deferred response = true /\ List.filter audit_effect l = [] /\ TaskPanicked ∈ l) \/
  exists x fate, List.filter audit_effect l = [Audited x fate] /\ audit_fate cfg fate /\
    aw_tenant_id x = tx_tenant_id a /\ aw_path x = mr_path request /\
    if gr_deferred response
    then exists ct items, ar_upstream w = UpstreamAnswered (gr_status response) ct items /\
           ended_as (gr_status response) items (client_bytes l) (aw_outcome x) (aw_status_code x) (List.filter frame_effect l)
    else aw_status_code x = gr_status response /\ aw_outcome x = outcome_for_status (gr_status response).

Lemma audited_as_some w request a response l l' :
  gc_tenant_store cfg = true -> gr_deferred response = false -> List.filter audit_effect l' = [] ->
  audited_as cfg (Some a) (mr_path request) response l -> audit_of w request a response (l' ++ l)%list.
Proof.
  intros Hs Hd Hno. unfold audited_as, left_audit. rewrite Hd, Hs. intros (started & x & fate & (? & ? & ? & ?) & Hf & ->).
  right. exists x, fate. by rewrite List.filter_app, Hno, Hd.
Qed.

Lemma routed_audits w request access audit rh lh response :
  routed w from_str to_string classifier cfg request access audit rh lh ->
  rh = Ok response \/ rh = Err (ReplyWith response) ->
  (gr_deferred response = false /\ List.filter audit_effect lh = []) \/
  (gr_deferred response = true /\ ((List.filter audit_effect lh = [] /\ TaskPanicked ∈ lh) \/
     stream_audited w audit response lh)).
Proof.
  intros Hrt Hr. apply routed_cases in Hrt as [[-> Hby]|Hw].
  - left. by destruct Hr as [->| ->]; destruct Hby.
  - unfold on_wire in Hw. destruct (mr_body request) as [[q|]|[q|]|[q|]]; try done; by eapply forwarded_audits.
Qed.

Lemma completed_audits w request access response l :
  gc_tenant_store cfg = bool_decide (is_Some access) ->
  completed w from_str to_string classifier cfg request access (Ok response) l ->
  match access with
  | Some a => audit_of w request a response l
  | None => List.filter audit_effect l = []
  end.
Proof.
  intros Hs (started & rh & lh & Hrt & Hend).
  assert (exists la, l = (lh ++ la)%list /\ audited_as cfg access (mr_path request) response la /\
            (rh = Ok response \/ rh = Err (ReplyWith response))) as (la & -> & Ha & Hr).
  { destruct rh as [x|[x| |]]; destruct Hend as [Heq Hl]; simplify_eq; destruct Hl as (la & -> & ?); eauto 6. }
  destruct (routed_audits _ _ _ _ _ _ _ Hrt Hr) as [[Hd Hno]|[Hd Hfin]].
  - destruct access as [a|].
    + by apply audited_as_some.
    + unfold audited_as in Ha. rewrite Hd in Ha. subst. by rewrite app_nil_r.
  - unfold audited_as in Ha. rewrite Hd in Ha. subst. rewrite app_nil_r.
    destruct Hfin as [[Hno Hp]|(ct & items & Hup & o & c & Hfin & Hen)]; [destruct access; [by left|done]|].
    destruct access as [a|]; [|done]. cbn in Hs, Hfin. unfold left_audit in Hfin. rewrite Hs in Hfin.
    destruct Hfin as (x & fate & (? & ? & <- & <-) & Hf & Hx). right. exists x, fate. rewrite Hd. split_and!; [done..|].
    by exists ct, items.
Qed.

(** C12. A request of an authenticated tenant that is answered issues exactly one audit event, of
    that tenant and path: with the status it was answered with and the outcome of that status; or, when the body is
    streamed, from the stream's task, with how the stream ended: read to its end, timed out, failed, blocked, or its
    client gone (and none if the task panics). A request without a tenant issues none. The event is queued or
    written, or it is recorded that the queue was full or the store refused it. *)
Theorem answered_audited_once request w g response s' :
  gateway from_str to_string classifier cfg request w (mkRun 0 g []) = (Ok response, s') ->
  match caller cfg (presented_token (mr_headers request)) w (mkRun 0 g []) with
  | (Ok (Some a), _) => audit_of w request a response (ru_effects s')
  | _ => List.filter audit_effect (ru_effects s') = []
  end.
Proof.
  intros Hg. apply gateway_cases in Hg as (l & Hl & Hh). cbn in Hl. rewrite Hl.
  destruct Hh as [((e & s1 & Hc) & -> & _)|(access & s1 & Hc & Hk & Hh)]; rewrite Hc; [done|].
  assert (gc_tenant_store cfg = bool_decide (is_Some access)) as Hs.
  { unfold known in Hk. destruct (gc_tenant_store cfg); [by destruct Hk as (? & ? & ? & -> & _)|by destruct Hk as [-> _]]. }
  destruct Hh as [[[? _]|(x & [= <-] & Hd & _ & Ha)]|[_ Hcomp]]; [done| |by eapply completed_audits].
  destruct access as [a|]; [by apply (audited_as_some _ _ _ _ _ [])|]. unfold audited_as in Ha. rewrite Hd in Ha. by rewrite Ha.
Qed.
End claims.
