(* ===== verification/GatewayScene.v ===== *)
(** The gateway, evaluated: a tenant of the deployment of [TenantScene] with a token, a
    spend limit and a model policy sends one chat request and one streamed request, while other requests
    write to the audit in between. *)
From S2P Require Import Prelude BTree Platform Net F32 Json CoreTypes Scoring CorePolicy Detectors Normalize.
From S2P Require Import Firewall Adapter Event Taint Action Egress AgentPolicy Engine Grant RateLimit Spend.
From S2P Require Import TenantDb TenantDirectory TenantPolicy TenantUsage TenantAccess TenantScene PortalTypes RedisLimits.
From S2P Require Import ProxyEvents ProxyInput AgentScan Sse Capability ProxyStream Gateway GatewayProps GatewayClaims.
From Stdlib Require Import String Ascii.
Local Open Scope string_scope.
Local Open Scope Z_scope.
#[local] Abbreviation length := List.length.

#[local] Existing Instances scene_sha scene_url scene_doc scene_model scene_types scene_value.
#[local] Existing Instances ascii_tables demo_engine demo_iter demo_text_crates.

Definition tenant_token : string := Eval vm_compute in generate_token "g".

Definition served_db : Db := Eval vm_compute in
  run scene_hmac (setup ++ [RIssueToken 100 "g" "h" tenant "app"; RSetLimits 100 tenant
    (mkLimits (Some (TenantDb.mkRateLimit 5 60)) (Some (mkTenantSpendLimit 60 1000 100)));
    RSetModelPolicy 100 (fun _ => "v") "d" "e" tenant (Some (mkModelPolicy ["gpt"]))])%list (open_empty 100).
Definition served_gw : Gw := mkGw served_db ∅ ∅ ∅ demo_agent [] 0 0 0.

Definition gw_prices : list (string * ModelPrice) := [("gpt", mkModelPrice 1000000 2000000)].
Definition gw_config : GatewayConfig :=
  mkGatewayConfig (demo_proxy_config true []) open_firewall true None true (Some 8%nat) 100
    (RateLimit.mkRateLimit true 10 60 100) (mkSpendLimit false 60 1000 100 100 gw_prices) None FailClosed
    "https://api.openai.test" "https://api.anthropic.test" (Some "sk-deployment")
    (mkModeration false ModerationBlock (f32_of_Z 1) [] "refused") 1000.

Definition gw_body : Value :=
  JObject [("choices", JArray []); ("usage", JObject [("completion_tokens", JNumber (PosInt 20)); ("prompt_tokens", JNumber (PosInt 10))])].
Definition gw_json (s : string) : option Value := if bool_decide (s = "answer") then Some gw_body else None.

(** Others fill the audit queue a little. *)
Definition gw_world (upstream : UpstreamAnswer) : Around :=
  mkAround (fun k => 200 + Z.of_nat k) (fun k => 1000000000 * Z.of_nat k) (fun k => 200000) 
    (fun k g => if (k =? 2)%nat then set_queue [mkAuditWrite "other" "/v1/messages" "completed" 200 3] g else g)
    (fun _ => Answered) (fun _ => Stays) (fun _ => false) upstream "r1".

Definition gw_request (stream : bool) : ModelRequest :=
  mkModelRequest "/v1/chat/completions"
    [("x-llm-firewall-token", "Bearer " +:+ tenant_token); ("openai-beta", "assistants=v2"); ("cookie", "c=1")]
    (ChatCompletions (Ok (mkChatRequest "gpt" [mkChatMessage "user" (Some "hello") []] stream []))).

Definition buffered : result GwResponse Stop * Run :=
  gateway gw_json (fun _ => EmptyString) None gw_config (gw_request false)
    (gw_world (UpstreamAnswered 200 "application/json" [Piece "ans"; Piece "wer"])) (mkRun 0 served_gw []).

(** A deployment without tenants, behind one shared token. *)
Definition shared_config : GatewayConfig :=
  mkGatewayConfig (demo_proxy_config true ["Read"]) open_firewall true (Some "shared") false None 100
    (RateLimit.mkRateLimit true 10 60 100) (mkSpendLimit false 60 1000 100 100 []) None FailClosed
    "https://api.openai.test" "https://api.anthropic.test" None
    (mkModeration false ModerationBlock (f32_of_Z 1) [] "refused") 1000.
Definition stream_request : ModelRequest :=
  mkModelRequest "/v1/chat/completions" [("x-llm-firewall-token", "Bearer shared"); ("authorization", "Bearer sk-user")]
    (ChatCompletions (Ok (mkChatRequest "gpt" [mkChatMessage "user" (Some "hello") []] true []))).
Definition stream_world : Around :=
  gw_world (UpstreamAnswered 200 "text/event-stream" [Piece (data_frame "answer"); Piece (data_frame "call"); Piece "late"]).
Definition stream_json (s : string) : option Value :=
  if bool_decide (s = "call") then Some demo_tool_frame else gw_json s.
Definition stream_run : result GwResponse Stop * Run :=
  gateway stream_json (fun _ => EmptyString) None shared_config stream_request stream_world (mkRun 0 served_gw []).

(** ** The theorems on these requests *)

Lemma buffered_is : buffered = (buffered.1, buffered.2).
Proof. by destruct buffered. Defined.
Lemma stream_run_is : stream_run = (stream_run.1, stream_run.2).
Proof. by destruct stream_run. Defined.

(** The request is sent once, without the proxy's token and with the deployment's key. *)
Definition gw_sent : list (string * string) := [("openai-beta", "assistants=v2"); ("authorization", "Bearer sk-deployment")].



(** One event of the tenant, with the status of the answer. *)
Lemma answered_audited_once_witness :
  exists x fate, List.filter audit_effect (ru_effects buffered.2) = [Audited x fate] /\ aw_tenant_id x = tenant /\
            aw_outcome x = "completed".
Proof.
  pose proof (answered_audited_once gw_json (fun _ => EmptyString) None gw_config (gw_request false)
                (gw_world (UpstreamAnswered 200 "application/json" [Piece "ans"; Piece "wer"])) served_gw
                (plain 200 (GUpstream gw_body)) buffered.2) as Ha.
  assert (Hrun : buffered.1 = Ok (plain 200 (GUpstream gw_body))) by (vm_compute; reflexivity).
  specialize (Ha (eq_trans buffered_is (f_equal (fun x => (x, buffered.2)) Hrun))). clear Hrun.
  assert (Hc : (caller gw_config (presented_token (mr_headers (gw_request false)))
            (gw_world (UpstreamAnswered 200 "application/json" [Piece "ans"; Piece "wer"])) (mkRun 0 served_gw [])).1
          = Ok (Some (mkTenantAccess tenant (mkLimits (Some (TenantDb.mkRateLimit 5 60)) (Some (mkTenantSpendLimit 60 1000 100)))
                        (Some (mkModelPolicy ["gpt"]))))) by (vm_compute; reflexivity).
  destruct (caller gw_config _ _ _) as [access s1]. cbn [fst] in Hc. subst access.
  destruct Ha as [[? _]|(x & fate & Hx & _ & Ht & _ & _ & Ho)]; [discriminate|]. exists x, fate. split; [exact Hx|]. split; [exact Ht|]. exact Ho.
Defined.

(** The client gets the first frame; the second holds a call that is refused. *)
Lemma client_sees_inspected_witness :
  client_bytes (ru_effects stream_run.2) = [data_frame "answer"] /\
  stream_passed stream_json (fun _ => EmptyString) shared_config stream_world (chat_wire stream_json shared_config)
    (mkChatRequest "gpt" [mkChatMessage "user" (Some "hello") []] true []) 200 [data_frame "answer"].
Proof.
  assert (Hb : client_bytes (ru_effects stream_run.2) = [data_frame "answer"]) by (vm_compute; reflexivity).
  split; [exact Hb|].
  destruct (client_sees_inspected stream_json (fun _ => EmptyString) None shared_config stream_request stream_world served_gw
              stream_run.1 stream_run.2 stream_run_is) as [_ Hs].
  rewrite Hb in Hs. destruct (Hs ltac:(discriminate)) as (status & ct & items & Hup & _ & Hp).
  injection Hup as <- _ _. exact Hp.
Defined.

(** ** Limits *)

(** An answer of status 201 is passed on without inspection and its reservation given back:
    with the same body at status 200 the answer is refused and charged. *)
Definition call_body : Value :=
  JObject [("choices", JArray [JObject [("message", JObject [("tool_calls", JArray [JObject
     [("function", JObject [("arguments", JString demo_destructive); ("name", JString "Bash")]); ("id", JString "c1")]])])]]);
    ("usage", JObject [("completion_tokens", JNumber (PosInt 20)); ("prompt_tokens", JNumber (PosInt 10))])].
Definition strict_config : GatewayConfig :=
  mkGatewayConfig (demo_proxy_config true ["Read"]) open_firewall true None true (Some 8%nat) 100
    (RateLimit.mkRateLimit true 10 60 100) (mkSpendLimit false 60 1000 100 100 gw_prices) None FailClosed
    "https://api.openai.test" "https://api.anthropic.test" (Some "sk-deployment")
    (mkModeration false ModerationBlock (f32_of_Z 1) [] "refused") 1000.
Definition answered_with (status : Z) : result GwResponse Stop * Run :=
  gateway (fun _ => Some call_body) (fun _ => EmptyString) None strict_config (gw_request false)
    (gw_world (UpstreamAnswered status "application/json" [Piece "x"])) (mkRun 0 served_gw []).

Theorem other_success_uninspected :
  (answered_with 201).1 = Ok (plain 201 (GUpstream call_body)) /\
  (exists v, List.filter spend_effect (ru_effects (answered_with 201).2) = [Reserved v; Released v true]) /\
  (exists reason, (answered_with 200).1 = Ok (plain 502 (error_body reason))) /\
  (exists v, List.filter spend_effect (ru_effects (answered_with 200).2) = [Reserved v; Settled v 10 20 true]).
Proof. split_and!; [|eexists..]; vm_compute; reflexivity. Qed.

(** A client that disconnects while the provider works leaves its reservation in the ledger
    until the window ends. *)
Theorem dropped_request_keeps_reservation :
  let w := mkAround (fun k => 200) (fun k => 0) (fun _ => 200000) (fun _ g => g) (fun _ => Answered)
             (fun k => if (k =? 6)%nat then DropBefore else Stays) (fun _ => false)
             (UpstreamAnswered 200 "application/json" [Piece "answer"]) "r1" in
  let done := gateway gw_json (fun _ => EmptyString) None gw_config (gw_request false) w (mkRun 0 served_gw []) in
  done.1 = Err Gone /\ (exists v, List.filter spend_effect (ru_effects done.2) = [Reserved v]) /\
  sw_reserved_usd_micros <$> gw_spend (ru_gw done.2) !! tenant_client_id sha256 tenant = Some 100.
Proof. cbn zeta. split_and!; [|eexists|]; vm_compute; reflexivity. Qed.
