(* ===== verification/Steps.v ===== *)
(** Endpoints of the control plane as sequences of store calls. Between two calls other requests
    commit and the clock moves on ([Portal.World]); an endpoint has no state of its own. What
    it does to the database is described by its own requests to the store, one at most at
    each of its steps, among those of the others. *)
From S2P Require Import Prelude BTree Net Json Spend TenantDb TenantDirectory TenantScim TenantSession.
From S2P Require Import TenantPolicy TenantUsage TenantAccess Oidc PortalTypes Portal.
From Stdlib Require Import String Ascii.
Local Open Scope string_scope.
Local Open Scope Z_scope.
#[local] Abbreviation length := List.length.

Declare Scope steps_scope.

Definition Steps (A : Type) : Type := World -> nat * Db -> A * (nat * Db).
Definition done {A} (x : A) : Steps A := fun _ s => (x, s).
Definition next {A B} (m : Steps A) (k : A -> Steps B) : Steps B := fun w s => let '(x, s) := m w s in k x w s.

Notation "'do' x ':=' m 'in' k" := (next m (fun x => k))
  (at level 10, x name, m at level 100, k at level 200) : steps_scope.
(** The [?] operator on the result of a step. *)
Notation "'try' x ':=' m 'in' k" := (next m (fun r => match r with Ok x => k | Err e => done (Err e) end))
  (at level 10, x name, m at level 100, k at level 200) : steps_scope.
Local Open Scope steps_scope.

Section steps.
Context `{Sha256, UrlParser, JsonCodec TenantPolicyDocument, JsonCodec TenantModelPolicy,
          JsonCodec (list string), JsonCodec Value}.
Variable hmac_sha256 : string -> string -> string.

Definition call {A} (f : Z -> (nat -> string) -> Db -> A * Db) : Steps A := fun w s =>
  let out := f (wo_now w s.1) (wo_random w s.1) (run hmac_sha256 (wo_others w s.1) s.2) in
  (out.1, (S s.1, out.2)).

(** [SystemTime::now]: the time of the next call. *)
Definition clock : Steps Z := fun w s => (wo_now w s.1, s).
(** Random bytes drawn outside of the store. *)
Definition entropy : Steps (nat -> string) := fun w s => (wo_random w s.1, s).

(** ** What an endpoint did *)

Definition own_request (o : option Request) (db : Db) : Db :=
  match o with Some r => exec hmac_sha256 r db | None => db end.

(** The database after steps [k], [k + 1], ... with the endpoint's own requests [own]. *)
Fixpoint advance (w : World) (k : nat) (own : list (option Request)) (db : Db) : Db :=
  match own with
  | [] => db
  | o :: own => advance w (S k) own (own_request o (run hmac_sha256 (wo_others w k) db))
  end.

Lemma advance_app w k own own' db :
  advance w k (own ++ own') db = advance w (k + length own) own' (advance w k own db).
Proof.
  revert k db. induction own as [|o own IH]; intros k db; cbn [advance app length]; [by rewrite Nat.add_0_r|].
  rewrite IH. f_equal. lia.
Qed.

(** Every request of [m] to the store satisfies [may], and what it returns [Q]. *)
Definition acts {A} (m : Steps A) (w : World) (may : Request -> Prop) (Q : A -> Prop) : Prop :=
  forall k db, exists own,
    (m w (k, db)).2 = ((k + length own)%nat, advance w k own db) /\
    (forall r, Some r ∈ own -> may r) /\ Q (m w (k, db)).1.

Section rules.
Variables (w : World) (may : Request -> Prop).

Lemma acts_done {A} (x : A) (Q : A -> Prop) : Q x -> acts (done x) w may Q.
Proof. intros HQ k db. exists []. cbn. rewrite Nat.add_0_r. split_and!; [done| |done]. intros r Hr. by apply elem_of_nil in Hr. Qed.

Lemma acts_next {A B} (m : Steps A) (f : A -> Steps B) (P : A -> Prop) (Q : B -> Prop) :
  acts m w may P -> (forall x, P x -> acts (f x) w may Q) -> acts (next m f) w may Q.
Proof.
  intros Hm Hf k db. unfold next. destruct (Hm k db) as (own & Hs & Hmay & HP). destruct (m w (k, db)) as [x s]. cbn in *. subst s.
  destruct (Hf x HP (k + length own)%nat (advance w k own db)) as (own' & Hs' & Hmay' & HQ).
  exists (own ++ own')%list. rewrite advance_app, length_app, Nat.add_assoc. split_and!; [done| |done].
  intros r [?|?]%elem_of_app; auto.
Qed.

Lemma acts_read {A} (f : Z -> (nat -> string) -> Db -> A * Db) (Q : A -> Prop) :
  (forall now random db, (f now random db).2 = db) -> (forall now random db, Q (f now random db).1) ->
  acts (call f) w may Q.
Proof.
  intros Hro HQ k db. exists [None]. unfold call. cbn. rewrite Hro. split_and!; [f_equal; lia| |apply HQ].
  intros r Hr. by apply list_elem_of_singleton in Hr.
Qed.

Lemma acts_clock (Q : Z -> Prop) : (forall now, Q now) -> acts clock w may Q.
Proof. intros HQ k db. exists []. cbn. rewrite Nat.add_0_r. split_and!; [done| |apply HQ]. intros r Hr. by apply elem_of_nil in Hr. Qed.

Lemma acts_write {A} (f : Z -> (nat -> string) -> Db -> A * Db) :
  (forall now random, exists r, may r /\ forall db, (f now random db).2 = exec hmac_sha256 r db) ->
  acts (call f) w may (fun _ => True).
Proof.
  intros Hr k db. destruct (Hr (wo_now w k) (wo_random w k)) as (r & Hmay & Hf). exists [Some r]. unfold call. cbn. rewrite Hf.
  split_and!; [f_equal; lia| |done]. intros r' [= <-]%list_elem_of_singleton. done.
Qed.
End rules.

Lemma acts_weaken {A} (m : Steps A) w (may may' : Request -> Prop) (Q : A -> Prop) :
  acts m w may Q -> (forall r, may r -> may' r) -> acts m w may' Q.
Proof. intros Hm Hw k db. destruct (Hm k db) as (own & ? & ? & ?). exists own. split_and!; auto. Qed.
End steps.
