(* ===== verification/Scim.v ===== *)
(** The SCIM endpoints ([proxy/src/scim.rs]): an identity provider keeps the directory of one
    organization with a bearer credential of that organization. Bodies are what the JSON
    extractor made of them, [None] when it refused. Then what an identity provider can do: a request
    acts only with a live credential, only for the organization of that credential, and never lets anyone
    into a workspace by itself. *)
From S2P Require Import Prelude BTree Net Json Spend TenantDb TenantDirectory TenantScim TenantSession.
From S2P Require Import TenantPolicy TenantUsage TenantAccess TenantScene Oidc PortalTypes Portal Steps.
From Stdlib Require Import String Ascii.
Local Open Scope string_scope.
Local Open Scope Z_scope.
#[local] Abbreviation length := List.length.
Local Open Scope steps_scope.

Definition SCIM_USER_SCHEMA : string := "urn:ietf:params:scim:schemas:core:2.0:User".
Definition SCIM_GROUP_SCHEMA : string := "urn:ietf:params:scim:schemas:core:2.0:Group".
Definition SCIM_PATCH_OP_SCHEMA : string := "urn:ietf:params:scim:api:messages:2.0:PatchOp".
Definition MAX_PAGE_SIZE : Z := 100.
Definition MAX_START_INDEX : Z := 1000000.

(** ** Requests and responses *)

Record ScimUserCreateRequest := mkUserCreate {
  uc_schemas : list string; uc_external_id : string; uc_user_name : string; uc_display_name : option string; uc_active : bool }.
Record ScimUserListQuery := mkListQuery {
  lq_start_index : Z; lq_count : Z; lq_filter : option string; lq_sort_by : option string; lq_sort_order : option string }.
Record ScimPatchOperation := mkPatchOperation { po_op : string; po_path : option string; po_value : Value }.
Record ScimPatchRequest := mkPatchRequest { pr_schemas : list string; pr_operations : list ScimPatchOperation }.
Record ScimGroupCreateRequest := mkGroupCreate {
  gc_schemas : list string; gc_external_id : string; gc_display_name : string; gc_members : list string }.

Record ScimUserResource := mkUserResource {
  ur_id : string; ur_external_id : string; ur_user_name : string; ur_display_name : string; ur_active : bool }.
Definition user_resource_from (u : ScimUser) : ScimUserResource :=
  mkUserResource (su_id u) (su_external_id u) (su_user_name u) (su_display_name u) (su_active u).
Record ScimGroupResource := mkGroupResource {
  gs_id : string; gs_external_id : string; gs_display_name : string; gs_members : list string }.
Definition group_resource_from (g : ScimGroup) : ScimGroupResource :=
  mkGroupResource (sg_id (gr_row g)) (sg_external_id (gr_row g)) (sg_display_name (gr_row g)) (gr_member_ids g).

Inductive ScimBody :=
| UserBody (u : ScimUserResource)
| GroupBody (g : ScimGroupResource)
| UserList (total_results start_index items_per_page : Z) (resources : list ScimUserResource)
| GroupList (total_results start_index items_per_page : Z) (resources : list ScimGroupResource)
| ServiceProvider
| ScimFailure (scim_type : option string) (detail : string)
| NoBody.

(** [scim_json]: the status and the body; the headers are fixed but for the challenge of a 401. *)
Record ScimResponse := mkScimResponse { sr_status : Z; sr_body : ScimBody; sr_challenge : bool }.
Definition scim_json (status : Z) (body : ScimBody) : ScimResponse := mkScimResponse status body false.
Definition scim_error (status : Z) (scim_type : option string) (detail : string) : ScimResponse :=
  scim_json status (ScimFailure scim_type detail).

Definition valid_schemas (schemas : list string) (expected : string) : bool :=
  bool_decide (schemas = []) || bool_decide (schemas = [expected]).
Definition valid_page (start_index count : Z) : bool :=
  (1 <=? start_index) && (start_index <=? MAX_START_INDEX) && (count <=? MAX_PAGE_SIZE).

(** ** Patches *)

Definition PatchError : Type := (string * string)%type.
Definition user_update_default : ScimUserUpdate := mkUserUpdate None None None.
Definition group_update_default : ScimGroupUpdate := mkGroupUpdate None None.

Fixpoint patch_user_loop (operations : list ScimPatchOperation) (seen : list string) (update : ScimUserUpdate) :
    result ScimUserUpdate PatchError :=
  match operations with
  | [] => Ok update
  | operation :: operations =>
      bail_if (negb (Str.eq_ignore_ascii_case (po_op operation) "replace"))
        with ("invalidSyntax", "Only SCIM replace operations are supported") in
      match po_path operation with
      | None => Err ("invalidPath", "Every SCIM operation needs a supported path")
      | Some path =>
          let path := Str.to_ascii_lowercase path in
          bail_if (bool_decide (path ∈ seen))
            with ("invalidValue", "A SCIM attribute can only be changed once per patch") in
          let seen := path :: seen in
          if bool_decide (path = "active") then
            match as_bool (po_value operation) with
            | None => Err ("invalidValue", "SCIM active must be a boolean")
            | active => patch_user_loop operations seen (mkUserUpdate (uu_user_name update) (uu_display_name update) active)
            end
          else if bool_decide (path = "username") then
            match as_str (po_value operation) with
            | None => Err ("invalidValue", "SCIM userName must be a string")
            | user_name => patch_user_loop operations seen (mkUserUpdate user_name (uu_display_name update) (uu_active update))
            end
          else if bool_decide (path = "displayname") then
            match as_str (po_value operation) with
            | None => Err ("invalidValue", "SCIM displayName must be a string")
            | display_name => patch_user_loop operations seen (mkUserUpdate (uu_user_name update) display_name (uu_active update))
            end
          else Err ("invalidPath", "That SCIM User attribute is not mutable")
      end
  end.

Definition parse_patch (operations : list ScimPatchOperation) : result ScimUserUpdate PatchError :=
  bail_if (bool_decide (operations = []) || (3 <? length operations)%nat)
    with ("invalidValue", "A SCIM patch must contain one to three operations") in
  patch_user_loop operations [] user_update_default.

(** [serde_json::from_value] for a struct of one string field: an object of exactly this field, or
    an array of one element. *)
Definition member_input (v : Value) : option string :=
  match v with
  | JArray [JString value] => Some value
  | JObject [(key, JString value)] => if bool_decide (key = "value") then Some value else None
  | _ => None
  end.

Definition parse_group_member_values (value : Value) : result (list string) PatchError :=
  match value with
  | JArray members =>
      ok_or (mapM member_input members)
        ("invalidValue", "SCIM members must be an array of objects containing only value")
  | _ => Err ("invalidValue", "SCIM members must be an array of objects containing only value")
  end.

Fixpoint patch_group_loop (operations : list ScimPatchOperation) (seen : list string) (update : ScimGroupUpdate) :
    result ScimGroupUpdate PatchError :=
  match operations with
  | [] => Ok update
  | operation :: operations =>
      match po_path operation with
      | None => Err ("invalidPath", "Every SCIM operation needs a supported path")
      | Some path =>
          let path := Str.to_ascii_lowercase path in
          bail_if (bool_decide (path ∈ seen))
            with ("invalidValue", "A SCIM Group attribute can only be changed once per patch") in
          let seen := path :: seen in
          let op_is op := Str.eq_ignore_ascii_case (po_op operation) op in
          if bool_decide (path = "displayname") then
            bail_if (negb (op_is "replace")) with ("invalidSyntax", "SCIM displayName only supports replace") in
            match as_str (po_value operation) with
            | None => Err ("invalidValue", "SCIM displayName must be a string")
            | display_name => patch_group_loop operations seen (mkGroupUpdate display_name (gu_member_change update))
            end
          else if bool_decide (path = "members") then
            let? member_ids := parse_group_member_values (po_value operation) in
            if op_is "replace" then patch_group_loop operations seen (mkGroupUpdate (gu_display_name update) (Some (Replace member_ids)))
            else if op_is "add" then patch_group_loop operations seen (mkGroupUpdate (gu_display_name update) (Some (Add member_ids)))
            else if op_is "remove" then patch_group_loop operations seen (mkGroupUpdate (gu_display_name update) (Some (Remove member_ids)))
            else Err ("invalidSyntax", "SCIM members supports add, replace, or remove")
          else Err ("invalidPath", "That SCIM Group attribute is not mutable")
      end
  end.

Definition parse_group_patch (operations : list ScimPatchOperation) : result ScimGroupUpdate PatchError :=
  bail_if (bool_decide (operations = []) || (2 <? length operations)%nat)
    with ("invalidValue", "A SCIM Group patch must contain one or two operations") in
  patch_group_loop operations [] group_update_default.

(** ** The endpoints *)

(** The tenant store of the deployment, if it has one. *)
Section scim_api.
Context `{Sha256, UrlParser, JsonCodec TenantPolicyDocument, JsonCodec TenantModelPolicy,
          JsonCodec (list string), JsonCodec Value}.
Variable hmac_sha256 : string -> string -> string.
Variable tenant_store : bool.

Definition scim_unavailable : ScimResponse := scim_error 503 None "SCIM control plane is unavailable".
Definition invalid_json : ScimResponse := scim_error 400 (Some "invalidSyntax") "Invalid SCIM JSON".
Definition invalid_value (detail : string) : ScimResponse := scim_error 400 (Some "invalidValue") detail.

(** One call to the store, and the answer for its result. *)
Definition from_store {A} (op : Z -> (nat -> string) -> Op A) (answer : result A string -> ScimResponse) : Steps ScimResponse :=
  if tenant_store then do r := call hmac_sha256 op in done (answer r) else done scim_unavailable.

Definition create_user (identity : ScimIdentity) (payload : option ScimUserCreateRequest) : Steps ScimResponse :=
  match payload with
  | None => done invalid_json
  | Some request =>
      if negb (valid_schemas (uc_schemas request) SCIM_USER_SCHEMA) then done (invalid_value "Unsupported SCIM User schema")
      else
        let display_name := default (uc_user_name request) (uc_display_name request) in
        from_store (fun now random => create_scim_user now (random 0%nat) identity (uc_external_id request)
                      (uc_user_name request) display_name (uc_active request))
          (fun r => match r with
                    | Ok user => scim_json 201 (UserBody (user_resource_from user))
                    | Err _ => invalid_value "SCIM User could not be provisioned"
                    end)
  end.

(** The checks of a listing. *)
Definition list_refused (query : ScimUserListQuery) : option ScimResponse :=
  if bool_decide (is_Some (lq_filter query)) || bool_decide (is_Some (lq_sort_by query))
     || bool_decide (is_Some (lq_sort_order query))
  then Some (scim_error 400 (Some "invalidFilter") "SCIM filtering and sorting are not supported")
  else if negb (valid_page (lq_start_index query) (lq_count query))
  then Some (invalid_value "SCIM pagination is outside the supported range")
  else None.

Definition list_users (identity : ScimIdentity) (query : ScimUserListQuery) : Steps ScimResponse :=
  match list_refused query with
  | Some response => done response
  | None =>
      from_store (fun _ _ => list_scim_users identity (lq_start_index query) (lq_count query))
        (fun r => match r with
                  | Ok (total, users) =>
                      scim_json 200 (UserList total (lq_start_index query) (Z.of_nat (length users)) (user_resource_from <$> users))
                  | Err _ => scim_unavailable
                  end)
  end.

Definition get_user (identity : ScimIdentity) (user_id : string) : Steps ScimResponse :=
  from_store (fun _ _ => scim_user_by_id identity user_id)
    (fun r => match r with
              | Ok (Some user) => scim_json 200 (UserBody (user_resource_from user))
              | Ok None => scim_error 404 None "SCIM User was not found"
              | Err _ => invalid_value "SCIM User identifier is invalid"
              end).

Definition update_user (identity : ScimIdentity) (user_id : string) (update : ScimUserUpdate) : Steps ScimResponse :=
  from_store (fun now _ => update_scim_user now identity user_id update)
    (fun r => match r with
              | Ok (Some user) => scim_json 200 (UserBody (user_resource_from user))
              | Ok None => scim_error 404 None "SCIM User was not found"
              | Err _ => invalid_value "SCIM User could not be updated"
              end).

Definition patch_user (identity : ScimIdentity) (user_id : string) (payload : option ScimPatchRequest) : Steps ScimResponse :=
  match payload with
  | None => done invalid_json
  | Some request =>
      if negb (valid_schemas (pr_schemas request) SCIM_PATCH_OP_SCHEMA) then done (invalid_value "Unsupported SCIM PatchOp schema")
      else match parse_patch (pr_operations request) with
           | Err (scim_type, detail) => done (scim_error 400 (Some scim_type) detail)
           | Ok update => update_user identity user_id update
           end
  end.

Definition no_content_scim : ScimResponse := scim_json 204 NoBody.

Definition delete_user (identity : ScimIdentity) (user_id : string) : Steps ScimResponse :=
  do response := update_user identity user_id (mkUserUpdate None None (Some false)) in
  done (if sr_status response =? 200 then no_content_scim else response).

Definition create_group (identity : ScimIdentity) (payload : option ScimGroupCreateRequest) : Steps ScimResponse :=
  match payload with
  | None => done invalid_json
  | Some request =>
      if negb (valid_schemas (gc_schemas request) SCIM_GROUP_SCHEMA) then done (invalid_value "Unsupported SCIM Group schema")
      else
        from_store (fun now random => create_scim_group now (random 0%nat) identity (gc_external_id request)
                      (gc_display_name request) (gc_members request))
          (fun r => match r with
                    | Ok group => scim_json 201 (GroupBody (group_resource_from group))
                    | Err _ => invalid_value "SCIM Group could not be provisioned"
                    end)
  end.

Definition list_groups (identity : ScimIdentity) (query : ScimUserListQuery) : Steps ScimResponse :=
  match list_refused query with
  | Some response => done response
  | None =>
      from_store (fun _ _ => list_scim_groups identity (lq_start_index query) (lq_count query))
        (fun r => match r with
                  | Ok (total, groups) =>
                      scim_json 200 (GroupList total (lq_start_index query) (Z.of_nat (length groups)) (group_resource_from <$> groups))
                  | Err _ => scim_unavailable
                  end)
  end.

Definition get_group (identity : ScimIdentity) (group_id : string) : Steps ScimResponse :=
  from_store (fun _ _ => scim_group_by_id identity group_id)
    (fun r => match r with
              | Ok (Some group) => scim_json 200 (GroupBody (group_resource_from group))
              | Ok None => scim_error 404 None "SCIM Group was not found"
              | Err _ => invalid_value "SCIM Group identifier is invalid"
              end).

Definition update_group (identity : ScimIdentity) (group_id : string) (update : ScimGroupUpdate) : Steps ScimResponse :=
  from_store (fun now _ => update_scim_group now identity group_id update)
    (fun r => match r with
              | Ok (Some group) => scim_json 200 (GroupBody (group_resource_from group))
              | Ok None => scim_error 404 None "SCIM Group was not found"
              | Err _ => invalid_value "SCIM Group could not be updated"
              end).

Definition patch_group (identity : ScimIdentity) (group_id : string) (payload : option ScimPatchRequest) : Steps ScimResponse :=
  match payload with
  | None => done invalid_json
  | Some request =>
      if negb (valid_schemas (pr_schemas request) SCIM_PATCH_OP_SCHEMA) then done (invalid_value "Unsupported SCIM PatchOp schema")
      else match parse_group_patch (pr_operations request) with
           | Err (scim_type, detail) => done (scim_error 400 (Some scim_type) detail)
           | Ok update => update_group identity group_id update
           end
  end.

Definition delete_group (identity : ScimIdentity) (group_id : string) : Steps ScimResponse :=
  from_store (fun now _ => delete_scim_group now identity group_id)
    (fun r => match r with
              | Ok true => no_content_scim
              | Ok false => scim_error 404 None "SCIM Group was not found"
              | Err _ => invalid_value "SCIM Group identifier is invalid"
              end).

Definition service_provider_config : ScimResponse := scim_json 200 ServiceProvider.

(** The routes behind the bearer check. *)
Inductive ScimEndpoint :=
| GetServiceProviderConfig
| CreateUser (payload : option ScimUserCreateRequest)
| ListUsers (query : ScimUserListQuery)
| GetUser (user_id : string)
| PatchUser (user_id : string) (payload : option ScimPatchRequest)
| DeleteUser (user_id : string)
| CreateGroup (payload : option ScimGroupCreateRequest)
| ListGroups (query : ScimUserListQuery)
| GetGroup (group_id : string)
| PatchGroup (group_id : string) (payload : option ScimPatchRequest)
| DeleteGroup (group_id : string).

Definition scim_route (e : ScimEndpoint) (identity : ScimIdentity) : Steps ScimResponse :=
  match e with
  | GetServiceProviderConfig => done service_provider_config
  | CreateUser p => create_user identity p
  | ListUsers q => list_users identity q
  | GetUser i => get_user identity i
  | PatchUser i p => patch_user identity i p
  | DeleteUser i => delete_user identity i
  | CreateGroup p => create_group identity p
  | ListGroups q => list_groups identity q
  | GetGroup i => get_group identity i
  | PatchGroup i p => patch_group identity i p
  | DeleteGroup i => delete_group identity i
  end.

Definition scim_challenge : ScimResponse :=
  mkScimResponse 401 (ScimFailure None "SCIM bearer authentication is required") true.

Definition require_scim_token (presented : option string) (next : ScimIdentity -> Steps ScimResponse) : Steps ScimResponse :=
  if negb tenant_store then done scim_unavailable
  else
    do identity := call hmac_sha256 (fun now _ => authenticate_scim_bearer now presented) in
    match identity with
    | Err _ => done scim_unavailable
    | Ok None => done scim_challenge
    | Ok (Some identity) => next identity
    end.

(** A request with its [authorization] header. *)
Definition scim_request (e : ScimEndpoint) (headers : HeaderMap) : Steps ScimResponse :=
  require_scim_token (head (get_all "authorization" headers) ≫= to_str) (scim_route e).
End scim_api.

(** * What an identity provider can do *)

(** ** Confinement *)

(** From [db] to [db'], only the directory of one organization changed. *)
Record confined (org : string) (db db' : Db) : Prop := {
  cf_tables : organizations db' = organizations db /\ tenants db' = tenants db /\ workspaces db' = workspaces db /\
    identities db' = identities db /\ invitations db' = invitations db /\ service_accounts db' = service_accounts db /\
    tenant_tokens db' = tenant_tokens db /\ admins db' = admins db /\ limits db' = limits db /\
    scim_tokens db' = scim_tokens db /\ admin_audit db' = admin_audit db /\ tenant_audit db' = tenant_audit db /\
    mapping_audit db' = mapping_audit db /\ db_fed db' = db_fed db /\ db_pol db' = db_pol db /\ db_usage db' = db_usage db;
  cf_users : forall p u, su_organization_id u <> org -> scim_users db' !! p = Some u <-> scim_users db !! p = Some u;
  cf_groups : forall g row, sg_organization_id row <> org -> scim_groups db' !! g = Some row <-> scim_groups db !! g = Some row;
  cf_members : forall g row p, scim_groups db !! g = Some row -> sg_organization_id row <> org ->
    group_members db' !! (g, p) = group_members db !! (g, p);
  (** No mapping is added, and those of other groups stay. *)
  cf_mappings : forall k m, mappings db' !! k = Some m -> mappings db !! k = Some m;
  cf_mappings_kept : forall ws g, (forall row, scim_groups db !! g = Some row -> sg_organization_id row <> org) ->
    mappings db' !! (ws, g) = mappings db !! (ws, g);
  cf_principals : forall p, (forall u, scim_users db' !! p = Some u -> su_organization_id u <> org) ->
    principals db' !! p = principals db !! p;
  (** A membership, or that there is none, is as it was; or it is one of a directory user of the organization
      in a workspace of the organization, and was suspended. *)
  cf_memberships : forall k, memberships db' !! k = memberships db !! k \/
    exists m m' ws u, memberships db !! k = Some m /\ memberships db' !! k = Some m' /\
      workspaces db !! mb_workspace_id m = Some ws /\ wk_organization_id ws = org /\
      scim_users db' !! mb_principal_id m = Some u /\ su_organization_id u = org /\ su_active u = false /\
      m' = mkMembership (mb_workspace_id m) (mb_principal_id m) (mb_role m) false (mb_created_at_unix m) (mb_updated_at_unix m')
}.

Lemma confined_refl org db : confined org db db.
Proof. constructor; try done; auto. Qed.

(** The requests of a SCIM endpoint to the store, on behalf of one credential. *)
Definition scim_act (identity : ScimIdentity) (r : Request) : Prop :=
  match r with
  | RCreateScimUser _ _ i _ _ _ _ | RUpdateScimUser _ i _ _ | RCreateScimGroup _ _ i _ _ _
  | RUpdateScimGroup _ i _ _ | RDeleteScimGroup _ i _ => i = identity
  | _ => False
  end.

Lemma atomically_confined {A} org (f : Db -> result (A * Db) string) db :
  (forall x db', f db = Ok (x, db') -> confined org db db') -> confined org db (atomically f db).2.
Proof. unfold atomically. intros Hf. destruct (f db) as [[x db']|] eqn:E; cbn; [eauto|apply confined_refl]. Qed.

Lemma insert_outside {V} (org_of : V -> string) org (m : gmap string V) k v :
  org_of v = org -> (forall old, m !! k = Some old -> org_of old = org) ->
  forall p u, org_of u <> org -> <[k := v]> m !! p = Some u <-> m !! p = Some u.
Proof.
  intros Hv Hold p u Hu. destruct (decide (k = p)) as [->|Hne]; [|by rewrite lookup_insert_ne].
  rewrite lookup_insert_eq. split; [by intros [= <-]|]. intros Hp. by apply Hold in Hp.
Qed.

Lemma has_none {K V} `{Countable K} (k : K) (m : gmap K V) : has k m = false -> m !! k = None.
Proof. unfold has. by destruct (m !! k). Qed.

Lemma scim_user_of_spec org p db u : scim_user_of org p db = Some u -> scim_users db !! p = Some u /\ su_organization_id u = org.
Proof. unfold scim_user_of. destruct (scim_users db !! p) as [v|]; cbn; [|done]. case_bool_decide; [|done]. by intros [= <-]. Qed.

Lemma scim_group_of_spec org g db row : scim_group_of org g db = Some row -> scim_groups db !! g = Some row /\ sg_organization_id row = org.
Proof.
  unfold scim_group_of. destruct (scim_groups db !! g) as [v|]; cbn; [|done]. case_bool_decide; [|done]. cbn.
  destruct (sg_active v); [|done]. by intros [= <-].
Qed.

Lemma create_user_confined now random identity e u d a db :
  confined (si_organization_id identity) db (create_scim_user now random identity e u d a db).2.
Proof.
  unfold create_scim_user. apply atomically_confined. intros x db' Ht. unfold append_scim_audit in Ht. tx_inv Ht.
  apply orb_false_iff in G0 as [Hnew%has_none _].
  constructor; try done; cbn.
  - apply (insert_outside su_organization_id); [done|]. intros old Hold. cbn in Hnew. congruence.
  - intros p Hp. rewrite lookup_insert_ne; [done|]. intros <-.
    by apply (Hp _ (lookup_insert_eq _ _ _)).
  - auto.
Qed.

Lemma suspend_confined org p now db k :
  memberships (suspend_memberships p org now db) !! k = memberships db !! k \/
  exists m m' ws, memberships db !! k = Some m /\ memberships (suspend_memberships p org now db) !! k = Some m' /\
    mb_principal_id m = p /\ workspaces db !! mb_workspace_id m = Some ws /\ wk_organization_id ws = org /\
    m' = mkMembership (mb_workspace_id m) (mb_principal_id m) (mb_role m) false (mb_created_at_unix m) (mb_updated_at_unix m').
Proof.
  unfold suspend_memberships. cbn. rewrite lookup_fmap. destruct (memberships db !! k) as [m|]; [|by left]. cbn.
  unfold suspended. destruct (workspaces db !! mb_workspace_id m) as [ws|] eqn:Hw; [|rewrite andb_false_r; by left].
  case_bool_decide; cbn [andb]; [|by left]. case_bool_decide; [|by left]. right. eexists m, _, ws. split_and!; try done.
Qed.

Lemma update_user_confined now identity p update db :
  confined (si_organization_id identity) db (update_scim_user now identity p update db).2.
Proof.
  unfold update_scim_user. apply atomically_confined. intros x db' Ht. unfold append_scim_audit in Ht.
  cbn zeta beta in Ht. ok_inv Ht. destruct (scim_user_of _ _ db) as [current|] eqn:Hu; [|simplify_eq; apply confined_refl].
  apply scim_user_of_spec in Hu as [Hu Horg]. tx_inv Ht.
  assert (Hout : forall v, su_organization_id v = su_organization_id current -> forall q u, su_organization_id u <> si_organization_id identity ->
            <[a := v]> (scim_users db) !! q = Some u <-> scim_users db !! q = Some u).
  { intros v Hv. apply (insert_outside su_organization_id); [by rewrite Hv|]. intros old Hold. congruence. }
  destruct (default (su_active current) (uu_active a0)); constructor; try done; cbn; auto.
  - intros q Hq. rewrite lookup_alter_ne; [done|]. intros <-. eapply (Hq _ (lookup_insert_eq _ _ _)). cbn. done.
  - intros q Hq. rewrite lookup_alter_ne; [done|]. intros <-. eapply (Hq _ (lookup_insert_eq _ _ _)). cbn. done.
  - intros k. destruct (suspend_confined (si_organization_id identity) a now db k) as [?|(m & m' & ws & Hm & Hm' & <- & Hw & Hwo & Em)];
      [by left|right]. eexists m, m', ws, _. split_and!; [exact Hm|exact Hm'|exact Hw|exact Hwo|apply lookup_insert_eq|done|done|exact Em].
Qed.

Lemma add_members_outside (g : string) (now : Z) (ids : list string) (t : gmap (string * string) Z) (h p : string) :
  h <> g -> foldr (fun (q : string) (t : gmap (string * string) Z) => if has (g, q) t then t else <[(g, q) := now]> t) t ids !! (h, p) = t !! (h, p).
Proof.
  intros Hne. induction ids as [|i ids IH]; cbn [foldr]; [done|]. case_match; [done|]. rewrite lookup_insert_ne; [done|congruence].
Qed.

Lemma filter_members_outside (g : string) (t : gmap (string * string) Z) (h p : string) :
  h <> g -> filter (fun kv : string * string * Z => kv.1.1 <> g) t !! (h, p) = t !! (h, p).
Proof.
  intros Hne. rewrite map_lookup_filter. destruct (t !! (h, p)); cbn; [|done]. by rewrite option_guard_True.
Qed.

Lemma change_members_outside (g : string) (change : ScimGroupMemberChange) (now : Z) (t : gmap (string * string) Z) (h p : string) : h <> g -> change_members g change now t !! (h, p) = t !! (h, p).
Proof.
  intros Hne. unfold change_members. destruct change as [ids|ids|ids].
  - rewrite add_members_outside by done. by apply filter_members_outside.
  - by apply add_members_outside.
  - induction ids as [|i ids IH]; cbn [foldr]; [done|]. rewrite lookup_delete_ne; [done|congruence].
Qed.

Lemma create_group_confined now random identity e d ids db :
  confined (si_organization_id identity) db (create_scim_group now random identity e d ids db).2.
Proof.
  unfold create_scim_group. apply atomically_confined. intros x db' Ht. unfold append_scim_group_audit in Ht. tx_inv Ht.
  apply orb_false_iff in G as [Hnew%has_none _].
  constructor; try done; cbn; auto.
  - apply (insert_outside sg_organization_id); [done|]. intros old Hold. congruence.
  - intros g row p Hg Hrow. assert (g <> random_id "scim_group" random) as Hne by congruence. clear -Hne.
    induction a0 as [|i ids IH]; cbn [foldr]; [done|]. rewrite lookup_insert_ne; [done|congruence].
Qed.

Lemma update_group_confined now identity g update db :
  confined (si_organization_id identity) db (update_scim_group now identity g update db).2.
Proof.
  unfold update_scim_group. apply atomically_confined. intros x db' Ht. unfold append_scim_group_audit in Ht.
  cbn zeta beta in Ht. ok_inv Ht. destruct (scim_group_of _ _ db) as [current|] eqn:Hu; [|simplify_eq; apply confined_refl].
  apply scim_group_of_spec in Hu as [Hu Horg]. tx_inv Ht.
  assert (Hout : forall v, sg_organization_id v = sg_organization_id current -> forall q u, sg_organization_id u <> si_organization_id identity ->
            <[a := v]> (scim_groups db) !! q = Some u <-> scim_groups db !! q = Some u).
  { intros v Hv. apply (insert_outside sg_organization_id); [by rewrite Hv|]. intros old Hold. congruence. }
  destruct (gu_member_change a0) as [change|]; constructor; try done; cbn; auto.
  intros h row p Hh Hrow. apply change_members_outside. congruence.
Qed.

Lemma delete_group_confined now identity g db :
  confined (si_organization_id identity) db (delete_scim_group now identity g db).2.
Proof.
  unfold delete_scim_group. apply atomically_confined. intros x db' Ht. unfold append_scim_group_audit in Ht.
  cbn zeta beta in Ht. ok_inv Ht. destruct (scim_group_of _ _ db) as [current|] eqn:Hu; [|simplify_eq; apply confined_refl].
  apply scim_group_of_spec in Hu as [Hu Horg]. tx_inv Ht. constructor; try done; cbn; auto.
  - intros h row Hrow. destruct (decide (a = h)) as [->|Hne]; [|by rewrite lookup_delete_ne].
    rewrite lookup_delete_eq. split; [done|]. intros Hh. congruence.
  - intros h row p Hh Hrow. apply filter_members_outside. congruence.
  - intros k m. rewrite map_lookup_filter_Some. by intros [? _].
  - intros ws h Hh. rewrite map_lookup_filter. destruct (mappings db !! (ws, h)) as [m|]; cbn; [|done].
    rewrite option_guard_True; [done|]. cbn. intros ->. by apply (Hh _ Hu).
Qed.

(** ** A request *)

Section requests.
Context `{Sha256, UrlParser, JsonCodec TenantPolicyDocument, JsonCodec TenantModelPolicy,
          JsonCodec (list string), JsonCodec Value}.
Variable hmac_sha256 : string -> string -> string.
Variable tenant_store : bool.

Lemma scim_act_confined identity r db :
  scim_act identity r -> confined (si_organization_id identity) db (exec hmac_sha256 r db).
Proof.
  destruct r; try done; intros <-; cbn [exec];
    [apply create_user_confined|apply update_user_confined|apply create_group_confined|apply update_group_confined
    |apply delete_group_confined].
Qed.

(** The request an endpoint may make, for the credential it was authenticated with. *)
Definition scim_asks (e : ScimEndpoint) (identity : ScimIdentity) (r : Request) : Prop :=
  match e, r with
  | CreateUser (Some q), RCreateScimUser _ _ i external user display active =>
      i = identity /\ external = uc_external_id q /\ user = uc_user_name q /\ active = uc_active q
  | PatchUser p _, RUpdateScimUser _ i p' _ => i = identity /\ p' = p
  | DeleteUser p, RUpdateScimUser _ i p' update => i = identity /\ p' = p /\ update = mkUserUpdate None None (Some false)
  | CreateGroup (Some q), RCreateScimGroup _ _ i external display members =>
      i = identity /\ external = gc_external_id q /\ display = gc_display_name q /\ members = gc_members q
  | PatchGroup g _, RUpdateScimGroup _ i g' _ => i = identity /\ g' = g
  | DeleteGroup g, RDeleteScimGroup _ i g' => i = identity /\ g' = g
  | _, _ => False
  end.

Lemma asks_act e identity r : scim_asks e identity r -> scim_act identity r.
Proof. destruct e as [|[|]| | | | |[|]| | | |], r; cbn; intuition done. Qed.

Lemma acts_from_store {A} w (may : Request -> Prop) (op : Z -> (nat -> string) -> Op A) answer :
  acts hmac_sha256 (call hmac_sha256 op) w may (fun _ => True) ->
  acts hmac_sha256 (from_store hmac_sha256 tenant_store op answer) w may (fun _ => True).
Proof.
  intros Hop. unfold from_store. destruct tenant_store; [|by apply acts_done].
  eapply acts_next; [exact Hop|]. intros r _. by apply acts_done.
Qed.

Tactic Notation "writes" uconstr(r) :=
  apply acts_from_store; apply acts_write; intros now random; eexists (r); split; [|intros db; reflexivity]; cbn; auto.
Ltac reads := apply acts_from_store; by apply acts_read.

Lemma acts_route e identity w :
  acts hmac_sha256 (scim_route hmac_sha256 tenant_store e identity) w (scim_asks e identity) (fun _ => True).
Proof.
  destruct e as [|payload|q|p|p payload|p|payload|q|g|g payload|g]; cbn [scim_route].
  - by apply acts_done.
  - unfold create_user. destruct payload as [request|]; [|by apply acts_done]. case_match; [by apply acts_done|]. writes (RCreateScimUser _ _ _ _ _ _ _).
  - unfold list_users. destruct (list_refused q); [by apply acts_done|]. reads.
  - reads.
  - unfold patch_user. destruct payload as [request|]; [|by apply acts_done]. case_match; [by apply acts_done|].
    destruct (parse_patch _) as [update|[? ?]]; [|by apply acts_done]. writes (RUpdateScimUser _ _ _ _).
  - unfold delete_user. eapply acts_next; [|intros; by apply acts_done]. writes (RUpdateScimUser _ _ _ _).
  - unfold create_group. destruct payload as [request|]; [|by apply acts_done]. case_match; [by apply acts_done|]. writes (RCreateScimGroup _ _ _ _ _ _).
  - unfold list_groups. destruct (list_refused q); [by apply acts_done|]. reads.
  - reads.
  - unfold patch_group. destruct payload as [request|]; [|by apply acts_done]. case_match; [by apply acts_done|].
    destruct (parse_group_patch _) as [update|[? ?]]; [|by apply acts_done]. writes (RUpdateScimGroup _ _ _ _).
  - writes (RDeleteScimGroup _ _ _).
Qed.

(** The credential a request presents, live at that time in that database. *)
Definition live_credential (now : Z) (presented : option string) (d : Db) (identity : ScimIdentity) : Prop :=
  exists token hash k t o, presented = Some ("Bearer " +:+ token) /\ scim_token_hash token = Ok hash /\
    scim_tokens d !! k = Some t /\ st_token_hash t = hash /\ st_active t = true /\ now <= st_expires_at_unix t /\
    identity = mkScimIdentity (st_organization_id t) (st_id t) /\
    organizations d !! st_organization_id t = Some o /\ og_active o = true.

Lemma authenticated_live now presented d identity :
  (authenticate_scim_bearer now presented d).1 = Ok (Some identity) -> live_credential now presented d identity.
Proof.
  unfold authenticate_scim_bearer, reading. cbn [fst]. destruct presented as [p|]; cbn [mbind option_bind]; [|done].
  destruct (Str.strip_prefix "Bearer " p) as [token|] eqn:Hp; [|done]. apply Str.strip_prefix_spec in Hp as ->.
  destruct (scim_token_hash token) as [hash|] eqn:Hh; [|done].
  destruct (find_row _ _) as [t|] eqn:Hf; cbn [mbind option_bind]; [|done]. intros [= <-].
  apply find_row_some in Hf as [[k Hk] Ht]. destruct (organizations d !! st_organization_id t) as [o|] eqn:Ho; [|by rewrite andb_false_r in Ht].
  apply andb_true_iff in Ht as [Ht Hact]. apply andb_true_iff in Ht as [Ht Hexp]. apply andb_true_iff in Ht as [Hhash Hst].
  apply bool_decide_eq_true in Hhash. exists token, hash, k, t, o. split_and!; try done. lia.
Qed.

End requests.

(** ** A request, evaluated *)

#[local] Existing Instances scene_sha scene_url scene_doc scene_model scene_types scene_value.

(** The identity provider deactivates the directory user of [TenantScene]. *)
Definition scim_headers : HeaderMap := [("authorization", "Bearer " +:+ generate_scim_token "s")].
Definition scim_world : World := mkWorld (fun _ => 300) (fun _ _ => "z") (fun _ => []) (fun _ _ => Err "offline").
Definition deactivation : ScimResponse * (nat * Db) :=
  scim_request scene_hmac true (DeleteUser user) scim_headers scim_world (0%nat, deployed).

