(* ===== verification/Admin.v ===== *)
(** The administration API ([proxy/src/admin.rs]): platform administrators manage organizations,
    tenants, credentials, policies and usage, each endpoint over the tenant store behind one check of
    the credential and of the role its method and path require. *)
From S2P Require Import Prelude BTree Net Json Spend TenantDb TenantDirectory TenantScim TenantSession.
From S2P Require Import TenantPolicy TenantUsage TenantAccess Oidc PortalTypes Portal Steps.
From Stdlib Require Import String Ascii.
Local Open Scope string_scope.
Local Open Scope Z_scope.
#[local] Abbreviation length := List.length.
Local Open Scope steps_scope.

Definition ADMIN_AUTH_HEADER : string := "x-llm-firewall-admin-token".

(** ** What administrators see: rows without the hashes of credentials *)

Record AdminIdentity := mkAdminIdentity { ai_admin_id : string; ai_admin_name : string; ai_role : AdminRole }.

Record TokenInfo := mkTokenInfo {
  ti_id : string; ti_tenant_id : string; ti_label : string; ti_active : bool; ti_created_at_unix : Z;
  ti_revoked_at_unix : option Z }.
Definition token_info (t : TenantToken) : TokenInfo :=
  mkTokenInfo (tt_id t) (tt_tenant_id t) (tt_label t) (tt_active t) (tt_created_at_unix t) (tt_revoked_at_unix t).

Record ScimTokenInfo := mkScimTokenInfo {
  sn_id : string; sn_organization_id : string; sn_label : string; sn_active : bool; sn_expires_at_unix : Z;
  sn_created_at_unix : Z; sn_revoked_at_unix : option Z }.
Definition scim_token_info (t : ScimToken) : ScimTokenInfo :=
  mkScimTokenInfo (st_id t) (st_organization_id t) (st_label t) (st_active t) (st_expires_at_unix t)
    (st_created_at_unix t) (st_revoked_at_unix t).

Record AdminInfo := mkAdminInfo {
  an_id : string; an_name : string; an_role : AdminRole; an_active : bool; an_created_at_unix : Z }.
Definition admin_info (a : ControlPlaneAdmin) : AdminInfo :=
  mkAdminInfo (ad_id a) (ad_name a) (ad_role a) (ad_active a) (ad_created_at_unix a).

Record OrganizationSamlConnectionResponse := mkSamlResponse {
  sp_organization_id : string; sp_entity_id : string; sp_metadata_sha256 : string; sp_active : bool;
  sp_created_at_unix : Z; sp_updated_at_unix : Z }.

Record WorkspaceOnboardingStatus := mkOnboardingStatus {
  wo_workspace_id : string; wo_tenant_id : string; wo_name : string; wo_workspace_active : bool; wo_tenant_active : bool;
  wo_active_proxy_token_count : Z; wo_active_webhook_count : Z }.
Record OrganizationOnboardingResponse := mkOnboarding {
  ob_organization_id : string; ob_organization_active : bool; ob_has_active_oidc : bool; ob_has_active_saml : bool;
  ob_active_scim_token_count : Z; ob_workspaces : list WorkspaceOnboardingStatus; ob_completed : bool;
  ob_next_actions : list string }.

Inductive AdminPayload :=
| AIdentity (i : AdminIdentity)
| AOrganization (o : Organization) | AOrganizations (l : list Organization)
| AOnboarding (o : OrganizationOnboardingResponse)
| AWorkspaces (l : list Workspace)
| AOidc (c : OrganizationOidcConnection) | ASaml (c : OrganizationSamlConnectionResponse)
| AIssuedScimToken (t : ScimTokenInfo) (token : string) | AScimTokens (l : list ScimTokenInfo)
| ATenant (t : Tenant) | ATenants (l : list Tenant)
| AIssuedAdmin (a : AdminInfo) (token : string) | AAdmins (l : list AdminInfo)
| AIssuedToken (id tenant_id label token : string) (created_at_unix : Z) | ATokens (l : list TokenInfo)
| ALimits (l : TenantLimits) | AModelPolicy (p : option TenantModelPolicy)
| AVersion (v : TenantPolicyVersion) | AVersions (l : list TenantPolicyVersion)
| ASimulation (s : TenantPolicySimulation)
| ADeployment (d : TenantPolicyDeployment) | ADeployments (l : list TenantPolicyDeployment)
| AEvents (l : list (SecurityEventRow * Value))
| AIssuedDestination (d : WebhookDestinationRow) (secret : string)
| ADestinations (l : list (WebhookDestinationRow * list string)) | ADeliveries (l : list WebhookDelivery)
| AAudit (l : list (Z * TenantAuditEvent))
| AReconciliation (r : UsageReconciliationRun) | AReconciliations (l : list UsageReconciliationRun)
| AObservations (l : list UsageReconciliationObservation)
| ARetention (p : option Z) | ARetentionRun (r : UsageRetentionRun) | ARetentionRuns (l : list UsageRetentionRun)
| AQuotaStatus (s : option UsageQuotaStatus) | AQuota (p : option UsageQuotaPolicy).

(** [AExport] is a policy version as an attachment with its hash as entity tag. *)
Inductive AdminBody :=
| AJson (p : AdminPayload)
| AExport (v : TenantPolicyVersion) (etag : string)
| AError (kind message : string)
| ANothing.

Record AdminResponse := mkAdminResponse { ap_status : Z; ap_body : AdminBody }.
Definition error (status : Z) (kind message : string) : AdminResponse := mkAdminResponse status (AError kind message).
Definition json (status : Z) (p : AdminPayload) : AdminResponse := mkAdminResponse status (AJson p).
Definition store_unavailable : AdminResponse := error 503 "tenant_store_unavailable" "tenant store temporarily unavailable".

(** ** Roles *)

Inductive Method := GET | POST | PUT | PATCH | DELETE | OtherMethod.
#[export] Instance Method_eq_dec : EqDecision Method.
Proof. solve_decision. Defined.

Definition method_is (m m' : Method) : bool := bool_decide (m = m').

Definition required_admin_role (method : Method) (path : string) : AdminRole :=
  if Str.contains "/scim-tokens" path
     || (Str.contains "/policy-versions/" path
         && (Str.ends_with "/approve" path || Str.ends_with "/activate" path || Str.ends_with "/rollback" path))
     || (method_is method PUT && Str.ends_with "/model-policy" path)
     || (negb (method_is method GET) && (Str.contains "/usage/retention" path || Str.contains "/usage/quota" path))
     || (negb (method_is method GET) && Str.starts_with "/admin/v1/organizations/" path
         && (Str.ends_with "/oidc" path || Str.ends_with "/saml" path))
     || (Str.contains "/webhook-destinations" path && negb (method_is method GET))
     || (Str.contains "/webhook-deliveries" path && negb (method_is method GET))
     || Str.starts_with "/admin/v1/admins" path
     || (method_is method DELETE && Str.starts_with "/admin/v1/tenants/" path)
     || (method_is method POST && bool_decide (path = "/admin/v1/organizations"))
     || (method_is method PATCH && Str.starts_with "/admin/v1/organizations/" path)
  then AdminOwner
  else if method_is method GET then AdminViewer
  else AdminOperator.

Definition bearer_matches (expected : string) (presented : option string) : bool :=
  match presented ≫= Str.strip_prefix "Bearer " with
  | Some presented => bool_decide (expected = presented)
  | None => false
  end.

(** ** Answers for the results of the store *)

Definition created {A} (r : result A string) (payload : A -> AdminPayload) (kind message : string) : AdminResponse :=
  match r with Ok x => json 201 (payload x) | Err _ => error 400 kind message end.
Definition saved {A} (r : result A string) (payload : A -> AdminPayload) (kind message : string) : AdminResponse :=
  match r with Ok x => json 200 (payload x) | Err _ => error 400 kind message end.
Definition listed {A} (r : result A string) (payload : A -> AdminPayload) : AdminResponse :=
  match r with Ok x => json 200 (payload x) | Err _ => store_unavailable end.
Definition found {A} (r : result (option A) string) (answer : A -> AdminResponse) (kind message : string) : AdminResponse :=
  match r with Ok (Some x) => answer x | Ok None => error 404 kind message | Err _ => store_unavailable end.
Definition flagged (r : result bool string) (kind message : string) : AdminResponse :=
  match r with
  | Ok true => mkAdminResponse 204 ANothing
  | Ok false => error 404 kind message
  | Err _ => store_unavailable
  end.

Record AdminConfig := mkAdminConfig {
  ag_tenant_store : bool; ag_admin_token : option string; ag_webhook_key : option string;
  ag_model_prices : list (string * ModelPrice) }.

Section admin.
Context `{Sha256, UrlParser, JsonCodec TenantPolicyDocument, JsonCodec TenantModelPolicy,
          JsonCodec (list string), JsonCodec Value}.
Variable hmac_sha256 : string -> string -> string.
Variable cfg : AdminConfig.

(** [store(&state)?] and one call. *)
Definition store {A} (op : Z -> (nat -> string) -> Op A) : Steps (result A string) :=
  if ag_tenant_store cfg then call hmac_sha256 op else done (Err "tenant store is not enabled").
Definition answer {A} (op : Z -> (nat -> string) -> Op A) (f : result A string -> AdminResponse) : Steps AdminResponse :=
  do r := store op in done (f r).

(** *** SCIM credentials *)

Definition issue_scim_token (organization_id label : string) (expires_at_unix : Z) : Steps AdminResponse :=
  answer (fun now random => TenantScim.issue_scim_token now (random 0%nat) (random 1%nat) organization_id label expires_at_unix)
    (fun r => created r (fun x => AIssuedScimToken (scim_token_info x.1) x.2) "scim_token_issue_error" "SCIM token could not be issued").
Definition list_scim_tokens (organization_id : string) : Steps AdminResponse :=
  answer (fun _ _ => TenantScim.list_scim_tokens organization_id) (fun r => listed r (fun l => AScimTokens (scim_token_info <$> l))).
Definition revoke_scim_token (token_id : string) : Steps AdminResponse :=
  answer (fun now _ => TenantScim.revoke_scim_token now token_id)
    (fun r => flagged r "scim_token_not_found" "SCIM token not found").

(** *** Organizations *)

Definition create_organization (name : string) : Steps AdminResponse :=
  answer (fun now random => TenantDirectory.create_organization now (random 0%nat) name)
    (fun r => created r AOrganization "organization_create_error" "organization could not be created").
Definition list_organizations : Steps AdminResponse :=
  answer (fun _ _ => TenantDirectory.list_organizations) (fun r => listed r AOrganizations).
Definition set_organization_state (organization_id : string) (active : bool) : Steps AdminResponse :=
  answer (fun _ _ => set_organization_active organization_id active)
    (fun r => match r with
              | Ok true => mkAdminResponse 204 ANothing
              | Ok false => error 404 "organization_not_found" "organization not found"
              | Err _ => error 400 "organization_state_error" "organization state could not be updated"
              end).
Definition create_organization_tenant (organization_id name : string) : Steps AdminResponse :=
  answer (fun now random => create_tenant_in_organization now (random 0%nat) organization_id name)
    (fun r => created r ATenant "organization_tenant_create_error" "tenant could not be created in this organization").
Definition list_organization_workspaces (organization_id : string) : Steps AdminResponse :=
  answer (fun _ _ => TenantDirectory.list_organization_workspaces organization_id) (fun r => listed r AWorkspaces).

Definition count {A} (p : A -> bool) (l : list A) : Z := Z.of_nat (length (List.filter p l)).

(** The loop over the workspaces: two store calls each. *)
Fixpoint onboarding_loop (tenant_active_by_id : gmap string bool) (l : list Workspace) :
    Steps (result (list WorkspaceOnboardingStatus) string) :=
  match l with
  | [] => done (Ok [])
  | ws :: l =>
      try tokens := store (fun _ _ => TenantDirectory.list_tokens (wk_tenant_id ws)) in
      try hooks := store (fun _ _ => TenantPolicy.list_webhook_destinations (wk_tenant_id ws)) in
      try rest := onboarding_loop tenant_active_by_id l in
      done (Ok (mkOnboardingStatus (wk_id ws) (wk_tenant_id ws) (wk_name ws) (wk_active ws)
                  (default false (tenant_active_by_id !! wk_tenant_id ws))
                  (count tt_active tokens) (count (fun d => wd_active d.1) hooks) :: rest))
  end.

Definition onboarding_actions (organization : Organization) (oidc saml : bool) (l : list WorkspaceOnboardingStatus) :
    list string :=
  ((if og_active organization then [] else ["activate_organization"]) ++
   (if negb oidc && negb saml then ["configure_oidc_or_saml"] else []) ++
   (if l is [] then ["create_workspace"] else []) ++
   flat_map (fun ws =>
     (if negb (wo_workspace_active ws) || negb (wo_tenant_active ws)
      then ["activate_workspace:" +:+ wo_workspace_id ws] else []) ++
     (if wo_active_proxy_token_count ws =? 0 then ["issue_proxy_token:" +:+ wo_workspace_id ws] else [])) l)%list.

Definition organization_onboarding (organization_id : string) :
    Steps (result (option OrganizationOnboardingResponse) string) :=
  try organizations := store (fun _ _ => TenantDirectory.list_organizations) in
  match List.find (fun o => bool_decide (og_id o = organization_id)) organizations with
  | None => done (Ok None)
  | Some organization =>
      do now := clock in
      try oidc := store (fun _ _ => organization_oidc_connection organization_id) in
      try saml := store (fun _ _ => organization_saml_connection organization_id) in
      try tokens := store (fun _ _ => TenantScim.list_scim_tokens organization_id) in
      try tenants := store (fun _ _ => TenantDirectory.list_tenants) in
      try l := store (fun _ _ => TenantDirectory.list_organization_workspaces organization_id) in
      try statuses := onboarding_loop (foldl (fun m t => <[tn_id t := tn_active t]> m) ∅ tenants) l in
      let has_active_oidc := match oidc with Some c => oc_active c | None => false end in
      let has_active_saml := match saml with Some c => sc_active c | None => false end in
      let next_actions := onboarding_actions organization has_active_oidc has_active_saml statuses in
      done (Ok (Some (mkOnboarding (og_id organization) (og_active organization) has_active_oidc has_active_saml
        (count (fun t => st_active t && (now <? st_expires_at_unix t)) tokens) statuses
        (if next_actions is [] then true else false) next_actions)))
  end.

Definition get_organization_onboarding (organization_id : string) : Steps AdminResponse :=
  do r := organization_onboarding organization_id in
  done (found r (fun s => json 200 (AOnboarding s)) "organization_not_found" "organization not found").

(** *** Federated login *)

Definition set_organization_oidc_connection (organization_id issuer client_id redirect_uri : string) (active : bool) :
    Steps AdminResponse :=
  answer (fun now _ => TenantSession.set_organization_oidc_connection now organization_id issuer client_id redirect_uri active)
    (fun r => saved r AOidc "organization_oidc_connection_error" "OIDC connection could not be saved").
Definition get_organization_oidc_connection (organization_id : string) : Steps AdminResponse :=
  answer (fun _ _ => organization_oidc_connection organization_id)
    (fun r => found r (fun c => json 200 (AOidc c)) "organization_oidc_connection_not_found" "OIDC connection not found").
Definition delete_organization_oidc_connection (organization_id : string) : Steps AdminResponse :=
  answer (fun _ _ => TenantSession.delete_organization_oidc_connection organization_id)
    (fun r => flagged r "organization_oidc_connection_not_found" "OIDC connection not found").

Definition saml_connection_response (c : OrganizationSamlConnection) : OrganizationSamlConnectionResponse :=
  mkSamlResponse (sc_organization_id c) (sc_entity_id c) (hex_lower (sha256 (sc_metadata_xml c))) (sc_active c)
    (sc_created_at_unix c) (sc_updated_at_unix c).
Definition set_organization_saml_connection (organization_id entity_id metadata_xml certificate : string) (active : bool) :
    Steps AdminResponse :=
  answer (fun now _ => TenantSession.set_organization_saml_connection now organization_id entity_id metadata_xml certificate active)
    (fun r => saved r (fun c => ASaml (saml_connection_response c)) "organization_saml_connection_error"
                "SAML connection could not be saved").
Definition get_organization_saml_connection (organization_id : string) : Steps AdminResponse :=
  answer (fun _ _ => organization_saml_connection organization_id)
    (fun r => found r (fun c => json 200 (ASaml (saml_connection_response c))) "organization_saml_connection_not_found"
                "SAML connection not found").
Definition delete_organization_saml_connection (organization_id : string) : Steps AdminResponse :=
  answer (fun _ _ => TenantSession.delete_organization_saml_connection organization_id)
    (fun r => flagged r "organization_saml_connection_not_found" "SAML connection not found").

(** *** Tenants, administrators and tokens *)

Definition create_tenant (name : string) : Steps AdminResponse :=
  answer (fun now random => TenantDirectory.create_tenant now (random 0%nat) name)
    (fun r => created r ATenant "tenant_create_error" "tenant could not be created").
Definition list_tenants : Steps AdminResponse :=
  answer (fun _ _ => TenantDirectory.list_tenants) (fun r => listed r ATenants).
Definition whoami (identity : AdminIdentity) : AdminResponse := json 200 (AIdentity identity).
Definition set_tenant_state (tenant_id : string) (active : bool) : Steps AdminResponse :=
  answer (fun _ _ => set_tenant_active tenant_id active) (fun r => flagged r "tenant_not_found" "tenant not found").
Definition delete_tenant (tenant_id : string) : Steps AdminResponse :=
  answer (fun _ _ => TenantDirectory.delete_tenant tenant_id) (fun r => flagged r "tenant_not_found" "tenant not found").

Definition create_admin (name : string) (role : AdminRole) : Steps AdminResponse :=
  answer (fun now random => TenantDirectory.create_admin now (random 0%nat) (random 1%nat) name role)
    (fun r => created r (fun x => AIssuedAdmin (admin_info x.1) x.2) "admin_create_error"
                "control-plane admin could not be created").
Definition list_admins : Steps AdminResponse :=
  answer (fun _ _ => TenantDirectory.list_admins) (fun r => listed r (fun l => AAdmins (admin_info <$> l))).
Definition revoke_admin (admin_id : string) : Steps AdminResponse :=
  answer (fun now _ => TenantDirectory.revoke_admin now admin_id) (fun r => flagged r "admin_not_found" "admin not found").

Definition issue_token (tenant_id label : string) : Steps AdminResponse :=
  answer (fun now random => TenantDirectory.issue_token now (random 0%nat) (random 1%nat) tenant_id label)
    (fun r => created r (fun x => AIssuedToken (tt_id x.1) (tt_tenant_id x.1) (tt_label x.1) x.2 (tt_created_at_unix x.1))
                "tenant_token_issue_error" "tenant token could not be issued").
Definition list_tokens (tenant_id : string) : Steps AdminResponse :=
  answer (fun _ _ => TenantDirectory.list_tokens tenant_id) (fun r => listed r (fun l => ATokens (token_info <$> l))).
Definition revoke_token (token_id : string) : Steps AdminResponse :=
  answer (fun now _ => TenantDirectory.revoke_token now token_id)
    (fun r => flagged r "tenant_token_not_found" "token not found").

(** *** Limits and policies *)

Definition get_limits (tenant_id : string) : Steps AdminResponse :=
  answer (fun _ _ => limits_for tenant_id) (fun r => listed r ALimits).
Definition set_limits (tenant_id : string) (limits : TenantLimits) : Steps AdminResponse :=
  if (if tl_spend_limit limits is Some _ then true else false) && (if ag_model_prices cfg is [] then true else false) then
    done (error 400 "tenant_spend_prices_missing" "configure current model_prices before enabling a tenant spend limit")
  else
    answer (fun now _ => TenantDirectory.set_limits now tenant_id limits)
      (fun r => saved r (fun _ => ALimits limits) "tenant_limits_error" "tenant limits could not be saved").

Definition get_model_policy (tenant_id : string) : Steps AdminResponse :=
  answer (fun _ _ => model_policy_for tenant_id) (fun r => listed r AModelPolicy).
(** Three commits: the version stays when its approval or its deployment fails. *)
Definition set_model_policy (identity : AdminIdentity) (tenant_id : string) (policy : option TenantModelPolicy) :
    Steps AdminResponse :=
  do r :=
    (try version := store (fun now random => TenantPolicy.create_policy_version now (random 0%nat) tenant_id
                             (ai_admin_id identity) (policy_document_new policy)) in
     try _x := store (fun now _ => TenantPolicy.approve_policy_version now tenant_id (tv_id version) (ai_admin_id identity)) in
     store (fun now random => TenantPolicy.deploy_policy_version now (fun k => random (S k)) (random 0%nat) tenant_id
              (tv_id version) (ai_admin_id identity) Activate)) in
  done (saved r (fun _ => AModelPolicy policy) "tenant_model_policy_error" "tenant model policy could not be saved").

Definition create_policy_version (identity : AdminIdentity) (tenant_id : string) (document : TenantPolicyDocument) :
    Steps AdminResponse :=
  answer (fun now random => TenantPolicy.create_policy_version now (random 0%nat) tenant_id (ai_admin_id identity) document)
    (fun r => created r AVersion "tenant_policy_version_error" "tenant policy version could not be created").
Definition list_policy_versions (tenant_id : string) (limit : nat) : Steps AdminResponse :=
  answer (fun _ _ => TenantPolicy.list_policy_versions tenant_id limit) (fun r => listed r AVersions).
Definition version_missing : string * string := ("tenant_policy_version_not_found", "tenant policy version not found").
Definition get_policy_version (tenant_id version_id : string) : Steps AdminResponse :=
  answer (fun _ _ => policy_version tenant_id version_id)
    (fun r => found r (fun v => json 200 (AVersion v)) version_missing.1 version_missing.2).
Definition quote : string := String (ascii_of_nat 34) EmptyString.
Definition export_policy_version (tenant_id version_id : string) : Steps AdminResponse :=
  answer (fun _ _ => policy_version tenant_id version_id)
    (fun r => found r (fun v => mkAdminResponse 200 (AExport v (quote +:+ "sha256:" +:+ tv_content_sha256 v +:+ quote)))
                version_missing.1 version_missing.2).
Definition simulate_policy_version (tenant_id version_id : string) (cases : list string) : Steps AdminResponse :=
  answer (fun _ _ => TenantPolicy.simulate_policy_version tenant_id version_id cases)
    (fun r => saved r ASimulation "tenant_policy_simulation_error" "tenant policy simulation could not be completed").

Definition policy_mutation_error : AdminResponse :=
  error 400 "tenant_policy_lifecycle_error" "tenant policy lifecycle operation could not be completed".
Definition approve_policy_version (identity : AdminIdentity) (tenant_id version_id : string) : Steps AdminResponse :=
  answer (fun now _ => TenantPolicy.approve_policy_version now tenant_id version_id (ai_admin_id identity))
    (fun r => match r with Ok v => json 200 (AVersion v) | Err _ => policy_mutation_error end).
Definition deploy_policy_version (identity : AdminIdentity) (tenant_id version_id : string)
    (action : PolicyDeploymentAction) : Steps AdminResponse :=
  answer (fun now random => TenantPolicy.deploy_policy_version now (fun k => random (S k)) (random 0%nat) tenant_id
            version_id (ai_admin_id identity) action)
    (fun r => match r with Ok d => json 200 (ADeployment d) | Err _ => policy_mutation_error end).
Definition activate_policy_version (identity : AdminIdentity) (tenant_id version_id : string) : Steps AdminResponse :=
  deploy_policy_version identity tenant_id version_id Activate.
Definition rollback_policy_version (identity : AdminIdentity) (tenant_id version_id : string) : Steps AdminResponse :=
  deploy_policy_version identity tenant_id version_id Rollback.
Definition list_policy_deployments (tenant_id : string) (limit : nat) : Steps AdminResponse :=
  answer (fun _ _ => TenantPolicy.list_policy_deployments tenant_id limit) (fun r => listed r ADeployments).

(** *** Security events and webhooks *)

Definition list_security_events (tenant_id : string) (after_sequence : Z) (limit : nat) : Steps AdminResponse :=
  answer (fun _ _ => TenantPolicy.list_security_events tenant_id after_sequence limit) (fun r => listed r AEvents).
Definition create_webhook_destination (tenant_id url : string) (event_types : list string) : Steps AdminResponse :=
  answer (fun now random => TenantPolicy.create_webhook_destination hmac_sha256 (ag_webhook_key cfg) now (random 0%nat)
            tenant_id url event_types)
    (fun r => created r (fun x => AIssuedDestination x.1 x.2) "webhook_destination_error"
                "webhook destination could not be created").
Definition list_webhook_destinations (tenant_id : string) : Steps AdminResponse :=
  answer (fun _ _ => TenantPolicy.list_webhook_destinations tenant_id) (fun r => listed r ADestinations).
Definition deactivate_webhook_destination (tenant_id destination_id : string) : Steps AdminResponse :=
  answer (fun now _ => TenantPolicy.deactivate_webhook_destination now tenant_id destination_id)
    (fun r => flagged r "webhook_destination_not_found" "webhook destination not found or already inactive").
Definition list_webhook_deliveries (tenant_id : string) (limit : nat) : Steps AdminResponse :=
  answer (fun _ _ => TenantPolicy.list_webhook_deliveries tenant_id limit) (fun r => listed r ADeliveries).

(** *** Audit and usage *)

Definition list_audit (tenant_id : string) (limit : nat) : Steps AdminResponse :=
  answer (fun _ _ => TenantDirectory.list_audit tenant_id limit) (fun r => listed r AAudit).
Definition import_usage_reconciliation (identity : AdminIdentity) (tenant_id : string)
    (import : NewUsageReconciliationImport) : Steps AdminResponse :=
  answer (fun now random => TenantUsage.import_usage_reconciliation now (random 0%nat) tenant_id (ai_admin_id identity) import)
    (fun r => saved r AReconciliation "usage_reconciliation_import_error" "provider usage statement could not be imported").
Definition list_usage_reconciliation_runs (tenant_id : string) (limit : nat) : Steps AdminResponse :=
  answer (fun _ _ => TenantUsage.list_usage_reconciliation_runs tenant_id limit) (fun r => listed r AReconciliations).
Definition list_usage_reconciliation_observations (tenant_id run_id : string) (limit : nat) : Steps AdminResponse :=
  answer (fun _ _ => TenantUsage.list_usage_reconciliation_observations tenant_id run_id limit)
    (fun r => listed r AObservations).
Definition get_usage_retention_policy (tenant_id : string) : Steps AdminResponse :=
  answer (fun _ _ => usage_retention_policy tenant_id) (fun r => listed r ARetention).
Definition set_usage_retention_policy (identity : AdminIdentity) (tenant_id : string) (policy : option Z) :
    Steps AdminResponse :=
  answer (fun now _ => TenantUsage.set_usage_retention_policy now tenant_id (ai_admin_id identity) policy)
    (fun r => saved r (fun _ => ARetention policy) "usage_retention_policy_error" "usage retention policy could not be saved").
Definition run_usage_retention (identity : AdminIdentity) (tenant_id : string) (execute : bool) : Steps AdminResponse :=
  answer (fun now random => TenantUsage.run_usage_retention now (random 0%nat) tenant_id (ai_admin_id identity) execute)
    (fun r => saved r ARetentionRun "usage_retention_run_error" "usage retention run could not be completed").
Definition list_usage_retention_runs (tenant_id : string) (limit : nat) : Steps AdminResponse :=
  answer (fun _ _ => TenantUsage.list_usage_retention_runs tenant_id limit) (fun r => listed r ARetentionRuns).
Definition get_usage_quota_status (tenant_id : string) : Steps AdminResponse :=
  answer (fun now _ => usage_quota_status now tenant_id) (fun r => listed r AQuotaStatus).
Definition set_usage_quota_policy (identity : AdminIdentity) (tenant_id : string) (policy : option UsageQuotaPolicy) :
    Steps AdminResponse :=
  answer (fun now _ => TenantUsage.set_usage_quota_policy now tenant_id (ai_admin_id identity) policy)
    (fun r => saved r (fun _ => AQuota policy) "usage_quota_policy_error" "usage quota policy could not be saved").

(** *** The routes *)

(** A path parameter: the segment of the URI, and its decoded value. *)
Record Param := mkParam { raw : string; value : string }.

Inductive AdminEndpoint :=
| Whoami
| CreateOrganization (name : string) | ListOrganizations
| SetOrganizationState (organization_id : Param) (active : bool)
| CreateOrganizationTenant (organization_id : Param) (name : string)
| ListOrganizationWorkspaces (organization_id : Param) | GetOrganizationOnboarding (organization_id : Param)
| IssueScimToken (organization_id : Param) (label : string) (expires_at_unix : Z) | ListScimTokens (organization_id : Param)
| GetOidcConnection (organization_id : Param)
| SetOidcConnection (organization_id : Param) (issuer client_id redirect_uri : string) (active : bool)
| DeleteOidcConnection (organization_id : Param)
| GetSamlConnection (organization_id : Param)
| SetSamlConnection (organization_id : Param) (entity_id metadata_xml certificate : string) (active : bool)
| DeleteSamlConnection (organization_id : Param)
| CreateTenant (name : string) | ListTenants
| SetTenantState (tenant_id : Param) (active : bool) | DeleteTenant (tenant_id : Param)
| IssueToken (tenant_id : Param) (label : string) | ListTokens (tenant_id : Param)
| GetLimits (tenant_id : Param) | SetLimits (tenant_id : Param) (limits : TenantLimits)
| GetModelPolicy (tenant_id : Param) | SetModelPolicy (tenant_id : Param) (policy : option TenantModelPolicy)
| ListPolicyVersions (tenant_id : Param) (limit : nat)
| CreatePolicyVersion (tenant_id : Param) (document : TenantPolicyDocument)
| GetPolicyVersion (tenant_id version_id : Param) | ExportPolicyVersion (tenant_id version_id : Param)
| SimulatePolicyVersion (tenant_id version_id : Param) (cases : list string)
| ApprovePolicyVersion (tenant_id version_id : Param)
| ActivatePolicyVersion (tenant_id version_id : Param)
| RollbackPolicyVersion (tenant_id version_id : Param)
| ListPolicyDeployments (tenant_id : Param) (limit : nat)
| ListSecurityEvents (tenant_id : Param) (after_sequence : Z) (limit : nat)
| ListWebhookDestinations (tenant_id : Param)
| CreateWebhookDestination (tenant_id : Param) (url : string) (event_types : list string)
| DeactivateWebhookDestination (tenant_id destination_id : Param)
| ListWebhookDeliveries (tenant_id : Param) (limit : nat)
| ListAudit (tenant_id : Param) (limit : nat)
| ListReconciliationRuns (tenant_id : Param) (limit : nat)
| ImportReconciliation (tenant_id : Param) (import : NewUsageReconciliationImport)
| ListReconciliationObservations (tenant_id run_id : Param) (limit : nat)
| GetRetentionPolicy (tenant_id : Param) | SetRetentionPolicy (tenant_id : Param) (policy : option Z)
| ListRetentionRuns (tenant_id : Param) (limit : nat) | RunRetention (tenant_id : Param) (execute : bool)
| GetQuotaStatus (tenant_id : Param) | SetQuotaPolicy (tenant_id : Param) (policy : option UsageQuotaPolicy)
| RevokeToken (token_id : Param) | RevokeScimToken (token_id : Param)
| CreateAdmin (name : string) (role : AdminRole) | ListAdmins | RevokeAdmin (admin_id : Param).

Definition method_of (e : AdminEndpoint) : Method :=
  match e with
  | CreateOrganization _ | CreateOrganizationTenant _ _ | IssueScimToken _ _ _ | CreateTenant _ | IssueToken _ _
  | CreatePolicyVersion _ _ | SimulatePolicyVersion _ _ _ | ApprovePolicyVersion _ _ | ActivatePolicyVersion _ _
  | RollbackPolicyVersion _ _ | CreateWebhookDestination _ _ _ | DeactivateWebhookDestination _ _
  | ImportReconciliation _ _ | RunRetention _ _ | RevokeToken _ | RevokeScimToken _ | CreateAdmin _ _
  | RevokeAdmin _ => POST
  | SetOidcConnection _ _ _ _ _ | SetSamlConnection _ _ _ _ _ | SetLimits _ _ | SetModelPolicy _ _
  | SetRetentionPolicy _ _ | SetQuotaPolicy _ _ => PUT
  | SetOrganizationState _ _ | SetTenantState _ _ => PATCH
  | DeleteOidcConnection _ | DeleteSamlConnection _ | DeleteTenant _ => DELETE
  | _ => GET
  end.

Definition organization_path (o : Param) (rest : string) : string := "/admin/v1/organizations/" +:+ raw o +:+ rest.
Definition tenant_path (t : Param) (rest : string) : string := "/admin/v1/tenants/" +:+ raw t +:+ rest.
Definition version_path (t v : Param) (rest : string) : string := tenant_path t ("/policy-versions/" +:+ raw v +:+ rest).

Definition path_of (e : AdminEndpoint) : string :=
  match e with
  | Whoami => "/admin/v1/whoami"
  | CreateOrganization _ | ListOrganizations => "/admin/v1/organizations"
  | SetOrganizationState o _ => organization_path o EmptyString
  | CreateOrganizationTenant o _ => organization_path o "/tenants"
  | ListOrganizationWorkspaces o => organization_path o "/workspaces"
  | GetOrganizationOnboarding o => organization_path o "/onboarding"
  | IssueScimToken o _ _ | ListScimTokens o => organization_path o "/scim-tokens"
  | GetOidcConnection o | SetOidcConnection o _ _ _ _ | DeleteOidcConnection o => organization_path o "/oidc"
  | GetSamlConnection o | SetSamlConnection o _ _ _ _ | DeleteSamlConnection o => organization_path o "/saml"
  | CreateTenant _ | ListTenants => "/admin/v1/tenants"
  | SetTenantState t _ | DeleteTenant t => tenant_path t EmptyString
  | IssueToken t _ | ListTokens t => tenant_path t "/tokens"
  | GetLimits t | SetLimits t _ => tenant_path t "/limits"
  | GetModelPolicy t | SetModelPolicy t _ => tenant_path t "/model-policy"
  | ListPolicyVersions t _ | CreatePolicyVersion t _ => tenant_path t "/policy-versions"
  | GetPolicyVersion t v => version_path t v EmptyString
  | ExportPolicyVersion t v => version_path t v "/export"
  | SimulatePolicyVersion t v _ => version_path t v "/simulate"
  | ApprovePolicyVersion t v => version_path t v "/approve"
  | ActivatePolicyVersion t v => version_path t v "/activate"
  | RollbackPolicyVersion t v => version_path t v "/rollback"
  | ListPolicyDeployments t _ => tenant_path t "/policy-deployments"
  | ListSecurityEvents t _ _ => tenant_path t "/security-events"
  | ListWebhookDestinations t | CreateWebhookDestination t _ _ => tenant_path t "/webhook-destinations"
  | DeactivateWebhookDestination t d => tenant_path t ("/webhook-destinations/" +:+ raw d +:+ "/deactivate")
  | ListWebhookDeliveries t _ => tenant_path t "/webhook-deliveries"
  | ListAudit t _ => tenant_path t "/audit"
  | ListReconciliationRuns t _ | ImportReconciliation t _ => tenant_path t "/usage/reconciliation"
  | ListReconciliationObservations t r _ => tenant_path t ("/usage/reconciliation/" +:+ raw r)
  | GetRetentionPolicy t | SetRetentionPolicy t _ => tenant_path t "/usage/retention/policy"
  | ListRetentionRuns t _ | RunRetention t _ => tenant_path t "/usage/retention/runs"
  | GetQuotaStatus t | SetQuotaPolicy t _ => tenant_path t "/usage/quota"
  | RevokeToken i => "/admin/v1/tokens/" +:+ raw i +:+ "/revoke"
  | RevokeScimToken i => "/admin/v1/scim-tokens/" +:+ raw i +:+ "/revoke"
  | CreateAdmin _ _ | ListAdmins => "/admin/v1/admins"
  | RevokeAdmin i => "/admin/v1/admins/" +:+ raw i +:+ "/revoke"
  end.

Definition admin_route (e : AdminEndpoint) (identity : AdminIdentity) : Steps AdminResponse :=
  match e with
  | Whoami => done (whoami identity)
  | CreateOrganization name => create_organization name
  | ListOrganizations => list_organizations
  | SetOrganizationState o active => set_organization_state (value o) active
  | CreateOrganizationTenant o name => create_organization_tenant (value o) name
  | ListOrganizationWorkspaces o => list_organization_workspaces (value o)
  | GetOrganizationOnboarding o => get_organization_onboarding (value o)
  | IssueScimToken o label expires => issue_scim_token (value o) label expires
  | ListScimTokens o => list_scim_tokens (value o)
  | GetOidcConnection o => get_organization_oidc_connection (value o)
  | SetOidcConnection o issuer client uri active => set_organization_oidc_connection (value o) issuer client uri active
  | DeleteOidcConnection o => delete_organization_oidc_connection (value o)
  | GetSamlConnection o => get_organization_saml_connection (value o)
  | SetSamlConnection o entity xml cert active => set_organization_saml_connection (value o) entity xml cert active
  | DeleteSamlConnection o => delete_organization_saml_connection (value o)
  | CreateTenant name => create_tenant name
  | ListTenants => list_tenants
  | SetTenantState t active => set_tenant_state (value t) active
  | DeleteTenant t => delete_tenant (value t)
  | IssueToken t label => issue_token (value t) label
  | ListTokens t => list_tokens (value t)
  | GetLimits t => get_limits (value t)
  | SetLimits t limits => set_limits (value t) limits
  | GetModelPolicy t => get_model_policy (value t)
  | SetModelPolicy t policy => set_model_policy identity (value t) policy
  | ListPolicyVersions t limit => list_policy_versions (value t) limit
  | CreatePolicyVersion t document => create_policy_version identity (value t) document
  | GetPolicyVersion t v => get_policy_version (value t) (value v)
  | ExportPolicyVersion t v => export_policy_version (value t) (value v)
  | SimulatePolicyVersion t v cases => simulate_policy_version (value t) (value v) cases
  | ApprovePolicyVersion t v => approve_policy_version identity (value t) (value v)
  | ActivatePolicyVersion t v => activate_policy_version identity (value t) (value v)
  | RollbackPolicyVersion t v => rollback_policy_version identity (value t) (value v)
  | ListPolicyDeployments t limit => list_policy_deployments (value t) limit
  | ListSecurityEvents t after limit => list_security_events (value t) after limit
  | ListWebhookDestinations t => list_webhook_destinations (value t)
  | CreateWebhookDestination t url types => create_webhook_destination (value t) url types
  | DeactivateWebhookDestination t d => deactivate_webhook_destination (value t) (value d)
  | ListWebhookDeliveries t limit => list_webhook_deliveries (value t) limit
  | ListAudit t limit => list_audit (value t) limit
  | ListReconciliationRuns t limit => list_usage_reconciliation_runs (value t) limit
  | ImportReconciliation t import => import_usage_reconciliation identity (value t) import
  | ListReconciliationObservations t r limit => list_usage_reconciliation_observations (value t) (value r) limit
  | GetRetentionPolicy t => get_usage_retention_policy (value t)
  | SetRetentionPolicy t policy => set_usage_retention_policy identity (value t) policy
  | ListRetentionRuns t limit => list_usage_retention_runs (value t) limit
  | RunRetention t execute => run_usage_retention identity (value t) execute
  | GetQuotaStatus t => get_usage_quota_status (value t)
  | SetQuotaPolicy t policy => set_usage_quota_policy identity (value t) policy
  | RevokeToken i => revoke_token (value i)
  | RevokeScimToken i => revoke_scim_token (value i)
  | CreateAdmin name role => create_admin name role
  | ListAdmins => list_admins
  | RevokeAdmin i => revoke_admin (value i)
  end.

(** *** The credential and the role *)

Definition bootstrap_owner : AdminIdentity := mkAdminIdentity "bootstrap_owner" "Bootstrap owner" AdminOwner.
Definition admin_identity (a : ControlPlaneAdmin) : AdminIdentity := mkAdminIdentity (ad_id a) (ad_name a) (ad_role a).

(** The identity of a request: the bootstrap credential, or an administrator of the store. *)
Definition admin_caller (presented : option string) : Steps (result (option AdminIdentity) string) :=
  if match ag_admin_token cfg with Some expected => bearer_matches expected presented | None => false end
  then done (Ok (Some bootstrap_owner))
  else if ag_tenant_store cfg then
    try a := call hmac_sha256 (fun _ _ => authenticate_admin_bearer presented) in
    done (Ok (admin_identity <$> a))
  else done (Ok None).

Definition require_admin_token (presented : option string) (method : Method) (path : string)
    (next : AdminIdentity -> Steps AdminResponse) : Steps AdminResponse :=
  do identity := admin_caller presented in
  match identity with
  | Err _ => done store_unavailable
  | Ok None => done (error 401 "admin_authentication_error" "admin authentication required")
  | Ok (Some identity) =>
      if admin_permits (ai_role identity) (required_admin_role method path) then next identity
      else done (error 403 "admin_authorization_error" "admin role does not permit this operation")
  end.

Definition admin_request (e : AdminEndpoint) (headers : HeaderMap) : Steps AdminResponse :=
  require_admin_token (head (get_all ADMIN_AUTH_HEADER headers) ≫= to_str) (method_of e) (path_of e) (admin_route e).
End admin.
