(* ===== verification/AdminProps.v ===== *)
(** What administrators can do: every change goes with a live credential whose role is one
    the operation requires, at the resources the path names and in the name of that administrator. *)
From S2P Require Import Prelude BTree Net Json Spend TenantDb TenantDirectory TenantScim TenantSession.
From S2P Require Import TenantPolicy TenantUsage TenantAccess TenantScene Oidc PortalTypes Portal Steps Admin.
From Stdlib Require Import String Ascii.
Local Open Scope string_scope.
Local Open Scope Z_scope.
#[local] Abbreviation length := List.length.

(** ** Requests and roles *)

(** Requests to the store that only an owner may cause: those that decide who administers or
    provisions, which policy is in force, where events are sent, how members log in, what usage is kept, and
    what exists at all. *)
Definition owner_only (r : Request) : bool :=
  match r with
  | RCreateAdmin _ _ _ _ _ | RRevokeAdmin _ _ | RIssueScimToken _ _ _ _ _ _ | RRevokeScimToken _ _
  | RApprovePolicyVersion _ _ _ _ | RDeployPolicyVersion _ _ _ _ _ _ _ | RDeleteTenant _
  | RCreateOrganization _ _ _ | RSetOrganizationActive _ _
  | RSetOidcConnection _ _ _ _ _ _ | RDeleteOidcConnection _ | RSetSamlConnection _ _ _ _ _ _ | RDeleteSamlConnection _
  | RCreateWebhook _ _ _ _ _ _ | RDeactivateWebhook _ _ _
  | RSetRetention _ _ _ _ | RRunRetention _ _ _ _ _ | RSetQuota _ _ _ _ => true
  | _ => false
  end.

(** The requests of an endpoint, for the administrator it was called by. *)
Definition admin_asks (cfg : AdminConfig) (e : AdminEndpoint) (i : AdminIdentity) (r : Request) : Prop :=
  let actor := ai_admin_id i in
  match e, r with
  | CreateOrganization n, RCreateOrganization _ _ n' => n' = n
  | SetOrganizationState o a, RSetOrganizationActive o' a' => o' = value o /\ a' = a
  | CreateOrganizationTenant o n, RCreateTenant _ _ o' n' => o' = value o /\ n' = n
  | IssueScimToken o l x, RIssueScimToken _ _ _ o' l' x' => o' = value o /\ l' = l /\ x' = x
  | SetOidcConnection o i c u a, RSetOidcConnection _ o' i' c' u' a' => o' = value o /\ i' = i /\ c' = c /\ u' = u /\ a' = a
  | DeleteOidcConnection o, RDeleteOidcConnection o' => o' = value o
  | SetSamlConnection o n x c a, RSetSamlConnection _ o' n' x' c' a' => o' = value o /\ n' = n /\ x' = x /\ c' = c /\ a' = a
  | DeleteSamlConnection o, RDeleteSamlConnection o' => o' = value o
  | CreateTenant n, RCreateTenant _ _ o n' => o = BOOTSTRAP_ORGANIZATION_ID /\ n' = n
  | SetTenantState t a, RSetTenantActive t' a' => t' = value t /\ a' = a
  | DeleteTenant t, RDeleteTenant t' => t' = value t
  | IssueToken t l, RIssueToken _ _ _ t' l' => t' = value t /\ l' = l
  | SetLimits t l, RSetLimits _ t' l' => t' = value t /\ l' = l /\ (tl_spend_limit l <> None -> ag_model_prices cfg <> [])
  | SetModelPolicy t p, RCreatePolicyVersion _ _ t' a d => t' = value t /\ a = actor /\ d = policy_document_new p
  | SetModelPolicy t _, RApprovePolicyVersion _ t' _ a => t' = value t /\ a = actor
  | SetModelPolicy t _, RDeployPolicyVersion _ _ _ t' _ a action => t' = value t /\ a = actor /\ action = Activate
  | CreatePolicyVersion t d, RCreatePolicyVersion _ _ t' a d' => t' = value t /\ a = actor /\ d' = d
  | ApprovePolicyVersion t v, RApprovePolicyVersion _ t' v' a => t' = value t /\ v' = value v /\ a = actor
  | ActivatePolicyVersion t v, RDeployPolicyVersion _ _ _ t' v' a action =>
      t' = value t /\ v' = value v /\ a = actor /\ action = Activate
  | RollbackPolicyVersion t v, RDeployPolicyVersion _ _ _ t' v' a action =>
      t' = value t /\ v' = value v /\ a = actor /\ action = Rollback
  | CreateWebhookDestination t u l, RCreateWebhook k _ _ t' u' l' => k = ag_webhook_key cfg /\ t' = value t /\ u' = u /\ l' = l
  | DeactivateWebhookDestination t d, RDeactivateWebhook _ t' d' => t' = value t /\ d' = value d
  | ImportReconciliation t i, RImportReconciliation _ _ t' a i' => t' = value t /\ a = actor /\ i' = i
  | SetRetentionPolicy t p, RSetRetention _ t' a p' => t' = value t /\ a = actor /\ p' = p
  | RunRetention t x, RRunRetention _ _ t' a x' => t' = value t /\ a = actor /\ x' = x
  | SetQuotaPolicy t p, RSetQuota _ t' a p' => t' = value t /\ a = actor /\ p' = p
  | RevokeToken k, RRevokeToken _ k' => k' = value k
  | RevokeScimToken k, RRevokeScimToken _ k' => k' = value k
  | CreateAdmin n role, RCreateAdmin _ _ _ n' role' => n' = n /\ role' = role
  | RevokeAdmin k, RRevokeAdmin _ k' => k' = value k
  | _, _ => False
  end.

Lemma asks_writes cfg e i r : admin_asks cfg e i r -> method_of e <> GET.
Proof. by destruct e. Qed.

(** ** The role a path requires *)

Lemma ends_tail (suf p s : string) : Str.ends_with suf s = true -> Str.ends_with suf (p +:+ s) = true.
Proof. rewrite !Str.ends_with_spec. intros [q ->]. exists (p +:+ q). by rewrite Str.app_assoc. Qed.

Lemma contains_head (n r : string) : Str.contains n (n +:+ r) = true.
Proof. exact (Str.contains_app EmptyString n r). Qed.

Section clauses.
Variables (m : Method) (p : string).

(** The clauses of [required_admin_role] that name the owner. *)
Lemma owner_scim : Str.contains "/scim-tokens" p = true -> required_admin_role m p = AdminOwner.
Proof. unfold required_admin_role. by intros ->. Qed.
Lemma owner_version : Str.contains "/policy-versions/" p = true ->
  Str.ends_with "/approve" p || Str.ends_with "/activate" p || Str.ends_with "/rollback" p = true ->
  required_admin_role m p = AdminOwner.
Proof. unfold required_admin_role. intros -> ->. by rewrite orb_true_r. Qed.
Lemma owner_model_policy : Str.ends_with "/model-policy" p = true -> required_admin_role PUT p = AdminOwner.
Proof. unfold required_admin_role. intros ->. by rewrite !orb_true_r. Qed.
Lemma owner_usage : m <> GET -> Str.contains "/usage/retention" p || Str.contains "/usage/quota" p = true ->
  required_admin_role m p = AdminOwner.
Proof. unfold required_admin_role, method_is. intros Hm ->. rewrite (bool_decide_eq_false_2 _ Hm). by rewrite !orb_true_r. Qed.
Lemma owner_connection : m <> GET -> Str.starts_with "/admin/v1/organizations/" p = true ->
  Str.ends_with "/oidc" p || Str.ends_with "/saml" p = true -> required_admin_role m p = AdminOwner.
Proof. unfold required_admin_role, method_is. intros Hm -> ->. rewrite (bool_decide_eq_false_2 _ Hm). by rewrite !orb_true_r. Qed.
Lemma owner_webhook : m <> GET -> Str.contains "/webhook-destinations" p = true -> required_admin_role m p = AdminOwner.
Proof. unfold required_admin_role, method_is. intros Hm ->. rewrite (bool_decide_eq_false_2 _ Hm). by rewrite !orb_true_r. Qed.
Lemma owner_admins : Str.starts_with "/admin/v1/admins" p = true -> required_admin_role m p = AdminOwner.
Proof. unfold required_admin_role. intros ->. by rewrite !orb_true_r. Qed.
Lemma owner_delete : Str.starts_with "/admin/v1/tenants/" p = true -> required_admin_role DELETE p = AdminOwner.
Proof. unfold required_admin_role. intros ->. by rewrite !orb_true_r. Qed.
Lemma owner_patch : Str.starts_with "/admin/v1/organizations/" p = true -> required_admin_role PATCH p = AdminOwner.
Proof. unfold required_admin_role. intros ->. by rewrite !orb_true_r. Qed.
End clauses.

(** A path has the literal a clause looks for, whatever its parameters. *)
Ltac on_path :=
  unfold path_of, version_path, tenant_path, organization_path;
  lazymatch goal with
  | |- _ || _ = true => apply orb_true_iff; first [left; on_path | right; on_path]
  | |- Str.starts_with _ _ = true => apply Str.starts_with_app || reflexivity
  | |- Str.ends_with _ _ = true => repeat apply ends_tail; reflexivity
  | |- Str.contains _ _ = true => first [apply contains_head | reflexivity | apply Str.contains_tail; on_path]
  | |- _ <> _ => discriminate
  end.

Lemma asks_owner cfg e i r :
  admin_asks cfg e i r -> owner_only r = true -> required_admin_role (method_of e) (path_of e) = AdminOwner.
Proof.
  intros Hask Hown. destruct e; try done; destruct r; try done; clear Hask Hown; try reflexivity.
  all: first [apply owner_scim; on_path | apply owner_version; on_path | apply owner_model_policy; on_path
             | apply owner_usage; on_path | apply owner_connection; on_path | apply owner_webhook; on_path
             | apply owner_admins; on_path | apply owner_delete; on_path | apply owner_patch; on_path].
Qed.

(** ** A request *)

Section requests.
Context `{Sha256, UrlParser, JsonCodec TenantPolicyDocument, JsonCodec TenantModelPolicy,
          JsonCodec (list string), JsonCodec Value}.
Variable hmac_sha256 : string -> string -> string.
Variable cfg : AdminConfig.
Variable w : World.

Lemma acts_store {A} (may : Request -> Prop) (op : Z -> (nat -> string) -> Op A) :
  acts hmac_sha256 (call hmac_sha256 op) w may (fun _ => True) ->
  acts hmac_sha256 (store hmac_sha256 cfg op) w may (fun _ => True).
Proof. intros Hop. unfold store. destruct (ag_tenant_store cfg); [done|]. by apply acts_done. Qed.

Lemma acts_try {A B} (may : Request -> Prop) (m : Steps (result A string)) (k : A -> Steps (result B string)) :
  acts hmac_sha256 m w may (fun _ => True) -> (forall x, acts hmac_sha256 (k x) w may (fun _ => True)) ->
  acts hmac_sha256 (next m (fun r => match r with Ok x => k x | Err e => done (Err e) end)) w may (fun _ => True).
Proof. intros Hm Hk. eapply acts_next; [exact Hm|]. intros [x|e] _; [apply Hk|by apply acts_done]. Qed.

Lemma acts_then_done {A B} (may : Request -> Prop) (m : Steps A) (f : A -> B) :
  acts hmac_sha256 m w may (fun _ => True) -> acts hmac_sha256 (next m (fun x => done (f x))) w may (fun _ => True).
Proof. intros Hm. eapply acts_next; [exact Hm|]. intros x _. by apply acts_done. Qed.

Ltac reads := apply acts_store; by apply acts_read.
Tactic Notation "writes" uconstr(r) :=
  apply acts_store, acts_write; intros now random; eexists (r); split; [|intros db; reflexivity]; cbn; auto.

Lemma acts_onboarding_loop (may : Request -> Prop) active l :
  acts hmac_sha256 (onboarding_loop hmac_sha256 cfg active l) w may (fun _ => True).
Proof.
  induction l as [|ws l IH]; cbn [onboarding_loop]; [by apply acts_done|].
  apply acts_try; [reads|]. intros tokens. apply acts_try; [reads|]. intros hooks.
  apply acts_try; [apply IH|]. intros rest. by apply acts_done.
Qed.

Lemma acts_onboarding (may : Request -> Prop) o :
  acts hmac_sha256 (organization_onboarding hmac_sha256 cfg o) w may (fun _ => True).
Proof.
  unfold organization_onboarding. apply acts_try; [reads|]. intros os. destruct (List.find _ os); [|by apply acts_done].
  apply (acts_next _ _ _ _ _ (fun _ => True)); [by apply acts_clock|].
  intros now _. do 5 (apply acts_try; [reads|]; intros ?).
  apply acts_try; [apply acts_onboarding_loop|]. intros statuses. by apply acts_done.
Qed.

Lemma acts_set_model_policy i t p :
  acts hmac_sha256 (set_model_policy hmac_sha256 cfg i (value t) p) w (admin_asks cfg (SetModelPolicy t p) i) (fun _ => True).
Proof.
  unfold set_model_policy. apply acts_then_done. apply acts_try; [writes (RCreatePolicyVersion _ _ _ _ _)|]. intros v.
  apply acts_try; [writes (RApprovePolicyVersion _ _ _ _)|]. intros _. writes (RDeployPolicyVersion _ _ _ _ _ _ _).
Qed.

Lemma acts_set_limits i t l :
  acts hmac_sha256 (set_limits hmac_sha256 cfg (value t) l) w (admin_asks cfg (SetLimits t l) i) (fun _ => True).
Proof.
  unfold set_limits. destruct (_ && _) eqn:Hp; [by apply acts_done|]. apply acts_then_done. writes (RSetLimits _ _ _).
  split_and!; [done|done|]. destruct (tl_spend_limit l); [|done]. by destruct (ag_model_prices cfg).
Qed.

Lemma acts_admin_route e i :
  acts hmac_sha256 (admin_route hmac_sha256 cfg e i) w (admin_asks cfg e i) (fun _ => True).
Proof.
  destruct e; cbn [admin_route]; try by apply acts_done.
  all: try (apply acts_then_done; reads).
  all: try (apply acts_then_done, acts_onboarding).
  all: try apply acts_set_model_policy.
  all: try apply acts_set_limits.
  all: apply acts_then_done.
  - writes (RCreateOrganization _ _ _).
  - writes (RSetOrganizationActive _ _).
  - writes (RCreateTenant _ _ _ _).
  - writes (RIssueScimToken _ _ _ _ _ _).
  - writes (RSetOidcConnection _ _ _ _ _ _).
  - writes (RDeleteOidcConnection _).
  - writes (RSetSamlConnection _ _ _ _ _ _).
  - writes (RDeleteSamlConnection _).
  - writes (RCreateTenant _ _ _ _).
  - writes (RSetTenantActive _ _).
  - writes (RDeleteTenant _).
  - writes (RIssueToken _ _ _ _ _).
  - writes (RCreatePolicyVersion _ _ _ _ _).
  - writes (RApprovePolicyVersion _ _ _ _).
  - writes (RDeployPolicyVersion _ _ _ _ _ _ _).
  - writes (RDeployPolicyVersion _ _ _ _ _ _ _).
  - writes (RCreateWebhook _ _ _ _ _ _).
  - writes (RDeactivateWebhook _ _ _).
  - writes (RImportReconciliation _ _ _ _ _).
  - writes (RSetRetention _ _ _ _).
  - writes (RRunRetention _ _ _ _ _).
  - writes (RSetQuota _ _ _ _).
  - writes (RRevokeToken _ _).
  - writes (RRevokeScimToken _ _).
  - writes (RCreateAdmin _ _ _ _ _).
  - writes (RRevokeAdmin _ _).
Qed.

(** The credential a request presents: the bootstrap token of the configuration, or the token of
    an administrator who is active in that database. *)
Definition admin_credential (presented : option string) (d : Db) (i : AdminIdentity) : Prop :=
  exists token, presented = Some ("Bearer " +:+ token) /\
    (ag_admin_token cfg = Some token /\ i = bootstrap_owner \/
     exists k a, admins d !! k = Some a /\ ad_token_hash a = token_hash token /\ ad_active a = true /\ i = admin_identity a).

Lemma bearer_matches_spec expected presented : bearer_matches expected presented = true -> presented = Some ("Bearer " +:+ expected).
Proof.
  unfold bearer_matches. destruct presented as [p|]; cbn [mbind option_bind]; [|done]. destruct (Str.strip_prefix "Bearer " p) as [t|] eqn:Hp; [|done].
  intros Heq%bool_decide_eq_true. subst t. by apply Str.strip_prefix_spec in Hp as ->.
Qed.

Lemma authenticated_admin presented d a :
  (authenticate_admin_bearer presented d).1 = Ok (Some a) -> admin_credential presented d (admin_identity a).
Proof.
  unfold authenticate_admin_bearer, reading, bearer. cbn [fst]. destruct presented as [p|]; cbn [mbind option_bind]; [|done].
  destruct (Str.strip_prefix "Bearer " p) as [token|] eqn:Hp; cbn [mbind option_bind]; [|done].
  apply Str.strip_prefix_spec in Hp as ->. destruct (Str.is_empty token); [done|]. intros [= Hf].
  apply find_row_some in Hf as [[k Hk] Ht]. apply andb_true_iff in Ht as [Hh%bool_decide_eq_true Ha].
  exists token. split; [done|]. right. by exists k, a.
Qed.

(** What the check of the credential finds, and the database it leaves. *)
Lemma admin_caller_spec presented db :
  let d := run hmac_sha256 (wo_others w 0%nat) db in
  exists own, (admin_caller hmac_sha256 cfg presented w (0%nat, db)).2 = (length own, advance hmac_sha256 w 0 own db) /\
    (forall r, ~ Some r ∈ own) /\
    forall i, (admin_caller hmac_sha256 cfg presented w (0%nat, db)).1 = Ok (Some i) -> admin_credential presented d i.
Proof.
  cbn zeta. set (d := run hmac_sha256 (wo_others w 0%nat) db). unfold admin_caller.
  destruct (match ag_admin_token cfg with Some _ => _ | None => _ end) eqn:Hb.
  { exists []. split_and!; [done|by intros r ?%elem_of_nil|]. intros i [= <-]. destruct (ag_admin_token cfg) as [t|] eqn:Ht; [|done].
    apply bearer_matches_spec in Hb. exists t. auto. }
  destruct (ag_tenant_store cfg).
  2: { exists []. split_and!; [done|by intros r ?%elem_of_nil|done]. }
  exists [None]. unfold next, call. cbn [fst snd]. fold d.
  destruct (authenticate_admin_bearer presented d) as [[[a|]|] d'] eqn:Ha; cbn [fst snd done];
    (split_and!; [by injection Ha as _ <-|by intros r ?%list_elem_of_singleton|]); intros i; intros [= <-].
  apply authenticated_admin. by rewrite Ha.
Qed.

(** C14. Whatever other requests commit meanwhile, an administration request that is not
    refused comes with the bootstrap credential or that of an active administrator whose role
    the method and the path require. Every request it makes of the store is one the endpoint stands for,
    at the resources its path names and in the name of that administrator; it is never made for a
    viewer, and for an operator never one that decides who administers or provisions, which policy
    is in force, how members log in, where events go, what usage is kept or what is deleted. *)
Theorem admin_role_separation e headers db :
  let presented := head (get_all ADMIN_AUTH_HEADER headers) ≫= to_str in
  let d := run hmac_sha256 (wo_others w 0%nat) db in
  let '(response, (n, db')) := admin_request hmac_sha256 cfg e headers w (0%nat, db) in
  exists own, n = length own /\ db' = advance hmac_sha256 w 0 own db /\
    (ap_status response < 400 -> exists i, admin_credential presented d i /\
       admin_permits (ai_role i) (required_admin_role (method_of e) (path_of e)) = true) /\
    forall r, Some r ∈ own -> exists i, admin_credential presented d i /\ admin_asks cfg e i r /\
      ai_role i <> AdminViewer /\ (owner_only r = true -> ai_role i = AdminOwner).
Proof.
  cbn zeta. set (d := run hmac_sha256 (wo_others w 0%nat) db). unfold admin_request, require_admin_token.
  set (presented := head (get_all ADMIN_AUTH_HEADER headers) ≫= to_str). unfold next.
  destruct (admin_caller_spec presented db) as (own & Hs & Hnone & Hid). fold d in Hid.
  destruct (admin_caller _ _ _ w (0%nat, db)) as [found s]. cbn [fst snd] in Hs, Hid. subst s.
  assert (Hrefused : forall r, Some r ∈ own -> exists i, admin_credential presented d i /\ admin_asks cfg e i r /\
      ai_role i <> AdminViewer /\ (owner_only r = true -> ai_role i = AdminOwner)) by (intros r Hr; by destruct (Hnone r)).
  destruct found as [[i|]|]; [|by exists own|by exists own]. specialize (Hid i eq_refl).
  destruct (admin_permits _ _) eqn:Hp; [|by exists own].
  destruct (acts_admin_route e i (length own) (advance hmac_sha256 w 0 own db)) as (own' & Hs & Hmay & _).
  destruct (admin_route _ _ _ _ w _) as [response s]. cbn [snd] in Hs. subst s.
  exists (own ++ own')%list. rewrite length_app, advance_app. split_and!; [done|done|by exists i|].
  intros r [Hr|Hr]%elem_of_app; [by apply Hrefused|]. exists i. pose proof (Hmay r Hr) as Hask.
  split_and!; [done|done| |].
  - intros Hv. rewrite Hv in Hp. unfold required_admin_role, method_is in Hp.
    rewrite (bool_decide_eq_false_2 (method_of e = GET)) in Hp by by eapply asks_writes. by destruct (_ || _) in Hp.
  - intros Hown. rewrite (asks_owner _ _ _ _ Hask Hown) in Hp. by destruct (ai_role i).
Qed.
End requests.

(** ** Two requests, evaluated *)

#[local] Existing Instances scene_sha scene_url scene_doc scene_model scene_types scene_value.

(** An operator is appointed in the database of [TenantScene]. *)
Definition staffed : Db := run scene_hmac [RCreateAdmin 300 "op" "op-secret" "Operator" AdminOperator] deployed.
Definition operator_token : string := match (TenantDirectory.create_admin 300 "op" "op-secret" "Operator" AdminOperator deployed).1 with
  | Ok (_, token) => token | Err _ => EmptyString end.
Definition admin_config : AdminConfig := mkAdminConfig true (Some "bootstrap") (Some "key") [].
Definition admin_headers : HeaderMap := [(ADMIN_AUTH_HEADER, "Bearer " +:+ operator_token)].
Definition admin_world : World := mkWorld (fun _ => 301) (fun _ k => if (k =? 0)%nat then "y" else "z") (fun _ => []) (fun _ _ => Err "offline").
Definition ask (e : AdminEndpoint) : AdminResponse * (nat * Db) :=
  admin_request scene_hmac admin_config e admin_headers admin_world (0%nat, staffed).
Definition issued : AdminEndpoint := CreateTenant "Second".
Definition issuing : AdminResponse * (nat * Db) :=
  admin_request scene_hmac admin_config issued admin_headers admin_world (0%nat, staffed).
Definition promoted : AdminEndpoint := CreateAdmin "Friend" AdminOwner.

(** The operator creates a tenant, and is refused another administrator. *)
Example operator_scene : ap_status issuing.1 = 201 /\ ap_status (ask promoted).1 = 403 /\
  ap_status (ask (DeleteTenant (mkParam "t" "t"))).1 = 403 /\ ap_status (ask ListTenants).1 = 200.
Proof. refine (conj _ (conj _ (conj _ _))); vm_compute; reflexivity. Qed.

Lemma admin_role_separation_witness :
  ap_status issuing.1 = 201 /\
  exists own, issuing.2.2 = advance scene_hmac admin_world 0 own staffed /\
    exists i, admin_credential admin_config (head (get_all ADMIN_AUTH_HEADER admin_headers) ≫= to_str)
                (run scene_hmac (wo_others admin_world 0%nat) staffed) i.
Proof.
  assert (Hs : ap_status issuing.1 = 201) by (vm_compute; reflexivity). split; [exact Hs|].
  pose proof (admin_role_separation scene_hmac admin_config admin_world issued admin_headers staffed) as Hc.
  cbn zeta in Hc. revert Hs Hc. unfold issuing. destruct (admin_request _ _ _ _ _ _) as [response [n db']].
  cbn [fst snd]. intros Hs Hc.
  destruct Hc as (own & _ & -> & Hid & _). exists own. split; [reflexivity|].
  destruct Hid as (i & Hi & _); [rewrite Hs; reflexivity|]. exists i. exact Hi.
Defined.
