(* ===== verification/Saml.v ===== *)
(** Login through SAML ([proxy/src/saml_auth.rs]): the settings of the service provider, starting
    a login, the cache against replayed assertions, and the consumer of the identity provider's
    answer. The protocol itself (XML, signatures, the checks of an answer) is the crate
    [saml_rs], here a class of its functions. Then the theorems: the consumer sets a session cookie only for an
    answer the library accepted for a reserved request, once per login; and what the cache promises. *)
From S2P Require Import Prelude BTree Net Json Spend TenantDb TenantDirectory TenantScim TenantSession.
From S2P Require Import TenantPolicy TenantUsage TenantAccess TenantScene TenantGuards TenantOnce Oidc PortalTypes Portal PortalProps LoginProps PortalScene Steps.
From Stdlib Require Import String Ascii.
Local Open Scope string_scope.
Local Open Scope Z_scope.
#[local] Abbreviation length := List.length.
Local Open Scope steps_scope.

Definition SAML_ACS_PATH : string := "/auth/saml/acs".
Definition SAML_STATE_TTL_SECONDS : Z := 10 * 60.
Definition MAX_FORM_FIELDS : nat := 64.
Definition MAX_FORM_FIELD_BYTES : Z := 2 * 1024 * 1024.
Definition SESSION_SECONDS : Z := 8 * 60 * 60.

(** ** The library *)

(** A pending request, as [saml_rs] writes it out. *)
Record PendingSnapshot := mkSnapshot {
  sh_id : string; sh_relay_state : string; sh_peer_entity_id : string; sh_expected_binding : string;
  sh_request_binding : option string; sh_acs_url : string; sh_acs_binding : string }.

Record StartedSso := mkStarted { sd_snapshot : PendingSnapshot; sd_redirect_url : option string }.
Record SsoSession := mkSsoSession { so_issuer : string; so_name_id : string }.
Record ReplayKey := mkReplayKey { rk_kind : string; rk_value : string }.

(** [finish_sso] may call the replay cache it is given, whatever the cache is. *)
Class SamlLibrary := {
  SamlSp : Type;
  IdpDescriptor : Type;
  PendingAuthnRequest : Type;
  entity_id_try_new : string -> bool;
  (** A service provider with strict validation and no key for decryption: entity, consumer URL, key and certificate. *)
  saml_sp : string -> string -> string -> string -> option SamlSp;
  (** Metadata of an entity that the pinned certificate signed. *)
  from_metadata_xml_for : string -> string -> string -> option IdpDescriptor;
  relay_state_param : string -> bool;
  start_sso : SamlSp -> IdpDescriptor -> string -> Z -> (nat -> string) -> option StartedSso;
  from_snapshot : PendingSnapshot -> option PendingAuthnRequest;
  finish_sso : forall C : Type, (ReplayKey -> Z -> C -> result unit string * C) ->
    SamlSp -> IdpDescriptor -> PendingAuthnRequest -> list (string * string) -> Z -> Z -> C -> option SsoSession * C
}.

(** ** Replayed assertions *)

Definition BoundedReplayCache : Type := BMap.t string Z.
Definition MAX_REPLAY_ENTRIES : nat := 4096.

(** [min_by_key]: the first of the entries with the least expiry. *)
Definition oldest (entries : BoundedReplayCache) : option string :=
  fst <$> foldl (fun best kv => match best with
                                | Some b => if kv.2 <? b.2 then Some kv else best
                                | None => Some kv
                                end) None entries.

Definition check_and_store (now : Z) (key : ReplayKey) (expires_at : Z) (cache : BoundedReplayCache) :
    result unit string * BoundedReplayCache :=
  let entries := BMap.retain (fun _ expiry => now <? expiry) cache in
  let cache_key := rk_kind key +:+ ":" +:+ rk_value key in
  if BMap.contains_key cache_key entries then (Err "replay detected", entries)
  else
    let entries :=
      if (MAX_REPLAY_ENTRIES <=? length entries)%nat then
        match oldest entries with Some k => BMap.remove k entries | None => entries end
      else entries in
    (Ok tt, BMap.insert cache_key expires_at entries).

(** ** Settings *)

Record SamlRuntimeConfig := mkSamlRuntime {
  sr_sp_entity_id : string; sr_acs_url : string; sr_sp_private_key_pem : string; sr_sp_certificate_pem : string }.

(** Answers: an error with a message, a redirect, or a redirect with a session cookie. *)
Record SamlResponse := mkSamlResponse {
  sm_status : Z; sm_message : option string; sm_location : option string; sm_set_cookie : option string }.
Definition unavailable : SamlResponse := mkSamlResponse 404 (Some "SAML browser login is not enabled") None None.
Definition login_failed : SamlResponse := mkSamlResponse 400 (Some "SAML login could not be completed") None None.
Definition redirect (url : string) : SamlResponse := mkSamlResponse 303 None (Some url) None.

Record SamlConfig := mkSamlConfig {
  mc_tenant_store : bool; mc_cipher : option OidcStateCipher; mc_saml : option SamlRuntimeConfig }.

Section saml.
Context `{Sha256, UrlParser, JsonCodec TenantPolicyDocument, JsonCodec TenantModelPolicy,
          JsonCodec (list string), JsonCodec Value}.
Context `{Aead, Base64Url, SamlLibrary}.
Variable hmac_sha256 : string -> string -> string.

(** All four settings, or none: a partial configuration is an error. *)
Definition from_optional_values (entity_id acs_url private_key certificate : option string) :
    result (option SamlRuntimeConfig) string :=
  match entity_id, acs_url, private_key, certificate with
  | None, None, None, None => Ok None
  | Some entity_id, Some acs_url, Some key, Some certificate =>
      let entity_id := Str.trim entity_id in
      let acs_url := Str.trim acs_url in
      bail_if (negb (entity_id_try_new entity_id)) with "SAML SP entity ID is invalid" in
      match url_parse acs_url with
      | None => Err "SAML ACS URL is invalid"
      | Some url =>
          bail_if (negb (bool_decide (url_scheme url = "https")) || negb (bool_decide (url_query url = None))
                   || negb (bool_decide (url_fragment url = None)) || negb (bool_decide (url_username url = EmptyString)))
            with "SAML ACS URL must be an HTTPS URL without credentials, query, or fragment" in
          bail_if (negb (bool_decide (url_path url = SAML_ACS_PATH)))
            with "SAML ACS URL must use the fixed /auth/saml/acs path" in
          bail_if (32 * 1024 <? Z.of_nat (Str.len key)) || (32 * 1024 <? Z.of_nat (Str.len certificate))
            with "SAML SP key and certificate are too large" in
          bail_if (negb (Str.contains "-----BEGIN" key) || negb (Str.contains "-----BEGIN CERTIFICATE-----" certificate))
            with "SAML SP credentials must be PEM encoded" in
          Ok (Some (mkSamlRuntime entity_id acs_url key certificate))
      end
  | _, _, _, _ => Err "SAML SP configuration requires all four LLM_FW_SAML_* environment variables"
  end.

(** [from_env]: a variable that is blank counts as absent. *)
Definition from_env (env : string -> option string) : result (option SamlRuntimeConfig) string :=
  let read name := value ← env name; if Str.is_empty (Str.trim value) then None else Some value in
  from_optional_values (read "LLM_FW_SAML_SP_ENTITY_ID") (read "LLM_FW_SAML_ACS_URL")
    (read "LLM_FW_SAML_SP_PRIVATE_KEY_PEM") (read "LLM_FW_SAML_SP_CERTIFICATE_PEM").

(** [SamlRuntimeConfig::sp], with the settings of [sp_config]. *)
Definition sp (runtime : SamlRuntimeConfig) : option SamlSp :=
  if entity_id_try_new (sr_sp_entity_id runtime)
  then saml_sp (sr_sp_entity_id runtime) (sr_acs_url runtime) (sr_sp_private_key_pem runtime) (sr_sp_certificate_pem runtime)
  else None.

Definition idp_descriptor (connection : OrganizationSamlConnection) : option IdpDescriptor :=
  if entity_id_try_new (sc_entity_id connection)
  then from_metadata_xml_for (sc_entity_id connection) (sc_metadata_xml connection) (sc_metadata_signing_cert_pem connection)
  else None.

Definition validate_idp_metadata (connection : OrganizationSamlConnection) : bool :=
  if idp_descriptor connection is Some _ then true else false.

(** ** Starting a login *)

Definition start_login_inner (c : OidcStateCipher) (runtime : SamlRuntimeConfig) (connection : OrganizationSamlConnection)
    (workspace_id : string) (invitation_id : option string) : Steps (option string) :=
  match sp runtime, idp_descriptor connection with
  | Some sp, Some idp =>
      do now := clock in
      do random := entropy in
      match now_unix now with
      | Err _ => done None
      | Ok now =>
          let expires_at_unix := now + SAML_STATE_TTL_SECONDS in
          if i64_max <? expires_at_unix then done None
          else
            match seal_saml_relay_state c (random 0%nat) (random 1%nat) with
            | Err _ => done None
            | Ok state_value =>
                if negb (relay_state_param state_value) then done None
                else
                  match start_sso sp idp state_value now (fun k => random (2 + k)%nat) with
                  | None => done None
                  | Some started =>
                      let snapshot := sd_snapshot started in
                      let pending := mkSamlPending (sc_organization_id connection) workspace_id invitation_id
                        (sh_id snapshot) (sh_peer_entity_id snapshot) (sh_expected_binding snapshot)
                        (default "redirect" (sh_request_binding snapshot)) (sh_acs_url snapshot) (sh_acs_binding snapshot) in
                      do reserved := call hmac_sha256 (fun now _ =>
                        reserve_saml_authorization_state now state_value pending expires_at_unix) in
                      done (match reserved with Ok _ => sd_redirect_url started | Err _ => None end)
                  end
            end
      end
  | _, _ => done None
  end.

Definition redirected (url : option string) : SamlResponse :=
  match url with Some url => redirect url | None => login_failed end.

(** The store, the cipher and the settings, or the answer of a deployment without SAML. *)
Definition enabled (cfg : SamlConfig) (k : OidcStateCipher -> SamlRuntimeConfig -> Steps SamlResponse) : Steps SamlResponse :=
  if negb (mc_tenant_store cfg) then done unavailable
  else match mc_cipher cfg, mc_saml cfg with
       | Some c, Some runtime => k c runtime
       | _, _ => done unavailable
       end.

Definition start_login (cfg : SamlConfig) (organization_id workspace_id : string) : Steps SamlResponse :=
  enabled cfg (fun c runtime =>
    do active := call hmac_sha256 (fun _ _ => active_workspace_in_organization organization_id workspace_id) in
    match active with
    | Err _ | Ok false => done unavailable
    | Ok true =>
        do found := call hmac_sha256 (fun _ _ => organization_saml_connection organization_id) in
        match found with
        | Err _ | Ok None => done unavailable
        | Ok (Some connection) =>
            if negb (sc_active connection) then done unavailable
            else do url := start_login_inner c runtime connection workspace_id None in done (redirected url)
        end
    end).

Definition start_invitation_login (cfg : SamlConfig) (token : string) : Steps SamlResponse :=
  if (256 <? Str.len token)%nat || negb (Str.starts_with "llmfw_invite_" token) then done login_failed
  else
    enabled cfg (fun c runtime =>
      do invited := call hmac_sha256 (fun now _ => workspace_invitation_for_federation_token now token Saml) in
      match invited with
      | Err _ => done unavailable
      | Ok None => done login_failed
      | Ok (Some iv) =>
          do found := call hmac_sha256 (fun _ _ => organization_saml_connection (iv_organization_id iv)) in
          match found with
          | Err _ | Ok None => done unavailable
          | Ok (Some connection) =>
              if negb (sc_active connection) then done unavailable
              else do url := start_login_inner c runtime connection (iv_workspace_id iv) (Some (iv_id iv)) in
                   done (redirected url)
          end
      end).

(** ** The answer of the identity provider *)

(** [PreparedSso::new] and [finish], under the lock of the cache. The clock of the request and
    that of the cache are read together. *)
Definition finish_saml (runtime : SamlRuntimeConfig) (connection : OrganizationSamlConnection)
    (pending : SamlAuthorizationPending) (state_value : string) (fields : list (string * string)) (now : Z)
    (replay : BoundedReplayCache) : option SsoSession * BoundedReplayCache :=
  match sp runtime, idp_descriptor connection with
  | Some sp, Some idp =>
      if negb (relay_state_param state_value) then (None, replay)
      else
        match from_snapshot (mkSnapshot (sp_request_id pending) state_value (sp_idp_entity_id pending)
                (sp_expected_binding pending) None (sp_acs_url pending) (sp_acs_binding pending)) with
        | None => (None, replay)
        | Some request =>
            finish_sso _ (check_and_store now) sp idp request fields now SAML_STATE_TTL_SECONDS replay
        end
  | _, _ => (None, replay)
  end.

(** The fields named so. *)
Definition named (name : string) (fields : list (string * string)) : list string :=
  snd <$> filter (fun kv => kv.1 = name) fields.
Definition form_bytes (fields : list (string * string)) : Z :=
  foldr (fun kv n => Z.of_nat (Str.len kv.1 + Str.len kv.2) + n) 0 fields.

(** What the store gives a verified subject: membership through the invitation, or the access it has. *)
Definition saml_access (pending : SamlAuthorizationPending) (session : SsoSession) :
    Steps (result (option VerifiedWorkspaceAccess) string) :=
  match sp_invitation_id pending with
  | Some invitation_id =>
      call hmac_sha256 (fun now random => accept_workspace_invitation_federated now (random 0%nat) invitation_id
        (sp_organization_id pending) (sp_workspace_id pending) (so_issuer session) (so_name_id session) Saml)
  | None =>
      call hmac_sha256 (fun _ _ => verified_saml_identity_workspace_access (sp_organization_id pending)
        (sp_workspace_id pending) (so_issuer session) (so_name_id session))
  end.

(** The session of a verified subject, in the workspace the login was started for. *)
Definition saml_session (pending : SamlAuthorizationPending) (session : SsoSession) : Steps SamlResponse :=
  do found := saml_access pending session in
  match found with
  | Err _ => done unavailable
  | Ok None => done login_failed
  | Ok (Some access) =>
      do now := clock in
      match now_unix now with
      | Err _ => done unavailable
      | Ok now =>
          if i64_max <? now + SESSION_SECONDS then done unavailable
          else
            do issued := call hmac_sha256 (fun t random =>
              issue_oidc_browser_session t (random 0%nat) access Saml (now + SESSION_SECONDS)) in
            match issued with
            | Err _ => done unavailable
            | Ok session =>
                match session_cookie (is_token session) SESSION_SECONDS with
                | Err _ => done unavailable
                | Ok cookie => done (mkSamlResponse 303 None (Some "/customer") (Some cookie))
                end
            end
      end
  end.

(** [replay] is the cache the request finds when it takes the lock; the cache it leaves is returned
    with the answer. *)
Definition acs (cfg : SamlConfig) (fields : list (string * string)) (replay : BoundedReplayCache) :
    Steps (SamlResponse * BoundedReplayCache) :=
  let refuse r := done (r, replay) in
  match mc_tenant_store cfg, mc_cipher cfg, mc_saml cfg with
  | true, Some c, Some runtime =>
      if (MAX_FORM_FIELDS <? length fields)%nat || (MAX_FORM_FIELD_BYTES <? form_bytes fields) then refuse login_failed
      else
        match named "RelayState" fields, named "SAMLResponse" fields with
        | [state_value], [_] =>
            match open_saml_relay_state c state_value with
            | Err _ => refuse login_failed
            | Ok _ =>
                do consumed := call hmac_sha256 (fun now _ => consume_saml_authorization_state now state_value) in
                match consumed with
                | Err _ => refuse unavailable
                | Ok None => refuse login_failed
                | Ok (Some pending) =>
                    do found := call hmac_sha256 (fun _ _ => organization_saml_connection (sp_organization_id pending)) in
                    match found with
                    | Err _ => refuse unavailable
                    | Ok None => refuse login_failed
                    | Ok (Some connection) =>
                        if negb (sc_active connection) then refuse login_failed
                        else
                          do now := clock in
                          let '(result, replay) := finish_saml runtime connection pending state_value fields now replay in
                          match result with
                          | None => done (login_failed, replay)
                          | Some session => do response := saml_session pending session in done (response, replay)
                          end
                    end
                end
            end
        | _, _ => refuse login_failed
        end
  | _, _, _ => refuse unavailable
  end.
End saml.

(** * What login through SAML guarantees *)

(** ** The cache against replayed assertions *)

(** A call of the library: the time, the key and how long it is to be kept. *)
Record Check := mkCheck { ck_now : Z; ck_key : ReplayKey; ck_expires_at : Z }.
Definition checked (cache : BoundedReplayCache) (c : Check) : BoundedReplayCache :=
  (check_and_store (ck_now c) (ck_key c) (ck_expires_at c) cache).2.
Definition cache_run (cache : BoundedReplayCache) (calls : list Check) : BoundedReplayCache := foldl checked cache calls.
Definition entry_key (key : ReplayKey) : string := rk_kind key +:+ ":" +:+ rk_value key.

(** Entries that are kept at least until [e]. *)
Definition kept (e x : Z) : nat := if e <=? x then 1 else 0.
Definition fresh (e : Z) (cache : BoundedReplayCache) : nat := sum_list ((fun kv => kept e kv.2) <$> cache).
Definition later (e : Z) (calls : list Check) : nat := sum_list ((fun c => kept e (ck_expires_at c)) <$> calls).

Lemma fresh_retain e (p : string -> Z -> bool) m : (fresh e (BMap.retain p m) <= fresh e m)%nat.
Proof. unfold fresh, BMap.retain. induction m as [|kv m IH]; [done|]. cbn [List.filter]. destruct (p _ _); csimpl; lia. Qed.
Lemma fresh_remove e k m : (fresh e (BMap.remove k m) <= fresh e m)%nat.
Proof. unfold fresh. etrans; [|exact (Nat.eq_le_incl _ _ (BMap.bmap_sum_remove (fun kv => kept e kv.2) k m))]. apply Nat.le_add_r. Qed.
Lemma fresh_insert e k x m : BMap.wf m -> (fresh e (BMap.insert k x m) <= kept e x + fresh e m)%nat.
Proof.
  unfold fresh. intros Hm. etrans; [|exact (Nat.eq_le_incl _ _ (BMap.bmap_sum_insert (fun kv => kept e kv.2) k x m Hm))].
  apply Nat.le_add_r.
Qed.
Lemma fresh_all e m : (forall kv, kv ∈ m -> e <= kv.2) -> fresh e m = length m.
Proof.
  unfold fresh. induction m as [|kv m IH]; [done|]. intros Hall. csimpl. rewrite IH by (intros; apply Hall; by right).
  unfold kept. rewrite (proj2 (Z.leb_le _ _)); [done|]. apply Hall. by left.
Qed.

(** The oldest entry is one of the entries, and none has a smaller expiry. *)
Lemma oldest_spec m k : oldest m = Some k -> exists x, (k, x) ∈ m /\ forall kv, kv ∈ m -> x <= kv.2.
Proof.
  unfold oldest. set (f := fun (best : option (string * Z)) (kv : string * Z) => _).
  assert (Hfold : forall l best r, foldl f best l = Some r ->
    (best = Some r \/ r ∈ l) /\ (forall b, best = Some b -> r.2 <= b.2) /\ forall kv, kv ∈ l -> r.2 <= kv.2).
  { induction l as [|kv l IH]; intros best r; cbn [foldl].
    { intros ->. split_and!; [by left|by intros b [= <-]|by intros kv Hkv%elem_of_nil]. }
    intros (Hin & Hb & Hl)%IH. destruct best as [b|]; cbn in *; [destruct (Z.ltb_spec kv.2 b.2)|].
    - specialize (Hb _ eq_refl). split_and!; [right; destruct Hin as [[= ->]|]; [by left|by right]|intros ? [= <-]; lia|].
      intros kv' [->|]%elem_of_cons; auto.
    - specialize (Hb _ eq_refl). split_and!; [destruct Hin; [by left|right; by right]|intros ? [= <-]; lia|].
      intros kv' [->|]%elem_of_cons; [lia|auto].
    - specialize (Hb _ eq_refl). split_and!; [right; destruct Hin as [[= ->]|]; [by left|by right]|done|].
      intros kv' [->|]%elem_of_cons; auto. }
  destruct (foldl f None m) as [[k' x]|] eqn:Hf; cbn; [|done]. intros [= <-].
  apply Hfold in Hf as ([?|Hin] & _ & Hmin); [done|]. by exists x.
Qed.

(** Room for one more. *)
Lemma check_bounded now key x m :
  BMap.wf m -> (length m <= MAX_REPLAY_ENTRIES)%nat ->
  let m' := (check_and_store now key x m).2 in BMap.wf m' /\ (length m' <= MAX_REPLAY_ENTRIES)%nat.
Proof.
  intros Hm Hlen. unfold check_and_store. cbn zeta.
  set (p := fun (_ : string) (expiry : Z) => now <? expiry). pose proof (BMap.bmap_retain_wf p m Hm) as Hr.
  assert (length (BMap.retain p m) <= length m)%nat as Hle by apply List.filter_length_le.
  destruct (BMap.contains_key _ _) eqn:Hc; [split; [done|cbn [snd]; lia]|]. cbn [snd].
  destruct (Nat.leb_spec MAX_REPLAY_ENTRIES (length (BMap.retain p m))) as [Hfull|Hroom].
  - destruct (oldest (BMap.retain p m)) as [k|] eqn:Ho.
    + apply oldest_spec in Ho as (y & Hin & _). pose proof (BMap.bmap_remove_wf k _ Hr) as Hw.
      split; [by apply BMap.bmap_insert_wf|]. rewrite BMap.bmap_length_insert by done.
      pose proof (BMap.bmap_sum_remove (fun _ : string * Z => 1%nat) k (BMap.retain p m)) as Hs.
      rewrite <- !BMap.bmap_length_sum, (BMap.bmap_wf_elem_get _ _ _ Hr Hin) in Hs. case_match; lia.
    + exfalso. destruct (BMap.retain p m) as [|kv l]; [by apply Nat.leb_le in Hfull|].
      unfold oldest in Ho. cbn [foldl] in Ho. revert Ho. generalize kv. clear.
      induction l as [|kv' l IH]; intros kv; cbn; [done|]. case_match; apply IH.
  - split; [by apply BMap.bmap_insert_wf|]. rewrite BMap.bmap_length_insert by done. rewrite Hc. lia.
Qed.

(** A call at a time before [e] keeps an entry that expires at [e], unless the cache is full of
    entries that expire no earlier. *)
Lemma check_keeps now key x k e m :
  BMap.wf m -> BMap.get k m = Some e -> now < e -> (fresh e m < MAX_REPLAY_ENTRIES)%nat ->
  let m' := (check_and_store now key x m).2 in
  BMap.get k m' = Some e /\ (fresh e m' <= kept e x + fresh e m)%nat.
Proof.
  intros Hm Hk Hnow Hfresh. unfold check_and_store. cbn zeta.
  set (p := fun (_ : string) (expiry : Z) => now <? expiry). pose proof (BMap.bmap_retain_wf p m Hm) as Hr.
  assert (BMap.get k (BMap.retain p m) = Some e) as Hg by (apply BMap.bmap_get_retain; [done|]; split; [done|by apply Z.ltb_lt]).
  pose proof (fresh_retain e p m) as Hf. revert Hr Hg Hf. generalize (BMap.retain p m). intros r Hr Hg Hf.
  destruct (BMap.contains_key _ r) eqn:Hc; cbn [snd]; [split; [done|lia]|].
  assert (rk_kind key +:+ ":" +:+ rk_value key <> k) as Hne
    by (intros <-; unfold BMap.contains_key in Hc; apply bool_decide_eq_false in Hc; rewrite Hg in Hc; by apply Hc).
  set (r' := if (MAX_REPLAY_ENTRIES <=? length r)%nat then _ else r).
  assert (BMap.wf r' /\ BMap.get k r' = Some e /\ (fresh e r' <= fresh e r)%nat) as (Hw & Hg' & Hf').
  { unfold r'. destruct (Nat.leb_spec MAX_REPLAY_ENTRIES (length r)) as [Hfull|]; [|done].
    destruct (oldest r) as [k0|] eqn:Ho; [|done]. split_and!; [by apply BMap.bmap_remove_wf| |apply fresh_remove].
    rewrite BMap.bmap_get_remove_ne; [done|]. intros ->. apply oldest_spec in Ho as (y & Hy & Hmin).
    rewrite (BMap.bmap_wf_elem_get _ _ _ Hr Hy) in Hg. injection Hg as ->. rewrite (fresh_all e r Hmin) in Hf. lia. }
  split; [by rewrite BMap.bmap_get_insert_ne|]. pose proof (fresh_insert e (rk_kind key +:+ ":" +:+ rk_value key) x r' Hw). lia.
Qed.

(** C26. The replay cache never holds more than its limit, and an assertion that it has stored is
    refused until it expires, whatever the library asks of the cache in between, as long as fewer
    than that limit of entries and calls are to be kept at least as long. *)
Theorem replay_refused key e x (cache : BoundedReplayCache) (calls : list Check) (now : Z) :
  BMap.wf cache -> (length cache <= MAX_REPLAY_ENTRIES)%nat ->
  (BMap.wf (cache_run cache calls) /\ (length (cache_run cache calls) <= MAX_REPLAY_ENTRIES)%nat) /\
  (BMap.get (entry_key key) cache = Some e -> Forall (fun c => ck_now c < e) calls -> now < e ->
   (fresh e cache + later e calls < MAX_REPLAY_ENTRIES)%nat ->
   (check_and_store now key x (cache_run cache calls)).1 = Err "replay detected").
Proof.
  intros Hm Hlen. split.
  - revert cache Hm Hlen. induction calls as [|c calls IH]; intros cache Hm Hlen; [done|].
    cbn [cache_run foldl]. apply IH; by apply check_bounded.
  - intros Hk Hall Hnow Hfresh.
    assert (BMap.wf (cache_run cache calls) /\ BMap.get (entry_key key) (cache_run cache calls) = Some e) as [Hw Hg].
    { clear Hnow now. revert cache Hm Hlen Hk Hfresh. induction Hall as [|c calls Hc _ IH]; intros cache Hm Hlen Hk Hfresh; [done|].
      unfold later in *. csimpl in *.
      destruct (check_keeps (ck_now c) (ck_key c) (ck_expires_at c) (entry_key key) e cache) as [Hk' Hf']; [done..|lia|].
      destruct (check_bounded (ck_now c) (ck_key c) (ck_expires_at c) cache) as [Hm' Hl']; [done..|].
      apply IH; [done..|]. unfold checked. lia. }
    unfold check_and_store. set (p := fun (_ : string) (expiry : Z) => now <? expiry).
    assert (BMap.get (entry_key key) (BMap.retain p (cache_run cache calls)) = Some e) as Hr
      by (apply BMap.bmap_get_retain; [done|]; split; [done|by apply Z.ltb_lt]).
    unfold BMap.contains_key. unfold entry_key in Hr. rewrite Hr. by rewrite bool_decide_eq_true_2.
Qed.

(** An assertion posted again while it is valid, after another one. *)
Definition assertion : ReplayKey := mkReplayKey "assertion" "_a1".
Definition stored : BoundedReplayCache := (check_and_store 100 assertion 700 []).2.
Lemma replay_refused_witness :
  (check_and_store 200 assertion 800 (cache_run stored [mkCheck 150 (mkReplayKey "assertion" "_b2") 750])).1 = Err "replay detected".
Proof.
  assert (Hw : BMap.wf stored) by (repeat constructor).
  destruct (replay_refused assertion 700 800 stored [mkCheck 150 (mkReplayKey "assertion" "_b2") 750] 200 Hw) as [_ Hr].
  - apply Nat.leb_le. reflexivity.
  - apply Hr; [reflexivity| |lia|apply Nat.ltb_lt; reflexivity]. constructor; [cbn; lia|constructor].
Defined.

Section saml.
Context `{Sha256, UrlParser, JsonCodec TenantPolicyDocument, JsonCodec TenantModelPolicy,
          JsonCodec (list string), JsonCodec Value}.
Context `{Aead, Base64Url, SamlLibrary}.
Variable hmac_sha256 : string -> string -> string.
Variable cfg : SamlConfig.

(** ** What the store gives a verified subject *)

(** The access of a subject, as the store answers it in [D], and the database it leaves. *)
Definition admitted (now : Z) (random : string) (pending : SamlAuthorizationPending) (session : SsoSession) (D : Db)
    (a : VerifiedWorkspaceAccess) (D' : Db) : Prop :=
  match sp_invitation_id pending with
  | Some i => accept_workspace_invitation_federated now random i (sp_organization_id pending) (sp_workspace_id pending)
                (so_issuer session) (so_name_id session) Saml D = (Ok (Some a), D')
  | None => (verified_saml_identity_workspace_access (sp_organization_id pending) (sp_workspace_id pending)
               (so_issuer session) (so_name_id session) D).1 = Ok (Some a) /\ D' = D
  end.

Lemma accept_scope now random i o ws iss sub f (db : Db) a (db' : Db) :
  accept_workspace_invitation_federated now random i o ws iss sub f db = (Ok (Some a), db') ->
  va_organization_id a = o /\ va_workspace_id a = ws /\ connection_issuer f o db = Some iss.
Proof.
  unfold accept_workspace_invitation_federated. rewrite atomically_ok. intros Ht. tx_inv Ht.
  repeat match goal with R : validate_external_identity_component _ _ _ = Ok _ |- _ =>
    apply validated_component in R; subst end.
  boolp. done.
Qed.

Lemma verified_scope f o ws iss sub (db : Db) a :
  (verified_access f o ws iss sub db).1 = Ok (Some a) ->
  va_organization_id a = o /\ va_workspace_id a = ws /\ connection_issuer f o db = Some iss.
Proof.
  unfold verified_access, reading. cbn [fst]. intros Ht. tx_inv Ht.
  repeat match goal with R : validate_external_identity_component _ _ _ = Ok _ |- _ =>
    apply validated_component in R; subst end.
  destruct (_ && _) eqn:Hg in Ht; [|done]. boolp. destruct (identities db !! (iss, sub)) as [row|]; cbn in *; [|done].
  case_match; [|done]. destruct (effective_role _ _ _ _); cbn in *; by simplify_eq.
Qed.

Lemma admitted_spec now random pending session D a D' :
  admitted now random pending session D a D' ->
  va_organization_id a = sp_organization_id pending /\ va_workspace_id a = sp_workspace_id pending /\
  connection_issuer Saml (sp_organization_id pending) D = Some (so_issuer session) /\
  ei_principal_id <$> identities D' !! (so_issuer session, so_name_id session) = Some (va_principal_id a).
Proof.
  unfold admitted. destruct (sp_invitation_id pending).
  - intros Ha. pose proof (accept_identity _ _ _ _ _ _ _ _ _ _ _ Ha). apply accept_scope in Ha as (? & ? & ?). done.
  - intros [Ha ->]. pose proof (verified_identity_bound _ _ _ _ _ _ _ Ha). apply verified_scope in Ha as (? & ? & ?). done.
Qed.

(** ** The consumer *)

(** The library's answer to the request that was reserved, under the connection's metadata. *)
Definition accepted (runtime : SamlRuntimeConfig) (connection : OrganizationSamlConnection)
    (pending : SamlAuthorizationPending) (value : string) (fields : list (string * string)) (now : Z)
    (replay : BoundedReplayCache) (session : SsoSession) (replay' : BoundedReplayCache) : Prop :=
  exists provider idp request,
    saml_sp (sr_sp_entity_id runtime) (sr_acs_url runtime) (sr_sp_private_key_pem runtime) (sr_sp_certificate_pem runtime)
      = Some provider /\
    from_metadata_xml_for (sc_entity_id connection) (sc_metadata_xml connection) (sc_metadata_signing_cert_pem connection)
      = Some idp /\
    from_snapshot (mkSnapshot (sp_request_id pending) value (sp_idp_entity_id pending) (sp_expected_binding pending) None
      (sp_acs_url pending) (sp_acs_binding pending)) = Some request /\
    finish_sso _ (check_and_store now) provider idp request fields now SAML_STATE_TTL_SECONDS replay = (Some session, replay').

Lemma finish_accepted runtime connection pending value fields now replay session replay' :
  finish_saml runtime connection pending value fields now replay = (Some session, replay') ->
  accepted runtime connection pending value fields now replay session replay'.
Proof.
  unfold finish_saml, sp, idp_descriptor. destruct (entity_id_try_new (sr_sp_entity_id _)); [|done].
  destruct (saml_sp _ _ _ _) as [provider|] eqn:Hsp; [|done]. destruct (entity_id_try_new _); [|done].
  destruct (from_metadata_xml_for _ _ _) as [idp|] eqn:Hidp; [|done]. destruct (relay_state_param _); [|done]. cbn [negb].
  destruct (from_snapshot _) as [request|] eqn:Hr; [|done]. intros Hf. exists provider, idp, request. done.
Qed.

Lemma access_admitted pending session w k D :
  exists found D1, saml_access hmac_sha256 pending session w (k, D) = (found, (S k, D1)) /\
    forall a, found = Ok (Some a) -> admitted (wo_now w k) (wo_random w k 0) pending session (run hmac_sha256 (wo_others w k) D) a D1.
Proof.
  unfold saml_access, admitted, call. destruct (sp_invitation_id pending); cbn [fst snd]; do 2 eexists; (split; [reflexivity|]);
    intros a Hf; [rewrite <- Hf; apply surjective_pairing|done].
Qed.

Lemma session_spec pending session w k D response n D' cookie :
  saml_session hmac_sha256 pending session w (k, D) = (response, (n, D')) -> sm_set_cookie response = Some cookie ->
  exists a D1 issued e,
    admitted (wo_now w k) (wo_random w k 0) pending session (run hmac_sha256 (wo_others w k) D) a D1 /\
    issue_oidc_browser_session (wo_now w (S k)) (wo_random w (S k) 0) a Saml e (run hmac_sha256 (wo_others w (S k)) D1)
      = (Ok issued, D') /\
    session_cookie (is_token issued) SESSION_SECONDS = Ok cookie.
Proof.
  unfold saml_session, next at 1. destruct (access_admitted pending session w k D) as (found & D1 & -> & Ha). intros Hrun Hck.
  destruct found as [[a|]|]; [|by injection Hrun as <- <- <-..].
  unfold next, clock, call in Hrun. cbn [fst snd] in Hrun. destruct (now_unix _) as [t|]; [|by injection Hrun as <- <- <-].
  destruct (i64_max <? _); [by injection Hrun as <- <- <-|].
  destruct (issue_oidc_browser_session _ _ _ _ _ _) as [[issued|] D2] eqn:Hi; cbn [fst snd] in Hrun; [|by injection Hrun as <- <- <-].
  destruct (session_cookie _ _) as [text|] eqn:Hc; [|by injection Hrun as <- <- <-].
  injection Hrun as <- <- <-. injection Hck as <-. exists a, D1, issued. eexists. split_and!; [by apply Ha|exact Hi|done].
Qed.

Lemma acs_spec fields replay w (db : Db) response replay' n (db' : Db) cookie :
  acs hmac_sha256 cfg fields replay w (0%nat, db) = ((response, replay'), (n, db')) -> sm_set_cookie response = Some cookie ->
  exists value answer c runtime pending D1 connection session a D2 issued e,
    (length fields <= MAX_FORM_FIELDS)%nat /\ form_bytes fields <= MAX_FORM_FIELD_BYTES /\
    named "RelayState" fields = [value] /\ named "SAMLResponse" fields = [answer] /\
    mc_cipher cfg = Some c /\ mc_saml cfg = Some runtime /\ open_saml_relay_state c value = Ok tt /\
    consume_saml_authorization_state (wo_now w 0) value (run hmac_sha256 (wo_others w 0) db) = (Ok (Some pending), D1) /\
    saml_connections (run hmac_sha256 (wo_others w 1) D1) !! sp_organization_id pending = Some connection /\
    sc_active connection = true /\
    accepted runtime connection pending value fields (wo_now w 2) replay session replay' /\
    admitted (wo_now w 2) (wo_random w 2 0) pending session
      (run hmac_sha256 (wo_others w 2) (run hmac_sha256 (wo_others w 1) D1)) a D2 /\
    issue_oidc_browser_session (wo_now w 3) (wo_random w 3 0) a Saml e (run hmac_sha256 (wo_others w 3) D2) = (Ok issued, db') /\
    session_cookie (is_token issued) SESSION_SECONDS = Ok cookie.
Proof.
  unfold acs. destruct (mc_tenant_store cfg); [|by intros [= <- <- <- <-]].
  destruct (mc_cipher cfg) as [c|]; [|by intros [= <- <- <- <-]]. destruct (mc_saml cfg) as [runtime|]; [|by intros [= <- <- <- <-]].
  destruct (_ || _) eqn:Hsize; [by intros [= <- <- <- <-]|]. apply orb_false_iff in Hsize as [Hn%Nat.ltb_ge Hb%Z.ltb_ge].
  destruct (named "RelayState" fields) as [|value [|]] eqn:Hv; [by intros [= <- <- <- <-]| |by intros [= <- <- <- <-]].
  destruct (named "SAMLResponse" fields) as [|answer [|]] eqn:Hr; [by intros [= <- <- <- <-]| |by intros [= <- <- <- <-]].
  destruct (open_saml_relay_state c value) as [[]|] eqn:Ho; [|by intros [= <- <- <- <-]].
  unfold next at 1, call at 1. cbn [fst snd].
  destruct (consume_saml_authorization_state _ _ _) as [[[pending|]|] D1] eqn:Hcon; cbn [fst snd]; [|by intros [= <- <- <- <-]..].
  unfold next at 1, call at 1. cbn [fst snd]. change (organization_saml_connection ?o ?D).2 with D.
  change (organization_saml_connection ?o ?D).1 with (Ok (E := string) (saml_connections D !! o)).
  destruct (saml_connections _ !! _) as [connection|] eqn:Hconn; [|by intros [= <- <- <- <-]].
  destruct (sc_active connection) eqn:Hact; cbn [negb]; [|by intros [= <- <- <- <-]].
  unfold next at 1, clock at 1. cbn [fst snd].
  destruct (finish_saml _ _ _ _ _ _ _) as [[session|] replay''] eqn:Hfin; [|by intros [= <- <- <- <-]].
  unfold next at 1. destruct (saml_session _ _ _ w _) as [r [m D']] eqn:Hs. intros [= <- <- <- <-] Hck.
  apply finish_accepted in Hfin. eapply session_spec in Hs as (a & D2 & issued & e & Ha & Hi & Hc); [|exact Hck].
  exists value, answer, c, runtime, pending, D1, connection, session, a, D2, issued, e. split_and!; done.
Qed.

(** ** The whole login *)

Lemma identity_kept trace (D : Db) key p :
  ei_principal_id <$> identities D !! key = Some p -> ei_principal_id <$> identities (run hmac_sha256 trace D) !! key = Some p.
Proof.
  destruct (identities D !! key) as [i|] eqn:Hi; [|done]. intros Hp.
  assert (identities (run hmac_sha256 trace D) !! key = Some i) as ->; [|done].
  apply (run_keeps hmac_sha256 (fun db => identities db !! key = Some i) (fun _ => false)); [|by apply Forall_true|done].
  intros. by apply exec_identity.
Qed.

(** The steps after the state was consumed leave it consumed. *)
Lemma saml_spends h (w : World) pending session D1 a D2 e issued (db' : Db) :
  (forall k, Forall (fun r => reserves_saml h r = false) (wo_others w k)) -> spent_saml h D1 ->
  admitted (wo_now w 2) (wo_random w 2 0) pending session (run hmac_sha256 (wo_others w 2) (run hmac_sha256 (wo_others w 1) D1)) a D2 ->
  issue_oidc_browser_session (wo_now w 3) (wo_random w 3 0) a Saml e (run hmac_sha256 (wo_others w 3) D2) = (Ok issued, db') ->
  spent_saml h db'.
Proof.
  intros Ho Hs Ha Hi. pose proof (exec_spent_saml hmac_sha256 h) as Hexec. pose proof (run_keeps hmac_sha256 _ _ Hexec) as Hrun.
  pose proof (Hrun _ _ (Ho 2%nat) (Hrun _ _ (Ho 1%nat) Hs)) as Hs3.
  assert (spent_saml h D2) as Hs2.
  { unfold admitted in Ha. destruct (sp_invitation_id pending) as [i|]; [|by destruct Ha as [_ ->]].
    specialize (Hexec (RAcceptInvitation (wo_now w 2) (wo_random w 2 0) i (sp_organization_id pending)
      (sp_workspace_id pending) (so_issuer session) (so_name_id session) Saml) _ eq_refl Hs3). cbn [exec] in Hexec.
    by rewrite Ha in Hexec. }
  specialize (Hexec (RIssueSession (wo_now w 3) (wo_random w 3 0) a Saml e) _ eq_refl (Hrun _ _ (Ho 3%nat) Hs2)).
  cbn [exec] in Hexec. by rewrite Hi in Hexec.
Qed.

(** An answer for a spent state sets no cookie. *)
Lemma spent_answer h value fields replay (w : World) (db : Db) :
  named "RelayState" fields = [value] -> oidc_authorization_state_hash value = Ok h -> spent_saml h db ->
  Forall (fun r => reserves_saml h r = false) (wo_others w 0) ->
  sm_set_cookie (acs hmac_sha256 cfg fields replay w (0%nat, db)).1.1 = None.
Proof.
  intros Hv Hh Hs Ho. destruct (acs _ _ _ _ w (0%nat, db)) as [[response replay'] [n db']] eqn:Hf. cbn [fst].
  destruct (sm_set_cookie response) as [cookie|] eqn:Hck; [exfalso|done].
  eapply acs_spec in Hf as (value' & _ & _ & _ & pending & D1 & _ & _ & _ & _ & _ & _ & _ & _ & Hv' & _ & _ & _ & _ & Hcon & _); [|done].
  assert (value' = value) as -> by congruence. apply consume_saml_spec in Hcon as (h' & row & Eh & Hrow & _ & Hc & _).
  assert (h' = h) as -> by congruence.
  pose proof (run_keeps hmac_sha256 _ _ (exec_spent_saml hmac_sha256 h) _ _ Ho Hs) as Hs'. exact (Hs' row Hrow Hc).
Qed.

(** C10. The consumer of a SAML answer sets a session cookie only for a form of bounded size with
    one relay state and one answer. The relay state was sealed under the firewall's own key, reserved,
    not expired and not yet used. The library accepted the answer for the request that was reserved,
    against metadata that the pinned certificate of the organization's active connection
    signed, asking the replay cache; the issuer is the organization's identity provider.
    The cookie's token authenticates at once, in the organization and workspace the login was
    started for, as the principal this very issuer and subject are bound to; and no later answer
    with the same relay state sets a cookie again, until a new login reserves a state with its
    hash. All this whatever other requests commit between the steps. *)
Theorem saml_login_sound fields replay (w : World) (db : Db) response replay' n (db' : Db) cookie :
  acs hmac_sha256 cfg fields replay w (0%nat, db) = ((response, replay'), (n, db')) ->
  sm_set_cookie response = Some cookie ->
  let before := run hmac_sha256 (wo_others w 0) db in
  exists value answer c runtime h row connection session token browser,
    (length fields <= MAX_FORM_FIELDS)%nat /\ form_bytes fields <= MAX_FORM_FIELD_BYTES /\
    named "RelayState" fields = [value] /\ named "SAMLResponse" fields = [answer] /\
    mc_cipher cfg = Some c /\ mc_saml cfg = Some runtime /\ open_saml_relay_state c value = Ok tt /\
    oidc_authorization_state_hash value = Ok h /\ saml_states before !! h = Some row /\
    ss_consumed_at_unix row = None /\ wo_now w 0 <= ss_expires_at_unix row /\
    let pending := ss_pending row in
    let during := run hmac_sha256 (RConsumeSamlState (wo_now w 0) value :: wo_others w 1) before in
    saml_connections during !! sp_organization_id pending = Some connection /\ sc_active connection = true /\
    accepted runtime connection pending value fields (wo_now w 2) replay session replay' /\
    connection_issuer Saml (sp_organization_id pending) (run hmac_sha256 (wo_others w 2) during) = Some (so_issuer session) /\
    session_cookie token SESSION_SECONDS = Ok cookie /\
    (authenticate_oidc_browser_session (wo_now w 3) token db').1 = Ok (Some browser) /\
    va_organization_id (ob_access browser) = sp_organization_id pending /\ workspace_of browser = sp_workspace_id pending /\
    ei_principal_id <$> identities db' !! (so_issuer session, so_name_id session) = Some (principal_of browser) /\
    ((forall k, Forall (fun r => reserves_saml h r = false) (wo_others w k)) ->
     forall trace fields' replay2 w', Forall (fun r => reserves_saml h r = false) trace ->
       (forall k, Forall (fun r => reserves_saml h r = false) (wo_others w' k)) -> named "RelayState" fields' = [value] ->
       sm_set_cookie (acs hmac_sha256 cfg fields' replay2 w' (0%nat, run hmac_sha256 trace db')).1.1 = None).
Proof.
  intros Hf Hck. cbn zeta. eapply acs_spec in Hf as
    (value & answer & c & runtime & pending & D1 & connection & session & a & D2 & issued & e & Hn & Hb & Hv & Hr & Hc & Hrt &
     Ho & Hcon & Hconn & Hact & Hacc & Ha & Hi & Hcookie); [|done].
  pose proof Hcon as (h & row & Eh & Hrow & Hp & Hrc & Hexp & Hspent)%consume_saml_spec.
  pose proof (admitted_spec _ _ _ _ _ _ _ Ha) as (Hao & Haw & Hiss & Hbound).
  pose proof Hi as (_ & Hid & role & Hauth)%issue_spec.
  assert (run hmac_sha256 (RConsumeSamlState (wo_now w 0) value :: wo_others w 1) (run hmac_sha256 (wo_others w 0) db)
          = run hmac_sha256 (wo_others w 1) D1) as Hduring.
  { unfold run at 1. cbn [foldl exec]. by rewrite Hcon. }
  exists value, answer, c, runtime, h, row, connection, session, (is_token issued). eexists.
  rewrite Hduring, Hp. split_and!; try done.
  - cbn. rewrite Hid. by apply identity_kept.
  - intros Ho1 trace fields' replay2 w' Htr Ho2 Hv'. eapply spent_answer; [exact Hv'|exact Eh| |apply Ho2].
    apply (run_keeps hmac_sha256 (spent_saml h) (reserves_saml h)); [apply exec_spent_saml|done|].
    eapply saml_spends; [exact Ho1|exact Hspent|exact Ha|exact Hi].
Qed.
End saml.

(** The consumer URL may carry a password as long as it has no user name. *)
Lemma password_only_url_accepted `{UrlParser, SamlLibrary} entity acs key certificate url password :
  entity_id_try_new (Str.trim entity) = true -> url_parse (Str.trim acs) = Some url ->
  url = mkUrl "https" (Some "fw.acme") EmptyString (Some password) None None SAML_ACS_PATH ->
  (Str.len key <= 1024)%nat -> (Str.len certificate <= 1024)%nat ->
  Str.contains "-----BEGIN" key = true -> Str.contains "-----BEGIN CERTIFICATE-----" certificate = true ->
  from_optional_values (Some entity) (Some acs) (Some key) (Some certificate)
    = Ok (Some (mkSamlRuntime (Str.trim entity) (Str.trim acs) key certificate)).
Proof.
  intros He Hu -> Hk Hc Hb Hb'. unfold from_optional_values. cbn zeta. rewrite He, Hu. cbn [negb url_scheme url_query url_fragment url_username url_path].
  rewrite !bool_decide_eq_true_2 by done. cbn [negb orb].
  rewrite (proj2 (Z.ltb_ge _ _)), (proj2 (Z.ltb_ge _ _)) by lia. cbn [orb]. by rewrite Hb, Hb'.
Qed.

(** ** A login, evaluated *)

(** A library that takes any answer, for the user [dan] of the entity the metadata names, and asks
    the cache for the request it answers. *)
Definition scene_saml : SamlLibrary := {|
  SamlSp := unit; IdpDescriptor := string; PendingAuthnRequest := PendingSnapshot;
  entity_id_try_new := fun _ => true;
  saml_sp := fun _ _ _ _ => Some tt;
  from_metadata_xml_for := fun entity _ _ => Some entity;
  relay_state_param := fun s => (Str.len s <=? 80)%nat;
  start_sso := fun _ idp relay _ _ => Some (mkStarted (mkSnapshot "_r1" relay idp "post" (Some "redirect") "https://fw.acme/auth/saml/acs" "post")
                                              (Some ("https://saml.acme/sso?RelayState=" +:+ relay)));
  from_snapshot := fun s => Some s;
  finish_sso := fun C check _ idp request _ now retention cache =>
    let out := check (mkReplayKey "response" (sh_id request)) (now + retention) cache in
    (match out.1 with Ok _ => Some (mkSsoSession idp "dan") | Err _ => None end, out.2)
|}.

#[local] Existing Instances scene_sha scene_url scene_doc scene_model scene_types scene_value scene_base64 scene_aead scene_saml.

Definition saml_entity : string := "https://saml.acme".
Definition federated : Db := run scene_hmac
  [ RSetSamlConnection 200 org saml_entity "<EntityDescriptor/>" "-----BEGIN CERTIFICATE----- -----END CERTIFICATE-----" true;
    RLinkIdentity 200 user saml_entity "dan" ] deployed.
Definition saml_config : SamlConfig := mkSamlConfig true (Some cipher)
  (Some (mkSamlRuntime "https://fw.acme/saml" "https://fw.acme/auth/saml/acs" "key" "certificate")).
Definition saml_world : World := mkWorld (fun step => 300 + Z.of_nat step)
  (fun step which => Str.take (if (step =? 2)%nat then (if (which =? 0)%nat then 12 else 16) else 32)
                       "0123456789abcdefghijklmnopqrstuvwxyz")
  (fun _ => []) (fun _ _ => Err "offline").

#[local] Abbreviation started := (start_login scene_hmac saml_config org workspace saml_world (0%nat, federated)).
Definition relay : string := Eval vm_compute in
  match sm_location started.1 with Some url => Str.drop (Str.len "https://saml.acme/sso?RelayState=") url | None => EmptyString end.
Definition answer_form : list (string * string) := [("SAMLResponse", "PHNhbWw+"); ("RelayState", relay)].
#[local] Abbreviation finished := (acs scene_hmac saml_config answer_form [] saml_world (0%nat, started.2.2)).

Lemma saml_login_sound_witness :
  exists response replay n db' cookie, finished = ((response, replay), (n, db')) /\ sm_set_cookie response = Some cookie /\
  exists token session, session_cookie token SESSION_SECONDS = Ok cookie /\
    (authenticate_oidc_browser_session 303 token db').1 = Ok (Some session) /\
    (forall fields, named "RelayState" fields = [relay] ->
       sm_set_cookie (acs scene_hmac saml_config fields [] saml_world (0%nat, run scene_hmac [] db')).1.1 = None).
Proof.
  destruct finished as [[response replay] [n db']] eqn:Hf. assert (Hc : exists cookie, sm_set_cookie response = Some cookie).
  { replace response with finished.1.1 by by rewrite Hf. eexists. vm_compute. reflexivity. }
  destruct Hc as [cookie Hc]. exists response, replay, n, db', cookie. split; [reflexivity|]. split; [exact Hc|].
  destruct (saml_login_sound scene_hmac saml_config answer_form [] saml_world started.2.2 response replay n db' cookie Hf Hc)
    as (value & answer & c & runtime & h & row & connection & session & token & browser & _ & _ & Hv & _ & _ & _ & _ & _ & _ & _ & _ &
        _ & _ & _ & _ & Hk & Ha & _ & _ & _ & Honce).
  exists token, browser. split; [exact Hk|]. split; [exact Ha|]. intros fields Hfields.
  assert (value = relay) as -> by (vm_compute in Hv; injection Hv as <-; reflexivity).
  apply Honce; [intros k; constructor|constructor|intros k; constructor|exact Hfields].
Defined.
