(* ===== verification/Startup.v ===== *)
(** How the proxy starts ([proxy/src/main.rs], [proxy/src/config.rs] and [build_firewall] of
    [proxy/src/lib.rs]): its configuration and the environment that overrides it, the checks on both, the two commands
    [migrate] and [preflight], and the service that is put together and listens. A start is a function of the environment
    to its end and to what it asked of the outside, in order. *)
From S2P Require Import Prelude BTree Platform Net F32 Json CoreTypes Scoring CorePolicy Detectors Normalize.
From S2P Require Import Firewall Adapter Event Taint Action Egress AgentPolicy Engine Grant RateLimit Spend.
From S2P Require Import TenantDb TenantDirectory TenantSession TenantPolicy TenantUsage PortalTypes RedisLimits Oidc Saml.
From S2P Require Import ProxyEvents ProxyInput AgentScan Sse Capability ProxyStream Gateway GatewayProps GatewayClaims GatewayScene TenantScene PortalScene.
From Stdlib Require Import String Ascii.
Local Open Scope string_scope.
Local Open Scope Z_scope.
#[local] Abbreviation length := List.length.

(** ** Configuration *)

Record Upstream := mkUpstream { us_openai_base : string; us_anthropic_base : string }.
Record NormalizeCfg := mkNormalizeCfg {
  nc_enabled : bool; nc_strip_zero_width : bool; nc_fold_homoglyphs : bool; nc_decode_encoded : bool }.
Record AgentInspection := mkAgentInspection { ai_enabled : bool; ai_enforce : bool }.
Record ProxyAuth := mkProxyAuth { pa_enabled : bool; pa_token_env : string }.

Inductive TenantStoreBackend := Sqlite | Postgres.
#[export] Instance TenantStoreBackend_eq_dec : EqDecision TenantStoreBackend.
Proof. solve_decision. Defined.

Record TenantStoreConfig := mkTenantStoreConfig {
  ts_enabled : bool; ts_backend : TenantStoreBackend; ts_database_path : string; ts_postgres_url_env : string;
  ts_postgres_ca_cert_file_env : string; ts_postgres_command_timeout_ms : Z; ts_postgres_pool_max_size : Z;
  ts_postgres_pool_wait_timeout_ms : Z; ts_admin_token_env : string; ts_audit_max_rows : nat; ts_audit_queue_capacity : nat }.
Record RedisLimitsConfig := mkRedisLimitsConfig {
  rc_enabled : bool; rc_url_env : string; rc_key_prefix : string; rc_command_timeout_ms : Z; rc_fail_mode : FailMode }.

Record Config := mkStartConfig {
  cf_bind : string; cf_upstream : Upstream; cf_policy_file : option string; cf_fail_mode : FailMode;
  cf_stream_window : nat; cf_max_body_bytes : Z; cf_max_upstream_body_bytes : Z; cf_upstream_timeout_ms : Z;
  cf_stream_idle_timeout_ms : Z; cf_stream_buffer_chunks : Z; cf_max_stream_chunk_bytes : Z; cf_normalize : NormalizeCfg;
  cf_agent_inspection : AgentInspection; cf_proxy_auth : ProxyAuth; cf_rate_limit : RateLimit; cf_spend_limit : SpendLimit;
  cf_tenant_store : TenantStoreConfig; cf_redis_limits : RedisLimitsConfig; cf_capability_policy : CapabilityPolicy;
  cf_output_moderation : OutputModeration }.

Definition upstream_default : Upstream := mkUpstream "https://api.openai.com" "https://api.anthropic.com".
Definition normalize_default : NormalizeCfg := mkNormalizeCfg true true true false.
Definition proxy_auth_default : ProxyAuth := mkProxyAuth false "LLM_FW_PROXY_AUTH_TOKEN".
Definition tenant_store_default : TenantStoreConfig :=
  mkTenantStoreConfig false Sqlite "data/llm-firewall.sqlite" "LLM_FW_POSTGRES_URL" "LLM_FW_POSTGRES_CA_CERT_FILE"
    1000 16 1000 "LLM_FW_ADMIN_TOKEN" (Z.to_nat 100000) (Z.to_nat 10000).
Definition redis_limits_default : RedisLimitsConfig :=
  mkRedisLimitsConfig false "LLM_FW_REDIS_URL" "llm-firewall:v1" 250 FailClosed.
Definition moderation_default : OutputModeration :=
  mkModeration false Flag (f32_lit 8 10) [] "This response was withheld by the output content policy.".

(** The configuration of a file that sets nothing. *)
Definition config_default : Config :=
  mkStartConfig "127.0.0.1:8080" upstream_default None FailClosed 64 (4 * 1024 * 1024) (8 * 1024 * 1024) 120000 30000 8
    (1024 * 1024) normalize_default (mkAgentInspection false false) proxy_auth_default rate_limit_default spend_limit_default
    tenant_store_default redis_limits_default (mkCapabilityPolicy false false [] [] [] []) moderation_default.

(** *** Limits that are never zero *)

Definition upstream_timeout (c : Config) : Z := Z.max (cf_upstream_timeout_ms c) 1.
Definition stream_idle_timeout (c : Config) : Z := Z.max (cf_stream_idle_timeout_ms c) 1.
Definition stream_buffer_capacity (c : Config) : Z := Z.min (Z.max (cf_stream_buffer_chunks c) 1) 64.
Definition rate_limit_window (c : Config) : Z := Z.max (rl_window_seconds (cf_rate_limit c)) 1.

Definition to_normalizer (c : NormalizeCfg) : option Normalizer :=
  if nc_enabled c then Some (mkNormalizer (nc_strip_zero_width c) (nc_fold_homoglyphs c) (nc_decode_encoded c)) else None.

(** *** The environment *)

Definition set_bind (v : string) (c : Config) : Config :=
  mkStartConfig v (cf_upstream c) (cf_policy_file c) (cf_fail_mode c) (cf_stream_window c) (cf_max_body_bytes c)
    (cf_max_upstream_body_bytes c) (cf_upstream_timeout_ms c) (cf_stream_idle_timeout_ms c) (cf_stream_buffer_chunks c)
    (cf_max_stream_chunk_bytes c) (cf_normalize c) (cf_agent_inspection c) (cf_proxy_auth c) (cf_rate_limit c)
    (cf_spend_limit c) (cf_tenant_store c) (cf_redis_limits c) (cf_capability_policy c) (cf_output_moderation c).
Definition set_upstream (v : Upstream) (c : Config) : Config :=
  mkStartConfig (cf_bind c) v (cf_policy_file c) (cf_fail_mode c) (cf_stream_window c) (cf_max_body_bytes c)
    (cf_max_upstream_body_bytes c) (cf_upstream_timeout_ms c) (cf_stream_idle_timeout_ms c) (cf_stream_buffer_chunks c)
    (cf_max_stream_chunk_bytes c) (cf_normalize c) (cf_agent_inspection c) (cf_proxy_auth c) (cf_rate_limit c)
    (cf_spend_limit c) (cf_tenant_store c) (cf_redis_limits c) (cf_capability_policy c) (cf_output_moderation c).
Definition set_proxy_auth (v : ProxyAuth) (c : Config) : Config :=
  mkStartConfig (cf_bind c) (cf_upstream c) (cf_policy_file c) (cf_fail_mode c) (cf_stream_window c) (cf_max_body_bytes c)
    (cf_max_upstream_body_bytes c) (cf_upstream_timeout_ms c) (cf_stream_idle_timeout_ms c) (cf_stream_buffer_chunks c)
    (cf_max_stream_chunk_bytes c) (cf_normalize c) (cf_agent_inspection c) v (cf_rate_limit c)
    (cf_spend_limit c) (cf_tenant_store c) (cf_redis_limits c) (cf_capability_policy c) (cf_output_moderation c).

(** [str::parse::<bool>]. *)
Definition parse_bool (s : string) : option bool :=
  if bool_decide (s = "true") then Some true else if bool_decide (s = "false") then Some false else None.

Definition override {A} (o : option A) (set : A -> Config -> Config) (c : Config) : Config :=
  match o with Some v => set v c | None => c end.

(** Variables win over the file. *)
Definition apply_env (env : string -> option string) (c : Config) : result Config string :=
  let c := override (env "LLM_FW_BIND") set_bind c in
  let c := override (env "LLM_FW_OPENAI_BASE")
             (fun v c => set_upstream (mkUpstream v (us_anthropic_base (cf_upstream c))) c) c in
  let c := override (env "LLM_FW_ANTHROPIC_BASE")
             (fun v c => set_upstream (mkUpstream (us_openai_base (cf_upstream c)) v) c) c in
  match env "LLM_FW_PROXY_AUTH_ENABLED" with
  | None => Ok c
  | Some v =>
      match parse_bool v with
      | None => Err ("LLM_FW_PROXY_AUTH_ENABLED must be 'true' or 'false', got '" +:+ v +:+ "'")
      | Some b => Ok (set_proxy_auth (mkProxyAuth b (pa_token_env (cf_proxy_auth c))) c)
      end
  end.

Definition nonblank (o : option string) : option string :=
  v ← o; if Str.is_empty (Str.trim v) then None else Some v.
Definition nonempty_env (env : string -> option string) (name : string) : option string := nonblank (env name).
Definition select_openai_key (preferred conventional : option string) : option string :=
  match nonblank preferred with Some v => Some v | None => nonblank conventional end.

(** ** The checks *)

Definition is_loopback_bind (bind : string) : bool :=
  match socket_ip bind with Some address => is_loopback address | None => false end.

(** What the program reads of the URL of a backend. *)
Record BackendUrl := mkBackendUrl { bu_scheme : string; bu_host_str : option string; bu_query_pairs : list (string * string) }.

Definition is_none {A} (o : option A) : bool := match o with None => true | Some _ => false end.
(** [cond.then(f).flatten()] *)
Definition then_env (cond : bool) (o : option string) : option string := if cond then o else None.

Definition validate_runtime_security (bind : string) (caller_auth_enabled shared_proxy_auth_enabled : bool)
    (proxy_auth_token : option string) (has_server_side_openai_key : bool) : result unit string :=
  bail_if (shared_proxy_auth_enabled && is_none proxy_auth_token)
    with "proxy_auth is enabled but its token environment variable is empty or absent" in
  bail_if (negb (is_loopback_bind bind) && negb caller_auth_enabled)
    with "a non-loopback bind requires proxy_auth.enabled or tenant_store.enabled" in
  bail_if (has_server_side_openai_key && negb (is_loopback_bind bind))
    with ("server-side OpenAI key fallback requires a literal loopback bind (for example 127.0.0.1:8080); use caller "
          +:+ "Authorization or put authenticated TLS reverse proxy in front of a network-exposed firewall") in
  Ok tt.

Definition is_postgres (c : Config) : bool := bool_decide (ts_backend (cf_tenant_store c) = Postgres).

Definition validate_tenant_store (c : Config) (admin_token postgres_url : option string) (require_admin_token : bool) :
    result unit string :=
  let store := cf_tenant_store c in
  if negb (ts_enabled store) then Ok tt
  else
    bail_if (pa_enabled (cf_proxy_auth c)) 
      with "tenant_store and proxy_auth cannot both be enabled; use tenant tokens instead of a shared proxy token" in
    bail_if (bool_decide (ts_backend store = Sqlite) && Str.is_empty (Str.trim (ts_database_path store)))
      with "tenant_store.database_path cannot be empty when backend is sqlite" in
    bail_if (is_postgres c && Str.is_empty (Str.trim (ts_postgres_url_env store)))
      with "tenant_store.postgres_url_env cannot be empty when backend is postgres" in
    bail_if (is_postgres c && is_none postgres_url)
      with "tenant_store is configured for PostgreSQL but its connection URL environment variable is empty or absent" in
    bail_if (is_postgres c && (ts_postgres_command_timeout_ms store =? 0))
      with "tenant_store.postgres_command_timeout_ms must be greater than zero" in
    bail_if (is_postgres c && (ts_postgres_pool_max_size store =? 0))
      with "tenant_store.postgres_pool_max_size must be greater than zero" in
    bail_if (is_postgres c && (ts_postgres_pool_wait_timeout_ms store =? 0))
      with "tenant_store.postgres_pool_wait_timeout_ms must be greater than zero" in
    bail_if (ts_audit_max_rows store =? 0)%nat with "tenant_store.audit_max_rows must be greater than zero" in
    bail_if (ts_audit_queue_capacity store =? 0)%nat with "tenant_store.audit_queue_capacity must be greater than zero" in
    bail_if (require_admin_token && is_none admin_token)
      with "tenant_store is enabled but its admin token environment variable is empty or absent" in
    Ok tt.

Definition validate_spend_limit (c : Config) : result unit string :=
  let spend := cf_spend_limit c in
  if negb (sl_enabled spend) then Ok tt
  else
    bail_if ((sl_max_usd_micros spend =? 0) || (sl_reserve_usd_micros_per_request spend =? 0))
      with "spend_limit requires nonzero max_usd_micros and reserve_usd_micros_per_request" in
    bail_if (sl_max_usd_micros spend <? sl_reserve_usd_micros_per_request spend)
      with "spend_limit reserve_usd_micros_per_request cannot exceed max_usd_micros" in
    bail_if (length (sl_model_prices spend) =? 0)%nat with "spend_limit requires at least one model_prices entry" in
    Ok tt.

Definition prefix_byte (a : ascii) : bool := Str.is_alnum a || bool_decide (a ∈ [":"%char; "_"%char; "-"%char]).

Definition validate_redis_limits (c : Config) (redis_url : option string) : result unit string :=
  let redis := cf_redis_limits c in
  if negb (rc_enabled redis) then Ok tt
  else
    bail_if (Str.is_empty (Str.trim (rc_url_env redis))) with "redis_limits.url_env cannot be empty" in
    bail_if (is_none redis_url)
      with "redis_limits is enabled but its Redis URL environment variable is empty or absent" in
    bail_if (Str.is_empty (rc_key_prefix redis) || negb (Str.forallb prefix_byte (rc_key_prefix redis)))
      with "redis_limits.key_prefix must contain only ASCII letters, digits, ':', '_' or '-'" in
    Ok tt.

(** ** A start *)

Inductive StartError := Fail (message : string) | Panic (message : string).

(** What is asked of the outside. The arguments of a PostgreSQL connection are the URL, the audit rows
    kept, the three limits of the pool, the certificates to add and whether TLS is required. *)
Inductive StartEffect :=
| OpenSqlite (path : string) (audit_max_rows : nat)
| OpenPostgres (url : string) (audit_max_rows : nat) (command_timeout_ms pool_max_size wait_timeout_ms : Z)
    (ca_cert_file : option string) (tls : bool)
| MigratePostgres (url : string) (audit_max_rows : nat) (command_timeout_ms pool_max_size wait_timeout_ms : Z)
    (ca_cert_file : option string) (tls : bool)
| ConnectRedis (url : string)
| SpawnWebhookWorker
| Listen (bind : string).

(** The running proxy: what its handlers share. *)
Record Service := mkService {
  sv_config : Config; sv_gateway : GatewayConfig; sv_admin_token : option string; sv_cipher : option OidcStateCipher;
  sv_saml : option SamlRuntimeConfig; sv_webhook_key : option string }.

Inductive Exit := MigrationsCurrent | PreflightPassed | Serving (s : Service).

Section startup.
Context `{RegexEngine} `{EntropyPlatform} `{Sha256} `{UrlParser} `{Base64Url} `{SamlLibrary}.
(** The process: its variables once [.env] is loaded, whether that failed, its first argument, and its files. *)
Variable env : string -> option string.
Variable dotenv_failed : bool.
Variable command : option string.
Variable read_file : string -> option string.
Variable is_file : string -> bool.
(** [serde_yaml] on the configuration and on a policy, [reqwest::Url::parse], the building of the client. *)
Variable parse_config : string -> option Config.
Variable parse_policy : string -> option PolicySet.
Variable backend_url : string -> option BackendUrl.
Variable client_ok : bool.
(** What the outside answers: nothing, or an error. *)
Variable outside : StartEffect -> option string.

Definition postgres_tls_required (bind connection_url : string) : bool :=
  if is_loopback_bind bind then false
  else default true (url ← backend_url connection_url; host ← bu_host_str url; Some (negb (bool_decide (host = "postgres")))).

Definition validate_postgres_ca_cert_file (c : Config) (postgres_ca_cert_file : option string) : result unit string :=
  bail_if (ts_enabled (cf_tenant_store c) && is_postgres c
           && match postgres_ca_cert_file with Some path => negb (is_file path) | None => false end)
    with "LLM_FW_POSTGRES_CA_CERT_FILE must point to a readable PEM certificate file" in
  Ok tt.

Definition sslmode (url : BackendUrl) : option string :=
  Str.to_ascii_lowercase ∘ snd <$> List.find (fun kv => Str.eq_ignore_ascii_case kv.1 "sslmode") (bu_query_pairs url).

Definition validate_postgres_transport (postgres_url : option string) : result unit string :=
  let? url := ok_or postgres_url "network-exposed PostgreSQL deployment requires its URL" in
  let? parsed := ok_or (backend_url url) "LLM_FW_POSTGRES_URL is not a valid URL" in
  bail_if (negb (bool_decide (bu_scheme parsed ∈ ["postgres"; "postgresql"])))
    with "LLM_FW_POSTGRES_URL must use the postgres:// or postgresql:// scheme" in
  bail_if (negb (bool_decide (bu_host_str parsed = Some "postgres")) && negb (bool_decide (sslmode parsed = Some "require")))
    with "network-exposed PostgreSQL requires sslmode=require" in
  Ok tt.

Definition validate_redis_transport (redis_url : option string) : result unit string :=
  let? url := ok_or redis_url "network-exposed Redis deployment requires its URL" in
  let? parsed := ok_or (backend_url url) "LLM_FW_REDIS_URL is not a valid URL" in
  bail_if (negb (bool_decide (bu_host_str parsed = Some "redis")) && negb (bool_decide (bu_scheme parsed = "rediss")))
    with "network-exposed Redis requires a rediss:// TLS URL" in
  Ok tt.

Definition validate_production_transports (c : Config) (postgres_url redis_url : option string) : result unit string :=
  if is_loopback_bind (cf_bind c) then Ok tt
  else
    let? _u := (if ts_enabled (cf_tenant_store c) && is_postgres c then validate_postgres_transport postgres_url else Ok tt) in
    if rc_enabled (cf_redis_limits c) then validate_redis_transport redis_url else Ok tt.

(** The five detectors, the last without a model, over the policy of the file or one that allows. *)
Definition ModerationDetector : Detector := mkDetector "moderation" (fun _ => []).
Definition build_firewall (c : Config) : result Firewall string :=
  let? policy := match cf_policy_file c with
                 | Some p => ok_or (read_file p ≫= parse_policy) "policy file is unreadable or invalid"
                 | None => ok_or (parse_policy "default: allow") "default policy is invalid"
                 end in
  let fw := firewall_new [InjectionDetector; SecretDetector; PiiDetector; OutputDetector; ModerationDetector] policy in
  Ok (match to_normalizer (cf_normalize c) with Some n => with_normalizer n fw | None => fw end).

(** [WebhookSigningKey::from_base64url] *)
Definition webhook_signing_key (encoded : string) : result string string :=
  let? bytes := ok_or (base64url_decode (Str.trim encoded)) "webhook signing key must be base64url" in
  bail_if (negb (Str.len bytes =? 32)%nat) with "webhook signing key must decode to exactly 32 bytes" in
  Ok bytes.

(** *** Steps *)

Definition Start (A : Type) : Type := result A StartError * list StartEffect.
Definition done {A} (x : A) : Start A := (Ok x, []).
Definition lift {A} (r : result A string) : Start A :=
  (match r with Ok x => Ok x | Err e => Err (Fail e) end, []).
(** [o.expect(message)] *)
Definition expect {A} (o : option A) (message : string) : Start A :=
  (match o with Some x => Ok x | None => Err (Panic message) end, []).
Definition perform (e : StartEffect) : Start unit :=
  (match outside e with None => Ok tt | Some m => Err (Fail m) end, [e]).
Definition and_then {A B} (m : Start A) (k : A -> Start B) : Start B :=
  match m with
  | (Ok x, l) => let '(r, l') := k x in (r, (l ++ l')%list)
  | (Err e, l) => (Err e, l)
  end.
#[local] Notation "'go' x := m 'in' k" := (and_then m (fun x => k))
  (at level 10, x name, m at level 100, k at level 200).

(** *** What the environment says *)

Definition load_config : result Config string :=
  let? text := ok_or (read_file "firewall.yaml") "firewall.yaml cannot be read" in
  let? c := ok_or (parse_config text) "firewall.yaml is invalid" in
  apply_env env c.

Definition openai_api_key : option string :=
  select_openai_key (nonempty_env env "LLM_FW_OPENAI_API_KEY") (nonempty_env env "OPENAI_API_KEY").
Definition proxy_auth_token (c : Config) : option string :=
  then_env (pa_enabled (cf_proxy_auth c)) (nonempty_env env (pa_token_env (cf_proxy_auth c))).
Definition admin_token (c : Config) : option string :=
  then_env (ts_enabled (cf_tenant_store c)) (nonempty_env env (ts_admin_token_env (cf_tenant_store c))).
Definition redis_url (c : Config) : option string :=
  then_env (rc_enabled (cf_redis_limits c)) (nonempty_env env (rc_url_env (cf_redis_limits c))).
Definition uses_postgres (c : Config) : bool := ts_enabled (cf_tenant_store c) && is_postgres c.
Definition postgres_url (c : Config) : option string :=
  then_env (uses_postgres c) (nonempty_env env (ts_postgres_url_env (cf_tenant_store c))).
Definition postgres_ca_cert_file (c : Config) : option string :=
  then_env (uses_postgres c) (nonempty_env env (ts_postgres_ca_cert_file_env (cf_tenant_store c))).

Definition postgres_args (c : Config) (url : string)
    (k : string -> nat -> Z -> Z -> Z -> option string -> bool -> StartEffect) : StartEffect :=
  let store := cf_tenant_store c in
  k url (ts_audit_max_rows store) (ts_postgres_command_timeout_ms store) (ts_postgres_pool_max_size store)
    (ts_postgres_pool_wait_timeout_ms store) (postgres_ca_cert_file c) (postgres_tls_required (cf_bind c) url).

Definition runtime_security (c : Config) : result unit string :=
  validate_runtime_security (cf_bind c) (pa_enabled (cf_proxy_auth c) || ts_enabled (cf_tenant_store c))
    (pa_enabled (cf_proxy_auth c)) (proxy_auth_token c) (negb (is_none openai_api_key)).

(** *** [migrate] *)

Definition migrate (c : Config) : Start Exit :=
  go _u := lift (validate_tenant_store c None (postgres_url c) false) in
  go _u := lift (validate_postgres_ca_cert_file c (postgres_ca_cert_file c)) in
  go _u := lift (bail_if (negb (is_postgres c)) with "`llm-firewall migrate` requires tenant_store.backend: postgres" in Ok tt) in
  go url := expect (postgres_url c) "validated PostgreSQL tenant-store URL" in
  go _u := perform (postgres_args c url MigratePostgres) in
  done MigrationsCurrent.

(** *** [preflight] *)

Definition checked_saml (c : Config) : result (option SamlRuntimeConfig) string :=
  if ts_enabled (cf_tenant_store c) then from_env env else Ok None.
Definition checked_cipher (encoded : option string) : result (option OidcStateCipher) string :=
  match encoded with
  | None => Ok None
  | Some encoded_key => let? c := from_base64url_key encoded_key in Ok (Some c)
  end.

Definition preflight (c : Config) : Start Exit :=
  go _u := lift (validate_spend_limit c) in
  go _u := lift (validate_tenant_store c (admin_token c) (postgres_url c) true) in
  go _u := lift (validate_postgres_ca_cert_file c (postgres_ca_cert_file c)) in
  go _u := lift (validate_redis_limits c (redis_url c)) in
  go _u := lift (validate_production_transports c (postgres_url c) (redis_url c)) in
  go _k := lift (checked_cipher (nonempty_env env "LLM_FW_OIDC_STATE_KEY")) in
  go _s := lift (checked_saml c) in
  go _u := lift (runtime_security c) in
  go _f := lift (build_firewall c) in
  done PreflightPassed.

(** *** The service *)

(** The store, with its audit queue and, where there is a key, its webhooks; the key. *)
Definition open_store (c : Config) : Start (option string) :=
  if negb (ts_enabled (cf_tenant_store c)) then done None
  else
    go _u := (match ts_backend (cf_tenant_store c) with
              | Sqlite => perform (OpenSqlite (ts_database_path (cf_tenant_store c)) (ts_audit_max_rows (cf_tenant_store c)))
              | Postgres =>
                  go url := expect (postgres_url c) "validated PostgreSQL tenant-store URL" in
                  perform (postgres_args c url OpenPostgres)
              end) in
    match nonempty_env env "LLM_FW_WEBHOOK_SIGNING_KEY" with
    | None => done None
    | Some encoded =>
        go key := lift (webhook_signing_key encoded) in
        go _u := perform SpawnWebhookWorker in
        done (Some key)
    end.

Definition connect_redis (c : Config) : Start (option RedisLimits) :=
  match redis_url c with
  | None => done None
  | Some url => go _u := perform (ConnectRedis url) in done (Some (mkRedisLimits (rc_key_prefix (cf_redis_limits c))))
  end.

(** The part of the shared state that model requests read. *)
Definition gateway_config (c : Config) (firewall : Firewall) (redis : option RedisLimits) : GatewayConfig :=
  let store := cf_tenant_store c in
  mkGatewayConfig
    (mkProxyConfig (ai_enabled (cf_agent_inspection c)) (ai_enforce (cf_agent_inspection c)) (cf_fail_mode c)
       (cf_capability_policy c) (cf_stream_window c) (cf_max_stream_chunk_bytes c))
    firewall (pa_enabled (cf_proxy_auth c)) (proxy_auth_token c) (ts_enabled store)
    (if ts_enabled store then Some (Nat.max (ts_audit_queue_capacity store) 1) else None) (ts_audit_max_rows store)
    (cf_rate_limit c) (cf_spend_limit c) redis (rc_fail_mode (cf_redis_limits c))
    (us_openai_base (cf_upstream c)) (us_anthropic_base (cf_upstream c)) openai_api_key (cf_output_moderation c)
    (cf_max_upstream_body_bytes c).

Definition serve (c : Config) : Start Exit :=
  go cipher := lift (checked_cipher (then_env (ts_enabled (cf_tenant_store c)) (nonempty_env env "LLM_FW_OIDC_STATE_KEY"))) in
  go saml := lift (checked_saml c) in
  go _u := lift (validate_spend_limit c) in
  go firewall := lift (build_firewall c) in
  go _u := lift (validate_tenant_store c (admin_token c) (postgres_url c) true) in
  go _u := lift (validate_postgres_ca_cert_file c (postgres_ca_cert_file c)) in
  go _u := lift (validate_redis_limits c (redis_url c)) in
  go _u := lift (validate_production_transports c (postgres_url c) (redis_url c)) in
  go webhook_key := open_store c in
  go redis := connect_redis c in
  go _u := lift (runtime_security c) in
  go _u := perform (Listen (cf_bind c)) in
  done (Serving (mkService c (gateway_config c firewall redis) (admin_token c) cipher saml webhook_key)).

Definition main : Start Exit :=
  go _u := lift (bail_if dotenv_failed with "failed to load .env" in Ok tt) in
  go _u := lift (match command with
                 | Some name =>
                     bail_if (negb (bool_decide (name ∈ ["migrate"; "preflight"])))
                       with "unknown command `" +:+ name +:+ "`; supported commands: migrate, preflight" in Ok tt
                 | None => Ok tt
                 end) in
  go c := lift load_config in
  go _u := lift (bail_if (negb client_ok) with "the HTTP client cannot be built" in Ok tt) in
  if bool_decide (command = Some "migrate") then migrate c
  else if bool_decide (command = Some "preflight") then preflight c
  else serve c.
End startup.

(** * What a start promises *)

(** The bounds on the stream and on time hold whatever the file says. *)
Lemma limits_positive (c : Config) :
  1 <= upstream_timeout c /\ 1 <= stream_idle_timeout c /\ 1 <= stream_buffer_capacity c <= 64 /\ 1 <= rate_limit_window c.
Proof. unfold upstream_timeout, stream_idle_timeout, stream_buffer_capacity, rate_limit_window. lia. Qed.

(** ** Steps that went well *)

Lemma and_then_ok {A B} (m : Start A) (k : A -> Start B) y l :
  and_then m k = (Ok y, l) -> exists x l1 l2, m = (Ok x, l1) /\ k x = (Ok y, l2) /\ l = (l1 ++ l2)%list.
Proof.
  unfold and_then. destruct m as [[x|e] l1]; [|done]. destruct (k x) as [r l2] eqn:E. intros [= -> <-]. eauto 6.
Qed.

Lemma lift_ok {A} (r : result A string) (x : A) l : lift r = (Ok x, l) -> r = Ok x /\ l = [].
Proof. unfold lift. destruct r; intros [=]; by subst. Qed.

Lemma lift_then_ok {A B} (r : result A string) (k : A -> Start B) y l :
  and_then (lift r) k = (Ok y, l) -> exists x, r = Ok x /\ k x = (Ok y, l).
Proof.
  intros (x & l1 & l2 & [Hr ->]%lift_ok & Hk & ->)%and_then_ok. eauto.
Qed.

Lemma perform_then_ok {B} outside e (k : unit -> Start B) y l :
  and_then (perform outside e) k = (Ok y, l) -> exists l', l = e :: l' /\ k tt = (Ok y, l') /\ outside e = None.
Proof.
  intros (x & l1 & l2 & Hp & Hk & ->)%and_then_ok. unfold perform in Hp. destruct (outside e) eqn:E; [done|].
  injection Hp as <- <-. eauto.
Qed.

Lemma lift_then_first {A B} (r : result A string) (k : A -> Start B) y :
  (and_then (lift r) k).1 = Ok y <-> exists x, r = Ok x /\ (k x).1 = Ok y.
Proof.
  unfold and_then, lift. destruct r as [x|e]; cbn; [|naive_solver]. destruct (k x) as [z l] eqn:E. cbn.
  split; [intros ->; exists x; by rewrite E|]. intros (x' & [= <-] & Hk). by rewrite E in Hk.
Qed.

Lemma perform_then_first {B} outside e (k : unit -> Start B) y :
  outside e = None -> (and_then (perform outside e) k).1 = Ok y <-> (k tt).1 = Ok y.
Proof. intros He. unfold and_then, perform. rewrite He. by destruct (k tt). Qed.

Section promises.
Context `{UnicodeTables} `{RegexEngine} `{EntropyPlatform} `{LiteralIter} `{TextCrates}.
Context `{Sha256} `{TenantSession.UrlParser} `{Base64Url} `{SamlLibrary} `{!JsonCodec TenantModelPolicy}.
Variable env : string -> option string.
Variable dotenv_failed : bool.
Variable command : option string.
Variable read_file : string -> option string.
Variable is_file : string -> bool.
Variable parse_config : string -> option Config.
Variable parse_policy : string -> option PolicySet.
Variable backend_url : string -> option BackendUrl.
Variable client_ok : bool.
Variable outside : StartEffect -> option string.

Abbreviation main_with c :=
  (main env dotenv_failed c read_file is_file parse_config parse_policy backend_url client_ok outside).

(** A connection that leaves the host is encrypted, but to the private services of the bundled deployment. *)
Definition encrypted (e : StartEffect) : Prop :=
  match e with
  | OpenPostgres url _ _ _ _ _ tls =>
      exists parsed, backend_url url = Some parsed /\
        (bu_host_str parsed = Some "postgres" \/ tls = true /\ sslmode parsed = Some "require")
  | ConnectRedis url =>
      exists parsed, backend_url url = Some parsed /\ (bu_host_str parsed = Some "redis" \/ bu_scheme parsed = "rediss")
  | _ => True
  end.

Lemma serve_ok c exit effects :
  serve env read_file is_file parse_policy backend_url outside c = (Ok exit, effects) ->
  exists cipher saml firewall webhook_key redis l1 l2,
    exit = Serving (mkService c (gateway_config env c firewall redis) (admin_token env c) cipher saml webhook_key) /\
    validate_spend_limit c = Ok tt /\ build_firewall read_file parse_policy c = Ok firewall /\
    validate_tenant_store c (admin_token env c) (postgres_url env c) true = Ok tt /\
    validate_redis_limits c (redis_url env c) = Ok tt /\
    validate_production_transports backend_url c (postgres_url env c) (redis_url env c) = Ok tt /\
    runtime_security env c = Ok tt /\
    open_store env backend_url outside c = (Ok webhook_key, l1) /\ connect_redis env outside c = (Ok redis, l2) /\
    effects = (l1 ++ l2 ++ [Listen (cf_bind c)])%list.
Proof.
  unfold serve. intros Hs.
  apply lift_then_ok in Hs as (cipher & _ & Hs). apply lift_then_ok in Hs as (saml & _ & Hs).
  apply lift_then_ok in Hs as ([] & Hspend & Hs). apply lift_then_ok in Hs as (firewall & Hfw & Hs).
  apply lift_then_ok in Hs as ([] & Htenant & Hs). apply lift_then_ok in Hs as ([] & _ & Hs).
  apply lift_then_ok in Hs as ([] & Hredis & Hs). apply lift_then_ok in Hs as ([] & Htransport & Hs).
  apply and_then_ok in Hs as (key & l1 & l & Hstore & Hs & ->). apply and_then_ok in Hs as (redis & l2 & l' & Hconn & Hs & ->).
  apply lift_then_ok in Hs as ([] & Hsec & Hs). apply perform_then_ok in Hs as (l3 & -> & Hs & _).
  injection Hs as <- <-. do 7 eexists. split_and!; [reflexivity|done..].
Qed.

Lemma main_serves service effects :
  main_with command = (Ok (Serving service), effects) ->
  exists c, load_config env read_file parse_config = Ok c /\
    serve env read_file is_file parse_policy backend_url outside c = (Ok (Serving service), effects).
Proof.
  unfold main. intros Hm. apply lift_then_ok in Hm as ([] & _ & Hm). apply lift_then_ok in Hm as ([] & _ & Hm).
  apply lift_then_ok in Hm as (c & Hc & Hm). apply lift_then_ok in Hm as ([] & _ & Hm). exists c. split; [done|].
  case_bool_decide.
  { unfold migrate in Hm. do 3 apply lift_then_ok in Hm as ([] & _ & Hm).
    apply and_then_ok in Hm as (url & l1 & l2 & _ & Hm & _). by apply perform_then_ok in Hm as (l & _ & [=] & _). }
  case_bool_decide; [|done]. unfold preflight in Hm.
  do 5 apply lift_then_ok in Hm as ([] & _ & Hm). do 2 apply lift_then_ok in Hm as (? & _ & Hm).
  apply lift_then_ok in Hm as ([] & _ & Hm). by apply lift_then_ok in Hm as (? & _ & [=]).
Qed.

Lemma open_store_effects c key effects :
  open_store env backend_url outside c = (Ok key, effects) -> is_loopback_bind (cf_bind c) = false ->
  validate_production_transports backend_url c (postgres_url env c) (redis_url env c) = Ok tt ->
  Forall encrypted effects.
Proof.
  unfold open_store, validate_production_transports. intros Ho Hb Hv. rewrite Hb in Hv. ok_inv Hv.
  destruct (ts_enabled (cf_tenant_store c)) eqn:Hen; cbn [negb andb] in *; [|injection Ho as _ <-; constructor].
  apply and_then_ok in Ho as ([] & l1 & l2 & Hopen & Hkey & ->).
  assert (Forall encrypted l2) as Hl2.
  { destruct (nonempty_env env _); [|by injection Hkey as _ <-]. apply lift_then_ok in Hkey as (k & _ & Hkey).
    apply perform_then_ok in Hkey as (l & -> & [= _ <-] & _). by repeat constructor. }
  apply Forall_app. split; [|done]. clear Hkey Hl2. unfold is_postgres in *.
  destruct (ts_backend (cf_tenant_store c)) eqn:Hbk; cbn in R.
  { unfold perform in Hopen. injection Hopen as _ <-. by repeat constructor. }
  apply and_then_ok in Hopen as (url & l3 & l4 & He & Hp & ->). unfold expect in He.
  destruct (postgres_url env c) as [u|] eqn:Hu; [|done]. injection He as -> <-. unfold perform in Hp. injection Hp as _ <-.
  repeat constructor. rewrite bool_decide_eq_true_2 in R by done.
  unfold validate_postgres_transport in R. cbn [ok_or] in R. ok_inv R. unfold ok_or in R0.
  destruct (backend_url url) as [?|] eqn:Hurl; simplify_eq. exists a0. split; [done|].
  unfold postgres_tls_required. rewrite Hb, Hurl. cbn [mbind option_bind].
  destruct (bool_decide (bu_host_str a0 = Some "postgres")) eqn:Hhost; boolp; [by left|]. right.
  cbn [negb andb] in G0. boolp. split; [|done]. destruct (bu_host_str a0) as [host|]; cbn; [|done].
  apply negb_true_iff, bool_decide_eq_false. congruence.
Qed.

Lemma connect_redis_effects c redis effects :
  connect_redis env outside c = (Ok redis, effects) -> is_loopback_bind (cf_bind c) = false ->
  validate_production_transports backend_url c (postgres_url env c) (redis_url env c) = Ok tt ->
  Forall encrypted effects.
Proof.
  unfold connect_redis, validate_production_transports. intros Hc Hb Hv. rewrite Hb in Hv.
  destruct (redis_url env c) as [url|] eqn:Hu; [|injection Hc as _ <-; constructor].
  apply perform_then_ok in Hc as (l & -> & [= _ <-] & _). ok_inv Hv.
  assert (rc_enabled (cf_redis_limits c) = true) as Hen by (unfold redis_url, then_env in Hu; by case_match).
  rewrite Hen in Hv. unfold validate_redis_transport in Hv. cbn [ok_or] in Hv. ok_inv Hv. unfold ok_or in R0.
  destruct (backend_url url) as [?|] eqn:Hurl; simplify_eq. repeat constructor. exists a0. split; [done|].
  destruct (bool_decide (bu_host_str a0 = Some "redis")) eqn:Hhost; boolp; [by left|]. right. cbn in G. by boolp.
Qed.

(** Callers are authenticated and there is no key of the deployment to spend. *)
Lemma runtime_security_exposed c :
  runtime_security env c = Ok tt -> is_loopback_bind (cf_bind c) = false ->
  openai_api_key env = None /\ (pa_enabled (cf_proxy_auth c) = true \/ ts_enabled (cf_tenant_store c) = true) /\
  (pa_enabled (cf_proxy_auth c) = true -> is_Some (proxy_auth_token env c)).
Proof.
  unfold runtime_security, validate_runtime_security. intros Hr Hb. rewrite Hb in Hr. ok_inv Hr. cbn [negb andb] in *.
  apply negb_false_iff, orb_prop in G0. rewrite andb_true_r in G1. apply negb_false_iff in G1. split_and!.
  - by destruct (openai_api_key env).
  - done.
  - intros Hp. rewrite Hp in G. by destruct (proxy_auth_token env c).
Qed.

Lemma admin_token_required c :
  validate_tenant_store c (admin_token env c) (postgres_url env c) true = Ok tt -> ts_enabled (cf_tenant_store c) = true ->
  is_Some (admin_token env c) /\ pa_enabled (cf_proxy_auth c) = false.
Proof.
  unfold validate_tenant_store. intros Hv He. rewrite He in Hv. cbn [negb] in Hv. ok_inv Hv. cbn [andb] in *.
  by destruct (admin_token env c).
Qed.

(** A request that is sent on was sent for an admitted caller, with the caller's own credentials. *)
Lemma sent_for_caller from_str to_string classifier cfg request w g r s' url headers body :
  gateway from_str to_string classifier cfg request w (mkRun 0 g []) = (r, s') ->
  SentUpstream url headers body ∈ ru_effects s' ->
  exists access, known w cfg (mkRun 0 g []) (presented_token (mr_headers request)) access /\ may_send cfg (mr_headers request) headers.
Proof.
  intros Hg Hin. apply gateway_cases in Hg as (l & Hl & Hh). cbn in Hl. rewrite Hl in Hin.
  apply handled_sent in Hh as [[Ha _]|(access & s1 & started & rh & lh & la & Hc & Hk & Hrate & Hw & -> & Hla & _)].
  { rewrite Forall_forall in Ha. by apply Ha in Hin. }
  eapply forwarded_sent in Hw; [|exact Hla|exact Hin]. destruct Hw as [_ [Hm _]]. eauto.
Qed.

(** C13. A proxy that is reachable from the network is closed: when it starts to serve on an address that is not a
    loopback one, listening was the last thing it did, after every check; it holds no provider key of its own; its
    callers have to present a tenant's token (and its administrators the configured one) or the shared token, which is not
    blank; PostgreSQL and Redis are reached over TLS unless they are the private services of the bundled
    deployment; and whatever a model request and the other requests do, one that reaches a provider came with a
    valid token and carries no credential but the caller's. *)
Theorem exposed_proxy_closed service effects :
  main_with command = (Ok (Serving service), effects) -> is_loopback_bind (cf_bind (sv_config service)) = false ->
  let cfg := sv_gateway service in
  last effects = Some (Listen (cf_bind (sv_config service))) /\ Forall encrypted effects /\
  gc_openai_api_key cfg = None /\
  ((gc_tenant_store cfg = true /\ is_Some (sv_admin_token service)) \/
   (gc_tenant_store cfg = false /\ gc_proxy_auth_enabled cfg = true /\
    exists expected, gc_proxy_auth_token cfg = Some expected /\ Str.trim expected <> EmptyString)) /\
  forall from_str to_string classifier request w g r s' url headers body,
    gateway from_str to_string classifier cfg request w (mkRun 0 g []) = (r, s') ->
    SentUpstream url headers body ∈ ru_effects s' ->
    ((exists tenant, (authenticate_bearer (ar_unix w 0) (presented_token (mr_headers request)) (gw_db (ar_others w 0 g))).1
                     = Ok (Some tenant)) \/
     (exists expected, gc_proxy_auth_token cfg = Some expected /\
        presented_token (mr_headers request) = Some ("Bearer " +:+ expected))) /\
    forall name value, (name, value) ∈ headers -> header_get name (mr_headers request) = Some value.
Proof.
  intros Hm Hb. apply main_serves in Hm as (c & _ & Hs). apply serve_ok in Hs
    as (cipher & saml & fw & key & redis & l1 & l2 & [= ->] & _ & _ & Htenant & _ & Htr & Hsec & Hstore & Hredis & ->).
  cbn [sv_config sv_gateway sv_admin_token] in *. destruct (runtime_security_exposed _ Hsec Hb) as (Hkey & Hauth & Htok).
  assert (Hlocked : (ts_enabled (cf_tenant_store c) = true /\ is_Some (admin_token env c)) \/
    (ts_enabled (cf_tenant_store c) = false /\ pa_enabled (cf_proxy_auth c) = true /\
     exists expected, proxy_auth_token env c = Some expected /\ Str.trim expected <> EmptyString)).
  { destruct (ts_enabled (cf_tenant_store c)) eqn:He; [left; split; [done|by apply admin_token_required]|right].
    destruct Hauth as [Hpa|]; [|done]. destruct (Htok Hpa) as [expected Hexp]. split_and!; [done..|]. exists expected.
    split; [done|]. unfold proxy_auth_token, then_env, nonempty_env, nonblank in Hexp. rewrite Hpa in Hexp.
    destruct (env _) as [v|]; [|done]. cbn in Hexp. destruct (Str.is_empty (Str.trim v)) eqn:Ht; simplify_eq.
    by destruct (Str.trim expected). }
  split_and!.
  - by rewrite app_assoc, last_snoc.
  - repeat (apply Forall_app; split); [by eapply open_store_effects|by eapply connect_redis_effects|by repeat constructor].
  - done.
  - done.
  - intros from_str to_string classifier request w g r s' url headers body Hg Hin.
    destruct (sent_for_caller _ _ _ _ _ _ _ _ _ _ _ _ Hg Hin) as (access & Hk & Hsend). split.
    + unfold known in Hk. cbn [gc_tenant_store gateway_config gc_proxy_auth_enabled gc_proxy_auth_token ru_step ru_gw] in *.
      destruct Hlocked as [[He _]|(He & Hpa & _)]; rewrite He in Hk.
      * destruct Hk as (tenant & limits & policy & _ & Hk & _). left. eauto.
      * destruct Hk as [_ Hk]. right. eauto.
    + intros name value Hnv. apply Hsend in Hnv as [_ [Hget|(k & Hk' & _)]]; [done|].
      cbn [gc_openai_api_key gateway_config] in Hk'. congruence.
Qed.

(** ** What the dry run says about a start *)

(** Checks only: nothing is asked of the outside. *)
Lemma lift_then_effects {A B} (r : result A string) (k : A -> Start B) :
  (forall x, (k x).2 = []) -> (and_then (lift r) k).2 = [].
Proof. intros Hk. unfold and_then, lift. destruct r as [x|e]; [|done]. specialize (Hk x). by destruct (k x). Qed.

Lemma preflight_silent c : (preflight env read_file is_file parse_policy backend_url c).2 = [].
Proof. unfold preflight. by repeat (apply lift_then_effects; intros ?). Qed.

(** The checks the two have in common. *)
Definition sound_config (c : Config) : Prop :=
  validate_spend_limit c = Ok tt /\ validate_tenant_store c (admin_token env c) (postgres_url env c) true = Ok tt /\
  validate_postgres_ca_cert_file is_file c (postgres_ca_cert_file env c) = Ok tt /\
  validate_redis_limits c (redis_url env c) = Ok tt /\
  validate_production_transports backend_url c (postgres_url env c) (redis_url env c) = Ok tt /\
  (exists saml, checked_saml env c = Ok saml) /\ runtime_security env c = Ok tt /\
  exists firewall, build_firewall read_file parse_policy c = Ok firewall.

Definition state_key_ok : Prop := exists cipher, checked_cipher (nonempty_env env "LLM_FW_OIDC_STATE_KEY") = Ok cipher.
Definition webhook_key_ok : Prop :=
  forall encoded, nonempty_env env "LLM_FW_WEBHOOK_SIGNING_KEY" = Some encoded ->
    exists key, webhook_signing_key encoded = Ok key.

Lemma preflight_iff c :
  (preflight env read_file is_file parse_policy backend_url c).1 = Ok PreflightPassed <-> sound_config c /\ state_key_ok.
Proof.
  unfold preflight, sound_config, state_key_ok. repeat setoid_rewrite lift_then_first. cbn [done fst].
  split.
  - intros ([] & ? & [] & ? & [] & ? & [] & ? & [] & ? & ? & ? & ? & ? & [] & ? & ? & ? & _). eauto 12.
  - intros ((? & ? & ? & ? & ? & [? ?] & ? & [? ?]) & [? ?]). repeat (eexists; split; [eassumption|]). done.
Qed.

Lemma open_store_iff c :
  (forall e, outside e = None) ->
  validate_tenant_store c (admin_token env c) (postgres_url env c) true = Ok tt ->
  (exists key, (open_store env backend_url outside c).1 = Ok key) <-> (ts_enabled (cf_tenant_store c) = true -> webhook_key_ok).
Proof.
  intros Hout Hv. unfold open_store. destruct (ts_enabled (cf_tenant_store c)) eqn:Hen; cbn [negb]; [|cbn; naive_solver].
  assert (forall k : unit -> Start (option string), forall key,
    (and_then (match ts_backend (cf_tenant_store c) with
       | Sqlite => perform outside (OpenSqlite (ts_database_path (cf_tenant_store c)) (ts_audit_max_rows (cf_tenant_store c)))
       | Postgres => and_then (expect (postgres_url env c) "validated PostgreSQL tenant-store URL")
           (fun url => perform outside (postgres_args env backend_url c url OpenPostgres)) end) k).1 = Ok key <->
    (k tt).1 = Ok key) as Hopen.
  { intros k key. destruct (ts_backend (cf_tenant_store c)) eqn:Hbk; [by apply perform_then_first|].
    unfold validate_tenant_store in Hv. rewrite Hen in Hv. cbn [negb] in Hv. ok_inv Hv. unfold is_postgres in *.
    rewrite Hbk in *. cbn [andb] in *. destruct (postgres_url env c) as [url|]; [|done].
    unfold and_then at 2, expect. unfold perform. rewrite Hout. cbn. by destruct (k tt). }
  setoid_rewrite Hopen. unfold webhook_key_ok. destruct (nonempty_env env _) as [encoded|]; [|cbn; naive_solver].
  setoid_rewrite lift_then_first. split.
  - intros (_ & key & Hk & _) _ encoded' [= <-]. eauto.
  - intros Hw. destruct (Hw eq_refl encoded eq_refl) as [key Hk]. exists (Some key), key. split; [done|].
    by apply perform_then_first.
Qed.

Lemma then_first {A B} (m : Start A) (k : A -> Start B) y :
  (and_then m k).1 = Ok y <-> exists x, m.1 = Ok x /\ (k x).1 = Ok y.
Proof.
  unfold and_then. destruct m as [[x|e] l]; cbn; [|naive_solver]. destruct (k x) as [z l'] eqn:E. cbn.
  split; [intros ->; exists x; by rewrite E|]. intros (x' & [= <-] & Hk). by rewrite E in Hk.
Qed.

Lemma serve_iff c :
  (forall e, outside e = None) ->
  (exists service, (serve env read_file is_file parse_policy backend_url outside c).1 = Ok (Serving service)) <->
  sound_config c /\ (ts_enabled (cf_tenant_store c) = true -> webhook_key_ok /\ state_key_ok).
Proof.
  intros Hout. unfold serve. repeat setoid_rewrite then_first. split.
  - intros (service & cipher & Hc & saml & Hsaml & [] & Hsp & fw & Hfw & [] & Hts & [] & Hca & [] & Hr & [] & Htr & key & Hk &
      redis & Hred & [] & Hsec & _).
    assert (forall A (r : result A string) x, (lift r).1 = Ok x -> r = Ok x) as Hl by (intros A [] ?; cbn; congruence).
    apply Hl in Hc, Hsaml, Hsp, Hfw, Hts, Hca, Hr, Htr, Hsec.
    split; [unfold sound_config; eauto 12|]. intros Hen. split; [|rewrite Hen in Hc; by exists cipher].
    revert Hen. apply open_store_iff; eauto.
  - intros ((Hsp & Hts & Hca & Hr & Htr & [saml Hsaml] & Hsec & [fw Hfw]) & Hkeys).
    assert (exists cipher, checked_cipher (then_env (ts_enabled (cf_tenant_store c))
      (nonempty_env env "LLM_FW_OIDC_STATE_KEY")) = Ok cipher) as [cipher Hc].
    { destruct (ts_enabled (cf_tenant_store c)); [by apply Hkeys|by exists None]. }
    destruct (proj2 (open_store_iff c Hout Hts)) as [key Hk]; [by intros [? _]%Hkeys|].
    assert (exists redis, (connect_redis env outside c).1 = Ok redis) as [redis Hred].
    { unfold connect_redis. destruct (redis_url env c) as [url|]; [|by eexists]. eexists. by apply perform_then_first. }
    eexists. exists cipher. split; [unfold lift; by rewrite Hc|]. exists saml. split; [unfold lift; by rewrite Hsaml|].
    exists tt. split; [unfold lift; by rewrite Hsp|]. exists fw. split; [unfold lift; by rewrite Hfw|].
    exists tt. split; [unfold lift; by rewrite Hts|]. exists tt. split; [unfold lift; by rewrite Hca|].
    exists tt. split; [unfold lift; by rewrite Hr|]. exists tt. split; [unfold lift; by rewrite Htr|].
    exists key. split; [done|]. exists redis. split; [done|]. exists tt. split; [unfold lift; by rewrite Hsec|].
    exists tt. split; [unfold perform; by rewrite Hout|]. done.
Qed.

(** C22. The dry run decides whether a start will succeed: it asks nothing of the outside, and where every
    backend and the address are available, the proxy serves exactly when the dry run passes, but for two
    keys: a webhook key that the start refuses and the dry run does not look at, and a malformed state key that
    the dry run refuses and a start without a tenant store does not look at. *)
Theorem preflight_predicts_start c :
  load_config env read_file parse_config = Ok c -> dotenv_failed = false -> client_ok = true ->
  (main_with (Some "preflight")).2 = [] /\
  ((forall e, outside e = None) ->
   (exists service, (main_with None).1 = Ok (Serving service)) /\ (ts_enabled (cf_tenant_store c) = false -> state_key_ok) <->
   (main_with (Some "preflight")).1 = Ok PreflightPassed /\ (ts_enabled (cf_tenant_store c) = true -> webhook_key_ok)).
Proof.
  intros Hc Hd Hcl.
  assert (forall k : Config -> Start Exit, and_then (lift (load_config env read_file parse_config)) k =
    k c) as Hload by (intros k; rewrite Hc; unfold and_then, lift; by destruct (k c)).
  unfold main. rewrite Hd, Hcl. cbn [negb].
  assert (forall k : unit -> Start Exit, and_then (lift (Ok tt)) k = k tt) as Hunit
    by (intros k; unfold and_then, lift; by destruct (k tt)).
  rewrite !Hunit, !Hload, !Hunit.
  rewrite (bool_decide_eq_false_2 (Some "preflight" = Some "migrate")), (bool_decide_eq_true_2 (Some "preflight" = Some "preflight")) by done.
  rewrite (bool_decide_eq_false_2 (None = Some "migrate")), (bool_decide_eq_false_2 (None = Some "preflight")) by done.
  split; [apply preflight_silent|]. intros Hout.
  rewrite (serve_iff c Hout), preflight_iff. destruct (ts_enabled (cf_tenant_store c)); naive_solver.
Qed.
End promises.

(** ** Starts *)

#[local] Existing Instances scene_sha scene_url scene_model scene_base64 scene_saml.
#[local] Existing Instances ascii_tables demo_engine demo_entropy demo_iter demo_text_crates.

(** Three configurations: the default one; one behind a shared token; one with tenants in PostgreSQL and limits in Redis. *)
Definition with_store (bind : string) (auth : bool) (store : TenantStoreConfig) (redis : bool) : Config :=
  mkStartConfig bind upstream_default None FailClosed 64 4096 4096 1000 1000 8 4096 normalize_default
    (mkAgentInspection false false) (mkProxyAuth auth "LLM_FW_PROXY_AUTH_TOKEN") rate_limit_default spend_limit_default store
    (mkRedisLimitsConfig redis "LLM_FW_REDIS_URL" "llm-firewall:v1" 250 FailClosed)
    (mkCapabilityPolicy false false [] [] [] []) moderation_default.
Definition postgres_store (enabled : bool) : TenantStoreConfig :=
  mkTenantStoreConfig enabled Postgres "data/x" "LLM_FW_POSTGRES_URL" "LLM_FW_POSTGRES_CA_CERT_FILE" 1000 16 1000
    "LLM_FW_ADMIN_TOKEN" 100 100.
Definition demo_yaml (text : string) : option Config :=
  if bool_decide (text = "default") then Some config_default
  else if bool_decide (text = "open") then Some (with_store "0.0.0.0:8080" false tenant_store_default false)
  else if bool_decide (text = "shared") then Some (with_store "0.0.0.0:8080" true tenant_store_default false)
  else if bool_decide (text = "tenants") then Some (with_store "0.0.0.0:8080" false (postgres_store true) true)
  else if bool_decide (text = "disabled") then Some (with_store "127.0.0.1:8080" false (postgres_store false) false)
  else None.
Definition demo_vars (extra : list (string * string)) (name : string) : option string :=
  snd <$> List.find (fun kv => bool_decide (kv.1 = name))
    (extra ++ [("LLM_FW_PROXY_AUTH_TOKEN", "shared"); ("LLM_FW_ADMIN_TOKEN", "root"); ("LLM_FW_POSTGRES_URL", "pg");
               ("LLM_FW_REDIS_URL", "rediss")])%list.
Definition demo_backend (s : string) : option BackendUrl :=
  if bool_decide (s = "pg") then Some (mkBackendUrl "postgres" (Some "db.example") [("SSLMode", "Require")])
  else if bool_decide (s = "plain") then Some (mkBackendUrl "postgres" (Some "db.example") [])
  else if bool_decide (s = "rediss") then Some (mkBackendUrl "rediss" (Some "cache.example") []) else None.
Definition demo_start (extra : list (string * string)) (file : string) (command : option string) : Start Exit :=
  main (demo_vars extra) false command (fun _ => Some file) (fun _ => true) demo_yaml
    (fun _ => Some (mkPolicySet [] ActAllow)) demo_backend true (fun _ => None).
Definition ended (s : Start Exit) : string * list StartEffect :=
  (match s.1 with
   | Ok MigrationsCurrent => "migrated" | Ok PreflightPassed => "passed" | Ok (Serving v) => cf_bind (sv_config v)
   | Err (Fail m) => m | Err (Panic m) => "panic: " +:+ m
   end, s.2).

Example demo_starts :
  ended (demo_start [] "default" None) = ("127.0.0.1:8080", [Listen "127.0.0.1:8080"]) /\
  ended (demo_start [] "open" None) = ("a non-loopback bind requires proxy_auth.enabled or tenant_store.enabled", []) /\
  ended (demo_start [] "tenants" None) =
    ("0.0.0.0:8080", [OpenPostgres "pg" 100 1000 16 1000 None true; ConnectRedis "rediss"; Listen "0.0.0.0:8080"]) /\
  ended (demo_start [("LLM_FW_POSTGRES_URL", "plain")] "tenants" None) =
    ("network-exposed PostgreSQL requires sslmode=require", []) /\
  ended (demo_start [] "tenants" (Some "migrate")) = ("migrated", [MigratePostgres "pg" 100 1000 16 1000 None true]) /\
  ended (demo_start [] "shared" (Some "preflight")) = ("passed", []).
Proof. split_and!; vm_compute; reflexivity. Qed.

(** A key on an address of the network is refused only after the database and Redis were opened. *)
Lemma refused_after_opening :
  (ended (demo_start [("OPENAI_API_KEY", "sk")] "tenants" None)).2
  = [OpenPostgres "pg" 100 1000 16 1000 None true; ConnectRedis "rediss"] /\
  is_ok (demo_start [("OPENAI_API_KEY", "sk")] "tenants" None).1 = false.
Proof. split; vm_compute; reflexivity. Qed.

(** [migrate] with the store switched off: the checks pass over it, and the URL they should have seen is not there. *)
Lemma migrate_without_store_panics :
  ended (demo_start [] "disabled" (Some "migrate")) = ("panic: validated PostgreSQL tenant-store URL", []).
Proof. vm_compute. reflexivity. Qed.

(** The plaintext URL that a start refuses is not looked at by [migrate]. *)
Lemma migrate_skips_transport_check :
  ended (demo_start [("LLM_FW_POSTGRES_URL", "plain")] "tenants" (Some "migrate"))
  = ("migrated", [MigratePostgres "plain" 100 1000 16 1000 None true]).
Proof. vm_compute. reflexivity. Qed.

(** The dry run passes and the start fails: the webhook key. *)
Lemma preflight_misses_webhook_key :
  (ended (demo_start [("LLM_FW_WEBHOOK_SIGNING_KEY", "AAAA")] "tenants" (Some "preflight"))).1 = "passed" /\
  (ended (demo_start [("LLM_FW_WEBHOOK_SIGNING_KEY", "AAAA")] "tenants" None)).1 =
    "webhook signing key must decode to exactly 32 bytes".
Proof. split; vm_compute; reflexivity. Qed.

Lemma exposed_proxy_closed_witness :
  exists service effects, demo_start [] "tenants" None = (Ok (Serving service), effects) /\
    last effects = Some (Listen "0.0.0.0:8080") /\ is_Some (sv_admin_token service) /\ gc_openai_api_key (sv_gateway service) = None.
Proof.
  assert (match (demo_start [] "tenants" None).1 with
          | Ok (Serving v) => bool_decide (cf_bind (sv_config v) = "0.0.0.0:8080") && gc_tenant_store (sv_gateway v)
          | _ => false end = true) as Hs by (vm_compute; reflexivity).
  destruct (demo_start [] "tenants" None) as [[[| |service]|] effects] eqn:E; try done.
  cbn [fst] in Hs. apply andb_prop in Hs as [Hb%bool_decide_eq_true Hst]. exists service, effects.
  destruct (exposed_proxy_closed (demo_vars []) false None (fun _ => Some "tenants") (fun _ => true) demo_yaml
    (fun _ => Some (mkPolicySet [] ActAllow)) demo_backend true (fun _ => None) service effects E) as (Hl & _ & Hk & Hlock & _).
  { rewrite Hb. vm_compute. reflexivity. }
  rewrite Hb in Hl. split_and!; [done|done| |done]. destruct Hlock as [[_ Ha]|[Hf _]]; [done|congruence].
Defined.

Lemma preflight_predicts_start_witness : exists service, (demo_start [] "tenants" None).1 = Ok (Serving service).
Proof.
  destruct (preflight_predicts_start (demo_vars []) false (fun _ => Some "tenants") (fun _ => true) demo_yaml
    (fun _ => Some (mkPolicySet [] ActAllow)) demo_backend true (fun _ => None)
    (with_store "0.0.0.0:8080" false (postgres_store true) true) eq_refl eq_refl eq_refl) as [_ Hiff].
  refine (proj1 (proj2 (Hiff (fun _ => eq_refl)) (conj _ _))).
  - vm_compute. reflexivity.
  - intros _ encoded [=].
Defined.
